(* ===== verification/_CoqProject ===== *)
-Q . S2P
Prelude.v
PyStr.v
PyVal.v
StepState.v
Messages.v
Tracking.v
Dag.v
DagFacts.v
Scheduler.v
SchedulerFacts.v
SchedulerInv.v
SchedulerProps.v
SchedulerRun.v
SchedulerThms.v
Context.v
Checkpoint.v
ContextFacts.v
Artifacts.v
ArtifactsFacts.v
Retry.v
Step.v
StepFacts.v
StepThms.v
RunningTasks.v
ModelStats.v
ModelStatsFacts.v
RateLimit.v
Registry.v
Router.v
SmartRouter.v
SmartRouterFacts.v
Bulkhead.v
Expressions.v
ExpressionsFacts.v
Consensus.v
Pipeline.v
PipelineFacts.v
Governance.v
Tools.v
ToolsFacts.v
Budget.v
Redis.v
UrlGuard.v
Scoring.v
Memory.v
MemoryFacts.v
Mcp.v
McpManager.v
Sanitize.v
Detectors.v
DetectorsFacts.v
ClientCache.v
LlmClient.v
LlmClientFacts.v
Executor.v
ExecutorFacts.v
JsonExtract.v
Capabilities.v
Planning.v
Orchestrator.v
OrchestratorFacts.v
AgentLoop.v
Auth.v
AuthFacts.v
Replay.v
ReplayFacts.v
CanonicalJson.v
AuditLog.v
JsonRepair.v
LlmOutput.v
LlmOutputFacts.v
AgentStep.v
Loader.v
Judge.v
ScoringCriteria.v
EvalScoring.v
DatasetMatching.v
RunResults.v
LangGraph.v
LangNodes.v
