(* ===== verification/Prelude.v ===== *)
(** * Agentic Runtime Platform: verification library (root file)

    The Agentic Runtime Platform runs workflows of LLM steps.  A workflow is a DAG
    or a pipeline of steps; an executor schedules the steps over a shared context;
    a step calls a model through a router that learns which models are healthy, or
    calls tools behind an approval gate; agents loop over a model and its tools, and
    an orchestrator plans subtasks for them; a server authenticates the callers,
    records an audit log and replays events.  This library models that core, the
    package src/agentic-workflows-v2/agentic_v2, as executable definitions and
    step relations and proves what makes it correct.  File names below are relative
    to that package.

    ** Parts

    Foundations.  [Prelude] (this file): exceptions and the error monad [res],
    insertion-ordered dictionaries [odict], stable sorting, lemmas and tactics.
    [PyStr]: Python's text functions on ASCII.  [PyVal]: dynamic values, their numbers
    and their JSON.

    Engine.
    - [StepState] (engine/step_state.py): the lifecycle table and manager.
    - [Messages] (contracts/messages.py): statuses, step and workflow results.
    - [Tracking], [Context], [ContextFacts] (engine/context.py): step tracking; contexts
      in a store of linked scopes; [Checkpoint]: save and restore.
    - [Dag], [DagFacts] (engine/dag.py): validation, ordering, readiness.
    - [Scheduler] (engine/dag_executor.py): the state of a run, one definition per
      helper, and [mstep], the interleaving of the scheduling coroutine with its step
      tasks.  [SchedulerFacts], [SchedulerInv], [SchedulerProps], [SchedulerRun] build the
      invariant; [SchedulerThms] has the claims.
    - [Step] (engine/step.py): [execute] in a state and exception monad, against the
      interface [Collaborators]; [StepFacts], [StepThms].  [RunningTasks]: the registry
      behind [cancel].  [Retry]: retry policies, also core/errors.py,
      models/retry_utils.py and integrations/mcp/runtime/backoff.py.
    - [Expressions], [ExpressionsFacts] (engine/expressions.py): the sandboxed evaluator.
    - [Pipeline], [PipelineFacts] (engine/pipeline.py): elements, groups, branches,
      checkpoints, against the interfaces [PipelineEnv] and [PipelineLaws].
    - [Executor], [ExecutorFacts] (engine/executor.py): validation of a definition, the
      dispatch to DAG, pipeline, step or list, the history, against [ExecutorEnv].
    - [Consensus] (engine/consensus.py): voting and self-consistency.
    - [Artifacts], [ArtifactsFacts] (artifact_contracts.py): contracts of step values.
    - [Loader] (workflows/loader.py): a parsed YAML mapping becomes a definition with its
      evaluation block and its DAG of steps.
    - [AgentStep] (engine/agent_resolver.py, engine/prompt_assembly.py,
      artifact_overlay.py): what an agent name runs, the deterministic steps and the LLM
      step with its prompt, its tool loop and its placeholder, against [AgentEnv].
    - [RunResults] (contracts/result_conversion.py, server/result_normalization.py): raw
      steps and the results of runners as contract results, the inputs of an evaluated run.
    - [LangGraph] (langchain/state.py, expressions.py, graph.py, graph_wiring.py): the state
      of the graph runtime with its reducers, and the wiring of a workflow into a graph,
      which a library behind the interface [Runtime] runs; [LangNodes] (langchain/graph_wiring.py, result_builder.py, runner.py): what its nodes
      do, against [LangEnv], and the result of a run.
    - [JsonRepair], [LlmOutput], [LlmOutputFacts] (engine/llm_output_parsing.py): the
      repair of damaged JSON, the candidates of a reply, artifacts between sentinels, the
      review report.

    Models.
    - [ModelStats], [ModelStatsFacts] (models/model_stats.py): statistics and breaker.
    - [RateLimit] (models/rate_limit_tracker.py): token buckets, headers.
    - [Registry] (models/model_registry.py): cost lanes and ceilings.
    - [Router] (models/router.py): chains and scopes.
    - [SmartRouter], [SmartRouterFacts] (models/smart_router.py, fallback_selector.py):
      selection, cooldowns, error classification and the fallback loops.
    - [Bulkhead] (models/smart_router.py): concurrent calls of a provider.
    - [Redis] (models/redis_state.py): counters shared by workers.
    - [ClientCache] (models/client.py, models/cache_budget.py): the response cache and the
      token budget; [LlmClient], [LlmClientFacts] (models/client.py, ek_provider.py,
      ek_adapters.py): completions on the legacy and the default path.
    - [Sanitize] (contracts/sanitization.py, middleware/): the chain of
      detectors and its policy; [Detectors], [DetectorsFacts] (middleware/detectors/).

    Tools and agents.
    - [Governance] (governance/approval.py, escalation.py): the approval gate, handoffs.
    - [Tools], [ToolsFacts] (tools/base.py, tools/registry.py, engine/tool_execution.py).
    - [Budget] (integrations/mcp/results/budget.py): truncation to a token budget.
    - [UrlGuard] (security/url_guard.py): the screening of outbound URLs, against a
      resolver and an address parser; the address classes are computed.
    - [Mcp] (integrations/mcp/protocol/client.py): the JSON-RPC client as
      events over its table of pending requests; [McpManager]
      (integrations/mcp/runtime/manager.py): connections, attempts and their backoff.
    - [Memory], [MemoryFacts] (agents/memory.py): the sliding window of a conversation,
      its summaries, case facts and crash-recovery manifest.
    - [AgentLoop] (agents/base.py): the life of an agent.
    - [JsonExtract] (agents/json_extraction.py): JSON inside replies.
    - [Capabilities], [Planning], [Orchestrator], [OrchestratorFacts]
      (agents/capabilities.py, agents/orchestrator*.py): plans of subtasks, assignment of
      agents by capability, execution in batches with fallbacks.

    Server.
    - [Auth], [AuthFacts] (server/auth.py, server/websocket.py): keys, lockout, origins.
    - [Replay], [ReplayFacts] (server/replay_store.py): the event stores.
    - [CanonicalJson]: sorted JSON text and a reader of it; [AuditLog]
      (server/audit_log.py): the hash chain, its logger and its stores.
    Scoring.
    - [Scoring] (evaluation/normalization.py,
      scoring/criterion_aggregation.py, scoring/multidimensional_scoring.py,
      workflows/lib/ci_calculator.py): normalised scores, weighted criteria, the
      research gate and stop gate, the confidence index, the best round.
    - [ScoringCriteria] (scoring/scoring_criteria.py, scoring/scoring_profiles.py,
      scoring/eval_config.py): the scores of criteria, grades, the hybrid score;
      [Judge] (scoring/judge.py): the LLM judge; [EvalScoring]
      (scoring/evaluation_scoring.py): rubric, gates, floors and verdict of a run;
      [DatasetMatching] (scoring/dataset_matching.py): samples as workflow inputs.

    ** How they interact

    The scheduler needs of a step its name and dependencies ([DagStep]) and treats a
    step task as an arbitrary outcome; [Step.execute] is such a task, and shares the
    contexts of [Context] and the tracking of [Tracking] with it.  [Step] calls
    [Artifacts], [Retry] and the evaluator through [Collaborators].  [Pipeline] calls a
    step executor and asyncio through [PipelineEnv].  [Executor] validates with [Dag],
    and runs the DAG, the pipeline or the steps through [ExecutorEnv].  [SmartRouter] is
    built on [Router], [Registry], [ModelStats] and [RateLimit]; [Bulkhead] runs calls
    over a [SmartRouter]; [Redis] persists the [ModelStats] of several workers;
    [LlmClient] composes [SmartRouter], [Sanitize] and [ClientCache].  [Tools] calls the
    gate of [Governance].  [McpManager] makes clients of [Mcp] with the backoff of
    [Retry]; [Memory] saves itself through JSON.  [AgentLoop] uses [Tools],
    [Governance] and [Memory]; [Orchestrator] uses the validation of [Dag], the handoffs of
    [Governance], [Capabilities] and [Planning].  [AuditLog] writes [CanonicalJson] to a
    store behind [AuditStore], whose contract is [FaithfulStore].
    [Loader] parses contracts with [Artifacts], binds each step by [AgentStep.resolve_agent]
    and adds it to a [Dag]; [AgentStep] gives [Step] its step functions, calls [Tools] and
    reads replies with [LlmOutput], which repairs them with [JsonRepair].  [EvalScoring] scores
    the results of [Messages] with the criteria of [ScoringCriteria] and the evaluation block
    of [Loader], asks [Judge] behind [JudgeBackend], and takes compatibility from
    [DatasetMatching].  [LangNodes] are the nodes of the graphs [LangGraph] wires; they share
    [Artifacts], [Consensus], [LlmOutput] and the overlay of [AgentStep] with the native
    engine, and their records become results by [RunResults].

    ** What the theorems show

    - Every interleaving of the scheduler: steps start after their dependencies, at most
      the allowed number at once, never deadlock, terminate, and leave one terminal
      result per step, also at a timeout ([SchedulerThms]).
    - A step settles within its budgets, errors stay in the attempt, rejected outputs
      stay out of the context ([StepThms]).
    - The DAG algorithms against graph definitions ([DagFacts]).
    - Contexts: the views agree, writes are local; a checkpoint comes back, a rejected
      one is contained ([ContextFacts], [Checkpoint]).
    - Expressions: validated expressions evaluate, cannot reach dunders, stay bounded.
    - Pipelines and executor runs: fail-fast, settling, progress counts, checkpoint
      intervals, a bracketed history.
    - Routing: selection is optimal among the eligible, fallbacks do not repeat, the
      breaker trips and recovers at its thresholds, buckets bound what they grant.
    - Concurrency: the bulkhead refines an abstract admission control; the counters of
      the workers are added exactly once.
    - Completions: of a prompt a provider sees only the screened text (the keyword
      arguments go unscreened), cached replies come back while fresh, masking covers exactly
      the detected spans.
    - Tools: nothing gated runs unapproved; rounds, contracts and texts are bounded.
      An accepted URL leads into no internal range and to no metadata endpoint.
    - MCP: a request gets the answer to its own id, closing reaches every request, the
      first attempt decides a connection, refused credentials are left alone.
    - Memory: the window and the summaries stay bounded, nothing is dropped without a
      summary, a manifest recovers the buffer.
    - Agents: a run settles within its iterations; JSON in a reply is found.  Plans
      settle every subtask in the order of the dependencies, try agents by score, and
      end.
    - Server: guesses of the key over HTTP are bounded and addresses independent; the
      replay stores refine one log, the SQLite one statement by statement; a verified audit
      chain is tamper-evident and what a logger writes to a store that stores a record or
      nothing verifies; canonical JSON reads back.
    - Scoring: the research gate does not compensate, the two gates agree, scores stay
      in [0, 1], the best round is the best ([Scoring]).
    - Model output: a repair is one closed object made of the input's characters, undamaged
      JSON is kept, a review always has a status to gate on ([JsonRepair],
      [LlmOutputFacts]).
    - Agent steps: a review fails closed, rework loses no file, the tool loop is bounded
      ([AgentStep]).  A definition that loads can run, an evaluation block that loads is
      well formed ([Loader]).
    - Graph runtime: the graph is wired as the steps declare, and its runs follow the
      dependencies and miss no step ([LangGraph]); in a superstep every node settles its
      step, one that ran before only if its update is the last, and a loop that runs alone
      is bounded ([LangNodes]).  A
      converted run is a success only on recorded evidence ([RunResults]).
    - Evaluation: the judge accepts complete answers only ([Judge]); payloads satisfy their
      schema and state the verdict of score, floors and gates; a hollow run never passes
      ([EvalScoring]).

    ** Conventions and bounds

    Clock readings are arguments; times are exact rationals or integers of microseconds,
    floats are exact rationals, and infinities and NaN are outside the model.  Strings
    are ASCII.  Values are immutable: the modelled code copies before it changes a
    nested value.  One run of an agent instance goes on at a time, and exceptions are
    those of [PyExc], cancellation included (no [KeyboardInterrupt] or [SystemExit]).  Logging, metrics and event handlers cannot affect the modelled
    state and are left out.  An [await] is a point where other coroutines act: it is a
    transition of the step relations, or an arbitrary computation on the world.

    Fuel occurs where a loop is not structural.  The searches of [Dag] take theirs from
    the size of the plan, the attempts of [Step] from the retry and loop budgets, the
    waiting loop of a group in [Pipeline] from the number of its tasks, the trim of
    [Memory] from the length of the window, the attempts of [McpManager] from the
    limit of the backoff, the skipping of subtasks in [Orchestrator] from their number,
    the loop of [AgentLoop] from its iterations, the reader of [CanonicalJson] from the
    length of the text, the provider loop of [LlmClient] from the fixed number of its
    fallbacks, the work list of [LlmOutput] from the size of the value; in each case a theorem shows that the fuel suffices.

    ** Not modelled

    Model backends and the discovery of local models (HTTP and SDK calls), the HTTP endpoints
    of the server, the builders of chat models, checkpoints and streams of the graph runtime,
    the file log of the native runner, and the subprocesses of verification commands are I/O
    or glue around libraries.  The graph library is any instance of [Runtime], whose
    laws are its documented behaviour; [free_runtime] is one.  The text of a YAML file and
    access to files, the analysis of Python code by its syntax tree (the tier-0 parser), the
    delegation of a tool loop to the optional package, regular expressions and date parsers
    that the modelled code calls are parameters. *)

From stdpp Require Export base decidable option list gmap strings relations.
From Stdlib Require Export ZArith Lia.
From stdpp Require Import sorting.

(** ** Python exceptions and the error monad *)

(** The exceptions the modelled code raises.  [MissingDependencyError] and
    [CycleDetectedError] (engine/dag.py) are subclasses of [ValueError] and
    carry the data the Python constructor stores on the instance.
    [OutOfFuel] is not a Python exception: a fuelled loop of the model answers
    it when its fuel runs out, and every such loop has a theorem excluding it. *)
Inductive exn :=
  | ValueError (msg : string)
  | TypeError (msg : string)
  | KeyError (key : string)
  | RuntimeError (msg : string)
  | MissingDependencyError (step missing_dep : string)
  | CycleDetectedError (cycle_path : list string)
  | ConfigurationError (msg : string)
  | WorkflowLoadError (msg : string)
  | AssertionError (msg : string)
  | NameError (name : string)
  | AttributeError (name : string)
  | SyntaxError
  | ZeroDivisionError
  | OutOfFuel.

#[export] Instance exn_eq_dec : EqDecision exn.
Proof. solve_decision. Defined.

(** A call either returns a value or raises. *)
Inductive res (A : Type) :=
  | Ok (a : A)
  | Raise (e : exn).
Arguments Ok {A} a.
Arguments Raise {A} e.

#[export] Instance res_eq_dec {A} `{EqDecision A} : EqDecision (res A).
Proof. solve_decision. Defined.

#[export] Instance res_ret : MRet res := fun A a => Ok a.
#[export] Instance res_bind : MBind res := fun A B f m =>
  match m with Ok a => f a | Raise e => Raise e end.

Definition is_ok {A} (r : res A) : bool :=
  match r with Ok _ => true | Raise _ => false end.

Lemma res_bind_ok {A B} (f : A -> res B) (m : res A) (b : B) :
  m ≫= f = Ok b -> exists a, m = Ok a /\ f a = Ok b.
Proof. destruct m as [a|e]; [eauto | discriminate]. Qed.

(** A property of every state a list of operations leads to. *)
Lemma fold_left_ind {A B} (P : A -> Prop) (f : A -> B -> A) (l : list B) (a : A) :
  P a -> (forall a b, P a -> P (f a b)) -> P (fold_left f l a).
Proof. intros Ha Hf. revert a Ha. induction l; simpl; eauto. Qed.

(** ** Fuelled loops

    A Python [while] loop is a step function that either continues with a new
    state or leaves the loop with a result. *)
Section loop.
  Context {S R : Type} (step : S -> S + R).

Fixpoint run_loop (fuel : nat) (s : S) : option R :=
    match fuel with
    | 0 => None
    | Datatypes.S n =>
        match step s with
        | inl s' => run_loop n s'
        | inr r => Some r
        end
    end.

  (** A measure that every iteration decreases bounds the fuel needed. *)
Lemma run_loop_total (I : S -> Prop) (mu : S -> nat) :
    (forall s s', I s -> step s = inl s' -> I s' /\ mu s' < mu s) ->
    forall fuel s, I s -> mu s < fuel -> exists r, run_loop fuel s = Some r.
  Proof.
    intros Hstep fuel. induction fuel as [|n IH]; intros s HI Hlt; [lia|].
    simpl. destruct (step s) as [s'|r] eqn:E; [|eauto].
    destruct (Hstep s s' HI E). apply IH; [done|lia].
  Qed.

  (** Loop-invariant rule. *)
Lemma run_loop_inv (I : S -> Prop) (P : R -> Prop) :
    (forall s s', I s -> step s = inl s' -> I s') ->
    (forall s r, I s -> step s = inr r -> P r) ->
    forall fuel s r, I s -> run_loop fuel s = Some r -> P r.
  Proof.
    intros Hpres Hexit fuel. induction fuel as [|n IH]; intros s r HI; simpl; [done|].
    destruct (step s) as [s'|r'] eqn:E; eauto.
    intros [= <-]. eauto.
  Qed.
End loop.

(** ** Insertion-ordered dictionaries

    A Python [dict] with string keys iterates in insertion order; assigning an
    existing key keeps its position.  Where the code iterates over the dict the
    model keeps the order; where it only looks keys up the model uses [gmap]. *)
Abbreviation odict V := (list (string * V)).

Section odict.
  Context {V : Type}.
  Implicit Types (d : odict V) (k : string) (v : V).

Fixpoint od_get k d : option V :=
    match d with
    | [] => None
    | (k', v) :: d' => if decide (k = k') then Some v else od_get k d'
    end.

Fixpoint od_set k v d : odict V :=
    match d with
    | [] => [(k, v)]
    | (k', v') :: d' => if decide (k = k') then (k, v) :: d' else (k', v') :: od_set k v d'
    end.

Definition od_keys d : list string := d.*1.
Definition od_mem k d : bool := bool_decide (k ∈ od_keys d).
Definition od_pop k d : odict V := filter (fun kv => kv.1 ≠ k) d.
Definition od_update d (new : odict V) : odict V :=
    fold_left (fun acc kv => od_set kv.1 kv.2 acc) new d.

Lemma od_get_set_eq k v d : od_get k (od_set k v d) = Some v.
  Proof.
    induction d as [|[k' v'] d IH]; csimpl; [by rewrite decide_True|].
    destruct (decide (k = k')); csimpl; [by rewrite decide_True|by rewrite decide_False].
  Qed.

Lemma od_get_set_ne k k' v d : k ≠ k' -> od_get k (od_set k' v d) = od_get k d.
  Proof.
    intros Hne. induction d as [|[k1 v1] d IH]; csimpl; [by rewrite decide_False|].
    destruct (decide (k' = k1)) as [->|]; csimpl.
    - by rewrite !(decide_False (P := k = k1)).
    - case_decide; done.
  Qed.

Lemma od_get_set k k' v d :
    od_get k (od_set k' v d) = if decide (k = k') then Some v else od_get k d.
  Proof. case_decide; subst; [apply od_get_set_eq | by apply od_get_set_ne]. Qed.

Lemma od_get_None k d : od_get k d = None <-> k ∉ od_keys d.
  Proof.
    unfold od_keys. induction d as [|[k' v] d IH]; csimpl; [split; [intros _; apply not_elem_of_nil|done]|].
    rewrite elem_of_cons. case_decide; [subst; split; [done | intros Hn; exfalso; tauto] | rewrite IH; tauto].
  Qed.

Lemma od_get_is_Some k d : is_Some (od_get k d) <-> k ∈ od_keys d.
  Proof.
    rewrite <- not_eq_None_Some, od_get_None.
    destruct (decide (k ∈ od_keys d)); tauto.
  Qed.

Lemma od_mem_spec k d : od_mem k d = true <-> is_Some (od_get k d).
  Proof. unfold od_mem. by rewrite bool_decide_eq_true, od_get_is_Some. Qed.

Lemma od_get_elem k v d : od_get k d = Some v -> (k, v) ∈ d.
  Proof.
    induction d as [|[k' v'] d IH]; csimpl; [done|].
    case_decide; [intros [= ->]; subst; left | right; auto].
  Qed.

Lemma od_get_of_elem k v d : NoDup (od_keys d) -> (k, v) ∈ d -> od_get k d = Some v.
  Proof.
    unfold od_keys. induction d as [|[k' v'] d IH]; csimpl; [by rewrite elem_of_nil|].
    rewrite NoDup_cons, elem_of_cons. intros [Hn Hd] [[= -> ->]|Hin]; [by rewrite decide_True|].
    rewrite decide_False; [auto|]. intros ->. apply Hn.
    apply list_elem_of_fmap. by exists (k', v).
  Qed.

Lemma od_keys_set k v d :
    od_keys (od_set k v d) = if od_mem k d then od_keys d else od_keys d ++ [k].
  Proof.
    unfold od_mem, od_keys. induction d as [|[k' v'] d IH]; csimpl; [done|].
    destruct (decide (k = k')) as [->|Hne]; csimpl.
    - rewrite bool_decide_eq_true_2; [done|left].
    - rewrite IH. erewrite (bool_decide_ext (k ∈ k' :: d.*1) (k ∈ d.*1)).
      + by case_bool_decide.
      + rewrite elem_of_cons; tauto.
  Qed.

Lemma od_set_fresh k v d : k ∉ od_keys d -> od_set k v d = d ++ [(k, v)].
  Proof.
    unfold od_keys. induction d as [|[k' v'] d IH]; csimpl; [done|].
    rewrite not_elem_of_cons. intros [Hne Hn]. rewrite decide_False by done. by rewrite IH.
  Qed.

Lemma NoDup_od_set k v d : NoDup (od_keys d) -> NoDup (od_keys (od_set k v d)).
  Proof.
    intros Hd. rewrite od_keys_set. destruct (od_mem k d) eqn:E; [done|].
    unfold od_mem in E. apply bool_decide_eq_false in E.
    apply NoDup_app. repeat split; [done| |apply NoDup_singleton].
    intros x Hx ->%list_elem_of_singleton. done.
  Qed.

Lemma od_get_pop k k' d :
    od_get k (od_pop k' d) = if decide (k = k') then None else od_get k d.
  Proof.
    unfold od_pop. induction d as [|[k1 v1] d IH]; [cbn; by case_decide|].
    rewrite filter_cons. destruct (decide ((k1, v1).1 ≠ k')) as [Hk1|Hk1];
      cbn [fst] in Hk1; cbn [od_get]; rewrite IH.
    - destruct (decide (k = k1)) as [->|]; [by rewrite decide_False|done].
    - apply dec_stable in Hk1; subst. destruct (decide (k = k')) as [->|]; done.
  Qed.

  (** The last assignment to a key wins; with unique new keys, the new value. *)
Lemma od_get_update k d new : NoDup (od_keys new) ->
    od_get k (od_update d new) = match od_get k new with Some v => Some v | None => od_get k d end.
  Proof.
    unfold od_update, od_keys. revert d. induction new as [|[k1 v1] new IH]; intros d; [done|].
    csimpl. rewrite NoDup_cons. intros [Hk Hnd]. rewrite IH, od_get_set by done.
    case_decide as Heq; [subst|done]. by rewrite (proj2 (od_get_None k1 new)).
  Qed.

Lemma NoDup_od_update d new : NoDup (od_keys d) -> NoDup (od_keys (od_update d new)).
  Proof.
    unfold od_update. revert d. induction new as [|[k1 v1] new IH]; intros d Hd; [done|].
    apply IH. by apply NoDup_od_set.
  Qed.

Lemma od_update_nil d : od_update d [] = d.
  Proof. done. Qed.

  (** Filling an empty dictionary from a dictionary copies it. *)
Lemma od_update_copy new : NoDup (od_keys new) -> od_update [] new = new.
  Proof.
    intros Hnd. enough (forall d, NoDup (od_keys (d ++ new)) -> od_update d new = d ++ new) as H
      by (by apply (H [])).
    clear Hnd. unfold od_update, od_keys. induction new as [|[k1 v1] new IH]; intros d Hd;
      [by rewrite app_nil_r|].
    csimpl. rewrite od_set_fresh.
    - rewrite IH by (by rewrite <- app_assoc). by rewrite <- app_assoc.
    - intros Hk. rewrite fmap_app in Hd. apply NoDup_app in Hd as (_ & Hd & _).
      apply (Hd k1 Hk). csimpl. left.
  Qed.

Lemma NoDup_od_filter (P : string * V -> Prop) `{forall x, Decision (P x)} d :
    NoDup (od_keys d) -> NoDup (od_keys (filter P d)).
  Proof.
    unfold od_keys. induction d as [|kv d IH]; csimpl; [done|].
    rewrite NoDup_cons. intros [Hk Hd]. rewrite filter_cons. case_decide; csimpl; [|auto].
    constructor; [|auto]. intros Hin. apply Hk. apply list_elem_of_fmap in Hin as (x & -> & Hx).
    apply list_elem_of_filter in Hx as [_ Hx]. apply list_elem_of_fmap. by exists x.
  Qed.
End odict.

#[global] Arguments od_get {V} k !d /.
#[global] Arguments od_set {V} k v !d /.

(** ** Occurrences

    Dependency lists may repeat a name, and in-degrees count repetitions. *)
Section occ.
  Context {A : Type} `{EqDecision A}.

Definition occ (x : A) (l : list A) : nat := length (filter (x =.) l).

Lemma occ_nil x : occ x [] = 0.
  Proof. done. Qed.
Lemma occ_cons x y l : occ x (y :: l) = (if decide (x = y) then 1 else 0) + occ x l.
  Proof. unfold occ. rewrite filter_cons. by case_decide. Qed.
Lemma occ_app x l1 l2 : occ x (l1 ++ l2) = occ x l1 + occ x l2.
  Proof. unfold occ. by rewrite filter_app, length_app. Qed.
Lemma occ_pos x l : 0 < occ x l <-> x ∈ l.
  Proof.
    induction l as [|y l IH]; [rewrite occ_nil, elem_of_nil; lia|].
    rewrite occ_cons, elem_of_cons. case_decide; [split; [auto|lia] | rewrite Nat.add_0_l, IH; tauto].
  Qed.
Lemma occ_zero x l : occ x l = 0 <-> x ∉ l.
  Proof. rewrite <- occ_pos. lia. Qed.
Lemma occ_replicate x y n : occ x (replicate n y) = if decide (x = y) then n else 0.
  Proof.
    induction n as [|n IH]; simpl; [by case_decide|].
    rewrite occ_cons, IH. case_decide; lia.
  Qed.
End occ.

(** ** Pending elements: those of a list not done yet, repetitions counted *)
Section pending.
  Context {A : Type} `{EqDecision A}.

Definition pending (done : A -> Prop) `{forall x, Decision (done x)} (l : list A) : nat :=
    length (filter (fun x => ¬ done x) l).

Lemma pending_cons (P : A -> Prop) `{forall x, Decision (P x)} y l :
    pending P (y :: l) = (if decide (P y) then 0 else 1) + pending P l.
  Proof.
    unfold pending. rewrite filter_cons.
    destruct (decide (P y)), (decide (¬ P y)); done || tauto.
  Qed.

Lemma pending_zero (P : A -> Prop) `{forall x, Decision (P x)} l :
    pending P l = 0 <-> forall y, y ∈ l -> P y.
  Proof.
    induction l as [|z l IH]; [split; [by intros _ y ?%elem_of_nil|done]|].
    rewrite pending_cons. case_decide as Hz; simpl.
    - rewrite IH. split; [intros Hl y Hy|intros Hl y Hy; apply Hl; by right].
      apply elem_of_cons in Hy as [->|]; auto.
    - split; [done|]. intros Hl. exfalso. apply Hz, Hl. left.
  Qed.

  (** Finishing one more element removes its occurrences. *)
Lemma pending_add (P Q : A -> Prop) `{forall x, Decision (P x), forall x, Decision (Q x)} c l :
    ¬ P c -> (forall x, Q x <-> P x \/ x = c) -> pending P l = pending Q l + occ c l.
  Proof.
    intros Hc HQ. induction l as [|z l IH]; [done|].
    rewrite !pending_cons, occ_cons, IH. pose proof (HQ z) as Hz.
    destruct (decide (P z)), (decide (Q z)), (decide (c = z)); subst; simpl; try lia; try tauto.
    exfalso. destruct Hz as [[|] _]; congruence.
  Qed.

Lemma pending_ext (P Q : A -> Prop) `{forall x, Decision (P x), forall x, Decision (Q x)} l :
    (forall x, x ∈ l -> P x <-> Q x) -> pending P l = pending Q l.
  Proof.
    induction l as [|z l IH]; [done|]. intros Hl. rewrite !pending_cons, IH.
    - assert (P z <-> Q z) by (apply Hl; left). by destruct (decide (P z)), (decide (Q z)); try tauto.
    - intros x Hx. apply Hl. by right.
  Qed.

Lemma pending_nothing (P : A -> Prop) `{forall x, Decision (P x)} l :
    (forall x, x ∈ l -> ¬ P x) -> pending P l = length l.
  Proof.
    induction l as [|z l IH]; [done|]. intros Hl. rewrite pending_cons, IH.
    - rewrite decide_False; [done|]. apply Hl. left.
    - intros x Hx. apply Hl. by right.
  Qed.
End pending.

(** ** Precedence in a list *)
Definition precedes {A} (l : list A) (d x : A) : Prop :=
  exists l1 l2, l = l1 ++ x :: l2 /\ d ∈ l1.

Lemma precedes_app_l {A} (l l' : list A) d x : precedes l d x -> precedes (l ++ l') d x.
Proof.
  intros (l1 & l2 & -> & Hd). exists l1, (l2 ++ l'). by rewrite <- app_assoc.
Qed.

(** Position of the first occurrence; the length if there is none. *)
Fixpoint pos {A} `{EqDecision A} (x : A) (l : list A) : nat :=
  match l with
  | [] => 0
  | y :: l' => if decide (x = y) then 0 else S (pos x l')
  end.

Lemma pos_app_l {A} `{EqDecision A} (x : A) l l' : x ∈ l -> pos x (l ++ l') = pos x l.
Proof.
  induction l as [|y l IH]; simpl; [by intros ?%elem_of_nil|].
  rewrite elem_of_cons. intros Hx. case_decide; [done|]. destruct Hx; [done|auto].
Qed.

Lemma pos_lt {A} `{EqDecision A} (x : A) l : x ∈ l -> pos x l < length l.
Proof.
  induction l as [|y l IH]; simpl; [by intros ?%elem_of_nil|].
  rewrite elem_of_cons. intros Hx. case_decide; [lia|]. destruct Hx as [|Hx]; [done|].
  specialize (IH Hx). lia.
Qed.

Lemma pos_app_r {A} `{EqDecision A} (x : A) l l' : x ∉ l -> pos x (l ++ l') = length l + pos x l'.
Proof.
  induction l as [|y l IH]; simpl; [done|]. rewrite not_elem_of_cons. intros [? ?].
  rewrite decide_False by done. by rewrite IH.
Qed.

Lemma precedes_pos {A} `{EqDecision A} (l : list A) d x :
  NoDup l -> precedes l d x -> pos d l < pos x l.
Proof.
  intros Hnd (l1 & l2 & -> & Hd). apply NoDup_app in Hnd as (_ & Hnd & _).
  rewrite pos_app_l by done. rewrite pos_app_r.
  - simpl. rewrite decide_True by done. pose proof (pos_lt d l1 Hd). lia.
  - intros Hx. apply (Hnd x Hx). left.
Qed.

Lemma precedes_reverse {A} (l1 l2 : list A) d x :
  x ∈ l1 -> precedes (reverse (l1 ++ d :: l2)) d x.
Proof.
  intros (m1 & m2 & ->)%list_elem_of_split.
  exists (reverse l2 ++ [d] ++ reverse m2), (reverse m1). split; [|set_solver].
  rewrite reverse_app, reverse_cons, reverse_app, reverse_cons, <- !app_assoc. done.
Qed.

(** ** Chains: consecutive elements are related *)
Section chain.
  Context {A : Type} (R : A -> A -> Prop).

Fixpoint chain (l : list A) : Prop :=
    match l with
    | [] => True
    | x :: l' => match l' with [] => True | y :: _ => R x y end /\ chain l'
    end.

Lemma chain_snoc l x y : chain (l ++ [x]) -> R x y -> chain (l ++ [x; y]).
  Proof.
    induction l as [|z l IH]; simpl; [tauto|].
    destruct l; simpl in *; tauto.
  Qed.
End chain.

Lemma chain_impl {A} (R R' : A -> A -> Prop) l :
  (forall x y, R x y -> R' x y) -> chain R l -> chain R' l.
Proof.
  intros HR. induction l as [|x l IH]; simpl; [done|].
  intros [H1 H2]. split; [|auto]. destruct l; auto.
Qed.

(** A function that grows along [R] grows along a chain. *)
Lemma chain_increasing {A} (R : A -> A -> Prop) (f : A -> nat) x mid z :
  (forall x y, R x y -> f x < f y) -> chain R (x :: mid ++ [z]) -> f x < f z.
Proof.
  intros Hf. revert x. induction mid as [|y mid IH]; intros x.
  - simpl. intros [? _]. auto.
  - rewrite <- app_comm_cons. intros [H1 H2]. specialize (Hf x y H1). specialize (IH y H2). lia.
Qed.

(** ** Sums over a duplicate-free list of names *)
Lemma sum_list_fmap_ext {A} (f g : A -> nat) (l : list A) :
  (forall x, x ∈ l -> f x = g x) -> sum_list (f <$> l) = sum_list (g <$> l).
Proof.
  induction l as [|x l IH]; csimpl; [done|]. intros H.
  rewrite (H x), IH; [done| |left]. intros y Hy. apply H. by right.
Qed.

(** Summands that do not grow, one of them dropping by [k]. *)
Lemma sum_list_fmap_le {A} (f g : A -> nat) (l : list A) :
  (forall x, x ∈ l -> f x <= g x) -> sum_list (f <$> l) <= sum_list (g <$> l).
Proof.
  induction l as [|x l IH]; csimpl; [done|]. intros H.
  pose proof (H x ltac:(left)). specialize (IH (fun y Hy => H y (list_elem_of_further _ _ _ Hy))). lia.
Qed.

Lemma sum_list_fmap_drop {A} (f g : A -> nat) (l : list A) x k :
  (forall y, y ∈ l -> f y <= g y) -> x ∈ l -> f x + k <= g x ->
  sum_list (f <$> l) + k <= sum_list (g <$> l).
Proof.
  intros H Hx Hk. induction l as [|y l IH]; csimpl; [by apply elem_of_nil in Hx|].
  assert (forall y, y ∈ l -> f y <= g y) as Hl by (intros z Hz; apply H; by right).
  apply elem_of_cons in Hx as [->|Hx].
  - pose proof (sum_list_fmap_le f g l Hl). lia.
  - pose proof (H y ltac:(left)). specialize (IH Hl Hx). lia.
Qed.

(** Changing the summand at one element changes the sum by the difference. *)
Lemma sum_list_fmap_update {A} (f g : A -> nat) (l : list A) (x : A) :
  NoDup l -> x ∈ l -> (forall y, y ≠ x -> f y = g y) ->
  sum_list (f <$> l) + g x = sum_list (g <$> l) + f x.
Proof.
  intros Hnd Hx Hfg. induction Hnd as [|y l Hy Hnd IH]; [by apply elem_of_nil in Hx|].
  csimpl. apply elem_of_cons in Hx as [->|Hx].
  - rewrite (sum_list_fmap_ext f g l); [lia|]. intros z Hz. apply Hfg. by intros ->.
  - rewrite (Hfg y); [|by intros ->]. specialize (IH Hx). lia.
Qed.

(** ** Counting the entries of a map *)

Section mcount.
  Context `{Countable K} {V : Type}.
  Implicit Types (P : V -> bool) (m : gmap K V).

Definition mcount P m : nat := length (filter (fun kv => P kv.2 = true) (map_to_list m)).

Lemma mcount_empty P : mcount P ∅ = 0.
Proof. unfold mcount. by rewrite map_to_list_empty. Qed.

Lemma mcount_insert P k v m : m !! k = None -> mcount P (<[k := v]> m) = (if P v then 1 else 0) + mcount P m.
Proof.
  intros Hk. unfold mcount. rewrite map_to_list_insert by done.
  destruct (P v) eqn:E; [by rewrite filter_cons_True|].
  rewrite filter_cons_False; [done|simpl; congruence].
Qed.

Lemma mcount_delete P k v m : m !! k = Some v -> mcount P m = (if P v then 1 else 0) + mcount P (delete k m).
Proof. intros Hk. rewrite <- (insert_delete_id m k v Hk) at 1. rewrite mcount_insert; [done|apply lookup_delete_eq]. Qed.

Lemma mcount_zero P m : mcount P m = 0 <-> forall k v, m !! k = Some v -> P v = false.
Proof.
  induction m as [|k v m Hk IH] using map_ind.
  { rewrite mcount_empty. split; [by intros _ k v; rewrite lookup_empty|done]. }
  rewrite mcount_insert by done. split.
  - intros H0 k' v'. rewrite lookup_insert_Some. intros [[-> ->]|[_ Hv]].
    + by destruct (P v').
    + apply (proj1 IH ltac:(lia) k' v' Hv).
  - intros Hall. rewrite (Hall k v) by apply lookup_insert_eq. simpl. apply IH. intros k' v' Hv.
    apply (Hall k' v'). rewrite lookup_insert_ne; [done|congruence].
Qed.

Lemma mcount_pos P m : 0 < mcount P m -> exists k v, m !! k = Some v /\ P v = true.
Proof.
  intros Hpos. unfold mcount in Hpos. destruct (filter _ _) as [|[k v] l] eqn:E; [simpl in Hpos; lia|].
  assert ((k, v) ∈ filter (fun kv : K * V => P kv.2 = true) (map_to_list m)) as Hin by (rewrite E; left).
  apply list_elem_of_filter in Hin as [HP Hin]. apply elem_of_map_to_list in Hin. eauto.
Qed.

(** Two different entries count at least two. *)
Lemma mcount_two P m k k' v v' :
  m !! k = Some v -> m !! k' = Some v' -> k ≠ k' -> P v = true -> P v' = true -> 2 <= mcount P m.
Proof.
  intros Hk Hk' Hne Hv Hv'. rewrite (mcount_delete P k v m Hk), Hv.
  rewrite (mcount_delete P k' v') by (by rewrite lookup_delete_ne). rewrite Hv'. lia.
Qed.
End mcount.

(** ** Automation *)
Create HintDb arp.
Create Rewrite HintDb arp_rw.
#[export] Hint Rewrite @od_get_set_eq @occ_nil @occ_cons @occ_app @occ_replicate : arp_rw.
#[export] Hint Resolve NoDup_od_set NoDup_od_update NoDup_od_filter : arp.

(** Split on every [match]/[if] the goal or a hypothesis is stuck on. *)
Ltac split_matches :=
  repeat (case_match || case_decide || case_bool_decide); simplify_eq/=.

(** [set_solver] on the facts about the elements at hand, without the
    quantified hypotheses it would try to instantiate. *)
Ltac sset :=
  repeat match goal with H : forall _, _ |- _ => clear H end; set_solver.

(** Invert an equation saying that a monadic computation returned. *)
Ltac inv_ok :=
  repeat match goal with
  | H : Ok _ = Ok _ |- _ => injection H as H; subst
  | H : Raise _ = Ok _ |- _ => discriminate H
  | H : Ok _ = Raise _ |- _ => discriminate H
  | H : _ ≫= _ = Ok _ |- _ =>
      let a := fresh "a" in let Ha := fresh "Ha" in
      apply res_bind_ok in H as (a & Ha & H)
  end.

(** ** Stable sorting by a key (Python's [sorted])

    [sorted] is stable: elements with equal keys keep their order, and code that
    prunes "the oldest" or merges "first seen" relies on it.  The order is a
    boolean comparison [le], total and transitive. *)

Section stable_sort.
Context {A : Type} (le : A -> A -> bool).

(** [x] comes before the elements of [l], so it goes before its equals. *)
Fixpoint insert_stable (x : A) (l : list A) : list A :=
  match l with
  | [] => [x]
  | y :: l' => if le x y then x :: l else y :: insert_stable x l'
  end.

Definition sorted (l : list A) : list A := foldr insert_stable [] l.

Lemma insert_stable_perm x l : insert_stable x l ≡ₚ x :: l.
Proof.
  induction l as [|y l IH]; simpl; [done|]. case_match; [done|]. rewrite IH. constructor.
Qed.

Lemma sorted_perm l : sorted l ≡ₚ l.
Proof. induction l as [|x l IH]; simpl; [done|]. by rewrite insert_stable_perm, IH. Qed.

Lemma length_sorted l : length (sorted l) = length l.
Proof. by rewrite sorted_perm. Qed.

Lemma elem_of_sorted x l : x ∈ sorted l <-> x ∈ l.
Proof. by rewrite sorted_perm. Qed.

Hypothesis le_total : forall x y, le x y = true \/ le y x = true.
Hypothesis le_trans : forall x y z, le x y = true -> le y z = true -> le x z = true.

Lemma insert_stable_sorted x l :
  StronglySorted (fun a b => le a b = true) l -> StronglySorted (fun a b => le a b = true) (insert_stable x l).
Proof.
  induction 1 as [|y l Hs IH Hall]; simpl; [repeat constructor|].
  destruct (le x y) eqn:E.
  - constructor; [by constructor|]. constructor; [done|].
    eapply Forall_impl; [exact Hall|]. eauto.
  - constructor; [done|]. rewrite insert_stable_perm. constructor; [|done].
    destruct (le_total x y); congruence.
Qed.

Lemma sorted_sorted l : StronglySorted (fun a b => le a b = true) (sorted l).
Proof. induction l; simpl; [constructor | by apply insert_stable_sorted]. Qed.

(** Every element kept after [n] is at or after every one of the first [n]. *)
Lemma sorted_take_drop n l x y :
  x ∈ take n (sorted l) -> y ∈ drop n (sorted l) -> le x y = true.
Proof.
  pose proof (sorted_sorted l) as Hs. rewrite <- (take_drop n (sorted l)) in Hs.
  revert Hs. generalize (take n (sorted l)) as l1, (drop n (sorted l)) as l2.
  induction l1 as [|z l1 IH]; intros l2 Hs; [by intros ?%elem_of_nil|].
  simpl in Hs. apply StronglySorted_inv in Hs as [Hs Hall].
  rewrite elem_of_cons. intros [->|Hx] Hy; [|eauto].
  rewrite Forall_forall in Hall. apply Hall. apply elem_of_app. by right.
Qed.

(** An element that is after every other one, strictly, ends the sorted list. *)
Lemma insert_stable_last x y l :
  le x y = true -> (forall z, z ∈ l -> le x z = true \/ le z x = true) ->
  insert_stable x (l ++ [y]) = insert_stable x l ++ [y].
Proof.
  intros Hxy Hl. induction l as [|z l IH]; simpl; [by rewrite Hxy|].
  case_match; [done|]. rewrite IH; [done|]. intros w Hw. apply Hl. by right.
Qed.

Lemma sorted_snoc_max l y :
  (forall x, x ∈ l -> le x y = true) -> sorted (l ++ [y]) = sorted l ++ [y].
Proof.
  induction l as [|x l IH]; intros Hl; simpl; [done|]. rewrite IH by (intros; apply Hl; by right).
  apply insert_stable_last; [apply Hl; left|]. intros; apply le_total.
Qed.
End stable_sort.
