(* ===== verification/PyStr.v ===== *)
(** * Python string methods on ASCII text

    [str.strip], [upper], [lower], [replace] of one character, [startswith],
    membership of a character and [split] at the first occurrence of one.  They
    are the language's own functions, written on the list of characters;
    non-ASCII case folding and whitespace are outside the model. *)

From stdpp Require Import pretty.
From S2P Require Import Prelude.
From Stdlib Require Export Ascii.

Abbreviation chars := String.list_ascii_of_string.
Abbreviation of_chars := String.string_of_list_ascii.

Lemma chars_of_chars l : chars (of_chars l) = l.
Proof. apply String.list_ascii_of_string_of_list_ascii. Qed.

(** [str.isspace] on ASCII: tab..CR, the four separators, space. *)
Definition is_space (c : Ascii.ascii) : bool :=
  let n := Ascii.nat_of_ascii c in
  ((9 <=? n) && (n <=? 13)) || ((28 <=? n) && (n <=? 32)).

Fixpoint lstrip_chars (l : list Ascii.ascii) : list Ascii.ascii :=
  match l with
  | [] => []
  | c :: l' => if is_space c then lstrip_chars l' else c :: l'
  end.

Definition strip_chars (l : list Ascii.ascii) : list Ascii.ascii :=
  reverse (lstrip_chars (reverse (lstrip_chars l))).

Definition strip (s : string) : string := of_chars (strip_chars (chars s)).

Definition upper_char (c : Ascii.ascii) : Ascii.ascii :=
  let n := Ascii.nat_of_ascii c in
  if (97 <=? n) && (n <=? 122) then Ascii.ascii_of_nat (n - 32) else c.
Definition lower_char (c : Ascii.ascii) : Ascii.ascii :=
  let n := Ascii.nat_of_ascii c in
  if (65 <=? n) && (n <=? 90) then Ascii.ascii_of_nat (n + 32) else c.
Definition replace_char (a b c : Ascii.ascii) : Ascii.ascii := if decide (c = a) then b else c.

Definition map_chars (f : Ascii.ascii -> Ascii.ascii) (s : string) : string :=
  of_chars (f <$> chars s).
Definition upper : string -> string := map_chars upper_char.
Definition lower : string -> string := map_chars lower_char.
Definition replace_all (a b : Ascii.ascii) : string -> string := map_chars (replace_char a b).

Fixpoint startswith (s prefix : string) : bool :=
  match prefix, s with
  | EmptyString, _ => true
  | String a p, String b s' => bool_decide (a = b) && startswith s' p
  | String _ _, EmptyString => false
  end.

Definition has_char (c : Ascii.ascii) (s : string) : bool := bool_decide (c ∈ chars s).

(** [s.split(c, 1)[0]]: the text before the first [c], all of it if none. *)
Fixpoint before_char (c : Ascii.ascii) (s : string) : string :=
  match s with
  | EmptyString => EmptyString
  | String a s' => if decide (a = c) then EmptyString else String a (before_char c s')
  end.

(** ** Lemmas *)

Lemma lstrip_chars_app_space l1 l2 :
  Forall (fun c => is_space c = true) l1 -> lstrip_chars (l1 ++ l2) = lstrip_chars l2.
Proof. induction 1 as [|c l Hc _ IH]; simpl; [done|]. by rewrite Hc. Qed.

Lemma lstrip_chars_all_space l :
  Forall (fun c => is_space c = true) l -> lstrip_chars l = [].
Proof. intros H. rewrite <- (app_nil_r l). by rewrite lstrip_chars_app_space. Qed.

Lemma lstrip_chars_app_cases l1 l2 :
  (Forall (fun c => is_space c = true) l1 /\ lstrip_chars (l1 ++ l2) = lstrip_chars l2) \/
  (¬ Forall (fun c => is_space c = true) l1 /\
   lstrip_chars (l1 ++ l2) = lstrip_chars l1 ++ l2).
Proof.
  induction l1 as [|c l IH]; simpl; [by left|].
  destruct (is_space c) eqn:E.
  - destruct IH as [[H ->]|[H ->]]; [left | right]; (split; [|done]).
    + by constructor.
    + by rewrite Forall_cons; intros [].
  - right. split; [|done]. rewrite Forall_cons, E. by intros [].
Qed.

(** Whitespace around a string does not survive [strip]. *)
Lemma strip_chars_pad pre post l :
  Forall (fun c => is_space c = true) pre -> Forall (fun c => is_space c = true) post ->
  strip_chars (pre ++ l ++ post) = strip_chars l.
Proof.
  intros Hpre Hpost. unfold strip_chars. rewrite lstrip_chars_app_space by done.
  destruct (lstrip_chars_app_cases l post) as [[Hl ->]|[Hl ->]].
  - rewrite (lstrip_chars_all_space l), (lstrip_chars_all_space post) by done. done.
  - rewrite reverse_app, lstrip_chars_app_space; [done|]. by apply Forall_reverse.
Qed.

Lemma is_space_upper c : is_space (upper_char c) = is_space c.
Proof. by destruct c as [[] [] [] [] [] [] [] []]. Qed.
Lemma is_space_lower c : is_space (lower_char c) = is_space c.
Proof. by destruct c as [[] [] [] [] [] [] [] []]. Qed.
Lemma upper_lower_char c : upper_char (lower_char c) = upper_char c.
Proof. by destruct c as [[] [] [] [] [] [] [] []]. Qed.

Lemma lstrip_chars_map f l :
  (forall c, is_space (f c) = is_space c) ->
  lstrip_chars (f <$> l) = f <$> lstrip_chars l.
Proof.
  intros Hf. induction l as [|c l IH]; csimpl; [done|]. rewrite Hf. by destruct (is_space c).
Qed.

Lemma strip_map f s :
  (forall c, is_space (f c) = is_space c) -> strip (map_chars f s) = map_chars f (strip s).
Proof.
  intros Hf. unfold strip, map_chars, strip_chars. rewrite !chars_of_chars.
  rewrite lstrip_chars_map, <- fmap_reverse, lstrip_chars_map, <- fmap_reverse by done. done.
Qed.

Lemma map_chars_compose f g s : map_chars f (map_chars g s) = map_chars (f ∘ g) s.
Proof. unfold map_chars. by rewrite chars_of_chars, list_fmap_compose. Qed.

Lemma upper_lower s : upper (lower s) = upper s.
Proof.
  unfold upper, lower. rewrite map_chars_compose. unfold map_chars. f_equal.
  apply list_fmap_ext. intros ? c _. apply upper_lower_char.
Qed.

Lemma length_append s t : String.length (s +:+ t) = (String.length s + String.length t)%nat.
Proof. induction s as [|c s IH]; simpl; [done|by rewrite IH]. Qed.

Lemma length_chars s : length (chars s) = String.length s.
Proof. induction s as [|c s IH]; simpl; [done|by rewrite IH]. Qed.

Lemma chars_app s t : chars (s +:+ t) = chars s ++ chars t.
Proof. induction s as [|c s IH]; simpl; [done|]. by rewrite IH. Qed.

(** ** [int()] of a string: [None] where Python raises [ValueError] *)
Definition digit (c : Ascii.ascii) : option Z :=
  let n := Ascii.nat_of_ascii c in
  if ((48 <=? n) && (n <=? 57))%nat then Some (Z.of_nat (n - 48)) else None.
(** Digits, single underscores between them; [after] is whether a digit precedes. *)
Fixpoint digits (l : list Ascii.ascii) (acc : Z) (after : bool) : option Z :=
  match l with
  | [] => if after then Some acc else None
  | c :: l' =>
      match digit c with
      | Some d => digits l' (10 * acc + d)%Z true
      | None => if bool_decide (c = "_"%char) && after then digits l' acc false else None
      end
  end.
Definition int_of_string (s : string) : option Z :=
  match chars (strip s) with
  | "-"%char :: l => Z.opp <$> digits l 0 false
  | "+"%char :: l => digits l 0 false
  | l => digits l 0 false
  end.

(** [needle in s] *)
Fixpoint contains (s needle : string) : bool :=
  startswith s needle || match s with EmptyString => false | String _ s' => contains s' needle end.

(** [s.split(sep, 1)] for a separator that occurs: the two parts. *)
Fixpoint split_once (sep s : string) : option (string * string) :=
  if startswith s sep
  then Some ("", String.substring (String.length sep) (String.length s - String.length sep) s)
  else match s with
       | EmptyString => None
       | String c s' => (fun lr : string * string => (String c lr.1, lr.2)) <$> split_once sep s'
       end.

(** ** The characters of a printed integer *)

Section printed.
Context (P : Ascii.ascii -> Prop) (P_digit : forall x, P (pretty_N_char x)) (P_minus : P "-"%char).

Lemma pretty_N_go_forall x s : Forall P (chars s) -> Forall P (chars (pretty_N_go x s)).
Proof.
  revert s. induction (N.lt_wf_0 x) as [x _ IH]; intros s Hs.
  destruct (decide (x = 0)%N) as [->|Hx]; [done|]. rewrite pretty_N_go_step by lia.
  apply IH; [apply N.div_lt; lia|]. by constructor.
Qed.

Lemma pretty_Z_forall (z : Z) : Forall P (chars (pretty z)).
Proof.
  assert (forall x : N, Forall P (chars (pretty x))) as HN.
  { intros x. unfold pretty, pretty_N. case_decide; [|by apply pretty_N_go_forall; constructor].
    constructor; [apply (P_digit 0)|constructor]. }
  destruct z as [|p|p]; [apply (HN 0%N)|apply (HN (N.pos p))|].
  change (Forall P ("-"%char :: chars (pretty (N.pos p)))). by constructor.
Qed.
End printed.
