(* ===== verification/PyVal.v ===== *)
(** * Python values

    The dynamically typed values ([Any]) that flow through contexts, step
    inputs and outputs and metadata dictionaries.  Dictionaries have string
    keys and keep insertion order.  Floats are exact rationals (see the root
    file's header).  [VObj] stands for any other object: an opaque type name
    with its [str()].

    The string functions are Python's on ASCII text. *)

From stdpp Require Import pretty sorting.
From Stdlib Require Import QArith Qcanon Qpower.
From S2P Require Import Prelude PyStr.

Inductive pyval :=
  | VNone
  | VBool (b : bool)
  | VInt (z : Z)
  | VFloat (q : Qc)
  | VStr (s : string)
  | VList (l : list pyval)
  | VTuple (l : list pyval)
  | VDict (d : list (string * pyval))
  | VObj (type_name str_value : string).

(** Induction over nested lists and dictionaries. *)
Section pyval_ind_nested.
  Variable P : pyval -> Prop.
  Hypothesis HNone : P VNone.
  Hypothesis HBool : forall b, P (VBool b).
  Hypothesis HInt : forall z, P (VInt z).
  Hypothesis HFloat : forall q, P (VFloat q).
  Hypothesis HStr : forall s, P (VStr s).
  Hypothesis HList : forall l, Forall P l -> P (VList l).
  Hypothesis HTuple : forall l, Forall P l -> P (VTuple l).
  Hypothesis HDict : forall d, Forall (fun kv => P kv.2) d -> P (VDict d).
  Hypothesis HObj : forall t s, P (VObj t s).

Fixpoint pyval_nested_ind (v : pyval) : P v :=
    match v with
    | VNone => HNone
    | VBool b => HBool b
    | VInt z => HInt z
    | VFloat q => HFloat q
    | VStr s => HStr s
    | VList l => HList l ((fix go l := match l return Forall P l with
                           | [] => Forall_nil_2 _
                           | x :: l' => Forall_cons_2 _ _ _ (pyval_nested_ind x) (go l') end) l)
    | VTuple l => HTuple l ((fix go l := match l return Forall P l with
                           | [] => Forall_nil_2 _
                           | x :: l' => Forall_cons_2 _ _ _ (pyval_nested_ind x) (go l') end) l)
    | VDict d => HDict d ((fix go d := match d return Forall (fun kv => P kv.2) d with
                           | [] => Forall_nil_2 _
                           | (k, x) :: d' => Forall_cons_2 (fun kv => P kv.2) (k, x) d'
                                               (pyval_nested_ind x) (go d') end) d)
    | VObj t s => HObj t s
    end.
End pyval_ind_nested.

#[export] Instance Qc_eq_decision : EqDecision Qc := Qc_eq_dec.

#[export] Instance pyval_eq_dec : EqDecision pyval.
Proof.
  unfold EqDecision. fix go 1. intros v1 v2.
  pose (golist := @list_eq_dec pyval go).
  pose (godict := @list_eq_dec (string * pyval) (@prod_eq_dec string String.eq_dec pyval go)).
  destruct v1, v2; try (right; discriminate).
  - left; reflexivity.
  - destruct (decide (b = b0)); [left | right]; congruence.
  - destruct (decide (z = z0)); [left | right]; congruence.
  - destruct (decide (q = q0)); [left | right]; congruence.
  - destruct (decide (s = s0)); [left | right]; congruence.
  - destruct (golist l l0); [left | right]; congruence.
  - destruct (golist l l0); [left | right]; congruence.
  - destruct (godict d d0); [left | right]; congruence.
  - destruct (decide (type_name = type_name0)), (decide (str_value = str_value0));
      (left; congruence) || (right; congruence).
Defined.

(** ** Python's [float()] on ASCII decimals

    Sign, digits with single underscores, fraction and exponent; the result is
    the exact rational.  The words for infinities and NaN are outside the model
    ([None], as for text that is not a number). *)

Definition is_digit (c : Ascii.ascii) : bool := match digit c with Some _ => true | None => false end.

(** The digits at the head of [l] appended to [acc], how many, and the rest. *)
Fixpoint take_digits (l : list Ascii.ascii) (acc : Z) (n : nat) : Z * nat * list Ascii.ascii :=
  match l with
  | [] => (acc, n, [])
  | c :: l' =>
      match digit c with
      | Some d => take_digits l' (10 * acc + d)%Z (S n)
      | None =>
          if bool_decide (c = "_"%char) && (0 <? n)%nat && match l' with d :: _ => is_digit d | [] => false end
          then take_digits l' acc n else (acc, n, l)
      end
  end.

(** The optional exponent, which must end the text. *)
Definition exponent (l : list Ascii.ascii) : option Z :=
  match l with
  | [] => Some 0%Z
  | c :: l' =>
      if bool_decide (c = "e"%char) || bool_decide (c = "E"%char) then
        let '(sign, l'') := match l' with
                            | "-"%char :: r => ((-1)%Z, r)
                            | "+"%char :: r => (1%Z, r)
                            | r => (1%Z, r) end in
        let '(x, n, rest) := take_digits l'' 0 0 in
        if (0 <? n)%nat && bool_decide (rest = []) then Some (sign * x)%Z else None
      else None
  end.

Definition unsigned_float (l : list Ascii.ascii) : option Q :=
  let '(i, ni, r) := take_digits l 0 0 in
  let '(m, nf, r) := match r with
                     | "."%char :: r' => take_digits r' i 0
                     | _ => (i, 0%nat, r) end in
  if (ni + nf =? 0)%nat then None
  else (fun x => Qred (inject_Z m * Qpower 10 (x - Z.of_nat nf))) <$> exponent r.

Definition float_of_string (s : string) : option Q :=
  match chars (strip s) with
  | "-"%char :: l => Qopp <$> unsigned_float l
  | "+"%char :: l => unsigned_float l
  | l => unsigned_float l
  end.

Example float_examples :
  float_of_string " 1.5 " = Some (3 # 2)%Q /\ float_of_string "-2e-1" = Some (-1 # 5)%Q /\
  float_of_string ".5" = Some (1 # 2)%Q /\ float_of_string "7." = Some 7%Q /\ float_of_string "1_0" = Some 10%Q /\
  float_of_string "6s" = None /\ float_of_string "." = None /\ float_of_string "1e" = None.
Proof. vm_compute. done. Qed.

(** ** [json.dumps]

    Python's compact JSON text of a value, on ASCII strings; [default=str] for
    other objects.  The text of a float is a parameter. *)

Definition quote_char : Ascii.ascii := "034"%char.

Definition hex_digit (n : nat) : string := String.substring n 1 "0123456789abcdef".

(** One character inside a JSON string. *)
Definition escape_char (c : Ascii.ascii) : string :=
  if decide (c = quote_char) then String "\" (String quote_char EmptyString)
  else if decide (c = "\"%char) then "\\"
  else
    match Ascii.nat_of_ascii c with
    | 8 => "\b" | 9 => "\t" | 10 => "\n" | 12 => "\f" | 13 => "\r"
    | n => if (n <? 32) || (126 <? n) then "\u00" +:+ hex_digit (n / 16) +:+ hex_digit (n mod 16)
           else String c EmptyString
    end.

Fixpoint escape (s : string) : string :=
  match s with EmptyString => EmptyString | String c s' => escape_char c +:+ escape s' end.

Definition json_string (s : string) : string :=
  String quote_char (escape s +:+ String quote_char EmptyString).

(** [", ".join] *)
Fixpoint join (sep : string) (l : list string) : string :=
  match l with [] => "" | [x] => x | x :: l' => x +:+ sep +:+ join sep l' end.

Fixpoint json_dumps (float_repr : Qc -> string) (v : pyval) : string :=
  match v with
  | VNone => "null"
  | VBool b => if b then "true" else "false"
  | VInt z => pretty z
  | VFloat q => float_repr q
  | VStr s | VObj _ s => json_string s
  | VList l | VTuple l => "[" +:+ join ", " ((fix go l := match l with [] => [] | x :: l' => json_dumps float_repr x :: go l' end) l) +:+ "]"
  | VDict d =>
      "{" +:+ join ", " ((fix go d := match d with
                          | [] => []
                          | (k, x) :: d' => (json_string k +:+ ": " +:+ json_dumps float_repr x) :: go d'
                          end) d) +:+ "}"
  end.

(** [sort_keys=True], at every level. *)
Definition key_le (a b : string * pyval) : Prop := String.leb a.1 b.1 = true.
#[export] Instance key_le_dec a b : Decision (key_le a b) := decide (_ = true).

Fixpoint sort_keys (v : pyval) : pyval :=
  match v with
  | VList l => VList ((fix go l := match l with [] => [] | x :: l' => sort_keys x :: go l' end) l)
  | VTuple l => VTuple ((fix go l := match l with [] => [] | x :: l' => sort_keys x :: go l' end) l)
  | VDict d => VDict (merge_sort key_le ((fix go d := match d with [] => [] | (k, x) :: d' => (k, sort_keys x) :: go d' end) d))
  | v => v
  end.

(** [str(v)]; [repr] for the values whose [str] is their [repr]. *)
Definition str_of (repr : pyval -> string) (v : pyval) : string :=
  match v with
  | VStr s => s
  | VNone => "None"
  | VBool b => if b then "True" else "False"
  | VInt z => pretty z
  | VObj _ s => s
  | v => repr v
  end.

Definition str_or_none (s : option string) : pyval := match s with Some s => VStr s | None => VNone end.
