(* ===== verification/StepState.v ===== *)
(** * Step lifecycle state machine (engine/step_state.py)

    [StepState] is the enum, [allowed_transitions] the transition table, and
    [manager] the dictionary a [StepStateManager] wraps.  The operations are the
    methods of that class; [path] is the relation of legal transition sequences
    and the theorems say what such a sequence can and cannot do. *)

From S2P Require Import Prelude.

Inductive StepState :=
  | PENDING | READY | RUNNING | RETRYING | SUCCESS | FAILED | SKIPPED | CANCELLED.

#[export] Instance StepState_eq_dec : EqDecision StepState.
Proof. solve_decision. Defined.

Definition state_value (s : StepState) : string :=
  match s with
  | PENDING => "pending" | READY => "ready" | RUNNING => "running"
  | RETRYING => "retrying" | SUCCESS => "success" | FAILED => "failed"
  | SKIPPED => "skipped" | CANCELLED => "cancelled"
  end.

Definition allowed_transitions (s : StepState) : list StepState :=
  match s with
  | PENDING => [READY; SKIPPED]
  | READY => [RUNNING; CANCELLED]
  | RUNNING => [SUCCESS; FAILED; RETRYING; SKIPPED; CANCELLED]
  | RETRYING => [RUNNING; FAILED; CANCELLED]
  | SUCCESS | FAILED | SKIPPED | CANCELLED => []
  end.

(** The [_states] dictionary; it is only ever looked up by key. *)
Abbreviation manager := (gmap string StepState).

Definition can_transition (current new_state : StepState) : bool :=
  bool_decide (new_state ∈ allowed_transitions current).

Definition get_state (m : manager) (step_name : string) : StepState :=
  default PENDING (m !! step_name).

Definition set_state (m : manager) (step_name : string) (new_state : StepState) : manager :=
  <[step_name := new_state]> m.

Definition transition (m : manager) (step_name : string) (new_state : StepState) : res manager :=
  let current := get_state m step_name in
  if can_transition current new_state then Ok (<[step_name := new_state]> m)
  else Raise (ValueError ("Invalid transition " +:+ state_value current +:+ " -> "
                          +:+ state_value new_state +:+ " for " +:+ step_name)).

Definition reset (m : manager) (step_name : string) : manager := delete step_name m.

(** A state from which the table allows nothing. *)
Definition terminal (s : StepState) : bool := bool_decide (allowed_transitions s = []).

(** Running a list of transitions of one step; the first illegal one raises. *)
Fixpoint transitions (m : manager) (step_name : string) (l : list StepState) : res manager :=
  match l with
  | [] => Ok m
  | s :: l' => transition m step_name s ≫= fun m' => transitions m' step_name l'
  end.

(** Legal sequences of states. *)
Inductive path : StepState -> list StepState -> StepState -> Prop :=
  | path_nil s : path s [] s
  | path_cons s s' l t : can_transition s s' = true -> path s' l t -> path s (s' :: l) t.

(** ** Helper lemmas *)

Lemma get_set_eq m x s : get_state (set_state m x s) x = s.
Proof. unfold get_state, set_state. by rewrite lookup_insert_eq. Qed.

Lemma get_set_ne m x y s : x ≠ y -> get_state (set_state m x s) y = get_state m y.
Proof. intros. unfold get_state, set_state. by rewrite lookup_insert_ne. Qed.

Lemma get_set m x y s :
  get_state (set_state m x s) y = if decide (x = y) then s else get_state m y.
Proof. case_decide; subst; [apply get_set_eq | by apply get_set_ne]. Qed.

#[export] Hint Rewrite get_set_eq : arp_rw.

Lemma transition_ok_iff m x s m' :
  transition m x s = Ok m' <->
  can_transition (get_state m x) s = true /\ m' = set_state m x s.
Proof.
  unfold transition, set_state. destruct (can_transition _ _); split; intros H;
    destruct_and?; simplify_eq; auto.
Qed.

Lemma transition_legal m x s :
  can_transition (get_state m x) s = true -> transition m x s = Ok (set_state m x s).
Proof. intros H. by apply transition_ok_iff. Qed.

Lemma terminal_stuck s t : terminal s = true -> can_transition s t = false.
Proof. by destruct s, t. Qed.

Lemma path_terminal s l t : path s l t -> terminal s = true -> l = [] /\ t = s.
Proof.
  destruct 1 as [|s s' l t Hs _]; [done|].
  intros Hterm. by rewrite terminal_stuck in Hs.
Qed.

(** Which states a legal path from a given state can visit on its way:
    the sub-automaton below [READY] never returns to [PENDING] or [READY]. *)
Lemma path_no_return s l t x :
  path s l t -> x ∈ l -> x ≠ PENDING /\ (s ≠ PENDING -> x ≠ READY).
Proof.
  induction 1 as [|s s' l t Hs Hp IH]; [by rewrite elem_of_nil|].
  rewrite elem_of_cons. intros [->|Hin].
  - by destruct s, s'.
  - destruct (IH Hin) as [H1 H2]. split; [done|]. intros _. apply H2. by destruct s, s'.
Qed.

Lemma transitions_ok m x l m' :
  transitions m x l = Ok m' -> path (get_state m x) l (get_state m' x).
Proof.
  revert m. induction l as [|s l IH]; intros m; cbn [transitions]; intros H.
  - inv_ok. constructor.
  - inv_ok. apply transition_ok_iff in Ha as [Hc ->].
    econstructor; [done|]. apply IH in H. by rewrite get_set_eq in H.
Qed.

Lemma transitions_frame m x y l m' :
  transitions m x l = Ok m' -> x ≠ y -> m' !! y = m !! y.
Proof.
  revert m. induction l as [|s l IH]; intros m; cbn [transitions]; intros H Hne.
  - by inv_ok.
  - inv_ok. apply transition_ok_iff in Ha as [_ ->].
    rewrite (IH _ H Hne). unfold set_state. by rewrite lookup_insert_ne.
Qed.

(** ** Properties *)

(** A step whose validated lifecycle, started from an unrecorded
    entry, ends in SUCCESS or FAILED went through READY first and RUNNING
    second, and only ever visited RUNNING and RETRYING in between: no
    transition order lets a step succeed or fail without having run. *)
Theorem lifecycle_runs_before_outcome m x l m' out :
  m !! x = None ->
  transitions m x l = Ok m' ->
  get_state m' x = out ->
  (out = SUCCESS \/ out = FAILED) ->
  exists mid, l = READY :: RUNNING :: mid ++ [out] /\
              Forall (fun s => s = RUNNING \/ s = RETRYING) mid.
Proof.
  intros Hx Ht <- Hout. apply transitions_ok in Ht.
  unfold get_state in Ht at 1. rewrite Hx in Ht. simpl in Ht.
  assert (Hlive : forall s k t, path s k t -> (s = RUNNING \/ s = RETRYING) ->
            (t = SUCCESS \/ t = FAILED) ->
            exists mid, k = mid ++ [t] /\ Forall (fun s => s = RUNNING \/ s = RETRYING) mid).
  { clear. induction 1 as [|s s' k t Hs Hp IH]; [intros [-> | ->] []; congruence|]. intros Hsrc Htgt.
    destruct (decide (s' = RUNNING \/ s' = RETRYING)) as [Hl|Hl].
    - destruct (IH Hl Htgt) as (mid & -> & Hmid). exists (s' :: mid). split; [done | by constructor].
    - assert (terminal s' = true) as Hterm by (destruct Hsrc as [-> | ->], s'; (done || tauto)).
      destruct (path_terminal _ _ _ Hp Hterm) as [-> ->]. by exists []. }
  inversion Ht as [|? s1 l1 ? H1 P1]; subst; [destruct Hout; congruence|].
  destruct s1; try discriminate H1; [|destruct (path_terminal _ _ _ P1 eq_refl); destruct Hout; congruence].
  inversion P1 as [|? s2 l2 ? H2 P2]; subst; [destruct Hout; congruence|].
  destruct s2; try discriminate H2; [|destruct (path_terminal _ _ _ P2 eq_refl); destruct Hout; congruence].
  destruct (Hlive _ _ _ P2 (or_introl eq_refl) Hout) as (mid & -> & Hmid). eauto.
Qed.

Lemma lifecycle_runs_before_outcome_witness :
  exists mid, [READY; RUNNING; RETRYING; RUNNING; SUCCESS]
              = READY :: RUNNING :: mid ++ [SUCCESS] /\
              Forall (fun s => s = RUNNING \/ s = RETRYING) mid.
Proof.
  apply (lifecycle_runs_before_outcome ∅ "a" [READY; RUNNING; RETRYING; RUNNING; SUCCESS]
           {["a" := SUCCESS]} SUCCESS); [reflexivity | vm_compute; reflexivity | reflexivity | left; reflexivity].
Defined.
