(* ===== verification/Messages.v ===== *)
(** * Result contracts (contracts/messages.py)

    The status enums with their [normalize] class methods, [StepResult] and
    [WorkflowResult] with the methods that change them and their computed
    fields.  Timestamps are integer microseconds since the epoch. *)

From S2P Require Import Prelude PyStr PyVal.
From Stdlib Require Import QArith Qcanon.

Inductive StepStatus :=
  | StPending | StRunning | StSuccess | StFailed | StSkipped | StRetrying.

#[export] Instance StepStatus_eq_dec : EqDecision StepStatus.
Proof. solve_decision. Defined.

Definition status_value (s : StepStatus) : string :=
  match s with
  | StPending => "pending" | StRunning => "running" | StSuccess => "success"
  | StFailed => "failed" | StSkipped => "skipped" | StRetrying => "retrying"
  end.

(** ** Status normalization *)

Inductive ReviewStatus := APPROVED | APPROVED_WITH_NOTES | NEEDS_FIXES | REJECTED.

Definition review_value (s : ReviewStatus) : string :=
  match s with
  | APPROVED => "APPROVED" | APPROVED_WITH_NOTES => "APPROVED_WITH_NOTES"
  | NEEDS_FIXES => "NEEDS_FIXES" | REJECTED => "REJECTED"
  end.

Definition clean_review (raw : string) : string :=
  replace_all "-"%char "_"%char (replace_all " "%char "_"%char (upper (strip raw))).

Definition review_normalize (raw : option string) : ReviewStatus :=
  match raw with
  | None => NEEDS_FIXES
  | Some raw =>
      let cleaned := clean_review raw in
      if bool_decide (cleaned ∈ ["APPROVED_WITH_NOTES"; "APPROVED_WITH_COMMENTS";
                                 "CONDITIONAL_APPROVAL"; "APPROVED_CONDITIONALLY"])
      then APPROVED_WITH_NOTES
      else if bool_decide (cleaned ∈ ["APPROVED"; "PASS"; "PASSED"; "ACCEPT"; "ACCEPTED"; "OK";
                                      "LGTM"; "NO_ISSUES"; "NO_CHANGES_NEEDED"])
      then APPROVED
      else if bool_decide (cleaned ∈ ["REJECTED"; "REJECT"; "FAIL"; "FAILED"; "CRITICAL"; "BLOCKED"])
      then REJECTED
      else NEEDS_FIXES
  end.

Inductive TestGateStatus := TgPass | TgFail | TgError | TgSkipped.

Definition test_gate_normalize (raw : option string) : TestGateStatus :=
  match raw with
  | None => TgFail
  | Some raw =>
      let cleaned := upper (strip raw) in
      if bool_decide (cleaned ∈ ["PASS"; "PASSED"; "SUCCESS"; "GREEN"; "OK"]) then TgPass
      else if bool_decide (cleaned ∈ ["SKIP"; "SKIPPED"; "NOT_RUN"]) then TgSkipped
      else if bool_decide (cleaned ∈ ["ERROR"; "EXCEPTION"; "CRASH"]) then TgError
      else TgFail
  end.

Inductive FindingSeverity := SevCritical | SevHigh | SevMedium | SevLow.

#[export] Instance FindingSeverity_eq_dec : EqDecision FindingSeverity.
Proof. solve_decision. Defined.

Definition severity_mapping : odict FindingSeverity :=
  [("CRITICAL", SevCritical); ("HIGH", SevHigh); ("MEDIUM", SevMedium); ("MODERATE", SevMedium);
   ("LOW", SevLow); ("INFO", SevLow); ("INFORMATIONAL", SevLow)].

Definition severity_normalize (raw : option string) : FindingSeverity :=
  match raw with
  | None => SevMedium
  | Some raw => default SevMedium (od_get (upper (strip raw)) severity_mapping)
  end.

(** [ReviewReport.needs_fixes] and [critical_count], computed fields. *)
Definition needs_fixes (overall_status : ReviewStatus) : bool :=
  match overall_status with APPROVED => false | _ => true end.
Definition critical_count (findings : list FindingSeverity) : nat :=
  length (filter (SevCritical =.) findings).

(** ** Step results *)

Record StepResult := mkStepResult {
  sr_step_name : string;
  sr_status : StepStatus;
  sr_agent_role : option string;
  sr_tier : option Z;
  sr_model_used : option string;
  sr_input_data : odict pyval;
  sr_output_data : odict pyval;
  sr_error : option string;
  sr_error_type : option string;
  sr_start_time : Z;
  sr_end_time : option Z;
  sr_retry_count : Z;
  sr_metadata : odict pyval;
}.

(** [StepResult(step_name=..., status=..., tier=...)] with the field defaults;
    [now] is the clock reading of [start_time]'s default factory. *)
Definition new_step_result (name : string) (status : StepStatus) (tier : option Z) (now : Z)
  : StepResult :=
  {| sr_step_name := name; sr_status := status; sr_agent_role := None; sr_tier := tier;
     sr_model_used := None; sr_input_data := []; sr_output_data := []; sr_error := None;
     sr_error_type := None; sr_start_time := now; sr_end_time := None; sr_retry_count := 0;
     sr_metadata := [] |}.

Definition set_sr_status (s : StepStatus) (r : StepResult) : StepResult :=
  {| sr_step_name := sr_step_name r; sr_status := s; sr_agent_role := sr_agent_role r;
     sr_tier := sr_tier r; sr_model_used := sr_model_used r; sr_input_data := sr_input_data r;
     sr_output_data := sr_output_data r; sr_error := sr_error r; sr_error_type := sr_error_type r;
     sr_start_time := sr_start_time r; sr_end_time := sr_end_time r;
     sr_retry_count := sr_retry_count r; sr_metadata := sr_metadata r |}.
Definition set_sr_error (e t : option string) (r : StepResult) : StepResult :=
  {| sr_step_name := sr_step_name r; sr_status := sr_status r; sr_agent_role := sr_agent_role r;
     sr_tier := sr_tier r; sr_model_used := sr_model_used r; sr_input_data := sr_input_data r;
     sr_output_data := sr_output_data r; sr_error := e; sr_error_type := t;
     sr_start_time := sr_start_time r; sr_end_time := sr_end_time r;
     sr_retry_count := sr_retry_count r; sr_metadata := sr_metadata r |}.
Definition set_sr_end_time (t : option Z) (r : StepResult) : StepResult :=
  {| sr_step_name := sr_step_name r; sr_status := sr_status r; sr_agent_role := sr_agent_role r;
     sr_tier := sr_tier r; sr_model_used := sr_model_used r; sr_input_data := sr_input_data r;
     sr_output_data := sr_output_data r; sr_error := sr_error r; sr_error_type := sr_error_type r;
     sr_start_time := sr_start_time r; sr_end_time := t;
     sr_retry_count := sr_retry_count r; sr_metadata := sr_metadata r |}.
Definition set_sr_metadata (m : odict pyval) (r : StepResult) : StepResult :=
  {| sr_step_name := sr_step_name r; sr_status := sr_status r; sr_agent_role := sr_agent_role r;
     sr_tier := sr_tier r; sr_model_used := sr_model_used r; sr_input_data := sr_input_data r;
     sr_output_data := sr_output_data r; sr_error := sr_error r; sr_error_type := sr_error_type r;
     sr_start_time := sr_start_time r; sr_end_time := sr_end_time r;
     sr_retry_count := sr_retry_count r; sr_metadata := m |}.
Definition set_sr_data (inp outp : odict pyval) (r : StepResult) : StepResult :=
  {| sr_step_name := sr_step_name r; sr_status := sr_status r; sr_agent_role := sr_agent_role r;
     sr_tier := sr_tier r; sr_model_used := sr_model_used r; sr_input_data := inp;
     sr_output_data := outp; sr_error := sr_error r; sr_error_type := sr_error_type r;
     sr_start_time := sr_start_time r; sr_end_time := sr_end_time r;
     sr_retry_count := sr_retry_count r; sr_metadata := sr_metadata r |}.
Definition set_sr_retry_count (n : Z) (r : StepResult) : StepResult :=
  {| sr_step_name := sr_step_name r; sr_status := sr_status r; sr_agent_role := sr_agent_role r;
     sr_tier := sr_tier r; sr_model_used := sr_model_used r; sr_input_data := sr_input_data r;
     sr_output_data := sr_output_data r; sr_error := sr_error r; sr_error_type := sr_error_type r;
     sr_start_time := sr_start_time r; sr_end_time := sr_end_time r;
     sr_retry_count := n; sr_metadata := sr_metadata r |}.
Definition set_sr_model_used (m : option string) (r : StepResult) : StepResult :=
  {| sr_step_name := sr_step_name r; sr_status := sr_status r; sr_agent_role := sr_agent_role r;
     sr_tier := sr_tier r; sr_model_used := m; sr_input_data := sr_input_data r;
     sr_output_data := sr_output_data r; sr_error := sr_error r; sr_error_type := sr_error_type r;
     sr_start_time := sr_start_time r; sr_end_time := sr_end_time r;
     sr_retry_count := sr_retry_count r; sr_metadata := sr_metadata r |}.

Definition is_success (r : StepResult) : bool := bool_decide (sr_status r = StSuccess).
Definition is_failed (r : StepResult) : bool := bool_decide (sr_status r = StFailed).
Definition is_complete (r : StepResult) : bool :=
  bool_decide (sr_status r ∈ [StSuccess; StFailed; StSkipped]).

(** [delta.total_seconds() * 1000] of a microsecond difference. *)
Definition millis (micros : Z) : Qc := Q2Qc (micros # 1000).
Definition duration_ms (r : StepResult) : option Qc :=
  (fun e => millis (e - sr_start_time r)) <$> sr_end_time r.

(** A Python string or [None] is truthy when it is a non-empty string. *)
Definition truthy_str (s : option string) : bool :=
  match s with Some (String _ _) => true | _ => false end.

Definition step_mark_complete (success : bool) (error : option string) (now : Z) (r : StepResult)
  : StepResult :=
  let r := set_sr_status (if success then StSuccess else StFailed) (set_sr_end_time (Some now) r) in
  if truthy_str error then set_sr_error error (sr_error_type r) r else r.

(** ** Workflow results *)

Record WorkflowResult := mkWorkflowResult {
  wr_workflow_id : string;
  wr_workflow_name : string;
  wr_steps : list StepResult;
  wr_overall_status : StepStatus;
  wr_start_time : Z;
  wr_end_time : option Z;
  wr_final_output : odict pyval;
  wr_metadata : odict pyval;
}.

Definition new_workflow_result (id name : string) (status : StepStatus) (now : Z) : WorkflowResult :=
  {| wr_workflow_id := id; wr_workflow_name := name; wr_steps := []; wr_overall_status := status;
     wr_start_time := now; wr_end_time := None; wr_final_output := []; wr_metadata := [] |}.

Definition set_wr_steps (l : list StepResult) (w : WorkflowResult) : WorkflowResult :=
  {| wr_workflow_id := wr_workflow_id w; wr_workflow_name := wr_workflow_name w; wr_steps := l;
     wr_overall_status := wr_overall_status w; wr_start_time := wr_start_time w;
     wr_end_time := wr_end_time w; wr_final_output := wr_final_output w;
     wr_metadata := wr_metadata w |}.
Definition set_overall (s : StepStatus) (w : WorkflowResult) : WorkflowResult :=
  {| wr_workflow_id := wr_workflow_id w; wr_workflow_name := wr_workflow_name w;
     wr_steps := wr_steps w; wr_overall_status := s; wr_start_time := wr_start_time w;
     wr_end_time := wr_end_time w; wr_final_output := wr_final_output w;
     wr_metadata := wr_metadata w |}.
Definition set_wr_metadata (m : odict pyval) (w : WorkflowResult) : WorkflowResult :=
  {| wr_workflow_id := wr_workflow_id w; wr_workflow_name := wr_workflow_name w;
     wr_steps := wr_steps w; wr_overall_status := wr_overall_status w;
     wr_start_time := wr_start_time w; wr_end_time := wr_end_time w;
     wr_final_output := wr_final_output w; wr_metadata := m |}.
Definition set_final_output (o : odict pyval) (w : WorkflowResult) : WorkflowResult :=
  {| wr_workflow_id := wr_workflow_id w; wr_workflow_name := wr_workflow_name w;
     wr_steps := wr_steps w; wr_overall_status := wr_overall_status w;
     wr_start_time := wr_start_time w; wr_end_time := wr_end_time w;
     wr_final_output := o; wr_metadata := wr_metadata w |}.

Definition add_step (r : StepResult) (w : WorkflowResult) : WorkflowResult :=
  let w := set_wr_steps (wr_steps w ++ [r]) w in
  if is_failed r && bool_decide (wr_overall_status w ≠ StFailed) then set_overall StFailed w else w.

Definition wf_mark_complete (success : bool) (now : Z) (w : WorkflowResult) : WorkflowResult :=
  {| wr_workflow_id := wr_workflow_id w; wr_workflow_name := wr_workflow_name w;
     wr_steps := wr_steps w; wr_overall_status := if success then StSuccess else StFailed;
     wr_start_time := wr_start_time w; wr_end_time := Some now;
     wr_final_output := wr_final_output w; wr_metadata := wr_metadata w |}.

Definition failed_steps (w : WorkflowResult) : list StepResult :=
  filter (fun r => is_failed r = true) (wr_steps w).
Definition success_rate (w : WorkflowResult) : Qc :=
  match wr_steps w with
  | [] => 0
  | l => Q2Qc (Z.of_nat (length (filter (fun r => is_success r = true) l)) #
               Pos.of_nat (length l)) * Q2Qc (100 # 1)
  end%Qc.
Definition total_retries (w : WorkflowResult) : Z :=
  foldr Z.add 0%Z (sr_retry_count <$> wr_steps w).
Definition total_duration_ms (w : WorkflowResult) : option Qc :=
  (fun e => millis (e - wr_start_time w)) <$> wr_end_time w.

(** ** Lemmas *)

Lemma add_step_steps r w : wr_steps (add_step r w) = wr_steps w ++ [r].
Proof. unfold add_step. by destruct (_ && _). Qed.

Lemma add_step_overall r w :
  wr_overall_status (add_step r w) = if is_failed r then StFailed else wr_overall_status w.
Proof.
  unfold add_step. destruct (is_failed r); simpl; [|done].
  by case_bool_decide; simpl.
Qed.

Lemma add_step_metadata r w : wr_metadata (add_step r w) = wr_metadata w.
Proof. unfold add_step. by destruct (_ && _). Qed.

Lemma add_steps_overall l w :
  wr_overall_status (foldl (fun w r => add_step r w) w l) =
  if existsb is_failed l then StFailed else wr_overall_status w.
Proof.
  revert w. induction l as [|r l IH]; intros w; simpl; [done|].
  rewrite IH, add_step_overall. by destruct (is_failed r), (existsb is_failed l).
Qed.

#[export] Hint Rewrite add_step_steps add_step_overall add_step_metadata : arp_rw.

Lemma clean_review_lower_pad pre post s :
  Forall (fun c => is_space c = true) (chars pre) ->
  Forall (fun c => is_space c = true) (chars post) ->
  clean_review (pre +:+ lower s +:+ post) = clean_review s.
Proof.
  intros Hpre Hpost. unfold clean_review. do 2 f_equal.
  assert (strip (pre +:+ lower s +:+ post) = strip (lower s)) as ->.
  { unfold strip. rewrite !chars_app, strip_chars_pad; done. }
  unfold lower at 1. rewrite strip_map by apply is_space_lower. apply upper_lower.
Qed.

(** ** Properties *)

(** Review normalization ignores surrounding whitespace, case and
    the choice of [-], blank or [_] between words, maps every canonical value to
    itself, and falls back to the conservative NEEDS_FIXES for a missing value. *)
Theorem review_normalize_robust pre post s st :
  Forall (fun c => is_space c = true) (chars pre) ->
  Forall (fun c => is_space c = true) (chars post) ->
  review_normalize (Some (pre +:+ lower s +:+ post)) = review_normalize (Some s) /\
  review_normalize (Some (pre +:+ lower (review_value st) +:+ post)) = st /\
  review_normalize (Some (replace_all "_"%char "-"%char (review_value st))) = st /\
  review_normalize None = NEEDS_FIXES.
Proof.
  intros Hpre Hpost. unfold review_normalize. rewrite !clean_review_lower_pad by done.
  repeat split; by destruct st.
Qed.

Lemma review_normalize_robust_witness :
  review_normalize (Some ("  " +:+ lower "Approved With Notes" +:+ " ")) =
  review_normalize (Some "Approved With Notes").
Proof.
  apply (review_normalize_robust "  " " " "Approved With Notes" APPROVED); repeat constructor.
Defined.

(** After any sequence of [add_step] calls the workflow is FAILED
    exactly when it was before or some added step FAILED, and the results are
    kept in the order of the calls; [mark_complete] then settles it. *)
Theorem add_steps_track_failures l w now :
  let w' := foldl (fun w r => add_step r w) w l in
  wr_steps w' = wr_steps w ++ l /\
  (wr_overall_status w' = StFailed <->
     wr_overall_status w = StFailed \/ exists r, r ∈ l /\ sr_status r = StFailed) /\
  wr_metadata w' = wr_metadata w /\
  wr_overall_status (wf_mark_complete (bool_decide (wr_overall_status w' ≠ StFailed)) now w')
  = (if decide (wr_overall_status w' = StFailed) then StFailed else StSuccess).
Proof.
  intros w'. split; [|split; [|split]].
  - unfold w'. clear w'. revert w. induction l as [|r l IH]; intros w; simpl; [by rewrite app_nil_r|].
    rewrite IH, add_step_steps, <- app_assoc. done.
  - unfold w'. rewrite add_steps_overall. destruct (existsb is_failed l) eqn:E.
    + split; [|done]. intros _. right. apply existsb_exists in E as (r & Hr & Hf).
      exists r. split; [by apply list_elem_of_In|]. by apply bool_decide_eq_true in Hf.
    + split; [by left|]. intros [?|(r & Hr & Hf)]; [done|]. exfalso.
      apply not_true_iff_false in E. apply E, existsb_exists. exists r.
      split; [by apply list_elem_of_In|]. by apply bool_decide_eq_true.
  - unfold w'. clear w'. revert w. induction l as [|r l IH]; intros w; simpl; [done|].
    by rewrite IH, add_step_metadata.
  - simpl. case_bool_decide; case_decide; tauto.
Qed.
