(* ===== verification/Tracking.v ===== *)
(** * Step tracking of an execution context (engine/context.py, "Step Tracking")

    The part of [ExecutionContext] the executors share: the ordered lists of
    completed and failed steps and the current step.  Event handlers are
    notified after each change and cannot affect it ([_emit] swallows their
    exceptions), so the methods are functions on the record. *)

From S2P Require Import Prelude.

Record Tracking := mkTracking {
  current_step : option string;
  completed_steps : list string;
  failed_steps : list string;
}.

Definition fresh_tracking : Tracking := mkTracking None [] [].

Definition mark_step_start (step_name : string) (t : Tracking) : Tracking :=
  mkTracking (Some step_name) (completed_steps t) (failed_steps t).

(** [if x not in l: l.append(x)] *)
Definition append_new (x : string) (l : list string) : list string :=
  if decide (x ∈ l) then l else l ++ [x].

Definition mark_step_complete (step_name : string) (t : Tracking) : Tracking :=
  mkTracking None (append_new step_name (completed_steps t)) (failed_steps t).

Definition mark_step_failed (step_name : string) (t : Tracking) : Tracking :=
  mkTracking None (completed_steps t) (append_new step_name (failed_steps t)).

Definition is_step_complete (t : Tracking) (step_name : string) : bool :=
  bool_decide (step_name ∈ completed_steps t).
Definition is_step_failed (t : Tracking) (step_name : string) : bool :=
  bool_decide (step_name ∈ failed_steps t).

(** [completed_steps.remove(x)]: the first occurrence. *)
Fixpoint remove_first (x : string) (l : list string) : list string :=
  match l with
  | [] => []
  | y :: l' => if decide (y = x) then l' else y :: remove_first x l'
  end.

Definition set_completed_steps (l : list string) (t : Tracking) : Tracking :=
  mkTracking (current_step t) l (failed_steps t).

(** No duplicates: what the guards of the two [mark] methods maintain. *)
Definition tracking_wf (t : Tracking) : Prop :=
  NoDup (completed_steps t) /\ NoDup (failed_steps t).

Lemma elem_of_append_new x y l : x ∈ append_new y l <-> x = y \/ x ∈ l.
Proof.
  unfold append_new. case_decide.
  - split; [by right|]. by intros [->|].
  - rewrite elem_of_app, list_elem_of_singleton. tauto.
Qed.

Lemma NoDup_append_new x l : NoDup l -> NoDup (append_new x l).
Proof.
  intros Hl. unfold append_new. case_decide; [done|]. apply NoDup_app.
  split; [done|]. split; [|apply NoDup_singleton]. by intros y Hy ->%list_elem_of_singleton.
Qed.

Lemma NoDup_remove_first x l : NoDup l -> NoDup (remove_first x l) /\ x ∉ remove_first x l.
Proof.
  induction 1 as [|y l Hy Hl [IH1 IH2]]; simpl; [split; [constructor|apply not_elem_of_nil]|].
  case_decide as Hyx; [by subst|]. split.
  - constructor; [|done]. intros Hin. apply Hy. clear -Hin.
    induction l as [|z l IH]; simpl in *; [done|]. case_decide; [by right|].
    apply elem_of_cons in Hin as [->|]; [left|right; auto].
  - intros [->|]%elem_of_cons; done.
Qed.

#[export] Hint Resolve NoDup_append_new : arp.
#[export] Hint Rewrite elem_of_append_new : arp_rw.
