(* ===== verification/Dag.v ===== *)
(** * Workflow DAGs (engine/dag.py)

    [DAG] is the dataclass; [add], [validate] (with its three passes),
    [get_execution_order], [get_ready_steps] and [get_dependents] are its
    methods.  The iterative three-colour search and Kahn's algorithm are
    written as the loops they are: a step function on the loop's state, run by
    [run_loop] with a fuel computed from the plan.

    The file only holds the definitions and their small lemmas; [DagFacts]
    proves the algorithms correct.  Steps are abstract here: the DAG needs a
    name and a dependency list, which is what the interface [DagStep] says. *)

From S2P Require Import Prelude.

Class DagStep (S : Type) := {
  step_name : S -> string;
  depends_on : S -> list string;
}.

(** The least a step can be: a name and its dependencies. *)
Record PlainStep := plain { ps_name : string; ps_deps : list string }.
#[export] Instance PlainStep_DagStep : DagStep PlainStep :=
  {| step_name := ps_name; depends_on := ps_deps |}.

Section dag.
Context {S : Type} `{!DagStep S}.

Record DAG := mkDAG {
  dag_name : string;
  dag_description : string;
  dag_steps : odict S;
}.

Definition add (d : DAG) (step : S) : res DAG :=
  if od_mem (step_name step) (dag_steps d)
  then Raise (ValueError ("Step '" +:+ step_name step +:+ "' already exists in DAG"))
  else Ok {| dag_name := dag_name d; dag_description := dag_description d;
             dag_steps := od_set (step_name step) step (dag_steps d) |}.

(** [add] mutates [self]; when one raises, the steps before it stay added, so
    the result pairs the DAG left behind with the outcome. *)
Fixpoint add_many (d : DAG) (steps : list S) : DAG * res unit :=
  match steps with
  | [] => (d, Ok tt)
  | step :: steps' =>
      match add d step with
      | Ok d' => add_many d' steps'
      | Raise e => (d, Raise e)
      end
  end.

(** Names in registration order, and the dependencies of a name. *)
Definition names (d : DAG) : list string := od_keys (dag_steps d).
Definition deps (d : DAG) (n : string) : list string :=
  match od_get n (dag_steps d) with Some s => depends_on s | None => [] end.

(** ** Missing dependencies *)

Definition first_missing_dep (d : DAG) (l : list string) : option string :=
  find (fun dep => negb (od_mem dep (dag_steps d))) l.

Fixpoint check_missing (d : DAG) (l : odict S) : res unit :=
  match l with
  | [] => Ok tt
  | (n, step) :: l' =>
      match first_missing_dep d (depends_on step) with
      | Some dep => Raise (MissingDependencyError n dep)
      | None => check_missing d l'
      end
  end.

Definition check_missing_dependencies (d : DAG) : res unit := check_missing d (dag_steps d).

(** ** Adjacency list: dependency -> dependents, once per edge *)

Abbreviation adjacency := (gmap string (list string)).

(** [adjacency.setdefault(dep, []).append(n)] *)
Definition append_dependent (n : string) (a : adjacency) (dep : string) : adjacency :=
  <[dep := default [] (a !! dep) ++ [n]]> a.

Definition build_adjacency_list (d : DAG) : adjacency :=
  foldl (fun a (kv : string * S) => foldl (append_dependent kv.1) a (depends_on kv.2))
        (foldl (fun a n => <[n := []]> a) ∅ (names d))
        (dag_steps d).

(** [adjacency.get(n, [])] *)
Definition adj (a : adjacency) (n : string) : list string := default [] (a !! n).

Definition get_dependents (d : DAG) (n : string) : list string := adj (build_adjacency_list d) n.

(** ** Cycle detection: iterative three-colour depth-first search *)

Inductive Color := white | gray | black.
#[export] Instance Color_eq_dec : EqDecision Color.
Proof. solve_decision. Defined.

(** [dfs_roots]: the roots the outer [for] has still to visit.  [dfs_stack]:
    the frames, the top of the Python stack first; a frame is a gray node and
    what its iterator has left. *)
Record Dfs := mkDfs {
  dfs_roots : list string;
  dfs_color : gmap string Color;
  dfs_stack : list (string * list string);
}.

Definition enter (a : adjacency) (n : string) (roots : list string) (color : gmap string Color)
    (stack : list (string * list string)) : Dfs :=
  mkDfs roots (<[n := gray]> color) ((n, adj a n) :: stack).

(** The names of a stack, bottom first, as [path = [gray for gray, _ in stack]]. *)
Definition stack_path (stack : list (string * list string)) : list string := reverse (stack.*1).

(** [path[path.index(x):]] *)
Fixpoint from_first (x : string) (l : list string) : list string :=
  match l with
  | [] => []
  | y :: l' => if decide (y = x) then y :: l' else from_first x l'
  end.

(** One pass through the loops: either the outer [for] (empty stack) or one
    iteration of [while stack]. *)
Definition dfs_step (a : adjacency) (s : Dfs) : Dfs + res unit :=
  match dfs_stack s with
  | [] =>
      match dfs_roots s with
      | [] => inr (Ok tt)
      | root :: roots =>
          match dfs_color s !! root with
          | None => inr (Raise (KeyError root))
          | Some white => inl (enter a root roots (dfs_color s) [])
          | Some _ => inl (mkDfs roots (dfs_color s) [])
          end
      end
  | (node, []) :: stack => inl (mkDfs (dfs_roots s) (<[node := black]> (dfs_color s)) stack)
  | (node, neighbor :: rest) :: stack =>
      match dfs_color s !! neighbor with
      | None => inr (Raise (KeyError neighbor))
      | Some gray =>
          inr (Raise (CycleDetectedError
                        (from_first neighbor (stack_path (dfs_stack s)) ++ [neighbor])))
      | Some white => inl (enter a neighbor (dfs_roots s) (dfs_color s) ((node, rest) :: stack))
      | Some black => inl (mkDfs (dfs_roots s) (dfs_color s) ((node, rest) :: stack))
      end
  end.

Definition dfs_init (d : DAG) : Dfs :=
  mkDfs (names d) (foldl (fun c n => <[n := white]> c) ∅ (names d)) [].

(** Every iteration consumes a root, a frame or an iterator element. *)
Definition node_cost (a : adjacency) (n : string) : nat := 1 + length (adj a n).
Definition dfs_fuel (d : DAG) (a : adjacency) : nat :=
  1 + length (names d) + sum_list (node_cost a <$> names d).

Definition detect_cycles (d : DAG) (a : adjacency) : res unit :=
  default (Raise OutOfFuel) (run_loop (dfs_step a) (dfs_fuel d a) (dfs_init d)).

(** ** Validation *)

Definition validate (d : DAG) : res unit :=
  match dag_steps d with
  | [] => Raise (ValueError ("DAG '" +:+ dag_name d +:+ "' has no steps. Check the YAML schema."))
  | _ =>
      check_missing_dependencies d ≫= fun _ =>
      detect_cycles d (build_adjacency_list d)
  end.

(** ** Topological order: Kahn's algorithm *)

(** [in_degree[dependent] -= 1; if it is 0: ready.append(dependent)], for each
    dependent in turn.  An unknown dependent would be a [KeyError]. *)
Fixpoint decrement_all (dependents : list string) (deg : gmap string Z) (ready : list string)
  : res (gmap string Z * list string) :=
  match dependents with
  | [] => Ok (deg, ready)
  | x :: l =>
      match deg !! x with
      | None => Raise (KeyError x)
      | Some k =>
          let k' := (k - 1)%Z in
          decrement_all l (<[x := k']> deg) (if decide (k' = 0%Z) then ready ++ [x] else ready)
      end
  end.

Definition init_in_degree (d : DAG) : gmap string Z :=
  foldl (fun m (kv : string * S) => <[kv.1 := Z.of_nat (length (depends_on kv.2))]> m)
        ∅ (dag_steps d).

(** [[name for name, deg in in_degree.items() if deg == 0]] *)
Definition initial_ready (d : DAG) : list string :=
  filter (fun n => init_in_degree d !! n = Some 0%Z) (names d).

Record Kahn := mkKahn {
  kahn_deg : gmap string Z;
  kahn_ready : list string;
  kahn_order : list string;
}.

Definition kahn_step (a : adjacency) (s : Kahn) : Kahn + res (list string) :=
  match kahn_ready s with
  | [] => inr (Ok (kahn_order s))
  | current :: rest =>
      match decrement_all (adj a current) (kahn_deg s) rest with
      | Raise e => inr (Raise e)
      | Ok (deg, ready) => inl (mkKahn deg ready (kahn_order s ++ [current]))
      end
  end.

Definition get_execution_order (d : DAG) : res (list string) :=
  validate d ≫= fun _ =>
  let a := build_adjacency_list d in
  match run_loop (kahn_step a) (1 + length (names d))
                 (mkKahn (init_in_degree d) (initial_ready d) []) with
  | None => Raise OutOfFuel
  | Some (Raise e) => Raise e
  | Some (Ok order) =>
      if decide (length order ≠ length (names d)) then Raise (CycleDetectedError order)
      else Ok order
  end.

(** ** Ready steps *)

Definition step_ready (completed : gset string) (kv : string * S) : bool :=
  bool_decide (kv.1 ∉ completed) && forallb (fun dep => bool_decide (dep ∈ completed)) (depends_on kv.2).

Definition get_ready_steps (d : DAG) (completed : gset string) : list string :=
  (filter (fun kv => step_ready completed kv = true) (dag_steps d)).*1.

End dag.

Arguments DAG S : clear implicits.

(** A DAG with one dependency twice and a cycle, and an acyclic one. *)
Example validate_cycle :
  validate (mkDAG "w" "" [("a", plain "a" ["c"]); ("b", plain "b" ["a"; "a"]); ("c", plain "c" ["b"])])
  = Raise (CycleDetectedError ["a"; "b"; "c"; "a"]).
Proof. vm_compute. reflexivity. Qed.
Example order_diamond :
  get_execution_order (mkDAG "w" "" [("d", plain "d" ["b"; "c"; "b"]); ("b", plain "b" ["a"]);
                                     ("c", plain "c" ["a"]); ("a", plain "a" [])])
  = Ok ["a"; "b"; "c"; "d"].
Proof. vm_compute. reflexivity. Qed.
