(* ===== verification/DagFacts.v ===== *)
(** * Correctness of the DAG algorithms of [Dag]

    [adj] as a relation, the depth-first search on an arbitrary graph (its
    invariant, termination, and both directions of its verdict), then
    [validate], Kahn's algorithm and [get_ready_steps]. *)

From S2P Require Import Prelude Dag.

(** ** The depth-first search on a graph given by an adjacency map *)
Section dfs.
  Context (a : gmap string (list string)) (ns : list string).
  Context (Hns : NoDup ns) (Hclosed : forall u v, v ∈ adj a u -> v ∈ ns).

  (** [above] is the node of the frame above: the dependent being visited. *)
Fixpoint frames_ok (c : gmap string Color) (above : option string)
      (stk : list (string * list string)) : Prop :=
    match stk with
    | [] => True
    | (u, rest) :: stk' =>
        (forall v, v ∈ rest -> v ∈ adj a u) /\
        (forall v, v ∈ adj a u -> v ∈ rest \/ c !! v = Some black \/ above = Some v) /\
        (match above with Some w => w ∈ adj a u | None => True end) /\
        frames_ok c (Some u) stk'
    end.

  (** [fin] lists the black nodes in the order they turned black. *)
Record dfs_inv (s : Dfs) (fin : list string) : Prop := {
    inv_dom : forall x, x ∈ ns <-> is_Some (dfs_color s !! x);
    inv_gray : forall x, dfs_color s !! x = Some gray <-> x ∈ (dfs_stack s).*1;
    inv_nodup : NoDup (dfs_stack s).*1;
    inv_fin : forall x, dfs_color s !! x = Some black <-> x ∈ fin;
    inv_fin_nodup : NoDup fin;
    inv_fin_closed : forall l1 u l2, fin = l1 ++ u :: l2 -> forall v, v ∈ adj a u -> v ∈ l1;
    inv_frames : frames_ok (dfs_color s) None (dfs_stack s);
    inv_white : forall x, dfs_color s !! x = Some white -> x ∈ dfs_roots s;
    inv_roots : forall x, x ∈ dfs_roots s -> x ∈ ns;
  }.

Lemma frames_ok_mono c c' above stk :
    (forall v, c !! v = Some black -> c' !! v = Some black) ->
    frames_ok c above stk -> frames_ok c' above stk.
  Proof.
    intros Hc. revert above. induction stk as [|[u rest] stk IH]; intros above; simpl; [done|].
    intros (H1 & H2 & H3 & H4). repeat split; auto.
    intros v Hv. destruct (H2 v Hv) as [?|[?|?]]; auto.
  Qed.

Lemma frames_ok_black_above c u stk :
    c !! u = Some black -> frames_ok c (Some u) stk -> frames_ok c None stk.
  Proof.
    intros Hu. destruct stk as [|[w rest] stk]; simpl; [done|].
    intros (H1 & H2 & H3 & H4). repeat split; auto.
    intros v Hv. destruct (H2 v Hv) as [?|[?|[= ->]]]; auto.
  Qed.

Lemma stack_path_cons u rest stk : stack_path ((u, rest) :: stk) = stack_path stk ++ [u].
  Proof. unfold stack_path. by rewrite fmap_cons, reverse_cons. Qed.

Lemma elem_of_stack_path x stk : x ∈ stack_path stk <-> x ∈ stk.*1.
  Proof. apply elem_of_reverse. Qed.

  (** The gray nodes, bottom first, form a path of dependents. *)
Lemma frames_chain c above stk :
    frames_ok c above stk -> chain (fun x y => y ∈ adj a x) (stack_path stk).
  Proof.
    revert above. induction stk as [|[u rest] stk IH]; intros above; [done|].
    intros (_ & _ & _ & H). rewrite stack_path_cons. pose proof (IH _ H) as Hc.
    destruct stk as [|[w rest'] stk]; [done|].
    destruct H as (_ & _ & Hw & _). rewrite stack_path_cons in *.
    rewrite <- app_assoc. by apply chain_snoc.
  Qed.

Lemma from_first_chain R x l : chain R l -> chain R (from_first x l).
  Proof.
    induction l as [|y l IH]; simpl; [done|]. intros [H1 H2]. case_decide; simpl; auto.
  Qed.

Lemma from_first_spec x l z :
    x ∈ l ++ [z] -> exists mid, from_first x (l ++ [z]) = mid ++ [z] /\
                               (mid = [] /\ x = z \/ exists mid', mid = x :: mid').
  Proof.
    induction l as [|y l IH]; simpl.
    - rewrite list_elem_of_singleton. intros ->. rewrite decide_True by done. exists []. auto.
    - rewrite elem_of_cons. intros Hx. destruct (decide (y = x)) as [->|Hne].
      + exists (x :: l). split; [done|]. right. eauto.
      + destruct Hx as [->|Hx]; [done|]. auto.
  Qed.

  (** What a cycle report is: a closed path along the edges. *)
Definition closed_path (p : list string) : Prop :=
    chain (fun x y => y ∈ adj a x) p /\ exists x mid, p = x :: mid ++ [x].

Lemma back_edge_cycle c node neighbor rest stk :
    frames_ok c None ((node, neighbor :: rest) :: stk) ->
    neighbor ∈ ((node, neighbor :: rest) :: stk).*1 ->
    closed_path (from_first neighbor (stack_path ((node, neighbor :: rest) :: stk)) ++ [neighbor]).
  Proof.
    intros Hf Hin. pose proof (frames_chain _ _ _ Hf) as Hc.
    assert (neighbor ∈ adj a node) as Hedge by (apply Hf; left).
    apply elem_of_stack_path in Hin. rewrite stack_path_cons in *.
    pose proof (from_first_chain _ neighbor _ Hc) as Hc'.
    destruct (from_first_spec _ _ _ Hin) as (mid & Hmid & Hhd). rewrite Hmid in Hc' |- *.
    split; [rewrite <- app_assoc; by apply chain_snoc|].
    destruct Hhd as [[-> ->]|[mid' ->]]; [by exists node, []|].
    exists neighbor, (mid' ++ [node]). done.
  Qed.

  (** Measure: roots left, nodes still white, iterators still open. *)
Definition white_cost (c : gmap string Color) (x : string) : nat :=
    if decide (c !! x = Some white) then node_cost a x else 0.
Definition frame_cost (f : string * list string) : nat := 1 + length f.2.
Definition dfs_measure (s : Dfs) : nat :=
    length (dfs_roots s) + sum_list (white_cost (dfs_color s) <$> ns)
    + sum_list (frame_cost <$> dfs_stack s).

Lemma white_cost_gray c x :
    x ∈ ns -> c !! x = Some white ->
    sum_list (white_cost c <$> ns) = sum_list (white_cost (<[x := gray]> c) <$> ns) + node_cost a x.
  Proof.
    intros Hx Hw.
    pose proof (sum_list_fmap_update (white_cost c) (white_cost (<[x := gray]> c)) ns x Hns Hx) as H.
    assert (white_cost c x = node_cost a x) as H1 by (unfold white_cost; by rewrite decide_True).
    assert (white_cost (<[x := gray]> c) x = 0) as H2
      by (unfold white_cost; by rewrite lookup_insert_eq, decide_False).
    rewrite H1, H2 in H. rewrite <- H; [lia|].
    intros y Hy. unfold white_cost. by rewrite lookup_insert_ne.
  Qed.

Lemma white_cost_black c x :
    c !! x = Some gray ->
    sum_list (white_cost (<[x := black]> c) <$> ns) = sum_list (white_cost c <$> ns).
  Proof.
    intros Hg. apply sum_list_fmap_ext. intros y _. unfold white_cost.
    destruct (decide (x = y)) as [->|]; [|by rewrite lookup_insert_ne].
    rewrite lookup_insert_eq, Hg. by rewrite !decide_False.
  Qed.

  (** Entering a white node keeps the invariant. *)
Lemma enter_inv x roots roots' c stk stk' fin :
    dfs_inv (mkDfs roots c stk) fin -> c !! x = Some white ->
    (stk = [] /\ stk' = [] \/
     exists u rest stk0, stk = (u, x :: rest) :: stk0 /\ stk' = (u, rest) :: stk0) ->
    (forall y, y ∈ roots' -> y ∈ ns) ->
    (forall y, c !! y = Some white -> y = x \/ y ∈ roots') ->
    dfs_inv (enter a x roots' c stk') fin.
  Proof.
    intros [Hdom Hgray Hnd Hfin Hfnd Hfc Hfr Hw Hr] Hx Hstk Hr' Hw'.
    csimpl in *.
    assert (stk'.*1 = stk.*1) as Hs1.
    { destruct Hstk as [[-> ->]|(u & rest & stk0 & -> & ->)]; done. }
    assert (x ∉ stk.*1) as Hxs by (rewrite <- Hgray, Hx; done).
    split; csimpl.
    - intros y. rewrite Hdom. destruct (decide (x = y)) as [->|].
      + rewrite lookup_insert_eq, Hx. split; eauto.
      + by rewrite lookup_insert_ne.
    - intros y. rewrite Hs1, elem_of_cons. destruct (decide (x = y)) as [->|].
      + rewrite lookup_insert_eq. tauto.
      + rewrite lookup_insert_ne, Hgray by done. split; [by right|]. by intros [->|].
    - rewrite Hs1. by constructor.
    - intros y. rewrite <- Hfin. destruct (decide (x = y)) as [->|].
      + by rewrite lookup_insert_eq, Hx.
      + by rewrite lookup_insert_ne.
    - done.
    - done.
    - split; [done|]. split; [auto|]. split; [done|].
      assert (forall v, c !! v = Some black -> <[x:=gray]> c !! v = Some black) as Hmono.
      { intros v Hv. rewrite lookup_insert_ne; [done|]. intros ->. congruence. }
      destruct Hstk as [[-> ->]|(u & rest & stk0 & -> & ->)]; [done|].
      destruct Hfr as (H1 & H2 & _ & H4). simpl. repeat split.
      + intros v Hv. apply H1. by right.
      + intros v Hv. destruct (H2 v Hv) as [Hv'|[Hv'|Hv']]; [|auto|done].
        apply elem_of_cons in Hv' as [->|Hv']; auto.
      + apply H1. left.
      + by eapply frames_ok_mono.
    - intros y. destruct (decide (x = y)) as [->|]; [by rewrite lookup_insert_eq|].
      rewrite lookup_insert_ne by done. intros Hy. destruct (Hw' y Hy); congruence.
    - done.
  Qed.
  (** Closing the top frame turns its node black. *)
Lemma pop_inv roots c node stk fin :
    dfs_inv (mkDfs roots c ((node, []) :: stk)) fin ->
    dfs_inv (mkDfs roots (<[node := black]> c) stk) (fin ++ [node]).
  Proof.
    intros [Hdom Hgray Hnd Hfin Hfnd Hfc Hfr Hw Hr]. csimpl in *.
    apply NoDup_cons in Hnd as [Hnode Hnd].
    assert (c !! node = Some gray) as Hg by (apply Hgray; left).
    assert (node ∉ fin) as Hnf by (rewrite <- Hfin, Hg; done).
    destruct Hfr as (_ & H2 & _ & H4).
    split; csimpl.
    - intros y. rewrite Hdom. destruct (decide (node = y)) as [->|].
      + rewrite lookup_insert_eq, Hg. split; eauto.
      + by rewrite lookup_insert_ne.
    - intros y. destruct (decide (node = y)) as [->|].
      + rewrite lookup_insert_eq. split; [done|tauto].
      + rewrite lookup_insert_ne, Hgray, elem_of_cons by done. split; [by intros [->|]|by right].
    - done.
    - intros y. rewrite elem_of_app, list_elem_of_singleton. destruct (decide (node = y)) as [->|].
      + rewrite lookup_insert_eq. tauto.
      + rewrite lookup_insert_ne, Hfin by done. split; [by left|]. by intros [?| ->].
    - apply NoDup_app. split; [done|]. split; [|apply NoDup_singleton].
      intros y Hy ->%list_elem_of_singleton. done.
    - intros l1 u l2 Heq v Hv. destruct l2 as [|z l2 IHl2] using rev_ind; [|clear IHl2].
      + apply app_inj_tail in Heq as [<- <-].
        destruct (H2 v Hv) as [Hv'|[Hv'|]]; [by apply elem_of_nil in Hv'|by apply Hfin|done].
      + rewrite app_comm_cons, app_assoc in Heq. apply app_inj_tail in Heq as [Heq _].
        by eapply Hfc.
    - apply (frames_ok_black_above _ node); [by rewrite lookup_insert_eq|].
      eapply frames_ok_mono; [|done]. intros v Hv.
      rewrite lookup_insert_ne; [done|]. intros ->. congruence.
    - intros y. destruct (decide (node = y)) as [->|]; [by rewrite lookup_insert_eq|].
      rewrite lookup_insert_ne by done. auto.
    - done.
  Qed.

Ltac dfs_facts H :=
    pose proof (inv_dom _ _ H) as Hdom; pose proof (inv_gray _ _ H) as Hgray;
    pose proof (inv_fin _ _ H) as Hfin; pose proof (inv_frames _ _ H) as Hfr;
    pose proof (inv_white _ _ H) as Hw; pose proof (inv_roots _ _ H) as Hr;
    csimpl in Hdom; csimpl in Hgray; csimpl in Hfin; csimpl in Hfr; csimpl in Hw; csimpl in Hr.

  (** Advancing past a root or a neighbour that needs no visit. *)
Lemma skip_root_inv root roots c fin :
    dfs_inv (mkDfs (root :: roots) c []) fin -> c !! root ≠ Some white ->
    dfs_inv (mkDfs roots c []) fin.
  Proof.
    intros Hinv Hc. dfs_facts Hinv. destruct Hinv; split; try done; csimpl.
    - intros y Hy. specialize (Hw y Hy). by apply elem_of_cons in Hw as [->|].
    - intros y Hy. apply Hr. by right.
  Qed.

Lemma skip_neighbor_inv roots c node nb rest stk fin :
    dfs_inv (mkDfs roots c ((node, nb :: rest) :: stk)) fin -> c !! nb = Some black ->
    dfs_inv (mkDfs roots c ((node, rest) :: stk)) fin.
  Proof.
    intros Hinv Hc. dfs_facts Hinv. destruct Hinv; split; try done; csimpl.
    destruct Hfr as (H1 & H2 & _ & H4). split; [|split; [|done]].
    - intros v Hv. apply H1. by right.
    - intros v Hv. destruct (H2 v Hv) as [Hv'|]; [|auto].
      apply elem_of_cons in Hv' as [->|]; auto.
  Qed.

Definition dfs_ok (s : Dfs) : Prop := exists fin, dfs_inv s fin.

Lemma dfs_step_continue s s' :
    dfs_ok s -> dfs_step a s = inl s' -> dfs_ok s' /\ dfs_measure s' < dfs_measure s.
  Proof.
    intros [fin Hinv]. destruct s as [roots c stk]. dfs_facts Hinv. unfold dfs_step; simpl.
    destruct stk as [|[node [|nb rest]] stk].
    - destruct roots as [|root roots]; [done|].
      destruct (c !! root) as [[]|] eqn:Hc; intros [= <-].
      + split.
        * exists fin. eapply enter_inv; [done|done|by left|intros y Hy; apply Hr; by right|].
          intros y Hy. by apply elem_of_cons, Hw.
        * unfold dfs_measure, enter; csimpl.
          rewrite (white_cost_gray c root); [|apply Hr; left|done].
          unfold frame_cost, node_cost; simpl. lia.
      + split; [|unfold dfs_measure; csimpl; lia].
        exists fin. eapply skip_root_inv; [done|congruence].
      + split; [|unfold dfs_measure; csimpl; lia].
        exists fin. eapply skip_root_inv; [done|congruence].
    - intros [= <-]. split; [eexists; by apply pop_inv|].
      unfold dfs_measure; csimpl. rewrite white_cost_black; [|apply Hgray; left].
      unfold frame_cost; simpl. lia.
    - destruct (c !! nb) as [[]|] eqn:Hc; intros [= <-].
      + split.
        * exists fin. eapply enter_inv; [done|done|right; eauto 10|done|].
          intros y Hy. right. by apply Hw.
        * unfold dfs_measure, enter; csimpl.
          rewrite (white_cost_gray c nb); [|apply Hdom; eauto|done].
          unfold frame_cost, node_cost; simpl. lia.
      + split; [|unfold dfs_measure, frame_cost; csimpl; lia].
        exists fin. by eapply skip_neighbor_inv.
  Qed.

  (** The two verdicts: a closed path, or all nodes listed after their dependents. *)
Definition dfs_verdict (r : res unit) : Prop :=
    (exists p, r = Raise (CycleDetectedError p) /\ closed_path p) \/
    (r = Ok tt /\ exists fin, fin ≡ₚ ns /\
       forall l1 u l2, fin = l1 ++ u :: l2 -> forall v, v ∈ adj a u -> v ∈ l1).

Lemma dfs_step_exit s r : dfs_ok s -> dfs_step a s = inr r -> dfs_verdict r.
  Proof.
    intros [fin Hinv]. destruct s as [roots c stk]. dfs_facts Hinv. unfold dfs_step; simpl.
    assert (forall n, n ∈ ns -> c !! n ≠ None) as Hno.
    { intros n Hn. apply Hdom in Hn as [? Hn]. by rewrite Hn. }
    destruct stk as [|[node [|nb rest]] stk]; [|done|].
    - destruct roots as [|root roots].
      + intros [= <-]. right. split; [done|]. exists fin. split; [|apply Hinv].
        apply NoDup_Permutation; [apply Hinv|done|].
        intros x. rewrite <- Hfin, Hdom. split; [eauto|].
        intros [[] Hx]; [by apply Hw, elem_of_nil in Hx|by apply Hgray, elem_of_nil in Hx|done].
      + destruct (c !! root) as [[]|] eqn:Hc; try done.
        exfalso. apply (Hno root); [apply Hr; left|done].
    - destruct (c !! nb) as [[]|] eqn:Hc; try done; intros [= <-].
      + left. eexists. split; [done|]. eapply back_edge_cycle; [done|]. by apply Hgray.
      + exfalso. apply (Hno nb); [|done]. destruct Hfr as (H1 & _).
        apply (Hclosed node), H1. left.
  Qed.

  (** The search terminates within its fuel, whatever the graph. *)
Lemma dfs_total s : dfs_ok s -> forall fuel, dfs_measure s < fuel ->
    exists r, run_loop (dfs_step a) fuel s = Some r /\ dfs_verdict r.
  Proof.
    intros Hs fuel Hfuel.
    destruct (run_loop_total (dfs_step a) dfs_ok dfs_measure dfs_step_continue fuel s Hs Hfuel)
      as [r Hr].
    exists r. split; [done|].
    eapply (run_loop_inv (dfs_step a) dfs_ok dfs_verdict); [|apply dfs_step_exit|done..].
    intros x y Hx Hy. by apply (dfs_step_continue x).
  Qed.
End dfs.

(** ** The adjacency list of a DAG *)
Section dag_facts.
Context {S : Type} `{!DagStep S}.
Implicit Types (d : DAG S) (n x y : string).

Definition wf_dag d : Prop := NoDup (names d).

(** [x] depends on registered names only. *)
Definition closed_deps d : Prop := forall x y, y ∈ deps d x -> y ∈ names d.

(** A topological order: every name once, dependencies first. *)
Definition topological d (l : list string) : Prop :=
  l ≡ₚ names d /\ forall x y, x ∈ names d -> y ∈ deps d x -> precedes l y x.

(** A dependency cycle, listed from dependency to dependent. *)
Definition dependency_cycle d (p : list string) : Prop :=
  chain (fun x y => x ∈ deps d y) p /\ exists x mid, p = x :: mid ++ [x].

Lemma adj_append_dependent a n dep u :
  adj (append_dependent n a dep) u = adj a u ++ (if decide (u = dep) then [n] else []).
Proof.
  unfold append_dependent, adj. destruct (decide (u = dep)) as [->|].
  - by rewrite lookup_insert_eq.
  - by rewrite lookup_insert_ne, app_nil_r.
Qed.

Lemma adj_append_dependents a n l u :
  adj (foldl (append_dependent n) a l) u = adj a u ++ replicate (occ u l) n.
Proof.
  revert a. induction l as [|dep l IH]; intros a; simpl; [by rewrite app_nil_r|].
  rewrite IH, adj_append_dependent, occ_cons, <- app_assoc. by case_decide.
Qed.

Lemma adj_empty (l : list string) a u :
  adj a u = [] -> adj (foldl (fun a n => <[n := []]> a) a l) u = [].
Proof.
  revert a. induction l as [|n l IH]; intros a Ha; simpl; [done|]. apply IH.
  unfold adj in *. destruct (decide (n = u)) as [->|];
    [by rewrite lookup_insert_eq|by rewrite lookup_insert_ne].
Qed.

Lemma adj_steps (l : odict S) a u :
  adj (foldl (fun a (kv : string * S) => foldl (append_dependent kv.1) a (depends_on kv.2)) a l) u
  = adj a u ++ mjoin ((fun kv : string * S => replicate (occ u (depends_on kv.2)) kv.1) <$> l).
Proof.
  revert a. induction l as [|kv l IH]; intros a; simpl; [by rewrite app_nil_r|].
  by rewrite IH, adj_append_dependents, <- app_assoc.
Qed.

(** The dependents of [u], in registration order, once per edge. *)
Lemma get_dependents_spec d u :
  get_dependents d u
  = mjoin ((fun kv : string * S => replicate (occ u (depends_on kv.2)) kv.1) <$> dag_steps d).
Proof.
  unfold get_dependents, build_adjacency_list. rewrite adj_steps, adj_empty; [done|].
  unfold adj. by rewrite lookup_empty.
Qed.

Lemma deps_elem d x s : wf_dag d -> (x, s) ∈ dag_steps d -> deps d x = depends_on s.
Proof. intros Hwf Hin. unfold deps. by rewrite (od_get_of_elem x s). Qed.

Lemma names_elem d x : x ∈ names d <-> exists s, (x, s) ∈ dag_steps d.
Proof.
  unfold names, od_keys. rewrite list_elem_of_fmap. split.
  - intros ([? s] & -> & H). by exists s.
  - intros [s H]. by exists (x, s).
Qed.

Lemma deps_outside d x : x ∉ names d -> deps d x = [].
Proof. intros Hx. unfold deps. by rewrite (proj2 (od_get_None x _)). Qed.

(** Edges are counted the same on both sides. *)
Lemma occ_dependents d u x : wf_dag d -> occ x (get_dependents d u) = occ u (deps d x).
Proof.
  intros Hwf. rewrite get_dependents_spec. unfold wf_dag, names, od_keys in Hwf.
  unfold deps. induction (dag_steps d) as [|[n s] l IH]; csimpl; [done|].
  csimpl in Hwf. apply NoDup_cons in Hwf as [Hn Hwf].
  rewrite occ_app, occ_replicate. simpl. destruct (decide (x = n)) as [->|].
  - rewrite (proj2 (occ_zero n _)); [lia|]. rewrite list_elem_of_join.
    intros (l' & Hn' & Hl'). apply list_elem_of_fmap in Hl' as ([m s'] & -> & Hms).
    apply elem_of_replicate in Hn' as [-> _]. apply Hn, list_elem_of_fmap. by exists (m, s').
  - by apply IH.
Qed.

Lemma elem_of_dependents d u x : wf_dag d -> x ∈ get_dependents d u <-> u ∈ deps d x.
Proof. intros Hwf. by rewrite <- !occ_pos, occ_dependents. Qed.

Lemma dependents_names d u x : wf_dag d -> x ∈ get_dependents d u -> x ∈ names d.
Proof.
  intros Hwf Hx%elem_of_dependents; [|done]. destruct (decide (x ∈ names d)) as [|Hn]; [done|].
  rewrite deps_outside in Hx by done. by apply elem_of_nil in Hx.
Qed.

(** ** Missing dependencies *)
Lemma first_missing_None d l :
  first_missing_dep d l = None <-> forall y, y ∈ l -> y ∈ names d.
Proof.
  unfold first_missing_dep. induction l as [|z l IH]; simpl.
  - split; [|done]. by intros _ y Hy%elem_of_nil.
  - unfold od_mem in *. case_bool_decide; simpl.
    + rewrite IH. split; [intros Hl y Hy|intros Hl y Hy; apply Hl; by right].
      apply elem_of_cons in Hy as [->|]; auto.
    + split; [done|]. intros Hl. exfalso. apply H, Hl. left.
Qed.

Lemma first_missing_Some d l y :
  first_missing_dep d l = Some y -> y ∈ l /\ y ∉ names d.
Proof.
  unfold first_missing_dep. intros Hf. apply find_some in Hf as [Hin Hm].
  apply list_elem_of_In in Hin. unfold od_mem in Hm. by case_bool_decide.
Qed.

Lemma check_missing_ok d l :
  check_missing d l = Ok tt <-> forall n s y, (n, s) ∈ l -> y ∈ depends_on s -> y ∈ names d.
Proof.
  induction l as [|[n s] l IH]; simpl.
  - split; [|done]. by intros _ n s y Hy%elem_of_nil.
  - destruct (first_missing_dep d (depends_on s)) as [z|] eqn:E.
    + split; [done|]. intros Hl. apply first_missing_Some in E as [Hz Hn].
      exfalso. apply Hn, (Hl n s); [left|done].
    + rewrite IH. rewrite first_missing_None in E. split.
      * intros Hl m s' y Hin Hy. apply elem_of_cons in Hin as [[= -> ->]|]; eauto.
      * intros Hl m s' y Hin Hy. apply (Hl m s'); [by right|done].
Qed.

Lemma check_missing_dependencies_ok d :
  wf_dag d -> check_missing_dependencies d = Ok tt <-> closed_deps d.
Proof.
  intros Hwf. unfold check_missing_dependencies. rewrite check_missing_ok. split.
  - intros H x y Hy. destruct (decide (x ∈ names d)) as [[s Hs]%names_elem|Hn].
    + rewrite (deps_elem _ _ s) in Hy by done. by eapply H.
    + rewrite deps_outside in Hy by done. by apply elem_of_nil in Hy.
  - intros H n s y Hin Hy. apply (H n). by rewrite (deps_elem _ _ s).
Qed.

Lemma check_missing_raise d l e :
  wf_dag d -> (forall kv, kv ∈ l -> kv ∈ dag_steps d) -> check_missing d l = Raise e ->
  exists n y, e = MissingDependencyError n y /\ n ∈ names d /\ y ∈ deps d n /\ y ∉ names d.
Proof.
  intros Hwf. induction l as [|[n s] l IH]; simpl; [done|]. intros Hl.
  assert ((n, s) ∈ dag_steps d) as Hns by (apply Hl; left).
  destruct (first_missing_dep d (depends_on s)) as [z|] eqn:E.
  - intros [= <-]. apply first_missing_Some in E as [Hz Hn]. exists n, z.
    rewrite (deps_elem _ _ s) by done. repeat split; try done. apply names_elem; eauto.
  - apply IH. intros kv Hkv. apply Hl. by right.
Qed.

(** ** Cycle detection *)
Lemma dfs_init_ok d :
  wf_dag d -> dfs_inv (build_adjacency_list d) (names d) (dfs_init d) [].
Proof.
  intros Hwf.
  assert (forall l c x, (foldl (fun c n => <[n := white]> c) c l : gmap string Color) !! x
            = if decide (x ∈ l) then Some white else c !! x) as Hcol.
  { induction l as [|n l IH]; intros c x; [rewrite decide_False; [done|apply not_elem_of_nil]|].
    cbn [foldl].
    rewrite IH. destruct (decide (x ∈ l)) as [Hx|Hx].
    - rewrite decide_True; [done|by right].
    - destruct (decide (n = x)) as [->|].
      + rewrite lookup_insert_eq, decide_True; [done|left].
      + rewrite lookup_insert_ne by done. rewrite decide_False; [done|].
        by intros [->|]%elem_of_cons. }
  assert (forall x, dfs_color (dfs_init d) !! x = if decide (x ∈ names d) then Some white else None)
    as Hc by (intros x; simpl; rewrite Hcol; by case_decide).
  split; simpl.
  - intros x. specialize (Hc x). simpl in Hc. rewrite Hc. case_decide; [split; eauto|split; [done|by intros []]].
  - intros x. specialize (Hc x). simpl in Hc. rewrite Hc.
    split; [by case_decide|by intros ?%elem_of_nil].
  - apply NoDup_nil_2.
  - intros x. specialize (Hc x). simpl in Hc. rewrite Hc.
    split; [by case_decide|by intros ?%elem_of_nil].
  - apply NoDup_nil_2.
  - by intros [].
  - done.
  - intros x. specialize (Hc x). simpl in Hc. rewrite Hc. by case_decide.
  - done.
Qed.

Lemma detect_cycles_verdict d :
  wf_dag d ->
  dfs_verdict (build_adjacency_list d) (names d) (detect_cycles d (build_adjacency_list d)).
Proof.
  intros Hwf. set (a := build_adjacency_list d).
  destruct (dfs_total a (names d) Hwf (fun u v => dependents_names d u v Hwf)
              (dfs_init d) (ex_intro _ [] (dfs_init_ok d Hwf)) (dfs_fuel d a)) as (r & Hr & Hv).
  - unfold dfs_measure, dfs_fuel. simpl.
    rewrite (sum_list_fmap_ext _ (node_cost a) (names d)); [lia|].
    intros x Hx. unfold white_cost. rewrite decide_True; [done|].
    pose proof (inv_dom _ _ _ _ (dfs_init_ok d Hwf) x) as Hd.
    pose proof (inv_gray _ _ _ _ (dfs_init_ok d Hwf) x) as Hg.
    pose proof (inv_fin _ _ _ _ (dfs_init_ok d Hwf) x) as Hf. simpl in Hd, Hg, Hf.
    apply Hd in Hx as [[] Hx]; [done|by apply Hg, elem_of_nil in Hx|by apply Hf, elem_of_nil in Hx].
  - unfold detect_cycles. fold a. by rewrite Hr.
Qed.

(** Listing every node after its dependents is a topological order reversed. *)
Lemma fin_topological d fin :
  wf_dag d -> closed_deps d -> fin ≡ₚ names d ->
  (forall l1 u l2, fin = l1 ++ u :: l2 ->
     forall v, v ∈ adj (build_adjacency_list d) u -> v ∈ l1) ->
  topological d (reverse fin).
Proof.
  intros Hwf Hcl Hperm Hfin. split; [by rewrite reverse_Permutation|].
  intros x y Hx Hy. assert (y ∈ fin) as Hyf by (rewrite Hperm; eauto).
  apply list_elem_of_split in Hyf as (l1 & l2 & ->).
  apply precedes_reverse, (Hfin l1 y l2); [done|]. by apply elem_of_dependents.
Qed.

Lemma topological_rank d l :
  wf_dag d -> topological d l -> forall x y, y ∈ deps d x -> pos y l < pos x l.
Proof.
  intros Hwf [Hperm Hl] x y Hy. apply precedes_pos; [by rewrite Hperm|].
  apply Hl; [|done]. destruct (decide (x ∈ names d)) as [|Hx]; [done|].
  rewrite deps_outside in Hy by done. by apply elem_of_nil in Hy.
Qed.

Lemma topological_no_cycle d l p :
  wf_dag d -> topological d l -> ¬ dependency_cycle d p.
Proof.
  intros Hwf Hl (Hc & x & mid & ->).
  enough (pos x l < pos x l) by lia.
  apply (chain_increasing (fun u v => u ∈ deps d v) (fun z => pos z l) x mid x); [|done].
  intros u v Huv. by apply (topological_rank d).
Qed.

Lemma closed_path_cycle d p :
  wf_dag d -> closed_path (build_adjacency_list d) p -> dependency_cycle d p.
Proof.
  intros Hwf [Hc Hp]. split; [|done]. eapply chain_impl; [|done].
  intros x y Hy. by apply elem_of_dependents.
Qed.

(** Everything [validate] can answer, with what each answer means. *)
Lemma validate_cases d :
  wf_dag d ->
  (validate d = Ok tt /\ names d ≠ [] /\ closed_deps d /\ exists l, topological d l) \/
  (names d = [] /\ exists m, validate d = Raise (ValueError m)) \/
  (exists n y, validate d = Raise (MissingDependencyError n y) /\
               n ∈ names d /\ y ∈ deps d n /\ y ∉ names d) \/
  (closed_deps d /\ exists p, validate d = Raise (CycleDetectedError p) /\ dependency_cycle d p).
Proof.
  intros Hwf. unfold validate. destruct (dag_steps d) as [|kv0 l0] eqn:Hsteps.
  { right; left. unfold names. rewrite Hsteps. eauto. }
  assert (names d ≠ []) as Hne by (unfold names; rewrite Hsteps; done).
  destruct (check_missing_dependencies d) as [[]|e] eqn:Hm; simpl.
  - pose proof (proj1 (check_missing_dependencies_ok d Hwf) Hm) as Hcl.
    destruct (detect_cycles_verdict d Hwf) as [(p & -> & Hp)|(-> & fin & Hperm & Hfin)].
    + right; right; right. split; [done|]. exists p. split; [done|]. by apply closed_path_cycle.
    + left. repeat split; try done. exists (reverse fin). by apply fin_topological.
  - apply check_missing_raise in Hm as (n & y & -> & Hn); [|done..]. right; right; left. eauto.
Qed.

Lemma validate_ok d :
  wf_dag d -> validate d = Ok tt -> closed_deps d /\ exists l, topological d l.
Proof.
  intros Hwf Hv. destruct (validate_cases d Hwf) as
    [(_ & _ & ? & ?)|[(_ & m & Hr)|[(n & y & Hr & _)|(_ & p & Hr & _)]]]; [done|congruence..].
Qed.

(** ** Decrementing in-degrees *)
Lemma decrement_all_ok ds deg ready :
  (forall x, x ∈ ds -> is_Some (deg !! x)) ->
  exists deg' new, decrement_all ds deg ready = Ok (deg', ready ++ new) /\
    (forall x, deg' !! x = (fun k => k - Z.of_nat (occ x ds))%Z <$> deg !! x) /\
    (forall x, x ∈ new -> x ∈ ds) /\
    ((forall x k, x ∈ ds -> deg !! x = Some k -> (Z.of_nat (occ x ds) <= k)%Z) ->
     NoDup new /\ forall x, x ∈ new <-> x ∈ ds /\ deg' !! x = Some 0%Z).
Proof.
  revert deg ready. induction ds as [|x ds IH]; intros deg ready Hdom; cbn [decrement_all].
  { exists deg, []. rewrite app_nil_r. split; [done|]. split.
    - intros y. rewrite occ_nil. destruct (deg !! y); simpl; [|done]. f_equal. lia.
    - split; [done|]. intros _. split; [constructor|]. intros y. split; [by intros ?%elem_of_nil|].
      by intros [?%elem_of_nil _]. }
  destruct (Hdom x) as [k Hk]; [left|]. rewrite Hk.
  destruct (IH (<[x := (k - 1)%Z]> deg) (if decide (k - 1 = 0)%Z then ready ++ [x] else ready))
    as (deg' & new & Heq & Hdeg & Hsub & Hnew).
  { intros y Hy. destruct (decide (x = y)) as [->|]; [rewrite lookup_insert_eq; eauto|].
    rewrite lookup_insert_ne by done. apply Hdom. by right. }
  assert (forall y, deg' !! y = (fun j => j - Z.of_nat (occ y (x :: ds)))%Z <$> deg !! y) as Hdeg'.
  { intros y. rewrite Hdeg, occ_cons. destruct (decide (y = x)) as [->|Hne].
    - rewrite lookup_insert_eq, Hk. simpl. f_equal. lia.
    - by rewrite lookup_insert_ne. }
  exists deg', ((if decide (k - 1 = 0)%Z then [x] else []) ++ new). split; [|split; [done|split]].
  - rewrite Heq. case_decide; simpl; [|done]. by rewrite <- app_assoc.
  - intros y. rewrite elem_of_app, elem_of_cons. intros [Hy|Hy]; [|auto].
    case_decide; [left; by apply list_elem_of_singleton|by apply elem_of_nil in Hy].
  - intros Hle. pose proof (Hle x k ltac:(left) Hk) as Hlex. rewrite occ_cons, decide_True in Hlex by done.
    destruct Hnew as [Hnd Hiff].
    { intros y j Hy. destruct (decide (x = y)) as [->|Hne].
      - rewrite lookup_insert_eq. intros [= <-]. lia.
      - rewrite lookup_insert_ne by done. intros Hj.
        specialize (Hle y j ltac:(by right) Hj). rewrite occ_cons, decide_False in Hle by done. lia. }
    pose proof (Hdeg' x) as Hx. rewrite Hk, occ_cons, decide_True in Hx by done. simpl in Hx.
    case_decide as Hk1.
    + assert (x ∉ ds) as Hxds by (rewrite <- occ_pos; lia).
      split; [constructor; [by intros ?%Hsub|done]|].
      intros y. simpl. rewrite !elem_of_cons, Hiff. split.
      * intros [->|[]]; [|auto]. split; [by left|]. rewrite Hx. f_equal.
        apply occ_zero in Hxds. lia.
      * intros [[->|] ?]; auto.
    + split; [done|]. intros y. simpl. rewrite elem_of_cons, Hiff. split; [tauto|].
      intros [[->|] Hy]; [|auto]. split; [|done]. rewrite Hx in Hy. injection Hy as Hy.
      apply occ_pos. lia.
Qed.

(** Finishing [c] (done before: [P]; after: [Q]) when the degrees of the active
    names count their pending dependencies: afterwards they still do, and the
    names appended to the queue are exactly those [c] was the last one out for. *)
Lemma unlock_spec d (A P Q : string -> Prop)
    `{!forall x, Decision (P x)} `{!forall x, Decision (Q x)} c ds deg ready :
  ¬ P c -> (forall x, Q x <-> P x \/ x = c) ->
  (forall x, x ∈ ds -> A x) -> (forall x, A x -> occ x ds = occ c (deps d x)) ->
  (forall x, A x -> deg !! x = Some (Z.of_nat (pending P (deps d x)))) ->
  exists deg' new, decrement_all ds deg ready = Ok (deg', ready ++ new) /\ NoDup new /\
    (forall x, A x -> deg' !! x = Some (Z.of_nat (pending Q (deps d x)))) /\
    (forall x, x ∈ new <-> A x /\ c ∈ deps d x /\ forall y, y ∈ deps d x -> Q y).
Proof.
  intros Hc HQ Hds Hocc Hdeg.
  assert (forall x, pending P (deps d x) = pending Q (deps d x) + occ c (deps d x)) as Hpend
    by (intros x; by apply pending_add).
  destruct (decrement_all_ok ds deg ready) as (deg' & new & Heq & Hdeg' & Hsub & Hnew).
  { intros x Hx. rewrite Hdeg by auto. eauto. }
  destruct Hnew as [Hnd Hnew].
  { intros x k Hx. rewrite Hdeg by auto. intros [= <-]. rewrite Hocc, Hpend by auto. lia. }
  assert (forall x, A x -> deg' !! x = Some (Z.of_nat (pending Q (deps d x)))) as Hq.
  { intros x Hx. rewrite Hdeg', Hdeg, Hocc, Hpend by done. simpl. f_equal. lia. }
  exists deg', new. split; [done|]. split; [done|]. split; [done|].
  intros x. rewrite Hnew. split.
  - intros [Hx Hzero]. assert (A x) as HA by auto. split; [done|].
    split; [apply occ_pos; rewrite <- Hocc by done; by apply occ_pos|].
    apply (proj1 (pending_zero Q _)). rewrite Hq in Hzero by done. injection Hzero. lia.
  - intros (HA & Hx & Hy). split; [apply occ_pos; rewrite Hocc by done; by apply occ_pos|].
    rewrite Hq by done. by rewrite (proj2 (pending_zero Q _)).
Qed.

Lemma init_in_degree_lookup d x :
  wf_dag d ->
  init_in_degree d !! x = if decide (x ∈ names d) then Some (Z.of_nat (length (deps d x))) else None.
Proof.
  intros Hwf. unfold init_in_degree.
  assert (forall l (m : gmap string Z), NoDup (od_keys l) ->
    foldl (fun m (kv : string * S) => <[kv.1 := Z.of_nat (length (depends_on kv.2))]> m) m l !! x
    = match od_get x l with Some s => Some (Z.of_nat (length (depends_on s))) | None => m !! x end)
    as Hf.
  { unfold od_keys. induction l as [|[n s] l IH]; intros m Hl; [done|]. cbn [foldl].
    csimpl in Hl. apply NoDup_cons in Hl as [Hn Hl]. rewrite IH by done. simpl.
    destruct (decide (x = n)) as [->|].
    - rewrite (proj2 (od_get_None n l)); [by rewrite lookup_insert_eq|done].
    - destruct (od_get x l); [done|]. by rewrite lookup_insert_ne. }
  rewrite (Hf _ _ Hwf). unfold deps. destruct (od_get x (dag_steps d)) eqn:E.
  - rewrite decide_True; [done|]. apply od_get_is_Some. eauto.
  - rewrite decide_False; [by rewrite lookup_empty|]. by apply od_get_None.
Qed.

(** ** Kahn's algorithm *)

(** The invariant of the loop: finished and queued names are distinct, degrees
    count the dependencies still out, and the order respects dependencies. *)
Record kahn_inv d (s : Kahn) : Prop := {
  ki_nodup : NoDup (kahn_order s ++ kahn_ready s);
  ki_names : forall x, x ∈ kahn_order s ++ kahn_ready s -> x ∈ names d;
  ki_deg : forall x, x ∈ names d ->
    kahn_deg s !! x = Some (Z.of_nat (pending (.∈ kahn_order s) (deps d x)));
  ki_ready : forall x, x ∈ names d ->
    (x ∈ kahn_order s ++ kahn_ready s <-> forall y, y ∈ deps d x -> y ∈ kahn_order s);
  ki_order : forall x y, x ∈ kahn_order s -> y ∈ deps d x -> precedes (kahn_order s) y x;
}.

Lemma kahn_init_inv d :
  wf_dag d -> kahn_inv d (mkKahn (init_in_degree d) (initial_ready d) []).
Proof.
  intros Hwf.
  assert (forall x, x ∈ initial_ready d <-> x ∈ names d /\ deps d x = []) as Hinit.
  { intros x. unfold initial_ready. rewrite list_elem_of_filter, init_in_degree_lookup by done.
    split.
    - intros [Hx Hn]. rewrite decide_True in Hx by done. injection Hx as Hx.
      split; [done|]. apply nil_length_inv. lia.
    - intros [Hn Hx]. by rewrite decide_True, Hx by done. }
  split; simpl.
  - by apply NoDup_filter.
  - intros x Hx. by apply Hinit.
  - intros x Hx. rewrite init_in_degree_lookup, decide_True by done.
    rewrite pending_nothing; [done|]. intros y _. apply not_elem_of_nil.
  - intros x Hx. rewrite Hinit. split.
    + intros [_ ->] y Hy. by apply elem_of_nil in Hy.
    + intros Hy. split; [done|]. destruct (deps d x) as [|z l]; [done|].
      exfalso. eapply not_elem_of_nil, (Hy z). left.
  - by intros x y ?%elem_of_nil.
Qed.

Lemma kahn_step_inv d s current rest :
  wf_dag d -> kahn_inv d s -> kahn_ready s = current :: rest ->
  exists s', kahn_step (build_adjacency_list d) s = inl s' /\ kahn_inv d s' /\
             kahn_order s' = kahn_order s ++ [current].
Proof.
  intros Hwf [Hnd Hnames Hdeg Hready Horder] Hr.
  unfold kahn_step. rewrite Hr. rewrite Hr in *.
  change (adj (build_adjacency_list d) current) with (get_dependents d current).
  assert (current ∉ kahn_order s) as Hcur.
  { apply NoDup_app in Hnd as (_ & Hnd & _). intros Hc. apply (Hnd _ Hc). left. }
  destruct (unlock_spec d (.∈ names d) (.∈ kahn_order s) (.∈ kahn_order s ++ [current]) current
              (get_dependents d current) (kahn_deg s) rest)
    as (deg' & new & -> & Hnewnd & Hdeg' & Hnew); [done| | | |done|].
  { intros x. by rewrite elem_of_app, list_elem_of_singleton. }
  { intros x. by apply dependents_names. }
  { intros x _. by apply occ_dependents. }
  eexists. split; [done|]. split; [|done]. split; simpl.
  - replace ((kahn_order s ++ [current]) ++ rest ++ new)
      with ((kahn_order s ++ current :: rest) ++ new) by (by rewrite <- !app_assoc).
    apply NoDup_app. split; [done|]. split; [|done]. intros x Hx (Hxn & Hc & _)%Hnew.
    apply Hcur. by apply (proj1 (Hready x Hxn) Hx).
  - intros x. rewrite !elem_of_app, list_elem_of_singleton. intros [[Hx| ->]|[Hx|Hx]].
    + apply Hnames, elem_of_app. by left.
    + apply Hnames, elem_of_app. right; left.
    + apply Hnames, elem_of_app. right; by right.
    + by apply Hnew.
  - done.
  - intros x Hx.
    replace ((kahn_order s ++ [current]) ++ rest ++ new)
      with ((kahn_order s ++ current :: rest) ++ new) by (by rewrite <- !app_assoc).
    rewrite elem_of_app, (Hready x Hx), Hnew. split.
    + intros [Hy|(_ & _ & Hy)] y Hyx; [|auto]. apply elem_of_app; left. auto.
    + intros Hy. destruct (decide (current ∈ deps d x)) as [|Hc]; [by right|]. left.
      intros y Hyx. pose proof (Hy y Hyx) as [|Hyc%list_elem_of_singleton]%elem_of_app; congruence.
  - intros x y Hx Hy. apply elem_of_app in Hx as [Hx| ->%list_elem_of_singleton].
    + by apply precedes_app_l, Horder.
    + exists (kahn_order s), []. split; [done|].
      apply (Hready current); [apply Hnames|..|done]; apply elem_of_app; right; left.
Qed.

Definition kahn_measure d (s : Kahn) : nat := length (names d) - length (kahn_order s).

Lemma kahn_total d :
  wf_dag d -> exists order,
    run_loop (kahn_step (build_adjacency_list d)) (1 + length (names d))
             (mkKahn (init_in_degree d) (initial_ready d) []) = Some (Ok order) /\
    exists deg, kahn_inv d (mkKahn deg [] order).
Proof.
  intros Hwf. set (step := kahn_step (build_adjacency_list d)).
  assert (forall s s', kahn_inv d s -> step s = inl s' ->
            kahn_inv d s' /\ kahn_measure d s' < kahn_measure d s) as Hstep.
  { intros s s' Hs Hs'. destruct (kahn_ready s) as [|c rest] eqn:Hr.
    { unfold step, kahn_step in Hs'. by rewrite Hr in Hs'. }
    destruct (kahn_step_inv d s c rest Hwf Hs Hr) as (s2 & Hs2 & Hinv & Ho).
    unfold step in Hs'. rewrite Hs2 in Hs'. injection Hs' as <-. split; [done|].
    unfold kahn_measure. rewrite Ho, length_app. simpl.
    pose proof (submseteq_length (kahn_order s ++ c :: rest) (names d)) as Hlen.
    rewrite length_app in Hlen. simpl in Hlen. destruct Hs as [Hnd Hn _ _ _].
    rewrite Hr in Hnd, Hn. specialize (Hlen (NoDup_submseteq _ _ Hnd Hn)). lia. }
  pose proof (kahn_init_inv d Hwf) as H0.
  destruct (run_loop_total step (kahn_inv d) (kahn_measure d) Hstep (1 + length (names d)) _ H0)
    as [r Hr]; [unfold kahn_measure; simpl; lia|].
  rewrite Hr.
  assert (exists order, r = Ok order /\ exists deg, kahn_inv d (mkKahn deg [] order))
    as (order & -> & Hd); [|eauto].
  refine (run_loop_inv step (kahn_inv d)
    (fun r => exists order, r = Ok order /\ exists deg, kahn_inv d (mkKahn deg [] order))
    _ _ _ _ r H0 Hr).
  - intros s s' Hs Hs'. by apply (Hstep s).
  - intros s r' Hs Hex. destruct (kahn_ready s) as [|c rest] eqn:Hrd.
    + unfold step, kahn_step in Hex. rewrite Hrd in Hex. injection Hex as <-.
      exists (kahn_order s). split; [done|]. exists (kahn_deg s). destruct s; simpl in *. by subst.
    + destruct (kahn_step_inv d s c rest Hwf Hs Hrd) as (s2 & Hs2 & _).
      unfold step in Hex. congruence.
Qed.

(** When a topological order exists, the loop consumes every step. *)
Lemma kahn_complete d l deg order :
  wf_dag d -> closed_deps d -> topological d l ->
  kahn_inv d (mkKahn deg [] order) -> topological d order.
Proof.
  intros Hwf Hcl Hl [Hnd Hn _ Hready Horder]. simpl in *. rewrite app_nil_r in *.
  assert (forall (k : nat) x, pos x l < k -> x ∈ names d -> x ∈ order) as Hall.
  { induction k as [|k IH]; intros x Hx Hxn; [lia|]. apply (Hready x Hxn). intros y Hy.
    apply IH; [|by eapply Hcl]. pose proof (topological_rank d l Hwf Hl x y Hy). lia. }
  split; [|intros x y Hx; apply Horder; eauto].
  apply NoDup_Permutation; [done..|]. intros x. split; [auto|eauto].
Qed.

(** ** Ready steps *)
Lemma elem_of_ready d completed x :
  wf_dag d ->
  x ∈ get_ready_steps d completed <->
  x ∈ names d /\ (x ∉ completed) /\ forall y, y ∈ deps d x -> y ∈ completed.
Proof.
  intros Hwf. unfold get_ready_steps, step_ready. rewrite list_elem_of_fmap.
  setoid_rewrite list_elem_of_filter. setoid_rewrite andb_true_iff.
  setoid_rewrite bool_decide_eq_true. rewrite names_elem.
  assert (forall s, forallb (fun dep => bool_decide (dep ∈ completed)) (depends_on s) = true <->
            forall y, y ∈ depends_on s -> y ∈ completed) as Hfb.
  { intros s. rewrite forallb_forall. setoid_rewrite bool_decide_eq_true.
    by setoid_rewrite list_elem_of_In. }
  split.
  - intros ([n s] & -> & [Hc Hd] & Hin). simpl in *. rewrite Hfb in Hd.
    rewrite (deps_elem _ _ s) by done. eauto.
  - intros ((s & Hin) & Hc & Hd). exists (x, s). rewrite Hfb. simpl.
    by rewrite (deps_elem _ _ s) in Hd by done.
Qed.

(** ** Building a DAG *)
Lemma add_ok d s d' :
  add d s = Ok d' -> (step_name s ∉ names d) /\ dag_steps d' = dag_steps d ++ [(step_name s, s)].
Proof.
  unfold add, od_mem. case_bool_decide as Hs; [done|]. intros [= <-]. simpl.
  split; [done|]. by apply od_set_fresh.
Qed.

Lemma add_raise d s e :
  add d s = Raise e -> step_name s ∈ names d.
Proof. unfold add, od_mem. by case_bool_decide. Qed.

(** ** Properties *)

(** C7. [DAG.validate] accepts a DAG exactly when it has a step, every
    dependency is registered and a topological order of the steps exists. *)
Theorem validate_correct d :
  wf_dag d ->
  validate d = Ok tt <-> names d ≠ [] /\ closed_deps d /\ exists l, topological d l.
Proof.
  intros Hwf. destruct (validate_cases d Hwf) as
    [(Hv & H)|[(Hn & m & Hv)|[(n & y & Hv & Hn & Hy & Hny)|(_ & p & Hv & Hp)]]]; rewrite Hv.
  - tauto.
  - split; [done|]. by intros [? _].
  - split; [done|]. intros (_ & Hcl & _). exfalso. eauto.
  - split; [done|]. intros (_ & _ & l & Hl). by destruct (topological_no_cycle d l p Hwf Hl).
Qed.

(** When [validate] raises, the exception is truthful: the DAG
    is empty, or the named step depends on a name that is not registered, or the
    reported path is a closed chain of dependencies that starts and ends at the
    same step.  The search never runs out of fuel and never looks up an unknown
    colour. *)
Theorem validate_errors d e :
  wf_dag d -> validate d = Raise e ->
  (names d = [] /\ exists m, e = ValueError m) \/
  (exists n y, e = MissingDependencyError n y /\ n ∈ names d /\ y ∈ deps d n /\ y ∉ names d) \/
  (exists p, e = CycleDetectedError p /\ dependency_cycle d p).
Proof.
  intros Hwf He. destruct (validate_cases d Hwf) as
    [(Hv & _)|[(Hn & m & Hv)|[(n & y & Hv & H)|(_ & p & Hv & Hp)]]];
    rewrite Hv in He; simplify_eq; eauto 8.
Qed.

(** [get_execution_order] raises exactly what [validate] raises; on an
    accepted DAG it returns a permutation of the step names in which every step
    comes after all its dependencies, so its own defensive cycle error is
    unreachable. *)
Theorem execution_order_correct d :
  wf_dag d ->
  (forall e, get_execution_order d = Raise e <-> validate d = Raise e) /\
  (validate d = Ok tt ->
   exists order, get_execution_order d = Ok order /\ topological d order).
Proof.
  intros Hwf. unfold get_execution_order. destruct (validate d) as [[]|e'] eqn:Hv; simpl; [|split; [intros e; split; congruence|done]].
  destruct (validate_ok d Hwf Hv) as (Hcl & l & Hl).
  destruct (kahn_total d Hwf) as (order & Hrun & deg & Hinv). simpl in Hrun. rewrite Hrun.
  pose proof (kahn_complete d l deg order Hwf Hcl Hl Hinv) as Ho.
  rewrite decide_False by (destruct Ho as [Hperm _]; rewrite Hperm; lia).
  split; [intros e; split; discriminate|]. eauto.
Qed.

(** While an accepted DAG has unfinished steps, [get_ready_steps] offers
    at least one, and it offers exactly the unfinished steps whose dependencies
    are all completed. *)
Theorem ready_steps_progress d completed :
  wf_dag d -> validate d = Ok tt ->
  (forall x, x ∈ get_ready_steps d completed <->
     x ∈ names d /\ (x ∉ completed) /\ forall y, y ∈ deps d x -> y ∈ completed) /\
  ((exists x, x ∈ names d /\ x ∉ completed) -> get_ready_steps d completed ≠ []).
Proof.
  intros Hwf Hv. split; [intros x; by apply elem_of_ready|]. intros (x & Hx & Hxc) Hnil.
  destruct (validate_ok d Hwf Hv) as (Hcl & l & Hl).
  assert (forall (k : nat) x, pos x l < k -> x ∈ names d -> x ∈ completed) as Hall; [|eauto].
  clear x Hx Hxc. induction k as [|k IH]; intros x Hx Hxn; [lia|].
  destruct (decide (x ∈ completed)) as [|Hxc]; [done|].
  exfalso. apply (not_elem_of_nil x). rewrite <- Hnil. apply elem_of_ready; [done|].
  repeat split; try done. intros y Hy. apply IH; [|by eapply Hcl].
  pose proof (topological_rank d l Hwf Hl x y Hy). lia.
Qed.

(** [add_many] on a well-formed DAG keeps step names unique and
    registers a prefix of the given steps, in order, after those already there;
    all of them unless it raises, and it raises at the first name already taken. *)
Theorem add_many_registers d l d' r :
  wf_dag d -> add_many d l = (d', r) ->
  wf_dag d' /\ exists l1 l2, l = l1 ++ l2 /\
    dag_steps d' = dag_steps d ++ ((fun s => (step_name s, s)) <$> l1) /\
    match r with
    | Ok _ => l2 = []
    | Raise _ => exists s l3, l2 = s :: l3 /\ step_name s ∈ names d'
    end.
Proof.
  revert d. induction l as [|s l IH]; intros d Hwf; cbn [add_many].
  - intros [= <- <-]. split; [done|]. exists [], [].
    split; [done|]. split; [by rewrite app_nil_r|done].
  - destruct (add d s) as [d1|e] eqn:Ha.
    + apply add_ok in Ha as [Hn Hs]. intros Hm.
      assert (wf_dag d1) as Hwf1.
      { unfold wf_dag, names, od_keys in *. rewrite Hs, fmap_app. csimpl. apply NoDup_app.
        split; [done|]. split; [|apply NoDup_singleton].
        by intros y Hy ->%list_elem_of_singleton. }
      destruct (IH d1 Hwf1 Hm) as (Hwf' & l1 & l2 & -> & Hs' & Hr).
      split; [done|]. exists (s :: l1), l2. split; [done|]. split; [|done].
      by rewrite Hs', Hs, <- app_assoc.
    + intros [= <- <-]. split; [done|]. exists [], (s :: l).
      split; [done|]. split; [by rewrite app_nil_r|]. apply add_raise in Ha. eauto.
Qed.
End dag_facts.

(** ** Witnesses *)

Definition diamond : DAG PlainStep :=
  mkDAG "w" "" [("d", plain "d" ["b"; "c"; "b"]); ("b", plain "b" ["a"]); ("c", plain "c" ["a"]);
                ("a", plain "a" [])].
Definition loop3 : DAG PlainStep :=
  mkDAG "w" "" [("a", plain "a" ["c"]); ("b", plain "b" ["a"; "a"]); ("c", plain "c" ["b"])].

Lemma diamond_wf : wf_dag diamond.
Proof. apply (bool_decide_unpack _). vm_compute. exact I. Qed.
Lemma loop3_wf : wf_dag loop3.
Proof. apply (bool_decide_unpack _). vm_compute. exact I. Qed.

Lemma validate_correct_witness :
  names diamond ≠ [] /\ closed_deps diamond /\ exists l, topological diamond l.
Proof. apply (validate_correct diamond diamond_wf). vm_compute. reflexivity. Defined.

Lemma validate_errors_witness :
  (names loop3 = [] /\ exists m, CycleDetectedError ["a"; "b"; "c"; "a"] = ValueError m) \/
  (exists n y, CycleDetectedError ["a"; "b"; "c"; "a"] = MissingDependencyError n y /\
     n ∈ names loop3 /\ y ∈ deps loop3 n /\ y ∉ names loop3) \/
  (exists p, CycleDetectedError ["a"; "b"; "c"; "a"] = CycleDetectedError p /\
     dependency_cycle loop3 p).
Proof. apply (validate_errors loop3); [exact loop3_wf | vm_compute; reflexivity]. Defined.

Lemma execution_order_correct_witness :
  exists order, get_execution_order diamond = Ok order /\ topological diamond order.
Proof. apply (execution_order_correct diamond diamond_wf). vm_compute. reflexivity. Defined.

Lemma ready_steps_progress_witness : get_ready_steps diamond {["a"]} ≠ [].
Proof.
  apply (ready_steps_progress diamond {["a"]} diamond_wf); [vm_compute; reflexivity|].
  exists "b". split; [|set_solver]. apply (bool_decide_unpack _). vm_compute. exact I.
Defined.

Lemma add_many_registers_witness :
  wf_dag (mkDAG "w" "" [("a", plain "a" [])]) /\ exists l1 l2,
    [plain "a" []; plain "a" ["b"]] = l1 ++ l2 /\
    dag_steps (mkDAG "w" "" [("a", plain "a" [])]) = [] ++ ((fun s => (step_name s, s)) <$> l1) /\
    exists s l3, l2 = s :: l3 /\ step_name s ∈ names (mkDAG "w" "" [("a", plain "a" [])]).
Proof.
  apply (add_many_registers (mkDAG "w" "" []) [plain "a" []; plain "a" ["b"]] _
           (Raise (ValueError "Step 'a' already exists in DAG"))); [constructor | reflexivity].
Defined.
