(* ===== verification/Scheduler.v ===== *)
(** * The DAG scheduler (engine/dag_executor.py)

    [RunState] is the mutable state shared by the module-level helpers; each
    helper is a function on it.  [Machine] adds the program point of the
    scheduling coroutine, and [mstep] interleaves it with the step tasks the
    way the asyncio event loop can: tasks start and finish only while the
    coroutine is suspended, in [asyncio.wait] or in the awaits that end
    [_process_done_task]; a workflow timeout arrives at the same points.

    What a step executor does is unknown to the scheduler: a task finishes
    with any result or exception and may have changed the context in any way. *)

From S2P Require Import Prelude PyVal Messages StepState Dag Tracking.

(** How a step task ends: [_run_step] returned a result, or it raised. *)
Inductive Outcome :=
  | Returned (r : StepResult)
  | Raised (error error_type : string).

(** A task of [state.tasks]: created, past its first transition, or done. *)
Inductive TaskState :=
  | TCreated
  | TRunning
  | TDone (o : Outcome).

(** Events sent to the [on_update] observer. *)
Inductive Event :=
  | EvWorkflowStart
  | EvStepStart (step : string)
  | EvStepEnd (step : string) (r : StepResult)
  | EvWorkflowEnd (status : StepStatus).

(** An observer may raise; [obs history event] says whether it does. *)
Abbreviation observer := (list Event -> Event -> bool).

Record RunState := mkRunState {
  rs_in_degree : gmap string Z;
  rs_ready : list string;
  rs_running : gset string;
  rs_completed : gset string;
  rs_skipped : gset string;
  rs_results : gmap string StepResult;
  rs_tasks : gmap string TaskState;
  rs_states : manager;
  rs_result : WorkflowResult;
  rs_ctx : Tracking;
  rs_vars : odict pyval;
  rs_events : list Event;
  rs_spawned : list string;   (* log of [asyncio.create_task] calls *)
}.

Definition set_ready (l : list string) (st : RunState) : RunState :=
  {| rs_in_degree := rs_in_degree st; rs_ready := l; rs_running := rs_running st;
     rs_completed := rs_completed st; rs_skipped := rs_skipped st; rs_results := rs_results st;
     rs_tasks := rs_tasks st; rs_states := rs_states st; rs_result := rs_result st;
     rs_ctx := rs_ctx st; rs_vars := rs_vars st; rs_events := rs_events st;
     rs_spawned := rs_spawned st |}.
Definition set_tasks (t : gmap string TaskState) (st : RunState) : RunState :=
  {| rs_in_degree := rs_in_degree st; rs_ready := rs_ready st; rs_running := rs_running st;
     rs_completed := rs_completed st; rs_skipped := rs_skipped st; rs_results := rs_results st;
     rs_tasks := t; rs_states := rs_states st; rs_result := rs_result st;
     rs_ctx := rs_ctx st; rs_vars := rs_vars st; rs_events := rs_events st;
     rs_spawned := rs_spawned st |}.
Definition set_states (m : manager) (st : RunState) : RunState :=
  {| rs_in_degree := rs_in_degree st; rs_ready := rs_ready st; rs_running := rs_running st;
     rs_completed := rs_completed st; rs_skipped := rs_skipped st; rs_results := rs_results st;
     rs_tasks := rs_tasks st; rs_states := m; rs_result := rs_result st;
     rs_ctx := rs_ctx st; rs_vars := rs_vars st; rs_events := rs_events st;
     rs_spawned := rs_spawned st |}.
Definition set_result (w : WorkflowResult) (st : RunState) : RunState :=
  {| rs_in_degree := rs_in_degree st; rs_ready := rs_ready st; rs_running := rs_running st;
     rs_completed := rs_completed st; rs_skipped := rs_skipped st; rs_results := rs_results st;
     rs_tasks := rs_tasks st; rs_states := rs_states st; rs_result := w;
     rs_ctx := rs_ctx st; rs_vars := rs_vars st; rs_events := rs_events st;
     rs_spawned := rs_spawned st |}.
Definition set_ctx (c : Tracking) (vars : odict pyval) (st : RunState) : RunState :=
  {| rs_in_degree := rs_in_degree st; rs_ready := rs_ready st; rs_running := rs_running st;
     rs_completed := rs_completed st; rs_skipped := rs_skipped st; rs_results := rs_results st;
     rs_tasks := rs_tasks st; rs_states := rs_states st; rs_result := rs_result st;
     rs_ctx := c; rs_vars := vars; rs_events := rs_events st; rs_spawned := rs_spawned st |}.
Definition set_skipped (s : gset string) (st : RunState) : RunState :=
  {| rs_in_degree := rs_in_degree st; rs_ready := rs_ready st; rs_running := rs_running st;
     rs_completed := rs_completed st; rs_skipped := s; rs_results := rs_results st;
     rs_tasks := rs_tasks st; rs_states := rs_states st; rs_result := rs_result st;
     rs_ctx := rs_ctx st; rs_vars := rs_vars st; rs_events := rs_events st;
     rs_spawned := rs_spawned st |}.
Definition set_degrees (deg : gmap string Z) (ready : list string) (st : RunState) : RunState :=
  {| rs_in_degree := deg; rs_ready := ready; rs_running := rs_running st;
     rs_completed := rs_completed st; rs_skipped := rs_skipped st; rs_results := rs_results st;
     rs_tasks := rs_tasks st; rs_states := rs_states st; rs_result := rs_result st;
     rs_ctx := rs_ctx st; rs_vars := rs_vars st; rs_events := rs_events st;
     rs_spawned := rs_spawned st |}.

Section scheduler.
Context {S : Type} `{!DagStep S}.
Context (dag : DAG S) (max_concurrency : nat) (timeout : option string) (on_update : option observer).

(** ** Observers *)

(** [_notify] when no cancellation is pending: an observer's exception is
    counted in [metadata["observer_errors"]] and otherwise ignored. *)
Definition count_observer_error (w : WorkflowResult) : WorkflowResult :=
  let errors := match od_get "observer_errors" (wr_metadata w) with Some (VInt n) => n | _ => 0%Z end in
  set_wr_metadata (od_set "observer_errors" (VInt (errors + 1)) (wr_metadata w)) w.

Definition notify (ev : Event) (st : RunState) : RunState :=
  match on_update with
  | None => st
  | Some obs =>
      {| rs_in_degree := rs_in_degree st; rs_ready := rs_ready st; rs_running := rs_running st;
         rs_completed := rs_completed st; rs_skipped := rs_skipped st;
         rs_results := rs_results st; rs_tasks := rs_tasks st; rs_states := rs_states st;
         rs_result := if obs (rs_events st) ev then count_observer_error (rs_result st)
                      else rs_result st;
         rs_ctx := rs_ctx st; rs_vars := rs_vars st; rs_events := rs_events st ++ [ev];
         rs_spawned := rs_spawned st |}
  end.

(** ** Skipping *)

Definition skip_result (name reason : string) (now : Z) : StepResult :=
  set_sr_end_time (Some now)
    (set_sr_metadata [("skip_reason", VStr reason)] (new_step_result name StSkipped None now)).

Definition mark_skipped (name reason : string) (now : Z) (st : RunState) : RunState :=
  if decide (name ∈ rs_completed st \/ name ∈ rs_skipped st) then st
  else
    let r := skip_result name reason now in
    {| rs_in_degree := rs_in_degree st; rs_ready := rs_ready st; rs_running := rs_running st;
       rs_completed := {[name]} ∪ rs_completed st; rs_skipped := {[name]} ∪ rs_skipped st;
       rs_results := <[name := r]> (rs_results st); rs_tasks := rs_tasks st;
       rs_states := set_state (rs_states st) name SKIPPED;
       rs_result := add_step r (rs_result st);
       rs_ctx := set_completed_steps (append_new name (completed_steps (rs_ctx st))) (rs_ctx st);
       rs_vars := rs_vars st; rs_events := rs_events st; rs_spawned := rs_spawned st |}.

Definition mark_all_skipped (l : list string) (reason : string) (now : Z) (st : RunState) : RunState :=
  foldl (fun st x => mark_skipped x reason now st) st l.

Definition adjacency_of : gmap string (list string) := build_adjacency_list dag.

(** One dequeued step: skip its dependents that are not done, enqueue them. *)
Fixpoint skip_dependents (l : list string) (reason : string) (now : Z)
    (queue : list string) (st : RunState) : list string * RunState :=
  match l with
  | [] => (queue, st)
  | x :: l' =>
      if decide (x ∈ rs_completed st \/ x ∈ rs_skipped st)
      then skip_dependents l' reason now queue st
      else skip_dependents l' reason now (queue ++ [x]) (mark_skipped x reason now st)
  end.

Definition cascade_step (reason : string) (now : Z) (s : list string * RunState)
  : (list string * RunState) + RunState :=
  match s with
  | ([], st) => inr st
  | (current :: queue, st) =>
      inl (skip_dependents (adj adjacency_of current) reason now queue st)
  end.

(** Every enqueued step has just been completed, so [names] bounds the rounds. *)
Definition cascade_skip (start reason : string) (now : Z) (st : RunState) : RunState :=
  default st (run_loop (cascade_step reason now) (2 + length (names dag)) ([start], st)).

(** ** Scheduling *)

(** [running.add(x)], transition to READY, [create_task]. *)
Definition spawn (x : string) (st : RunState) : res RunState :=
  transition (rs_states st) x READY ≫= fun states =>
  Ok {| rs_in_degree := rs_in_degree st; rs_ready := rs_ready st;
        rs_running := {[x]} ∪ rs_running st; rs_completed := rs_completed st;
        rs_skipped := rs_skipped st; rs_results := rs_results st;
        rs_tasks := <[x := TCreated]> (rs_tasks st); rs_states := states;
        rs_result := rs_result st; rs_ctx := rs_ctx st; rs_vars := rs_vars st;
        rs_events := rs_events st; rs_spawned := rs_spawned st ++ [x] |}.

Fixpoint schedule_loop (ready : list string) (st : RunState) : res RunState :=
  match ready with
  | [] => Ok st
  | x :: ready' =>
      if decide (size (rs_running st) < max_concurrency) then
        let st := set_ready ready' st in   (* popleft *)
        if decide (x ∈ rs_completed st \/ x ∈ rs_skipped st) then schedule_loop ready' st
        else spawn x st ≫= schedule_loop ready'
      else Ok st
  end.

Definition schedule_ready_steps (st : RunState) : res RunState := schedule_loop (rs_ready st) st.

(** ** A finished task *)

Definition terminal_status (s : StepStatus) : bool :=
  bool_decide (s ∈ [StSuccess; StFailed; StSkipped]).

Definition fail_nonterminal (r : StepResult) (now : Z) : StepResult :=
  if terminal_status (sr_status r) then r
  else
    let reason := "step finished with non-terminal status '" +:+ status_value (sr_status r) +:+ "'" in
    set_sr_metadata (od_set "nonterminal_status" (VStr (status_value (sr_status r))) (sr_metadata r))
      (set_sr_end_time (Some (default now (sr_end_time r)))
        (set_sr_error
           (Some (if truthy_str (sr_error r) then reason +:+ ": " +:+ default "" (sr_error r)
                  else reason))
           (Some "NonTerminalStatus")
           (set_sr_status StFailed r))).

Definition exception_result (name error error_type : string) (now : Z) : StepResult :=
  set_sr_end_time (Some now)
    (set_sr_error (Some error) (Some error_type) (new_step_result name StFailed None now)).

(** [results[x] = r; result.add_step(r); completed.add(x); running.discard(x)] *)
Definition record_result (x : string) (r : StepResult) (st : RunState) : RunState :=
  {| rs_in_degree := rs_in_degree st; rs_ready := rs_ready st;
     rs_running := rs_running st ∖ {[x]}; rs_completed := {[x]} ∪ rs_completed st;
     rs_skipped := rs_skipped st; rs_results := <[x := r]> (rs_results st);
     rs_tasks := rs_tasks st; rs_states := rs_states st; rs_result := add_step r (rs_result st);
     rs_ctx := rs_ctx st; rs_vars := rs_vars st; rs_events := rs_events st;
     rs_spawned := rs_spawned st |}.

Definition transition_outcome_state (x : string) (r : StepResult) (st : RunState) : res RunState :=
  match sr_status r with
  | StSuccess => transition (rs_states st) x SUCCESS ≫= fun m => Ok (set_states m st)
  | StSkipped =>
      transition (rs_states st) x SKIPPED ≫= fun m =>
      Ok (set_skipped ({[x]} ∪ rs_skipped st)
           (set_ctx (set_completed_steps (append_new x (completed_steps (rs_ctx st))) (rs_ctx st))
                    (rs_vars st) (set_states m st)))
  | _ => transition (rs_states st) x FAILED ≫= fun m => Ok (set_states m st)
  end.

(** [_unlock_downstream]: dependents already done are passed over. *)
Definition live_dependents (x : string) (st : RunState) : list string :=
  filter (fun y => (y ∉ rs_completed st) /\ (y ∉ rs_skipped st)) (adj adjacency_of x).

Definition unlock_downstream (x : string) (st : RunState) : res RunState :=
  decrement_all (live_dependents x st) (rs_in_degree st) (rs_ready st) ≫= fun '(deg, ready) =>
  Ok (set_degrees deg ready st).

Definition set_failed (st : RunState) : RunState := set_result (set_overall StFailed (rs_result st)) st.

(** The synchronous part of [_process_done_task] (a result) and of
    [_record_task_exception] (an exception): the new state, the result to
    report and whether the context must be told the step failed. *)
Definition process_done_task (x : string) (o : Outcome) (now : Z) (st : RunState)
  : res (RunState * StepResult * bool) :=
  match o with
  | Returned raw =>
      let r := fail_nonterminal raw now in
      transition_outcome_state x r (record_result x r st) ≫= fun st1 =>
      (if is_failed r then Ok (cascade_skip x "dependency failed" now (set_failed st1))
       else unlock_downstream x st1) ≫= fun st2 =>
      Ok (st2, r, negb (terminal_status (sr_status raw)))
  | Raised error error_type =>
      let r := exception_result x error error_type now in
      let st1 := record_result x r st in
      let st2 := set_failed (set_states (set_state (rs_states st1) x FAILED) st1) in
      Ok (cascade_skip x "unhandled exception" now st2, r, true)
  end.

Definition mark_context_failed (x : string) (c : Tracking) : Tracking :=
  mark_step_failed x
    (if decide (x ∈ completed_steps c)
     then set_completed_steps (remove_first x (completed_steps c)) c else c).

(** The awaits that end the processing of a task. *)
Definition finish_task (x : string) (r : StepResult) (mark : bool) (st : RunState) : RunState :=
  notify (EvStepEnd x r)
    (if mark then set_ctx (mark_context_failed x (rs_ctx st)) (rs_vars st) st else st).

(** ** The start of a step task: [_run_step] up to the executor call *)
Definition begin_task (x : string) (st : RunState) : RunState :=
  match transition (rs_states st) x RUNNING with
  | Ok m => notify (EvStepStart x) (set_tasks (<[x := TRunning]> (rs_tasks st)) (set_states m st))
  | Raise (ValueError msg) => set_tasks (<[x := TDone (Raised msg "ValueError")]> (rs_tasks st)) st
  | Raise _ => st
  end.

(** ** Deadlock and timeout *)

Definition set_wf_meta (k : string) (v : pyval) (w : WorkflowResult) : WorkflowResult :=
  set_wr_metadata (od_set k v (wr_metadata w)) w.

(** [remaining] is the set of unfinished steps in the order it is iterated. *)
Definition handle_deadlock (remaining : list string) (msg : string) (now : Z) (st : RunState)
  : RunState :=
  let st := mark_all_skipped remaining "scheduler deadlock" now st in
  set_result (set_wf_meta "error" (VStr msg) (set_overall StFailed (rs_result st))) st.

Definition timeout_result (x msg : string) (now : Z) : StepResult :=
  set_sr_end_time (Some now)
    (set_sr_error (Some msg) (Some "TimeoutError") (new_step_result x StFailed None now)).

Definition fail_timed_out (msg : string) (now : Z) (st : RunState) (x : string) : RunState :=
  if decide (x ∈ rs_completed st) then st
  else
    let r := timeout_result x msg now in
    cascade_skip x "workflow timeout" now
      {| rs_in_degree := rs_in_degree st; rs_ready := rs_ready st; rs_running := rs_running st;
         rs_completed := {[x]} ∪ rs_completed st; rs_skipped := rs_skipped st;
         rs_results := <[x := r]> (rs_results st); rs_tasks := rs_tasks st;
         rs_states := set_state (rs_states st) x FAILED; rs_result := add_step r (rs_result st);
         rs_ctx := rs_ctx st; rs_vars := rs_vars st; rs_events := rs_events st;
         rs_spawned := rs_spawned st |}.

(** [_handle_timeout]: [running] and [remaining] are the two sets in iteration
    order; the cancelled tasks may have changed the context ([ctx], [vars]). *)
Definition timeout_fail_running (running : list string) (msg : string) (now : Z)
    (ctx : Tracking) (vars : odict pyval) (st : RunState) : RunState :=
  foldl (fail_timed_out msg now) (set_ctx ctx vars (set_tasks ∅ st)) running.

Definition handle_timeout (running remaining : list string) (seconds msg : string) (now : Z)
    (ctx : Tracking) (vars : odict pyval) (st : RunState) : RunState :=
  let st := timeout_fail_running running msg now ctx vars st in
  let st := mark_all_skipped remaining "workflow timeout" now st in
  set_result
    (set_wf_meta "error" (VStr msg)
      (set_wf_meta "timeout_seconds" (VObj "float" seconds)
        (set_wf_meta "timeout_exceeded" (VBool true) (set_overall StFailed (rs_result st))))) st.

(** ** Start and end of [_run_dag] *)

Definition init_run (workflow_id : string) (now : Z) (ctx : Tracking) (vars : odict pyval) : RunState :=
  notify EvWorkflowStart
    {| rs_in_degree := init_in_degree dag; rs_ready := initial_ready dag; rs_running := ∅;
       rs_completed := ∅; rs_skipped := ∅; rs_results := ∅; rs_tasks := ∅; rs_states := ∅;
       rs_result := new_workflow_result workflow_id (dag_name dag) StRunning now;
       rs_ctx := ctx; rs_vars := vars; rs_events := []; rs_spawned := [] |}.

(** The checks of [execute] before [_run_dag]; [bool] is an [int] in Python
    and excluded by name.  [kwargs.get("max_concurrency", 10)]. *)
Definition check_concurrency (raw : option pyval) : res nat :=
  match raw with
  | None => Ok 10
  | Some (VInt n) =>
      if (n <? 1)%Z then Raise (ValueError "max_concurrency must be an integer >= 1") else Ok (Z.to_nat n)
  | Some _ => Raise (ValueError "max_concurrency must be an integer >= 1")
  end.
Definition execute_guard (raw : option pyval) : res nat :=
  check_concurrency raw ≫= fun max_concurrency => validate dag ≫= fun _ => Ok max_concurrency.

Definition finalize (now : Z) (st : RunState) : RunState :=
  let w := rs_result st in
  let w := if decide (wr_overall_status w = StRunning) then set_overall StSuccess w else w in
  let w := set_wr_steps (omap (fun n => rs_results st !! n) (names dag)) w in
  let w := set_final_output (rs_vars st) w in
  let w := wf_mark_complete (bool_decide (wr_overall_status w = StSuccess)) now w in
  notify (EvWorkflowEnd (wr_overall_status w)) (set_result w st).

(** ** The interleaving *)

(** Program points of the scheduling coroutine.  [Processing l]: the rest of
    [for task in done]; [Finishing x r mark l]: in the awaits ending the
    processing of [x]. *)
Inductive Pc :=
  | Scheduling
  | Waiting
  | Processing (todo : list (string * Outcome))
  | Finishing (x : string) (r : StepResult) (mark : bool) (todo : list (string * Outcome))
  | LoopExit
  | Finished.

Record Machine := mkMachine { m_pc : Pc; m_st : RunState }.

(** The coroutine is suspended, so the event loop may run step tasks. *)
Definition suspended (pc : Pc) : bool :=
  match pc with Waiting | Finishing _ _ _ _ => true | _ => false end.

Inductive mstep : Machine -> Machine -> Prop :=
  | mstep_exit st :
      length (names dag) <= size (rs_completed st) ->
      mstep (mkMachine Scheduling st) (mkMachine LoopExit st)
  | mstep_schedule st st' :
      size (rs_completed st) < length (names dag) ->
      schedule_ready_steps st = Ok st' -> rs_tasks st' ≠ ∅ ->
      mstep (mkMachine Scheduling st) (mkMachine Waiting st')
  | mstep_deadlock st st' remaining msg now :
      size (rs_completed st) < length (names dag) ->
      schedule_ready_steps st = Ok st' -> rs_tasks st' = ∅ ->
      remaining ≡ₚ elements (list_to_set (names dag) ∖ rs_completed st' ∖ rs_skipped st') ->
      mstep (mkMachine Scheduling st) (mkMachine LoopExit (handle_deadlock remaining msg now st'))
  | mstep_begin pc st x :
      suspended pc = true -> rs_tasks st !! x = Some TCreated ->
      mstep (mkMachine pc st) (mkMachine pc (begin_task x st))
  | mstep_task_done pc st x o ctx vars :
      suspended pc = true -> rs_tasks st !! x = Some TRunning ->
      mstep (mkMachine pc st)
            (mkMachine pc (set_ctx ctx vars (set_tasks (<[x := TDone o]> (rs_tasks st)) st)))
  | mstep_wait st done pend :
      done ≠ [] -> NoDup done.*1 ->
      (forall x o, (x, o) ∈ done <-> rs_tasks st !! x = Some (TDone o)) ->
      pend = filter (fun kv => kv.1 ∉ done.*1) (rs_tasks st) ->
      mstep (mkMachine Waiting st) (mkMachine (Processing done) (set_tasks pend st))
  | mstep_process st st' x o r mark todo now :
      process_done_task x o now st = Ok (st', r, mark) ->
      mstep (mkMachine (Processing ((x, o) :: todo)) st) (mkMachine (Finishing x r mark todo) st')
  | mstep_finish st x r mark todo :
      mstep (mkMachine (Finishing x r mark todo) st)
            (mkMachine (Processing todo) (finish_task x r mark st))
  | mstep_next st :
      mstep (mkMachine (Processing []) st) (mkMachine Scheduling st)
  | mstep_timeout pc st seconds running remaining msg now ctx vars :
      timeout = Some seconds -> suspended pc = true ->
      running ≡ₚ elements (rs_running st) ->
      remaining ≡ₚ elements (list_to_set (names dag)
                     ∖ rs_completed (timeout_fail_running running msg now ctx vars st)
                     ∖ rs_skipped (timeout_fail_running running msg now ctx vars st)) ->
      mstep (mkMachine pc st)
            (mkMachine LoopExit (handle_timeout running remaining seconds msg now ctx vars st))
  | mstep_finalize st now :
      mstep (mkMachine LoopExit st) (mkMachine Finished (finalize now st)).

Definition initial (m : Machine) : Prop :=
  exists id now ctx vars, m = mkMachine Scheduling (init_run id now ctx vars).

Definition reachable (m : Machine) : Prop := exists m0, initial m0 /\ rtc mstep m0 m.

End scheduler.
