(* ===== verification/SchedulerFacts.v ===== *)
(** * Correctness of the DAG scheduler of [Scheduler]

    Skipping and its cascade; the invariant of the scheduling loop and its
    preservation by every step of the interleaving; the properties of every
    reachable state and of the final one; termination. *)

From S2P Require Import Prelude PyVal Messages StepState Dag DagFacts Tracking Scheduler.

#[global] Typeclasses Opaque names deps get_dependents adj.

(** ** Skipping a set of steps *)

(** [st'] is [st] with the steps of [T] completed as SKIPPED, nothing else changed
    that the scheduler reads. *)
Record skip_all (T : gset string) (reason : string) (st st' : RunState) : Prop := {
  sk_deg : rs_in_degree st' = rs_in_degree st;
  sk_ready : rs_ready st' = rs_ready st;
  sk_running : rs_running st' = rs_running st;
  sk_tasks : rs_tasks st' = rs_tasks st;
  sk_spawned : rs_spawned st' = rs_spawned st;
  sk_overall : wr_overall_status (rs_result st') = wr_overall_status (rs_result st);
  sk_completed : rs_completed st' = T ∪ rs_completed st;
  sk_skipped : rs_skipped st' = T ∪ rs_skipped st;
  sk_results_in : forall x, x ∈ T -> exists now,
    rs_results st' !! x = Some (skip_result x reason now);
  sk_results_out : forall x, x ∉ T -> rs_results st' !! x = rs_results st !! x;
  sk_states_in : forall x, x ∈ T -> rs_states st' !! x = Some SKIPPED;
  sk_states_out : forall x, x ∉ T -> rs_states st' !! x = rs_states st !! x;
}.

Lemma skip_all_refl reason st : skip_all ∅ reason st st.
Proof. split; try done; try (intros ? Hin; by apply elem_of_empty in Hin); by rewrite (left_id_L ∅ (∪)). Qed.

Lemma skip_all_trans T1 T2 reason st1 st2 st3 :
  skip_all T1 reason st1 st2 -> skip_all T2 reason st2 st3 ->
  skip_all (T2 ∪ T1) reason st1 st3.
Proof.
  destruct 1 as [A1 A2 A3 A4 A5 A6 A7 A8 A9 A10 A11 A12].
  destruct 1 as [B1 B2 B3 B4 B5 B6 B7 B8 B9 B10 B11 B12]. split; try congruence.
  - rewrite B7, A7. by rewrite (assoc_L (∪)).
  - rewrite B8, A8. by rewrite (assoc_L (∪)).
  - intros x Hx. destruct (decide (x ∈ T2)) as [H2|H2]; [auto|]. rewrite B10 by done. set_solver.
  - intros x Hx. rewrite B10, A10; set_solver.
  - intros x Hx. destruct (decide (x ∈ T2)) as [H2|H2]; [auto|]. rewrite B12 by done. set_solver.
  - intros x Hx. rewrite B12, A12; set_solver.
Qed.

Lemma skip_all_mark x reason now st :
  x ∉ rs_completed st -> x ∉ rs_skipped st ->
  skip_all {[x]} reason st (mark_skipped x reason now st).
Proof.
  intros Hc Hs. unfold mark_skipped. rewrite decide_False by tauto.
  split; simpl; try done.
  - intros y ->%elem_of_singleton. exists now. by rewrite lookup_insert_eq.
  - intros y Hy. rewrite lookup_insert_ne; [done|]. set_solver.
  - intros y ->%elem_of_singleton. unfold set_state. by rewrite lookup_insert_eq.
  - intros y Hy. unfold set_state. rewrite lookup_insert_ne; [done|]. set_solver.
Qed.

Lemma mark_skipped_done x reason now st :
  x ∈ rs_completed st -> mark_skipped x reason now st = st.
Proof. intros Hx. unfold mark_skipped. by rewrite decide_True by auto. Qed.

(** Marking a list skips exactly its unfinished steps. *)
Lemma mark_all_skipped_spec l reason now st :
  rs_skipped st ⊆ rs_completed st ->
  skip_all (list_to_set l ∖ rs_completed st) reason st (mark_all_skipped l reason now st).
Proof.
  revert st. induction l as [|x l IH]; intros st Hst; simpl.
  { assert (∅ ∖ rs_completed st = ∅) as -> by set_solver. apply skip_all_refl. }
  destruct (decide (x ∈ rs_completed st)) as [Hx|Hx].
  - rewrite mark_skipped_done by done. specialize (IH st Hst).
    assert (({[x]} ∪ list_to_set l) ∖ rs_completed st = list_to_set l ∖ rs_completed st)
      as -> by set_solver. done.
  - pose proof (skip_all_mark x reason now st Hx ltac:(set_solver)) as Hm.
    specialize (IH (mark_skipped x reason now st)).
    rewrite (sk_completed _ _ _ _ Hm), (sk_skipped _ _ _ _ Hm) in IH.
    specialize (IH ltac:(set_solver)). pose proof (skip_all_trans _ _ _ _ _ _ Hm IH) as H.
    assert (({[x]} ∪ list_to_set l) ∖ rs_completed st
            = list_to_set l ∖ ({[x]} ∪ rs_completed st) ∪ {[x]}) as ->; [|done].
    apply set_eq. intros y. destruct (decide (y = x)); set_solver.
Qed.

Section facts.
Context {S : Type} `{!DagStep S}.
Context (dag : DAG S) (Hwf : wf_dag dag).

(** ** The cascade *)
Lemma skip_dependents_spec l reason now queue st :
  rs_skipped st ⊆ rs_completed st ->
  exists new st', skip_dependents l reason now queue st = (queue ++ new, st') /\
    NoDup new /\ skip_all (list_to_set new) reason st st' /\
    (forall x, x ∈ new -> x ∈ l /\ (x ∉ rs_completed st)) /\
    (forall x, x ∈ l -> x ∈ rs_completed st').
Proof.
  revert queue st. induction l as [|x l IH]; intros queue st Hst; cbn [skip_dependents].
  { exists [], st. rewrite app_nil_r. split; [done|]. split; [constructor|].
    split; [apply skip_all_refl|]. split; by intros y ?%elem_of_nil. }
  destruct (decide (x ∈ rs_completed st \/ x ∈ rs_skipped st)) as [Hx|Hx].
  - destruct (IH queue st Hst) as (new & st' & -> & Hnd & Hsk & Hnew & Hl).
    exists new, st'. split; [done|]. split; [done|]. split; [done|]. split.
    + intros y Hy. destruct (Hnew y Hy). split; [by right|done].
    + intros y [->|Hy]%elem_of_cons; [|auto].
      rewrite (sk_completed _ _ _ _ Hsk). set_solver.
  - pose proof (skip_all_mark x reason now st ltac:(tauto) ltac:(tauto)) as Hm.
    destruct (IH (queue ++ [x]) (mark_skipped x reason now st))
      as (new & st' & -> & Hnd & Hsk & Hnew & Hl).
    { rewrite (sk_completed _ _ _ _ Hm), (sk_skipped _ _ _ _ Hm). set_solver. }
    rewrite (sk_completed _ _ _ _ Hm) in Hnew.
    exists (x :: new), st'. rewrite <- app_assoc. split; [done|]. split; [|split; [|split]].
    + constructor; [|done]. intros Hin. destruct (Hnew x Hin) as [_ Hn]. set_solver.
    + simpl. rewrite (union_comm_L {[x]}). by eapply skip_all_trans.
    + intros y [->|Hy]%elem_of_cons; [split; [left|tauto]|].
      destruct (Hnew y Hy). split; [by right|set_solver].
    + intros y [->|Hy]%elem_of_cons; [|auto].
      rewrite (sk_completed _ _ _ _ Hsk), (sk_completed _ _ _ _ Hm). set_solver.
Qed.

(** What the cascade from [start] has skipped so far. *)
Record cascade_inv (start reason : string) (st0 : RunState) (T : gset string)
    (s : list string * RunState) : Prop := {
  cs_skip : skip_all T reason st0 s.2;
  cs_why : forall x, x ∈ T ->
    (x ∉ rs_completed st0) /\ x ∈ names dag /\ exists y, y ∈ deps dag x /\ (y = start \/ y ∈ T);
  cs_queue : forall y, y ∈ s.1 -> y = start \/ y ∈ T;
  cs_closed : forall y, y = start \/ y ∈ T ->
    y ∈ s.1 \/ forall x, x ∈ get_dependents dag y -> x ∈ rs_completed s.2;
}.

Definition unfinished (st : RunState) : gset string := list_to_set (names dag) ∖ rs_completed st.
Definition cascade_measure (s : list string * RunState) : nat :=
  size (unfinished s.2) + length s.1.

Lemma cascade_step_inv start reason now st0 T s s' :
  rs_skipped st0 ⊆ rs_completed st0 ->
  cascade_inv start reason st0 T s -> cascade_step dag reason now s = inl s' ->
  (exists T', cascade_inv start reason st0 T' s') /\ cascade_measure s' < cascade_measure s.
Proof.
  intros Hsk0 [Hskip Hwhy Hqueue Hclosed] Hs. destruct s as [[|cur queue] st]; [done|].
  unfold cascade_step in Hs. simpl in *.
  assert (rs_skipped st ⊆ rs_completed st) as Hsk.
  { rewrite (sk_completed _ _ _ _ Hskip), (sk_skipped _ _ _ _ Hskip). set_solver. }
  destruct (skip_dependents_spec (adj (adjacency_of dag) cur) reason now queue st Hsk)
    as (new & st' & Heq & Hnd & Hnew & Hin & Hall).
  rewrite Heq in Hs. injection Hs as <-.
  pose proof (sk_completed _ _ _ _ Hskip) as Hc. pose proof (sk_completed _ _ _ _ Hnew) as Hc'.
  assert (forall x, x ∈ new -> x ∈ names dag) as Hnn.
  { intros x Hx. eapply dependents_names; [done|]. by apply Hin. }
  split.
  - exists (list_to_set new ∪ T). split; simpl.
    + by eapply skip_all_trans.
    + intros x [Hx%elem_of_list_to_set|Hx]%elem_of_union.
      * destruct (Hin x Hx) as [Ha Hn]. rewrite Hc in Hn. split; [set_solver|].
        split; [auto|]. exists cur. split; [by apply elem_of_dependents|].
        destruct (Hqueue cur ltac:(left)); set_solver.
      * destruct (Hwhy x Hx) as (H1 & H2 & y & H3 & H4). split; [done|]. split; [done|].
        exists y. set_solver.
    + intros y [Hy|Hy]%elem_of_app; [|set_solver].
      destruct (Hqueue y ltac:(by right)); set_solver.
    + intros y Hy. destruct (decide (y ∈ new)) as [Hyn|Hyn]; [left; set_solver|].
      destruct (Hclosed y ltac:(set_solver)) as [[->|Hq]%elem_of_cons|Hcl].
      * by right.
      * left. set_solver.
      * right. intros x Hx. rewrite Hc'. specialize (Hcl x Hx). set_solver.
  - unfold cascade_measure, unfinished. simpl. rewrite length_app, Hc'.
    assert (list_to_set (names dag) ∖ (list_to_set new ∪ rs_completed st)
            = (list_to_set (names dag) ∖ rs_completed st) ∖ (list_to_set new : gset string))
      as -> by set_solver.
    assert ((list_to_set new : gset string) ⊆ list_to_set (names dag) ∖ rs_completed st) as Hsub.
    { intros x Hx%elem_of_list_to_set. apply elem_of_difference.
      split; [apply elem_of_list_to_set; auto|by apply Hin]. }
    rewrite size_difference by done. apply subseteq_size in Hsub.
    rewrite size_list_to_set in * by done. lia.
Qed.

(** The cascade terminates; it skips unfinished steps that depend on [start]
    or on a skipped step, and leaves no dependent of those unfinished. *)
Lemma cascade_spec start reason now st :
  rs_skipped st ⊆ rs_completed st ->
  exists T, skip_all T reason st (cascade_skip dag start reason now st) /\
    (forall x, x ∈ T -> (x ∉ rs_completed st) /\ x ∈ names dag /\
       exists y, y ∈ deps dag x /\ (y = start \/ y ∈ T)) /\
    (forall x y, y = start \/ y ∈ T -> y ∈ deps dag x ->
       x ∈ rs_completed (cascade_skip dag start reason now st)).
Proof.
  intros Hsk. set (I s := exists T, cascade_inv start reason st T s).
  assert (I ([start], st)) as HI.
  { exists ∅. split; simpl; [apply skip_all_refl|set_solver|set_solver|].
    intros y [->|?]; [left; set_solver|set_solver]. }
  destruct (run_loop_total (cascade_step dag reason now) I cascade_measure) with
    (fuel := 2 + length (names dag)) (s := ([start], st)) as [st' Hst']; [|done| |].
  - intros s s' [T HT] Hs. by eapply cascade_step_inv.
  - unfold cascade_measure, unfinished. simpl.
    assert (size (list_to_set (names dag) ∖ rs_completed st) <= length (names dag)); [|lia].
    etransitivity; [apply subseteq_size, subseteq_difference_l; reflexivity|].
    by rewrite size_list_to_set.
  - set (P st' := exists T, skip_all T reason st st' /\
      (forall x, x ∈ T -> (x ∉ rs_completed st) /\ x ∈ names dag /\
         exists y, y ∈ deps dag x /\ (y = start \/ y ∈ T)) /\
      (forall x y, y = start \/ y ∈ T -> y ∈ deps dag x -> x ∈ rs_completed st')).
    unfold cascade_skip. rewrite Hst'. simpl. change (P st').
    eapply (run_loop_inv (cascade_step dag reason now) I P); [| |exact HI|exact Hst'].
    + intros s s' [T HT] Hs. by eapply cascade_step_inv.
    + intros [[|cur queue] s] r [T [H1 H2 H3 H4]] Hs; [|discriminate Hs].
      injection Hs as <-. simpl in *. exists T. split; [done|]. split; [done|].
      intros x y Hy Hx. destruct (H4 y Hy) as [Hn|Hcl]; [by apply elem_of_nil in Hn|].
      apply Hcl. by apply elem_of_dependents.
Qed.
End facts.
