(* ===== verification/SchedulerInv.v ===== *)
(** * The invariant of the scheduling loop

    [sinv fl st]: what holds of the scheduler state between two of its
    operations, [fl] being the tasks in flight (those in [state.tasks] and those
    of the batch being processed).  Each operation of [Scheduler] preserves it. *)

From S2P Require Import Prelude PyVal Messages StepState Dag DagFacts Tracking Scheduler SchedulerFacts.

(** The lifecycle state that records a final status. *)
Definition outcome_state (s : StepStatus) : StepState :=
  match s with StSuccess => SUCCESS | StSkipped => SKIPPED | _ => FAILED end.

Definition failed_result (st : RunState) (x : string) : Prop :=
  exists r, rs_results st !! x = Some r /\ sr_status r = StFailed.

(** A step whose dependents must not run: it failed, or never ran itself. *)
Definition stopped (st : RunState) (x : string) : Prop :=
  x ∈ rs_completed st /\ (x ∉ rs_spawned st \/ failed_result st x).

Section inv.
Context {S : Type} `{!DagStep S}.
Context (dag : DAG S) (max_concurrency : nat) (on_update : option observer).

Record sinv (fl : gmap string TaskState) (st : RunState) : Prop := {
  si_dom : dom fl = rs_running st;
  si_run_names : forall x, x ∈ rs_running st -> x ∈ names dag;
  si_comp_names : forall x, x ∈ rs_completed st -> x ∈ names dag;
  si_disj : forall x, x ∈ rs_running st -> x ∉ rs_completed st;
  si_skip : rs_skipped st ⊆ rs_completed st;
  si_max : size (rs_running st) <= max_concurrency;
  si_deg : forall x, x ∈ names dag /\ (x ∉ rs_completed st) ->
    rs_in_degree st !! x = Some (Z.of_nat (pending (.∈ rs_completed st) (deps dag x)));
  si_ready_nodup : NoDup (rs_ready st);
  si_ready : forall x, x ∈ rs_ready st ->
    x ∈ names dag /\ (x ∉ rs_running st) /\ (x ∉ rs_completed st);
  si_live : forall x, x ∈ names dag -> x ∉ rs_completed st ->
    (x ∈ rs_ready st \/ x ∈ rs_running st <-> forall y, y ∈ deps dag x -> y ∈ rs_completed st);
  si_nostop : forall x y, x ∈ names dag -> x ∉ rs_completed st -> y ∈ deps dag x -> ~ stopped st y;
  si_spawned_nodup : NoDup (rs_spawned st);
  si_spawned : forall x, x ∈ rs_spawned st -> x ∈ rs_running st \/ x ∈ rs_completed st;
  si_running_spawned : forall x, x ∈ rs_running st -> x ∈ rs_spawned st;
  si_spawned_deps : forall x y, x ∈ rs_spawned st -> y ∈ deps dag x ->
    y ∈ rs_completed st /\ ~ stopped st y;
  si_unspawned : forall x, x ∈ rs_completed st -> x ∉ rs_spawned st ->
    (exists r, rs_results st !! x = Some r /\ sr_status r = StSkipped) /\
    exists y, y ∈ deps dag x /\ stopped st y;
  si_results : forall x, is_Some (rs_results st !! x) <-> x ∈ rs_completed st;
  si_terminal : forall x r, rs_results st !! x = Some r ->
    terminal_status (sr_status r) = true /\ rs_states st !! x = Some (outcome_state (sr_status r));
  si_fresh : forall x, x ∉ rs_running st -> x ∉ rs_completed st -> rs_states st !! x = None;
  si_created : forall x, fl !! x = Some TCreated -> rs_states st !! x = Some READY;
  si_started : forall x t, fl !! x = Some t -> t = TRunning \/ (exists r, t = TDone (Returned r)) ->
    rs_states st !! x = Some RUNNING;
  si_overall : wr_overall_status (rs_result st)
    = (if decide (map_Forall (fun _ r => sr_status r ≠ StFailed) (rs_results st))
       then StRunning else StFailed);
}.

Context (Hwf : wf_dag dag).

(** What the invariant reads; an operation that keeps all of it keeps the invariant. *)
Record same_sched (st st' : RunState) : Prop := {
  ss_deg : rs_in_degree st' = rs_in_degree st;
  ss_ready : rs_ready st' = rs_ready st;
  ss_running : rs_running st' = rs_running st;
  ss_completed : rs_completed st' = rs_completed st;
  ss_skipped : rs_skipped st' = rs_skipped st;
  ss_results : rs_results st' = rs_results st;
  ss_spawned : rs_spawned st' = rs_spawned st;
  ss_overall : wr_overall_status (rs_result st') = wr_overall_status (rs_result st);
}.

Lemma sinv_same fl st st' :
  sinv fl st -> same_sched st st' -> rs_states st' = rs_states st -> sinv fl st'.
Proof.
  intros H [E1 E2 E3 E4 E5 E6 E7 E8] E9. destruct H.
  split; unfold stopped, failed_result in *; rewrite ?E1, ?E2, ?E3, ?E4, ?E5, ?E6, ?E7, ?E8, ?E9; auto.
Qed.

Lemma notify_same ev st : same_sched st (notify on_update ev st).
Proof.
  unfold notify. destruct on_update as [obs|]; [|done].
  split; try done. simpl. by destruct (obs _ _).
Qed.

Lemma notify_states ev st : rs_states (notify on_update ev st) = rs_states st.
Proof. unfold notify. by destruct on_update. Qed.
Lemma notify_tasks ev st : rs_tasks (notify on_update ev st) = rs_tasks st.
Proof. unfold notify. by destruct on_update. Qed.

(** ** Start *)
Lemma sinv_init id now ctx vars : sinv ∅ (init_run dag on_update id now ctx vars).
Proof.
  eapply sinv_same; [|apply notify_same|apply notify_states].
  assert (forall x, x ∈ initial_ready dag <-> x ∈ names dag /\ deps dag x = []) as Hready.
  { intros x. unfold initial_ready. rewrite list_elem_of_filter, init_in_degree_lookup by done.
    case_decide; [|tauto]. destruct (deps dag x) eqn:E; simpl; [naive_solver|].
    split; [intros [[=] _]|by intros [_ [=]]]. }
  split; simpl; try done; try (intros; set_solver).
  - change (size (∅ : gset string) <= max_concurrency). rewrite size_empty. lia.
  - intros x [Hx _]. rewrite init_in_degree_lookup, decide_True by done.
    rewrite pending_nothing; [done|]. set_solver.
  - unfold initial_ready. by apply NoDup_filter.
  - intros x Hx _. rewrite Hready. split.
    + intros [[_ ->]|]; [|set_solver]. intros y Hy. by apply elem_of_nil in Hy.
    + intros Hd. left. split; [done|]. destruct (deps dag x) as [|y l]; [done|].
      exfalso. specialize (Hd y ltac:(left)). set_solver.
  - intros x y _ _ _ [Hy _]. set_solver.
  - constructor.
  - intros x. rewrite lookup_empty. split; [by intros [? ?]|set_solver].
Qed.

(** ** Scheduling ready steps *)
Lemma spawn_inv fl st x ready :
  sinv fl st -> rs_ready st = x :: ready -> size (rs_running st) < max_concurrency ->
  exists st', spawn x (set_ready ready st) = Ok st' /\ sinv (<[x := TCreated]> fl) st' /\
    rs_ready st' = ready /\ rs_tasks st' = <[x := TCreated]> (rs_tasks st) /\
    rs_completed st' = rs_completed st.
Proof.
  intros H Hr Hmax.
  destruct (si_ready _ _ H x ltac:(rewrite Hr; left)) as (Hn & Hxr & Hxc).
  unfold spawn. simpl. rewrite transition_legal; simpl.
  2: { unfold get_state. by rewrite (si_fresh _ _ H). }
  eexists. split; [done|]. split; [|done].
  pose proof (si_ready_nodup _ _ H) as Hnd. rewrite Hr in Hnd. apply NoDup_cons in Hnd as [Hnr Hnd].
  assert (x ∉ rs_spawned st) as Hxs by (intros [?|?]%(si_spawned _ _ H); tauto).
  assert (forall y, y ∈ deps dag x -> y ∈ rs_completed st) as Hxd.
  { apply (si_live _ _ H); [done|done|]. left. rewrite Hr. left. }
  assert (forall y, y ∈ rs_completed st -> y ∈ rs_spawned st ++ [x] <-> y ∈ rs_spawned st) as Happ.
  { intros y Hy. rewrite elem_of_app, list_elem_of_singleton. split; [|auto]. intros [| ->]; tauto. }
  assert (forall y, y ∈ rs_completed st -> y ≠ x) as Hne by congruence.
  pose proof (si_spawned_nodup _ _ H) as Hsnd.
  split; unfold stopped, failed_result; simpl; try apply H.
  - rewrite dom_insert_L. by rewrite (si_dom _ _ H).
  - intros y [->%elem_of_singleton|Hy]%elem_of_union; [done|]. by apply H.
  - intros y [->%elem_of_singleton|Hy]%elem_of_union; [done|]. by apply H.
  - rewrite size_union by sset. rewrite size_singleton. lia.
  - done.
  - intros y Hy. destruct (si_ready _ _ H y) as (? & ? & ?); [rewrite Hr; by right|].
    sset.
  - intros y Hy Hyc. rewrite <- (si_live _ _ H y) by done. rewrite Hr. sset.
  - intros z y Hz Hzc Hy [Hyc Hst]. rewrite Happ in Hst by done.
    by apply (si_nostop _ _ H z y).
  - apply NoDup_app. split; [done|]. split; [|apply NoDup_singleton].
    by intros y Hy ->%list_elem_of_singleton.
  - intros y [Hy| ->%list_elem_of_singleton]%elem_of_app; [|sset].
    apply (si_spawned _ _ H) in Hy. sset.
  - intros y [->%elem_of_singleton|Hy]%elem_of_union; apply elem_of_app; [right; left|left].
    by apply H.
  - intros z y [Hz| ->%list_elem_of_singleton]%elem_of_app Hy.
    + destruct (si_spawned_deps _ _ H z y Hz Hy) as [Hyc Hn']. rewrite Happ by done. done.
    + rewrite Happ by auto. split; [auto|]. by apply (si_nostop _ _ H x y).
  - intros y Hy Hys. rewrite Happ in Hys by done.
    destruct (si_unspawned _ _ H y Hy Hys) as (Hres & z & Hz & Hzc & Hzs).
    split; [done|]. exists z. rewrite Happ by done. done.
  - intros y r Hy. unfold set_state. rewrite lookup_insert_ne; [by apply H|].
    intros ->. apply Hxc, (si_results _ _ H). eauto.
  - intros y Hy Hyc. unfold set_state. rewrite lookup_insert_ne by sset.
    apply H; sset.
  - intros y. unfold set_state. destruct (decide (x = y)) as [->|];
      [by rewrite !lookup_insert_eq|rewrite !lookup_insert_ne by done; apply H].
  - intros y t. unfold set_state. destruct (decide (x = y)) as [->|].
    + rewrite !lookup_insert_eq. intros [= <-]. by intros [|[? ?]].
    + rewrite !lookup_insert_ne by done. apply H.
Qed.

(** Scheduling never raises; afterwards no slot is free or nothing is ready. *)
Lemma schedule_loop_inv ready st :
  sinv (rs_tasks st) st -> rs_ready st = ready ->
  exists st', schedule_loop max_concurrency ready st = Ok st' /\ sinv (rs_tasks st') st' /\
    rs_completed st' = rs_completed st /\ rs_tasks st ⊆ rs_tasks st' /\
    (rs_ready st' = [] \/ size (rs_running st') = max_concurrency).
Proof.
  revert st. induction ready as [|x ready IH]; intros st H Hr; cbn [schedule_loop].
  { exists st. auto 10. }
  case_decide as Hmax.
  - destruct (si_ready _ _ H x) as (_ & _ & Hc); [rewrite Hr; left|]. simpl.
    rewrite decide_False by (pose proof (si_skip _ _ H); set_solver).
    destruct (spawn_inv _ st x ready H Hr Hmax) as (st' & -> & H' & Hr' & Ht' & Hc'). simpl.
    rewrite <- Ht' in H'.
    destruct (IH st' H' Hr') as (st2 & -> & H2 & Hc2 & Hsub & Hm).
    exists st2. split; [done|]. split; [done|]. split; [congruence|]. split; [|done].
    etransitivity; [|exact Hsub]. rewrite Ht'. apply insert_subseteq.
    apply not_elem_of_dom. rewrite (si_dom _ _ H). by apply (si_ready _ _ H x); rewrite Hr; left.
  - exists st. split; [done|]. split; [done|]. split; [done|]. split; [done|].
    right. pose proof (si_max _ _ H). lia.
Qed.

Lemma schedule_ready_inv st :
  sinv (rs_tasks st) st ->
  exists st', schedule_ready_steps max_concurrency st = Ok st' /\ sinv (rs_tasks st') st' /\
    rs_completed st' = rs_completed st /\ rs_tasks st ⊆ rs_tasks st' /\
    (rs_ready st' = [] \/ size (rs_running st') = max_concurrency).
Proof. intros H. by apply schedule_loop_inv. Qed.

(** ** A task moves on: it starts, or its executor returns *)
Lemma sinv_task fl st x t t' st' :
  sinv fl st -> fl !! x = Some t -> same_sched st st' ->
  (forall y, y ≠ x -> rs_states st' !! y = rs_states st !! y) ->
  (t' ≠ TCreated) ->
  (t' = TRunning \/ (exists r, t' = TDone (Returned r)) -> rs_states st' !! x = Some RUNNING) ->
  sinv (<[x := t']> fl) st'.
Proof.
  intros H Hx [E1 E2 E3 E4 E5 E6 E7 E8] Hst Ht' Hrun.
  assert (x ∈ rs_running st) as Hxr.
  { rewrite <- (si_dom _ _ H). by apply elem_of_dom_2 in Hx. }
  assert (forall y, y ∈ rs_completed st -> y ≠ x) as Hne.
  { intros y Hy ->. by apply (si_disj _ _ H x). }
  destruct H.
  split; unfold stopped, failed_result in *; rewrite ?E1, ?E2, ?E3, ?E4, ?E5, ?E6, ?E7, ?E8; auto.
  - rewrite dom_insert_L, si_dom0. sset.
  - intros y r Hy. destruct (si_terminal0 y r Hy) as [? ?]. rewrite Hst; [done|].
    apply Hne, si_results0. eauto.
  - intros y Hy Hyc. rewrite Hst; [auto|]. by intros ->.
  - intros y. destruct (decide (x = y)) as [->|Hxy]; [rewrite lookup_insert_eq; congruence|].
    rewrite lookup_insert_ne, Hst; auto.
  - intros y u. destruct (decide (x = y)) as [->|Hxy].
    + rewrite lookup_insert_eq. by intros [= <-].
    + rewrite lookup_insert_ne, Hst; auto. apply si_started0.
Qed.

(** ** A result is recorded *)

(** [st'] is [st] after the bookkeeping for the result [r] of the in-flight step [x]. *)
Record recorded (x : string) (r : StepResult) (st st' : RunState) : Prop := {
  rc_deg : rs_in_degree st' = rs_in_degree st;
  rc_ready : rs_ready st' = rs_ready st;
  rc_running : rs_running st' = rs_running st ∖ {[x]};
  rc_completed : rs_completed st' = {[x]} ∪ rs_completed st;
  rc_skipped : rs_skipped st' ⊆ {[x]} ∪ rs_skipped st;
  rc_results : rs_results st' = <[x := r]> (rs_results st);
  rc_spawned : rs_spawned st' = rs_spawned st;
  rc_states : rs_states st' = <[x := outcome_state (sr_status r)]> (rs_states st);
  rc_overall : wr_overall_status (rs_result st')
    = if is_failed r then StFailed else wr_overall_status (rs_result st);
  rc_terminal : terminal_status (sr_status r) = true;
}.

(** What every completion shares: skip [T] (empty for a step that did not fail),
    new in-degrees, newly ready steps. *)
Record completion (x : string) (r : StepResult) (T : gset string) (new : list string)
    (st st' : RunState) : Prop := {
  cp_running : rs_running st' = rs_running st ∖ {[x]};
  cp_completed : rs_completed st' = T ∪ ({[x]} ∪ rs_completed st);
  cp_skipped : rs_skipped st' ⊆ rs_completed st';
  cp_spawned : rs_spawned st' = rs_spawned st;
  cp_ready : rs_ready st' = rs_ready st ++ new;
  cp_new_nodup : NoDup new;
  cp_new : forall y, y ∈ new <-> y ∈ names dag /\ (y ∉ rs_completed st') /\ x ∈ deps dag y /\
                              (forall z, z ∈ deps dag y -> z ∈ rs_completed st');
  cp_deg : forall y, y ∈ names dag /\ (y ∉ rs_completed st') ->
    rs_in_degree st' !! y = Some (Z.of_nat (pending (.∈ rs_completed st') (deps dag y)));
  cp_result : rs_results st' !! x = Some r /\ rs_states st' !! x = Some (outcome_state (sr_status r)) /\
              terminal_status (sr_status r) = true;
  cp_T_results : forall y, y ∈ T -> exists s, rs_results st' !! y = Some s /\ sr_status s = StSkipped
                                      /\ rs_states st' !! y = Some SKIPPED;
  cp_other : forall y, y ≠ x -> y ∉ T ->
    rs_results st' !! y = rs_results st !! y /\ rs_states st' !! y = rs_states st !! y;
  cp_T : forall y, y ∈ T -> (y ∉ {[x]} ∪ rs_completed st) /\ y ∈ names dag /\
           exists z, z ∈ deps dag y /\ (z = x \/ z ∈ T);
  cp_T_failed : sr_status r ≠ StFailed -> T = ∅;
  cp_closed : sr_status r = StFailed -> forall y z, z = x \/ z ∈ T -> z ∈ deps dag y ->
    y ∈ rs_completed st';
  cp_overall : wr_overall_status (rs_result st')
    = if is_failed r then StFailed else wr_overall_status (rs_result st);
}.

Lemma completion_T_idle fl x r T new st st' :
  sinv fl st -> x ∈ rs_running st -> completion x r T new st st' ->
  forall y, y ∈ T -> (y ∉ rs_running st) /\ (y ∉ rs_ready st) /\ (y ∉ rs_spawned st).
Proof.
  intros H Hx C y Hy. destruct (cp_T _ _ _ _ _ _ C y Hy) as (Hyc & Hyn & z & Hz & Hzx).
  assert (z ∉ rs_completed st) as Hzc.
  { destruct Hzx as [->|Hzt]; [by apply (si_disj _ _ H)|].
    destruct (cp_T _ _ _ _ _ _ C z Hzt) as (Hzc & _). sset. }
  assert (y ∉ rs_completed st) as Hyc' by sset.
  pose proof (proj1 (si_live _ _ H y Hyn Hyc')) as Hlive.
  split; [|split]; intros Hin.
  - apply Hzc, Hlive; [by right|done].
  - apply Hzc, Hlive; [by left|done].
  - by apply Hzc, (si_spawned_deps _ _ H y z).
Qed.

Lemma completion_stopped_old fl x r T new st st' :
  sinv fl st -> x ∈ rs_running st -> completion x r T new st st' ->
  forall y, y ∈ rs_completed st -> stopped st' y <-> stopped st y.
Proof.
  intros H Hx C y Hy. unfold stopped, failed_result.
  assert (y ≠ x) as Hyx by (intros ->; by apply (si_disj _ _ H x)).
  assert (y ∉ T) as HyT. { intros HT. destruct (cp_T _ _ _ _ _ _ C y HT). sset. }
  destruct (cp_other _ _ _ _ _ _ C y Hyx HyT) as [-> _].
  rewrite (cp_completed _ _ _ _ _ _ C), (cp_spawned _ _ _ _ _ _ C).
  split; intros [? ?]; split; try done. sset.
Qed.

Lemma completion_stopped_T fl x r T new st st' :
  sinv fl st -> x ∈ rs_running st -> completion x r T new st st' ->
  forall y, y ∈ T -> stopped st' y.
Proof.
  intros H Hx C y Hy. split; [rewrite (cp_completed _ _ _ _ _ _ C); sset|].
  left. rewrite (cp_spawned _ _ _ _ _ _ C). by eapply completion_T_idle.
Qed.

Lemma completion_stopped_x fl x r T new st st' :
  sinv fl st -> x ∈ rs_running st -> completion x r T new st st' ->
  stopped st' x <-> sr_status r = StFailed.
Proof.
  intros H Hx C. unfold stopped, failed_result.
  destruct (cp_result _ _ _ _ _ _ C) as [-> _]. rewrite (cp_spawned _ _ _ _ _ _ C).
  split.
  - intros [_ [Hn|(r' & [= <-] & Hr)]]; [|done]. exfalso. by apply Hn, (si_running_spawned _ _ H).
  - intros Hr. split; [rewrite (cp_completed _ _ _ _ _ _ C); sset|]. right. eauto.
Qed.

(** Dependencies of a step still live after the completion are completed and not stopped. *)
Lemma completion_nostop fl x r T new st st' y z :
  sinv fl st -> x ∈ rs_running st -> completion x r T new st st' ->
  y ∈ names dag -> y ∉ rs_completed st' -> z ∈ deps dag y -> ~ stopped st' z.
Proof.
  intros H Hx C Hy Hyc Hz Hs.
  assert (sr_status r = StFailed -> ~ (z = x \/ z ∈ T)) as Hcl.
  { intros Hr Hzx. by apply Hyc, (cp_closed _ _ _ _ _ _ C Hr y z). }
  pose proof (cp_completed _ _ _ _ _ _ C) as Hc.
  destruct (decide (z = x)) as [->|Hzx].
  { apply Hcl; [|by left]. by apply (completion_stopped_x _ _ _ _ _ _ _ H Hx C). }
  destruct (decide (z ∈ T)) as [HT|HT].
  { destruct (decide (sr_status r = StFailed)) as [Hr|Hr]; [by apply Hcl; auto|].
    rewrite (cp_T_failed _ _ _ _ _ _ C Hr) in HT. sset. }
  assert (z ∈ rs_completed st) as Hzc by (destruct Hs as [Hs _]; rewrite Hc in Hs; sset).
  apply (si_nostop _ _ H y z); [done| |done|]; [rewrite Hc in Hyc; sset|].
  by apply (completion_stopped_old _ _ _ _ _ _ _ H Hx C).
Qed.

Lemma completion_live fl x r T new st st' y :
  sinv fl st -> x ∈ rs_running st -> completion x r T new st st' ->
  y ∈ names dag -> y ∉ rs_completed st' ->
  (y ∈ rs_ready st' \/ y ∈ rs_running st' <-> forall z, z ∈ deps dag y -> z ∈ rs_completed st').
Proof.
  intros H Hx C Hy Hyc. pose proof (cp_completed _ _ _ _ _ _ C) as Hc.
  assert (y ∉ rs_completed st) as Hyc0 by (rewrite Hc in Hyc; sset).
  assert (y ≠ x) as Hyx by (rewrite Hc in Hyc; intros ->; sset).
  pose proof (si_live _ _ H y Hy Hyc0) as Hl.
  rewrite (cp_ready _ _ _ _ _ _ C), (cp_running _ _ _ _ _ _ C), elem_of_app, (cp_new _ _ _ _ _ _ C).
  split.
  - intros [[Hr|(_ & _ & _ & Hd)]|Hr]; [| done |].
    + intros z Hz. rewrite Hc. assert (z ∈ rs_completed st) by (apply Hl; auto). sset.
    + intros z Hz. rewrite Hc. assert (z ∈ rs_completed st) by (apply Hl; [right; sset|done]). sset.
  - intros Hd. destruct (decide (x ∈ deps dag y)) as [Hxy|Hxy]; [left; right; auto|].
    assert (y ∈ rs_ready st \/ y ∈ rs_running st) as [?|?]; [|by left; left|right; sset].
    apply Hl. intros z Hz. specialize (Hd z Hz). rewrite Hc in Hd.
    assert (z ≠ x) as Hzx by congruence. assert (z ∉ T) as HzT; [|sset].
    intros HT. destruct (decide (sr_status r = StFailed)) as [Hr|Hr].
    + apply Hyc. by apply (cp_closed _ _ _ _ _ _ C Hr y z); auto.
    + rewrite (cp_T_failed _ _ _ _ _ _ C Hr) in HT. sset.
Qed.

Lemma completion_results fl x r T new st st' y :
  sinv fl st -> x ∈ rs_running st -> completion x r T new st st' ->
  is_Some (rs_results st' !! y) <-> y ∈ rs_completed st'.
Proof.
  intros H Hx C. rewrite (cp_completed _ _ _ _ _ _ C).
  destruct (decide (y = x)) as [->|Hyx].
  { destruct (cp_result _ _ _ _ _ _ C) as [-> _]. split; [sset|eauto]. }
  destruct (decide (y ∈ T)) as [HT|HT].
  { destruct (cp_T_results _ _ _ _ _ _ C y HT) as (s & -> & _). split; [sset|eauto]. }
  destruct (cp_other _ _ _ _ _ _ C y Hyx HT) as [-> _].
  rewrite (si_results _ _ H). sset.
Qed.

Lemma completion_overall fl x r T new st st' :
  sinv fl st -> x ∈ rs_running st -> completion x r T new st st' ->
  wr_overall_status (rs_result st')
  = if decide (map_Forall (fun _ r => sr_status r ≠ StFailed) (rs_results st'))
    then StRunning else StFailed.
Proof.
  intros H Hx C. rewrite (cp_overall _ _ _ _ _ _ C), (si_overall _ _ H).
  destruct (cp_result _ _ _ _ _ _ C) as [Hrx _]. unfold is_failed.
  case_bool_decide as Hr.
  { rewrite decide_False; [done|]. intros Hall. by apply (Hall x r). }
  pose proof (cp_T_failed _ _ _ _ _ _ C Hr) as HT.
  assert (forall y, y ≠ x -> rs_results st' !! y = rs_results st !! y) as Hoth.
  { intros y Hy. apply (cp_other _ _ _ _ _ _ C y Hy). rewrite HT. sset. }
  erewrite decide_ext; [reflexivity|]. split; intros Hall y s Hs.
  - destruct (decide (y = x)) as [->|Hy]; [congruence|]. rewrite Hoth in Hs by done. by apply (Hall y s).
  - apply (Hall y s). rewrite Hoth; [done|]. intros ->.
    apply (si_disj _ _ H x Hx), (si_results _ _ H). eauto.
Qed.

Lemma completion_unspawned fl x r T new st st' y :
  sinv fl st -> x ∈ rs_running st -> completion x r T new st st' ->
  y ∈ rs_completed st' -> y ∉ rs_spawned st' ->
  (exists s, rs_results st' !! y = Some s /\ sr_status s = StSkipped) /\
  exists z, z ∈ deps dag y /\ stopped st' z.
Proof.
  intros H Hx C Hy Hys. rewrite (cp_spawned _ _ _ _ _ _ C) in Hys.
  assert (y ≠ x) as Hyx by (intros ->; by apply Hys, (si_running_spawned _ _ H)).
  destruct (decide (y ∈ T)) as [HT|HT].
  - destruct (cp_T_results _ _ _ _ _ _ C y HT) as (s & Hs & Hss & _). split; [eauto|].
    destruct (cp_T _ _ _ _ _ _ C y HT) as (_ & _ & z & Hz & Hzx). exists z. split; [done|].
    destruct Hzx as [->|Hzx]; [|by apply (completion_stopped_T _ _ _ _ _ _ _ H Hx C)].
    apply (completion_stopped_x _ _ _ _ _ _ _ H Hx C).
    destruct (decide (sr_status r = StFailed)) as [|Hr]; [done|].
    rewrite (cp_T_failed _ _ _ _ _ _ C Hr) in HT. sset.
  - rewrite (cp_completed _ _ _ _ _ _ C) in Hy.
    destruct (cp_other _ _ _ _ _ _ C y Hyx HT) as [-> _].
    assert (y ∈ rs_completed st) as Hyc by sset.
    destruct (si_unspawned _ _ H y Hyc Hys) as (Hr & z & Hz & Hzs). split; [done|].
    exists z. split; [done|]. apply (completion_stopped_old _ _ _ _ _ _ _ H Hx C); [|done].
    by destruct Hzs.
Qed.

Lemma completion_ready_nodup fl x r T new st st' :
  sinv fl st -> x ∈ rs_running st -> completion x r T new st st' -> NoDup (rs_ready st').
Proof.
  intros H Hx C. rewrite (cp_ready _ _ _ _ _ _ C). apply NoDup_app. split; [apply (si_ready_nodup _ _ H)|]. split; [|apply C].
  intros y Hy Hyn. apply (cp_new _ _ _ _ _ _ C) in Hyn as (Hyn & Hyc & Hxy & _).
  destruct (si_ready _ _ H y Hy) as (_ & _ & Hyc0).
  apply (si_disj _ _ H x Hx). apply (si_live _ _ H y Hyn Hyc0); auto.
Qed.

Lemma completion_ready fl x r T new st st' :
  sinv fl st -> x ∈ rs_running st -> completion x r T new st st' ->
  forall y, y ∈ rs_ready st' -> y ∈ names dag /\ (y ∉ rs_running st') /\ (y ∉ rs_completed st').
Proof.
  intros H Hx C y Hy. pose proof (cp_completed _ _ _ _ _ _ C) as Hc. pose proof (cp_running _ _ _ _ _ _ C) as Hrun.
  rewrite (cp_ready _ _ _ _ _ _ C) in Hy. apply elem_of_app in Hy as [Hy|Hy].
  - destruct (si_ready _ _ H y Hy) as (? & Hyr & ?). split; [done|].
    assert (y ∉ T) by (intros HT; by destruct (completion_T_idle _ _ _ _ _ _ _ H Hx C y HT) as (_ & ? & _)).
    assert (y ≠ x) by (by intros ->). rewrite Hrun, Hc. sset.
  - apply (cp_new _ _ _ _ _ _ C) in Hy as (Hyn & Hyc & Hxy & _). split; [done|]. split; [|done].
    intros Hyr. rewrite Hrun in Hyr. assert (y ∈ rs_running st) as Hyr' by sset.
    apply (si_disj _ _ H x Hx). apply (si_live _ _ H y Hyn); auto. by apply (si_disj _ _ H).
Qed.

Lemma completion_terminal fl x r T new st st' :
  sinv fl st -> completion x r T new st st' -> forall y s, rs_results st' !! y = Some s ->
  terminal_status (sr_status s) = true /\ rs_states st' !! y = Some (outcome_state (sr_status s)).
Proof.
  intros H C y s Hs. destruct (decide (y = x)) as [->|Hyx].
  { destruct (cp_result _ _ _ _ _ _ C) as (Hr & Hst & Ht). rewrite Hr in Hs. by injection Hs as <-. }
  destruct (decide (y ∈ T)) as [HT|HT].
  { destruct (cp_T_results _ _ _ _ _ _ C y HT) as (s' & Hs' & Hss & Hst).
    rewrite Hs' in Hs. injection Hs as <-. by rewrite Hss. }
  destruct (cp_other _ _ _ _ _ _ C y Hyx HT) as [Hr Hst]. rewrite Hr in Hs. rewrite Hst. by apply H.
Qed.

Lemma completion_inv fl x r T new st st' :
  sinv fl st -> x ∈ rs_running st -> completion x r T new st st' -> sinv (delete x fl) st'.
Proof.
  intros H Hx C. pose proof (cp_completed _ _ _ _ _ _ C) as Hc.
  pose proof (cp_running _ _ _ _ _ _ C) as Hrun. pose proof (cp_spawned _ _ _ _ _ _ C) as Hsp.
  pose proof (completion_T_idle _ _ _ _ _ _ _ H Hx C) as HTi.
  assert (forall y, y ∈ rs_running st' -> y ≠ x /\ y ∉ T) as Hother.
  { intros y Hy. rewrite Hrun in Hy. split; [intros ->; sset|].
    intros HT. destruct (HTi y HT). sset. }
  assert (forall y, y ∈ dom (delete x fl) -> y ≠ x /\ y ∉ T) as Hotherfl.
  { intros y Hy. apply Hother. rewrite dom_delete_L, (si_dom _ _ H) in Hy. by rewrite Hrun. }
  split.
  - by rewrite dom_delete_L, (si_dom _ _ H).
  - intros y Hy. apply (si_run_names _ _ H). rewrite Hrun in Hy. sset.
  - intros y Hy. rewrite Hc in Hy.
    apply elem_of_union in Hy as [HT|[->%elem_of_singleton|Hy]%elem_of_union].
    + by apply (cp_T _ _ _ _ _ _ C).
    + by apply (si_run_names _ _ H).
    + by apply (si_comp_names _ _ H).
  - intros y Hy. destruct (Hother y Hy). rewrite Hrun in Hy. rewrite Hc.
    assert (y ∉ rs_completed st) by (apply (si_disj _ _ H); sset). sset.
  - apply C.
  - rewrite Hrun. etransitivity; [apply subseteq_size|apply (si_max _ _ H)]. set_solver +.
  - apply C.
  - by eapply completion_ready_nodup.
  - by eapply completion_ready.
  - intros y Hy Hyc. by eapply completion_live.
  - intros y z Hy Hyc Hz. by eapply completion_nostop.
  - rewrite Hsp. apply H.
  - intros y Hy. rewrite Hsp in Hy. rewrite Hrun, Hc.
    apply (si_spawned _ _ H) in Hy. destruct (decide (y = x)); sset.
  - intros y Hy. rewrite Hsp. apply (si_running_spawned _ _ H). rewrite Hrun in Hy. sset.
  - intros y z Hy Hz. rewrite Hsp in Hy. destruct (si_spawned_deps _ _ H y z Hy Hz) as [Hzc Hzs].
    split; [rewrite Hc; sset|]. by rewrite (completion_stopped_old _ _ _ _ _ _ _ H Hx C).
  - intros y Hy Hys. by eapply completion_unspawned.
  - intros y. by eapply completion_results.
  - by eapply completion_terminal.
  - intros y Hyr Hyc. rewrite Hrun in Hyr. rewrite Hc in Hyc.
    destruct (cp_other _ _ _ _ _ _ C y) as [_ ->]; [sset|sset|]. apply H; sset.
  - intros y Hy. destruct (Hotherfl y) as [Hyx HT]; [by apply elem_of_dom_2 in Hy|].
    destruct (cp_other _ _ _ _ _ _ C y Hyx HT) as [_ ->]. rewrite lookup_delete_ne in Hy by done. by apply H.
  - intros y t Hy Ht. destruct (Hotherfl y) as [Hyx HT]; [by apply elem_of_dom_2 in Hy|].
    destruct (cp_other _ _ _ _ _ _ C y Hyx HT) as [_ ->]. rewrite lookup_delete_ne in Hy by done. by eapply H.
  - by eapply completion_overall.
Qed.

(** *** The two ways a recorded step completes *)
Lemma unlock_completion fl x r st st1 :
  sinv fl st -> x ∈ rs_running st -> recorded x r st st1 -> sr_status r ≠ StFailed ->
  exists st2 new, unlock_downstream dag x st1 = Ok st2 /\ completion x r ∅ new st st2.
Proof.
  intros H Hx R Hr. pose proof (si_disj _ _ H x Hx) as Hxc.
  pose proof (rc_completed _ _ _ _ R) as Hc.
  assert (rs_skipped st1 ⊆ rs_completed st1) as Hsk.
  { pose proof (si_skip _ _ H). pose proof (rc_skipped _ _ _ _ R). rewrite Hc. set_solver. }
  set (A := fun y => y ∈ names dag /\ (y ∉ rs_completed st1)).
  assert (forall y, y ∈ live_dependents dag x st1 <-> x ∈ deps dag y /\ y ∉ rs_completed st1) as Hlive.
  { intros y. unfold live_dependents. rewrite list_elem_of_filter.
    change (adj (adjacency_of dag) x) with (get_dependents dag x). rewrite elem_of_dependents by done.
    split; [tauto|]. intros [? ?]. repeat split; try done. intros Hs%Hsk. done. }
  destruct (unlock_spec dag A (.∈ rs_completed st) (.∈ rs_completed st1) x
              (live_dependents dag x st1) (rs_in_degree st1) (rs_ready st1))
    as (deg & new & Hdec & Hnd & Hdeg & Hnew); [done| | | | |].
  - intros y. rewrite Hc. set_solver +.
  - intros y [Hxy Hyc]%Hlive. split; [|done].
    by apply (dependents_names dag x), elem_of_dependents.
  - intros y [Hyn Hyc]. rewrite <- occ_dependents by done. unfold live_dependents, occ.
    change (adj (adjacency_of dag) x) with (get_dependents dag x).
    rewrite list_filter_filter. f_equal. apply list_filter_iff. intros z. split; [tauto|].
    intros <-. split; [done|]. split; [done|]. intros Hs%Hsk. done.
  - intros y [Hyn Hyc]. rewrite (rc_deg _ _ _ _ R). apply (si_deg _ _ H). split; [done|].
    rewrite Hc in Hyc. sset.
  - unfold unlock_downstream. rewrite Hdec. simpl. eexists _, new. split; [done|].
    split; simpl; try apply R; try done.
    + rewrite Hc. by rewrite (left_id_L ∅ (∪)).
    + by rewrite (rc_ready _ _ _ _ R).
    + intros y. rewrite Hnew. split.
      * intros ([Hy Hyc] & Hxy & Hall). done.
      * intros (Hy & Hyc & Hxy & Hall). done.
    + rewrite (rc_results _ _ _ _ R), (rc_states _ _ _ _ R), !lookup_insert_eq.
      split; [done|]. split; [done|]. apply R.
    + intros y Hy _. rewrite (rc_results _ _ _ _ R), (rc_states _ _ _ _ R).
      by rewrite !lookup_insert_ne by done.
Qed.

Lemma cascade_completion fl x r st st1 reason now :
  sinv fl st -> x ∈ rs_running st -> recorded x r st st1 -> sr_status r = StFailed ->
  exists T, completion x r T [] st (cascade_skip dag x reason now st1).
Proof.
  intros H Hx R Hr. pose proof (rc_completed _ _ _ _ R) as Hc.
  assert (rs_skipped st1 ⊆ rs_completed st1) as Hsk.
  { pose proof (si_skip _ _ H). pose proof (rc_skipped _ _ _ _ R). rewrite Hc. set_solver. }
  destruct (cascade_spec dag Hwf x reason now st1 Hsk) as (T & Hskip & HT & Hcl).
  exists T. set (st2 := cascade_skip dag x reason now st1) in *.
  pose proof (sk_completed _ _ _ _ Hskip) as Hc2. rewrite Hc in Hc2.
  assert (x ∉ T) as HxT by (intros Hin; destruct (HT x Hin) as [Hn _]; rewrite Hc in Hn; sset).
  split.
  - by rewrite (sk_running _ _ _ _ Hskip), (rc_running _ _ _ _ R).
  - done.
  - rewrite (sk_skipped _ _ _ _ Hskip), (sk_completed _ _ _ _ Hskip). clear -Hsk. set_solver.
  - by rewrite (sk_spawned _ _ _ _ Hskip), (rc_spawned _ _ _ _ R).
  - by rewrite (sk_ready _ _ _ _ Hskip), (rc_ready _ _ _ _ R), app_nil_r.
  - constructor.
  - intros y. split; [by intros ?%elem_of_nil|]. intros (Hyn & Hyc & Hxy & _).
    exfalso. apply Hyc. by apply (Hcl y x); auto.
  - intros y [Hyn Hyc].
    rewrite (sk_deg _ _ _ _ Hskip), (rc_deg _ _ _ _ R), (si_deg _ _ H).
    + do 2 f_equal. apply pending_ext. intros z Hz. rewrite Hc2.
      assert (~ (z = x \/ z ∈ T)) by (intros Hzx; by apply Hyc, (Hcl y z)). clear -H0. set_solver.
    + split; [done|]. rewrite Hc2 in Hyc. clear -Hyc. set_solver.
  - rewrite (sk_results_out _ _ _ _ Hskip), (sk_states_out _ _ _ _ Hskip) by done.
    rewrite (rc_results _ _ _ _ R), (rc_states _ _ _ _ R), !lookup_insert_eq.
    split; [done|]. split; [done|]. apply R.
  - intros y Hy. destruct (sk_results_in _ _ _ _ Hskip y Hy) as [t ->].
    eexists. split; [done|]. split; [done|]. by apply (sk_states_in _ _ _ _ Hskip).
  - intros y Hyx HyT.
    rewrite (sk_results_out _ _ _ _ Hskip), (sk_states_out _ _ _ _ Hskip) by done.
    rewrite (rc_results _ _ _ _ R), (rc_states _ _ _ _ R). by rewrite !lookup_insert_ne by done.
  - intros y Hy. rewrite <- Hc. by apply HT.
  - done.
  - intros _ y z Hz Hy. by apply (Hcl y z).
  - by rewrite (sk_overall _ _ _ _ Hskip), (rc_overall _ _ _ _ R).
Qed.

(** *** Processing a finished task *)
Lemma fail_nonterminal_terminal raw now :
  terminal_status (sr_status (fail_nonterminal raw now)) = true.
Proof. unfold fail_nonterminal. by destruct (terminal_status (sr_status raw)) eqn:E. Qed.

(** The lifecycle transition of a started step is legal whatever the outcome. *)
Lemma outcome_recorded fl x r st :
  sinv fl st -> rs_states st !! x = Some RUNNING -> terminal_status (sr_status r) = true ->
  exists st1, transition_outcome_state x r (record_result x r st) = Ok st1 /\
    rs_tasks st1 = rs_tasks st /\
    recorded x r st (if is_failed r then set_failed st1 else st1).
Proof.
  intros H Hst Ht. unfold transition_outcome_state. unfold terminal_status in Ht.
  apply bool_decide_eq_true in Ht. rewrite !elem_of_cons, elem_of_nil in Ht.
  assert (get_state (rs_states (record_result x r st)) x = RUNNING) as Hg
    by (unfold get_state; simpl; by rewrite Hst).
  destruct Ht as [Hr|[Hr|[Hr|[]]]]; rewrite Hr;
    (rewrite transition_legal by (by rewrite Hg)); simpl; eexists; (split; [done|]);
    (split; [by destruct (is_failed r)|]); unfold is_failed; rewrite Hr; simpl;
    split; simpl; try done; rewrite ?add_step_overall; unfold is_failed, terminal_status;
    rewrite ?Hr; try done; set_solver +.
Qed.

Lemma exception_recorded fl x e t now st :
  sinv fl st ->
  let r := exception_result x e t now in
  let st1 := record_result x r st in
  recorded x r st (set_failed (set_states (set_state (rs_states st1) x FAILED) st1)).
Proof. intros H. split; simpl; try done. set_solver +. Qed.

Lemma cascade_tasks start reason now st :
  rs_skipped st ⊆ rs_completed st ->
  rs_tasks (cascade_skip dag start reason now st) = rs_tasks st.
Proof. intros H. destruct (cascade_spec dag Hwf start reason now st H) as (T & HT & _). apply HT. Qed.

(** Processing never raises: it records exactly one terminal result. *)
Lemma process_inv fl x o now st :
  sinv fl st -> fl !! x = Some (TDone o) ->
  exists st' r mark, process_done_task dag x o now st = Ok (st', r, mark) /\
    sinv (delete x fl) st' /\ rs_tasks st' = rs_tasks st /\
    exists T new, completion x r T new st st'.
Proof.
  intros H Hx.
  assert (x ∈ rs_running st) as Hxr by (rewrite <- (si_dom _ _ H); by eapply elem_of_dom_2).
  destruct o as [raw|e t]; cbn [process_done_task].
  - set (r := fail_nonterminal raw now).
    destruct (outcome_recorded fl x r st H) as (st1 & -> & Htk & R).
    { eapply si_started; eauto. } { apply fail_nonterminal_terminal. }
    simpl. destruct (is_failed r) eqn:Hf; unfold is_failed in Hf.
    + apply bool_decide_eq_true in Hf.
      destruct (cascade_completion fl x r st _ "dependency failed" now H Hxr R Hf) as [T C].
      simpl. eexists _, _, _. split; [done|]. split; [by eapply completion_inv|].
      split; [|by eauto]. rewrite cascade_tasks; [done|].
      pose proof (rc_skipped _ _ _ _ R). pose proof (rc_completed _ _ _ _ R) as Hc.
      rewrite Hc. pose proof (si_skip _ _ H). set_solver.
    + apply bool_decide_eq_false in Hf.
      destruct (unlock_completion fl x r st st1 H Hxr R Hf) as (st2 & new & Hu & C).
      rewrite Hu. simpl. eexists _, _, _. split; [done|]. split; [by eapply completion_inv|].
      split; [|by eauto]. unfold unlock_downstream in Hu. inv_ok. destruct a as [deg rdy].
      by inv_ok.
  - pose proof (exception_recorded fl x e t now st H) as R. simpl in R.
    destruct (cascade_completion fl x _ st _ "unhandled exception" now H Hxr R eq_refl) as [T C].
    eexists _, _, _. split; [done|]. split; [by eapply completion_inv|].
    split; [|by eauto]. rewrite cascade_tasks; [done|]. simpl. pose proof (si_skip _ _ H). set_solver.
Qed.

(** The awaits after it, the executor's effect on the context, change nothing that matters. *)
Lemma finish_same x r mark st : same_sched st (finish_task on_update x r mark st).
Proof.
  unfold finish_task. destruct mark; [|apply notify_same].
  set (st1 := set_ctx _ _ _). destruct (notify_same (EvStepEnd x r) st1). by split.
Qed.
Lemma finish_states x r mark st : rs_states (finish_task on_update x r mark st) = rs_states st.
Proof. unfold finish_task. rewrite notify_states. by destruct mark. Qed.
Lemma finish_tasks x r mark st : rs_tasks (finish_task on_update x r mark st) = rs_tasks st.
Proof. unfold finish_task. rewrite notify_tasks. by destruct mark. Qed.

(** The first transition of a step task never raises. *)
Lemma begin_inv fl x st :
  sinv fl st -> fl !! x = Some TCreated ->
  sinv (<[x := TRunning]> fl) (begin_task on_update x st) /\
  rs_tasks (begin_task on_update x st) = <[x := TRunning]> (rs_tasks st) /\
  same_sched st (begin_task on_update x st).
Proof.
  intros H Hx. pose proof (si_created _ _ H x Hx) as Hst.
  unfold begin_task. rewrite transition_legal; [|unfold get_state; by rewrite Hst].
  set (st1 := set_tasks _ _).
  assert (same_sched st (notify on_update (EvStepStart x) st1)) as Hs.
  { destruct (notify_same (EvStepStart x) st1). by split. }
  split; [|split; [by rewrite notify_tasks|done]].
  eapply sinv_task; [done|done|done| |done|].
  - intros y Hy. rewrite notify_states. simpl. unfold set_state. by rewrite lookup_insert_ne.
  - intros _. rewrite notify_states. simpl. unfold set_state. by rewrite lookup_insert_eq.
Qed.
End inv.
