(* ===== verification/SchedulerProps.v ===== *)
(** * Every run of the DAG scheduler

    The machine invariant (by induction on the interleaving), timeout recovery,
    and the properties of [Scheduler]: no operation raises, no deadlock, bounded
    concurrency, dependency order, what each step's result is when the run ends,
    and termination. *)

From S2P Require Import Prelude PyVal Messages StepState Dag.
From S2P Require Import DagFacts Tracking Scheduler SchedulerFacts SchedulerInv.

(** The tasks of the batch still to be processed. *)
Definition todo_map (todo : list (string * Outcome)) : gmap string TaskState :=
  list_to_map ((fun p => (p.1, TDone p.2)) <$> todo).

Definition in_flight (m : Machine) : gmap string TaskState :=
  match m_pc m with
  | Processing todo | Finishing _ _ _ todo => todo_map todo ∪ rs_tasks (m_st m)
  | _ => rs_tasks (m_st m)
  end.

Lemma todo_map_cons x o todo : todo_map ((x, o) :: todo) = <[x := TDone o]> (todo_map todo).
Proof. done. Qed.

Lemma todo_map_lookup todo x o :
  NoDup todo.*1 -> (x, o) ∈ todo -> todo_map todo !! x = Some (TDone o).
Proof.
  intros Hnd Hin. unfold todo_map. apply elem_of_list_to_map_1.
  - rewrite <- list_fmap_compose. done.
  - apply list_elem_of_fmap. by exists (x, o).
Qed.

Lemma todo_map_None todo x : x ∉ todo.*1 -> todo_map todo !! x = None.
Proof.
  intros Hx. unfold todo_map. apply not_elem_of_list_to_map_1. by rewrite <- list_fmap_compose.
Qed.

Section props.
Context {S : Type} `{!DagStep S}.
Context (dag : DAG S) (max_concurrency : nat) (timeout : option string) (on_update : option observer).
Context (Hwf : wf_dag dag).

Abbreviation sinv := (sinv dag max_concurrency).
Abbreviation mstep := (mstep dag max_concurrency timeout on_update).
Abbreviation reachable := (reachable dag max_concurrency timeout on_update).
Abbreviation step_names := (list_to_set (names dag) : gset string).

(** ** Timeout recovery *)

(** [st'] is [st] after the running steps in [P] have been failed. *)
Record timing_out (msg : string) (now : Z) (st : RunState) (P : gset string) (st' : RunState) : Prop := {
  to_spawned : rs_spawned st' = rs_spawned st;
  to_tasks : rs_tasks st' = ∅;
  to_skip : rs_skipped st' ⊆ rs_completed st';
  to_completed : rs_completed st ∪ P ⊆ rs_completed st';
  to_names : rs_completed st' ⊆ step_names;
  to_rest : forall x, x ∈ rs_running st -> x ∉ P -> x ∉ rs_completed st';
  to_old : forall x, x ∈ rs_completed st -> rs_results st' !! x = rs_results st !! x;
  to_failed : forall x, x ∈ P -> rs_results st' !! x = Some (timeout_result x msg now);
  to_skipped : forall x, x ∈ rs_completed st' -> x ∉ rs_completed st -> x ∉ P ->
    exists now, rs_results st' !! x = Some (skip_result x "workflow timeout" now);
}.

Lemma fail_timed_out_step msg now fl st P st' x :
  sinv fl st -> timing_out msg now st P st' -> x ∈ rs_running st -> x ∉ P ->
  timing_out msg now st ({[x]} ∪ P) (fail_timed_out dag msg now st' x).
Proof.
  intros H [Hsp Htk Hsk Hco Hna Hre Hol Hfa Hss] Hx HxP.
  pose proof (Hre x Hx HxP) as Hxc. unfold fail_timed_out. rewrite decide_False by done.
  set (st1 := {| rs_in_degree := _ |}).
  destruct (cascade_spec dag Hwf x "workflow timeout" now st1) as (T & Hskip & HT & Hcl).
  { simpl. clear -Hsk. set_solver. }
  set (st2 := cascade_skip _ _ _ _ _) in *.
  pose proof (sk_completed _ _ _ _ Hskip) as Hc2. simpl in Hc2.
  assert (forall y, y ∈ T -> (y ∉ rs_running st) /\ (y ∉ rs_completed st)) as HTr.
  { intros y Hy. destruct (HT y Hy) as (Hyc & Hyn & z & Hz & Hzx). simpl in Hyc.
    assert (y ∉ rs_completed st) as Hyc' by (clear -Hyc Hco; set_solver). split; [|done].
    intros Hyr. assert (z ∈ rs_completed st) as Hzc by (apply (si_live _ _ _ _ H y); auto).
    destruct Hzx as [->|Hzt]; [by apply (si_disj _ _ _ _ H x)|].
    destruct (HT z Hzt) as (Hzn & _). simpl in Hzn. clear -Hzn Hzc Hco. set_solver. }
  assert (x ∉ T) as HxT by (intros Hin; by destruct (HTr x Hin)).
  split.
  - by rewrite (sk_spawned _ _ _ _ Hskip).
  - by rewrite (sk_tasks _ _ _ _ Hskip).
  - rewrite Hc2, (sk_skipped _ _ _ _ Hskip). simpl. clear -Hsk. set_solver.
  - rewrite Hc2. clear -Hco. set_solver.
  - rewrite Hc2. intros y [Hy|[->%elem_of_singleton|Hy]%elem_of_union]%elem_of_union; [| |by apply Hna].
    + apply elem_of_list_to_set. by apply HT.
    + apply elem_of_list_to_set. by apply (si_run_names _ _ _ _ H).
  - intros y Hy HyP. rewrite Hc2. specialize (Hre y Hy). specialize (HTr y).
    clear -Hre HTr Hy HyP. set_solver.
  - intros y Hy. rewrite (sk_results_out _ _ _ _ Hskip); simpl.
    + rewrite lookup_insert_ne; [auto|]. intros ->. by apply (si_disj _ _ _ _ H y).
    + intros HyT. by destruct (HTr y HyT).
  - intros y [->%elem_of_singleton|Hy]%elem_of_union.
    + rewrite (sk_results_out _ _ _ _ Hskip) by done. simpl. by rewrite lookup_insert_eq.
    + assert (y ∈ rs_completed st') as Hyc by (clear -Hy Hco; set_solver).
      rewrite (sk_results_out _ _ _ _ Hskip).
      * simpl. rewrite lookup_insert_ne; [auto|]. by intros ->.
      * intros HyT. destruct (HT y HyT) as (Hn & _). simpl in Hn. clear -Hn Hyc. set_solver.
  - intros y Hy Hyc HyP. destruct (decide (y ∈ T)) as [HyT|HyT].
    { destruct (sk_results_in _ _ _ _ Hskip y HyT) as [t ->]. eauto. }
    rewrite (sk_results_out _ _ _ _ Hskip) by done. simpl. rewrite lookup_insert_ne by (clear -HyP; set_solver).
    rewrite Hc2 in Hy. apply Hss; [|done|]; clear -Hy HyT HyP; set_solver.
Qed.

Lemma timeout_fail_running_spec msg now ctx vars fl st running :
  sinv fl st -> running ≡ₚ elements (rs_running st) ->
  timing_out msg now st (rs_running st)
    (timeout_fail_running dag running msg now ctx vars st).
Proof.
  intros H Hrun. unfold timeout_fail_running.
  assert (NoDup running) as Hnd by (rewrite Hrun; apply NoDup_elements).
  assert (forall x, x ∈ running <-> x ∈ rs_running st) as Hin by (intros x; by rewrite Hrun, elem_of_elements).
  assert (forall l P st', NoDup l -> (forall x, x ∈ l -> x ∈ rs_running st /\ x ∉ P) ->
            timing_out msg now st P st' ->
            timing_out msg now st (list_to_set l ∪ P) (foldl (fail_timed_out dag msg now) st' l)) as Hfold.
  { induction l as [|x l IH]; intros P st' Hl HlP Ht; simpl; [by rewrite (left_id_L ∅ (∪))|].
    apply NoDup_cons in Hl as [Hxl Hl]. destruct (HlP x ltac:(left)) as [Hx HxP].
    rewrite <- (assoc_L (∪)), (assoc_L (∪) {[x]}), (comm_L (∪) {[x]} (list_to_set l)), <- (assoc_L (∪)).
    apply IH; [done| |by eapply fail_timed_out_step].
    intros y Hy. destruct (HlP y ltac:(by right)). split; [done|].
    intros [->%elem_of_singleton|]%elem_of_union; done. }
  assert (rs_running st = list_to_set running ∪ ∅) as Heq.
  { apply set_eq. intros x. rewrite (right_id_L ∅ (∪)), elem_of_list_to_set. by rewrite Hin. }
  rewrite Heq. apply Hfold; [done| |].
  - intros x Hx%Hin. split; [done|]. apply not_elem_of_empty.
  - split; simpl; try done; try (intros ? ?%elem_of_empty; done).
    + apply (si_skip _ _ _ _ H).
    + clear. set_solver.
    + intros x Hx. apply elem_of_list_to_set. by apply (si_comp_names _ _ _ _ H).
    + intros x Hx _. by apply (si_disj _ _ _ _ H).
Qed.

(** What recovery from a timeout leaves: every step has one terminal result;
    finished steps keep theirs, running ones fail, the others are skipped. *)
Record recovered (st st' : RunState) : Prop := {
  rv_spawned : rs_spawned st' = rs_spawned st;
  rv_tasks : rs_tasks st' = ∅;
  rv_completed : rs_completed st' = step_names;
  rv_old : forall x, x ∈ rs_completed st -> rs_results st' !! x = rs_results st !! x;
  rv_failed : forall x, x ∈ rs_running st ->
    exists msg now, rs_results st' !! x = Some (timeout_result x msg now);
  rv_skipped : forall x, x ∈ names dag -> x ∉ rs_completed st -> x ∉ rs_running st ->
    exists now, rs_results st' !! x = Some (skip_result x "workflow timeout" now);
  rv_overall : wr_overall_status (rs_result st') = StFailed;
  rv_meta : od_get "timeout_exceeded" (wr_metadata (rs_result st')) = Some (VBool true);
}.

Lemma handle_timeout_recovered fl st running remaining seconds msg now ctx vars :
  sinv fl st -> running ≡ₚ elements (rs_running st) ->
  remaining ≡ₚ elements (step_names
     ∖ rs_completed (timeout_fail_running dag running msg now ctx vars st)
     ∖ rs_skipped (timeout_fail_running dag running msg now ctx vars st)) ->
  recovered st (handle_timeout dag running remaining seconds msg now ctx vars st).
Proof.
  intros H Hrun Hrem. unfold handle_timeout.
  pose proof (timeout_fail_running_spec msg now ctx vars fl st running H Hrun) as T.
  set (st1 := timeout_fail_running dag running msg now ctx vars st) in *.
  pose proof (mark_all_skipped_spec remaining "workflow timeout" now st1 (to_skip _ _ _ _ _ T)) as M.
  set (st2 := mark_all_skipped remaining _ now st1) in *.
  assert (forall x, x ∈ remaining <-> x ∈ names dag /\ x ∉ rs_completed st1) as Hr.
  { intros x. rewrite Hrem, elem_of_elements, !elem_of_difference, elem_of_list_to_set.
    pose proof (to_skip _ _ _ _ _ T). clear -H0. set_solver. }
  pose proof (to_completed _ _ _ _ _ T) as Hc1.
  set (R := list_to_set remaining ∖ rs_completed st1) in *.
  assert (forall x, x ∈ R <-> x ∈ names dag /\ x ∉ rs_completed st1) as HR.
  { intros x. unfold R. rewrite elem_of_difference, elem_of_list_to_set, Hr. tauto. }
  split; simpl.
  - by rewrite (sk_spawned _ _ _ _ M), (to_spawned _ _ _ _ _ T).
  - by rewrite (sk_tasks _ _ _ _ M), (to_tasks _ _ _ _ _ T).
  - rewrite (sk_completed _ _ _ _ M). apply set_eq. intros x.
    rewrite elem_of_union, HR, elem_of_list_to_set.
    pose proof (to_names _ _ _ _ _ T x) as Hn. rewrite elem_of_list_to_set in Hn.
    destruct (decide (x ∈ rs_completed st1)); tauto.
  - intros x Hx. assert (x ∈ rs_completed st1) by (clear -Hx Hc1; set_solver).
    rewrite (sk_results_out _ _ _ _ M); [by apply T|]. rewrite HR. tauto.
  - intros x Hx. assert (x ∈ rs_completed st1) by (clear -Hx Hc1; set_solver).
    exists msg, now. rewrite (sk_results_out _ _ _ _ M); [by apply T|]. rewrite HR. tauto.
  - intros x Hx Hxc Hxr. destruct (decide (x ∈ rs_completed st1)) as [Hx1|Hx1].
    + rewrite (sk_results_out _ _ _ _ M) by (rewrite HR; tauto). by apply (to_skipped _ _ _ _ _ T).
    + apply (sk_results_in _ _ _ _ M). by apply HR.
  - done.
  - rewrite od_get_set_ne, od_get_set_ne by done. apply od_get_set_eq.
Qed.

(** ** The machine invariant *)

(** How the scheduling loop is left: all steps done, or recovered from a timeout. *)
Definition ended (st : RunState) : Prop :=
  sinv ∅ st /\ rs_tasks st = ∅ /\ rs_completed st = step_names.
Definition timed_out (st : RunState) : Prop :=
  is_Some timeout /\ exists fl st0, sinv fl st0 /\ recovered st0 st.

Definition todo_ok (todo : list (string * Outcome)) (st : RunState) : Prop :=
  NoDup todo.*1 /\ forall x, x ∈ todo.*1 -> rs_tasks st !! x = None.

Definition minv (m : Machine) : Prop :=
  match m_pc m with
  | Scheduling => sinv (in_flight m) (m_st m)
  | Waiting => sinv (in_flight m) (m_st m) /\ rs_tasks (m_st m) ≠ ∅ /\
      (rs_ready (m_st m) = [] \/ size (rs_running (m_st m)) = max_concurrency)
  | Processing todo => sinv (in_flight m) (m_st m) /\ todo_ok todo (m_st m)
  | Finishing x r mark todo =>
      sinv (in_flight m) (m_st m) /\ todo_ok todo (m_st m) /\ x ∈ rs_completed (m_st m)
  | LoopExit => ended (m_st m) \/ timed_out (m_st m)
  | Finished => exists st0 now, (ended st0 \/ timed_out st0) /\ m_st m = finalize dag on_update now st0
  end.

Lemma tasks_running st : sinv (rs_tasks st) st -> rs_tasks st = ∅ -> rs_running st = ∅.
Proof. intros H Ht. rewrite <- (si_dom _ _ _ _ H), Ht. by rewrite dom_empty_L. Qed.

Lemma unfinished_step st :
  size (rs_completed st) < length (names dag) -> exists x, x ∈ names dag /\ x ∉ rs_completed st.
Proof.
  intros Hlt. assert (step_names ∖ rs_completed st ≠ ∅) as [x Hx]%set_choose_L.
  { intros He. assert (step_names ⊆ rs_completed st) as Hs%subseteq_size by (clear -He; set_solver).
    rewrite size_list_to_set in Hs by done. lia. }
  exists x. clear -Hx. set_solver.
Qed.

(** A validated DAG never deadlocks: when nothing runs and a slot is free,
    every unfinished step is queued, and there is one. *)
Lemma no_deadlock st st' :
  validate dag = Ok tt -> 0 < max_concurrency ->
  sinv (rs_tasks st) st -> size (rs_completed st) < length (names dag) ->
  schedule_ready_steps max_concurrency st = Ok st' -> rs_tasks st' ≠ ∅.
Proof.
  intros Hv Hpos H Hlt Hs Hemp.
  destruct (schedule_ready_inv dag max_concurrency Hwf st H) as (st2 & Hs2 & H2 & Hc & _ & Hm).
  rewrite Hs in Hs2. injection Hs2 as <-.
  pose proof (tasks_running st' H2 Hemp) as Hrun.
  destruct Hm as [Hm|Hm]; [|rewrite Hrun, size_empty in Hm; lia].
  destruct (unfinished_step st Hlt) as (x & Hx & Hxc). rewrite <- Hc in Hxc.
  destruct (validate_ok dag Hwf Hv) as (Hcl & l & Hl).
  revert x Hx Hxc. enough (forall (k : nat) x, pos x l < k -> x ∈ names dag -> x ∉ rs_completed st' -> False)
    by eauto.
  induction k as [|k IH]; intros x Hk Hx Hxc; [lia|].
  assert (x ∈ rs_ready st' \/ x ∈ rs_running st') as [Hin|Hin].
  { apply (si_live _ _ _ _ H2 x Hx Hxc). intros y Hy.
    destruct (decide (y ∈ rs_completed st')) as [|Hyc]; [done|]. exfalso.
    apply (IH y); [|by eapply Hcl|done]. pose proof (topological_rank dag l Hwf Hl x y Hy). lia. }
  - rewrite Hm in Hin. by apply elem_of_nil in Hin.
  - rewrite Hrun in Hin. by apply elem_of_empty in Hin.
Qed.

(** A batch of done tasks: taking it out of [state.tasks] keeps what is in flight. *)
Lemma batch_in_flight tasks done :
  NoDup done.*1 -> (forall x o, (x, o) ∈ done <-> tasks !! x = Some (TDone o)) ->
  todo_map done ∪ filter (fun kv => kv.1 ∉ done.*1) tasks = tasks.
Proof.
  intros Hnd Hdone. apply map_eq. intros x. destruct (decide (x ∈ done.*1)) as [Hx|Hx].
  - apply list_elem_of_fmap in Hx as ([? o] & -> & Hin). simpl.
    rewrite (proj1 (Hdone _ _) Hin). apply lookup_union_Some_l. by apply todo_map_lookup.
  - rewrite lookup_union_r by (by apply todo_map_None).
    destruct (tasks !! x) as [t|] eqn:E.
    + by apply map_lookup_filter_Some.
    + apply map_lookup_filter_None. by left.
Qed.

Lemma in_flight_delete x o todo tasks :
  x ∉ todo.*1 -> tasks !! x = None ->
  delete x (todo_map ((x, o) :: todo) ∪ tasks) = todo_map todo ∪ tasks.
Proof.
  intros Hx Ht. rewrite todo_map_cons, delete_union, delete_insert_id, (delete_id tasks x) by
    (done || by apply todo_map_None). done.
Qed.

(** A step of the tasks while the coroutine is suspended. *)
Lemma minv_suspended pc st st' x t t' :
  suspended pc = true -> minv (mkMachine pc st) -> rs_tasks st !! x = Some t ->
  rs_tasks st' = <[x := t']> (rs_tasks st) -> same_sched st st' ->
  (forall fl, sinv fl st -> fl !! x = Some t -> sinv (<[x := t']> fl) st') ->
  minv (mkMachine pc st').
Proof.
  intros Hsus Hm Hx Ht Hs Hinv. destruct pc; try done; unfold minv, in_flight in *; simpl in *.
  - destruct Hm as (H & Hne & Hr). rewrite Ht, (ss_ready _ _ Hs), (ss_running _ _ Hs).
    split; [auto|]. split; [apply insert_non_empty|done].
  - destruct Hm as (H & [Hnd Hno] & Hc).
    assert (todo_map todo !! x = None) as Hxt.
    { apply todo_map_None. intros Hin. by rewrite (Hno x Hin) in Hx. }
    rewrite Ht. rewrite <- (insert_union_r _ _ _ _ Hxt). split; [apply Hinv; [done|]|].
    { by rewrite lookup_union_r. }
    split; [split; [done|]|by rewrite (ss_completed _ _ Hs)].
    intros y Hy. rewrite Ht, lookup_insert_ne; [auto|]. intros ->. by rewrite (Hno y Hy) in Hx.
Qed.

Lemma minv_timeout pc st st' :
  suspended pc = true -> is_Some timeout -> minv (mkMachine pc st) ->
  (forall fl, sinv fl st -> recovered st st') -> minv (mkMachine LoopExit st').
Proof.
  intros Hsus Hto Hm Hrec. right. split; [done|].
  destruct pc; try done; destruct Hm as [H _]; eauto 6.
Qed.

Lemma minv_process x o todo st st' r mark now :
  minv (mkMachine (Processing ((x, o) :: todo)) st) ->
  process_done_task dag x o now st = Ok (st', r, mark) ->
  minv (mkMachine (Finishing x r mark todo) st').
Proof.
  intros (H & Hnd & Hno) Hp. unfold in_flight in *. simpl in *.
  apply NoDup_cons in Hnd as [Hx Hnd].
  assert (rs_tasks st !! x = None) as Htx by (apply Hno; left).
  destruct (process_inv dag max_concurrency Hwf _ x o now st H)
    as (st2 & r2 & mark2 & Hp2 & H2 & Htk & T & new & C).
  { rewrite todo_map_cons. by rewrite <- insert_union_l, lookup_insert_eq. }
  rewrite Hp2 in Hp. injection Hp as -> -> ->.
  rewrite in_flight_delete in H2 by done.
  unfold minv, in_flight; simpl. rewrite Htk. split; [done|]. split; [split; [done|]|].
  - intros y Hy. rewrite Htk. apply Hno. by right.
  - rewrite (cp_completed _ _ _ _ _ _ _ C). clear. set_solver.
Qed.

Lemma minv_exit st :
  sinv (rs_tasks st) st -> length (names dag) <= size (rs_completed st) -> ended st.
Proof.
  intros H Hle. assert (rs_completed st = step_names) as Hc.
  { apply set_subseteq_size_eq.
    - intros x Hx. apply elem_of_list_to_set. by apply (si_comp_names _ _ _ _ H).
    - by rewrite size_list_to_set. }
  assert (rs_tasks st = ∅) as Ht.
  { apply dom_empty_inv_L. rewrite (si_dom _ _ _ _ H). apply set_eq. intros x.
    split; [|by intros ?%elem_of_empty]. intros Hx. exfalso.
    apply (si_disj _ _ _ _ H x Hx). rewrite Hc. apply elem_of_list_to_set.
    by apply (si_run_names _ _ _ _ H). }
  split; [by rewrite Ht in H|done].
Qed.

Lemma minv_step m m' :
  validate dag = Ok tt -> 0 < max_concurrency -> minv m -> mstep m m' -> minv m'.
Proof.
  intros Hv Hpos Hm Hs.
  destruct Hs as [st Hle|st st' Hlt Hs Hne|st st' rem msg now Hlt Hs He _|pc st x Hsus Hx
                 |pc st x o ctx vars Hsus Hx|st done pend Hd Hnd Hin ->|st st' x o r mark todo now Hp
                 |st x r mark todo|st|pc st sec running rem msg now ctx vars Hto Hsus Hrun Hrem|st now].
  - left. by apply minv_exit.
  - destruct (schedule_ready_inv dag max_concurrency Hwf st Hm) as (st2 & Hs2 & H2 & _ & _ & Hr).
    rewrite Hs in Hs2. injection Hs2 as <-. done.
  - exfalso. by apply (no_deadlock st st').
  - assert (forall fl, sinv fl st -> fl !! x = Some TCreated ->
       sinv (<[x := TRunning]> fl) (begin_task on_update x st) /\
       rs_tasks (begin_task on_update x st) = <[x := TRunning]> (rs_tasks st) /\
       same_sched st (begin_task on_update x st)) as Hb by (intros; by eapply begin_inv).
    assert (exists fl, sinv fl st /\ fl !! x = Some TCreated) as (fl & H & Hfl).
    { destruct pc; try done; destruct Hm as [H Hm]; eexists; (split; [exact H|]); [done|].
      unfold in_flight; simpl. destruct Hm as [[_ Hno] _]. simpl in Hno. rewrite lookup_union_r; [done|].
      apply todo_map_None. intros Hin. by rewrite (Hno x Hin) in Hx. }
    destruct (Hb fl H Hfl) as (_ & Ht & Hsm).
    eapply minv_suspended; [done|done|done|done|done|]. intros. by apply Hb.
  - eapply minv_suspended; [done|done|done|done|by split|].
    intros fl H Hfl. eapply (sinv_task dag max_concurrency Hwf); [done|done|by split|done|done|].
    intros _. simpl. apply (si_started _ _ _ _ H x TRunning); auto.
  - destruct Hm as (H & _ & _). unfold minv, in_flight in *; simpl in *.
    rewrite batch_in_flight by done. split; [by eapply sinv_same|].
    split; [done|]. intros x Hx. simpl. apply map_lookup_filter_None. right. naive_solver.
  - by eapply minv_process.
  - destruct Hm as (H & Hok & Hx). unfold minv, in_flight, todo_ok in *; simpl in *.
    rewrite finish_tasks. split; [|done].
    eapply sinv_same; [done|apply finish_same|apply finish_states].
  - destruct Hm as [H _]. unfold minv, in_flight in *; simpl in *.
    change (todo_map []) with (∅ : gmap string TaskState) in H. by rewrite (left_id_L ∅ (∪)) in H.
  - eapply minv_timeout; [done|by eexists|done|]. intros fl H. by eapply handle_timeout_recovered.
  - by exists st, now.
Qed.

Lemma reachable_minv m :
  validate dag = Ok tt -> 0 < max_concurrency -> reachable m -> minv m.
Proof.
  intros Hv Hpos (m0 & (id & now & ctx & vars & ->) & Hsteps).
  assert (minv (mkMachine Scheduling (init_run dag on_update id now ctx vars))) as H0.
  { unfold minv, in_flight. simpl.
    pose proof (sinv_init dag max_concurrency on_update Hwf id now ctx vars) as H.
    unfold init_run in *. by rewrite notify_tasks. }
  revert H0. induction Hsteps as [|m1 m2 m3 H12 _ IH]; [done|].
  intros H1. apply IH. by eapply minv_step.
Qed.
End props.
