(* ===== verification/SchedulerRun.v ===== *)
(** * Properties of the runs of the DAG scheduler

    A termination measure, an executable driver for concrete runs, and the
    claims about every reachable state of [Scheduler]'s machine. *)

From S2P Require Import Prelude PyVal Messages StepState Dag DagFacts.
From S2P Require Import Tracking Scheduler SchedulerFacts SchedulerInv SchedulerProps.

Section run.
Context {S : Type} `{!DagStep S}.
Context (dag : DAG S) (max_concurrency : nat) (timeout : option string) (on_update : option observer).

(** ** Termination measure *)

(** What a step still has to go through. *)
Definition weight (fl : gmap string TaskState) (completed : gset string) (x : string) : nat :=
  if decide (x ∈ completed) then 0
  else match fl !! x with
       | None => 8 | Some TCreated => 7 | Some TRunning => 6 | Some (TDone _) => 5
       end.
Definition step_weight (m : Machine) : string -> nat := weight (in_flight m) (rs_completed (m_st m)).

Definition pc_weight (pc : Pc) : nat :=
  match pc with
  | Scheduling => 3 | Waiting => 2 | Processing [] => 4 | Processing _ => 1
  | Finishing _ _ _ _ => 5 | LoopExit | Finished => 0
  end.

Definition run_measure (m : Machine) : nat :=
  match m_pc m with
  | Finished => 0
  | LoopExit => 1
  | pc => 2 + pc_weight pc + sum_list (step_weight m <$> names dag)
  end.

(** ** An executable run

    [drive] takes the first enabled step of a fixed order, with [oracle] for
    the outcomes of the step executors. *)
Definition created (st : RunState) : list string :=
  omap (fun kv : string * TaskState => match kv.2 with TCreated => Some kv.1 | _ => None end)
       (map_to_list (rs_tasks st)).
Definition started (st : RunState) : list string :=
  omap (fun kv : string * TaskState => match kv.2 with TRunning => Some kv.1 | _ => None end)
       (map_to_list (rs_tasks st)).
Definition batch (st : RunState) : list (string * Outcome) :=
  omap (fun kv : string * TaskState => match kv.2 with TDone o => Some (kv.1, o) | _ => None end)
       (map_to_list (rs_tasks st)).

Definition drive1 (oracle : string -> Outcome) (now : Z) (m : Machine) : option Machine :=
  let st := m_st m in
  match m_pc m with
  | Scheduling =>
      if decide (length (names dag) <= size (rs_completed st)) then Some (mkMachine LoopExit st)
      else match schedule_ready_steps max_concurrency st with
           | Ok st' => if decide (rs_tasks st' = ∅) then None else Some (mkMachine Waiting st')
           | Raise _ => None
           end
  | Waiting =>
      match created st, started st, batch st with
      | x :: _, _, _ => Some (mkMachine Waiting (begin_task on_update x st))
      | [], x :: _, _ =>
          Some (mkMachine Waiting
                 (set_ctx (mark_step_complete x (rs_ctx st)) (rs_vars st)
                   (set_tasks (<[x := TDone (oracle x)]> (rs_tasks st)) st)))
      | [], [], [] => None
      | [], [], l =>
          Some (mkMachine (Processing l)
                 (set_tasks (filter (fun kv => kv.1 ∉ l.*1) (rs_tasks st)) st))
      end
  | Processing ((x, o) :: todo) =>
      match process_done_task dag x o now st with
      | Ok (st', r, mark) => Some (mkMachine (Finishing x r mark todo) st')
      | Raise _ => None
      end
  | Processing [] => Some (mkMachine Scheduling st)
  | Finishing x r mark todo => Some (mkMachine (Processing todo) (finish_task on_update x r mark st))
  | LoopExit => Some (mkMachine Finished (finalize dag on_update now st))
  | Finished => None
  end.

Fixpoint drive (fuel : nat) (oracle : string -> Outcome) (now : Z) (m : Machine) : Machine :=
  match fuel with
  | 0 => m
  | Datatypes.S n => match drive1 oracle now m with Some m' => drive n oracle now m' | None => m end
  end.

Abbreviation mstep := (mstep dag max_concurrency timeout on_update).
Abbreviation reachable := (reachable dag max_concurrency timeout on_update).
Abbreviation minv := (minv dag max_concurrency timeout on_update).

Lemma created_spec st x : x ∈ created st <-> rs_tasks st !! x = Some TCreated.
Proof.
  unfold created. rewrite list_elem_of_omap. setoid_rewrite <- elem_of_map_to_list. split.
  - intros ([y []] & Hin & Hy); simplify_eq/=. done.
  - intros H. by exists (x, TCreated).
Qed.
Lemma started_spec st x : x ∈ started st <-> rs_tasks st !! x = Some TRunning.
Proof.
  unfold started. rewrite list_elem_of_omap. setoid_rewrite <- elem_of_map_to_list. split.
  - intros ([y []] & Hin & Hy); simplify_eq/=. done.
  - intros H. by exists (x, TRunning).
Qed.
Lemma batch_spec st x o : (x, o) ∈ batch st <-> rs_tasks st !! x = Some (TDone o).
Proof.
  unfold batch. rewrite list_elem_of_omap. setoid_rewrite <- elem_of_map_to_list. split.
  - intros ([y []] & Hin & Hy); simplify_eq/=. done.
  - intros H. by exists (x, TDone o).
Qed.

Lemma batch_nodup st : NoDup (batch st).*1.
Proof.
  unfold batch. pose proof (NoDup_fst_map_to_list (rs_tasks st)) as Hnd. revert Hnd.
  induction (map_to_list (rs_tasks st)) as [|[x t] l IH]; csimpl; [done|].
  rewrite NoDup_cons. intros [Hx Hl]. destruct t; csimpl; auto.
  apply NoDup_cons. split; [|auto]. intros Hin. apply Hx.
  apply list_elem_of_fmap in Hin as ([y o'] & -> & Hin). apply list_elem_of_omap in Hin as ([z t] & Hin & Hz).
  destruct t; simplify_eq/=. apply list_elem_of_fmap. by exists (y, TDone o').
Qed.

Lemma drive1_sound oracle now m m' : drive1 oracle now m = Some m' -> mstep m m'.
Proof.
  destruct m as [pc st]. unfold drive1. simpl. destruct pc as [| |[|[x o] todo]|x r mark todo| |].
  - case_decide as Hc; [intros [= <-]; by constructor|].
    destruct (schedule_ready_steps max_concurrency st) as [st'|] eqn:Hs; [|done].
    case_decide; [done|]. intros [= <-]. apply mstep_schedule; [lia|done|done].
  - destruct (created st) as [|x l] eqn:Hcr; [destruct (started st) as [|x l] eqn:Hst|].
    + destruct (batch st) as [|p l] eqn:Hb; [done|]. intros [= <-].
      apply (mstep_wait dag max_concurrency timeout on_update st (p :: l)); rewrite <- ?Hb;
        [congruence|apply batch_nodup|apply batch_spec|by rewrite Hb].
    + intros [= <-]. apply mstep_task_done; [done|]. apply started_spec. rewrite Hst. left.
    + intros [= <-]. apply mstep_begin; [done|]. apply created_spec. rewrite Hcr. left.
  - intros [= <-]. constructor.
  - destruct (process_done_task dag x o now st) as [[[st' r] mark]|] eqn:Hp; [|done].
    intros [= <-]. by econstructor.
  - intros [= <-]. constructor.
  - intros [= <-]. constructor.
  - done.
Qed.

Lemma drive_sound fuel oracle now m : rtc mstep m (drive fuel oracle now m).
Proof.
  revert m. induction fuel as [|n IH]; intros m; simpl; [apply rtc_refl|].
  destruct (drive1 oracle now m) as [m'|] eqn:E; [|apply rtc_refl].
  eapply rtc_l; [by eapply drive1_sound|done].
Qed.

Context (Hwf : wf_dag dag) (Hvalid : validate dag = Ok tt) (Hpos : 0 < max_concurrency).

(** In a reachable state that is not final the driver finds a step. *)
Lemma drive1_progress oracle now m :
  minv m -> m_pc m ≠ Finished -> exists m', drive1 oracle now m = Some m'.
Proof.
  intros Hm Hpc. destruct m as [pc st]. unfold drive1. simpl in *.
  destruct pc as [| |[|[x o] todo]|x r mark todo| |]; try by eauto.
  - case_decide; [eauto|].
    destruct (schedule_ready_inv dag max_concurrency Hwf st Hm) as (st' & Hs & _).
    rewrite Hs. rewrite decide_False; [eauto|].
    apply (no_deadlock dag max_concurrency Hwf st st'); try done. lia.
  - destruct Hm as (_ & Hne & _). simpl in Hne.
    apply map_choose in Hne as (x & t & Hx). destruct t as [| |o].
    + apply created_spec in Hx. destruct (created st); [by apply elem_of_nil in Hx|eauto].
    + apply started_spec in Hx. destruct (created st); [|eauto].
      destruct (started st); [by apply elem_of_nil in Hx|eauto].
    + apply batch_spec in Hx. destruct (created st); [|eauto]. destruct (started st); [|eauto].
      destruct (batch st); [by apply elem_of_nil in Hx|eauto].
  - destruct Hm as (H & Hnd & Hno). simpl in *.
    destruct (process_inv dag max_concurrency Hwf _ x o now st H) as (st' & r & mark & Hp & _).
    { unfold in_flight. simpl. by rewrite todo_map_cons, <- insert_union_l, lookup_insert_eq. }
    rewrite Hp. eauto.
Qed.

Lemma weight_le_8 fl c x : weight fl c x <= 8.
Proof. unfold weight. case_decide; [lia|]. destruct (fl !! x) as [[]|]; lia. Qed.

Lemma weight_mono fl fl' c x : fl ⊆ fl' -> weight fl' c x <= weight fl c x.
Proof.
  intros Hsub. unfold weight. case_decide; [lia|].
  destruct (fl !! x) as [t|] eqn:E.
  - by rewrite (lookup_weaken _ _ _ _ E Hsub).
  - destruct (fl' !! x) as [[]|]; lia.
Qed.

(** One in-flight task moves on. *)
Lemma weights_task fl c x t t' :
  x ∈ names dag -> x ∉ c -> fl !! x = Some t ->
  (t = TCreated /\ t' = TRunning \/ t = TRunning /\ exists o, t' = TDone o) ->
  sum_list (weight (<[x := t']> fl) c <$> names dag) + 1 <= sum_list (weight fl c <$> names dag).
Proof.
  intros Hx Hc Hfl Ht. apply (sum_list_fmap_drop _ _ _ x); [|done|].
  - intros y _. unfold weight. case_decide; [done|].
    destruct (decide (x = y)) as [->|]; [|by rewrite lookup_insert_ne].
    rewrite lookup_insert_eq, Hfl. destruct Ht as [[-> ->]|[-> [o ->]]]; lia.
  - unfold weight. rewrite !decide_False by done. rewrite lookup_insert_eq, Hfl.
    destruct Ht as [[-> ->]|[-> [o ->]]]; lia.
Qed.

(** A done task is recorded. *)
Lemma weights_complete fl c c' x o :
  x ∈ names dag -> x ∉ c -> fl !! x = Some (TDone o) -> c ⊆ c' -> x ∈ c' ->
  sum_list (weight (delete x fl) c' <$> names dag) + 5 <= sum_list (weight fl c <$> names dag).
Proof.
  intros Hx Hc Hfl Hsub Hxc. apply (sum_list_fmap_drop _ _ _ x); [|done|].
  - intros y _. unfold weight. case_decide as Hy; [lia|].
    rewrite decide_False by (clear -Hsub Hy; set_solver).
    rewrite lookup_delete_ne; [done|]. by intros ->.
  - unfold weight. rewrite decide_True, decide_False by done. by rewrite Hfl.
Qed.

Lemma in_flight_task pc st x t :
  suspended pc = true -> minv (mkMachine pc st) -> rs_tasks st !! x = Some t ->
  exists fl, in_flight (mkMachine pc st) = fl /\ fl !! x = Some t /\ sinv dag max_concurrency fl st /\
    x ∈ names dag /\ (x ∉ rs_completed st) /\
    (forall st' t', rs_tasks st' = <[x := t']> (rs_tasks st) ->
       in_flight (mkMachine pc st') = <[x := t']> fl).
Proof.
  intros Hsus Hm Hx.
  assert (forall fl, sinv dag max_concurrency fl st -> fl !! x = Some t ->
            x ∈ names dag /\ x ∉ rs_completed st) as Hrun.
  { intros fl H Hfl. assert (x ∈ rs_running st) as Hr.
    { rewrite <- (si_dom _ _ _ _ H). by eapply elem_of_dom_2. }
    split; [by apply (si_run_names _ _ _ _ H)|by apply (si_disj _ _ _ _ H)]. }
  destruct pc; try done; unfold in_flight; simpl.
  - destruct Hm as (H & _). destruct (Hrun _ H Hx). eauto 10.
  - destruct Hm as (H & [_ Hno] & _). unfold in_flight in H. simpl in *.
    assert (todo_map todo !! x = None) as Hn.
    { apply todo_map_None. intros Hin. by rewrite (Hno x Hin) in Hx. }
    assert ((todo_map todo ∪ rs_tasks st) !! x = Some t) as Hfl by (by rewrite lookup_union_r).
    destruct (Hrun _ H Hfl). eexists. split; [done|]. repeat (split; [done|]).
    intros st' t' ->. by rewrite insert_union_r.
Qed.

Lemma measure_suspended pc st :
  suspended pc = true ->
  run_measure (mkMachine pc st) = 2 + pc_weight pc + sum_list (step_weight (mkMachine pc st) <$> names dag).
Proof. by destruct pc. Qed.

Lemma measure_task pc st st' x t t' :
  suspended pc = true -> minv (mkMachine pc st) -> rs_tasks st !! x = Some t ->
  (t = TCreated /\ t' = TRunning \/ t = TRunning /\ exists o, t' = TDone o) ->
  rs_tasks st' = <[x := t']> (rs_tasks st) -> rs_completed st' = rs_completed st ->
  run_measure (mkMachine pc st') < run_measure (mkMachine pc st).
Proof.
  intros Hsus Hm Hx Ht Hst Hc.
  destruct (in_flight_task pc st x t Hsus Hm Hx) as (fl & Hfl & Hflx & _ & Hn & Hxc & Hins).
  rewrite !measure_suspended by done. unfold step_weight. rewrite Hfl, (Hins st' t') by done. simpl.
  rewrite Hc. pose proof (weights_task fl (rs_completed st) x t t' Hn Hxc Hflx Ht). lia.
Qed.

Lemma mstep_measure m m' : minv m -> mstep m m' -> run_measure m' < run_measure m.
Proof.
  intros Hm Hs.
  destruct Hs as [st Hle|st st' Hlt Hs Hne|st st' rem msg now Hlt Hs He _|pc st x Hsus Hx
                 |pc st x o ctx vars Hsus Hx|st done pend Hd Hnd Hin ->|st st' x o r mark todo now Hp
                 |st x r mark todo|st|pc st sec running rem msg now ctx vars Hto Hsus Hrun Hrem|st now].
  - unfold run_measure. simpl. lia.
  - destruct (schedule_ready_inv dag max_concurrency Hwf st Hm) as (st2 & Hs2 & _ & Hc & Hsub & _).
    rewrite Hs in Hs2. injection Hs2 as <-. unfold run_measure, step_weight; simpl. rewrite Hc.
    pose proof (sum_list_fmap_le (weight (rs_tasks st') (rs_completed st))
      (weight (rs_tasks st) (rs_completed st)) (names dag)
      (fun x _ => weight_mono _ _ _ x Hsub)). unfold in_flight. simpl. lia.
  - unfold run_measure. simpl. lia.
  - destruct (in_flight_task pc st x _ Hsus Hm Hx) as (fl & _ & Hflx & H & _).
    destruct (begin_inv dag max_concurrency on_update Hwf fl x st H Hflx) as (_ & Htk & Hsame).
    eapply measure_task; [done|done|exact Hx|by left|exact Htk|apply Hsame].
  - eapply measure_task; [done|done|exact Hx|right; eauto|done|done].
  - unfold run_measure, step_weight, in_flight; simpl. rewrite batch_in_flight by done.
    destruct done; [done|]. simpl. lia.
  - destruct Hm as (H & Hnd & Hno). unfold in_flight in H. simpl in *.
    apply NoDup_cons in Hnd as [Hx Hnd].
    assert ((todo_map ((x, o) :: todo) ∪ rs_tasks st) !! x = Some (TDone o)) as Hfl
      by (by rewrite todo_map_cons, <- insert_union_l, lookup_insert_eq).
    assert (x ∈ rs_running st) as Hxr
      by (rewrite <- (si_dom _ _ _ _ H); by eapply elem_of_dom_2).
    destruct (process_inv dag max_concurrency Hwf _ x o now st H Hfl)
      as (st2 & r2 & mark2 & Hp2 & _ & Htk & T & new & C).
    rewrite Hp2 in Hp. injection Hp as -> -> ->.
    pose proof (weights_complete (todo_map ((x, o) :: todo) ∪ rs_tasks st) (rs_completed st)
      (rs_completed st') x o (si_run_names _ _ _ _ H x Hxr) (si_disj _ _ _ _ H x Hxr) Hfl) as Hw.
    rewrite in_flight_delete in Hw by (done || (apply Hno; left)).
    rewrite (cp_completed _ _ _ _ _ _ _ C) in Hw.
    unfold run_measure, step_weight, in_flight; simpl. rewrite Htk, (cp_completed _ _ _ _ _ _ _ C).
    specialize (Hw ltac:(clear; set_solver) ltac:(clear; set_solver)). simpl in Hw. lia.
  - unfold run_measure, step_weight, in_flight; simpl. rewrite finish_tasks.
    rewrite (ss_completed _ _ (finish_same on_update x r mark st)). destruct todo; simpl; lia.
  - unfold run_measure, step_weight, in_flight; simpl.
    change (todo_map []) with (∅ : gmap string TaskState). rewrite (left_id_L ∅ (∪)). lia.
  - destruct pc; try done; unfold run_measure; simpl; lia.
  - unfold run_measure. simpl. lia.
Qed.

Lemma initial_measure m : initial dag on_update m -> run_measure m <= 8 * length (names dag) + 5.
Proof.
  intros (id & now & ctx & vars & ->). unfold run_measure; simpl.
  assert (forall f, (forall x : string, f x <= 8) -> sum_list (f <$> names dag) <= 8 * length (names dag)).
  { intros f Hf. induction (names dag); csimpl; [lia|]. pose proof (Hf a). lia. }
  specialize (H (step_weight (mkMachine Scheduling (init_run dag on_update id now ctx vars)))
    (fun x => weight_le_8 _ _ x)). lia.
Qed.

Lemma nsteps_minv k m m' : minv m -> nsteps mstep k m m' -> minv m' /\ run_measure m' + k <= run_measure m.
Proof.
  intros Hm Hk. induction Hk as [m|k m1 m2 m3 H12 _ IH]; [split; [done|lia]|].
  pose proof (mstep_measure m1 m2 Hm H12).
  destruct IH; [by eapply minv_step|]. split; [done|lia].
Qed.

(** The driver always brings a run to its end. *)
Lemma drive_finishes fuel oracle now m :
  minv m -> run_measure m < fuel -> m_pc (drive fuel oracle now m) = Finished.
Proof.
  revert m. induction fuel as [|n IH]; intros m Hm Hlt; [lia|]. simpl.
  destruct (drive1 oracle now m) as [m'|] eqn:E.
  - apply drive1_sound in E. pose proof (mstep_measure m m' Hm E).
    apply IH; [by eapply minv_step|lia].
  - assert (m_pc m = Finished \/ m_pc m ≠ Finished) as [|Hpc]
      by (destruct (m_pc m); (by left) || (by right)); [done|].
    destruct (drive1_progress oracle now m Hm Hpc) as [m' Hm']. congruence.
Qed.
End run.
