(* ===== verification/SchedulerThms.v ===== *)
(** * What the DAG scheduler guarantees

    The claims about [DAGExecutor]: every reachable state of every interleaving
    of [Scheduler.mstep], for a validated DAG and a positive concurrency limit. *)

From S2P Require Import Prelude PyVal Messages StepState Dag DagFacts.
From S2P Require Import Tracking Scheduler SchedulerFacts SchedulerInv SchedulerProps SchedulerRun.

Section thms.
Context {S : Type} `{!DagStep S}.
Implicit Types (dag : DAG S) (timeout : option string) (on_update : option observer).

(** [x] is upstream of [y]: a dependency of it, direct or not. *)
Definition upstream dag : string -> string -> Prop := tc (fun a b => a ∈ deps dag b).

(** ** Lemmas *)

Lemma not_stopped_ran dag mc fl st y :
  sinv dag mc fl st -> y ∈ rs_completed st -> ~ stopped st y ->
  y ∈ rs_spawned st /\ exists r, rs_results st !! y = Some r /\
    terminal_status (sr_status r) = true /\ sr_status r ≠ StFailed.
Proof.
  intros H Hy Hns. destruct (proj2 (si_results _ _ _ _ H y) Hy) as [r Hr].
  split.
  - destruct (decide (y ∈ rs_spawned st)) as [|Hn]; [done|]. exfalso. apply Hns. split; [done|by left].
  - exists r. split; [done|]. split; [by apply (si_terminal _ _ _ _ H y)|].
    intros Hf. apply Hns. split; [done|]. right. by exists r.
Qed.

Lemma stopped_downstream dag mc fl st x y :
  sinv dag mc fl st -> stopped st x -> upstream dag x y ->
  y ∈ rs_completed st /\ y ∉ rs_spawned st.
Proof.
  intros H Hx Hxy.
  assert (forall a b, stopped st a -> a ∈ deps dag b -> b ∈ rs_completed st /\ b ∉ rs_spawned st) as Hstep.
  { intros a b Ha Hab. assert (b ∈ names dag) as Hb.
    { destruct (decide (b ∈ names dag)) as [|Hn]; [done|].
      rewrite deps_outside in Hab by done. by apply elem_of_nil in Hab. }
    assert (b ∉ rs_spawned st) as Hbs.
    { intros Hbs. by apply (si_spawned_deps _ _ _ _ H b a). }
    split; [|done]. destruct (decide (b ∈ rs_completed st)) as [|Hbc]; [done|].
    exfalso. by apply (si_nostop _ _ _ _ H b a). }
  induction Hxy as [a b Hab|a b c Hab Hbc IH]; [by apply (Hstep a)|].
  destruct (Hstep a b Hx Hab). apply IH. split; [done|by left].
Qed.

(** What every reachable state knows about the steps that were started. *)
Definition started_ok dag (st : RunState) : Prop :=
  NoDup (rs_spawned st) /\
  forall x y, x ∈ rs_spawned st -> y ∈ deps dag x ->
    y ∈ rs_spawned st /\ exists r, rs_results st !! y = Some r /\
      terminal_status (sr_status r) = true /\ sr_status r ≠ StFailed.

Lemma sinv_started_ok dag mc fl st : sinv dag mc fl st -> started_ok dag st.
Proof.
  intros H. split; [apply H|]. intros x y Hx Hy.
  destruct (si_spawned_deps _ _ _ _ H x y Hx Hy). by eapply not_stopped_ran.
Qed.

Lemma recovered_started_ok dag mc fl st0 st :
  sinv dag mc fl st0 -> recovered dag st0 st -> started_ok dag st.
Proof.
  intros H R. destruct (sinv_started_ok _ _ _ _ H) as [Hnd Hd]. split; rewrite (rv_spawned _ _ _ R); [done|].
  intros x y Hx Hy. destruct (si_spawned_deps _ _ _ _ H x y Hx Hy) as [Hyc _].
  destruct (Hd x y Hx Hy) as [? ?]. rewrite (rv_old _ _ _ R) by done. done.
Qed.

Definition final_overall (s : StepStatus) : StepStatus :=
  match s with StRunning | StSuccess => StSuccess | _ => StFailed end.

Lemma finalize_fields dag on_update now st :
  let st' := finalize dag on_update now st in
  rs_spawned st' = rs_spawned st /\ rs_results st' = rs_results st /\ rs_tasks st' = rs_tasks st /\
  wr_steps (rs_result st') = omap (fun n => rs_results st !! n) (names dag) /\
  wr_overall_status (rs_result st') = final_overall (wr_overall_status (rs_result st)).
Proof.
  unfold finalize, notify. destruct on_update as [obs|]; simpl; [destruct (obs _ _); simpl|];
    repeat (split; [done|]); destruct (wr_overall_status (rs_result st)) eqn:E; simpl; by rewrite ?E.
Qed.

Lemma minv_started_ok dag mc timeout on_update m :
  minv dag mc timeout on_update m -> started_ok dag (m_st m).
Proof.
  assert (forall st, ended dag mc st \/ timed_out dag mc timeout st -> started_ok dag st) as Hexit.
  { intros st [[H _]|(_ & fl & st0 & H & R)]; [by eapply sinv_started_ok|by eapply recovered_started_ok]. }
  destruct m as [[] st]; simpl; intros Hm;
    [eapply sinv_started_ok, Hm|destruct Hm as [Hm _]; eapply sinv_started_ok, Hm..|by apply Hexit|].
  destruct Hm as (st0 & now & H0%Hexit & Hst). simpl in Hst. subst st.
  destruct (finalize_fields dag on_update now st0) as (E1 & E2 & _).
  unfold started_ok. by rewrite E1, E2.
Qed.

Lemma minv_tasks dag mc timeout on_update m :
  minv dag mc timeout on_update m -> size (rs_tasks (m_st m)) <= mc.
Proof.
  assert (forall fl st, sinv dag mc fl st -> size fl <= mc) as Hs.
  { intros fl st H. rewrite <- size_dom, (si_dom _ _ _ _ H). apply H. }
  assert (forall l t fl, fl = todo_map l ∪ t -> size fl <= mc -> size t <= mc) as Hu.
  { intros l t fl -> Hsz. etransitivity; [|exact Hsz]. rewrite <- !size_dom, dom_union_L.
    apply subseteq_size. set_solver. }
  assert (forall st, ended dag mc st \/ timed_out dag mc timeout st -> size (rs_tasks st) <= mc) as Hexit.
  { intros st [(_ & Ht & _)|(_ & fl & st0 & H & R)];
      [rewrite Ht|rewrite (rv_tasks _ _ _ R)]; rewrite map_size_empty; lia. }
  destruct m as [[] st]; simpl; intros Hm;
    [eapply Hs, Hm|destruct Hm as [Hm _]; eapply Hs, Hm
    |destruct Hm as [Hm _]; (eapply Hu; [done|eapply Hs, Hm])..|by apply Hexit|].
  destruct Hm as (st0 & now & H0%Hexit & Hst). simpl in Hst. subst st.
  by destruct (finalize_fields dag on_update now st0) as (_ & _ & -> & _).
Qed.

(** ** Claims *)

(** [execute] reaches [_run_dag] exactly when the concurrency limit is
    absent (10) or an integer of at least 1, booleans excluded, and the DAG
    validates; so every run starts under the hypotheses of the claims below. *)
Theorem execute_guard_correct dag raw mc :
  execute_guard dag raw = Ok mc <->
  validate dag = Ok tt /\ 0 < mc /\ (raw = None /\ mc = 10 \/ raw = Some (VInt (Z.of_nat mc))).
Proof.
  unfold execute_guard, check_concurrency. destruct (validate dag) as [[]|e].
  2: { split; [|by intros [[=] _]]. destruct raw as [v|]; [destruct v|]; try done. simpl. by case_match. }
  destruct raw as [v|]; simpl.
  2: { split; [intros [= <-]; repeat split; [lia|by left]|by intros (_ & _ & [[_ ->]|[=]])]. }
  destruct v as [| |n| | | | | |]; simpl; try (split; [done|by intros (_ & _ & [[[=] _]|[=]])]).
  destruct (Z.ltb_spec n 1); simpl; split.
  - done.
  - intros (_ & Hpos & [[[=] _]|[= ->]]). lia.
  - intros [= <-]. split; [done|]. split; [lia|]. right. do 2 f_equal. lia.
  - intros (_ & Hpos & [[[=] _]|[= ->]]). f_equal. lia.
Qed.

(** C3. The branch of [_scheduling_loop] that reports a scheduler
    deadlock is unreachable: in every reachable state with unfinished steps,
    scheduling does not raise and leaves at least one step task; and every
    reachable state that is not final has a next step. *)
Theorem deadlock_free dag mc timeout on_update m :
  wf_dag dag -> validate dag = Ok tt -> 0 < mc ->
  reachable dag mc timeout on_update m -> m_pc m ≠ Finished ->
  (exists m', mstep dag mc timeout on_update m m') /\
  (m_pc m = Scheduling -> size (rs_completed (m_st m)) < length (names dag) ->
   exists st', schedule_ready_steps mc (m_st m) = Ok st' /\ rs_tasks st' ≠ ∅).
Proof.
  intros Hwf Hv Hpos Hm%(reachable_minv dag mc timeout on_update Hwf _ Hv Hpos) Hpc. split.
  - destruct (drive1_progress dag mc timeout on_update Hwf Hv Hpos (fun _ => Raised "" "") 0%Z m Hm Hpc)
      as [m' Hm']. exists m'. by eapply drive1_sound.
  - destruct m as [pc st]. simpl. intros -> Hlt.
    destruct (schedule_ready_inv dag mc Hwf st Hm) as (st' & Hs & _). exists st'. split; [done|].
    by apply (no_deadlock dag mc Hwf st st').
Qed.

(** C31. Every interleaving of scheduler and step tasks takes at most
    [8 n + 5] steps on a DAG of [n] steps, and from every reachable state some
    continuation reaches the end of [_run_dag]. *)
Theorem run_terminates dag mc timeout on_update :
  wf_dag dag -> validate dag = Ok tt -> 0 < mc ->
  (forall k m0 m, initial dag on_update m0 -> nsteps (mstep dag mc timeout on_update) k m0 m ->
     k <= 8 * length (names dag) + 5) /\
  (forall m, reachable dag mc timeout on_update m ->
     exists m', rtc (mstep dag mc timeout on_update) m m' /\ m_pc m' = Finished).
Proof.
  intros Hwf Hv Hpos. split.
  - intros k m0 m H0 Hk. assert (minv dag mc timeout on_update m0) as Hm0.
    { apply (reachable_minv dag mc timeout on_update Hwf _ Hv Hpos). by exists m0. }
    destruct (nsteps_minv dag mc timeout on_update Hwf Hv Hpos k m0 m Hm0 Hk).
    pose proof (initial_measure dag mc on_update Hpos m0 H0). lia.
  - intros m Hm%(reachable_minv dag mc timeout on_update Hwf _ Hv Hpos).
    exists (drive dag mc on_update (1 + run_measure dag m) (fun _ => Raised "" "") 0%Z m).
    split; [by apply drive_sound|]. eapply drive_finishes; eauto.
Qed.

(** At no point are more than [max_concurrency] step tasks in
    flight; and while the scheduler waits, either all slots are taken or no
    step is ready (work conservation). *)
Theorem concurrency_bounded dag mc timeout on_update m :
  wf_dag dag -> validate dag = Ok tt -> 0 < mc -> reachable dag mc timeout on_update m ->
  size (rs_tasks (m_st m)) <= mc /\
  (m_pc m = Waiting -> rs_ready (m_st m) = [] \/ size (rs_running (m_st m)) = mc).
Proof.
  intros Hwf Hv Hpos Hm%(reachable_minv dag mc timeout on_update Hwf _ Hv Hpos).
  split; [by eapply minv_tasks|]. destruct m as [pc st]. simpl. intros ->. by destruct Hm as (_ & _ & ?).
Qed.

(** C2. No step is started twice, and a step is started only when
    every one of its dependencies was started itself and has a recorded
    terminal result that is not FAILED. *)
Theorem start_after_dependencies dag mc timeout on_update m :
  wf_dag dag -> validate dag = Ok tt -> 0 < mc -> reachable dag mc timeout on_update m ->
  NoDup (rs_spawned (m_st m)) /\
  forall x y, x ∈ rs_spawned (m_st m) -> y ∈ deps dag x ->
    y ∈ rs_spawned (m_st m) /\ exists r, rs_results (m_st m) !! y = Some r /\
      terminal_status (sr_status r) = true /\ sr_status r ≠ StFailed.
Proof.
  intros Hwf Hv Hpos Hm%(reachable_minv dag mc timeout on_update Hwf _ Hv Hpos).
  by eapply minv_started_ok.
Qed.

Lemma omap_total {A B} (f : A -> option B) (g : A -> B) (l : list A) :
  (forall x, x ∈ l -> f x = Some (g x)) -> omap f l = g <$> l.
Proof.
  induction l as [|x l IH]; csimpl; [done|]. intros H. rewrite (H x ltac:(left)). f_equal.
  apply IH. intros y Hy. apply H. by right.
Qed.

Definition dummy_result : StepResult := new_step_result "" StPending None 0.

(** Every unfinished step of a finished run is downstream of a failed one. *)
Lemma unspawned_upstream_failed dag mc st :
  wf_dag dag -> validate dag = Ok tt -> sinv dag mc ∅ st -> rs_completed st = list_to_set (names dag) ->
  forall x, x ∈ names dag ->
    x ∉ rs_spawned st <-> exists y, upstream dag y x /\ y ∈ rs_completed st /\ failed_result st y.
Proof.
  intros Hwf Hv H Hc. destruct (validate_ok dag Hwf Hv) as (Hcl & l & Hl).
  assert (forall y, y ∈ rs_completed st <-> y ∈ names dag) as Hcn.
  { intros y. by rewrite Hc, elem_of_list_to_set. }
  intros x Hx. split.
  - revert x Hx. enough (forall (k : nat) x, pos x l < k -> x ∈ names dag -> x ∉ rs_spawned st ->
      exists y, upstream dag y x /\ y ∈ rs_completed st /\ failed_result st y) by eauto.
    induction k as [|k IH]; intros x Hk Hx Hxs; [lia|].
    destruct (si_unspawned _ _ _ _ H x (proj2 (Hcn x) Hx) Hxs) as (_ & y & Hy & Hyc & [Hys|Hyf]).
    + destruct (IH y) as (z & Hz & Hzf); [|by apply Hcn|done|].
      { pose proof (topological_rank dag l Hwf Hl x y Hy). lia. }
      exists z. split; [|done]. by eapply tc_r.
    + exists y. split; [by apply tc_once|done].
  - intros (y & Hyx & Hyc & Hyf). eapply stopped_downstream; [done| |done]. split; [done|by right].
Qed.

(** C1. Without a workflow timeout, a finished run reports one terminal
    result per step, in registration order; a step was never started exactly
    when some upstream step FAILED, and then its result is SKIPPED; the workflow
    is FAILED when some step FAILED and SUCCESS otherwise. *)
Theorem run_outcome dag mc on_update st :
  wf_dag dag -> validate dag = Ok tt -> 0 < mc ->
  reachable dag mc None on_update (mkMachine Finished st) ->
  exists res : string -> StepResult,
    wr_steps (rs_result st) = res <$> names dag /\
    (forall x, x ∈ names dag ->
       terminal_status (sr_status (res x)) = true /\
       (x ∉ rs_spawned st <->
          exists y, y ∈ names dag /\ upstream dag y x /\ sr_status (res y) = StFailed) /\
       (x ∉ rs_spawned st -> sr_status (res x) = StSkipped)) /\
    wr_overall_status (rs_result st)
    = (if existsb (fun x => is_failed (res x)) (names dag) then StFailed else StSuccess).
Proof.
  intros Hwf Hv Hpos Hm%(reachable_minv dag mc None on_update Hwf _ Hv Hpos).
  destruct Hm as (st0 & now & [(H & _ & Hc)|[[? [=]] _]] & Hst). simpl in Hst. subst st.
  destruct (finalize_fields dag on_update now st0) as (-> & _ & _ & -> & ->).
  set (res := fun x => default dummy_result (rs_results st0 !! x)).
  assert (forall x, x ∈ names dag -> rs_results st0 !! x = Some (res x)) as Hres.
  { intros x Hx. unfold res. assert (is_Some (rs_results st0 !! x)) as [r ->]; [|done].
    apply (si_results _ _ _ _ H). rewrite Hc. by apply elem_of_list_to_set. }
  exists res. split; [by apply omap_total|]. split.
  - intros x Hx. split; [by apply (si_terminal _ _ _ _ H x), Hres|]. split.
    + rewrite (unspawned_upstream_failed dag mc st0 Hwf Hv H Hc x Hx). unfold failed_result.
      setoid_rewrite Hc. setoid_rewrite elem_of_list_to_set. split.
      * intros (y & Hyx & Hy & r & Hr & Hf). exists y. split; [done|]. split; [done|].
        rewrite (Hres y Hy) in Hr. by injection Hr as ->.
      * intros (y & Hy & Hyx & Hf). exists y. split; [done|]. split; [done|]. exists (res y). auto.
    + intros Hxs. destruct (si_unspawned _ _ _ _ H x) as ((r & Hr & Hs) & _); [|done|].
      * rewrite Hc. by apply elem_of_list_to_set.
      * rewrite (Hres x Hx) in Hr. by injection Hr as <-.
  - rewrite (si_overall _ _ _ _ H). destruct (existsb _ _) eqn:E.
    + apply existsb_exists in E as (x & Hx%list_elem_of_In & Hf).
      rewrite decide_False; [done|]. intros Hall. apply (Hall x (res x)); [by apply Hres|].
      unfold is_failed in Hf. by apply bool_decide_eq_true in Hf.
    + rewrite decide_True; [done|]. intros x r Hr Hf.
      assert (x ∈ names dag) as Hx.
      { rewrite <- (elem_of_list_to_set (C := gset string)), <- Hc. apply (si_results _ _ _ _ H). eauto. }
      apply not_true_iff_false in E. apply E. apply existsb_exists. exists x.
      split; [by apply list_elem_of_In|]. unfold is_failed. apply bool_decide_eq_true.
      rewrite (Hres x Hx) in Hr. by injection Hr as ->.
Qed.

(** C4. A workflow timeout that strikes at any suspension point ends the
    run with no task left, a FAILED workflow flagged [timeout_exceeded] and one
    result per step: a recorded result is kept as it was, a step in flight is
    FAILED with a [TimeoutError], every other step is SKIPPED. *)
Theorem timeout_recovery dag mc timeout on_update pc st running remaining seconds msg now now2 ctx vars :
  wf_dag dag -> validate dag = Ok tt -> 0 < mc ->
  reachable dag mc timeout on_update (mkMachine pc st) -> suspended pc = true ->
  running ≡ₚ elements (rs_running st) ->
  remaining ≡ₚ elements (list_to_set (names dag)
     ∖ rs_completed (timeout_fail_running dag running msg now ctx vars st)
     ∖ rs_skipped (timeout_fail_running dag running msg now ctx vars st)) ->
  let st' := handle_timeout dag running remaining seconds msg now ctx vars st in
  let w := rs_result (finalize dag on_update now2 st') in
  rs_tasks st' = ∅ /\ wr_overall_status w = StFailed /\
  od_get "timeout_exceeded" (wr_metadata (rs_result st')) = Some (VBool true) /\
  exists res : string -> StepResult, wr_steps w = res <$> names dag /\
    forall x, x ∈ names dag ->
      if decide (x ∈ rs_completed st) then rs_results st !! x = Some (res x)
      else if decide (x ∈ rs_running st)
      then sr_status (res x) = StFailed /\ sr_error_type (res x) = Some "TimeoutError"
      else sr_status (res x) = StSkipped.
Proof.
  intros Hwf Hv Hpos Hm%(reachable_minv dag mc timeout on_update Hwf _ Hv Hpos) Hsus Hrun Hrem st' w.
  assert (exists fl, sinv dag mc fl st) as [fl H] by (destruct pc; try done; destruct Hm as [H _]; eauto).
  pose proof (handle_timeout_recovered dag mc Hwf fl st running remaining seconds msg now ctx vars H Hrun Hrem)
    as R. fold st' in R. unfold w. clearbody st'.
  destruct (finalize_fields dag on_update now2 st') as (_ & _ & _ & -> & ->).
  split; [apply R|]. rewrite (rv_overall _ _ _ R). split; [done|]. split; [apply R|].
  set (res := fun x => default dummy_result (rs_results st' !! x)). exists res.
  assert (forall x, x ∈ names dag -> rs_results st' !! x = Some (res x) /\
    if decide (x ∈ rs_completed st) then rs_results st !! x = Some (res x)
    else if decide (x ∈ rs_running st)
    then sr_status (res x) = StFailed /\ sr_error_type (res x) = Some "TimeoutError"
    else sr_status (res x) = StSkipped) as Hres.
  { intros x Hx. unfold res. case_decide as Hc; [|case_decide as Hr].
    - rewrite (rv_old _ _ _ R) by done. destruct (proj2 (si_results _ _ _ _ H x) Hc) as [r ->]. done.
    - destruct (rv_failed _ _ _ R x Hr) as (m & t & ->). done.
    - destruct (rv_skipped _ _ _ R x Hx Hc Hr) as (t & ->). done. }
  split; [apply omap_total|]; intros x Hx; by apply Hres.
Qed.

(** Handling a finished task never raises.  It records for the step
    the executor's own result when that is terminal and a FAILED one otherwise;
    after a failure every step downstream is SKIPPED and was never started;
    otherwise exactly the dependents whose last unfinished dependency it was
    become ready. *)
Theorem process_done_correct dag mc timeout on_update x o todo st now :
  wf_dag dag -> validate dag = Ok tt -> 0 < mc ->
  reachable dag mc timeout on_update (mkMachine (Processing ((x, o) :: todo)) st) ->
  exists st' r mark, process_done_task dag x o now st = Ok (st', r, mark) /\
    rs_results st' !! x = Some r /\ (x ∉ rs_running st') /\
    match o with
    | Returned raw => if terminal_status (sr_status raw) then r = raw else sr_status r = StFailed
    | Raised error error_type =>
        sr_status r = StFailed /\ sr_error r = Some error /\ sr_error_type r = Some error_type
    end /\
    (sr_status r = StFailed -> forall y, upstream dag x y ->
       (y ∉ rs_spawned st') /\ exists s, rs_results st' !! y = Some s /\ sr_status s = StSkipped) /\
    (sr_status r ≠ StFailed -> exists new, rs_ready st' = rs_ready st ++ new /\ NoDup new /\
       forall y, y ∈ new <-> x ∈ deps dag y /\ (y ∉ rs_completed st') /\
                            forall z, z ∈ deps dag y -> z ∈ rs_completed st').
Proof.
  intros Hwf Hv Hpos Hm%(reachable_minv dag mc timeout on_update Hwf _ Hv Hpos).
  destruct Hm as (H & Hnd & Hno). unfold in_flight in H. simpl in *.
  destruct (process_inv dag mc Hwf _ x o now st H) as (st' & r & mark & Hp & H' & _ & T & new & C).
  { by rewrite todo_map_cons, <- insert_union_l, lookup_insert_eq. }
  assert (x ∈ rs_running st) as Hx.
  { rewrite <- (si_dom _ _ _ _ H), todo_map_cons, <- insert_union_l. set_solver +. }
  exists st', r, mark. split; [done|]. destruct (cp_result _ _ _ _ _ _ _ C) as (Hr & _ & _).
  split; [done|]. split; [rewrite (cp_running _ _ _ _ _ _ _ C); set_solver +|]. split; [|split].
  - clear -Hp. destruct o as [raw|e t]; cbn [process_done_task] in Hp.
    + apply res_bind_ok in Hp as (st1 & _ & Hp). apply res_bind_ok in Hp as (st2 & _ & Hp).
      injection Hp as _ <- _. unfold fail_nonterminal.
      by destruct (terminal_status (sr_status raw)).
    + by injection Hp as _ <- _.
  - intros Hf y Hxy. destruct (stopped_downstream dag mc _ st' x y H') as [Hyc Hys]; [|done|].
    + eapply (completion_stopped_x dag mc); [done|exact H|exact Hx|exact C|done].
    + split; [done|]. by apply (si_unspawned _ _ _ _ H' y).
  - intros Hf. exists new. split; [apply C|]. split; [apply C|].
    intros y. rewrite (cp_new _ _ _ _ _ _ _ C). split; [tauto|].
    intros (Hxy & Hyc & Hall). split; [|done].
    by apply (dependents_names dag x), elem_of_dependents.
Qed.
End thms.

(** ** A concrete run: the diamond with a failing [b] and two slots *)

Definition demo_oracle (x : string) : Outcome :=
  Returned (new_step_result x (if decide (x = "b") then StFailed else StSuccess) None 0).
Definition demo (n : nat) : Machine :=
  drive diamond 2 None n demo_oracle 0
    (mkMachine Scheduling (init_run diamond None "run" 0 fresh_tracking [])).

Lemma demo_reachable timeout n : reachable diamond 2 timeout None (demo n).
Proof.
  exists (mkMachine Scheduling (init_run diamond None "run" 0 fresh_tracking [])).
  split; [by exists "run", 0%Z, fresh_tracking, []|]. apply drive_sound.
Qed.

Lemma machine_eta m pc : m_pc m = pc -> mkMachine pc (m_st m) = m.
Proof. destruct m. by intros <-. Qed.

Lemma diamond_valid : validate diamond = Ok tt.
Proof. vm_compute. reflexivity. Qed.

Example demo_statuses :
  (fun r => (sr_step_name r, sr_status r)) <$> wr_steps (rs_result (m_st (demo 60)))
  = [("d", StSkipped); ("b", StFailed); ("c", StSuccess); ("a", StSuccess)].
Proof. vm_compute. reflexivity. Qed.
Example demo_spawned : rs_spawned (m_st (demo 60)) = ["a"; "b"; "c"].
Proof. vm_compute. reflexivity. Qed.

Lemma deadlock_free_witness :
  exists st', schedule_ready_steps 2 (m_st (demo 0)) = Ok st' /\ rs_tasks st' ≠ ∅.
Proof.
  apply (deadlock_free diamond 2 None None (demo 0)).
  - exact diamond_wf.
  - exact diamond_valid.
  - lia.
  - apply demo_reachable.
  - discriminate.
  - reflexivity.
  - vm_compute. lia.
Defined.

Lemma run_terminates_witness :
  exists m', rtc (mstep diamond 2 None None) (demo 3) m' /\ m_pc m' = Finished.
Proof.
  apply (run_terminates diamond 2 None None).
  - exact diamond_wf.
  - exact diamond_valid.
  - lia.
  - apply demo_reachable.
Defined.

Lemma concurrency_bounded_witness : size (rs_tasks (m_st (demo 12))) <= 2.
Proof.
  apply (concurrency_bounded diamond 2 None None (demo 12)).
  - exact diamond_wf.
  - exact diamond_valid.
  - lia.
  - apply demo_reachable.
Defined.

Lemma start_after_dependencies_witness :
  "a" ∈ rs_spawned (m_st (demo 60)) /\ exists r, rs_results (m_st (demo 60)) !! "a" = Some r /\
    terminal_status (sr_status r) = true /\ sr_status r ≠ StFailed.
Proof.
  apply (start_after_dependencies diamond 2 None None (demo 60)) with (x := "c").
  - exact diamond_wf.
  - exact diamond_valid.
  - lia.
  - apply demo_reachable.
  - apply (bool_decide_unpack _). vm_compute. exact I.
  - apply (bool_decide_unpack _). vm_compute. exact I.
Defined.

Lemma run_outcome_witness :
  exists res : string -> StepResult,
    wr_steps (rs_result (m_st (demo 60))) = res <$> names diamond.
Proof.
  destruct (run_outcome diamond 2 None (m_st (demo 60))) as (res & Hres & _).
  - exact diamond_wf.
  - exact diamond_valid.
  - lia.
  - rewrite machine_eta; [apply demo_reachable | vm_compute; reflexivity].
  - exists res. exact Hres.
Defined.

Lemma timeout_recovery_witness :
  rs_tasks (handle_timeout diamond ["a"] [] "0.5" "late" 7 fresh_tracking []
              (m_st (demo 2))) = ∅.
Proof.
  apply (timeout_recovery diamond 2 (Some "0.5") None Waiting (m_st (demo 2)) ["a"] []
           "0.5" "late" 7 8 fresh_tracking []).
  - exact diamond_wf.
  - exact diamond_valid.
  - lia.
  - rewrite machine_eta; [apply demo_reachable | vm_compute; reflexivity].
  - reflexivity.
  - vm_compute. reflexivity.
  - apply (bool_decide_unpack _). vm_compute. exact I.
Defined.

Lemma process_done_correct_witness :
  exists todo o, m_pc (demo 4) = Processing (("a", o) :: todo) /\
  exists st' r mark, process_done_task diamond "a" o 0 (m_st (demo 4)) = Ok (st', r, mark).
Proof.
  exists [], (demo_oracle "a"). split; [vm_compute; reflexivity|].
  destruct (process_done_correct diamond 2 None None "a" (demo_oracle "a") [] (m_st (demo 4)) 0)
    as (st' & r & mark & Hp & _).
  - exact diamond_wf.
  - exact diamond_valid.
  - lia.
  - rewrite machine_eta; [apply demo_reachable | vm_compute; reflexivity].
  - exists st', r, mark. exact Hp.
Defined.
