(* ===== verification/Context.v ===== *)
(** * Execution contexts (engine/context.py)

    Contexts are shared mutable objects linked to their parent, so the model
    keeps them in a store indexed by location and every method is a function on
    the store.  A context's scope chain is itself, its parent, and so on; a
    child is allocated after its parent, so locations decrease along it.

    Values are not mutated in place by this module (the nested [steps]
    dictionary is copied before it changes), so they are plain [pyval]s.
    [jmespath.search] is a parameter: [jmes query vars] is its result, [None]
    when it finds nothing or raises [JMESPathError].  Event handlers cannot
    affect a method ([_emit] swallows their exceptions), so they are left out. *)

From S2P Require Import Prelude PyStr PyVal Tracking.

Abbreviation loc := nat.

Record Ctx := mkCtx {
  cx_workflow_id : string;
  cx_run_id : string;
  cx_variables : odict pyval;
  cx_masked : gset string;
  cx_parent : option loc;
  cx_metadata : odict pyval;
  cx_tracking : Tracking;
}.

Abbreviation store := (gmap loc Ctx).

Definition set_variables (v : odict pyval) (c : Ctx) : Ctx :=
  mkCtx (cx_workflow_id c) (cx_run_id c) v (cx_masked c) (cx_parent c) (cx_metadata c) (cx_tracking c).
Definition set_masked (m : gset string) (c : Ctx) : Ctx :=
  mkCtx (cx_workflow_id c) (cx_run_id c) (cx_variables c) m (cx_parent c) (cx_metadata c) (cx_tracking c).
Definition set_ids (wid rid : string) (c : Ctx) : Ctx :=
  mkCtx wid rid (cx_variables c) (cx_masked c) (cx_parent c) (cx_metadata c) (cx_tracking c).
Definition set_metadata (m : odict pyval) (c : Ctx) : Ctx :=
  mkCtx (cx_workflow_id c) (cx_run_id c) (cx_variables c) (cx_masked c) (cx_parent c) m (cx_tracking c).
Definition set_tracking (t : Tracking) (c : Ctx) : Ctx :=
  mkCtx (cx_workflow_id c) (cx_run_id c) (cx_variables c) (cx_masked c) (cx_parent c) (cx_metadata c) t.

(** ** Scope chain *)

Fixpoint scope_chain (fuel : nat) (s : store) (l : loc) : list (loc * Ctx) :=
  match fuel, s !! l with
  | S n, Some c => (l, c) :: match cx_parent c with Some p => scope_chain n s p | None => [] end
  | _, _ => []
  end.

(** The chain of [l]; parents have smaller locations, so [1 + l] is enough. *)
Definition scopes (s : store) (l : loc) : list (loc * Ctx) := scope_chain (1 + l) s l.

Definition store_wf (s : store) : Prop :=
  forall l c p, s !! l = Some c -> cx_parent c = Some p -> p < l /\ is_Some (s !! p).

(** ** Reading *)

Definition is_path (key : string) : bool := has_char "."%char key || has_char "["%char key.

(** [key.split(".", 1)[0].split("[", 1)[0]] *)
Definition mask_root (key : string) : string := before_char "["%char (before_char "."%char key).

Section reading.
Context (jmes : string -> odict pyval -> option pyval).

Fixpoint get_in (cs : list (loc * Ctx)) (key : string) : option pyval :=
  match cs with
  | [] => None
  | (_, c) :: parents =>
      let local := if is_path key then jmes key (cx_variables c) else od_get key (cx_variables c) in
      match local with
      | Some v => Some v
      | None => if decide (mask_root key ∈ cx_masked c) then None else get_in parents key
      end
  end.

(** [get_sync]; [get] is the same function, a lock held per scope. *)
Definition get_sync (s : store) (l : loc) (key : string) (dflt : pyval) : pyval :=
  default dflt (get_in (scopes s l) key).
End reading.

Fixpoint has_in (cs : list (loc * Ctx)) (key : string) : bool :=
  match cs with
  | [] => false
  | (_, c) :: parents =>
      if od_mem key (cx_variables c) then true
      else if decide (key ∈ cx_masked c) then false else has_in parents key
  end.
Definition has (s : store) (l : loc) (key : string) : bool := has_in (scopes s l) key.

Definition pop_all (keys : gset string) (d : odict pyval) : odict pyval :=
  filter (fun kv => kv.1 ∉ keys) d.

(** The root of the chain has no parent: its mask is not consulted. *)
Fixpoint all_variables_in (cs : list (loc * Ctx)) : odict pyval :=
  match cs with
  | [] => []
  | [(_, c)] => cx_variables c
  | (_, c) :: parents => od_update (pop_all (cx_masked c) (all_variables_in parents)) (cx_variables c)
  end.
Definition all_variables (s : store) (l : loc) : odict pyval := all_variables_in (scopes s l).

(** ** Writing *)

Definition PROTECTED_VARIABLE_KEYS : list string :=
  ["workflow_id"; "run_id"; "current_step"; "completed_steps"; "failed_steps"; "metadata";
   "services"; "start_time"; "checkpoint_dir"].

Definition validate_variable_key (key : pyval) (allow_protected : bool) : res string :=
  match key with
  | VStr k =>
      if decide (strip k = "") then Raise (ValueError "Context variable names cannot be empty")
      else if has_char "."%char k || has_char "["%char k || has_char "]"%char k
      then Raise (ValueError "Context variable writes do not accept JMESPath/path expressions")
      else if negb allow_protected && bool_decide (k ∈ PROTECTED_VARIABLE_KEYS)
      then Raise (ValueError "Context variable is protected; use an internal write helper")
      else Ok k
  | _ => Raise (TypeError "Context variable names must be strings")
  end.

Arguments validate_variable_key : simpl never.

(** A method of the context at [l]. *)
Definition on_ctx (f : Ctx -> Ctx) (s : store) (l : loc) : store := alter f l s.

Definition ctx_set (s : store) (l : loc) (key : pyval) (value : pyval) : res store :=
  validate_variable_key key false ≫= fun k =>
  Ok (on_ctx (fun c => set_masked (cx_masked c ∖ {[k]})
                         (set_variables (od_set k value (cx_variables c)) c)) s l).

(** The mask is left alone: a local value is found before it is consulted. *)
Definition set_internal (s : store) (l : loc) (key : pyval) (value : pyval) : res store :=
  validate_variable_key key true ≫= fun k =>
  Ok (on_ctx (fun c => set_variables (od_set k value (cx_variables c)) c) s l).

Fixpoint validate_keys (kwargs : odict pyval) : res unit :=
  match kwargs with
  | [] => Ok tt
  | (k, _) :: kwargs' => validate_variable_key (VStr k) false ≫= fun _ => validate_keys kwargs'
  end.

Definition update (s : store) (l : loc) (kwargs : odict pyval) : res store :=
  validate_keys kwargs ≫= fun _ =>
  Ok (on_ctx (fun c => set_variables (od_update (cx_variables c) kwargs) c) s l).

Definition ctx_delete (s : store) (l : loc) (key : string) : store * bool :=
  match s !! l with
  | Some c =>
      if od_mem key (cx_variables c)
      then (on_ctx (fun c => set_variables (od_pop key (cx_variables c)) c) s l, true)
      else (s, false)
  | None => (s, false)
  end.

Definition mask_inherited (s : store) (l : loc) (key : string) : store :=
  on_ctx (fun c => set_masked ({[key]} ∪ cx_masked c)
                     (set_variables (od_pop key (cx_variables c)) c)) s l.

Definition as_dict (v : pyval) : option (odict pyval) :=
  match v with VDict d => Some d | _ => None end.

Definition merge_step_view (jmes : string -> odict pyval -> option pyval) (s : store) (l : loc)
    (step_name : string) (step_view : pyval) : store :=
  let inherited := get_sync jmes s l "steps" VNone in
  on_ctx (fun c =>
    let base := match od_get "steps" (cx_variables c) ≫= as_dict with
                | Some d => Some d | None => as_dict inherited end in
    set_variables (od_set "steps" (VDict (od_set step_name step_view (default [] base)))
                          (cx_variables c)) c) s l.

(** ** Children and forks *)

(** [child]: allocated at the fresh location [l'] the interpreter picks. *)
Definition child (s : store) (l l' : loc) (step_name : option string) : store :=
  match s !! l with
  | Some c =>
      let t := match step_name with
               | Some (String _ _) => mkTracking step_name [] []
               | _ => fresh_tracking end in
      <[l' := mkCtx (cx_workflow_id c) (cx_run_id c) [] ∅ (Some l) (cx_metadata c) t]> s
  | None => s
  end.

Definition fork_session (s : store) (l l' : loc) (name : pyval) (uuid : string) : res store :=
  match name, s !! l with
  | VStr n, Some c =>
      if decide (strip n = "") then Raise (ValueError "fork_session requires a non-empty name")
      else
        let s' := child s l l' (current_step (cx_tracking c)) in
        Ok (on_ctx (fun f =>
              set_metadata (od_set "forked_from_run" (VStr (cx_run_id c))
                             (od_set "fork_name" (VStr n) (cx_metadata c)))
                (set_ids (cx_workflow_id f) uuid f)) s' l')
  | VStr _, None => Raise (KeyError "self")
  | _, _ => Raise (ValueError "fork_session requires a non-empty name")
  end.
