(* ===== verification/Checkpoint.v ===== *)
(** * Checkpoints (engine/context.py, "Checkpointing")

    What [save_checkpoint] writes and [restore_checkpoint] does with what it
    reads back.  A restore that raises may already have changed the context, so
    it returns the context it leaves together with the outcome.  The file and
    the event are I/O; file contents enter through a digest function. *)

From stdpp Require Import sorting.
From S2P Require Import Prelude PyStr PyVal Tracking Context.

(** ** Serialization *)

(** [_serialize_variables.serialize]; [datetime.isoformat] is [str] with a [T]
    for the blank.  It loses types, and nothing undoes it: a restored variable is its
    serialization. *)
Fixpoint serialize (obj : pyval) : pyval :=
  match obj with
  | VList l | VTuple l => VList (map serialize l)
  | VDict d => VDict (map (fun kv => match kv with (k, v) => (k, serialize v) end) d)
  | VObj t s =>
      if decide (t = "datetime")
      then VDict [("__type__", VStr "datetime"); ("value", VStr (replace_all " "%char "T"%char s))]
      else if decide (t = "Path") then VDict [("__type__", VStr "path"); ("value", VStr s)]
      else VStr s
  | v => v
  end.

Definition serialize_variables (c : Ctx) : odict pyval :=
  (fun kv => (kv.1, serialize kv.2)) <$> cx_variables c.

(** [json.loads(json.dumps(v, default=str))]: tuples become lists, other
    objects their [str]. *)
Fixpoint json_roundtrip (v : pyval) : pyval :=
  match v with
  | VList l | VTuple l => VList (map json_roundtrip l)
  | VDict d => VDict (map (fun kv => match kv with (k, v) => (k, json_roundtrip v) end) d)
  | VObj _ s => VStr s
  | v => v
  end.

Definition checkpoint_data (c : Ctx) (fingerprints : odict pyval) (timestamp : string) : pyval :=
  VDict [("workflow_id", VStr (cx_workflow_id c)); ("run_id", VStr (cx_run_id c));
         ("variables", VDict (serialize_variables c));
         ("completed_steps", VList (VStr <$> completed_steps (cx_tracking c)));
         ("failed_steps", VList (VStr <$> failed_steps (cx_tracking c)));
         ("metadata", VDict (cx_metadata c)); ("file_fingerprints", VDict fingerprints);
         ("timestamp", VStr timestamp)].

(** What a later [json.loads(checkpoint_path.read_text())] returns. *)
Definition save_checkpoint (c : Ctx) (fingerprints : odict pyval) (timestamp : string) : pyval :=
  json_roundtrip (checkpoint_data c fingerprints timestamp).

(** ** Validation *)

Definition is_running_context (c : Ctx) : bool :=
  let t := cx_tracking c in
  negb (bool_decide (completed_steps t = [])) || negb (bool_decide (failed_steps t = []))
  || match current_step t with Some (String _ _) => true | _ => false end.

Definition validate_checkpoint_identity (c : Ctx) (field_name : string) (candidate : pyval)
    (current : string) : res string :=
  match candidate with
  | VNone => Ok current
  | VStr s =>
      if is_running_context c && bool_decide (s ≠ current)
      then Raise (ValueError ("Checkpoint " +:+ field_name +:+ " does not match the running context"))
      else Ok s
  | _ => Raise (ValueError ("Invalid checkpoint " +:+ field_name +:+ ": expected str"))
  end.

Fixpoint all_strings (l : list pyval) : res (list string) :=
  match l with
  | [] => Ok []
  | VStr s :: l' => all_strings l' ≫= fun r => Ok (s :: r)
  | _ :: _ => Raise (ValueError "Invalid checkpoint completed_steps: expected str entries")
  end.

Definition validate_checkpoint_completed_steps (steps : pyval) : res (list string) :=
  match steps with
  | VList l => all_strings l
  | _ => Raise (ValueError "Invalid checkpoint completed_steps: expected a list")
  end.

Definition validate_checkpoint_variables (variables : pyval) : res (odict pyval) :=
  match variables with
  | VDict d =>
      match validate_keys d with
      | Ok _ => Ok d
      | Raise _ => Raise (ValueError "Invalid checkpoint variable key")
      end
  | _ => Raise (ValueError "Invalid checkpoint variables: expected a mapping")
  end.

(** ** Restore *)

(** The pairs [dict.update] takes from a sequence before it fails, if it does:
    each element has two items, the first one the key.  Dictionaries have string
    keys in the model, so an entry with a number, boolean or null as its key is
    not represented. *)
Definition pair_of (x : pyval) : res (odict pyval) :=
  match x with
  | VList [VStr k; v] => Ok [(k, v)]
  | VList [VList _; _] | VList [VDict _; _] => Raise (TypeError "unhashable type")
  | VList [_; _] => Ok []
  | VStr (String a (String b EmptyString)) =>
      Ok [(String a EmptyString, VStr (String b EmptyString))]
  | VDict [(k1, _); (k2, _)] => Ok [(k1, VStr k2)]
  | VList _ | VStr _ | VDict _ =>
      Raise (ValueError "dictionary update sequence element has the wrong length")
  | _ => Raise (TypeError "cannot convert dictionary update sequence element to a sequence")
  end.
Fixpoint pairs_of (l : list pyval) : odict pyval * res unit :=
  match l with
  | [] => ([], Ok tt)
  | x :: l' =>
      match pair_of x with
      | Ok p => let '(d, r) := pairs_of l' in (p ++ d, r)
      | Raise e => ([], Raise e)
      end
  end.

(** [metadata.update(x)] for a JSON value [x] (a string is a sequence of
    one-character strings). *)
Definition metadata_update (m : odict pyval) (x : pyval) : odict pyval * res unit :=
  match x with
  | VDict d => (od_update m d, Ok tt)
  | VStr EmptyString => (m, Ok tt)
  | VStr _ => (m, Raise (ValueError "dictionary update sequence element has the wrong length"))
  | VList l => let '(d, r) := pairs_of l in (od_update m d, r)
  | _ => (m, Raise (TypeError "object is not iterable"))
  end.

(** [failed_steps] is assigned the value read, whatever its type.  The record's
    field follows it when it is a list of strings; [restore_checkpoint] also
    returns the value itself. *)
Definition strings_of (v : pyval) : option (list string) :=
  match v with
  | VList l => match all_strings l with Ok r => Some r | Raise _ => None end
  | _ => None
  end.

Definition get_field (d : odict pyval) (k : string) (dflt : pyval) : pyval := default dflt (od_get k d).

(** Everything checked before the first assignment. *)
Definition restore_checks (c : Ctx) (data : pyval) : res (odict pyval * odict pyval * string * string * list string) :=
  match data with
  | VDict d =>
      validate_checkpoint_variables (get_field d "variables" (VDict [])) ≫= fun variables =>
      validate_checkpoint_identity c "workflow_id" (get_field d "workflow_id" VNone) (cx_workflow_id c) ≫= fun wid =>
      validate_checkpoint_identity c "run_id" (get_field d "run_id" VNone) (cx_run_id c) ≫= fun rid =>
      validate_checkpoint_completed_steps (get_field d "completed_steps" (VList [])) ≫= fun steps =>
      Ok (d, variables, wid, rid, steps)
  | _ => Raise (ValueError "Invalid checkpoint: expected a JSON object")
  end.

(** The context afterwards, the value [self.failed_steps] holds, the outcome. *)
Definition restore_checkpoint (c : Ctx) (data : pyval) : Ctx * pyval * res unit :=
  match restore_checks c data with
  | Raise e => (c, VList (VStr <$> failed_steps (cx_tracking c)), Raise e)
  | Ok (d, variables, wid, rid, steps) =>
      let failed := get_field d "failed_steps" (VList []) in
      let t := mkTracking (current_step (cx_tracking c)) steps (default [] (strings_of failed)) in
      let '(m, r) := metadata_update (cx_metadata c) (get_field d "metadata" (VDict [])) in
      (set_metadata m (set_tracking t (set_ids wid rid (set_variables variables c))), failed, r)
  end.

(** ** Changed files *)

(** [_fingerprint_files]: [digest path] is the file's sha256, [None] if it
    cannot be read. *)
Definition fingerprint_files (digest : string -> option string) (paths : list string) : odict string :=
  foldl (fun d p => od_set p (default "__missing__" (digest p)) d) [] paths.

Definition str_le (a b : string) : Prop := String.leb a b = true.
#[export] Instance str_le_dec a b : Decision (str_le a b).
Proof. unfold str_le. apply _. Defined.

Definition detect_changed_files (digest : string -> option string) (recorded : odict string) : list string :=
  let current := fingerprint_files digest (od_keys recorded) in
  merge_sort str_le
    (filter (fun p => od_get p current ≠ od_get p recorded) (od_keys recorded)).

(** ** Correctness of checkpoints

    Round trip of save and restore; what a restore can and cannot change; the
    exact set of changed files. *)

(** ** Lemmas *)

(** Serialized values survive JSON unchanged. *)
Lemma json_serialize v : json_roundtrip (serialize v) = serialize v.
Proof.
  induction v using pyval_nested_ind; simpl; try done.
  - f_equal. rewrite map_map. induction H as [|x l Hx _ IH]; simpl; [done|]. by rewrite Hx, IH.
  - f_equal. rewrite map_map. induction H as [|x l Hx _ IH]; simpl; [done|]. by rewrite Hx, IH.
  - f_equal. rewrite map_map. induction H as [|[k x] l Hx _ IH]; simpl in *; [done|]. by rewrite Hx, IH.
  - case_decide; [done|]. by case_decide.
Qed.

(** The values that serialization keeps: no tuple and no object inside. *)
Fixpoint lossless (v : pyval) : bool :=
  match v with
  | VTuple _ | VObj _ _ => false
  | VList l => forallb lossless l
  | VDict d => forallb (fun kv => match kv with (_, v) => lossless v end) d
  | _ => true
  end.

Lemma serialize_lossless v : lossless v = true -> serialize v = v.
Proof.
  induction v using pyval_nested_ind; simpl; try done.
  - intros Hl. f_equal. induction H as [|x l Hx _ IH]; simpl in *; [done|]. apply andb_true_iff in Hl as [? ?]. by rewrite Hx, IH.
  - intros Hl. f_equal. induction H as [|[k x] l Hx _ IH]; simpl in *; [done|]. apply andb_true_iff in Hl as [? ?]. by rewrite Hx, IH.
Qed.

Lemma serialized_get k c : od_get k (serialize_variables c) = serialize <$> od_get k (cx_variables c).
Proof. unfold serialize_variables. induction (cx_variables c) as [|[k' v] d IH]; csimpl; [done|]. by case_decide. Qed.

Lemma json_variables (d : odict pyval) :
  map (fun kv => match kv with (k, v) => (k, json_roundtrip v) end) ((fun kv => (kv.1, serialize kv.2)) <$> d)
  = (fun kv => (kv.1, serialize kv.2)) <$> d.
Proof. induction d as [|[k v] d IH]; csimpl; [done|]. by rewrite json_serialize, IH. Qed.

Definition json_dict (d : odict pyval) : odict pyval :=
  map (fun kv => match kv with (k, v) => (k, json_roundtrip v) end) d.

Lemma json_strings l : map json_roundtrip (VStr <$> l) = VStr <$> l.
Proof. induction l as [|x l IH]; csimpl; [done|]. by rewrite IH. Qed.

Lemma all_strings_strs l : all_strings (VStr <$> l) = Ok l.
Proof. induction l as [|x l IH]; csimpl; [done|]. by rewrite IH. Qed.

(** The names [set] and [update] accept. *)
Definition public_key (k : string) : Prop := validate_variable_key (VStr k) false = Ok k.

Lemma validate_keys_ok d : validate_keys d = Ok tt <-> forall k, k ∈ od_keys d -> public_key k.
Proof.
  unfold public_key, od_keys. induction d as [|[k v] d IH]; cbn [validate_keys].
  { split; [by intros _ k ?%elem_of_nil|done]. }
  csimpl. destruct (validate_variable_key (VStr k) false) as [k0|e] eqn:E.
  - simpl. rewrite IH. split.
    + intros H k' [->|Hk']%elem_of_cons; [|auto]. rewrite E. f_equal.
      unfold validate_variable_key in E. by repeat case_match; simplify_eq.
    + intros H k' Hk'. apply H. by right.
  - split; [done|]. intros H. specialize (H k ltac:(left)). congruence.
Qed.

Lemma od_keys_fmap {V W} (f : V -> W) (d : odict V) :
  od_keys ((fun kv => (kv.1, f kv.2)) <$> d) = od_keys d.
Proof. unfold od_keys. induction d as [|kv d IH]; csimpl; [done|]. by rewrite IH. Qed.

(** The checks on a dictionary checkpoint, field by field. *)
Lemma restore_checks_ids c data d vars wid rid steps :
  restore_checks c data = Ok (d, vars, wid, rid, steps) ->
  data = VDict d /\ (forall k, k ∈ od_keys vars -> public_key k) /\
  (is_running_context c = true -> wid = cx_workflow_id c /\ rid = cx_run_id c).
Proof.
  intros H. unfold restore_checks in H. destruct data as [| | | | | | |d0|]; try done.
  apply res_bind_ok in H as (vars0 & Hv & H). apply res_bind_ok in H as (wid0 & Hw & H).
  apply res_bind_ok in H as (rid0 & Hr & H). apply res_bind_ok in H as (steps0 & _ & H).
  injection H as -> -> -> -> ->. split; [done|]. split.
  - apply validate_keys_ok. unfold validate_checkpoint_variables in Hv.
    destruct (get_field d "variables" (VDict [])) as [| | | | | | |dv|]; try done.
    destruct (validate_keys dv) as [[]|] eqn:E; [|done]. by injection Hv as <-.
  - assert (forall f v cur x, is_running_context c = true ->
      validate_checkpoint_identity c f v cur = Ok x -> x = cur) as Hid.
    { intros f v cur x Hrun Hx. unfold validate_checkpoint_identity in Hx. rewrite Hrun in Hx.
      destruct v; try done; [by injection Hx|]. simpl in Hx. case_bool_decide as Hne; [done|].
      by injection Hx as <-. }
    intros Hrun. split; by eapply Hid.
Qed.

(** When the checks pass, and when they cannot. *)
Definition id_of (current : string) (v : pyval) : string :=
  match v with VStr s => s | _ => current end.
Definition id_like (v : pyval) : Prop := v = VNone \/ exists s, v = VStr s.

Lemma checks_pass c d vars steps :
  is_running_context c = false ->
  get_field d "variables" (VDict []) = VDict vars -> (forall k, k ∈ od_keys vars -> public_key k) ->
  id_like (get_field d "workflow_id" VNone) -> id_like (get_field d "run_id" VNone) ->
  get_field d "completed_steps" (VList []) = VList (VStr <$> steps) ->
  restore_checks c (VDict d)
  = Ok (d, vars, id_of (cx_workflow_id c) (get_field d "workflow_id" VNone),
        id_of (cx_run_id c) (get_field d "run_id" VNone), steps).
Proof.
  intros Hrun Hv Hk Hw Hr Hs. unfold restore_checks, validate_checkpoint_variables, validate_checkpoint_identity.
  rewrite Hv, (proj2 (validate_keys_ok vars) Hk), Hs, Hrun. cbn.
  destruct Hw as [->|[w ->]], Hr as [->|[r ->]]; cbn; by rewrite all_strings_strs.
Qed.

Lemma checks_fail c d vars k :
  get_field d "variables" (VDict []) = VDict vars -> k ∈ od_keys vars -> ~ public_key k ->
  exists e, restore_checks c (VDict d) = Raise e.
Proof.
  intros Hv Hk Hn. unfold restore_checks, validate_checkpoint_variables. rewrite Hv.
  destruct (validate_keys vars) as [[]|e] eqn:E; [|by eexists].
  exfalso. apply Hn. by apply (proj1 (validate_keys_ok vars) E).
Qed.

Lemma restore_ok c data d vars wid rid steps :
  restore_checks c data = Ok (d, vars, wid, rid, steps) ->
  restore_checkpoint c data =
  (let failed := get_field d "failed_steps" (VList []) in
   let t := mkTracking (current_step (cx_tracking c)) steps (default [] (strings_of failed)) in
   let '(m, r) := metadata_update (cx_metadata c) (get_field d "metadata" (VDict [])) in
   (set_metadata m (set_tracking t (set_ids wid rid (set_variables vars c))), failed, r)).
Proof. intros H. unfold restore_checkpoint. by rewrite H. Qed.

(** The fields of a saved checkpoint. *)
Lemma saved_fields c fingerprints timestamp :
  exists d, save_checkpoint c fingerprints timestamp = VDict d /\
    get_field d "variables" (VDict []) = VDict (serialize_variables c) /\
    get_field d "workflow_id" VNone = VStr (cx_workflow_id c) /\
    get_field d "run_id" VNone = VStr (cx_run_id c) /\
    get_field d "completed_steps" (VList []) = VList (VStr <$> completed_steps (cx_tracking c)) /\
    get_field d "failed_steps" (VList []) = VList (VStr <$> failed_steps (cx_tracking c)) /\
    get_field d "metadata" (VDict []) = VDict (json_dict (cx_metadata c)).
Proof.
  eexists. split; [reflexivity|]. unfold get_field. simpl.
  unfold serialize_variables. by rewrite json_variables, !json_strings.
Qed.

(** ** Claims *)

(** C13. Restoring what [save_checkpoint] wrote into a context that has run nothing and runs
    nothing succeeds when all variable names are public.  Each variable comes back as its
    serialization, which is the variable itself when no tuple and no object is inside, and no
    other variable is there; the identity and the step lists come back, and the metadata is merged
    as JSON gives it. *)
Theorem checkpoint_roundtrip c c' fingerprints timestamp :
  (forall k, k ∈ od_keys (cx_variables c) -> public_key k) ->
  is_running_context c' = false ->
  exists c'' failed,
    restore_checkpoint c' (save_checkpoint c fingerprints timestamp) = (c'', failed, Ok tt) /\
    od_keys (cx_variables c'') = od_keys (cx_variables c) /\
    (forall k v, od_get k (cx_variables c) = Some v ->
       od_get k (cx_variables c'') = Some (serialize v) /\ (lossless v = true -> od_get k (cx_variables c'') = Some v)) /\
    cx_workflow_id c'' = cx_workflow_id c /\ cx_run_id c'' = cx_run_id c /\
    completed_steps (cx_tracking c'') = completed_steps (cx_tracking c) /\
    failed_steps (cx_tracking c'') = failed_steps (cx_tracking c) /\
    cx_metadata c'' = od_update (cx_metadata c') (json_dict (cx_metadata c)).
Proof.
  intros Hkeys Hrun. destruct (saved_fields c fingerprints timestamp) as (d & -> & F1 & F2 & F3 & F4 & F5 & F6).
  rewrite (restore_ok _ _ _ _ _ _ _ (checks_pass c' d _ _ Hrun F1 ltac:(unfold serialize_variables;
    intros ?; rewrite od_keys_fmap; apply Hkeys) ltac:(rewrite F2; right; eauto) ltac:(rewrite F3; right; eauto) F4)).
  rewrite F2, F3, F5, F6. simpl. rewrite all_strings_strs. eexists _, _. split; [done|]. cbn -[serialize_variables].
  split; [apply od_keys_fmap|]. split; [|done]. intros k v Hv. rewrite serialized_get, Hv. split; [done|]. intros Hl. cbn. by rewrite serialize_lossless.
Qed.

(** Whatever the checkpoint holds: a running context keeps its
    identity; a rejection by the checks changes nothing; and once the checks
    pass all restored variable names are public. *)
Theorem restore_is_guarded c data :
  let '(c', _, r) := restore_checkpoint c data in
  (is_running_context c = true -> cx_workflow_id c' = cx_workflow_id c /\ cx_run_id c' = cx_run_id c) /\
  (is_ok (restore_checks c data) = false -> c' = c /\ is_ok r = false) /\
  (is_ok (restore_checks c data) = true -> forall k, k ∈ od_keys (cx_variables c') -> public_key k) /\
  (cx_parent c' = cx_parent c /\ cx_masked c' = cx_masked c).
Proof.
  unfold restore_checkpoint. destruct (restore_checks c data) as [[[[[d vars] wid] rid] steps]|e] eqn:E; [|done].
  apply restore_checks_ids in E as (-> & Hk & Hid).
  destruct (metadata_update _ _) as [m r]. simpl.
  split; [exact Hid|]. split; [done|]. split; [by intros _|done].
Qed.

(** The checks do not cover [metadata]: a checkpoint whose metadata
    is not a mapping raises only after variables, identity and step lists have
    been replaced. *)
Theorem bad_metadata_restores_partially c variables steps n :
  is_running_context c = false ->
  (forall k, k ∈ od_keys variables -> public_key k) ->
  let data := VDict [("variables", VDict variables); ("completed_steps", VList (VStr <$> steps));
                     ("metadata", VInt n)] in
  exists c' failed e, restore_checkpoint c data = (c', failed, Raise e) /\
    cx_variables c' = variables /\ completed_steps (cx_tracking c') = steps.
Proof.
  intros Hrun Hkeys data.
  set (d := [("variables", VDict variables); ("completed_steps", VList (VStr <$> steps)); ("metadata", VInt n)]).
  change data with (VDict d).
  rewrite (restore_ok _ _ _ _ _ _ _ (checks_pass c d variables steps Hrun eq_refl Hkeys
    (or_introl eq_refl) (or_introl eq_refl) eq_refl)).
  by eexists _, _, _.
Qed.

(** A context in which [set_internal] stored a protected name saves a
    checkpoint that no context can restore. *)
Theorem internal_key_blocks_restore s l k v s' c c' fingerprints timestamp :
  k ∈ PROTECTED_VARIABLE_KEYS -> set_internal s l (VStr k) v = Ok s' -> s' !! l = Some c ->
  exists failed e, restore_checkpoint c' (save_checkpoint c fingerprints timestamp) = (c', failed, Raise e).
Proof.
  intros Hk Hset Hc. assert (k ∈ od_keys (cx_variables c)) as Hin.
  { unfold set_internal in Hset. apply res_bind_ok in Hset as (k0 & Hk0 & [= <-]).
    assert (k0 = k) as ->.
    { unfold validate_variable_key in Hk0. by repeat case_match; simplify_eq. }
    unfold on_ctx in Hc. rewrite lookup_alter_eq in Hc. apply fmap_Some in Hc as (c0 & _ & ->). simpl.
    apply od_get_is_Some. rewrite od_get_set_eq. eauto. }
  destruct (saved_fields c fingerprints timestamp) as (d & -> & F1 & _).
  destruct (checks_fail c' d (serialize_variables c) k F1) as [e He].
  - unfold serialize_variables. by rewrite od_keys_fmap.
  - unfold public_key, validate_variable_key. rewrite bool_decide_eq_true_2 by done.
    by repeat case_match.
  - unfold restore_checkpoint. rewrite He. by eexists _, _.
Qed.

Lemma fingerprint_lookup digest paths p :
  od_get p (fingerprint_files digest paths)
  = if decide (p ∈ paths) then Some (default "__missing__" (digest p)) else None.
Proof.
  unfold fingerprint_files.
  enough (forall d, od_get p (foldl (fun d p => od_set p (default "__missing__" (digest p)) d) d paths)
    = if decide (p ∈ paths) then Some (default "__missing__" (digest p)) else od_get p d) by apply H.
  induction paths as [|q paths IH]; intros d; cbn [foldl].
  { rewrite decide_False; [done|apply not_elem_of_nil]. }
  rewrite IH, od_get_set.
  destruct (decide (p ∈ paths)) as [Hp|Hp], (decide (p = q)) as [->|Hpq];
    destruct (decide (_ ∈ q :: paths)) as [Hin|Hin]; rewrite elem_of_cons in Hin; try done; tauto.
Qed.

#[export] Instance str_le_total : Total str_le.
Proof.
  intros a b. unfold str_le. destruct (String.leb a b) eqn:E; [by left|right].
  destruct (String.leb_total a b) as [H|H]; congruence.
Qed.

(** After a checkpoint fingerprinted [paths], the files reported as
    changed are exactly those of [paths] whose digest differs now, a deletion
    included, in sorted order. *)
Theorem changed_files_exact digest digest' paths :
  let changed := detect_changed_files digest' (fingerprint_files digest paths) in
  Sorted str_le changed /\
  forall p, p ∈ changed <->
    p ∈ paths /\ default "__missing__" (digest' p) ≠ default "__missing__" (digest p).
Proof.
  intros changed. split; [apply Sorted_merge_sort, _|]. intros p. unfold changed, detect_changed_files.
  rewrite merge_sort_Permutation, list_elem_of_filter.
  assert (forall q, q ∈ od_keys (fingerprint_files digest paths) <-> q ∈ paths) as Hkeys.
  { intros q. rewrite <- od_get_is_Some, fingerprint_lookup. case_decide; split; try done; eauto; by intros [? ?]. }
  rewrite (fingerprint_lookup digest'), (fingerprint_lookup digest).
  split.
  - intros [Hne Hp]. pose proof (proj1 (Hkeys p) Hp) as Hp'. split; [done|].
    rewrite !decide_True in Hne by done. congruence.
  - intros [Hp Hne]. pose proof (proj2 (Hkeys p) Hp) as Hp'. split; [|done].
    rewrite !decide_True by done. congruence.
Qed.

(** ** Witnesses *)

Definition demo_ctx : Ctx :=
  mkCtx "wf" "run" [("x", VTuple [VInt 1; VObj "Path" "/tmp"]); ("y", VList [VInt 2])] ∅ None [("note", VStr "n")]
    (mkTracking None ["a"] ["b"]).
Definition blank_ctx : Ctx := mkCtx "new" "new" [] ∅ None [] fresh_tracking.

Lemma demo_public : forall k, k ∈ od_keys (cx_variables demo_ctx) -> public_key k.
Proof. intros k. change (od_keys _) with ["x"; "y"]. rewrite elem_of_cons, list_elem_of_singleton. intros [->| ->]; vm_compute; reflexivity. Qed.

(** The tuple with a path comes back as a list with a tagged dictionary, the list as it was. *)
Lemma checkpoint_roundtrip_witness :
  exists c'' failed,
    restore_checkpoint blank_ctx (save_checkpoint demo_ctx [] "t") = (c'', failed, Ok tt) /\
    od_get "x" (cx_variables c'') = Some (VList [VInt 1; VDict [("__type__", VStr "path"); ("value", VStr "/tmp")]]) /\
    od_get "y" (cx_variables c'') = Some (VList [VInt 2]).
Proof.
  destruct (checkpoint_roundtrip demo_ctx blank_ctx [] "t") as (c'' & failed & H1 & _ & H2 & _).
  - exact demo_public.
  - reflexivity.
  - exists c'', failed. split; [exact H1|]. split.
    + destruct (H2 "x" _ eq_refl) as [Hx _]. exact Hx.
    + destruct (H2 "y" _ eq_refl) as [_ Hy]. exact (Hy eq_refl).
Defined.

Lemma bad_metadata_restores_partially_witness :
  exists c' failed e,
    restore_checkpoint blank_ctx (VDict [("variables", VDict [("x", VTuple [VInt 1; VObj "Path" "/tmp"])]);
       ("completed_steps", VList [VStr "evil"]); ("metadata", VInt 5)]) = (c', failed, Raise e) /\
    cx_variables c' = [("x", VTuple [VInt 1; VObj "Path" "/tmp"])] /\
    completed_steps (cx_tracking c') = ["evil"].
Proof.
  apply (bad_metadata_restores_partially blank_ctx _ ["evil"] 5).
  - reflexivity.
  - intros k ->%list_elem_of_singleton. vm_compute. reflexivity.
Defined.

Lemma internal_key_blocks_restore_witness :
  exists failed e, restore_checkpoint blank_ctx
    (save_checkpoint (set_variables [("run_id", VInt 1)] blank_ctx) [] "t") = (blank_ctx, failed, Raise e).
Proof.
  apply (internal_key_blocks_restore {[0 := blank_ctx]} 0 "run_id" (VInt 1)
           {[0 := set_variables [("run_id", VInt 1)] blank_ctx]}).
  - apply (bool_decide_unpack _). vm_compute. exact I.
  - vm_compute. reflexivity.
  - vm_compute. reflexivity.
Defined.
