(* ===== verification/ContextFacts.v ===== *)
(** * Correctness of execution contexts and checkpoints

    Scope chains; the three ways of reading a variable agree; writes are local;
    masks; step views; forks; checkpoint round trip and what a rejected
    checkpoint leaves behind. *)

From S2P Require Import Prelude PyStr PyVal Tracking Context Checkpoint.
From stdpp Require Import sorting.

(** Parents come first and dictionaries have unique keys. *)
Definition store_ok (s : store) : Prop :=
  store_wf s /\ forall l c, s !! l = Some c -> NoDup (od_keys (cx_variables c)).

(** ** Scope chains *)

(** More fuel than the location does not change the chain. *)
Lemma scope_chain_fuel s l n : store_wf s -> l < n -> scope_chain n s l = scopes s l.
Proof.
  intros Hwf Hn. unfold scopes.
  enough (forall m n l, l < n -> l < m -> scope_chain n s l = scope_chain m s l) by (apply H; lia).
  clear n l Hn. induction m as [|m IH]; intros [|n] l Hn Hm; [lia..|]. simpl.
  destruct (s !! l) as [c|] eqn:E; [|done]. f_equal.
  destruct (cx_parent c) as [p|] eqn:Ep; [|done]. destruct (Hwf l c p E Ep). apply IH; lia.
Qed.

Lemma scopes_eq s l : store_wf s ->
  scopes s l = match s !! l with
               | Some c => (l, c) :: match cx_parent c with Some p => scopes s p | None => [] end
               | None => []
               end.
Proof.
  intros Hwf. unfold scopes at 1. simpl. destruct (s !! l) as [c|] eqn:E; [|done]. f_equal.
  destruct (cx_parent c) as [p|] eqn:Ep; [|done]. destruct (Hwf l c p E Ep).
  by apply scope_chain_fuel.
Qed.

(** Induction along the parent chain. *)
Lemma scopes_ind s (P : loc -> Prop) :
  store_wf s ->
  (forall l, (forall c p, s !! l = Some c -> cx_parent c = Some p -> P p) -> P l) -> forall l, P l.
Proof.
  intros Hwf Hstep l. induction (lt_wf l) as [l _ IH]. apply Hstep. intros c p Hc Hp.
  apply IH. by destruct (Hwf l c p Hc Hp).
Qed.

Lemma scopes_lookup s l l' c : store_wf s -> (l', c) ∈ scopes s l -> s !! l' = Some c /\ l' <= l.
Proof.
  intros Hwf. revert l' c. pattern l. apply (scopes_ind s); [done|]. clear l. intros l IH l' c.
  rewrite scopes_eq by done. destruct (s !! l) as [cl|] eqn:E; [|by intros ?%elem_of_nil].
  intros [[= -> ->]|Hin]%elem_of_cons; [auto|].
  destruct (cx_parent cl) as [p|] eqn:Ep; [|by apply elem_of_nil in Hin].
  destruct (IH _ _ eq_refl Ep _ _ Hin). destruct (Hwf l cl p E Ep). split; [done|lia].
Qed.

(** Changing a context outside the chain, parents kept, does not change the chain. *)
Lemma scopes_alter_outside f s l l' :
  store_wf s -> store_wf (on_ctx f s l) -> l ∉ (scopes s l').*1 -> scopes (on_ctx f s l) l' = scopes s l'.
Proof.
  intros Hwf Hwf'. pattern l'. apply (scopes_ind s); [done|]. clear l'. intros l' IH Hl.
  rewrite (scopes_eq s l' Hwf) in *. rewrite scopes_eq by done. unfold on_ctx in *.
  destruct (decide (l = l')) as [->|Hne].
  - rewrite lookup_alter_eq. destruct (s !! l') as [c|] eqn:E; simpl in *; [|done].
    exfalso. apply Hl. left.
  - rewrite lookup_alter_ne by done. destruct (s !! l') as [c|] eqn:E; [|done]. f_equal.
    destruct (cx_parent c) as [p|] eqn:Ep; [|done]. eapply IH; [done..|].
    intros Hin. apply Hl. csimpl. by right.
Qed.

(** The chain after changing its first context. *)
Lemma scopes_alter_here f s l c :
  store_wf s -> store_wf (on_ctx f s l) -> s !! l = Some c -> cx_parent (f c) = cx_parent c ->
  scopes (on_ctx f s l) l
  = (l, f c) :: match cx_parent c with Some p => scopes s p | None => [] end.
Proof.
  intros Hwf Hwf' Hc Hp. rewrite scopes_eq by done. unfold on_ctx. rewrite lookup_alter_eq, Hc. simpl.
  rewrite Hp. f_equal. destruct (cx_parent c) as [p|] eqn:Ep; [|done].
  apply scopes_alter_outside; [done..|]. intros Hin.
  apply list_elem_of_fmap in Hin as ([l' c'] & -> & Hin). destruct (scopes_lookup _ _ _ _ Hwf Hin).
  destruct (Hwf _ _ _ Hc Ep). simpl in *. lia.
Qed.

Lemma on_ctx_wf f s l :
  (forall c, cx_parent (f c) = cx_parent c) -> store_wf s -> store_wf (on_ctx f s l).
Proof.
  intros Hf Hwf l' c p. unfold on_ctx. destruct (decide (l = l')) as [->|Hne].
  - rewrite lookup_alter_eq. intros (c0 & Hc & ->)%fmap_Some Hp. rewrite Hf in Hp.
    destruct (Hwf _ _ _ Hc Hp) as [Hlt Hs]. split; [done|].
    rewrite lookup_alter_ne by lia. done.
  - rewrite lookup_alter_ne by done. intros Hc Hp. destruct (Hwf _ _ _ Hc Hp) as [Hlt [c' Hs]].
    split; [done|]. destruct (decide (l = p)) as [->|]; [rewrite lookup_alter_eq, Hs|rewrite lookup_alter_ne by done]; eauto.
Qed.

Lemma on_ctx_ok f s l :
  (forall c, cx_parent (f c) = cx_parent c) ->
  (forall c, NoDup (od_keys (cx_variables c)) -> NoDup (od_keys (cx_variables (f c)))) ->
  store_ok s -> store_ok (on_ctx f s l).
Proof.
  intros Hp Hv [Hwf Hnd]. split; [by apply on_ctx_wf|]. intros l' c. unfold on_ctx.
  destruct (decide (l = l')) as [->|Hne]; [rewrite lookup_alter_eq|rewrite lookup_alter_ne by done; apply Hnd].
  intros (c0 & Hc & ->)%fmap_Some. eauto.
Qed.

(** ** Reading *)

Lemma before_char_id c s : has_char c s = false -> before_char c s = s.
Proof.
  unfold has_char. induction s as [|a s IH]; intros H; simpl; [done|].
  apply bool_decide_eq_false in H. simpl in H. rewrite not_elem_of_cons in H. destruct H as [Hne H].
  rewrite decide_False by congruence. rewrite IH; [done|]. by apply bool_decide_eq_false.
Qed.

Lemma mask_root_plain k : is_path k = false -> mask_root k = k.
Proof.
  unfold is_path, mask_root. intros [H1 H2]%orb_false_iff. by rewrite !before_char_id by (by rewrite ?before_char_id).
Qed.

Lemma od_get_pop_all k K (d : odict pyval) :
  od_get k (pop_all K d) = if decide (k ∈ K) then None else od_get k d.
Proof.
  unfold pop_all. induction d as [|[k1 v1] d IH]; [cbn; by case_decide|].
  rewrite filter_cons. destruct (decide ((k1, v1).1 ∉ K)) as [H|H]; cbn [fst] in H; cbn [od_get]; rewrite IH.
  - destruct (decide (k = k1)) as [->|]; [by rewrite decide_False|done].
  - destruct (decide (k = k1)) as [->|]; [|done].
    destruct (decide (k1 ∈ K)); [done|]. exfalso. by apply H.
Qed.

(** The dictionary of a chain, one scope at a time. *)
Lemma all_variables_cons l c cs k :
  NoDup (od_keys (cx_variables c)) ->
  od_get k (all_variables_in ((l, c) :: cs)) =
  match od_get k (cx_variables c) with
  | Some v => Some v
  | None => if decide (k ∈ cx_masked c) then None else od_get k (all_variables_in cs)
  end.
Proof.
  intros Hnd. destruct cs as [|x cs].
  - simpl. destruct (od_get k (cx_variables c)); [done|]. by case_decide.
  - change (all_variables_in ((l, c) :: x :: cs)) with
      (od_update (pop_all (cx_masked c) (all_variables_in (x :: cs))) (cx_variables c)).
    by rewrite od_get_update, od_get_pop_all.
Qed.

Lemma get_in_all_variables jmes cs k :
  is_path k = false -> (forall l c, (l, c) ∈ cs -> NoDup (od_keys (cx_variables c))) ->
  get_in jmes cs k = od_get k (all_variables_in cs) /\
  has_in cs k = od_mem k (all_variables_in cs).
Proof.
  intros Hk. induction cs as [|[l c] cs IH]; intros Hnd; [done|].
  assert (NoDup (od_keys (cx_variables c))) as Hc by (eapply Hnd; left).
  destruct IH as [IHg IHh]; [intros l' c' Hin; eapply Hnd; by right|].
  pose proof (all_variables_cons l c cs k Hc) as Hall.
  cbn [get_in has_in]. rewrite Hk, mask_root_plain, IHg, IHh by done. rewrite Hall.
  split; [done|]. apply eq_true_iff_eq. rewrite od_mem_spec, Hall.
  destruct (od_mem k (cx_variables c)) eqn:E.
  - apply od_mem_spec in E as [v ->]. split; eauto.
  - assert (od_get k (cx_variables c) = None) as ->.
    { apply eq_None_not_Some. intros H. apply od_mem_spec in H. congruence. }
    case_decide; [split; [done|by intros [? ?]]|]. apply od_mem_spec.
Qed.

Lemma store_ok_chain s l : store_ok s ->
  forall l' c, (l', c) ∈ scopes s l -> NoDup (od_keys (cx_variables c)).
Proof. intros [Hwf Hnd] l' c Hin. destruct (scopes_lookup _ _ _ _ Hwf Hin). by eapply Hnd. Qed.

(** ** Writing *)

(** A method of the context at [l] changed the store. *)
Inductive ctx_write jmes (s : store) (l : loc) : store -> Prop :=
  | write_set key v s' : ctx_set s l key v = Ok s' -> ctx_write jmes s l s'
  | write_internal key v s' : set_internal s l key v = Ok s' -> ctx_write jmes s l s'
  | write_update kwargs s' : update s l kwargs = Ok s' -> ctx_write jmes s l s'
  | write_delete k : ctx_write jmes s l (ctx_delete s l k).1
  | write_mask k : ctx_write jmes s l (mask_inherited s l k)
  | write_merge n v : ctx_write jmes s l (merge_step_view jmes s l n v).

Lemma NoDup_od_pop k (d : odict pyval) : NoDup (od_keys d) -> NoDup (od_keys (od_pop k d)).
Proof. apply NoDup_od_filter. Qed.
#[export] Hint Resolve NoDup_od_pop : arp.

Lemma ctx_write_shape jmes s l s' :
  ctx_write jmes s l s' -> s' = s \/ exists f, s' = on_ctx f s l /\
    (forall c, cx_parent (f c) = cx_parent c) /\
    (forall c, NoDup (od_keys (cx_variables c)) -> NoDup (od_keys (cx_variables (f c)))).
Proof.
  destruct 1 as [key v s' H|key v s' H|kwargs s' H|k|k|n v].
  - unfold ctx_set in H. inv_ok. right. eexists. split; [done|]. split; simpl; auto with arp.
  - unfold set_internal in H. inv_ok. right. eexists. split; [done|]. split; simpl; auto with arp.
  - unfold update in H. inv_ok. right. eexists. split; [done|]. split; simpl; auto with arp.
  - unfold ctx_delete. destruct (s !! l) as [c|]; [|by left]. destruct (od_mem k _); [|by left].
    right. eexists. split; [done|]. split; simpl; auto with arp.
  - right. eexists. split; [done|]. split; simpl; auto with arp.
  - right. eexists. split; [done|]. split; simpl; auto with arp.
Qed.

(** Reading back at the written context. *)
Lemma get_written jmes s l f c k d :
  store_ok s -> store_wf (on_ctx f s l) -> s !! l = Some c -> cx_parent (f c) = cx_parent c ->
  is_path k = false ->
  get_sync jmes (on_ctx f s l) l k d
  = match od_get k (cx_variables (f c)) with
    | Some v => v
    | None => if decide (k ∈ cx_masked (f c)) then d
              else match cx_parent c with Some p => get_sync jmes s p k d | None => d end
    end.
Proof.
  intros [Hwf Hnd] Hwf' Hc Hp Hk. unfold get_sync. rewrite (scopes_alter_here f s l c) by done.
  cbn [get_in]. rewrite Hk, mask_root_plain by done.
  destruct (od_get k (cx_variables (f c))); [done|]. case_decide; [done|].
  by destruct (cx_parent c).
Qed.

Lemma get_at jmes s l c k d :
  store_ok s -> s !! l = Some c -> is_path k = false ->
  get_sync jmes s l k d
  = match od_get k (cx_variables c) with
    | Some v => v
    | None => if decide (k ∈ cx_masked c) then d
              else match cx_parent c with Some p => get_sync jmes s p k d | None => d end
    end.
Proof.
  intros [Hwf _] Hc Hk. unfold get_sync. rewrite scopes_eq, Hc by done. cbn [get_in].
  rewrite Hk, mask_root_plain by done.
  destruct (od_get k (cx_variables c)); [done|]. case_decide; [done|]. by destruct (cx_parent c).
Qed.

Lemma validate_key_ok key ap k :
  validate_variable_key key ap = Ok k -> key = VStr k /\ is_path k = false.
Proof.
  unfold validate_variable_key, is_path. destruct key as [| | | |k'| | | |]; try done.
  case_decide; [done|].
  destruct (has_char "." k' || has_char "[" k' || has_char "]" k') eqn:E; [done|].
  destruct (_ && _); [done|]. intros [= <-]. split; [done|].
  by apply orb_false_iff in E as [-> _].
Qed.

(** The step views visible from a context. *)
Definition visible_steps jmes (s : store) (l : loc) : odict pyval :=
  default [] (as_dict (get_sync jmes s l "steps" VNone)).

Lemma merge_visible jmes s l n v :
  store_ok s -> is_Some (s !! l) ->
  visible_steps jmes (merge_step_view jmes s l n v) l = od_set n v (visible_steps jmes s l) /\
  store_ok (merge_step_view jmes s l n v) /\ is_Some (merge_step_view jmes s l n v !! l).
Proof.
  intros Hs [c Hc].
  assert (store_ok (merge_step_view jmes s l n v)) as Hs'.
  { apply on_ctx_ok; [done| |done]. simpl. auto with arp. }
  split; [|split; [done|]].
  - unfold visible_steps. unfold merge_step_view in *.
    rewrite (get_written jmes s l _ c) by (done || exact (proj1 Hs')). simpl.
    rewrite od_get_set_eq. simpl. f_equal.
    rewrite (get_at jmes s l c) by done.
    destruct (od_get "steps" (cx_variables c)) as [w|] eqn:E; simpl; [|done].
    by destruct (as_dict w).
  - unfold merge_step_view, on_ctx. rewrite lookup_alter_eq, Hc. simpl. eauto.
Qed.

Definition merge_all jmes (s : store) (l : loc) (views : odict pyval) : store :=
  foldl (fun s nv => merge_step_view jmes s l nv.1 nv.2) s views.

(** ** Claims *)

(** For a plain variable name the three readers agree: [get] returns
    what [all_variables] holds (the default if nothing), and [has] says whether
    it holds anything, through parents, local writes and masks. *)
Theorem context_views_agree jmes s l k d :
  store_ok s -> is_path k = false ->
  get_sync jmes s l k d = default d (od_get k (all_variables s l)) /\
  has s l k = od_mem k (all_variables s l).
Proof.
  intros Hs Hk. destruct (get_in_all_variables jmes (scopes s l) k Hk (store_ok_chain s l Hs)) as [Hg Hh].
  unfold get_sync, has, all_variables. by rewrite Hg, Hh.
Qed.

Lemma write_local jmes s l s' :
  store_ok s -> ctx_write jmes s l s' ->
  store_ok s' /\
  (forall l', l ∉ (scopes s l').*1 -> scopes s' l' = scopes s l') /\
  (forall l' k d, l' < l ->
     all_variables s' l' = all_variables s l' /\ get_sync jmes s' l' k d = get_sync jmes s l' k d).
Proof.
  intros Hs [->|(f & -> & Hp & Hv)]%ctx_write_shape; [done|].
  assert (store_ok (on_ctx f s l)) as Hs' by (by apply on_ctx_ok).
  assert (forall l', l ∉ (scopes s l').*1 -> scopes (on_ctx f s l) l' = scopes s l') as Hout.
  { intros l' Hl'. apply scopes_alter_outside; [apply Hs|apply Hs'|done]. }
  split; [done|]. split; [done|]. intros l' k d Hlt. unfold all_variables, get_sync.
  rewrite Hout; [done|]. intros Hin. apply list_elem_of_fmap in Hin as ([l0 c] & -> & Hin).
  destruct (scopes_lookup s l' l0 c (proj1 Hs) Hin). simpl in Hlt. lia.
Qed.

(** Whatever a context writes (any sequence of set, internal set, update,
    delete, mask, step view) keeps the store well formed and is invisible outside:
    no context that does not inherit from it, in particular no older one such as
    its ancestors, sees a different scope chain, so all its reads are the same. *)
Theorem writes_are_local jmes s l s' :
  store_ok s -> rtc (fun s s' => ctx_write jmes s l s') s s' ->
  store_ok s' /\
  (forall l', l ∉ (scopes s l').*1 -> scopes s' l' = scopes s l') /\
  (forall l' k d, l' < l ->
     all_variables s' l' = all_variables s l' /\ get_sync jmes s' l' k d = get_sync jmes s l' k d).
Proof.
  intros Hs Hw. induction Hw as [|s s1 s2 Hw _ IH]; [done|].
  destruct (write_local jmes s l s1 Hs Hw) as (Hs1 & Hout & Hr).
  destruct (IH Hs1) as (Hs2 & Hout2 & Hr2). split; [done|]. split.
  - intros l' Hl'. rewrite Hout2; [by apply Hout|by rewrite Hout].
  - intros l' k d Hlt. destruct (Hr l' k d Hlt) as [<- <-]. by apply Hr2.
Qed.

(** A successful [set] was for a plain name, is read back through all
    readers, lifts the name's mask, and leaves every other plain name as it was. *)
Theorem set_then_get jmes s l key v s' :
  store_ok s -> is_Some (s !! l) -> ctx_set s l key v = Ok s' ->
  exists k, key = VStr k /\ (k ∉ PROTECTED_VARIABLE_KEYS) /\
    (forall d, get_sync jmes s' l k d = v) /\ has s' l k = true /\
    (forall k' d, is_path k' = false -> k' ≠ k -> get_sync jmes s' l k' d = get_sync jmes s l k' d).
Proof.
  intros Hs [c Hc] Hset. assert (ctx_write jmes s l s') as Hw by (by econstructor).
  unfold ctx_set in Hset. apply res_bind_ok in Hset as (k & Hk & [= <-]).
  destruct (validate_key_ok _ _ _ Hk) as [-> Hkp].
  apply write_local in Hw as [Hs' _]; [|done]. exists k. split; [done|]. split.
  { unfold validate_variable_key in Hk. case_decide; [done|]. destruct (_ || _); [done|].
    simpl in Hk. by case_bool_decide. }
  assert (forall d, get_sync jmes (on_ctx (fun c => set_masked (cx_masked c ∖ {[k]})
     (set_variables (od_set k v (cx_variables c)) c)) s l) l k d = v) as Hget.
  { intros d. rewrite (get_written jmes s l _ c) by (done || exact (proj1 Hs')). simpl. by rewrite od_get_set_eq. }
  split; [done|]. split.
  - unfold has. rewrite (scopes_alter_here _ s l c) by (done || exact (proj1 Hs) || exact (proj1 Hs')).
    cbn [has_in]. assert (od_mem k (od_set k v (cx_variables c)) = true) as Hm.
    { apply od_mem_spec. rewrite od_get_set_eq. eauto. }
    simpl. by rewrite Hm.
  - intros k' d Hk' Hne. rewrite (get_written jmes s l _ c), (get_at jmes s l c) by (done || exact (proj1 Hs')). simpl.
    rewrite od_get_set_ne by done. destruct (od_get k' (cx_variables c)); [done|].
    erewrite decide_ext; [reflexivity|]. set_solver.
Qed.

(** A masked name reads as unset through every reader, and so does any
    path query on it that finds nothing locally; the parent still sees its own
    value. *)
Theorem mask_hides jmes s l k :
  store_ok s -> is_Some (s !! l) -> is_path k = false ->
  let s' := mask_inherited s l k in
  (forall d, get_sync jmes s' l k d = d) /\ has s' l k = false /\ (od_get k (all_variables s' l) = None) /\
  (forall c q d, s' !! l = Some c -> is_path q = true -> mask_root q = k ->
     jmes q (cx_variables c) = None -> get_sync jmes s' l q d = d) /\
  (forall l' q d, l' < l -> get_sync jmes s' l' q d = get_sync jmes s l' q d).
Proof.
  intros Hs [c Hc] Hk s'. destruct (write_local jmes s l s' Hs (write_mask _ _ _ k)) as (Hs' & _ & Hout).
  assert (forall d, get_sync jmes s' l k d = d) as Hget.
  { intros d. unfold s', mask_inherited. rewrite (get_written jmes s l _ c) by (done || exact (proj1 Hs')). simpl.
    rewrite od_get_pop, decide_True by done. rewrite decide_True by set_solver. done. }
  assert (od_get k (all_variables s' l) = None) as Hall.
  { destruct (get_in_all_variables jmes (scopes s' l) k Hk (store_ok_chain s' l Hs')) as [Hg _].
    unfold all_variables. rewrite <- Hg. specialize (Hget VNone) as Hn. specialize (Hget (VBool true)).
    unfold get_sync in *. destruct (get_in jmes (scopes s' l) k); [simpl in *; congruence|done]. }
  split; [done|]. split; [|split; [done|split]].
  - destruct (get_in_all_variables jmes (scopes s' l) k Hk (store_ok_chain s' l Hs')) as [_ Hh].
    unfold has, all_variables in *. rewrite Hh. apply not_true_iff_false. rewrite od_mem_spec, Hall.
    by intros [? ?].
  - intros c' q d Hc' Hq Hr Hj. unfold get_sync. rewrite scopes_eq, Hc' by exact (proj1 Hs'). cbn [get_in].
    rewrite Hq, Hj, Hr. rewrite decide_True; [done|].
    unfold s', mask_inherited, on_ctx in Hc'. rewrite lookup_alter_eq, Hc in Hc'. injection Hc' as <-.
    simpl. set_solver.
  - intros l' q d Hlt. by apply Hout.
Qed.

(** Concurrent steps cannot lose each other's views: after any
    sequence of [merge_step_view] calls the visible [steps] dictionary is the
    one visible before, inherited entries included, updated in call order. *)
Theorem merge_step_views_keep jmes s l views :
  store_ok s -> is_Some (s !! l) ->
  visible_steps jmes (merge_all jmes s l views) l = od_update (visible_steps jmes s l) views /\
  (forall n, n ∉ od_keys views ->
     od_get n (visible_steps jmes (merge_all jmes s l views) l) = od_get n (visible_steps jmes s l)) /\
  (NoDup (od_keys views) -> forall n v, (n, v) ∈ views ->
     od_get n (visible_steps jmes (merge_all jmes s l views) l) = Some v).
Proof.
  intros Hs Hl.
  assert (visible_steps jmes (merge_all jmes s l views) l = od_update (visible_steps jmes s l) views) as Heq.
  { revert s Hs Hl. induction views as [|[n v] views IH]; intros s Hs Hl; [done|].
    destruct (merge_visible jmes s l n v Hs Hl) as (Hv & Hs' & Hl').
    unfold merge_all in *. cbn [foldl fst snd]. rewrite IH, Hv by done. done. }
  split; [done|]. rewrite Heq. split.
  - generalize (visible_steps jmes s l). clear. induction views as [|[n1 v1] views IH]; intros d n Hn; [done|].
    unfold od_keys in *. csimpl in Hn. apply not_elem_of_cons in Hn as [Hne Hn].
    unfold od_update in *. cbn [fold_left fst snd]. rewrite IH by done. by apply od_get_set_ne.
  - intros Hnd n v Hin. rewrite od_get_update by done. by rewrite (od_get_of_elem n v views).
Qed.

(** A new leaf below [l] leaves every other context alone. *)
Lemma extend_store s s' l l' c' :
  store_ok s -> is_Some (s !! l) -> l < l' -> s !! l' = None ->
  s' !! l' = Some c' -> cx_parent c' = Some l -> NoDup (od_keys (cx_variables c')) ->
  (forall l2, l2 ≠ l' -> s' !! l2 = s !! l2) ->
  store_ok s' /\ (forall l2, l2 < l' -> scopes s' l2 = scopes s l2) /\ scopes s' l' = (l', c') :: scopes s l.
Proof.
  intros [Hwf Hnd] Hl Hlt Hfresh Hc' Hp' Hnd' Hother.
  assert (store_ok s') as Hs'.
  { split.
    - intros l2 c2 p Hc2 Hp. destruct (decide (l2 = l')) as [->|Hne].
      + rewrite Hc' in Hc2. injection Hc2 as <-. rewrite Hp' in Hp. injection Hp as <-.
        split; [done|]. by rewrite Hother by lia.
      + rewrite Hother in Hc2 by done. destruct (Hwf l2 c2 p Hc2 Hp) as [? Hp2].
        split; [done|]. destruct (decide (p = l')) as [->|]; [eauto|by rewrite Hother].
    - intros l2 c2 Hc2. destruct (decide (l2 = l')) as [->|Hne].
      + rewrite Hc' in Hc2. by injection Hc2 as <-.
      + rewrite Hother in Hc2 by done. by eapply Hnd. }
  assert (forall l2, l2 < l' -> scopes s' l2 = scopes s l2) as Hsc.
  { intros l2. pattern l2. apply (scopes_ind s); [done|]. clear l2. intros l2 IH Hl2.
    rewrite (scopes_eq s' l2), (scopes_eq s l2) by (done || exact (proj1 Hs')). rewrite Hother by lia.
    destruct (s !! l2) as [c2|] eqn:Hc2; [|done]. f_equal. destruct (cx_parent c2) as [p|] eqn:Hp; [|done].
    eapply IH; [done..|]. destruct (Hwf l2 c2 p Hc2 Hp). lia. }
  split; [done|]. split; [done|]. rewrite (scopes_eq s' l'), Hc', Hp', Hsc; [done|lia|exact (proj1 Hs')].
Qed.

(** A fork (or child) starts with exactly the variables of its
    baseline, a run identity of its own and the lineage in its metadata; no
    existing context changes. *)
Theorem fork_starts_at_baseline jmes s l l' name uuid s' c :
  store_ok s -> s !! l = Some c -> l < l' -> s !! l' = None ->
  fork_session s l l' name uuid = Ok s' ->
  store_ok s' /\ all_variables s' l' = all_variables s l /\
  (forall k d, get_sync jmes s' l' k d = get_sync jmes s l k d \/ is_path k = true) /\
  (exists f, s' !! l' = Some f /\ cx_run_id f = uuid /\ cx_workflow_id f = cx_workflow_id c /\
     od_get "forked_from_run" (cx_metadata f) = Some (VStr (cx_run_id c))) /\
  (forall l2, l2 ≠ l' -> s' !! l2 = s !! l2).
Proof.
  intros [Hwf Hnd] Hc Hlt Hfresh Hf. unfold fork_session in Hf.
  destruct name as [| | | |n| | | |]; try done. rewrite Hc in Hf. case_decide; [done|].
  injection Hf as <-. unfold child. rewrite Hc. set (s' := on_ctx _ _ _).
  assert (exists f, s' !! l' = Some f /\ cx_variables f = [] /\ cx_masked f = ∅ /\ cx_parent f = Some l /\
    cx_run_id f = uuid /\ cx_workflow_id f = cx_workflow_id c /\
    od_get "forked_from_run" (cx_metadata f) = Some (VStr (cx_run_id c))) as (f & Hf & E1 & E2 & E3 & E4 & E5 & E6).
  { unfold s', on_ctx. rewrite lookup_alter_eq, lookup_insert_eq. simpl. eexists. split; [done|].
    repeat (split; [done|]). simpl. apply od_get_set_eq. }
  assert (forall l2, l2 ≠ l' -> s' !! l2 = s !! l2) as Hother.
  { intros l2 Hne. unfold s', on_ctx. by rewrite lookup_alter_ne, lookup_insert_ne by done. }
  destruct (extend_store s s' l l' f) as (Hs' & Hsc & Hsl); [done|eauto|done..|by rewrite E1; constructor|done|].
  split; [done|]. split; [|split; [|split; [by eauto 10|done]]].
  - unfold all_variables. rewrite Hsl, (scopes_eq s l), Hc by done.
    set (cs := match cx_parent c with Some p => _ | None => _ end).
    change (all_variables_in ((l', f) :: (l, c) :: cs)) with
      (od_update (pop_all (cx_masked f) (all_variables_in ((l, c) :: cs))) (cx_variables f)).
    rewrite E1, E2, od_update_nil. unfold pop_all.
    induction (all_variables_in ((l, c) :: cs)) as [|kv d IH]; [done|]. rewrite filter_cons, IH.
    rewrite decide_True; [done|set_solver].
  - intros k d. destruct (is_path k) eqn:Hk; [by right|left].
    rewrite (get_at jmes s' l' f), E1, E2, E3 by done. simpl.
    unfold get_sync. by rewrite Hsc by lia.
Qed.

(** ** Witnesses: a root with two variables and a child that masks one *)

Definition root_ctx : Ctx :=
  mkCtx "wf" "run" [("a", VInt 1); ("steps", VDict [("s0", VStr "view")])] ∅ None [] fresh_tracking.
Definition child_ctx : Ctx := mkCtx "wf" "run" [("b", VInt 2)] {["a"]} (Some 0) [] fresh_tracking.
Definition demo_store : store := {[0 := root_ctx; 1 := child_ctx]}.
Definition no_query : string -> odict pyval -> option pyval := fun _ _ => None.

Lemma demo_store_ok : store_ok demo_store.
Proof.
  assert (forall l c, demo_store !! l = Some c -> (l = 0 /\ c = root_ctx) \/ (l = 1 /\ c = child_ctx)) as Hin.
  { intros l c H. unfold demo_store in H. apply lookup_insert_Some in H as [[<- <-]|[_ H]]; [by left|].
    apply lookup_singleton_Some in H as [<- <-]. by right. }
  split.
  - intros l c p Hc Hp. destruct (Hin l c Hc) as [[-> ->]|[-> ->]]; [done|].
    injection Hp as <-. split; [lia|]. eexists. vm_compute. reflexivity.
  - intros l c Hc. destruct (Hin l c Hc) as [[_ ->]|[_ ->]];
      apply (bool_decide_unpack _); vm_compute; exact I.
Qed.

Lemma context_views_agree_witness :
  get_sync no_query demo_store 1 "a" VNone = default VNone (od_get "a" (all_variables demo_store 1)) /\
  has demo_store 1 "a" = od_mem "a" (all_variables demo_store 1).
Proof. apply (context_views_agree no_query demo_store 1 "a" VNone demo_store_ok). reflexivity. Defined.

Lemma writes_are_local_witness :
  all_variables (ctx_delete (mask_inherited demo_store 1 "steps") 1 "a").1 0 = all_variables demo_store 0.
Proof.
  destruct (writes_are_local no_query demo_store 1 _ demo_store_ok
    (rtc_l _ _ _ _ (write_mask _ _ _ "steps") (rtc_once _ _ (write_delete _ _ _ "a")))) as (_ & _ & H).
  apply (H 0 "a" VNone). lia.
Defined.

Lemma set_then_get_witness :
  exists k, VStr "a" = VStr k /\
    get_sync no_query (on_ctx (fun c => set_masked (cx_masked c ∖ {["a"]})
       (set_variables (od_set "a" (VInt 5) (cx_variables c)) c)) demo_store 1) 1 k VNone = VInt 5.
Proof.
  destruct (set_then_get no_query demo_store 1 (VStr "a") (VInt 5)
     (on_ctx (fun c => set_masked (cx_masked c ∖ {["a"]})
       (set_variables (od_set "a" (VInt 5) (cx_variables c)) c)) demo_store 1) demo_store_ok)
    as (k & Hk & _ & Hget & _).
  - eexists. vm_compute. reflexivity.
  - reflexivity.
  - exists k. split; [exact Hk|apply Hget].
Defined.

Lemma mask_hides_witness :
  has (mask_inherited demo_store 1 "steps") 1 "steps" = false.
Proof.
  apply (mask_hides no_query demo_store 1 "steps" demo_store_ok).
  - eexists. vm_compute. reflexivity.
  - reflexivity.
Defined.

Lemma merge_step_views_keep_witness :
  visible_steps no_query (merge_all no_query demo_store 1 [("s1", VInt 1); ("s2", VInt 2)]) 1
  = [("s0", VStr "view"); ("s1", VInt 1); ("s2", VInt 2)].
Proof.
  destruct (merge_step_views_keep no_query demo_store 1 [("s1", VInt 1); ("s2", VInt 2)] demo_store_ok)
    as (H & _).
  - eexists. vm_compute. reflexivity.
  - rewrite H. vm_compute. reflexivity.
Defined.

Lemma fork_starts_at_baseline_witness :
  exists s', fork_session demo_store 1 2 (VStr "try") "uuid" = Ok s' /\
    all_variables s' 2 = all_variables demo_store 1.
Proof.
  destruct (fork_session demo_store 1 2 (VStr "try") "uuid") as [s'|e] eqn:E; [|discriminate E].
  exists s'. split; [reflexivity|].
  apply (fork_starts_at_baseline no_query demo_store 1 2 (VStr "try") "uuid" s' child_ctx).
  - exact demo_store_ok.
  - vm_compute. reflexivity.
  - lia.
  - vm_compute. reflexivity.
  - exact E.
Defined.
