(* ===== verification/Artifacts.v ===== *)
(** * Artifact contracts (artifact_contracts.py)

    Parsing contract declarations, validating artifact values and promoting
    aliases.  The two regular expressions are matched by Python's [re] module,
    so what they find is a parameter: [placeholder_text] is whether
    [_PLACEHOLDER_TEXT_RE.search] matches, [file_blocks] lists the matches of
    [FILE_BLOCK_RE.finditer] (defined in engine/llm_output_parsing.py).  The
    text of diagnostics is left out; their field and code are kept. *)

From S2P Require Import Prelude PyStr PyVal.

Definition CODE_ARTIFACT : string := "code_artifact".
Definition PLACEHOLDER_KEYS : list string :=
  ["description"; "error"; "message"; "note"; "placeholder"; "status"].
Definition MAX_ARTIFACT_LENGTH : nat := 2 ^ 18.
Definition PLACEHOLDER_SCAN_MAX_CHARS : nat := 400.

Record ArtifactContract := mkContract {
  ac_kind : string;
  ac_required : bool;
  ac_aliases : list string;
}.

Record ContractDiagnostic := mkDiag { dg_field : string; dg_code : string }.

(** ** Parsing declarations *)

Fixpoint alias_strings (l : list pyval) : option (list string) :=
  match l with
  | [] => Some []
  | VStr s :: l' => if decide (strip s = "") then None else r ← alias_strings l'; Some (s :: r)
  | _ :: _ => None
  end.

(** [tuple(dict.fromkeys(l))]: duplicates after the first are dropped. *)
Definition dedup (l : list string) : list string :=
  od_keys (foldl (fun d x => od_set x tt d) [] l).

(** [for contract_name in (field_name, *aliases)]: claim each name. *)
Fixpoint claim_names (field_name : string) (names : list string) (owners : odict string)
  : res (odict string) :=
  match names with
  | [] => Ok owners
  | n :: names' =>
      match od_get n owners with
      | Some _ => Raise (ConfigurationError "name collides with another contract")
      | None => claim_names field_name names' (od_set n field_name owners)
      end
  end.

Definition parse_declaration (field_name : string) (declaration : pyval) : res ArtifactContract :=
  let declaration := match declaration with VStr k => VDict [("kind", VStr k)] | d => d end in
  match declaration with
  | VDict d =>
      if decide (filter (fun k => k ∉ ["kind"; "required"; "aliases"]) (od_keys d) ≠ [])
      then Raise (ConfigurationError "unknown fields")
      else
        match od_get "kind" d with
        | Some (VStr kind) =>
            if decide (kind ≠ CODE_ARTIFACT) then Raise (ConfigurationError "kind must be one of")
            else
              match default (VBool true) (od_get "required" d) with
              | VBool required =>
                  match default (VList []) (od_get "aliases" d) with
                  | VList raw =>
                      match alias_strings raw with
                      | Some l =>
                          let aliases := dedup l in
                          if decide (field_name ∈ aliases)
                          then Raise (ConfigurationError "cannot alias itself")
                          else Ok (mkContract kind required aliases)
                      | None => Raise (ConfigurationError "aliases must be a list of strings")
                      end
                  | _ => Raise (ConfigurationError "aliases must be a list of strings")
                  end
              | _ => Raise (ConfigurationError "required must be a boolean")
              end
        | Some (VList _) | Some (VDict _) => Raise (TypeError "unhashable type")
        | _ => Raise (ConfigurationError "kind must be one of")
        end
  | _ => Raise (ConfigurationError "must be a mapping or contract kind")
  end.

Fixpoint parse_loop (raw : odict pyval) (owners : odict string) (contracts : odict ArtifactContract)
  : res (odict ArtifactContract) :=
  match raw with
  | [] => Ok contracts
  | (field_name, declaration) :: raw' =>
      if decide (strip field_name = "")
      then Raise (ConfigurationError "field names must be non-empty strings")
      else
        parse_declaration field_name declaration ≫= fun c =>
        claim_names field_name (field_name :: ac_aliases c) owners ≫= fun owners' =>
        parse_loop raw' owners' (od_set field_name c contracts)
  end.

Definition parse_artifact_contracts (raw : pyval) : res (odict ArtifactContract) :=
  match raw with
  | VNone => Ok []
  | VDict d => parse_loop d [] []
  | _ => Raise (ConfigurationError "must be a mapping")
  end.

Definition validate_contract_bindings {A} (contracts : odict ArtifactContract) (declared : odict A) : res unit :=
  if decide (filter (fun k => k ∉ od_keys declared) (od_keys contracts) = []) then Ok tt
  else Raise (ConfigurationError "keys must exist in the corresponding mapping").

(** ** File paths *)

Definition control_char (c : Ascii.ascii) : bool :=
  let n := Ascii.nat_of_ascii c in (n <? 32) || (n =? 127).

(** [s.split(c)] *)
Fixpoint split_on (c : Ascii.ascii) (s : string) : list string :=
  match s with
  | EmptyString => [""]
  | String a s' =>
      if decide (a = c) then "" :: split_on c s'
      else match split_on c s' with
           | p :: ps => String a p :: ps
           | [] => [String a ""]
           end
  end.

(** [_WINDOWS_DEVICE_RE.fullmatch], the device names with any extension. *)
Definition WINDOWS_DEVICES : list string :=
  ["con"; "prn"; "aux"; "nul";
   "com1"; "com2"; "com3"; "com4"; "com5"; "com6"; "com7"; "com8"; "com9";
   "lpt1"; "lpt2"; "lpt3"; "lpt4"; "lpt5"; "lpt6"; "lpt7"; "lpt8"; "lpt9"].
Definition windows_device (part : string) : bool :=
  bool_decide (before_char "."%char (lower part) ∈ WINDOWS_DEVICES).

Definition endswith_char (c : Ascii.ascii) (s : string) : bool :=
  bool_decide (last (chars s) = Some c).

Definition bad_part (part : string) : bool :=
  bool_decide (part ∈ [""; "."; ".."]) || endswith_char "."%char part || endswith_char " "%char part
  || windows_device part.

Definition safe_relative_path (path_value : string) : bool :=
  if decide (path_value = "" \/ path_value ≠ strip path_value) then false
  else if existsb control_char (chars path_value) then false
  else
    let normalized := replace_all "\"%char "/"%char path_value in
    if startswith normalized "/" || has_char ":"%char normalized then false
    else if existsb bad_part (split_on "/"%char normalized) then false
    else negb (startswith normalized "/").

(** ** Values *)

Record FileBlock := mkBlock { fb_start : nat; fb_end : nat; fb_path : string; fb_body : string }.

Section artifacts.
Context (placeholder_text : string -> bool) (file_blocks : string -> list FileBlock).

Definition entry_diagnostics (field_name path_value : string) (source : pyval) : list ContractDiagnostic :=
  if safe_relative_path path_value then
    (if decide (lower path_value ∈ PLACEHOLDER_KEYS)
     then [mkDiag field_name "placeholder_object"] else []) ++
    (match source with
     | VStr s =>
         if decide (strip s = "") then [mkDiag field_name "empty_source"]
         else if (String.length s <=? PLACEHOLDER_SCAN_MAX_CHARS) && placeholder_text s
         then [mkDiag field_name "placeholder"] else []
     | _ => [mkDiag field_name "empty_source"]
     end)
  else [mkDiag field_name "unsafe_path"].

(** Entries with an unsafe path do not count ([continue]). *)
Definition entry_size (path_value : string) (source : pyval) : nat :=
  if safe_relative_path path_value
  then String.length path_value + match source with VStr s => String.length s | _ => 0 end
  else 0.

Definition mapping_diagnostics (field_name : string) (value : odict pyval) : list ContractDiagnostic :=
  match value with
  | [] => [mkDiag field_name "empty"]
  | _ =>
      mjoin ((fun kv => entry_diagnostics field_name kv.1 kv.2) <$> value) ++
      (if MAX_ARTIFACT_LENGTH <? sum_list ((fun kv => entry_size kv.1 kv.2) <$> value)
       then [mkDiag field_name "too_large"] else [])
  end.

Fixpoint collect_blocks (text : string) (matches : list FileBlock) (cursor : nat) (files : odict string)
  : option (odict string) :=
  match matches with
  | [] => if decide (strip (String.substring cursor (String.length text - cursor) text) = "")
          then Some files else None
  | b :: matches' =>
      if decide (strip (String.substring cursor (fb_start b - cursor) text) = "")
      then collect_blocks text matches' (fb_end b) (od_set (strip (fb_path b)) (fb_body b) files)
      else None
  end.

Definition parse_complete_file_payload (text : string) : option (odict string) :=
  match file_blocks text with
  | [] => None
  | matches => collect_blocks text matches 0 []
  end.

Definition validate_code_artifact (field_name : string) (value : pyval) : list ContractDiagnostic :=
  match value with
  | VNone => [mkDiag field_name "missing"]
  | VDict d => mapping_diagnostics field_name d
  | VStr s =>
      let stripped := strip s in
      if decide (stripped = "") then [mkDiag field_name "empty"]
      else if MAX_ARTIFACT_LENGTH <? String.length stripped then [mkDiag field_name "too_large"]
      else
        match parse_complete_file_payload stripped with
        | Some (kv :: files) =>
            mapping_diagnostics field_name ((fun kv => (kv.1, VStr kv.2)) <$> (kv :: files))
        | _ => if placeholder_text stripped then [mkDiag field_name "placeholder"]
               else [mkDiag field_name "invalid_format"]
        end
  | _ => [mkDiag field_name "invalid_type"]
  end.

Definition validate_value (field_name : string) (value : pyval) (c : ArtifactContract)
  : res (list ContractDiagnostic) :=
  if decide (ac_kind c = CODE_ARTIFACT) then Ok (validate_code_artifact field_name value)
  else Raise (AssertionError "Unsupported artifact contract kind").

(** ** Normalization *)

Definition present_candidates (values : odict pyval) (field_name : string) (c : ArtifactContract) : list string :=
  filter (fun n => n ∈ od_keys values) (field_name :: ac_aliases c).

(** The first valid candidate, or the diagnostics of them all. *)
Fixpoint select_candidate (values : odict pyval) (c : ArtifactContract) (candidates : list string)
  : res (pyval + list ContractDiagnostic) :=
  match candidates with
  | [] => Ok (inr [])
  | n :: candidates' =>
      match od_get n values with
      | None => Raise (KeyError n)
      | Some v =>
          validate_value n v c ≫= fun diagnostics =>
          match diagnostics with
          | [] => Ok (inl v)
          | _ =>
              select_candidate values c candidates' ≫= fun r =>
              Ok (match r with inl v' => inl v' | inr ds => inr (diagnostics ++ ds) end)
          end
      end
  end.

Definition normalize_field (values : odict pyval) (field_name : string) (c : ArtifactContract)
    (s : odict pyval * list ContractDiagnostic) : res (odict pyval * list ContractDiagnostic) :=
  let '(normalized, all_diagnostics) := s in
  let present := present_candidates values field_name c in
  select_candidate values c present ≫= fun r =>
  Ok (match r with
      | inl v => (od_set field_name v normalized, all_diagnostics)
      | inr ds =>
          if ac_required c || negb (bool_decide (present = [])) then
            (normalized, all_diagnostics ++ match ds with [] => [mkDiag field_name "missing"] | _ => ds end)
          else (normalized, all_diagnostics)
      end).

Fixpoint normalize_fields (values : odict pyval) (contracts : odict ArtifactContract)
    (s : odict pyval * list ContractDiagnostic) : res (odict pyval * list ContractDiagnostic) :=
  match contracts with
  | [] => Ok s
  | (f, c) :: contracts' => normalize_field values f c s ≫= normalize_fields values contracts'
  end.

Definition pop_aliases (contracts : odict ArtifactContract) (d : odict pyval) : odict pyval :=
  foldl (fun d a => od_pop a d) d (mjoin ((fun fc => ac_aliases fc.2) <$> contracts)).

(** [inr] is [ArtifactContractError] with its diagnostics. *)
Definition validate_and_normalize_artifacts (values : odict pyval) (contracts : odict ArtifactContract)
  : res (odict pyval + list ContractDiagnostic) :=
  normalize_fields values contracts (values, []) ≫= fun '(normalized, all_diagnostics) =>
  Ok (match all_diagnostics with
      | [] => inl (pop_aliases contracts normalized)
      | ds => inr ds
      end).
End artifacts.

(** [if k not in keys: keys.append(k)] for each in turn. *)
Definition append_missing (keys more : list string) : list string :=
  foldl (fun keys k => if decide (k ∈ keys) then keys else keys ++ [k]) keys more.
Definition expected_output_keys (output_keys : list string) (contracts : odict ArtifactContract) : list string :=
  foldl (fun keys fc => append_missing keys (fc.1 :: ac_aliases fc.2)) output_keys contracts.

Example safe_examples :
  safe_relative_path "src/app/main.py" = true /\ safe_relative_path "..\etc/passwd" = false /\
  safe_relative_path "a//b" = false /\ safe_relative_path "C:/x" = false /\
  safe_relative_path "dir/Com1.txt" = false /\ safe_relative_path "a/b." = false.
Proof. vm_compute. done. Qed.
