(* ===== verification/ArtifactsFacts.v ===== *)
(** * Correctness of artifact contracts

    Parsed contracts own disjoint names; safe paths cannot leave their root;
    normalization promotes exactly the valid candidates and drops the aliases. *)

From S2P Require Import Prelude PyStr PyVal Artifacts.

(** ** Names of contracts *)

Definition contract_names (contracts : odict ArtifactContract) : list string :=
  mjoin ((fun fc => fc.1 :: ac_aliases fc.2) <$> contracts).

Lemma contract_names_app c1 c2 : contract_names (c1 ++ c2) = contract_names c1 ++ contract_names c2.
Proof. unfold contract_names. by rewrite fmap_app, join_app. Qed.

Lemma contract_names_snoc contracts f c :
  contract_names (contracts ++ [(f, c)]) = contract_names contracts ++ f :: ac_aliases c.
Proof.
  rewrite contract_names_app. f_equal. unfold contract_names. cbn. by rewrite app_nil_r.
Qed.

Lemma keys_contract_names contracts f : f ∈ od_keys contracts -> f ∈ contract_names contracts.
Proof.
  unfold od_keys, contract_names. intros ([f' c] & -> & Hin)%list_elem_of_fmap.
  apply list_elem_of_join. exists (f' :: ac_aliases c). split; [left|].
  apply list_elem_of_fmap. by exists (f', c).
Qed.

Lemma claim_names_ok field names owners owners' :
  claim_names field names owners = Ok owners' -> NoDup (od_keys owners) ->
  NoDup (od_keys owners ++ names) /\ od_keys owners' = od_keys owners ++ names.
Proof.
  revert owners. induction names as [|n names IH]; intros owners; cbn [claim_names].
  { intros [= <-]. by rewrite app_nil_r. }
  destruct (od_get n owners) eqn:E; [done|]. apply od_get_None in E. intros H Hnd.
  assert (od_keys (od_set n field owners) = od_keys owners ++ [n]) as Hk.
  { rewrite od_set_fresh by done. unfold od_keys. by rewrite fmap_app. }
  destruct (IH _ H) as [H1 H2]; [by apply NoDup_od_set|].
  rewrite Hk, <- app_assoc in H1. rewrite Hk, <- app_assoc in H2. done.
Qed.

Lemma parse_loop_ok raw owners contracts contracts' :
  parse_loop raw owners contracts = Ok contracts' ->
  od_keys owners = contract_names contracts -> NoDup (contract_names contracts) ->
  Forall (fun fc => ac_kind fc.2 = CODE_ARTIFACT) contracts ->
  NoDup (contract_names contracts') /\ od_keys contracts' = od_keys contracts ++ od_keys raw /\
  Forall (fun fc => ac_kind fc.2 = CODE_ARTIFACT) contracts'.
Proof.
  revert owners contracts. induction raw as [|[f d] raw IH]; intros owners contracts; cbn [parse_loop].
  { intros [= <-] _ ? ?. by rewrite app_nil_r. }
  case_decide as Hblank; [done|]. intros H Ho Hnd Hkind.
  apply res_bind_ok in H as (c & Hc & H). apply res_bind_ok in H as (owners' & Hcl & H).
  destruct (claim_names_ok _ _ _ _ Hcl) as [H1 H2]; [by rewrite Ho|]. rewrite Ho in H1, H2.
  assert (od_set f c contracts = contracts ++ [(f, c)]) as Hset.
  { apply od_set_fresh. intros Hf%keys_contract_names. apply NoDup_app in H1 as (_ & H1 & _).
    apply (H1 f Hf). left. }
  rewrite Hset in H.
  destruct (IH owners' (contracts ++ [(f, c)]) H) as (HA & HB & HC).
  - by rewrite H2, contract_names_snoc.
  - by rewrite contract_names_snoc.
  - apply Forall_app. split; [done|]. constructor; [|constructor]. simpl. clear -Hc.
    unfold parse_declaration in Hc. by repeat case_match; simplify_eq; try (apply dec_stable).
  - split; [done|]. split; [|done]. rewrite HB. unfold od_keys. rewrite fmap_app, <- app_assoc. done.
Qed.

(** ** Paths *)

(** Following path components from a root: [None] when [..] climbs out of it. *)
Fixpoint walk (stack parts : list string) : option (list string) :=
  match parts with
  | [] => Some stack
  | p :: parts' =>
      if decide (p ∈ [""; "."]) then walk stack parts'
      else if decide (p = "..") then match stack with [] => None | _ :: stack' => walk stack' parts' end
      else walk (p :: stack) parts'
  end.

Lemma walk_plain stack parts :
  (forall p, p ∈ parts -> p ∉ [""; "."; ".."]) -> walk stack parts = Some (reverse parts ++ stack).
Proof.
  revert stack. induction parts as [|p parts IH]; intros stack H; cbn [walk]; [done|].
  assert (p ∉ [""; "."; ".."]) as Hp by (apply H; left).
  rewrite !not_elem_of_cons in Hp. destruct Hp as (? & ? & ? & _).
  rewrite decide_False by (rewrite !elem_of_cons, elem_of_nil; naive_solver). rewrite decide_False by done.
  rewrite IH by (intros q Hq; apply H; by right). by rewrite reverse_cons, <- app_assoc.
Qed.

Lemma split_on_cons c s : exists p ps, split_on c s = p :: ps.
Proof.
  destruct s as [|a s]; simpl; [eauto|]. case_decide; [eauto|]. destruct (split_on c s); eauto.
Qed.

Lemma map_chars_cons f a s : map_chars f (String a s) = String (f a) (map_chars f s).
Proof. done. Qed.

#[local] Arguments map_chars : simpl never.

(** Splitting after replacing characters splits each part. *)
Lemma split_on_map c f s : f c = c ->
  split_on c (map_chars f s) = mjoin ((fun x => split_on c (map_chars f x)) <$> split_on c s).
Proof.
  intros Hf. induction s as [|a s IH]; [done|]. rewrite map_chars_cons. cbn [split_on].
  destruct (decide (a = c)) as [->|Hac].
  - rewrite Hf, decide_True by done. rewrite IH. done.
  - destruct (split_on_cons c s) as (p & ps & Hs). rewrite Hs in *. csimpl.
    change (of_chars (f <$> chars p)) with (map_chars f p).
    destruct (decide (f a = c)); [by rewrite IH|]. rewrite IH. csimpl.
    destruct (split_on_cons c (map_chars f p)) as (q & qs & Hq). by rewrite Hq.
Qed.

Abbreviation normalize_path := (replace_all "\"%char "/"%char).

Lemma startswith_first b p :
  startswith (normalize_path (String b p)) (String (replace_char "\"%char "/"%char b) "") = true.
Proof.
  change (normalize_path (String b p)) with (String (replace_char "\"%char "/"%char b) (normalize_path p)).
  cbn [startswith]. rewrite bool_decide_eq_true_2 by done. by destruct (normalize_path p).
Qed.

Lemma special_part_normalized p x :
  x ∈ [""; "."; ".."] -> x ∈ split_on "/"%char p -> x ∈ split_on "/"%char (normalize_path p).
Proof.
  intros Hx Hin. unfold replace_all. rewrite split_on_map by done. apply list_elem_of_join.
  exists (split_on "/"%char (map_chars (replace_char "\"%char "/"%char) x)). split.
  - rewrite !elem_of_cons, elem_of_nil in Hx. destruct Hx as [->|[->|[->|[]]]]; vm_compute; left.
  - apply list_elem_of_fmap. by exists x.
Qed.

Lemma safe_path_spec p :
  safe_relative_path p = true ->
  p ≠ "" /\ startswith (normalize_path p) "/" = false /\ has_char ":"%char (normalize_path p) = false /\
  forall x, x ∈ split_on "/"%char (normalize_path p) -> bad_part x = false.
Proof.
  unfold safe_relative_path. case_decide as Hp; [done|]. destruct (existsb control_char _); [done|].
  destruct (startswith (normalize_path p) "/") eqn:E1; [done|].
  destruct (has_char ":"%char (normalize_path p)) eqn:E2; [done|]. simpl.
  destruct (existsb bad_part _) eqn:E3; [done|]. intros _.
  split; [tauto|]. split; [done|]. split; [done|]. intros x Hx.
  apply not_true_iff_false. intros Hb. apply not_true_iff_false in E3. apply E3, existsb_exists.
  exists x. split; [by apply list_elem_of_In|done].
Qed.

(** ** Claims *)

(** A path the contracts accept stays inside the directory it is
    written under, whether backslashes separate components or not: it is
    neither absolute nor on a drive, no component is empty or a dot name, and
    following the components never climbs and ends exactly at them. *)
Theorem safe_path_confined p :
  safe_relative_path p = true ->
  startswith p "/" = false /\ startswith p "\" = false /\ has_char ":"%char p = false /\
  walk [] (split_on "/"%char p) = Some (reverse (split_on "/"%char p)) /\
  walk [] (split_on "/"%char (normalize_path p)) = Some (reverse (split_on "/"%char (normalize_path p))).
Proof.
  intros H%safe_path_spec. destruct H as (Hne & Habs & Hcol & Hparts).
  assert (forall x, x ∈ split_on "/"%char (normalize_path p) -> x ∉ [""; "."; ".."]) as Hn.
  { intros x Hx Hs. specialize (Hparts x Hx). unfold bad_part in Hparts.
    by rewrite bool_decide_eq_true_2 in Hparts. }
  assert (forall c, c ≠ "\"%char -> c ≠ "/"%char -> has_char c p = has_char c (normalize_path p)) as Hchar.
  { intros c H1 H2. unfold has_char, replace_all, map_chars. rewrite chars_of_chars.
    apply bool_decide_ext. rewrite list_elem_of_fmap. unfold replace_char. split.
    - intros Hc. exists c. split; [|done]. by rewrite decide_False.
    - intros (d & Hd & Hin). case_decide; congruence. }
  split; [|split; [|split; [|split]]].
  - destruct p as [|a p]; [done|]. cbn [startswith]. case_bool_decide as Ha; [subst a|done].
    by rewrite startswith_first in Habs.
  - destruct p as [|a p]; [done|]. cbn [startswith]. case_bool_decide as Ha; [subst a|done].
    by rewrite startswith_first in Habs.
  - by rewrite Hchar.
  - rewrite walk_plain; [by rewrite app_nil_r|]. intros x Hx Hs. by apply (Hn x); [apply special_part_normalized|].
  - rewrite walk_plain; [by rewrite app_nil_r|done].
Qed.

(** A successfully parsed declaration has one contract per declared
    field, in order, of a supported kind, and every name, canonical or alias,
    belongs to exactly one of them. *)
Theorem parsed_contracts_disjoint d contracts :
  parse_artifact_contracts (VDict d) = Ok contracts ->
  od_keys contracts = od_keys d /\ NoDup (contract_names contracts) /\
  Forall (fun fc => ac_kind fc.2 = CODE_ARTIFACT) contracts.
Proof.
  intros H. destruct (parse_loop_ok d [] [] contracts H) as (H1 & H2 & H3); [done|constructor|constructor|done].
Qed.

(** The prompt keys are the declared ones, then each canonical name and
    alias once, nothing else. *)
Theorem expected_output_keys_spec keys contracts :
  exists more, expected_output_keys keys contracts = keys ++ more /\
    (forall k, k ∈ more -> k ∈ contract_names contracts) /\
    (forall k, k ∈ contract_names contracts -> k ∈ keys ++ more) /\
    (NoDup keys -> NoDup (keys ++ more)).
Proof.
  assert (forall l keys, exists more, append_missing keys l = keys ++ more /\
    (forall k, k ∈ more -> k ∈ l) /\ (forall k, k ∈ l -> k ∈ keys ++ more) /\
    (NoDup keys -> NoDup (keys ++ more))) as Hap.
  { unfold append_missing. induction l as [|x l IH]; intros ks; cbn [foldl].
    { exists []. rewrite app_nil_r. set_solver. }
    case_decide as Hx.
    - destruct (IH ks) as (more & -> & H1 & H2 & H3). exists more. set_solver.
    - destruct (IH (ks ++ [x])) as (more & -> & H1 & H2 & H3). rewrite <- app_assoc in *.
      exists (x :: more). split; [done|]. split; [set_solver|]. split; [set_solver|].
      intros Hnd. apply H3. apply NoDup_app. split; [done|]. split; [|apply NoDup_singleton].
      by intros y Hy ->%list_elem_of_singleton. }
  unfold expected_output_keys. revert keys. induction contracts as [|[f c] contracts IH]; intros keys; cbn [foldl fst snd].
  { exists []. rewrite app_nil_r. set_solver. }
  destruct (Hap (f :: ac_aliases c) keys) as (m1 & -> & A1 & A2 & A3).
  destruct (IH (keys ++ m1)) as (m2 & -> & B1 & B2 & B3). rewrite <- app_assoc in *.
  exists (m1 ++ m2). assert (contract_names ((f, c) :: contracts) = (f :: ac_aliases c) ++ contract_names contracts) as -> by done.
  split; [done|]. split; [|split; [|auto]].
  - intros k [Hk|Hk]%elem_of_app; apply elem_of_app; [left|right]; auto.
  - intros k [Hk|Hk]%elem_of_app; [specialize (A2 k Hk)|specialize (B2 k Hk)];
      rewrite !elem_of_app in *; tauto.
Qed.

(** ** Normalization *)
Section normalize.
Context (placeholder_text : string -> bool) (file_blocks : string -> list FileBlock).

Abbreviation validate_code := (validate_code_artifact placeholder_text file_blocks).
Abbreviation normalize := (validate_and_normalize_artifacts placeholder_text file_blocks).

(** Whether a value satisfies the contract does not depend on the name it is
    checked under; only the diagnostics mention it. *)
Definition valid (v : pyval) : bool :=
  match validate_code "" v with [] => true | _ => false end.

Lemma entry_codes f g p s :
  dg_code <$> entry_diagnostics placeholder_text f p s = dg_code <$> entry_diagnostics placeholder_text g p s.
Proof. unfold entry_diagnostics. by repeat case_match. Qed.

Lemma mapping_codes f g d :
  dg_code <$> mapping_diagnostics placeholder_text f d = dg_code <$> mapping_diagnostics placeholder_text g d.
Proof.
  unfold mapping_diagnostics. destruct d as [|kv d]; [done|]. rewrite !fmap_app. f_equal; [|by case_match].
  generalize (kv :: d). clear. induction l as [|kv l IH]; [done|]. csimpl. rewrite !fmap_app, IH.
  f_equal. apply entry_codes.
Qed.

Lemma validate_codes f g v : dg_code <$> validate_code f v = dg_code <$> validate_code g v.
Proof.
  unfold validate_code_artifact. destruct v; try done; [|apply mapping_codes].
  repeat case_match; try done. apply mapping_codes.
Qed.

Lemma valid_spec f v : valid v = true <-> validate_code f v = [].
Proof.
  unfold valid. pose proof (validate_codes f "" v) as H.
  destruct (validate_code "" v); destruct (validate_code f v); done.
Qed.

(** Reference: the first candidate, canonical name first, that is present and valid. *)
Fixpoint first_valid (values : odict pyval) (names : list string) : option pyval :=
  match names with
  | [] => None
  | n :: names' =>
      match od_get n values with
      | Some v => if valid v then Some v else first_valid values names'
      | None => first_valid values names'
      end
  end.

(** A field that fails: no valid candidate, although required or present. *)
Definition rejected (values : odict pyval) (f : string) (c : ArtifactContract) : Prop :=
  first_valid values (f :: ac_aliases c) = None /\
  (ac_required c = true \/ exists n, n ∈ f :: ac_aliases c /\ n ∈ od_keys values).

Lemma select_spec values c names :
  ac_kind c = CODE_ARTIFACT ->
  match first_valid values names with
  | Some v => select_candidate placeholder_text file_blocks values c
                (filter (fun n => n ∈ od_keys values) names) = Ok (inl v)
  | None => exists ds, select_candidate placeholder_text file_blocks values c
                (filter (fun n => n ∈ od_keys values) names) = Ok (inr ds) /\
              (ds = [] -> filter (fun n => n ∈ od_keys values) names = [])
  end.
Proof.
  intros Hk. induction names as [|n names IH]; cbn [first_valid]; [by exists []|].
  rewrite filter_cons. destruct (od_get n values) as [v|] eqn:E.
  - rewrite decide_True by (apply od_get_is_Some; eauto). cbn [select_candidate]. rewrite E.
    unfold validate_value. rewrite decide_True by done. simpl.
    destruct (valid v) eqn:Hv.
    + apply (valid_spec n) in Hv. by rewrite Hv.
    + assert (validate_code n v ≠ []) as Hne by (rewrite <- (valid_spec n); congruence).
      destruct (validate_code n v) as [|d ds]; [done|].
      destruct (first_valid values names).
      * by rewrite IH.
      * destruct IH as (ds' & -> & _). simpl. eexists. split; [done|]. done.
  - rewrite decide_False; [done|]. by apply od_get_None.
Qed.

Lemma normalize_fields_spec values contracts normalized ds :
  Forall (fun fc => ac_kind fc.2 = CODE_ARTIFACT) contracts -> NoDup (od_keys contracts) ->
  exists normalized' ds',
    normalize_fields placeholder_text file_blocks values contracts (normalized, ds) = Ok (normalized', ds ++ ds') /\
    (ds' = [] <-> forall f c, (f, c) ∈ contracts -> ~ rejected values f c) /\
    (forall f c, (f, c) ∈ contracts -> od_get f normalized'
       = match first_valid values (f :: ac_aliases c) with Some v => Some v | None => od_get f normalized end) /\
    (forall k, k ∉ od_keys contracts -> od_get k normalized' = od_get k normalized).
Proof.
  unfold od_keys. revert normalized ds. induction contracts as [|[f c] contracts IH]; intros normalized ds.
  { intros _ _. exists normalized, []. rewrite app_nil_r. split; [done|]. split; [split; [|done]|].
    - by intros _ f c ?%elem_of_nil.
    - split; [by intros f c ?%elem_of_nil|done]. }
  intros [Hk Hks]%Forall_cons Hnd. csimpl in Hnd. apply NoDup_cons in Hnd as [Hf Hnd]. simpl in Hk.
  set (new := match first_valid values (f :: ac_aliases c) with Some v => od_set f v normalized | None => normalized end).
  assert (exists d, normalize_field placeholder_text file_blocks values f c (normalized, ds) = Ok (new, ds ++ d) /\
            (d = [] <-> ~ rejected values f c)) as (d & Hd & Hrej).
  { unfold normalize_field, new, rejected. pose proof (select_spec values c (f :: ac_aliases c) Hk) as Hs.
    unfold present_candidates. destruct (first_valid values (f :: ac_aliases c)) as [v|].
    - rewrite Hs. simpl. exists []. rewrite app_nil_r. split; [done|]. split; [|done]. by intros _ [? _].
    - destruct Hs as (ds' & -> & Hemp). simpl. set (pres := filter _ _) in *.
      assert (pres ≠ [] <-> exists n, n ∈ f :: ac_aliases c /\ n ∈ od_keys values) as Hp.
      { unfold pres. split.
        - intros Hne. destruct (filter _ _) as [|n l] eqn:E; [done|].
          assert (n ∈ n :: l) as Hin by left. rewrite <- E in Hin.
          apply list_elem_of_filter in Hin as [? ?]. eauto.
        - intros (n & Hn & Hv) Hnil. apply (not_elem_of_nil n). rewrite <- Hnil.
          by apply list_elem_of_filter. }
      destruct (ac_required c || negb (bool_decide (pres = []))) eqn:E.
      + eexists. split; [done|]. split; [by destruct ds'|]. intros Hn. exfalso. apply Hn. split; [done|].
        apply orb_true_iff in E as [->|E]; [by left|right]. apply Hp. intros ->. done.
      + exists []. rewrite app_nil_r. split; [done|]. split; [|done]. intros _ [_ [Hr|Hr]].
        * by rewrite Hr in E.
        * apply Hp in Hr. apply orb_false_iff in E as [_ E]. rewrite bool_decide_eq_false_2 in E by done. done. }
  destruct (IH new (ds ++ d) Hks Hnd) as (N & D & HN & HD & Hin & Hout).
  exists N, (d ++ D). cbn [normalize_fields]. rewrite Hd. simpl. rewrite HN, <- app_assoc. split; [done|].
  assert (od_get f new = match first_valid values (f :: ac_aliases c) with Some v => Some v | None => od_get f normalized end) as Hnew.
  { unfold new. destruct (first_valid _ _); [by rewrite od_get_set_eq|done]. }
  assert (forall k, k ≠ f -> od_get k new = od_get k normalized) as Hnewo.
  { intros k Hk'. unfold new. destruct (first_valid _ _); [by rewrite od_get_set_ne|done]. }
  split; [|split].
  - split.
    + intros [Hd0 HD0]%app_nil f' c' [[= -> ->]|Hin']%elem_of_cons; [by apply Hrej|by apply (proj1 HD)].
    + intros Hall. rewrite (proj2 Hrej), (proj2 HD); [done| |]; intros; apply Hall; [by right|by left].
  - intros f' c' [[= -> ->]|Hin']%elem_of_cons.
    + by rewrite Hout, Hnew.
    + rewrite (Hin f' c' Hin'), Hnewo; [done|]. intros ->. apply Hf. apply list_elem_of_fmap. by exists (f, c').
  - intros k [Hkf Hkn]%not_elem_of_cons. by rewrite Hout, Hnewo.
Qed.

Lemma od_get_pop_list l k (d : odict pyval) :
  od_get k (foldl (fun d a => od_pop a d) d l) = if decide (k ∈ l) then None else od_get k d.
Proof.
  revert d. induction l as [|a l IH]; intros d; cbn [foldl].
  { rewrite decide_False; [done|apply not_elem_of_nil]. }
  rewrite IH, od_get_pop. destruct (decide (k ∈ l)) as [H1|H1], (decide (k = a)) as [H2|H2],
    (decide (k ∈ a :: l)) as [H3|H3]; rewrite elem_of_cons in H3; try done; tauto.
Qed.

Definition all_aliases (contracts : odict ArtifactContract) : list string :=
  mjoin ((fun fc => ac_aliases fc.2) <$> contracts).

Lemma field_not_alias contracts f c :
  NoDup (contract_names contracts) -> (f, c) ∈ contracts -> f ∉ all_aliases contracts.
Proof.
  unfold contract_names, all_aliases. induction contracts as [|[f' c'] contracts IH]; csimpl;
    [by intros _ ?%elem_of_nil|].
  rewrite NoDup_cons, NoDup_app, elem_of_app. intros (Hf & Ha & Hd & Hnd).
  assert (forall x, x ∈ all_aliases contracts -> x ∈ contract_names contracts) as Hsub.
  { unfold all_aliases, contract_names. intros x (l & Hx & ([f2 c2] & -> & Hin)%list_elem_of_fmap)%list_elem_of_join.
    apply list_elem_of_join. exists (f2 :: ac_aliases c2). split; [by right|]. apply list_elem_of_fmap. by exists (f2, c2). }
  intros [[= -> ->]|Hin]%elem_of_cons.
  - intros [H|H]%elem_of_app; apply Hf; [by left|right; by apply Hsub].
  - intros [H|H]%elem_of_app; [|by apply IH]. apply (Hd f H). apply keys_contract_names.
    apply list_elem_of_fmap. by exists (f, c).
Qed.

#[local] Arguments first_valid : simpl never.

(** With disjoint contracts of the supported kind, normalization
    never raises anything but a contract failure, and fails exactly when some
    field has no valid candidate although it is required or present.  Otherwise
    every field holds the first valid candidate (the canonical value wins over
    aliases; an alias is promoted only if itself valid), no alias key is left,
    and all other keys are untouched. *)
Theorem normalization_correct values contracts :
  NoDup (contract_names contracts) -> Forall (fun fc => ac_kind fc.2 = CODE_ARTIFACT) contracts ->
  exists r, normalize values contracts = Ok r /\
  match r with
  | inr ds => ds ≠ [] /\ exists f c, (f, c) ∈ contracts /\ rejected values f c
  | inl out =>
      (forall f c, (f, c) ∈ contracts -> (~ rejected values f c) /\
         od_get f out = first_valid values (f :: ac_aliases c)) /\
      (forall f c a, (f, c) ∈ contracts -> a ∈ ac_aliases c -> od_get a out = None) /\
      (forall k, k ∉ contract_names contracts -> od_get k out = od_get k values)
  end.
Proof.
  intros Hnd Hk. assert (NoDup (od_keys contracts)) as Hnf.
  { clear Hk. revert Hnd. unfold contract_names, od_keys. induction contracts as [|[f c] l IH]; csimpl; [done|].
    rewrite NoDup_cons, NoDup_app. intros (Hf & _ & _ & Hl). constructor; [|auto]. intros Hin. apply Hf.
    apply elem_of_app. right. by apply keys_contract_names. }
  destruct (normalize_fields_spec values contracts values [] Hk Hnf) as (N & D & HN & HD & Hin & Hout).
  unfold validate_and_normalize_artifacts. rewrite HN. simpl.
  destruct D as [|d D]; eexists; (split; [done|]).
  - pose proof (proj1 HD eq_refl) as Hno. unfold pop_aliases. split; [|split].
    + intros f c Hfc. split; [by apply Hno|]. rewrite od_get_pop_list.
      rewrite decide_False by (by eapply field_not_alias). rewrite (Hin f c Hfc).
      destruct (first_valid values (f :: ac_aliases c)) eqn:E; [done|].
      apply od_get_None. intros Hf. apply (Hno f c Hfc). split; [done|]. right. exists f. split; [left|done].
    + intros f c a Hfc Ha. rewrite od_get_pop_list, decide_True; [done|].
      apply list_elem_of_join. exists (ac_aliases c). split; [done|]. apply list_elem_of_fmap. by exists (f, c).
    + intros k Hkn. rewrite od_get_pop_list, decide_False.
      * apply Hout. intros ?%keys_contract_names. done.
      * intros (l & Hl & ([f c] & -> & Hfc)%list_elem_of_fmap)%list_elem_of_join. apply Hkn.
        apply list_elem_of_join. exists (f :: ac_aliases c). split; [by right|].
        apply list_elem_of_fmap. by exists (f, c).
  - split; [done|].
    assert (exists f c, (f, c) ∈ contracts /\ (first_valid values (f :: ac_aliases c) = None /\
       (ac_required c || existsb (fun n => bool_decide (n ∈ od_keys values)) (f :: ac_aliases c) = true)))
      as (f & c & Hfc & Hfv & Hrp).
    { assert (Exists (fun fc => first_valid values (fc.1 :: ac_aliases fc.2) = None /\
         (ac_required fc.2 || existsb (fun n => bool_decide (n ∈ od_keys values)) (fc.1 :: ac_aliases fc.2) = true))
         contracts) as Hex.
      { apply dec_stable. intros Hne. apply not_Exists_Forall in Hne; [|apply _].
        assert (d :: D = []) as [=]. apply HD. intros f c Hfc [H1 H2].
        rewrite Forall_forall in Hne. apply (Hne (f, c) Hfc). split; [done|]. apply orb_true_iff.
        destruct H2 as [H2|(n & Hn & Hv)]; [by left|right]. apply existsb_exists. exists n.
        split; [by apply list_elem_of_In|by apply bool_decide_eq_true]. }
      apply Exists_exists in Hex as ([f c] & Hfc & H). by exists f, c. }
    exists f, c. split; [done|]. split; [done|]. apply orb_true_iff in Hrp as [->|He]; [by left|right].
    apply existsb_exists in He as (n & Hn%list_elem_of_In & Hv%bool_decide_eq_true). by exists n.
Qed.
End normalize.

(** ** Witnesses *)

Definition demo_contracts : odict ArtifactContract :=
  [("backend_code", mkContract CODE_ARTIFACT true ["api_code"])].
Definition demo_values : odict pyval :=
  [("backend_code", VStr "see README for details"); ("api_code", VDict [("src/app.py", VStr "x = 1")]);
   ("other", VInt 1)].

Lemma safe_path_confined_witness : walk [] (split_on "/"%char "src/app.py") = Some ["app.py"; "src"].
Proof. apply (safe_path_confined "src/app.py"). vm_compute. reflexivity. Defined.

Lemma parsed_contracts_disjoint_witness : NoDup (contract_names demo_contracts).
Proof.
  apply (parsed_contracts_disjoint
    [("backend_code", VDict [("kind", VStr "code_artifact"); ("aliases", VList [VStr "api_code"; VStr "api_code"])])]).
  vm_compute. reflexivity.
Defined.

Lemma normalization_correct_witness :
  exists r, validate_and_normalize_artifacts (fun _ => true) (fun _ => []) demo_values demo_contracts = Ok r.
Proof.
  destruct (normalization_correct (fun _ => true) (fun _ => []) demo_values demo_contracts) as (r & Hr & _).
  - apply (bool_decide_unpack _). vm_compute. exact I.
  - repeat constructor.
  - exists r. exact Hr.
Defined.
