(* ===== verification/Retry.v ===== *)
(** * Retry and backoff policies

    [RetryConfig] (engine/step.py), [ExponentialBackoff]
    (integrations/mcp/runtime/backoff.py), [classify_error] (core/errors.py) and
    the retry decorator (models/retry_utils.py).  Seconds are exact rationals;
    [random.uniform(-r, r)] is [u * r] for a draw [u] in [-1, 1]. *)

From S2P Require Import Prelude PyStr.
From Stdlib Require Import QArith Qpower Qminmax Lqa.
Local Open Scope Q_scope.

(** ** Step retries *)

Inductive RetryStrategy := StratNone | Fixed | Exponential | Linear.

Record RetryConfig := mkRetry {
  max_retries : Z;
  strategy : RetryStrategy;
  base_delay_seconds : Q;
  max_delay_seconds : Q;
  rc_jitter : Q;
}.

Definition default_retry : RetryConfig := mkRetry 3 Exponential 1 60 (1 # 10).

Definition get_delay (c : RetryConfig) (attempt : Z) (u : Q) : Q :=
  match strategy c with
  | StratNone => 0
  | s =>
      let base := match s with
                  | Fixed => base_delay_seconds c
                  | Linear => base_delay_seconds c * inject_Z attempt
                  | _ => base_delay_seconds c * Qpower 2 (attempt - 1)
                  end in
      let delay := Qmin base (max_delay_seconds c) in
      Qmax 0 (delay + u * (delay * rc_jitter c))
  end.

(** [isinstance] against the two tuples is a predicate on the error. *)
Definition should_retry {E} (retry_on no_retry_on : E -> bool) (error : E) : bool :=
  if no_retry_on error then false else retry_on error.

(** ** Reconnection backoff *)

Record Backoff := mkBackoff {
  initial_delay : Q;
  max_delay : Q;
  multiplier : Q;
  bo_jitter : Q;
  max_attempts : option Z;
  current_attempt : Z;
  current_delay : Q;
}.

Definition new_backoff (initial maxd mult jitter : Q) (attempts : option Z) : Backoff :=
  mkBackoff initial maxd mult jitter attempts 0 initial.

(** [if self.max_attempts and self._current_attempt >= self.max_attempts] *)
Definition attempts_used_up (b : Backoff) : bool :=
  match max_attempts b with
  | Some n => negb (n =? 0)%Z && (n <=? current_attempt b)%Z
  | None => false
  end.

Definition next_delay (b : Backoff) (u : Q) : Backoff * option Q :=
  if attempts_used_up b then (b, None)
  else
    let delay := Qmin (current_delay b) (max_delay b) in
    let jittered := Qmax (1 # 10) (delay + u * (delay * bo_jitter b)) in
    (mkBackoff (initial_delay b) (max_delay b) (multiplier b) (bo_jitter b) (max_attempts b)
       (current_attempt b + 1) (current_delay b * multiplier b), Some jittered).

Definition reset (b : Backoff) : Backoff :=
  mkBackoff (initial_delay b) (max_delay b) (multiplier b) (bo_jitter b) (max_attempts b) 0 (initial_delay b).

Definition is_exhausted (b : Backoff) : bool :=
  match max_attempts b with None => false | Some n => (n <=? current_attempt b)%Z end.

(** ** Error classification *)

Inductive ErrorCode := RATE_LIMITED | AUTH_ERROR | NOT_FOUND | MODEL_RETIRED | TRANSIENT | UNKNOWN.

#[export] Instance ErrorCode_eq_dec : EqDecision ErrorCode.
Proof. solve_decision. Defined.

(** [gone_status] is [_GONE_STATUS_RE.search], matched by Python's [re]. *)
Definition classify_error (gone_status : string -> bool) (error_message : string) : ErrorCode * bool :=
  let msg := lower error_message in
  if existsb (contains msg) ["rate limit"; "rate_limit"; "ratelimit"; "429"; "too many requests"]
  then (RATE_LIMITED, true)
  else if existsb (contains msg) ["401"; "403"; "unauthorized"; "forbidden"; "authentication"]
  then (AUTH_ERROR, false)
  else if gone_status msg || existsb (contains msg) ["end of life"; "end-of-life"]
  then (MODEL_RETIRED, false)
  else if contains msg "404" || contains msg "not found" then (NOT_FOUND, false)
  else (TRANSIENT, true).

(** ** The retry decorator *)

(** [parsed] is what the rate-limit tracker reads from the error's headers. *)
Definition resolve_rate_limit_delay (parsed : option Z) (cooldown default_delay : Q) : Q :=
  match parsed with
  | Some n => inject_Z n
  | None => Qmax default_delay cooldown
  end.

(** The delay, or [None] when the error is permanent and re-raised. *)
Definition compute_retry_delay (gone_status : string -> bool) (parsed : option Z) (cooldown : Q)
    (error : string) (attempt : Z) (base_delay maxd jitter u : Q) : option Q :=
  let '(code, retryable) := classify_error gone_status error in
  if retryable then
    let delay := Qmin (base_delay * Qpower 2 attempt) maxd in
    let delay := if decide (code = RATE_LIMITED) then resolve_rate_limit_delay parsed cooldown delay
                 else delay in
    Some (delay + delay * (u * jitter))
  else None.

Section retry.
Context {A : Type} (func : nat -> A + string) (delay_for : string -> nat -> option Q).

(** How the wrapped call ends, after how many calls. *)
Inductive RetryEnd :=
  | Returned (a : A) (calls : nat)
  | RaisedLast (error : string) (calls : nat)
  | ExhaustedNoError.

(** [for attempt in range(max_retries)]; [left] attempts remain. *)
Fixpoint retry_loop (attempt left : nat) (last_error : option string) : RetryEnd :=
  match left with
  | O => match last_error with
         | Some e => RaisedLast e attempt
         | None => ExhaustedNoError
         end
  | S left' =>
      match func attempt with
      | inl a => Returned a (S attempt)
      | inr e =>
          match left' with
          | O => RaisedLast e (S attempt)            (* last attempt: break, raise *)
          | S _ =>
              match delay_for e attempt with
              | None => RaisedLast e (S attempt)     (* permanent error re-raised *)
              | Some _ => retry_loop (S attempt) left' (Some e)
              end
          end
      end
  end.

Definition retry_with_jitter (max_retries : nat) : RetryEnd := retry_loop 0 max_retries None.
End retry.
Arguments RetryEnd A : clear implicits.
Arguments Returned {A} a calls.
Arguments RaisedLast {A} error calls.
Arguments ExhaustedNoError {A}.

(** ** Lemmas *)

Lemma Qmin_bounds a b : Qmin a b <= a /\ Qmin a b <= b.
Proof. split; [apply Q.le_min_l|apply Q.le_min_r]. Qed.

Lemma Qmin_nonneg a b : 0 <= a -> 0 <= b -> 0 <= Qmin a b.
Proof. intros. by apply Q.min_glb. Qed.

(** A jittered amount stays within its band. *)
Lemma jitter_band d j u :
  0 <= d -> 0 <= j -> -(1) <= u -> u <= 1 -> d * (1 - j) <= d + u * (d * j) /\ d + u * (d * j) <= d * (1 + j).
Proof.
  intros Hd Hj H1 H2. assert (0 <= d * j) as Hdj by (by apply Qmult_le_0_compat).
  assert (0 <= (1 - u) * (d * j)) by (apply Qmult_le_0_compat; lra).
  assert (0 <= (1 + u) * (d * j)) by (apply Qmult_le_0_compat; lra). lra.
Qed.

Lemma Qpower_nonneg a n : 0 <= a -> 0 <= Qpower a n.
Proof. apply Qpower_0_le. Qed.

(** ** Claims *)

(** A retry delay is never negative and exceeds neither the
    strategy's own delay for the attempt nor the configured maximum by more
    than the jitter fraction; without retries it is zero. *)
Theorem get_delay_bounds c attempt u :
  0 <= base_delay_seconds c -> 0 <= max_delay_seconds c -> 0 <= rc_jitter c ->
  (1 <= attempt)%Z -> -(1) <= u -> u <= 1 ->
  0 <= get_delay c attempt u /\
  get_delay c attempt u <= max_delay_seconds c * (1 + rc_jitter c) /\
  (strategy c = StratNone -> get_delay c attempt u = 0) /\
  (strategy c = Exponential ->
     get_delay c attempt u <= base_delay_seconds c * Qpower 2 (attempt - 1) * (1 + rc_jitter c)).
Proof.
  intros Hb Hm Hj Ha H1 H2.
  assert (forall base, 0 <= base -> 0 <= Qmax 0 (Qmin base (max_delay_seconds c) + u * (Qmin base (max_delay_seconds c) * rc_jitter c))
    /\ Qmax 0 (Qmin base (max_delay_seconds c) + u * (Qmin base (max_delay_seconds c) * rc_jitter c)) <= max_delay_seconds c * (1 + rc_jitter c)
    /\ Qmax 0 (Qmin base (max_delay_seconds c) + u * (Qmin base (max_delay_seconds c) * rc_jitter c)) <= base * (1 + rc_jitter c)) as Hgen.
  { intros base Hbase. pose proof (Qmin_bounds base (max_delay_seconds c)) as [Hl Hr].
    pose proof (Qmin_nonneg base (max_delay_seconds c) Hbase Hm) as Hd.
    set (d := Qmin base (max_delay_seconds c)) in *.
    destruct (jitter_band d (rc_jitter c) u Hd Hj H1 H2) as [_ Hup].
    assert (forall m, d <= m -> 0 <= m -> d * (1 + rc_jitter c) <= m * (1 + rc_jitter c) /\ 0 <= m * (1 + rc_jitter c)) as Hmono.
    { intros m Hdm Hm0. split; [apply Qmult_le_compat_r; lra|apply Qmult_le_0_compat; lra]. }
    split; [apply Q.le_max_l|]. split; apply Q.max_lub.
    - by apply (Hmono _ Hr).
    - destruct (Hmono _ Hr Hm). lra.
    - by apply (Hmono _ Hl).
    - destruct (Hmono _ Hl Hbase). lra. }
  assert (0 <= base_delay_seconds c * Qpower 2 (attempt - 1)) as Hexp
    by (apply Qmult_le_0_compat; [done|]; apply Qpower_nonneg; lra).
  assert (0 <= base_delay_seconds c * inject_Z attempt) as Hlin.
  { apply Qmult_le_0_compat; [done|]. change 0 with (inject_Z 0). rewrite <- Zle_Qle. lia. }
  unfold get_delay. destruct (strategy c) eqn:Hs.
  - assert (0 <= max_delay_seconds c * (1 + rc_jitter c)) by (apply Qmult_le_0_compat; lra).
    split; [lra|]. split; [done|]. split; [done|]. done.
  - destruct (Hgen _ Hb) as (? & ? & _). done.
  - destruct (Hgen _ Hexp) as (? & ? & ?). done.
  - destruct (Hgen _ Hlin) as (? & ? & _). done.
Qed.

Lemma get_delay_bounds_witness : 0 <= get_delay default_retry 3 (1 # 2).
Proof.
  destruct (get_delay_bounds default_retry 3 (1 # 2)) as [H _]; [vm_compute; discriminate..|exact H].
Defined.

(** ** Sequences of reconnection delays *)

(** [k] calls of [next_delay] with the given draws. *)
Fixpoint next_delays (b : Backoff) (draws : list Q) : Backoff * list (option Q) :=
  match draws with
  | [] => (b, [])
  | u :: draws' =>
      let '(b1, d) := next_delay b u in
      let '(b2, ds) := next_delays b1 draws' in (b2, d :: ds)
  end.

(** What the object remembers never changes. *)
Definition same_policy (b b' : Backoff) : Prop :=
  initial_delay b' = initial_delay b /\ max_delay b' = max_delay b /\ multiplier b' = multiplier b /\
  bo_jitter b' = bo_jitter b /\ max_attempts b' = max_attempts b.

(** The state after [k] delays were handed out. *)
Definition backoff_at (b : Backoff) (k : nat) : Prop :=
  current_attempt b = Z.of_nat k /\ current_delay b == initial_delay b * Qpower (multiplier b) (Z.of_nat k).

Lemma Qpower_succ q (k : nat) : Qpower q (Z.of_nat (S k)) == Qpower q (Z.of_nat k) * q.
Proof.
  rewrite Nat2Z.inj_succ. unfold Z.succ. destruct (Qeq_dec q 0) as [H0|H0].
  - rewrite H0. rewrite Qpower_0 by lia. ring.
  - rewrite Qpower_plus by done. by rewrite Qpower_1_r.
Qed.

Lemma next_delay_step b k u :
  backoff_at b k ->
  if attempts_used_up b then next_delay b u = (b, None)
  else exists b' d, next_delay b u = (b', Some d) /\ same_policy b b' /\ backoff_at b' (S k) /\
    d = Qmax (1 # 10) (Qmin (current_delay b) (max_delay b) + u * (Qmin (current_delay b) (max_delay b) * bo_jitter b)).
Proof.
  intros [Ha Hd]. unfold next_delay. destruct (attempts_used_up b); [done|].
  eexists _, _. split; [done|]. split; [done|]. split; [|done].
  split; cbn [current_attempt current_delay multiplier initial_delay].
  - rewrite Ha. lia.
  - rewrite Hd, Qpower_succ. ring.
Qed.

Lemma same_policy_trans b1 b2 b3 : same_policy b1 b2 -> same_policy b2 b3 -> same_policy b1 b3.
Proof. unfold same_policy. intros (?&?&?&?&?) (?&?&?&?&?). repeat split; congruence. Qed.

Lemma next_delays_spec b k draws :
  backoff_at b k ->
  let '(b', ds) := next_delays b draws in
  same_policy b b' /\ length ds = length draws /\
  (forall i d, ds !! i = Some (Some d) -> exists u, draws !! i = Some u /\
     exists c, c == initial_delay b * Qpower (multiplier b) (Z.of_nat (k + i)) /\
       d = Qmax (1 # 10) (Qmin c (max_delay b) + u * (Qmin c (max_delay b) * bo_jitter b))) /\
  (forall m, max_attempts b = Some m -> m <> 0%Z -> forall i, (i < length draws)%nat ->
     ds !! i = Some None <-> (m <= Z.of_nat (k + i))%Z).
Proof.
  revert b k. induction draws as [|u draws IH]; intros b k Hb; cbn [next_delays].
  { split; [done|]. split; [done|]. split; [done|]. intros m _ _ i Hi. simpl in Hi. lia. }
  pose proof (next_delay_step b k u Hb) as Hstep. destruct (attempts_used_up b) eqn:Hup.
  - rewrite Hstep. specialize (IH b k Hb). destruct (next_delays b draws) as [b' ds].
    destruct IH as (Hp & Hl & Hv & Hn).
    unfold attempts_used_up in Hup. destruct Hb as [Ha Hc].
    destruct (max_attempts b) as [m|] eqn:Hm; [|done]. rewrite Ha in Hup.
    assert (forall i d, ds !! i <> Some (Some d)) as Hnone.
    { intros i d Hi. assert (i < length draws)%nat as Hlt by (rewrite <- Hl; by eapply lookup_lt_Some).
      assert (ds !! i = Some None); [|congruence]. apply (Hn m); [done|lia|done|lia]. }
    split; [done|]. split; [simpl; lia|]. split.
    + intros [|i] d Hi; [done|]. simpl in Hi. exfalso. by eapply Hnone.
    + intros m' Hmn Hpos [|i] Hi; simpl.
      * split; [|done]. injection Hmn as <-. lia.
      * rewrite (Hn m') by (done || (simpl in Hi; lia)). injection Hmn as <-. lia.
  - destruct Hstep as (b1 & d & Hnd & Hp1 & Hb1 & Hd). rewrite Hnd.
    specialize (IH b1 (S k) Hb1). destruct (next_delays b1 draws) as [b' ds].
    destruct IH as (Hp & Hl & Hv & Hn). destruct Hp1 as (E1 & E2 & E3 & E4 & E5).
    split; [eapply same_policy_trans; [|done]; done|]. split; [simpl; lia|]. split.
    + intros [|i] d' Hi; simpl in Hi.
      * injection Hi as <-. exists u. split; [done|]. exists (current_delay b). split; [|done].
        rewrite Nat.add_0_r. apply Hb.
      * destruct (Hv i d' Hi) as (u' & Hu & c & Hc & Hd'). exists u'. split; [done|]. exists c.
        rewrite E1, E3 in Hc. rewrite E2, E4 in Hd'. split; [|done].
        by replace (k + S i)%nat with (S k + i)%nat by lia.
    + intros m Hmn Hpos [|i] Hi; simpl.
      * split; [done|]. intros Hle. exfalso. unfold attempts_used_up in Hup. rewrite Hmn in Hup.
        destruct Hb as [Ha _]. rewrite Ha in Hup. lia.
      * rewrite (Hn m) by (rewrite ?E5; done || (simpl in Hi; lia)). lia.
Qed.

(** From a fresh (or [reset]) policy with a limit of [n > 0]
    attempts, exactly the first [n] calls of [next_delay] return a delay; the
    [i]-th is [min (initial * multiplier^i) max], jittered and at least 0.1. *)
Theorem backoff_sequence b n draws :
  max_attempts b = Some (Z.of_nat n) -> (0 < n)%nat ->
  let '(b', ds) := next_delays (reset b) draws in
  (forall i, (i < length draws)%nat -> ds !! i = Some None <-> (n <= i)%nat) /\
  (forall i d, ds !! i = Some (Some d) -> exists u c, draws !! i = Some u /\
     c == initial_delay b * Qpower (multiplier b) (Z.of_nat i) /\
     d = Qmax (1 # 10) (Qmin c (max_delay b) + u * (Qmin c (max_delay b) * bo_jitter b))) /\
  reset b' = reset b.
Proof.
  intros Hm Hn. assert (backoff_at (reset b) 0) as Hb.
  { split; [done|]. simpl. ring. }
  pose proof (next_delays_spec (reset b) 0 draws Hb) as H.
  destruct (next_delays (reset b) draws) as [b' ds]. destruct H as ((E1 & E2 & E3 & E4 & E5) & _ & Hv & Hnone).
  split; [|split].
  { intros i Hi. rewrite (Hnone (Z.of_nat n)) by (done || lia). lia. }
  - intros i d Hi. destruct (Hv i d Hi) as (u & Hu & c & Hc & Hd). by exists u, c.
  - unfold reset in *. simpl in *. by rewrite E1, E2, E3, E4, E5.
Qed.

Lemma backoff_sequence_witness :
  let '(b', ds) := next_delays (reset (new_backoff 1 30 2 (1 # 5) (Some 2%Z))) [0; 0; 0] in
  forall i, (i < 3)%nat -> ds !! i = Some None <-> (2 <= i)%nat.
Proof.
  pose proof (backoff_sequence (new_backoff 1 30 2 (1 # 5) (Some 2%Z)) 2 [0; 0; 0] eq_refl ltac:(lia)) as H.
  destruct (next_delays (reset (new_backoff 1 30 2 (1 # 5) (Some 2%Z))) [0; 0; 0]) as [b' ds].
  apply H.
Defined.

(** A limit of zero attempts is read two ways: [is_exhausted] reports
    the policy as used up from the start, while [next_delay] never stops. *)
Theorem backoff_zero_attempts b draws :
  max_attempts b = Some 0%Z -> (0 <= current_attempt b)%Z ->
  is_exhausted b = true /\
  Forall (fun d => d <> None) (next_delays b draws).2 /\ length (next_delays b draws).2 = length draws.
Proof.
  intros Hm Ha. split; [unfold is_exhausted; rewrite Hm; lia|].
  revert b Hm Ha. induction draws as [|u draws IH]; intros b Hm Ha; cbn [next_delays]; [split; [constructor|done]|].
  unfold next_delay, attempts_used_up. rewrite Hm. simpl.
  set (b1 := mkBackoff _ _ _ _ _ _ _). destruct (IH b1 eq_refl) as [H1 H2]; [simpl; lia|].
  destruct (next_delays b1 draws). simpl in *. split; [by constructor|lia].
Qed.

Lemma backoff_zero_attempts_witness : is_exhausted (new_backoff 1 30 2 (1 # 5) (Some 0%Z)) = true.
Proof. apply (backoff_zero_attempts _ []); [reflexivity|simpl; lia]. Defined.

(** ** The retry decorator *)

(** What ends the loop: the first success or permanent error, or the last attempt. *)
Definition attempt_stops {A} (func : nat -> A + string) (delay_for : string -> nat -> option Q) (i : nat) : bool :=
  match func i with inl _ => true | inr e => match delay_for e i with None => true | Some _ => false end end.

Lemma retry_loop_spec {A} (func : nat -> A + string) delay_for attempt left last :
  match retry_loop func delay_for attempt left last with
  | Returned a calls =>
      (attempt < calls <= attempt + left)%nat /\ func (calls - 1)%nat = inl a /\
      forall i, (attempt <= i < calls - 1)%nat -> attempt_stops func delay_for i = false
  | RaisedLast e calls =>
      (left = 0%nat /\ last = Some e /\ calls = attempt) \/
      ((attempt < calls <= attempt + left)%nat /\ func (calls - 1)%nat = inr e /\
       (calls = (attempt + left)%nat \/ delay_for e (calls - 1)%nat = None) /\
       forall i, (attempt <= i < calls - 1)%nat -> attempt_stops func delay_for i = false)
  | ExhaustedNoError => left = 0%nat /\ last = None
  end.
Proof.
  revert attempt last. induction left as [|left IH]; intros attempt last; cbn [retry_loop].
  { destruct last; auto. }
  destruct (func attempt) as [a|e] eqn:E.
  - split; [lia|]. simpl. rewrite Nat.sub_0_r. split; [done|]. lia.
  - destruct left as [|left].
    { right. split; [lia|]. simpl. rewrite Nat.sub_0_r. split; [done|]. split; [left; lia|lia]. }
    destruct (delay_for e attempt) as [d|] eqn:Hd.
    2: { right. split; [lia|]. simpl. rewrite Nat.sub_0_r. split; [done|]. split; [by right|lia]. }
    specialize (IH (S attempt) (Some e)).
    assert (attempt_stops func delay_for attempt = false) as Hs by (unfold attempt_stops; by rewrite E, Hd).
    destruct (retry_loop func delay_for (S attempt) (S left) (Some e)).
    + destruct IH as (H1 & H2 & H3). split; [lia|]. split; [done|]. intros i Hi.
      destruct (decide (i = attempt)) as [->|]; [done|]. apply H3. lia.
    + destruct IH as [[? _]|(H1 & H2 & H3 & H4)]; [done|]. right. split; [lia|]. split; [done|]. split.
      * destruct H3; [left; lia|by right].
      * intros i Hi. destruct (decide (i = attempt)) as [->|]; [done|]. apply H4. lia.
    + destruct IH as [? _]. done.
Qed.

(** With a positive limit the decorated call makes at most
    [max_retries] calls and stops at the first success, returning it, or at the
    first permanent error, re-raising it; failing that it raises the error of
    the last call. *)
Theorem retry_stops_right {A} (func : nat -> A + string) delay_for limit :
  (0 < limit)%nat ->
  match retry_with_jitter func delay_for limit with
  | Returned a calls =>
      (0 < calls <= limit)%nat /\ func (calls - 1)%nat = inl a /\
      forall i, (i < calls - 1)%nat -> attempt_stops func delay_for i = false
  | RaisedLast e calls =>
      (0 < calls <= limit)%nat /\ func (calls - 1)%nat = inr e /\
      (calls = limit \/ delay_for e (calls - 1)%nat = None) /\
      forall i, (i < calls - 1)%nat -> attempt_stops func delay_for i = false
  | ExhaustedNoError => False
  end.
Proof.
  intros Hl. unfold retry_with_jitter. pose proof (retry_loop_spec func delay_for 0 limit None) as H.
  destruct (retry_loop func delay_for 0 limit None).
  - destruct H as (H1 & H2 & H3). split; [lia|]. split; [done|]. intros i Hi. apply H3. lia.
  - destruct H as [(? & _)|(H1 & H2 & H3 & H4)]; [lia|]. split; [lia|]. split; [done|].
    split; [|intros i Hi; apply H4; lia]. destruct H3; [left; lia|by right].
  - lia.
Qed.

Definition flaky (i : nat) : string + string :=
  match i with 0%nat => inr "HTTP 503" | 1%nat => inr "Rate limit exceeded" | _ => inl "ok" end.
Definition flaky_delay (e : string) (i : nat) : option Q :=
  compute_retry_delay (fun _ => false) None 30 e (Z.of_nat i) 1 30 (1 # 2) (1 # 2).

Example flaky_run : retry_with_jitter flaky flaky_delay 3 = Returned "ok" 3.
Proof. vm_compute. reflexivity. Qed.
Example permanent_run : retry_with_jitter (fun _ => inr "401 Unauthorized" : string + string) flaky_delay 3
  = RaisedLast "401 Unauthorized" 1.
Proof. vm_compute. reflexivity. Qed.

Lemma retry_stops_right_witness :
  (0 < 3 <= 3)%nat /\ flaky 2 = inl "ok" /\
  forall i, (i < 2)%nat -> attempt_stops flaky flaky_delay i = false.
Proof. exact (retry_stops_right flaky flaky_delay 3 ltac:(lia)). Defined.
