(* ===== verification/Step.v ===== *)
(** * Step execution (engine/step.py)

    [StepExecutor.execute] as a program in a state and exception monad: the
    state is the context store, the rest of the world, the step's result object
    and a count of the calls of the step function.  Step functions, hooks,
    conditions, the expression evaluator, the verification gate and
    [asyncio.sleep] are arbitrary computations on the store and the world;
    [asyncio.timeout] shows as a [TimeoutError] raised by the step function.  The
    matches of the two regular expressions of [_salvage_review_report] and
    [str()] are parameters. *)

From S2P Require Import Prelude PyStr PyVal Messages Tracking Context Artifacts Retry.
From stdpp Require Import pretty.
From Stdlib Require Import QArith Qcanon.

(** ** Exceptions *)

(** [KCancelled]: [asyncio.CancelledError], which [except Exception] does not catch. *)
Inductive ExcKind := KCancelled | KTimeout | KContract (diagnostics : list ContractDiagnostic) | KException.

Record PyExc := mkExc { ex_kind : ExcKind; ex_type : string; ex_msg : string }.

Definition exc_of (e : exn) : PyExc :=
  match e with
  | ValueError m => mkExc KException "ValueError" m
  | TypeError m => mkExc KException "TypeError" m
  | KeyError m => mkExc KException "KeyError" m
  | AssertionError m => mkExc KException "AssertionError" m
  | RuntimeError m => mkExc KException "RuntimeError" m
  | _ => mkExc KException "Exception" ""
  end.
Definition contract_error (ds : list ContractDiagnostic) : PyExc :=
  mkExc (KContract ds) "ArtifactContractError" "Artifact contract validation failed".

(** ** The monad *)
Section monad.
Context {S : Type}.

Definition M (A : Type) : Type := S -> S * (A + PyExc).
Definition ret {A} (a : A) : M A := fun s => (s, inl a).
Definition raise {A} (e : PyExc) : M A := fun s => (s, inr e).
Definition bind {A B} (m : M A) (f : A -> M B) : M B := fun s =>
  match m s with (s', inl a) => f a s' | (s', inr e) => (s', inr e) end.
Definition get : M S := fun s => (s, inl s).
Definition modify (f : S -> S) : M unit := fun s => (f s, inl tt).
Definition try_except {A} (m : M A) (handler : PyExc -> M A) : M A := fun s =>
  match m s with (s', inl a) => (s', inl a) | (s', inr e) => handler e s' end.
Fixpoint for_each {A} (f : A -> M unit) (l : list A) : M unit :=
  match l with [] => ret tt | x :: l' => bind (f x) (fun _ => for_each f l') end.
Fixpoint map_m {A B} (f : A -> M B) (l : list A) : M (list B) :=
  match l with
  | [] => ret []
  | x :: l' => bind (f x) (fun y => bind (map_m f l') (fun ys => ret (y :: ys)))
  end.

(** Weakest precondition: [Q] of the outcome and the final state. *)
Definition wp {A} (m : M A) (Q : A + PyExc -> S -> Prop) (s : S) : Prop := let '(s', r) := m s in Q r s'.
End monad.
Arguments M S A : clear implicits.
Notation "x <- m ; k" := (bind m (fun x => k)) (at level 100, m at next level, right associativity, only parsing).
Notation "m ;; k" := (bind m (fun _ => k)) (at level 100, right associativity, only parsing).

(** ** Python helpers *)

Definition truthy (v : pyval) : bool :=
  match v with
  | VNone => false | VBool b => b | VInt z => negb (z =? 0)%Z
  | VFloat q => negb (bool_decide (q = Q2Qc 0)) | VStr s => negb (bool_decide (s = ""))
  | VList l | VTuple l => negb (bool_decide (l = [])) | VDict d => negb (bool_decide (d = []))
  | VObj _ _ => true
  end.

(** [int(v)]: [None] where Python raises [TypeError] or [ValueError]. *)
Definition py_int (v : pyval) : option Z :=
  match v with
  | VInt z => Some z
  | VBool b => Some (if b then 1 else 0)%Z
  | VFloat q => Some (Z.quot (Qnum q) (Zpos (Qden q)))
  | VStr s => int_of_string s
  | _ => None
  end.

(** ** Definitions and the executor *)

Record World (E : Type) := mkWorld { w_store : store; w_env : E }.
Arguments mkWorld {E}. Arguments w_store {E}. Arguments w_env {E}.

Record Verify := mkVerify {
  v_enabled : bool;
  v_commands : list string;
  v_stop_on_first_failure : bool;
  v_escalation_strategy : string;
}.

Record StepDef (E : Type) := mkStepDef {
  sd_name : string;
  sd_tier : option Z;
  sd_func : option (loc -> M (World E) (option (odict pyval)));
  sd_timeout : option string;
  sd_retry : RetryConfig;
  sd_should_retry : PyExc -> bool;      (* [RetryConfig.should_retry] *)
  sd_when : option (loc -> M (World E) bool);
  sd_unless : option (loc -> M (World E) bool);
  sd_loop_until : option string;
  sd_loop_max : option Z;
  sd_depends_on : list string;
  sd_input_mapping : odict pyval;
  sd_output_mapping : odict string;
  sd_input_contracts : odict ArtifactContract;
  sd_output_contracts : odict ArtifactContract;
  sd_pre_hooks : list (loc -> M (World E) unit);
  sd_post_hooks : list (loc -> M (World E) unit);
  sd_error_hooks : list (loc -> M (World E) unit);
  sd_verify : option Verify;
  sd_metadata : odict pyval;
}.
Arguments sd_name {E}. Arguments sd_tier {E}. Arguments sd_func {E}. Arguments sd_timeout {E}.
Arguments sd_retry {E}. Arguments sd_should_retry {E}. Arguments sd_when {E}. Arguments sd_unless {E}.
Arguments sd_loop_until {E}. Arguments sd_loop_max {E}. Arguments sd_depends_on {E}.
Arguments sd_input_mapping {E}. Arguments sd_output_mapping {E}. Arguments sd_input_contracts {E}.
Arguments sd_output_contracts {E}. Arguments sd_pre_hooks {E}. Arguments sd_post_hooks {E}.
Arguments sd_error_hooks {E}. Arguments sd_verify {E}. Arguments sd_metadata {E}.

(** [_validate_timeout_seconds], run by [__post_init__] and [with_timeout]. *)
Definition validate_timeout_seconds (seconds : option Q) : res unit :=
  match seconds with
  | Some s => if Qle_bool s 0 then Raise (ValueError "timeout_seconds must be > 0 or None") else Ok tt
  | None => Ok tt
  end.

Inductive AttemptOutcome := RETRY | BREAK | RETURN.

(** The state while [execute] runs. *)
Record St (E : Type) := mkSt { st_world : World E; st_result : StepResult; st_calls : nat }.
Arguments mkSt {E}. Arguments st_world {E}. Arguments st_result {E}. Arguments st_calls {E}.

(** What the executor calls: JMESPath and the expression evaluator
    ([evaluate], [resolve_variable], [VARIABLE_PATTERN.fullmatch]), the
    verification gate, [asyncio.sleep], [random.uniform], the clock, the two
    [re.search] of [_salvage_review_report], [str()], and the two text scans of
    the artifact contracts. *)
Class Collaborators (E : Type) := {
  jmes : string -> odict pyval -> option pyval;
  evaluate : loc -> string -> M (World E) bool;
  resolve_variable : loc -> string -> M (World E) pyval;
  match_variable : string -> option string;
  run_checks : list string -> bool -> M (World E) (string * list string);
  sleep : Q -> M (World E) unit;
  draw : World E -> Q;
  now : World E -> Z;
  re_status : string -> option string;
  re_approved : string -> option string;
  py_str : pyval -> string;
  placeholder_text : string -> bool;
  file_blocks : string -> list FileBlock;
}.

Section executor.
Context {E : Type} `{!Collaborators E}.

#[local] Abbreviation P := (M (St E)).
Implicit Types (sd : StepDef E) (ctx child_ctx : loc).

(** A computation of the outside world. *)
Definition lift {A} (m : M (World E) A) : P A := fun s =>
  let '(w, r) := m (st_world s) in (mkSt w (st_result s) (st_calls s), r).
Definition update_result (f : StepResult -> StepResult) : P unit :=
  modify (fun s => mkSt (st_world s) (f (st_result s)) (st_calls s)).
Definition result : P StepResult := s <- get; ret (st_result s).
Definition update_store (f : store -> store) : P unit :=
  modify (fun s => mkSt (mkWorld (f (w_store (st_world s))) (w_env (st_world s))) (st_result s) (st_calls s)).
Definition store_op (f : store -> res store) : P unit :=
  s <- get;
  match f (w_store (st_world s)) with
  | Ok st => update_store (fun _ => st)
  | Raise e => raise (exc_of e)
  end.
Definition track (ctx : loc) (f : Tracking -> Tracking) : P unit :=
  update_store (fun st => on_ctx (fun c => set_tracking (f (cx_tracking c)) c) st ctx).

(** *** Conditions *)

Definition deps_ready (sd : StepDef E) (t : Tracking) : bool :=
  forallb (fun dep => is_step_complete t dep && negb (is_step_failed t dep)) (sd_depends_on sd).

Definition tracking_of (ctx : loc) : P Tracking :=
  s <- get; ret (default fresh_tracking (cx_tracking <$> w_store (st_world s) !! ctx)).

Definition should_run (sd : StepDef E) (ctx : loc) : P bool :=
  t <- tracking_of ctx;
  if negb (deps_ready sd t) then ret false
  else
    w <- match sd_when sd with None => ret true | Some f => lift (f ctx) end;
    if negb w then ret false
    else
      u <- match sd_unless sd with None => ret false | Some f => lift (f ctx) end;
      ret (negb u).

(** *** Hooks *)

(** [except Exception]: everything but a cancellation. *)
Definition is_exception (e : PyExc) : bool := match ex_kind e with KCancelled => false | _ => true end.

Definition run_error_hooks (sd : StepDef E) (ctx : loc) : P unit :=
  for_each (fun hook => try_except (lift (hook ctx))
              (fun e => if is_exception e then ret tt else raise e)) (sd_error_hooks sd).

Definition run_pre_hooks (sd : StepDef E) (ctx : loc) : P bool :=
  try_except (for_each (fun hook => lift (hook ctx)) (sd_pre_hooks sd);; ret true)
    (fun e =>
       if is_exception e then
         let msg := "Pre-hook failed: " +:+ ex_msg e in
         update_result (fun r => set_sr_error (Some msg) (sr_error_type r) (set_sr_status StFailed r));;
         track ctx (mark_step_failed (sd_name sd));;
         ret false
       else raise e).

(** *** Inputs *)

(** [expr.startswith("${") and expr.endswith("}")], then [expr[2:-1].strip()]. *)
Definition expression_body (s : string) : option string :=
  let expr := strip s in
  if startswith expr "${" && endswith_char "}"%char expr
  then Some (strip (String.substring 2 (String.length expr - 3) expr)) else None.

Definition resolve_input_mapping_value (ctx : loc) (v : pyval) : P pyval :=
  match v with
  | VStr s =>
      match expression_body s with
      | Some body => lift (resolve_variable ctx body)
      | None => st <- get; ret (get_sync jmes (w_store (st_world st)) ctx s VNone)
      end
  | v => ret v
  end.

(** A location no context has. *)
Definition fresh_loc (s : store) : loc := S (map_fold (fun l _ m => Nat.max l m) 0%nat s).

Definition new_child (ctx : loc) (name : string) : P loc :=
  s <- get;
  let l := fresh_loc (w_store (st_world s)) in
  update_store (fun st => child st ctx l (Some name));;
  ret l.

Definition validate_artifacts (values : odict pyval) (contracts : odict ArtifactContract) : P (odict pyval) :=
  match validate_and_normalize_artifacts placeholder_text file_blocks values contracts with
  | Ok (inl d) => ret d
  | Ok (inr ds) => raise (contract_error ds)
  | Raise e => raise (exc_of e)
  end.

Definition prepare_inputs (sd : StepDef E) (ctx : loc) : P loc :=
  child_ctx <- new_child ctx (sd_name sd);
  mapped <- map_m (fun kv : string * pyval =>
                     v <- resolve_input_mapping_value ctx kv.2; ret (kv.1, v)) (sd_input_mapping sd);
  update_result (fun r => set_sr_data mapped (sr_output_data r) r);;
  validated <- validate_artifacts mapped (sd_input_contracts sd);
  update_result (fun r => if decide (validated = mapped) then r
                          else set_sr_data validated (sr_output_data r) r);;
  for_each (fun kv : string * pyval => store_op (fun st => ctx_set st child_ctx (VStr kv.1) kv.2)) validated;;
  for_each (fun k => update_store (fun st => mask_inherited st child_ctx k))
    (filter (fun k => k ∉ od_keys validated) (od_keys mapped));;
  ret child_ctx.

(** The names and codes of the diagnostics, for [metadata]. *)
Definition diagnostics_value (ds : list ContractDiagnostic) : pyval :=
  VList ((fun d => VDict [("field", VStr (dg_field d)); ("kind", VStr CODE_ARTIFACT); ("code", VStr (dg_code d))]) <$> ds).

Definition diagnostics_of (e : PyExc) : list ContractDiagnostic :=
  match ex_kind e with KContract ds => ds | _ => [] end.

Definition set_meta (k : string) (v : pyval) (r : StepResult) : StepResult :=
  set_sr_metadata (od_set k v (sr_metadata r)) r.

(** [result.output_data = {}] and the diagnostics of a contract failure. *)
Definition record_contract_error (e : PyExc) (r : StepResult) : StepResult :=
  match ex_kind e with
  | KContract ds => set_meta "contract_diagnostics" (diagnostics_value ds) (set_sr_data (sr_input_data r) [] r)
  | _ => r
  end.

Definition fail_input_contract (sd : StepDef E) (ctx : loc) (e : PyExc) : P unit :=
  update_result (fun r => record_contract_error e (set_sr_error (sr_error r) (Some (ex_type e)) r));;
  run_error_hooks sd ctx;;
  s <- get;
  update_result (step_mark_complete false (Some (ex_msg e)) (now (st_world s)));;
  track ctx (mark_step_failed (sd_name sd)).

(** *** Outputs *)

Definition extract_meta (r : StepResult) : StepResult :=
  let meta := od_get "_meta" (sr_output_data r) in
  let r := set_sr_data (sr_input_data r) (od_pop "_meta" (sr_output_data r)) r in
  match meta with
  | Some (VDict m) =>
      let r := set_sr_model_used
                 (match od_get "model_used" m with
                  | None | Some VNone => None | Some (VStr s) => Some s | Some v => Some (py_str v) end) r in
      match od_get "tokens_used" m with
      | Some t => if truthy t then set_meta "tokens_used" t r else r
      | None => r
      end
  | _ => r
  end.

Definition salvage_review_report (sd : StepDef E) (r : StepResult) : StepResult :=
  if (negb (od_mem "review_report" (sd_output_mapping sd)) && negb (startswith (sd_name sd) "review"))
     || od_mem "review_report" (sr_output_data r)
  then r
  else
    let raw_text := py_str (default (VStr "") (od_get "raw_response" (sr_output_data r))) in
    let raw_status :=
      match re_status raw_text with
      | Some g => Some (strip g)
      | None =>
          match re_approved raw_text with
          | Some g => if bool_decide (lower g = "true") then Some "APPROVED" else None
          | None => None
          end
      end in
    set_sr_data (sr_input_data r)
      (od_set "review_report" (VDict [("overall_status", VStr (review_value (review_normalize raw_status)))])
         (sr_output_data r)) r.

(** [None] is [raw.strip()] on a value that has no such method. *)
Definition normalize_review_report (r : StepResult) : option StepResult :=
  match od_get "review_report" (sr_output_data r) with
  | Some (VDict rr) =>
      let put s := Some (set_sr_data (sr_input_data r)
        (od_set "review_report" (VDict (od_set "overall_status" (VStr (review_value (review_normalize s))) rr))
           (sr_output_data r)) r) in
      match od_get "overall_status" rr with
      | None => Some r
      | Some VNone => put None
      | Some (VStr s) => put (Some s)
      | Some _ => None
      end
  | _ => Some r
  end.

Definition map_outputs (sd : StepDef E) (ctx : loc) : P unit :=
  r <- result;
  for_each (fun kv : string * string =>
    match od_get kv.1 (sr_output_data r) with
    | Some v => store_op (fun st => ctx_set st ctx (VStr kv.2) v)
    | None => ret tt
    end) (sd_output_mapping sd).

Definition store_step_view (sd : StepDef E) (ctx : loc) : P unit :=
  r <- result;
  update_store (fun st => merge_step_view jmes st ctx (sd_name sd)
    (VDict [("status", VStr (status_value (sr_status r))); ("outputs", VDict (sr_output_data r))])).

Fixpoint join_comma (l : list string) : string :=
  match l with [] => "" | [x] => x | x :: l' => x +:+ ", " +:+ join_comma l' end.

Definition run_verification_gate (sd : StepDef E) (ctx : loc) : P bool :=
  match sd_verify sd with
  | Some v =>
      if negb (v_enabled v) then ret true
      else
        c <- lift (run_checks (v_commands v) (v_stop_on_first_failure v));
        let '(status, failing) := c in
        update_result (set_meta "verification_status" (VStr status));;
        update_result (fun r => match failing with [] => r
                       | _ => set_meta "verification_failing_checks" (VList (VStr <$> failing)) r end);;
        if bool_decide (status ≠ "passed") && bool_decide (v_escalation_strategy v = "block")
        then
          update_result (fun r => set_sr_error (Some ("Verification failed: " +:+ join_comma failing))
                                    (sr_error_type r) (set_sr_status StFailed r));;
          track ctx (mark_step_failed (sd_name sd));;
          ret false
        else ret true
  | None => ret true
  end.

(** *** Loops *)

Definition fallback_loop_max (sd : StepDef E) : Z :=
  Z.max 1 (match sd_loop_max sd with Some 0%Z | None => 3 | Some n => n end).

Definition resolve_loop_max (sd : StepDef E) (ctx : loc) : P Z :=
  match od_get "loop_max_expr" (sd_metadata sd) with
  | Some (VStr expr) =>
      if decide (expr = "") then ret (fallback_loop_max sd)
      else
        resolved <- match match_variable (strip expr) with
                    | Some v => lift (resolve_variable ctx (strip v))
                    | None => ret (VStr expr)
                    end;
        ret (match py_int resolved with Some n => Z.max 1 n | None => fallback_loop_max sd end)
  | _ => ret (fallback_loop_max sd)
  end.

Definition loop_iteration (r : StepResult) : Z :=
  match od_get "loop_iteration" (sr_metadata r) with Some (VInt n) => n | _ => 1 end.

Definition should_loop_again (sd : StepDef E) (ctx : loc) : P bool :=
  match sd_loop_until sd with
  | None | Some EmptyString => ret false
  | Some cond =>
      r <- result;
      let i := loop_iteration r in
      budget <- resolve_loop_max sd ctx;
      again <- (if (i <? budget)%Z then satisfied <- lift (evaluate ctx cond); ret (negb satisfied)
                else ret false);
      if again then
        update_result (fun r => set_sr_retry_count 0 (set_sr_status StRunning
                                  (set_meta "loop_iteration" (VInt (i + 1)) r)));;
        ret true
      else
        update_result (fun r => if od_mem "loop_iteration" (sr_metadata r) then r
                                else set_meta "loop_iteration" (VInt i) r);;
        ret false
  end.

(** *** One attempt *)

Definition handle_success (sd : StepDef E) (ctx : loc) (output : option (odict pyval)) : P AttemptOutcome :=
  update_result (fun r => set_sr_data (sr_input_data r) (default [] output) r);;
  update_result extract_meta;;
  update_result (salvage_review_report sd);;
  r <- result;
  (match normalize_review_report r with
   | Some r' => update_result (fun _ => r')
   | None => raise (mkExc KException "AttributeError" "object has no attribute 'strip'")
   end;;
   r <- result;
   out <- validate_artifacts (sr_output_data r) (sd_output_contracts sd);
   update_result (fun r => set_sr_status StSuccess
     (set_sr_metadata (od_pop "contract_diagnostics" (sr_metadata r))
       (set_sr_error None None (set_sr_data (sr_input_data r) out r))));;
   map_outputs sd ctx;;
   store_step_view sd ctx;;
   for_each (fun hook => lift (hook ctx)) (sd_post_hooks sd);;
   passed <- run_verification_gate sd ctx;
   if negb passed then ret RETURN
   else
     again <- should_loop_again sd ctx;
     if again then ret RETRY
     else track ctx (mark_step_complete (sd_name sd));; ret BREAK).

Definition fail_with (sd : StepDef E) (ctx : loc) (msg : string) (type : option string) : P AttemptOutcome :=
  update_result (fun r => set_sr_error (Some msg) type (set_sr_status StFailed r));;
  track ctx (mark_step_failed (sd_name sd));;
  ret BREAK.

Definition handle_cancelled (sd : StepDef E) (ctx : loc) : P AttemptOutcome :=
  fail_with sd ctx "Step was cancelled" (Some "CancelledError").

Definition handle_timeout (sd : StepDef E) (ctx : loc) : P AttemptOutcome :=
  fail_with sd ctx ("Step timed out after " +:+ default "None" (sd_timeout sd) +:+ "s") (Some "TimeoutError").

Definition handle_exception (sd : StepDef E) (ctx : loc) (e : PyExc) (attempt : Z) : P AttemptOutcome :=
  update_result (fun r => record_contract_error e (set_sr_error (Some (ex_msg e)) (Some (ex_type e)) r));;
  if ((attempt <=? max_retries (sd_retry sd))%Z && sd_should_retry sd e) then
    s <- get;
    let delay := get_delay (sd_retry sd) attempt (draw (st_world s)) in
    update_result (fun r => set_meta ("retry_" +:+ pretty attempt +:+ "_delay") (VFloat (Q2Qc delay))
                              (set_sr_status StRetrying r));;
    lift (sleep delay);;
    ret RETRY
  else
    run_error_hooks sd ctx;;
    update_result (set_sr_status StFailed);;
    track ctx (mark_step_failed (sd_name sd));;
    ret BREAK.

(** The call of the step function, counted. *)
Definition call_func (f : loc -> M (World E) (option (odict pyval))) (child_ctx : loc)
  : P (option (odict pyval)) :=
  modify (fun s => mkSt (st_world s) (st_result s) (S (st_calls s)));;
  lift (f child_ctx).

Definition run_attempt (sd : StepDef E) (f : loc -> M (World E) (option (odict pyval)))
    (ctx child_ctx : loc) (attempt : Z) : P AttemptOutcome :=
  try_except (output <- call_func f child_ctx; handle_success sd ctx output)
    (fun e =>
       match ex_kind e with
       | KCancelled => handle_cancelled sd ctx
       | KTimeout => handle_timeout sd ctx
       | _ => handle_exception sd ctx e attempt
       end).

(** *** The retry loop *)

(** [while attempt <= max_retries]; the result tells whether [mark_complete]
    follows.  [None]: the fuel ran out. *)
Fixpoint attempts_loop (fuel : nat) (sd : StepDef E) (f : loc -> M (World E) (option (odict pyval)))
    (ctx child_ctx : loc) (attempt : Z) : P (option bool) :=
  match fuel with
  | O => ret None
  | S fuel' =>
      if (attempt <=? max_retries (sd_retry sd))%Z then
        let attempt := (attempt + 1)%Z in
        update_result (set_sr_retry_count (attempt - 1));;
        outcome <- run_attempt sd f ctx child_ctx attempt;
        match outcome with
        | RETURN => ret (Some false)
        | BREAK => ret (Some true)
        | RETRY =>
            r <- result;
            if (match sd_loop_until sd with Some (String _ _) => true | _ => false end)
               && bool_decide (sr_status r = StRunning) then
              refreshed <- try_except (c <- prepare_inputs sd ctx; ret (Some c))
                (fun e => match ex_kind e with
                          | KContract _ => fail_input_contract sd ctx e;; ret None
                          | _ => raise e end);
              match refreshed with
              | None => ret (Some false)
              | Some child_ctx => attempts_loop fuel' sd f ctx child_ctx (attempt - 1)
              end
            else attempts_loop fuel' sd f ctx child_ctx attempt
        end
      else ret (Some true)
  end.

Definition run_step_body (fuel : nat) (sd : StepDef E) (f : loc -> M (World E) (option (odict pyval)))
    (ctx : loc) : P bool :=
  update_result (set_sr_status StRunning);;
  track ctx (mark_step_start (sd_name sd));;
  ok <- run_pre_hooks sd ctx;
  if negb ok then ret true
  else
    prepared <- try_except (c <- prepare_inputs sd ctx; ret (Some c))
      (fun e => match ex_kind e with
                | KContract _ => fail_input_contract sd ctx e;; ret None
                | _ => raise e end);
    match prepared with
    | None => ret true
    | Some child_ctx =>
        left <- attempts_loop fuel sd f ctx child_ctx 0;
        match left with
        | None => ret false
        | Some false => ret true
        | Some true =>
            s <- get;
            update_result (fun r => step_mark_complete (bool_decide (sr_status r = StSuccess)) (sr_error r)
                                      (now (st_world s)) r);;
            ret true
        end
    end.

(** [execute] up to the fuel: [false] only when it ran out. *)
Definition execute_body (fuel : nat) (sd : StepDef E) (ctx : loc) : P bool :=
  run <- should_run sd ctx;
  if negb run then
    update_result (fun r => set_meta "skip_reason" (VStr "conditions not met") (set_sr_status StSkipped r));;
    ret true
  else
    match sd_func sd with
    | None =>
        update_result (fun r => set_sr_error (Some "No function defined for step") (sr_error_type r)
                                  (set_sr_status StFailed r));;
        ret true
    | Some f => run_step_body fuel sd f ctx
    end.

Definition start (sd : StepDef E) (w : World E) : St E :=
  mkSt w (new_step_result (sd_name sd) StPending (sd_tier sd) (now w)) 0.

Definition execute (fuel : nat) (sd : StepDef E) (ctx : loc) (w : World E) : St E * (bool + PyExc) :=
  execute_body fuel sd ctx (start sd w).
End executor.
