(* ===== verification/StepFacts.v ===== *)
(** * The step executor: reasoning

    Weakest-precondition rules for the monad of [Step], what each helper of the
    executor keeps of the result object, and from them the behaviour of one
    attempt, of the retry and refinement loop, and of [execute]. *)

From stdpp Require Import pretty.
From Stdlib Require Import QArith Qcanon.
From S2P Require Import Prelude PyStr PyVal Messages Tracking Context ContextFacts Artifacts Retry Step.
Local Open Scope Z_scope.

(** ** Weakest preconditions *)
Section rules.
Context {S : Type}.
Implicit Types (s : S).

Lemma wp_ret {A} (a : A) Q s : Q (inl a) s -> wp (ret a) Q s.
Proof. done. Qed.
Lemma wp_raise {A} e (Q : A + PyExc -> S -> Prop) s : Q (inr e) s -> wp (raise e) Q s.
Proof. done. Qed.
Lemma wp_get (Q : S + PyExc -> S -> Prop) s : Q (inl s) s -> wp get Q s.
Proof. done. Qed.
Lemma wp_modify f (Q : unit + PyExc -> S -> Prop) s : Q (inl tt) (f s) -> wp (modify f) Q s.
Proof. done. Qed.
Lemma wp_mono {A} (m : M S A) (Q Q' : A + PyExc -> S -> Prop) s :
  wp m Q s -> (forall r s', Q r s' -> Q' r s') -> wp m Q' s.
Proof. unfold wp. destruct (m s). auto. Qed.
Lemma wp_bind {A B} (m : M S A) (f : A -> M S B) Q s :
  wp m (fun r s' => match r with inl a => wp (f a) Q s' | inr e => Q (inr e) s' end) s ->
  wp (bind m f) Q s.
Proof. unfold wp, bind. destruct (m s) as [s' [a|e]]; auto. Qed.
Lemma wp_try {A} (m : M S A) h Q s :
  wp m (fun r s' => match r with inl a => Q (inl a) s' | inr e => wp (h e) Q s' end) s ->
  wp (try_except m h) Q s.
Proof. unfold wp, try_except. destruct (m s) as [s' [a|e]]; auto. Qed.
Lemma wp_for_each {A} (I : S -> Prop) (f : A -> M S unit) l (Q : unit + PyExc -> S -> Prop) s :
  (forall x s1, x ∈ l -> I s1 -> wp (f x) (fun r s' => match r with inl _ => I s' | inr e => Q (inr e) s' end) s1) ->
  (forall s1, I s1 -> Q (inl tt) s1) -> I s -> wp (for_each f l) Q s.
Proof.
  revert s. induction l as [|x l IH]; intros s Hf HQ HI; simpl; [by apply wp_ret, HQ|].
  apply wp_bind. eapply wp_mono; [apply Hf; [left|done]|]. intros [[]|e] s'; [|done].
  intros HI'. apply IH; [|done|done]. intros y s1 Hy. apply Hf. by right.
Qed.
Lemma wp_intro {A} (m : M S A) (Q : A + PyExc -> S -> Prop) s :
  wp m Q s -> Q (m s).2 (m s).1.
Proof. unfold wp. by destruct (m s). Qed.
End rules.

(** ** Steps that keep an invariant of the result object and the call count *)
Section pres.
Context {E : Type} `{!Collaborators E}.
Implicit Types (I : StepResult -> nat -> Prop) (s : St E).

Definition inv I s : Prop := I (st_result s) (st_calls s).
Definition pres I {A} (m : M (St E) A) : Prop := forall s, inv I s -> inv I (m s).1.

Lemma pres_wp I {A} (m : M (St E) A) (Q : A + PyExc -> St E -> Prop) s :
  pres I m -> inv I s -> (forall r s', inv I s' -> Q r s') -> wp m Q s.
Proof. unfold wp. intros Hm HI HQ. specialize (Hm s HI). destruct (m s). auto. Qed.
Lemma wp_pres I {A} (m : M (St E) A) : (forall s, inv I s -> wp m (fun _ => inv I) s) -> pres I m.
Proof. intros H s HI. specialize (H s HI). unfold wp in H. by destruct (m s). Qed.
Lemma pres_ret I {A} (a : A) : pres I (ret a).
Proof. by intros s. Qed.
Lemma pres_raise I {A} e : pres I (raise (A := A) e).
Proof. by intros s. Qed.
Lemma pres_get I : pres I get.
Proof. by intros s. Qed.
Lemma pres_result I : pres I result.
Proof. by intros s. Qed.
Lemma pres_bind I {A B} (m : M (St E) A) (f : A -> M (St E) B) :
  pres I m -> (forall a, pres I (f a)) -> pres I (bind m f).
Proof.
  intros Hm Hf s HI. specialize (Hm s HI). unfold bind. destruct (m s) as [s' [a|e]]; [by apply Hf|done].
Qed.
Lemma pres_try I {A} (m : M (St E) A) h :
  pres I m -> (forall e, pres I (h e)) -> pres I (try_except m h).
Proof.
  intros Hm Hh s HI. specialize (Hm s HI). unfold try_except.
  destruct (m s) as [s' [a|e]]; [done|by apply Hh].
Qed.
Lemma pres_for_each I {A} (f : A -> M (St E) unit) l : (forall x, pres I (f x)) -> pres I (for_each f l).
Proof. intros Hf. induction l; simpl; [apply pres_ret|apply pres_bind; auto]. Qed.
Lemma pres_map_m I {A B} (f : A -> M (St E) B) l : (forall x, pres I (f x)) -> pres I (map_m f l).
Proof.
  intros Hf. induction l; simpl; [apply pres_ret|].
  apply pres_bind; [auto|]. intros y. apply pres_bind; [auto|]. intros ys. apply pres_ret.
Qed.
Lemma pres_lift I {A} (m : M (World E) A) : pres I (lift m).
Proof. intros s HI. unfold lift. by destruct (m (st_world s)). Qed.
Lemma pres_update_store I f : pres I (update_store f).
Proof. by intros s. Qed.
Lemma pres_store_op I f : pres I (store_op f).
Proof.
  apply pres_bind; [apply pres_get|]. intros s. destruct (f _); [apply pres_update_store|apply pres_raise].
Qed.
Lemma pres_track I ctx f : pres I (track ctx f).
Proof. apply pres_update_store. Qed.
Lemma pres_tracking_of I ctx : pres I (tracking_of ctx).
Proof. by intros s. Qed.
Lemma pres_update_result I f : (forall r c, I r c -> I (f r) c) -> pres I (update_result f).
Proof. intros Hf s HI. by apply Hf. Qed.
Lemma pres_validate I vs cs : pres I (validate_artifacts vs cs).
Proof.
  unfold validate_artifacts. destruct (validate_and_normalize_artifacts _ _ _ _) as [[|]|];
    [apply pres_ret|apply pres_raise..].
Qed.
End pres.

#[export] Hint Resolve pres_ret pres_raise pres_get pres_result pres_lift pres_update_store pres_store_op
  pres_track pres_tracking_of pres_validate : step.
#[export] Hint Extern 1 (pres _ (bind _ _)) => (apply pres_bind; [|intros]) : step.
#[export] Hint Extern 1 (pres _ (try_except _ _)) => (apply pres_try; [|intros]) : step.
#[export] Hint Extern 1 (pres _ (for_each _ _)) => (apply pres_for_each; intros) : step.
#[export] Hint Extern 1 (pres _ (map_m _ _)) => (apply pres_map_m; intros) : step.
#[export] Hint Extern 1 (pres _ (match ?x with _ => _ end)) => destruct x : step.
#[export] Hint Extern 2 (pres _ (update_result _)) => (apply pres_update_result; intros) : step.

(** ** What the helpers keep *)
Section helpers.
Context {E : Type} `{!Collaborators E}.
Implicit Types (sd : StepDef E) (ctx : loc) (s : St E) (r : StepResult).

Definition at_iter (i : Z) (n : nat) r (c : nat) : Prop := loop_iteration r = i /\ c = n.
Definition ok_iter (i : Z) (n : nat) r (c : nat) : Prop := at_iter i n r c /\ sr_status r = StSuccess.

Lemma li_set_meta k v r : k ≠ "loop_iteration" -> loop_iteration (set_meta k v r) = loop_iteration r.
Proof. intros Hk. unfold loop_iteration, set_meta. cbn. by rewrite od_get_set_ne by done. Qed.

Lemma li_extract_meta r : loop_iteration (extract_meta r) = loop_iteration r.
Proof.
  unfold extract_meta. destruct (od_get "_meta" _) as [[]|]; try done.
  destruct (od_get "tokens_used" _); [|done]. destruct (truthy _); [|done].
  by rewrite li_set_meta.
Qed.

Lemma li_salvage sd r : loop_iteration (salvage_review_report sd r) = loop_iteration r.
Proof. unfold salvage_review_report. by destruct (_ || _). Qed.

Lemma li_normalize r r' : normalize_review_report r = Some r' -> loop_iteration r' = loop_iteration r.
Proof.
  unfold normalize_review_report. destruct (od_get "review_report" _) as [[]|]; try by intros [= <-].
  destruct (od_get "overall_status" _) as [[]|]; try done; by intros [= <-].
Qed.

Lemma li_record e r : loop_iteration (record_contract_error e r) = loop_iteration r.
Proof. unfold record_contract_error. destruct (ex_kind e); try done. by rewrite li_set_meta. Qed.

Lemma li_mark_complete b e t r : loop_iteration (step_mark_complete b e t r) = loop_iteration r.
Proof. unfold step_mark_complete. by destruct (truthy_str e). Qed.

Lemma status_mark_complete b e t r : sr_status (step_mark_complete b e t r) = if b then StSuccess else StFailed.
Proof. unfold step_mark_complete. by destruct b, (truthy_str e). Qed.

Lemma li_set_status st r : loop_iteration (set_sr_status st r) = loop_iteration r. Proof. done. Qed.
Lemma li_set_error e t r : loop_iteration (set_sr_error e t r) = loop_iteration r. Proof. done. Qed.
Lemma li_set_data a b r : loop_iteration (set_sr_data a b r) = loop_iteration r. Proof. done. Qed.
Lemma li_set_retry n r : loop_iteration (set_sr_retry_count n r) = loop_iteration r. Proof. done. Qed.

Lemma li_pop_diagnostics r : 
  loop_iteration (set_sr_metadata (od_pop "contract_diagnostics" (sr_metadata r)) r) = loop_iteration r.
Proof. unfold loop_iteration. cbn [sr_metadata set_sr_metadata]. by rewrite od_get_pop. Qed.

Definition recorded_failed sd ctx s : Prop :=
  forall c, w_store (st_world s) !! ctx = Some c -> sd_name sd ∈ Tracking.failed_steps (cx_tracking c).
Definition recorded_complete sd ctx s : Prop :=
  forall c, w_store (st_world s) !! ctx = Some c -> sd_name sd ∈ completed_steps (cx_tracking c).

Lemma track_failed sd ctx (Q : unit + PyExc -> St E -> Prop) s :
  (forall s', st_result s' = st_result s -> st_calls s' = st_calls s -> recorded_failed sd ctx s' -> Q (inl tt) s') ->
  wp (track ctx (mark_step_failed (sd_name sd))) Q s.
Proof.
  intros HQ. unfold track, update_store. apply wp_modify, HQ; [done..|].
  intros c. cbn. unfold on_ctx. rewrite lookup_alter_eq. intros (c0 & _ & ->)%fmap_Some. cbn.
  apply elem_of_append_new. by left.
Qed.

Lemma track_complete sd ctx (Q : unit + PyExc -> St E -> Prop) s :
  (forall s', st_result s' = st_result s -> st_calls s' = st_calls s -> recorded_complete sd ctx s' -> Q (inl tt) s') ->
  wp (track ctx (mark_step_complete (sd_name sd))) Q s.
Proof.
  intros HQ. unfold track, update_store. apply wp_modify, HQ; [done..|].
  intros c. cbn. unfold on_ctx. rewrite lookup_alter_eq. intros (c0 & _ & ->)%fmap_Some. cbn.
  apply elem_of_append_new. by left.
Qed.
End helpers.

#[export] Hint Rewrite @li_extract_meta @li_salvage @li_record @li_mark_complete @li_set_status @li_set_error
  @li_set_data @li_set_retry @li_pop_diagnostics : step.

(** One step of a program whose next action keeps the invariant at hand. *)
Ltac wp_keep I := apply wp_bind; eapply (pres_wp I); [| |intros [?|?] ? ?].

Section attempt.
Context {E : Type} `{!Collaborators E}.
Implicit Types (sd : StepDef E) (ctx child_ctx : loc) (s : St E) (r : StepResult).

Lemma pres_error_hooks (I : StepResult -> nat -> Prop) sd ctx : pres I (run_error_hooks sd ctx).
Proof. unfold run_error_hooks. auto 10 with step. Qed.

Lemma pres_map_outputs (I : StepResult -> nat -> Prop) sd ctx : pres I (map_outputs sd ctx).
Proof. unfold map_outputs. auto 10 with step. Qed.

Lemma pres_step_view (I : StepResult -> nat -> Prop) sd ctx : pres I (store_step_view sd ctx).
Proof. unfold store_step_view. auto 10 with step. Qed.

Lemma pres_resolve_loop_max (I : StepResult -> nat -> Prop) sd ctx : pres I (resolve_loop_max sd ctx).
Proof. unfold resolve_loop_max. auto 10 with step. Qed.

Lemma pres_resolve_input (I : StepResult -> nat -> Prop) ctx v : pres I (resolve_input_mapping_value ctx v).
Proof. unfold resolve_input_mapping_value. auto 10 with step. Qed.

Lemma pres_prepare_inputs i n st sd ctx :
  pres (fun r c => at_iter i n r c /\ sr_status r = st) (prepare_inputs sd ctx).
Proof.
  unfold prepare_inputs, new_child. 
  repeat first [ apply pres_bind; [|intros ?] | solve [auto using pres_resolve_input with step]
    | apply pres_update_result; intros r c [[? ?] ?]; try case_decide; by repeat split
    | apply pres_map_m; intros ? | apply pres_for_each; intros ? ].
Qed.

(** The verification gate: passed or not, only the status and the metadata change. *)
Lemma gate_post i n sd ctx (Q : bool + PyExc -> St E -> Prop) s :
  inv (ok_iter i n) s ->
  (forall s', inv (ok_iter i n) s' -> Q (inl true) s') ->
  (forall s', sr_status (st_result s') = StFailed -> st_calls s' = n -> recorded_failed sd ctx s' -> Q (inl false) s') ->
  (forall e s', inv (at_iter i n) s' -> Q (inr e) s') ->
  wp (run_verification_gate sd ctx) Q s.
Proof.
  intros HI Htrue Hfalse Hexc. unfold run_verification_gate.
  destruct (sd_verify sd) as [v|]; [|by apply wp_ret, Htrue].
  destruct (negb (v_enabled v)); [by apply wp_ret, Htrue|].
  wp_keep (ok_iter i n); [auto with step|done| |apply Hexc; by destruct H].
  destruct p as [status failing]. apply wp_bind, wp_modify, wp_bind, wp_modify. cbn.
  set (s2 := mkSt _ _ _).
  assert (inv (ok_iter i n) s2) as H2.
  { destruct H as [[H1 H2] H3]. unfold s2. repeat split; [|done|]; cbn.
    - destruct failing; rewrite ?li_set_meta by done; done.
    - by destruct failing. }
  clearbody s2. destruct (_ && _); [|by apply wp_ret, Htrue].
  apply wp_bind, wp_modify, wp_bind, track_failed. intros s3 Hr Hc Hf. apply wp_ret.
  apply Hfalse; [|rewrite Hc; by destruct H2 as [[]]|done]. by rewrite Hr.
Qed.

(** No refinement round is started once the budget is used up. *)
Definition loop_budget (L : Z) sd ctx : Prop := forall s n, (resolve_loop_max sd ctx s).2 = inl n -> n <= L.
Definition looping sd : bool := match sd_loop_until sd with Some (String _ _) => true | _ => false end.

Lemma loop_again_post L i n sd ctx (Q : bool + PyExc -> St E -> Prop) s :
  loop_budget L sd ctx -> inv (ok_iter i n) s ->
  (forall s', looping sd = true -> i < L -> inv (at_iter (i + 1) n) s' -> sr_status (st_result s') = StRunning ->
     Q (inl true) s') ->
  (forall s', inv (ok_iter i n) s' -> Q (inl false) s') ->
  (forall e s', inv (at_iter i n) s' -> Q (inr e) s') ->
  wp (should_loop_again sd ctx) Q s.
Proof.
  intros HL HI Htrue Hfalse Hexc. unfold should_loop_again, looping in *.
  destruct (sd_loop_until sd) as [[|a cond]|]; [by apply wp_ret, Hfalse| |by apply wp_ret, Hfalse].
  apply wp_bind. unfold result at 1. apply wp_bind, wp_get, wp_ret.
  assert (loop_iteration (st_result s) = i) as Hi by apply HI. rewrite Hi. apply wp_bind.
  pose proof (HL s) as Hb. pose proof (pres_resolve_loop_max (ok_iter i n) sd ctx s HI) as Hp. unfold wp.
  destruct (resolve_loop_max sd ctx s) as [s1 [budget|e]]; cbn in Hb, Hp; [|by apply Hexc, Hp].
  specialize (Hb budget eq_refl).
  assert (forall s', inv (ok_iter i n) s' -> wp (update_result (fun r => if od_mem "loop_iteration" (sr_metadata r) then r
    else set_meta "loop_iteration" (VInt i) r);; ret false) Q s') as Hstop.
  { intros s' Hs'. wp_keep (ok_iter i n); [|done| |by apply Hexc, H].
    - apply pres_update_result. intros r c [[H1 H2] H3]. destruct (od_mem _ _) eqn:E1; repeat split; try done.
      unfold loop_iteration, set_meta. cbn. by rewrite od_get_set_eq.
    - by apply wp_ret, Hfalse. }
  destruct (Z.ltb_spec i budget); [|by apply Hstop].
  match goal with |- let '(_, _) := ?m s1 in _ => change (wp m Q s1) end.
  apply wp_bind. wp_keep (ok_iter i n); [auto with step|done| |by apply Hexc, H0].
  apply wp_ret. destruct (negb _); [|by apply Hstop].
  apply wp_bind, wp_modify, wp_ret, Htrue; [done|lia| |done]. destruct H0 as [[? ?] ?]. split; [|done].
  unfold loop_iteration, set_meta. cbn. by rewrite od_get_set_eq.
Qed.

(** What an attempt that ends with [o] leaves behind. *)
Definition attempt_post (L i : Z) (n : nat) (retry : Prop) sd ctx (o : AttemptOutcome) s : Prop :=
  st_calls s = n /\
  match o with
  | BREAK => (sr_status (st_result s) = StSuccess /\ recorded_complete sd ctx s) \/
             (sr_status (st_result s) = StFailed /\ recorded_failed sd ctx s)
  | RETURN => sr_status (st_result s) = StFailed /\ recorded_failed sd ctx s
  | RETRY => (sr_status (st_result s) = StRetrying /\ loop_iteration (st_result s) = i /\ retry) \/
             (sr_status (st_result s) = StRunning /\ looping sd = true /\ i < L /\
              loop_iteration (st_result s) = i + 1)
  end.

Lemma wp_result (Q : StepResult + PyExc -> St E -> Prop) s : Q (inl (st_result s)) s -> wp result Q s.
Proof. done. Qed.

Lemma handle_success_post L i n retry sd ctx output s :
  loop_budget L sd ctx -> inv (at_iter i n) s ->
  wp (handle_success sd ctx output)
    (fun o s' => match o with inl o => attempt_post L i n retry sd ctx o s' | inr _ => inv (at_iter i n) s' end) s.
Proof.
  intros HL HI. unfold handle_success.
  do 3 (wp_keep (at_iter i n); [apply pres_update_result; intros r c [? ?]; split; autorewrite with step; done
    |done| |done]; clear dependent s; rename s' into s).
  apply wp_bind, wp_result, wp_bind.
  eapply (wp_mono _ (fun _ => inv (at_iter i n))).
  { destruct (normalize_review_report _) as [r'|] eqn:E1; [|done].
    apply wp_modify. destruct H as [Hi Hn]. split; [|done]. cbn. by rewrite (li_normalize _ _ E1). }
  intros [[]|e] s1 H1; [|done]. apply wp_bind, wp_result.
  wp_keep (at_iter i n); [auto with step|done| |done].
  apply wp_bind, wp_modify. set (s2 := mkSt _ _ _).
  assert (inv (ok_iter i n) s2) as H2.
  { destruct H0 as [Hi Hn]. repeat split; [|done]. unfold s2, loop_iteration. cbn. by rewrite od_get_pop. }
  clearbody s2.
  wp_keep (ok_iter i n); [apply pres_map_outputs|done| |apply H3].
  wp_keep (ok_iter i n); [apply pres_step_view|done| |apply H4].
  wp_keep (ok_iter i n); [auto with step|done| |apply H5].
  apply wp_bind, (gate_post i n); [done| | |done].
  - intros s6 H6. simpl negb. apply wp_bind, (loop_again_post L i n); [done..| | |done].
    + intros s7 Hloop Hlt [Hi Hc] Hst. apply wp_ret. split; [done|]. right. auto.
    + intros s7 [[Hi Hc] Hst]. apply wp_bind, track_complete. intros s8 Hr8 Hc8 H8. apply wp_ret.
      split; [by rewrite Hc8|]. left. by rewrite Hr8.
  - intros s6 Hst Hc Hrec. by apply wp_ret.
Qed.

(** Only a cancellation during the backoff sleep or an error hook escapes an attempt. *)
Definition quiet {A} (m : M (World E) A) : Prop := forall w e, (m w).2 = inr e -> is_exception e = true.
Definition calm sd ctx : Prop :=
  (forall d w e, (sleep d w).2 ≠ inr e) /\ Forall (fun hook => quiet (hook ctx)) (sd_error_hooks sd).

Lemma error_hooks_post (I : StepResult -> nat -> Prop) sd ctx (Q : unit + PyExc -> St E -> Prop) s :
  inv I s -> (forall s', inv I s' -> Q (inl tt) s') ->
  (forall e s', inv I s' -> ¬ calm sd ctx -> Q (inr e) s') ->
  wp (run_error_hooks sd ctx) Q s.
Proof.
  intros HI HQ Hexc. unfold run_error_hooks. apply (wp_for_each (inv I)); [|done|done].
  intros hook s1 Hhook H1. apply wp_try. unfold wp, lift.
  destruct (hook ctx (st_world s1)) as [w [a|e]] eqn:E1; [done|].
  destruct (is_exception e) eqn:E2; [done|]. apply Hexc; [done|]. intros [_ Hq].
  rewrite Forall_forall in Hq. specialize (Hq hook Hhook (st_world s1) e). rewrite E1 in Hq.
  by rewrite Hq in E2.
Qed.

Lemma handle_exception_post L i n sd ctx e attempt s :
  inv (at_iter i n) s ->
  wp (handle_exception sd ctx e attempt)
    (fun o s' => match o with
                 | inl o => o ≠ RETURN /\ attempt_post L i n (attempt <= max_retries (sd_retry sd)) sd ctx o s'
                 | inr _ => st_calls s' = n /\ ¬ calm sd ctx
                 end) s.
Proof.
  intros HI. unfold handle_exception.
  apply wp_bind, wp_modify. set (s1 := mkSt _ _ _).
  assert (inv (at_iter i n) s1) as H.
  { destruct HI as [Hi Hn]. split; [|done]. unfold s1. cbn. by rewrite li_record. }
  clearbody s1. destruct (_ && _) eqn:E1.
  - apply andb_true_iff in E1 as [E1 _]. apply Z.leb_le in E1.
    apply wp_bind, wp_get, wp_bind, wp_modify, wp_bind. set (s2 := mkSt _ _ _).
    assert (inv (at_iter i n) s2 /\ sr_status (st_result s2) = StRetrying) as [H2 H3].
    { destruct H as [Hi Hn]. repeat split; [|done]. unfold s2. cbn. by rewrite li_set_meta. }
    clearbody s2. unfold wp at 1, lift.
    destruct (sleep _ (st_world s2)) as [w [a|e1]] eqn:E2.
    + apply wp_ret. split; [done|]. split; [apply H2|]. left. repeat split; [done|apply H2|done].
    + split; [apply H2|]. intros [Hs _]. eapply (Hs _ (st_world s2) e1). by rewrite E2.
  - apply wp_bind, (error_hooks_post (at_iter i n)); [done| |intros e1 s2 [_ H1] H2; done].
    intros s3 H1. apply wp_bind, wp_modify, wp_bind, track_failed. intros s2 Hr Hc Hrec. apply wp_ret.
    split; [done|]. split; [rewrite Hc; apply H1|]. right. by rewrite Hr.
Qed.

Lemma run_attempt_post L i n sd f ctx child_ctx attempt s :
  loop_budget L sd ctx -> inv (at_iter i n) s ->
  wp (run_attempt sd f ctx child_ctx attempt)
    (fun o s' => match o with
                 | inl o => attempt_post L i (S n) (attempt <= max_retries (sd_retry sd)) sd ctx o s'
                 | inr _ => st_calls s' = S n /\ ¬ calm sd ctx
                 end) s.
Proof.
  intros HL HI. unfold run_attempt. apply wp_try, wp_bind. unfold call_func. apply wp_bind, wp_modify.
  eapply (pres_wp (at_iter i (S n))); [auto with step| |].
  { destruct HI as [Hi Hn]. split; [done|]. cbn. by rewrite Hn. }
  assert (forall msg t s1, inv (at_iter i (S n)) s1 -> wp (fail_with sd ctx msg t) (fun o s' => match o with
    | inl o => attempt_post L i (S n) (attempt <= max_retries (sd_retry sd)) sd ctx o s'
    | inr _ => st_calls s' = S n /\ ¬ calm sd ctx end) s1) as Hfail.
  { intros msg t s1 H1. apply wp_bind, wp_modify, wp_bind, track_failed. intros s2 Hr Hc Hrec. apply wp_ret.
    split; [rewrite Hc; apply H1|]. right. by rewrite Hr. }
  assert (forall e s1, inv (at_iter i (S n)) s1 -> wp (match ex_kind e with
       | KCancelled => handle_cancelled sd ctx
       | KTimeout => handle_timeout sd ctx
       | _ => handle_exception sd ctx e attempt end) (fun o s' => match o with
    | inl o => attempt_post L i (S n) (attempt <= max_retries (sd_retry sd)) sd ctx o s'
    | inr _ => st_calls s' = S n /\ ¬ calm sd ctx end) s1) as Hh.
  { intros e s1 H1. destruct (ex_kind e); [by apply Hfail|by apply Hfail|..];
      (eapply wp_mono; [by apply (handle_exception_post L)|]); intros [o|e1] s2; [by intros [_ ?]|done|by intros [_ ?]|done]. }
  intros [o|e] s1 H1; [|by apply Hh].
  eapply wp_mono; [by apply handle_success_post|]. intros [o1|e] s2 H2; [done|by apply Hh].
Qed.
End attempt.

(** ** The retry and refinement loop *)
Section loop.
Context {E : Type} `{!Collaborators E}.
Implicit Types (sd : StepDef E) (ctx child_ctx : loc) (s : St E).

(** A finished step, on the result and in the context's lists. *)
Definition settled sd ctx s : Prop :=
  (sr_status (st_result s) = StSuccess /\ recorded_complete sd ctx s) \/
  (sr_status (st_result s) = StFailed /\ recorded_failed sd ctx s).

Lemma fail_input_post i n sd ctx e s :
  inv (at_iter i n) s ->
  wp (fail_input_contract sd ctx e) (fun o s' => st_calls s' = n /\ match o with
    | inl _ => sr_status (st_result s') = StFailed /\ recorded_failed sd ctx s' | inr _ => True end) s.
Proof.
  intros HI. unfold fail_input_contract.
  wp_keep (at_iter i n); [|done| |by split; [apply H|]].
  { apply pres_update_result. intros r c [? ?]. split; [by rewrite li_record|done]. }
  wp_keep (at_iter i n); [apply pres_error_hooks|done| |by split; [apply H0|]].
  apply wp_bind, wp_get, wp_bind, wp_modify, track_failed. intros s3 Hr Hc Hrec.
  split; [rewrite Hc; apply H0|]. split; [|done]. rewrite Hr. apply status_mark_complete.
Qed.

Lemma prepare_post i n st sd ctx s :
  inv (at_iter i n) s -> sr_status (st_result s) = st ->
  wp (try_except (c <- prepare_inputs sd ctx; ret (Some c))
        (fun e => match ex_kind e with
                  | KContract _ => fail_input_contract sd ctx e;; ret None
                  | _ => raise e end))
    (fun o s' => st_calls s' = n /\ match o with
       | inl (Some _) => inv (at_iter i n) s' /\ sr_status (st_result s') = st
       | inl None => sr_status (st_result s') = StFailed /\ recorded_failed sd ctx s'
       | inr _ => True end) s.
Proof.
  intros HI Hst. apply wp_try, wp_bind.
  eapply (pres_wp (fun r c => at_iter i n r c /\ sr_status r = st));
    [apply pres_prepare_inputs|done|]. intros [c|e] s1 [H1 H2].
  - apply wp_ret. split; [apply H1|done].
  - destruct (ex_kind e) as [| |ds|]; try (split; [apply H1|done]).
    apply wp_bind. eapply wp_mono; [by apply (fail_input_post i n)|].
    intros [[]|e1] s2 [Hc H3]; [by apply wp_ret|done].
Qed.

(** Attempts and rounds left, as a bound on the calls still to be made. *)
Definition rounds_left (L : Z) sd (attempt i : Z) : nat :=
  Z.to_nat (max_retries (sd_retry sd) - attempt) + Z.to_nat (L - i).

Lemma attempts_loop_post L sd f ctx fuel child_ctx attempt i n s :
  loop_budget L sd ctx -> inv (at_iter i n) s -> attempt <= max_retries (sd_retry sd) ->
  (rounds_left L sd attempt i < fuel)%nat ->
  wp (attempts_loop fuel sd f ctx child_ctx attempt)
    (fun o s' => (n < st_calls s' <= n + 1 + rounds_left L sd attempt i)%nat /\ match o with
       | inl None => False | inl (Some _) => settled sd ctx s' | inr _ => True end) s.
Proof.
  intros HL. unfold rounds_left. revert child_ctx attempt i n s.
  induction fuel as [|fuel IH]; intros child_ctx attempt i n s HI Ha Hfuel; [lia|]. simpl.
  destruct (Z.leb_spec attempt (max_retries (sd_retry sd))) as [_|]; [|lia].
  apply wp_bind, wp_modify, wp_bind. eapply wp_mono; [by apply (run_attempt_post L i n)|].
  intros [o|e] s2; [|intros [-> _]; lia].
  intros [Hc Ho]. destruct o; [|apply wp_ret; split; [lia|done] |apply wp_ret; split; [lia|by right]].
  apply wp_bind, wp_result. destruct Ho as [(Hst & Hi & Hr)|(Hst & Hlo & Hlt & Hi)].
  - rewrite Hst, andb_false_r. eapply wp_mono; [apply IH; [split; [exact Hi|exact Hc]|lia|lia]|].
    intros o s3 [? ?]. split; [lia|done].
  - unfold looping in Hlo. rewrite Hlo, Hst. simpl. apply wp_bind.
    eapply wp_mono; [apply (prepare_post (i + 1) (S n) StRunning); done|].
    intros [[c|]|e] s3 [Hc3 H3]; [| |split; [lia|done]].
    + eapply wp_mono; [apply IH; [apply H3|lia|lia]|]. intros o s4 [? ?]. split; [lia|done].
    + apply wp_ret. split; [lia|by right].
Qed.
End loop.

(** ** The whole execution *)
Section execute.
Context {E : Type} `{!Collaborators E}.
Implicit Types (sd : StepDef E) (ctx : loc) (s : St E).

Lemma loop_budget_static sd ctx :
  od_get "loop_max_expr" (sd_metadata sd) = None -> loop_budget (fallback_loop_max sd) sd ctx.
Proof. intros Hm s n. unfold resolve_loop_max. rewrite Hm. cbn. intros [= ->]. lia. Qed.

Lemma pre_hooks_post i n st sd ctx (Q : bool + PyExc -> St E -> Prop) s :
  inv (at_iter i n) s -> sr_status (st_result s) = st ->
  (forall s', inv (at_iter i n) s' -> sr_status (st_result s') = st -> Q (inl true) s') ->
  (forall s', st_calls s' = n -> sr_status (st_result s') = StFailed -> recorded_failed sd ctx s' -> Q (inl false) s') ->
  (forall e s', st_calls s' = n -> Q (inr e) s') ->
  wp (run_pre_hooks sd ctx) Q s.
Proof.
  intros HI Hst Htrue Hfalse Hexc. unfold run_pre_hooks. apply wp_try, wp_bind.
  eapply (pres_wp (fun r c => at_iter i n r c /\ sr_status r = st)); [auto with step|done|].
  intros [[]|e] s1 [[H1 Hn] H2]; [by apply wp_ret, Htrue|].
  destruct (is_exception e); [|by apply Hexc].
  apply wp_bind, wp_modify, wp_bind, track_failed. intros s2 Hr Hc Hrec. apply wp_ret.
  apply Hfalse; [by rewrite Hc|by rewrite Hr|done].
Qed.

Lemma run_step_body_post L sd f ctx fuel s :
  loop_budget L sd ctx -> inv (at_iter 1 0) s -> 0 <= max_retries (sd_retry sd) ->
  (rounds_left L sd 0 1 < fuel)%nat ->
  wp (run_step_body fuel sd f ctx)
    (fun o s' => (st_calls s' <= 1 + rounds_left L sd 0 1)%nat /\ match o with
       | inl true => settled sd ctx s' /\ (sr_status (st_result s') = StSuccess -> st_calls s' ≠ 0%nat)
       | inl false => False | inr _ => True end) s.
Proof.
  intros HL HI Hmr Hfuel. unfold run_step_body. apply wp_bind, wp_modify, wp_bind.
  eapply (pres_wp (fun r c => at_iter 1 0 r c /\ sr_status r = StRunning)); [auto with step|done|].
  intros [[]|e] s1 [[H1 Hn] Hst]; [|split; [rewrite Hn; lia|done]].
  apply wp_bind, (pre_hooks_post 1 0 StRunning); [done|done| | |intros e s2 ->; split; [lia|done]].
  2: { intros s2 Hc Hs2 Hrec. apply wp_ret. split; [lia|]. split; [by right|]. by rewrite Hs2. }
  clear dependent s1. intros s1 H1 Hst. simpl negb. apply wp_bind.
  eapply wp_mono; [by apply (prepare_post 1 0 StRunning)|].
  intros [[c|]|e] s2 [Hc H2]; [| |split; [lia|done]].
  2: { apply wp_ret. split; [lia|]. split; [by right|]. by rewrite (proj1 H2). }
  apply wp_bind. eapply wp_mono; [by apply (attempts_loop_post L sd f ctx fuel c 0 1 0); [done|apply H2|..]|].
  intros [[b|]|e] s3 [Hb H3]; [|done|split; [lia|done]]. 
  destruct b; [|apply wp_ret; split; [lia|]; split; [done|lia]].
  apply wp_bind, wp_get, wp_bind, wp_modify, wp_ret. cbn [st_calls]. split; [lia|]. split; [|lia].
  destruct H3 as [[Hs Hrec]|[Hs Hrec]]; [left|right]; (split; [|done]); cbn [st_result];
    rewrite status_mark_complete, Hs; by case_bool_decide.
Qed.
End execute.
