(* ===== verification/StepThms.v ===== *)
(** * Correctness of the step executor

    The claims about [StepExecutor.execute]: it ends within its budgets, its
    result is final and agrees with the context, errors stay inside an attempt,
    rejected outputs never reach the context, and the step sees exactly its
    validated inputs. *)

From stdpp Require Import pretty.
From Stdlib Require Import QArith Qcanon.
From S2P Require Import Prelude PyStr PyVal Messages Tracking Context ContextFacts Artifacts ArtifactsFacts Retry Step StepFacts.

(** ** The child context of a step

    What [prepare_inputs] builds: a new context below the workflow's that holds
    the validated inputs and hides the inputs a contract normalized away. *)

Section inputs.
Context {E : Type} `{!Collaborators E}.
Implicit Types (sd : StepDef E) (ctx : loc) (s : St E).

Definition the_store s : store := w_store (st_world s).

Lemma fresh_loc_above (st : store) l : is_Some (st !! l) -> l < fresh_loc st.
Proof.
  enough (is_Some (st !! l) -> l <= map_fold (fun l (_ : Ctx) m => l `max` m) 0 st) as Hx by (intros Hl; specialize (Hx Hl); unfold fresh_loc; lia).
  apply (map_fold_weak_ind (fun m (st : store) => is_Some (st !! l) -> l <= m)); [by intros [? ?]|].
  intros i c st' m Hi IH [c' Hc]. destruct (decide (i = l)) as [->|Hne]; [lia|].
  rewrite lookup_insert_ne in Hc by done. specialize (IH (ex_intro _ c' Hc)). lia.
Qed.

Lemma fresh_loc_None (st : store) : st !! fresh_loc st = None.
Proof. destruct (st !! fresh_loc st) eqn:E1; [|done]. pose proof (fresh_loc_above st (fresh_loc st)). rewrite E1 in H. specialize (H ltac:(eauto)). lia. Qed.

(** Validation keeps the keys of a dictionary unique. *)
Lemma normalize_fields_nodup ph fb values contracts n ds n' ds' :
  NoDup (od_keys n) -> normalize_fields ph fb values contracts (n, ds) = Ok (n', ds') -> NoDup (od_keys n').
Proof.
  revert n ds. induction contracts as [|[f c] contracts IH]; intros n ds Hn; simpl; [by intros [= <- _]|].
  destruct (select_candidate _ _ _ _ _) as [[v|ds1]|]; simpl; [|destruct (_ || _)|done]; (apply IH; auto using NoDup_od_set).
Qed.

Lemma pop_aliases_nodup contracts d : NoDup (od_keys d) -> NoDup (od_keys (pop_aliases contracts d)).
Proof.
  unfold pop_aliases. generalize (mjoin ((fun fc : string * ArtifactContract => ac_aliases fc.2) <$> contracts)).
  intros l. revert d. induction l as [|a l IH]; intros d Hd; simpl; [done|]. apply IH. by apply NoDup_od_pop.
Qed.

Lemma validate_nodup ph fb values contracts out :
  NoDup (od_keys values) -> validate_and_normalize_artifacts ph fb values contracts = Ok (inl out) -> NoDup (od_keys out).
Proof.
  intros Hv. unfold validate_and_normalize_artifacts.
  destruct (normalize_fields _ _ _ _ _) as [[n ds]|] eqn:E1; simpl; [|done].
  destruct ds; intros [= <-]. apply pop_aliases_nodup. by eapply normalize_fields_nodup.
Qed.

(** Setting and masking one variable after the other. *)
Lemma on_ctx_compose f g (st : store) l : on_ctx f (on_ctx g st l) l = on_ctx (fun c => f (g c)) st l.
Proof.
  unfold on_ctx. apply map_eq. intros i. destruct (decide (l = i)) as [->|Hne].
  - rewrite !lookup_alter_eq. by destruct (st !! i).
  - by rewrite !lookup_alter_ne.
Qed.

Lemma set_each l child (s s' : St E) :
  for_each (fun kv : string * pyval => store_op (fun st => ctx_set st child (VStr kv.1) kv.2)) l s = (s', inl tt) ->
  st_result s' = st_result s /\ st_calls s' = st_calls s /\
  exists f, the_store s' = on_ctx f (the_store s) child /\
    forall c, cx_parent (f c) = cx_parent c /\ cx_variables (f c) = od_update (cx_variables c) l /\
              cx_masked (f c) ⊆ cx_masked c.
Proof.
  revert s. induction l as [|[k v] l IH]; intros s; simpl.
  - intros [= <-]. repeat split. exists id. unfold on_ctx. split; [symmetry; by rewrite alter_id|done].
  - unfold bind at 1, store_op at 1, bind at 1. simpl. unfold ctx_set at 1.
    destruct (validate_variable_key (VStr k) false) as [k'|] eqn:Hk; simpl; [|done].
    apply validate_key_ok in Hk as [[= ->] _]. intros H. apply IH in H as (Hr & Hc & f & Hf & Hfs).
    split; [done|]. split; [done|]. unfold the_store in *. cbn in Hf. rewrite on_ctx_compose in Hf.
    eexists. split; [exact Hf|]. intros c. destruct (Hfs (set_masked (cx_masked c ∖ {[k']})
      (set_variables (od_set k' v (cx_variables c)) c))) as (H1 & H2 & H3). cbn in *. split; [done|].
    split; [done|]. set_solver.
Qed.

Lemma mask_each l child (s s' : St E) :
  for_each (fun k => update_store (fun st => mask_inherited st child k)) l s = (s', inl tt) ->
  st_result s' = st_result s /\ st_calls s' = st_calls s /\
  exists f, the_store s' = on_ctx f (the_store s) child /\
    forall c, cx_parent (f c) = cx_parent c /\ cx_masked (f c) = cx_masked c ∪ list_to_set l /\
      (NoDup (od_keys (cx_variables c)) -> NoDup (od_keys (cx_variables (f c)))) /\
      forall k, od_get k (cx_variables (f c)) = if decide (k ∈ l) then None else od_get k (cx_variables c).
Proof.
  revert s. induction l as [|k l IH]; intros s; simpl.
  - intros [= <-]. repeat split. exists id. unfold on_ctx. split; [symmetry; by rewrite alter_id|].
    intros c. split; [done|]. split; [set_solver|done].
  - unfold bind at 1. simpl. intros H. apply IH in H as (Hr & Hc & f & Hf & Hfs).
    split; [done|]. split; [done|]. unfold the_store, mask_inherited in *. cbn in Hf. rewrite on_ctx_compose in Hf.
    eexists. split; [exact Hf|]. intros c. cbv beta.
    match goal with |- context [f ?x] => destruct (Hfs x) as (H1 & H2 & H3 & H4) end.
    split; [exact H1|]. split; [rewrite H2; cbn; set_solver|]. split.
    + intros Hnd. apply H3. cbn. by apply NoDup_od_pop.
    + intros k'. rewrite H4. cbn. rewrite od_get_pop.
      destruct (decide (k' ∈ l)), (decide (k' = k)), (decide (k' ∈ k :: l)); try done; set_solver.
Qed.

Lemma bind_inl {S A B} (m : M S A) (f : A -> M S B) x x' b :
  bind m f x = (x', inl b) -> exists x1 a, m x = (x1, inl a) /\ f a x1 = (x', inl b).
Proof. unfold bind. destruct (m x) as [x1 [a|e]]; [eauto|done]. Qed.

(** Evaluating an expression does not write to the context. *)
Definition reads_only : Prop := forall ctx v w, (resolve_variable ctx v w).1 = w.

Lemma resolve_value_pure ctx v s s' r :
  reads_only -> resolve_input_mapping_value ctx v s = (s', r) -> s' = s.
Proof.
  intros Hro. unfold resolve_input_mapping_value. destruct v; try by intros [= <- _].
  destruct (expression_body s0); [|by intros [= <- _]].
  unfold lift. specialize (Hro ctx s1 (st_world s)). destruct (resolve_variable ctx s1 (st_world s)).
  cbn in Hro. subst. intros [= <- _]. by destruct s.
Qed.

Lemma mapped_inputs_spec ctx l s s' mapped :
  reads_only ->
  map_m (fun kv : string * pyval => v <- resolve_input_mapping_value ctx kv.2; ret (kv.1, v)) l s = (s', inl mapped) ->
  s' = s /\ od_keys mapped = od_keys l.
Proof.
  intros Hro. revert s mapped. induction l as [|[k v] l IH]; intros s mapped; simpl; [by intros [= <- <-]|].
  intros (s1 & kv & H1 & H2)%bind_inl. apply bind_inl in H1 as (s2 & v' & H1 & [= <- <-]).
  apply resolve_value_pure in H1 as ->; [|done].
  apply bind_inl in H2 as (s3 & ys & H2 & [= <- <-]). apply IH in H2 as [-> Hk].
  split; [done|]. unfold od_keys in *. csimpl. by rewrite Hk.
Qed.

Lemma validate_artifacts_inl vs cs s s' out :
  validate_artifacts vs cs s = (s', inl out) ->
  s' = s /\ validate_and_normalize_artifacts placeholder_text file_blocks vs cs = Ok (inl out).
Proof. unfold validate_artifacts. destruct (validate_and_normalize_artifacts _ _ _ _) as [[|]|]; by intros [= <- <-]. Qed.

(** The child that [prepare_inputs] leaves in the store. *)
Lemma prepare_inputs_shape sd ctx s s' child c0 :
  reads_only -> NoDup (od_keys (sd_input_mapping sd)) -> the_store s !! ctx = Some c0 ->
  prepare_inputs sd ctx s = (s', inl child) ->
  let validated := sr_input_data (st_result s') in
  child = fresh_loc (the_store s) /\ NoDup (od_keys validated) /\
  (exists mapped, od_keys mapped = od_keys (sd_input_mapping sd) /\
     validate_and_normalize_artifacts placeholder_text file_blocks mapped (sd_input_contracts sd) = Ok (inl validated)) /\
  (forall l, l ≠ child -> the_store s' !! l = the_store s !! l) /\
  exists c, the_store s' !! child = Some c /\ cx_parent c = Some ctx /\ NoDup (od_keys (cx_variables c)) /\
    (forall k, od_get k (cx_variables c) = od_get k validated) /\
    forall k, k ∈ cx_masked c <-> k ∈ od_keys (sd_input_mapping sd) /\ k ∉ od_keys validated.
Proof.
  intros Hro Hnd Hc0. unfold prepare_inputs.
  intros (s1 & child0 & H1 & H)%bind_inl. unfold new_child in H1. injection H1 as <- <-.
  apply bind_inl in H as (s2 & mapped & H1 & H). apply mapped_inputs_spec in H1 as [-> Hk]; [|done].
  apply bind_inl in H as (s3 & [] & [= <-] & H). apply bind_inl in H as (s4 & validated & H1 & H).
  apply validate_artifacts_inl in H1 as [-> Hval].
  apply bind_inl in H as (s5 & [] & H1 & H).
  assert (sr_input_data (st_result s5) = validated /\ the_store s5 =
    Context.child (the_store s) ctx (fresh_loc (the_store s)) (Some (sd_name sd))) as [Hin Hst].
  { injection H1 as <-. cbn. by destruct (decide (validated = mapped)) as [->|]. }
  clear H1. apply bind_inl in H as (s6 & [] & H1 & H). apply set_each in H1 as (Hr6 & _ & f & Hf & Hfs).
  apply bind_inl in H as (s7 & [] & H1 & [= <- <-]). apply mask_each in H1 as (Hr7 & _ & g & Hg & Hgs).
  rewrite Hr7, Hr6, Hin. rewrite <- Hk in *.
  assert (NoDup (od_keys validated)) as Hndv by (by eapply validate_nodup).
  rewrite Hg, Hf, Hst, on_ctx_compose. unfold Context.child. rewrite Hc0. set (c1 := mkCtx _ _ _ _ _ _ _).
  split; [done|]. split; [done|]. split; [by eauto|]. split.
  { intros l Hl. unfold on_ctx. by rewrite lookup_alter_ne, lookup_insert_ne by done. }
  exists (g (f c1)). unfold on_ctx. rewrite lookup_alter_eq, lookup_insert_eq.
  destruct (Hfs c1) as (F1 & F2 & F3), (Hgs (f c1)) as (G1 & G2 & G3 & G4).
  rewrite F2 in G3, G4. cbn [cx_variables c1] in G3, G4. rewrite od_update_copy in G3, G4 by done.
  split; [done|]. split; [by rewrite G1, F1|]. split; [by apply G3|]. split.
  - intros k. rewrite G4. case_decide as Hd; [|done]. apply list_elem_of_filter in Hd as [Hd _].
    symmetry. by apply od_get_None.
  - intros k. rewrite G2, elem_of_union, elem_of_list_to_set, list_elem_of_filter.
    cbn [cx_masked c1] in F3. set_solver.
Qed.
End inputs.

Local Open Scope Z_scope.

Section claims.
Context {E : Type} `{!Collaborators E}.
Implicit Types (sd : StepDef E) (ctx : loc) (s : St E).

(** C30. A step always finishes: when its loop budget never exceeds [L], every
    execution ends within [max_retries + L] rounds (fuel above that is never
    used up), and the step function is called at most [max_retries + L] times
    in all, error retries and refinement rounds together. *)
Theorem execute_terminates L fuel sd ctx w :
  loop_budget L sd ctx -> 1 <= L -> 0 <= max_retries (sd_retry sd) ->
  max_retries (sd_retry sd) + L <= Z.of_nat fuel ->
  (execute fuel sd ctx w).2 ≠ inl false /\
  Z.of_nat (st_calls (execute fuel sd ctx w).1) <= max_retries (sd_retry sd) + L.
Proof.
  intros HL HL1 Hmr Hfuel.
  enough (wp (execute_body fuel sd ctx) (fun o s' => (st_calls s' <= 1 + rounds_left L sd 0 1)%nat /\ o ≠ inl false)
            (start sd w)) as H.
  { unfold execute. apply wp_intro in H as [H1 H2]. split; [done|]. unfold rounds_left in H1. lia. }
  unfold execute_body. apply wp_bind.
  eapply (pres_wp (at_iter 1 0)); [unfold should_run; auto 10 with step|done|].
  intros [b|e] s1 [H1 Hn]; [|split; [lia|done]]. destruct b; simpl negb; cbv iota;
    [|apply wp_bind, wp_modify, wp_ret; split; [cbn; lia|done]].
  destruct (sd_func sd) as [f|]; [|apply wp_bind, wp_modify, wp_ret; split; [cbn; lia|done]].
  eapply wp_mono; [apply (run_step_body_post L); [done|done|done|unfold rounds_left; lia]|].
  intros o s2 [Hc Ho]. split; [done|]. by intros ->.
Qed.

(** C5. The result [execute] returns is always final and agrees with the
    context: SKIPPED exactly when the conditions do not hold, and then the step
    function was never called; FAILED untried when there is no step function;
    otherwise SUCCESS after at least one call with the step in
    [completed_steps], or FAILED with the step in [failed_steps]. *)
Theorem execute_settles L fuel sd ctx w :
  loop_budget L sd ctx -> 1 <= L -> 0 <= max_retries (sd_retry sd) ->
  max_retries (sd_retry sd) + L <= Z.of_nat fuel ->
  let '(s, o) := execute fuel sd ctx w in
  o = inl true ->
  let st := sr_status (st_result s) in
  (st = StSkipped <-> (should_run sd ctx (start sd w)).2 = inl false) /\
  (st = StSkipped -> st_calls s = 0%nat) /\
  (st = StSuccess -> st_calls s ≠ 0%nat /\ recorded_complete sd ctx s) /\
  (st = StFailed -> recorded_failed sd ctx s \/ (sd_func sd = None /\ st_calls s = 0%nat)) /\
  st ∈ [StSkipped; StSuccess; StFailed].
Proof.
  intros HL HL1 Hmr Hfuel. unfold execute.
  change (wp (execute_body fuel sd ctx) (fun o s => o = inl true ->
    let st := sr_status (st_result s) in
    (st = StSkipped <-> (should_run sd ctx (start sd w)).2 = inl false) /\
    (st = StSkipped -> st_calls s = 0%nat) /\
    (st = StSuccess -> st_calls s ≠ 0%nat /\ recorded_complete sd ctx s) /\
    (st = StFailed -> recorded_failed sd ctx s \/ (sd_func sd = None /\ st_calls s = 0%nat)) /\
    st ∈ [StSkipped; StSuccess; StFailed]) (start sd w)).
  apply wp_bind.
  assert (pres (at_iter 1 0) (should_run sd ctx)) as Hp by (unfold should_run; auto 10 with step).
  specialize (Hp (start sd w) (conj eq_refl eq_refl)). unfold wp.
  destruct (should_run sd ctx (start sd w)) as [s1 [b|e]]; cbn [fst snd] in *; [|done].
  destruct Hp as [H1 Hn]. destruct b; simpl negb; cbv iota.
  2: { intros _. cbn. repeat split; try done. left. }
  destruct (sd_func sd) as [f|]; [|intros _; cbn; repeat split; try done; [by right|set_solver]].
  eapply (wp_mono _ _ _ s1); [apply (run_step_body_post L); [done|done|done|unfold rounds_left; lia]|].
  intros o s2 [Hc Ho] ->. destruct Ho as [Hset Hcalls]. cbn zeta.
  destruct Hset as [[Hs Hrec]|[Hs Hrec]]; rewrite Hs in *; repeat split; try done; auto; set_solver.
Qed.
(** Whatever the step function, the output contracts, the context, the
    post hooks, the verification gate or the loop condition raise, an attempt
    turns it into an outcome: only an error hook cancelled or an interrupted
    backoff sleep can make it raise.  A cancelled or timed-out function fails
    the step without a retry. *)
Theorem attempt_contains_errors L sd f ctx child_ctx attempt s :
  loop_budget L sd ctx -> calm sd ctx ->
  exists s' o, run_attempt sd f ctx child_ctx attempt s = (s', inl o) /\ st_calls s' = S (st_calls s) /\
    (forall e, (f child_ctx (st_world s)).2 = inr e -> ex_kind e = KCancelled \/ ex_kind e = KTimeout ->
       o = BREAK /\ sr_status (st_result s') = StFailed /\ recorded_failed sd ctx s').
Proof.
  intros HL Hcalm.
  pose proof (run_attempt_post L (loop_iteration (st_result s)) (st_calls s) sd f ctx child_ctx attempt s HL (conj eq_refl eq_refl)) as H.
  destruct (run_attempt sd f ctx child_ctx attempt s) as [s' [o|e]] eqn:Hrun;
    unfold wp in H; rewrite Hrun in H; [|by destruct H].
  exists s', o. split; [done|]. split; [apply H|]. intros e Hf Hk.
  assert (forall msg t s1, wp (fail_with sd ctx msg t) (fun o s' =>
    o = inl BREAK /\ sr_status (st_result s') = StFailed /\ recorded_failed sd ctx s') s1) as Hfail.
  { intros msg t s1. apply wp_bind, wp_modify, wp_bind, track_failed. intros s2 Hr _ Hrec. apply wp_ret. by rewrite Hr. }
  unfold run_attempt, try_except, call_func, bind, modify, lift in Hrun. cbn [st_world st_result st_calls] in Hrun.
  destruct (f child_ctx (st_world s)) as [w r]. cbn [snd] in Hf. rewrite Hf in Hrun. cbv iota beta in Hrun.
  destruct Hk as [Hk|Hk]; rewrite Hk in Hrun; unfold handle_cancelled, handle_timeout in Hrun;
    match type of Hrun with fail_with _ _ ?m ?t ?x = _ => specialize (Hfail m t x) end;
    unfold wp in Hfail; rewrite Hrun in Hfail; destruct Hfail as ([= ->] & ?); done.
Qed.

(** Outputs that violate a contract stay out of the context: after the last
    attempt the step is FAILED with its outputs cleared and the diagnostics in
    its metadata, and the context differs from what the step function left only
    by the step's entry in [failed_steps]: no output variable, no step view. *)
Theorem rejected_outputs_stay_out sd f ctx child_ctx attempt s w output r ds :
  f child_ctx (st_world s) = (w, inl output) ->
  normalize_review_report (salvage_review_report sd (extract_meta
    (set_sr_data (sr_input_data (st_result s)) (default [] output) (st_result s)))) = Some r ->
  validate_and_normalize_artifacts placeholder_text file_blocks (sr_output_data r) (sd_output_contracts sd) = Ok (inr ds) ->
  max_retries (sd_retry sd) < attempt -> sd_error_hooks sd = [] ->
  exists s', run_attempt sd f ctx child_ctx attempt s = (s', inl BREAK) /\
    sr_status (st_result s') = StFailed /\ sr_output_data (st_result s') = [] /\
    od_get "contract_diagnostics" (sr_metadata (st_result s')) = Some (diagnostics_value ds) /\
    w_env (st_world s') = w_env w /\
    w_store (st_world s') = on_ctx (fun c => set_tracking (mark_step_failed (sd_name sd) (cx_tracking c)) c) (w_store w) ctx.
Proof.
  intros Hf Hr Hv Ha Hh. eexists. unfold run_attempt, try_except, call_func, bind, modify, lift. cbn.
  rewrite Hf. cbn. unfold handle_success, bind, update_result, modify, result, get, ret. cbn. rewrite Hr. cbn.
  unfold validate_artifacts. rewrite Hv. cbn. unfold handle_exception, bind, update_result, modify. cbn.
  rewrite (proj2 (Z.leb_gt _ _) Ha). cbn. unfold run_error_hooks. rewrite Hh. cbn.
  split; [done|]. cbn. rewrite od_get_set_eq. done.
Qed.

(** The step function sees exactly its validated inputs: the child context
    that [prepare_inputs] makes shows, of the mapped inputs, those the input
    contracts accepted with their normalized values and hides the aliases that
    were normalized away even when the workflow has a variable of that name;
    every other variable is the workflow's, and no other context changes. *)
Theorem child_inputs_exact sd ctx s s' child :
  reads_only -> NoDup (od_keys (sd_input_mapping sd)) -> store_ok (the_store s) -> is_Some (the_store s !! ctx) ->
  prepare_inputs sd ctx s = (s', inl child) ->
  let validated := sr_input_data (st_result s') in
  (exists mapped, od_keys mapped = od_keys (sd_input_mapping sd) /\
     validate_and_normalize_artifacts placeholder_text file_blocks mapped (sd_input_contracts sd) = Ok (inl validated)) /\
  the_store s !! child = None /\ store_ok (the_store s') /\
  (forall l, l ≠ child -> the_store s' !! l = the_store s !! l) /\
  forall k, od_get k (all_variables (the_store s') child) =
    match od_get k validated with
    | Some v => Some v
    | None => if decide (k ∈ od_keys (sd_input_mapping sd)) then None
              else od_get k (all_variables (the_store s) ctx)
    end.
Proof.
  intros Hro Hnd Hok Hctx Hp. destruct Hctx as [c0 Hc0].
  destruct (prepare_inputs_shape _ _ _ _ _ _ Hro Hnd Hc0 Hp) as (-> & Hndv & Hm & Hother & c & Hc & Hpar & Hndc & Hget & Hmask).
  cbn zeta. split; [done|].
  destruct (extend_store (the_store s) (the_store s') ctx (fresh_loc (the_store s)) c) as (Hok' & _ & Hsc);
    [done|eauto|apply fresh_loc_above; eauto|apply fresh_loc_None|done..|].
  split; [apply fresh_loc_None|]. split; [done|]. split; [done|]. intros k.
  unfold all_variables. rewrite Hsc, all_variables_cons, Hget by done.
  destruct (od_get k (sr_input_data (st_result s'))) as [v|] eqn:Hk; [done|].
  apply od_get_None in Hk. destruct (decide (k ∈ cx_masked c)) as [Hd|Hd]; rewrite Hmask in Hd.
  - by rewrite decide_True by tauto.
  - by rewrite decide_False by tauto.
Qed.
End claims.

(** ** Witnesses: a step whose first call fails and whose loop wants three calls *)

#[local] Instance demo_collaborators : Collaborators nat := {|
  jmes := no_query;
  evaluate := fun _ _ w => (w, inl (3 <=? w_env w)%nat);
  resolve_variable := fun _ _ w => (w, inl (VStr "resolved"));
  match_variable := Some;
  run_checks := fun _ _ w => (w, inl ("passed", []));
  sleep := fun _ w => (w, inl tt);
  draw := fun _ => 0%Q;
  now := fun w => Z.of_nat (w_env w);
  re_status := fun _ => None;
  re_approved := fun _ => None;
  py_str := fun v => match v with VStr s => s | _ => "" end;
  placeholder_text := fun _ => true;
  file_blocks := fun _ => [];
|}.

Definition demo_func : loc -> M (World nat) (option (odict pyval)) := fun _ w =>
  let w' := mkWorld (w_store w) (S (w_env w)) in
  match w_env w with
  | O => (w', inr (mkExc KException "RuntimeError" "flaky"))
  | n => (w', inl (Some [("code", VInt (Z.of_nat n))]))
  end.
Definition demo_step (outputs : odict ArtifactContract) : StepDef nat :=
  mkStepDef nat "build" (Some 1) (Some demo_func) None (mkRetry 1 Fixed 1 60 0) (fun _ => true) None None
    (Some "enough") (Some 2) [] [("spec", VStr "${x}"); ("lang", VInt 1)] [("code", "code")] [] outputs [] [] [] None [].
Definition demo_world : World nat := mkWorld demo_store 0%nat.

Example demo_run :
  let '(s, o) := execute 3 (demo_step []) 0 demo_world in
  o = inl true /\ sr_status (st_result s) = StSuccess /\ st_calls s = 3%nat /\
  od_get "loop_iteration" (sr_metadata (st_result s)) = Some (VInt 2) /\
  get_sync no_query (w_store (st_world s)) 0 "code" VNone = VInt 2.
Proof. vm_compute. done. Qed.

Lemma demo_budget outs ctx : loop_budget 2 (demo_step outs) ctx.
Proof. intros s n. vm_compute. by intros [= <-]. Qed.

Lemma demo_calm outs ctx : calm (demo_step outs) ctx.
Proof. split; [done|]. constructor. Qed.

Lemma execute_terminates_witness :
  (execute 3 (demo_step []) 0 demo_world).2 ≠ inl false /\
  Z.of_nat (st_calls (execute 3 (demo_step []) 0 demo_world).1) <= 1 + 2.
Proof. apply (execute_terminates 2 3 (demo_step []) 0 demo_world); [apply demo_budget|lia|done|done]. Defined.

Lemma execute_settles_witness :
  let s := (execute 3 (demo_step []) 0 demo_world).1 in
  st_calls s ≠ 0%nat /\ recorded_complete (demo_step []) 0 s.
Proof.
  assert ((execute 3 (demo_step []) 0 demo_world).2 = inl true) as Ho by (vm_compute; reflexivity).
  assert (sr_status (st_result (execute 3 (demo_step []) 0 demo_world).1) = StSuccess) as Hs by (vm_compute; reflexivity).
  revert Ho Hs.
  pose proof (execute_settles 2 3 (demo_step []) 0 demo_world (demo_budget _ _) ltac:(lia) ltac:(discriminate)
    ltac:(discriminate)) as H.
  destruct (execute 3 (demo_step []) 0 demo_world) as [s o]. intros Ho Hs. cbn [fst snd] in Ho, Hs.
  destruct (H Ho) as (_ & _ & H3 & _). exact (H3 Hs).
Defined.

Definition demo_state : St nat := mkSt (mkWorld demo_store 1%nat) (new_step_result "build" StRunning (Some 1) 0) 1.

Lemma attempt_contains_errors_witness :
  exists s' o, run_attempt (demo_step []) (fun _ w => (w, inr (mkExc KTimeout "TimeoutError" ""))) 0 0 1 demo_state
    = (s', inl o) /\ o = BREAK /\ sr_status (st_result s') = StFailed.
Proof.
  destruct (attempt_contains_errors 2 (demo_step []) (fun _ w => (w, inr (mkExc KTimeout "TimeoutError" ""))) 0 0 1
    demo_state (demo_budget _ _) (demo_calm _ _)) as (s' & o & H1 & _ & H3).
  exists s', o. split; [done|]. destruct (H3 _ eq_refl (or_intror eq_refl)) as (H4 & H5 & _). done.
Defined.

Definition code_contract : odict ArtifactContract := [("code", mkContract CODE_ARTIFACT true [])].

Lemma rejected_outputs_stay_out_witness :
  exists s', run_attempt (demo_step code_contract) demo_func 0 0 2 demo_state = (s', inl BREAK) /\
    sr_output_data (st_result s') = [] /\ get_sync no_query (w_store (st_world s')) 0 "code" VNone = VNone.
Proof.
  destruct (rejected_outputs_stay_out (demo_step code_contract) demo_func 0 0 2 demo_state (mkWorld demo_store 2%nat)
    (Some [("code", VInt 1)]) (set_sr_data [] [("code", VInt 1)] (st_result demo_state))
    [mkDiag "code" "invalid_type"]) as (s' & H1 & _ & H3 & _ & _ & H6); [vm_compute; reflexivity..|].
  exists s'. split; [done|]. split; [done|]. rewrite H6. vm_compute. done.
Defined.

Lemma child_inputs_exact_witness :
  let s' := (prepare_inputs (demo_step []) 0 demo_state).1 in
  od_get "spec" (all_variables (the_store s') 2) = Some (VStr "resolved") /\
  od_get "a" (all_variables (the_store s') 2) = Some (VInt 1).
Proof.
  destruct (child_inputs_exact (demo_step []) 0 demo_state (prepare_inputs (demo_step []) 0 demo_state).1 2)
    as (_ & _ & _ & _ & H).
  - done.
  - apply (bool_decide_unpack _). vm_compute. exact I.
  - apply demo_store_ok.
  - by eexists.
  - vm_compute. reflexivity.
  - cbn zeta. rewrite !H. vm_compute. done.
Defined.
