(* ===== verification/RunningTasks.v ===== *)
(** * The running-task registry of the step executor (engine/step.py)

    [_running_tasks], the bookkeeping of [_execute_with_timeout] around an
    awaited task, and [cancel] and [cancel_all].  Tasks are identified by
    numbers; [task.done()] is a predicate [finished] of the event loop. *)

From S2P Require Import Prelude.

(** [(run_id, step_name)]. *)
Abbreviation task_key := (string * string)%type.
Abbreviation registry := (gmap task_key nat).

(** [self._running_tasks[key] = task] *)
Definition track_task (k : task_key) (t : nat) (r : registry) : registry := <[k := t]> r.

(** The [finally] block: only the entry that is still this task is removed. *)
Definition untrack_task (k : task_key) (t : nat) (r : registry) : registry :=
  if decide (r !! k = Some t) then delete k r else r.

Definition in_run (run_id : option string) (k : task_key) : bool :=
  match run_id with None => true | Some run => bool_decide (k.1 = run) end.

(** The tasks [cancel] cancels, and what it returns. *)
Definition cancel (finished : nat -> bool) (step_name : string) (run_id : option string) (r : registry)
  : list nat * bool :=
  let cancelled := filter (fun t => negb (finished t) = true)
    (snd <$> filter (fun kt : task_key * nat => bool_decide (kt.1.2 = step_name) && in_run run_id kt.1 = true)
               (map_to_list r)) in
  (cancelled, negb (bool_decide (cancelled = []))).

Definition cancel_all (finished : nat -> bool) (run_id : option string) (r : registry) : list nat * nat :=
  let cancelled := filter (fun t => negb (finished t) = true)
    (snd <$> filter (fun kt : task_key * nat => in_run run_id kt.1 = true) (map_to_list r)) in
  (cancelled, length cancelled).

(** ** Traces: tasks starting and ending in any order *)

Inductive event := Started (k : task_key) (t : nat) | Ended (k : task_key) (t : nat).

Definition apply_event (r : registry) (e : event) : registry :=
  match e with Started k t => track_task k t r | Ended k t => untrack_task k t r end.
Definition after (trace : list event) : registry := foldl apply_event ∅ trace.

(** Events newest first: the task last started under [k] and whether it ended since. *)
Fixpoint current (k : task_key) (newest_first : list event) : option nat :=
  match newest_first with
  | [] => None
  | Started k' t :: older => if decide (k' = k) then Some t else current k older
  | Ended k' t :: older =>
      if decide (k' = k /\ current k older = Some t) then None else current k older
  end.

Lemma after_current trace k : after trace !! k = current k (reverse trace).
Proof.
  induction trace as [|e trace IH] using rev_ind; [done|].
  unfold after. rewrite foldl_app, reverse_app. cbn [foldl]. change (foldl apply_event ∅ trace) with (after trace).
  destruct e as [k' t|k' t]; cbn.
  - unfold track_task. case_decide as Hk; subst; [by rewrite lookup_insert_eq|by rewrite lookup_insert_ne].
  - unfold untrack_task. destruct (decide (k' = k)) as [->|Hne].
    + rewrite <- IH. destruct (decide (after trace !! k = Some t)) as [H|H].
      * rewrite lookup_delete_eq. by rewrite decide_True.
      * by rewrite decide_False by tauto.
    + rewrite (decide_False (P := k' = k /\ _)) by tauto. case_decide; [by rewrite lookup_delete_ne|done].
Qed.

Lemma elem_of_cancelled (finished : nat -> bool) (P : task_key * nat -> bool) (r : registry) t :
  t ∈ filter (fun t => negb (finished t) = true) (snd <$> filter (fun kt => P kt = true) (map_to_list r)) <->
  exists k, r !! k = Some t /\ P (k, t) = true /\ finished t = false.
Proof.
  rewrite list_elem_of_filter, list_elem_of_fmap. split.
  - intros (Hf & [k t'] & -> & (Hp & Hin)%list_elem_of_filter). exists k.
    rewrite elem_of_map_to_list in Hin. split; [done|]. split; [done|]. by apply negb_true_iff.
  - intros (k & Hk & Hp & Hf). split; [by apply negb_true_iff|]. exists (k, t). split; [done|].
    apply list_elem_of_filter. by rewrite elem_of_map_to_list.
Qed.

(** However task starts and ends interleave, cancelling a step of a run
    reaches exactly the task last started for that step in that run, if it has
    not ended; a run identity never reaches another run's task, and without one
    every run's task of that name is reached.  The answer tells whether any
    task was cancelled. *)
Theorem cancel_reaches (finished : nat -> bool) step_name run_id trace t :
  let '(cancelled, answer) := cancel finished step_name run_id (after trace) in
  (t ∈ cancelled <-> exists run, current (run, step_name) (reverse trace) = Some t /\ finished t = false /\
                       (run_id = None \/ run_id = Some run)) /\
  (answer = true <-> cancelled ≠ []).
Proof.
  unfold cancel. split; [|rewrite negb_true_iff; apply bool_decide_eq_false].
  rewrite elem_of_cancelled. split.
  - intros ([run name] & Hk & [Hn Hr]%andb_true_iff & Hf). apply bool_decide_eq_true in Hn. cbn in Hn. subst.
    rewrite after_current in Hk. exists run. split; [done|]. split; [done|].
    destruct run_id as [r|]; [right|by left]. apply bool_decide_eq_true in Hr. cbn in Hr. by subst.
  - intros (run & Hk & Hf & Hr). exists (run, step_name). rewrite after_current. split; [done|]. split; [|done].
    apply andb_true_iff. split; [by apply bool_decide_eq_true|].
    destruct Hr as [-> | ->]; [done|]. by apply bool_decide_eq_true.
Qed.

Example cancel_other_run :
  let r := after [Started ("r1", "s") 0; Started ("r2", "s") 1; Started ("r1", "s") 2; Ended ("r1", "s") 0] in
  cancel (fun _ => false) "s" (Some "r1") r = ([2], true) /\ (cancel_all (fun _ => false) None r).2 = 2.
Proof. vm_compute. done. Qed.
