(* ===== verification/ModelStats.v ===== *)
(** * Model statistics and the circuit breaker (models/model_stats.py)

    [ModelStats] with its recording methods, the circuit breaker, cooldowns and
    persistence.  Clock readings are arguments: [utc] for [datetime.now(UTC)] and
    [mono] for [time.monotonic()], in seconds.  Floats are exact rationals;
    [random.randint] is a draw.  The private dataclass fields that configure the
    statistics are a [Policy]. *)

From S2P Require Import Prelude PyStr PyVal.
From stdpp Require Import sorting.
From Stdlib Require Import QArith Qcanon Qminmax Qround.
Local Open Scope Q_scope.

Inductive CircuitState := CLOSED | OPEN | HALF_OPEN.

#[export] Instance CircuitState_eq_dec : EqDecision CircuitState.
Proof. solve_decision. Defined.

Definition circuit_value (s : CircuitState) : string :=
  match s with CLOSED => "closed" | OPEN => "open" | HALF_OPEN => "half_open" end.
Definition circuit_of_value (v : string) : option CircuitState :=
  if decide (v = "closed") then Some CLOSED
  else if decide (v = "open") then Some OPEN
  else if decide (v = "half_open") then Some HALF_OPEN else None.

Record Policy := mkPolicy {
  ema_alpha : Q;
  max_samples : nat;
  window_size : nat;
  failure_threshold : Z;
  recovery_timeout_seconds : Q;
  half_open_success_required : Z;
}.
Definition default_policy : Policy := mkPolicy (1 # 5) 1000 50 5 60 2.

Record ModelStats := mkStats {
  model_id : string;
  success_count : Z;
  failure_count : Z;
  rate_limit_count : Z;
  timeout_count : Z;
  ema_latency_ms : Q;
  latency_samples : list Q;
  recent_results : list (Q * bool);
  circuit_state : CircuitState;
  last_failure_time : option Q;
  last_failure_mono : option Q;
  consecutive_failures : Z;
  half_open_successes : Z;
  probe_in_progress : bool;
  last_success : option Q;
  last_failure : option Q;
  first_seen : Q;
  cooldown_until : option Q;
  cooldown_until_mono : option Q;
}.

Definition new_stats (id : string) (utc : Q) : ModelStats :=
  mkStats id 0 0 0 0 0 [] [] CLOSED None None 0 0 false None None utc None None.

Definition total_calls (m : ModelStats) : Z := success_count m + failure_count m.
Definition success_rate (m : ModelStats) : Q :=
  if (total_calls m =? 0)%Z then 1 else inject_Z (success_count m) / inject_Z (total_calls m).
Definition recent_success_rate (m : ModelStats) : Q :=
  match recent_results m with
  | [] => 1
  | l => inject_Z (Z.of_nat (length (filter (fun r => r.2 = true) l))) / inject_Z (Z.of_nat (length l))
  end.

(** ** Latency *)

#[export] Instance Qlt_decision : RelDecision Qlt.
Proof. intros a b. destruct (Qlt_le_dec a b) as [H|H]; [by left|right]. by apply Qle_not_lt. Defined.
#[export] Instance Qle_decision : RelDecision Qle.
Proof. intros a b. destruct (Qlt_le_dec b a) as [H|H]; [right|by left]. by apply Qlt_not_le. Defined.
#[export] Instance Qeq_decision : RelDecision Qeq.
Proof. intros a b. apply Qeq_dec. Defined.

(** [bisect.insort]: after the elements that are not greater. *)
Fixpoint insort (l : list Q) (x : Q) : list Q :=
  match l with
  | [] => [x]
  | y :: l' => if decide (x < y) then x :: y :: l' else y :: insort l' x
  end.

Definition get_percentile (sorted_samples : list Q) (p : Q) : Q :=
  let n := length sorted_samples in
  let idx := Z.to_nat (Qfloor (p * inject_Z (Z.of_nat n))) in
  default 0 (sorted_samples !! Nat.min idx (n - 1)).

(** [p50], [p75], [p90], [p95], [p99]. *)
Definition percentiles (m : ModelStats) : list Q :=
  match latency_samples m with
  | [] => [0; 0; 0; 0; 0]
  | l => get_percentile (merge_sort Qle l) <$> [50 # 100; 75 # 100; 90 # 100; 95 # 100; 99 # 100]
  end.

Section stats.
Context (p : Policy).
Implicit Types (m : ModelStats) (utc mono : Q).

Definition ema_step (ema latency_ms : Q) : Q :=
  if decide (ema == 0) then latency_ms
  else ema_alpha p * latency_ms + (1 - ema_alpha p) * ema.

(** [idx] is [random.randint(0, len - 1)]. *)
Definition add_sample (idx : nat) (latency_ms : Q) (l : list Q) : list Q :=
  if (length l <? max_samples p)%nat then insort l latency_ms
  else merge_sort Qle (<[idx := latency_ms]> l).

(** [append], then drop the oldest beyond the window. *)
Definition push_result (r : Q * bool) (l : list (Q * bool)) : list (Q * bool) :=
  let l := l ++ [r] in if (window_size p <? length l)%nat then tl l else l.

Definition record_success (utc : Q) (idx : nat) (latency_ms : Q) (m : ModelStats) : ModelStats :=
  let '(state, half) :=
    if decide (circuit_state m = HALF_OPEN) then
      let half := (half_open_successes m + 1)%Z in
      if (half_open_success_required p <=? half)%Z then (CLOSED, 0%Z) else (HALF_OPEN, half)
    else (circuit_state m, half_open_successes m) in
  mkStats (model_id m) (success_count m + 1) (failure_count m) (rate_limit_count m) (timeout_count m)
    (ema_step (ema_latency_ms m) latency_ms) (add_sample idx latency_ms (latency_samples m))
    (push_result (utc, true) (recent_results m))
    state (last_failure_time m) (last_failure_mono m) 0 half (probe_in_progress m)
    (Some utc) (last_failure m) (first_seen m) (cooldown_until m) (cooldown_until_mono m).

Definition record_failure (utc mono : Q) (m : ModelStats) : ModelStats :=
  let failures := (consecutive_failures m + 1)%Z in
  let '(state, half) :=
    if decide (circuit_state m = HALF_OPEN) then (OPEN, 0%Z)
    else if (failure_threshold p <=? failures)%Z then (OPEN, half_open_successes m)
    else (circuit_state m, half_open_successes m) in
  mkStats (model_id m) (success_count m) (failure_count m + 1) (rate_limit_count m) (timeout_count m)
    (ema_latency_ms m) (latency_samples m) (push_result (utc, false) (recent_results m))
    state (Some utc) (Some mono) failures half (probe_in_progress m)
    (last_success m) (Some utc) (first_seen m) (cooldown_until m) (cooldown_until_mono m).

Definition set_cooldown (utc mono seconds : Q) (m : ModelStats) : ModelStats :=
  mkStats (model_id m) (success_count m) (failure_count m) (rate_limit_count m) (timeout_count m)
    (ema_latency_ms m) (latency_samples m) (recent_results m) (circuit_state m) (last_failure_time m)
    (last_failure_mono m) (consecutive_failures m) (half_open_successes m) (probe_in_progress m)
    (last_success m) (last_failure m) (first_seen m) (Some (utc + seconds)) (Some (mono + seconds)).

Definition clear_cooldown (m : ModelStats) : ModelStats :=
  mkStats (model_id m) (success_count m) (failure_count m) (rate_limit_count m) (timeout_count m)
    (ema_latency_ms m) (latency_samples m) (recent_results m) (circuit_state m) (last_failure_time m)
    (last_failure_mono m) (consecutive_failures m) (half_open_successes m) (probe_in_progress m)
    (last_success m) (last_failure m) (first_seen m) None None.

Definition bump (rate_limits timeouts : Z) (m : ModelStats) : ModelStats :=
  mkStats (model_id m) (success_count m) (failure_count m) (rate_limit_count m + rate_limits)
    (timeout_count m + timeouts) (ema_latency_ms m) (latency_samples m) (recent_results m) (circuit_state m)
    (last_failure_time m) (last_failure_mono m) (consecutive_failures m) (half_open_successes m)
    (probe_in_progress m) (last_success m) (last_failure m) (first_seen m) (cooldown_until m)
    (cooldown_until_mono m).

Definition record_rate_limit (utc mono : Q) (retry_after_seconds : option Z) (m : ModelStats) : ModelStats :=
  set_cooldown utc mono (inject_Z (default 120%Z retry_after_seconds)) (record_failure utc mono (bump 1 0 m)).

Definition record_timeout (utc mono : Q) (m : ModelStats) : ModelStats := record_failure utc mono (bump 0 1 m).

Definition set_circuit (s : CircuitState) (m : ModelStats) : ModelStats :=
  mkStats (model_id m) (success_count m) (failure_count m) (rate_limit_count m) (timeout_count m)
    (ema_latency_ms m) (latency_samples m) (recent_results m) s (last_failure_time m)
    (last_failure_mono m) (consecutive_failures m) (half_open_successes m) (probe_in_progress m)
    (last_success m) (last_failure m) (first_seen m) (cooldown_until m) (cooldown_until_mono m).

Definition set_probe (b : bool) (m : ModelStats) : ModelStats :=
  mkStats (model_id m) (success_count m) (failure_count m) (rate_limit_count m) (timeout_count m)
    (ema_latency_ms m) (latency_samples m) (recent_results m) (circuit_state m) (last_failure_time m)
    (last_failure_mono m) (consecutive_failures m) (half_open_successes m) b
    (last_success m) (last_failure m) (first_seen m) (cooldown_until m) (cooldown_until_mono m).

(** Whether the recovery timeout has passed. *)
Definition recovery_due (utc mono : Q) (m : ModelStats) : bool :=
  match last_failure_mono m, last_failure_time m with
  | Some t, _ => Qle_bool (recovery_timeout_seconds p) (mono - t)
  | None, Some t => Qle_bool (recovery_timeout_seconds p) (utc - t)
  | None, None => false
  end.

Definition check_circuit (utc mono : Q) (m : ModelStats) : ModelStats * bool :=
  match circuit_state m with
  | CLOSED => (m, true)
  | OPEN => if recovery_due utc mono m then (set_circuit HALF_OPEN m, true) else (m, false)
  | HALF_OPEN => (m, negb (probe_in_progress m))
  end.

Definition is_in_cooldown (mono : Q) (m : ModelStats) : bool :=
  match cooldown_until_mono m with None => false | Some t => bool_decide (mono < t) end.

Definition cooldown_remaining_seconds (mono : Q) (m : ModelStats) : Q :=
  match cooldown_until_mono m with None => 0 | Some t => Qmax 0 (t - mono) end.

Definition is_healthy (mono : Q) (m : ModelStats) : bool :=
  if decide (circuit_state m = OPEN) then false
  else if is_in_cooldown mono m then false
  else negb ((5 <=? length (recent_results m))%nat && bool_decide (recent_success_rate m < 1 # 2)).
End stats.

(** ** Persistence *)

Section persistence.
(** [datetime.isoformat] and [datetime.fromisoformat]. *)
Context (isoformat : Q -> string) (fromisoformat : string -> option Q).

Definition float (q : Q) : pyval := VFloat (Q2Qc q).
Definition of_float (v : pyval) : Q := match v with VFloat q => q | VInt z => inject_Z z | _ => 0 end.

Definition iso_opt (t : option Q) : pyval := match t with Some t => VStr (isoformat t) | None => VNone end.

Definition stats_to_dict (m : ModelStats) : odict pyval :=
  [("model_id", VStr (model_id m)); ("success_count", VInt (success_count m));
   ("failure_count", VInt (failure_count m)); ("rate_limit_count", VInt (rate_limit_count m));
   ("timeout_count", VInt (timeout_count m)); ("ema_latency_ms", float (ema_latency_ms m));
   ("circuit_state", VStr (circuit_value (circuit_state m))); ("last_success", iso_opt (last_success m));
   ("last_failure", iso_opt (last_failure m)); ("first_seen", VStr (isoformat (first_seen m)));
   ("cooldown_until", iso_opt (cooldown_until m)); ("success_rate", float (success_rate m));
   ("recent_success_rate", float (recent_success_rate m));
   ("percentiles", VDict (zip ["p50"; "p75"; "p90"; "p95"; "p99"] (float <$> percentiles m)))].

Definition get_int (d : odict pyval) (k : string) : Z :=
  match od_get k d with Some (VInt z) => z | _ => 0 end.

(** [if data.get(k): datetime.fromisoformat(data[k])]; [None] raises. *)
Definition get_time (d : odict pyval) (k : string) : res (option Q) :=
  match od_get k d with
  | Some (VStr EmptyString) | Some VNone | None => Ok None
  | Some (VStr s) => match fromisoformat s with Some t => Ok (Some t) | None => Raise (ValueError "isoformat") end
  | Some _ => Raise (TypeError "fromisoformat: argument must be str")
  end.

(** On dictionaries whose counters are integers. *)
Definition stats_from_dict (utc mono : Q) (d : odict pyval) : res ModelStats :=
  match od_get "model_id" d with
  | Some (VStr id) =>
      match match od_get "circuit_state" d with
            | None => Some CLOSED | Some (VStr v) => circuit_of_value v | Some _ => None end with
      | None => Raise (ValueError "not a valid CircuitState")
      | Some state =>
          get_time d "last_success" ≫= fun ls =>
          get_time d "last_failure" ≫= fun lf =>
          get_time d "first_seen" ≫= fun fs =>
          get_time d "cooldown_until" ≫= fun cd =>
          let remaining := (fun t => t - utc) <$> cd in
          Ok (mkStats id (get_int d "success_count") (get_int d "failure_count") (get_int d "rate_limit_count")
                (get_int d "timeout_count") (match od_get "ema_latency_ms" d with Some v => of_float v | None => 0 end)
                [] [] state lf None 0 0 false ls lf (default utc fs) cd
                (match remaining with Some r => if decide (0 < r) then Some (mono + r) else None | None => None end))
      end
  | _ => Raise (KeyError "model_id")
  end.
End persistence.
