(* ===== verification/ModelStatsFacts.v ===== *)
(** * Correctness of the model statistics

    The circuit breaker's invariant, when it trips and how it recovers; the
    smoothed latency stays within the observed latencies; percentiles are ordered
    samples; persisted statistics come back. *)

From stdpp Require Import sorting.
From Stdlib Require Import QArith Qcanon Qminmax Qround Lqa.
From S2P Require Import Prelude PyStr PyVal ModelStats.
Local Open Scope Q_scope.


Definition policy_ok (p : Policy) : Prop :=
  (0 < failure_threshold p)%Z /\ (0 < half_open_success_required p)%Z /\ (0 < window_size p)%nat /\
  (0 < max_samples p)%nat /\ 0 <= ema_alpha p <= 1 /\ 0 < recovery_timeout_seconds p.

Lemma default_policy_ok : policy_ok default_policy.
Proof. repeat split; try done; vm_compute; try lia; try discriminate. Qed.

(** ** The operations of the router on one model's statistics *)

Inductive op :=
  | OpSuccess (utc : Q) (idx : nat) (latency_ms : Q)
  | OpFailure (utc mono : Q)
  | OpRateLimit (utc mono : Q) (retry_after : option Z)
  | OpTimeout (utc mono : Q)
  | OpCheck (utc mono : Q)
  | OpProbe (b : bool)
  | OpCooldown (utc mono seconds : Q)
  | OpClear.

Definition apply_op (p : Policy) (m : ModelStats) (o : op) : ModelStats :=
  match o with
  | OpSuccess utc idx lat => record_success p utc idx lat m
  | OpFailure utc mono => record_failure p utc mono m
  | OpRateLimit utc mono ra => record_rate_limit p utc mono ra m
  | OpTimeout utc mono => record_timeout p utc mono m
  | OpCheck utc mono => (check_circuit p utc mono m).1
  | OpProbe b => set_probe b m
  | OpCooldown utc mono s => set_cooldown utc mono s m
  | OpClear => clear_cooldown m
  end.

(** ** The samples stay sorted and bounded *)

Lemma insort_perm l x : insort l x ≡ₚ x :: l.
Proof.
  induction l as [|y l IH]; simpl; [done|]. case_decide; [done|]. rewrite IH. apply Permutation_swap.
Qed.

Lemma insort_sorted l x : Sorted Qle l -> Sorted Qle (insort l x).
Proof.
  induction l as [|y l IH]; intros Hl; simpl; [by repeat constructor|].
  case_decide as Hxy; [constructor; [done|constructor; lra]|].
  apply Sorted_inv in Hl as [Hl Hy]. constructor; [auto|].
  destruct l as [|z l]; simpl; [constructor; lra|].
  inversion Hy; subst. case_decide; constructor; lra.
Qed.

#[export] Instance Qle_total : Total Qle.
Proof. intros a b. destruct (Qlt_le_dec a b); [left|right]; lra. Qed.
#[export] Instance Qle_transitive : Transitive Qle.
Proof. intros a b c. apply Qle_trans. Qed.

Lemma add_sample_ok p idx x l : (0 < max_samples p)%nat ->
  (length l <= max_samples p)%nat -> Sorted Qle l ->
  (length (add_sample p idx x l) <= max_samples p)%nat /\ Sorted Qle (add_sample p idx x l).
Proof.
  intros Hp Hlen Hl. unfold add_sample. destruct (Nat.ltb_spec (length l) (max_samples p)).
  - split; [rewrite insort_perm; simpl; lia|by apply insort_sorted].
  - split; [rewrite merge_sort_Permutation, length_insert; lia|]. apply Sorted_merge_sort; apply _.
Qed.

Lemma push_result_length p r l : (0 < window_size p)%nat ->
  (length l <= window_size p)%nat -> (length (push_result p r l) <= window_size p)%nat.
Proof.
  intros Hp Hl. unfold push_result. destruct (Nat.ltb_spec (window_size p) (length (l ++ [r]))); [|done].
  rewrite length_app in *. simpl in *. destruct l as [|y l]; simpl in *; [lia|]. rewrite length_app. simpl. lia.
Qed.

(** ** The breaker's invariant *)

Record stats_ok (p : Policy) (m : ModelStats) : Prop := {
  ok_closed : circuit_state m = CLOSED -> (consecutive_failures m < failure_threshold p)%Z;
  ok_open : circuit_state m = OPEN -> is_Some (last_failure_mono m);
  ok_half : (0 <= half_open_successes m < half_open_success_required p)%Z;
  ok_half_zero : circuit_state m ≠ HALF_OPEN -> half_open_successes m = 0%Z;
  ok_consecutive : (0 <= consecutive_failures m <= failure_count m)%Z;
  ok_success : (0 <= success_count m)%Z;
  ok_kinds : (rate_limit_count m + timeout_count m <= failure_count m)%Z;
  ok_window : (length (recent_results m) <= window_size p)%nat;
  ok_samples : (length (latency_samples m) <= max_samples p)%nat;
  ok_sorted : Sorted Qle (latency_samples m);
}.

Section breaker.
Context (p : Policy) (Hp : policy_ok p).
Implicit Types m : ModelStats.

Lemma new_stats_ok id utc : stats_ok p (new_stats id utc).
Proof. destruct Hp as (H1 & H2 & H3 & H4 & _). split; simpl; try done; lia || constructor. Qed.

Lemma record_success_ok utc idx lat m : stats_ok p m -> stats_ok p (record_success p utc idx lat m).
Proof.
  intros H. destruct Hp as (H1 & H2 & H3 & H4 & _), H.
  destruct (add_sample_ok p idx lat (latency_samples m)) as [Hlen Hsort]; [done..|].
  unfold record_success. destruct (circuit_state m) eqn:Hs; simpl;
    [| |destruct (Z.leb_spec (half_open_success_required p) (half_open_successes m + 1))];
    split; simpl; try done; auto using push_result_length; try lia.
Qed.

(** A failure recorded after [a] rate limits and [b] timeouts were counted. *)
Lemma record_failure_ok utc mono a b m : (0 <= a)%Z -> (0 <= b)%Z -> (a + b <= 1)%Z ->
  stats_ok p m -> stats_ok p (record_failure p utc mono (bump a b m)).
Proof.
  intros Ha Hb Hab H. destruct Hp as (H1 & H2 & H3 & H4 & _), H.
  unfold record_failure. simpl. destruct (circuit_state m) eqn:Hs; simpl;
    try destruct (Z.leb_spec (failure_threshold p) (consecutive_failures m + 1));
    split; simpl; try done; auto using push_result_length; try lia.
Qed.

Lemma bump_zero m : bump 0 0 m = m.
Proof. unfold bump. rewrite !Z.add_0_r. by destruct m. Qed.

Lemma same_core_ok m m' :
  circuit_state m' = circuit_state m -> last_failure_mono m' = last_failure_mono m ->
  half_open_successes m' = half_open_successes m -> consecutive_failures m' = consecutive_failures m ->
  failure_count m' = failure_count m -> success_count m' = success_count m ->
  rate_limit_count m' = rate_limit_count m -> timeout_count m' = timeout_count m ->
  recent_results m' = recent_results m -> latency_samples m' = latency_samples m ->
  stats_ok p m -> stats_ok p m'.
Proof. intros E1 E2 E3 E4 E5 E6 E7 E8 E9 E10 []. split; rewrite ?E1, ?E2, ?E3, ?E4, ?E5, ?E6, ?E7, ?E8, ?E9, ?E10; done. Qed.

Lemma check_circuit_ok utc mono m : stats_ok p m -> stats_ok p (check_circuit p utc mono m).1.
Proof.
  intros H. unfold check_circuit. destruct (circuit_state m) eqn:Hs; [done| |done].
  destruct (recovery_due p utc mono m); [|done]. destruct H. by split.
Qed.

(** Whatever sequence of successes, failures, rate limits, timeouts,
    availability checks, probes and cooldowns a model goes through, its
    statistics stay well formed: a CLOSED circuit is below the failure
    threshold, an OPEN one has the failure time its recovery is measured from,
    recovery successes are counted only while HALF_OPEN and below the number
    that closes the circuit, and the window and the sorted reservoir never
    exceed their sizes. *)
Theorem breaker_invariant id utc ops :
  stats_ok p (foldl (apply_op p) (new_stats id utc) ops).
Proof.
  assert (forall m, stats_ok p m -> stats_ok p (foldl (apply_op p) m ops)) as H; [|apply H, new_stats_ok].
  induction ops as [|o ops IH]; intros m Hm; simpl; [done|]. apply IH.
  destruct o; simpl; try (by eapply same_core_ok, Hm).
  - by apply record_success_ok.
  - rewrite <- (bump_zero m). by apply record_failure_ok.
  - eapply same_core_ok; [..|apply (record_failure_ok utc0 mono 1 0); done]; done.
  - by apply record_failure_ok.
  - by apply check_circuit_ok.
Qed.
End breaker.

(** ** Tripping and recovering *)

Section cycle.
Context (p : Policy) (Hp : policy_ok p).
Implicit Types m : ModelStats.

Definition fail_all (times : list (Q * Q)) m : ModelStats :=
  foldl (fun m t => record_failure p t.1 t.2 m) m times.

Lemma fail_all_snoc times t m : fail_all (times ++ [t]) m = record_failure p t.1 t.2 (fail_all times m).
Proof. unfold fail_all. by rewrite foldl_app. Qed.

Lemma record_failure_mono utc mono m : last_failure_mono (record_failure p utc mono m) = Some mono.
Proof.
  unfold record_failure. destruct (decide _); [done|].
  destruct (failure_threshold p <=? consecutive_failures m + 1)%Z; reflexivity.
Qed.

Lemma fail_all_state times m : circuit_state m = CLOSED -> consecutive_failures m = 0%Z ->
  consecutive_failures (fail_all times m) = Z.of_nat (length times) /\
  circuit_state (fail_all times m)
  = if (failure_threshold p <=? Z.of_nat (length times))%Z then OPEN else CLOSED.
Proof.
  intros Hs Hc. destruct Hp as (Ht & _). induction times as [|t times IH] using rev_ind; simpl.
  - split; [done|]. destruct (Z.leb_spec (failure_threshold p) (Z.of_nat 0)); [lia|exact Hs].
  - rewrite fail_all_snoc, length_app. simpl. destruct IH as [IH1 IH2]. unfold record_failure.
    rewrite IH1, IH2.
    destruct (Z.leb_spec (failure_threshold p) (Z.of_nat (length times)));
      destruct (Z.leb_spec (failure_threshold p) (Z.of_nat (length times) + 1));
      destruct (Z.leb_spec (failure_threshold p) (Z.of_nat (length times + 1))); simpl; split; try lia; done.
Qed.

(** A closed circuit opens exactly at the threshold's consecutive failure;
    an open circuit then refuses requests until the recovery timeout has passed
    on the monotonic clock since the last failure, and at that moment lets the
    request through as HALF_OPEN. *)
Theorem breaker_trips m times utc0 mono0 :
  circuit_state m = CLOSED -> consecutive_failures m = 0%Z ->
  let m' := fail_all (times ++ [(utc0, mono0)]) m in
  (circuit_state m' = OPEN <-> (failure_threshold p <= Z.of_nat (length times) + 1)%Z) /\
  forall utc mono, let '(m2, allowed) := check_circuit p utc mono m' in
    (allowed = true <-> circuit_state m' = CLOSED \/ recovery_timeout_seconds p <= mono - mono0) /\
    (circuit_state m' = OPEN -> circuit_state m2 = if allowed then HALF_OPEN else OPEN).
Proof.
  intros Hs Hc m'. destruct (fail_all_state (times ++ [(utc0, mono0)]) m Hs Hc) as [_ Hst].
  change (fail_all _ m) with m' in Hst. rewrite length_app in Hst. simpl in Hst.
  rewrite Nat2Z.inj_add in Hst. change (Z.of_nat 1) with 1%Z in Hst.
  assert (last_failure_mono m' = Some mono0) as Hl.
  { unfold m'. rewrite fail_all_snoc. apply record_failure_mono. }
  split.
  - rewrite Hst. destruct (Z.leb_spec (failure_threshold p) (Z.of_nat (length times) + 1)); split; try done; lia.
  - intros utc mono. unfold check_circuit, recovery_due. rewrite Hl.
    destruct (Z.leb_spec (failure_threshold p) (Z.of_nat (length times) + 1)); rewrite Hst.
    + destruct (Qle_bool _ _) eqn:Hq; simpl; rewrite <- Qle_bool_iff, Hq, ?Hst; naive_solver.
    + split; [|done]. split; auto.
Qed.

Definition succeed_all (events : list (Q * nat * Q)) m : ModelStats :=
  foldl (fun m e => record_success p e.1.1 e.1.2 e.2 m) m events.

(** A half-open circuit closes exactly after the required number of
    successes, with its failure count reset; one failure before that reopens it
    and restarts the recovery clock; a success while the circuit is open (a late
    answer) does not close it. *)
Theorem breaker_recovers m events utc mono :
  stats_ok p m -> circuit_state m ≠ CLOSED -> half_open_successes m = 0%Z ->
  let m' := succeed_all events m in
  (circuit_state m = HALF_OPEN ->
     circuit_state m' = if (half_open_success_required p <=? Z.of_nat (length events))%Z then CLOSED else HALF_OPEN) /\
  (circuit_state m = OPEN -> circuit_state m' = OPEN) /\
  (circuit_state m' = HALF_OPEN ->
     let m2 := record_failure p utc mono m' in
     circuit_state m2 = OPEN /\ half_open_successes m2 = 0%Z /\ last_failure_mono m2 = Some mono) /\
  (circuit_state m' = CLOSED -> (consecutive_failures m' = 0)%Z).
Proof.
  intros Hok Hnc Hh m'. destruct Hp as (_ & Hr & _).
  assert ((circuit_state m = OPEN -> circuit_state m' = OPEN) /\
    (circuit_state m = HALF_OPEN ->
      circuit_state m' = (if (half_open_success_required p <=? Z.of_nat (length events))%Z then CLOSED else HALF_OPEN) /\
      (circuit_state m' = HALF_OPEN -> half_open_successes m' = Z.of_nat (length events)) /\
      (circuit_state m' = CLOSED -> consecutive_failures m' = 0%Z))) as [Ho Hhalf].
  { unfold m', succeed_all. clear m'. induction events as [|e events IH] using rev_ind; simpl.
    - split; [done|]. intros Hs. rewrite Hs, Hh. destruct (Z.leb_spec (half_open_success_required p) (Z.of_nat 0)); [lia|]. by repeat split.
    - rewrite foldl_app, length_app. simpl. set (m1 := foldl _ m events) in *. unfold record_success.
      destruct IH as [IH1 IH2]. split.
      + intros Hs. by rewrite (IH1 Hs).
      + intros Hs. destruct (IH2 Hs) as (E1 & E2 & E3). rewrite E1.
        destruct (Z.leb_spec (half_open_success_required p) (Z.of_nat (length events))) as [H|H]; simpl.
        * destruct (Z.leb_spec (half_open_success_required p) (Z.of_nat (length events + 1))); [done|lia].
        * rewrite (E2 ltac:(by rewrite E1)).
          destruct (Z.leb_spec (half_open_success_required p) (Z.of_nat (length events) + 1));
            destruct (Z.leb_spec (half_open_success_required p) (Z.of_nat (length events + 1)));
            simpl; try lia; split; try done; split; try done; lia. }
  split; [intros Hs; by apply Hhalf|]. split; [done|]. split.
  - intros Hs. unfold record_failure. rewrite Hs. done.
  - intros Hs. destruct (circuit_state m) eqn:E1; [done| |by apply Hhalf]. by rewrite (Ho eq_refl) in Hs.
Qed.

(** ** Latency *)

Lemma record_failure_ema utc mono m :
  success_count (record_failure p utc mono m) = success_count m /\
  ema_latency_ms (record_failure p utc mono m) = ema_latency_ms m.
Proof.
  unfold record_failure. destruct (decide _); [done|].
  destruct (failure_threshold p <=? consecutive_failures m + 1)%Z; done.
Qed.

Lemma apply_op_ema o m :
  success_count (apply_op p m o) = (success_count m + match o with OpSuccess _ _ _ => 1 | _ => 0 end)%Z /\
  ema_latency_ms (apply_op p m o)
  = match o with OpSuccess _ _ lat => ema_step p (ema_latency_ms m) lat | _ => ema_latency_ms m end.
Proof.
  destruct o; cbn [apply_op]; rewrite ?Z.add_0_r; try done.
  - unfold record_success. destruct (decide _); [|done].
    destruct (half_open_success_required p <=? half_open_successes m + 1)%Z; done.
  - apply record_failure_ema.
  - apply (record_failure_ema utc mono (bump 1 0 m)).
  - apply (record_failure_ema utc mono (bump 0 1 m)).
  - unfold check_circuit. destruct (circuit_state m); [done| |done]. by destruct (recovery_due p utc mono m).
Qed.

(** The smoothed latency is an average of the observed ones: after any
    successful calls whose (positive) latencies lie in an interval, so does
    [avg_latency_ms], whatever else happened in between. *)
Theorem ema_bounds lo hi ops id utc :
  0 < lo ->
  Forall (fun o => match o with OpSuccess _ _ lat => lo <= lat <= hi | _ => True end) ops ->
  let m := foldl (apply_op p) (new_stats id utc) ops in
  if decide (success_count m = 0)%Z then ema_latency_ms m == 0 else lo <= ema_latency_ms m <= hi.
Proof.
  intros Hlo Hops. cbn zeta.
  assert (forall m, (0 <= success_count m)%Z ->
    (if decide (success_count m = 0)%Z then ema_latency_ms m == 0 else lo <= ema_latency_ms m <= hi) ->
    let m' := foldl (apply_op p) m ops in
    if decide (success_count m' = 0)%Z then ema_latency_ms m' == 0 else lo <= ema_latency_ms m' <= hi) as H.
  2: { apply (H (new_stats id utc)); done. }
  induction Hops as [|o ops Ho Hops IH]; intros m Hn Hm; [done|]. cbn [foldl].
  destruct (apply_op_ema o m) as [E1 E2]. apply IH; clear IH; rewrite E1, ?E2; destruct o; rewrite ?Z.add_0_r; try done; [lia|].
  rewrite decide_False by lia. unfold ema_step. destruct Hp as (_ & _ & _ & _ & Ha & _).
  destruct (decide (ema_latency_ms m == 0)) as [|Hne]; [done|].
  destruct (decide (success_count m = 0)%Z); [done|].
  set (a := ema_alpha p) in *. set (e := ema_latency_ms m) in *. split; nra.
Qed.
End cycle.

Lemma StronglySorted_nth {A} (R : A -> A -> Prop) l i j x y :
  StronglySorted R l -> l !! i = Some x -> l !! j = Some y -> (i < j)%nat -> R x y.
Proof.
  intros Hl. revert i j. induction Hl as [|z l Hl IH Hz]; intros i j Hx Hy Hij; [done|].
  destruct j as [|j]; [lia|]. simpl in Hy. destruct i as [|i]; simpl in Hx; [|eapply (IH i j); [done..|lia]].
  injection Hx as <-. rewrite Forall_forall in Hz. apply Hz. by eapply list_elem_of_lookup_2.
Qed.

Lemma get_percentile_le l q1 q2 : Sorted Qle l -> l ≠ [] -> 0 <= q1 <= q2 ->
  get_percentile l q1 <= get_percentile l q2 /\ get_percentile l q2 ∈ l.
Proof.
  intros Hl Hne Hq. unfold get_percentile.
  assert (length l ≠ 0)%nat as Hlen by (by destruct l).
  set (i := Nat.min _ _). set (j := Nat.min (Z.to_nat (Qfloor (q2 * _))) _).
  assert (i <= j < length l)%nat as Hij.
  { unfold i, j. assert (Qfloor (q1 * inject_Z (Z.of_nat (length l))) <= Qfloor (q2 * inject_Z (Z.of_nat (length l))))%Z; [|lia].
    apply Qfloor_resp_le, Qmult_le_compat_r; [lra|]. change 0 with (inject_Z 0). rewrite <- Zle_Qle. lia. }
  destruct (lookup_lt_is_Some_2 l i ltac:(lia)) as [x Hx], (lookup_lt_is_Some_2 l j ltac:(lia)) as [y Hy].
  rewrite Hx, Hy. simpl. split; [|by eapply list_elem_of_lookup_2].
  destruct (decide (i = j)) as [->|Hne2]; [rewrite Hx in Hy; injection Hy as ->; lra|].
  apply Sorted_StronglySorted in Hl; [|intros a b c; apply Qle_trans].
  eapply (StronglySorted_nth Qle l i j); [done|done|done|lia].
Qed.

(** Percentiles are observed latencies in order: with at least one sample,
    p50 <= p75 <= p90 <= p95 <= p99 and each is one of the samples. *)
Theorem percentiles_ordered m :
  latency_samples m ≠ [] ->
  Sorted Qle (percentiles m) /\ length (percentiles m) = 5%nat /\ Forall (fun x => x ∈ latency_samples m) (percentiles m).
Proof.
  intros Hne. unfold percentiles. destruct (latency_samples m) as [|x l]; [done|].
  assert (Sorted Qle (merge_sort Qle (x :: l))) as Hs by (apply Sorted_merge_sort; apply _).
  assert (merge_sort Qle (x :: l) ≡ₚ x :: l) as Hperm by apply merge_sort_Permutation.
  set (s := merge_sort Qle (x :: l)) in *.
  assert (s ≠ []) as Hs0 by (intros E; rewrite E in Hperm; by apply Permutation_nil_cons in Hperm).
  split; [|split; [done|]].
  - simpl. repeat (apply Sorted_cons; [|repeat constructor; try (apply get_percentile_le; [done|done|lra])]).
    constructor.
  - apply Forall_fmap, Forall_forall. intros q Hq. change (get_percentile s q ∈ x :: l). rewrite <- Hperm.
    apply (get_percentile_le s q q); [done|done|]. 
    repeat (apply elem_of_cons in Hq as [->|Hq]; [lra|]). by apply elem_of_nil in Hq.
Qed.

(** ** Persistence *)

Section roundtrip.
Context (isoformat : Q -> string) (fromisoformat : string -> option Q).
Hypothesis iso_roundtrip : forall t, fromisoformat (isoformat t) = Some t.
Hypothesis iso_nonempty : forall t, isoformat t ≠ "".

Lemma get_time_iso d k t :
  od_get k d = Some (iso_opt isoformat t) -> get_time fromisoformat d k = Ok t.
Proof.
  intros Hk. unfold get_time. rewrite Hk. destruct t as [t|]; simpl; [|done].
  pose proof (iso_roundtrip t) as H1. pose proof (iso_nonempty t) as H2. destruct (isoformat t); [done|]. by rewrite H1.
Qed.

(** Persisted statistics come back: [from_dict] accepts what [to_dict]
    writes and restores identity, counters, smoothed latency, circuit state and
    every wall-clock time; an unexpired cooldown keeps its remaining time on the
    new process's monotonic clock, an expired one is dropped; and an open circuit
    still opens for a probe exactly when the recovery timeout has passed since
    the persisted failure, now on the wall clock. *)
Theorem stats_roundtrip p m utc mono :
  exists m', stats_from_dict fromisoformat utc mono (stats_to_dict isoformat m) = Ok m' /\
  model_id m' = model_id m /\ success_count m' = success_count m /\ failure_count m' = failure_count m /\
  rate_limit_count m' = rate_limit_count m /\ timeout_count m' = timeout_count m /\
  ema_latency_ms m' == ema_latency_ms m /\ circuit_state m' = circuit_state m /\
  last_success m' = last_success m /\ last_failure m' = last_failure m /\ first_seen m' = first_seen m /\
  cooldown_until m' = cooldown_until m /\
  (forall elapsed, is_in_cooldown (mono + elapsed) m' = true <->
     exists t, cooldown_until m = Some t /\ utc < t /\ utc + elapsed < t) /\
  (circuit_state m = OPEN -> forall utc' mono', (check_circuit p utc' mono' m').2 = true <->
     exists t, last_failure m = Some t /\ recovery_timeout_seconds p <= utc' - t).
Proof.
  unfold stats_from_dict.
  assert (forall s, circuit_of_value (circuit_value s) = Some s) as Hcv by (by intros []).
  set (d := stats_to_dict isoformat m).
  assert (od_get "model_id" d = Some (VStr (model_id m))) as -> by reflexivity.
  assert (od_get "circuit_state" d = Some (VStr (circuit_value (circuit_state m)))) as -> by reflexivity.
  rewrite Hcv, (get_time_iso d "last_success" (last_success m)), (get_time_iso d "last_failure" (last_failure m)),
    (get_time_iso d "first_seen" (Some (first_seen m))), (get_time_iso d "cooldown_until" (cooldown_until m))
    by reflexivity.
  simpl. eexists. split; [reflexivity|]. cbn [model_id success_count failure_count rate_limit_count timeout_count
    ema_latency_ms circuit_state last_success last_failure first_seen cooldown_until].
  do 11 (split; [first [reflexivity|apply Qred_correct]|]). split.
  - intros elapsed. unfold is_in_cooldown. cbn [cooldown_until_mono].
    destruct (cooldown_until m) as [t|]; simpl; [|split; [done|by intros (t & ? & _)]].
    case_decide as H0; [rewrite bool_decide_eq_true|]; split.
    + intros H. exists t. repeat split; lra.
    + intros (t' & [= <-] & _ & ?). lra.
    + done.
    + intros (t' & [= <-] & ? & _). lra.
  - intros Hs utc' mono'. unfold check_circuit. cbn [circuit_state]. rewrite Hs. unfold recovery_due.
    cbn [last_failure_mono last_failure_time]. destruct (last_failure m) as [t|].
    + destruct (Qle_bool _ _) eqn:Hq; cbn [snd]; split; try done.
      * intros _. exists t. split; [done|]. by apply Qle_bool_iff.
      * intros (t' & [= <-] & Hle). apply Qle_bool_iff in Hle. congruence.
    + split; [done|]. by intros (t' & ? & _).
Qed.
End roundtrip.

(** ** Witnesses *)

#[local] Abbreviation tripped :=
  (fail_all default_policy ([(1, 1); (2, 2); (3, 3); (4, 4)] ++ [(5, 5)]) (new_stats "gh:gpt-4o" 0)).
Definition half_opened : ModelStats :=
  foldl (apply_op default_policy) (new_stats "gh:gpt-4o" 0)
    [OpFailure 1 1; OpFailure 2 2; OpFailure 3 3; OpFailure 4 4; OpFailure 5 5; OpCheck 65 65].

Lemma breaker_invariant_witness :
  stats_ok default_policy (foldl (apply_op default_policy) (new_stats "gh:gpt-4o" 0)
    [OpSuccess 1 0 120; OpFailure 2 2; OpRateLimit 3 3 None; OpCheck 4 4]).
Proof. apply (breaker_invariant default_policy default_policy_ok). Defined.

Lemma breaker_trips_witness :
  circuit_state tripped = OPEN /\ (check_circuit default_policy 64 64 tripped).2 = false /\
  (check_circuit default_policy 65 65 tripped).2 = true.
Proof.
  destruct (breaker_trips default_policy default_policy_ok (new_stats "gh:gpt-4o" 0) [(1, 1); (2, 2); (3, 3); (4, 4)] 5 5
    eq_refl eq_refl) as [H1 H2].
  split; [apply H1; discriminate|]. split; [by vm_compute|].
  specialize (H2 65 65). destruct (check_circuit default_policy 65 65 tripped) as [m2 b].
  apply H2. right. discriminate.
Defined.

Lemma breaker_recovers_witness :
  circuit_state half_opened = HALF_OPEN /\
  circuit_state (succeed_all default_policy [(66, 0%nat, 100); (67, 0%nat, 100)] half_opened) = CLOSED.
Proof.
  assert (stats_ok default_policy half_opened) as Hok.
  { split; try (by vm_compute). all: vm_compute; try lia; try constructor; try discriminate; split; discriminate. }
  assert (circuit_state half_opened = HALF_OPEN) as Hs by (vm_compute; reflexivity).
  split; [exact Hs|].
  destruct (breaker_recovers default_policy default_policy_ok half_opened [(66, 0%nat, 100); (67, 0%nat, 100)] 0 0 Hok
    ltac:(rewrite Hs; discriminate) ltac:(vm_compute; reflexivity)) as [H _].
  rewrite (H Hs). reflexivity.
Defined.

Lemma ema_bounds_witness :
  let m := foldl (apply_op default_policy) (new_stats "m" 0) [OpSuccess 1 0 100; OpFailure 2 2; OpSuccess 3 0 300] in
  100 <= ema_latency_ms m <= 300.
Proof.
  cbn zeta. pose proof (ema_bounds default_policy default_policy_ok 100 300
    [OpSuccess 1 0 100; OpFailure 2 2; OpSuccess 3 0 300] "m" 0 ltac:(lra)
    ltac:(repeat constructor; vm_compute; discriminate)) as H.
  cbn zeta in H. rewrite decide_False in H by (by vm_compute). exact H.
Defined.

Lemma percentiles_ordered_witness :
  let m := foldl (apply_op default_policy) (new_stats "m" 0) [OpSuccess 1 0 300; OpSuccess 2 0 100] in
  Sorted Qle (percentiles m).
Proof.
  cbn zeta. apply (percentiles_ordered (foldl (apply_op default_policy) (new_stats "m" 0) [OpSuccess 1 0 300; OpSuccess 2 0 100])).
  by vm_compute.
Defined.

(** A clock format: the digits of the encoded number. *)
Fixpoint pos_digits (n : positive) : string :=
  match n with
  | xH => "" | xO n => String "0" (pos_digits n) | xI n => String "1" (pos_digits n)
  end.
Fixpoint pos_of_digits (s : string) : positive :=
  match s with
  | EmptyString => xH
  | String c s => if decide (c = "0"%char) then xO (pos_of_digits s) else xI (pos_of_digits s)
  end.
Definition demo_iso (t : Q) : string := String "T" (pos_digits (encode (Qnum t, Qden t))).
Definition demo_fromiso (s : string) : option Q :=
  match s with
  | String _ s => (fun nd : Z * positive => nd.1 # nd.2) <$> decode (pos_of_digits s)
  | EmptyString => None
  end.

Lemma demo_iso_roundtrip t : demo_fromiso (demo_iso t) = Some t.
Proof.
  assert (forall n, pos_of_digits (pos_digits n) = n) as H by (induction n; simpl; congruence).
  unfold demo_fromiso, demo_iso. rewrite H, decode_encode. by destruct t.
Qed.

Lemma stats_roundtrip_witness :
  exists m', stats_from_dict demo_fromiso 20 7 (stats_to_dict demo_iso tripped) = Ok m' /\
    circuit_state m' = OPEN /\ (check_circuit default_policy 64 0 m').2 = false /\
    (check_circuit default_policy 65 0 m').2 = true.
Proof.
  destruct (stats_roundtrip demo_iso demo_fromiso demo_iso_roundtrip ltac:(done) default_policy tripped 20 7)
    as (m' & H & _ & _ & _ & _ & _ & _ & Hs & _ & _ & _ & _ & _ & Hc).
  exists m'. split; [done|]. split; [by rewrite Hs|]. split.
  - apply not_true_iff_false. intros Ht. apply (Hc eq_refl) in Ht as (t & [= <-] & Hle). vm_compute in Hle. by apply Hle.
  - apply (Hc eq_refl). exists 5. split; [done|]. vm_compute. discriminate.
Defined.
