(* ===== verification/RateLimit.v ===== *)
(** * Rate-limit tracking (models/rate_limit_tracker.py)

    The token bucket, the per-provider state and the parsing of rate-limit
    headers.  Clock readings are arguments: [mono] for [time.monotonic()], [now]
    for [time.time()] and [datetime.now(UTC)] (POSIX seconds).  Floats are exact
    rationals.  [parsedate] and [fromiso] stand for the date parsers of the
    standard library ([email.utils], [datetime.fromisoformat]), to POSIX seconds. *)

From Stdlib Require Import QArith Qminmax Qround Lqa.
From S2P Require Import Prelude PyStr PyVal.
Local Open Scope Q_scope.

(** ** Token buckets *)

Record TokenBucket := mkBucket {
  capacity : Z;
  refill_rate : Q;
  tokens : Q;
  last_refill : Q;
}.

Definition new_bucket (capacity : Z) (refill_rate mono : Q) : TokenBucket :=
  mkBucket capacity refill_rate (inject_Z capacity) mono.

Definition refill (mono : Q) (b : TokenBucket) : TokenBucket :=
  let elapsed := mono - last_refill b in
  mkBucket (capacity b) (refill_rate b)
    (Qmin (inject_Z (capacity b)) (tokens b + elapsed * refill_rate b)) mono.

Definition consume (mono : Q) (n : Z) (b : TokenBucket) : TokenBucket * bool :=
  let b := refill mono b in
  if Qle_bool (inject_Z n) (tokens b)
  then (mkBucket (capacity b) (refill_rate b) (tokens b - inject_Z n) (last_refill b), true)
  else (b, false).

(** [None] is infinity. *)
Definition time_until_available (mono : Q) (n : Z) (b : TokenBucket) : TokenBucket * option Q :=
  let b := refill mono b in
  (b, if Qle_bool (inject_Z n) (tokens b) then Some 0
      else
        let deficit := inject_Z n - tokens b in
        if negb (Qle_bool (refill_rate b) 0) then Some (deficit / refill_rate b) else None).

Definition bucket_reset (mono : Q) (remaining : Z) (reset_seconds : Q) (b : TokenBucket) : TokenBucket :=
  mkBucket (capacity b)
    (if negb (Qle_bool reset_seconds 0) && (remaining <? capacity b)%Z
     then inject_Z (capacity b - remaining) / reset_seconds else refill_rate b)
    (inject_Z (Z.min remaining (capacity b))) mono.

(** ** Parsing of header values *)

Definition safe_int (value : option string) : option Z :=
  match value ≫= int_of_string with
  | Some n => if (0 <=? n)%Z then Some n else None
  | None => None
  end.

Fixpoint first_header (headers : odict string) (names : list string) : option string :=
  match names with
  | [] => None
  | n :: names' =>
      match od_get n headers with
      | Some v => if decide (strip v = "") then first_header headers names' else Some v
      | None => first_header headers names'
      end
  end.

Fixpoint first_safe_int (headers : odict string) (names : list string) : option Z :=
  match names with
  | [] => None
  | n :: names' => match safe_int (od_get n headers) with
                   | Some v => Some v | None => first_safe_int headers names' end
  end.

Definition positive_q (q : Q) : option Q := if negb (Qle_bool q 0) then Some q else None.

Definition parse_milliseconds (value : string) : option Q :=
  float_of_string value ≫= fun v => positive_q (v / 1000).

(** A bounded positive cooldown in whole seconds. *)
Definition cooldown_seconds (seconds : option Q) : option Z :=
  match seconds with
  | Some s => if Qle_bool s 0 || negb (Qle_bool s 3600) then None else Some (Z.max 1 (Qceiling s))
  | None => None
  end.

(** [\d+(?:\.\d+)?m(?!s)] at the head of the text: the number and the rest. *)
Fixpoint span_digits (l : list Ascii.ascii) : list Ascii.ascii * list Ascii.ascii :=
  match l with
  | c :: l' => if is_digit c then (c :: (span_digits l').1, (span_digits l').2) else ([], l)
  | [] => ([], [])
  end.
Definition minutes_here (l : list Ascii.ascii) : option (list Ascii.ascii * list Ascii.ascii) :=
  let '(d, r) := span_digits l in
  match d with
  | [] => None
  | _ =>
      let '(num, r) := match r with
                       | "."%char :: r' =>
                           let '(f, r2) := span_digits r' in
                           match f with [] => (d, r) | _ => (d ++ "."%char :: f, r2) end
                       | _ => (d, r) end in
      match r with
      | "m"%char :: "s"%char :: _ => None
      | "m"%char :: r' => Some (num, r')
      | _ => None
      end
  end.
(** The leftmost match: the text before it, the number, the text after it. *)
Fixpoint search_minutes (l : list Ascii.ascii) : option (list Ascii.ascii * list Ascii.ascii * list Ascii.ascii) :=
  match minutes_here l with
  | Some (num, r) => Some ([], num, r)
  | None =>
      match l with
      | [] => None
      | c :: l' => (fun x => (c :: x.1.1, x.1.2, x.2)) <$> search_minutes l'
      end
  end.

(** [None] is the failure flag. *)
Definition consume_duration_minutes (remaining : string) : option (Q * string) :=
  match search_minutes (chars remaining) with
  | Some (pre, num, post) =>
      match float_of_string (of_chars num) with
      | Some m => Some (m * 60, of_chars (pre ++ post))
      | None => None
      end
  | None => Some (0, remaining)
  end.

Definition consume_duration_seconds (remaining : string) : Q * string :=
  if contains remaining "s" && negb (contains remaining "ms") then
    match split_once "s" remaining with
    | Some (before, rest) => (default 0 (float_of_string before), rest)
    | None => (0, remaining)
    end
  else (0, remaining).

Definition consume_duration_milliseconds (remaining : string) : Q :=
  match split_once "ms" remaining with
  | Some (before, _) => match float_of_string before with Some v => v / 1000 | None => 0 end
  | None => 0
  end.

Definition parse_duration (value : string) : option Q :=
  match float_of_string value with
  | Some v => Some v
  | None =>
      match consume_duration_minutes (strip value) with
      | None => None
      | Some (minutes, rest) =>
          let '(seconds, rest) := consume_duration_seconds rest in
          positive_q (minutes + seconds + consume_duration_milliseconds rest)
      end
  end.

Definition extract_provider (model : string) : string :=
  if has_char ":" model then lower (before_char ":" model)
  else if has_char "/" model then lower (before_char "/" model)
  else "unknown".

Section dates.
Context (parsedate fromiso : string -> option Q).

(** Seconds from now to a deadline, if in the future. *)
Definition until (now : Q) (t : option Q) : option Q := t ≫= fun t => positive_q (t - now).

Definition parse_reset_seconds (now : Q) (value : option string) : option Q :=
  match value with
  | None => None
  | Some v =>
      let stripped := strip v in
      if decide (stripped = "") then None
      else
        match float_of_string stripped with
        | Some numeric =>
            positive_q (if negb (Qle_bool numeric 1000000000000) then numeric / 1000 - now
                        else if negb (Qle_bool numeric 1000000000) then numeric - now else numeric)
        | None =>
            match parse_duration stripped with
            | Some d => Some d
            | None =>
                match parsedate stripped with
                | Some t => positive_q (t - now)
                | None => until now (fromiso stripped)
                end
            end
        end
  end.

Fixpoint first_reset_seconds (now : Q) (headers : odict string) (names : list string) : option Q :=
  match names with
  | [] => None
  | n :: names' => match parse_reset_seconds now (od_get n headers) with
                   | Some v => Some v | None => first_reset_seconds now headers names' end
  end.

(** [{str(k).lower(): str(v) ...}] *)
Definition lower_headers (headers : odict string) : odict string :=
  foldl (fun d kv => od_set (lower kv.1) kv.2 d) [] headers.

(** The [retry-after] header: seconds, or a date. *)
Definition retry_after_header (now : Q) (h : odict string) : option Z :=
  match od_get "retry-after" h with
  | Some (String _ _ as v) =>
      match int_of_string v ≫= fun n => cooldown_seconds (Some (inject_Z n)) with
      | Some c => Some c
      | None => cooldown_seconds ((fun t => t - now) <$> parsedate v)
      end
  | _ => None
  end.

Definition parse_retry_after (now : Q) (headers : odict string) : option Z :=
  let h := lower_headers headers in
  match retry_after_header now h with
  | Some c => Some c
  | None => cooldown_seconds (first_header h ["retry-after-ms"; "x-ms-retry-after-ms"] ≫= parse_milliseconds)
  end.

(** ** Providers *)

Record ProviderRateLimits := mkProvider {
  provider : string;
  rpm_bucket : TokenBucket;
  tpm_bucket : option TokenBucket;
  last_retry_after : option Q;
  total_requests : Z;
  recent_errors : Z;
}.

Definition set_buckets (rpm : TokenBucket) (tpm : option TokenBucket) (s : ProviderRateLimits) : ProviderRateLimits :=
  mkProvider (provider s) rpm tpm (last_retry_after s) (total_requests s) (recent_errors s).
Definition set_retry_after (r : Q) (s : ProviderRateLimits) : ProviderRateLimits :=
  mkProvider (provider s) (rpm_bucket s) (tpm_bucket s) (Some r) (total_requests s) (recent_errors s).
Definition count_calls (requests errors : Z) (s : ProviderRateLimits) : ProviderRateLimits :=
  mkProvider (provider s) (rpm_bucket s) (tpm_bucket s) (last_retry_after s)
    (total_requests s + requests) (recent_errors s + errors).

Definition DEFAULT_LIMITS : odict (Z * Z) :=
  [("openai", (60, 90000)); ("anthropic", (60, 80000)); ("gemini", (60, 100000)); ("gh", (15, 150000));
   ("azure", (60, 120000)); ("ollama", (1000, 1000000))]%Z.

Definition new_provider (mono : Q) (name : string) : ProviderRateLimits :=
  let '(rpm, tpm) := default (30, 50000)%Z (od_get name DEFAULT_LIMITS) in
  mkProvider name (new_bucket rpm (inject_Z rpm / 60) mono) (Some (new_bucket tpm (inject_Z tpm / 60) mono)) None 0 0.

Abbreviation tracker := (gmap string ProviderRateLimits).

(** The state of the model's provider, created on first use. *)
Definition get_provider (mono : Q) (model : string) (t : tracker) : ProviderRateLimits :=
  let name := extract_provider model in default (new_provider mono name) (t !! name).
Definition put_provider (model : string) (s : ProviderRateLimits) (t : tracker) : tracker :=
  <[extract_provider model := s]> t.

Definition can_request (mono : Q) (model : string) (estimated_tokens : Z) (t : tracker) : tracker * bool :=
  let s := get_provider mono model t in
  let '(rpm, ok) := consume mono 1 (rpm_bucket s) in
  if negb ok then (put_provider model (set_buckets rpm (tpm_bucket s) s) t, false)
  else
    match tpm_bucket s with
    | None => (put_provider model (set_buckets rpm None s) t, true)
    | Some b =>
        let '(tpm, ok) := consume mono estimated_tokens b in
        (put_provider model (set_buckets rpm (Some tpm) s) t, ok)
    end.

Definition exhausted_cooldown (remaining : option Z) (reset : option Q) : list Z :=
  match remaining with
  | Some n => if (n <=? 0)%Z then match cooldown_seconds reset with Some c => [c] | None => [] end else []
  | None => []
  end.
Definition max_of (l : list Z) : option Z :=
  match l with [] => None | c :: l' => Some (foldl Z.max c l') end.
Definition reset_both (mono : Q) (remaining : option Z) (reset : option Q) (b : TokenBucket) : TokenBucket :=
  match remaining, reset with Some n, Some r => bucket_reset mono n r b | _, _ => b end.

(** The common shape of the OpenAI and Gemini parsers. *)
Definition parse_dual_headers (now mono : Q) (h : odict string) (requests resets token_counts token_resets : list string)
    (s : ProviderRateLimits) : ProviderRateLimits * option Z :=
  let remaining := first_safe_int h requests in
  let reset := first_reset_seconds now h resets in
  let remaining_tokens := first_safe_int h token_counts in
  let reset_tokens := first_reset_seconds now h token_resets in
  (set_buckets (reset_both mono remaining reset (rpm_bucket s))
     (reset_both mono remaining_tokens reset_tokens <$> tpm_bucket s) s,
   max_of (exhausted_cooldown remaining reset ++ exhausted_cooldown remaining_tokens reset_tokens)).

Definition parse_openai_headers (now mono : Q) (h : odict string) : ProviderRateLimits -> ProviderRateLimits * option Z :=
  parse_dual_headers now mono h
    ["x-ratelimit-remaining-requests"; "x-ms-ratelimit-remaining-requests"]
    ["x-ratelimit-reset-requests"; "x-ms-ratelimit-reset-requests"]
    ["x-ratelimit-remaining-tokens"; "x-ms-ratelimit-remaining-tokens"]
    ["x-ratelimit-reset-tokens"; "x-ms-ratelimit-reset-tokens"].

Definition parse_gemini_headers (now mono : Q) (h : odict string) : ProviderRateLimits -> ProviderRateLimits * option Z :=
  parse_dual_headers now mono h
    ["x-ratelimit-remaining-requests"; "x-ratelimit-remaining";
     "x-goog-ratelimit-remaining-requests"; "x-goog-ratelimit-remaining"]
    ["x-ratelimit-reset-requests"; "x-ratelimit-reset"; "x-goog-ratelimit-reset-requests"; "x-goog-ratelimit-reset"]
    ["x-ratelimit-remaining-tokens"; "x-goog-ratelimit-remaining-tokens"]
    ["x-ratelimit-reset-tokens"; "x-goog-ratelimit-reset-tokens"].

Definition parse_github_headers (now mono : Q) (h : odict string) (s : ProviderRateLimits)
  : ProviderRateLimits * option Z :=
  let '(s, openai_style_cooldown) := parse_openai_headers now mono h s in
  match openai_style_cooldown with
  | Some c => (s, Some c)
  | None =>
      let remaining := first_safe_int h ["x-ratelimit-remaining"; "ratelimit-remaining"] in
      let reset := first_reset_seconds now h ["x-ratelimit-reset"; "ratelimit-reset"] in
      (set_buckets (reset_both mono remaining reset (rpm_bucket s)) (tpm_bucket s) s,
       match remaining with Some n => if (n <=? 0)%Z then cooldown_seconds reset else None | None => None end)
  end.

Definition parse_anthropic_headers (now mono : Q) (h : odict string) (s : ProviderRateLimits)
  : ProviderRateLimits * option Z :=
  let remaining := first_safe_int h ["anthropic-ratelimit-requests-remaining"; "x-ratelimit-remaining-requests"] in
  let reset := first_reset_seconds now h ["anthropic-ratelimit-requests-reset"; "x-ratelimit-reset-requests"] in
  (match remaining with
   | Some n => set_buckets (bucket_reset mono n (match reset with
                                                 | Some r => if Qeq_bool r 0 then 60 else r
                                                 | None => 60 end) (rpm_bucket s)) (tpm_bucket s) s
   | None => s
   end,
   match remaining with
   | Some n => if (n <=? 0)%Z then Some (default 60%Z (cooldown_seconds reset)) else None
   | None => None
   end).

Definition update_from_headers (now mono : Q) (model : string) (headers : odict string) (t : tracker)
  : tracker * option Z :=
  let h := lower_headers headers in
  let name := extract_provider model in
  let s := get_provider mono model t in
  match parse_retry_after now headers with
  | Some c => (put_provider model (set_retry_after (inject_Z c) s) t, Some c)
  | None =>
      let '(s, r) :=
        if decide (name = "openai" \/ name = "azure") then parse_openai_headers now mono h s
        else if decide (name = "gh") then parse_github_headers now mono h s
        else if decide (name = "gemini") then parse_gemini_headers now mono h s
        else if decide (name = "anthropic") then parse_anthropic_headers now mono h s
        else (s, None) in
      (put_provider model s t, r)
  end.

(** [int] of a float: towards zero. *)
Definition trunc (q : Q) : Z := Z.quot (Qnum q) (Zpos (Qden q)).

(** [jitter] is the draw of [random.uniform(0.1, 0.25)]. *)
Definition get_cooldown_seconds (now mono jitter : Q) (model : string) (headers : option (odict string))
    (default_cooldown : Z) (t : tracker) : tracker * Z :=
  let '(t, from_headers) :=
    match headers with
    | Some (kv :: rest) => update_from_headers now mono model (kv :: rest) t
    | _ => (t, None)
    end in
  match from_headers with
  | Some c => (t, c)
  | None =>
      let s := get_provider mono model t in
      let base := match last_retry_after s with Some r => trunc r | None => default_cooldown end in
      (put_provider model s t, trunc (inject_Z base * (1 + jitter)))
  end.

Definition record_request (mono : Q) (model : string) (t : tracker) : tracker :=
  put_provider model (count_calls 1 0 (get_provider mono model t)) t.
Definition record_error (mono : Q) (model : string) (t : tracker) : tracker :=
  put_provider model (count_calls 0 1 (get_provider mono model t)) t.

Definition compute_throttle_factor (model : string) (t : tracker) : Q :=
  match t !! extract_provider model with
  | None => 0
  | Some s =>
      if (total_requests s <? 10)%Z then 0
      else Qmin 1 (inject_Z (recent_errors s) / inject_Z (total_requests s) * 2)
  end.
End dates.

Example duration_examples :
  parse_duration "6s" = Some 6 /\ Qeq_bool (default 0 (parse_duration "1m30s")) 90 = true /\
  Qeq_bool (default 0 (parse_duration "500ms")) (1 # 2) = true /\
  Qeq_bool (default 0 (parse_duration "1m500ms")) (121 # 2) = true /\ parse_duration "soon" = None.
Proof. vm_compute. done. Qed.

(** ** Correctness of rate-limit tracking

    A token bucket never grants more than its capacity and refill allow, and the
    waiting time it announces is exact; cooldowns from headers are bounded;
    the tracker keeps its buckets well formed and its providers apart. *)

(** ** Rationals *)

Lemma Qle_bool_false a b : Qle_bool a b = false <-> b < a.
Proof.
  rewrite <- not_true_iff_false, Qle_bool_iff. split; [apply Qnot_le_lt|apply Qlt_not_le].
Qed.

Lemma trunc_floor q : 0 <= q -> trunc q = Qfloor q.
Proof.
  destruct q as [n d]. unfold trunc, Qfloor, Qle. simpl. intros H. apply Z.quot_div_nonneg; lia.
Qed.

Lemma Qmin_cases a b : (Qmin a b == a /\ a <= b) \/ (Qmin a b == b /\ b <= a).
Proof. destruct (Q.min_spec a b) as [[? ?]|[? ?]]; [left|right]; split; lra. Qed.

(** ** Token buckets *)

Definition bucket_ok (b : TokenBucket) : Prop :=
  0 <= tokens b <= inject_Z (capacity b) /\ 0 <= refill_rate b.

Lemma refill_ok mono b : bucket_ok b -> last_refill b <= mono ->
  bucket_ok (refill mono b) /\ last_refill (refill mono b) = mono /\
  tokens (refill mono b) <= tokens b + refill_rate b * (mono - last_refill b).
Proof.
  intros [[H1 H2] H3] Hm. unfold bucket_ok, refill. simpl.
  assert (0 <= (mono - last_refill b) * refill_rate b) by (apply Qmult_le_0_compat; lra).
  assert ((mono - last_refill b) * refill_rate b == refill_rate b * (mono - last_refill b)) as Hc by ring.
  destruct (Qmin_cases (inject_Z (capacity b)) (tokens b + (mono - last_refill b) * refill_rate b)) as [[E ?]|[E ?]];
    rewrite E; repeat split; lra.
Qed.

Lemma consume_ok mono n b : bucket_ok b -> last_refill b <= mono -> (0 <= n)%Z ->
  let '(b', ok) := consume mono n b in
  bucket_ok b' /\ last_refill b' = mono /\ capacity b' = capacity b /\ refill_rate b' = refill_rate b /\
  tokens b' + (if ok then inject_Z n else 0) == tokens (refill mono b).
Proof.
  intros Hb Hm Hn. destruct (refill_ok mono b Hb Hm) as ([[H1 H2] H3] & Hl & _).
  assert (0 <= inject_Z n) by (change 0 with (inject_Z 0); rewrite <- Zle_Qle; lia).
  unfold consume. destruct (Qle_bool _ _) eqn:E; cbn [tokens last_refill capacity refill_rate].
  - apply Qle_bool_iff in E. unfold bucket_ok. cbn [tokens capacity refill_rate] in *.
    repeat split; try done; simpl in *; try lra.
  - repeat split; try done; simpl in *; try lra.
Qed.

(** Requests at given times, and the tokens granted in all. *)
Fixpoint run_requests (b : TokenBucket) (l : list (Q * Z)) : TokenBucket * Z :=
  match l with
  | [] => (b, 0%Z)
  | (t, n) :: l' =>
      let '(b, ok) := consume t n b in
      let '(b, granted) := run_requests b l' in
      (b, ((if ok then n else 0) + granted)%Z)
  end.

Fixpoint nondecreasing (t : Q) (l : list (Q * Z)) : Prop :=
  match l with [] => True | (t', _) :: l' => t <= t' /\ nondecreasing t' l' end.

(** C8. The bucket enforces its rate: whatever is requested and when, the
    tokens granted from any moment on never exceed what was in the bucket plus
    the refill rate times the elapsed time (so never capacity plus refill), and
    the level stays between zero and the capacity. *)
Theorem bucket_rate_limit b l :
  bucket_ok b -> nondecreasing (last_refill b) l -> Forall (fun r => (0 <= r.2)%Z) l ->
  let '(b', granted) := run_requests b l in
  bucket_ok b' /\ capacity b' = capacity b /\ refill_rate b' = refill_rate b /\
  inject_Z granted + tokens b' <= tokens b + refill_rate b * (last_refill b' - last_refill b) /\
  inject_Z granted <= inject_Z (capacity b) + refill_rate b * (last_refill b' - last_refill b).
Proof.
  revert b. induction l as [|[t n] l IH]; intros b Hb Ht Hn.
  - simpl. split; [done|]. split; [done|]. split; [done|]. destruct Hb as [[H1 H2] H3]. change (inject_Z 0) with 0. split; lra.
  - simpl in Ht. destruct Ht as [Ht Hl]. apply Forall_cons in Hn as [Hn0 Hn]. cbn [snd] in Hn0.
    simpl. pose proof (consume_ok t n b Hb Ht Hn0) as Hc.
    destruct (refill_ok t b Hb Ht) as (_ & _ & Hr).
    destruct (consume t n b) as [b1 ok]. destruct Hc as (Hb1 & Hl1 & Hc1 & Hr1 & Htok).
    rewrite <- Hl1 in Hl. specialize (IH b1 Hb1 Hl Hn). destruct (run_requests b1 l) as [b2 g].
    destruct IH as (H2 & Hc2 & Hr2 & Hg & _). rewrite Hc1 in Hc2. rewrite Hr1 in Hr2, Hg. rewrite Hl1 in Hg.
    assert (inject_Z ((if ok then n else 0) + g) == (if ok then inject_Z n else 0) + inject_Z g) as Hadd
      by (rewrite inject_Z_plus; by destruct ok).
    assert (refill_rate b * (last_refill b2 - last_refill b)
      == refill_rate b * (last_refill b2 - t) + refill_rate b * (t - last_refill b)) as Hd by ring.
    destruct Hb as [[Hb1' Hb2'] _], H2 as [[H21 H22] H23].
    repeat split; try done; rewrite ?Hadd, ?Hd; lra.
Qed.

(** The announced waiting time is exact: if nothing else is consumed,
    a request succeeds once it has passed and at no earlier moment; a request
    larger than the capacity never succeeds. *)
Theorem wait_suffices b mono n later :
  bucket_ok b -> last_refill b <= mono -> mono <= later -> 0 < refill_rate b -> (0 <= n)%Z ->
  exists b' d, time_until_available mono n b = (b', Some d) /\ 0 <= d /\
    ((consume later n b').2 = true <-> (n <= capacity b)%Z /\ mono + d <= later).
Proof.
  intros Hb Hm Hl Hr Hn. unfold time_until_available.
  destruct (refill_ok mono b Hb Hm) as (Hb1 & Hl1 & _).
  set (b1 := refill mono b) in *. assert (refill_rate b1 = refill_rate b) as Hr1 by done.
  assert (capacity b1 = capacity b) as Hc1 by done. destruct Hb1 as [[H1 H2] _].
  assert (forall d, (forall x, inject_Z n <= tokens b1 + x * refill_rate b <-> d <= x) ->
    ((consume later n b1).2 = true <-> (n <= capacity b)%Z /\ mono + d <= later)) as Hmain.
  { intros d Hd. unfold consume, refill. cbn [tokens capacity refill_rate last_refill]. rewrite Hl1, Hr1, Hc1.
    assert (Qle_bool (inject_Z n) (Qmin (inject_Z (capacity b)) (tokens b1 + (later - mono) * refill_rate b)) = true
      <-> (n <= capacity b)%Z /\ mono + d <= later) as <-.
    { rewrite Qle_bool_iff, Q.min_glb_iff, Hd, <- Zle_Qle. split; intros [? ?]; split; try done; lra. }
    by destruct (Qle_bool _ _). }
  destruct (Qle_bool (inject_Z n) (tokens b1)) eqn:E.
  - apply Qle_bool_iff in E. exists b1, 0. split; [done|]. split; [lra|]. rewrite <- Hl1 in *.
    assert ((consume later n b1).2 = true <-> (n <= capacity b)%Z) as ->.
    { unfold consume, refill. cbn [tokens capacity refill_rate last_refill]. rewrite Hr1, Hc1.
      assert (0 <= (later - last_refill b1) * refill_rate b) by (apply Qmult_le_0_compat; lra).
      assert (Qle_bool (inject_Z n) (Qmin (inject_Z (capacity b)) (tokens b1 + (later - last_refill b1) * refill_rate b)) = true
        <-> (n <= capacity b)%Z) as <-.
      { rewrite Qle_bool_iff, Q.min_glb_iff, <- Zle_Qle. split; [by intros [? ?]|]. intros; split; [done|lra]. }
      by destruct (Qle_bool _ _). }
    split; [intros; split; [done|lra]|by intros [? _]].
  - apply Qle_bool_false in E. rewrite Hr1.
    assert (Qle_bool (refill_rate b) 0 = false) as -> by (apply Qle_bool_false; lra). cbn [negb].
    exists b1, ((inject_Z n - tokens b1) / refill_rate b). split; [done|]. split.
    + apply Qle_shift_div_l; [done|lra].
    + apply Hmain. intros x. split; intros Hx.
      * apply Qle_shift_div_r; [done|]. lra.
      * assert ((inject_Z n - tokens b1) / refill_rate b * refill_rate b <= x * refill_rate b) as Hy
          by (apply Qmult_le_compat_r; lra).
        assert ((inject_Z n - tokens b1) / refill_rate b * refill_rate b == inject_Z n - tokens b1) as Hz
          by (field; lra). rewrite Hz in Hy. lra.
Qed.

(** ** Header parsing *)

Lemma cooldown_seconds_bounds s c : cooldown_seconds s = Some c -> (1 <= c <= 3600)%Z.
Proof.
  unfold cooldown_seconds. destruct s as [s|]; [|done]. destruct (_ || _) eqn:E; [done|]. intros [= <-].
  apply orb_false_iff in E as [_ E]. apply negb_false_iff, Qle_bool_iff in E.
  assert (Qceiling s <= 3600)%Z; [|lia]. change 3600%Z with (Qceiling 3600). by apply Qceiling_resp_le.
Qed.

Lemma positive_q_pos q r : positive_q q = Some r -> 0 < r.
Proof.
  unfold positive_q. destruct (Qle_bool q 0) eqn:E; [done|]. intros [= <-]. by apply Qle_bool_false.
Qed.

Lemma first_safe_int_nonneg h names n : first_safe_int h names = Some n -> (0 <= n)%Z.
Proof.
  induction names as [|k names IH]; simpl; [done|]. destruct (safe_int _) as [v|] eqn:E; [|done].
  intros [= <-]. unfold safe_int in E. destruct (_ ≫= _) as [z|]; [|done].
  destruct (Z.leb_spec 0 z); [|done]. by injection E as <-.
Qed.

Lemma exhausted_cooldown_bounds rem reset c : c ∈ exhausted_cooldown rem reset -> (1 <= c <= 3600)%Z.
Proof.
  unfold exhausted_cooldown. destruct rem as [n|]; [|by intros ?%elem_of_nil]. destruct (n <=? 0)%Z; [|by intros ?%elem_of_nil].
  destruct (cooldown_seconds reset) as [x|] eqn:E; [|by intros ?%elem_of_nil].
  intros ->%list_elem_of_singleton. by apply cooldown_seconds_bounds in E.
Qed.

Lemma max_of_elem l c : max_of l = Some c -> c ∈ l.
Proof.
  destruct l as [|x l]; [done|]. simpl. intros [= <-]. revert x.
  induction l as [|y l IH]; intros x; simpl; [by left|].
  specialize (IH (Z.max x y)). destruct (Z.max_spec x y) as [[_ E]|[_ E]]; rewrite E in *; set_solver.
Qed.

(** ** The tracker *)
Section tracker.
Context (parsedate fromiso : string -> option Q).
Implicit Types (t : gmap string ProviderRateLimits) (s : ProviderRateLimits) (h : odict string).

(** Buckets well formed and not from the future; counters and delays sane. *)
Definition bucket_upto (T : Q) (b : TokenBucket) : Prop := bucket_ok b /\ last_refill b <= T /\ (0 < capacity b)%Z.
Record provider_ok (T : Q) s : Prop := {
  pr_rpm : bucket_upto T (rpm_bucket s);
  pr_tpm : forall b, tpm_bucket s = Some b -> bucket_upto T b;
  pr_retry : forall r, last_retry_after s = Some r -> exists n, r = inject_Z n /\ (1 <= n <= 3600)%Z;
  pr_counts : (0 <= total_requests s)%Z /\ (0 <= recent_errors s)%Z;
}.
Definition tracker_ok (T : Q) t : Prop := forall name s, t !! name = Some s -> provider_ok T s.

Lemma bucket_upto_later T T' b : T <= T' -> bucket_upto T b -> bucket_upto T' b.
Proof. intros HT (H1 & H2 & H3). split; [done|]. split; [lra|done]. Qed.

Lemma provider_ok_later T T' s : T <= T' -> provider_ok T s -> provider_ok T' s.
Proof.
  intros HT [H1 H2 H3 H4]. split; [by eapply bucket_upto_later| |done..].
  intros b Hb. eapply bucket_upto_later; [done|]. by apply H2.
Qed.

Lemma new_bucket_upto T n r : (0 < n)%Z -> 0 <= r -> bucket_upto T (new_bucket n r T).
Proof.
  intros Hn Hr. assert (0 <= inject_Z n) by (change 0 with (inject_Z 0); rewrite <- Zle_Qle; lia).
  repeat split; simpl; try done; lra.
Qed.

Lemma default_limits_pos name :
  (0 < (default (30, 50000)%Z (od_get name DEFAULT_LIMITS)).1)%Z /\
  (0 < (default (30, 50000)%Z (od_get name DEFAULT_LIMITS)).2)%Z.
Proof. unfold DEFAULT_LIMITS. simpl. repeat case_decide; simpl; done. Qed.

Lemma new_provider_ok T name : provider_ok T (new_provider T name).
Proof.
  pose proof (default_limits_pos name) as [H1 H2]. unfold new_provider.
  destruct (default _ _) as [rpm tpm]. cbn [fst snd] in *.
  assert (forall n, (0 < n)%Z -> 0 <= inject_Z n / 60) as Hq.
  { intros n Hn. apply Qle_shift_div_l; [done|]. change (0 * 60) with (inject_Z 0). rewrite <- Zle_Qle. lia. }
  split; cbn [rpm_bucket tpm_bucket last_retry_after total_requests recent_errors]; try done.
  - by apply new_bucket_upto, Hq.
  - intros b [= <-]. by apply new_bucket_upto, Hq.
Qed.

Lemma get_provider_ok T T' model t : T <= T' -> tracker_ok T t -> provider_ok T' (get_provider T' model t).
Proof.
  intros HT Ht. unfold get_provider. destruct (t !! _) as [s|] eqn:E; simpl; [|apply new_provider_ok].
  eapply provider_ok_later; eauto.
Qed.

Lemma put_provider_ok T T' model s t : T <= T' -> tracker_ok T t -> provider_ok T' s -> tracker_ok T' (put_provider model s t).
Proof.
  intros HT Ht Hs name s'. unfold put_provider. rewrite lookup_insert_Some. intros [[_ <-]|[_ E]]; [done|].
  eapply provider_ok_later; eauto.
Qed.

Lemma bucket_reset_upto T T' n r b : T <= T' -> (0 <= n)%Z -> bucket_upto T b -> bucket_upto T' (bucket_reset T' n r b).
Proof.
  intros HT Hn (([H1 H2] & H3) & H4 & H5). unfold bucket_reset, bucket_upto, bucket_ok. simpl.
  split; [|split; [apply Qle_refl|done]]. split.
  - change 0 with (inject_Z 0). rewrite <- !Zle_Qle. lia.
  - destruct (_ && _) eqn:E; [|done]. apply andb_true_iff in E as [E1 E2].
    apply negb_true_iff, Qle_bool_false in E1. apply Z.ltb_lt in E2. apply Qle_shift_div_l; [done|].
    assert (0 <= inject_Z (capacity b - n)) by (change 0 with (inject_Z 0); rewrite <- Zle_Qle; lia). lra.
Qed.

Lemma reset_both_upto T h names reset b :
  bucket_upto T b -> bucket_upto T (reset_both T (first_safe_int h names) reset b).
Proof.
  intros Hb. unfold reset_both. destruct (first_safe_int h names) as [n|] eqn:E; [|done].
  destruct reset; [|done]. apply first_safe_int_nonneg in E. eapply bucket_reset_upto; [apply Qle_refl|done|done].
Qed.

Lemma set_buckets_ok T rpm tpm s :
  provider_ok T s -> bucket_upto T rpm -> (forall b, tpm = Some b -> bucket_upto T b) -> provider_ok T (set_buckets rpm tpm s).
Proof. intros [] H1 H2. by split. Qed.

Lemma parse_dual_ok T now h n1 n2 n3 n4 s :
  provider_ok T s ->
  provider_ok T (parse_dual_headers parsedate fromiso now T h n1 n2 n3 n4 s).1 /\
  forall c, (parse_dual_headers parsedate fromiso now T h n1 n2 n3 n4 s).2 = Some c -> (1 <= c <= 3600)%Z.
Proof.
  intros Hs. split.
  - apply set_buckets_ok; [done|apply reset_both_upto, Hs|].
    intros b. destruct (tpm_bucket s) as [b0|] eqn:E; [|done]. intros [= <-].
    apply reset_both_upto. by apply (pr_tpm T s Hs).
  - intros c Hc. cbn [snd] in Hc. apply max_of_elem in Hc. apply elem_of_app in Hc as [Hc|Hc]; by apply exhausted_cooldown_bounds in Hc.
Qed.

Lemma parse_github_ok T now h s :
  provider_ok T s ->
  provider_ok T (parse_github_headers parsedate fromiso now T h s).1 /\
  forall c, (parse_github_headers parsedate fromiso now T h s).2 = Some c -> (1 <= c <= 3600)%Z.
Proof.
  intros Hs. unfold parse_github_headers, parse_openai_headers.
  match goal with |- context [parse_dual_headers ?pd ?fi ?now ?T ?h ?a ?b ?c ?d s] =>
    pose proof (parse_dual_ok T now h a b c d s Hs) as [H1 H2]; destruct (parse_dual_headers pd fi now T h a b c d s) as [s1 [c1|]] end;
    cbn [fst snd] in *; [by split|]. split.
  - apply set_buckets_ok; [done|apply reset_both_upto, H1|apply H1].
  - intros c. destruct (first_safe_int _ _); [|done]. destruct (_ <=? 0)%Z; [|done]. apply cooldown_seconds_bounds.
Qed.

Lemma parse_anthropic_ok T now h s :
  provider_ok T s ->
  provider_ok T (parse_anthropic_headers parsedate fromiso now T h s).1 /\
  forall c, (parse_anthropic_headers parsedate fromiso now T h s).2 = Some c -> (1 <= c <= 3600)%Z.
Proof.
  intros Hs. unfold parse_anthropic_headers. cbn [fst snd].
  destruct (first_safe_int _ _) as [n|] eqn:E; [|done]. apply first_safe_int_nonneg in E. split.
  - apply set_buckets_ok; [done| |apply Hs]. eapply bucket_reset_upto; [apply Qle_refl|done|apply Hs].
  - intros c. destruct (_ <=? 0)%Z; [|done]. intros [= <-].
    destruct (cooldown_seconds _) eqn:Ec; simpl; [by apply cooldown_seconds_bounds in Ec|lia].
Qed.

Lemma update_from_headers_ok T T' now model h t : T <= T' -> tracker_ok T t ->
  tracker_ok T' (update_from_headers parsedate fromiso now T' model h t).1 /\
  forall c, (update_from_headers parsedate fromiso now T' model h t).2 = Some c -> (1 <= c <= 3600)%Z.
Proof.
  intros HT Ht. pose proof (get_provider_ok T T' model t HT Ht) as Hs. unfold update_from_headers.
  destruct (parse_retry_after _ _ _) as [c|] eqn:Ec.
  - assert (1 <= c <= 3600)%Z as Hc.
    { unfold parse_retry_after in Ec. destruct (retry_after_header _ _ _) as [c'|] eqn:E1;
        [|by apply cooldown_seconds_bounds in Ec]. injection Ec as <-. unfold retry_after_header in E1.
      destruct (od_get "retry-after" _) as [[|a v]|]; [done| |done].
      destruct (_ ≫= _) as [c2|] eqn:E2; [injection E1 as <-|by apply cooldown_seconds_bounds in E1].
      destruct (int_of_string _); [|done]. by apply (cooldown_seconds_bounds (Some (inject_Z z))). }
    split; [|by intros ? [= <-]]. apply (put_provider_ok T); [done..|]. destruct Hs. split; try done.
    intros r [= <-]. eauto.
  - set (s := get_provider T' model t) in *.
    assert (forall p : ProviderRateLimits * option Z, provider_ok T' p.1 -> (forall c, p.2 = Some c -> (1 <= c <= 3600)%Z) ->
      let '(s, r) := p in
      tracker_ok T' (put_provider model s t) /\ forall c, r = Some c -> (1 <= c <= 3600)%Z) as Hp.
    { intros [s1 r] H1 H2. split; [by apply (put_provider_ok T)|done]. }
    repeat case_decide.
    + pose proof (parse_dual_ok T' now) as Hd. specialize (Hp (parse_openai_headers parsedate fromiso now T' (lower_headers h) s)).
      destruct (parse_openai_headers _ _ _ _ _ s) eqn:E1. apply Hp; unfold parse_openai_headers in E1; rewrite <- E1; by apply Hd.
    + pose proof (parse_github_ok T' now (lower_headers h) s Hs) as [G1 G2]. specialize (Hp _ G1 G2).
      by destruct (parse_github_headers _ _ _ _ _ s).
    + pose proof (parse_dual_ok T' now) as Hd. specialize (Hp (parse_gemini_headers parsedate fromiso now T' (lower_headers h) s)).
      destruct (parse_gemini_headers _ _ _ _ _ s) eqn:E1. apply Hp; unfold parse_gemini_headers in E1; rewrite <- E1; by apply Hd.
    + pose proof (parse_anthropic_ok T' now (lower_headers h) s Hs) as [G1 G2]. specialize (Hp _ G1 G2).
      by destruct (parse_anthropic_headers _ _ _ _ _ s).
    + by apply (Hp (s, None)).
Qed.

(** ** Operations on the tracker *)

Inductive tracker_op :=
  | TCanRequest (model : string) (estimated_tokens : Z)
  | TUpdate (now : Q) (model : string) (headers : odict string)
  | TCooldown (now jitter : Q) (model : string) (headers : option (odict string)) (default_cooldown : Z)
  | TRequest (model : string)
  | TError (model : string).

Definition op_model (o : tracker_op) : string :=
  match o with
  | TCanRequest m _ | TUpdate _ m _ | TCooldown _ _ m _ _ | TRequest m | TError m => m
  end.
Definition apply_top (mono : Q) (o : tracker_op) t : gmap string ProviderRateLimits :=
  match o with
  | TCanRequest m n => (can_request mono m n t).1
  | TUpdate now m h => (update_from_headers parsedate fromiso now mono m h t).1
  | TCooldown now j m h d => (get_cooldown_seconds parsedate fromiso now mono j m h d t).1
  | TRequest m => record_request mono m t
  | TError m => record_error mono m t
  end.
Fixpoint apply_tops (ops : list (Q * tracker_op)) t : gmap string ProviderRateLimits :=
  match ops with [] => t | (mono, o) :: ops' => apply_tops ops' (apply_top mono o t) end.
Fixpoint ordered (T : Q) (ops : list (Q * tracker_op)) : Prop :=
  match ops with
  | [] => True
  | (mono, o) :: ops' =>
      T <= mono /\ match o with TCanRequest _ n => (0 <= n)%Z | _ => True end /\ ordered mono ops'
  end.

Lemma can_request_ok T T' model n t : T <= T' -> (0 <= n)%Z -> tracker_ok T t -> tracker_ok T' (can_request T' model n t).1.
Proof.
  intros HT Hn Ht. pose proof (get_provider_ok T T' model t HT Ht) as Hs. unfold can_request.
  set (s := get_provider T' model t) in *. destruct (pr_rpm _ _ Hs) as (Hr1 & Hr2 & Hr3).
  pose proof (consume_ok T' 1 (rpm_bucket s) Hr1 Hr2 ltac:(done)) as Hc.
  destruct (consume T' 1 (rpm_bucket s)) as [rpm ok]. destruct Hc as (Hb & Hl & Hcap & _ & _).
  assert (bucket_upto T' rpm) as Hrpm by (split; [done|]; rewrite Hl, Hcap; split; [apply Qle_refl|done]).
  destruct ok; cbn [negb]; [|apply (put_provider_ok T); [done..|]; by apply set_buckets_ok, Hs].
  destruct (tpm_bucket s) as [b|] eqn:Eb; [|by apply (put_provider_ok T); [done..|]; apply set_buckets_ok].
  destruct (pr_tpm _ _ Hs b Eb) as (Ht1 & Ht2 & Ht3).
  pose proof (consume_ok T' n b Ht1 Ht2 Hn) as Hc.
  destruct (consume T' n b) as [tpm ok]. destruct Hc as (Hb' & Hl' & Hcap' & _ & _).
  apply (put_provider_ok T); [done..|]. apply set_buckets_ok; [done..|]. intros b' [= <-].
  split; [done|]; rewrite Hl', Hcap'; split; [apply Qle_refl|done].
Qed.

Lemma apply_top_ok T T' o t : T <= T' -> match o with TCanRequest _ n => (0 <= n)%Z | _ => True end ->
  tracker_ok T t -> tracker_ok T' (apply_top T' o t).
Proof.
  intros HT Ho Ht.
  assert (forall m r e, (0 <= r)%Z -> (0 <= e)%Z -> tracker_ok T' (put_provider m (count_calls r e (get_provider T' m t)) t)) as Hcount.
  { intros m r e Hr He. apply (put_provider_ok T); [done..|].
    destruct (get_provider_ok T T' m t HT Ht) as [H1 H2 H3 [H4 H5]]. split; try done. simpl. lia. }
  destruct o as [m n|now m h|now j m h d|m|m]; cbn [apply_top].
  - by apply (can_request_ok T).
  - by apply (update_from_headers_ok T).
  - unfold get_cooldown_seconds. destruct h as [[|kv h]|].
    1, 3: apply (put_provider_ok T); [done..|by apply (get_provider_ok T)].
    pose proof (update_from_headers_ok T T' now m (kv :: h) t HT Ht) as [H1 _].
    destruct (update_from_headers _ _ _ _ _ _ _) as [t1 [c|]]; cbn [fst] in *; [done|].
    apply (put_provider_ok T'); [apply Qle_refl|done|]. apply (get_provider_ok T'); [apply Qle_refl|done].
  - by apply Hcount.
  - by apply Hcount.
Qed.

(** From an empty tracker, whatever is requested, reported in headers (for
    any provider's format, however malformed) or recorded, in time order, every
    provider's buckets stay between empty and full with non-negative refill
    rates, a remembered Retry-After is between one second and one hour, and the
    throttle factor is between 0 and 1. *)
Theorem tracker_invariant T ops model :
  ordered T ops ->
  (exists T', tracker_ok T' (apply_tops ops ∅)) /\
  0 <= compute_throttle_factor model (apply_tops ops ∅) <= 1.
Proof.
  intros Hops.
  assert (forall t, tracker_ok T t -> exists T', tracker_ok T' (apply_tops ops t)) as H.
  { revert T Hops. induction ops as [|[mono o] ops IH]; intros T Hops t Ht; [by exists T|]. simpl in Hops.
    destruct Hops as (HT & Ho & Hops). apply (IH mono Hops). by apply (apply_top_ok T). }
  destruct (H ∅ ltac:(intros name s; by rewrite lookup_empty)) as [T' Ht]. split; [by exists T'|].
  unfold compute_throttle_factor. destruct (apply_tops ops ∅ !! _) as [s|] eqn:E; [|split; lra].
  destruct (pr_counts _ _ (Ht _ _ E)) as [H1 H2]. destruct (Z.ltb_spec (total_requests s) 10); [split; lra|].
  split; [|apply Q.le_min_l]. apply Q.min_glb; [lra|].
  assert (0 <= inject_Z (recent_errors s) / inject_Z (total_requests s)); [|lra].
  assert (0 < inject_Z (total_requests s)) by (change 0 with (inject_Z 0); rewrite <- Zlt_Qlt; lia).
  apply Qle_shift_div_l; [done|]. assert (0 <= inject_Z (recent_errors s)) by (change 0 with (inject_Z 0); rewrite <- Zle_Qle; lia).
  lra.
Qed.

(** Providers are isolated: no operation on one model changes the state of
    another provider. *)
Theorem providers_isolated mono o t name :
  name ≠ extract_provider (op_model o) -> apply_top mono o t !! name = t !! name.
Proof.
  intros Hne. assert (forall s t, put_provider (op_model o) s t !! name = t !! name) as Hput.
  { intros. unfold put_provider. by rewrite lookup_insert_ne. }
  assert (forall now m h t, m = op_model o -> (update_from_headers parsedate fromiso now mono m h t).1 !! name = t !! name) as Hup.
  { intros now m h t' ->. unfold update_from_headers. destruct (parse_retry_after _ _ _); [apply Hput|].
    match goal with |- (let '(_, _) := ?p in _).1 !! _ = _ => destruct p end. apply Hput. }
  destruct o as [m n|now m h|now j m h d|m|m]; cbn [apply_top op_model] in *; try apply Hput; [|by apply Hup|].
  - unfold can_request. destruct (consume mono 1 _) as [rpm ok]. destruct ok; cbn [negb]; [|apply Hput].
    destruct (tpm_bucket _) as [b|]; [|apply Hput]. destruct (consume mono n b). apply Hput.
  - unfold get_cooldown_seconds. destruct h as [[|kv h]|]; try apply Hput.
    specialize (Hup now m (kv :: h) t eq_refl). destruct (update_from_headers _ _ _ _ _ _ _) as [t1 [c|]]; [done|].
    etransitivity; [apply Hput|done].
Qed.

(** Cooldowns are bounded: a cooldown read from headers is between one
    second and one hour, and the fallback is the last Retry-After (or the
    default) plus at most a quarter. *)
Theorem cooldown_bounds T mono now jitter model headers default_cooldown t :
  tracker_ok T t -> T <= mono -> 1 # 10 <= jitter <= 1 # 4 -> (1 <= default_cooldown)%Z ->
  let c := (get_cooldown_seconds parsedate fromiso now mono jitter model headers default_cooldown t).2 in
  (1 <= c)%Z /\ (c <= 4500 \/ 4 * c <= 5 * default_cooldown)%Z.
Proof.
  intros Ht HT Hj Hd. cbn zeta.
  assert (forall base, (1 <= base)%Z -> let c := trunc (inject_Z base * (1 + jitter)) in (1 <= c /\ 4 * c <= 5 * base)%Z) as Hb.
  { intros base Hbase. assert (1 <= inject_Z base) by (change 1 with (inject_Z 1); by rewrite <- Zle_Qle).
    assert (1 <= inject_Z base * (1 + jitter) /\ inject_Z base * (1 + jitter) <= inject_Z base * (5 # 4)) as [G1 G2] by (split; nra).
    cbn zeta. rewrite trunc_floor by lra. split.
    - change 1%Z with (Qfloor 1). by apply Qfloor_resp_le.
    - pose proof (Qfloor_le (inject_Z base * (1 + jitter))) as G3.
      assert (inject_Z (4 * Qfloor (inject_Z base * (1 + jitter))) <= inject_Z (5 * base)) as G4; [|by rewrite <- Zle_Qle in G4].
      rewrite !inject_Z_mult. change (inject_Z 4) with 4. change (inject_Z 5) with 5. lra. }
  assert (forall t', tracker_ok mono t' ->
    let c := trunc (inject_Z (match last_retry_after (get_provider mono model t') with Some r => trunc r | None => default_cooldown end) * (1 + jitter)) in
    (1 <= c)%Z /\ (c <= 4500 \/ 4 * c <= 5 * default_cooldown)%Z) as Hmain.
  { intros t' Ht'. pose proof (get_provider_ok mono mono model t' (Qle_refl _) Ht') as Hs.
    destruct (last_retry_after _) as [r|] eqn:E.
    - destruct (pr_retry _ _ Hs r E) as (n & -> & Hn). assert (trunc (inject_Z n) = n) as -> by apply Z.quot_1_r.
      destruct (Hb n ltac:(lia)). cbn zeta. lia.
    - destruct (Hb default_cooldown Hd). cbn zeta. lia. }
  assert (tracker_ok mono t) as Htm by (intros name s Hs; eapply provider_ok_later; eauto).
  unfold get_cooldown_seconds. destruct headers as [[|kv h]|]; try (by apply Hmain).
  pose proof (update_from_headers_ok T mono now model (kv :: h) t HT Ht) as [H1 H2].
  destruct (update_from_headers _ _ _ _ _ _ _) as [t1 [c|]]; cbn [fst snd] in *; [|by apply Hmain].
  specialize (H2 c eq_refl). lia.
Qed.

(** A request is allowed exactly when both buckets can pay for it; a
    request refused for tokens has still been charged one request. *)
Theorem can_request_decides T mono model n t :
  tracker_ok T t -> T <= mono -> (0 <= n)%Z ->
  let s := get_provider mono model t in
  let rpm := refill mono (rpm_bucket s) in
  let '(t', ok) := can_request mono model n t in
  (ok = true <-> 1 <= tokens rpm /\ forall b, tpm_bucket s = Some b -> inject_Z n <= tokens (refill mono b)) /\
  (exists s', t' !! extract_provider model = Some s' /\
     tokens (rpm_bucket s') == (if Qle_bool 1 (tokens rpm) then tokens rpm - 1 else tokens rpm)).
Proof.
  intros Ht HT Hn. cbn zeta. unfold can_request. set (s := get_provider mono model t).
  unfold consume at 1. change (inject_Z 1) with 1. destruct (Qle_bool 1 _) eqn:E1; cbn [negb].
  - apply Qle_bool_iff in E1. destruct (tpm_bucket s) as [b|].
    + unfold consume. destruct (Qle_bool (inject_Z n) _) eqn:E2.
      * apply Qle_bool_iff in E2. split; [split; [|done]; intros _; split; [done|by intros ? [= <-]]|].
        eexists. split; [apply lookup_insert_eq|]. reflexivity.
      * apply Qle_bool_false in E2. split; [split; [done|]; intros [_ H]; specialize (H b eq_refl); lra|].
        eexists. split; [apply lookup_insert_eq|]. reflexivity.
    + split; [split; [|done]; intros _; by split|]. eexists. split; [apply lookup_insert_eq|]. reflexivity.
  - apply Qle_bool_false in E1. split; [split; [done|]; intros [H _]; lra|].
    eexists. split; [apply lookup_insert_eq|]. reflexivity.
Qed.
End tracker.

(** An hours component is not understood: the seconds after it are lost too. *)
Lemma duration_hours_dropped : parse_duration "1h2m3s" = Some 120.
Proof. vm_compute. reflexivity. Qed.
(** Seconds before milliseconds are not understood either. *)
Lemma duration_mixed_dropped : parse_duration "1s500ms" = None.
Proof. vm_compute. reflexivity. Qed.

(** ** Witnesses *)

Lemma bucket_rate_limit_witness :
  let '(b', granted) := run_requests (new_bucket 60 1 0) [(0, 50%Z); (5, 20%Z); (12, 20%Z)] in
  granted = 70%Z /\ inject_Z granted <= 60 + 1 * (last_refill b' - 0).
Proof.
  pose proof (bucket_rate_limit (new_bucket 60 1 0) [(0, 50%Z); (5, 20%Z); (12, 20%Z)]
    ltac:(repeat split; vm_compute; discriminate) ltac:(repeat split; vm_compute; discriminate)
    ltac:(repeat constructor; discriminate)) as H.
  destruct (run_requests _ _) as [b' g] eqn:E. destruct H as (_ & _ & _ & _ & H). split; [|exact H].
  vm_compute in E. by injection E as _ <-.
Defined.

Lemma wait_suffices_witness :
  exists b' d, time_until_available 0 20 (mkBucket 60 1 5 0) = (b', Some d) /\ 0 <= d /\
    ((consume 15 20 b').2 = true <-> (20 <= 60)%Z /\ 0 + d <= 15).
Proof.
  apply (wait_suffices (mkBucket 60 1 5 0) 0 20 15); [repeat split|..]; vm_compute; discriminate || reflexivity.
Defined.

Definition no_date : string -> option Q := fun _ => None.
Definition demo_headers : odict string := [("X-RateLimit-Remaining-Requests", "0"); ("X-RateLimit-Reset-Requests", "1m30s")].
Definition demo_tops : list (Q * tracker_op) :=
  [(0, TCanRequest "openai:gpt-4o" 1000); (1, TUpdate 0 "openai:gpt-4o" demo_headers); (2, TError "openai:gpt-4o")].

Lemma tracker_invariant_witness :
  ordered 0 demo_tops /\ 0 <= compute_throttle_factor "openai:gpt-4o" (apply_tops no_date no_date demo_tops ∅) <= 1.
Proof.
  assert (ordered 0 demo_tops) as H by (vm_compute; repeat split; discriminate).
  split; [exact H|]. apply (tracker_invariant no_date no_date 0 demo_tops "openai:gpt-4o" H).
Defined.

Lemma providers_isolated_witness :
  apply_top no_date no_date 0 (TRequest "openai:gpt-4o") ∅ !! "gh" = (∅ : gmap string ProviderRateLimits) !! "gh".
Proof. apply (providers_isolated no_date no_date 0 (TRequest "openai:gpt-4o") ∅ "gh"). vm_compute. discriminate. Defined.

Lemma empty_tracker_ok T : tracker_ok T ∅.
Proof. intros name s. by rewrite lookup_empty. Qed.

Lemma cooldown_bounds_witness :
  let c := (get_cooldown_seconds no_date no_date 0 0 (1 # 5) "openai:gpt-4o" (Some demo_headers) 120 ∅).2 in
  c = 90%Z /\ (1 <= c)%Z.
Proof.
  split; [vm_compute; reflexivity|].
  apply (cooldown_bounds no_date no_date 0 0 0 (1 # 5) "openai:gpt-4o" (Some demo_headers) 120 ∅);
    [apply empty_tracker_ok|vm_compute; discriminate|split; vm_compute; discriminate|lia].
Defined.

Lemma can_request_decides_witness :
  (can_request 0 "gh:gpt-4o" 200000 ∅).2 = false /\ (can_request 0 "gh:gpt-4o" 1000 ∅).2 = true.
Proof.
  split; [vm_compute; reflexivity|].
  pose proof (can_request_decides 0 0 "gh:gpt-4o" 1000 ∅ (empty_tracker_ok 0) (Qle_refl 0) ltac:(done)) as H.
  cbn zeta in H. destruct (can_request 0 "gh:gpt-4o" 1000 ∅) as [t' ok]. destruct H as [H _].
  apply H. split; [vm_compute; discriminate|]. intros b [= <-]. vm_compute. discriminate.
Defined.
