(* ===== verification/Registry.v ===== *)
(** * The model registry (models/model_registry.py)

    The curated registry, its validation, cost lanes and ceilings, prices and the
    runtime quarantine.  The parsed YAML is a value; the environment variables,
    the URL test of the Ollama host and the local daemon's listing are an [Env]. *)

From Stdlib Require Import QArith.
From S2P Require Import Prelude PyStr.

Inductive CostLane := Local | Free | Paid.

#[export] Instance CostLane_eq_dec : EqDecision CostLane.
Proof. solve_decision. Defined.

Record RegisteredModel := mkModel {
  rm_id : string;
  rm_provider : string;
  rm_cost_lane : option CostLane;
  rm_price_in : option Q;
  rm_price_out : option Q;
}.

Record Registry := mkRegistry {
  rg_models : list RegisteredModel;
  rg_tiers : list (Z * list string);
  judge_default : string;
  notebooklm_fallback : string;
  tier_ultimate_fallback : string;
}.

Record Env := mkEnv {
  ollama_base_is_loopback : bool;
  OLLAMA_API_KEY : string;
  is_served_locally : string -> bool;
  AGENTIC_MAX_COST_LANE : string;
  AGENTIC_MODEL_TIER : Z -> string;      (* unset is the empty string *)
  AGENTIC_NO_LLM : string;
}.

(** ** Validation *)

Definition tier_chain (r : Registry) (tier : Z) : list string :=
  match list_find (fun kv => kv.1 = tier) (rg_tiers r) with Some (_, (_, chain)) => chain | None => [] end.

Definition dangling_references (r : Registry) : list string :=
  let ids := rm_id <$> rg_models r in
  mjoin ((fun kv => filter (fun mid => mid ∉ ids) kv.2) <$> rg_tiers r) ++
  filter (fun mid => mid ∉ ids) [judge_default r; notebooklm_fallback r; tier_ultimate_fallback r].

Definition validate_registry (providers : list string) (r : Registry) : res unit :=
  if negb (forallb (fun t => negb (bool_decide (tier_chain r t = []))) [1; 2; 3; 4; 5]%Z)
  then Raise (ValueError "missing a non-empty fallback chain for required tier(s)")
  else if negb (forallb (fun m => bool_decide (rm_provider m ∈ providers)) (rg_models r))
  then Raise (ValueError "references unknown providers")
  else if negb (bool_decide (dangling_references r = []))
  then Raise (ValueError "dangling model references")
  else Ok tt.

(** ** Cost lanes *)

(** The last entry of an id wins in [by_id]. *)
Definition by_id (r : Registry) (mid : string) : option RegisteredModel :=
  snd <$> list_find (fun m => rm_id m = mid) (reverse (rg_models r)).

Definition lane_rank (l : CostLane) : nat := match l with Local => 0 | Free => 1 | Paid => 2 end.

Definition removeprefix (p s : string) : string :=
  if startswith s p then String.substring (String.length p) (String.length s - String.length p) s else s.

Definition cost_lane_for (r : Registry) (e : Env) (mid : string) : CostLane :=
  let lane := match by_id r mid with Some m => default Paid (rm_cost_lane m) | None => Paid end in
  if bool_decide (lane = Local) && startswith mid "ollama:" then
    if negb (ollama_base_is_loopback e) then Free
    else if negb (bool_decide (OLLAMA_API_KEY e = "")) && negb (is_served_locally e (removeprefix "ollama:" mid))
    then Free else lane
  else lane.

Definition is_within_cost_lane (r : Registry) (e : Env) (mid : string) (ceiling : CostLane) : bool :=
  lane_rank (cost_lane_for r e mid) <=? lane_rank ceiling.

Definition max_cost_lane_ceiling (e : Env) : CostLane :=
  let raw := lower (strip (AGENTIC_MAX_COST_LANE e)) in
  if decide (raw = "local") then Local else if decide (raw = "free") then Free else Paid.

Definition ceiling_error : exn := RuntimeError "CostLaneCeilingExceededError".

Definition apply_cost_lane_ceiling (r : Registry) (e : Env) (candidates : list string) (ceiling : option CostLane)
  : res (list string) :=
  let resolved := default (max_cost_lane_ceiling e) ceiling in
  if decide (resolved = Paid) then Ok candidates
  else
    let within := filter (fun m => is_within_cost_lane r e m resolved = true) candidates in
    if negb (bool_decide (candidates = [])) && bool_decide (within = []) then Raise ceiling_error else Ok within.

Definition enforce_cost_lane_ceiling (r : Registry) (e : Env) (mid : string) (ceiling : option CostLane) : res unit :=
  let resolved := default (max_cost_lane_ceiling e) ceiling in
  if bool_decide (resolved ≠ Paid) && negb (is_within_cost_lane r e mid resolved) then Raise ceiling_error else Ok tt.

(** ** Spend *)

Definition price_for (r : Registry) (mid : string) : option Q * option Q :=
  match by_id r mid with Some m => (rm_price_in m, rm_price_out m) | None => (None, None) end.

Definition compute_spend (r : Registry) (mid : string) (prompt_tokens completion_tokens : Z) : option Q :=
  match price_for r mid with
  | (Some pin, Some pout) =>
      Some (inject_Z prompt_tokens / 1000000 * pin + inject_Z completion_tokens / 1000000 * pout)%Q
  | _ => None
  end.

(** ** Theorems *)

(** A model that may be used under the environment's ceiling. *)
Definition within_ceiling (r : Registry) (e : Env) (mid : string) : bool :=
  bool_decide (max_cost_lane_ceiling e = Paid) || is_within_cost_lane r e mid (max_cost_lane_ceiling e).

Lemma within_paid r e mid : is_within_cost_lane r e mid Paid = true.
Proof. unfold is_within_cost_lane. by destruct (cost_lane_for r e mid). Qed.

Lemma within_ceiling_spec r e mid :
  within_ceiling r e mid = is_within_cost_lane r e mid (max_cost_lane_ceiling e).
Proof.
  unfold within_ceiling. case_bool_decide as H; [|done]. rewrite H. by rewrite within_paid.
Qed.

(** A registry is accepted exactly when every tier from 1 to 5 has a
    non-empty chain, every entry's provider is known, and every id in a chain or
    a special slot has an entry. *)
Theorem validate_registry_correct providers r :
  validate_registry providers r = Ok tt <->
  (forall t, (1 <= t <= 5)%Z -> tier_chain r t ≠ []) /\
  (forall m, m ∈ rg_models r -> rm_provider m ∈ providers) /\
  (forall mid, (exists t chain, (t, chain) ∈ rg_tiers r /\ mid ∈ chain) \/
               mid ∈ [judge_default r; notebooklm_fallback r; tier_ultimate_fallback r] ->
     exists m, m ∈ rg_models r /\ rm_id m = mid).
Proof.
  assert (forall mid, (exists m, m ∈ rg_models r /\ rm_id m = mid) <-> mid ∈ rm_id <$> rg_models r) as Hid.
  { intros mid. rewrite list_elem_of_fmap. naive_solver. }
  assert (dangling_references r = [] <-> forall mid,
    (exists t chain, (t, chain) ∈ rg_tiers r /\ mid ∈ chain) \/
      mid ∈ [judge_default r; notebooklm_fallback r; tier_ultimate_fallback r] ->
    exists m, m ∈ rg_models r /\ rm_id m = mid) as Hd.
  { transitivity (forall mid, mid ∉ dangling_references r).
    - split; [intros ->; intros mid; apply not_elem_of_nil|]. intros H.
      destruct (dangling_references r) as [|x l]; [done|]. exfalso. apply (H x). left.
    - assert (forall mid, mid ∈ dangling_references r <-> mid ∉ rm_id <$> rg_models r /\
        ((exists t chain, (t, chain) ∈ rg_tiers r /\ mid ∈ chain) \/
          mid ∈ [judge_default r; notebooklm_fallback r; tier_ultimate_fallback r])) as He.
      { intros mid. unfold dangling_references. rewrite elem_of_app, list_elem_of_filter, list_elem_of_join. split.
        - intros [(l & Hm & ([t chain] & -> & Hc)%list_elem_of_fmap)|[H1 H2]]; [|tauto].
          apply list_elem_of_filter in Hm as [H1 H2]. split; [done|]. left. eauto.
        - intros [H1 [(t & chain & Hc & Hm)|H2]]; [left|tauto].
          eexists. split; [|apply list_elem_of_fmap; by exists (t, chain)]. apply list_elem_of_filter. done. }
      split; intros H mid.
      + intros Hm. apply Hid. destruct (decide (mid ∈ rm_id <$> rg_models r)); [done|]. exfalso. apply (H mid), He. done.
      + rewrite He. intros [H1 H2]. apply H1, Hid, H, H2. }
  unfold validate_registry. rewrite <- Hd.
  destruct (forallb (fun t => _) [1; 2; 3; 4; 5]%Z) eqn:E1; cbn [negb].
  - assert (forall t, (1 <= t <= 5)%Z -> tier_chain r t ≠ []) as H1.
    { rewrite forallb_forall in E1. intros t Ht H. specialize (E1 t).
      rewrite H, bool_decide_eq_true_2 in E1 by done. cbn in E1. assert (false = true); [|done]. apply E1. lia. }
    destruct (forallb _ (rg_models r)) eqn:E2; cbn [negb].
    + assert (forall m, m ∈ rg_models r -> rm_provider m ∈ providers) as H2.
      { rewrite forallb_forall in E2. intros m Hm. apply list_elem_of_In, E2 in Hm. by apply bool_decide_eq_true in Hm. }
      case_bool_decide; cbn [negb]; naive_solver.
    + split; [done|]. intros (_ & H2 & _). apply not_true_iff_false in E2. exfalso. apply E2, forallb_forall.
      intros m Hm. apply bool_decide_eq_true. by apply H2, list_elem_of_In.
  - split; [done|]. intros (H1 & _). apply not_true_iff_false in E1. exfalso. apply E1, forallb_forall.
    intros t Ht. apply negb_true_iff, bool_decide_eq_false, H1. cbn in Ht. lia.
Qed.

(** The cost ceiling is never crossed and fails closed: filtering keeps
    exactly the candidates within the ceiling in their order, and raises instead
    of returning nothing when it would drop every candidate; a single explicit
    model is refused exactly when it is above the ceiling; and a model that is
    not in the registry counts as paid. *)
Theorem ceiling_fails_closed r e candidates ceiling mid :
  let resolved := default (max_cost_lane_ceiling e) ceiling in
  let within m := is_within_cost_lane r e m resolved = true in
  match apply_cost_lane_ceiling r e candidates ceiling with
  | Ok l => l = filter within candidates /\ (candidates ≠ [] -> l ≠ [])
  | Raise x => x = ceiling_error /\ candidates ≠ [] /\ forall m, m ∈ candidates -> ¬ within m
  end /\
  (enforce_cost_lane_ceiling r e mid ceiling = Ok tt <-> within mid) /\
  (by_id r mid = None -> within mid <-> resolved = Paid).
Proof.
  cbn zeta. set (resolved := default _ _). split; [|split].
  - unfold apply_cost_lane_ceiling. fold resolved. destruct (decide (resolved = Paid)) as [->|Hne].
    + split; [|done]. symmetry. induction candidates as [|m l IH]; [done|].
      rewrite filter_cons, decide_True by apply within_paid. by rewrite IH.
    + destruct (negb _ && _) eqn:E.
      * apply andb_true_iff in E as [E1 E2]. apply negb_true_iff, bool_decide_eq_false in E1.
        apply bool_decide_eq_true in E2. split; [done|]. split; [done|]. intros m Hm Hw.
        apply (not_elem_of_nil m). rewrite <- E2. by apply list_elem_of_filter.
      * split; [done|]. intros Hc Hl. rewrite Hl in E. rewrite bool_decide_eq_false_2 in E by done. done.
  - unfold enforce_cost_lane_ceiling. fold resolved. case_bool_decide as Hne; simpl.
    + destruct (is_within_cost_lane r e mid resolved); simpl; done.
    + rewrite Hne, within_paid. done.
  - intros Hn. unfold is_within_cost_lane, cost_lane_for. rewrite Hn. simpl. by destruct resolved.
Qed.

(** Spend is reported exactly when both prices are known, never guessed;
    it is additive over calls and free for no tokens. *)
Theorem spend_known r mid p1 c1 p2 c2 :
  (is_Some (compute_spend r mid p1 c1) <->
     exists m, by_id r mid = Some m /\ is_Some (rm_price_in m) /\ is_Some (rm_price_out m)) /\
  (forall s1 s2 s, compute_spend r mid p1 c1 = Some s1 -> compute_spend r mid p2 c2 = Some s2 ->
     compute_spend r mid (p1 + p2) (c1 + c2) = Some s -> (s == s1 + s2)%Q) /\
  (forall s, compute_spend r mid 0 0 = Some s -> (s == 0)%Q).
Proof.
  unfold compute_spend, price_for. destruct (by_id r mid) as [m|]; simpl.
  - destruct m as [id pr lane [pin|] [pout|]]; simpl.
    + split; [split; eauto 10|]. split.
      * intros s1 s2 s [= <-] [= <-] [= <-]. rewrite !inject_Z_plus. field.
      * intros s [= <-]. change (inject_Z 0) with 0%Q. field.
    + split; [|done]. split; [by intros []|]. intros (m & [= <-] & _ & []). done.
    + split; [|done]. split; [by intros []|]. intros (m & [= <-] & [] & _). done.
    + split; [|done]. split; [by intros []|]. intros (m & [= <-] & [] & _). done.
  - split; [|done]. split; [by intros []|]. by intros (m & ? & _).
Qed.
