(* ===== verification/Router.v ===== *)
(** * The model router (models/router.py)

    Tiers, fallback chains, availability, selection and scoped overrides.  The
    registry and the environment are those of [Registry]; the quarantine set and
    the injected health checker are arguments. *)

From Stdlib Require Import QArith.
From S2P Require Import Prelude PyStr Registry.

Inductive ModelTier := TIER_0 | TIER_1 | TIER_2 | TIER_3 | TIER_4 | TIER_5.

#[export] Instance ModelTier_eq_dec : EqDecision ModelTier.
Proof. solve_decision. Defined.
#[export] Instance ModelTier_countable : Countable ModelTier.
Proof.
  refine (inj_countable'
    (fun t => match t with TIER_0 => 0 | TIER_1 => 1 | TIER_2 => 2 | TIER_3 => 3 | TIER_4 => 4 | TIER_5 => 5 end)
    (fun n => match n with 0 => TIER_0 | 1 => TIER_1 | 2 => TIER_2 | 3 => TIER_3 | 4 => TIER_4 | _ => TIER_5 end) _).
  by intros [].
Defined.

Definition tier_value (t : ModelTier) : Z :=
  match t with TIER_0 => 0 | TIER_1 => 1 | TIER_2 => 2 | TIER_3 => 3 | TIER_4 => 4 | TIER_5 => 5 end.
Definition tier_name (t : ModelTier) : string :=
  match t with
  | TIER_0 => "TIER_0" | TIER_1 => "TIER_1" | TIER_2 => "TIER_2" | TIER_3 => "TIER_3" | TIER_4 => "TIER_4"
  | TIER_5 => "TIER_5"
  end.
Definition all_tiers : list ModelTier := [TIER_0; TIER_1; TIER_2; TIER_3; TIER_4; TIER_5].

(** [FallbackChain]: its models ([__post_init__] refuses an empty tuple); the
    name is only shown. *)
Definition FallbackChain := list string.
Definition fallback_chain (models : list string) : res FallbackChain :=
  match models with [] => Raise (ValueError "FallbackChain must have at least one model") | _ => Ok models end.

Definition default_chains (r : Registry) (t : ModelTier) : option FallbackChain :=
  if decide (t = TIER_0) then None
  else match tier_chain r (tier_value t) with [] => None | ids => Some ids end.

Definition env_tier_pin (e : Env) (t : ModelTier) : option string :=
  if decide (t = TIER_0) then None
  else let value := strip (AGENTIC_MODEL_TIER e (tier_value t)) in
       if decide (value = "") then None else Some value.

Record ModelRouter := mkRouter {
  custom_chains : gmap ModelTier FallbackChain;
  available_models : gset string;
  unavailable_models : gset string;
}.
Definition new_router : ModelRouter := mkRouter ∅ ∅ ∅.

Definition register_chain (t : ModelTier) (c : FallbackChain) (m : ModelRouter) : ModelRouter :=
  mkRouter (<[t := c]> (custom_chains m)) (available_models m) (unavailable_models m).

Definition mark_available (model : string) (m : ModelRouter) : ModelRouter :=
  mkRouter (custom_chains m) ({[model]} ∪ available_models m) (unavailable_models m ∖ {[model]}).
Definition mark_unavailable (model : string) (m : ModelRouter) : ModelRouter :=
  mkRouter (custom_chains m) (available_models m ∖ {[model]}) ({[model]} ∪ unavailable_models m).

Section router.
Context (r : Registry) (e : Env) (quarantined : gset string) (health_checker : option (string -> bool)).

(** The default chain of the tier, of tier 2 for a tier without one; [None]
    when the registry lacks tier 2, which validation excludes. *)
Definition get_chain (t : ModelTier) (m : ModelRouter) : option FallbackChain :=
  match custom_chains m !! t with
  | Some c => Some c
  | None =>
      match (match default_chains r t with Some c => Some c | None => default_chains r TIER_2 end) with
      | None => None
      | Some dflt =>
          match env_tier_pin e t with
          | None => Some dflt
          | Some pinned => Some (pinned :: filter (fun x => x ≠ pinned) dflt)
          end
      end
  end.

Definition is_model_available (model : string) (m : ModelRouter) : ModelRouter * bool :=
  if decide (model ∈ available_models m) then (m, true)
  else if decide (model ∈ unavailable_models m) then (m, false)
  else
    match health_checker with
    | Some check =>
        if check model
        then (mkRouter (custom_chains m) ({[model]} ∪ available_models m) (unavailable_models m), true)
        else (mkRouter (custom_chains m) (available_models m) ({[model]} ∪ unavailable_models m), false)
    | None => (m, true)
    end.

(** The loop of [get_model_for_tier]; [excluded] tells whether the ceiling
    dropped a candidate so far. *)
Fixpoint select_loop (chain : list string) (excluded : bool) (m : ModelRouter) : ModelRouter * res (option string) :=
  match chain with
  | [] => (m, if excluded then Raise ceiling_error else Ok None)
  | model :: chain' =>
      if decide (model ∈ quarantined) then select_loop chain' excluded m
      else
        let '(m, available) := is_model_available model m in
        if negb available then select_loop chain' excluded m
        else if negb (within_ceiling r e model) then select_loop chain' true m
        else (m, Ok (Some model))
  end.

Definition no_tier_2 {A} : res A := Raise (KeyError "TIER_2").

Definition router_get_model_for_tier (t : ModelTier) (m : ModelRouter) : ModelRouter * res (option string) :=
  match get_chain t m with Some chain => select_loop chain false m | None => (m, no_tier_2) end.

(** The loop of [get_fallback_for_model]. *)
Fixpoint fallback_loop (model : string) (chain : list string) (found_current excluded : bool) (m : ModelRouter)
  : ModelRouter * res (option string) :=
  match chain with
  | [] => (m, if excluded then Raise ceiling_error else Ok None)
  | x :: chain' =>
      let found' := found_current || bool_decide (x = model) in
      if found_current && negb (bool_decide (x ∈ quarantined)) then
        let '(m, available) := is_model_available x m in
        if negb available then fallback_loop model chain' found' excluded m
        else if negb (within_ceiling r e x) then fallback_loop model chain' found' true m
        else (m, Ok (Some x))
      else fallback_loop model chain' found' excluded m
  end.

Definition get_fallback_for_model (model : string) (t : ModelTier) (m : ModelRouter) : ModelRouter * res (option string) :=
  match get_chain t m with Some chain => fallback_loop model chain false false m | None => (m, no_tier_2) end.

(** [discover_models_sync] and the outcome of [discover_models_async], whose
    probes run in parallel but are recorded in order. *)
Fixpoint discover_models_sync (models : list string) (m : ModelRouter) : ModelRouter * list (string * bool) :=
  match models with
  | [] => (m, [])
  | x :: models' =>
      let '(m, b) := is_model_available x m in
      let '(m, rest) := discover_models_sync models' m in (m, (x, b) :: rest)
  end.

Definition discover_models_async (models : list string) (m : ModelRouter) : ModelRouter * list (string * bool) :=
  match health_checker with
  | None => (m, (fun x => (x, true)) <$> models)
  | Some check =>
      (foldl (fun m x =>
         if check x then mkRouter (custom_chains m) ({[x]} ∪ available_models m) (unavailable_models m)
         else mkRouter (custom_chains m) (available_models m) ({[x]} ∪ unavailable_models m)) m models,
       (fun x => (x, check x)) <$> models)
  end.
End router.

(** ** Scoped overrides *)

Record ScopedRouter := mkScoped {
  sc_tier : ModelTier;
  sc_models : list string;
  sc_original_chain : option FallbackChain;
}.
Definition scoped (t : ModelTier) (models : list string) : ScopedRouter := mkScoped t models None.

Definition scope_enter (s : ScopedRouter) (m : ModelRouter) : res (ScopedRouter * ModelRouter) :=
  let original := custom_chains m !! sc_tier s in
  fallback_chain (sc_models s) ≫= fun c =>
  Ok (mkScoped (sc_tier s) (sc_models s) original, register_chain (sc_tier s) c m).

Definition scope_exit (s : ScopedRouter) (m : ModelRouter) : ModelRouter :=
  match sc_original_chain s with
  | Some (x :: c) => register_chain (sc_tier s) (x :: c) m
  | _ => mkRouter (delete (sc_tier s) (custom_chains m)) (available_models m) (unavailable_models m)
  end.

(** ** Correctness of the model router

    Which chain serves a tier, which model of it is selected, fallback moves
    forward, and scopes restore what they override. *)

Section facts.
Context (r : Registry) (e : Env) (quarantined : gset string) (health_checker : option (string -> bool)).
Implicit Types (m : ModelRouter) (t : ModelTier).

Definition availability (model : string) m : bool := (is_model_available health_checker model m).2.

(** A probe caches an answer; it changes nobody's answer. *)
Lemma probe_stable x y m : availability x (is_model_available health_checker y m).1 = availability x m.
Proof.
  unfold availability, is_model_available.
  destruct (decide (y ∈ available_models m)); [done|]. destruct (decide (y ∈ unavailable_models m)); [done|].
  destruct health_checker as [check|]; [|done].
  destruct (decide (x = y)) as [->|Hne].
  - destruct (check y) eqn:Hy; cbn [fst available_models unavailable_models];
      rewrite ?(decide_False (P := y ∈ available_models m)) by done;
      rewrite decide_True by (apply elem_of_union_l, elem_of_singleton; done);
      rewrite ?(decide_False (P := y ∈ unavailable_models m)) by done; reflexivity.
  - assert (forall X : gset string, x ∈ {[y]} ∪ X <-> x ∈ X) as HX.
    { intros X. rewrite elem_of_union, elem_of_singleton. tauto. }
    destruct (check y); cbn [fst available_models unavailable_models];
      rewrite (decide_ext _ _ _ _ (HX _)); destruct (decide (x ∈ available_models m)), (decide (x ∈ unavailable_models m)), (check x);
      reflexivity.
Qed.

Lemma probe_chains y m : custom_chains (is_model_available health_checker y m).1 = custom_chains m.
Proof.
  unfold is_model_available. repeat case_decide; [done..|]. destruct health_checker as [check|]; [|done]. by destruct (check y).
Qed.

(** Routable at all, and affordable. *)
Definition usable m (x : string) : Prop := x ∉ quarantined /\ availability x m = true.
Definition affordable (x : string) : Prop := within_ceiling r e x = true.

Lemma usable_probe y m x : usable (is_model_available health_checker y m).1 x <-> usable m x.
Proof. unfold usable. by rewrite probe_stable. Qed.

(** What a selection over [chain] must answer. *)
Definition selection_spec m (chain : list string) (excluded : bool) (o : res (option string)) : Prop :=
  match o with
  | Ok (Some x) => usable m x /\ affordable x /\
      exists pre post, chain = pre ++ x :: post /\ forall y, y ∈ pre -> ¬ (usable m y /\ affordable y)
  | Ok None => excluded = false /\ forall y, y ∈ chain -> ¬ usable m y
  | Raise x => x = ceiling_error /\ (excluded = true \/ exists y, y ∈ chain /\ usable m y) /\
      forall y, y ∈ chain -> usable m y -> ¬ affordable y
  end.

Lemma selection_skip m chain excluded o y :
  selection_spec m chain excluded o -> ¬ usable m y -> selection_spec m (y :: chain) excluded o.
Proof.
  unfold selection_spec. destruct o as [[x|]|x]; intros H Hy.
  - destruct H as (H1 & H2 & pre & post & -> & H3). split; [done|]. split; [done|]. exists (y :: pre), post.
    split; [done|]. intros z [->|Hz]%elem_of_cons; [tauto|auto].
  - destruct H as (-> & H). split; [done|]. intros z [->|Hz]%elem_of_cons; auto.
  - destruct H as (-> & H1 & H2). split; [done|]. split.
    + destruct H1 as [H1|(z & Hz & Hu)]; [by left|right]. exists z. split; [by right|done].
    + intros z [->|Hz]%elem_of_cons; [done|auto].
Qed.

Lemma selection_exclude m chain excluded o y :
  selection_spec m chain true o -> usable m y -> ¬ affordable y -> selection_spec m (y :: chain) excluded o.
Proof.
  unfold selection_spec. destruct o as [[x|]|x]; intros H Hu Ha.
  - destruct H as (H1 & H2 & pre & post & -> & H3). split; [done|]. split; [done|]. exists (y :: pre), post.
    split; [done|]. intros z [->|Hz]%elem_of_cons; [tauto|auto].
  - by destruct H.
  - destruct H as (-> & _ & H2). split; [done|]. split; [right; exists y; split; [left|done]|].
    intros z [->|Hz]%elem_of_cons; auto.
Qed.

Lemma selection_probe m y chain excluded o :
  selection_spec (is_model_available health_checker y m).1 chain excluded o <-> selection_spec m chain excluded o.
Proof. unfold selection_spec. destruct o as [[x|]|x]; by setoid_rewrite usable_probe. Qed.

Lemma select_loop_spec chain excluded m :
  selection_spec m chain excluded (select_loop r e quarantined health_checker chain excluded m).2.
Proof.
  revert excluded m. induction chain as [|x chain IH]; intros excluded m; simpl.
  - destruct excluded; simpl; [|split; [done|by intros y ?%elem_of_nil]].
    split; [done|]. split; [by left|by intros y ?%elem_of_nil].
  - case_decide as Hq; [apply selection_skip; [apply IH|]; by intros [? _]|].
    assert (availability x m = (is_model_available health_checker x m).2) as Hav by done.
    pose proof (fun b => selection_probe m x chain b) as Hp.
    destruct (is_model_available health_checker x m) as [m1 av]. cbn [fst snd] in *.
    destruct av; cbn [negb].
    + destruct (within_ceiling r e x) eqn:Hw; cbn [negb].
      * split; [done|]. split; [done|]. exists [], chain. split; [done|]. by intros y ?%elem_of_nil.
      * apply selection_exclude; [apply Hp, IH|done|]. unfold affordable. by rewrite Hw.
    + apply selection_skip; [apply Hp, IH|]. intros [_ Hu]. congruence.
Qed.

(** The router serves a tier with the first model of its chain that is not
    quarantined, is available, and is within the cost ceiling; it answers [None]
    only when no model is usable, and raises exactly when models are usable but
    all are above the ceiling, never falling through to one of them. *)
Theorem router_selects_first t m :
  match get_chain r e t m with
  | Some chain => selection_spec m chain false (router_get_model_for_tier r e quarantined health_checker t m).2
  | None => (router_get_model_for_tier r e quarantined health_checker t m).2 = no_tier_2
  end.
Proof.
  unfold router_get_model_for_tier. destruct (get_chain r e t m); [|done]. apply select_loop_spec.
Qed.

Lemma fallback_loop_found model chain excluded m :
  selection_spec m chain excluded (fallback_loop r e quarantined health_checker model chain true excluded m).2.
Proof.
  revert excluded m. induction chain as [|x chain IH]; intros excluded m; simpl.
  - destruct excluded; simpl; [|split; [done|by intros y ?%elem_of_nil]].
    split; [done|]. split; [by left|by intros y ?%elem_of_nil].
  - case_bool_decide as Hq; cbn [negb]; [apply selection_skip; [apply IH|]; by intros [? _]|].
    assert (availability x m = (is_model_available health_checker x m).2) as Hav by done.
    pose proof (fun b => selection_probe m x chain b) as Hp.
    destruct (is_model_available health_checker x m) as [m1 av]. cbn [fst snd] in *.
    destruct av; cbn [negb].
    + destruct (within_ceiling r e x) eqn:Hw; cbn [negb].
      * split; [done|]. split; [done|]. exists [], chain. split; [done|]. by intros y ?%elem_of_nil.
      * apply selection_exclude; [apply Hp, IH|done|]. unfold affordable. by rewrite Hw.
    + apply selection_skip; [apply Hp, IH|]. intros [_ Hu]. congruence.
Qed.

Lemma fallback_loop_before model pre chain m : model ∉ pre ->
  fallback_loop r e quarantined health_checker model (pre ++ chain) false false m
  = fallback_loop r e quarantined health_checker model chain false false m.
Proof.
  induction pre as [|y pre IH]; [done|]. rewrite not_elem_of_cons. intros [Hne Hpre]. simpl.
  rewrite bool_decide_eq_false_2 by done. by apply IH.
Qed.

(** Fallback moves forward: the model after a failed one is chosen among
    the models behind its first occurrence in the chain, by the same rules as a
    fresh selection; a model that is not in the chain has no fallback. *)
Theorem fallback_moves_forward t m chain model :
  get_chain r e t m = Some chain ->
  let o := (get_fallback_for_model r e quarantined health_checker model t m).2 in
  (model ∉ chain -> o = Ok None) /\
  forall pre rest, chain = pre ++ model :: rest -> model ∉ pre -> selection_spec m rest false o.
Proof.
  intros Hc. unfold get_fallback_for_model. rewrite Hc. split.
  - intros Hn. rewrite <- (app_nil_r chain). by rewrite fallback_loop_before.
  - intros pre rest -> Hpre. rewrite fallback_loop_before by done. simpl.
    rewrite bool_decide_eq_true_2 by done. apply fallback_loop_found.
Qed.

(** With a validated registry every tier has a non-empty chain: a
    registered one as it is, otherwise the tier's default (tier 2's for a tier
    without one) with the environment's pin in front and never twice. *)
Theorem chain_resolution providers t m :
  validate_registry providers r = Ok tt -> (forall t c, custom_chains m !! t = Some c -> c ≠ []) ->
  exists chain, get_chain r e t m = Some chain /\ chain ≠ [] /\
  match custom_chains m !! t with
  | Some c => chain = c
  | None => exists dflt, dflt = tier_chain r (if decide (t = TIER_0) then 2 else tier_value t) /\
      match env_tier_pin e t with
      | None => chain = dflt
      | Some p => head chain = Some p /\ p ∉ tail chain /\
          forall x, x ≠ p -> x ∈ chain <-> x ∈ dflt
      end
  end.
Proof.
  intros Hv Hcust. apply validate_registry_correct in Hv as (Ht & _). unfold get_chain.
  destruct (custom_chains m !! t) as [c|] eqn:Ec; [exists c; split; [done|]; split; [by eapply Hcust|done]|].
  set (d := tier_chain r (if decide (t = TIER_0) then 2 else tier_value t)).
  assert (d ≠ []) as Hd by (apply Ht; destruct t; simpl; lia).
  assert ((match default_chains r t with Some c => Some c | None => default_chains r TIER_2 end) = Some d) as ->.
  { unfold default_chains, d. destruct (decide (t = TIER_0)) as [->|Hne].
    - rewrite decide_False by done. change (tier_value TIER_2) with 2%Z. fold d.
      pose proof (Ht 2%Z ltac:(lia)). by destruct (tier_chain r 2).
    - pose proof (Ht (tier_value t) ltac:(destruct t; simpl; lia || done)). by destruct (tier_chain r (tier_value t)). }
  destruct (env_tier_pin e t) as [p|].
  - eexists. split; [done|]. split; [done|]. exists d. split; [done|]. split; [done|]. cbn [tail]. split.
    + rewrite list_elem_of_filter. tauto.
    + intros x Hx. rewrite elem_of_cons, list_elem_of_filter. tauto.
  - exists d. split; [done|]. split; [done|]. by exists d.
Qed.

(** Scopes entered one inside the other; the innermost is the head. *)
Definition enter_scope (sm : option (list ScopedRouter * ModelRouter)) (s : ModelTier * list string)
  : option (list ScopedRouter * ModelRouter) :=
  match sm with
  | Some (open, m) =>
      match scope_enter (scoped s.1 s.2) m with Ok (s', m') => Some (s' :: open, m') | Raise _ => None end
  | None => None
  end.
Definition exit_scopes (open : list ScopedRouter) m : ModelRouter := foldl (fun m s => scope_exit s m) m open.

Lemma enter_scope_None scopes : foldl enter_scope None scopes = None.
Proof. by induction scopes. Qed.

Lemma scope_exit_restores s m0 m a u c :
  (forall t c, custom_chains m0 !! t = Some c -> c ≠ []) ->
  sc_original_chain s = custom_chains m0 !! sc_tier s ->
  custom_chains m = <[sc_tier s := c]> (custom_chains m0) ->
  custom_chains (scope_exit s (mkRouter (custom_chains m) a u)) = custom_chains m0.
Proof.
  intros Hm Hs Hc. unfold scope_exit. rewrite Hs, Hc.
  destruct (custom_chains m0 !! sc_tier s) as [[|y d]|] eqn:Ec; simpl.
  - by destruct (Hm _ _ Ec).
  - rewrite insert_insert_eq. by apply insert_id.
  - rewrite delete_insert_eq. by apply delete_id.
Qed.

Lemma enter_scopes_spec scopes open0 m0 :
  (forall t c, custom_chains m0 !! t = Some c -> c ≠ []) ->
  match foldl enter_scope (Some (open0, m0)) scopes with
  | Some (open, m') => exists news, open = news ++ open0 /\
      (forall a u, custom_chains (exit_scopes news (mkRouter (custom_chains m') a u)) = custom_chains m0) /\
      (forall t models, last scopes = Some (t, models) -> get_chain r e t m' = Some models)
  | None => exists t, (t, []) ∈ scopes
  end.
Proof.
  revert open0 m0. induction scopes as [|[t models] scopes IH]; intros open0 m0 Hm0.
  { exists []. done. }
  cbn [foldl]. destruct models as [|x models].
  { cbn. rewrite enter_scope_None. exists t. left. }
  cbn [enter_scope scope_enter scoped sc_models sc_tier fallback_chain mbind res_bind fst snd].
  set (s := mkScoped t (x :: models) (custom_chains m0 !! t)). set (m1 := register_chain t (x :: models) m0).
  assert (forall t' c, custom_chains m1 !! t' = Some c -> c ≠ []) as Hm1.
  { intros t' c. unfold m1. simpl. rewrite lookup_insert_Some. intros [[_ <-]|[_ H]]; [done|by eapply Hm0]. }
  specialize (IH (s :: open0) m1 Hm1). destruct (foldl enter_scope _ scopes) as [[open m']|] eqn:Ef.
  - destruct IH as (news & -> & Hexit & Hlast). exists (news ++ [s]). rewrite <- app_assoc. split; [done|]. split.
    + intros a u. unfold exit_scopes in *. rewrite foldl_app. specialize (Hexit a u).
      destruct (foldl _ _ news) as [cc a' u']. cbn [custom_chains] in Hexit. cbn [foldl].
      apply (scope_exit_restores s m0 (mkRouter cc a' u') a' u' (x :: models)); [done..|]. by subst cc.
    + intros t' models' Hl. destruct scopes as [|s2 scopes]; [|by apply Hlast].
      injection Hl as <- <-. injection Ef as _ <-. unfold get_chain, m1. simpl. by rewrite lookup_insert_eq.
  - destruct IH as [t' Ht']. exists t'. by right.
Qed.

(** Scoped overrides nest: entering scopes one inside the other and
    leaving them in reverse order restores every tier's chain, whatever
    availability was learnt in between; the innermost scope's tier is served by
    exactly its models; and only a scope without models is refused. *)
Theorem scopes_restore scopes m :
  (forall t c, custom_chains m !! t = Some c -> c ≠ []) ->
  match foldl enter_scope (Some ([], m)) scopes with
  | Some (open, m') =>
      (forall a u, custom_chains (exit_scopes open (mkRouter (custom_chains m') a u)) = custom_chains m) /\
      (forall t models, last scopes = Some (t, models) -> get_chain r e t m' = Some models)
  | None => exists t, (t, []) ∈ scopes
  end.
Proof.
  intros Hm. pose proof (enter_scopes_spec scopes [] m Hm) as H.
  destruct (foldl enter_scope _ scopes) as [[open m']|]; [|done].
  destruct H as (news & -> & H1 & H2). rewrite app_nil_r. done.
Qed.
End facts.

(** ** Witnesses *)

Definition demo_ids : list string := ["gh:gpt-4o-mini"; "gemini:flash"; "ollama:phi4"].
Definition demo_registry : Registry :=
  mkRegistry [mkModel "gh:gpt-4o-mini" "gh" (Some Free) (Some (15 # 100)%Q) (Some (60 # 100)%Q);
              mkModel "gemini:flash" "gemini" (Some Paid) None None; mkModel "ollama:phi4" "ollama" (Some Local) None None]
    ((fun t => (t, demo_ids)) <$> [1; 2; 3; 4; 5]%Z) "gh:gpt-4o-mini" "gemini:flash" "ollama:phi4".
Definition demo_pin (t : Z) : string := if (t =? 3)%Z then "gemini:flash" else "".
Definition demo_env (lane : string) : Env := mkEnv true "" (fun _ => true) lane demo_pin "".

Example demo_selection :
  (router_get_model_for_tier demo_registry (demo_env "free") {["gh:gpt-4o-mini"]} None TIER_3 new_router).2
    = Ok (Some "ollama:phi4") /\
  (router_get_model_for_tier demo_registry (demo_env "") {["gh:gpt-4o-mini"]} None TIER_3 new_router).2
    = Ok (Some "gemini:flash").
Proof. vm_compute. done. Qed.

Lemma new_router_chains t c : custom_chains new_router !! t = Some c -> c ≠ [].
Proof. intros H. cbn in H. by rewrite lookup_empty in H. Qed.

Lemma fallback_moves_forward_witness :
  (get_fallback_for_model demo_registry (demo_env "") ∅ None "gemini:flash" TIER_2 new_router).2 = Ok (Some "ollama:phi4") /\
  selection_spec demo_registry (demo_env "") ∅ None new_router ["ollama:phi4"] false
    (get_fallback_for_model demo_registry (demo_env "") ∅ None "gemini:flash" TIER_2 new_router).2.
Proof.
  split; [vm_compute; reflexivity|].
  destruct (fallback_moves_forward demo_registry (demo_env "") ∅ None TIER_2 new_router
    ["gh:gpt-4o-mini"; "gemini:flash"; "ollama:phi4"] "gemini:flash" ltac:(vm_compute; reflexivity)) as [_ H].
  apply (H ["gh:gpt-4o-mini"] ["ollama:phi4"]); [reflexivity|]. by intros ?%list_elem_of_singleton.
Defined.

Lemma chain_resolution_witness :
  get_chain demo_registry (demo_env "") TIER_3 new_router = Some ["gemini:flash"; "gh:gpt-4o-mini"; "ollama:phi4"].
Proof.
  destruct (chain_resolution demo_registry (demo_env "") ["gh"; "gemini"; "ollama"] TIER_3 new_router
    ltac:(vm_compute; reflexivity) new_router_chains) as (chain & H & _).
  etransitivity; [exact H|]. rewrite <- H. vm_compute. reflexivity.
Defined.

Lemma scopes_restore_witness :
  match foldl enter_scope (Some ([], new_router)) [(TIER_1, ["a"]); (TIER_1, ["b"])] with
  | Some (open, m') => custom_chains (exit_scopes open m') = ∅
  | None => False
  end.
Proof.
  pose proof (scopes_restore demo_registry (demo_env "") [(TIER_1, ["a"]); (TIER_1, ["b"])] new_router
    new_router_chains) as H.
  cbn [foldl enter_scope scope_enter scoped sc_models fallback_chain mbind res_bind fst snd] in *.
  destruct H as [H _]. apply (H ∅ ∅).
Defined.
