(* ===== verification/SmartRouter.v ===== *)
(** * The smart model router (models/smart_router.py) and the fallback loop
      (models/fallback_selector.py)

    Selection among healthy candidates with degradation across tiers, adaptive
    cooldowns, error classification and the two fallback loops.  Clock readings
    are arguments ([utc], [mono], [now]); a provider call is an arbitrary
    computation on the router and the rest of the world, so that other callers
    may act while it is awaited.  Metrics, logging and persistence are left out. *)

From Stdlib Require Import QArith Qminmax Qround.
From stdpp Require Import sorting.
From S2P Require Import Prelude PyStr PyVal Retry Registry Router RateLimit ModelStats.
Local Open Scope Z_scope.

Record CooldownConfig := mkCooldowns {
  base_failure_cooldown_seconds : Z;
  base_rate_limit_cooldown_seconds : Z;
  base_timeout_cooldown_seconds : Z;
  consecutive_failure_multiplier : Q;
  max_cooldown_seconds : Z;
}.
Definition default_cooldowns : CooldownConfig := mkCooldowns 30 120 60 (3 # 2)%Q 600.

Record ModelSelection := mkSelection {
  sel_model_name : string;
  sel_requested_tier : ModelTier;
  sel_actual_tier : ModelTier;
  sel_is_degraded : bool;
}.

Record SmartRouter := mkSmart {
  sr_base : ModelRouter;
  sr_stats : gmap string ModelStats;
  sr_limits : gmap string ProviderRateLimits;
  sr_last_selection : option ModelSelection;
  sr_degraded_count : nat;
}.
Definition new_smart_router : SmartRouter := mkSmart new_router ∅ ∅ None 0.

Definition set_base (b : ModelRouter) (s : SmartRouter) : SmartRouter :=
  mkSmart b (sr_stats s) (sr_limits s) (sr_last_selection s) (sr_degraded_count s).
Definition put_stats (model : string) (m : ModelStats) (s : SmartRouter) : SmartRouter :=
  mkSmart (sr_base s) (<[model := m]> (sr_stats s)) (sr_limits s) (sr_last_selection s) (sr_degraded_count s).
Definition set_limits (l : gmap string ProviderRateLimits) (s : SmartRouter) : SmartRouter :=
  mkSmart (sr_base s) (sr_stats s) l (sr_last_selection s) (sr_degraded_count s).
Definition clear_selection (s : SmartRouter) : SmartRouter :=
  mkSmart (sr_base s) (sr_stats s) (sr_limits s) None (sr_degraded_count s).
Definition set_last_selection (sel : ModelSelection) (s : SmartRouter) : SmartRouter :=
  mkSmart (sr_base s) (sr_stats s) (sr_limits s) (Some sel)
    (if sel_is_degraded sel then S (sr_degraded_count s) else sr_degraded_count s).

(** One reading of the three clocks. *)
Record Clock := mkClock { utc : Q; mono : Q; now : Q }.

Section router.
Context (p : Policy) (cfg : CooldownConfig) (r : Registry) (e : Env) (quarantined : gset string)
  (health_checker : option (string -> bool)) (model_costs : string -> option Q)
  (parsedate fromiso : string -> option Q) (gone_status : string -> bool).
Implicit Types (s : SmartRouter) (t : ModelTier) (c : Clock).

Definition stats_of (c : Clock) (model : string) (s : SmartRouter) : ModelStats :=
  default (new_stats model (utc c)) (sr_stats s !! model).

(** ** Selection *)

(** One candidate's checks, in the code's order. *)
Definition consider (c : Clock) (max_cost : option Q) (model : string) (s : SmartRouter) : SmartRouter * bool :=
  if decide (model ∈ quarantined) then (s, false)
  else
    let '(b, available) := is_model_available health_checker model (sr_base s) in
    let s := set_base b s in
    if negb available then (s, false)
    else if negb (within_ceiling r e model) then (s, false)
    else
      let '(m, allowed) := check_circuit p (utc c) (mono c) (stats_of c model s) in
      let s := put_stats model m s in
      if negb allowed then (s, false)
      else if is_in_cooldown (mono c) m then (s, false)
      else
        match max_cost with
        | Some limit => (s, Qle_bool (default 0%Q (model_costs model)) limit)
        | None => (s, true)
        end.

Fixpoint find_candidates (c : Clock) (max_cost : option Q) (chain : list string) (s : SmartRouter)
  : SmartRouter * list string :=
  match chain with
  | [] => (s, [])
  | model :: chain' =>
      let '(s, ok) := consider c max_cost model s in
      let '(s, rest) := find_candidates c max_cost chain' s in
      (s, if ok then model :: rest else rest)
  end.

Definition find_candidates_in_tier (c : Clock) (t : ModelTier) (max_cost : option Q) (s : SmartRouter)
  : SmartRouter * list string :=
  find_candidates c max_cost (default [] (get_chain r e t (sr_base s))) s.

(** [(distance, direction)], compared as a tuple. *)
Definition tier_priority (original t : ModelTier) : Z * Z :=
  (Z.abs (tier_value t - tier_value original), if tier_value t <? tier_value original then 0 else 1).
Definition priority_le (original t t' : ModelTier) : Prop :=
  let '(d, r) := tier_priority original t in let '(d', r') := tier_priority original t' in
  d < d' \/ (d = d' /\ r <= r').

#[export] Instance priority_le_dec original : RelDecision (priority_le original).
Proof. intros x y. unfold priority_le, tier_priority. apply _. Defined.

Definition eligible_tiers (original : ModelTier) : list ModelTier :=
  merge_sort (priority_le original) (filter (fun t => t ≠ original /\ t ≠ TIER_0) all_tiers).

Fixpoint search_tiers (c : Clock) (max_cost : option Q) (tiers : list ModelTier) (s : SmartRouter)
  : SmartRouter * option (list string * ModelTier) :=
  match tiers with
  | [] => (s, None)
  | t :: tiers' =>
      let '(s, candidates) := find_candidates_in_tier c t max_cost s in
      match candidates with [] => search_tiers c max_cost tiers' s | _ => (s, Some (candidates, t)) end
  end.

Definition cross_tier_search (c : Clock) (original : ModelTier) (max_cost : option Q) (s : SmartRouter)
  : SmartRouter * option (list string * ModelTier) :=
  search_tiers c max_cost (eligible_tiers original) s.

(** Success rate 60%, latency 20%, recency 20%. *)
Definition score (c : Clock) (m : ModelStats) : Q :=
  let success_score := (recent_success_rate m * (6 # 10))%Q in
  let latency := ema_latency_ms m in
  let latency_score :=
    if Qle_bool latency 0 then (2 # 10)%Q else (Qmax 0 (1 - latency / 10000) * (2 # 10))%Q in
  let recency_score :=
    match last_success m with
    | Some t => (Qmax 0 (1 - (utc c - t) / 3600) * (2 # 10))%Q
    | None => (2 # 10)%Q
    end in
  (success_score + latency_score + recency_score)%Q.

(** The head of the stable descending sort: the first candidate of maximal score. *)
Fixpoint best (c : Clock) (s : SmartRouter) (current : string) (rest : list string) : string :=
  match rest with
  | [] => current
  | x :: rest' =>
      best c s (if Qle_bool (score c (stats_of c x s)) (score c (stats_of c current s)) then current else x) rest'
  end.

(** The candidates and the tier they come from; [None] when all those of the
    requested tier were excluded. *)
Definition gather (c : Clock) (t : ModelTier) (max_cost : option Q) (allow_cross_tier : bool)
    (exclude : list string) (s : SmartRouter) : SmartRouter * option (list string * ModelTier * bool) :=
  let '(s, found) := find_candidates_in_tier c t max_cost s in
  let kept := filter (fun x => x ∉ exclude) found in
  if negb (bool_decide (found = [])) && bool_decide (kept = []) then (s, None)
  else
    match kept with
    | [] =>
        if allow_cross_tier then
          match cross_tier_search c t max_cost s with
          | (s, Some (l, t')) => (s, Some (l, t', true))
          | (s, None) => (s, Some ([], t, false))
          end
        else (s, Some ([], t, false))
    | _ => (s, Some (kept, t, false))
    end.

Definition no_provider : exn := ConfigurationError "NoProviderConfiguredError".

Definition get_model_for_tier (c : Clock) (t : ModelTier) (prefer_healthy : bool) (max_cost : option Q)
    (allow_cross_tier : bool) (exclude : list string) (s : SmartRouter) : SmartRouter * res (option string) :=
  match gather c t max_cost allow_cross_tier exclude s with
  | (s, None) => (clear_selection s, Ok None)
  | (s, Some ([], _, _)) =>
      (clear_selection s,
       if allow_cross_tier && bool_decide (AGENTIC_NO_LLM e = "") then Raise no_provider else Ok None)
  | (s, Some (x :: rest, actual, degraded)) =>
      let pinned := if degraded || bool_decide (is_Some (custom_chains (sr_base s) !! t)) then None
                    else env_tier_pin e t in
      let selected :=
        match pinned with
        | Some q => if decide (q ∈ x :: rest) then q
                    else if prefer_healthy then best c s x rest else x
        | None => if prefer_healthy then best c s x rest else x
        end in
      (set_last_selection (mkSelection selected t actual degraded) s, Ok (Some selected))
  end.

(** ** Recording outcomes *)

Definition calculate_cooldown (m : ModelStats) (error_type : string) : Z :=
  let base := if decide (error_type = "rate_limit") then base_rate_limit_cooldown_seconds cfg
              else if decide (error_type = "timeout") then base_timeout_cooldown_seconds cfg
              else base_failure_cooldown_seconds cfg in
  let multiplier := Qpower (consecutive_failure_multiplier cfg) (Z.min (consecutive_failures m) 5) in
  Z.min (trunc (inject_Z base * multiplier)) (max_cooldown_seconds cfg).

Definition router_record_success (c : Clock) (idx : nat) (model : string) (latency_ms : Q) (s : SmartRouter) : SmartRouter :=
  let s := put_stats model (record_success p (utc c) idx latency_ms (stats_of c model s)) s in
  set_base (mark_available model (sr_base s)) s.

Definition router_record_failure (c : Clock) (model error_type : string) (is_permanent : bool) (s : SmartRouter) : SmartRouter :=
  let m := record_failure p (utc c) (mono c) (stats_of c model s) in
  let m := set_cooldown (utc c) (mono c) (inject_Z (calculate_cooldown m error_type)) m in
  let s := put_stats model m s in
  if is_permanent then set_base (mark_unavailable model (sr_base s)) s else s.

Definition router_record_rate_limit (c : Clock) (jitter : Q) (model : string) (headers : option (odict string))
    (s : SmartRouter) : SmartRouter :=
  let '(l, cooldown) := get_cooldown_seconds parsedate fromiso (now c) (mono c) jitter model headers 120 (sr_limits s) in
  put_stats model (record_rate_limit p (utc c) (mono c) (Some cooldown) (stats_of c model s)) (set_limits l s).

Definition router_record_timeout (c : Clock) (model : string) (s : SmartRouter) : SmartRouter :=
  let m := record_timeout p (utc c) (mono c) (stats_of c model s) in
  put_stats model (set_cooldown (utc c) (mono c) (inject_Z (calculate_cooldown m "timeout")) m) s.

(** A provider's exception: its text, type name, status code and headers. *)
Record ProviderError := mkPError {
  pe_text : string;
  pe_type : string;
  pe_status : option Z;
  pe_headers : option (odict string);
}.

Definition PERMANENT_HTTP_STATUS : list Z := [401; 403; 404; 410].

Definition classify_and_record_error (c : Clock) (jitter : Q) (model : string) (err : ProviderError) (s : SmartRouter)
  : SmartRouter :=
  let error_str := lower (pe_text err) in
  let s := match pe_headers err with
           | Some h => set_limits (update_from_headers parsedate fromiso (now c) (mono c) model h (sr_limits s)).1 s
           | None => s
           end in
  let by_message :=
    if decide ((classify_error gone_status error_str).1 = RATE_LIMITED)
    then router_record_rate_limit c jitter model (pe_headers err) s
    else if contains error_str "timeout" then router_record_timeout c model s
    else router_record_failure c model (pe_type err) false s in
  match pe_status err with
  | Some status =>
      if decide (status ∈ PERMANENT_HTTP_STATUS) then router_record_failure c model "permanent" true s
      else if decide (status = 429) then router_record_rate_limit c jitter model (pe_headers err) s
      else if decide (status = 408) then router_record_timeout c model s
      else by_message
  | None => by_message
  end.

(** ** The fallback loops *)

Inductive CallResult (A : Type) :=
  | Answer (a : A)
  | Cancelled
  | CircuitResolved
  | Failed (err : ProviderError).
Arguments Answer {A}. Arguments Cancelled {A}. Arguments CircuitResolved {A}. Arguments Failed {A}.

Section calls.
Context {A W : Type}.
(** [_execute_call] or [attempt]: the awaited call, with the other callers' effects. *)
Context (call : string -> SmartRouter * W -> SmartRouter * W * CallResult A).
(** Clock readings: at selection and at recording; the call's latency. *)
Context (clock : W -> Clock) (latency : W -> W -> Q) (jitter : W -> Q) (draw : W -> nat).
(** [_is_model_ready_for_attempt]: probe lock and semaphore. *)
Context (ready : string -> SmartRouter * W -> bool).

Inductive LoopEnd :=
  | Returned (model : string) (a : A)
  | RaisedCancelled
  | RaisedExn (x : exn)
  | RaisedError (err : ProviderError)
  | AllFailed (tried : list string) (last_error : option ProviderError).

(** [call_with_fallback]; [n] rounds are left. *)
Fixpoint call_loop (n : nat) (t : ModelTier) (tried : list string) (last_error : option ProviderError)
    (sw : SmartRouter * W) : SmartRouter * W * list string * LoopEnd :=
  match n with
  | O => (sw, tried, AllFailed tried last_error)
  | S n' =>
      let '(s, w) := sw in
      match get_model_for_tier (clock w) t true None true tried s with
      | (s, Raise x) => (s, w, tried, RaisedExn x)
      | (s, Ok None) => (s, w, tried, AllFailed tried last_error)
      | (s, Ok (Some model)) =>
          if decide (model ∈ tried) then (s, w, tried, AllFailed tried last_error)
          else
            let tried := tried ++ [model] in
            let s := put_stats model (stats_of (clock w) model s) s in
            if negb (ready model (s, w)) then call_loop n' t tried last_error (s, w)
            else
              match call model (s, w) with
              | (s', w', Answer a) =>
                  (router_record_success (clock w') (draw w') model (latency w w') s', w', tried, Returned model a)
              | (s', w', Cancelled) => (s', w', tried, RaisedCancelled)
              | (s', w', CircuitResolved) => call_loop n' t tried last_error (s', w')
              | (s', w', Failed err) =>
                  call_loop n' t tried (Some err)
                    (classify_and_record_error (clock w') (jitter w') model err s', w')
              end
      end
  end.

Definition call_with_fallback (max_retries : nat) (t : ModelTier) (sw : SmartRouter * W) :=
  call_loop max_retries t [] None sw.

(** [run_with_fallback]: the caller's hooks; [model] forces one model. *)
Context (pre_attempt : string -> SmartRouter * W -> option exn)
  (on_error : string -> ProviderError -> SmartRouter * W -> SmartRouter * W).

Definition select_model (model : option string) (t : ModelTier) (tried : list string) (sw : SmartRouter * W)
  : SmartRouter * res (option string) :=
  match model with
  | Some (String _ _ as m) => (sw.1, Ok (Some m))
  | _ => get_model_for_tier (clock sw.2) t true None true tried sw.1
  end.

Fixpoint run_loop_with_fallback (n : nat) (model : option string) (t : ModelTier) (tried : list string)
    (last_error : option ProviderError) (sw : SmartRouter * W) : SmartRouter * W * list string * LoopEnd :=
  let finish sw := (sw, tried, match last_error with Some err => RaisedError err | None => AllFailed tried None end) in
  match n with
  | O => finish sw
  | S n' =>
      match select_model model t tried sw with
      | (s, Raise x) => (s, sw.2, tried, RaisedExn x)
      | (s, Ok None) => finish (s, sw.2)
      | (s, Ok (Some m)) =>
          if decide (m ∈ tried) then finish (s, sw.2)
          else
            let tried := tried ++ [m] in
            match pre_attempt m (s, sw.2) with
            | Some x => (s, sw.2, tried, RaisedExn x)
            | None =>
                match call m (s, sw.2) with
                | (sw', Answer a) => (sw', tried, Returned m a)
                | (sw', Cancelled) => (sw', tried, RaisedCancelled)
                | (sw', CircuitResolved) => run_loop_with_fallback n' model t tried last_error sw'
                | (sw', Failed err) => run_loop_with_fallback n' model t tried (Some err) (on_error m err sw')
                end
            end
      end
  end.

Definition run_with_fallback (max_retries : nat) (model : option string) (t : ModelTier) (sw : SmartRouter * W)
  : SmartRouter * W * list string * LoopEnd :=
  match model with
  | Some m => match enforce_cost_lane_ceiling r e m None with
              | Raise x => (sw, [], RaisedExn x)
              | Ok _ => run_loop_with_fallback max_retries model t [] None sw
              end
  | None => run_loop_with_fallback max_retries model t [] None sw
  end.
End calls.
End router.
