(* ===== verification/SmartRouterFacts.v ===== *)
(** * Correctness of the smart router

    Which model is selected, that the fallback loops never repeat a model, how
    errors are classified and how long a failing model rests. *)

From Stdlib Require Import QArith Qpower Qminmax Qround Lqa.
From stdpp Require Import sorting.
From S2P Require Import Prelude PyStr PyVal Retry Registry Router.
From S2P Require Import Router RateLimit ModelStats SmartRouter.
Local Open Scope Z_scope.

Section facts.
Context (p : Policy) (cfg : CooldownConfig) (r : Registry) (e : Env) (quarantined : gset string)
  (health_checker : option (string -> bool)) (model_costs : string -> option Q)
  (parsedate fromiso : string -> option Q) (gone_status : string -> bool).
Implicit Types (s : SmartRouter) (t : ModelTier) (c : Clock).

#[local] Abbreviation consider := (consider p r e quarantined health_checker model_costs).
#[local] Abbreviation find_candidates := (find_candidates p r e quarantined health_checker model_costs).
#[local] Abbreviation find_candidates_in_tier := (find_candidates_in_tier p r e quarantined health_checker model_costs).
#[local] Abbreviation get_model_for_tier := (get_model_for_tier p r e quarantined health_checker model_costs).

(** ** Candidates *)

(** The checks a candidate passes in a given state. *)
Definition eligible c (max_cost : option Q) s (x : string) : bool :=
  bool_decide (x ∉ quarantined) && availability health_checker x (sr_base s) && within_ceiling r e x &&
  (check_circuit p (utc c) (mono c) (stats_of c x s)).2 && negb (is_in_cooldown (mono c) (stats_of c x s)) &&
  match max_cost with Some limit => Qle_bool (default 0%Q (model_costs x)) limit | None => true end.

Lemma check_circuit_cooldown u mo m : is_in_cooldown mo (check_circuit p u mo m).1 = is_in_cooldown mo m.
Proof. unfold check_circuit. destruct (circuit_state m); try done. by destruct (recovery_due _ _ _ _). Qed.

Lemma check_circuit_stays_false u mo m :
  (check_circuit p u mo m).2 = false -> (check_circuit p u mo m).1 = m.
Proof. unfold check_circuit. destruct (circuit_state m); try done. by destruct (recovery_due _ _ _ _). Qed.

Lemma consider_verdict c mc x s : (consider c mc x s).2 = eligible c mc s x.
Proof.
  unfold SmartRouter.consider, eligible, availability. case_decide as Hq.
  { rewrite bool_decide_eq_false_2 by tauto. done. }
  rewrite bool_decide_eq_true_2 by done. 
  destruct (is_model_available health_checker x (sr_base s)) as [b av]. cbn [fst snd andb].
  destruct av; cbn [negb andb]; [|done]. destruct (within_ceiling r e x); cbn [negb andb]; [|done].
  change (stats_of c x (set_base b s)) with (stats_of c x s).
  pose proof (check_circuit_cooldown (utc c) (mono c) (stats_of c x s)) as Hcd.
  destruct (check_circuit p (utc c) (mono c) (stats_of c x s)) as [m al]. cbn [fst snd] in *.
  rewrite Hcd. clear Hcd. destruct al; cbn [negb andb]; [|done]. destruct (is_in_cooldown _ _); cbn [negb]; [done|].
  by destruct mc.
Qed.

Lemma consider_chains c mc x s : custom_chains (sr_base (consider c mc x s).1) = custom_chains (sr_base s).
Proof.
  unfold SmartRouter.consider. destruct (decide (x ∈ quarantined)); [done|].
  pose proof (probe_chains health_checker x (sr_base s)) as H.
  destruct (is_model_available health_checker x (sr_base s)) as [b av]. cbn [fst] in H.
  destruct av; cbn [negb]; [|done]. destruct (within_ceiling r e x); cbn [negb]; [|done].
  destruct (check_circuit _ _ _ _) as [m al]. destruct al; cbn [negb]; [|done].
  destruct (is_in_cooldown _ _); [done|]. by destruct mc.
Qed.

Lemma consider_availability c mc x s y :
  availability health_checker y (sr_base (consider c mc x s).1) = availability health_checker y (sr_base s).
Proof.
  unfold SmartRouter.consider. destruct (decide (x ∈ quarantined)); [done|].
  pose proof (probe_stable health_checker y x (sr_base s)) as H.
  destruct (is_model_available health_checker x (sr_base s)) as [b av]. cbn [fst] in H.
  destruct av; cbn [negb]; [|done]. destruct (within_ceiling r e x); cbn [negb]; [|done].
  destruct (check_circuit _ _ _ _) as [m al]. destruct al; cbn [negb]; [|done].
  destruct (is_in_cooldown _ _); [done|]. by destruct mc.
Qed.

Lemma consider_stats c mc x s y :
  stats_of c y (consider c mc x s).1 = stats_of c y s \/
  (y = x /\ stats_of c y (consider c mc x s).1 = (check_circuit p (utc c) (mono c) (stats_of c x s)).1).
Proof.
  unfold SmartRouter.consider. destruct (decide (x ∈ quarantined)); [by left|].
  destruct (is_model_available health_checker x (sr_base s)) as [b av].
  destruct av; cbn [negb]; [|by left]. destruct (within_ceiling r e x); cbn [negb]; [|by left].
  change (stats_of c x (set_base b s)) with (stats_of c x s).
  destruct (check_circuit _ _ _ _) as [m al]. cbn [fst].
  assert (stats_of c y (put_stats x m (set_base b s)) = stats_of c y s \/
    (y = x /\ stats_of c y (put_stats x m (set_base b s)) = m)) as H.
  { unfold stats_of, put_stats. cbn [sr_stats set_base]. destruct (decide (y = x)) as [->|Hne].
    - right. by rewrite lookup_insert_eq.
    - left. by rewrite lookup_insert_ne. }
  destruct al; cbn [negb]; [|done]. destruct (is_in_cooldown _ _); [done|]. by destruct mc.
Qed.

(** A check does not change another model's verdict, nor makes a model pass
    that did not. *)
Lemma eligible_consider c mc x s y :
  (x ≠ y \/ eligible c mc s y = false) -> eligible c mc (consider c mc x s).1 y = eligible c mc s y.
Proof.
  intros H. unfold eligible in *. rewrite consider_availability.
  destruct (consider_stats c mc x s y) as [->|[-> Hs]]; [done|]. rewrite Hs.
  destruct H as [H|H]; [done|]. rewrite H. clear Hs. rewrite check_circuit_cooldown.
  assert ((check_circuit p (utc c) (mono c) (stats_of c x s)).2 = false ->
    (check_circuit p (utc c) (mono c) (check_circuit p (utc c) (mono c) (stats_of c x s)).1).2 = false) as Hc.
  { intros Hc. by rewrite (check_circuit_stays_false _ _ _ Hc). }
  revert H Hc. generalize (check_circuit p (utc c) (mono c) (check_circuit p (utc c) (mono c) (stats_of c x s)).1).2.
  generalize (check_circuit p (utc c) (mono c) (stats_of c x s)).2. intros b1 b2.
  destruct (bool_decide (x ∉ quarantined)), (availability health_checker x (sr_base s)), (within_ceiling r e x), b1, b2;
    cbn [andb]; try done; intros _ Hc; by specialize (Hc eq_refl).
Qed.

Lemma find_candidates_spec c mc chain s :
  (forall x, x ∈ (find_candidates c mc chain s).2 <-> x ∈ chain /\ eligible c mc s x = true) /\
  (find_candidates c mc chain s).2 `sublist_of` chain /\
  custom_chains (sr_base (find_candidates c mc chain s).1) = custom_chains (sr_base s) /\
  (forall x, x ∉ chain \/ eligible c mc s x = false ->
     eligible c mc (find_candidates c mc chain s).1 x = eligible c mc s x).
Proof.
  revert s. induction chain as [|y chain IH]; intros s; simpl.
  { split; [|done]. intros x. rewrite !elem_of_nil. tauto. }
  pose proof (consider_verdict c mc y s) as Hv. pose proof (consider_chains c mc y s) as Hch.
  pose proof (fun z => eligible_consider c mc y s z) as He.
  destruct (consider c mc y s) as [s1 ok]. cbn [fst snd] in *. subst ok.
  specialize (IH s1). destruct (find_candidates c mc chain s1) as [s2 rest]. cbn [fst snd] in *.
  destruct IH as (IH1 & IH2 & IH3 & IH4). split; [|split; [|split]].
  - intros x. destruct (eligible c mc s y) eqn:Ey.
    + rewrite !elem_of_cons, IH1. destruct (decide (x = y)) as [->|Hne]; [tauto|].
      rewrite He by (left; congruence). tauto.
    + rewrite elem_of_cons, IH1. destruct (decide (x = y)) as [->|Hne].
      * rewrite He by (by right). rewrite Ey. naive_solver.
      * rewrite He by (left; congruence). tauto.
  - destruct (eligible c mc s y); [by apply sublist_skip|by apply sublist_cons].
  - by rewrite IH3.
  - intros x Hx. rewrite <- (He x).
    + apply IH4. destruct Hx as [Hx|Hx]; [left; set_solver|right]. rewrite He; [done|by right].
    + destruct Hx as [Hx|Hx]; [left; set_solver|by right].
Qed.

(** ** Tiers *)

Lemma eligible_tiers_table :
  eligible_tiers TIER_0 = [TIER_1; TIER_2; TIER_3; TIER_4; TIER_5] /\
  eligible_tiers TIER_1 = [TIER_2; TIER_3; TIER_4; TIER_5] /\
  eligible_tiers TIER_2 = [TIER_1; TIER_3; TIER_4; TIER_5] /\
  eligible_tiers TIER_3 = [TIER_2; TIER_4; TIER_1; TIER_5] /\
  eligible_tiers TIER_4 = [TIER_3; TIER_5; TIER_2; TIER_1] /\
  eligible_tiers TIER_5 = [TIER_4; TIER_3; TIER_2; TIER_1].
Proof. vm_compute. done. Qed.

Lemma eligible_tiers_other t t' : t' ∈ eligible_tiers t -> t' ≠ t.
Proof.
  unfold eligible_tiers. rewrite merge_sort_Permutation, list_elem_of_filter. tauto.
Qed.

Definition chain_of t s : list string := default [] (get_chain r e t (sr_base s)).

Lemma chain_of_custom t s s' : custom_chains (sr_base s') = custom_chains (sr_base s) -> chain_of t s' = chain_of t s.
Proof. intros H. unfold chain_of, get_chain. by rewrite H. Qed.

(** Nothing in the tier passes. *)
Definition barren c mc s t : Prop := forall x, x ∈ chain_of t s -> eligible c mc s x = false.

Lemma find_none c mc t s :
  (find_candidates_in_tier c t mc s).2 = [] ->
  barren c mc s t /\ (forall x, eligible c mc (find_candidates_in_tier c t mc s).1 x = eligible c mc s x) /\
  custom_chains (sr_base (find_candidates_in_tier c t mc s).1) = custom_chains (sr_base s).
Proof.
  unfold SmartRouter.find_candidates_in_tier. fold (chain_of t s).
  destruct (find_candidates_spec c mc (chain_of t s) s) as (H1 & _ & H3 & H4). intros Hn. rewrite Hn in H1.
  assert (barren c mc s t) as Hb.
  { intros x Hx. destruct (eligible c mc s x) eqn:Hex; [|done].
    pose proof (proj2 (H1 x) (conj Hx Hex)) as Hin. by apply elem_of_nil in Hin. }
  split; [done|]. split; [|done]. intros x. apply H4. destruct (decide (x ∈ chain_of t s)); [right; by apply Hb|by left].
Qed.

Lemma search_tiers_spec c mc tiers s :
  match (search_tiers p r e quarantined health_checker model_costs c mc tiers s).2 with
  | Some (l, t) => exists pre post, tiers = pre ++ t :: post /\ (forall t', t' ∈ pre -> barren c mc s t') /\
      l ≠ [] /\ (forall x, x ∈ l <-> x ∈ chain_of t s /\ eligible c mc s x = true)
  | None => forall t', t' ∈ tiers -> barren c mc s t'
  end /\
  custom_chains (sr_base (search_tiers p r e quarantined health_checker model_costs c mc tiers s).1)
  = custom_chains (sr_base s).
Proof.
  revert s. induction tiers as [|t tiers IH]; intros s; simpl; [split; [by intros t' ?%elem_of_nil|done]|].
  pose proof (find_none c mc t s) as Hn.
  pose proof (find_candidates_spec c mc (chain_of t s) s) as (H1 & _ & H3 & _).
  unfold SmartRouter.find_candidates_in_tier in *. fold (chain_of t s) in *.
  destruct (find_candidates c mc (chain_of t s) s) as [s1 l]. cbn [fst snd] in *.
  destruct l as [|x l].
  - destruct (Hn eq_refl) as (Hb & Hel & Hc). specialize (IH s1) as [IH IHc]. rewrite IHc, Hc. split; [|done].
    assert (forall t', barren c mc s1 t' <-> barren c mc s t') as Hbar.
    { intros t'. unfold barren. rewrite (chain_of_custom t' s s1 Hc). by setoid_rewrite Hel. }
    destruct (search_tiers _ _ _ _ _ _ _ _ _ s1).2 as [[l t0]|].
    + destruct IH as (pre & post & -> & Hpre & Hl & Hx). exists (t :: pre), post. split; [done|]. split; [|split; [done|]].
      * intros t' [->|Ht']%elem_of_cons; [done|by apply Hbar, Hpre].
      * intros y. by rewrite Hx, (chain_of_custom t0 s s1 Hc), Hel.
    + intros t' [->|Ht']%elem_of_cons; [done|by apply Hbar, IH].
  - cbn [snd fst]. split; [|done]. exists [], tiers. split; [done|]. split; [by intros t' ?%elem_of_nil|]. split; [done|]. done.
Qed.

(** ** Selection *)

Definition good c mc s t (x : string) : Prop := x ∈ chain_of t s /\ eligible c mc s x = true.

(** The candidates a selection chooses from: those of the requested tier, or of
    the nearest tier that has any. *)
Definition candidates_spec c mc s t (cross : bool) (exclude : list string)
    (g : option (list string * ModelTier * bool)) : Prop :=
  match g with
  | None => (exists x, good c mc s t x) /\ forall x, good c mc s t x -> x ∈ exclude
  | Some ([], t', degraded) => t' = t /\ degraded = false /\ barren c mc s t /\
      (cross = true -> forall t', t' ∈ eligible_tiers t -> barren c mc s t')
  | Some (l, t', false) => t' = t /\ forall x, x ∈ l <-> good c mc s t x /\ x ∉ exclude
  | Some (l, t', true) => cross = true /\ barren c mc s t /\
      (exists pre post, eligible_tiers t = pre ++ t' :: post /\ forall t2, t2 ∈ pre -> barren c mc s t2) /\
      forall x, x ∈ l <-> good c mc s t' x
  end.

Lemma barren_good c mc s t : barren c mc s t <-> forall x, ¬ good c mc s t x.
Proof.
  unfold barren, good. split; intros H x.
  - intros [Hx He]. rewrite H in He by done. done.
  - intros Hx. destruct (eligible c mc s x) eqn:E; [|done]. by destruct (H x).
Qed.

Lemma gather_spec c t mc cross ex s :
  candidates_spec c mc s t cross ex (gather p r e quarantined health_checker model_costs c t mc cross ex s).2 /\
  custom_chains (sr_base (gather p r e quarantined health_checker model_costs c t mc cross ex s).1)
  = custom_chains (sr_base s).
Proof.
  unfold gather. pose proof (find_none c mc t s) as Hn.
  pose proof (find_candidates_spec c mc (chain_of t s) s) as (H1 & _ & H3 & _).
  unfold SmartRouter.find_candidates_in_tier in *. fold (chain_of t s) in *.
  destruct (find_candidates c mc (chain_of t s) s) as [s1 found]. cbn [fst snd] in *.
  assert (forall x, x ∈ filter (fun x => x ∉ ex) found <-> good c mc s t x /\ x ∉ ex) as Hk.
  { intros x. rewrite list_elem_of_filter, H1. unfold good. tauto. }
  set (kept := filter _ found) in *. destruct (negb _ && _) eqn:E.
  - apply andb_true_iff in E as [E1 E2]. apply negb_true_iff, bool_decide_eq_false in E1. apply bool_decide_eq_true in E2.
    cbn. split; [|done]. split.
    + destruct found as [|x l]; [done|]. exists x. apply H1. left.
    + intros x Hx. destruct (decide (x ∈ ex)) as [|Hnx]; [done|].
      pose proof (proj2 (Hk x) (conj Hx Hnx)) as Hin. rewrite E2 in Hin. by apply elem_of_nil in Hin.
  - destruct kept as [|x l]; [|by split].
    assert (found = []) as Hf.
    { destruct found as [|y l]; [done|]. rewrite bool_decide_eq_false_2 in E by done. done. }
    destruct (Hn Hf) as (Hb & Hel & Hc).
    assert (forall t', barren c mc s1 t' <-> barren c mc s t') as Hbar.
    { intros t'. unfold barren. rewrite (chain_of_custom t' s s1 Hc). by setoid_rewrite Hel. }
    destruct cross; [|by split].
    pose proof (search_tiers_spec c mc (eligible_tiers t) s1) as [Hs Hsc]. unfold cross_tier_search.
    destruct (search_tiers _ _ _ _ _ _ _ _ _ s1) as [s2 [[l2 t2]|]]; cbn [fst snd] in *; (split; [|by rewrite Hsc]).
    + destruct Hs as (pre & post & Hpp & Hpre & Hl & Hx). destruct l2 as [|y l2]; [done|]. cbn. split; [done|]. split; [done|].
      split; [exists pre, post; split; [done|]; intros t3 Ht3; by apply Hbar, Hpre|].
      intros z. rewrite Hx. unfold good. by rewrite (chain_of_custom t2 s s1 Hc), Hel.
    + split; [done|]. split; [done|]. split; [done|]. intros _ t' Ht'. by apply Hbar, Hs.
Qed.

Lemma best_spec c s x rest :
  best c s x rest ∈ x :: rest /\
  forall y, y ∈ x :: rest -> (score c (stats_of c y s) <= score c (stats_of c (best c s x rest) s))%Q.
Proof.
  revert x. induction rest as [|z rest IH]; intros x; simpl.
  { split; [by left|]. intros y ->%list_elem_of_singleton. lra. }
  destruct (Qle_bool _ _) eqn:E.
  - apply Qle_bool_iff in E. destruct (IH x) as [H1 H2]. split; [set_solver|].
    intros y. rewrite !elem_of_cons. intros [->|[->|Hy]].
    + apply H2. left.
    + eapply Qle_trans; [exact E|]. apply H2. left.
    + apply H2. by right.
  - apply Qle_bool_false in E. destruct (IH z) as [H1 H2]. split; [set_solver|].
    intros y. rewrite !elem_of_cons. intros [->|[->|Hy]].
    + eapply Qle_trans; [apply Qlt_le_weak, E|]. apply H2. left.
    + apply H2. left.
    + apply H2. by right.
Qed.

(** C6. A selected model passes every check (not quarantined, available, within
    the cost ceiling, circuit not open, not cooling down, within the cost limit).
    It comes from the requested tier unless no model of that tier passes, and then
    from the nearest tier that has one, lower before higher, and the selection is
    recorded as degraded.  An environment pin that passes always wins its own
    tier; otherwise no other candidate scores better.  [None] without a degraded
    search means that every passing model was excluded or none passes, and the
    error that every tier is exhausted. *)
Theorem selection_correct c t prefer_healthy mc cross ex s :
  let '(s', o) := get_model_for_tier c t prefer_healthy mc cross ex s in
  match o with
  | Ok (Some x) => exists t' degraded,
      sr_last_selection s' = Some (mkSelection x t t' degraded) /\ good c mc s t' x /\
      (if degraded then cross = true /\ t' ≠ t /\ barren c mc s t /\
         exists pre post, eligible_tiers t = pre ++ t' :: post /\ forall t2, t2 ∈ pre -> barren c mc s t2
       else t' = t /\ x ∉ ex) /\
      (forall q, degraded = false -> custom_chains (sr_base s) !! t = None -> env_tier_pin e t = Some q ->
         good c mc s t q -> q ∉ ex -> x = q) /\
      (prefer_healthy = true -> env_tier_pin e t ≠ Some x ->
         forall y, good c mc s t' y -> (degraded = false -> y ∉ ex) ->
           (score c (stats_of c y s') <= score c (stats_of c x s'))%Q)
  | Ok None => sr_last_selection s' = None /\
      (((exists x, good c mc s t x) /\ forall x, good c mc s t x -> x ∈ ex) \/
       (barren c mc s t /\ (cross = true -> AGENTIC_NO_LLM e ≠ "" /\ forall t', t' ∈ eligible_tiers t -> barren c mc s t')))
  | Raise x => x = no_provider /\ cross = true /\ barren c mc s t /\ forall t', t' ∈ eligible_tiers t -> barren c mc s t'
  end.
Proof.
  unfold SmartRouter.get_model_for_tier.
  pose proof (gather_spec c t mc cross ex s) as [Hg Hc].
  destruct (gather _ _ _ _ _ _ _ _ _ _ _ s) as [s1 [[[[|x rest] t'] d]|]]; cbn [fst snd] in *.
  - destruct Hg as (-> & -> & Hb & Hall). destruct cross; simpl; [|split; [done|]; right; by split].
    case_bool_decide; [split; [done|]; split; [done|]; split; [done|]; by apply Hall|].
    split; [done|]. right. split; [done|]. intros _. split; [done|by apply Hall].
  - rewrite Hc. set (pinned := if _ || _ then None else _).
    set (sel := match pinned with Some q => _ | None => _ end).
    assert (sel ∈ x :: rest /\ (forall q, pinned = Some q -> q ∈ x :: rest -> sel = q) /\
      (prefer_healthy = true -> pinned ≠ Some sel -> sel = best c s1 x rest)) as (Hin & Hpin & Hbest).
    { assert ((if prefer_healthy then best c s1 x rest else x) ∈ x :: rest) as Hd.
      { destruct prefer_healthy; [apply best_spec|left]. }
      unfold sel. destruct pinned as [q|]; [case_decide|]; split; try done; split; try done.
      - by intros q' [= ->].
      - by intros q' [= ->].
      - by intros -> _.
      - by intros -> _. }
    assert (forall y, y ∈ x :: rest -> prefer_healthy = true -> pinned ≠ Some sel ->
      (score c (stats_of c y (set_last_selection (mkSelection sel t t' d) s1))
       <= score c (stats_of c sel (set_last_selection (mkSelection sel t t' d) s1)))%Q) as Hscore.
    { intros y Hy Hph Hnp. rewrite (Hbest Hph Hnp). by apply (best_spec c s1 x rest). }
    clearbody sel. exists t', d. split; [done|]. unfold candidates_spec in Hg. destruct d.
    + destruct Hg as (Hcr & Hb & (pre & post & Hpp & Hpre) & Hl). split; [by apply Hl|]. split; [|split].
      * split; [done|]. split; [|split; [done|by exists pre, post]].
        apply eligible_tiers_other. rewrite Hpp. set_solver.
      * done.
      * intros Hph Hnp y Hy _. apply Hscore; [by apply Hl|done|]. unfold pinned. done.
    + destruct Hg as (-> & Hl). apply Hl in Hin as [Hgood Hnx]. split; [done|]. split; [done|]. split.
      * intros q _ Hcust Hq Hgq Hqx. apply Hpin; [|by apply Hl]. unfold pinned.
        rewrite bool_decide_eq_false_2; [done|]. rewrite Hcust. by intros [? ?].
      * intros Hph Hnp y Hy Hyx. apply Hscore; [by apply Hl; auto|done|]. unfold pinned.
        by destruct (_ || _).
  - split; [done|]. by left.
Qed.

(** ** Cooldowns *)

Definition cooldowns_ok : Prop :=
  (1 <= consecutive_failure_multiplier cfg)%Q /\ 0 < max_cooldown_seconds cfg /\
  Forall (fun b => 0 < b <= max_cooldown_seconds cfg)
    [base_failure_cooldown_seconds cfg; base_rate_limit_cooldown_seconds cfg; base_timeout_cooldown_seconds cfg].

Definition base_of (error_type : string) : Z :=
  if decide (error_type = "rate_limit") then base_rate_limit_cooldown_seconds cfg
  else if decide (error_type = "timeout") then base_timeout_cooldown_seconds cfg
  else base_failure_cooldown_seconds cfg.

Lemma Qpower_mono_exp q a b : (1 <= q)%Q -> 0 <= a <= b -> (1 <= Qpower q a)%Q /\ (Qpower q a <= Qpower q b)%Q.
Proof.
  intros Hq Hab. assert (forall n, 0 <= n -> (1 <= Qpower q n)%Q) as H1.
  { apply natlike_ind; [simpl; lra|]. intros n Hn IH. unfold Z.succ. rewrite Qpower_plus by lra.
    assert (Qpower q 1 == q)%Q as -> by reflexivity. revert IH. generalize (Qpower q n). intros x Hx. nra. }
  split; [apply H1; lia|]. replace b with (a + (b - a)) by lia. rewrite Qpower_plus by lra.
  pose proof (H1 a ltac:(lia)) as G1. pose proof (H1 (b - a) ltac:(lia)) as G2. revert G1 G2.
  generalize (Qpower q a), (Qpower q (b - a)). intros x y Hx Hy. nra.
Qed.

Lemma trunc_scale b q q' : 0 < b -> (1 <= q)%Q -> (q <= q')%Q ->
  b <= trunc (inject_Z b * q) <= trunc (inject_Z b * q').
Proof.
  intros Hb Hq Hqq. assert (0 < inject_Z b)%Q by (change 0%Q with (inject_Z 0); by rewrite <- Zlt_Qlt).
  assert (inject_Z b * 1 <= inject_Z b * q)%Q by (rewrite Qmult_comm, (Qmult_comm _ q); apply Qmult_le_compat_r; lra).
  assert (inject_Z b * q <= inject_Z b * q')%Q by (rewrite Qmult_comm, (Qmult_comm _ q'); apply Qmult_le_compat_r; lra).
  rewrite !trunc_floor by lra. split; [|by apply Qfloor_resp_le].
  rewrite <- (Qfloor_Z b) at 1. apply Qfloor_resp_le. lra.
Qed.

(** The adaptive cooldown is at least its error type's base and never more
    than the maximum, grows with the number of consecutive failures, and stops
    growing after five. *)
Theorem cooldown_adaptive m m' error_type :
  cooldowns_ok -> 0 <= consecutive_failures m <= consecutive_failures m' ->
  base_of error_type <= calculate_cooldown cfg m error_type <= max_cooldown_seconds cfg /\
  calculate_cooldown cfg m error_type <= calculate_cooldown cfg m' error_type /\
  (5 <= consecutive_failures m -> calculate_cooldown cfg m error_type = calculate_cooldown cfg m' error_type).
Proof.
  intros (Hm & Hmax & Hb) Hf. unfold calculate_cooldown. fold (base_of error_type).
  assert (0 < base_of error_type <= max_cooldown_seconds cfg) as Hbase.
  { rewrite !Forall_cons in Hb. destruct Hb as (H1 & H2 & H3 & _). unfold base_of. by repeat case_decide. }
  destruct (Qpower_mono_exp _ (Z.min (consecutive_failures m) 5) (Z.min (consecutive_failures m') 5) Hm ltac:(lia)) as [G1 G2].
  destruct (trunc_scale (base_of error_type) _ _ (proj1 Hbase) G1 G2) as [G3 G4].
  split; [lia|]. split; [lia|]. intros H5. rewrite !(Z.min_r _ 5) by lia. done.
Qed.

(** ** Error classification *)

#[local] Abbreviation classify := (classify_and_record_error p cfg parsedate fromiso gone_status).

Inductive Verdict := VPermanent | VRateLimit | VTimeout | VTransient.

Definition verdict (err : ProviderError) : Verdict :=
  let by_message :=
    if decide ((classify_error gone_status (lower (pe_text err))).1 = RATE_LIMITED) then VRateLimit
    else if contains (lower (pe_text err)) "timeout" then VTimeout else VTransient in
  match pe_status err with
  | Some n => if decide (n ∈ PERMANENT_HTTP_STATUS) then VPermanent
              else if decide (n = 429) then VRateLimit else if decide (n = 408) then VTimeout else by_message
  | None => by_message
  end.

Lemma record_failure_counts u mo m :
  failure_count (record_failure p u mo m) = failure_count m + 1 /\
  rate_limit_count (record_failure p u mo m) = rate_limit_count m /\
  timeout_count (record_failure p u mo m) = timeout_count m.
Proof.
  unfold record_failure. destruct (decide _); [done|].
  destruct (failure_threshold p <=? consecutive_failures m + 1)%Z; done.
Qed.

(** What recording an error of class [v] did to the router [s]. *)
Definition recorded c model s o (v : Verdict) : Prop :=
  failure_count (stats_of c model o) = failure_count (stats_of c model s) + 1 /\
  rate_limit_count (stats_of c model o) = rate_limit_count (stats_of c model s) + (match v with VRateLimit => 1 | _ => 0 end) /\
  timeout_count (stats_of c model o) = timeout_count (stats_of c model s) + (match v with VTimeout => 1 | _ => 0 end) /\
  sr_base o = (match v with VPermanent => mark_unavailable model (sr_base s) | _ => sr_base s end) /\
  (forall x, x ≠ model -> sr_stats o !! x = sr_stats s !! x).

Lemma recorded_put c model s o v m :
  sr_stats o = <[model := m]> (sr_stats s) ->
  sr_base o = (match v with VPermanent => mark_unavailable model (sr_base s) | _ => sr_base s end) ->
  failure_count m = failure_count (stats_of c model s) + 1 ->
  rate_limit_count m = rate_limit_count (stats_of c model s) + (match v with VRateLimit => 1 | _ => 0 end) ->
  timeout_count m = timeout_count (stats_of c model s) + (match v with VTimeout => 1 | _ => 0 end) -> recorded c model s o v.
Proof.
  intros Ho Hb H1 H2 H3. unfold recorded. unfold stats_of at 1 3 5. rewrite Ho, lookup_insert_eq. simpl.
  split; [done|]. split; [done|]. split; [done|]. split; [done|]. intros x Hx. by rewrite lookup_insert_ne.
Qed.

Lemma recorded_failure c model s ty (permanent : bool) :
  recorded c model s (router_record_failure p cfg c model ty permanent s) (if permanent then VPermanent else VTransient).
Proof.
  destruct (record_failure_counts (utc c) (mono c) (stats_of c model s)) as (?&?&?).
  destruct permanent; (eapply recorded_put; [reflexivity|reflexivity|..]); cbn; lia.
Qed.

Lemma recorded_timeout c model s : recorded c model s (router_record_timeout p cfg c model s) VTimeout.
Proof.
  destruct (record_failure_counts (utc c) (mono c) (bump 0 1 (stats_of c model s))) as (?&?&?).
  eapply recorded_put; [reflexivity|reflexivity|..]; cbn; unfold record_timeout; cbn in *; lia.
Qed.

Lemma recorded_rate_limit c jitter model headers s :
  recorded c model s (router_record_rate_limit p parsedate fromiso c jitter model headers s) VRateLimit.
Proof.
  unfold router_record_rate_limit. destruct (get_cooldown_seconds _ _ _ _ _ _ _ _ _) as [l cd].
  destruct (record_failure_counts (utc c) (mono c) (bump 1 0 (stats_of c model s))) as (?&?&?).
  change (stats_of c model (set_limits l s)) with (stats_of c model s).
  eapply recorded_put; [reflexivity|reflexivity|..]; cbn in *; lia.
Qed.

(** Recording depends on the statistics and the base router only. *)
Lemma recorded_from c model s0 s o v : sr_stats s0 = sr_stats s -> sr_base s0 = sr_base s ->
  recorded c model s0 o v -> recorded c model s o v.
Proof. intros E1 E2. unfold recorded, stats_of. by rewrite E1, E2. Qed.

(** The HTTP status is authoritative: an error counts as one failure of
    the model, and as a rate limit or a timeout by its status, falling back to
    the message only for other statuses; the model becomes unavailable exactly
    on a permanent status (401, 403, 404, 410), never because of its message;
    and no other model is touched. *)
Theorem errors_classified c jitter model err s :
  let s' := classify c jitter model err s in
  let m := stats_of c model s in
  let m' := stats_of c model s' in
  failure_count m' = failure_count m + 1 /\
  rate_limit_count m' = rate_limit_count m + (match verdict err with VRateLimit => 1 | _ => 0 end) /\
  timeout_count m' = timeout_count m + (match verdict err with VTimeout => 1 | _ => 0 end) /\
  sr_base s' = (match verdict err with VPermanent => mark_unavailable model (sr_base s) | _ => sr_base s end) /\
  (forall x, x ≠ model -> sr_stats s' !! x = sr_stats s !! x).
Proof.
  cbn zeta. change (recorded c model s (classify c jitter model err s) (verdict err)). unfold classify_and_record_error.
  set (s0 := match pe_headers err with Some h => _ | None => s end).
  apply (recorded_from c model s0); [unfold s0; by destruct (pe_headers err)..|]. clearbody s0.
  pose proof (recorded_failure c model s0 "permanent" true) as Hperm. pose proof (fun ty => recorded_failure c model s0 ty false) as Htrans.
  pose proof (recorded_timeout c model s0) as Htime. pose proof (recorded_rate_limit c jitter model (pe_headers err) s0) as Hrate.
  unfold verdict. cbv zeta. destruct (pe_status err); repeat case_decide; try done; by destruct (contains _ _).
Qed.

(** ** The fallback loops *)

Section loops.
Context {A W : Type} (call : string -> SmartRouter * W -> SmartRouter * W * CallResult A)
  (clock : W -> Clock) (latency : W -> W -> Q) (jitter : W -> Q) (draw : W -> nat)
  (ready : string -> SmartRouter * W -> bool)
  (pre_attempt : string -> SmartRouter * W -> option exn)
  (on_error : string -> ProviderError -> SmartRouter * W -> SmartRouter * W).

#[local] Abbreviation call_loop := (call_loop p cfg r e quarantined health_checker model_costs parsedate fromiso gone_status
  call clock latency jitter draw ready).
#[local] Abbreviation run_loop := (run_loop_with_fallback p r e quarantined health_checker model_costs call clock pre_attempt on_error).

(** A model handed out by the router in some state of the run. *)
Definition handed_out t (x : string) : Prop :=
  exists c ex s, (get_model_for_tier c t true None true ex s).2 = Ok (Some x).

Definition loop_post (n : nat) t (tried0 tried : list string) (s' : SmartRouter) (o : LoopEnd (A := A)) : Prop :=
  exists news, tried = tried0 ++ news /\ NoDup tried /\ (length news <= n)%nat /\
    (forall x, x ∈ news -> handed_out t x) /\
    match o with
    | Returned model _ => last news = Some model /\ model ∈ available_models (sr_base s') /\
        exists m, sr_stats s' !! model = Some m /\ consecutive_failures m = 0
    | AllFailed l _ => l = tried
    | _ => True
    end.

Lemma loop_post_more n t tried0 tried x s' o :
  loop_post n t (tried0 ++ [x]) tried s' o -> handed_out t x -> loop_post (S n) t tried0 tried s' o.
Proof.
  intros (news & -> & Hnd & Hlen & Hh & Ho) Hx. exists (x :: news). rewrite <- app_assoc in *. simpl in *.
  split; [done|]. split; [done|]. split; [lia|]. split; [intros y [->|Hy]%elem_of_cons; auto|].
  destruct o; try done. destruct Ho as [Hl ?]. split; [|done]. by destruct news.
Qed.

Lemma loop_post_end n t tried s' o :
  NoDup tried -> (forall m a, o ≠ Returned m a) -> (forall l err, o = AllFailed l err -> l = tried) ->
  loop_post n t tried tried s' o.
Proof.
  intros Hnd Hr Hf. exists []. rewrite app_nil_r. split; [done|]. split; [done|]. split; [simpl; lia|].
  split; [by intros x ?%elem_of_nil|]. destruct o as [m a| | | |l err]; try done; [by destruct (Hr m a)|by eapply Hf].
Qed.

(** [call_with_fallback] never tries a model twice, makes at most
    [max_retries] attempts, and only on models the router handed out for the
    tier; a returned answer comes from the last model tried, which is then
    available with its failure count reset; when no attempt answers, the error
    lists exactly the models tried. *)
Theorem fallback_call_correct n t sw :
  let '(s', w', tried, o) := call_with_fallback p cfg r e quarantined health_checker model_costs parsedate fromiso gone_status
    call clock latency jitter draw ready n t sw in
  loop_post n t [] tried s' o.
Proof.
  unfold call_with_fallback.
  assert (forall tried0 le, NoDup tried0 -> let '(s', w', tried, o) := call_loop n t tried0 le sw in
    loop_post n t tried0 tried s' o) as H; [|by apply H; constructor].
  revert sw. induction n as [|n IH]; intros [s w] tried0 le Hnd; simpl.
  { apply loop_post_end; [done|done|by intros l err [= <- _]]. }
  destruct (get_model_for_tier (clock w) t true None true tried0 s) as [s1 [[x|]|ex]] eqn:Hget.
  2: { apply loop_post_end; [done|done|by intros l err [= <- _]]. }
  2: { by apply loop_post_end. }
  case_decide as Hin; [apply loop_post_end; [done|done|by intros l err [= <- _]]|].
  assert (handed_out t x) as Hx by (exists (clock w), tried0, s; by rewrite Hget).
  assert (NoDup (tried0 ++ [x])) as Hnd'.
  { apply NoDup_app. split; [done|]. split; [|apply NoDup_singleton]. intros y Hy ->%list_elem_of_singleton. done. }
  set (s2 := put_stats x _ s1). destruct (ready x (s2, w)); cbn [negb].
  - destruct (call x (s2, w)) as [[s3 w3] [a| | |err]].
    + exists [x]. split; [done|]. split; [done|]. split; [simpl; lia|].
      split; [by intros y ->%list_elem_of_singleton|]. split; [done|]. unfold router_record_success. cbn.
      split; [set_solver|]. eexists. split; [apply lookup_insert_eq|]. unfold record_success.
      destruct (decide _); [|done]. by destruct (half_open_success_required p <=? _)%Z.
    + eapply loop_post_more; [by apply loop_post_end|done].
    + specialize (IH (s3, w3) (tried0 ++ [x]) le Hnd').
      destruct (call_loop n t (tried0 ++ [x]) le (s3, w3)) as [[[s' w'] tried] o]. by eapply loop_post_more.
    + specialize (IH (classify (clock w3) (jitter w3) x err s3, w3) (tried0 ++ [x]) (Some err) Hnd').
      destruct (call_loop n t (tried0 ++ [x]) (Some err) _) as [[[s' w'] tried] o]. by eapply loop_post_more.
  - specialize (IH (s2, w) (tried0 ++ [x]) le Hnd').
    destruct (call_loop n t (tried0 ++ [x]) le (s2, w)) as [[[s' w'] tried] o]. by eapply loop_post_more.
Qed.

(** What a model of this loop is: the forced one, or one the router handed out. *)
Definition chosen (model : option string) t (x : string) : Prop :=
  match model with Some (String _ _ as m) => x = m | _ => handed_out t x end.

Definition run_post (n : nat) model t (tried0 tried : list string) (o : LoopEnd (A := A)) : Prop :=
  exists news, tried = tried0 ++ news /\ NoDup tried /\ (length news <= n)%nat /\
    (forall m a, o = Returned m a -> last tried = Some m) /\ (forall x, x ∈ news -> chosen model t x).

(** The loop ends, its last model being the one that answered, if any did. *)
Lemma run_post_end n model t tried (o : LoopEnd (A := A)) : NoDup tried ->
  (forall m a, o = Returned m a -> last tried = Some m) -> run_post n model t tried tried o.
Proof. intros Hnd Ho. exists []. rewrite app_nil_r. split; [done|]. split; [done|]. split; [simpl; lia|]. split; [done|by intros x ?%elem_of_nil]. Qed.

Lemma run_post_more n model t tried0 x tried (o : LoopEnd (A := A)) :
  chosen model t x -> run_post n model t (tried0 ++ [x]) tried o -> run_post (S n) model t tried0 tried o.
Proof.
  intros Hx (news & -> & H1 & H2 & H3 & H4). exists (x :: news). rewrite <- app_assoc in H1 |- *. rewrite <- app_assoc in H3.
  split; [done|]. split; [exact H1|]. split; [simpl; lia|]. split; [exact H3|].
  intros y Hy. apply elem_of_cons in Hy as [->|Hy]; [exact Hx|exact (H4 y Hy)].
Qed.

Lemma run_loop_post n model t tried0 le sw : NoDup tried0 ->
  let '(sw', tried, o) := run_loop n model t tried0 le sw in run_post n model t tried0 tried o.
Proof.
  revert sw tried0 le. induction n as [|n IH]; intros sw tried0 le Hnd; simpl.
  { apply run_post_end; [done|by destruct le]. }
  destruct (select_model _ _ _ _ _ _ _ _ _ _ _) as [s1 [[x|]|ex]] eqn:Hsel.
  2, 3: apply run_post_end; [done|by destruct le].
  case_decide as Hin; [apply run_post_end; [done|by destruct le]|].
  assert (chosen model t x) as Hx.
  { unfold select_model in Hsel. unfold chosen. destruct model as [[|a m]|]; [|by injection Hsel as _ ->|];
      exists (clock sw.2), tried0, sw.1; by rewrite Hsel. }
  assert (NoDup (tried0 ++ [x])) as Hnd'.
  { apply NoDup_app. split; [done|]. split; [|apply NoDup_singleton]. intros y Hy ->%list_elem_of_singleton. done. }
  assert (forall o, (forall m a, o = Returned (A := A) m a -> m = x) -> run_post (S n) model t tried0 (tried0 ++ [x]) o) as Hend.
  { intros o Ho. apply (run_post_more _ _ _ _ x); [done|]. apply run_post_end; [done|]. intros m a Hr. rewrite last_snoc. by rewrite (Ho m a Hr). }
  destruct (pre_attempt x _); [by apply Hend|]. destruct (call x (s1, sw.2)) as [sw' [a| | |err]].
  - apply Hend. by intros m a' [= <- _].
  - by apply Hend.
  - specialize (IH sw' (tried0 ++ [x]) le Hnd'). destruct (run_loop n model t _ _ _) as [[sw2 tried] o]. by eapply run_post_more.
  - specialize (IH (on_error x err sw') (tried0 ++ [x]) (Some err) Hnd').
    destruct (run_loop n model t _ _ _) as [[sw2 tried] o]. by eapply run_post_more.
Qed.

(** [run_with_fallback] tries at most [max_retries] distinct models; a
    forced model is tried at most once, only when it is within the cost ceiling,
    and never replaced by another; without one every model tried was handed out
    by the router for the tier. *)
Theorem run_with_fallback_distinct n model t sw :
  let '(sw', tried, o) := run_with_fallback p r e quarantined health_checker model_costs call clock pre_attempt on_error n model t sw in
  NoDup tried /\ (length tried <= n)%nat /\
  (forall m a, o = Returned m a -> last tried = Some m) /\
  (forall x, x ∈ tried -> match model with
                          | Some (String _ _ as m) => x = m /\ within_ceiling r e m = true
                          | _ => handed_out t x end).
Proof.
  pose proof (run_loop_post n model t [] None sw ltac:(constructor)) as H. unfold run_with_fallback.
  destruct model as [m|].
  - unfold enforce_cost_lane_ceiling. simpl default. pose proof (within_ceiling_spec r e m) as Hw.
    destruct (bool_decide (max_cost_lane_ceiling e ≠ Paid) && negb (is_within_cost_lane r e m (max_cost_lane_ceiling e))) eqn:E.
    + split; [constructor|]. split; [simpl; lia|]. split; [done|by intros x ?%elem_of_nil].
    + destruct (run_loop n (Some m) t [] None sw) as [[sw' tried] o]. destruct H as (news & -> & H1 & H2 & H3 & H4).
      split; [done|]. split; [done|]. split; [done|]. intros x Hx. specialize (H4 x Hx). destruct m as [|a m]; [done|].
      split; [done|]. rewrite Hw. apply andb_false_iff in E as [E|E]; [|by apply negb_false_iff].
      apply bool_decide_eq_false, dec_stable in E. by rewrite E, within_paid.
  - destruct (run_loop n None t [] None sw) as [[sw' tried] o]. destruct H as (news & -> & H1 & H2 & H3 & H4).
    split; [done|]. split; [done|]. split; [done|]. exact H4.
Qed.
End loops.
End facts.

(** ** Witness *)

Lemma cooldown_adaptive_witness :
  let m := record_failure default_policy 10 10 (new_stats "gh:gpt-4o" 0) in
  let m' := record_failure default_policy 20 20 m in
  cooldowns_ok default_cooldowns /\ 0 <= consecutive_failures m <= consecutive_failures m' /\
  calculate_cooldown default_cooldowns m "timeout" = 90 /\ calculate_cooldown default_cooldowns m' "timeout" = 135 /\
  60 <= calculate_cooldown default_cooldowns m "timeout" <= 600.
Proof.
  assert (cooldowns_ok default_cooldowns) as Hok.
  { split; [cbv [default_cooldowns consecutive_failure_multiplier]; lra|]. split; [done|]. by repeat (apply Forall_cons; split; [cbn; lia|]). }
  set (m := record_failure default_policy 10 10 (new_stats "gh:gpt-4o" 0)).
  assert (0 <= consecutive_failures m <= consecutive_failures (record_failure default_policy 20 20 m)) as Hf
    by (by split; apply Z.leb_le; vm_compute).
  split; [exact Hok|]. split; [exact Hf|]. split; [by vm_compute|]. split; [by vm_compute|].
  exact (proj1 (cooldown_adaptive default_cooldowns m _ "timeout" Hok Hf)).
Defined.
