(* ===== verification/Bulkhead.v ===== *)
(** * Bulkheads and half-open probes (models/smart_router.py)

    [execute_with_bulkhead] as an interleaving of the coroutines that call a
    provider: a semaphore and a probe lock per provider, the circuit state and
    the in-progress flag per model.  [asyncio.Semaphore] and [asyncio.Lock] are
    modelled with their queues; a step is what a coroutine does between two
    suspension points. *)

From Stdlib Require Import QArith.
From S2P Require Import Prelude PyStr Retry ModelStats RateLimit Registry Router SmartRouter.

(** ** asyncio.Semaphore

    A waiter is a coroutine and whether its future has been set, which hands it
    a slot before it runs again. *)

Record Sem := mkSem { sem_value : nat; sem_waiters : list (nat * bool) }.

Definition sem_locked (s : Sem) : bool :=
  bool_decide (sem_value s = 0) || negb (bool_decide (sem_waiters s = [])).

Fixpoint set_first (l : list (nat * bool)) : option (list (nat * bool)) :=
  match l with
  | [] => None
  | (t, true) :: l' => cons (t, true) <$> set_first l'
  | (t, false) :: l' => Some ((t, true) :: l')
  end.

Definition wake_up_next (s : Sem) : Sem :=
  match set_first (sem_waiters s) with
  | Some l => mkSem (pred (sem_value s)) l
  | None => s
  end.

Definition sem_release (s : Sem) : Sem := wake_up_next (mkSem (S (sem_value s)) (sem_waiters s)).

(** The first part of [acquire]: whether the slot was free. *)
Definition sem_acquire (t : nat) (s : Sem) : Sem * bool :=
  if sem_locked s then (mkSem (sem_value s) (sem_waiters s ++ [(t, false)]), false)
  else (mkSem (pred (sem_value s)) (sem_waiters s), true).

Definition sem_remove (t : nat) (s : Sem) : Sem :=
  mkSem (sem_value s) (filter (fun w => w.1 ≠ t) (sem_waiters s)).

(** The rest of [acquire], once the future is set. *)
Definition sem_resume (t : nat) (s : Sem) : Sem :=
  let s := sem_remove t s in if decide (0 < sem_value s) then wake_up_next s else s.

(** The rest of [acquire] for a waiter that was cancelled: a slot already
    handed over is passed on. *)
Definition sem_abandon (t : nat) (s : Sem) : Sem :=
  if decide ((t, true) ∈ sem_waiters s) then sem_release (sem_remove t s) else sem_remove t s.

(** ** The coroutines *)

Inductive CallPhase := Queued | Running | Probing.

#[export] Instance CallPhase_eq_dec : EqDecision CallPhase.
Proof. solve_decision. Defined.

Record Call := mkCall { call_model : string; call_phase : CallPhase }.

Record Bulkhead := mkBulkhead {
  bk_router : SmartRouter;
  bk_sems : gmap string Sem;
  bk_locks : gmap string bool;
  bk_calls : gmap nat Call;
}.

Definition bulkhead_limits : odict nat :=
  [("ollama", 10); ("openai", 50); ("anthropic", 50); ("gemini", 50); ("gh", 30); ("azure", 50)].
Definition bulkhead_limit (provider : string) : nat := default 20 (od_get provider bulkhead_limits).

Definition new_bulkhead (s : SmartRouter) : Bulkhead := mkBulkhead s ∅ ∅ ∅.

Definition get_semaphore (provider : string) (b : Bulkhead) : Sem :=
  default (mkSem (bulkhead_limit provider) []) (bk_sems b !! provider).
Definition get_probe_lock (provider : string) (b : Bulkhead) : bool := default false (bk_locks b !! provider).

Definition on_semaphore (provider : string) (f : Sem -> Sem) (b : Bulkhead) : Bulkhead :=
  mkBulkhead (bk_router b) (<[provider := f (get_semaphore provider b)]> (bk_sems b)) (bk_locks b) (bk_calls b).
Definition set_probe_lock (provider : string) (held : bool) (b : Bulkhead) : Bulkhead :=
  mkBulkhead (bk_router b) (bk_sems b) (<[provider := held]> (bk_locks b)) (bk_calls b).
Definition set_router (s : SmartRouter) (b : Bulkhead) : Bulkhead :=
  mkBulkhead s (bk_sems b) (bk_locks b) (bk_calls b).
Definition set_call (t : nat) (c : Call) (b : Bulkhead) : Bulkhead :=
  mkBulkhead (bk_router b) (bk_sems b) (bk_locks b) (<[t := c]> (bk_calls b)).
Definition end_call (t : nat) (b : Bulkhead) : Bulkhead :=
  mkBulkhead (bk_router b) (bk_sems b) (bk_locks b) (delete t (bk_calls b)).

Section bulkhead.
Context (c : Clock).

Definition put_probe (model : string) (v : bool) (b : Bulkhead) : Bulkhead :=
  set_router (put_stats model (set_probe v (stats_of c model (bk_router b))) (bk_router b)) b.

Definition half_open (model : string) (b : Bulkhead) : bool :=
  bool_decide (circuit_state (stats_of c model (bk_router b)) = HALF_OPEN).

(** How a coroutine leaves the part that a step covers. *)
Inductive Entry := Entered | Suspended | Resolved.

(** Leaving [async with semaphore]. *)
Definition leave_semaphore (t : nat) (model : string) (b : Bulkhead) : Bulkhead :=
  end_call t (on_semaphore (extract_provider model) sem_release b).

(** Inside [async with semaphore], up to the body.  An uncontested
    [Lock.acquire] does not suspend. *)
Definition begin_call (t : nat) (model : string) (b : Bulkhead) : Bulkhead * Entry :=
  let provider := extract_provider model in
  if half_open model b then
    if get_probe_lock provider b then (leave_semaphore t model b, Resolved)
    else
      let b := set_probe_lock provider true b in
      if negb (half_open model b)
      then (leave_semaphore t model (set_probe_lock provider false b), Resolved)
      else (set_call t (mkCall model Probing) (put_probe model true b), Entered)
  else (set_call t (mkCall model Running) b, Entered).

Definition bulk_enter (t : nat) (model : string) (b : Bulkhead) : Bulkhead * Entry :=
  let provider := extract_provider model in
  let b := set_router (put_stats model (stats_of c model (bk_router b)) (bk_router b)) b in
  let '(s, got) := sem_acquire t (get_semaphore provider b) in
  let b := on_semaphore provider (fun _ => s) b in
  if got then begin_call t model b else (set_call t (mkCall model Queued) b, Suspended).

Definition bulk_resume (t : nat) (model : string) (b : Bulkhead) : Bulkhead * Entry :=
  begin_call t model (on_semaphore (extract_provider model) (sem_resume t) b).

(** A waiting coroutine is cancelled. *)
Definition bulk_abandon (t : nat) (model : string) (b : Bulkhead) : Bulkhead :=
  end_call t (on_semaphore (extract_provider model) (sem_abandon t) b).

(** The body ends: it returned, raised or was cancelled. *)
Definition bulk_leave (t : nat) (k : Call) (b : Bulkhead) : Bulkhead :=
  let model := call_model k in
  let b := match call_phase k with
           | Probing => set_probe_lock (extract_provider model) false (put_probe model false b)
           | _ => b
           end in
  leave_semaphore t model b.

Definition is_model_ready (model : string) (b : Bulkhead) : bool :=
  let provider := extract_provider model in
  negb (half_open model b && get_probe_lock provider b) && negb (sem_locked (get_semaphore provider b)).
End bulkhead.

(** ** The system *)

Section system.
Context (p : Policy) (cfg : CooldownConfig) (r : Registry) (e : Env) (quarantined : gset string)
  (health_checker : option (string -> bool)) (model_costs : string -> option Q)
  (parsedate fromiso : string -> option Q) (gone_status : string -> bool).

(** What the coroutines do to the router between their calls. *)
Inductive router_act (s : SmartRouter) : SmartRouter -> Prop :=
  | act_select c t ph mc ct ex : router_act s
      (get_model_for_tier p r e quarantined health_checker model_costs c t ph mc ct ex s).1
  | act_success c idx model latency_ms : router_act s (router_record_success p c idx model latency_ms s)
  | act_error c jitter model err : router_act s
      (classify_and_record_error p cfg parsedate fromiso gone_status c jitter model err s).

Inductive bulk_step (b : Bulkhead) : Bulkhead -> Prop :=
  | step_enter c t model : bk_calls b !! t = None -> bulk_step b (bulk_enter c t model b).1
  | step_resume c t model : bk_calls b !! t = Some (mkCall model Queued) ->
      (t, true) ∈ sem_waiters (get_semaphore (extract_provider model) b) ->
      bulk_step b (bulk_resume c t model b).1
  | step_abandon t model : bk_calls b !! t = Some (mkCall model Queued) -> bulk_step b (bulk_abandon t model b)
  | step_leave c t k : bk_calls b !! t = Some k -> call_phase k ≠ Queued -> bulk_step b (bulk_leave c t k b)
  | step_router s : router_act (bk_router b) s -> bulk_step b (set_router s b).

Definition bulk_reachable (s : SmartRouter) : Bulkhead -> Prop := rtc bulk_step (new_bulkhead s).
End system.

(** ** Correctness of the bulkhead

    Slots are conserved, at most one probe per provider runs, the flags tell the
    truth, no wake-up is lost; the semaphores and locks implement an abstract
    admission control. *)
Local Open Scope nat_scope.

(** ** The semaphore *)

Fixpoint woken_in (l : list (nat * bool)) : nat :=
  match l with [] => 0 | (_, b) :: l' => (if b then 1 else 0) + woken_in l' end.
Definition woken (s : Sem) : nat := woken_in (sem_waiters s).

Lemma woken_in_app l l' : woken_in (l ++ l') = woken_in l + woken_in l'.
Proof. induction l as [|[t b] l IH]; simpl; [done|]. rewrite IH. lia. Qed.

(** [n] slots are free or handed to a waiter; and while a slot is free and a
    coroutine waits, some waiter has been woken and will pass the slot on. *)
Definition sem_ok (n : nat) (s : Sem) : Prop :=
  sem_value s + woken s = n /\ NoDup (sem_waiters s).*1 /\
  (0 < sem_value s -> forall t, (t, false) ∈ sem_waiters s -> 0 < woken s).

Lemma woken_exists s : 0 < woken s -> exists u, (u, true) ∈ sem_waiters s.
Proof.
  unfold woken. induction (sem_waiters s) as [|[t [|]] l IH]; simpl; [lia|exists t; left|].
  intros H. destruct (IH H) as [u Hu]. exists u. by right.
Qed.

Lemma set_first_spec l :
  match set_first l with
  | Some l' => l'.*1 = l.*1 /\ woken_in l' = S (woken_in l)
  | None => forall t, (t, false) ∉ l
  end.
Proof.
  induction l as [|[t [|]] l IH]; csimpl; [by intros t ?%elem_of_nil| |done].
  destruct (set_first l) as [l'|]; csimpl.
  - destruct IH as [IH H]. split; [by rewrite IH|]. by rewrite H.
  - intros u [[=]|Hu]%elem_of_cons. by apply (IH u).
Qed.

Lemma wake_spec s :
  (wake_up_next s = s /\ forall t, (t, false) ∉ sem_waiters s) \/
  (sem_value (wake_up_next s) = pred (sem_value s) /\ woken (wake_up_next s) = S (woken s) /\
   (sem_waiters (wake_up_next s)).*1 = (sem_waiters s).*1).
Proof.
  unfold wake_up_next, woken. pose proof (set_first_spec (sem_waiters s)) as H.
  destruct (set_first _) as [l'|]; [right|by left]. simpl. by destruct H as [-> ->].
Qed.

Lemma wake_keys s : (sem_waiters (wake_up_next s)).*1 = (sem_waiters s).*1.
Proof. by destruct (wake_spec s) as [[-> _]|(_ & _ & ->)]. Qed.

Lemma release_ok n s : sem_ok n s -> sem_ok (S n) (sem_release s).
Proof.
  intros (Hn & Hnd & Hw). unfold sem_release. set (s1 := mkSem (S (sem_value s)) (sem_waiters s)).
  assert (woken s1 = woken s) as Ew by done.
  destruct (wake_spec s1) as [[-> Hnone]|(E1 & E2 & E3)].
  - split; [unfold s1 at 1; simpl; lia|]. split; [done|]. intros _ t Ht. by apply Hnone in Ht.
  - simpl in *. split; [lia|]. split; [by rewrite E3|]. intros _ t _. lia.
Qed.

Lemma acquire_ok n t s : sem_ok n s ->
  let '(s', got) := sem_acquire t s in
  if got then sem_ok (pred n) s' /\ 0 < n /\ sem_waiters s' = [] /\ sem_waiters s = []
  else t ∉ (sem_waiters s).*1 -> sem_ok n s' /\ (sem_waiters s').*1 = (sem_waiters s).*1 ++ [t].
Proof.
  intros (Hn & Hnd & Hw). unfold sem_acquire, sem_locked.
  destruct (decide (sem_value s = 0)) as [Hv|Hv]; [rewrite bool_decide_eq_true_2 by done; simpl|
    rewrite bool_decide_eq_false_2 by done; destruct (decide (sem_waiters s = [])) as [Hl|Hl];
    [rewrite bool_decide_eq_true_2 by done; simpl|rewrite bool_decide_eq_false_2 by done; simpl]].
  2: { unfold sem_ok, woken in *. rewrite Hl in *. simpl in *. repeat split; [lia|constructor| |lia].
       intros _ u Hu. by apply elem_of_nil in Hu. }
  all: intros Ht; split; [|by rewrite fmap_app]; unfold sem_ok, woken in *; simpl; rewrite woken_in_app, fmap_app;
    simpl; (split; [simpl; lia|]); (split; [apply NoDup_app; split; [done|]; split; [|apply NoDup_singleton];
      by intros x Hx ->%list_elem_of_singleton|]); intros Hpos u _.
  - lia.
  - destruct (sem_waiters s) as [|[u0 [|]] l] eqn:E; [done|simpl; lia|].
    specialize (Hw Hpos u0 (list_elem_of_here _ _)). lia.
Qed.

Lemma filter_fresh t (l : list (nat * bool)) : t ∉ l.*1 -> filter (fun w => w.1 ≠ t) l = l.
Proof.
  induction l as [|[u v] l IH]; csimpl; [done|]. intros Ht. rewrite filter_cons_True by (simpl; set_solver).
  by rewrite IH by set_solver.
Qed.

Lemma remove_woken (t : nat) (b : bool) (s : Sem) : NoDup (sem_waiters s).*1 -> (t, b) ∈ sem_waiters s ->
  woken s = (if b then 1 else 0) + woken (sem_remove t s) /\
  forall w, w ∈ sem_waiters (sem_remove t s) <-> w ∈ sem_waiters s /\ w.1 ≠ t.
Proof.
  intros Hnd Hin. split; [|intros w; unfold sem_remove; simpl; rewrite list_elem_of_filter; tauto].
  unfold woken, sem_remove. simpl. revert Hnd Hin. generalize (sem_waiters s). intros l.
  induction l as [|[u v] l IH]; simpl; [by intros _ ?%elem_of_nil|].
  intros [Hu Hnd]%NoDup_cons Hin. destruct (decide (u = t)) as [->|Hne].
  - apply elem_of_cons in Hin as [[= ->]|Hin]; [|destruct Hu; apply list_elem_of_fmap; by exists (t, b)].
    rewrite filter_cons_False by (simpl; tauto). simpl. f_equal.
    by rewrite filter_fresh.
  - apply elem_of_cons in Hin as [[= -> ->]|Hin]; [done|].
    rewrite filter_cons_True by done. simpl. specialize (IH Hnd Hin). lia.
Qed.

Lemma remove_keys t s : (sem_waiters (sem_remove t s)).*1 = filter (.≠ t) (sem_waiters s).*1.
Proof.
  unfold sem_remove. simpl. induction (sem_waiters s) as [|[u v] l IH]; [done|]. simpl.
  destruct (decide (u = t)) as [->|Hne].
  - rewrite !filter_cons_False by (simpl; tauto). done.
  - rewrite !filter_cons_True by done. simpl. by f_equal.
Qed.

Lemma resume_ok n t s : sem_ok n s -> (t, true) ∈ sem_waiters s -> sem_ok (pred n) (sem_resume t s) /\ 0 < n.
Proof.
  intros (Hn & Hnd & Hw) Hin. destruct (remove_woken t true s Hnd Hin) as [E Hel]. split; [|lia].
  unfold sem_resume. assert (NoDup (sem_waiters (sem_remove t s)).*1) as Hnd'.
  { rewrite remove_keys. by apply NoDup_filter. }
  change (sem_value (sem_remove t s)) with (sem_value s).
  case_decide as Hv.
  - destruct (wake_spec (sem_remove t s)) as [[-> Hnone]|(E1 & E2 & E3)].
    + split; [simpl; lia|]. split; [done|]. intros _ u Hu. by apply Hnone in Hu.
    + simpl in *. split; [lia|]. split; [by rewrite E3|]. lia.
  - split; [simpl; lia|]. split; [done|]. simpl. lia.
Qed.

Lemma resume_keys t s : (sem_waiters (sem_resume t s)).*1 = filter (.≠ t) (sem_waiters s).*1.
Proof. unfold sem_resume. case_decide; rewrite ?wake_keys; apply remove_keys. Qed.

Lemma abandon_ok n t s : sem_ok n s -> t ∈ (sem_waiters s).*1 -> sem_ok n (sem_abandon t s).
Proof.
  intros (Hn & Hnd & Hw) Hin. unfold sem_abandon.
  assert (NoDup (sem_waiters (sem_remove t s)).*1) as Hnd'.
  { rewrite remove_keys. by apply NoDup_filter. }
  case_decide as Ht.
  - destruct (remove_woken t true s Hnd Ht) as [E Hel].
    destruct n as [|n]; [lia|]. unfold sem_release.
    destruct (wake_spec (mkSem (S (sem_value s)) (sem_waiters (sem_remove t s)))) as [[E1 Hnone]|(E1 & E2 & E3)];
      unfold sem_remove at 1 in E1; simpl in *.
    + rewrite E1. split; [unfold woken at 1; simpl; unfold woken in *; simpl in *; lia|]. split; [done|].
      intros _ u Hu. by apply Hnone in Hu.
    + unfold sem_release. simpl.
      change (woken (mkSem (S (sem_value s)) (filter (fun w => w.1 ≠ t) (sem_waiters s)))) with (woken (sem_remove t s)) in E2.
      split; [lia|]. split; [by rewrite E3|]. lia.
  - apply list_elem_of_fmap in Hin as ([u [|]] & -> & Hin); [done|]. simpl in *.
    destruct (remove_woken u false s Hnd Hin) as [E Hel]. split; [simpl; lia|]. split; [done|].
    intros Hv v Hv'. apply Hel in Hv' as [Hv' _]. specialize (Hw Hv v Hv'). lia.
Qed.

Lemma abandon_keys t s : (sem_waiters (sem_abandon t s)).*1 = filter (.≠ t) (sem_waiters s).*1.
Proof. unfold sem_abandon. case_decide; unfold sem_release; rewrite ?wake_keys; apply remove_keys. Qed.

(** ** The invariant *)

Definition in_flight (q : string) (k : Call) : bool :=
  bool_decide (extract_provider (call_model k) = q) && negb (bool_decide (call_phase k = Queued)).
Definition probing (q : string) (k : Call) : bool :=
  bool_decide (extract_provider (call_model k) = q) && bool_decide (call_phase k = Probing).

Lemma in_flight_call q m ph : ph ≠ Queued -> in_flight q (mkCall m ph) = bool_decide (extract_provider m = q).
Proof. intros H. unfold in_flight. simpl. rewrite (bool_decide_eq_false_2 (ph = Queued)) by done. apply andb_true_r. Qed.
Lemma in_flight_queued q m : in_flight q (mkCall m Queued) = false.
Proof. apply andb_false_r. Qed.
Lemma probing_call q m ph : probing q (mkCall m ph) = bool_decide (ph = Probing /\ q = extract_provider m).
Proof.
  unfold probing. simpl. rewrite <- bool_decide_and. apply bool_decide_ext. naive_solver.
Qed.

(** [g] is the model of the coroutine that runs now and holds a slot it has not
    accounted for yet. *)
Record bulk_inv (g : option string) (b : Bulkhead) : Prop := {
  bi_slots : forall q, exists n, sem_ok n (get_semaphore q b) /\
    n + mcount (in_flight q) (bk_calls b) + (if decide (extract_provider <$> g = Some q) then 1 else 0)
    = bulkhead_limit q;
  bi_queue : forall q t, t ∈ (sem_waiters (get_semaphore q b)).*1 <->
    exists m, bk_calls b !! t = Some (mkCall m Queued) /\ extract_provider m = q;
  bi_locks : forall q, mcount (probing q) (bk_calls b) = if get_probe_lock q b then 1 else 0;
  bi_probes : forall c m, probe_in_progress (stats_of c m (bk_router b)) = true <->
    exists t, bk_calls b !! t = Some (mkCall m Probing);
}.

Lemma get_on_semaphore q q' f b :
  get_semaphore q (on_semaphore q' f b) = if decide (q = q') then f (get_semaphore q b) else get_semaphore q b.
Proof.
  unfold get_semaphore, on_semaphore. simpl. case_decide as Hq.
  - subst. by rewrite lookup_insert_eq.
  - by rewrite lookup_insert_ne.
Qed.

Lemma get_set_lock q q' v b :
  get_probe_lock q (set_probe_lock q' v b) = if decide (q = q') then v else get_probe_lock q b.
Proof.
  unfold get_probe_lock, set_probe_lock. simpl. case_decide as Hq.
  - subst. by rewrite lookup_insert_eq.
  - by rewrite lookup_insert_ne.
Qed.

Lemma get_put_probe c c' m m' v b :
  probe_in_progress (stats_of c' m' (bk_router (put_probe c m v b))) =
  if decide (m' = m) then v else probe_in_progress (stats_of c' m' (bk_router b)).
Proof.
  unfold put_probe, put_stats, stats_of. simpl. case_decide as Hm.
  - subst. by rewrite lookup_insert_eq.
  - by rewrite lookup_insert_ne.
Qed.

Lemma keep_stats c c' m m' b :
  probe_in_progress (stats_of c' m' (put_stats m (stats_of c m (bk_router b)) (bk_router b))) =
  probe_in_progress (stats_of c' m' (bk_router b)).
Proof.
  unfold put_stats, stats_of. simpl. destruct (decide (m' = m)) as [->|Hm]; [|by rewrite lookup_insert_ne].
  rewrite lookup_insert_eq. simpl. by destruct (sr_stats (bk_router b) !! m).
Qed.

(** Changing the semaphore of one provider and the calls. *)
Lemma inv_semaphore g g' b q f n' calls :
  bulk_inv g b ->
  (forall n, sem_ok n (get_semaphore q b) ->
     n + mcount (in_flight q) (bk_calls b) + (if decide (extract_provider <$> g = Some q) then 1 else 0)
     = bulkhead_limit q ->
     sem_ok (n' n) (f (get_semaphore q b)) /\
     n' n + mcount (in_flight q) calls + (if decide (extract_provider <$> g' = Some q) then 1 else 0)
     = bulkhead_limit q) ->
  (forall q', q' ≠ q -> mcount (in_flight q') calls = mcount (in_flight q') (bk_calls b) /\
     (extract_provider <$> g = Some q' <-> extract_provider <$> g' = Some q')) ->
  (forall q' t, t ∈ (sem_waiters (if decide (q' = q) then f (get_semaphore q b) else get_semaphore q' b)).*1 <->
     exists m, calls !! t = Some (mkCall m Queued) /\ extract_provider m = q') ->
  (forall q', mcount (probing q') calls = mcount (probing q') (bk_calls b)) ->
  (forall t m, calls !! t = Some (mkCall m Probing) <-> bk_calls b !! t = Some (mkCall m Probing)) ->
  bulk_inv g' (mkBulkhead (bk_router b) (bk_sems (on_semaphore q f b)) (bk_locks b) calls).
Proof.
  intros [H1 H2 H3 H4] Hf Ho Hq Hl Hp.
  assert (forall q', get_semaphore q' (mkBulkhead (bk_router b) (bk_sems (on_semaphore q f b)) (bk_locks b) calls)
    = if decide (q' = q) then f (get_semaphore q b) else get_semaphore q' b) as Hget.
  { intros q'. change (get_semaphore q' (on_semaphore q f b) = if decide (q' = q) then f (get_semaphore q b) else get_semaphore q' b).
    rewrite get_on_semaphore. destruct (decide (q' = q)) as [->|]; done. }
  split.
  - intros q'. rewrite Hget. simpl. destruct (H1 q') as (n & Hok & Hn). destruct (decide (q' = q)) as [->|Hne].
    + exists (n' n). by apply Hf.
    + exists n. split; [done|]. destruct (Ho q' Hne) as [-> Hg]. rewrite <- Hn. f_equal.
      destruct (decide (extract_provider <$> g = Some q')), (decide (extract_provider <$> g' = Some q')); tauto.
  - intros q' t. rewrite Hget. apply Hq.
  - intros q'. simpl. rewrite Hl. apply H3.
  - intros c m. simpl. rewrite H4. split; intros [t Ht]; exists t; by apply Hp.
Qed.

(** A fresh coroutine is nobody's waiter. *)
Lemma fresh_waiter g b q t :
  bulk_inv g b -> bk_calls b !! t = None -> t ∉ (sem_waiters (get_semaphore q b)).*1.
Proof. intros Hb Ht Hin. apply (bi_queue g b Hb) in Hin as (m & Hm & _). congruence. Qed.

Lemma inv_release m t b :
  bulk_inv (Some m) b -> bk_calls b !! t = None -> bulk_inv None (leave_semaphore t m b).
Proof.
  intros Hb Ht. unfold leave_semaphore, end_call. simpl. rewrite (delete_id _ _ Ht).
  apply (inv_semaphore (Some m) None b _ _ S); [done|..].
  - intros n Hok Hn. split; [by apply release_ok|]. rewrite decide_True in Hn by done. rewrite decide_False by done. lia.
  - intros q' Hq'. split; [done|]. split; [intros [= Heq]; by destruct Hq'|done].
  - intros q' u. rewrite <- (bi_queue _ _ Hb q' u). destruct (decide (q' = _)) as [->|]; [|done].
    unfold sem_release. by rewrite wake_keys.
  - done.
  - done.
Qed.

(** A coroutine with a slot starts its call. *)
Lemma inv_admit m t ph b b' :
  bulk_inv (Some m) b -> bk_calls b !! t = None -> ph ≠ Queued ->
  bk_sems b' = bk_sems b -> bk_calls b' = <[t := mkCall m ph]> (bk_calls b) ->
  (ph = Probing -> get_probe_lock (extract_provider m) b = false) ->
  (forall q, get_probe_lock q b' = if decide (ph = Probing /\ q = extract_provider m) then true else get_probe_lock q b) ->
  (forall c' m', probe_in_progress (stats_of c' m' (bk_router b')) =
     if decide (ph = Probing /\ m' = m) then true else probe_in_progress (stats_of c' m' (bk_router b))) ->
  bulk_inv None b'.
Proof.
  intros Hb Ht Hph Hs Hc Hfree Hl Hp.
  assert (forall q, get_semaphore q b' = get_semaphore q b) as Hget by (intros q; unfold get_semaphore; by rewrite Hs).
  split.
  - intros q. rewrite Hget, Hc, mcount_insert by done. destruct (bi_slots _ _ Hb q) as (n & Hok & Hn).
    exists n. split; [done|]. rewrite <- Hn. rewrite (decide_False (P := (_ <$> None) = _)) by done.
    rewrite in_flight_call by done. destruct (decide (extract_provider m = q)) as [Hq|Hne].
    + rewrite (bool_decide_eq_true_2 _ Hq), decide_True by (simpl; congruence). lia.
    + rewrite (bool_decide_eq_false_2 _ Hne), decide_False by (simpl; congruence). lia.
  - intros q u. rewrite Hget, Hc, (bi_queue _ _ Hb). split; intros (m' & Hm' & Hq); exists m'; (split; [|done]).
    + rewrite lookup_insert_ne; [done|]. intros ->. congruence.
    + apply lookup_insert_Some in Hm' as [[_ [= -> ->]]|[_ ?]]; done.
  - intros q. rewrite Hc, mcount_insert, Hl, (bi_locks _ _ Hb) by done. rewrite probing_call.
    destruct (decide (ph = Probing /\ q = extract_provider m)) as [[-> ->]|Hne].
    + rewrite bool_decide_eq_true_2 by done. by rewrite Hfree.
    + rewrite bool_decide_eq_false_2 by naive_solver. done.
  - intros c' m'. rewrite Hp, Hc. destruct (decide (ph = Probing /\ m' = m)) as [[-> ->]|Hd].
    + split; [|by intros]. intros _. exists t. apply lookup_insert_eq.
    + rewrite (bi_probes _ _ Hb c' m'). split; intros [u Hu]; exists u.
      * rewrite lookup_insert_ne; [done|]. intros ->. congruence.
      * apply lookup_insert_Some in Hu as [[_ [= -> ->]]|[_ ?]]; naive_solver.
Qed.

(** Two probes of one provider are the same coroutine. *)
Lemma probe_unique g b t t' m m' :
  bulk_inv g b -> bk_calls b !! t = Some (mkCall m Probing) -> bk_calls b !! t' = Some (mkCall m' Probing) ->
  extract_provider m = extract_provider m' -> t = t'.
Proof.
  intros Hb Ht Ht' Hq. destruct (decide (t = t')) as [|Hne]; [done|].
  assert (2 <= mcount (probing (extract_provider m)) (bk_calls b)) as H2.
  { apply (mcount_two _ _ _ _ _ _ Ht Ht' Hne); apply andb_true_intro; split; by apply bool_decide_eq_true_2. }
  rewrite (bi_locks g b Hb) in H2. destruct (get_probe_lock _ _); lia.
Qed.

(** A call ends and keeps its slot for a moment. *)
Lemma inv_retire m t ph b b' :
  bulk_inv None b -> bk_calls b !! t = Some (mkCall m ph) -> ph ≠ Queued ->
  bk_sems b' = bk_sems b -> bk_calls b' = delete t (bk_calls b) ->
  (forall q, get_probe_lock q b' = if decide (ph = Probing /\ q = extract_provider m) then false else get_probe_lock q b) ->
  (forall c' m', probe_in_progress (stats_of c' m' (bk_router b')) =
     if decide (ph = Probing /\ m' = m) then false else probe_in_progress (stats_of c' m' (bk_router b))) ->
  bulk_inv (Some m) b'.
Proof.
  intros Hb Ht Hph Hs Hc Hl Hp.
  assert (forall q, get_semaphore q b' = get_semaphore q b) as Hget by (intros q; unfold get_semaphore; by rewrite Hs).
  split.
  - intros q. rewrite Hget, Hc. destruct (bi_slots _ _ Hb q) as (n & Hok & Hn).
    exists n. split; [done|]. rewrite (mcount_delete _ _ _ _ Ht) in Hn.
    rewrite (decide_False (P := (_ <$> None) = _)) in Hn by done.
    rewrite in_flight_call in Hn by done. destruct (decide (extract_provider m = q)) as [Hq|Hne].
    + rewrite (bool_decide_eq_true_2 _ Hq) in Hn. rewrite decide_True by (simpl; congruence). lia.
    + rewrite (bool_decide_eq_false_2 _ Hne) in Hn. rewrite decide_False by (simpl; congruence). lia.
  - intros q u. rewrite Hget, Hc, (bi_queue _ _ Hb). split; intros (m' & Hm' & Hq); exists m'; (split; [|done]).
    + rewrite lookup_delete_ne; [done|]. intros ->. congruence.
    + by apply lookup_delete_Some in Hm' as [_ ?].
  - intros q. rewrite Hc, Hl. pose proof (bi_locks _ _ Hb q) as H. rewrite (mcount_delete _ _ _ _ Ht), probing_call in H.
    destruct (decide (ph = Probing /\ q = extract_provider m)) as [[-> ->]|Hne].
    + rewrite bool_decide_eq_true_2 in H by done. destruct (get_probe_lock _ _); lia.
    + by rewrite bool_decide_eq_false_2 in H by naive_solver.
  - intros c' m'. rewrite Hp, Hc. destruct (decide (ph = Probing /\ m' = m)) as [[-> ->]|Hd].
    + split; [done|]. intros [u [Hne Hu]%lookup_delete_Some].
      destruct Hne. symmetry. by apply (probe_unique None b u t m m Hb).
    + rewrite (bi_probes _ _ Hb c' m'). split; intros [u Hu]; exists u.
      * rewrite lookup_delete_ne; [done|]. intros ->. naive_solver.
      * by apply lookup_delete_Some in Hu as [_ ?].
Qed.

(** ** Every step keeps the invariant *)

Lemma half_open_locks c m q v b : half_open c m (set_probe_lock q v b) = half_open c m b.
Proof. done. Qed.

Lemma begin_call_eq c t m b : begin_call c t m b =
  if half_open c m b then
    if get_probe_lock (extract_provider m) b then (leave_semaphore t m b, Resolved)
    else (set_call t (mkCall m Probing) (put_probe c m true (set_probe_lock (extract_provider m) true b)), Entered)
  else (set_call t (mkCall m Running) b, Entered).
Proof. unfold begin_call. rewrite half_open_locks. by destruct (half_open c m b). Qed.

Lemma begin_end c t m b : begin_call c t m (end_call t b) = begin_call c t m b.
Proof.
  rewrite !begin_call_eq. change (half_open c m (end_call t b)) with (half_open c m b).
  change (get_probe_lock (extract_provider m) (end_call t b)) with (get_probe_lock (extract_provider m) b).
  destruct (half_open c m b); [destruct (get_probe_lock _ b)|]; f_equal.
  - unfold leave_semaphore, end_call, on_semaphore. simpl. by rewrite delete_delete_eq.
  - unfold set_call. simpl. by rewrite insert_delete_eq.
  - unfold set_call. simpl. by rewrite insert_delete_eq.
Qed.

Lemma bulk_begin_inv c t m b :
  bulk_inv (Some m) b -> bk_calls b !! t = None -> bulk_inv None (begin_call c t m b).1.
Proof.
  intros Hb Ht. rewrite begin_call_eq. destruct (half_open c m b); [destruct (get_probe_lock _ b) eqn:Hl|]; simpl.
  - by apply inv_release.
  - apply (inv_admit m t Probing b); try done.
    + intros q. change (get_probe_lock q (set_probe_lock (extract_provider m) true b) =
        if decide (Probing = Probing /\ q = extract_provider m) then true else get_probe_lock q b).
      rewrite get_set_lock. destruct (decide (q = _)); [by rewrite decide_True|by rewrite decide_False by tauto].
    + intros c' m'. change (bk_router (set_call _ _ ?x)) with (bk_router x). rewrite get_put_probe.
      destruct (decide (m' = m)); [by rewrite decide_True|by rewrite decide_False by tauto].
  - by apply (inv_admit m t Running b).
Qed.

Lemma keep_router_inv g b s :
  bulk_inv g b ->
  (forall c m, probe_in_progress (stats_of c m s) = probe_in_progress (stats_of c m (bk_router b))) ->
  bulk_inv g (set_router s b).
Proof. intros [H1 H2 H3 H4] Hs. split; [apply H1|apply H2|apply H3|]. intros c m. simpl. rewrite Hs. apply H4. Qed.

(** A coroutine that gets a slot at once. *)
Lemma acquired_granted t m b s :
  bulk_inv None b -> sem_acquire t (get_semaphore (extract_provider m) b) = (s, true) ->
  bulk_inv (Some m) (on_semaphore (extract_provider m) (fun _ => s) b).
Proof.
  intros Hb Hacq. pose proof (fun n H => acquire_ok n t (get_semaphore (extract_provider m) b) H) as Hok.
  rewrite Hacq in Hok. destruct (bi_slots _ _ Hb (extract_provider m)) as (n0 & Hn0 & _).
  destruct (Hok n0 Hn0) as (_ & _ & Hs1 & Hs2).
  apply (inv_semaphore None (Some m) b _ (fun _ => s) pred); [done|..].
  - intros n Hn Heq. destruct (Hok n Hn) as (? & ? & _). split; [done|]. rewrite decide_False in Heq by done.
    rewrite decide_True by done. lia.
  - intros q' Hq'. split; [done|]. split; [done|intros [= Heq]; by destruct Hq'].
  - intros q' u. rewrite <- (bi_queue _ _ Hb q' u). destruct (decide (q' = _)) as [->|]; [|done]. by rewrite Hs1, Hs2.
  - done.
  - done.
Qed.

Lemma bulk_enter_inv c t m b : bulk_inv None b -> bk_calls b !! t = None -> bulk_inv None (bulk_enter c t m b).1.
Proof.
  intros Hb Ht. unfold bulk_enter. set (b1 := set_router _ b).
  assert (bulk_inv None b1) as H1 by (apply keep_router_inv; [done|intros; apply keep_stats]).
  assert (bk_calls b1 !! t = None) as Ht1 by done. clearbody b1.
  pose proof (fun q => fresh_waiter None b1 q t H1 Ht1) as Hfw.
  destruct (sem_acquire t (get_semaphore (extract_provider m) b1)) as [s got] eqn:Hacq.
  pose proof (fun n H => acquire_ok n t (get_semaphore (extract_provider m) b1) H) as Hok. rewrite Hacq in Hok. destruct got.
  - apply bulk_begin_inv; [|done]. by apply (acquired_granted t m b1 s).
  - apply (inv_semaphore None None b1 _ (fun _ => s) id); [done|..]; unfold id.
    + intros n Hn Heq. destruct (Hok n Hn (Hfw _)) as (? & _). split; [done|].
      by rewrite mcount_insert, in_flight_queued.
    + intros q' Hq'. by rewrite mcount_insert, in_flight_queued.
    + destruct (bi_slots _ _ H1 (extract_provider m)) as (n0 & Hn0 & _). destruct (Hok n0 Hn0 (Hfw _)) as (_ & Hs).
      intros q' u. destruct (decide (u = t)) as [->|Hne].
      * rewrite lookup_insert_eq. destruct (decide (q' = extract_provider m)) as [->|Hq].
        -- rewrite Hs, elem_of_app, list_elem_of_singleton. naive_solver.
        -- split; [intros Hin; by destruct (Hfw q')|]. intros (m' & [= <-] & <-). done.
      * rewrite lookup_insert_ne by done. rewrite <- (bi_queue _ _ H1 q' u). destruct (decide (q' = _)) as [->|]; [|done].
        rewrite Hs, elem_of_app, list_elem_of_singleton. tauto.
    + intros q'. by rewrite mcount_insert, probing_call, bool_decide_eq_false_2 by naive_solver.
    + intros u m'. destruct (decide (u = t)) as [->|Hne]; [rewrite lookup_insert_eq, Ht1; naive_solver|by rewrite lookup_insert_ne].
Qed.

(** A queued coroutine stops waiting: its semaphore forgets it. *)
Lemma dequeue_inv g b t m f n' :
  bulk_inv None b -> bk_calls b !! t = Some (mkCall m Queued) ->
  (forall s, (sem_waiters (f s)).*1 = filter (.≠ t) (sem_waiters s).*1) ->
  (g = None /\ n' = id \/ g = Some m /\ n' = pred) ->
  (forall n, sem_ok n (get_semaphore (extract_provider m) b) ->
     sem_ok (n' n) (f (get_semaphore (extract_provider m) b)) /\ (g = Some m -> 0 < n)) ->
  bulk_inv g (end_call t (on_semaphore (extract_provider m) f b)).
Proof.
  intros Hb Ht Hkeys Hg Hf. unfold end_call. simpl.
  assert (forall q, mcount (in_flight q) (delete t (bk_calls b)) = mcount (in_flight q) (bk_calls b)) as Hfl.
  { intros q. rewrite (mcount_delete _ _ _ _ Ht). by rewrite in_flight_queued. }
  apply (inv_semaphore None g b _ f n'); [done|..].
  - intros n Hn Heq. rewrite decide_False in Heq by done. destruct (Hf n Hn) as [? Hpos]. split; [done|]. rewrite Hfl.
    destruct Hg as [[-> ->]|[-> ->]]; [by rewrite decide_False|rewrite decide_True by done; specialize (Hpos eq_refl); lia].
  - intros q' Hq'. split; [apply Hfl|]. destruct Hg as [[-> _]|[-> _]]; [done|].
    split; [done|intros [= Heq]; by destruct Hq'].
  - intros q' u. setoid_rewrite lookup_delete_Some. pose proof (bi_queue _ _ Hb q' u) as Hq.
    destruct (decide (q' = extract_provider m)) as [->|Hne].
    + rewrite Hkeys, list_elem_of_filter, Hq. naive_solver.
    + rewrite Hq. split; [|naive_solver]. intros (m' & Hm' & Hp). exists m'. split; [|done]. split; [|done].
      intros ->. congruence.
  - intros q'. rewrite (mcount_delete _ _ _ _ Ht). by rewrite probing_call, bool_decide_eq_false_2 by naive_solver.
  - intros u m'. rewrite lookup_delete_Some. split; [tauto|]. intros Hu. split; [|done]. intros ->. congruence.
Qed.

Lemma resume_granted t m b : bulk_inv None b -> bk_calls b !! t = Some (mkCall m Queued) ->
  (t, true) ∈ sem_waiters (get_semaphore (extract_provider m) b) ->
  bulk_inv (Some m) (end_call t (on_semaphore (extract_provider m) (sem_resume t) b)).
Proof.
  intros Hb Ht Hw. apply (dequeue_inv (Some m) b t m (sem_resume t) pred); [done|done|apply resume_keys|by right|].
  intros n Hn. destruct (resume_ok n t _ Hn Hw). done.
Qed.

Lemma resume_inv c t m b : bulk_inv None b -> bk_calls b !! t = Some (mkCall m Queued) ->
  (t, true) ∈ sem_waiters (get_semaphore (extract_provider m) b) -> bulk_inv None (bulk_resume c t m b).1.
Proof.
  intros Hb Ht Hw. unfold bulk_resume. rewrite <- begin_end. apply bulk_begin_inv; [|apply lookup_delete_eq].
  by apply resume_granted.
Qed.

Lemma abandon_inv t m b : bulk_inv None b -> bk_calls b !! t = Some (mkCall m Queued) ->
  bulk_inv None (bulk_abandon t m b).
Proof.
  intros Hb Ht. apply (dequeue_inv None b t m (sem_abandon t) id); [done|done|apply abandon_keys|by left|].
  intros n Hn. split; [|done]. apply abandon_ok; [done|]. apply (bi_queue _ _ Hb). eauto.
Qed.

Lemma leave_inv c t k b : bulk_inv None b -> bk_calls b !! t = Some k -> call_phase k ≠ Queued ->
  bulk_inv None (bulk_leave c t k b).
Proof.
  intros Hb Ht Hk. destruct k as [m ph]. simpl in Hk. unfold bulk_leave. simpl call_model. simpl call_phase.
  set (b1 := match ph with Probing => _ | _ => b end).
  assert (leave_semaphore t m b1 = leave_semaphore t m (end_call t b1)) as ->.
  { unfold leave_semaphore, end_call, on_semaphore. simpl. by rewrite delete_delete_eq. }
  apply inv_release; [|apply lookup_delete_eq].
  assert (bk_calls b1 = bk_calls b /\ bk_sems b1 = bk_sems b) as [Hc Hs] by (unfold b1; by destruct ph).
  apply (inv_retire m t ph b); [done|done|done|by rewrite <- Hs|by rewrite <- Hc|..]; unfold b1.
  - intros q. change (get_probe_lock q (end_call t ?x)) with (get_probe_lock q x).
    destruct ph; [done|by rewrite decide_False by naive_solver|]. rewrite get_set_lock.
    destruct (decide (q = _)); [by rewrite decide_True|by rewrite decide_False by tauto].
  - intros c' m'. change (bk_router (end_call t ?x)) with (bk_router x).
    destruct ph; [done|by rewrite decide_False by naive_solver|].
    change (bk_router (set_probe_lock _ _ ?x)) with (bk_router x). rewrite get_put_probe.
    destruct (decide (m' = m)); [by rewrite decide_True|by rewrite decide_False by tauto].
Qed.

(** ** The router leaves the probe flags alone *)

Definition probe_flag (s : SmartRouter) (m : string) : bool :=
  match sr_stats s !! m with Some x => probe_in_progress x | None => false end.

Lemma probe_flag_eq c m s : probe_in_progress (stats_of c m s) = probe_flag s m.
Proof. unfold stats_of, probe_flag. by destruct (sr_stats s !! m). Qed.

Lemma put_stats_flag c m x s m' :
  probe_in_progress x = probe_in_progress (stats_of c m s) -> probe_flag (put_stats m x s) m' = probe_flag s m'.
Proof.
  intros Hx. rewrite probe_flag_eq in Hx. unfold probe_flag, put_stats in *. simpl.
  destruct (decide (m' = m)) as [->|]; [by rewrite lookup_insert_eq|by rewrite lookup_insert_ne].
Qed.

Lemma record_success_probe p u idx l m : probe_in_progress (record_success p u idx l m) = probe_in_progress m.
Proof. unfold record_success. destruct (decide _); [destruct (half_open_success_required p <=? _)%Z|]; done. Qed.

Lemma record_failure_probe p u mo m : probe_in_progress (record_failure p u mo m) = probe_in_progress m.
Proof. unfold record_failure. destruct (decide _); [done|]. by destruct (failure_threshold p <=? _)%Z. Qed.

Lemma check_circuit_probe p u mo m : probe_in_progress (check_circuit p u mo m).1 = probe_in_progress m.
Proof. unfold check_circuit. destruct (circuit_state m); try done. by destruct (recovery_due _ _ _ _). Qed.

Section reach.
Context (p : Policy) (cfg : CooldownConfig) (r : Registry) (e : Env) (quarantined : gset string)
  (health_checker : option (string -> bool)) (model_costs : string -> option Q)
  (parsedate fromiso : string -> option Q) (gone_status : string -> bool).
#[local] Abbreviation router_act := (router_act p cfg r e quarantined health_checker model_costs parsedate fromiso gone_status).
#[local] Abbreviation bulk_step := (bulk_step p cfg r e quarantined health_checker model_costs parsedate fromiso gone_status).
#[local] Abbreviation bulk_reachable :=
  (bulk_reachable p cfg r e quarantined health_checker model_costs parsedate fromiso gone_status).

Lemma find_candidates_flag c mc chain s m :
  probe_flag (find_candidates p r e quarantined health_checker model_costs c mc chain s).1 m = probe_flag s m.
Proof.
  revert s. induction chain as [|x chain IH]; intros s; simpl; [done|].
  assert (probe_flag (consider p r e quarantined health_checker model_costs c mc x s).1 m = probe_flag s m) as Hc.
  { unfold consider. destruct (decide (x ∈ quarantined)); [done|].
    destruct (is_model_available health_checker x (sr_base s)) as [b av].
    destruct av; simpl; [|done]. destruct (within_ceiling r e x); simpl; [|done].
    pose proof (check_circuit_probe p (utc c) (mono c) (stats_of c x (set_base b s))) as Hp.
    destruct (check_circuit _ _ _ _) as [m1 al]. simpl in Hp.
    assert (probe_flag (put_stats x m1 (set_base b s)) m = probe_flag s m) as H
      by exact (put_stats_flag c x m1 (set_base b s) m Hp).
    destruct al; simpl; [|done]. destruct (is_in_cooldown _ _); [done|]. by destruct mc. }
  destruct (consider _ _ _ _ _ _ _ _ _ _) as [s1 ok]. simpl in Hc. specialize (IH s1).
  destruct (find_candidates _ _ _ _ _ _ _ _ _ _) as [s2 rest]. simpl in *. congruence.
Qed.

Lemma search_tiers_flag c mc tiers s m :
  probe_flag (search_tiers p r e quarantined health_checker model_costs c mc tiers s).1 m = probe_flag s m.
Proof.
  revert s. induction tiers as [|t tiers IH]; intros s; simpl; [done|].
  pose proof (find_candidates_flag c mc (default [] (get_chain r e t (sr_base s))) s m) as H.
  unfold find_candidates_in_tier. destruct (find_candidates _ _ _ _ _ _ _ _ _ _) as [s1 [|y l]]; simpl in *; [|done].
  by rewrite IH.
Qed.

Lemma gather_flag c t mc ct ex s m :
  probe_flag (gather p r e quarantined health_checker model_costs c t mc ct ex s).1 m = probe_flag s m.
Proof.
  pose proof (find_candidates_flag c mc (default [] (get_chain r e t (sr_base s))) s m) as H.
  unfold gather, find_candidates_in_tier, cross_tier_search.
  destruct (find_candidates _ _ _ _ _ _ _ _ _ _) as [s1 found]. simpl in *.
  destruct (_ && _); [done|]. destruct (filter _ found); [|done]. destruct ct; [|done].
  pose proof (search_tiers_flag c mc (eligible_tiers t) s1 m) as H2.
  destruct (search_tiers _ _ _ _ _ _ _ _ _ _) as [s2 [[l t']|]]; simpl in *; congruence.
Qed.

Lemma router_act_flag s s' m : router_act s s' -> probe_flag s' m = probe_flag s m.
Proof.
  destruct 1 as [c t ph mc ct ex|c idx x lat|c jitter x err].
  - pose proof (gather_flag c t mc ct ex s m) as H. unfold get_model_for_tier.
    destruct (gather _ _ _ _ _ _ _ _ _ _ _ _) as [s1 [[[[|x l] t'] d]|]]; simpl in *; done.
  - unfold router_record_success. apply (put_stats_flag c). apply record_success_probe.
  - unfold classify_and_record_error.
    set (s0 := match pe_headers err with Some h => _ | None => s end).
    assert (probe_flag s0 m = probe_flag s m) as <- by (unfold s0; by destruct (pe_headers err)). clearbody s0.
    assert (forall ty pm, probe_flag (router_record_failure p cfg c x ty pm s0) m = probe_flag s0 m) as Hf.
    { intros ty pm. assert (probe_flag (router_record_failure p cfg c x ty false s0) m = probe_flag s0 m) as H
        by (apply (put_stats_flag c); apply record_failure_probe). by destruct pm. }
    assert (probe_flag (router_record_timeout p cfg c x s0) m = probe_flag s0 m) as Ht
      by (apply (put_stats_flag c); exact (record_failure_probe p _ _ (bump 0 1 _))).
    assert (probe_flag (router_record_rate_limit p parsedate fromiso c jitter x (pe_headers err) s0) m = probe_flag s0 m) as Hr.
    { unfold router_record_rate_limit. destruct (get_cooldown_seconds _ _ _ _ _ _ _ _ _) as [l cd].
      transitivity (probe_flag (set_limits l s0) m); [|done].
      apply (put_stats_flag c). exact (record_failure_probe p _ _ (bump 1 0 _)). }
    destruct (pe_status err); repeat case_decide; try done; by destruct (contains _ _).
Qed.

Lemma step_inv b b' : bulk_inv None b -> bulk_step b b' -> bulk_inv None b'.
Proof.
  intros Hb [c t m Ht|c t m Ht Hw|t m Ht|c t k Ht Hk|s Hs].
  - by apply bulk_enter_inv.
  - by apply resume_inv.
  - by apply abandon_inv.
  - by apply leave_inv.
  - apply keep_router_inv; [done|]. intros c m. rewrite !probe_flag_eq. by apply router_act_flag.
Qed.

Definition no_flags (s : SmartRouter) : Prop := forall m, probe_flag s m = false.

Lemma init_inv s : no_flags s -> bulk_inv None (new_bulkhead s).
Proof.
  intros Hs. split; unfold new_bulkhead, get_semaphore, get_probe_lock; simpl.
  - intros q. rewrite lookup_empty. simpl. exists (bulkhead_limit q). rewrite mcount_empty. split; [|simpl; lia].
    split; [unfold woken; simpl; lia|]. split; [constructor|]. intros _ t Ht. by apply elem_of_nil in Ht.
  - intros q t. rewrite lookup_empty. simpl. rewrite elem_of_nil. split; [done|]. intros (m & Hm & _). by rewrite lookup_empty in Hm.
  - intros q. by rewrite lookup_empty, mcount_empty.
  - intros c m. rewrite probe_flag_eq, Hs. split; [done|]. intros [t Ht]. by rewrite lookup_empty in Ht.
Qed.

Lemma reachable_inv s b : no_flags s -> bulk_reachable s b -> bulk_inv None b.
Proof.
  intros Hs Hr. pose proof (init_inv s Hs) as Hi. unfold Bulkhead.bulk_reachable in Hr. revert Hi.
  generalize (new_bulkhead s), Hr. clear. intros b0 Hr. induction Hr as [|b0 b1 b2 H1 _ IH]; [done|].
  intros Hi. apply IH. by eapply step_inv.
Qed.

(** The bulkhead holds in every interleaving of entering, waiting,
    cancelled, resumed and ending calls with the router's own bookkeeping: a
    provider never has more calls in flight than its limit and no slot is lost
    (the free ones, those handed to a waiter and those in use add up to the
    limit); a provider has at most one probe in flight, exactly when its probe
    lock is held; a model is flagged exactly while a probe of it is in flight;
    and no wake-up is lost: a waiter without a slot sees none free, or another
    waiter already woken that will pass it on. *)
Theorem bulkhead_holds s b q :
  no_flags s -> bulk_reachable s b ->
  sem_value (get_semaphore q b) + woken (get_semaphore q b) + mcount (in_flight q) (bk_calls b) = bulkhead_limit q /\
  mcount (probing q) (bk_calls b) = (if get_probe_lock q b then 1 else 0) /\
  (forall m, probe_flag (bk_router b) m = true <-> exists t, bk_calls b !! t = Some (mkCall m Probing)) /\
  (forall t m, bk_calls b !! t = Some (mkCall m Queued) -> extract_provider m = q ->
     t ∈ (sem_waiters (get_semaphore q b)).*1 /\
     ((t, false) ∈ sem_waiters (get_semaphore q b) ->
        sem_value (get_semaphore q b) = 0 \/ exists u, (u, true) ∈ sem_waiters (get_semaphore q b))).
Proof.
  intros Hs Hr. pose proof (reachable_inv s b Hs Hr) as Hb.
  destruct (bi_slots _ _ Hb q) as (n & (Hv & _ & Hw) & Hn). rewrite decide_False in Hn by done.
  split; [lia|]. split; [apply Hb|]. split.
  - intros m. rewrite <- (probe_flag_eq (mkClock 0 0 0)). apply Hb.
  - intros t m Ht Hm. split; [apply (bi_queue _ _ Hb); eauto|]. intros Hf.
    destruct (sem_value (get_semaphore q b)) eqn:E; [by left|right]. apply woken_exists. apply Hw with t; [lia|done].
Qed.

(** [_is_model_ready_for_attempt] is exact: a model that is ready is
    entered at once, without waiting and without a resolved circuit; and one that
    is not ready is not. *)
Theorem ready_is_exact b c t m :
  is_model_ready c m b = true <-> (bulk_enter c t m b).2 = Entered.
Proof.
  unfold is_model_ready, bulk_enter.
  assert (half_open c m (set_router (put_stats m (stats_of c m (bk_router b)) (bk_router b)) b) = half_open c m b) as Hh.
  { unfold half_open, stats_of, put_stats. simpl. by rewrite lookup_insert_eq. }
  set (b1 := set_router _ b) in *.
  change (get_semaphore (extract_provider m) b1) with (get_semaphore (extract_provider m) b).
  unfold sem_acquire. destruct (sem_locked _); simpl; [by rewrite andb_false_r|]. rewrite andb_true_r, begin_call_eq.
  change (half_open c m (on_semaphore ?q ?f ?x)) with (half_open c m x). rewrite Hh.
  change (get_probe_lock ?q' (on_semaphore ?q ?f b1)) with (get_probe_lock q' b).
  destruct (half_open c m b), (get_probe_lock _ b); simpl; done.
Qed.
(** ** Refinement of an admission control

    What the bulkhead promises, without queues, locks or flags: the calls in
    flight with the model and whether it is a probe; a call starts only below its
    provider's limit, a probe only when no probe of the provider is in flight. *)

Abbreviation Admission := (gmap nat (string * bool)).

Definition of_provider (q : string) (k : string * bool) : bool := bool_decide (extract_provider k.1 = q).

Inductive admission_step (a : Admission) : Admission -> Prop :=
  | adm_start t m probe : a !! t = None ->
      mcount (of_provider (extract_provider m)) a < bulkhead_limit (extract_provider m) ->
      (probe = true -> forall t' m', a !! t' = Some (m', true) -> extract_provider m' ≠ extract_provider m) ->
      admission_step a (<[t := (m, probe)]> a)
  | adm_end t k : a !! t = Some k -> admission_step a (delete t a).

Definition admitted (k : Call) : option (string * bool) :=
  match call_phase k with
  | Queued => None
  | Running => Some (call_model k, false)
  | Probing => Some (call_model k, true)
  end.
Definition admission_of (b : Bulkhead) : Admission := omap admitted (bk_calls b).

Lemma mcount_admitted q (m : gmap nat Call) : mcount (of_provider q) (omap admitted m) = mcount (in_flight q) m.
Proof.
  induction m as [|t k m Ht IH] using map_ind; [by rewrite omap_empty, !mcount_empty|].
  rewrite (mcount_insert _ _ _ _ Ht), <- IH. destruct k as [x ph]. destruct ph.
  - rewrite omap_insert_None by done. rewrite delete_id by (by rewrite lookup_omap, Ht).
    by rewrite in_flight_queued.
  - rewrite (omap_insert_Some _ _ _ _ (x, false)) by done. rewrite mcount_insert by (by rewrite lookup_omap, Ht).
    by rewrite in_flight_call.
  - rewrite (omap_insert_Some _ _ _ _ (x, true)) by done. rewrite mcount_insert by (by rewrite lookup_omap, Ht).
    by rewrite in_flight_call.
Qed.

(** Starting a call, seen from the state it leads to. *)
Lemma admitted_start a b' t m ph :
  bulk_inv None b' -> a !! t = None -> ph ≠ Queued -> bk_calls b' !! t = Some (mkCall m ph) ->
  admission_of b' = <[t := (m, bool_decide (ph = Probing))]> a -> admission_step a (admission_of b').
Proof.
  intros Hb Ht Hph Hk Ha. rewrite Ha. constructor; [done|..].
  - destruct (bi_slots _ _ Hb (extract_provider m)) as (n & _ & Hn). rewrite decide_False in Hn by done.
    rewrite <- mcount_admitted in Hn. fold (admission_of b') in Hn. rewrite Ha, (mcount_insert _ _ _ _ Ht) in Hn.
    unfold of_provider at 1 in Hn. simpl in Hn. rewrite (bool_decide_eq_true_2 _ (eq_refl (extract_provider m))) in Hn. lia.
  - intros Hp t' m' Ht' Hq. apply bool_decide_eq_true in Hp as ->. assert (t' ≠ t) as Hne by congruence.
    destruct Hne. apply (probe_unique None b' t' t m' m Hb); [|done|done].
    assert (admission_of b' !! t' = Some (m', true)) as H by (rewrite Ha, lookup_insert_ne; congruence).
    unfold admission_of in H. rewrite lookup_omap in H.
    destruct (bk_calls b' !! t') as [[x [| |]]|]; simpl in H; try discriminate. by injection H as ->.
Qed.

Lemma begin_refines c t m b :
  bulk_inv (Some m) b -> bk_calls b !! t = None ->
  admission_of (begin_call c t m b).1 = admission_of b \/ admission_step (admission_of b) (admission_of (begin_call c t m b).1).
Proof.
  intros Hb Ht. pose proof (bulk_begin_inv c t m b Hb Ht) as Hi. revert Hi. rewrite begin_call_eq.
  assert (admission_of b !! t = None) as Ha by (unfold admission_of; by rewrite lookup_omap, Ht).
  destruct (half_open c m b); [destruct (get_probe_lock _ b)|]; simpl; intros Hi.
  - left. unfold admission_of, leave_semaphore, end_call, on_semaphore. simpl. by rewrite delete_id.
  - right. apply (admitted_start _ _ t m Probing); [done|done|done|apply lookup_insert_eq|].
    unfold admission_of, set_call. simpl. by apply omap_insert_Some.
  - right. apply (admitted_start _ _ t m Running); [done|done|done|apply lookup_insert_eq|].
    unfold admission_of, set_call. simpl. by apply omap_insert_Some.
Qed.

Lemma enter_refines c t m b :
  bulk_inv None b -> bk_calls b !! t = None ->
  admission_of (bulk_enter c t m b).1 = admission_of b \/
  admission_step (admission_of b) (admission_of (bulk_enter c t m b).1).
Proof.
  intros Hb Ht. pose proof (bulk_enter_inv c t m b Hb Ht) as Hi. revert Hi. unfold bulk_enter.
  set (b1 := set_router _ b). assert (bulk_inv None b1) as H1 by (apply keep_router_inv; [done|intros; apply keep_stats]).
  change (admission_of b) with (admission_of b1). assert (bk_calls b1 !! t = None) as Ht1 by done. clearbody b1.
  destruct (sem_acquire t (get_semaphore (extract_provider m) b1)) as [s' got] eqn:Hacq. intros _. destruct got.
  - exact (begin_refines c t m _ (acquired_granted t m b1 s' H1 Hacq) Ht1).
  - left. unfold admission_of, set_call. simpl. rewrite omap_insert_None by done.
    apply delete_id. by rewrite lookup_omap, Ht1.
Qed.

Lemma queued_invisible t m b b' :
  bk_calls b !! t = Some (mkCall m Queued) -> bk_calls b' = delete t (bk_calls b) -> admission_of b' = admission_of b.
Proof.
  intros Ht Hc. unfold admission_of. rewrite Hc, omap_delete. apply delete_id. by rewrite lookup_omap, Ht.
Qed.

(** C15. The semaphores, probe locks and flags implement the admission
    control: every step of the coroutines either leaves the calls in flight as
    they are or starts or ends one as the admission control allows. *)
Theorem bulkhead_refines_admission s b b' :
  no_flags s -> bulk_reachable s b -> bulk_step b b' ->
  admission_of b' = admission_of b \/ admission_step (admission_of b) (admission_of b').
Proof.
  intros Hs Hr Hstep. pose proof (reachable_inv s b Hs Hr) as Hb. clear Hr.
  destruct Hstep as [c t m Ht|c t m Ht Hw|t m Ht|c t k Ht Hk|s' Hs'].
  - by apply enter_refines.
  - unfold bulk_resume. rewrite <- begin_end.
    rewrite <- (queued_invisible t m b (end_call t (on_semaphore (extract_provider m) (sem_resume t) b)) Ht eq_refl).
    apply begin_refines; [by apply resume_granted|apply lookup_delete_eq].
  - left. by apply (queued_invisible t m).
  - right. replace (admission_of (bulk_leave c t k b)) with (delete t (admission_of b)).
    + destruct k as [m ph]. apply (adm_end _ t (m, bool_decide (ph = Probing))).
      unfold admission_of. rewrite lookup_omap, Ht. by destruct ph.
    + unfold admission_of. rewrite <- omap_delete. f_equal. unfold bulk_leave. by destruct (call_phase k).
  - by left.
Qed.

End reach.

(** ** Witnesses *)

Definition demo_clock : Clock := mkClock 100 100 100.
Definition half_open_stats (m : string) : ModelStats := set_circuit HALF_OPEN (new_stats m 0).
(** Two models of one provider, both due for a probe. *)
Definition demo_router : SmartRouter :=
  put_stats "gh:a" (half_open_stats "gh:a") (put_stats "gh:b" (half_open_stats "gh:b") new_smart_router).
Definition demo_probe : Bulkhead := (bulk_enter demo_clock 0 "gh:a" (new_bulkhead demo_router)).1.

Lemma demo_no_flags : no_flags demo_router.
Proof.
  intros m. unfold probe_flag, demo_router, put_stats. simpl.
  destruct (decide (m = "gh:a")) as [->|Ha]; [by rewrite lookup_insert_eq|]. rewrite lookup_insert_ne by done.
  destruct (decide (m = "gh:b")) as [->|Hb]; [by rewrite lookup_insert_eq|]. by rewrite lookup_insert_ne.
Qed.

#[local] Abbreviation demo_step := (bulk_step default_policy default_cooldowns Router.demo_registry (Router.demo_env "")
  ∅ None (fun _ => None) (fun _ => None) (fun _ => None) (fun _ => false)).

Lemma demo_probe_step : demo_step (new_bulkhead demo_router) demo_probe.
Proof. apply step_enter. apply lookup_empty. Qed.

Lemma bulkhead_holds_witness :
  get_probe_lock "gh" demo_probe = true /\ mcount (probing "gh") (bk_calls demo_probe) = 1.
Proof.
  split; [vm_compute; reflexivity|].
  destruct (bulkhead_holds default_policy default_cooldowns Router.demo_registry (Router.demo_env "") ∅ None
    (fun _ => None) (fun _ => None) (fun _ => None) (fun _ => false) demo_router demo_probe "gh" demo_no_flags
    (rtc_once _ _ demo_probe_step)) as (_ & H & _).
  exact H.
Defined.

Lemma bulkhead_refines_admission_witness :
  admission_of demo_probe = admission_of (new_bulkhead demo_router) \/
  admission_step (admission_of (new_bulkhead demo_router)) (admission_of demo_probe).
Proof.
  exact (bulkhead_refines_admission default_policy default_cooldowns Router.demo_registry (Router.demo_env "") ∅
    None (fun _ => None) (fun _ => None) (fun _ => None) (fun _ => false) demo_router (new_bulkhead demo_router) demo_probe
    demo_no_flags (rtc_refl _ _) demo_probe_step).
Defined.

(** The probe lock belongs to the provider: while one model is probed, another
    half-open model of the provider is refused as if its circuit had been
    resolved, though it was neither probed nor changed. *)
Lemma probe_lock_shared :
  let b := bulk_enter demo_clock 1 "gh:b" demo_probe in
  b.2 = Resolved /\ half_open demo_clock "gh:b" b.1 = true /\ probe_flag (bk_router b.1) "gh:b" = false.
Proof. vm_compute. done. Qed.
