(* ===== verification/Expressions.v ===== *)
(** * Expressions (engine/expressions.py)

    The restricted evaluator behind [${...}] conditions and input mappings: the
    whitelist on the syntax tree, the tree-walking interpreter, null-safe
    namespaces and dotted paths.  [ast.parse] and [repr] are parameters; what
    objects of other libraries answer to attributes and operators is a [Host]. *)

From Stdlib Require Import QArith Qcanon Qround.
From S2P Require Import Prelude PyStr PyVal Messages.
Local Open Scope Z_scope.

(** ** Values of the interpreter

    [ENull] is a [_NullSafe], [ENs] a [_SafeNamespace], [ECoalesce] the function
    [_coalesce]; [EObj] is any other object. *)

Inductive ev :=
  | ENone
  | EBool (b : bool)
  | EInt (z : Z)
  | EFloat (q : Qc)
  | EStr (s : string)
  | EObj (type_name str_value : string)
  | ENull
  | ECoalesce
  | ENs (d : list (string * ev))
  | EList (l : list ev)
  | ETuple (l : list ev)
  | ESet (l : list ev)
  | EDict (d : list (ev * ev)).

(** A Python value as it is. *)
Fixpoint embed (v : pyval) : ev :=
  match v with
  | VNone => ENone
  | VBool b => EBool b
  | VInt z => EInt z
  | VFloat q => EFloat q
  | VStr s => EStr s
  | VList l => EList (map embed l)
  | VTuple l => ETuple (map embed l)
  | VDict d => EDict (map (fun kv => match kv with (k, x) => (EStr k, embed x) end) d)
  | VObj t s => EObj t s
  end.

(** [_to_namespace] *)
Fixpoint to_namespace (v : pyval) : ev :=
  match v with
  | VDict d => ENs (map (fun kv => match kv with (k, x) => (k, to_namespace x) end) d)
  | VList l => EList (map to_namespace l)
  | _ => embed v
  end.

(** [_from_namespace] *)
Fixpoint from_namespace (v : ev) : ev :=
  match v with
  | ENull => ENone
  | ENs d => EDict (map (fun kv => match kv with (k, x) => (EStr k, from_namespace x) end) d)
  | EDict d => EDict (map (fun kv => match kv with (k, x) => (k, from_namespace x) end) d)
  | EList l => EList (map from_namespace l)
  | _ => v
  end.

(** [bool()] *)
Definition truthy (v : ev) : bool :=
  match v with
  | ENone | ENull => false
  | EBool b => b
  | EInt z => negb (z =? 0)
  | EFloat q => negb (Qeq_bool q 0)
  | EStr s => negb (bool_decide (s = ""))
  | EList l | ETuple l | ESet l => negb (Nat.eqb (length l) 0)
  | EDict d => negb (Nat.eqb (length d) 0)
  | EObj _ _ | ECoalesce | ENs _ => true
  end.

(** Numbers: whether a float, and the value. *)
Definition num (v : ev) : option (bool * Q) :=
  match v with
  | EBool b => Some (false, inject_Z (Z.b2z b))
  | EInt z => Some (false, inject_Z z)
  | EFloat q => Some (true, this q)
  | _ => None
  end.
Definition as_int (v : ev) : option Z :=
  match v with EBool b => Some (Z.b2z b) | EInt z => Some z | _ => None end.

(** [==] *)
Fixpoint py_eq (a b : ev) {struct a} : bool :=
  match a, b with
  | ENone, ENone | ENone, ENull | ENull, ENone | ENull, ENull | ECoalesce, ECoalesce => true
  | EStr s, EStr s' => bool_decide (s = s')
  | EObj t s, EObj t' s' => bool_decide (t = t') && bool_decide (s = s')
  | EList l, EList l' | ETuple l, ETuple l' =>
      (fix go l l' := match l, l' with
                      | [], [] => true
                      | x :: l, y :: l' => py_eq x y && go l l'
                      | _, _ => false
                      end) l l'
  | ENs d, ENs d' =>
      Nat.eqb (length d) (length d') &&
      forallb (fun kv => match kv with (k, x) => match od_get k d' with Some y => py_eq x y | None => false end end) d
  | ESet l, ESet l' => Nat.eqb (length l) (length l') && forallb (fun x => existsb (py_eq x) l') l
  | EDict d, EDict d' =>
      Nat.eqb (length d) (length d') &&
      forallb (fun kv => match kv with
                         | (k, x) => existsb (fun kv' => py_eq k kv'.1 && py_eq x kv'.2) d'
                         end) d
  | _, _ => match num a, num b with Some (_, x), Some (_, y) => Qeq_bool x y | _, _ => false end
  end.

Fixpoint hashable (v : ev) : bool :=
  match v with
  | EList _ | ESet _ | EDict _ | ENs _ => false
  | ETuple l => forallb hashable l
  | _ => true
  end.

Definition unhashable {A} : res A := Raise (TypeError "unhashable type").

(** [dict.get] and item assignment. *)
Definition dict_get (k : ev) (d : list (ev * ev)) : option ev :=
  snd <$> find (fun kv => py_eq kv.1 k) d.
Fixpoint dict_set (k x : ev) (d : list (ev * ev)) : list (ev * ev) :=
  match d with
  | [] => [(k, x)]
  | (k', y) :: d' => if py_eq k' k then (k', x) :: d' else (k', y) :: dict_set k x d'
  end.
Definition set_add (x : ev) (l : list ev) : list ev := if existsb (fun y => py_eq y x) l then l else l ++ [x].

(** ** The syntax tree *)

Inductive binop := Add | Sub | Mult | Div | Mod | OtherBin (class_name : string).
Inductive unop := USub | UAdd | UNot | OtherUn (class_name : string).
Inductive boolop := And | Or.
Inductive cmpop := CEq | CNotEq | CLt | CLtE | CGt | CGtE | CIs | CIsNot | CIn | CNotIn.

(** [Other] is a node of any other class, with its children. *)
Inductive expr :=
  | Constant (v : ev)
  | Name (id : string)
  | Attribute (value : expr) (attr : string)
  | Subscript (value slice : expr)
  | BinOp (op : binop) (left right : expr)
  | UnaryOp (op : unop) (operand : expr)
  | BoolOp (op : boolop) (values : list expr)
  | Compare (left : expr) (rest : list (cmpop * expr))
  | Call (func : expr) (args keywords : list expr)
  | ListE (elts : list expr)
  | TupleE (elts : list expr)
  | SetE (elts : list expr)
  | DictE (items : list (option expr * expr))
  | Other (class_name : string) (children : list expr).

Definition dunder (name : string) : bool := startswith name "__".

(** [_validate_ast]: every node of the tree is allowed. *)
Fixpoint allowed (e : expr) : bool :=
  match e with
  | Constant _ => true
  | Name id => negb (dunder id)
  | Attribute v a => negb (dunder a) && allowed v
  | Subscript v s => allowed v && allowed s
  | BinOp op l r => (match op with OtherBin _ => false | _ => true end) && allowed l && allowed r
  | UnaryOp op e => (match op with OtherUn _ => false | _ => true end) && allowed e
  | BoolOp _ es | ListE es | TupleE es | SetE es => forallb allowed es
  | Compare l rest => allowed l && forallb (fun oe => match oe with (_, e) => allowed e end) rest
  | Call f args kws => allowed f && forallb allowed args && Nat.eqb (length kws) 0
  | DictE items =>
      forallb (fun kv => match kv with (k, v) => match k with Some k => allowed k | None => true end && allowed v end) items
  | Other _ _ => false
  end.

Definition validate_ast (e : expr) : res unit :=
  if allowed e then Ok tt else Raise (ValueError "Unsupported expression element").

(** ** Operators *)

(** What other objects answer: attributes, operators, ordering and containment,
    and whether two values are one object. *)
Record Host := mkHost {
  host_attr : ev -> string -> option ev;
  host_binop : binop -> ev -> ev -> res ev;
  host_unop : unop -> ev -> res ev;
  host_compare : cmpop -> ev -> ev -> res bool;
  host_same : ev -> ev -> bool;
}.

Definition MAX_SEQUENCE_MULTIPLY : Z := 10000.

(** The length of what [isinstance(_, (str, bytes, list, tuple))] accepts. *)
Definition seq_len (v : ev) : option Z :=
  match v with
  | EStr s => Some (Z.of_nat (String.length s))
  | EList l | ETuple l => Some (Z.of_nat (length l))
  | _ => None
  end.

Definition repeat_seq {A} (l : list A) (n : Z) : list A := mjoin (replicate (Z.to_nat n) l).

Definition multiply (v : ev) (n : Z) : ev :=
  match v with
  | EStr s => EStr (of_chars (repeat_seq (chars s) n))
  | EList l => EList (repeat_seq l n)
  | ETuple l => ETuple (repeat_seq l n)
  | _ => v
  end.

Section interpreter.
Context (h : Host).

Definition number (is_float : bool) (q : Q) : ev := if is_float then EFloat (Q2Qc q) else EInt (Qfloor q).

Definition arithmetic (op : binop) (f f' : bool) (x y : Q) : res ev :=
  match op with
  | Add => Ok (number (f || f') (x + y)%Q)
  | Sub => Ok (number (f || f') (x - y)%Q)
  | Mult => Ok (number (f || f') (x * y)%Q)
  | Div => if Qeq_bool y 0 then Raise ZeroDivisionError else Ok (EFloat (Q2Qc (x / y)))
  | Mod => if Qeq_bool y 0 then Raise ZeroDivisionError
           else Ok (number (f || f') (x - y * inject_Z (Qfloor (x / y)))%Q)
  | OtherBin c => Raise (ValueError ("Unsupported binary operator: " +:+ c))
  end.

(** The operators themselves, then those of other objects. *)
Definition apply_binop (op : binop) (a b : ev) : res ev :=
  match num a, num b with
  | Some (f, x), Some (f', y) => arithmetic op f f' x y
  | _, _ =>
      match op, a, b with
      | Add, EStr s, EStr s' => Ok (EStr (s +:+ s'))
      | Add, EList l, EList l' => Ok (EList (l ++ l'))
      | Add, ETuple l, ETuple l' => Ok (ETuple (l ++ l'))
      | OtherBin c, _, _ => Raise (ValueError ("Unsupported binary operator: " +:+ c))
      | Mult, _, _ =>
          match seq_len a, as_int b, seq_len b, as_int a with
          | Some _, Some n, _, _ => Ok (multiply a n)
          | _, _, Some _, Some n => Ok (multiply b n)
          | _, _, _, _ => host_binop h op a b
          end
      | _, _, _ => host_binop h op a b
      end
  end.

(** The cap on what a multiplication may allocate. *)
Definition multiply_size (a b : ev) : option Z :=
  match seq_len a, as_int b with
  | Some n, Some k => Some (n * k)
  | _, _ => match seq_len b, as_int a with Some n, Some k => Some (n * k) | _, _ => None end
  end.
Definition capped (op : binop) (a b : ev) : bool :=
  match op with
  | Mult => match multiply_size a b with Some n => negb (MAX_SEQUENCE_MULTIPLY <? n) | None => true end
  | _ => true
  end.

Definition apply_unop (op : unop) (v : ev) : res ev :=
  match op with
  | UNot => Ok (EBool (negb (truthy v)))
  | USub => match num v with Some (f, q) => Ok (number f (- q)%Q) | None => host_unop h op v end
  | UAdd => match num v with Some (f, q) => Ok (number f q) | None => host_unop h op v end
  | OtherUn c => Raise (ValueError ("Unsupported unary operator: " +:+ c))
  end.

Definition order_q (op : cmpop) (x y : Q) : bool :=
  match op with
  | CLt => negb (Qle_bool y x)
  | CLtE => Qle_bool x y
  | CGt => negb (Qle_bool x y)
  | _ => Qle_bool y x
  end.
Definition order_c (op : cmpop) (c : comparison) : bool :=
  match op, c with
  | CLt, Datatypes.Lt | CGt, Datatypes.Gt => true
  | CLtE, (Datatypes.Lt | Datatypes.Eq) | CGtE, (Datatypes.Gt | Datatypes.Eq) => true
  | _, _ => false
  end.

(** [<], [<=], [>], [>=]: lexicographic on sequences. *)
Fixpoint order (op : cmpop) (a b : ev) {struct a} : res bool :=
  match a, b with
  | EStr s, EStr s' => Ok (order_c op (String.compare s s'))
  | EList l, EList l' | ETuple l, ETuple l' =>
      (fix go l l' := match l, l' with
                      | [], _ | _, [] => Ok (order_c op (Nat.compare (length l) (length l')))
                      | x :: l, y :: l' => if py_eq x y then go l l' else order op x y
                      end) l l'
  | _, _ => match num a, num b with
            | Some (_, x), Some (_, y) => Ok (order_q op x y)
            | _, _ => host_compare h op a b
            end
  end.

Definition py_in (a b : ev) : res bool :=
  match b with
  | EList l | ETuple l => Ok (existsb (fun x => py_eq x a) l)
  | ESet l => if hashable a then Ok (existsb (fun x => py_eq x a) l) else unhashable
  | EDict d => if hashable a then Ok (existsb (fun kv => py_eq kv.1 a) d) else unhashable
  | EStr s => match a with
              | EStr n => Ok (contains s n)
              | _ => Raise (TypeError "'in <string>' requires string as left operand")
              end
  | _ => host_compare h CIn a b
  end.

Definition py_is (a b : ev) : bool :=
  match a, b with
  | ENone, ENone | ECoalesce, ECoalesce => true
  | EBool x, EBool y => Bool.eqb x y
  | ENone, _ | _, ENone | EBool _, _ | _, EBool _ | ECoalesce, _ | _, ECoalesce => false
  | _, _ => host_same h a b
  end.

Definition apply_cmpop (op : cmpop) (a b : ev) : res bool :=
  match op with
  | CEq => Ok (py_eq a b)
  | CNotEq => Ok (negb (py_eq a b))
  | CIs => Ok (py_is a b)
  | CIsNot => Ok (negb (py_is a b))
  | CIn => py_in a b
  | CNotIn => c ← py_in a b; Ok (negb c)
  | _ => order op a b
  end.

(** [_coalesce] *)
Definition coalesce (args : list ev) : ev :=
  default ENone (find (fun v => match v with ENone | ENull => false | _ => true end) args).

(** [getattr] and [dict.get] of an attribute node. *)
Definition get_attribute (obj : ev) (attr : string) : ev :=
  match obj with
  | EDict d => default ENull (dict_get (EStr attr) d)
  | ENs d => default ENull (od_get attr d)
  | ENull => ENull
  | _ => default ENull (host_attr h obj attr)
  end.

Definition nth_item (k : Z) (l : list ev) : option ev := if 0 <=? k then l !! Z.to_nat k else None.

Definition get_item (obj key : ev) : res ev :=
  match obj with
  | EDict d => if hashable key then Ok (default ENull (dict_get key d)) else unhashable
  | EList l | ETuple l => Ok (match as_int key with Some k => default ENull (nth_item k l) | None => ENull end)
  | _ => Ok ENull
  end.

(** [_eval_node] *)
Fixpoint eval_node (env : odict ev) (e : expr) : res ev :=
  match e with
  | Constant v => Ok v
  | Name id =>
      if dunder id then Raise (ValueError "Dunder name reference is not allowed")
      else match od_get id env with Some v => Ok v | None => Raise (NameError id) end
  | Attribute v attr =>
      if dunder attr then Raise (ValueError "Dunder attribute access is not allowed")
      else obj ← eval_node env v; Ok (get_attribute obj attr)
  | Subscript v s => obj ← eval_node env v; key ← eval_node env s; get_item obj key
  | BinOp op l r =>
      match op with
      | OtherBin c => Raise (ValueError ("Unsupported binary operator: " +:+ c))
      | _ =>
          a ← eval_node env l; b ← eval_node env r;
          if capped op a b then apply_binop op a b
          else Raise (ValueError "Sequence multiply exceeds maximum allowed size")
      end
  | UnaryOp op e =>
      match op with
      | OtherUn c => Raise (ValueError ("Unsupported unary operator: " +:+ c))
      | _ => v ← eval_node env e; apply_unop op v
      end
  | BoolOp op es =>
      (fix go (es : list expr) (result : ev) : res ev :=
         match es with
         | [] => Ok result
         | e :: es =>
             v ← eval_node env e;
             if match op with And => negb (truthy v) | Or => truthy v end then Ok v else go es v
         end) es (EBool match op with And => true | Or => false end)
  | Compare l rest =>
      a ← eval_node env l;
      (fix go (rest : list (cmpop * expr)) (left : ev) : res ev :=
         match rest with
         | [] => Ok (EBool true)
         | (op, e) :: rest =>
             right ← eval_node env e;
             c ← apply_cmpop op left right;
             if (c : bool) then go rest right else Ok (EBool false)
         end) rest a
  | Call f args _ =>
      func ← eval_node env f;
      match func with
      | ECoalesce =>
          vs ← (fix go (es : list expr) : res (list ev) :=
                  match es with [] => Ok [] | e :: es => v ← eval_node env e; vs ← go es; Ok (v :: vs) end) args;
          Ok (coalesce vs)
      | _ => Raise (ValueError "Only coalesce() may be called in expressions")
      end
  | ListE es =>
      vs ← (fix go (es : list expr) : res (list ev) :=
              match es with [] => Ok [] | e :: es => v ← eval_node env e; vs ← go es; Ok (v :: vs) end) es;
      Ok (EList vs)
  | TupleE es =>
      vs ← (fix go (es : list expr) : res (list ev) :=
              match es with [] => Ok [] | e :: es => v ← eval_node env e; vs ← go es; Ok (v :: vs) end) es;
      Ok (ETuple vs)
  | SetE es =>
      (fix go (es : list expr) (acc : list ev) : res ev :=
         match es with
         | [] => Ok (ESet acc)
         | e :: es => v ← eval_node env e; if hashable v then go es (set_add v acc) else unhashable
         end) es []
  | DictE items =>
      (fix go (items : list (option expr * expr)) (acc : list (ev * ev)) : res ev :=
         match items with
         | [] => Ok (EDict acc)
         | (None, _) :: _ => Raise (ValueError "dict unpacking (**) is not supported in expressions")
         | (Some k, e) :: items =>
             v ← eval_node env e; key ← eval_node env k;
             if hashable key then go items (dict_set key v acc) else unhashable
         end) items []
  | Other c _ => Raise (ValueError ("Unsupported expression element: " +:+ c))
  end.
End interpreter.

(** ** Dotted paths *)

Inductive token := TName (s : string) | TIndex (z : Z).

#[export] Instance token_eq_dec : EqDecision token.
Proof. solve_decision. Defined.

Definition is_quote (c : Ascii.ascii) : bool :=
  bool_decide (Ascii.nat_of_ascii c = 39%nat) || bool_decide (Ascii.nat_of_ascii c = 34%nat).
Definition ends_with_quote (l : list Ascii.ascii) : bool :=
  match last l with Some c => is_quote c | None => false end.
Definition starts_with_quote (l : list Ascii.ascii) : bool :=
  match l with c :: _ => is_quote c | [] => false end.

(** [_coerce_index_token] *)
Definition coerce_index_token (index_text : string) : token :=
  let l := chars index_text in
  if starts_with_quote l && ends_with_quote l then TName (of_chars (removelast (tl l)))
  else match int_of_string index_text with Some z => TIndex z | None => TName index_text end.

(** The text before the first [c] and after it. *)
Fixpoint split_at (c : Ascii.ascii) (l : list Ascii.ascii) : option (list Ascii.ascii * list Ascii.ascii) :=
  match l with
  | [] => None
  | x :: l' => if decide (x = c) then Some ([], l')
               else match split_at c l' with Some (a, b) => Some (x :: a, b) | None => None end
  end.

Definition flush (buffer : list Ascii.ascii) (tokens : list token) : list token :=
  match buffer with [] => tokens | _ => tokens ++ [TName (of_chars buffer)] end.

(** [_parse_path]: one character, or one bracket, per round. *)
Fixpoint parse_path_loop (fuel : nat) (l buffer : list Ascii.ascii) (tokens : list token) : list token :=
  match fuel with
  | O => []
  | S fuel =>
      match l with
      | [] => flush buffer tokens
      | c :: l' =>
          if decide (c = "."%char) then parse_path_loop fuel l' [] (flush buffer tokens)
          else if decide (c = "["%char) then
            match split_at "]"%char l' with
            | None => []
            | Some (text, rest) =>
                parse_path_loop fuel rest []
                  (flush buffer tokens ++ [coerce_index_token (of_chars (strip_chars text))])
            end
          else parse_path_loop fuel l' (buffer ++ [c]) tokens
      end
  end.
Definition parse_path (path : string) : list token :=
  parse_path_loop (S (length (chars path))) (chars path) [] [].

Section evaluator.
Context (h : Host) (parse : string -> res expr) (repr : ev -> string) (isoformat : Z -> string).

(** [_navigate] *)
Fixpoint navigate (obj : ev) (path : list token) : ev :=
  match path with
  | [] => obj
  | key :: path =>
      match obj with
      | ENone => ENone
      | _ =>
          match key with
          | TIndex k =>
              match obj with
              | EList l | ETuple l => match nth_item k l with Some x => navigate x path | None => ENone end
              | _ => ENone
              end
          | TName s =>
              match obj with
              | EDict d => navigate (default ENone (dict_get (EStr s) d)) path
              | _ => match host_attr h obj s with Some x => navigate x path | None => ENone end
              end
          end
      end
  end.

Definition opt_str (s : option string) : pyval := match s with Some s => VStr s | None => VNone end.

(** [_build_step_views]: the fields of a [StepResultView]. *)
Definition step_view (r : StepResult) : odict pyval :=
  [("status", VStr (status_value (sr_status r))); ("output", VDict (sr_output_data r));
   ("outputs", VDict (sr_output_data r)); ("error", opt_str (sr_error r)); ("error_type", opt_str (sr_error_type r));
   ("completed_at", opt_str (isoformat <$> sr_end_time r))].

Definition ctx_steps (vars : odict pyval) : odict pyval :=
  match od_get "steps" vars with Some (VDict d) => d | _ => [] end.

(** [_get_step_view]; [vars] is [ctx.all_variables()]. *)
Definition get_step_view (vars : odict pyval) (step_results : odict StepResult) (name : string) : ev :=
  let ctx_step := match od_get name (ctx_steps vars) with Some (VDict d) => Some d | _ => None end in
  match od_get name step_results, ctx_step with
  | Some r, None => embed (VDict (step_view r))
  | Some r, Some d => embed (VDict (od_update (step_view r) d))
  | None, Some d =>
      match od_get "outputs" d with
      | Some o => embed (VDict (if od_mem "output" d then d else od_set "output" o d))
      | None => embed (VDict d)
      end
  | None, None => ENone
  end.

(** [_resolve_path] *)
Definition resolve_path (vars : odict pyval) (step_results : odict StepResult) (path : string) : ev :=
  match parse_path path with
  | [] => ENone
  | source :: rest =>
      if decide (source = TName "steps") then
        match rest with
        | TName name :: rest => navigate (get_step_view vars step_results name) rest
        | _ => ENone
        end
      else if decide (source = TName "ctx") then navigate (embed (VDict vars)) rest
      else navigate (embed (VDict vars)) (source :: rest)
  end.

Definition is_dict (v : pyval) : bool := match v with VDict _ => true | _ => false end.

(** The environment of [_safe_eval]. *)
Definition merge_views (step_results : odict StepResult) (vars : odict pyval) : odict pyval :=
  let views := (fun kv => (kv.1, VDict (step_view kv.2))) <$> step_results in
  views ++ filter (fun kv => is_dict kv.2 = true /\ kv.1 ∉ od_keys views) (ctx_steps vars).

Definition base_env (vars : odict pyval) (step_results : odict StepResult) : odict ev :=
  [("ctx", to_namespace (VDict vars)); ("steps", to_namespace (VDict (merge_views step_results vars)));
   ("coalesce", ECoalesce)].
Definition add_name (env : odict ev) (kv : string * pyval) : odict ev :=
  if od_mem kv.1 env then env else od_set kv.1 (to_namespace kv.2) env.
Definition eval_env (vars : odict pyval) (step_results : odict StepResult) : odict ev :=
  foldl add_name (base_env vars step_results) vars.

Definition safe_eval (vars : odict pyval) (step_results : odict StepResult) (expression : string) : res ev :=
  e ← parse expression;
  _ ← validate_ast e;
  eval_node h (eval_env vars step_results) e.

Definition resolve_variable (vars : odict pyval) (step_results : odict StepResult) (path : string) : res ev :=
  v ← (if has_char "("%char path then safe_eval vars step_results path
       else Ok (resolve_path vars step_results path));
  Ok (from_namespace v).

(** [VARIABLE_PATTERN], [\$\{([^}]+)\}], at the start of a text. *)
Definition match_variable (l : list Ascii.ascii) : option (list Ascii.ascii * list Ascii.ascii) :=
  match l with
  | "$"%char :: "{"%char :: l =>
      match split_at "}"%char l with
      | Some (_ :: _ as group, rest) => Some (group, rest)
      | _ => None
      end
  | _ => None
  end.
Definition fullmatch_variable (s : string) : option string :=
  match match_variable (chars s) with Some (group, []) => Some (of_chars group) | _ => None end.
Fixpoint search_variable (l : list Ascii.ascii) : bool :=
  match match_variable l with
  | Some _ => true
  | None => match l with [] => false | _ :: l' => search_variable l' end
  end.

(** [VARIABLE_PATTERN.sub(_sub, expression)] *)
Fixpoint substitute (fuel : nat) (vars : odict pyval) (step_results : odict StepResult) (l : list Ascii.ascii)
  : res (list Ascii.ascii) :=
  match fuel with
  | O => Raise OutOfFuel
  | S fuel =>
      match match_variable l, l with
      | Some (group, rest), _ =>
          v ← resolve_variable vars step_results (of_chars (strip_chars group));
          out ← substitute fuel vars step_results rest;
          Ok (chars (repr v) ++ out)
      | None, [] => Ok []
      | None, c :: l' => out ← substitute fuel vars step_results l'; Ok (c :: out)
      end
  end.

(** [evaluate] *)
Definition evaluate_text (vars : odict pyval) (step_results : odict StepResult) (expression : string) : res bool :=
  if decide (lower expression ∈ ["true"; "false"]) then Ok (bool_decide (lower expression = "true"))
  else
    match safe_eval vars step_results expression with
    | Ok v => Ok (truthy v)
    | Raise (AttributeError _ | SyntaxError) => Ok (contains expression " not in " || contains expression " != ")
    | Raise x => Raise x
    end.

Definition evaluate (vars : odict pyval) (step_results : odict StepResult) (e : pyval) : res bool :=
  match e with
  | VBool b => Ok b
  | VNone => Ok false
  | VStr s =>
      let expression := strip s in
      expression ← match fullmatch_variable expression with
                   | Some inner => Ok (strip inner)
                   | None => if search_variable (chars expression)
                             then out ← substitute (S (length (chars expression))) vars step_results (chars expression);
                                  Ok (of_chars out)
                             else Ok expression
                   end;
      evaluate_text vars step_results expression
  | v => Ok (truthy (embed v))
  end.

(** [evaluate_safe_expression]: the entry for texts whose variables were
    substituted before. *)
Definition evaluate_safe_expression (expression : string) : res ev :=
  match (e ← parse expression; _ ← validate_ast e; eval_node h [("coalesce", ECoalesce)] e) with
  | Raise (SyntaxError | ValueError _ | NameError _ | TypeError _ | ZeroDivisionError) =>
      Raise (ValueError "ExpressionError")
  | o => o
  end.
End evaluator.
