(* ===== verification/ExpressionsFacts.v ===== *)
(** * Correctness of the expression evaluator

    The sandbox: what the interpreter can reach, which errors a validated
    expression can raise and how much it can allocate; and the agreement of the
    two ways to read a dotted path. *)

From Stdlib Require Import QArith Qcanon.
From S2P Require Import Prelude PyStr PyVal Messages Expressions.
Local Open Scope nat_scope.

(** ** Induction over syntax trees and values *)

Section expr_ind_nested.
  Variable P : expr -> Prop.
  Hypothesis HConstant : forall v, P (Constant v).
  Hypothesis HName : forall id, P (Name id).
  Hypothesis HAttribute : forall v a, P v -> P (Attribute v a).
  Hypothesis HSubscript : forall v s, P v -> P s -> P (Subscript v s).
  Hypothesis HBinOp : forall op l r, P l -> P r -> P (BinOp op l r).
  Hypothesis HUnaryOp : forall op e, P e -> P (UnaryOp op e).
  Hypothesis HBoolOp : forall op es, Forall P es -> P (BoolOp op es).
  Hypothesis HCompare : forall l rest, P l -> Forall (fun oe => P oe.2) rest -> P (Compare l rest).
  Hypothesis HCall : forall f args kws, P f -> Forall P args -> P (Call f args kws).
  Hypothesis HList : forall es, Forall P es -> P (ListE es).
  Hypothesis HTuple : forall es, Forall P es -> P (TupleE es).
  Hypothesis HSet : forall es, Forall P es -> P (SetE es).
  Hypothesis HDict : forall items,
    Forall (fun kv => (forall k, kv.1 = Some k -> P k) /\ P kv.2) items -> P (DictE items).
  Hypothesis HOther : forall c es, P (Other c es).

Fixpoint expr_nested_ind (e : expr) : P e :=
    let go := fix go (es : list expr) : Forall P es :=
      match es with [] => Forall_nil_2 _ | e :: es => Forall_cons_2 _ _ _ (expr_nested_ind e) (go es) end in
    match e with
    | Constant v => HConstant v
    | Name id => HName id
    | Attribute v a => HAttribute v a (expr_nested_ind v)
    | Subscript v s => HSubscript v s (expr_nested_ind v) (expr_nested_ind s)
    | BinOp op l r => HBinOp op l r (expr_nested_ind l) (expr_nested_ind r)
    | UnaryOp op e => HUnaryOp op e (expr_nested_ind e)
    | BoolOp op es => HBoolOp op es (go es)
    | Compare l rest => HCompare l rest (expr_nested_ind l)
        ((fix gor (rest : list (cmpop * expr)) : Forall (fun oe => P oe.2) rest :=
            match rest with
            | [] => Forall_nil_2 _
            | (op, e) :: rest => Forall_cons_2 (fun oe => P oe.2) (op, e) rest (expr_nested_ind e) (gor rest)
            end) rest)
    | Call f args kws => HCall f args kws (expr_nested_ind f) (go args)
    | ListE es => HList es (go es)
    | TupleE es => HTuple es (go es)
    | SetE es => HSet es (go es)
    | DictE items => HDict items
        ((fix god (items : list (option expr * expr))
            : Forall (fun kv => (forall k, kv.1 = Some k -> P k) /\ P kv.2) items :=
            match items with
            | [] => Forall_nil_2 _
            | (k, e) :: items =>
                Forall_cons_2 (fun kv => (forall k, kv.1 = Some k -> P k) /\ P kv.2) (k, e) items
                  (conj (fun k' Hk => match Hk in _ = o return match o with Some k' => P k' | None => True end with
                                      | eq_refl => match k as k return match k with Some k => P k | None => True end with
                                                   | Some k => expr_nested_ind k | None => I end
                                      end) (expr_nested_ind e)) (god items)
            end) items)
    | Other c es => HOther c es
    end.
End expr_ind_nested.

(** ** The interpreter's loops over lists of expressions *)

Section loops.
Context (h : Host) (env : odict ev).

Fixpoint eval_list (es : list expr) : res (list ev) :=
  match es with [] => Ok [] | e :: es => v ← eval_node h env e; vs ← eval_list es; Ok (v :: vs) end.
Definition eval_bool (op : boolop) : list expr -> ev -> res ev :=
  fix go es result :=
    match es with
    | [] => Ok result
    | e :: es =>
        v ← eval_node h env e;
        if match op with And => negb (truthy v) | Or => truthy v end then Ok v else go es v
    end.
Fixpoint eval_chain (rest : list (cmpop * expr)) (left : ev) : res ev :=
  match rest with
  | [] => Ok (EBool true)
  | (op, e) :: rest =>
      right ← eval_node h env e;
      c ← apply_cmpop h op left right;
      if (c : bool) then eval_chain rest right else Ok (EBool false)
  end.
Fixpoint eval_set (es : list expr) (acc : list ev) : res ev :=
  match es with
  | [] => Ok (ESet acc)
  | e :: es => v ← eval_node h env e; if hashable v then eval_set es (set_add v acc) else unhashable
  end.
Fixpoint eval_dict (items : list (option expr * expr)) (acc : list (ev * ev)) : res ev :=
  match items with
  | [] => Ok (EDict acc)
  | (None, _) :: _ => Raise (ValueError "dict unpacking (**) is not supported in expressions")
  | (Some k, e) :: items =>
      v ← eval_node h env e; key ← eval_node h env k;
      if hashable key then eval_dict items (dict_set key v acc) else unhashable
  end.

Lemma eval_BoolOp op es :
  eval_node h env (BoolOp op es) = eval_bool op es (EBool match op with And => true | Or => false end).
Proof. reflexivity. Qed.
Lemma eval_Compare l rest : eval_node h env (Compare l rest) = a ← eval_node h env l; eval_chain rest a.
Proof. reflexivity. Qed.
Lemma eval_Call f args kws : eval_node h env (Call f args kws) =
  func ← eval_node h env f;
  match func with
  | ECoalesce => vs ← eval_list args; Ok (coalesce vs)
  | _ => Raise (ValueError "Only coalesce() may be called in expressions")
  end.
Proof. reflexivity. Qed.
Lemma eval_ListE es : eval_node h env (ListE es) = vs ← eval_list es; Ok (EList vs).
Proof. reflexivity. Qed.
Lemma eval_TupleE es : eval_node h env (TupleE es) = vs ← eval_list es; Ok (ETuple vs).
Proof. reflexivity. Qed.
Lemma eval_SetE es : eval_node h env (SetE es) = eval_set es [].
Proof. reflexivity. Qed.
Lemma eval_DictE items : eval_node h env (DictE items) = eval_dict items [].
Proof. reflexivity. Qed.
End loops.

Create Rewrite HintDb eval.
#[export] Hint Rewrite eval_BoolOp eval_Compare eval_Call eval_ListE eval_TupleE eval_SetE eval_DictE : eval.

(** ** No dunder attribute *)

Section dunder.
Context (h h' : Host) (env : odict ev).
Hypothesis Hattr : forall v a, dunder a = false -> host_attr h v a = host_attr h' v a.
Hypothesis Hrest : host_binop h = host_binop h' /\ host_unop h = host_unop h' /\
  host_compare h = host_compare h' /\ host_same h = host_same h'.

Lemma same_binop op a b : apply_binop h op a b = apply_binop h' op a b.
Proof. unfold apply_binop. by destruct Hrest as (-> & _). Qed.

Lemma same_cmpop op a b : apply_cmpop h op a b = apply_cmpop h' op a b.
Proof.
  destruct Hrest as (_ & _ & Hc & Hs). unfold apply_cmpop, py_is, py_in. rewrite Hc, Hs.
  assert (forall a b, order h op a b = order h' op a b) as Ho; [|destruct op; done].
  clear a b. fix IH 1. intros a b.
  destruct a as [| | | | | | | |d|l|l|l|d], b as [| | | | | | | |d'|l'|l'|l'|d']; cbn; try reflexivity; try (by rewrite Hc).
  all: revert l'; induction l as [|x l IHl]; intros [|y l']; try reflexivity;
    destruct (py_eq x y); [apply IHl|apply IH].
Qed.

Lemma same_list es : Forall (fun e => eval_node h env e = eval_node h' env e) es -> eval_list h env es = eval_list h' env es.
Proof. induction 1 as [|e es He _ IH]; simpl; [done|]. by rewrite He, IH. Qed.

(** No expression, validated or not, can reach an attribute whose name
    starts with two underscores: its value and its errors are the same whatever
    objects answer to such names, so no class, subclass list, module or builtin
    is reachable through them. *)
Theorem dunder_unreachable e : eval_node h env e = eval_node h' env e.
Proof.
  induction e as [v|id|v a IH|v s IH1 IH2|op l r IH1 IH2|op e IH|op es IH|l rest IHl IH|f args kws IHf IH|es IH|es IH|es IH|items IH|c es]
    using expr_nested_ind; autorewrite with eval; try (simpl; congruence).
  - simpl. destruct (dunder a) eqn:Ha; [done|]. rewrite IH. destruct (eval_node h' env v) as [obj|]; [|done].
    simpl. unfold get_attribute. by destruct obj; rewrite ?Hattr.
  - simpl. by rewrite IH1, IH2.
  - simpl. rewrite IH1, IH2. destruct op; try done; destruct (eval_node h' env l); try done; simpl;
      destruct (eval_node h' env r); try done; simpl; by rewrite same_binop.
  - simpl. rewrite IH. destruct Hrest as (_ & Hu & _).
    destruct op; try done; destruct (eval_node h' env e); try done; simpl; by rewrite Hu.
  - generalize (EBool match op with And => true | Or => false end).
    induction IH as [|e es He _ IH]; intros v; simpl; [done|]. rewrite He.
    destruct (eval_node h' env e); [|done]. simpl. by destruct op, (truthy _); simpl; rewrite ?IH.
  - rewrite IHl. destruct (eval_node h' env l) as [a|]; [|done]. simpl. clear IHl. revert a.
    induction IH as [|[op e] rest He _ IH]; intros a; simpl; [done|]. simpl in He. rewrite He.
    destruct (eval_node h' env e) as [b|]; [|done]. simpl. rewrite same_cmpop.
    by destruct (apply_cmpop h' op a b) as [[|]|]; simpl; rewrite ?IH.
  - by rewrite IHf, (same_list args).
  - by rewrite (same_list es).
  - by rewrite (same_list es).
  - generalize (@nil ev). induction IH as [|e es He _ IH]; intros acc; simpl; [done|]. rewrite He.
    destruct (eval_node h' env e) as [v|]; [|done]. simpl. destruct (hashable v); [apply IH|done].
  - generalize (@nil (ev * ev)). induction IH as [|[[k|] e] items [Hk He] _ IH]; intros acc; simpl; [done| |done].
    simpl in He. rewrite He, (Hk k eq_refl). destruct (eval_node h' env e) as [v|]; [|done]. simpl.
    destruct (eval_node h' env k) as [key|]; [|done]. simpl. destruct (hashable key); [apply IH|done].
Qed.
End dunder.

(** ** The whitelist and the interpreter agree *)

(** The errors of a node the interpreter does not know or refuses. *)
Definition unsupported (x : exn) : bool :=
  match x with ValueError m => startswith m "Unsupported" || startswith m "Dunder" | _ => false end.
Definition supported {A} (m : res A) : Prop := match m with Raise x => unsupported x = false | Ok _ => True end.

Lemma supported_bind {A B} (m : res A) (f : A -> res B) :
  supported m -> (forall a, m = Ok a -> supported (f a)) -> supported (m ≫= f).
Proof. destruct m as [a|x]; simpl; [intros _ H; by apply H|done]. Qed.

Section supported.
Context (h : Host) (env : odict ev).
Hypothesis Hbin : forall op a b, supported (host_binop h op a b).
Hypothesis Hun : forall op a, supported (host_unop h op a).
Hypothesis Hcmp : forall op a b, supported (host_compare h op a b).

Lemma binop_supported op a b : (forall c, op ≠ OtherBin c) -> supported (apply_binop h op a b).
Proof.
  intros Hop. unfold apply_binop. destruct (num a) as [[f x]|], (num b) as [[f' y]|].
  1: { unfold arithmetic. destruct op; try done; try (by destruct (Qeq_bool y 0)). by destruct (Hop class_name). }
  all: destruct op as [| | | | |c]; [..|by destruct (Hop c)]; destruct a, b; try done; try apply Hbin; simpl;
    repeat (match goal with |- supported (match ?x with _ => _ end) => destruct x end); try done; apply Hbin.
Qed.

Lemma order_supported op a b : supported (order h op a b).
Proof.
  revert a b. fix IH 1. intros a b.
  destruct a as [| | | | | | | |d|l|l|l|d], b as [| | | | | | | |d'|l'|l'|l'|d']; cbn; try exact I; try apply Hcmp.
  all: revert l'; induction l as [|x l IHl]; intros [|y l']; try exact I;
    destruct (py_eq x y); [apply IHl|apply IH].
Qed.

Lemma cmpop_supported op a b : supported (apply_cmpop h op a b).
Proof.
  assert (supported (py_in h a b)) as Hin.
  { unfold py_in. destruct b; try apply Hcmp; try done; first [by destruct a|by destruct (hashable a)]. }
  unfold apply_cmpop. destruct op; try done; try apply order_supported.
  apply supported_bind; [apply Hin|done].
Qed.

Lemma list_supported es :
  Forall (fun e => allowed e = true -> supported (eval_node h env e)) es -> forallb allowed es = true ->
  supported (eval_list h env es).
Proof.
  induction 1 as [|e es He _ IH]; simpl; [done|]. intros [H1 H2]%andb_true_iff.
  apply supported_bind; [by apply He|]. intros v _. apply supported_bind; [by apply IH|done].
Qed.

(** The whitelist and the interpreter agree: an expression that
    [_validate_ast] accepts never runs into a node, operator or name that
    [_eval_node] refuses as unsupported, whatever its values and operands. *)
Theorem validated_is_supported e : validate_ast e = Ok tt -> supported (eval_node h env e).
Proof.
  unfold validate_ast. destruct (allowed e) eqn:Ha; [intros _|done]. revert Ha.
  induction e as [v|id|v a IH|v s IH1 IH2|op l r IH1 IH2|op e IH|op es IH|l rest IHl IH|f args kws IHf IH|es IH|es IH|es IH|items IH|c es]
    using expr_nested_ind; autorewrite with eval; cbn [allowed]; rewrite ?andb_true_iff, ?negb_true_iff; intros Ha.
  - done.
  - simpl. rewrite Ha. by destruct (od_get id env).
  - destruct Ha as [Ha Hv]. simpl. rewrite Ha. apply supported_bind; [by apply IH|done].
  - destruct Ha as [Hv Hs]. simpl. apply supported_bind; [by apply IH1|]. intros obj _.
    apply supported_bind; [by apply IH2|]. intros key _. unfold get_item. destruct obj; try done. by destruct (hashable key).
  - destruct Ha as [[Hop Hl] Hr]. simpl. destruct op; try done; (apply supported_bind; [by apply IH1|]; intros a _;
      apply supported_bind; [by apply IH2|]; intros b _; destruct (capped _ a b); [|done]; by apply binop_supported).
  - destruct Ha as [Hop He]. simpl. destruct op; try done; (apply supported_bind; [by apply IH|]; intros v _; simpl;
      first [done|destruct (num v) as [[f q]|]; [done|apply Hun]]).
  - revert Ha. generalize (EBool match op with And => true | Or => false end).
    induction IH as [|e es He _ IH]; intros v; simpl; [done|]. intros [H1 H2]%andb_true_iff.
    apply supported_bind; [by apply He|]. intros w _. destruct (match op with And => _ | Or => _ end); [done|by apply IH].
  - destruct Ha as [Hl Hr]. apply supported_bind; [by apply IHl|]. intros a _. revert Hr a.
    induction IH as [|[op e] rest He _ IH]; simpl; [done|]. intros [H1 H2]%andb_true_iff a.
    apply supported_bind; [by apply He|]. intros b _. apply supported_bind; [apply cmpop_supported|].
    intros [|] _; [by apply IH|done].
  - destruct Ha as [[Hf Hargs] _]. apply supported_bind; [by apply IHf|]. intros func _. destruct func; try done.
    apply supported_bind; [by apply list_supported|done].
  - apply supported_bind; [by apply list_supported|done].
  - apply supported_bind; [by apply list_supported|done].
  - revert Ha. generalize (@nil ev). induction IH as [|e es He _ IH]; intros acc; simpl; [done|].
    intros [H1 H2]%andb_true_iff. apply supported_bind; [by apply He|]. intros v _. destruct (hashable v); [by apply IH|done].
  - revert Ha. generalize (@nil (ev * ev)). induction IH as [|[[k|] e] items [Hk He] _ IH]; intros acc; simpl; [done| |done].
    intros [[H1 H2]%andb_true_iff H3]%andb_true_iff. apply supported_bind; [by apply He|]. intros v _.
    apply supported_bind; [by apply Hk|]. intros key _. destruct (hashable key); [by apply IH|done].
  - done.
Qed.
End supported.

(** ** What an expression can allocate *)

(** The longest string, list or tuple anywhere in a value. *)
Fixpoint max_len (v : ev) : nat :=
  match v with
  | EStr s => String.length s
  | EList l | ETuple l => max (length l) (list_max (map max_len l))
  | ESet l => list_max (map max_len l)
  | EDict d => list_max (map (fun kv => match kv with (k, x) => max (max_len k) (max_len x) end) d)
  | ENs d => list_max (map (fun kv => match kv with (_, x) => max_len x end) d)
  | _ => 0
  end.

(** The size of a tree: its nodes and the length of its literals. *)
Fixpoint weight (e : expr) : nat :=
  match e with
  | Constant v => max 1 (max_len v)
  | Name _ => 1
  | Attribute v _ => weight v
  | Subscript v s => weight v + weight s
  | BinOp _ l r => weight l + weight r
  | UnaryOp _ e => weight e
  | BoolOp _ es | ListE es | TupleE es | SetE es => S (sum_list (map weight es))
  | Compare l rest => weight l + sum_list (map (fun oe => match oe with (_, e) => weight e end) rest)
  | Call f args _ => weight f + sum_list (map weight args)
  | DictE items => S (sum_list (map (fun kv => match kv with
      (k, e) => match k with Some k => weight k | None => 0 end + weight e end) items))
  | Other _ _ => 1
  end.

Lemma list_max_elem {A} (f : A -> nat) x l : x ∈ l -> f x <= list_max (map f l).
Proof. induction 1 as [x l|x y l _ IH]; simpl; lia. Qed.

Lemma list_max_bound {A} (f : A -> nat) n l : (forall x, x ∈ l -> f x <= n) -> list_max (map f l) <= n.
Proof.
  intros H. induction l as [|y l IH]; simpl; [lia|].
  specialize (IH (fun x Hx => H x (list_elem_of_further _ _ _ Hx))). specialize (H y (list_elem_of_here _ _)). lia.
Qed.

Lemma weight_pos e : 1 <= weight e.
Proof. induction e using expr_nested_ind; simpl; lia. Qed.

Lemma length_sum (es : list expr) : length es <= sum_list (map weight es).
Proof. induction es as [|e es IH]; simpl; [lia|]. pose proof (weight_pos e). lia. Qed.

Lemma od_get_len k (d : odict ev) x : od_get k d = Some x -> max_len x <= max_len (ENs d).
Proof.
  intros H%od_get_elem. cbn [max_len].
  apply (list_max_elem (fun kv : string * ev => match kv with (_, x) => max_len x end) (k, x) d H).
Qed.

Lemma dict_get_len k d x : dict_get k d = Some x -> max_len x <= max_len (EDict d).
Proof.
  unfold dict_get. destruct (find _ d) as [[k' x']|] eqn:E; [|done]. simpl. intros [= <-].
  apply find_some in E as [E _]. apply list_elem_of_In in E. cbn [max_len].
  pose proof (list_max_elem (fun kv : ev * ev => match kv with (k, x) => max (max_len k) (max_len x) end) (k', x') d E).
  simpl in *. lia.
Qed.

Lemma dict_set_len k x d : max_len (EDict (dict_set k x d)) <= max (max_len (EDict d)) (max (max_len k) (max_len x)).
Proof. induction d as [|[k' y] d IH]; simpl; [lia|]. destruct (py_eq k' k); simpl in *; lia. Qed.

Lemma set_add_len x l : max_len (ESet (set_add x l)) <= max (max_len (ESet l)) (max_len x).
Proof.
  unfold set_add. destruct (existsb _ l); [lia|]. cbn [max_len]. rewrite map_app, list_max_app. simpl. lia.
Qed.

Lemma nth_len k l x : nth_item k l = Some x -> max_len x <= list_max (map max_len l).
Proof.
  unfold nth_item. destruct (0 <=? k)%Z; [|done]. intros H%list_elem_of_lookup_2. by apply list_max_elem.
Qed.

Lemma coalesce_len args : max_len (coalesce args) <= list_max (map max_len args).
Proof.
  unfold coalesce. destruct (find _ args) as [v|] eqn:E; simpl; [|lia].
  apply find_some in E as [E _]. apply list_elem_of_In in E. by apply list_max_elem.
Qed.

(** Repetition: as long as the cap allows, with the elements of the operand. *)
Lemma elem_of_repeat {A} (l : list A) n x : x ∈ repeat_seq l n -> x ∈ l.
Proof. unfold repeat_seq. induction (Z.to_nat n) as [|k IH]; simpl; [by intros ?%elem_of_nil|]. rewrite elem_of_app. tauto. Qed.
Lemma length_repeat {A} (l : list A) n : length (repeat_seq l n) = Z.to_nat n * length l.
Proof. unfold repeat_seq. induction (Z.to_nat n) as [|k IH]; simpl; [done|]. rewrite length_app, IH. lia. Qed.

Lemma length_of_chars l : String.length (of_chars l) = length l.
Proof. induction l as [|c l IH]; simpl; [done|by rewrite IH]. Qed.

Lemma multiply_len v n k : seq_len v = Some k -> (k * n <= MAX_SEQUENCE_MULTIPLY)%Z ->
  max_len (multiply v n) <= max (max_len v) (Z.to_nat MAX_SEQUENCE_MULTIPLY).
Proof.
  unfold MAX_SEQUENCE_MULTIPLY. intros Hk Hcap.
  assert (forall m, Z.of_nat m = k -> Z.to_nat n * m <= Z.to_nat 10000) as Hm by (intros m <-; nia).
  assert (forall l, max (length (repeat_seq l n)) (list_max (map max_len (repeat_seq l n)))
    <= max (Z.to_nat n * length l) (list_max (map max_len l))) as Hl.
  { intros l. rewrite length_repeat. apply Nat.max_le_compat_l. apply list_max_bound. intros x Hx%elem_of_repeat.
    by apply list_max_elem. }
  destruct v; try done; injection Hk as Hk; specialize (Hm _ Hk); cbn [multiply max_len].
  - rewrite length_of_chars, length_repeat, length_chars. lia.
  - specialize (Hl l). lia.
  - specialize (Hl l). lia.
Qed.

Section bounded.
Context (h : Host) (env : odict ev) (M : nat).
(** Other objects build nothing longer than what they are given. *)
Hypothesis Hattr : forall v a x, host_attr h v a = Some x -> max_len x <= max_len v.
Hypothesis Hbin : forall op a b v, host_binop h op a b = Ok v -> max_len v <= max (max_len a) (max_len b).
Hypothesis Hun : forall op a v, host_unop h op a = Ok v -> max_len v <= max_len a.
Hypothesis Henv : forall k v, od_get k env = Some v -> max_len v <= M.
Hypothesis Hcap : (MAX_SEQUENCE_MULTIPLY <= Z.of_nat M)%Z.

Lemma get_attribute_len obj a : max_len (get_attribute h obj a) <= max_len obj.
Proof.
  unfold get_attribute. destruct obj; try (destruct (host_attr h _ a) as [x|] eqn:E; simpl; [by apply Hattr in E|lia]); simpl; [lia|..].
  - destruct (od_get a d) as [x|] eqn:E; simpl; [by apply od_get_len in E|lia].
  - destruct (dict_get _ d) as [x|] eqn:E; simpl; [by apply dict_get_len in E|lia].
Qed.

Lemma get_item_len obj key v : get_item obj key = Ok v -> max_len v <= max_len obj.
Proof.
  unfold get_item. destruct obj; try (by intros [= <-]; simpl; lia).
  - intros [= <-]. destruct (as_int key) as [k|]; simpl; [|lia].
    destruct (nth_item k l) as [x|] eqn:E; simpl; [apply nth_len in E|]; lia.
  - intros [= <-]. destruct (as_int key) as [k|]; simpl; [|lia].
    destruct (nth_item k l) as [x|] eqn:E; simpl; [apply nth_len in E|]; lia.
  - destruct (hashable key); [|done]. intros [= <-].
    destruct (dict_get _ d) as [x|] eqn:E; simpl; [by apply dict_get_len in E|lia].
Qed.

Lemma number_len f q : max_len (number f q) = 0.
Proof. by destruct f. Qed.

Lemma binop_len op a b v : capped op a b = true -> apply_binop h op a b = Ok v ->
  max_len v <= max (max_len a + max_len b) (Z.to_nat MAX_SEQUENCE_MULTIPLY).
Proof.
  intros Hc. unfold apply_binop. destruct (num a) as [[f x]|] eqn:Ea, (num b) as [[f' y]|] eqn:Eb.
  1: { unfold arithmetic. destruct op; try done; try destruct (Qeq_bool y 0); try done; intros [= <-];
       try rewrite number_len; simpl; lia. }
  all: destruct op as [| | | | |c]; try done; try (intros H; apply Hbin in H; lia).
  all: try (destruct a, b; try discriminate; intros H; try (apply Hbin in H; lia); injection H as <-; cbn [max_len];
    rewrite ?length_app, ?map_app, ?list_max_app, ?length_append; lia).
  all: unfold capped, multiply_size in Hc;
    destruct (seq_len a) as [n|] eqn:Sa, (as_int b) as [k|] eqn:Kb, (seq_len b) as [n'|] eqn:Sb, (as_int a) as [k'|] eqn:Ka;
    try (intros H; apply Hbin in H; lia); intros [= <-]; apply negb_true_iff, Z.ltb_ge in Hc;
    match goal with
    | |- max_len (multiply ?w ?m) <= _ => pose proof (multiply_len w m _ ltac:(eassumption) Hc); lia
    end.
Qed.

Lemma list_len es vs n :
  Forall (fun e => forall v, eval_node h env e = Ok v -> max_len v <= M * weight e) es ->
  eval_list h env es = Ok vs -> sum_list (map weight es) <= n -> length vs = length es /\ list_max (map max_len vs) <= M * n.
Proof.
  intros Hes. revert vs. induction Hes as [|e es He _ IH]; intros vs; simpl; [intros [= <-]; simpl; lia|].
  intros (v & Hv & (vs' & Hvs & [= <-])%res_bind_ok)%res_bind_ok Hn. apply He in Hv.
  destruct (IH vs' Hvs ltac:(lia)) as [H1 H2]. simpl. split; [lia|]. nia.
Qed.

#[local] Abbreviation kept e := (forall v, eval_node h env e = Ok v -> max_len v <= M * weight e).

Lemma bool_len op es n w v : Forall (fun e => kept e) es -> sum_list (map weight es) <= n ->
  max_len w <= M * S n -> eval_bool h env op es w = Ok v -> max_len v <= M * S n.
Proof.
  intros Hes Hn. revert w. induction Hes as [|e es He _ IH]; intros w Hw; simpl; [by intros [= <-]|].
  simpl in Hn. intros (x & Hx & H)%res_bind_ok. apply He in Hx. assert (max_len x <= M * S n) as Hx' by nia.
  destruct (match op with And => _ | Or => _ end); [by injection H as <-|]. apply (IH ltac:(lia) x Hx' H).
Qed.

Lemma chain_len rest a v : eval_chain h env rest a = Ok v -> max_len v = 0.
Proof.
  revert a. induction rest as [|[op e] rest IH]; intros a; simpl; [by intros [= <-]|].
  intros (b & _ & ([|] & _ & H)%res_bind_ok)%res_bind_ok; [by eapply IH|by injection H as <-].
Qed.

Lemma set_len es n acc v : Forall (fun e => kept e) es -> sum_list (map weight es) <= n ->
  max_len (ESet acc) <= M * S n -> eval_set h env es acc = Ok v -> max_len v <= M * S n.
Proof.
  intros Hes Hn. revert acc. induction Hes as [|e es He _ IH]; intros acc Hacc; simpl; [by intros [= <-]|].
  simpl in Hn. intros (x & Hx & H)%res_bind_ok. apply He in Hx. destruct (hashable x); [|done].
  apply (IH ltac:(lia) (set_add x acc)); [|done]. pose proof (set_add_len x acc). nia.
Qed.

Definition item_weight (kv : option expr * expr) : nat :=
  match kv with (k, e) => match k with Some k => weight k | None => 0 end + weight e end.

Lemma dict_len items n acc v :
  Forall (fun kv => (forall k, kv.1 = Some k -> kept k) /\ kept kv.2) items -> sum_list (map item_weight items) <= n ->
  max_len (EDict acc) <= M * S n -> eval_dict h env items acc = Ok v -> max_len v <= M * S n.
Proof.
  intros Hes Hn. revert acc. induction Hes as [|[[k|] e] items [Hk He] _ IH]; intros acc Hacc; simpl; [by intros [= <-]| |done].
  simpl in Hn, He. intros (x & Hx & (key & Hkey & H)%res_bind_ok)%res_bind_ok. apply He in Hx. apply (Hk k eq_refl) in Hkey.
  destruct (hashable key); [|done]. apply (IH ltac:(lia) (dict_set key x acc)); [|done].
  pose proof (dict_set_len key x acc). nia.
Qed.

(** Evaluation cannot be used to exhaust memory: no string, list or
    tuple in the value of an expression is longer than [M] times the size of
    the expression (its nodes and literals), where [M] bounds the cap on
    sequence multiplication and what the variables already hold, however the
    operators are nested. *)
Theorem sequences_bounded e v : eval_node h env e = Ok v -> max_len v <= M * weight e.
Proof.
  assert (1 <= M) as HM by (unfold MAX_SEQUENCE_MULTIPLY in Hcap; lia). revert v.
  induction e as [w|id|w a IH|w s IH1 IH2|op l r IH1 IH2|op e IH|op es IH|l rest IHl IH|f args kws IHf IH|es IH|es IH|es IH|items IH|c es]
    using expr_nested_ind; intros v; autorewrite with eval.
  - intros [= <-]. simpl. nia.
  - simpl. destruct (dunder id); [done|]. destruct (od_get id env) as [x|] eqn:E; [|done]. intros [= <-]. apply Henv in E. lia.
  - simpl. destruct (dunder a); [done|]. intros (obj & Ho & [= <-])%res_bind_ok. apply IH in Ho.
    pose proof (get_attribute_len obj a). lia.
  - simpl. intros (obj & Ho & (key & _ & H)%res_bind_ok)%res_bind_ok. apply IH1 in Ho. apply get_item_len in H. nia.
  - simpl. assert (forall op, (a ← eval_node h env l; b ← eval_node h env r;
      if capped op a b then apply_binop h op a b else Raise (ValueError "Sequence multiply exceeds maximum allowed size")) = Ok v ->
      max_len v <= M * (weight l + weight r)) as H; [|by destruct op; try apply H].
    clear op. intros op (a & Ha & (b & Hb & H)%res_bind_ok)%res_bind_ok. apply IH1 in Ha. apply IH2 in Hb.
    destruct (capped op a b) eqn:Hc; [|done]. pose proof (binop_len op a b v Hc H). pose proof (weight_pos l). nia.
  - simpl. assert (forall op, (v ← eval_node h env e; apply_unop h op v) = Ok v -> max_len v <= M * weight e) as H;
      [|by destruct op; try apply H].
    clear op. intros op (a & Ha & H)%res_bind_ok. apply IH in Ha. unfold apply_unop in H.
    destruct op; try done; try (destruct (num a) as [[f q]|]; [injection H as <-; rewrite number_len; lia|apply Hun in H; lia]).
    injection H as <-. simpl. lia.
  - apply bool_len; [done|done|simpl; lia].
  - intros (a & _ & H)%res_bind_ok. apply chain_len in H. lia.
  - intros (func & _ & H)%res_bind_ok. destruct func; try done. apply res_bind_ok in H as (vs & Hvs & [= <-]).
    destruct (list_len args vs _ IH Hvs (le_n _)) as [_ Hm]. pose proof (coalesce_len vs). simpl. nia.
  - intros (vs & Hvs & [= <-])%res_bind_ok. destruct (list_len es vs _ IH Hvs (le_n _)) as [Hl Hm].
    pose proof (length_sum es). simpl. nia.
  - intros (vs & Hvs & [= <-])%res_bind_ok. destruct (list_len es vs _ IH Hvs (le_n _)) as [Hl Hm].
    pose proof (length_sum es). simpl. nia.
  - apply set_len; [done|done|simpl; lia].
  - apply (dict_len items (sum_list (map item_weight items))); [done|done|simpl; lia].
  - done.
Qed.
End bounded.

(** ** Reading a dotted path back *)

(** A segment after the first name: [.name] or ['key'] in brackets. *)
Inductive segment := Dot (name : string) | Key (key : string).

Definition seg_name (s : segment) : string := match s with Dot n | Key n => n end.
Definition quote : Ascii.ascii := Ascii.ascii_of_nat 39.
Definition seg_text (s : segment) : list Ascii.ascii :=
  match s with
  | Dot n => "."%char :: chars n
  | Key k => "["%char :: quote :: chars k ++ [quote; "]"%char]
  end.
Definition path_text (n : string) (segs : list segment) : list Ascii.ascii := chars n ++ mjoin (seg_text <$> segs).

Definition plain (n : string) : Prop := n ≠ "" /\ Forall (fun c => c ≠ "."%char /\ c ≠ "["%char) (chars n).
#[export] Instance plain_dec n : Decision (plain n).
Proof. unfold plain. apply _. Defined.
Definition seg_ok (s : segment) : Prop :=
  match s with Dot n => plain n | Key k => "]"%char ∉ chars k end.

Lemma loop_plain p fuel rest buf toks :
  Forall (fun c => c ≠ "."%char /\ c ≠ "["%char) p ->
  parse_path_loop (length p + fuel) (p ++ rest) buf toks = parse_path_loop fuel rest (buf ++ p) toks.
Proof.
  intros Hp. revert buf. induction Hp as [|c p [H1 H2] _ IH]; intros buf; simpl; [by rewrite app_nil_r|].
  rewrite decide_False, decide_False by done. by rewrite IH, <- app_assoc.
Qed.

Lemma split_at_fresh c p rest : c ∉ p -> split_at c (p ++ c :: rest) = Some (p, rest).
Proof.
  induction p as [|x p IH]; simpl; intros Hc; [by rewrite decide_True|].
  rewrite decide_False by set_solver. by rewrite IH by set_solver.
Qed.

Lemma flush_nonempty p toks : p ≠ [] -> flush p toks = toks ++ [TName (of_chars p)].
Proof. by destruct p. Qed.

Lemma coerce_quoted k : coerce_index_token (of_chars (strip_chars (quote :: chars k ++ [quote]))) = TName k.
Proof.
  assert (strip_chars (quote :: chars k ++ [quote]) = quote :: chars k ++ [quote]) as ->.
  { unfold strip_chars. cbn [lstrip_chars]. rewrite (eq_refl : is_space quote = false).
    rewrite reverse_cons, reverse_app. cbn [reverse rev_append app]. cbn [lstrip_chars].
    rewrite (eq_refl : is_space quote = false). rewrite app_comm_cons, reverse_snoc, reverse_cons, reverse_involutive. done. }
  unfold coerce_index_token. rewrite String.list_ascii_of_string_of_list_ascii.
  assert (ends_with_quote (quote :: chars k ++ [quote]) = true) as ->.
  { unfold ends_with_quote. rewrite app_comm_cons, last_snoc. done. }
  cbn [starts_with_quote tl andb]. rewrite (eq_refl : is_quote quote = true). cbn [andb].
  by rewrite removelast_last, String.string_of_list_ascii_of_string.
Qed.

Lemma loop_segments segs fuel buf toks :
  Forall seg_ok segs -> length (mjoin (seg_text <$> segs)) < fuel ->
  parse_path_loop fuel (mjoin (seg_text <$> segs)) buf toks = flush buf toks ++ (TName ∘ seg_name <$> segs).
Proof.
  intros Hs. revert fuel buf toks. induction Hs as [|s segs Hok Hs IH]; intros fuel buf toks Hf; csimpl in *.
  { destruct fuel; [lia|]. by rewrite app_nil_r. }
  destruct fuel as [|fuel]; [lia|]. rewrite length_app in Hf. destruct s as [n|k]; simpl in Hf |- *.
  - destruct Hok as [Hne Hp]. replace fuel with (length (chars n) + (fuel - length (chars n))) by lia.
    rewrite (loop_plain (chars n)) by done. rewrite IH by lia. rewrite (flush_nonempty (chars n)).
    + by rewrite String.string_of_list_ascii_of_string, <- app_assoc.
    + by destruct n.
  - rewrite length_app in Hf. simpl in Hf.
    replace ((chars k ++ [quote; "]"%char]) ++ mjoin (seg_text <$> segs))
      with ((chars k ++ [quote]) ++ "]"%char :: mjoin (seg_text <$> segs)) by (by rewrite <- !app_assoc).
    rewrite split_at_fresh.
    + rewrite coerce_quoted, IH by lia. cbn [flush]. by rewrite <- app_assoc.
    + rewrite elem_of_app, list_elem_of_singleton. naive_solver.
Qed.

Lemma parse_segments n segs :
  plain n -> Forall seg_ok segs -> parse_path (of_chars (path_text n segs)) = TName <$> (n :: (seg_name <$> segs)).
Proof.
  intros [Hne Hp] Hs. unfold parse_path. rewrite String.list_ascii_of_string_of_list_ascii. unfold path_text.
  rewrite length_app, <- Nat.add_succ_r, (loop_plain (chars n)) by done. rewrite loop_segments by (done || lia).
  rewrite flush_nonempty by (by destruct n). csimpl.
  by rewrite String.string_of_list_ascii_of_string, list_fmap_compose.
Qed.

(** ** The two readings of a dotted path *)

Lemma from_namespace_embed v : from_namespace (to_namespace v) = from_namespace (embed v).
Proof.
  induction v as [| | | | |l IH|l IH|d IH|] using pyval_nested_ind; simpl; try done.
  - f_equal. rewrite !map_map. induction IH as [|x l Hx _ IHl]; simpl; [done|]. by rewrite Hx, IHl.
  - f_equal. rewrite !map_map. induction IH as [|[k x] d Hx _ IHd]; simpl; [done|]. simpl in Hx. by rewrite Hx, IHd.
Qed.

Lemma namespace_lookup a (d : odict pyval) :
  od_get a (map (fun kv => match kv with (k, x) => (k, to_namespace x) end) d) = to_namespace <$> od_get a d.
Proof. induction d as [|[k x] d IH]; simpl; [done|]. by destruct (decide (a = k)). Qed.

Lemma embed_lookup a (d : odict pyval) :
  dict_get (EStr a) (map (fun kv => match kv with (k, x) => (EStr k, embed x) end) d) = embed <$> od_get a d.
Proof.
  unfold dict_get. induction d as [|[k x] d IH]; simpl; [done|].
  destruct (decide (a = k)) as [->|Hne]; [by rewrite bool_decide_eq_true_2|].
  by rewrite bool_decide_eq_false_2 by congruence.
Qed.

Lemma env_lookup n (env : odict ev) (l : odict pyval) :
  od_get n (foldl add_name env l) = match od_get n env with Some x => Some x | None => to_namespace <$> od_get n l end.
Proof.
  revert env. induction l as [|[k x] l IH]; intros env; simpl; [by destruct (od_get n env)|].
  rewrite IH. unfold add_name. simpl. destruct (od_mem k env) eqn:Hm.
  - destruct (decide (n = k)) as [->|Hne]; [|done]. apply od_mem_spec in Hm as [y ->]. done.
  - rewrite od_get_set. destruct (decide (n = k)) as [->|Hne]; [|done].
    destruct (od_get k env) eqn:E; [|done].
    assert (od_mem k env = true) by (apply od_mem_spec; eauto). congruence.
Qed.

Lemma parse_dotted n attrs :
  plain n -> Forall plain attrs -> parse_path (of_chars (path_text n (Dot <$> attrs))) = TName <$> (n :: attrs).
Proof.
  intros Hn Ha. rewrite parse_segments; [|done|by apply Forall_fmap].
  rewrite <- list_fmap_compose. f_equal. f_equal. by apply list_fmap_id.
Qed.

Section agreement.
Context (h : Host) (isoformat : Z -> string).

Lemma walk_null attrs : foldl (get_attribute h) ENull attrs = ENull.
Proof. induction attrs; simpl; done. Qed.
Lemma navigate_none path : navigate h ENone path = ENone.
Proof. by destruct path. Qed.

Lemma walk_navigate attrs x :
  (forall v a, a ∈ attrs -> host_attr h v a = None) ->
  from_namespace (foldl (get_attribute h) (to_namespace x) attrs) =
  from_namespace (navigate h (embed x) (TName <$> attrs)).
Proof.
  revert x. induction attrs as [|a attrs IH]; intros x Hh; [apply from_namespace_embed|].
  assert (forall v, host_attr h v a = None) as Ha by (intros v; apply Hh; left).
  assert (forall v a, a ∈ attrs -> host_attr h v a = None) as Hh' by (intros v a' Hin; apply Hh; by right).
  csimpl. destruct x as [| | | | | | |d|]; cbn [to_namespace embed get_attribute]; rewrite ?Ha; cbn [default from_option];
    rewrite ?walk_null; try done.
  rewrite namespace_lookup, embed_lookup. destruct (od_get a d) as [y|]; simpl; [by apply IH|].
  by rewrite walk_null, navigate_none.
Qed.

Lemma eval_walk env base v attrs :
  Forall (fun a => dunder a = false) attrs -> eval_node h env base = Ok v ->
  eval_node h env (foldl Attribute base attrs) = Ok (foldl (get_attribute h) v attrs).
Proof.
  intros Hd. revert base v. induction Hd as [|a attrs Ha _ IH]; intros base v Hb; simpl; [done|].
  apply IH. simpl. by rewrite Ha, Hb.
Qed.

Lemma eval_walk_error env base x attrs :
  Forall (fun a => dunder a = false) attrs -> eval_node h env base = Raise x ->
  eval_node h env (foldl Attribute base attrs) = Raise x.
Proof.
  intros Hd. revert base. induction Hd as [|a attrs Ha _ IH]; intros base Hb; simpl; [done|].
  apply IH. simpl. by rewrite Ha, Hb.
Qed.

(** A dotted path of names means the same in a condition (evaluated on
    namespaces) and in an input mapping (walked through the variables), and
    reading it never fails, however much of it is missing; only an unknown first
    name is an error in a condition and a missing value in a mapping. *)
Theorem dotted_paths_agree vars n attrs :
  Forall plain (n :: attrs) -> Forall (fun a => dunder a = false) (n :: attrs) ->
  n ∉ ["ctx"; "steps"; "coalesce"] -> (forall v a, a ∈ attrs -> host_attr h v a = None) ->
  let path := of_chars (path_text n (Dot <$> attrs)) in
  let condition := eval_node h (eval_env isoformat vars []) (foldl Attribute (Name n) attrs) in
  let mapping := resolve_path h isoformat vars [] path in
  match od_get n vars with
  | Some _ => exists v, condition = Ok v /\ from_namespace v = from_namespace mapping
  | None => condition = Raise (NameError n) /\ mapping = ENone
  end.
Proof.
  intros [Hn Hp]%Forall_cons [Hdn Hd]%Forall_cons Hbase Hh path condition mapping.
  assert (mapping = navigate h (embed (VDict vars)) (TName <$> n :: attrs)) as ->.
  { unfold mapping, resolve_path, path. rewrite parse_dotted by done. csimpl.
    rewrite decide_False by set_solver. by rewrite decide_False by set_solver. }
  assert (eval_node h (eval_env isoformat vars []) (Name n) =
    match od_get n vars with Some x => Ok (to_namespace x) | None => Raise (NameError n) end) as He.
  { simpl. rewrite Hdn. unfold eval_env. rewrite env_lookup. unfold base_env. simpl.
    rewrite !decide_False by set_solver. by destruct (od_get n vars). }
  csimpl. cbn [embed]. rewrite embed_lookup. unfold condition. destruct (od_get n vars) as [x|]; simpl.
  - exists (foldl (get_attribute h) (to_namespace x) attrs). split; [by apply eval_walk|by apply walk_navigate].
  - split; [by apply eval_walk_error|apply navigate_none].
Qed.
End agreement.

(** ** Witnesses *)

(** A host without other objects: every operator refuses. *)
Definition bare_host : Host :=
  mkHost (fun _ _ => None) (fun _ _ _ => Raise (TypeError "unsupported operand"))
    (fun _ _ => Raise (TypeError "bad operand")) (fun _ _ _ => Raise (TypeError "not supported between instances"))
    (fun _ _ => false).
(** One whose objects do answer to dunder names. *)
Definition leaky_host : Host :=
  mkHost (fun v a => if dunder a then Some (EObj "type" "class") else None) (host_binop bare_host) (host_unop bare_host)
    (host_compare bare_host) (host_same bare_host).

Definition demo_vars : odict pyval := [("inputs", VDict [("mode", VStr "fast"); ("depth", VInt 3)])].
Definition demo_env : odict ev := eval_env (fun _ => "") demo_vars [].
Definition demo_expr : expr :=
  Compare (Attribute (Name "inputs") "mode") [(CNotIn, ListE [Constant (EStr "slow"); Constant (EStr "off")])].

Lemma dunder_unreachable_witness :
  eval_node leaky_host demo_env (Attribute demo_expr "__class__") = eval_node bare_host demo_env (Attribute demo_expr "__class__").
Proof. apply (dunder_unreachable leaky_host bare_host demo_env); [|done]. intros v a Ha. simpl. by rewrite Ha. Defined.

Lemma validated_is_supported_witness :
  eval_node bare_host demo_env demo_expr = Ok (EBool true) /\ supported (eval_node bare_host demo_env demo_expr).
Proof.
  split; [vm_compute; reflexivity|].
  apply (validated_is_supported bare_host demo_env); [done|done|done|]. vm_compute. reflexivity.
Defined.

Lemma sequences_bounded_witness :
  max_len (EStr (of_chars (repeat_seq (chars "ab") 3))) <= Z.to_nat 10000 * 3.
Proof.
  apply (sequences_bounded bare_host [] (Z.to_nat 10000) ltac:(done) ltac:(done) ltac:(done) ltac:(done)
    ltac:(unfold MAX_SEQUENCE_MULTIPLY; lia) (BinOp Mult (Constant (EStr "ab")) (Constant (EInt 3)))).
  vm_compute. reflexivity.
Defined.

Lemma dotted_paths_agree_witness :
  resolve_path bare_host (fun _ => "") demo_vars [] "inputs.mode" = EStr "fast" /\
  exists v, eval_node bare_host demo_env (Attribute (Name "inputs") "mode") = Ok v /\
    from_namespace v = from_namespace (resolve_path bare_host (fun _ => "") demo_vars [] "inputs.mode").
Proof.
  split; [vm_compute; reflexivity|].
  apply (dotted_paths_agree bare_host (fun _ => "") demo_vars "inputs" ["mode"]).
  - apply (bool_decide_unpack _). vm_compute. exact I.
  - apply (bool_decide_unpack _). vm_compute. exact I.
  - apply (bool_decide_unpack _). vm_compute. exact I.
  - done.
Defined.

(** A key in brackets reads a mapping's value but is missing in a condition,
    where the mapping is a namespace that cannot be subscripted. *)
Lemma brackets_disagree :
  eval_node bare_host demo_env (Subscript (Name "inputs") (Constant (EStr "mode"))) = Ok ENull /\
  resolve_path bare_host (fun _ => "") demo_vars [] "inputs['mode']" = EStr "fast".
Proof. vm_compute. done. Qed.

(** A missing value does not raise [AttributeError]: in [not in] it compares as
    missing, in an ordering it is a [TypeError], which [evaluate] lets through. *)
Lemma missing_values :
  let missing := Attribute (Name "inputs") "absent" in
  eval_node bare_host demo_env (Compare missing [(CNotIn, ListE [Constant (EStr "x")])]) = Ok (EBool true) /\
  evaluate_text bare_host (fun _ => Ok (Compare missing [(CGt, Constant (EInt 5))])) (fun _ => "") demo_vars [] "inputs.absent > 5"
    = Raise (TypeError "not supported between instances").
Proof. vm_compute. done. Qed.
