(* ===== verification/Consensus.v ===== *)
(** * Consensus voting (engine/consensus.py)

    Majority voting over canonical buckets and self-consistency over the samples
    that survive.  The canonical key is a function of the sample: [canonical_key]
    for strings, with the JSON text and [repr] of other values as parameters. *)

From Stdlib Require Import QArith Lqa.
From S2P Require Import Prelude PyStr PyVal.

Section voting.
Context {A B : Type} (key_fn : B -> string).

Record ConsensusResult := mkConsensus {
  winner : option A;
  votes : odict nat;
  total_samples : nat;
  agreement : Q;
  tied : bool;
  meets_threshold : bool;
  failed_samples : nat;
  samples : list A;
}.

(** One sample's vote. *)
Definition cast (extract : A -> B) (vs : odict nat * odict A) (raw : A) : odict nat * odict A :=
  let bucket := key_fn (extract raw) in
  (od_set bucket (S (default 0 (od_get bucket vs.1))) vs.1,
   if od_mem bucket vs.2 then vs.2 else od_set bucket raw vs.2).

Definition tally (extract : A -> B) (l : list A) : odict nat * odict A := foldl (cast extract) ([], []) l.

(** [_pick_winner] *)
Definition pick_winner (votes : odict nat) (first_seen : odict A) : res (option A * nat * bool) :=
  let max_count := list_max votes.*2 in
  let top_keys := (filter (fun kv => kv.2 = max_count) votes).*1 in
  match top_keys with
  | [] => Raise (ValueError "max() arg is an empty sequence")
  | winner_key :: rest =>
      match od_get winner_key first_seen with
      | Some w => Ok (Some w, max_count, negb (bool_decide (rest = [])))
      | None => Raise (KeyError winner_key)
      end
  end.

Definition majority_vote (extract : A -> B) (min_agreement : Q) (l : list A) : res ConsensusResult :=
  let '(vs, first_seen) := tally extract l in
  match l with
  | [] => Ok (mkConsensus None [] 0 0 false (Qle_bool min_agreement 0) 0 [])
  | _ =>
      '(w, winner_votes, t) ← pick_winner vs first_seen;
      let agreement := (inject_Z (Z.of_nat winner_votes) / inject_Z (Z.of_nat (length l)))%Q in
      Ok (mkConsensus w vs (length l) agreement t (Qle_bool min_agreement agreement) 0 l)
  end.

(** [_partition_results] *)
Definition successes {E} (results : list (A + E)) : list A :=
  omap (fun r => match r with inl a => Some a | inr _ => None end) results.

Definition set_failed (n : nat) (r : ConsensusResult) : ConsensusResult :=
  mkConsensus (winner r) (votes r) (total_samples r) (agreement r) (tied r) (meets_threshold r) n (samples r).

(** [self_consistency], given what the [n] calls of [generate] gave and, for
    [return_exceptions=False], the exception that came first. *)
Definition self_consistency (n : Z) (results : list (A + exn)) (return_exceptions : bool) (first_error : option exn)
    (extract : A -> B) (min_agreement : Q) : res ConsensusResult :=
  if (n <? 1)%Z then Raise (ValueError "self_consistency requires n >= 1")
  else
    match (if return_exceptions then None else first_error) with
    | Some x => Raise x
    | None =>
        let ok := successes results in
        match ok with
        | [] => Raise (ValueError "self_consistency: all samples failed; no consensus possible")
        | _ => r ← majority_vote extract min_agreement ok;
               Ok (set_failed (length results - length ok) r)
        end
    end.
End voting.
Arguments ConsensusResult A : clear implicits.

(** [canonical_key]; [casefold] of ASCII text is [lower]. *)
Definition canonical_key (json_dumps : pyval -> option string) (repr : pyval -> string) (v : pyval) : string :=
  match v with
  | VStr s => strip (lower s)
  | VDict _ | VList _ => default (repr v) (json_dumps v)
  | _ => repr v
  end.

(** [coerce_min_agreement] *)
Definition coerce_min_agreement (raw : pyval) : res Q :=
  let unparseable := Raise (ConfigurationError "consensus 'min_agreement' must be a number in [0.0, 1.0]") in
  let checked v := if Qle_bool 0 v && Qle_bool v 1 then Ok v
                   else Raise (ConfigurationError "consensus 'min_agreement' must be in [0.0, 1.0]") in
  match raw with
  | VNone => Ok 0%Q
  | VBool b => checked (inject_Z (Z.b2z b))
  | VInt z => checked (inject_Z z)
  | VFloat q => checked (Qcanon.this q)
  | VStr s => match float_of_string s with Some q => checked q | None => unparseable end
  | _ => unparseable
  end.

(** ** Correctness *)

Section facts.
Context {A B : Type} (key_fn : B -> string) (extract : A -> B).
Implicit Types (l : list A) (b : string).
#[local] Abbreviation bucket a := (key_fn (extract a)).
#[local] Abbreviation tally := (tally key_fn extract).

Definition voters b l : list A := filter (fun a => bucket a = b) l.
Definition count b l : nat := length (voters b l).

Lemma tally_snoc l a : tally (l ++ [a]) = cast key_fn extract (tally l) a.
Proof. unfold Consensus.tally. by rewrite foldl_snoc. Qed.

Lemma voters_snoc b l a : voters b (l ++ [a]) = voters b l ++ (if decide (bucket a = b) then [a] else []).
Proof.
  unfold voters. by rewrite filter_app.
Qed.

(** The tally counts every bucket and keeps its first sample. *)
Lemma tally_spec l b :
  od_get b (tally l).1 = match voters b l with [] => None | _ => Some (count b l) end /\
  od_get b (tally l).2 = head (voters b l).
Proof.
  revert b. induction l as [|a l IH] using rev_ind; intros b; [done|].
  rewrite tally_snoc. unfold count. rewrite voters_snoc. unfold cast. cbn [fst snd].
  destruct (IH (bucket a)) as [G1 G2]. destruct (IH b) as [H1 H2]. unfold count in *. rewrite od_get_set.
  destruct (decide (bucket a = b)) as [<-|Hne].
  - rewrite decide_True by done. split.
    + rewrite G1. destruct (voters (bucket a) l) as [|x v] eqn:E; simpl; [done|]. rewrite length_app. simpl. f_equal. lia.
    + destruct (od_mem (bucket a) (tally l).2) eqn:Hm.
      * apply od_mem_spec in Hm as [x Hx]. rewrite Hx in G2. rewrite Hx. by destruct (voters (bucket a) l).
      * rewrite od_get_set_eq. destruct (voters (bucket a) l) as [|x v]; [done|].
        assert (od_mem (bucket a) (tally l).2 = true) by (apply od_mem_spec; rewrite G2; eauto). congruence.
  - rewrite decide_False by done. rewrite app_nil_r. split; [done|].
    destruct (od_mem (bucket a) (tally l).2); [done|]. by rewrite od_get_set_ne.
Qed.

Lemma key_voted l b : b ∈ od_keys (tally l).1 <-> exists a, a ∈ l /\ bucket a = b.
Proof.
  rewrite <- od_get_is_Some. destruct (tally_spec l b) as [-> _].
  assert (voters b l ≠ [] <-> exists a, a ∈ l /\ bucket a = b) as <-.
  { split.
    - destruct (voters b l) as [|a v] eqn:E; [done|]. intros _. assert (a ∈ voters b l) as Ha by (rewrite E; left).
      apply list_elem_of_filter in Ha. exists a. tauto.
    - intros (a & Ha & Hb) E. assert (a ∈ voters b l) as H by (by apply list_elem_of_filter). rewrite E in H.
      by apply elem_of_nil in H. }
  destruct (voters b l); split; [by intros [? ?]|done|done|]. intros _. eauto.
Qed.

Lemma votes_nodup l : NoDup (od_keys (tally l).1).
Proof.
  induction l as [|a l IH] using rev_ind; [constructor|]. rewrite tally_snoc. unfold cast. cbn [fst]. by apply NoDup_od_set.
Qed.

Lemma votes_value l b n : (b, n) ∈ (tally l).1 <-> n = count b l /\ n ≠ 0.
Proof.
  destruct (tally_spec l b) as [H _]. unfold count in *. split.
  - intros Hin. apply od_get_of_elem in Hin; [|apply votes_nodup]. rewrite Hin in H.
    destruct (voters b l); [done|]. injection H as ->. done.
  - intros [-> Hn]. apply od_get_elem. rewrite H. by destruct (voters b l).
Qed.

(** The first key with a property belongs to the first sample with it. *)
Lemma first_key (P : string -> Prop) `{forall b, Decision (P b)} l :
  head (filter P (od_keys (tally l).1)) = (fun a => bucket a) <$> head (filter (fun a => P (bucket a)) l).
Proof.
  induction l as [|a l IH] using rev_ind; [done|].
  rewrite tally_snoc, filter_app. unfold cast. cbn [fst]. rewrite od_keys_set.
  unfold od_mem. case_bool_decide as Hin.
  - rewrite IH. destruct (decide (P (bucket a))) as [HP|HP]; [|by rewrite filter_cons_False, app_nil_r].
    apply key_voted in Hin as (a' & Ha' & Hb).
    assert (a' ∈ filter (fun a => P (bucket a)) l) as Hf by (apply list_elem_of_filter; by rewrite Hb).
    destruct (filter (fun a => P (bucket a)) l); [by apply elem_of_nil in Hf|done].
  - rewrite filter_app. destruct (decide (P (bucket a))) as [HP|HP].
    + rewrite !filter_cons_True by done. destruct (filter P (od_keys _)) as [|b k] eqn:E1, (filter _ l) eqn:E2; done.
    + rewrite !filter_cons_False, !app_nil_r by done. done.
Qed.

Lemma head_filter_split (P : A -> Prop) `{forall a, Decision (P a)} l s :
  head (filter P l) = Some s -> exists pre post, l = pre ++ s :: post /\ P s /\ forall a, a ∈ pre -> ~ P a.
Proof.
  induction l as [|a l IH]; [done|]. destruct (decide (P a)) as [Ha|Ha].
  - rewrite filter_cons_True by done. intros [= ->]. exists [], l. split; [done|]. split; [done|]. by intros a ?%elem_of_nil.
  - rewrite filter_cons_False by done. intros Hs. destruct (IH Hs) as (pre & post & -> & HP & Hpre).
    exists (a :: pre), post. split; [done|]. split; [done|]. intros a' [->|Ha']%elem_of_cons; auto.
Qed.

Definition max_count l : nat := list_max (tally l).1.*2.

Lemma max_count_bound l a : a ∈ l -> 0 < count (bucket a) l <= max_count l.
Proof.
  intros Ha. assert (a ∈ voters (bucket a) l) as Hv by (by apply list_elem_of_filter).
  assert (0 < count (bucket a) l) as Hpos by (unfold count; destruct (voters _ l); [by apply elem_of_nil in Hv|simpl; lia]).
  split; [done|]. assert ((bucket a, count (bucket a) l) ∈ (tally l).1) as Hin by (apply votes_value; lia).
  unfold max_count. assert (list_max (tally l).1.*2 <= list_max (tally l).1.*2) as Hm by lia.
  apply list_max_le in Hm. rewrite List.Forall_forall in Hm. apply Hm. apply list_elem_of_In.
  apply list_elem_of_fmap. by exists (bucket a, count (bucket a) l).
Qed.

Lemma max_count_attained l : l ≠ [] -> exists a, a ∈ l /\ count (bucket a) l = max_count l.
Proof.
  intros Hl. assert ((tally l).1.*2 ≠ []) as Hne.
  { destruct l as [|a l]; [done|]. intros E. assert (bucket a ∈ od_keys (tally (a :: l)).1) as Hin.
    { apply key_voted. exists a. split; [left|done]. }
    destruct (tally (a :: l)).1; [by apply elem_of_nil in Hin|done]. }
  assert (exists n, n ∈ (tally l).1.*2 /\ n = max_count l) as (n & Hn & Hmax).
  { unfold max_count. revert Hne. generalize ((tally l).1.*2). intros v. induction v as [|x v IH]; [done|]. intros _.
    destruct v as [|y v]; [exists x; split; [left|simpl; lia]|]. destruct (IH ltac:(done)) as (n & Hn & En).
    change (list_max (x :: y :: v)) with (max x (list_max (y :: v))).
    destruct (Nat.max_spec x (list_max (y :: v))) as [[? ->]|[? ->]]; [exists n|exists x]; split; try done; [by right|left]. }
  apply list_elem_of_fmap in Hn as ([b k] & -> & Hin). pose proof Hin as Hv. apply votes_value in Hv as [-> Hpos].
  assert (b ∈ od_keys (tally l).1) as Hb by (apply list_elem_of_fmap; by exists (b, count b l)).
  apply key_voted in Hb as (a & Ha & <-). by exists a.
Qed.

(** The keys [pick_winner] ties over, and the sample it takes. *)
Definition top_keys l : list string := filter (fun b => count b l = max_count l) (od_keys (tally l).1).

Lemma top_keys_spec l b : b ∈ top_keys l <-> (exists a, a ∈ l /\ bucket a = b) /\ count b l = max_count l.
Proof. unfold top_keys. rewrite list_elem_of_filter, key_voted. tauto. Qed.

Lemma top_keys_votes l : (filter (fun kv => kv.2 = max_count l) (tally l).1).*1 = top_keys l.
Proof.
  unfold top_keys, od_keys. assert (forall kv, kv ∈ (tally l).1 -> kv.2 = count kv.1 l) as Hv.
  { intros [b n] Hin. by apply votes_value in Hin as [-> _]. }
  revert Hv. generalize (tally l).1 as v. intros v. induction v as [|[b n] v IH]; intros Hv; [done|]. cbn [fmap list_fmap].
  pose proof (Hv (b, n) ltac:(left)) as E. cbn in E. subst n.
  assert (forall kv, kv ∈ v -> kv.2 = count kv.1 l) as Hv' by (intros kv Hkv; apply Hv; by right).
  destruct (decide (count b l = max_count l)) as [Hm|Hm].
  - rewrite !filter_cons_True by done. csimpl. by rewrite (IH Hv').
  - rewrite !filter_cons_False by done. by apply IH.
Qed.

Lemma top_keys_nodup l : NoDup (top_keys l).
Proof. apply NoDup_filter, votes_nodup. Qed.

Lemma top_keys_first l : l ≠ [] -> exists s pre post,
  head (top_keys l) = Some (bucket s) /\ l = pre ++ s :: post /\ count (bucket s) l = max_count l /\
  (forall a, a ∈ pre -> count (bucket a) l < max_count l).
Proof.
  intros Hl. destruct (max_count_attained l Hl) as (a & Ha & Hmax).
  pose proof (first_key (fun b => count b l = max_count l) l) as Hk.
  destruct (head (filter (fun a => count (bucket a) l = max_count l) l)) as [s|] eqn:Hs.
  - apply head_filter_split in Hs as (pre & post & Hsplit & Hc & Hpre). exists s, pre, post.
    split; [done|]. split; [done|]. split; [done|]. intros a' Ha'.
    assert (a' ∈ l) as Hin by (rewrite Hsplit; set_solver). destruct (max_count_bound l a' Hin). specialize (Hpre a' Ha'). lia.
  - exfalso. assert (a ∈ filter (fun a => count (bucket a) l = max_count l) l) as Hf by (by apply list_elem_of_filter).
    destruct (filter _ l); [by apply elem_of_nil in Hf|done].
Qed.

(** [first_seen] of a bucket is the first sample in it. *)
Lemma first_seen_split l s pre post :
  l = pre ++ s :: post -> (forall a, a ∈ pre -> bucket a ≠ bucket s) -> od_get (bucket s) (tally l).2 = Some s.
Proof.
  intros -> Hpre. destruct (tally_spec (pre ++ s :: post) (bucket s)) as [_ ->]. unfold voters. rewrite filter_app.
  assert (filter (fun a => bucket a = bucket s) pre = []) as ->.
  { clear post. induction pre as [|a pre IH]; [done|]. rewrite filter_cons_False by (apply Hpre; left).
    apply IH. intros a' Ha'. apply Hpre. by right. }
  by rewrite filter_cons_True.
Qed.

Lemma pick_winner_spec l : l ≠ [] -> exists s pre post,
  pick_winner (tally l).1 (tally l).2 = Ok (Some s, max_count l, bool_decide (1 < length (top_keys l))) /\
  l = pre ++ s :: post /\ count (bucket s) l = max_count l /\ (forall a, a ∈ pre -> count (bucket a) l < max_count l).
Proof.
  intros Hl. destruct (top_keys_first l Hl) as (s & pre & post & Hh & Hsplit & Hc & Hpre). exists s, pre, post.
  split; [|done]. unfold pick_winner. fold (max_count l). rewrite top_keys_votes.
  destruct (top_keys l) as [|b rest]; [done|]. injection Hh as ->.
  rewrite (first_seen_split l s pre post Hsplit); [|intros a Ha E; specialize (Hpre a Ha); rewrite E in Hpre; lia].
  do 2 f_equal. by destruct rest.
Qed.

Lemma nodup_two {K} (ks : list K) k : NoDup ks -> k ∈ ks -> 1 < length ks <-> exists k', k' ∈ ks /\ k' ≠ k.
Proof.
  intros Hnd Hk. split.
  - destruct ks as [|x [|y ks]]; simpl; [lia|lia|]. intros _. apply NoDup_cons in Hnd as [Hx _].
    apply elem_of_cons in Hk as [->|Hk].
    + exists y. split; [right; left|]. intros ->. apply Hx. left.
    + exists x. split; [left|]. by intros ->.
  - intros (k' & Hk' & Hne). destruct ks as [|x [|y ks]]; simpl; [by apply elem_of_nil in Hk| |lia].
    apply list_elem_of_singleton in Hk, Hk'. congruence.
Qed.

Lemma two_top_keys l s : s ∈ l -> count (bucket s) l = max_count l ->
  1 < length (top_keys l) <-> exists a, a ∈ l /\ bucket a ≠ bucket s /\ count (bucket a) l = count (bucket s) l.
Proof.
  intros Hs Hc. rewrite (nodup_two _ (bucket s) (top_keys_nodup l)) by (apply top_keys_spec; eauto). rewrite Hc. split.
  - intros (b & Hb & Hne). apply top_keys_spec in Hb as [(a & Ha & <-) ?]. by exists a.
  - intros (a & Ha & Hne & Hm). exists (bucket a). split; [|done]. apply top_keys_spec. eauto.
Qed.

(** A share of a non-empty total. *)
Lemma share_bounds (k n : nat) : 0 < k <= n -> (0 < inject_Z (Z.of_nat k) / inject_Z (Z.of_nat n) <= 1)%Q.
Proof.
  intros Hk. assert (0 < inject_Z (Z.of_nat n))%Q as Hn by (rewrite <- (Zlt_Qlt 0); lia). split.
  - apply Qlt_shift_div_l; [done|]. rewrite Qmult_0_l, <- (Zlt_Qlt 0). lia.
  - apply Qle_shift_div_r; [done|]. rewrite Qmult_1_l, <- Zle_Qle. lia.
Qed.

Lemma voters_le l b : count b l <= length l.
Proof. unfold count, voters. apply length_filter. Qed.

(** A vote over a non-empty list, evaluated. *)
Lemma majority_vote_eval t l : l ≠ [] -> exists s pre post,
  majority_vote key_fn extract t l =
    Ok (mkConsensus (Some s) (tally l).1 (length l) (inject_Z (Z.of_nat (count (bucket s) l)) / inject_Z (Z.of_nat (length l)))
         (bool_decide (1 < length (top_keys l)))
         (Qle_bool t (inject_Z (Z.of_nat (count (bucket s) l)) / inject_Z (Z.of_nat (length l)))) 0 l) /\
  l = pre ++ s :: post /\ count (bucket s) l = max_count l /\ (forall a, a ∈ pre -> count (bucket a) l < max_count l).
Proof.
  intros Hl. destruct (pick_winner_spec l Hl) as (s & pre & post & Hpick & Hsplit & Hc & Hpre). exists s, pre, post.
  split; [|done]. unfold majority_vote. rewrite (surjective_pairing (tally l)), Hpick, Hc. by destruct l.
Qed.

Lemma count_perm b l l' : l ≡ₚ l' -> count b l = count b l'.
Proof. intros Hp. unfold count, voters. by rewrite Hp. Qed.

Lemma max_count_perm l l' : l ≡ₚ l' -> max_count l <= max_count l'.
Proof.
  intros Hp. destruct (decide (l = [])) as [->|Hl]; [apply Nat.le_0_l|].
  destruct (max_count_attained l Hl) as (a & Ha & <-). rewrite (count_perm _ _ _ Hp). apply max_count_bound. by rewrite <- Hp.
Qed.

Lemma top_keys_perm l l' : l ≡ₚ l' -> top_keys l ≡ₚ top_keys l'.
Proof.
  intros Hp. apply NoDup_Permutation; [apply top_keys_nodup..|]. intros b. rewrite !top_keys_spec, (count_perm b _ _ Hp).
  assert (max_count l = max_count l') as -> by (apply Nat.le_antisymm; by apply max_count_perm). by setoid_rewrite Hp.
Qed.
End facts.

Section properties.
Context {A B : Type} (key_fn : B -> string) (extract : A -> B).

(** The majority vote of a non-empty list of samples succeeds.  Its winner is the
    first sample whose canonical bucket no other bucket outnumbers, every earlier
    sample's bucket being strictly smaller; the agreement is that bucket's share of the
    samples, between 0 and 1 and never 0; [tied] says exactly that another bucket is as
    large; [meets_threshold] compares the agreement with the threshold; and every
    bucket's count in [votes] is the number of samples in it. *)
Theorem majority_correct (min_agreement : Q) (l : list A) (Hl : l ≠ []) :
  let size a := count key_fn extract (key_fn (extract a)) l in
  exists r s pre post,
    majority_vote key_fn extract min_agreement l = Ok r /\ winner r = Some s /\ l = pre ++ s :: post /\
    (forall a, a ∈ l -> size a <= size s) /\ (forall a, a ∈ pre -> size a < size s) /\
    (agreement r == inject_Z (Z.of_nat (size s)) / inject_Z (Z.of_nat (length l)) /\ 0 < agreement r <= 1)%Q /\
    (tied r = true <-> exists a, a ∈ l /\ key_fn (extract a) ≠ key_fn (extract s) /\ size a = size s) /\
    (meets_threshold r = true <-> (min_agreement <= agreement r)%Q) /\
    (forall a, a ∈ l -> od_get (key_fn (extract a)) (votes r) = Some (size a)).
Proof.
  intros size. destruct (majority_vote_eval key_fn extract min_agreement l Hl) as (s & pre & post & Heval & Hsplit & Hc & Hpre).
  assert (s ∈ l) as Hs by (rewrite Hsplit; set_solver).
  pose proof (fun a Ha => max_count_bound key_fn extract l a Ha) as Hbound.
  eexists _, s, pre, post. split; [exact Heval|]. cbn [winner agreement tied meets_threshold votes]. unfold size in *.
  split; [done|]. split; [done|]. split; [intros a Ha; rewrite Hc; by apply Hbound|].
  split; [intros a Ha; rewrite Hc; by apply Hpre|]. split.
  { split; [done|]. apply share_bounds. split; [by apply Hbound|apply voters_le]. }
  split; [rewrite bool_decide_eq_true; by apply two_top_keys|]. split; [apply Qle_bool_iff|].
  intros a Ha. destruct (tally_spec key_fn extract l (key_fn (extract a))) as [-> _].
  destruct (Hbound a Ha) as [Hpos _]. unfold count in *.
  destruct (voters _ _ (key_fn (extract a)) l); [by apply Nat.lt_irrefl in Hpos|done].
Qed.

(** An untied vote does not depend on the order of the samples: over any
    permutation the winner falls in the same bucket, with the same agreement, and the
    vote is again untied. *)
Theorem majority_order_independent (min_agreement : Q) (l l' : list A) (r : ConsensusResult A) :
  majority_vote key_fn extract min_agreement l = Ok r -> tied r = false -> l ≡ₚ l' ->
  exists r', majority_vote key_fn extract min_agreement l' = Ok r' /\ tied r' = false /\
    (fun s => key_fn (extract s)) <$> winner r = (fun s => key_fn (extract s)) <$> winner r' /\
    (agreement r == agreement r')%Q.
Proof.
  intros Hr Ht Hp. destruct (decide (l = [])) as [->|Hl].
  { apply Permutation_nil_l in Hp. subst l'. by exists r. }
  assert (l' ≠ []) as Hl' by (intros ->; by apply Permutation_nil_r in Hp).
  destruct (majority_vote_eval key_fn extract min_agreement l Hl) as (s & pre & post & Heval & Hs & Hc & _).
  destruct (majority_vote_eval key_fn extract min_agreement l' Hl') as (s' & pre' & post' & Heval' & Hs' & Hc' & _).
  rewrite Heval in Hr. injection Hr as <-. cbn [tied] in Ht. rewrite bool_decide_eq_false in Ht.
  eexists. split; [exact Heval'|]. cbn [tied winner agreement]. pose proof (top_keys_perm key_fn extract _ _ Hp) as Htk.
  split; [by rewrite bool_decide_eq_false, <- Htk|].
  assert (key_fn (extract s) = key_fn (extract s')) as Hb.
  { destruct (decide (key_fn (extract s) = key_fn (extract s'))) as [|Hne]; [done|]. destruct Ht.
    apply (nodup_two _ (key_fn (extract s)) (top_keys_nodup key_fn extract l)).
    - apply top_keys_spec. split; [|done]. exists s. split; [rewrite Hs; set_solver|done].
    - exists (key_fn (extract s')). split; [|done]. rewrite Htk. apply top_keys_spec. split; [|done].
      exists s'. split; [rewrite Hs'; set_solver|done]. }
  split; [csimpl; by rewrite Hb|]. by rewrite Hb, (count_perm _ _ _ _ _ Hp), Hp.
Qed.
End properties.

(** ** Concrete votes *)

Definition demo_key : string -> string := fun s => strip (lower s).

Lemma majority_correct_witness : exists r s pre post,
  majority_vote demo_key id (1 # 2) ["Yes "; "no"; "yes"] = Ok r /\ winner r = Some s /\
  ["Yes "; "no"; "yes"] = pre ++ s :: post /\ tied r = false.
Proof.
  destruct (majority_correct demo_key id (1 # 2) ["Yes "; "no"; "yes"] ltac:(done)) as (r & s & pre & post & H1 & H2 & H3 & _).
  exists r, s, pre, post. split; [exact H1|]. split; [exact H2|]. split; [exact H3|]. vm_compute in H1. injection H1 as <-. reflexivity.
Defined.

Lemma majority_order_independent_witness : exists r,
  majority_vote demo_key id 0 ["yes"; "no"; "YES"] = Ok r /\ tied r = false /\
  demo_key <$> Some "no" ≠ demo_key <$> winner r.
Proof.
  destruct (majority_order_independent demo_key id 0 ["no"; "yes"; "YES"] ["yes"; "no"; "YES"]
    (mkConsensus (Some "yes") [("no", 1); ("yes", 2)] 3 (2 # 3) false true 0 ["no"; "yes"; "YES"])) as (r & H1 & H2 & H3 & _).
  - vm_compute. reflexivity.
  - reflexivity.
  - constructor.
  - exists r. split; [exact H1|]. split; [exact H2|]. change (demo_key <$> Some "yes" = demo_key <$> winner r) in H3. rewrite <- H3. vm_compute. discriminate.
Defined.
