(* ===== verification/Pipeline.v ===== *)
(** * Pipelines (engine/pipeline.py)

    Elements run in declaration order: a step, a parallel group, or a conditional
    branch over further elements.  The step executor and asyncio are the interface
    [PipelineEnv]; an [await] may change the world arbitrarily.  [Px] is the
    executor with the locals of [execute]: the workflow result and the counters,
    and the log of the progress callbacks and checkpoints made. *)

From stdpp Require Import pretty.
From S2P Require Import Prelude PyStr PyVal Messages Step.

Inductive PipelineStatus := PxPending | PxRunning | PxPaused | PxSuccess | PxFailed | PxCancelled.

(** ** Elements *)

Record ParallelGroup (S : Type) := mkGroup {
  pg_name : string;
  pg_steps : list S;
  pg_fail_fast : bool;
  pg_max_concurrency : option Z;
}.
Arguments mkGroup {S}. Arguments pg_name {S}. Arguments pg_steps {S}. Arguments pg_fail_fast {S}.
Arguments pg_max_concurrency {S}.

(** [ParallelGroup.__post_init__] *)
Definition check_group {S} (g : ParallelGroup S) : res (ParallelGroup S) :=
  match pg_steps g with
  | [] => Raise (ValueError "ParallelGroup must have at least one step")
  | _ =>
      match pg_max_concurrency g with
      | Some c => if (c <? 1)%Z then Raise (ValueError "ParallelGroup max_concurrency must be >= 1 or None") else Ok g
      | None => Ok g
      end
  end.

(** [PipelineElement]; a condition is a computation on the world. *)
Inductive Element (S W : Type) :=
| EStep (s : S)
| EGroup (g : ParallelGroup S)
| EBranch (name : string) (condition : M W bool) (then_steps else_steps : list (Element S W)).
Arguments EStep {S W}. Arguments EGroup {S W}. Arguments EBranch {S W}.

Record Pipeline (S W : Type) := mkPipeline {
  pl_name : string;
  pl_description : string;
  pl_elements : list (Element S W);
  pl_checkpoint_interval : Z;
  pl_fail_fast : bool;
  pl_tags : list string;
  pl_metadata : odict pyval;
}.
Arguments mkPipeline {S W}. Arguments pl_name {S W}. Arguments pl_description {S W}. Arguments pl_elements {S W}.
Arguments pl_checkpoint_interval {S W}. Arguments pl_fail_fast {S W}. Arguments pl_tags {S W}. Arguments pl_metadata {S W}.

Section builder.
Context {S W : Type}.
Implicit Types (p : Pipeline S W) (e : Element S W).

Definition new_pipeline (name description : string) : Pipeline S W := mkPipeline name description [] 0 true [] [].

Definition add e p : Pipeline S W :=
  mkPipeline (pl_name p) (pl_description p) (pl_elements p ++ [e]) (pl_checkpoint_interval p) (pl_fail_fast p)
    (pl_tags p) (pl_metadata p).
Definition add_step (s : S) p : Pipeline S W := add (EStep s) p.

(** [name or default] *)
Definition name_or (name : option string) (dflt : string) : string :=
  match name with Some n => if bool_decide (n = "") then dflt else n | None => dflt end.

Definition add_parallel (steps : list S) (name : option string) (fail_fast : bool) p : res (Pipeline S W) :=
  g ← check_group (mkGroup (name_or name ("parallel_" +:+ pretty (length (pl_elements p)))) steps fail_fast None);
  Ok (add (EGroup g) p).

Definition add_branch (condition : M W bool) (then_steps : list (Element S W)) (else_steps : option (list (Element S W)))
    (name : option string) p : Pipeline S W :=
  add (EBranch (name_or name ("branch_" +:+ pretty (length (pl_elements p)))) condition then_steps (default [] else_steps)) p.

(** [PipelineBuilder.with_checkpoints], [fail_fast] and [tag] *)
Definition with_checkpoints (interval : Z) p : Pipeline S W :=
  mkPipeline (pl_name p) (pl_description p) (pl_elements p) interval (pl_fail_fast p) (pl_tags p) (pl_metadata p).
Definition with_fail_fast (enabled : bool) p : Pipeline S W :=
  mkPipeline (pl_name p) (pl_description p) (pl_elements p) (pl_checkpoint_interval p) enabled (pl_tags p) (pl_metadata p).
Definition with_tags (tags : list string) p : Pipeline S W :=
  mkPipeline (pl_name p) (pl_description p) (pl_elements p) (pl_checkpoint_interval p) (pl_fail_fast p)
    (pl_tags p ++ tags) (pl_metadata p).

Fixpoint count_element e : nat :=
  match e with
  | EStep _ => 1
  | EGroup g => length (pg_steps g)
  | EBranch _ _ then_steps else_steps =>
      (fix go l := match l with [] => 0 | x :: l' => count_element x + go l' end) then_steps +
      (fix go l := match l with [] => 0 | x :: l' => count_element x + go l' end) else_steps
  end.
Definition count_elements (l : list (Element S W)) : nat := foldr (fun e n => count_element e + n) 0 l.
Definition total_steps p : nat := count_elements (pl_elements p).
End builder.

(** ** The interface *)

(** [run_step]: [StepExecutor.execute(step, ctx)].  [start_tasks], [wait_first],
    [cancel_tasks]: [create_task] for each coroutine, [asyncio.wait] until some of
    the pending tasks (numbered by their step) are done, in the iteration order of
    the returned set, and [task.cancel].  [gather]: [asyncio.gather].
    [cancel_called w w']: another task called [cancel()] between [w] and [w']. *)
Class PipelineEnv (S W : Type) := {
  run_step : S -> M W StepResult;
  start_tasks : list S -> option Z -> W -> W;
  wait_first : list nat -> M W (list (nat * (StepResult + PyExc)));
  cancel_tasks : list nat -> W -> W;
  gather : list S -> option Z -> M W (list StepResult);
  cancel_called : W -> W -> bool;
  save_checkpoint : string -> M W unit;
  clock : W -> Z;
  workflow_id : W -> string;
}.

(** What asyncio documents: [wait] returns some of the pending tasks, at least
    one when there are any, each once; [gather] gives one result per awaitable. *)
Class PipelineLaws (S W : Type) `{!PipelineEnv S W} : Prop := {
  wait_some : forall pending w w' done, wait_first pending w = (w', inl done) ->
    pending ≠ [] -> done ≠ [];
  wait_pending : forall pending w w' done, wait_first pending w = (w', inl done) ->
    NoDup done.*1 /\ done.*1 ⊆ pending;
  gather_length : forall steps c w w' l, gather steps c w = (w', inl l) -> length l = length steps;
}.

(** The log: a progress callback made, a checkpoint saved after so many steps. *)
Inductive PxEvent :=
| Progress (step_name : string) (completed total : nat) (r : StepResult)
| Saved (completed : nat).

Record Px (W : Type) := mkPx {
  px_world : W;
  px_status : PipelineStatus;
  px_cancelled : bool;
  px_result : WorkflowResult;
  px_completed : nat;
  px_checkpoint : nat;
  px_events : list PxEvent;
}.
Arguments mkPx {W}. Arguments px_world {W}. Arguments px_status {W}. Arguments px_cancelled {W}. Arguments px_result {W}.
Arguments px_completed {W}. Arguments px_checkpoint {W}. Arguments px_events {W}.

Section executor.
Context {S W : Type} `{!PipelineEnv S W}.
Implicit Types (e : Element S W) (p : Pipeline S W) (w : W) (s : Px W).

(** ** Elements *)

(** One [done] set: its results up to the first failure, and whether there was one. *)
Fixpoint take_done {X} (done : list (nat * (StepResult + PyExc))) (results : list StepResult)
  : M X (list StepResult * bool) :=
  match done with
  | [] => ret (results, false)
  | (_, inr x) :: _ => raise x
  | (_, inl r) :: rest => if is_failed r then ret (results ++ [r], true) else take_done rest (results ++ [r])
  end.

(** [None] when the fuel ran out. *)
Fixpoint gather_fail_fast (fuel : nat) (pending : list nat) (results : list StepResult)
  : M W (option (list StepResult)) :=
  match pending with
  | [] => ret (Some results)
  | _ =>
      match fuel with
      | O => ret None
      | Datatypes.S fuel =>
          done <- wait_first pending;
          let pending := filter (fun i => i ∉ done.*1) pending in
          t <- take_done done results;
          if t.2 then modify (cancel_tasks pending);; ret (Some t.1)
          else gather_fail_fast fuel pending t.1
      end
  end.

(** Never raised ([gather_settles]). *)
Definition out_of_fuel : PyExc := mkExc KException "RecursionError" "out of fuel".

Definition execute_parallel_group (g : ParallelGroup S) : M W (list StepResult) :=
  if pg_fail_fast g then
    modify (start_tasks (pg_steps g) (pg_max_concurrency g));;
    o <- gather_fail_fast (length (pg_steps g)) (seq 0 (length (pg_steps g))) [];
    match o with Some l => ret l | None => raise out_of_fuel end
  else gather (pg_steps g) (pg_max_concurrency g).

Fixpoint execute_element e : M W (list StepResult) :=
  match e with
  | EStep s => r <- run_step s; ret [r]
  | EGroup g => execute_parallel_group g
  | EBranch _ condition then_steps else_steps =>
      c <- condition;
      let execute_branch := fix execute_branch l results :=
        match l with
        | [] => ret results
        | x :: l' =>
            rs <- execute_element x;
            if existsb is_failed rs then ret (results ++ rs) else execute_branch l' (results ++ rs)
        end in
      if c : bool then execute_branch then_steps [] else execute_branch else_steps []
  end.

(** ** [PipelineExecutor] *)
Context (progress_callback : option (string -> nat -> nat -> StepResult -> M W unit)).

Definition set_status (st : PipelineStatus) s : Px W :=
  mkPx (px_world s) st (px_cancelled s) (px_result s) (px_completed s) (px_checkpoint s) (px_events s).
Definition update_result (f : WorkflowResult -> WorkflowResult) s : Px W :=
  mkPx (px_world s) (px_status s) (px_cancelled s) (f (px_result s)) (px_completed s) (px_checkpoint s) (px_events s).
Definition set_counters (completed checkpoint : nat) s : Px W :=
  mkPx (px_world s) (px_status s) (px_cancelled s) (px_result s) completed checkpoint (px_events s).
Definition log (ev : PxEvent) s : Px W :=
  mkPx (px_world s) (px_status s) (px_cancelled s) (px_result s) (px_completed s) (px_checkpoint s) (px_events s ++ [ev]).

(** [cancel]; [cancel_all] of the step executor acts on the world. *)
Definition cancel s : Px W :=
  mkPx (px_world s) PxCancelled true (px_result s) (px_completed s) (px_checkpoint s) (px_events s).

(** A synchronous call, and an [await], during which [cancel] may be called. *)
Definition call {A} (m : M W A) : M (Px W) A := fun s =>
  let '(w, r) := m (px_world s) in
  (mkPx w (px_status s) (px_cancelled s) (px_result s) (px_completed s) (px_checkpoint s) (px_events s), r).
Definition await {A} (m : M W A) : M (Px W) A := fun s =>
  let '(s', r) := call m s in
  (if cancel_called (px_world s) (px_world s') then cancel s' else s', r).

Definition mark_complete (success : bool) s : Px W :=
  update_result (wf_mark_complete success (clock (px_world s))) s.
Definition set_meta (k : string) (v : pyval) (w : WorkflowResult) : WorkflowResult :=
  set_wr_metadata (od_set k v (wr_metadata w)) w.

(** [_record_step_results] *)
Fixpoint record_step_results p (total : nat) (step_results : list StepResult) : M (Px W) bool :=
  match step_results with
  | [] => ret false
  | r :: rest =>
      modify (fun s => set_counters (1 + px_completed s) (px_checkpoint s) (update_result (Messages.add_step r) s));;
      match progress_callback with
      | Some callback =>
          s <- get;
          modify (log (Progress (sr_step_name r) (px_completed s) total r));;
          call (callback (sr_step_name r) (px_completed s) total r)
      | None => ret tt
      end;;
      if is_failed r && pl_fail_fast p then
        modify (fun s => mark_complete false (set_status PxFailed (update_result (set_overall StFailed) s)));;
        ret true
      else record_step_results p total rest
  end.

(** [_maybe_checkpoint] *)
Definition maybe_checkpoint p (step_results : list StepResult) : M (Px W) unit :=
  if (pl_checkpoint_interval p <=? 0)%Z then ret tt
  else
    modify (fun s => set_counters (px_completed s) (px_checkpoint s + length step_results) s);;
    s <- get;
    if (pl_checkpoint_interval p <=? Z.of_nat (px_checkpoint s))%Z then
      await (save_checkpoint ("pipeline_" +:+ pretty (px_completed s)));;
      modify (fun s => log (Saved (px_completed s)) (set_counters (px_completed s) 0 s))
    else ret tt.

(** The loop over the elements; [true] when it returned on a failure. *)
Fixpoint run_elements p (total : nat) (elements : list (Element S W)) : M (Px W) bool :=
  match elements with
  | [] => ret false
  | element :: rest =>
      s <- get;
      if px_cancelled s then
        modify (update_result (fun r => set_meta "cancelled" (VBool true) (set_overall StFailed r)));;
        ret false
      else
        step_results <- await (execute_element element);
        failed_fast <- record_step_results p total step_results;
        if failed_fast : bool then ret true
        else maybe_checkpoint p step_results;; run_elements p total rest
  end.

(** After the loop. *)
Definition settle s : Px W :=
  let s := if bool_decide (wr_overall_status (px_result s) = StRunning) then update_result (set_overall StSuccess) s else s in
  set_status (if bool_decide (wr_overall_status (px_result s) = StSuccess) then PxSuccess else PxFailed) s.

Definition fail_execution (x : PyExc) s : Px W :=
  set_status PxFailed (update_result (fun r => set_meta "error" (VStr (ex_msg x)) (set_overall StFailed r)) s).

Definition begin p s : Px W :=
  let w := px_world s in
  mkPx w PxRunning false
    (set_wr_metadata (pl_metadata p) (new_workflow_result (workflow_id w) (pl_name p) StRunning (clock w))) 0 0 (px_events s).

Definition execute p : M (Px W) WorkflowResult :=
  modify (begin p);;
  returned <- try_except
    (ff <- run_elements p (total_steps p) (pl_elements p);
     if ff : bool then ret true else modify settle;; ret false)
    (fun x => if is_exception x then modify (fail_execution x);; ret false else raise x);
  if returned : bool then s <- get; ret (px_result s)
  else
    modify (fun s => mark_complete (bool_decide (wr_overall_status (px_result s) = StSuccess)) s);;
    s <- get; ret (px_result s).
End executor.

(** A new executor in a given world. *)
Definition new_executor {W} (w : W) : Px W :=
  mkPx w PxPending false (new_workflow_result "" "" StPending 0) 0 0 [].

(** [run_pipeline] *)
Definition run_pipeline {S W} `{!PipelineEnv S W} (p : Pipeline S W)
    (progress_callback : option (string -> nat -> nat -> StepResult -> M W unit)) (w : W) : Px W * (WorkflowResult + PyExc) :=
  execute progress_callback p (new_executor w).
