(* ===== verification/PipelineFacts.v ===== *)
(** * Correctness of the pipeline executor

    A fail-fast group ends with every result or at its first failure; progress
    callbacks are numbered and bounded by [total_steps]; a fail-fast pipeline stops
    at its first failed step; [execute] settles; checkpoints cover the run. *)

From stdpp Require Import pretty.
From S2P Require Import Prelude PyStr PyVal Messages Step StepFacts Pipeline.

(** Only the last result may have failed. *)
Definition stops_at_failure (l : list StepResult) : Prop :=
  forall pre r post, l = pre ++ r :: post -> is_failed r = true -> post = [].

Definition none_failed (l : list StepResult) : Prop := existsb is_failed l = false.

Lemma none_failed_app l l' : none_failed (l ++ l') <-> none_failed l /\ none_failed l'.
Proof. unfold none_failed. rewrite existsb_app. apply orb_false_iff. Qed.

Lemma none_failed_one r : none_failed [r] <-> is_failed r = false.
Proof. unfold none_failed. simpl. by rewrite orb_false_r. Qed.

Lemma none_failed_stops l : none_failed l -> stops_at_failure l.
Proof.
  intros Hl pre r post -> Hr. apply none_failed_app in Hl as [_ Hl]. unfold none_failed in Hl. simpl in Hl. by rewrite Hr in Hl.
Qed.

Lemma failure_last l r : none_failed l -> stops_at_failure (l ++ [r]).
Proof.
  intros Hl pre x post E Hx. destruct post as [|y post _] using rev_ind; [done|]. exfalso.
  rewrite app_comm_cons, app_assoc in E. apply app_inj_tail in E as [-> _].
  apply none_failed_app in Hl as [_ Hl]. unfold none_failed in Hl. simpl in Hl. by rewrite Hx in Hl.
Qed.

#[export] Hint Resolve none_failed_stops failure_last : core.

(** ** Fail-fast groups *)
Section gather.
Context {S W : Type} `{!PipelineEnv S W, !PipelineLaws S W}.

(** What one [done] set adds. *)
Lemma take_done_spec {X} (done : list (nat * (StepResult + PyExc))) results (x : X) :
  none_failed results ->
  wp (take_done done results) (fun r x' => x' = x /\ forall t, r = inl t ->
    if t.2 then exists pre f, t.1 = pre ++ [f] /\ none_failed pre /\ is_failed f = true /\
                              length t.1 <= length results + length done
    else none_failed t.1 /\ length t.1 = length results + length done) x.
Proof.
  revert results. induction done as [|[i [r|e]] rest IH]; intros results Hnf; simpl take_done.
  - apply wp_ret. split; [done|]. intros t [= <-]. simpl. split; [done|lia].
  - destruct (is_failed r) eqn:Hr.
    + apply wp_ret. split; [done|]. intros t [= <-]. simpl. exists results, r. rewrite length_app. simpl. repeat split; [done..|lia].
    + eapply wp_mono; [apply IH, none_failed_app; by rewrite none_failed_one|]. intros o x' [-> Ht]. split; [done|].
      intros t ->. specialize (Ht t eq_refl). rewrite length_app in Ht. simpl in *. destruct t.2.
      * destruct Ht as (pre & f & -> & ? & ? & ?). exists pre, f. repeat split; [done..|lia].
      * destruct Ht. split; [done|lia].
  - apply wp_raise. by split.
Qed.

(** [wait] splits the pending tasks. *)
Lemma pending_split (pending ds : list nat) : NoDup pending -> NoDup ds -> ds ⊆ pending ->
  length (filter (fun i => i ∉ ds) pending) + length ds = length pending.
Proof.
  intros Hp Hd Hsub. rewrite <- length_app. apply Permutation_length, NoDup_Permutation; [|done|].
  - apply NoDup_app. split; [by apply NoDup_filter|]. split; [|done]. intros i Hi. by apply list_elem_of_filter in Hi as [? _].
  - intros i. rewrite elem_of_app, list_elem_of_filter. destruct (decide (i ∈ ds)); naive_solver.
Qed.

Definition gathered (n : nat) (l : list StepResult) : Prop :=
  (none_failed l /\ length l = n) \/ (exists pre f, l = pre ++ [f] /\ none_failed pre /\ is_failed f = true /\ length l <= n).

Lemma gather_loop fuel pending results w :
  NoDup pending -> length pending <= fuel -> none_failed results ->
  wp (gather_fail_fast fuel pending results)
    (fun r _ => r ≠ inl None /\ forall l, r = inl (Some l) -> gathered (length results + length pending) l) w.
Proof.
  revert pending results w. induction fuel as [|fuel IH]; intros pending results w Hnd Hf Hnf.
  - destruct pending; [|simpl in Hf; lia]. apply wp_ret. split; [done|]. intros l [= <-]. left. simpl. split; [done|lia].
  - destruct pending as [|i pending'] eqn:Hp.
    { apply wp_ret. split; [done|]. intros l [= <-]. left. simpl. split; [done|lia]. }
    rewrite <- Hp in *. assert (pending ≠ []) as Hne by (by rewrite Hp).
    replace (gather_fail_fast _ _ _) with (bind (wait_first pending) (fun ds =>
      bind (take_done ds results) (fun t =>
        if t.2 then bind (modify (cancel_tasks (filter (fun i => i ∉ ds.*1) pending))) (fun _ => ret (Some t.1))
        else gather_fail_fast fuel (filter (fun i => i ∉ ds.*1) pending) t.1)))
      by (by rewrite Hp). clear Hp.
    apply wp_bind. unfold wp at 1. destruct (wait_first pending w) as [w' [ds|e]] eqn:Hw; [|by split].
    pose proof (wait_some _ _ _ _ Hw Hne) as Hsome. destruct (wait_pending _ _ _ _ Hw) as [Hnd' Hsub].
    pose proof (pending_split _ _ Hnd Hnd' Hsub) as Hlen. rewrite length_fmap in Hlen.
    assert (0 < length ds) by (destruct ds; [done|simpl; lia]).
    apply wp_bind. eapply wp_mono; [by apply take_done_spec|]. intros [[l [|]]|e] w2 [-> Ht]; [| |by split].
    + destruct (Ht _ eq_refl) as (pre & f & Hl & Hpre & Hfl & Hle). apply wp_bind, wp_modify, wp_ret. split; [done|].
      intros l' [= <-]. right. exists pre, f. simpl in *. repeat split; [done..|lia].
    + destruct (Ht _ eq_refl) as [Hnl Hll]. simpl in Hnl, Hll.
      eapply wp_mono; [apply IH; [by apply NoDup_filter|lia|done]|]. intros r w3 [Hr Hg]. split; [done|].
      intros l' Hl'. replace (length results + length pending) with (length l + length (filter (fun i => i ∉ ds.*1) pending)) by lia.
      by apply Hg.
Qed.

(** A fail-fast parallel group always settles: awaiting its [n] tasks takes at
    most [n] rounds (the loop never runs out of fuel), and the results it returns are
    either those of all [n] steps, none failed, or at most [n] results that end with the
    first failure observed, nothing before it having failed. *)
Theorem group_settles (n : nat) w :
  wp (gather_fail_fast n (seq 0 n) []) (fun r _ =>
    r ≠ inl None /\
    forall l, r = inl (Some l) ->
      (existsb is_failed l = false /\ length l = n) \/
      (exists pre f, l = pre ++ [f] /\ existsb is_failed pre = false /\ is_failed f = true /\ length l <= n)) w.
Proof.
  eapply wp_mono; [apply gather_loop; [apply NoDup_seq|by rewrite length_seq|done]|].
  intros r w' [Hr Hg]. split; [done|]. intros l Hl. specialize (Hg l Hl). by rewrite length_seq in Hg.
Qed.

Lemma group_length (g : ParallelGroup S) w :
  wp (execute_parallel_group g) (fun r _ => forall l, r = inl l -> length l <= length (pg_steps g)) w.
Proof.
  unfold execute_parallel_group. destruct (pg_fail_fast g).
  - apply wp_bind, wp_modify, wp_bind.
    eapply wp_mono; [apply gather_loop; [apply NoDup_seq|by rewrite length_seq|done]|].
    rewrite length_seq. intros [[l|]|e] w' [_ Hg]; [|by apply wp_raise|done]. apply wp_ret. intros l' [= <-].
    destruct (Hg l eq_refl) as [[_ ->]|(pre & f & _ & _ & _ & Hle)]; [done|exact Hle].
  - unfold wp. destruct (gather _ _ w) as [w' [l|e]] eqn:Hg; [|done]. intros l' [= <-]. by erewrite gather_length.
Qed.

(** ** Elements *)

Section induction.
Context (P : Element S W -> Prop)
  (Hstep : forall s, P (EStep s)) (Hgroup : forall g, P (EGroup g))
  (Hbranch : forall n c a b, Forall P a -> Forall P b -> P (EBranch n c a b)).

Fixpoint element_ind' (e : Element S W) : P e :=
  match e with
  | EStep s => Hstep s
  | EGroup g => Hgroup g
  | EBranch n c a b =>
      Hbranch n c a b
        ((fix go l : Forall P l := match l with [] => List.Forall_nil _ | x :: l' => List.Forall_cons _ _ _ (element_ind' x) (go l') end) a)
        ((fix go l : Forall P l := match l with [] => List.Forall_nil _ | x :: l' => List.Forall_cons _ _ _ (element_ind' x) (go l') end) b)
  end.
End induction.

(** The branch loop. *)
Fixpoint run_branch (l : list (Element S W)) (results : list StepResult) : M W (list StepResult) :=
  match l with
  | [] => ret results
  | x :: l' =>
      bind (execute_element x) (fun rs => if existsb is_failed rs then ret (results ++ rs) else run_branch l' (results ++ rs))
  end.

Lemma execute_branch_eq n c a b :
  execute_element (EBranch n c a b) = bind c (fun b0 : bool => if b0 then run_branch a [] else run_branch b []).
Proof. reflexivity. Qed.

Lemma count_branch n c a b : count_element (EBranch n c a b : Element S W) = count_elements a + count_elements b.
Proof. reflexivity. Qed.

Definition bounded (e : Element S W) : Prop := forall w,
  wp (execute_element e) (fun r _ => forall l, r = inl l -> length l <= count_element e) w.

Lemma run_branch_length l results w : Forall bounded l ->
  wp (run_branch l results) (fun r _ => forall l', r = inl l' -> length l' <= length results + count_elements l) w.
Proof.
  intros Hl. revert results w. induction Hl as [|x l Hx Hl IH]; intros results w; simpl run_branch.
  - apply wp_ret. intros l' [= <-]. lia.
  - apply wp_bind. eapply wp_mono; [apply Hx|]. intros [rs|e] w' Hrs; [|done]. specialize (Hrs rs eq_refl).
    change (count_elements (x :: l)) with (count_element x + count_elements l).
    destruct (existsb is_failed rs).
    + apply wp_ret. intros l' [= <-]. rewrite length_app. lia.
    + eapply wp_mono; [apply IH|]. intros r w2 Hr l' E. specialize (Hr l' E). rewrite length_app in Hr. lia.
Qed.

Lemma execute_element_length e : bounded e.
Proof.
  induction e as [s|g|n c a b Ha Hb] using element_ind'; intros w.
  - simpl. apply wp_bind. unfold wp at 1. destruct (run_step s w) as [w' [r|x]]; [|done]. apply wp_ret. by intros l [= <-].
  - apply group_length.
  - rewrite execute_branch_eq, count_branch. apply wp_bind. unfold wp at 1. destruct (c w) as [w' [[|]|x]]; [| |done].
    + eapply wp_mono; [by apply run_branch_length|]. intros r w2 Hr l E. specialize (Hr l E). simpl in Hr. lia.
    + eapply wp_mono; [by apply run_branch_length|]. intros r w2 Hr l E. specialize (Hr l E). simpl in Hr. lia.
Qed.

(** ** The executor *)
Context (cb : option (string -> nat -> nat -> StepResult -> M W unit)).
Implicit Types (p : Pipeline S W) (s : Px W).

Definition steps_of s : list StepResult := wr_steps (px_result s).
Definition overall s : StepStatus := wr_overall_status (px_result s).
Definition callbacks s : list PxEvent := List.filter (fun ev => match ev with Progress _ _ _ _ => true | Saved _ => false end) (px_events s).
Definition saves s : list nat := omap (fun ev => match ev with Saved k => Some k | _ => None end) (px_events s).

(** The callbacks for these results, numbered from 1. *)
Definition expected (total : nat) (l : list StepResult) : list PxEvent :=
  imap (fun i r => Progress (sr_step_name r) (Datatypes.S i) total r) l.

Definition counted (total : nat) s : Prop :=
  px_completed s = length (steps_of s) /\ callbacks s = (if cb then expected total (steps_of s) else []).

(** The overall status while the loop runs. *)
Definition running s : Prop := overall s = if existsb is_failed (steps_of s) then StFailed else StRunning.

Lemma expected_snoc total l r :
  expected total (l ++ [r]) = expected total l ++ [Progress (sr_step_name r) (Datatypes.S (length l)) total r].
Proof. unfold expected. rewrite imap_app. simpl. by rewrite Nat.add_0_r. Qed.

(** What recording and its callbacks leave alone. *)
Definition same_saves s s' : Prop := px_checkpoint s' = px_checkpoint s /\ saves s' = saves s.

(** [call] changes the world only. *)
Lemma wp_call {A} (m : M W A) s (Q : A + PyExc -> Px W -> Prop) :
  (forall r w', Q r (mkPx w' (px_status s) (px_cancelled s) (px_result s) (px_completed s) (px_checkpoint s) (px_events s))) ->
  wp (call m) Q s.
Proof. intros HQ. unfold wp, call. by destruct (m (px_world s)). Qed.

(** The state after recording one result and logging its callback. *)
Definition recorded total r s w' : Px W :=
  mkPx w' (px_status s) (px_cancelled s) (Messages.add_step r (px_result s)) (1 + px_completed s) (px_checkpoint s)
    (px_events s ++ (if cb then [Progress (sr_step_name r) (1 + px_completed s) total r] else [])).

Lemma steps_recorded total r s w' : steps_of (recorded total r s w') = steps_of s ++ [r].
Proof. unfold steps_of, recorded, Messages.add_step. simpl. by case_match. Qed.

Lemma counted_recorded total r s w' : counted total s -> counted total (recorded total r s w').
Proof.
  intros [Hc Hcb]. unfold counted. rewrite steps_recorded, length_app. split; [simpl; lia|].
  unfold callbacks, recorded in *. cbn [px_events]. rewrite List.filter_app, Hcb. destruct cb; [|done].
  rewrite expected_snoc. simpl. by rewrite Hc.
Qed.

Lemma running_recorded total r s w' : running s -> running (recorded total r s w').
Proof.
  unfold running. intros Hr. rewrite steps_recorded, existsb_app. simpl. rewrite orb_false_r.
  unfold overall, recorded, Messages.add_step in *. cbn [px_result] in *. unfold steps_of in *.
  destruct (is_failed r); simpl; [|by rewrite orb_false_r].
  rewrite orb_true_r, Hr. by destruct (existsb is_failed _).
Qed.

Lemma same_saves_recorded total r s w' : same_saves s (recorded total r s w').
Proof. split; [done|]. unfold saves, recorded. cbn [px_events]. rewrite omap_app. destruct cb; simpl; by rewrite app_nil_r. Qed.

(** Recording one result, its callback included. *)
Lemma wp_record_one p total r rest s (Q : bool + PyExc -> Px W -> Prop) :
  (forall e w', Q (inr e) (recorded total r s w')) ->
  (forall w', wp (if is_failed r && pl_fail_fast p then
        bind (modify (fun s => mark_complete false (set_status PxFailed (Pipeline.update_result (set_overall StFailed) s))))
          (fun _ => ret true)
      else record_step_results cb p total rest) Q (recorded total r s w')) ->
  wp (record_step_results cb p total (r :: rest)) Q s.
Proof.
  intros He Hk. cbn [record_step_results]. apply wp_bind, wp_modify, wp_bind. unfold recorded in *. destruct cb as [f|].
  - apply wp_bind, wp_get, wp_bind, wp_modify, wp_call. intros [[]|e] w'; [apply Hk|apply He].
  - apply wp_ret. specialize (Hk (px_world s)). by rewrite app_nil_r in Hk.
Qed.

Lemma record_spec p total l s :
  counted total s -> running s -> (pl_fail_fast p = true -> none_failed (steps_of s)) ->
  wp (record_step_results cb p total l) (fun o s' =>
    exists pre rest, l = pre ++ rest /\ steps_of s' = steps_of s ++ pre /\ counted total s' /\
      (pl_fail_fast p = true -> stops_at_failure (steps_of s')) /\ same_saves s s' /\
      match o with
      | inl false => rest = [] /\ running s' /\ (pl_fail_fast p = true -> none_failed (steps_of s'))
      | inl true => overall s' = StFailed /\ px_status s' = PxFailed /\ is_Some (wr_end_time (px_result s')) /\
                    existsb is_failed (steps_of s') = true
      | inr _ => True
      end) s.
Proof.
  revert s. induction l as [|r l IH]; intros s Hc Hr Hff.
  { apply wp_ret. exists [], []. rewrite !app_nil_r. split; [done|]. split; [done|]. split; [done|]. split; [auto|]. by split. }
  assert (pl_fail_fast p = true -> stops_at_failure (steps_of s ++ [r])) as Hstop by auto.
  apply wp_record_one.
  { intros e w'. exists [r], l. rewrite steps_recorded. split; [done|]. split; [done|]. split; [by apply counted_recorded|].
    split; [done|]. split; [apply same_saves_recorded|done]. }
  intros w'. destruct (is_failed r && pl_fail_fast p) eqn:E.
  - apply andb_prop in E as [Hf _]. apply wp_bind, wp_modify, wp_ret. exists [r], l.
    split; [done|]. split; [exact (steps_recorded total r s w')|]. split; [exact (counted_recorded total r s w' Hc)|].
    split; [intros Hp; change (stops_at_failure (steps_of (recorded total r s w'))); rewrite steps_recorded; auto|].
    split; [exact (same_saves_recorded total r s w')|]. split; [done|]. split; [done|]. split; [by eexists|].
    change (existsb is_failed (steps_of (recorded total r s w')) = true). rewrite steps_recorded, existsb_app. simpl.
    by rewrite Hf, orb_true_r.
  - eapply wp_mono; [apply (IH (recorded total r s w')); [by apply counted_recorded|by apply running_recorded|]|].
    { intros Hp. rewrite steps_recorded. apply none_failed_app. split; [auto|]. apply none_failed_one.
      rewrite Hp, andb_true_r in E. done. }
    intros o s' (pre & rest & -> & Hs & Hc' & Hst & [Hck Hsv] & Ho). exists (r :: pre), rest. split; [done|].
    rewrite steps_recorded, <- app_assoc in Hs. split; [done|]. split; [done|]. split; [done|]. split; [|done].
    destruct (same_saves_recorded total r s w') as [H1 H2]. split; congruence.
Qed.

(** *** Checkpoints *)

(** Checkpoints at least [n] steps apart, the first at least [n] after [last]. *)
Fixpoint spaced (n : Z) (last : nat) (l : list nat) : Prop :=
  match l with [] => True | k :: l' => (Z.of_nat last + n <= Z.of_nat k)%Z /\ spaced n k l' end.

Lemma last_cons {A} (x a : A) l : List.last (x :: l) a = List.last l x.
Proof. revert x a. induction l as [|y l IH]; intros x a; [done|]. change (List.last (y :: l) a = List.last (y :: l) x). by rewrite !IH. Qed.

Lemma spaced_snoc n a l k : spaced n a l -> (Z.of_nat (List.last l a) + n <= Z.of_nat k)%Z -> spaced n a (l ++ [k]).
Proof.
  revert a. induction l as [|x l IH]; intros a; [done|]. intros [Hx Hl] Hk.
  rewrite last_cons in Hk. split; [done|]. by apply IH.
Qed.

(** Steps completed, up to the last checkpoint and since. *)
Definition covered s : nat := List.last (saves s) 0.
Definition checkpoints_apart p s : Prop := (0 < pl_checkpoint_interval p)%Z -> spaced (pl_checkpoint_interval p) 0 (saves s).
Definition checkpoints_current p s : Prop := (0 < pl_checkpoint_interval p)%Z ->
  covered s + px_checkpoint s = px_completed s /\ (Z.of_nat (px_checkpoint s) < pl_checkpoint_interval p)%Z.

Lemma wp_await {A} (m : M W A) s (Q : A + PyExc -> Px W -> Prop) :
  wp m (fun r w' => forall st c,
    Q r (mkPx w' st c (px_result s) (px_completed s) (px_checkpoint s) (px_events s))) (px_world s) ->
  wp (await m) Q s.
Proof.
  unfold wp, await, call. destruct (m (px_world s)) as [w' r]. intros HQ. cbn [px_world].
  destruct (cancel_called _ _); apply HQ.
Qed.

Lemma checkpoint_spec p l s :
  checkpoints_apart p s -> ((0 < pl_checkpoint_interval p)%Z -> covered s + (px_checkpoint s + length l) = px_completed s) ->
  wp (maybe_checkpoint p l) (fun o s' =>
    px_result s' = px_result s /\ px_completed s' = px_completed s /\ callbacks s' = callbacks s /\
    checkpoints_apart p s' /\ match o with inl _ => checkpoints_current p s' | inr _ => True end) s.
Proof.
  intros Hap Hcov. unfold maybe_checkpoint, checkpoints_current. destruct (Z.leb_spec (pl_checkpoint_interval p) 0) as [Hi|Hi].
  { apply wp_ret. repeat split; try done; lia. }
  specialize (Hap Hi). specialize (Hcov Hi). apply wp_bind, wp_modify, wp_bind, wp_get. cbn [px_checkpoint px_completed set_counters].
  destruct (Z.leb_spec (pl_checkpoint_interval p) (Z.of_nat (px_checkpoint s + length l))) as [Hn|Hn].
  - apply wp_bind, wp_await. unfold wp at 1. cbn [px_world set_counters]. destruct (save_checkpoint _ _) as [w' [[]|e]]; intros st c.
    + apply wp_modify. split; [done|]. split; [done|]. unfold callbacks, checkpoints_apart, covered, saves. simpl px_events.
      rewrite List.filter_app, omap_app, app_nil_r. split; [done|]. simpl. split.
      * intros _. apply spaced_snoc; [exact Hap|]. unfold covered, saves in Hcov. lia.
      * intros _. rewrite List.last_last. split; lia.
    + split; [done|]. split; [done|]. split; [done|]. split; [intros _; exact Hap|done].
  - apply wp_ret. split; [done|]. split; [done|]. split; [done|]. split; [intros _; exact Hap|]. intros _. split; [exact Hcov|exact Hn].
Qed.

(** *** The loop *)

Definition looping p total s : Prop :=
  counted total s /\ running s /\ (pl_fail_fast p = true -> none_failed (steps_of s)) /\
  checkpoints_apart p s /\ checkpoints_current p s.

(** What holds wherever the loop stops. *)
Definition sound p total bound s : Prop :=
  counted total s /\ (pl_fail_fast p = true -> stops_at_failure (steps_of s)) /\ checkpoints_apart p s /\
  length (steps_of s) <= bound.

Definition cancelled_result s : Prop := overall s = StFailed /\ od_mem "cancelled" (wr_metadata (px_result s)) = true.

Definition returned s : Prop :=
  overall s = StFailed /\ px_status s = PxFailed /\ is_Some (wr_end_time (px_result s)) /\ existsb is_failed (steps_of s) = true.

Lemma looping_sound p total s : looping p total s -> sound p total (length (steps_of s)) s.
Proof. intros (Hc & _ & Hff & Hap & _). split; [done|]. split; [auto|]. by split. Qed.

Lemma sound_le p total b b' s : sound p total b s -> b <= b' -> sound p total b' s.
Proof. intros (? & ? & ? & ?) ?. split; [done|]. split; [done|]. split; [done|]. lia. Qed.

Lemma od_mem_set {V} k (v : V) d : od_mem k (od_set k v d) = true.
Proof. apply od_mem_spec. rewrite od_get_set_eq. eauto. Qed.

(** Recording an element's results and the checkpoint after them. *)
Lemma record_and_checkpoint p total l s (Q : bool + PyExc -> Px W -> Prop) (k : M (Px W) bool) :
  looping p total s ->
  (forall e s', sound p total (length (steps_of s) + length l) s' -> Q (inr e) s') ->
  (forall s', sound p total (length (steps_of s) + length l) s' -> returned s' -> Q (inl true) s') ->
  (forall s', looping p total s' -> length (steps_of s') = length (steps_of s) + length l -> wp k Q s') ->
  wp (bind (record_step_results cb p total l) (fun ff : bool =>
        if ff then ret true else bind (maybe_checkpoint p l) (fun _ => k))) Q s.
Proof.
  intros (Hc & Hr & Hff & Hap & Hcur) He Ht Hk. apply wp_bind. eapply wp_mono; [by apply record_spec|].
  intros o s1 (pre & rest & -> & Hs1 & Hc1 & Hst & [Hck Hsv] & Ho).
  assert (checkpoints_apart p s1) as Hap1 by (unfold checkpoints_apart; by rewrite Hsv).
  assert (sound p total (length (steps_of s) + length (pre ++ rest)) s1) as Hsound.
  { split; [done|]. split; [done|]. split; [done|]. rewrite Hs1, !length_app. lia. }
  destruct o as [[|]|e]; [by apply wp_ret, Ht| |by apply He]. destruct Ho as (-> & Hr1 & Hff1). rewrite app_nil_r in *.
  apply wp_bind. eapply wp_mono.
  { apply checkpoint_spec; [done|]. intros Hi. destruct (Hcur Hi) as [Hcov _]. destruct Hc as [Hc _], Hc1 as [Hc1 _].
    rewrite Hc1, Hs1, length_app. unfold covered in *. rewrite Hsv, Hck. lia. }
  intros [[]|e] s2 (Hres & Hcomp & Hcbs & Hap2 & Hcur2).
  - apply Hk; [|unfold steps_of in *; rewrite Hres, Hs1; apply length_app].
    unfold looping, counted, running, overall, steps_of in *. rewrite Hres, Hcomp, Hcbs.
    split; [exact Hc1|]. split; [exact Hr1|]. split; [exact Hff1|]. by split.
  - apply He. destruct Hsound as (_ & H2 & _ & H4). unfold sound, counted, steps_of in *. rewrite Hres, Hcomp, Hcbs.
    split; [exact Hc1|]. by split.
Qed.

Lemma run_elements_spec p total l s : looping p total s ->
  wp (run_elements cb p total l) (fun o s' =>
    sound p total (length (steps_of s) + count_elements l) s' /\
    match o with
    | inl false => looping p total s' \/ cancelled_result s'
    | inl true => returned s'
    | inr _ => True
    end) s.
Proof.
  revert s. induction l as [|x l IH]; intros s Hl; cbn [run_elements].
  { apply wp_ret. split; [|by left]. eapply sound_le; [by apply looping_sound|lia]. }
  apply wp_bind, wp_get. destruct (px_cancelled s).
  { apply wp_bind, wp_modify, wp_ret. split; [|right; split; [done|apply od_mem_set]].
    eapply sound_le; [exact (looping_sound _ _ _ Hl)|lia]. }
  change (count_elements (x :: l)) with (count_element x + count_elements l).
  apply wp_bind, wp_await. eapply wp_mono; [apply execute_element_length|]. intros [rs|e] w' Hlen st c.
  - specialize (Hlen rs eq_refl). apply record_and_checkpoint; [exact Hl| | |].
    + intros e s' Hs'. split; [|done]. eapply sound_le; [done|]. unfold steps_of at 1. cbn [px_result]. fold (steps_of s). lia.
    + intros s' Hs' Hret. split; [|done]. eapply sound_le; [done|]. unfold steps_of at 1. cbn [px_result]. fold (steps_of s). lia.
    + intros s' Hl' Hs'. eapply wp_mono; [by apply IH|]. intros o s2 [Hso Ho]. split; [|done].
      eapply sound_le; [done|]. rewrite Hs'. unfold steps_of at 1. cbn [px_result]. fold (steps_of s). lia.
  - split; [|done]. eapply sound_le; [exact (looping_sound _ _ _ Hl)|lia].
Qed.

(** *** [execute] *)

(** The result and status are final and agree. *)
Definition settled p s : Prop :=
  is_Some (wr_end_time (px_result s)) /\
  ((overall s = StSuccess /\ px_status s = PxSuccess /\ none_failed (steps_of s) /\ checkpoints_current p s) \/
   (overall s = StFailed /\ px_status s = PxFailed /\
    (existsb is_failed (steps_of s) = true \/ od_mem "cancelled" (wr_metadata (px_result s)) = true \/
     od_mem "error" (wr_metadata (px_result s)) = true))).

Lemma settle_failed s : overall s = StFailed -> settle s = set_status PxFailed s.
Proof. unfold overall, settle. intros H. by rewrite !bool_decide_eq_false_2 by (rewrite ?bool_decide_eq_false_2; by rewrite H). Qed.
Lemma settle_running s : overall s = StRunning ->
  settle s = set_status PxSuccess (Pipeline.update_result (set_overall StSuccess) s).
Proof. unfold overall, settle. intros H. by rewrite (bool_decide_eq_true_2 _ H). Qed.

Lemma settle_complete p total s : looping p total s \/ cancelled_result s ->
  settled p (mark_complete (bool_decide (wr_overall_status (px_result (settle s)) = StSuccess)) (settle s)).
Proof.
  intros Hs. split; [by eexists|].
  destruct Hs as [(Hc & Hr & _ & _ & Hcur)|[Hf Hm]].
  - unfold running in Hr. destruct (existsb is_failed (steps_of s)) eqn:E.
    + right. rewrite (settle_failed s Hr). unfold overall in Hr. cbn. rewrite Hr. split; [done|]. split; [done|]. by left.
    + left. rewrite (settle_running s Hr). split; [done|]. split; [done|]. split; [exact E|exact Hcur].
  - right. rewrite (settle_failed s Hf). unfold overall in Hf. cbn. rewrite Hf. split; [done|]. split; [done|]. right. by left.
Qed.

Lemma fail_complete p x s :
  let s0 := fail_execution x s in
  settled p (mark_complete (bool_decide (wr_overall_status (px_result s0) = StSuccess)) s0).
Proof. intros s0. split; [by eexists|]. right. split; [done|]. split; [done|]. right; right. apply od_mem_set. Qed.

Lemma begin_looping p s : px_events s = [] -> looping p (total_steps p) (begin p s).
Proof.
  intros He. split; [|split; [done|split; [done|split]]].
  - split; [done|]. unfold callbacks, begin. cbn. rewrite He. by destruct cb.
  - intros _. unfold saves, begin. cbn. by rewrite He.
  - intros Hi. unfold covered, saves, begin. cbn. rewrite He. split; [done|exact Hi].
Qed.

Lemma sound_settle p total b s n : sound p total b s -> sound p total b (mark_complete n (settle s)).
Proof. unfold settle. destruct (bool_decide (wr_overall_status (px_result s) = StRunning)); exact id. Qed.

Lemma execute_spec p s : px_events s = [] ->
  wp (execute cb p) (fun o s' => sound p (total_steps p) (total_steps p) s' /\
    match o with
    | inl res => res = px_result s' /\ settled p s'
    | inr e => is_exception e = false
    end) s.
Proof.
  intros He. apply wp_bind, wp_modify, wp_bind, wp_try, wp_bind.
  eapply wp_mono; [apply run_elements_spec, begin_looping, He|]. intros [[|]|e] s1 [Hso Ho]; simpl in Hso.
  - apply wp_ret, wp_bind, wp_get, wp_ret. split; [done|]. split; [done|]. destruct Ho as (H1 & H2 & H3 & H4). split; [done|]. auto 6.
  - apply wp_bind, wp_modify, wp_ret, wp_bind, wp_modify, wp_bind, wp_get, wp_ret.
    split; [by apply sound_settle|]. split; [done|]. by eapply settle_complete.
  - destruct (is_exception e) eqn:Hx.
    + apply wp_bind, wp_modify, wp_ret, wp_bind, wp_modify, wp_bind, wp_get, wp_ret. split; [exact Hso|]. split; [done|]. apply fail_complete.
    + by apply wp_raise.
Qed.

Lemma run_pipeline_spec p w : let '(s, out) := run_pipeline p cb w in
  sound p (total_steps p) (total_steps p) s /\
  match out with inl res => res = px_result s /\ settled p s | inr e => is_exception e = false end.
Proof.
  pose proof (execute_spec p (new_executor w) eq_refl) as H. apply wp_intro in H. unfold run_pipeline.
  by destruct (execute cb p (new_executor w)) as [s out].
Qed.
End gather.

(** ** The claims *)
Section claims.
Context {S W : Type} `{!PipelineEnv S W, !PipelineLaws S W}.
Context (cb : option (string -> nat -> nat -> StepResult -> M W unit)).
Implicit Types (p : Pipeline S W).

(** However a run of a pipeline ends, it never records more results than
    [total_steps] announces, and the progress callbacks it made are exactly one per
    recorded result, in the order of the results, numbered 1, 2, 3, ... with the
    same total each time. *)
Theorem progress_counts p w s out :
  run_pipeline p cb w = (s, out) ->
  length (wr_steps (px_result s)) <= total_steps p /\ px_completed s = length (wr_steps (px_result s)) /\
  List.filter (fun ev => match ev with Progress _ _ _ _ => true | _ => false end) (px_events s) =
    if cb then imap (fun i r => Progress (sr_step_name r) (1 + i) (total_steps p) r) (wr_steps (px_result s)) else [].
Proof.
  intros E. pose proof (run_pipeline_spec cb p w) as H. rewrite E in H. destruct H as [([Hc Hcb] & _ & _ & Hle) _].
  split; [exact Hle|]. split; [exact Hc|exact Hcb].
Qed.

(** A run that returns has settled: the workflow result carries an end time and is
    SUCCESS or FAILED, and the executor's status agrees with it.  It is SUCCESS only
    when no recorded step failed, and FAILED only when one did, or the metadata says
    that the run was cancelled or which error ended it.  The only exceptions that
    escape are cancellations. *)
Theorem pipeline_settles p w s out :
  run_pipeline p cb w = (s, out) ->
  match out with
  | inl res =>
      is_Some (wr_end_time res) /\
      ((wr_overall_status res = StSuccess /\ px_status s = PxSuccess /\ existsb is_failed (wr_steps res) = false) \/
       (wr_overall_status res = StFailed /\ px_status s = PxFailed /\
        (existsb is_failed (wr_steps res) = true \/ od_mem "cancelled" (wr_metadata res) = true \/
         od_mem "error" (wr_metadata res) = true)))
  | inr e => ex_kind e = KCancelled
  end.
Proof.
  intros E. pose proof (run_pipeline_spec cb p w) as H. rewrite E in H. destruct H as [_ H]. destruct out as [res|e].
  - destruct H as [-> [Hend [(H1 & H2 & H3 & _)|H]]]; split; auto.
  - unfold is_exception in H. by destruct (ex_kind e).
Qed.

(** A fail-fast pipeline stops at its first failed step: only the last recorded
    result can have failed, whatever the nesting of groups and branches, and a run that
    returns with a failed step is FAILED. *)
Theorem fail_fast_stops p w s out :
  pl_fail_fast p = true -> run_pipeline p cb w = (s, out) ->
  (forall pre r post, wr_steps (px_result s) = pre ++ r :: post -> is_failed r = true -> post = []) /\
  (forall res, out = inl res -> existsb is_failed (wr_steps res) = true -> wr_overall_status res = StFailed).
Proof.
  intros Hff E. pose proof (run_pipeline_spec cb p w) as H. rewrite E in H. destruct H as [(_ & Hst & _) Hout].
  split; [exact (Hst Hff)|]. intros res -> Hf. destruct Hout as [-> [_ [(_ & _ & Hn & _)|(Ho & _)]]]; [|exact Ho].
  unfold none_failed, steps_of in Hn. congruence.
Qed.

(** Checkpoints are saved at the interval: consecutive checkpoints are at least
    [checkpoint_interval] completed steps apart, the first at least that many after the
    start, and a run that succeeds leaves fewer than [checkpoint_interval] completed
    steps after its last checkpoint. *)
Theorem checkpoints_at_interval p w s out :
  (0 < pl_checkpoint_interval p)%Z -> run_pipeline p cb w = (s, out) ->
  let saved := omap (fun ev => match ev with Saved k => Some k | _ => None end) (px_events s) in
  spaced (pl_checkpoint_interval p) 0 saved /\
  (forall res, out = inl res -> wr_overall_status res = StSuccess ->
    (Z.of_nat (px_completed s) < Z.of_nat (List.last saved 0%nat) + pl_checkpoint_interval p)%Z).
Proof.
  intros Hi E. pose proof (run_pipeline_spec cb p w) as H. rewrite E in H. destruct H as [(_ & _ & Hap & _) Hout].
  split; [exact (Hap Hi)|]. intros res -> Hs. destruct Hout as [-> [_ [(_ & _ & _ & Hcur)|(Ho & _)]]].
  - destruct (Hcur Hi) as [Hcov Hlt]. unfold covered, saves in Hcov. lia.
  - unfold overall in Ho. congruence.
Qed.
End claims.

(** ** A concrete environment

    Steps are names and the world is a clock; the step ["bad"] and the task 1 of a
    group fail; tasks finish one at a time, the lowest first. *)

Definition demo_result (name : string) (ok : bool) : StepResult :=
  new_step_result name (if ok then StSuccess else StFailed) None 0.

#[export] Instance demo_env : PipelineEnv string nat := {
  run_step name w := (Datatypes.S w, inl (demo_result name (negb (bool_decide (name = "bad")))));
  start_tasks _ _ w := w;
  wait_first pending w :=
    (Datatypes.S w, inl (match pending with [] => [] | i :: _ => [(i, inl (demo_result "task" (negb (Nat.eqb i 1))))] end));
  cancel_tasks _ w := w;
  gather steps _ w := (Datatypes.S w, inl ((fun n => demo_result n true) <$> steps));
  cancel_called _ _ := false;
  save_checkpoint _ w := (Datatypes.S w, inl tt);
  clock w := Z.of_nat w;
  workflow_id _ := "wf";
}.

#[export] Instance demo_laws : PipelineLaws string nat.
Proof.
  split.
  - intros pending w w' done [= <- <-] Hne. by destruct pending.
  - intros [|i pending] w w' done [= <- <-]; simpl; [split; [constructor|set_solver]|]. split; [apply NoDup_singleton|set_solver].
  - intros steps c w w' l [= <- <-]. apply length_fmap.
Defined.

Definition demo_callback : option (string -> nat -> nat -> StepResult -> M nat unit) := Some (fun _ _ _ _ => ret tt).

(** A step, a branch over a step and a group, and a last step; checkpoints every two steps. *)
Definition demo_pipeline (last : string) : Pipeline string nat :=
  with_checkpoints 2
    (Pipeline.add_step last
      (add_branch (ret true) [EStep "then"; EGroup (mkGroup "g" ["p"; "q"; "r"] false (Some 2%Z))] None None
        (Pipeline.add_step "first" (new_pipeline "demo" "")))).

Lemma group_settles_witness : exists l w, gather_fail_fast 3 (seq 0 3) [] 0 = (w, inl (Some l)) /\ length l = 2 /\
  (existsb is_failed l = false /\ length l = 3 \/
   exists pre f, l = pre ++ [f] /\ existsb is_failed pre = false /\ is_failed f = true /\ length l <= 3).
Proof.
  pose proof (group_settles (S := string) 3 0) as H. apply wp_intro in H as [_ H].
  do 2 eexists. split; [vm_compute; reflexivity|]. split; [reflexivity|]. apply H. vm_compute. reflexivity.
Defined.

Lemma progress_counts_witness : exists s out,
  run_pipeline (demo_pipeline "last") demo_callback 0 = (s, out) /\ length (wr_steps (px_result s)) = 6 /\ px_completed s = 6.
Proof.
  eexists _, _. split; [apply surjective_pairing|]. split; [vm_compute; reflexivity|].
  destruct (progress_counts demo_callback (demo_pipeline "last") 0 _ _ (surjective_pairing _)) as (_ & -> & _).
  vm_compute. reflexivity.
Defined.

Lemma pipeline_settles_witness : exists s res,
  run_pipeline (demo_pipeline "bad") None 0 = (s, inl res) /\ px_status s = PxFailed /\ is_Some (wr_end_time res).
Proof.
  destruct (run_pipeline (demo_pipeline "bad") None 0) as [s out] eqn:E. pose proof (pipeline_settles None _ _ _ _ E) as H.
  vm_compute in E. injection E as <- <-. eexists _, _. split; [reflexivity|]. split; [reflexivity|]. apply H.
Defined.

Lemma fail_fast_stops_witness : exists s out,
  run_pipeline (demo_pipeline "bad") None 0 = (s, out) /\ existsb is_failed (wr_steps (px_result s)) = true /\
  (forall pre r post, wr_steps (px_result s) = pre ++ r :: post -> is_failed r = true -> post = []).
Proof.
  eexists _, _. split; [apply surjective_pairing|]. split; [vm_compute; reflexivity|].
  apply (fail_fast_stops None (demo_pipeline "bad") 0 _ _ eq_refl (surjective_pairing _)).
Defined.

Lemma checkpoints_at_interval_witness : exists s out,
  run_pipeline (demo_pipeline "last") None 0 = (s, out) /\
  omap (fun ev => match ev with Saved k => Some k | _ => None end) (px_events s) = [5] /\ spaced 2 0 [5].
Proof.
  destruct (run_pipeline (demo_pipeline "last") None 0) as [s out] eqn:E.
  destruct (checkpoints_at_interval None (demo_pipeline "last") 0 s out eq_refl E) as [H _].
  vm_compute in E. injection E as <- <-. eexists _, _. split; [reflexivity|]. split; [reflexivity|]. exact H.
Defined.

(** A finished result is dropped when the same [done] set holds an earlier failure. *)
Lemma done_results_dropped (w : nat) :
  (take_done [(0, inl (demo_result "a" false)); (1, inl (demo_result "b" true))] [] w).2 = inl ([demo_result "a" false], true).
Proof. reflexivity. Qed.
