(* ===== verification/Governance.v ===== *)
(** * Human approval and escalation (governance/approval.py, governance/escalation.py)

    The approval gate every tool call passes, and the handoff of an exhausted
    fallback chain.  Providers and sinks are computations on the world; the
    registered ones, the settings and [asyncio.wait_for] are the interface
    [GovernanceEnv]. *)

From stdpp Require Import pretty.
From Stdlib Require Import QArith Qcanon.
From S2P Require Import Prelude PyStr PyVal Messages Step.

Inductive ApprovalDecision := APPROVED | DENIED.

Definition decision_value (d : ApprovalDecision) : string := match d with APPROVED => "approved" | DENIED => "denied" end.

Record ApprovalRequest := mkRequest {
  rq_tool_name : string;
  rq_tool_args : odict pyval;
  rq_call_id : string;
  rq_agent_or_step : option string;
}.

Definition MAX_ARG_REPR_CHARS : nat := 200.

(** [text[:n] + suffix] when the text is longer *)
Definition clip (n : nat) (suffix text : string) : string :=
  if n <? String.length text then String.substring 0 n text +:+ suffix else text.

(** [_redact_arg_value] and [_redacted_args] *)
Definition redact_arg_value (repr : pyval -> string) (v : pyval) : string := clip MAX_ARG_REPR_CHARS "...[redacted]" (repr v).
Definition redacted_args (repr : pyval -> string) (r : ApprovalRequest) : string :=
  "{" +:+ join ", " ((fun kv => kv.1 +:+ "=" +:+ redact_arg_value repr kv.2) <$> rq_tool_args r) +:+ "}".

(** A provider: its type name and [request_approval]. *)
Record ApprovalProvider (W : Type) := mkProvider {
  ap_label : string;
  request_approval : ApprovalRequest -> M W ApprovalDecision;
}.
Arguments mkProvider {W}. Arguments ap_label {W}. Arguments request_approval {W}.

Definition AutoApproveProvider {W} : ApprovalProvider W := mkProvider "AutoApproveProvider" (fun _ => ret APPROVED).
Definition AutoDenyProvider {W} : ApprovalProvider W := mkProvider "AutoDenyProvider" (fun _ => ret DENIED).
Definition CallbackApprovalProvider {W} (fn : ApprovalRequest -> M W ApprovalDecision) : ApprovalProvider W :=
  mkProvider "CallbackApprovalProvider" fn.
Definition PolicyApprovalProvider {W} (allowlist : list string) : ApprovalProvider W :=
  mkProvider "PolicyApprovalProvider" (fun r => ret (if bool_decide (rq_tool_name r ∈ allowlist) then APPROVED else DENIED)).

(** The settings the gate reads. *)
Record ApprovalSettings := mkSettings {
  require_tool_approval : bool;
  approval_required_tools : string;
  approval_timeout_seconds : Q;
}.

(** ** Escalation data *)

Inductive FailureType := ALL_AGENTS_EXHAUSTED | NO_AGENT_AVAILABLE | UNRECOVERABLE_ERROR.

Definition failure_value (f : FailureType) : string :=
  match f with
  | ALL_AGENTS_EXHAUSTED => "all_agents_exhausted"
  | NO_AGENT_AVAILABLE => "no_agent_available"
  | UNRECOVERABLE_ERROR => "unrecoverable_error"
  end.

Definition MAX_PARTIAL_CHARS : nat := 500.
Definition truncate_partial (str : pyval -> string) (v : pyval) : string := clip MAX_PARTIAL_CHARS "...[truncated]" (str v).

Record HandoffSummary := mkHandoff {
  hs_subtask_id : string;
  hs_failure_type : FailureType;
  hs_attempted_agents : list string;
  hs_partial_results : odict string;
  hs_suggested_next_action : string;
}.

Definition handoff_to_dict (h : HandoffSummary) : odict pyval :=
  [("handoff", VBool true); ("subtask_id", VStr (hs_subtask_id h)); ("failure_type", VStr (failure_value (hs_failure_type h)));
   ("attempted_agents", VList (VStr <$> hs_attempted_agents h));
   ("partial_results", VDict ((fun kv => (kv.1, VStr kv.2)) <$> hs_partial_results h));
   ("suggested_next_action", VStr (hs_suggested_next_action h))].

Definition from_exhausted_chain (str : pyval -> string) (subtask_id : string) (attempted_agents : list string)
    (partial_results : option (odict pyval)) : HandoffSummary :=
  let truncated := (fun kv => (kv.1, truncate_partial str kv.2)) <$> default [] partial_results in
  match attempted_agents with
  | [] =>
      mkHandoff subtask_id NO_AGENT_AVAILABLE [] truncated
        ("No agent was available for subtask '" +:+ subtask_id +:+
         "'. Register a capable agent or revise the required capabilities.")
  | _ =>
      mkHandoff subtask_id ALL_AGENTS_EXHAUSTED attempted_agents truncated
        ("All " +:+ pretty (length attempted_agents) +:+ " candidate agent(s) (" +:+ join ", " attempted_agents +:+
         ") failed subtask '" +:+ subtask_id +:+
         "'. Review the partial results, then either retry with adjusted inputs, assign a higher-tier agent, or complete the subtask manually.")
  end.

(** ** The interface *)

(** The process-wide provider, sink and settings; [asyncio.wait_for], which raises
    [TimeoutError] at the deadline; the text of a float. *)
Class GovernanceEnv (W : Type) := {
  get_approval_provider : W -> option (ApprovalProvider W);
  get_escalation_sink : W -> option (HandoffSummary -> M W unit);
  get_settings : W -> ApprovalSettings;
  wait_for : option Q -> M W ApprovalDecision -> M W ApprovalDecision;
  seconds_text : Q -> string;
}.

(** [wait_for] never makes up a decision, and without a bound it just awaits. *)
Class GovernanceLaws (W : Type) `{!GovernanceEnv W} : Prop := {
  wait_for_honest : forall t m w w' d, wait_for t m w = (w', inl d) -> m w = (w', inl d);
  wait_for_unbounded : forall m w, wait_for None m w = m w;
}.

(** ** The gate *)

(** [raw.split(",")] *)
Fixpoint split_comma (s : string) : list string :=
  match s with
  | EmptyString => [EmptyString]
  | String c s' =>
      if decide (c = ","%char) then EmptyString :: split_comma s'
      else match split_comma s' with [] => [String c EmptyString] | x :: l => String c x :: l end
  end.

Definition resolve_required_tool_names (raw : string) : list string :=
  filter (fun n => n ≠ "") (strip <$> split_comma raw).

Record ApprovalOutcome := mkOutcome {
  oc_allowed : bool;
  oc_decision : ApprovalDecision;
  oc_error_message : option string;
  oc_provider_label : string;
}.

Section gate.
Context {W : Type} `{!GovernanceEnv W}.

(** [flag]: the tool's own [requires_approval]. *)
Definition tool_requires_approval (flag : bool) (tool_name : string) (s : ApprovalSettings) : bool :=
  flag || require_tool_approval s ||
  bool_decide (tool_name ∈ resolve_required_tool_names (approval_required_tools s)).

Definition denied_no_provider (tool_name : string) : ApprovalOutcome :=
  mkOutcome false DENIED
    (Some ("Tool '" +:+ tool_name +:+ "' requires approval: denied by no provider registered (fail-closed). " +:+
           "Register an ApprovalProvider via agentic_v2.governance.set_approval_provider(...) or disable the requirement."))
    "no provider registered".

Definition denied_timeout (tool_name label : string) (timeout_s : Q) : ApprovalOutcome :=
  mkOutcome false DENIED
    (Some ("Tool '" +:+ tool_name +:+ "' requires approval: timed out after " +:+ seconds_text timeout_s +:+
           "s waiting for " +:+ label +:+ " (fail-closed).")) label.

Definition decided (tool_name label : string) (d : ApprovalDecision) : ApprovalOutcome :=
  match d with
  | APPROVED => mkOutcome true APPROVED None label
  | DENIED => mkOutcome false DENIED (Some ("Tool '" +:+ tool_name +:+ "' requires approval: denied by " +:+ label +:+ ".")) label
  end.

Definition approval_timeout (s : ApprovalSettings) : option Q :=
  if Qle_bool (approval_timeout_seconds s) 0 then None else Some (approval_timeout_seconds s).

Definition evaluate_tool_approval (flag : bool) (tool_name : string) (tool_args : odict pyval) (call_id : string)
    (agent_or_step : option string) : M W ApprovalOutcome :=
  w <- get;
  if negb (tool_requires_approval flag tool_name (get_settings w)) then ret (mkOutcome true APPROVED None "not-required")
  else
    match get_approval_provider w with
    | None => ret (denied_no_provider tool_name)
    | Some provider =>
        try_except
          (d <- wait_for (approval_timeout (get_settings w))
                  (request_approval provider (mkRequest tool_name tool_args call_id agent_or_step));
           ret (decided tool_name (ap_label provider) d))
          (fun e => match ex_kind e with
                    | KTimeout => ret (denied_timeout tool_name (ap_label provider) (approval_timeout_seconds (get_settings w)))
                    | _ => raise e
                    end)
    end.

(** [route_handoff] *)
Definition route_handoff (h : HandoffSummary) : M W HandoffSummary :=
  w <- get;
  match get_escalation_sink w with
  | Some handle_handoff =>
      try_except (handle_handoff h) (fun e => if is_exception e then ret tt else raise e);; ret h
  | None => ret h
  end.
End gate.
