(* ===== verification/Tools.v ===== *)
(** * Tools and the tool loop (tools/base.py, tools/registry.py, engine/tool_execution.py)

    A tool with its approval-gated [execute], the contracts offered to a model,
    the normalisation of tool choices and calls, and one round of tool calls. *)

From stdpp Require Import pretty sorting.
From Stdlib Require Import QArith Qcanon.
From S2P Require Import Prelude PyStr PyVal Messages Step Governance.

(** ** Tools *)

Record ToolResult := mkToolResult {
  tr_success : bool;
  tr_data : pyval;
  tr_error : option string;
  tr_execution_time_ms : Qc;
  tr_tool_name : string;
  tr_metadata : odict pyval;
}.

(** The constructor, with [__post_init__]. *)
Definition new_tool_result (success : bool) (data : pyval) (error : option string) (ms : Qc) (name : string)
    (metadata : odict pyval) : ToolResult :=
  mkToolResult success data
    (if negb success && bool_decide (error = None) then Some "Tool execution failed (no error message provided)" else error)
    ms name metadata.

(** [tl_body] is the [execute] a class defines, before the gate wraps it.
    [tl_validate] is [None] for a [BaseTool]; a tool of another class has its own
    [validate_parameters] and an ungated [execute]. *)
Record Tool (W : Type) := mkTool {
  tl_name : string;
  tl_description : string;
  tl_parameters : odict pyval;
  tl_tier : Z;
  tl_requires_approval : bool;
  tl_body : odict pyval -> M W ToolResult;
  tl_validate : option (odict pyval -> bool * option string);
}.
Arguments mkTool {W}. Arguments tl_name {W}. Arguments tl_description {W}. Arguments tl_parameters {W}.
Arguments tl_tier {W}. Arguments tl_requires_approval {W}. Arguments tl_body {W}. Arguments tl_validate {W}.

Definition is_base_tool {W} (t : Tool W) : bool := match tl_validate t with None => true | Some _ => false end.

(** [ToolRegistry.register] and [list_tools]: a dict by name. *)
Definition register {W} (t : Tool W) (tools : odict (Tool W)) : odict (Tool W) := od_set (tl_name t) t tools.
Definition list_tools {W} (tier : option Z) (tools : odict (Tool W)) : list (Tool W) :=
  match tier with Some n => filter (fun t => tl_tier t = n) tools.*2 | None => tools.*2 end.

(** What the loop needs of the language: [json.loads] of a text that parses, the
    first sixteen hex digits of its SHA-256, the [repr] of containers and floats,
    the iteration order of a set of names, and [time.perf_counter]. *)
Class ToolEnv (W : Type) := {
  json_loads : string -> option pyval;
  digest16 : string -> string;
  repr : pyval -> string;
  float_repr : Qc -> string;
  set_order : list string -> list string;
  perf_counter : W -> Qc;
}.

(** ** [BaseTool] *)
Section tools.
Context {W : Type} `{!GovernanceEnv W, !ToolEnv W}.
Implicit Types (t : Tool W) (args : odict pyval).

Definition str : pyval -> string := str_of repr.
Definition dumps (v : pyval) : string := json_dumps float_repr v.

(** [call_id_for] *)
Definition call_id_for (tool_name : string) args : string :=
  "tool-" +:+ digest16 (tool_name +:+ String Ascii.zero (dumps (sort_keys (VDict args)))).

Definition denial_metadata (o : ApprovalOutcome) : odict pyval :=
  [("approval_required", VBool true); ("approval_decision", VStr (decision_value (oc_decision o)));
   ("approval_provider", VStr (oc_provider_label o))].

(** A keyword argument named [self] clashes with the bound one. *)
Definition self_clash {A} args (m : M W A) : M W A :=
  if od_mem "self" args then raise (exc_of (TypeError "got multiple values for argument 'self'")) else m.

(** [_gated_execute]; a tool of another class is not gated. *)
Definition execute t args : M W ToolResult :=
  if is_base_tool t then
    self_clash args
      (o <- evaluate_tool_approval (tl_requires_approval t) (tl_name t) args (call_id_for (tl_name t) args) None;
       if oc_allowed o then tl_body t args
       else ret (new_tool_result false VNone (oc_error_message o) (Q2Qc 0) (tl_name t) (denial_metadata o)))
  else self_clash args (tl_body t args).

(** [__call__] *)
Definition call_tool t args : M W ToolResult :=
  w <- get;
  let elapsed w' := Q2Qc ((perf_counter w' - perf_counter w) * 1000) in
  try_except
    (r <- execute t args;
     w' <- get;
     ret (mkToolResult (tr_success r) (tr_data r) (tr_error r) (elapsed w') (tl_name t) (tr_metadata r)))
    (fun e =>
       if is_exception e then
         w' <- get;
         ret (new_tool_result false VNone (Some (ex_type e +:+ ": " +:+ ex_msg e)) (elapsed w') (tl_name t) [])
       else raise e).

(** [param_spec.get("required", False)]; [None] on a specification that is no dict. *)
Definition required_flag (spec : pyval) : option bool :=
  match spec with VDict d => Some (truthy (default (VBool false) (od_get "required" d))) | _ => None end.

Fixpoint check_required (params : odict pyval) args : res (option string) :=
  match params with
  | [] => Ok None
  | (name, spec) :: rest =>
      match required_flag spec with
      | None => Raise (AttributeError "object has no attribute 'get'")
      | Some required => if required && negb (od_mem name args) then Ok (Some name) else check_required rest args
      end
  end.

Definition validate_base t args : res (bool * option string) :=
  missing ← check_required (tl_parameters t) args;
  match missing with
  | Some name => Ok (false, Some ("Required parameter '" +:+ name +:+ "' is missing"))
  | None =>
      match filter (fun k => k ∉ od_keys (tl_parameters t)) (od_keys args) with
      | [] => Ok (true, None)
      | unexpected => Ok (false, Some ("Unexpected parameters: " +:+ join ", " (set_order unexpected)))
      end
  end.

Definition validate_parameters t args : M W (bool * option string) :=
  self_clash args
    (match tl_validate t with
     | Some f => ret (f args)
     | None => match validate_base t args with Ok r => ret r | Raise e => raise (exc_of e) end
     end).

(** ** Contracts (engine/tool_execution.py) *)

Definition parameter_spec_to_json_schema (spec : pyval) : pyval :=
  match spec with
  | VDict d =>
      let normalized := filter (fun kv => kv.1 ≠ "required") d in
      VDict (if od_mem "type" normalized then normalized else od_set "type" (VStr "string") normalized)
  | _ => VDict [("type", VStr "string")]
  end.

Inductive ToolChoice := CAuto | CRequired | CNone | CForced (name : string).

(** The wire shape. *)
Definition choice_value (c : ToolChoice) : pyval :=
  match c with
  | CAuto => VStr "auto" | CRequired => VStr "required" | CNone => VStr "none"
  | CForced n => VDict [("type", VStr "function"); ("function", VDict [("name", VStr n)])]
  end.

(** [_validate_forced_tool] *)
Definition validate_forced_tool (name : string) (available : option (list string)) : res ToolChoice :=
  match available with
  | Some l => if bool_decide (name ∈ l) then Ok (CForced name)
              else Raise (ValueError ("Forced tool_choice '" +:+ name +:+ "' is not in the available tool set"))
  | None => Ok (CForced name)
  end.

Definition normalize_choice_string (s : string) (available : option (list string)) : res ToolChoice :=
  let lowered := lower (strip s) in
  if bool_decide (lowered = "auto" \/ lowered = "") then Ok CAuto
  else if bool_decide (lowered = "any" \/ lowered = "required") then Ok CRequired
  else if bool_decide (lowered = "none") then Ok CNone
  else validate_forced_tool (strip s) available.

(** The tool a dict names, in the OpenAI and then in the Anthropic shape. *)
Definition named_tool (d : odict pyval) : option string :=
  let openai :=
    match od_get "function" d with
    | Some (VDict f) => match od_get "name" f with Some n => if truthy n then Some (str n) else None | None => None end
    | _ => None
    end in
  match openai with
  | Some n => Some n
  | None =>
      if bool_decide (od_get "type" d = Some (VStr "tool")) then
        match od_get "name" d with Some n => if truthy n then Some (str n) else None | None => None end
      else None
  end.

Definition normalize_tool_choice (c : pyval) (available : option (list string)) : res ToolChoice :=
  match c with
  | VNone => Ok CAuto
  | VStr s => normalize_choice_string s available
  | VDict d =>
      match named_tool d with
      | Some n => validate_forced_tool n available
      | None => normalize_choice_string (lower (str (default (VStr "auto") (od_get "type" d)))) available
      end
  | v => Raise (ValueError ("Unsupported tool_choice: " +:+ repr v))
  end.

(** [_is_forced_tool_choice] *)
Definition is_forced_tool_choice (c : pyval) : bool :=
  let forced s := bool_decide (s = "required" \/ s = "any") in
  match c with
  | VStr s => forced (lower (strip s))
  | VDict d =>
      match named_tool d with
      | Some _ => true
      | None => forced (lower (str (default (VStr "") (od_get "type" d))))
      end
  | _ => false
  end.

Definition tool_schema t : pyval :=
  VDict [("type", VStr "function");
    ("function", VDict
      [("name", VStr (tl_name t)); ("description", VStr (tl_description t));
       ("parameters", VDict
         [("type", VStr "object");
          ("properties", VDict ((fun kv => (kv.1, parameter_spec_to_json_schema kv.2)) <$> tl_parameters t));
          ("required", VList ((fun kv => VStr kv.1) <$>
             filter (fun kv => required_flag kv.2 = Some true) (tl_parameters t)))])])].

Definition name_le t1 t2 : Prop := String.leb (tl_name t1) (tl_name t2) = true.
#[export] Instance name_le_dec t1 t2 : Decision (name_le t1 t2) := decide (_ = true).

(** The tools [build_tool_contracts] selects, sorted by name. *)
Definition select_tools (registry : odict (Tool W)) (tier : Z) (requested : option (list string)) : list (Tool W) :=
  let available := foldl (fun d t => od_set (tl_name t) t d) [] (list_tools None registry) in
  let selected :=
    match requested with
    | None => filter (fun t => (tl_tier t <= tier)%Z) available.*2
    | Some names => omap (fun n => match od_get n available with
                                   | Some t => if (tier <? tl_tier t)%Z then None else Some t
                                   | None => None end) names
    end in
  merge_sort name_le selected.

Definition build_tool_contracts (registry : odict (Tool W)) (tier : Z) (requested : option (list string)) (choice : pyval)
  : res (list pyval * odict (Tool W) * ToolChoice) :=
  let selected := select_tools registry tier requested in
  let bound := foldl (fun d t => od_set (tl_name t) t d) [] selected in
  c ← normalize_tool_choice choice (Some (od_keys bound));
  Ok (tool_schema <$> selected, bound, c).

(** ** Tokens and messages *)

(** [isinstance(v, (int, float))], then [int(v)]. *)
Definition number (v : option pyval) : option Z :=
  match v with
  | Some (VInt z) => Some z
  | Some (VBool b) => Some (Z.b2z b)
  | Some (VFloat q) => Some (Z.quot (Qnum q) (Zpos (Qden q)))
  | _ => None
  end.

Definition get_or {V} (k1 k2 : string) (d : odict V) : option V := match od_get k1 d with Some v => Some v | None => od_get k2 d end.

Fixpoint first_number (keys : list string) (d : odict pyval) : option Z :=
  match keys with
  | [] => None
  | k :: rest => match number (od_get k d) with Some z => Some z | None => first_number rest d end
  end.

Definition extract_usage_tokens (usage : pyval) : Z :=
  match usage with
  | VDict d =>
      match first_number ["total_tokens"; "totalTokenCount"; "total"] d with
      | Some z => Z.max 0 z
      | None =>
          match number (get_or "prompt_tokens" "input_tokens" d), number (get_or "completion_tokens" "output_tokens" d) with
          | Some p, Some c => Z.max 0 (p + c)
          | _, _ => 0%Z
          end
      end
  | _ => 0%Z
  end.

Definition message_text (msg : odict pyval) : string :=
  let role := str (default (VStr "") (od_get "role" msg)) in
  match default (VStr "") (od_get "content" msg) with
  | VStr content => role +:+ ":" +:+ content
  | content => role +:+ ":" +:+ dumps content
  end.
Definition messages_to_text (messages : list (odict pyval)) : string :=
  join (String (Ascii.ascii_of_nat 10) EmptyString) (message_text <$> messages).

(** ** Calls *)

Definition parse_tool_args (raw_args : option pyval) : odict pyval :=
  match raw_args with
  | Some (VDict d) => d
  | Some (VStr s) =>
      if bool_decide (strip s = "") then []
      else match json_loads (strip s) with Some (VDict d) => d | _ => [] end
  | _ => []
  end.

Definition get_str (k : string) (d : odict pyval) : string := strip (str (default (VStr "") (od_get k d))).

Definition normalize_tool_call (call : odict pyval) : string * string * odict pyval :=
  let call_id := get_str "id" call in
  let '(name, args) :=
    match od_get "function" call with
    | Some (VDict fn) => (get_str "name" fn, parse_tool_args (od_get "arguments" fn))
    | _ => (get_str "name" call, parse_tool_args (od_get "input" call))
    end in
  (if bool_decide (call_id = "") then call_id_for name args else call_id, name, args).

Definition MAX_TOOL_CALLS_PER_ROUND : nat := 12.
Definition MAX_TOOL_RESULT_CHARS : nat := Z.to_nat 12000.
Definition truncated_suffix : string := String (Ascii.ascii_of_nat 10) "[truncated]".

Definition truncate_tool_result (text : string) : string := clip MAX_TOOL_RESULT_CHARS truncated_suffix text.

Definition serialize_tool_result (r : ToolResult) : string :=
  truncate_tool_result (dumps (VDict
    [("success", VBool (tr_success r)); ("data", tr_data r); ("error", str_or_none (tr_error r));
     ("metadata", VDict (tr_metadata r)); ("execution_time_ms", VFloat (tr_execution_time_ms r));
     ("tool_name", VStr (tr_tool_name r))])).

Definition failure_text (error : option string) (extra : odict pyval) : string :=
  dumps (VDict ([("success", VBool false); ("error", str_or_none error)] ++ extra)).

(** Validation and execution, after the gate of a tool that is no [BaseTool]. *)
Definition validate_and_execute t (tool_name : string) args : M W string :=
  v <- validate_parameters t args;
  if negb v.1 then
    ret (failure_text (Some ("Invalid parameters for " +:+ tool_name +:+ ": " +:+ default "None" v.2)) [])
  else
    try_except (r <- execute t args; ret (serialize_tool_result r))
      (fun e => if is_exception e
                then ret (failure_text (Some ("Tool execution error for " +:+ tool_name +:+ ": " +:+ ex_msg e)) [])
                else raise e).

(** [_dispatch_single_tool_call] *)
Definition dispatch_single_tool_call (tool : option (Tool W)) (tool_name : string) args : M W string :=
  match tool with
  | None => ret (failure_text (Some ("Unknown tool: " +:+ tool_name)) [])
  | Some t =>
      if is_base_tool t then validate_and_execute t tool_name args
      else
        o <- evaluate_tool_approval (tl_requires_approval t) tool_name args (call_id_for tool_name args) None;
        if negb (oc_allowed o) then ret (failure_text (oc_error_message o) [("metadata", VDict (denial_metadata o))])
        else validate_and_execute t tool_name args
  end.

Definition tool_message (call_id tool_name content : string) : odict pyval :=
  [("role", VStr "tool"); ("tool_call_id", VStr call_id); ("name", VStr tool_name); ("content", VStr content)].

(** The state of a round: the world, [messages] and [executed]. *)
Record Round := mkRound { rd_world : W; rd_messages : list (odict pyval); rd_executed : nat }.

Definition on_world {A} (m : M W A) : M Round A := fun s =>
  let '(w, r) := m (rd_world s) in (mkRound w (rd_messages s) (rd_executed s), r).

Definition run_one (bound_tools : odict (Tool W)) (call : pyval) : M Round unit :=
  match call with
  | VDict c =>
      let '(call_id, tool_name, tool_args) := normalize_tool_call c in
      if bool_decide (tool_name = "") then ret tt
      else
        text <- on_world (dispatch_single_tool_call (od_get tool_name bound_tools) tool_name tool_args);
        modify (fun s => mkRound (rd_world s)
          (rd_messages s ++ [tool_message call_id tool_name (truncate_tool_result text)]) (1 + rd_executed s))
  | _ => ret tt
  end.

Definition run_tool_calls (tool_calls : list pyval) (bound_tools : odict (Tool W)) : M Round nat :=
  modify (fun s => mkRound (rd_world s) (rd_messages s) 0);;
  for_each (run_one bound_tools) (take MAX_TOOL_CALLS_PER_ROUND tool_calls);;
  s <- get; ret (rd_executed s).
End tools.
Arguments Round W : clear implicits.
