(* ===== verification/ToolsFacts.v ===== *)
(** * Correctness of the approval gate and the tool loop

    Nothing gated runs unapproved; a missing provider fails closed over a whole
    round; the messages of a round are bounded; tool choices normalise
    idempotently; contracts stay within the tier; handoffs are bounded. *)

From stdpp Require Import pretty sorting.
From Stdlib Require Import QArith Qcanon.
From S2P Require Import Prelude PyStr PyVal Messages Step StepFacts Governance Tools.

(** ** Clipped text *)

Lemma length_substring0 n s : String.length (String.substring 0 n s) <= n.
Proof. revert s. induction n as [|n IH]; intros [|c s]; simpl; try lia. specialize (IH s). lia. Qed.

Lemma clip_length n suffix s : String.length (clip n suffix s) <= n + String.length suffix.
Proof.
  unfold clip. destruct (Nat.ltb_spec n (String.length s)); [|lia]. rewrite length_append. pose proof (length_substring0 n s). lia.
Qed.

Lemma startswith_app p s s' : startswith s p = true -> startswith (s +:+ s') p = true.
Proof.
  revert s. induction p as [|c p IH]; intros s; [by destruct (s +:+ s')|].
  destruct s as [|d s]; [done|]. simpl. intros [-> Hs]%andb_prop. by apply IH.
Qed.

Lemma startswith_substring p n s : startswith s p = true -> String.length p <= n -> startswith (String.substring 0 n s) p = true.
Proof.
  revert n s. induction p as [|c p IH]; intros n s Hs Hn; [by destruct (String.substring 0 n s)|].
  destruct s as [|d s]; [done|]. destruct n as [|n]; simpl in Hn; [lia|]. simpl in *. apply andb_prop in Hs as [Hc Hs]. rewrite Hc. simpl. apply IH; [done|lia].
Qed.

Lemma startswith_clip p n suffix s : startswith s p = true -> String.length p <= n -> startswith (clip n suffix s) p = true.
Proof. intros Hs Hn. unfold clip. destruct (n <? _); [|done]. by apply startswith_app, startswith_substring. Qed.

(** ** The gate *)
Section gate.
Context {W : Type} `{!GovernanceEnv W, !ToolEnv W}.
Implicit Types (t : Tool W) (args : odict pyval) (w : W).

Definition with_body t (body : odict pyval -> M W ToolResult) : Tool W :=
  mkTool (tl_name t) (tl_description t) (tl_parameters t) (tl_tier t) (tl_requires_approval t) body (tl_validate t).

(** The gate requires approval of this tool in this world. *)
Definition gated t w : Prop := tool_requires_approval (tl_requires_approval t) (tl_name t) (get_settings w) = true.

Definition request_of t args : ApprovalRequest := mkRequest (tl_name t) args (call_id_for (tl_name t) args) None.

(** The registered provider approves this call. *)
Definition approved t args w : Prop :=
  exists p w', get_approval_provider w = Some p /\ request_approval p (request_of t args) w = (w', inl APPROVED).

Lemma evaluate_denies `{!GovernanceLaws W} t args w : gated t w -> ~ approved t args w ->
  wp (evaluate_tool_approval (tl_requires_approval t) (tl_name t) args (call_id_for (tl_name t) args) None)
    (fun r _ => forall o, r = inl o -> oc_allowed o = false /\ is_Some (oc_error_message o)) w.
Proof.
  intros Hg Hna. unfold evaluate_tool_approval. apply wp_bind, wp_get. rewrite Hg. simpl negb. cbv iota.
  destruct (get_approval_provider w) as [p|] eqn:Hp; [|by apply wp_ret; intros o [= <-]].
  apply wp_try, wp_bind. unfold wp at 1.
  destruct (wait_for (approval_timeout (get_settings w)) (request_approval p (mkRequest (tl_name t) args (call_id_for (tl_name t) args) None)) w)
    as [w' [[|]|e]] eqn:Hd.
  - destruct Hna. exists p, w'. split; [done|]. eapply wait_for_honest, Hd.
  - apply wp_ret. intros o [= <-]. by split.
  - destruct (ex_kind e); try (apply wp_raise; done). apply wp_ret. intros o [= <-]. by split.
Qed.

(** C29. The body of a tool runs only after approval.  When the gate requires approval of
    a call and the registered provider does not answer APPROVED (there is none, it
    denies, it raises, or it misses the deadline), executing the tool has the same
    effect and the same outcome whatever its body is, and a result it returns is a
    failure that says why. *)
Theorem unapproved_body_never_runs `{!GovernanceLaws W} t args w body :
  is_base_tool t = true -> gated t w -> ~ approved t args w ->
  execute (with_body t body) args w = execute t args w /\
  forall w' r, execute t args w = (w', inl r) ->
    tr_success r = false /\ is_Some (tr_error r) /\ od_get "approval_required" (tr_metadata r) = Some (VBool true).
Proof.
  intros Hb Hg Hna. pose proof (evaluate_denies t args w Hg Hna) as Hev. unfold execute.
  change (is_base_tool (with_body t body)) with (is_base_tool t). rewrite Hb. unfold self_clash. cbn [with_body tl_name tl_requires_approval tl_body].
  destruct (od_mem "self" args); [by split|]. unfold wp in Hev. unfold bind.
  destruct (evaluate_tool_approval _ _ _ _ _ w) as [w1 [o|e]]; [|by split]. destruct (Hev o eq_refl) as [-> Herr].
  split; [done|]. intros w' r [= <- <-]. split; [done|]. split; [|done]. destruct Herr as [m Hm]. rewrite Hm. by eexists.
Qed.

(** ** A round *)

Implicit Types (s : Round W).

Definition failure_prefix : string := "{" +:+ json_string "success" +:+ ": false".

Lemma failure_text_prefix error extra : startswith (failure_text error extra) failure_prefix = true.
Proof. destruct error; reflexivity. Qed.

Lemma serialize_failure r : tr_success r = false -> startswith (serialize_tool_result r) failure_prefix = true.
Proof.
  intros Hr. unfold serialize_tool_result. rewrite Hr. apply startswith_clip; [reflexivity|].
  unfold MAX_TOOL_RESULT_CHARS. change (String.length failure_prefix) with (Z.to_nat 17). apply Z2Nat.inj_le; lia.
Qed.

(** With no provider, a call of a gated tool leaves the world alone. *)
Lemma evaluate_no_provider t args w id a : gated t w -> get_approval_provider w = None ->
  evaluate_tool_approval (tl_requires_approval t) (tl_name t) args id a w = (w, inl (denied_no_provider (tl_name t))).
Proof.
  intros Hg Hp. unfold evaluate_tool_approval, bind, get. unfold gated in Hg. rewrite Hg, Hp. reflexivity.
Qed.

Lemma execute_no_provider t args w : is_base_tool t = true -> gated t w -> get_approval_provider w = None ->
  exists r, execute t args w = (w, r) /\ forall x, r = inl x -> tr_success x = false.
Proof.
  intros Hb Hg Hp. unfold execute. rewrite Hb. unfold self_clash. destruct (od_mem _ args); [by eexists; split|].
  unfold bind. rewrite evaluate_no_provider by done. eexists. split; [done|]. by intros x [= <-].
Qed.

Lemma validate_no_effect t args w : is_base_tool t = true -> exists r, validate_parameters t args w = (w, r).
Proof.
  intros Hb. unfold validate_parameters, self_clash. destruct (od_mem _ args); [by eexists|].
  destruct (tl_validate t) eqn:Hv; [by unfold is_base_tool in Hb; rewrite Hv in Hb|]. destruct (validate_base t args); by eexists.
Qed.

Definition closed (tool : option (Tool W)) w : Prop :=
  match tool with Some t => is_base_tool t = true /\ gated t w | None => True end.

Lemma dispatch_no_provider tool name args w : closed tool w -> get_approval_provider w = None ->
  exists r, dispatch_single_tool_call tool name args w = (w, r) /\
    forall text, r = inl text -> startswith text failure_prefix = true.
Proof.
  intros Hc Hp. destruct tool as [t|]; simpl in *.
  2:{ eexists. split; [done|]. intros text [= <-]. apply failure_text_prefix. }
  destruct Hc as [Hb Hg]. rewrite Hb. unfold validate_and_execute, bind at 1.
  destruct (validate_no_effect t args w Hb) as [[v|e] ->]; [|by eexists].
  destruct (negb v.1). { eexists. split; [done|]. intros text [= <-]. apply failure_text_prefix. }
  unfold try_except, bind. destruct (execute_no_provider t args w Hb Hg Hp) as ([r|e] & -> & Hr).
  - eexists. split; [done|]. intros text [= <-]. by apply serialize_failure, Hr.
  - destruct (is_exception e); [|by eexists]. eexists. split; [done|]. intros text [= <-]. apply failure_text_prefix.
Qed.

(** What a message of a round looks like. *)
Definition tool_reply (P : string -> Prop) (m : odict pyval) : Prop :=
  exists id name content, m = tool_message id name content /\ id ≠ "" /\ name ≠ "" /\ P content.

Lemma call_id_nonempty name args : call_id_for name args ≠ "".
Proof. done. Qed.

(** At most [n] messages were appended, each a reply, each counted. *)
Definition appended (P : string -> Prop) (I : W -> Prop) (n : nat) s s' : Prop :=
  I (rd_world s') /\
  exists new, rd_messages s' = rd_messages s ++ new /\ rd_executed s' = rd_executed s + length new /\ length new <= n /\
              Forall (tool_reply P) new.

Lemma appended_none P I n s : I (rd_world s) -> appended P I n s s.
Proof. intros HI. split; [done|]. exists []. rewrite app_nil_r. simpl. split; [done|]. split; [lia|]. split; [lia|constructor]. Qed.

Lemma appended_trans P I n m s s1 s2 : appended P I n s s1 -> appended P I m s1 s2 -> appended P I (n + m) s s2.
Proof.
  intros (_ & l & Hl & He & Hn & HP) (HI & l' & Hl' & He' & Hn' & HP'). split; [done|]. exists (l ++ l').
  rewrite Hl', Hl, He', He, !length_app, app_assoc, Forall_app. split; [done|]. split; [lia|]. split; [lia|done].
Qed.

(** What dispatching any call promises. *)
Definition dispatches (tools : odict (Tool W)) (P : string -> Prop) (I : W -> Prop) : Prop :=
  forall name args w, I w -> wp (dispatch_single_tool_call (od_get name tools) name args)
     (fun r w' => I w' /\ forall text, r = inl text -> P (truncate_tool_result text)) w.

Lemma run_one_spec tools call s P I : dispatches tools P I -> I (rd_world s) ->
  wp (run_one tools call) (fun r s' => appended P I 1 s s') s.
Proof.
  intros Hd HI. destruct call as [| | | | | | |c|]; try (by apply wp_ret, appended_none). unfold run_one.
  destruct (normalize_tool_call c) as [[id name] args] eqn:Hn. case_bool_decide as Hname; [by apply wp_ret, appended_none|].
  apply wp_bind. specialize (Hd name args (rd_world s) HI). unfold wp, on_world in *.
  destruct (dispatch_single_tool_call _ _ _ _) as [w' [text|e]]; destruct Hd as [HI' HP]; cbn [rd_world rd_messages rd_executed modify].
  - split; [done|]. eexists [_]. split; [done|]. simpl. split; [lia|]. split; [lia|]. constructor; [|constructor].
    eexists id, name, _. split; [done|]. split; [|split; [done|by apply HP]].
    unfold normalize_tool_call in Hn. destruct (match od_get "function" c with Some (VDict fn) => _ | _ => _ end) as [n a].
    injection Hn as <- _ _. case_bool_decide; [apply call_id_nonempty|done].
  - split; [done|]. exists []. simpl. rewrite app_nil_r. split; [done|]. split; [lia|]. split; [lia|constructor].
Qed.

Lemma run_calls_spec tools l s P I : dispatches tools P I -> I (rd_world s) ->
  wp (for_each (run_one tools) l) (fun r s' => appended P I (length l) s s') s.
Proof.
  intros Hd. revert s. induction l as [|c l IH]; intros s HI; [by apply wp_ret, appended_none|].
  apply wp_bind. eapply wp_mono; [by apply run_one_spec|]. intros [[]|e] s1 H1.
  - eapply wp_mono; [apply IH, H1|]. intros r s2 H2. exact (appended_trans _ _ 1 _ _ _ _ H1 H2).
  - change (length (c :: l)) with (1 + length l). eapply appended_trans; [exact H1|]. apply appended_none, H1.
Qed.

Lemma run_tool_calls_spec tools calls s P I : dispatches tools P I -> I (rd_world s) ->
  wp (run_tool_calls calls tools) (fun r s' =>
    appended P I 12 (mkRound (rd_world s) (rd_messages s) 0) s' /\ forall n, r = inl n -> n = rd_executed s') s.
Proof.
  intros Hd HI. apply wp_bind, wp_modify, wp_bind. eapply wp_mono; [by apply run_calls_spec|].
  intros [[]|e] s' H'.
  - apply wp_bind, wp_get, wp_ret. split; [|by intros n [= ->]].
    destruct H' as (HI' & l & H1 & H2 & H3 & H4). split; [done|]. exists l. split; [done|]. split; [done|]. split; [|done].
    rewrite length_take in H3. unfold MAX_TOOL_CALLS_PER_ROUND in H3. lia.
  - split; [|done]. destruct H' as (HI' & l & H1 & H2 & H3 & H4). split; [done|]. exists l. split; [done|]. split; [done|].
    split; [|done]. rewrite length_take in H3. unfold MAX_TOOL_CALLS_PER_ROUND in H3. lia.
Qed.

(** A round of tool calls only appends to the thread.  However it ends, the
    messages it adds are at most 12, one per dispatched call; each is a [tool] message
    with a non-empty call id and tool name, and its content is at most 12,000
    characters and the truncation notice; the count returned is their number. *)
Theorem round_bounded tools calls s :
  wp (run_tool_calls calls tools) (fun r s' => exists new,
    rd_messages s' = rd_messages s ++ new /\ length new <= 12 /\ (forall n, r = inl n -> n = length new) /\
    Forall (fun m => exists id name content, m = tool_message id name content /\ id ≠ "" /\ name ≠ "" /\
              String.length content <= MAX_TOOL_RESULT_CHARS + String.length truncated_suffix) new) s.
Proof.
  eapply wp_mono; [apply (run_tool_calls_spec tools calls s
    (fun c => String.length c <= MAX_TOOL_RESULT_CHARS + String.length truncated_suffix) (fun _ => True)); [|done]|].
  - intros name args w _. unfold wp. destruct (dispatch_single_tool_call _ _ _ w). split; [done|]. intros text _. apply clip_length.
  - intros r s' [(_ & new & H1 & H2 & H3 & H4) Hr]. exists new. split; [done|]. split; [done|]. split; [|exact H4].
    intros n ->. by rewrite (Hr n eq_refl), H2.
Qed.

(** The gate fails closed over a whole round.  When no provider is registered and
    every bound tool is a [BaseTool] that requires approval, a round of tool calls
    leaves the world exactly as it was, whatever the calls are, and every message it
    appends reports [success: false]. *)
Theorem round_fails_closed tools calls s :
  get_approval_provider (rd_world s) = None ->
  (forall name t, od_get name tools = Some t -> is_base_tool t = true /\ gated t (rd_world s)) ->
  wp (run_tool_calls calls tools) (fun _ s' =>
    rd_world s' = rd_world s /\
    exists new, rd_messages s' = rd_messages s ++ new /\
      Forall (fun m => exists id name content, m = tool_message id name content /\ startswith content failure_prefix = true) new) s.
Proof.
  intros Hp Ht. eapply wp_mono; [apply (run_tool_calls_spec tools calls s
    (fun c => startswith c failure_prefix = true) (fun w => w = rd_world s)); [|done]|].
  - intros name args w ->. destruct (dispatch_no_provider (od_get name tools) name args (rd_world s)) as (r & Hd & Hr); [|done|].
    { destruct (od_get name tools) eqn:E; [by apply (Ht name)|done]. }
    unfold wp. rewrite Hd. split; [done|]. intros text ->. apply startswith_clip; [by apply Hr|].
    unfold MAX_TOOL_RESULT_CHARS. change (String.length failure_prefix) with (Z.to_nat 17). apply Z2Nat.inj_le; lia.
  - intros r s' [(HI & new & H1 & _ & _ & H4) _]. split; [done|]. exists new. split; [done|]. eapply Forall_impl; [exact H4|].
    intros m (id & name & content & -> & _ & _ & Hc). by exists id, name, content.
Qed.
End gate.

(** ** Tool choices and contracts *)
Section contracts.
Context {W : Type} `{!ToolEnv W}.
Implicit Types (t : Tool W) (registry tools : odict (Tool W)) (l : list (Tool W)).

Lemma validate_forced_ok n available r : validate_forced_tool n (Some available) = Ok r -> r = CForced n /\ n ∈ available.
Proof. unfold validate_forced_tool. case_bool_decide; [by intros [= <-]|done]. Qed.

Lemma choice_string_ok s available n : normalize_choice_string s (Some available) = Ok (CForced n) -> n ∈ available.
Proof. unfold normalize_choice_string. repeat case_bool_decide; try done. by intros [[= <-] ?]%validate_forced_ok. Qed.

Lemma forced_available c available n : normalize_tool_choice c (Some available) = Ok (CForced n) -> n ∈ available.
Proof.
  destruct c as [| | | |s| | |d|]; try done; simpl; [apply choice_string_ok|].
  destruct (named_tool d); [|apply choice_string_ok]. by intros [[= <-] ?]%validate_forced_ok.
Qed.

(** Normalising a tool choice is idempotent: the wire shape of a normalised choice
    normalises to itself, and a forced choice names an available tool. *)
Theorem tool_choice_idempotent (c : pyval) (available : list string) (r : ToolChoice) :
  "" ∉ available -> normalize_tool_choice c (Some available) = Ok r ->
  normalize_tool_choice (choice_value r) (Some available) = Ok r /\
  (forall name, r = CForced name -> name ∈ available).
Proof.
  intros Hne Hr.
  assert (forall name, r = CForced name -> name ∈ available) as Hin by (intros name ->; by eapply forced_available).
  split; [|done]. destruct r as [| | |n]; try reflexivity. specialize (Hin n eq_refl). simpl. unfold named_tool. simpl.
  rewrite bool_decide_eq_false_2 by congruence. simpl. by rewrite bool_decide_eq_true_2.
Qed.

(** A dict of tools by their names. *)
Definition by_name l : odict (Tool W) := foldl (fun d t => od_set (tl_name t) t d) [] l.

Lemma by_name_get l n t : (forall t1 t2, t1 ∈ l -> t2 ∈ l -> tl_name t1 = tl_name t2 -> t1 = t2) ->
  od_get n (by_name l) = Some t <-> t ∈ l /\ tl_name t = n.
Proof.
  unfold by_name. induction l as [|x l IH] using rev_ind; intros Hinj; [split; [done|by intros [?%elem_of_nil _]]|].
  rewrite foldl_snoc, od_get_set, elem_of_app, list_elem_of_singleton.
  assert (forall t1 t2, t1 ∈ l -> t2 ∈ l -> tl_name t1 = tl_name t2 -> t1 = t2) as Hinj'.
  { intros t1 t2 H1 H2. apply Hinj; apply elem_of_app; by left. }
  destruct (decide (n = tl_name x)) as [->|Hne].
  - split; [intros [= ->]; by auto|]. intros [[Ht| ->] Hn]; [|done]. f_equal. symmetry.
    apply Hinj; [apply elem_of_app; by left|apply elem_of_app; right; by apply list_elem_of_singleton|done].
  - rewrite (IH Hinj'). split; [intros [? ?]; auto|]. intros [[?| ->] <-]; done.
Qed.

(** A registry maps each name to a tool of that name ([register]). *)
Definition registry_wf registry : Prop := NoDup (od_keys registry) /\ forall k t, (k, t) ∈ registry -> k = tl_name t.

Lemma register_wf t registry : registry_wf registry -> registry_wf (register t registry).
Proof.
  intros [Hnd Hn]. split; [by apply NoDup_od_set|]. intros k t' Hin. apply od_get_of_elem in Hin; [|by apply NoDup_od_set].
  unfold register in Hin. rewrite od_get_set in Hin. destruct (decide (k = tl_name t)) as [->|]; [congruence|].
  by apply Hn, od_get_elem.
Qed.

Lemma registry_injective registry t1 t2 : registry_wf registry ->
  t1 ∈ registry.*2 -> t2 ∈ registry.*2 -> tl_name t1 = tl_name t2 -> t1 = t2.
Proof.
  intros [Hnd Hn] ([k1 x1] & -> & H1)%list_elem_of_fmap ([k2 x2] & -> & H2)%list_elem_of_fmap. simpl.
  pose proof (Hn _ _ H1) as ->. pose proof (Hn _ _ H2) as ->. intros E.
  apply od_get_of_elem in H1, H2; try done. rewrite E in H1. congruence.
Qed.

Lemma registry_get registry n t : registry_wf registry ->
  od_get n (by_name registry.*2) = Some t <-> od_get n registry = Some t.
Proof.
  intros Hwf. rewrite by_name_get by (intros t1 t2; by apply registry_injective). destruct Hwf as [Hnd Hn]. split.
  - intros [([k x] & -> & Hin)%list_elem_of_fmap <-]. simpl. rewrite <- (Hn _ _ Hin). by apply od_get_of_elem.
  - intros Hg%od_get_elem. split; [apply list_elem_of_fmap; by exists (n, t)|]. symmetry. by apply Hn.
Qed.

Definition selected registry (tier : Z) (requested : option (list string)) t : Prop :=
  od_get (tl_name t) registry = Some t /\ (tl_tier t <= tier)%Z /\
  match requested with Some names => tl_name t ∈ names | None => True end.

Lemma select_tools_spec registry tier requested t : registry_wf registry ->
  t ∈ select_tools registry tier requested <-> selected registry tier requested t.
Proof.
  intros Hwf. unfold select_tools, selected. rewrite merge_sort_Permutation. unfold list_tools.
  change (foldl _ [] registry.*2) with (by_name registry.*2).
  assert (NoDup (od_keys (by_name registry.*2))) as Hnd.
  { unfold by_name. generalize (registry.*2). intros l. induction l as [|x l IH] using rev_ind; [constructor|].
    rewrite foldl_snoc. by apply NoDup_od_set. }
  destruct requested as [names|].
  - rewrite list_elem_of_omap. split.
    + intros (n & Hn & Hg). destruct (od_get n _) as [x|] eqn:E; [|done]. destruct (Z.ltb_spec tier (tl_tier x)); [done|].
      injection Hg as ->. apply (registry_get _ _ _ Hwf) in E. pose proof (od_get_elem _ _ _ E) as Hin. destruct Hwf as [_ Hk].
      pose proof (Hk _ _ Hin) as ->. done.
    + intros (Hg & Ht & Hn). exists (tl_name t). split; [done|]. apply (registry_get _ _ _ Hwf) in Hg. rewrite Hg.
      destruct (Z.ltb_spec tier (tl_tier t)); [lia|done].
  - rewrite list_elem_of_filter, list_elem_of_fmap. split.
    + intros [Ht ([k x] & -> & Hin)]. simpl in *. apply od_get_of_elem in Hin; [|done]. apply (registry_get _ _ _ Hwf) in Hin.
      pose proof (od_get_elem _ _ _ Hin) as Hin'. destruct Hwf as [_ Hk]. pose proof (Hk _ _ Hin') as ->. done.
    + intros (Hg & Ht & _). split; [done|]. exists (tl_name t, t). split; [done|]. apply od_get_elem. by apply (registry_get _ _ _ Hwf).
Qed.

#[local] Instance leb_total : Total (name_le (W := W)).
Proof. intros t1 t2. unfold name_le. destruct (String.leb_total (tl_name t1) (tl_name t2)); auto. Qed.

(** The contracts offered to a model stay within its tier.  The bound tools are
    exactly the registered tools whose tier does not exceed the step's and, with an
    allowlist, whose name is on it (so an explicit request does not lift the tier
    limit); the schemas come sorted by name, one per selected tool; and a forced choice
    names a bound tool. *)
Theorem contracts_within_tier registry tier requested choice schemas bound c :
  registry_wf registry -> build_tool_contracts registry tier requested choice = Ok (schemas, bound, c) ->
  (forall name t, od_get name bound = Some t <->
     od_get name registry = Some t /\ (tl_tier t <= tier)%Z /\ match requested with Some names => name ∈ names | None => True end) /\
  (exists l, schemas = tool_schema <$> l /\ Sorted name_le l /\ (forall t, t ∈ l <-> od_get (tl_name t) bound = Some t)) /\
  (forall name, c = CForced name -> is_Some (od_get name bound)).
Proof.
  intros Hwf E. unfold build_tool_contracts in E. apply res_bind_ok in E as (c' & Hc & [= <- <- <-]).
  change (foldl _ [] ?l) with (by_name l) in *. pose proof (fun t => select_tools_spec registry tier requested t Hwf) as Hsel.
  assert (forall name t, od_get name (by_name (select_tools registry tier requested)) = Some t <->
    t ∈ select_tools registry tier requested /\ tl_name t = name) as Hget.
  { intros name t. apply by_name_get. intros t1 t2 (H1 & _)%Hsel (H2 & _)%Hsel Hn. rewrite Hn in H1. congruence. }
  split; [|split].
  - intros name t. rewrite Hget, Hsel. unfold selected. split.
    + by intros [? <-].
    + intros (Hg & Ht & Hn). destruct Hwf as [_ Hk]. pose proof (Hk _ _ (od_get_elem _ _ _ Hg)) as ->. done.
  - eexists. split; [done|]. split; [apply Sorted_merge_sort; apply _|]. intros t. rewrite Hget. tauto.
  - intros name ->. by apply od_get_is_Some, (forced_available choice).
Qed.
End contracts.

(** ** Escalation *)

(** An exhausted fallback chain is handed over, never lost.  The handoff names the
    agents tried, says NO_AGENT_AVAILABLE exactly when there was none and
    ALL_AGENTS_EXHAUSTED otherwise, keeps every partial result's key and clips its text
    to 500 characters and a notice; routing it returns it even when the sink raises,
    a cancellation apart. *)
Theorem handoff_survives {W} `{!GovernanceEnv W} (str : pyval -> string) (subtask_id : string) (agents : list string)
    (partials : option (odict pyval)) (w : W) :
  let h := from_exhausted_chain str subtask_id agents partials in
  hs_subtask_id h = subtask_id /\ hs_attempted_agents h = agents /\
  hs_failure_type h = (if decide (agents = []) then NO_AGENT_AVAILABLE else ALL_AGENTS_EXHAUSTED) /\
  od_keys (hs_partial_results h) = od_keys (default [] partials) /\
  Forall (fun kv => String.length kv.2 <= MAX_PARTIAL_CHARS + String.length "...[truncated]") (hs_partial_results h) /\
  wp (route_handoff h) (fun r _ => r = inl h \/ exists e, r = inr e /\ ex_kind e = KCancelled) w.
Proof.
  intros h. unfold h, from_exhausted_chain. split; [by destruct agents|]. split; [by destruct agents|].
  split; [by destruct agents|]. split; [|split].
  - destruct agents; cbn [hs_partial_results]; unfold od_keys; rewrite <- list_fmap_compose; by apply list_fmap_ext.
  - destruct agents; cbn [hs_partial_results]; apply Forall_fmap, Forall_true; intros kv; apply clip_length.
  - apply wp_bind, wp_get. destruct (get_escalation_sink w) as [sink|]; [|by apply wp_ret; left].
    apply wp_bind, wp_try. unfold wp at 1. destruct (sink _ w) as [w' [[]|e]]; [by left|].
    destruct (is_exception e) eqn:He; [by apply wp_ret, wp_ret; left|]. apply wp_raise. right. exists e. split; [done|].
    unfold is_exception in He. by destruct (ex_kind e).
Qed.

(** ** A concrete environment

    The world counts what ran; a provider that denies is registered from 1 on. *)

#[export] Instance demo_governance : GovernanceEnv nat := {
  get_approval_provider w := if w =? 0 then None else Some AutoDenyProvider;
  get_escalation_sink _ := None;
  get_settings _ := mkSettings false "deploy, http" 300;
  wait_for _ m := m;
  seconds_text _ := "300.0";
}.
#[export] Instance demo_governance_laws : GovernanceLaws nat.
Proof. by split. Defined.

#[export] Instance demo_tool_env : ToolEnv nat := {
  json_loads _ := None;
  digest16 _ := "0123456789abcdef";
  Tools.repr _ := "?";
  Tools.float_repr _ := "0.0";
  set_order l := l;
  perf_counter _ := Q2Qc 0;
}.

Definition demo_tool (name : string) (tier : Z) (needs_approval : bool) : Tool nat :=
  mkTool name "" [("path", VDict [("type", VStr "string"); ("required", VBool true)])] tier needs_approval
    (fun _ w => (S w, inl (new_tool_result true VNone None (Q2Qc 0) name []))) None.

Definition demo_call (name : string) : pyval :=
  VDict [("id", VStr "c1"); ("function", VDict [("name", VStr name); ("arguments", VDict [("path", VStr "x")])])].

Definition demo_registry : odict (Tool nat) := register (demo_tool "shell" 2 true) (register (demo_tool "grep" 0 false) []).

Lemma demo_registry_wf : registry_wf demo_registry.
Proof. apply register_wf, register_wf. split; [constructor|]. by intros k t ?%elem_of_nil. Defined.

(** [wait_for] and the provider of the denying world, for any tool. *)
Lemma demo_denied t args : ~ approved t args (1%nat).
Proof. by intros (p & w' & [= <-] & [= _ E]). Defined.

Lemma unapproved_body_never_runs_witness :
  gated (demo_tool "shell" 2 true) 1 /\
  forall body, execute (with_body (demo_tool "shell" 2 true) body) [("path", VStr "x")] 1 =
               execute (demo_tool "shell" 2 true) [("path", VStr "x")] 1.
Proof.
  split; [reflexivity|]. intros body.
  apply (unapproved_body_never_runs (demo_tool "shell" 2 true) [("path", VStr "x")] 1 body eq_refl eq_refl (demo_denied _ _)).
Defined.

Lemma round_fails_closed_witness :
  let tools := [("shell", demo_tool "shell" 2 true)] in
  wp (run_tool_calls [demo_call "shell"; demo_call "nosuch"] tools) (fun _ s' => rd_world s' = 0 /\ length (rd_messages s') = 2) (mkRound 0 [] 0).
Proof.
  intros tools. pose proof (round_fails_closed tools [demo_call "shell"; demo_call "nosuch"] (mkRound 0 [] 0) eq_refl) as H.
  apply wp_intro in H; [destruct H as [Hw _]|].
  - unfold wp. destruct (run_tool_calls _ tools _) as [s' r] eqn:E. split; [exact Hw|]. vm_compute in E. injection E as <- _. reflexivity.
  - intros name t Hg. simpl in Hg. destruct (decide (name = "shell")); [|discriminate]. injection Hg as <-. split; reflexivity.
Defined.

Lemma tool_choice_idempotent_witness :
  let c := VDict [("type", VStr "tool"); ("name", VStr "grep")] in
  normalize_tool_choice (W := nat) c (Some ["grep"]) = Ok (CForced "grep") /\
  normalize_tool_choice (W := nat) (choice_value (CForced "grep")) (Some ["grep"]) = Ok (CForced "grep").
Proof.
  intros c. split; [reflexivity|]. apply (tool_choice_idempotent c ["grep"] (CForced "grep")); [|reflexivity].
  apply (bool_decide_unpack _). vm_compute. exact I.
Defined.

Lemma contracts_within_tier_witness : exists schemas bound,
  build_tool_contracts demo_registry 1 (Some ["shell"; "grep"]) VNone = Ok (schemas, bound, CAuto) /\
  length schemas = 1 /\ od_get "shell" bound = None.
Proof.
  destruct (build_tool_contracts demo_registry 1 (Some ["shell"; "grep"]) VNone) as [[[schemas bound] c]|e] eqn:E; [|discriminate E].
  destruct (contracts_within_tier demo_registry 1 (Some ["shell"; "grep"]) VNone schemas bound c demo_registry_wf E) as [H _].
  exists schemas, bound. destruct (od_get "shell" bound) as [t|] eqn:Ht.
  - apply H in Ht as (Hg & Htier & _). vm_compute in Hg. injection Hg as <-. vm_compute in Htier. by destruct Htier.
  - vm_compute in E. injection E as <- <- <-. split; [reflexivity|]. split; reflexivity.
Defined.

(** An argument named [self] escapes the round as a [TypeError]. *)
Lemma self_argument_escapes :
  (run_tool_calls [VDict [("name", VStr "grep"); ("input", VDict [("self", VNone)])]] demo_registry (mkRound 1 [] 0)).2 =
  inr (exc_of (TypeError "got multiple values for argument 'self'")).
Proof. reflexivity. Qed.

(** An explicit [null] id becomes the text [None], not the fallback id. *)
Lemma null_call_id : (normalize_tool_call (W := nat) [("id", VNone); ("name", VStr "grep")]).1.1 = "None".
Proof. reflexivity. Qed.
