(* ===== verification/Budget.v ===== *)
(** * The context budget guard (integrations/mcp/results/budget.py)

    Four characters count as one token.  Text over the budget is cut and a notice
    appended; content blocks are kept one by one until the budget is spent. *)

From stdpp Require Import pretty.
From Stdlib Require Import QArith.
From S2P Require Import Prelude PyStr PyVal.
Local Open Scope Z_scope.

(** An MCP content block: its [type], its [text] (when it has one) and its other fields. *)
Record Block := mkBlock { b_type : option string; b_text : string; b_fields : odict pyval }.

Definition DEFAULT_MAX_MCP_OUTPUT_TOKENS : Z := 25000.

(** [get_max_mcp_output_tokens], given the setting. *)
Definition get_max_mcp_output_tokens (setting : option Z) : Z :=
  match setting with Some n => if 0 <? n then n else DEFAULT_MAX_MCP_OUTPUT_TOKENS | None => DEFAULT_MAX_MCP_OUTPUT_TOKENS end.

Definition len (s : string) : Z := Z.of_nat (String.length s).

(** [s[:n]] *)
Definition slice_to (n : Z) (s : string) : string :=
  String.substring 0 (Z.to_nat (if n <? 0 then len s + n else n)) s.

Definition estimate_token_count (text : string) : Z := len text / 4.

Definition is_type (b : Block) (t : string) : bool := bool_decide (b_type b = Some t).

Definition block_estimate (b : Block) : Z :=
  if is_type b "text" then estimate_token_count (b_text b)
  else if is_type b "image" then 1600
  else if is_type b "resource" then 50
  else 100.

Definition estimate_content_blocks_tokens (blocks : list Block) : Z :=
  fold_left (fun total b => total + block_estimate b) blocks 0.

(** The truncation template, as the function [str.format] makes of it. *)
Definition template : Type := Z -> Z -> string -> string -> string.

Definition newlines : string := let nl := Ascii.ascii_of_nat 10 in String nl (String nl EmptyString).

Definition default_template : template := fun max_tokens _ _ _ =>
  newlines +:+ "[OUTPUT TRUNCATED - exceeded " +:+ pretty max_tokens +:+ " token limit]" +:+ newlines +:+
  "The output was truncated. Use pagination or filtering if available. " +:+
  "If this was a resource/tool output, it may have been saved to disk - " +:+
  "check for file location in the response.".

Record ContextBudgetGuard := mkGuard { max_tokens : Z; truncation_message : template }.

(** The constructor: [max_tokens or get_max...()]. *)
Definition new_guard (setting : option Z) (max : option Z) (t : option template) : ContextBudgetGuard :=
  mkGuard (match max with Some n => if n =? 0 then get_max_mcp_output_tokens setting else n
                        | None => get_max_mcp_output_tokens setting end)
    (default default_template t).

Section guard.
Implicit Types (g : ContextBudgetGuard) (text : string) (b : Block).

Definition check_and_truncate_text g text (server_name tool_name : string) : string * bool :=
  let token_count := estimate_token_count text in
  if token_count <=? max_tokens g then (text, false)
  else (slice_to (max_tokens g * 4) text +:+ truncation_message g (max_tokens g) token_count server_name tool_name, true).

Definition text_block text : Block := mkBlock (Some "text") text [].

(** [_append_text_block_within_budget]: the blocks, the tokens, and whether to stop. *)
Definition append_text_block g b (result_blocks : list Block) (current_tokens : Z) : list Block * Z * bool :=
  let block_tokens := estimate_token_count (b_text b) in
  if current_tokens + block_tokens <=? max_tokens g then (result_blocks ++ [b], current_tokens + block_tokens, false)
  else
    let remaining_tokens := max_tokens g - current_tokens in
    if 100 <? remaining_tokens then
      (result_blocks ++ [text_block (slice_to (remaining_tokens * 4) (b_text b))], current_tokens + remaining_tokens, true)
    else (result_blocks, current_tokens, true).

(** [_append_block_within_budget] *)
Definition append_block g b (result_blocks : list Block) (current_tokens : Z) : list Block * Z * bool :=
  if is_type b "text" then append_text_block g b result_blocks current_tokens
  else
    let block_tokens := if is_type b "image" then 1600 else 100 in
    if max_tokens g <? current_tokens + block_tokens then (result_blocks, current_tokens, true)
    else (result_blocks ++ [b], current_tokens + block_tokens, false).

Fixpoint append_loop g (blocks result_blocks : list Block) (current_tokens : Z) : list Block * bool :=
  match blocks with
  | [] => (result_blocks, false)
  | b :: rest =>
      let '(result_blocks, current_tokens, stop) := append_block g b result_blocks current_tokens in
      if stop then (result_blocks, true) else append_loop g rest result_blocks current_tokens
  end.

Definition check_and_truncate_content_blocks g (blocks : list Block) (server_name tool_name : string) : list Block * bool :=
  let total_tokens := estimate_content_blocks_tokens blocks in
  if total_tokens <=? max_tokens g then (blocks, false)
  else
    let '(result_blocks, was_truncated) := append_loop g blocks [] 0 in
    (if was_truncated
     then result_blocks ++ [text_block (truncation_message g (max_tokens g) total_tokens server_name tool_name)]
     else result_blocks, was_truncated).

Definition is_oversized g text : bool := max_tokens g <? estimate_token_count text.

(** [get_budget_summary]: tokens, percentage used, whether oversized, characters. *)
Definition get_budget_summary g text : Z * Q * bool * Z :=
  let token_count := estimate_token_count text in
  (token_count, (inject_Z token_count / inject_Z (max_tokens g) * 100)%Q, max_tokens g <? token_count, len text).
End guard.

(** ** Correctness *)

Lemma length_substring n s : String.length (String.substring 0 n s) = Nat.min n (String.length s).
Proof. revert s. induction n as [|n IH]; intros [|c s]; simpl; auto. Qed.

Lemma slice_to_estimate n s : 0 <= n -> n <= estimate_token_count s -> estimate_token_count (slice_to (n * 4) s) = n.
Proof.
  unfold estimate_token_count, slice_to, len. intros Hn Hle. rewrite length_substring.
  destruct (Z.ltb_spec (n * 4) 0); [lia|]. pose proof (Z.mul_div_le (Z.of_nat (String.length s)) 4 ltac:(lia)).
  rewrite Nat2Z.inj_min, Z2Nat.id, Z.min_l by lia. by apply Z.div_mul.
Qed.

Lemma estimate_nonneg s : 0 <= estimate_token_count s.
Proof. unfold estimate_token_count, len. apply Z.div_pos; lia. Qed.

Lemma estimate_app l b : estimate_content_blocks_tokens (l ++ [b]) = estimate_content_blocks_tokens l + block_estimate b.
Proof. unfold estimate_content_blocks_tokens. by rewrite fold_left_app. Qed.

Lemma estimate_cons b l : estimate_content_blocks_tokens (b :: l) = block_estimate b + estimate_content_blocks_tokens l.
Proof.
  induction l as [|x l IH] using rev_ind; [unfold estimate_content_blocks_tokens; simpl; lia|].
  rewrite app_comm_cons, !estimate_app. lia.
Qed.

Lemma block_estimate_text s : block_estimate (text_block s) = estimate_token_count s.
Proof. reflexivity. Qed.

(** What the loop keeps: a prefix of the blocks, whole, then perhaps the start of the next one. *)
Definition kept_of (blocks kept : list Block) : Prop :=
  exists whole part rest, blocks = whole ++ rest /\ kept = whole ++ part /\
    (part = [] \/ exists b rest' n, rest = b :: rest' /\ is_type b "text" = true /\ part = [text_block (slice_to n (b_text b))]).

(** The state of the loop: a prefix kept whole, its cost at least its estimate. *)
Lemma append_loop_spec g rest whole current kept t :
  0 <= max_tokens g -> estimate_content_blocks_tokens whole <= current -> current <= max_tokens g ->
  append_loop g rest whole current = (kept, t) ->
  kept_of (whole ++ rest) kept /\ estimate_content_blocks_tokens kept <= max_tokens g /\
  (t = false -> estimate_content_blocks_tokens (whole ++ rest) <= max_tokens g).
Proof.
  intros Hmax. revert whole current. induction rest as [|b rest IH]; intros whole current Hw Hc E; simpl in E.
  { injection E as <- <-. rewrite app_nil_r. split; [|split; [lia|lia]]. exists whole, [], []. rewrite app_nil_r. auto. }
  assert (forall c, current + block_estimate b <= c -> c <= max_tokens g -> append_loop g rest (whole ++ [b]) c = (kept, t) ->
    kept_of (whole ++ b :: rest) kept /\ estimate_content_blocks_tokens kept <= max_tokens g /\
    (t = false -> estimate_content_blocks_tokens (whole ++ b :: rest) <= max_tokens g)) as Hnext.
  { intros c H1 H2 H3. rewrite (cons_middle b whole rest), app_assoc. apply (IH _ c); [rewrite estimate_app; lia|exact H2|exact H3]. }
  assert (forall part, part = [] \/ (exists n, is_type b "text" = true /\ part = [text_block (slice_to n (b_text b))]) ->
    kept_of (whole ++ b :: rest) (whole ++ part)) as Hpart.
  { intros part [->|(n & Hb & ->)]; eexists whole, _, (b :: rest); split; [done|split; [done|by left]|done|].
    split; [done|]. right. by exists b, rest, n. }
  unfold append_block, append_text_block in E. destruct (is_type b "text") eqn:Hb.
  - destruct (Z.leb_spec (current + estimate_token_count (b_text b)) (max_tokens g)) as [Hle|Hgt].
    + eapply Hnext; [|exact Hle|exact E]. unfold block_estimate. rewrite Hb. lia.
    + destruct (Z.ltb_spec 100 (max_tokens g - current)) as [Hrem|Hrem]; injection E as <- <-.
      * split; [apply Hpart; right; eauto|]. split; [|done]. rewrite estimate_app, block_estimate_text, slice_to_estimate; lia.
      * split; [rewrite <- (app_nil_r whole) at 2; apply Hpart; by left|]. split; [lia|done].
  - assert (block_estimate b <= (if is_type b "image" then 1600 else 100)) as Hcost.
    { unfold block_estimate. rewrite Hb. destruct (is_type b "image"), (is_type b "resource"); lia. }
    destruct (Z.ltb_spec (max_tokens g) (current + (if is_type b "image" then 1600 else 100))) as [Hgt|Hle].
    + injection E as <- <-. split; [rewrite <- (app_nil_r whole) at 2; apply Hpart; by left|]. split; [lia|done].
    + eapply Hnext; [|exact Hle|exact E]. lia.
Qed.

(** Truncating text keeps it within the budget.  Text is changed exactly when its
    estimate exceeds the budget, and then it becomes a prefix of itself that costs
    exactly the budget, followed by the notice. *)
Theorem text_within_budget g text server tool :
  0 <= max_tokens g ->
  let '(r, truncated) := check_and_truncate_text g text server tool in
  truncated = is_oversized g text /\
  (truncated = false -> r = text) /\
  (truncated = true -> exists kept cut,
     text = kept +:+ cut /\ estimate_token_count kept = max_tokens g /\
     r = kept +:+ truncation_message g (max_tokens g) (estimate_token_count text) server tool).
Proof.
  intros Hmax. unfold check_and_truncate_text, is_oversized.
  destruct (Z.leb_spec (estimate_token_count text) (max_tokens g)) as [Hle|Hgt].
  - split; [|done]. destruct (Z.ltb_spec (max_tokens g) (estimate_token_count text)); [lia|done].
  - split; [destruct (Z.ltb_spec (max_tokens g) (estimate_token_count text)); [done|lia]|]. split; [done|]. intros _.
    assert (forall n s, exists cut, s = String.substring 0 n s +:+ cut) as Hsplit.
    { intros n. induction n as [|n IH]; intros [|c s]; simpl; [by exists ""|by exists (String c s)|by exists ""|].
      destruct (IH s) as [cut Hcut]. exists cut. by rewrite Hcut at 1. }
    destruct (Hsplit (Z.to_nat (if max_tokens g * 4 <? 0 then len text + max_tokens g * 4 else max_tokens g * 4)) text) as [cut Hcut].
    exists (slice_to (max_tokens g * 4) text), cut. split; [exact Hcut|]. split; [|done]. apply slice_to_estimate; lia.
Qed.

(** Truncating content blocks keeps them within the budget.  The blocks are changed
    exactly when their estimate exceeds the budget; what is kept is a prefix of the
    blocks, then perhaps the beginning of the next text block, and costs at most the
    budget; the notice comes last. *)
Theorem blocks_within_budget g blocks server tool :
  0 <= max_tokens g ->
  let '(r, truncated) := check_and_truncate_content_blocks g blocks server tool in
  (truncated = true <-> max_tokens g < estimate_content_blocks_tokens blocks) /\
  (truncated = false -> r = blocks) /\
  (truncated = true -> exists kept,
     kept_of blocks kept /\ estimate_content_blocks_tokens kept <= max_tokens g /\
     r = kept ++ [text_block (truncation_message g (max_tokens g) (estimate_content_blocks_tokens blocks) server tool)]).
Proof.
  intros Hmax. unfold check_and_truncate_content_blocks.
  destruct (Z.leb_spec (estimate_content_blocks_tokens blocks) (max_tokens g)) as [Hle|Hgt]; [split; [split; [done|lia]|done]|].
  destruct (append_loop g blocks [] 0) as [kept t] eqn:E.
  apply append_loop_spec in E as (Hk & Hc & Ht); [|done|unfold estimate_content_blocks_tokens; simpl; lia|done].
  destruct t; [|specialize (Ht eq_refl); simpl in Ht; lia]. split; [done|]. split; [done|]. intros _. by exists kept.
Qed.

Definition demo_guard : ContextBudgetGuard := new_guard None (Some 200) None.
Definition demo_blocks : list Block :=
  [mkBlock (Some "resource") "" []; mkBlock (Some "image") "" []; text_block "tail"].

Lemma text_within_budget_witness : 0 <= max_tokens (mkGuard 1 default_template) /\ exists kept cut,
  "abcdefgh" = kept +:+ cut /\ estimate_token_count kept = 1.
Proof.
  split; [discriminate|]. pose proof (text_within_budget (mkGuard 1 default_template) "abcdefgh" "s" "t" ltac:(discriminate)) as H.
  destruct (check_and_truncate_text _ _ _ _) as [r b] eqn:E. destruct H as (_ & _ & H). destruct b; [|discriminate E].
  destruct (H eq_refl) as (kept & cut & H1 & H2 & _). by exists kept, cut.
Defined.

Lemma blocks_within_budget_witness : 0 <= max_tokens demo_guard /\
  (check_and_truncate_content_blocks demo_guard demo_blocks "s" "t").2 = true /\
  length (check_and_truncate_content_blocks demo_guard demo_blocks "s" "t").1 = 2%nat.
Proof.
  split; [discriminate|]. pose proof (blocks_within_budget demo_guard demo_blocks "s" "t" ltac:(discriminate)) as H.
  destruct (check_and_truncate_content_blocks _ _ _ _) as [r b] eqn:E. destruct H as ([_ H] & _). cbn [fst snd]. split.
  - apply H. reflexivity.
  - vm_compute in E. injection E as <- _. reflexivity.
Defined.
