(* ===== verification/Redis.v ===== *)
(** * Shared breaker state in Redis (models/redis_state.py, models/smart_router.py)

    Workers persist the statistics of one model under one Redis key by
    compare-and-swap: read, merge the counter deltas since the last successful save
    onto what is there, swap if nothing changed, at most eight times.  The key's
    text is either the [json.dumps] of a dictionary or unparsable; two texts are
    equal when the dictionaries are.  Every Redis call is one atomic event. *)

From Stdlib Require Import QArith.
From S2P Require Import Prelude PyStr PyVal ModelStats ModelStatsFacts.
Local Open Scope Z_scope.

Definition COUNTER_FIELDS : list string := ["success_count"; "failure_count"; "rate_limit_count"; "timeout_count"].
Definition CAS_MAX_RETRIES : nat := 8.

(** [_merge_stats_dicts] *)
Definition merge_stats_dicts (redis_current local baseline : odict pyval) : odict pyval :=
  foldl (fun merged f =>
           let delta := Z.max 0 (get_int local f - get_int baseline f) in
           od_set f (VInt (get_int redis_current f + delta)) merged) local COUNTER_FIELDS.

(** [_counter_snapshot], and what [save_stats_cas] returns. *)
Definition counter_snapshot (stats_dict : odict pyval) : odict pyval :=
  (fun f => (f, VInt (get_int stats_dict f))) <$> COUNTER_FIELDS.

Inductive Raw := Json (d : odict pyval) | Corrupt (text : string).

#[export] Instance Raw_eq_dec : EqDecision Raw.
Proof. solve_decision. Defined.

(** [json.loads] of what was read; an absent or corrupt value counts as empty. *)
Definition decode (raw : option Raw) : odict pyval := match raw with Some (Json d) => d | _ => [] end.

(** Where a worker is in [save_stats_cas], with the attempts it has left. *)
Inductive SaveState :=
| Idle
| Reading (local : odict pyval) (tries : nat)
| Swapping (local : odict pyval) (expected : option Raw) (tries : nat).

Record Worker := mkWorker {
  wk_stats : ModelStats;
  wk_baseline : option (odict pyval);
  wk_save : SaveState;
  wk_connected : bool;
}.

Record Sys := mkSys { sy_workers : list Worker; sy_store : option Raw }.

(** [SwapLost]: the script ran and its reply was lost.  [lost]: the error is a
    connection error, after which the store counts as disconnected. *)
Inductive event :=
| Record_ (i : nat) (o : op)
| Begin (i : nat)
| Read (i : nat)
| ReadFails (i : nat) (lost : bool)
| Swap (i : nat)
| SwapFails (i : nat) (lost : bool)
| SwapLost (i : nat) (lost : bool)
| Reconnect (i : nat)
| Expire.

Section cas.
Context (isoformat : Q -> string) (p : Policy).
Implicit Types (w : Worker) (s : Sys).

Definition set_save (st : SaveState) w : Worker := mkWorker (wk_stats w) (wk_baseline w) st (wk_connected w).
Definition set_connected (b : bool) w : Worker := mkWorker (wk_stats w) (wk_baseline w) (wk_save w) b.

(** The start of [save_stats_cas], under [_redis_save_lock]. *)
Definition begin_save w : option Worker :=
  match wk_save w with
  | Idle => if wk_connected w then Some (set_save (Reading (stats_to_dict isoformat (wk_stats w)) CAS_MAX_RETRIES) w) else None
  | _ => None
  end.

(** [_read_raw] *)
Definition read_raw (store : option Raw) w : option Worker :=
  match wk_save w with
  | Reading local tries => Some (set_save (Swapping local (if wk_connected w then store else None) tries) w)
  | _ => None
  end.
Definition read_fails (lost : bool) w : option Worker :=
  match wk_save w with
  | Reading local tries => Some (set_connected (wk_connected w && negb lost) (set_save (Swapping local None tries) w))
  | _ => None
  end.

(** A swap that returned [False]: the next attempt, or giving up with the old baseline. *)
Definition conflict (local : odict pyval) (tries : nat) w : Worker :=
  set_save (match tries with S (S n) => Reading local (S n) | _ => Idle end) w.

Definition baseline_of w : odict pyval := default [] (wk_baseline w).

(** [cas], and what [save_stats_cas] does with its answer. *)
Definition swap (store : option Raw) w : option (Worker * option Raw) :=
  match wk_save w with
  | Swapping local expected tries =>
      if wk_connected w && bool_decide (store = expected)
      then Some (mkWorker (wk_stats w) (Some (counter_snapshot local)) Idle (wk_connected w),
                 Some (Json (merge_stats_dicts (decode expected) local (baseline_of w))))
      else Some (conflict local tries w, store)
  | _ => None
  end.
Definition swap_fails (lost : bool) w : option Worker :=
  match wk_save w with
  | Swapping local _ tries => Some (set_connected (wk_connected w && negb lost) (conflict local tries w))
  | _ => None
  end.
Definition swap_lost (lost : bool) (store : option Raw) w : option (Worker * option Raw) :=
  match wk_save w with
  | Swapping local expected tries =>
      if wk_connected w && bool_decide (store = expected)
      then Some (set_connected (negb lost) (conflict local tries w),
                 Some (Json (merge_stats_dicts (decode expected) local (baseline_of w))))
      else None
  | _ => None
  end.

Definition record (o : op) w : Worker := mkWorker (apply_op p (wk_stats w) o) (wk_baseline w) (wk_save w) (wk_connected w).

(** [_load_stats_from_redis] of one model: the statistics, and the baseline that goes with them. *)
Definition load_worker (m : ModelStats) : Worker :=
  mkWorker m (Some (counter_snapshot (stats_to_dict isoformat m))) Idle true.

Definition on_worker (i : nat) (f : Worker -> option Worker) s : option Sys :=
  w ← sy_workers s !! i; w' ← f w; Some (mkSys (<[i := w']> (sy_workers s)) (sy_store s)).
Definition on_both (i : nat) (f : Worker -> option (Worker * option Raw)) s : option Sys :=
  w ← sy_workers s !! i; '(w', st) ← f w; Some (mkSys (<[i := w']> (sy_workers s)) st).

Definition fire s (e : event) : option Sys :=
  match e with
  | Record_ i o => on_worker i (fun w => Some (record o w)) s
  | Begin i => on_worker i begin_save s
  | Read i => on_worker i (read_raw (sy_store s)) s
  | ReadFails i lost => on_worker i (read_fails lost) s
  | Swap i => on_both i (swap (sy_store s)) s
  | SwapFails i lost => on_worker i (swap_fails lost) s
  | SwapLost i lost => on_both i (swap_lost lost (sy_store s)) s
  | Reconnect i => on_worker i (fun w => Some (set_connected true w)) s
  | Expire => Some (mkSys (sy_workers s) None)
  end.

Fixpoint run (trace : list event) s : option Sys :=
  match trace with [] => Some s | e :: rest => s' ← fire s e; run rest s' end.
End cas.

(** ** The shared counters count every event once

    Over any interleaving of the workers' reads and swaps the shared counters grow
    by exactly what the workers record as saved, so nothing is lost and nothing is
    counted twice, as long as no reply of Redis is lost. *)

(** ** Counters of dictionaries *)

Lemma fields_cases (P : string -> Prop) :
  P "success_count" -> P "failure_count" -> P "rate_limit_count" -> P "timeout_count" -> forall f, f ∈ COUNTER_FIELDS -> P f.
Proof. intros H1 H2 H3 H4 f Hf. unfold COUNTER_FIELDS in Hf. rewrite !elem_of_cons, elem_of_nil in Hf. by destruct Hf as [->|[->|[->|[->|[]]]]]. Qed.

Lemma get_int_set k k' z d : get_int (od_set k' (VInt z) d) k = if decide (k = k') then z else get_int d k.
Proof. unfold get_int. rewrite od_get_set. by case_decide. Qed.

Lemma get_int_merge cur local base f : f ∈ COUNTER_FIELDS ->
  get_int (merge_stats_dicts cur local base) f = get_int cur f + Z.max 0 (get_int local f - get_int base f).
Proof. revert f. apply fields_cases; unfold merge_stats_dicts; cbn [foldl COUNTER_FIELDS]; rewrite !get_int_set; reflexivity. Qed.

Lemma get_int_snapshot d f : f ∈ COUNTER_FIELDS -> get_int (counter_snapshot d) f = get_int d f.
Proof. revert f. apply fields_cases; reflexivity. Qed.

(** No operation of the statistics lowers a counter. *)
Definition counters_le (m m' : ModelStats) : Prop :=
  success_count m <= success_count m' /\ failure_count m <= failure_count m' /\
  rate_limit_count m <= rate_limit_count m' /\ timeout_count m <= timeout_count m'.

Lemma counters_le_refl m : counters_le m m.
Proof. unfold counters_le. lia. Qed.

Lemma record_failure_counters p utc mono m m0 : counters_le m0 m -> counters_le m0 (record_failure p utc mono m).
Proof. intros (? & ? & ? & ?). unfold record_failure. destruct (if decide _ then _ else _). unfold counters_le. simpl. lia. Qed.

Lemma counters_monotone p m o : counters_le m (apply_op p m o).
Proof.
  destruct o; cbn [apply_op].
  - unfold record_success. destruct (if decide _ then _ else _). unfold counters_le. simpl. lia.
  - apply record_failure_counters, counters_le_refl.
  - unfold record_rate_limit. change (counters_le m (record_failure p utc mono (bump 1 0 m))).
    apply record_failure_counters. unfold counters_le. simpl. lia.
  - apply record_failure_counters. unfold counters_le. simpl. lia.
  - unfold check_circuit. destruct (circuit_state m); [apply counters_le_refl| |apply counters_le_refl].
    destruct (recovery_due p utc mono m); exact (counters_le_refl m).
  - exact (counters_le_refl m).
  - exact (counters_le_refl m).
  - exact (counters_le_refl m).
Qed.

Section workers.
Context (isoformat : Q -> string) (p : Policy) (f : string) (Hf : f ∈ COUNTER_FIELDS).
Implicit Types (w : Worker) (s : Sys).

(** The counter as the worker has it, as it last saved it, and as Redis has it. *)
Definition current (m : ModelStats) : Z := get_int (stats_to_dict isoformat m) f.
Definition saved w : Z := get_int (baseline_of w) f.
Definition shared s : Z := get_int (decode (sy_store s)) f.

Lemma current_monotone m o : current m <= current (apply_op p m o).
Proof.
  destruct (counters_monotone p m o) as (H1 & H2 & H3 & H4). unfold current. revert f Hf. by apply fields_cases.
Qed.

(** The counter a save in progress will leave as the baseline. *)
Definition pending w : Z :=
  match wk_save w with Idle => saved w | Reading local _ | Swapping local _ _ => get_int local f end.

Definition worker_ok w : Prop := saved w <= pending w <= current (wk_stats w).

Definition total (g : Worker -> Z) (l : list Worker) : Z := foldr (fun w n => g w + n) 0 l.

Lemma total_insert g l i w w' : l !! i = Some w -> total g (<[i := w']> l) = total g l - g w + g w'.
Proof. revert i. induction l as [|x l IH]; intros [|i]; simpl; [done..|intros [= ->]; lia|]. intros H. rewrite (IH i H). lia. Qed.

Lemma total_le g h l : Forall (fun w => g w <= h w) l -> total g l <= total h l.
Proof. induction 1; simpl; lia. Qed.

Lemma total_ext g h l : Forall (fun w => g w = h w) l -> total g l = total h l.
Proof. induction 1 as [|w l Hw _ IH]; simpl; [done|]. by rewrite Hw, IH. Qed.

(** One worker's transition: its baseline only grows, and Redis grows with it. *)
Definition tracks (store store' : option Raw) w w' : Prop :=
  worker_ok w -> worker_ok w' /\ saved w <= saved w' /\
  get_int (decode store') f - get_int (decode store) f = saved w' - saved w.

Lemma conflict_tracks store local tries w : pending w = get_int local f -> tracks store store w (conflict local tries w).
Proof.
  intros Hp [H1 H2]. rewrite Hp in H1, H2. change (saved (conflict local tries w)) with (saved w). split; [|lia].
  split; destruct tries as [|[|n]]; unfold pending; simpl; unfold saved, baseline_of in *; simpl; lia.
Qed.

Lemma tracks_connected store store' w w' b : tracks store store' w w' -> tracks store store' w (set_connected b w').
Proof. intros H Hw. exact (H Hw). Qed.

Lemma begin_tracks store w w' : begin_save isoformat w = Some w' -> tracks store store w w'.
Proof.
  unfold begin_save. destruct (wk_save w) eqn:E; [|done..]. destruct (wk_connected w); [|done]. intros [= <-] [H1 H2].
  unfold worker_ok, pending, saved, baseline_of, current in *. rewrite E in *. simpl. lia.
Qed.

Lemma read_tracks store local tries ex w : wk_save w = Reading local tries ->
  tracks store store w (set_save (Swapping local ex tries) w).
Proof. intros E [H1 H2]. unfold worker_ok, pending, saved, baseline_of in *. rewrite E in *. simpl. lia. Qed.

Lemma swap_tracks store w w' store' : swap store w = Some (w', store') -> tracks store store' w w'.
Proof.
  unfold swap. destruct (wk_save w) as [| |local ex tries] eqn:E; [done..|].
  destruct (wk_connected w); simpl; [case_bool_decide as Hs|]; intros [= <- <-].
  - subst ex. intros [H1 H2]. unfold worker_ok, pending, saved, baseline_of in *. simpl. rewrite E in *.
    rewrite get_int_snapshot, get_int_merge by done. unfold baseline_of. lia.
  - apply conflict_tracks. unfold pending. by rewrite E.
  - apply conflict_tracks. unfold pending. by rewrite E.
Qed.

Lemma swap_fails_tracks store lost w w' : swap_fails lost w = Some w' -> tracks store store w w'.
Proof.
  unfold swap_fails. destruct (wk_save w) as [| |local ex tries] eqn:E; [done..|]. intros [= <-].
  apply tracks_connected, conflict_tracks. unfold pending. by rewrite E.
Qed.

Lemma record_tracks store o w : tracks store store w (record p o w).
Proof.
  intros [H1 H2]. pose proof (current_monotone (wk_stats w) o). unfold worker_ok, pending, saved, baseline_of, record in *. simpl. lia.
Qed.

(** An event at one worker, or [None] for the expiry of the key. *)
Lemma fire_tracks s e s' : fire isoformat p s e = Some s' -> (forall i b, e ≠ SwapLost i b) ->
  (e = Expire /\ sy_workers s' = sy_workers s /\ sy_store s' = None) \/
  (e ≠ Expire /\ exists i w w', sy_workers s !! i = Some w /\ sy_workers s' = <[i := w']> (sy_workers s) /\
                 tracks (sy_store s) (sy_store s') w w').
Proof.
  intros E Hne.
  assert (forall i g, on_worker i g s = Some s' -> (forall w w', g w = Some w' -> tracks (sy_store s) (sy_store s) w w') ->
    exists i w w', sy_workers s !! i = Some w /\ sy_workers s' = <[i := w']> (sy_workers s) /\
                   tracks (sy_store s) (sy_store s') w w') as Hone.
  { intros i g Hg Ht. apply bind_Some in Hg as (w & Hw & Hg). apply bind_Some in Hg as (w' & Hw' & [= <-]). exists i, w, w'. auto. }
  destruct e as [i o|i|i|i lost|i|i lost|i lost|i|]; simpl in E.
  - right; split; [done|]. eapply Hone; [exact E|]. intros w w' [= <-]. apply record_tracks.
  - right; split; [done|]. eapply Hone; [exact E|]. intros w w'. apply begin_tracks.
  - right; split; [done|]. eapply Hone; [exact E|]. intros w w'. unfold read_raw. destruct (wk_save w) eqn:Ew; try done. intros [= <-]. by apply read_tracks.
  - right; split; [done|]. eapply Hone; [exact E|]. intros w w'. unfold read_fails. destruct (wk_save w) eqn:Ew; try done. intros [= <-].
    by apply tracks_connected, read_tracks.
  - right; split; [done|]. apply bind_Some in E as (w & Hw & E). apply bind_Some in E as ([w' st] & Hs & [= <-]). exists i, w, w'.
    split; [done|]. split; [done|]. by apply swap_tracks.
  - right; split; [done|]. eapply Hone; [exact E|]. intros w w'. apply swap_fails_tracks.
  - by destruct (Hne i lost).
  - right; split; [done|]. eapply Hone; [exact E|]. intros w w' [= <-]. apply tracks_connected. intros Hw. split; [done|lia].
  - left. by injection E as <-.
Qed.

(** ** The invariant *)

Definition all_ok s : Prop := Forall worker_ok (sy_workers s).

Lemma fire_inv s e s' : all_ok s -> fire isoformat p s e = Some s' -> (forall i b, e ≠ SwapLost i b) ->
  all_ok s' /\ total saved (sy_workers s) <= total saved (sy_workers s') /\
  (e ≠ Expire -> shared s' - shared s = total saved (sy_workers s') - total saved (sy_workers s)) /\
  (e = Expire -> shared s' = 0 /\ total saved (sy_workers s') = total saved (sy_workers s)).
Proof.
  intros Hok E Hne. destruct (fire_tracks s e s' E Hne) as [(-> & Hw & Hs)|(Hx & i & w & w' & Hi & Hw & Ht)].
  - unfold all_ok, shared. rewrite Hw, Hs. split; [done|]. split; [lia|]. split; [by intros []|]. intros _. by split.
  - pose proof (Forall_lookup_1 _ _ _ _ Hok Hi) as Hwok. destruct (Ht Hwok) as (Hok' & Hle & Heq).
    unfold all_ok, shared. rewrite Hw, (total_insert _ _ _ _ _ Hi). split; [by apply Forall_insert|]. split; [lia|].
    split; [intros _; lia|done].
Qed.

Definition no_lost_reply (trace : list event) : Prop := forall i b, SwapLost i b ∉ trace.

Lemma run_inv trace s s' : all_ok s -> 0 <= shared s -> run isoformat p trace s = Some s' -> no_lost_reply trace ->
  all_ok s' /\ total saved (sy_workers s) <= total saved (sy_workers s') /\
  shared s' <= shared s + (total saved (sy_workers s') - total saved (sy_workers s)) /\
  (Expire ∉ trace -> shared s' = shared s + (total saved (sy_workers s') - total saved (sy_workers s))).
Proof.
  revert s. induction trace as [|e trace IH]; intros s Hok Hpos E Hl; simpl in E.
  { injection E as <-. split; [done|]. split; [lia|]. split; [lia|]. intros _. lia. }
  apply bind_Some in E as (s1 & He & E).
  destruct (fire_inv s e s1 Hok He) as (Hok1 & Hle1 & Hstep & Hexp); [intros i b ->; apply (Hl i b); left|].
  assert (no_lost_reply trace) as Hl' by (intros i b Hi; apply (Hl i b); by right).
  assert (e = Expire \/ e ≠ Expire) as [->|Hne] by (destruct e; auto).
  - destruct (Hexp eq_refl) as [H0 Heq]. destruct (IH s1 Hok1 ltac:(lia) E Hl') as (? & ? & ? & _).
    split; [done|]. split; [lia|]. split; [lia|]. intros Hn. destruct Hn. left.
  - specialize (Hstep Hne). destruct (IH s1 Hok1 ltac:(lia) E Hl') as (? & ? & ? & Heq).
    split; [done|]. split; [lia|]. split; [lia|]. intros Hn. rewrite Heq; [lia|]. intros Hin. apply Hn. by right.
Qed.
End workers.

(** ** The claims *)

(** All workers are idle and have saved everything they recorded. *)
Definition flushed (isoformat : Q -> string) (s : Sys) : Prop :=
  forall w, w ∈ sy_workers s -> wk_save w = Idle /\
    forall f, f ∈ COUNTER_FIELDS -> saved f w = current isoformat f (wk_stats w).

(** Workers that have just loaded their statistics. *)
Definition loaded (isoformat : Q -> string) (s : Sys) : Prop :=
  Forall (fun w => exists m, w = load_worker isoformat m) (sy_workers s).

Lemma loaded_saved isoformat f m : f ∈ COUNTER_FIELDS -> saved f (load_worker isoformat m) = current isoformat f m.
Proof. intros Hf. unfold saved, baseline_of. simpl. by rewrite get_int_snapshot. Qed.

Section claims.
Context (isoformat : Q -> string) (p : Policy).

(** C14. The shared counters neither lose nor double an event.  Start any number of
    workers with loaded statistics and run any interleaving of recordings, reads, swaps,
    failures, disconnections and reconnections in which no reply of Redis is lost.
    Then each shared counter has grown by at most what the workers recorded; and when
    the key did not expire and every worker has flushed, by exactly that. *)
Theorem counters_exactly_once trace s s' f :
  f ∈ COUNTER_FIELDS -> loaded isoformat s -> 0 <= shared f s ->
  run isoformat p trace s = Some s' -> (forall i b, SwapLost i b ∉ trace) ->
  let recorded s := total (fun w => current isoformat f (wk_stats w)) (sy_workers s) in
  shared f s' <= shared f s + (recorded s' - recorded s) /\
  (Expire ∉ trace -> flushed isoformat s' -> shared f s' = shared f s + (recorded s' - recorded s)).
Proof.
  intros Hf Hload Hpos E Hl recorded.
  assert (total (saved f) (sy_workers s) = recorded s) as Hstart.
  { apply total_ext. eapply Forall_impl; [exact Hload|]. intros w [m ->]. by apply loaded_saved. }
  assert (all_ok isoformat f s) as Hok.
  { eapply Forall_impl; [exact Hload|]. intros w [m ->]. unfold worker_ok, pending. simpl. rewrite loaded_saved by done. lia. }
  destruct (run_inv isoformat p f Hf trace s s' Hok Hpos E Hl) as (Hok' & _ & Hle & Heq).
  assert (total (saved f) (sy_workers s') <= recorded s') as Hend.
  { apply total_le. eapply Forall_impl; [exact Hok'|]. intros w [? ?]. lia. }
  split; [lia|]. intros Hx Hfl. rewrite (Heq Hx). assert (total (saved f) (sy_workers s') = recorded s') as ->; [|lia].
  apply total_ext, Forall_forall. intros w Hw. by apply Hfl.
Qed.
End claims.

(** ** A concrete run *)

Definition demo_iso (_ : Q) : string := "t".
Definition demo_worker : Worker := load_worker demo_iso (new_stats "m" 0).
Definition demo_sys : Sys := mkSys [demo_worker; demo_worker] None.

(** Two workers record a failure each; the second swap conflicts once and is retried. *)
Definition demo_trace : list event :=
  [Record_ 0 (OpFailure 1 1); Record_ 1 (OpFailure 1 1); Begin 0; Begin 1; Read 0; Read 1; Swap 0; Swap 1; Read 1; Swap 1].

Lemma counters_exactly_once_witness : exists s',
  run demo_iso default_policy demo_trace demo_sys = Some s' /\ shared "failure_count" s' = 2.
Proof.
  destruct (run demo_iso default_policy demo_trace demo_sys) as [s'|] eqn:E; [|vm_compute in E; discriminate E]. exists s'. split; [done|].
  destruct (counters_exactly_once demo_iso default_policy demo_trace demo_sys s' "failure_count") as [_ H].
  - right; left.
  - constructor; [by eexists|constructor; [by eexists|constructor]].
  - discriminate.
  - exact E.
  - intros i b Hi. unfold demo_trace in Hi. rewrite !elem_of_cons, elem_of_nil in Hi.
    destruct Hi as [H|[H|[H|[H|[H|[H|[H|[H|[H|[H|[]]]]]]]]]]]; discriminate H.
  - rewrite H.
    + vm_compute in E. injection E as <-. vm_compute. reflexivity.
    + intros Hi. unfold demo_trace in Hi. rewrite !elem_of_cons, elem_of_nil in Hi.
      destruct Hi as [Hd|[Hd|[Hd|[Hd|[Hd|[Hd|[Hd|[Hd|[Hd|[Hd|[]]]]]]]]]]]; discriminate Hd.
    + vm_compute in E. injection E as <-. intros w Hw. simpl in Hw. rewrite !elem_of_cons, elem_of_nil in Hw.
      destruct Hw as [->|[->|[]]]; (split; [reflexivity|]); apply fields_cases; reflexivity.
Defined.

(** A lost reply makes the next save add the same delta again. *)
Lemma lost_reply_counts_twice :
  shared "failure_count" <$> run demo_iso default_policy
    [Record_ 0 (OpFailure 1 1); Begin 0; Read 0; SwapLost 0 false; Read 0; Swap 0] demo_sys = Some 2.
Proof. vm_compute. reflexivity. Qed.
