(* ===== verification/UrlGuard.v ===== *)
(** * The SSRF guard (security/url_guard.py)

    Which hosts and resolved addresses outbound HTTP may reach, and which address
    the connection is pinned to.  Addresses are numbers, with the scope id of an
    IPv6 address; the address classes are the tables of Python's [ipaddress].
    URL parsing, the text forms of addresses and DNS are the interface [Net]. *)

From stdpp Require Import pretty.
From S2P Require Import Prelude PyStr.
Local Open Scope Z_scope.

(** ** Addresses ([ipaddress]) *)

Inductive Addr := V4 (a : Z) | V6 (a : Z) (scope : option string).

#[export] Instance Addr_eq_dec : EqDecision Addr.
Proof. solve_decision. Defined.

Definition quad (a b c d : Z) : Z := ((a * 256 + b) * 256 + c) * 256 + d.
Definition hextets (l : list Z) : Z := foldl (fun acc h => acc * 65536 + h) 0 l.

(** The address is in the network [base/len] of a space of [w] bits. *)
Definition in_net (w : Z) (a : Z) (net : Z * Z) : bool := Z.shiftr a (w - net.2) =? Z.shiftr net.1 (w - net.2).
Definition in_nets (w : Z) (a : Z) (nets : list (Z * Z)) : bool := existsb (in_net w a) nets.

Definition private4 : list (Z * Z) :=
  [(quad 0 0 0 0, 8); (quad 10 0 0 0, 8); (quad 127 0 0 0, 8); (quad 169 254 0 0, 16); (quad 172 16 0 0, 12);
   (quad 192 0 0 0, 24); (quad 192 0 0 170, 31); (quad 192 0 2 0, 24); (quad 192 168 0 0, 16); (quad 198 18 0 0, 15);
   (quad 198 51 100 0, 24); (quad 203 0 113 0, 24); (quad 240 0 0 0, 4); (quad 255 255 255 255, 32)].
Definition public4 : list (Z * Z) := [(quad 192 0 0 9, 32); (quad 192 0 0 10, 32)].

(** The first hextets of an IPv6 network, the others being zero. *)
Definition net6 (l : list Z) (len : Z) : Z * Z := (hextets (l ++ replicate (8 - length l) 0), len).

Definition private6 : list (Z * Z) :=
  [(1, 128); (0, 128); (Z.shiftl 65535 32, 96); net6 [0x64; 0xff9b; 1] 48; net6 [0x100] 64; net6 [0x2001] 23;
   net6 [0x2001; 0xdb8] 32; net6 [0x2002] 16; net6 [0x3fff] 20; net6 [0xfc00] 7; net6 [0xfe80] 10].
Definition public6 : list (Z * Z) :=
  [(hextets [0x2001; 1; 0; 0; 0; 0; 0; 1], 128); (hextets [0x2001; 1; 0; 0; 0; 0; 0; 2], 128); net6 [0x2001; 3] 32;
   net6 [0x2001; 4; 0x112] 48; net6 [0x2001; 0x20] 28; net6 [0x2001; 0x30] 28].
Definition reserved6 : list (Z * Z) :=
  [(0, 8); net6 [0x100] 8; net6 [0x200] 7; net6 [0x400] 6; net6 [0x800] 5; net6 [0x1000] 4; net6 [0x4000] 3;
   net6 [0x6000] 3; net6 [0x8000] 3; net6 [0xa000] 3; net6 [0xc000] 3; net6 [0xe000] 4; net6 [0xf000] 5; net6 [0xf800] 6;
   net6 [0xfe00] 9].

Definition is_private (x : Addr) : bool :=
  match x with
  | V4 a => in_nets 32 a private4 && negb (in_nets 32 a public4)
  | V6 a _ => in_nets 128 a private6 && negb (in_nets 128 a public6)
  end.
Definition is_loopback (x : Addr) : bool := match x with V4 a => in_net 32 a (quad 127 0 0 0, 8) | V6 a _ => a =? 1 end.
Definition is_link_local (x : Addr) : bool :=
  match x with V4 a => in_net 32 a (quad 169 254 0 0, 16) | V6 a _ => in_net 128 a (net6 [0xfe80] 10) end.
Definition is_reserved (x : Addr) : bool :=
  match x with V4 a => in_net 32 a (quad 240 0 0 0, 4) | V6 a _ => in_nets 128 a reserved6 end.
Definition is_unspecified (x : Addr) : bool := match x with V4 a | V6 a _ => a =? 0 end.
Definition is_multicast (x : Addr) : bool :=
  match x with V4 a => in_net 32 a (quad 224 0 0 0, 4) | V6 a _ => in_net 128 a (net6 [0xff00] 8) end.

Definition ipv4_mapped (x : Addr) : option Z :=
  match x with
  | V4 _ => None
  | V6 a _ => if Z.shiftr a 32 =? 65535 then Some (Z.land a (Z.ones 32)) else None
  end.

(** ** The rules *)

(** [_is_restricted_address] *)
Definition is_restricted_address (x : Addr) : bool :=
  let x := match ipv4_mapped x with Some a => V4 a | None => x end in
  is_private x || is_loopback x || is_link_local x || is_reserved x || is_unspecified x || is_multicast x.

Definition METADATA_HOSTS : list string :=
  ["169.254.169.254"; "fd00:ec2::254"; "100.100.100.200"; "metadata.google.internal"; "metadata"].

(** [urlparse]: the scheme and the hostname, [""] for none; [ip_address]; [inet_aton];
    [str] of an address; [getaddrinfo]: the addresses, [None] for [gaierror], or
    another exception. *)
Class Net := {
  urlparse : string -> option (string * string);
  ip_address : string -> option Addr;
  inet_aton : string -> option Z;
  addr_str : Addr -> string;
  getaddrinfo : string -> res (option (list string));
}.

Section guard.
Context `{!Net}.

Definition parse_ip_literal (hostname : string) : option Addr :=
  match ip_address hostname with Some x => Some x | None => V4 <$> inet_aton hostname end.

Definition is_metadata_address (x : Addr) : bool :=
  bool_decide (addr_str x ∈ METADATA_HOSTS) ||
  match ipv4_mapped x with Some a => bool_decide (addr_str (V4 a) ∈ METADATA_HOSTS) | None => false end.

Definition metadata_error (hostname : string) : string := "Access to metadata endpoint '" +:+ hostname +:+ "' is blocked.".

Definition check_always_blocked (hostname : string) : option string :=
  let hn := lower hostname in
  if bool_decide (hn ∈ METADATA_HOSTS) then Some (metadata_error hostname)
  else
    match parse_ip_literal hn with
    | Some x => if is_metadata_address x then Some (metadata_error hostname) else None
    | None => None
    end.

(** [min(ips, key=lambda ip: ":" in ip)]: the first without a colon, else the first. *)
Definition prefer_ipv4 (ips : list string) : option string :=
  match List.find (fun ip => negb (has_char ":"%char ip)) ips with Some ip => Some ip | None => head ips end.

Definition check_resolved_address (ip_str : string) (block_private : bool) : option string :=
  match ip_address ip_str with
  | None => Some ("Unparseable resolved address '" +:+ ip_str +:+ "' is blocked.")
  | Some x =>
      if is_metadata_address x then Some ("Resolved address '" +:+ ip_str +:+ "' is a metadata endpoint and is blocked.")
      else if block_private && is_restricted_address x
      then Some ("Resolved address '" +:+ ip_str +:+ "' is a private/reserved address and is blocked.")
      else None
  end.

Definition host_error (hostname reason : string) : string := "Host '" +:+ hostname +:+ "' " +:+ reason.

(** The loop of [_resolve_and_collect]. *)
Fixpoint collect (hostname : string) (block_private : bool) (results ips : list string) : option string * list string :=
  match results with
  | [] => (None, ips)
  | raw_ip :: rest =>
      match check_resolved_address raw_ip block_private with
      | Some _ => (Some (host_error hostname "resolves to a private/reserved address and is blocked."), [])
      | None => collect hostname block_private rest (if bool_decide (raw_ip ∈ ips) then ips else ips ++ [raw_ip])
      end
  end.

Definition resolve_and_collect (hostname : string) (block_private : bool) : res (option string * list string) :=
  results ← getaddrinfo hostname;
  match results with
  | None => Ok (Some (host_error hostname "could not be resolved. Request blocked (fail-closed)."), [])
  | Some l => Ok (collect hostname block_private l [])
  end.

(** The opt-out loop: metadata addresses block, unparsable ones are skipped. *)
Fixpoint screen (hostname : string) (infos resolved_ips : list string) : option string * list string :=
  match infos with
  | [] => (None, resolved_ips)
  | info :: rest =>
      match parse_ip_literal info with
      | None => screen hostname rest resolved_ips
      | Some x =>
          if is_metadata_address x then (Some (host_error hostname "resolves to a metadata endpoint and is blocked."), [])
          else screen hostname rest (resolved_ips ++ [addr_str x])
      end
  end.

Definition validate_opted_out (hostname : string) : res (option string * option string) :=
  match parse_ip_literal hostname with
  | Some _ => Ok (None, None)
  | None =>
      infos ← getaddrinfo hostname;
      match infos with
      | None => Ok (None, None)
      | Some l => let '(err, ips) := screen hostname l [] in
                  Ok (match err with Some e => (Some e, None) | None => (None, prefer_ipv4 ips) end)
      end
  end.

Definition validate_blocking (hostname : string) : res (option string * option string) :=
  match parse_ip_literal hostname with
  | Some x =>
      Ok (if is_restricted_address x
          then (Some ("Access to private/reserved/loopback IP address '" +:+ hostname +:+ "' is blocked."), None) else (None, None))
  | None =>
      '(err, ips) ← resolve_and_collect hostname true;
      Ok (match err with
          | Some e => (Some e, None)
          | None =>
              match ips with
              | [] => (Some (host_error hostname "yielded no usable addresses. Request blocked (fail-closed)."), None)
              | _ => (None, prefer_ipv4 ips)
              end
          end)
  end.

(** [_validate_url_core]: the error, and the address to dial. *)
Definition validate_url_core (url : string) (block_private : bool) : res (option string * option string) :=
  match urlparse url with
  | None => Ok (Some "Invalid URL: could not be parsed.", None)
  | Some (scheme, hostname) =>
      if negb (bool_decide (scheme ∈ ["http"; "https"]))
      then Ok (Some ("URL scheme '" +:+ scheme +:+ "' is not allowed. Only http and https are permitted."), None)
      else if bool_decide (hostname = "") then Ok (Some "Invalid URL: no hostname.", None)
      else
        match check_always_blocked hostname with
        | Some e => Ok (Some e, None)
        | None => if block_private then validate_blocking hostname else validate_opted_out hostname
        end
  end.

Definition validate_url (url : string) (block_private : bool) : res (option string) :=
  r ← validate_url_core url block_private; Ok r.1.
End guard.

(** ** Correctness *)

(** A mapped address is judged as the IPv4 address it maps. *)
Lemma mapped_restricted a scope : 0 <= a < 2 ^ 32 ->
  is_restricted_address (V6 (Z.lor (Z.shiftl 65535 32) a) scope) = is_restricted_address (V4 a).
Proof.
  intros Ha. unfold is_restricted_address, ipv4_mapped.
  assert (Z.shiftr a 32 = 0) as H0 by (rewrite Z.shiftr_div_pow2 by lia; apply Z.div_small; lia).
  rewrite Z.shiftr_lor, H0, Z.lor_0_r, Z.shiftr_shiftl_l by lia. change (Z.shiftl 65535 (32 - 32) =? 65535) with true. cbv iota.
  rewrite Z.land_lor_distr_l, !Z.land_ones by lia. rewrite (Z.mod_small a) by lia. rewrite Z.shiftl_mul_pow2, Z.mod_mul by lia. done.
Qed.

(** ** What the guard has to keep out *)

(** The addresses the guard promises to refuse, as ranges: this network, private networks, loopback,
    link-local, documentation, benchmarking, multicast and above; for IPv6 loopback, unique local,
    link-local, multicast, and the IPv4 ones mapped into it.  That is less than all that is not
    globally reachable: the shared space 100.64.0.0/10 is in none of them, and passes. *)
Definition internal_ranges : list (Z * Z) :=
  [(quad 0 0 0 0, quad 0 255 255 255); (quad 10 0 0 0, quad 10 255 255 255); (quad 127 0 0 0, quad 127 255 255 255);
   (quad 169 254 0 0, quad 169 254 255 255); (quad 172 16 0 0, quad 172 31 255 255); (quad 192 168 0 0, quad 192 168 255 255);
   (quad 192 0 2 0, quad 192 0 2 255); (quad 198 18 0 0, quad 198 19 255 255); (quad 198 51 100 0, quad 198 51 100 255);
   (quad 203 0 113 0, quad 203 0 113 255);
   (quad 224 0 0 0, quad 255 255 255 255)].
Definition internal4 (a : Z) : Prop := exists lo hi, In (lo, hi) internal_ranges /\ lo <= a <= hi.
Definition internal (x : Addr) : Prop :=
  match x with
  | V4 a => internal4 a
  | V6 a _ =>
      a = 0 \/ a = 1 \/ 0xfc * 2 ^ 120 <= a < 0xfe * 2 ^ 120 \/ 0xfe80 * 2 ^ 112 <= a < 0xfec0 * 2 ^ 112 \/
      0xff * 2 ^ 120 <= a < 0x100 * 2 ^ 120 \/ (exists b, a = 65535 * 2 ^ 32 + b /\ internal4 b)
  end.

Lemma in_net_spec w a n len : 0 <= w - len -> n mod 2 ^ (w - len) = 0 -> in_net w a (n, len) = true <-> n <= a < n + 2 ^ (w - len).
Proof.
  intros Hk Hn. unfold in_net. cbn [fst snd]. rewrite Z.eqb_eq, !Z.shiftr_div_pow2 by done.
  pose proof (Z.pow_pos_nonneg 2 (w - len) ltac:(lia) Hk) as Hd. set (d := 2 ^ (w - len)) in *.
  pose proof (Z.div_mod n d ltac:(lia)). pose proof (Z.div_mod a d ltac:(lia)). pose proof (Z.mod_pos_bound a d Hd). split; [nia |].
  intros Hr. symmetry. apply (Z.div_unique_pos a d (n / d) (a - n)); lia.
Qed.

(** An address between the bounds of a network of the list is in it. *)
Lemma in_nets_range w a nets n len :
  In (n, len) nets -> 0 <= w - len -> n mod 2 ^ (w - len) = 0 -> n <= a < n + 2 ^ (w - len) -> in_nets w a nets = true.
Proof. intros Hin Hk Hn Hr. apply existsb_exists. exists (n, len). split; [done |]. by apply in_net_spec. Qed.

Lemma in_nets_none w a nets :
  Forall (fun net => 0 <= w - net.2 /\ net.1 mod 2 ^ (w - net.2) = 0 /\ (a < net.1 \/ net.1 + 2 ^ (w - net.2) <= a)) nets -> in_nets w a nets = false.
Proof.
  intros Hall. apply not_true_iff_false. intros ([n len] & Hin & Hn)%existsb_exists. rewrite List.Forall_forall in Hall.
  destruct (Hall _ Hin) as (Hk & Hm & Ho). apply in_net_spec in Hn; simpl in *; [lia | done | done].
Qed.

Lemma internal4_restricted a : internal4 a -> is_restricted_address (V4 a) = true.
Proof.
  intros (lo & hi & Hin & Hr). unfold is_restricted_address. cbn [ipv4_mapped].
  assert (Hpriv : forall n len, In (n, len) private4 -> 0 <= 32 - len -> n mod 2 ^ (32 - len) = 0 -> n <= a < n + 2 ^ (32 - len) ->
            in_nets 32 a public4 = false -> is_private (V4 a) = true).
  { intros n len H1 H2 H3 H4 H5. unfold is_private. by rewrite (in_nets_range 32 a private4 n len), H5. }
  assert (Hpub : a < quad 192 0 0 9 \/ quad 192 0 0 10 < a -> in_nets 32 a public4 = false).
  { intros Ha. unfold in_nets, public4, in_net, quad in *. simpl. rewrite !Z.shiftr_0_r. lia. }
  assert (Hnet : forall n len, In (n, len) private4 -> 0 <= 32 - len -> n mod 2 ^ (32 - len) = 0 -> n <= a < n + 2 ^ (32 - len) ->
            a < quad 192 0 0 9 \/ quad 192 0 0 10 < a -> is_restricted_address (V4 a) = true).
  { intros n len H1 H2 H3 H4 H5. unfold is_restricted_address. cbn [ipv4_mapped]. by rewrite (Hpriv n len H1 H2 H3 H4 (Hpub H5)). }
  assert (Hhigh : quad 224 0 0 0 <= a <= quad 255 255 255 255 -> is_restricted_address (V4 a) = true).
  { intros Ha. unfold is_restricted_address. cbn [ipv4_mapped]. rewrite !orb_true_iff.
    destruct (Z.lt_ge_cases a (quad 240 0 0 0)); [right | left; left; right]; cbn [is_multicast is_reserved]; apply in_net_spec;
      unfold quad in *; simpl; lia || done. }
  clear Hpriv Hpub. unfold internal_ranges in Hin. cbn [In] in Hin.
  destruct Hin as [E | [E | [E | [E | [E | [E | [E | [E | [E | [E | [E | []]]]]]]]]]]]; injection E as <- <-; [.. | by apply Hhigh].
  - apply (Hnet (quad 0 0 0 0) 8); [simpl; tauto | done | done | ..]; unfold quad in *; simpl; lia.
  - apply (Hnet (quad 10 0 0 0) 8); [simpl; tauto | done | done | ..]; unfold quad in *; simpl; lia.
  - apply (Hnet (quad 127 0 0 0) 8); [simpl; tauto | done | done | ..]; unfold quad in *; simpl; lia.
  - apply (Hnet (quad 169 254 0 0) 16); [simpl; tauto | done | done | ..]; unfold quad in *; simpl; lia.
  - apply (Hnet (quad 172 16 0 0) 12); [simpl; tauto | done | done | ..]; unfold quad in *; simpl; lia.
  - apply (Hnet (quad 192 168 0 0) 16); [simpl; tauto | done | done | ..]; unfold quad in *; simpl; lia.
  - apply (Hnet (quad 192 0 2 0) 24); [simpl; tauto | done | done | ..]; unfold quad in *; simpl; lia.
  - apply (Hnet (quad 198 18 0 0) 15); [simpl; tauto | done | done | ..]; unfold quad in *; simpl; lia.
  - apply (Hnet (quad 198 51 100 0) 24); [simpl; tauto | done | done | ..]; unfold quad in *; simpl; lia.
  - apply (Hnet (quad 203 0 113 0) 24); [simpl; tauto | done | done | ..]; unfold quad in *; simpl; lia.
Qed.

(** The rules keep out every internal address. *)
Lemma internal_restricted x : internal x -> is_restricted_address x = true.
Proof.
  destruct x as [a | a scope]; [apply internal4_restricted |]. intros Hi.
  assert (Hmap : forall b, a = 65535 * 2 ^ 32 + b -> internal4 b -> is_restricted_address (V6 a scope) = true).
  { intros b -> Hb. assert (Hr : 0 <= b < 2 ^ 32).
    { destruct Hb as (lo & hi & Hin & Hr). unfold internal_ranges in Hin. cbn [In] in Hin.
      destruct Hin as [E | [E | [E | [E | [E | [E | [E | [E | [E | [E | [E | []]]]]]]]]]]]; injection E as <- <-; unfold quad in Hr; lia. }
    unfold is_restricted_address. cbn [ipv4_mapped].
    assert (Z.shiftr (65535 * 2 ^ 32 + b) 32 = 65535) as ->.
    { rewrite Z.shiftr_div_pow2 by lia. symmetry. apply (Z.div_unique_pos _ _ _ b); lia. }
    rewrite Z.eqb_refl, Z.land_ones by lia.
    assert ((65535 * 2 ^ 32 + b) mod 2 ^ 32 = b) as -> by (symmetry; apply (Z.mod_unique_pos _ _ 65535); lia).
    apply (internal4_restricted b Hb). }
  assert (Hplain : Z.shiftr a 32 <> 65535 -> is_private (V6 a scope) || is_loopback (V6 a scope) || is_link_local (V6 a scope) ||
            is_reserved (V6 a scope) || is_unspecified (V6 a scope) || is_multicast (V6 a scope) = true -> is_restricted_address (V6 a scope) = true).
  { intros Hs Hr. unfold is_restricted_address. cbn [ipv4_mapped]. by apply Z.eqb_neq in Hs as ->. }
  assert (Hhigh : 2 ^ 120 <= a -> Z.shiftr a 32 <> 65535).
  { intros Ha E. rewrite Z.shiftr_div_pow2 in E by lia. pose proof (Z.div_mod a (2 ^ 32) ltac:(lia)).
    pose proof (Z.mod_pos_bound a (2 ^ 32) ltac:(lia)). lia. }
  destruct Hi as [-> | [-> | [Hr | [Hr | [Hr | (b & Hb & Hi)]]]]]; [done | done | | | | by eapply Hmap].
  - apply Hplain; [apply Hhigh; lia |]. rewrite !orb_true_iff. do 5 left. unfold is_private.
    assert (in_nets 128 a public6 = false) as ->.
    { apply in_nets_none. unfold public6, net6. repeat (apply List.Forall_cons; [split_and!; [done | done | right] |]); [.. | constructor];
        (match goal with |- ?l <= _ => let v := eval vm_compute in l in change (v <= a) end); lia. }
    rewrite (in_nets_range 128 a private6 (0xfc * 2 ^ 120) 7); [done | simpl; tauto | done | done | lia].
  - apply Hplain; [apply Hhigh; lia |]. rewrite !orb_true_iff. do 3 left. right. apply in_net_spec; [done | done |].
    change (hextets _) with (0xfe80 * 2 ^ 112). lia.
  - apply Hplain; [apply Hhigh; lia |]. rewrite !orb_true_iff. right. apply in_net_spec; [done | done |].
    change (hextets _) with (0xff * 2 ^ 120). lia.
Qed.

Lemma unrestricted_outside x : is_restricted_address x = false -> ~ internal x.
Proof. intros Hr Hi. by rewrite (internal_restricted x Hi) in Hr. Qed.

Section facts.
Context `{!Net}.

(** What dialling an address by this text means: every address it can name passed. *)
Definition reachable (ip : string) : Prop :=
  exists x, ip_address ip = Some x /\ is_metadata_address x = false /\ ~ internal x.

Lemma check_resolved_ok ip : check_resolved_address ip true = None -> reachable ip.
Proof.
  unfold check_resolved_address. destruct (ip_address ip) as [x|] eqn:E; [|done].
  destruct (is_metadata_address x) eqn:Hm; [done|]. destruct (is_restricted_address x) eqn:Hr; [done|].
  intros _. exists x. split_and!; [done|done|]. by apply unrestricted_outside.
Qed.

Lemma collect_ok hostname results ips l : Forall reachable ips -> collect hostname true results ips = (None, l) ->
  Forall reachable l /\ Forall reachable results /\ forall ip, ip ∈ l <-> ip ∈ ips \/ ip ∈ results.
Proof.
  revert ips. induction results as [|raw rest IH]; intros ips Hips; simpl.
  - intros [= <-]. split; [done|]. split; [constructor|]. intros ip. rewrite elem_of_nil. tauto.
  - destruct (check_resolved_address raw true) eqn:E; [done|]. apply check_resolved_ok in E.
    case_bool_decide as Hin; intros Hc; apply IH in Hc as (H1 & H2 & H3); [|done| |by apply Forall_app; split; [|constructor]].
    + split; [done|]. split; [by constructor|]. intros ip. rewrite H3, elem_of_cons. naive_solver.
    + split; [done|]. split; [by constructor|]. intros ip. rewrite H3, elem_of_app, list_elem_of_singleton, elem_of_cons. tauto.
Qed.

Lemma prefer_ipv4_in ips ip : prefer_ipv4 ips = Some ip -> ip ∈ ips.
Proof.
  unfold prefer_ipv4. destruct (List.find _ ips) as [x|] eqn:E.
  - intros [= <-]. apply List.find_some in E as [E _]. by apply list_elem_of_In.
  - destruct ips; [done|]. intros [= ->]. left.
Qed.

Lemma prefer_ipv4_v4 ips ip : prefer_ipv4 ips = Some ip -> has_char ":"%char ip = true -> forall y, y ∈ ips -> has_char ":"%char y = true.
Proof.
  unfold prefer_ipv4. destruct (List.find _ ips) as [x|] eqn:E.
  - intros [= <-] Hc. apply List.find_some in E as [_ E]. by rewrite Hc in E.
  - intros _ _ y Hy. apply (List.find_none _ _ E) in Hy as Hn || apply list_elem_of_In, (List.find_none _ _ E) in Hy as Hn. by apply negb_false_iff.
Qed.

Lemma blocking_dns hostname pinned : parse_ip_literal hostname = None -> validate_blocking hostname = Ok (None, pinned) ->
  exists ips ip, getaddrinfo hostname = Ok (Some ips) /\ Forall reachable ips /\ pinned = Some ip /\ ip ∈ ips /\
    (has_char ":"%char ip = true -> forall y, y ∈ ips -> has_char ":"%char y = true).
Proof.
  intros El HV. unfold validate_blocking in HV. rewrite El in HV. apply res_bind_ok in HV as ([err ips] & Hres & HV).
  unfold resolve_and_collect in Hres. apply res_bind_ok in Hres as (o & Hl & Hres). destruct o as [l|].
  2:{ injection Hres as <- <-. discriminate HV. }
  injection Hres as Hcol. destruct err; [discriminate HV|]. apply collect_ok in Hcol as (H1 & H2 & H3); [|constructor].
  assert (prefer_ipv4 ips = pinned /\ ips ≠ []) as [Hp Hne] by (destruct ips; [discriminate HV|]; by injection HV).
  assert (exists ip, pinned = Some ip) as [ip ->].
  { rewrite <- Hp. unfold prefer_ipv4. destruct (List.find _ _); [by eexists|]. destruct ips; [done|]. by eexists. }
  exists l, ip. split; [done|]. split; [done|]. split; [done|]. pose proof (prefer_ipv4_in _ _ Hp) as Hin.
  assert (forall y, y ∈ ips <-> y ∈ l) as Heq by (intros y; rewrite H3, elem_of_nil; tauto).
  split; [by apply Heq|]. intros Hc y Hy. eapply prefer_ipv4_v4; [exact Hp|exact Hc|by apply Heq].
Qed.

(** C40. With the guard on, an accepted URL leads to no metadata endpoint and into none of
    the [internal] ranges (private, loopback, link-local, documentation, benchmarking,
    multicast and reserved ones).  Its scheme is http or https; its host is not a
    metadata name; if the host is an IP literal in any form, that address is in none of
    these ranges and, when written in lower case, no metadata endpoint; otherwise every
    address DNS returned for it is parsable, no metadata endpoint and in none of the
    ranges, and the connection is pinned to one of them, to an IPv4 one if there is any.
    Not every address left is public: 100.64.0.0/10 passes. *)
Theorem guard_accepts_safe url pinned :
  validate_url_core url true = Ok (None, pinned) ->
  exists scheme hostname, urlparse url = Some (scheme, hostname) /\ scheme ∈ ["http"; "https"] /\ hostname ≠ "" /\
    lower hostname ∉ METADATA_HOSTS /\
    match parse_ip_literal hostname with
    | Some x => ~ internal x /\ pinned = None /\ (lower hostname = hostname -> is_metadata_address x = false)
    | None => exists ips ip, getaddrinfo hostname = Ok (Some ips) /\ Forall reachable ips /\ pinned = Some ip /\ ip ∈ ips /\
                (has_char ":"%char ip = true -> forall y, y ∈ ips -> has_char ":"%char y = true)
    end.
Proof.
  unfold validate_url_core. destruct (urlparse url) as [[scheme hostname]|]; [|done].
  case_bool_decide as Hs; simpl negb; cbv iota; [|done]. case_bool_decide as Hh; [done|]. unfold check_always_blocked.
  case_bool_decide as Hm; [done|]. intros HV. exists scheme, hostname. do 4 (split; [done|]).
  assert (validate_blocking hostname = Ok (None, pinned) /\
          forall y, parse_ip_literal (lower hostname) = Some y -> is_metadata_address y = false) as [HB Hmeta].
  { destruct (parse_ip_literal (lower hostname)) as [y|]; [destruct (is_metadata_address y) eqn:Hy; [done|]|];
      (split; [exact HV|]); [by intros ? [= <-]|done]. }
  destruct (parse_ip_literal hostname) as [x|] eqn:El; [|by apply blocking_dns].
  unfold validate_blocking in HB. rewrite El in HB. destruct (is_restricted_address x) eqn:Hr; [done|]. injection HB as <-.
  split; [by apply unrestricted_outside|]. split; [done|]. intros Hl. apply Hmeta. by rewrite Hl.
Qed.

Lemma screen_ok hostname infos ips l : (forall ip, ip ∈ ips -> exists x, ip = addr_str x /\ is_metadata_address x = false) ->
  screen hostname infos ips = (None, l) -> forall ip, ip ∈ l -> exists x, ip = addr_str x /\ is_metadata_address x = false.
Proof.
  revert ips. induction infos as [|i rest IH]; intros ips Hips; simpl; [by intros [= <-]|].
  destruct (parse_ip_literal i) as [x|]; [|by apply IH]. destruct (is_metadata_address x) eqn:Hm; [done|]. apply IH.
  intros ip [Hin| ->%list_elem_of_singleton]%elem_of_app; [by apply Hips|by exists x].
Qed.

(** Opting out of the private-address check never opens the metadata endpoints:
    an accepted URL has an http or https scheme, its host is not a metadata name or
    literal, and the address it is pinned to, if any, is no metadata endpoint. *)
Theorem metadata_always_blocked url (block_private : bool) pinned :
  validate_url_core url block_private = Ok (None, pinned) ->
  exists scheme hostname, urlparse url = Some (scheme, hostname) /\ scheme ∈ ["http"; "https"] /\
    lower hostname ∉ METADATA_HOSTS /\
    (forall x, parse_ip_literal (lower hostname) = Some x -> is_metadata_address x = false) /\
    (forall ip, pinned = Some ip ->
       exists x, (ip_address ip = Some x \/ ip = addr_str x) /\ is_metadata_address x = false).
Proof.
  unfold validate_url_core. destruct (urlparse url) as [[scheme hostname]|]; [|done].
  case_bool_decide as Hs; simpl negb; cbv iota; [|done]. case_bool_decide as Hh; [done|]. unfold check_always_blocked.
  case_bool_decide as Hm; [done|]. intros HV. exists scheme, hostname. do 3 (split; [done|]).
  assert ((if block_private then validate_blocking hostname else validate_opted_out hostname) = Ok (None, pinned) /\
          forall y, parse_ip_literal (lower hostname) = Some y -> is_metadata_address y = false) as [HB Hmeta].
  { destruct (parse_ip_literal (lower hostname)) as [y|]; [destruct (is_metadata_address y) eqn:Hy; [done|]|];
      (split; [exact HV|]); [by intros ? [= <-]|done]. }
  split; [done|]. intros ip ->. clear HV. destruct (parse_ip_literal hostname) as [x|] eqn:El.
  - exfalso. destruct block_private; [unfold validate_blocking in HB|unfold validate_opted_out in HB]; rewrite El in HB; [|done].
    by destruct (is_restricted_address x).
  - destruct block_private.
    + destruct (blocking_dns _ _ El HB) as (ips & ip' & _ & Hall & [= <-] & Hin & _). rewrite Forall_forall in Hall.
      destruct (Hall ip Hin) as (x & H1 & H2 & _). exists x. auto.
    + unfold validate_opted_out in HB. rewrite El in HB. apply res_bind_ok in HB as (o & _ & HB). destruct o as [l|]; [|done].
      destruct (screen hostname l []) as [err ips] eqn:Es. destruct err; [done|]. injection HB as Hp. apply prefer_ipv4_in in Hp.
      destruct (screen_ok hostname l [] ips ltac:(by intros y ?%elem_of_nil) Es ip Hp) as (x & -> & Hx). exists x. auto.
Qed.
End facts.

(** ** A concrete network *)

Definition dotted (a : Z) : string :=
  let b n := pretty (Z.land (Z.shiftr a n) 255) in b 24 +:+ "." +:+ b 16 +:+ "." +:+ b 8 +:+ "." +:+ b 0.

Definition metadata6 : Z := hextets [0xfd00; 0xec2; 0; 0; 0; 0; 0; 0x254].

(** [api] has two public addresses, [rebind] also a private one; [2852039166] is a legacy literal. *)
#[export] Instance demo_net : Net := {
  urlparse url := if bool_decide (url = "") then None else Some ("https", url);
  ip_address s :=
    od_get s [("93.184.216.34", V4 (quad 93 184 216 34)); ("10.0.0.1", V4 (quad 10 0 0 1));
              ("2606:2800::1", V6 (hextets [0x2606; 0x2800; 0; 0; 0; 0; 0; 1]) None);
              ("fd00:ec2::254%1", V6 metadata6 (Some "1"))];
  inet_aton s := od_get s [("2852039166", 2852039166)];
  addr_str x :=
    match x with
    | V4 a => dotted a
    | V6 a scope => (if a =? metadata6 then "fd00:ec2::254" else "2606:2800::1") +:+
                    match scope with Some s => "%" +:+ s | None => "" end
    end;
  getaddrinfo s :=
    Ok (od_get s [("api", ["2606:2800::1"; "93.184.216.34"]); ("rebind", ["93.184.216.34"; "10.0.0.1"])]);
}.

Lemma guard_accepts_safe_witness : exists ips ip,
  validate_url_core "api" true = Ok (None, Some ip) /\ getaddrinfo "api" = Ok (Some ips) /\ ip ∈ ips /\ Forall reachable ips.
Proof.
  destruct (guard_accepts_safe "api" (Some "93.184.216.34")) as (sch & host & Hu & _ & _ & _ & H); [vm_compute; reflexivity|].
  injection Hu as <- <-. destruct H as (ips & ip & Hg & Hall & [= <-] & Hin & _). exists ips, "93.184.216.34".
  split; [vm_compute; reflexivity|]. by split.
Defined.

Lemma metadata_always_blocked_witness :
  validate_url_core "rebind" false = Ok (None, Some "93.184.216.34") /\
  exists x, (ip_address "93.184.216.34" = Some x \/ "93.184.216.34" = addr_str x) /\ is_metadata_address x = false.
Proof.
  split; [vm_compute; reflexivity|].
  destruct (metadata_always_blocked "rebind" false (Some "93.184.216.34")) as (sch & host & _ & _ & _ & _ & H); [vm_compute; reflexivity|].
  by apply H.
Defined.

(** The guard at work: a private answer, a legacy literal. *)
Example rebind_blocked : exists e, validate_url_core "rebind" true = Ok (Some e, None).
Proof. eexists. vm_compute. reflexivity. Qed.
Example legacy_literal_blocked : exists e, validate_url_core "2852039166" false = Ok (Some e, None).
Proof. eexists. vm_compute. reflexivity. Qed.

(** A scope id hides the IPv6 metadata address from the opted-out guard. *)
Example scoped_metadata_passes : validate_url_core "fd00:ec2::254%1" false = Ok (None, None).
Proof. vm_compute. reflexivity. Qed.

(** The shared address space 100.64.0.0/10 is in no class the guard restricts. *)
Example shared_space_passes : is_restricted_address (V4 (quad 100 64 0 1)) = false.
Proof. reflexivity. Qed.
