(* ===== verification/Scoring.v ===== *)
(** * Scoring (evaluation/normalization.py, scoring/criterion_aggregation.py,
      scoring/multidimensional_scoring.py, workflows/lib/ci_calculator.py)

    Normalisation to [0, 1], weighted aggregation of rubric criteria, the tiers and the
    non-compensatory gate of a research round, its confidence index, and the choice of
    the best round.  Floats are exact rationals.  The real power of the geometric
    index and of recency decay is a parameter. *)

From Stdlib Require Import QArith Qminmax Qround Qcanon Lqa.
From S2P Require Import Prelude PyStr PyVal Step.
Local Open Scope Q_scope.

(** ** Normalisation *)

Definition clamp01 (x : Q) : Q := Qmax 0 (Qmin 1 x).

Definition qlt (a b : Q) : bool := negb (Qle_bool b a).

Definition binary (raw : Q) : res Q :=
  if Qeq_bool raw 0 || Qeq_bool raw 1 then Ok raw else Raise (ValueError "binary normalization expects raw value 0 or 1").
Definition likert_1_5 (raw : Q) : Q := clamp01 ((raw - 1) / 4).
Definition likert_neg2_2 (raw : Q) : Q := clamp01 ((raw + 2) / 4).
Definition lower_is_better (raw : Q) (slo_good slo_bad : option Q) : res Q :=
  match slo_good, slo_bad with
  | Some good, Some bad =>
      if Qeq_bool (bad - good) 0 then Raise (ValueError "lower_is_better requires slo_bad != slo_good")
      else Ok (clamp01 ((bad - raw) / (bad - good)))
  | _, _ => Raise (ValueError "lower_is_better requires slo_good and slo_bad")
  end.
Definition zero_one (raw : Q) : Q := clamp01 raw.
Definition pairwise (wins losses ties : Q) : Q :=
  let total := wins + losses + ties in
  if Qle_bool total 0 then 0 else clamp01 ((wins + (1 # 2) * ties) / total).

Definition adjust_for_sample_size (norm : Q) (n : Z) (prior k : Q) : res Q :=
  if (n <? 0)%Z then Raise (ValueError "n must be >= 0")
  else
    let numerator := inject_Z n * norm + k * prior in
    let denominator := inject_Z n + k in
    Ok (if Qle_bool denominator 0 then clamp01 norm else clamp01 (numerator / denominator)).

(** [float(v)] *)
Definition py_float (v : pyval) : option Q :=
  match v with
  | VFloat q => Some (Qcanon.this q)
  | VInt z => Some (inject_Z z)
  | VBool b => Some (inject_Z (Z.b2z b))
  | VStr s => float_of_string s
  | _ => None
  end.

Definition to_float (v : pyval) : res Q :=
  match py_float v, v with
  | Some q, _ => Ok q
  | None, VStr _ => Raise (ValueError "could not convert string to float")
  | None, _ => Raise (TypeError "float() argument must be a string or a real number")
  end.

(** ** Criterion aggregation *)

Record CriterionSpec := mkCriterion { cr_name : string; cr_weight : Q; cr_min_value : Q; cr_max_value : Q }.

Record CriterionScoreSummary := mkSummary {
  total_score : Q;
  weighted_score : Q;
  criterion_scores : odict Q;
  missing_criteria : list string;
}.

Definition qsum (l : list Q) : Q := fold_left Qplus l 0.

(** The value clamped to the range of its criterion, and normalised. *)
Definition clamp_value (c : CriterionSpec) (v : Q) : Q := Qmax (cr_min_value c) (Qmin (cr_max_value c) v).
Definition normalized (c : CriterionSpec) (v : Q) : Q :=
  let span := cr_max_value c - cr_min_value c in
  if qlt 0 span then (v - cr_min_value c) / span else v.

(** The loop's state: weighted sum, raw sum, scores, missing. *)
Definition score_step (values : odict Q) (s : Q * Q * odict Q * list string) (c : CriterionSpec) : Q * Q * odict Q * list string :=
  let '(weighted_sum, raw_sum, scores, missing) := s in
  match od_get (cr_name c) values with
  | None => (weighted_sum, raw_sum, scores, missing ++ [cr_name c])
  | Some v =>
      let value := clamp_value c v in
      (weighted_sum + cr_weight c * normalized c value, raw_sum + normalized c value, od_set (cr_name c) value scores, missing)
  end.

Definition score_criterion_values (criteria : list CriterionSpec) (values : odict Q) : CriterionScoreSummary :=
  let total_weight := qsum (cr_weight <$> criteria) in
  let '(weighted_sum, raw_sum, scores, missing) := fold_left (score_step values) criteria (0, 0, [], []) in
  mkSummary
    (match criteria with [] => 0 | _ => raw_sum / inject_Z (Z.of_nat (length criteria)) end)
    (if qlt 0 total_weight then weighted_sum / total_weight else 0) scores missing.

(** [CriterionScorer.validate_results] *)
Definition validate_results (criteria : list CriterionSpec) (values : odict Q) : list string :=
  filter (fun n => od_mem n values = false) (cr_name <$> criteria).

(** ** Tiers *)

Inductive ResearchTier := ELITE | HIGH | MEDIUM | LOW.
Definition rank (t : ResearchTier) : Z := match t with ELITE => 3 | HIGH => 2 | MEDIUM => 1 | LOW => 0 end.
Definition meets_minimum (t minimum : ResearchTier) : bool := (rank minimum <=? rank t)%Z.

Definition RESEARCH_DIMENSIONS : list string := ["coverage"; "source_quality"; "agreement"; "verification"; "recency"].

Definition Thresholds : Type := odict (Q * Q * Q).
Definition default_floors : Q * Q * Q := (9 # 10, 3 # 4, 1 # 2).
Definition SCORE_THRESHOLDS : Thresholds := (fun d => (d, default_floors)) <$> RESEARCH_DIMENSIONS.

Definition classify_dimension (dimension : string) (score : Q) (thresholds : Thresholds) : ResearchTier :=
  let '(elite_f, high_f, medium_f) := default default_floors (od_get dimension thresholds) in
  if Qle_bool elite_f score then ELITE
  else if Qle_bool high_f score then HIGH
  else if Qle_bool medium_f score then MEDIUM
  else LOW.

(** ** The gate *)

Record DimensionResult := mkDimension { dr_dimension : string; dr_score : Q; dr_tier : ResearchTier; dr_gate_passed : bool }.

Record GateResult := mkGate {
  mg_dimensions : list DimensionResult;
  mg_recent_sources_count : Z;
  mg_min_recent_sources : Z;
  mg_critical_contradictions : Z;
  mg_consecutive_regression : bool;
  mg_ci_tiebreaker : Q;
}.

Definition all_dimensions_high (g : GateResult) : bool := forallb dr_gate_passed (mg_dimensions g).
Definition sources_floor_passed (g : GateResult) : bool := (mg_min_recent_sources g <=? mg_recent_sources_count g)%Z.
Definition no_critical_contradictions (g : GateResult) : bool := (mg_critical_contradictions g =? 0)%Z.
Definition gate_passed (g : GateResult) : bool :=
  all_dimensions_high g && sources_floor_passed g && no_critical_contradictions g && negb (mg_consecutive_regression g).
Definition failed_dimensions (g : GateResult) : list string :=
  dr_dimension <$> filter (fun d => dr_gate_passed d = false) (mg_dimensions g).

Definition TIEBREAKER_WEIGHTS : odict Q :=
  [("coverage", 1 # 4); ("source_quality", 1 # 5); ("agreement", 1 # 5); ("verification", 1 # 5); ("recency", 3 # 20)].

Definition compute_ci_tiebreaker (scores : odict Q) (weights : option (odict Q)) : Q :=
  let w := default TIEBREAKER_WEIGHTS weights in
  let weight_total := qsum w.*2 in
  if Qle_bool weight_total 0 then 0
  else clamp01 (qsum ((fun kv => default 0 (od_get kv.1 scores) * kv.2) <$> w) / weight_total).

Definition evaluate_research_round (scores : odict Q) (recent_sources_count critical_contradictions min_recent_sources : Z)
    (consecutive_regression : bool) (tiebreaker_weights : option (odict Q)) (tier_thresholds : option Thresholds) : GateResult :=
  let thresholds := od_update SCORE_THRESHOLDS (default [] tier_thresholds) in
  let dimension dim :=
    let score := clamp01 (default 0 (od_get dim scores)) in
    let tier := classify_dimension dim score thresholds in
    mkDimension dim score tier (meets_minimum tier HIGH) in
  mkGate (dimension <$> RESEARCH_DIMENSIONS) recent_sources_count min_recent_sources critical_contradictions consecutive_regression
    (compute_ci_tiebreaker scores tiebreaker_weights).

(** [_float] and [_int]: the default where the conversion raises. *)
Definition get_float (k : string) (d : odict pyval) : Q := default 0 (od_get k d ≫= py_float).
Definition get_int (k : string) (d : odict pyval) : Z := default 0%Z (od_get k d ≫= py_int).

Definition evaluate_research_round_from_step_outputs (step_outputs : odict pyval) (min_recent_sources : Z)
    (consecutive_regression : bool) (tiebreaker_weights : option (odict Q)) : GateResult :=
  evaluate_research_round
    ((fun d => (d, get_float (d +:+ "_score") step_outputs)) <$> RESEARCH_DIMENSIONS)
    (get_int "recent_source_count" step_outputs) (get_int "critical_contradictions" step_outputs)
    min_recent_sources consecutive_regression tiebreaker_weights None.

(** ** The stop gate *)

(** [round(q, 4)], half to even. *)
Definition round4 (q : Q) : Q :=
  let n := Qfloor (q * 10000) in
  let frac := q * 10000 - inject_Z n in
  inject_Z (if qlt frac (1 # 2) then n else if qlt (1 # 2) frac then n + 1 else if Z.even n then n else n + 1)%Z / 10000.

Definition vfloat (q : Q) : pyval := VFloat (Q2Qc q).

Definition research_tier_value (t : ResearchTier) : string := match t with ELITE => "Elite" | HIGH => "High" | MEDIUM => "Medium" | LOW => "Low" end.

Definition dimension_to_dict (d : DimensionResult) : odict pyval :=
  [("dimension", VStr (dr_dimension d)); ("score", vfloat (round4 (dr_score d))); ("tier", VStr (research_tier_value (dr_tier d)));
   ("tier_rank", VInt (rank (dr_tier d))); ("gate_passed", VBool (dr_gate_passed d))].

(** [generated_at] is the clock's. *)
Definition gate_to_dict (generated_at : string) (g : GateResult) : odict pyval :=
  [("dimension_matrix",
      VDict (fold_left (fun m d => od_set (dr_dimension d) (VDict (dimension_to_dict d)) m) (mg_dimensions g) []));
   ("dimensions", VList ((fun d => VDict (dimension_to_dict d)) <$> mg_dimensions g));
   ("all_dimensions_high", VBool (all_dimensions_high g));
   ("sources_floor_passed", VBool (sources_floor_passed g));
   ("no_critical_contradictions", VBool (no_critical_contradictions g));
   ("consecutive_regression", VBool (mg_consecutive_regression g));
   ("gate_passed", VBool (gate_passed g));
   ("failed_dimensions", VTuple (VStr <$> failed_dimensions g));
   ("recent_sources_count", VInt (mg_recent_sources_count g));
   ("min_recent_sources", VInt (mg_min_recent_sources g));
   ("critical_contradictions", VInt (mg_critical_contradictions g));
   ("ci_score", vfloat (round4 (mg_ci_tiebreaker g)));
   ("ci_role", VStr "tiebreaker_only");
   ("generated_at", VStr generated_at);
   ("scoring_engine", VStr "multidimensional")].

(** [v.get(k, d)] of a value that should be a dictionary. *)
Definition get_of (v : pyval) (k : string) (d : pyval) : res pyval :=
  match v with VDict m => Ok (default d (od_get k m)) | _ => Raise (AttributeError "get") end.
Definition deep_research_of (eval_config : odict pyval) (k : string) (d : pyval) : res pyval :=
  evaluation ← get_of (VDict eval_config) "evaluation" (VDict []);
  deep_research ← get_of evaluation "deep_research" (VDict []);
  get_of deep_research k d.

(** The [str] of a value that is no string is not that word. *)
Definition is_multidimensional_engine_active (eval_config : odict pyval) : res bool :=
  engine ← deep_research_of eval_config "scoring_engine" (VStr "legacy");
  Ok (match engine with VStr s => bool_decide (lower (strip s) = "multidimensional") | _ => false end).

Definition legacy_gate (ci min_ci : Q) (recent contradictions min_recent_sources : Z) (consecutive_regression : bool) : odict pyval :=
  [("gate_passed", VBool (Qle_bool min_ci ci && (min_recent_sources <=? recent)%Z && (contradictions =? 0)%Z && negb consecutive_regression));
   ("ci_score", vfloat (round4 ci));
   ("scoring_engine", VStr "legacy");
   ("recent_sources_count", VInt recent);
   ("critical_contradictions", VInt contradictions)].

Definition research_stop_gate (generated_at : string) (step_outputs eval_config : odict pyval) (min_recent_sources : Z)
    (consecutive_regression : bool) : res (odict pyval) :=
  active ← is_multidimensional_engine_active eval_config;
  if (active : bool) then
    Ok (gate_to_dict generated_at (evaluate_research_round_from_step_outputs step_outputs min_recent_sources consecutive_regression None))
  else
    raw ← deep_research_of eval_config "min_ci" (vfloat (4 # 5));
    min_ci ← to_float raw;
    Ok (legacy_gate (get_float "ci_score" step_outputs) min_ci (get_int "recent_source_count" step_outputs)
          (get_int "critical_contradictions" step_outputs) min_recent_sources consecutive_regression).

(** ** The best round *)

(** [_round_sort_key], as the order it sorts by: [b] beats [a]. *)
Record RoundKey := mkKey { rk_gate : bool; rk_ci : Q; rk_index : nat }.
Definition beats (b a : RoundKey) : bool :=
  if Bool.eqb (rk_gate b) (rk_gate a) then
    if Qeq_bool (rk_ci b) (rk_ci a) then (rk_index b <? rk_index a)%nat else qlt (rk_ci a) (rk_ci b)
  else rk_gate b.

Definition round_sort_key (result : odict pyval) (index : nat) : res RoundKey :=
  ci ← to_float (default (VFloat (Q2Qc 0)) (od_get "ci_score" result));
  Ok (mkKey (truthy (default (VBool false) (od_get "gate_passed" result))) ci index).

(** The keys of the dictionaries of the list, from position [i]. *)
Fixpoint indexed (i : nat) (rounds : list pyval) : res (list (odict pyval * RoundKey)) :=
  match rounds with
  | [] => Ok []
  | VDict d :: rest => k ← round_sort_key d i; l ← indexed (S i) rest; Ok ((d, k) :: l)
  | _ :: rest => indexed (S i) rest
  end.

(** [max(indexed, key=...)]: the first greatest. *)
Definition best_of (best x : odict pyval * RoundKey) : odict pyval * RoundKey := if beats x.2 best.2 then x else best.

Definition coalesce_best_round (rounds : list pyval) : res (option (odict pyval)) :=
  l ← indexed 0 rounds;
  match l with [] => Ok None | x :: rest => Ok (Some (fold_left best_of rest x).1) end.

(** ** The confidence index (ci_calculator.py) *)

Record CiGate := mkCiGate {
  cg_passed : bool;
  cg_all_dimensions_high : bool;
  cg_sources_floor_passed : bool;
  cg_no_critical_contradictions : bool;
  cg_no_regression : bool;
  cg_reason : string;
}.

Definition check_gate (scores : odict Q) (high_threshold : Q) (recent_source_count min_recent_sources critical_contradictions : Z)
    (previous_ci current_ci : option Q) : CiGate :=
  let low_dimensions := filter (fun d => qlt (clamp01 (default 0 (od_get d scores))) high_threshold = true) RESEARCH_DIMENSIONS in
  let high := bool_decide (low_dimensions = []) in
  let sources := (min_recent_sources <=? recent_source_count)%Z in
  let contradictions := (critical_contradictions =? 0)%Z in
  let no_regression := match previous_ci, current_ci with Some p, Some c => Qle_bool p c | _, _ => true end in
  let reasons :=
    (if negb high then ["low dimensions: " +:+ String.concat ", " low_dimensions] else []) ++
    (if negb sources then ["insufficient recent sources"] else []) ++
    (if negb contradictions then ["critical contradiction detected"] else []) ++
    (if negb no_regression then ["confidence regression detected"] else []) in
  mkCiGate (high && sources && contradictions && no_regression) high sources contradictions no_regression (String.concat "; " reasons).

Definition DOMAIN_RECENCY_DAYS : odict Z :=
  [("ai_ml", 90%Z); ("cloud_infrastructure", 180%Z); ("programming_languages", 365%Z); ("academic_research", 730%Z); ("default", 183%Z)].

(** One override: kept when it is a positive int ([bool] is one). *)
Definition add_window (windows : odict Z) (kv : string * pyval) : odict Z :=
  match kv.2 with
  | VInt z => if (0 <? z)%Z then od_set kv.1 z windows else windows
  | VBool b => if b then od_set kv.1 1%Z windows else windows
  | _ => windows
  end.

Definition load_recency_windows (config : odict pyval) : odict Z :=
  match od_get "evaluation" config with
  | Some (VDict raw) =>
      match od_get "deep_research" raw with
      | Some (VDict deep_research) =>
          match od_get "recency_windows" deep_research with
          | Some (VDict overrides) => fold_left add_window overrides DOMAIN_RECENCY_DAYS
          | _ => DOMAIN_RECENCY_DAYS
          end
      | _ => DOMAIN_RECENCY_DAYS
      end
  | _ => DOMAIN_RECENCY_DAYS
  end.

Section index.
(** [x ** y] and [exp (-ln 2 / h * t)]. *)
Context (power : Q -> Q -> Q) (half_life_decay : Q -> Q -> Q).

Fixpoint geometric_product (w : odict Q) (scores : odict Q) (dims : list string) (product : Q) : option Q :=
  match dims with
  | [] => Some product
  | d :: rest =>
      let score := clamp01 (default 0 (od_get d scores)) in
      if Qle_bool score (1 # 10000000000) then None
      else geometric_product w scores rest (product * power score (default 0 (od_get d w)))
  end.

Definition compute_ci (scores : odict Q) (weights : option (odict Q)) (method : string) : res Q :=
  let w := match weights with Some (x :: l) => x :: l | _ => TIEBREAKER_WEIGHTS end in
  let total_weight := qsum ((fun d => default 0 (od_get d w)) <$> RESEARCH_DIMENSIONS) in
  if Qle_bool total_weight 0 then Ok 0
  else if decide (method = "arithmetic") then
    Ok (clamp01 (qsum ((fun d => clamp01 (default 0 (od_get d scores)) * default 0 (od_get d w)) <$> RESEARCH_DIMENSIONS) / total_weight))
  else if decide (method = "geometric") then
    Ok (match geometric_product w scores RESEARCH_DIMENSIONS 1 with
        | Some product => clamp01 (power product (/ total_weight))
        | None => 0
        end)
  else Raise (ValueError ("Unsupported CI method: " +:+ method)).

Definition get_recency_window (domain : string) (config_windows : option (odict Z)) : Z :=
  let windows := match config_windows with Some (x :: l) => x :: l | _ => DOMAIN_RECENCY_DAYS end in
  match od_get domain windows with Some n => n | None => default 183%Z (od_get "default" windows) end.

Definition recency_decay (age_days : Q) (half_life_days : option Q) (domain : string) (config_windows : option (odict Z)) : Q :=
  if Qle_bool age_days 0 then 1
  else
    let half_life := default (inject_Z (get_recency_window domain config_windows)) half_life_days in
    if Qle_bool half_life 0 then 0 else clamp01 (half_life_decay half_life age_days).
End index.

(** ** Facts of the scoring model: the ranges of the scores, the research gate, its agreement
      with the gate of the confidence index, the best round. *)

(** ** Rational arithmetic *)

Lemma qlt_spec (a b : Q) : reflect (a < b) (qlt a b).
Proof.
  unfold qlt. destruct (Qle_bool b a) eqn:E; constructor.
  - apply Qle_bool_iff in E. lra.
  - apply Qnot_le_lt. intros ?%Qle_bool_iff. congruence.
Qed.

Lemma qle_spec (a b : Q) : reflect (a <= b) (Qle_bool a b).
Proof. destruct (Qle_bool a b) eqn:E; constructor; rewrite <- Qle_bool_iff; congruence. Qed.

Lemma qeq_spec (a b : Q) : reflect (a == b) (Qeq_bool a b).
Proof. destruct (Qeq_bool a b) eqn:E; constructor; rewrite <- Qeq_bool_iff; congruence. Qed.

(** Case analysis on the comparison of the goal. *)
Ltac qcase :=
  match goal with
  | |- context [qlt ?a ?b] => destruct (qlt_spec a b)
  | |- context [Qle_bool ?a ?b] => destruct (qle_spec a b)
  | |- context [Qeq_bool ?a ?b] => destruct (qeq_spec a b)
  end.

Lemma Qmax_branch (a b : Q) : (a <= b /\ Qmax a b == b) \/ (b <= a /\ Qmax a b == a).
Proof. destruct (Q.max_spec a b) as [[? ?] | [? ?]]; [left | right]; split; lra || auto. Qed.

Lemma Qmin_branch (a b : Q) : (a <= b /\ Qmin a b == a) \/ (b <= a /\ Qmin a b == b).
Proof. destruct (Q.min_spec a b) as [[? ?] | [? ?]]; [left | right]; split; lra || auto. Qed.

Lemma clamp01_range (x : Q) : 0 <= clamp01 x <= 1.
Proof. unfold clamp01. destruct (Qmin_branch 1 x) as [[? ->] | [? ->]]; destruct (Qmax_branch 0 1), (Qmax_branch 0 x); lra. Qed.

(** A floor in (0, 1] does not see the clamp. *)
Lemma clamp01_floor (f x : Q) : 0 < f -> f <= 1 -> f <= clamp01 x <-> f <= x.
Proof.
  intros. unfold clamp01. destruct (Qmin_branch 1 x) as [[? ->] | [? ->]].
  - destruct (Qmax_branch 0 1); lra.
  - destruct (Qmax_branch 0 x); lra.
Qed.

Lemma Qdiv_range (a b : Q) : 0 < b -> 0 <= a <= b -> 0 <= a / b <= 1.
Proof.
  intros Hb [Ha Hab]. split.
  - apply Qle_shift_div_l; lra.
  - apply Qle_shift_div_r; lra.
Qed.

Lemma fold_Qplus (l : list Q) : forall a, fold_left Qplus l a == a + qsum l.
Proof.
  unfold qsum. induction l as [| x l IH]; intros a; simpl; [lra |].
  rewrite IH, (IH (0 + x)). lra.
Qed.

Lemma qsum_cons (x : Q) (l : list Q) : qsum (x :: l) == x + qsum l.
Proof. unfold qsum at 1. simpl. rewrite fold_Qplus. lra. Qed.

Lemma qsum_nonneg (l : list Q) : Forall (Qle 0) l -> 0 <= qsum l.
Proof. induction 1; [unfold qsum; simpl; lra | rewrite qsum_cons; lra]. Qed.

(** ** Criterion aggregation *)

(** A criterion with a range and a weight that is not negative. *)
Definition sound_criterion (c : CriterionSpec) : Prop := cr_min_value c < cr_max_value c /\ 0 <= cr_weight c.

Lemma clamp_value_range (c : CriterionSpec) (v : Q) :
  cr_min_value c <= cr_max_value c -> cr_min_value c <= clamp_value c v <= cr_max_value c.
Proof.
  intros. unfold clamp_value. destruct (Qmin_branch (cr_max_value c) v) as [[? E] | [? E]]; rewrite E;
    destruct (Qmax_branch (cr_min_value c) (cr_max_value c)), (Qmax_branch (cr_min_value c) v); lra.
Qed.

Lemma normalized_range (c : CriterionSpec) (v : Q) : sound_criterion c -> 0 <= normalized c (clamp_value c v) <= 1.
Proof.
  intros [Hr _]. unfold normalized. qcase; [| lra].
  pose proof (clamp_value_range c v ltac:(lra)). apply Qdiv_range; lra.
Qed.

Lemma weighted_part (w n : Q) : 0 <= w -> 0 <= n <= 1 -> 0 <= w * n <= w.
Proof. intros. nra. Qed.

Lemma score_step_bounds (values : odict Q) (criteria : list CriterionSpec) :
  Forall sound_criterion criteria ->
  forall w r scores missing,
  let '(w', r', _, _) := fold_left (score_step values) criteria (w, r, scores, missing) in
  w <= w' <= w + qsum (cr_weight <$> criteria) /\ r <= r' <= r + inject_Z (Z.of_nat (length criteria)).
Proof.
  induction 1 as [| c criteria Hc _ IH]; intros w r scores missing; [cbn; change (inject_Z (Z.of_nat 0)) with 0; unfold qsum; simpl; lra |].
  assert (Hn : inject_Z (Z.of_nat (length (c :: criteria))) == 1 + inject_Z (Z.of_nat (length criteria))).
  { simpl length. rewrite Nat2Z.inj_succ, <- Z.add_1_l, inject_Z_plus. reflexivity. }
  pose proof (qsum_cons (cr_weight c) (cr_weight <$> criteria)) as Hs. rewrite fmap_cons. cbn [fold_left score_step].
  destruct (od_get (cr_name c) values) as [v |].
  - pose proof (normalized_range c v Hc) as Hv. pose proof (weighted_part _ _ (proj2 Hc) Hv).
    match goal with |- context [fold_left _ _ (?a, ?b, ?s, ?m)] => specialize (IH a b s m) end.
    destruct (fold_left _ _ _) as [[[w' r'] ?] ?]. lra.
  - match goal with |- context [fold_left _ _ (?a, ?b, ?s, ?m)] => specialize (IH a b s m) end.
    destruct Hc. destruct (fold_left _ _ _) as [[[w' r'] ?] ?]. lra.
Qed.

(**  Scores of criteria with ranges and weights of no negative sign are in [0, 1], whatever the values. *)
Lemma criterion_scores_bounded (criteria : list CriterionSpec) (values : odict Q) :
  Forall sound_criterion criteria ->
  let s := score_criterion_values criteria values in
  0 <= total_score s <= 1 /\ 0 <= weighted_score s <= 1.
Proof.
  intros Hc. unfold score_criterion_values.
  pose proof (score_step_bounds values criteria Hc 0 0 [] []) as H.
  destruct (fold_left _ _ _) as [[[w r] scores] missing]. destruct H as [Hw Hr]. simpl. split.
  - destruct criteria as [| c l]; [lra |]. apply Qdiv_range; [| lra].
    change 0 with (inject_Z 0). rewrite <- Zlt_Qlt. simpl. lia.
  - qcase; [| lra]. apply Qdiv_range; lra.
Qed.

Lemma od_mem_get {A} (k : string) (d : odict A) :
  od_mem k d = match od_get k d with Some _ => true | None => false end.
Proof.
  destruct (od_mem k d) eqn:E; [by apply od_mem_spec in E as [x ->] |].
  destruct (od_get k d) eqn:G; [| done]. rewrite <- E. exact (proj2 (od_mem_spec k d) ltac:(by rewrite G)).
Qed.

(** Every criterion without a value is reported, in order, and no other: the same list as [validate_results]. *)
Lemma missing_reported (criteria : list CriterionSpec) (values : odict Q) :
  missing_criteria (score_criterion_values criteria values) = validate_results criteria values.
Proof.
  assert (H : forall w r scores missing,
    (fold_left (score_step values) criteria (w, r, scores, missing)).2 = missing ++ validate_results criteria values).
  { induction criteria as [| c criteria IH]; intros; simpl; [by rewrite app_nil_r |].
    unfold validate_results in *. rewrite fmap_cons, filter_cons, od_mem_get.
    destruct (od_get (cr_name c) values); simpl; rewrite IH; simpl; [done | by rewrite <- app_assoc]. }
  unfold score_criterion_values. specialize (H 0 0 [] []).
  destruct (fold_left _ _ _) as [[[w r] scores] missing]. exact H.
Qed.

(** ** The gate *)

(** The raw score of a dimension: 0 when there is none. *)
Definition score_of (scores : odict Q) (d : string) : Q := default 0 (od_get d scores).

Lemma default_thresholds (d : string) : default default_floors (od_get d SCORE_THRESHOLDS) = default_floors.
Proof. unfold SCORE_THRESHOLDS, RESEARCH_DIMENSIONS. simpl. by repeat case_decide. Qed.

(** With the default floors a tier is High or better exactly at 3/4 and above. *)
Lemma high_tier (d : string) (score : Q) :
  meets_minimum (classify_dimension d score SCORE_THRESHOLDS) HIGH = Qle_bool (3 # 4) score.
Proof. unfold classify_dimension. rewrite default_thresholds. simpl. repeat qcase; try done; lra. Qed.

Lemma dimensions_high (scores : odict Q) rs cc ms reg tw :
  all_dimensions_high (evaluate_research_round scores rs cc ms reg tw None) =
  forallb (fun d => Qle_bool (3 # 4) (clamp01 (score_of scores d))) RESEARCH_DIMENSIONS.
Proof.
  unfold all_dimensions_high, evaluate_research_round. change (od_update SCORE_THRESHOLDS (default [] None)) with SCORE_THRESHOLDS.
  cbn [mg_dimensions]. generalize RESEARCH_DIMENSIONS. induction l as [| d l IH]; [done |]. rewrite fmap_cons.
  cbn [forallb]. rewrite IH. f_equal. cbn [dr_gate_passed]. apply high_tier.
Qed.

Lemma clamped_floor (x : Q) : Qle_bool (3 # 4) (clamp01 x) = Qle_bool (3 # 4) x.
Proof. pose proof (clamp01_floor (3 # 4) x ltac:(lra) ltac:(lra)) as [? ?]. do 2 qcase; tauto. Qed.

(** The gate is non-compensatory: it passes exactly when each dimension on its own reaches 3/4, there
    are enough recent sources, no critical contradiction and no regression; no weight and no other
    score makes up for one that fails. *)
Lemma gate_noncompensatory (scores : odict Q) rs cc ms reg tw :
  gate_passed (evaluate_research_round scores rs cc ms reg tw None) = true <->
  (forall d, In d RESEARCH_DIMENSIONS -> 3 # 4 <= score_of scores d) /\ (ms <= rs)%Z /\ cc = 0%Z /\ reg = false.
Proof.
  unfold gate_passed. rewrite dimensions_high, !andb_true_iff, negb_true_iff, forallb_forall.
  setoid_rewrite clamped_floor. setoid_rewrite Qle_bool_iff.
  unfold sources_floor_passed, no_critical_contradictions. simpl. rewrite Z.leb_le, Z.eqb_eq. tauto.
Qed.

Lemma low_dimensions_none (scores : odict Q) (f : Q) (l : list string) :
  bool_decide (filter (fun d => qlt (clamp01 (default 0 (od_get d scores))) f = true) l = []) =
  forallb (fun d => Qle_bool f (clamp01 (score_of scores d))) l.
Proof.
  induction l as [| d l IH]; [done |]. rewrite filter_cons. simpl. rewrite <- IH. unfold score_of, qlt.
  destruct (Qle_bool f (clamp01 (default 0 (od_get d scores)))); done.
Qed.

(**  The gate of [ci_calculator.check_gate] at its default threshold and the gate of
    [evaluate_research_round] decide the same, for every score and weight, when the regression flag
    of the second is the regression the first computes. *)
Lemma gates_agree (scores : odict Q) rs cc ms tw (prev cur : option Q) :
  let g := check_gate scores (3 # 4) rs ms cc prev cur in
  let r := evaluate_research_round scores rs cc ms (negb (cg_no_regression g)) tw None in
  cg_passed g = gate_passed r /\
  cg_all_dimensions_high g = all_dimensions_high r /\
  (cg_all_dimensions_high g = true <-> failed_dimensions r = []).
Proof.
  cbv zeta. unfold gate_passed. rewrite dimensions_high. unfold check_gate.
  cbn [cg_passed cg_all_dimensions_high cg_no_regression]. rewrite !low_dimensions_none.
  split_and!; [by cbn; rewrite negb_involutive | done |].
  rewrite <- (dimensions_high scores rs cc ms false tw). unfold failed_dimensions, all_dimensions_high. simpl.
  by repeat match goal with |- context [meets_minimum ?t ?m] => destruct (meets_minimum t m) end.
Qed.

(** ** The best round *)

(** A key at least as good: a passing gate first, then the greater index, then the earlier round. *)
Definition dominates (k k' : RoundKey) : Prop :=
  (rk_gate k' = true -> rk_gate k = true) /\
  (rk_gate k' = rk_gate k -> rk_ci k' <= rk_ci k) /\
  (rk_gate k' = rk_gate k -> rk_ci k' == rk_ci k -> (rk_index k <= rk_index k')%nat).

Lemma beats_dominates (k k' : RoundKey) : if beats k' k then dominates k' k else dominates k k'.
Proof.
  destruct k as [g c i], k' as [g' c' i']. unfold beats, dominates.
  cbn [rk_gate rk_ci rk_index]. destruct g, g'; cbn [Bool.eqb]; try (split_and!; intros; done);
    destruct (qeq_spec c' c), (qlt_spec c c'), (Nat.ltb_spec i' i); split_and!; intros; try done; lra || lia.
Qed.

Lemma dominates_trans (a b c : RoundKey) : dominates a b -> dominates b c -> dominates a c.
Proof.
  destruct a as [ga ca ia], b as [gb cb ib], c as [gc cc ic]. unfold dominates. cbn [rk_gate rk_ci rk_index].
  intros (H1 & H2 & H3) (G1 & G2 & G3). split_and!; [tauto | |]; intros E.
  - destruct ga, gb, gc; try done; try (specialize (H1 eq_refl); done); try (specialize (G1 eq_refl); done);
      specialize (H2 eq_refl); specialize (G2 eq_refl); lra.
  - intros Ec. destruct ga, gb, gc; try done; try (specialize (H1 eq_refl); done); try (specialize (G1 eq_refl); done);
      specialize (H2 eq_refl); specialize (G2 eq_refl);
      specialize (H3 eq_refl ltac:(lra)); specialize (G3 eq_refl ltac:(lra)); lia.
Qed.

Lemma dominates_refl (k : RoundKey) : dominates k k.
Proof. unfold dominates. split_and!; intros; try done; lra. Qed.

Lemma best_dominates (l : list (odict pyval * RoundKey)) : forall x,
  In (fold_left best_of l x) (x :: l) /\ (forall y, In y (x :: l) -> dominates (fold_left best_of l x).2 y.2).
Proof.
  induction l as [| y l IH]; intros x; simpl.
  { split; [by left |]. intros z [-> | []]. apply dominates_refl. }
  destruct (IH (best_of x y)) as [Hin Hdom].
  pose proof (beats_dominates x.2 y.2) as Hb. unfold best_of in *. split.
  - destruct Hin as [<- | Hin]; [| tauto]. destruct (beats y.2 x.2); tauto.
  - intros z [-> | [-> | Hz]]; [| | apply Hdom; by right];
      (eapply dominates_trans; [apply Hdom; by left |]; destruct (beats _ _); [try done | try done]; apply dominates_refl).
Qed.

(** The rounds' keys, when every round's confidence converts. *)
Lemma indexed_spec (rounds : list pyval) : forall i,
  (forall j d, rounds !! j = Some (VDict d) -> exists k, round_sort_key d (i + j) = Ok k) ->
  exists l, indexed i rounds = Ok l /\
    (forall d k, In (d, k) l <-> exists j, rounds !! j = Some (VDict d) /\ round_sort_key d (i + j) = Ok k).
Proof.
  induction rounds as [| v rounds IH]; intros i H.
  { exists []. split; [done |]. intros. split; [intros [] | intros (j & Hj & _); done]. }
  destruct (IH (S i)) as (l & Hl & Hspec).
  { intros j d Hj. destruct (H (S j) d Hj) as [k Hk]. exists k. by rewrite <- Nat.add_succ_comm in Hk. }
  assert (Hrest : forall d k, In (d, k) l <-> exists j, (v :: rounds) !! (S j) = Some (VDict d) /\ round_sort_key d (i + S j) = Ok k).
  { intros d k. rewrite Hspec. by setoid_rewrite Nat.add_succ_comm. }
  assert (Hv : (exists d, v = VDict d) \/ (forall d, v <> VDict d)) by (destruct v; eauto; by right).
  destruct Hv as [[d ->] | Hv].
  - destruct (H 0%nat d eq_refl) as [k Hk]. rewrite Nat.add_0_r in Hk.
    exists ((d, k) :: l). split; [simpl; rewrite Hk; simpl; by rewrite Hl |]. intros d' k'. simpl In. rewrite Hrest. split.
    + intros [[= -> ->] | (j & ?)]; [exists 0%nat; by rewrite Nat.add_0_r | by exists (S j)].
    + intros ([| j] & Hj & Hk'); [| right; by exists j]. left. rewrite Nat.add_0_r in Hk'. simplify_eq/=. congruence.
  - exists l. split; [destruct v; try done; by destruct (Hv d) |]. intros d' k'. rewrite Hrest. split.
    + intros (j & ?). by exists (S j).
    + intros ([| j] & Hj & Hk'); [| by exists j]. simplify_eq/=. by destruct (Hv d').
Qed.

(** A round the stop gate reported always has a key, in either engine. *)
Lemma stop_gate_keyed now outs config ms reg d (i : nat) :
  research_stop_gate now outs config ms reg = Ok d -> exists k, round_sort_key d i = Ok k.
Proof.
  unfold research_stop_gate. intros (active & _ & H)%res_bind_ok.
  destruct active; [injection H as <- | apply res_bind_ok in H as (raw & _ & H); apply res_bind_ok in H as (m & _ & [= <-])];
    eexists; reflexivity.
Qed.

Lemma score_of_outputs (f : string -> Q) (d : string) :
  In d RESEARCH_DIMENSIONS -> score_of ((fun d => (d, f d)) <$> RESEARCH_DIMENSIONS) d = f d.
Proof. simpl. intros Hd. decompose [or] Hd; subst; try done. Qed.

(**  With the multidimensional engine on, the stop gate answers, whatever the step put out, and
    lets a round pass exactly when each of the five scores on its own is at least 3/4, the recent
    sources reach the floor, no critical contradiction is left and there was no regression. *)
Theorem stop_gate_noncompensatory now (outs config : odict pyval) ms reg
    (Hon : is_multidimensional_engine_active config = Ok true) :
  exists d, research_stop_gate now outs config ms reg = Ok d /\
    (od_get "gate_passed" d = Some (VBool true) <->
     (forall dim, In dim RESEARCH_DIMENSIONS -> 3 # 4 <= get_float (dim +:+ "_score") outs) /\
     (ms <= get_int "recent_source_count" outs)%Z /\ get_int "critical_contradictions" outs = 0%Z /\ reg = false).
Proof.
  unfold research_stop_gate. rewrite Hon. simpl. eexists. split; [done |].
  cbn [od_get gate_to_dict]. unfold evaluate_research_round_from_step_outputs.
  match goal with |- context [evaluate_research_round ?s ?a ?b ?c ?d ?e ?f] =>
    pose proof (gate_noncompensatory s a b c d e) as Hg end.
  transitivity (gate_passed (evaluate_research_round
    ((fun d => (d, get_float (d +:+ "_score") outs)) <$> RESEARCH_DIMENSIONS)
    (get_int "recent_source_count" outs) (get_int "critical_contradictions" outs) ms reg None None) = true).
  { simpl. split; [by intros [=] | by intros ->]. }
  rewrite Hg. split; intros [H1 H2]; (split; [| done]); intros dim Hd.
  - by rewrite <- (score_of_outputs (fun d => get_float (d +:+ "_score") outs) dim Hd); apply H1.
  - by rewrite (score_of_outputs (fun d => get_float (d +:+ "_score") outs) dim Hd); apply H1.
Qed.

(**  Of the rounds' results the best one is returned: a passing round before a failing one, then the
    higher confidence, then the earlier round; [None] only when no entry is a result; no exception
    when every confidence is a number. *)
Theorem best_round_selected (rounds : list pyval) :
  (forall j d, rounds !! j = Some (VDict d) -> exists k, round_sort_key d j = Ok k) ->
  match coalesce_best_round rounds with
  | Raise _ => False
  | Ok None => forall j d, rounds !! j <> Some (VDict d)
  | Ok (Some d) => exists i k, rounds !! i = Some (VDict d) /\ round_sort_key d i = Ok k /\
      forall j d' k', rounds !! j = Some (VDict d') -> round_sort_key d' j = Ok k' -> dominates k k'
  end.
Proof.
  intros H. destruct (indexed_spec rounds 0 H) as (l & Hl & Hspec). cbn [Nat.add] in Hspec.
  unfold coalesce_best_round. rewrite Hl. destruct l as [| x l]; simpl.
  - intros j d Hj. destruct (H j d Hj) as [k Hk]. apply (Hspec d k). eauto.
  - destruct (best_dominates l x) as [Hin Hdom]. destruct (fold_left best_of l x) as [d k].
    destruct (proj1 (Hspec d k) Hin) as (i & Hi & Hk). exists i, k. split_and!; [done | done |].
    intros j d' k' Hj Hk'. apply (Hdom (d', k')). apply Hspec. eauto.
Qed.

(** ** Witnesses *)

Definition demo_config (engine : string) : odict pyval :=
  [("evaluation", VDict [("deep_research", VDict [("scoring_engine", VStr engine)])])].
Definition demo_outputs (coverage : Q) : odict pyval :=
  [("coverage_score", vfloat coverage); ("source_quality_score", VStr "0.8"); ("agreement_score", VInt 1);
   ("verification_score", vfloat (3 # 4)); ("recency_score", vfloat (9 # 10)); ("recent_source_count", VInt 12);
   ("critical_contradictions", VInt 0); ("ci_score", vfloat (9 # 10))].

Lemma stop_gate_noncompensatory_witness :
  is_multidimensional_engine_active (demo_config " Multidimensional ") = Ok true /\
  exists d, research_stop_gate "now" (demo_outputs (4 # 5)) (demo_config " Multidimensional ") 10 false = Ok d /\
    od_get "gate_passed" d = Some (VBool true).
Proof.
  split; [reflexivity |].
  destruct (stop_gate_noncompensatory "now" (demo_outputs (4 # 5)) (demo_config " Multidimensional ") 10 false eq_refl)
    as (d & Hd & Hgate).
  exists d. split; [exact Hd |]. apply Hgate. split.
  - intros dim Hdim. simpl in Hdim. decompose [or] Hdim; subst; try done; vm_compute; discriminate.
  - split; [vm_compute; discriminate | split; reflexivity].
Defined.

(** A perfect average does not pass a round that lacks one dimension; the legacy engine lets it pass. *)
Example compensation_refused :
  (d ← research_stop_gate "now" (demo_outputs (1 # 2)) (demo_config "multidimensional") 10 false; Ok (od_get "gate_passed" d)) =
    Ok (Some (VBool false)) /\
  (d ← research_stop_gate "now" (demo_outputs (1 # 2)) (demo_config "legacy") 10 false; Ok (od_get "gate_passed" d)) =
    Ok (Some (VBool true)).
Proof. split; vm_compute; reflexivity. Qed.

Definition demo_round (passed : bool) (ci : Q) : odict pyval := [("gate_passed", VBool passed); ("ci_score", vfloat ci)].
Definition demo_rounds : list pyval :=
  [VNone; VDict (demo_round false (9 # 10)); VDict (demo_round true (3 # 5)); VDict (demo_round true (3 # 5))].

Lemma best_round_selected_witness :
  coalesce_best_round demo_rounds = Ok (Some (demo_round true (3 # 5))) /\
  exists i k, demo_rounds !! i = Some (VDict (demo_round true (3 # 5))) /\ round_sort_key (demo_round true (3 # 5)) i = Ok k /\
    forall j d' k', demo_rounds !! j = Some (VDict d') -> round_sort_key d' j = Ok k' -> dominates k k'.
Proof.
  assert (H : forall j d, demo_rounds !! j = Some (VDict d) -> exists k, round_sort_key d j = Ok k).
  { intros j d Hj. do 4 (destruct j as [| j]; [simplify_eq/=; eexists; reflexivity |]). done. }
  split; [vm_compute; reflexivity |]. exact (best_round_selected demo_rounds H).
Defined.

Definition demo_criteria : list CriterionSpec :=
  [mkCriterion "accuracy" (3 # 4) 0 5; mkCriterion "style" (1 # 4) 1 5; mkCriterion "tests" 1 0 1].

Lemma criterion_scores_bounded_witness :
  Forall sound_criterion demo_criteria /\
  let s := score_criterion_values demo_criteria [("accuracy", 17 # 2); ("style", 2)] in
  0 <= total_score s <= 1 /\ 0 <= weighted_score s <= 1.
Proof.
  assert (H : Forall sound_criterion demo_criteria).
  { repeat constructor; simpl; lra. }
  split; [exact H |]. apply (criterion_scores_bounded demo_criteria _ H).
Defined.
