(* ===== verification/Memory.v ===== *)
(** * Conversation memory (agents/memory.py)

    The sliding window of an agent: messages are objects with an identity, old ones are
    folded into summaries, the case facts outlive every trim, and the whole state goes
    through a crash-recovery manifest.  [datetime], its ISO format and [repr] are the
    interface [MemoryEnv]. *)

From stdpp Require Import pretty sorting.
From Stdlib Require Import Qcanon.
From S2P Require Import Prelude PyStr PyVal Expressions Step Checkpoint.
Local Open Scope Z_scope.

Class MemoryEnv := {
  Time : Type;
  Time_eq_dec :: EqDecision Time;
  isoformat : Time -> string;
  fromisoformat : string -> option Time;
  repr : pyval -> string;
  float_repr : Qc -> string;
}.

(** A parsed ISO timestamp is the one printed. *)
Class MemoryLaws `{MemoryEnv} : Prop := { fromisoformat_isoformat t : fromisoformat (isoformat t) = Some t }.

Section memory.
Context `{MemoryEnv}.

Definition newline : string := String "010"%char EmptyString.

(** [v or d] for a value that may be missing. *)
Definition or_else (v : option pyval) (d : pyval) : pyval :=
  match v with Some x => if truthy x then x else d | None => d end.

(** A stored timestamp, the clock's when it is not a string. *)
Definition parse_time (raw : option pyval) (now : Time) : res Time :=
  match raw with
  | Some (VStr s) => match fromisoformat s with Some t => Ok t | None => Raise (ValueError "Invalid isoformat string") end
  | _ => Ok now
  end.

(** [dict(v)], [list(v)], [tuple(v)].  Items that are not strings are outside the model. *)
Definition dict_of (v : pyval) : res (odict pyval) :=
  let '(d, r) := metadata_update [] v in r ≫= fun _ => Ok d.
Fixpoint strings_in (l : list pyval) : res (list string) :=
  match l with
  | [] => Ok []
  | VStr s :: l' => strings_in l' ≫= fun r => Ok (s :: r)
  | _ :: _ => Raise (TypeError "expected a string")
  end.
Definition string_list (v : pyval) : res (list string) :=
  match v with
  | VList l | VTuple l => strings_in l
  | VDict d => Ok d.*1
  | VStr s => Ok ((fun c => String c EmptyString) <$> chars s)
  | _ => Raise (TypeError "object is not iterable")
  end.

(** ** Messages *)

Record ConversationMessage := mkMessage {
  cm_role : string;
  cm_content : string;
  cm_timestamp : Time;
  cm_tool_call_id : option string;
  cm_tool_name : option string;
  cm_metadata : odict pyval;
}.

(** [==] of the dataclass. *)
Definition message_eq (a b : ConversationMessage) : bool :=
  bool_decide (cm_role a = cm_role b) && bool_decide (cm_content a = cm_content b) &&
  bool_decide (cm_timestamp a = cm_timestamp b) && bool_decide (cm_tool_call_id a = cm_tool_call_id b) &&
  bool_decide (cm_tool_name a = cm_tool_name b) &&
  py_eq (embed (VDict (cm_metadata a))) (embed (VDict (cm_metadata b))).

(** [if s] for an optional string. *)
Definition given (s : option string) : bool := match s with Some (String _ _) => true | _ => false end.

Definition message_to_dict (m : ConversationMessage) : odict pyval :=
  [("role", VStr (cm_role m)); ("content", VStr (cm_content m))] ++
  (if given (cm_tool_call_id m) then [("tool_call_id", str_or_none (cm_tool_call_id m))] else []) ++
  (if given (cm_tool_name m) && bool_decide (cm_role m = "tool") then [("name", str_or_none (cm_tool_name m))] else []).

Definition message_to_manifest (m : ConversationMessage) : pyval :=
  VDict [("role", VStr (cm_role m)); ("content", VStr (cm_content m)); ("timestamp", VStr (isoformat (cm_timestamp m)));
         ("tool_call_id", str_or_none (cm_tool_call_id m)); ("tool_name", str_or_none (cm_tool_name m));
         ("metadata", VDict (cm_metadata m))].

(** [data.get(k)], a string or nothing; other values are outside the model. *)
Definition optional_string (k : string) (data : odict pyval) : res (option string) :=
  match od_get k data with
  | None | Some VNone => Ok None
  | Some (VStr s) => Ok (Some s)
  | Some _ => Raise (TypeError "expected a string")
  end.

Definition message_from_manifest (now : Time) (data : odict pyval) : res ConversationMessage :=
  timestamp ← parse_time (od_get "timestamp" data) now;
  match od_get "role" data with
  | None => Raise (KeyError "role")
  | Some role =>
      call_id ← optional_string "tool_call_id" data;
      name ← optional_string "tool_name" data;
      metadata ← dict_of (or_else (od_get "metadata" data) (VDict []));
      Ok (mkMessage (str_of repr role) (str_of repr (default (VStr "") (od_get "content" data))) timestamp call_id name metadata)
  end.

(** ** Case facts *)

Record CaseFacts := mkFacts {
  findings : list string;
  key_numbers : odict pyval;
  key_dates : odict pyval;
  open_questions : list string;
  updated_at : Time;
}.

Definition empty_facts (now : Time) : CaseFacts := mkFacts [] [] [] [] now.
Definition is_empty (f : CaseFacts) : bool :=
  bool_decide (findings f = []) && bool_decide (key_numbers f = []) && bool_decide (key_dates f = []) &&
  bool_decide (open_questions f = []).

Definition with_finding (now : Time) (finding : string) (f : CaseFacts) : CaseFacts :=
  let finding := strip finding in
  if bool_decide (finding = "") || bool_decide (finding ∈ findings f) then f
  else mkFacts (findings f ++ [finding]) (key_numbers f) (key_dates f) (open_questions f) now.
Definition with_number (now : Time) (name : string) (value : pyval) (f : CaseFacts) : CaseFacts :=
  mkFacts (findings f) (od_set name value (key_numbers f)) (key_dates f) (open_questions f) now.
Definition with_date (now : Time) (name value : string) (f : CaseFacts) : CaseFacts :=
  mkFacts (findings f) (key_numbers f) (od_set name (VStr value) (key_dates f)) (open_questions f) now.
Definition with_open_question (now : Time) (question : string) (f : CaseFacts) : CaseFacts :=
  let question := strip question in
  if bool_decide (question = "") || bool_decide (question ∈ open_questions f) then f
  else mkFacts (findings f) (key_numbers f) (key_dates f) (open_questions f ++ [question]) now.
Definition resolve_question (now : Time) (question : string) (f : CaseFacts) : CaseFacts :=
  if bool_decide (question ∉ open_questions f) then f
  else mkFacts (findings f) (key_numbers f) (key_dates f) (filter (fun q => q ≠ question) (open_questions f)) now.

Definition item (s : string) : string := "  - " +:+ s.
Definition entry (kv : string * pyval) : string := item (kv.1 +:+ ": " +:+ str_of repr kv.2).
Definition section (title : string) (lines : list string) : list string :=
  match lines with [] => [] | _ => title :: lines end.

Definition render_facts (f : CaseFacts) : string :=
  join newline (["CASE FACTS (durable; do not discard):"] ++ section "Findings:" (item <$> findings f) ++
    section "Key numbers:" (entry <$> key_numbers f) ++ section "Key dates:" (entry <$> key_dates f) ++
    section "Open questions:" (item <$> open_questions f)).

Definition facts_to_manifest (f : CaseFacts) : odict pyval :=
  [("findings", VList (VStr <$> findings f)); ("key_numbers", VDict (key_numbers f)); ("key_dates", VDict (key_dates f));
   ("open_questions", VList (VStr <$> open_questions f)); ("updated_at", VStr (isoformat (updated_at f)))].

Definition facts_from_manifest (now : Time) (data : odict pyval) : res CaseFacts :=
  updated ← parse_time (od_get "updated_at" data) now;
  found ← string_list (or_else (od_get "findings" data) (VTuple []));
  numbers ← dict_of (or_else (od_get "key_numbers" data) (VDict []));
  dates ← dict_of (or_else (od_get "key_dates" data) (VDict []));
  questions ← string_list (or_else (od_get "open_questions" data) (VTuple []));
  Ok (mkFacts found numbers dates questions updated).

(** ** Field reduction *)

Record FieldReductionResult := mkReduction { kept : odict pyval; dropped_count : Z; dropped_fields : list string }.

Definition reduce_tool_result (result : odict pyval) (allowlist : list string) : FieldReductionResult :=
  let dropped := merge_sort (fun a b => String.leb a b = true) (filter (fun k => k ∉ allowlist) result.*1) in
  mkReduction (filter (fun kv => kv.1 ∈ allowlist) result) (Z.of_nat (length dropped)) dropped.

Definition render_reduction (r : FieldReductionResult) (tool_name : string) : string :=
  let label := match tool_name with EmptyString => "result" | _ => tool_name +:+ " result" end in
  let body := json_dumps float_repr (sort_keys (VDict (kept r))) in
  if dropped_count r <=? 0 then body
  else "[" +:+ label +:+ ": reduced to " +:+ pretty (length (kept r)) +:+ " field(s); dropped " +:+ pretty (dropped_count r) +:+
       " verbose field(s)]" +:+ newline +:+ body.

(** ** The buffer *)

(** A message object: its identity and its value. *)
Record Cell := mkCell { cell_id : nat; cell : ConversationMessage }.

Record ConversationMemory := mkMemory {
  messages : list Cell;
  max_messages : Z;
  max_tokens : Z;
  summaries : list string;
  max_summaries : Z;
  (** [None] of a call: the counter raised, or its answer is no number. *)
  token_counter : option (string -> option Z);
  case_facts : CaseFacts;
  (** The identity of the next object. *)
  next_id : nat;
}.

Definition set_window (msgs : list Cell) (sums : list string) (m : ConversationMemory) : ConversationMemory :=
  mkMemory msgs (max_messages m) (max_tokens m) sums (max_summaries m) (token_counter m) (case_facts m) (next_id m).

Definition estimate_tokens (counter : option (string -> option Z)) (text : string) : Z :=
  match text with
  | EmptyString => 0
  | _ =>
      match counter ≫= (fun f => f text) with
      | Some n => Z.max 0 n
      | None => Z.max 1 (Z.of_nat (String.length text) / 4)
      end
  end.

Definition zsum (l : list Z) : Z := foldr Z.add 0 l.
Definition summary_tokens counter (sums : list string) : Z := zsum (estimate_tokens counter <$> sums).
Definition message_tokens counter (msgs : list Cell) : Z := zsum ((fun c => estimate_tokens counter (cm_content (cell c))) <$> msgs).
Definition total_tokens (m : ConversationMemory) : Z :=
  message_tokens (token_counter m) (messages m) + summary_tokens (token_counter m) (summaries m).

(** [l[-n:]] *)
Definition last_slice {A} (n : Z) (l : list A) : list A :=
  if n <=? 0 then drop (Z.to_nat (- n)) l else drop (length l - Z.to_nat n) l.

(** [text.split()] *)
Fixpoint split_words (l current : list Ascii.ascii) : list string :=
  let word := match current with [] => [] | _ => [of_chars (reverse current)] end in
  match l with
  | [] => word
  | c :: l' => if is_space c then word ++ split_words l' [] else split_words l' (c :: current)
  end.

Definition preview (text : string) : string :=
  let cleaned := join " " (split_words (chars text) []) in
  if (String.length cleaned <=? 160)%nat then cleaned else String.substring 0 157 cleaned +:+ "...".

Definition summary_line (m : ConversationMessage) : string :=
  if decide (cm_role m = "tool") then
    "tool(" +:+ (if given (cm_tool_name m) then default "" (cm_tool_name m) else "tool") +:+ "): " +:+ preview (cm_content m)
  else cm_role m +:+ ": " +:+ preview (cm_content m).

Definition build_summary (to_summarize : list Cell) : string :=
  match to_summarize with
  | [] => ""
  | _ =>
      let lines := (fun c => summary_line (cell c)) <$> to_summarize in
      let shown := take 30 lines in
      let omitted := (length lines - length shown)%nat in
      "[Summary of " +:+ pretty (length to_summarize) +:+ " messages]" +:+ newline +:+
      join newline (shown ++ if (0 <? omitted)%nat then ["... (" +:+ pretty omitted +:+ " more omitted) ..."] else [])
  end.

(** The loop of [_compact_summaries]: the oldest summaries go while the rest is over the budget. *)
Fixpoint drop_over counter (budget : Z) (sums : list string) : list string :=
  match sums with
  | [] => []
  | _ :: rest => if budget <? summary_tokens counter sums then drop_over counter budget rest else sums
  end.

Definition compact_summaries (m : ConversationMemory) : ConversationMemory :=
  let sums := if max_summaries m <? Z.of_nat (length (summaries m)) then last_slice (max_summaries m) (summaries m) else summaries m in
  set_window (messages m) (drop_over (token_counter m) (max_tokens m / 2) sums) m.

Definition append_summary (summary : string) (m : ConversationMemory) : ConversationMemory :=
  match summary with
  | EmptyString => m
  | _ => compact_summaries (set_window (messages m) (summaries m ++ [summary]) m)
  end.

Definition is_system (c : Cell) : Prop := cm_role (cell c) = "system".
#[global] Instance is_system_dec c : Decision (is_system c) := decide (_ = _).

(** The first system message of a list. *)
Definition first_system (msgs : list Cell) : option Cell := head (filter is_system msgs).

(** [x in recent]: the same object or an equal one. *)
Definition cell_in (x : Cell) (l : list Cell) : bool :=
  existsb (fun c => Nat.eqb (cell_id c) (cell_id x) || message_eq (cell c) (cell x)) l.

(** The loop that drops the objects already seen. *)
Fixpoint unique_cells (seen : list nat) (l : list Cell) : list Cell :=
  match l with
  | [] => []
  | c :: l' => if decide (cell_id c ∈ seen) then unique_cells seen l' else c :: unique_cells (cell_id c :: seen) l'
  end.

Definition split_window (recent msgs : list Cell) : list Cell * list Cell :=
  let core := match first_system msgs with Some s => if cell_in s recent then [] else [s] | None => [] end in
  let kept_unique := unique_cells [] (core ++ recent) in
  (kept_unique, filter (fun c => cell_id c ∉ cell_id <$> kept_unique) msgs).

Definition over_budget (m : ConversationMemory) : bool :=
  (max_messages m <? Z.of_nat (length (messages m))) || (max_tokens m <? total_tokens m).

(** [messages.pop(pop_index)]: the first message, the second when the first is a system message that is not alone. *)
Definition pop_oldest (msgs : list Cell) : option (Cell * list Cell) :=
  match msgs with
  | [] => None
  | s :: c :: rest => if decide (is_system s) then Some (c, s :: rest) else Some (s, c :: rest)
  | [s] => Some (s, [])
  end.

Fixpoint shed (fuel : nat) (m : ConversationMemory) (extra : list Cell) : ConversationMemory * list Cell :=
  match fuel with
  | O => (m, extra)
  | S fuel =>
      if over_budget m then
        match pop_oldest (messages m) with
        | Some (c, rest) => shed fuel (set_window rest (summaries m) m) (extra ++ [c])
        | None => (m, extra)
        end
      else (m, extra)
  end.

Definition summarize_and_trim (m : ConversationMemory) : ConversationMemory :=
  match messages m with
  | [] => m
  | msgs =>
      let '(kept_unique, to_summarize) := split_window (last_slice (Z.max 4 (max_messages m / 2)) msgs) msgs in
      let m1 := append_summary (build_summary to_summarize) (set_window kept_unique (summaries m) m) in
      let '(m2, extra) := shed (length (messages m1)) m1 [] in
      append_summary (build_summary extra) m2
  end.

Definition add (msg : ConversationMessage) (m : ConversationMemory) : ConversationMemory * ConversationMessage :=
  let m1 := mkMemory (messages m ++ [mkCell (next_id m) msg]) (max_messages m) (max_tokens m) (summaries m) (max_summaries m)
              (token_counter m) (case_facts m) (S (next_id m)) in
  (if over_budget m1 then summarize_and_trim m1 else m1, msg).

Definition add_user (now : Time) (content : string) := add (mkMessage "user" content now None None []).
Definition add_assistant (now : Time) (content : string) := add (mkMessage "assistant" content now None None []).
Definition add_system (now : Time) (content : string) := add (mkMessage "system" content now None None []).
Definition add_tool_result (now : Time) (tool_name result tool_call_id : string) :=
  add (mkMessage "tool" result now (Some tool_call_id) (Some tool_name) []).
Definition add_reduced_tool_result (now : Time) (tool_name : string) (result : odict pyval) (tool_call_id : string) (allowlist : list string) :=
  let r := reduce_tool_result result allowlist in
  add (mkMessage "tool" (render_reduction r tool_name) now (Some tool_call_id) (Some tool_name)
         [("reduced", VBool (0 <? dropped_count r));
          ("kept_fields", VList (VStr <$> merge_sort (fun a b => String.leb a b = true) (kept r).*1));
          ("dropped_count", VInt (dropped_count r)); ("dropped_fields", VList (VStr <$> dropped_fields r))]).

(** [record_finding] and the other updates of the facts. *)
Definition record_fact (update : CaseFacts -> CaseFacts) (m : ConversationMemory) : ConversationMemory :=
  mkMemory (messages m) (max_messages m) (max_tokens m) (summaries m) (max_summaries m) (token_counter m) (update (case_facts m)) (next_id m).

Definition system_block (content : string) : odict pyval := [("role", VStr "system"); ("content", VStr content)].

Definition get_messages (include_system : bool) (m : ConversationMemory) : list (odict pyval) :=
  (if is_empty (case_facts m) then [] else [system_block (render_facts (case_facts m))]) ++
  match summaries m with
  | [] => []
  | sums => [system_block ("Previous conversation summary:" +:+ newline +:+ join (newline +:+ newline) sums)]
  end ++
  ((fun c => message_to_dict (cell c)) <$> filter (fun c => include_system = true \/ ~ is_system c) (messages m)).

Definition compact (keep_recent : option Z) (m : ConversationMemory) : ConversationMemory * Z :=
  match messages m with
  | [] => (m, 0)
  | msgs =>
      let keep := Z.max 0 (default (Z.max 2 (max_messages m / 4)) keep_recent) in
      let recent := if keep =? 0 then [] else last_slice keep msgs in
      let '(kept_unique, to_summarize) := split_window recent msgs in
      match to_summarize with
      | [] => (m, 0)
      | _ => (append_summary (build_summary to_summarize) (set_window kept_unique (summaries m) m), Z.of_nat (length to_summarize))
      end
  end.

(** ** The manifest *)

Definition MANIFEST_VERSION : Z := 1.

Definition to_manifest (saved_at : Time) (m : ConversationMemory) : odict pyval :=
  [("version", VInt MANIFEST_VERSION); ("saved_at", VStr (isoformat saved_at));
   ("config", VDict [("max_messages", VInt (max_messages m)); ("max_tokens", VInt (max_tokens m)); ("max_summaries", VInt (max_summaries m))]);
   ("messages", VList ((fun c => message_to_manifest (cell c)) <$> messages m));
   ("summaries", VList (VStr <$> summaries m));
   ("case_facts", VDict (facts_to_manifest (case_facts m)))].

Definition int_or (v : option pyval) (d : Z) : res Z :=
  match v with
  | None => Ok d
  | Some x =>
      match py_int x, x with
      | Some z, _ => Ok z
      | None, VStr _ => Raise (ValueError "invalid literal for int()")
      | None, _ => Raise (TypeError "int() argument must be a string or a real number")
      end
  end.

(** The messages, new objects from identity [i] on. *)
Fixpoint load_messages (now : Time) (i : nat) (l : list pyval) : res (list Cell) :=
  match l with
  | [] => Ok []
  | VDict d :: rest => msg ← message_from_manifest now d; cells ← load_messages now (S i) rest; Ok (mkCell i msg :: cells)
  | _ :: _ => Raise (AttributeError "get")
  end.

Definition items_of (v : pyval) : res (list pyval) :=
  match v with
  | VList l | VTuple l => Ok l
  | VDict d => Ok (VStr <$> d.*1)
  | VStr s => Ok ((fun c => VStr (String c EmptyString)) <$> chars s)
  | _ => Raise (TypeError "object is not iterable")
  end.
Definition fields_of (v : pyval) : res (odict pyval) :=
  match v with VDict d => Ok d | _ => Raise (AttributeError "get") end.

Definition from_manifest (now : Time) (manifest : odict pyval) (counter : option (string -> option Z)) : res ConversationMemory :=
  if negb (py_eq (embed (default VNone (od_get "version" manifest))) (embed (VInt MANIFEST_VERSION)))
  then Raise (ValueError "Unsupported manifest version")
  else
    raw ← items_of (or_else (od_get "messages" manifest) (VList []));
    cells ← load_messages now 0 raw;
    config ← fields_of (or_else (od_get "config" manifest) (VDict []));
    messages_bound ← int_or (od_get "max_messages" config) 50;
    tokens_bound ← int_or (od_get "max_tokens" config) 8000;
    sums ← string_list (or_else (od_get "summaries" manifest) (VList []));
    summaries_bound ← int_or (od_get "max_summaries" config) 5;
    facts ← (fields_of (or_else (od_get "case_facts" manifest) (VDict [])) ≫= facts_from_manifest now);
    Ok (mkMemory cells messages_bound tokens_bound sums summaries_bound counter facts (length cells)).

(** [from_manifest_json] of the text [to_manifest_json] wrote. *)
Definition reload (saved_at now : Time) (m : ConversationMemory) (counter : option (string -> option Z)) : res ConversationMemory :=
  fields_of (json_roundtrip (VDict (to_manifest saved_at m))) ≫= fun d => from_manifest now d counter.

Definition clear (now : Time) (m : ConversationMemory) : ConversationMemory :=
  mkMemory [] (max_messages m) (max_tokens m) [] (max_summaries m) (token_counter m) (empty_facts now) (next_id m).

Definition last_message (m : ConversationMemory) : option ConversationMessage := cell <$> last (messages m).

End memory.
