(* ===== verification/MemoryFacts.v ===== *)
(** * Facts of the conversation memory: bounds of the window and of the summaries, what a
      trim keeps and folds, the system prompt, and the recovery from a manifest. *)

From stdpp Require Import pretty sorting.
From Stdlib Require Import Qcanon.
From S2P Require Import Prelude PyStr PyVal Expressions Step Checkpoint Memory.
Local Open Scope Z_scope.

Section facts.
Context `{MemoryEnv}.
Implicit Types (m : ConversationMemory) (c s : Cell) (msgs recent : list Cell).

(** ** Tokens *)

Lemma estimate_tokens_nonneg counter text : 0 <= estimate_tokens counter text.
Proof. unfold estimate_tokens. destruct text; [lia |]. destruct (counter ≫= _); lia. Qed.

Lemma zsum_nonneg (l : list Z) : Forall (Z.le 0) l -> 0 <= zsum l.
Proof. induction 1; simpl; lia. Qed.

Lemma summary_tokens_nonneg counter sums : 0 <= summary_tokens counter sums.
Proof. apply zsum_nonneg, Forall_fmap, Forall_true. intros. apply estimate_tokens_nonneg. Qed.

Lemma message_tokens_nonneg counter msgs : 0 <= message_tokens counter msgs.
Proof. apply zsum_nonneg, Forall_fmap, Forall_true. intros. apply estimate_tokens_nonneg. Qed.

(** ** Summaries *)

Lemma drop_over_suffix counter budget sums : exists pre, sums = pre ++ drop_over counter budget sums.
Proof.
  induction sums as [| x sums [pre IH]]; simpl; [by exists [] |].
  destruct (_ <? _); [exists (x :: pre); simpl; by f_equal | by exists []].
Qed.

Lemma drop_over_budget counter budget sums : 0 <= budget -> summary_tokens counter (drop_over counter budget sums) <= budget.
Proof.
  intros. induction sums as [| x sums IH]; [done |]. simpl drop_over.
  destruct (Z.ltb_spec budget (summary_tokens counter (x :: sums))); [done | lia].
Qed.

Lemma length_last_slice {A} (n : Z) (l : list A) : 0 < n -> Z.of_nat (length (last_slice n l)) = Z.min n (Z.of_nat (length l)).
Proof. intros. unfold last_slice. destruct (Z.leb_spec n 0); [lia |]. rewrite length_drop. lia. Qed.

Lemma last_slice_suffix {A} (n : Z) (l : list A) : exists pre, l = pre ++ last_slice n l.
Proof. unfold last_slice. destruct (_ <=? _); eexists; symmetry; apply take_drop. Qed.

(** Only the summaries change. *)
Lemma append_summary_window x m :
  append_summary x m = set_window (messages m) (summaries (append_summary x m)) m.
Proof. destruct m, x; reflexivity. Qed.

Lemma append_summary_messages x m : messages (append_summary x m) = messages m.
Proof. by rewrite append_summary_window. Qed.

(** It reads the summaries and the configuration only. *)
Lemma append_summary_set x msgs m : append_summary x (set_window msgs (summaries m) m) = set_window msgs (summaries (append_summary x m)) m.
Proof. destruct m, x; reflexivity. Qed.

Lemma set_window_append x msgs sums m : set_window msgs sums (append_summary x m) = set_window msgs sums m.
Proof. destruct m, x; reflexivity. Qed.

Lemma append_summary_tokens x m :
  0 <= max_tokens m -> x <> "" -> summary_tokens (token_counter m) (summaries (append_summary x m)) <= max_tokens m / 2.
Proof. intros Ht Hx. destruct x; [done |]. apply drop_over_budget. by apply Z.div_pos. Qed.

Lemma append_summary_length x m :
  0 < max_summaries m -> Z.of_nat (length (summaries m)) <= max_summaries m ->
  Z.of_nat (length (summaries (append_summary x m))) <= max_summaries m.
Proof.
  intros Hpos Hlen. destruct x as [| a x]; [done |].
  unfold append_summary, compact_summaries. cbn [set_window summaries max_summaries token_counter max_tokens].
  set (all := summaries m ++ [String a x]).
  set (sums := if max_summaries m <? Z.of_nat (length all) then last_slice (max_summaries m) all else all).
  assert (Hs : Z.of_nat (length sums) <= max_summaries m).
  { unfold sums. destruct (Z.ltb_spec (max_summaries m) (Z.of_nat (length all))); [| done]. rewrite length_last_slice by done. lia. }
  destruct (drop_over_suffix (token_counter m) (max_tokens m / 2) sums) as [pre Hpre].
  apply (f_equal length) in Hpre. rewrite length_app in Hpre. lia.
Qed.

Lemma build_summary_nonempty msgs : msgs <> [] -> build_summary msgs <> "".
Proof. by destruct msgs. Qed.

(** ** The window *)

Lemma unique_cells_NoDup msgs : forall seen,
  NoDup (cell_id <$> msgs) -> (forall c, c ∈ msgs -> cell_id c ∉ seen) -> unique_cells seen msgs = msgs.
Proof.
  induction msgs as [| c msgs IH]; intros seen Hnd Hs; [done |]. simpl. csimpl in Hnd. apply NoDup_cons in Hnd as [Hc Hnd].
  rewrite decide_False by (apply Hs; left). f_equal. apply IH; [done |].
  intros c' Hc'. apply not_elem_of_cons. split; [| apply Hs; by right].
  intros E. apply Hc. rewrite <- E. by apply list_elem_of_fmap_2.
Qed.

Lemma unique_cells_sublist msgs : forall seen, unique_cells seen msgs `sublist_of` msgs.
Proof. induction msgs as [| c msgs IH]; intros seen; simpl; [done |]. case_decide; [by apply sublist_cons | by apply sublist_skip]. Qed.

Lemma first_system_elem msgs s : first_system msgs = Some s -> s ∈ msgs /\ is_system s.
Proof.
  unfold first_system. intros Hs. assert (Hin : s ∈ filter is_system msgs) by (destruct (filter _ _); [done | simplify_eq/=; left]).
  apply list_elem_of_filter in Hin. tauto.
Qed.

Lemma first_system_app msgs recent :
  first_system (msgs ++ recent) = match first_system msgs with Some s => Some s | None => first_system recent end.
Proof. unfold first_system. rewrite filter_app. by destruct (filter is_system msgs). Qed.

Lemma cell_in_elem s msgs : s ∈ msgs -> cell_in s msgs = true.
Proof.
  intros Hin. apply existsb_exists. exists s. split; [by apply list_elem_of_In |]. by rewrite Nat.eqb_refl.
Qed.

Lemma filter_local {A} (P Q : A -> Prop) `{!forall x, Decision (P x), !forall x, Decision (Q x)} (l : list A) :
  (forall x, x ∈ l -> P x <-> Q x) -> filter P l = filter Q l.
Proof.
  induction l as [| x l IH]; intros Hl; [done |]. rewrite !filter_cons, IH by (intros; apply Hl; by right).
  pose proof (Hl x (list_elem_of_here _ _)). do 2 case_decide; tauto.
Qed.

Lemma sublist_full {A} (l k : list A) : l `sublist_of` k -> (length k <= length l)%nat -> l = k.
Proof.
  induction 1 as [| x l k Hs IH | x l k Hs IH]; simpl; intros; [done | f_equal; apply IH; lia |].
  apply sublist_length in Hs. lia.
Qed.

Lemma ids_sublist (kept all : list Cell) : kept `sublist_of` all -> (cell_id <$> kept) `sublist_of` (cell_id <$> all).
Proof. intros Hs. by rewrite Hs. Qed.

(** The objects of a window that are not among the kept ones are the rest of it. *)
Lemma kept_complement (kept all : list Cell) :
  kept `sublist_of` all -> NoDup (cell_id <$> all) ->
  all ≡ₚ kept ++ filter (fun c => cell_id c ∉ cell_id <$> kept) all.
Proof.
  induction 1 as [| x kept all Hsub IH | x kept all Hsub IH]; [done | |]; csimpl; intros [Hx Hnd]%NoDup_cons.
  - rewrite filter_cons_False by (intros Hn; apply Hn; left). f_equiv.
    rewrite (filter_local (fun c => cell_id c ∉ cell_id x :: (cell_id <$> kept)) (fun c => cell_id c ∉ cell_id <$> kept)); [by apply IH |].
    intros c Hc. rewrite not_elem_of_cons. split; [tauto |]. intros ?. split; [| done].
    intros E. apply Hx. rewrite <- E. by apply list_elem_of_fmap_2.
  - rewrite filter_cons_True.
    + rewrite <- Permutation_middle. f_equiv. by apply IH.
    + intros Hin. apply Hx. eapply elem_of_sublist; [exact Hin | by apply ids_sublist].
Qed.

(** What the trim keeps before the token budget: the recent suffix, preceded by the first system message
    when it is not in the suffix, nor equal to a message of it. *)
Lemma split_window_spec pre recent :
  NoDup (cell_id <$> (pre ++ recent)) ->
  exists core, (split_window recent (pre ++ recent)).1 = core ++ recent /\ core `sublist_of` pre /\
    core = match first_system (pre ++ recent) with Some s => if cell_in s recent then [] else [s] | None => [] end /\
    pre ++ recent ≡ₚ (split_window recent (pre ++ recent)).1 ++ (split_window recent (pre ++ recent)).2.
Proof.
  intros Hnd. unfold split_window. cbn [fst snd]. eexists. 
  set (core := match first_system (pre ++ recent) with Some s => _ | None => [] end).
  assert (Hcore : core `sublist_of` pre).
  { unfold core. destruct (first_system _) as [s|] eqn:Hs; [| by apply sublist_nil_l].
    destruct (cell_in s recent) eqn:Hin; [by apply sublist_nil_l |].
    apply first_system_elem in Hs as [[Hs | Hs]%elem_of_app _].
    - apply list_elem_of_split in Hs as (l1 & l2 & ->). apply sublist_inserts_l. apply sublist_skip, sublist_nil_l.
    - by rewrite cell_in_elem in Hin. }
  assert (Hsub : core ++ recent `sublist_of` pre ++ recent) by by apply sublist_app.
  assert (Hu : unique_cells [] (core ++ recent) = core ++ recent).
  { apply unique_cells_NoDup; [| intros; apply not_elem_of_nil].
    eapply sublist_NoDup; [done | by apply ids_sublist]. }
  split_and!; [exact Hu | exact Hcore | reflexivity |]. rewrite Hu.
  by apply kept_complement.
Qed.
(** ** Shedding *)

Lemma pop_oldest_spec msgs c rest :
  pop_oldest msgs = Some (c, rest) ->
  msgs ≡ₚ c :: rest /\ rest `sublist_of` msgs /\
  (forall s, first_system msgs = Some s -> rest = [] \/ first_system rest = Some s).
Proof.
  destruct msgs as [| x [| y msgs]]; simpl; [done | |].
  - intros [= -> <-]. split_and!; [done | by apply sublist_nil_l | by left].
  - destruct (decide (is_system x)) as [Hx | Hx]; intros [= -> <-].
    + split_and!; [constructor | by apply sublist_skip, sublist_cons | right].
      revert H0. unfold first_system. by rewrite !(filter_cons_True _ x).
    + split_and!; [done | by apply sublist_cons | right].
      revert H0. unfold first_system. by rewrite (filter_cons_False _ c).
Qed.

Lemma pop_oldest_nonempty msgs : msgs <> [] -> exists c rest, pop_oldest msgs = Some (c, rest).
Proof. destruct msgs as [| x [| y msgs]]; simpl; [done | eauto |]. case_decide; eauto. Qed.

(** With the length of the window as its fuel the loop ends within the budget or with an empty window;
    the messages it took and those it left are the window it had. *)
Lemma shed_spec fuel : forall m extra,
  (length (messages m) <= fuel)%nat ->
  exists msgs taken, shed fuel m extra = (set_window msgs (summaries m) m, extra ++ taken) /\
    messages m ≡ₚ taken ++ msgs /\ msgs `sublist_of` messages m /\
    (msgs = [] \/ over_budget (set_window msgs (summaries m) m) = false) /\
    (forall s, first_system (messages m) = Some s -> msgs = [] \/ first_system msgs = Some s).
Proof.
  induction fuel as [| fuel IH]; intros m extra Hlen.
  { exists [], []. assert (E : messages m = []) by (apply nil_length_inv; lia). rewrite app_nil_r, E. simpl.
    split_and!; try done; [destruct m; simpl in *; by subst | by left]. }
  simpl. destruct (over_budget m) eqn:Hover.
  2: { exists (messages m), []. rewrite app_nil_r. split_and!; [by destruct m | done | done | right; by destruct m | by right]. }
  destruct (decide (messages m = [])) as [E | Hne].
  { exists [], []. rewrite app_nil_r, E. split_and!; try done; [destruct m; simpl in *; by subst | by left]. }
  destruct (pop_oldest_nonempty _ Hne) as (c & rest & Hp). rewrite Hp.
  apply pop_oldest_spec in Hp as (Hperm & Hsub & Hsys).
  destruct (IH (set_window rest (summaries m) m) (extra ++ [c])) as (msgs & taken & Hs & Hperm' & Hsub' & Hover' & Hsys').
  { simpl. apply Permutation_length in Hperm. simpl in Hperm. lia. }
  exists msgs, (c :: taken). rewrite Hs. split_and!.
  - simpl. by rewrite <- app_assoc.
  - rewrite Hperm. simpl in *. by rewrite Hperm'.
  - etrans; eassumption.
  - exact Hover'.
  - intros s Hfs. destruct (Hsys s Hfs) as [-> | Hr]; [| by apply Hsys'].
    left. by apply sublist_nil_r in Hsub'.
Qed.

(** ** Trimming *)

(** No other message of the window equals this one. *)
Definition unmatched s msgs : Prop := forall c, c ∈ msgs -> message_eq (cell c) (cell s) = true -> c = s.

Lemma cell_in_unmatched s recent msgs :
  recent `sublist_of` msgs -> s ∈ msgs -> NoDup (cell_id <$> msgs) -> unmatched s msgs ->
  cell_in s recent = true -> s ∈ recent.
Proof.
  intros Hsub Hs Hnd Hun (c & Hc%list_elem_of_In & Heq)%existsb_exists.
  assert (Hcm : c ∈ msgs) by (eapply elem_of_sublist; eassumption).
  apply orb_true_iff in Heq as [E%Nat.eqb_eq | E]; [| by rewrite <- (Hun c Hcm E)].
  assert (c = s); [| by subst]. apply list_elem_of_lookup in Hcm as [i Hi], Hs as [j Hj].
  assert (i = j); [| by simplify_eq]. apply (NoDup_lookup _ i j (cell_id s) Hnd); rewrite list_lookup_fmap, ?Hi, ?Hj; simpl; congruence.
Qed.

(** The kept part of a window still begins its system messages with the first one. *)
Lemma core_first_system pre recent s :
  NoDup (cell_id <$> (pre ++ recent)) -> unmatched s (pre ++ recent) -> first_system (pre ++ recent) = Some s ->
  first_system ((if cell_in s recent then [] else [s]) ++ recent) = Some s.
Proof.
  intros Hnd Hun Hs. pose proof (first_system_elem _ _ Hs) as [Hin Hsys].
  destruct (cell_in s recent) eqn:Hc; simpl; [| unfold first_system; by rewrite filter_cons_True].
  assert (Hr : s ∈ recent) by (eapply cell_in_unmatched; [apply sublist_inserts_l | ..]; eassumption || done).
  rewrite first_system_app in Hs. destruct (first_system pre) as [s' |] eqn:Hpre; [| done]. simplify_eq.
  apply first_system_elem in Hpre as [Hp _]. rewrite fmap_app in Hnd. apply NoDup_app in Hnd as (_ & Hdis & _).
  exfalso. eapply Hdis; apply list_elem_of_fmap_2; eassumption.
Qed.

Lemma trim_spec m :
  messages m <> [] -> NoDup (cell_id <$> messages m) ->
  exists msgs folded extra, let m1 := append_summary (build_summary folded) m in
    summarize_and_trim m = set_window msgs (summaries (append_summary (build_summary extra) m1)) m /\
    messages m ≡ₚ msgs ++ folded ++ extra /\ msgs `sublist_of` messages m /\
    (msgs = [] /\ extra <> [] \/ over_budget (set_window msgs (summaries m1) m) = false) /\
    (forall s, first_system (messages m) = Some s -> unmatched s (messages m) -> msgs = [] \/ first_system msgs = Some s).
Proof.
  intros Hne Hnd. unfold summarize_and_trim. destruct (messages m) as [| c0 rest0] eqn:Hm; [done |]. rewrite <- Hm in *.
  destruct (last_slice_suffix (Z.max 4 (max_messages m / 2)) (messages m)) as [pre Hpre].
  pose proof (length_last_slice (Z.max 4 (max_messages m / 2)) (messages m) ltac:(lia)) as Hlen.
  set (recent := last_slice _ _) in *. rewrite Hpre in Hnd.
  destruct (split_window_spec pre recent Hnd) as (core & Hkept & Hcore & Ecore & Hperm). rewrite <- Hpre in *.
  destruct (split_window recent (messages m)) as [kept_unique folded]. cbn [fst snd] in *. subst kept_unique.
  rewrite append_summary_set. set (m1 := append_summary (build_summary folded) m). cbn [messages set_window].
  destruct (shed_spec (length (core ++ recent)) (set_window (core ++ recent) (summaries m1) m) []) as
    (msgs & extra & Hs & Hperm' & Hsub & Hover & Hsys); [done |].
  rewrite Hs. cbn [messages set_window summaries] in *. exists msgs, folded, extra. split_and!.
  - change (set_window msgs (summaries m1) _) with (set_window msgs (summaries m1) m). cbn [app].
    rewrite <- (set_window_append (build_summary folded) msgs), append_summary_set. apply set_window_append.
  - rewrite Hperm, Hperm'. solve_Permutation.
  - etrans; [exact Hsub |]. rewrite Hpre. by apply sublist_app.
  - destruct Hover as [-> | Hover]; [left | by right]. split; [done |]. intros ->.
    apply Permutation_nil in Hperm' || (symmetry in Hperm'; apply Permutation_nil in Hperm').
    apply app_eq_nil in Hperm' as [_ E]. rewrite E in Hlen. simpl in Hlen. destruct (messages m); [done | simpl in Hlen; lia].
  - intros s Hfs Hun. apply Hsys. rewrite Hfs in Ecore. rewrite Ecore. rewrite Hpre in *. by eapply core_first_system.
Qed.

(** ** The operations *)

(** The objects of a window are distinct, and the next one is new. *)
Definition objects_ok m : Prop := NoDup (cell_id <$> messages m) /\ Forall (fun c => (cell_id c < next_id m)%nat) (messages m).

Lemma objects_ok_sub m m' :
  objects_ok m -> messages m' `sublist_of` messages m -> next_id m' = next_id m -> objects_ok m'.
Proof.
  intros [Hnd Hlt] Hsub Hn. split; [eapply sublist_NoDup; [exact Hnd | by apply ids_sublist] |].
  rewrite Hn. rewrite Forall_forall in *. intros c Hc. apply Hlt. by eapply elem_of_sublist.
Qed.

(** The buffer [add] works on, before any trim. *)
Definition pushed (msg : ConversationMessage) m : ConversationMemory :=
  mkMemory (messages m ++ [mkCell (next_id m) msg]) (max_messages m) (max_tokens m) (summaries m) (max_summaries m)
    (token_counter m) (case_facts m) (S (next_id m)).

Lemma pushed_ok msg m : objects_ok m -> objects_ok (pushed msg m).
Proof.
  intros [Hnd Hlt]. split; simpl.
  - rewrite fmap_app. apply NoDup_app. split_and!; [done | | apply NoDup_singleton].
    intros i (c & Hi & Hc)%list_elem_of_fmap Hn%list_elem_of_singleton. rewrite Forall_forall in Hlt. specialize (Hlt c Hc).
    simpl in *. lia.
  - apply Forall_app. split; [| apply Forall_singleton; simpl; lia]. eapply Forall_impl; [exact Hlt |]. simpl. lia.
Qed.

Lemma pushed_nonempty msg m : messages (pushed msg m) <> [].
Proof. simpl. by destruct (messages m). Qed.

Lemma add_cases msg m :
  (add msg m).1 = if over_budget (pushed msg m) then summarize_and_trim (pushed msg m) else pushed msg m.
Proof. reflexivity. Qed.

Lemma compact_spec keep m :
  NoDup (cell_id <$> messages m) ->
  exists msgs folded, compact keep m = (set_window msgs (summaries (append_summary (build_summary folded) m)) m, Z.of_nat (length folded)) /\
    messages m ≡ₚ msgs ++ folded /\ msgs `sublist_of` messages m /\
    (forall s, first_system (messages m) = Some s -> unmatched s (messages m) -> first_system msgs = Some s).
Proof.
  intros Hnd. unfold compact. destruct (messages m) as [| c0 rest0] eqn:Hm.
  { exists [], []. split_and!; try done. destruct m; simpl in *; by subst. }
  rewrite <- Hm in *. set (keep' := Z.max 0 _).
  set (recent := if keep' =? 0 then [] else last_slice keep' (messages m)).
  assert (exists pre, messages m = pre ++ recent) as [pre Hpre].
  { unfold recent. destruct (_ =? _); [exists (messages m); by rewrite app_nil_r | apply last_slice_suffix]. }
  rewrite Hpre in Hnd. destruct (split_window_spec pre recent Hnd) as (core & Hkept & Hcore & Ecore & Hperm). rewrite <- Hpre in *.
  destruct (split_window recent (messages m)) as [kept_unique folded]. cbn [fst snd] in *. subst kept_unique.
  assert (Hsub : core ++ recent `sublist_of` messages m) by (rewrite Hpre; by apply sublist_app).
  exists (core ++ recent), folded. split_and!; [| done | done |].
  - destruct folded as [| f folded]; [| by rewrite append_summary_set].
    rewrite app_nil_r in Hperm. f_equal. simpl.
    assert (core ++ recent = messages m) as -> by (apply sublist_full; [done |]; by rewrite Hperm). by destruct m.
  - intros s Hfs Hun. rewrite Hfs in Ecore. rewrite Ecore. rewrite Hpre in *. by eapply core_first_system.
Qed.

(** ** The invariant of the buffer *)

Record window_ok m : Prop := {
  wo_objects : objects_ok m;
  wo_length : Z.of_nat (length (messages m)) <= max_messages m;
  wo_tokens : message_tokens (token_counter m) (messages m) <= max_tokens m;
  wo_total : total_tokens m <= max_tokens m + max_tokens m / 2;
  wo_summaries : Z.of_nat (length (summaries m)) <= max_summaries m;
}.

Lemma message_tokens_sublist counter msgs msgs' :
  msgs `sublist_of` msgs' -> message_tokens counter msgs <= message_tokens counter msgs'.
Proof.
  unfold message_tokens. induction 1 as [| x l k _ IH | x l k _ IH]; csimpl; simpl; [lia | lia |].
  pose proof (estimate_tokens_nonneg counter (cm_content (cell x))). lia.
Qed.

(** A summary that is not empty leaves half of the budget to the summaries at most. *)
Lemma total_after_summary x msgs m :
  0 <= max_tokens m -> message_tokens (token_counter m) msgs <= max_tokens m ->
  (x = "" -> message_tokens (token_counter m) msgs + summary_tokens (token_counter m) (summaries m) <= max_tokens m + max_tokens m / 2) ->
  total_tokens (set_window msgs (summaries (append_summary x m)) m) <= max_tokens m + max_tokens m / 2.
Proof.
  intros Ht Hm Hx. unfold total_tokens. cbn [set_window token_counter messages summaries].
  destruct (decide (x = "")) as [-> | Hne]; [by apply Hx |].
  pose proof (append_summary_tokens x m Ht Hne). lia.
Qed.

Lemma over_budget_false m :
  over_budget m = false <-> Z.of_nat (length (messages m)) <= max_messages m /\ total_tokens m <= max_tokens m.
Proof. unfold over_budget. rewrite orb_false_iff, !Z.ltb_ge. done. Qed.

Lemma append_summary_same x m :
  max_messages (append_summary x m) = max_messages m /\ max_tokens (append_summary x m) = max_tokens m /\
  max_summaries (append_summary x m) = max_summaries m /\ token_counter (append_summary x m) = token_counter m.
Proof. by rewrite append_summary_window. Qed.

Lemma add_window_ok msg m :
  0 <= max_messages m -> 0 <= max_tokens m -> 0 < max_summaries m -> window_ok m -> window_ok (add msg m).1.
Proof.
  intros Hm Ht Hs [Hobj Hlen Htok Htot Hsum]. pose proof (pushed_ok msg m Hobj) as Hp. rewrite add_cases.
  pose proof (Z.div_pos (max_tokens m) 2 Ht ltac:(lia)) as Hhalf.
  destruct (over_budget (pushed msg m)) eqn:Hover.
  - destruct (trim_spec (pushed msg m) (pushed_nonempty msg m) (proj1 Hp)) as (msgs & folded & extra & -> & Hperm & Hsub & Hend & _).
    set (m1 := append_summary (build_summary folded) (pushed msg m)) in *.
    destruct (append_summary_same (build_summary folded) (pushed msg m)) as (_ & Et & Es & Ec). fold m1 in Et, Es, Ec.
    assert (Hmsgs : Z.of_nat (length msgs) <= max_messages m /\ message_tokens (token_counter m) msgs <= max_tokens m /\
              (build_summary extra = "" -> message_tokens (token_counter m) msgs + summary_tokens (token_counter m) (summaries m1) <= max_tokens m)).
    { destruct Hend as [[-> Hx] | Hend].
      - split_and!; [done | done |]. intros E. by apply build_summary_nonempty in Hx.
      - apply over_budget_false in Hend as [H1 H2]. unfold total_tokens in H2. simpl in H1, H2.
        pose proof (summary_tokens_nonneg (token_counter m) (summaries m1)). split_and!; [done | lia | done]. }
    destruct Hmsgs as (Hl & Hmt & Hx). split; [apply (objects_ok_sub (pushed msg m)); [exact Hp | exact Hsub | reflexivity] | done | done | |].
    + rewrite <- (set_window_append (build_summary folded)). fold m1.
      change (max_tokens (set_window _ _ m1)) with (max_tokens m1). apply total_after_summary; rewrite ?Et, ?Ec; simpl; [done | done |].
      intros E. specialize (Hx E). lia.
    + simpl. change (max_summaries m) with (max_summaries (pushed msg m)). rewrite <- Es. apply append_summary_length; rewrite Es; [done |].
      by apply append_summary_length.
  - apply over_budget_false in Hover as [H1 H2]. split; [done | done | | simpl in *; lia | done].
    unfold total_tokens in H2. pose proof (summary_tokens_nonneg (token_counter m) (summaries m)). simpl in *. lia.
Qed.

Lemma compact_window_ok keep m :
  0 <= max_tokens m -> 0 < max_summaries m -> window_ok m -> window_ok (compact keep m).1.
Proof.
  intros Ht Hs [Hobj Hlen Htok Htot Hsum].
  destruct (compact_spec keep m (proj1 Hobj)) as (msgs & folded & -> & Hperm & Hsub & _). cbn [fst].
  pose proof (message_tokens_sublist (token_counter m) _ _ Hsub) as Hle.
  split; [apply (objects_ok_sub m); [exact Hobj | exact Hsub | reflexivity] | | simpl; lia | |].
  - apply sublist_length in Hsub. simpl. lia.
  - apply (total_after_summary (build_summary folded) msgs m); [done | lia |]. intros _. unfold total_tokens in Htot. lia.
  - by apply (append_summary_length (build_summary folded) m).
Qed.

(** What a client does with a buffer. *)
Inductive memory_op :=
  | OAdd (msg : ConversationMessage)
  | OCompact (keep_recent : option Z)
  | ORecord (update : CaseFacts -> CaseFacts)
  | OClear (now : Time).

Definition apply_op m (o : memory_op) : ConversationMemory :=
  match o with
  | OAdd msg => (add msg m).1
  | OCompact keep => (compact keep m).1
  | ORecord update => record_fact update m
  | OClear now => clear now m
  end.

Definition new_memory (mm mt ms : Z) (counter : option (string -> option Z)) (now : Time) : ConversationMemory :=
  mkMemory [] mm mt [] ms counter (empty_facts now) 0.

Definition same_config m m' : Prop :=
  max_messages m' = max_messages m /\ max_tokens m' = max_tokens m /\ max_summaries m' = max_summaries m.

Lemma apply_op_config m o : same_config m (apply_op m o).
Proof.
  unfold same_config. destruct o as [msg | keep | update | now]; simpl; try done.
  - destruct (over_budget _); [| done]. unfold summarize_and_trim. cbn [messages].
    destruct (messages m ++ _); [done |]. destruct (split_window _ _) as [kept_unique folded].
    rewrite append_summary_set. cbn [messages set_window].
    match goal with |- context [shed ?n ?w ?e] => destruct (shed_spec n w e) as (msgs & taken & -> & _); [done |] end.
    by rewrite append_summary_window, append_summary_window.
  - unfold compact. destruct (messages m); [done |]. destruct (split_window _ _) as [kept_unique [| f folded]]; [done |].
    by rewrite append_summary_set.
Qed.

Lemma empty_window_ok m :
  messages m = [] -> summaries m = [] -> 0 <= max_messages m -> 0 <= max_tokens m -> 0 < max_summaries m -> window_ok m.
Proof.
  intros E1 E2 Hm Ht Hs. pose proof (Z.div_pos (max_tokens m) 2 Ht ltac:(lia)).
  split; [split | | | unfold total_tokens |]; rewrite ?E1, ?E2; try constructor; try done; [| by apply Z.lt_le_incl].
  change (0 + 0 <= max_tokens m + max_tokens m / 2). lia.
Qed.

Lemma apply_op_ok m o :
  0 <= max_messages m -> 0 <= max_tokens m -> 0 < max_summaries m -> window_ok m -> window_ok (apply_op m o).
Proof.
  intros Hm Ht Hs Hok. destruct o as [msg | keep | update | now]; simpl; [by apply add_window_ok | by apply compact_window_ok | by destruct Hok |].
  by apply empty_window_ok.
Qed.

(** C39.  Whatever is done with a buffer, its window keeps within the number of messages, the number of
    summaries is bounded, the messages are within the token budget, and all the text together is within
    one and a half times the budget. *)
Theorem window_invariant mm mt ms counter now (ops : list memory_op) :
  0 <= mm -> 0 <= mt -> 0 < ms ->
  let m := fold_left apply_op ops (new_memory mm mt ms counter now) in
  Z.of_nat (length (messages m)) <= mm /\ Z.of_nat (length (summaries m)) <= ms /\
  message_tokens (token_counter m) (messages m) <= mt /\ total_tokens m <= mt + mt / 2.
Proof.
  intros Hm Ht Hs m. pose proof (Z.div_pos mt 2 Ht ltac:(lia)).
  assert (Hinv : window_ok m /\ same_config (new_memory mm mt ms counter now) m).
  { apply (fold_left_ind (fun m => window_ok m /\ same_config (new_memory mm mt ms counter now) m)).
    - split; [| done]. by apply empty_window_ok.
    - intros m' o [Hok (E1 & E2 & E3)]. simpl in *. destruct (apply_op_config m' o) as (F1 & F2 & F3).
      split; [apply apply_op_ok; [lia .. | done] | unfold same_config; by rewrite F1, F2, F3]. }
  destruct Hinv as [[_ H1 H2 H3 H4] (E1 & E2 & E3)]. simpl in E1, E2, E3. rewrite E1, E2, E3 in *. done.
Qed.

(**  A trim loses nothing silently: the messages of the window and the new one are either in the new
    window, in order, or folded into one of at most two summaries, and nothing is folded within the
    budget.  The case facts stay, and the first system message stays the first one, unless the
    window empties. *)
Theorem trim_accounts msg m :
  objects_ok m ->
  let all := messages m ++ [mkCell (next_id m) msg] in
  let m' := (add msg m).1 in
  exists folded extra,
    all ≡ₚ messages m' ++ folded ++ extra /\ messages m' `sublist_of` all /\
    summaries m' = summaries (append_summary (build_summary extra) (append_summary (build_summary folded) m)) /\
    case_facts m' = case_facts m /\
    (over_budget (pushed msg m) = false -> folded = [] /\ extra = []) /\
    (forall s, first_system all = Some s -> unmatched s all -> messages m' = [] \/ first_system (messages m') = Some s).
Proof.
  intros Hok all m'. subst m'. rewrite add_cases. destruct (over_budget (pushed msg m)).
  - destruct (trim_spec (pushed msg m) (pushed_nonempty msg m) (proj1 (pushed_ok msg m Hok))) as
      (msgs & folded & extra & -> & Hperm & Hsub & _ & Hsys).
    exists folded, extra. split_and!; try done. cbn [set_window summaries].
    by destruct (build_summary folded), (build_summary extra).
  - exists [], []. cbn [pushed messages summaries case_facts]. rewrite !app_nil_r. split_and!; try done. intros s Hs _. by right.
Qed.

(** ** The manifest *)

Definition json_dict (d : odict pyval) : odict pyval := (fun kv => (kv.1, json_roundtrip kv.2)) <$> d.

(** What a message, the facts and the buffer are after their values went through JSON. *)
Definition json_message (x : ConversationMessage) : ConversationMessage :=
  mkMessage (cm_role x) (cm_content x) (cm_timestamp x) (cm_tool_call_id x) (cm_tool_name x) (json_dict (cm_metadata x)).
Definition json_facts (f : CaseFacts) : CaseFacts :=
  mkFacts (findings f) (json_dict (key_numbers f)) (json_dict (key_dates f)) (open_questions f) (updated_at f).
Fixpoint renumber (i : nat) (msgs : list Cell) : list Cell :=
  match msgs with [] => [] | c :: rest => mkCell i (json_message (cell c)) :: renumber (S i) rest end.
Definition reloaded (counter : option (string -> option Z)) m : ConversationMemory :=
  mkMemory (renumber 0 (messages m)) (max_messages m) (max_tokens m) (summaries m) (max_summaries m) counter
    (json_facts (case_facts m)) (length (messages m)).

(** The dictionaries of the state have distinct keys. *)
Definition keys_ok m : Prop :=
  Forall (fun c => NoDup (od_keys (cm_metadata (cell c)))) (messages m) /\
  NoDup (od_keys (key_numbers (case_facts m))) /\ NoDup (od_keys (key_dates (case_facts m))).

Lemma json_dict_keys d : od_keys (json_dict d) = od_keys d.
Proof. unfold od_keys, json_dict. by rewrite <- list_fmap_compose. Qed.

Lemma json_roundtrip_dict d : json_roundtrip (VDict d) = VDict (json_dict d).
Proof. simpl. f_equal. induction d as [| [k v] d IH]; [done |]. simpl. by f_equal. Qed.

Lemma json_roundtrip_strings (l : list string) : json_roundtrip (VList (VStr <$> l)) = VList (VStr <$> l).
Proof. simpl. by rewrite json_strings. Qed.

Lemma dict_of_or_else (d : odict pyval) : NoDup (od_keys d) -> dict_of (or_else (Some (VDict d)) (VDict [])) = Ok d.
Proof.
  intros Hnd. assert (or_else (Some (VDict d)) (VDict []) = VDict d) as -> by (destruct d; done).
  unfold dict_of, metadata_update. by rewrite od_update_copy.
Qed.

Lemma strings_in_strings (l : list string) : strings_in (VStr <$> l) = Ok l.
Proof. induction l as [| x l IH]; [done |]. csimpl. by rewrite IH. Qed.

Lemma string_list_or_else (l : list string) d :
  string_list d = Ok [] -> string_list (or_else (Some (VList (VStr <$> l))) d) = Ok l.
Proof. intros Hd. destruct l as [| x l]; [done |]. apply strings_in_strings. Qed.

Context `{!MemoryLaws}.

Lemma parse_time_isoformat t now : parse_time (Some (VStr (isoformat t))) now = Ok t.
Proof. simpl. by rewrite fromisoformat_isoformat. Qed.

Lemma message_reload now (x : ConversationMessage) d :
  NoDup (od_keys (cm_metadata x)) -> json_roundtrip (message_to_manifest x) = VDict d ->
  message_from_manifest now d = Ok (json_message x).
Proof.
  intros Hnd. unfold message_to_manifest. rewrite json_roundtrip_dict. set (D := json_dict _). intros [= <-].
  assert (Et : od_get "timestamp" D = Some (VStr (isoformat (cm_timestamp x)))) by reflexivity.
  assert (Er : od_get "role" D = Some (VStr (cm_role x))) by reflexivity.
  assert (Ec : od_get "content" D = Some (VStr (cm_content x))) by reflexivity.
  assert (Ei : optional_string "tool_call_id" D = Ok (cm_tool_call_id x)) by (by destruct x as [? ? ? [] ? ?]).
  assert (En : optional_string "tool_name" D = Ok (cm_tool_name x)) by (by destruct x as [? ? ? ? [] ?]).
  assert (Em : od_get "metadata" D = Some (VDict (json_dict (cm_metadata x)))) by (rewrite <- json_roundtrip_dict; reflexivity).
  clearbody D. unfold message_from_manifest. rewrite Et, Er, Ec, Ei, En, Em, parse_time_isoformat.
  rewrite dict_of_or_else by (by rewrite json_dict_keys). reflexivity.
Qed.

Lemma load_reload now msgs : forall i,
  Forall (fun c => NoDup (od_keys (cm_metadata (cell c)))) msgs ->
  load_messages now i (map json_roundtrip ((fun c => message_to_manifest (cell c)) <$> msgs)) = Ok (renumber i msgs).
Proof.
  induction msgs as [| c msgs IH]; intros i Hk; [done |]. apply Forall_cons in Hk as [Hc Hk]. rewrite fmap_cons, map_cons.
  destruct (json_roundtrip (message_to_manifest (cell c))) as [| | | | | | | d |] eqn:E; try done.
  cbn [load_messages]. rewrite (message_reload now _ d Hc E). cbn [mbind res_bind]. by rewrite (IH (S i) Hk).
Qed.

Lemma length_renumber msgs : forall i, length (renumber i msgs) = length msgs.
Proof. induction msgs; intros i; simpl; [done | by f_equal]. Qed.

Lemma facts_reload now f :
  NoDup (od_keys (key_numbers f)) -> NoDup (od_keys (key_dates f)) ->
  facts_from_manifest now (json_dict (facts_to_manifest f)) = Ok (json_facts f).
Proof.
  intros Hn Hd. set (D := json_dict _).
  assert (Eu : od_get "updated_at" D = Some (VStr (isoformat (updated_at f)))) by reflexivity.
  assert (Ef : od_get "findings" D = Some (VList (VStr <$> findings f))) by (rewrite <- json_roundtrip_strings; reflexivity).
  assert (Eq : od_get "open_questions" D = Some (VList (VStr <$> open_questions f))) by (rewrite <- json_roundtrip_strings; reflexivity).
  assert (En : od_get "key_numbers" D = Some (VDict (json_dict (key_numbers f)))) by (rewrite <- json_roundtrip_dict; reflexivity).
  assert (Ed : od_get "key_dates" D = Some (VDict (json_dict (key_dates f)))) by (rewrite <- json_roundtrip_dict; reflexivity).
  clearbody D. unfold facts_from_manifest. rewrite Eu, Ef, Eq, En, Ed, parse_time_isoformat. cbn [mbind res_bind].
  rewrite !string_list_or_else by done. cbn [mbind res_bind]. rewrite !dict_of_or_else by (by rewrite json_dict_keys). reflexivity.
Qed.

(**  The manifest recovers the buffer: after a crash, reading the JSON text back gives the same
    messages in order, summaries, facts and limits, with new objects and the counter supplied, and
    values as JSON keeps them. *)
Theorem manifest_recovers saved_at now m counter :
  keys_ok m -> reload saved_at now m counter = Ok (reloaded counter m).
Proof.
  intros (Hk & Hn & Hd). unfold reload. rewrite json_roundtrip_dict. set (D := json_dict _). simpl fields_of. cbn [mbind res_bind].
  assert (Ev : od_get "version" D = Some (VInt MANIFEST_VERSION)) by reflexivity.
  assert (Ec : od_get "config" D = Some (VDict [("max_messages", VInt (max_messages m)); ("max_tokens", VInt (max_tokens m));
                                                ("max_summaries", VInt (max_summaries m))])) by reflexivity.
  assert (Em : od_get "messages" D = Some (VList (map json_roundtrip ((fun c => message_to_manifest (cell c)) <$> messages m))))
    by reflexivity.
  assert (Es : od_get "summaries" D = Some (VList (VStr <$> summaries m))) by (rewrite <- json_roundtrip_strings; reflexivity).
  assert (Ef : od_get "case_facts" D = Some (VDict (json_dict (facts_to_manifest (case_facts m)))))
    by (rewrite <- json_roundtrip_dict; reflexivity).
  clearbody D. unfold from_manifest. rewrite Ev, Ec, Em, Es, Ef. simpl negb. cbv iota.
  assert (items_of (or_else (Some (VList (map json_roundtrip ((fun c => message_to_manifest (cell c)) <$> messages m)))) (VList [])) =
          Ok (map json_roundtrip ((fun c => message_to_manifest (cell c)) <$> messages m))) as -> by (by destruct (messages m)).
  cbn [mbind res_bind]. rewrite load_reload by done. cbn [mbind res_bind]. rewrite string_list_or_else by done. cbn [mbind res_bind].
  change (fields_of (or_else (Some (VDict (json_dict (facts_to_manifest (case_facts m))))) (VDict []))) with
    (Ok (json_dict (facts_to_manifest (case_facts m)))).
  cbn [mbind res_bind]. rewrite facts_reload by done. simpl. by rewrite length_renumber.
Qed.

End facts.

(** ** Previews and reductions *)

(** A preview is at most 160 characters. *)
Lemma preview_bounded text : (String.length (preview text) <= 160)%nat.
Proof.
  unfold preview. set (cleaned := join " " _). destruct (Nat.leb_spec (String.length cleaned) 160); [done |].
  rewrite length_append. simpl String.length at 2.
  assert (Hs : forall n s, (String.length (String.substring 0 n s) <= n)%nat).
  { induction n as [| n IH]; intros [| c s]; simpl; try lia. specialize (IH s). lia. }
  specialize (Hs 157%nat cleaned). lia.
Qed.

(** Reduction keeps the allowed fields with their values and reports exactly the others. *)
Lemma reduction_partitions (result : odict pyval) (allowlist : list string) (k : string) :
  let r := reduce_tool_result result allowlist in
  od_get k (kept r) = (if decide (k ∈ allowlist) then od_get k result else None) /\
  (k ∈ dropped_fields r <-> k ∈ od_keys result /\ k ∉ allowlist) /\
  dropped_count r = Z.of_nat (length (dropped_fields r)).
Proof.
  unfold reduce_tool_result. cbn [kept dropped_fields dropped_count]. split_and!; [| | done].
  - induction result as [| [k' v] result IH]; [by case_decide |]. rewrite filter_cons. cbn [fst].
    destruct (decide (k' ∈ allowlist)) as [Hk | Hk]; cbn [od_get]; rewrite IH; destruct (decide (k = k')) as [-> | Hne];
      try done; destruct (decide (_ ∈ allowlist)); done.
  - rewrite merge_sort_Permutation, list_elem_of_filter. unfold od_keys. tauto.
Qed.

(** ** Witnesses *)

#[local] Instance demo_memory_env : MemoryEnv := {|
  Time := string; isoformat t := t; fromisoformat s := Some s;
  repr _ := "<value>"; float_repr _ := "0.5";
|}.

#[local] Instance demo_memory_laws : MemoryLaws.
Proof. by split. Qed.

Definition at_time (t : string) : @Time demo_memory_env := t.

Fixpoint repeat_text (n : nat) (s : string) : string := match n with O => "" | S n => s +:+ repeat_text n s end.

Definition demo_message (role content time : string) : ConversationMessage :=
  mkMessage role content (at_time time) None None [("tags", VTuple [VInt 1])].

Definition demo_ops : list memory_op :=
  [OAdd (demo_message "system" "be brief" "t0"); ORecord (with_finding (at_time "t1") " root cause found ");
   OAdd (demo_message "user" (repeat_text 12 "abcd") "t2"); OAdd (demo_message "assistant" (repeat_text 12 "efgh") "t3");
   OAdd (demo_message "user" (repeat_text 12 "ijkl") "t4"); OCompact (Some 1)].
Definition demo_memory : ConversationMemory := new_memory 4 30 2 None (at_time "t").
Definition demo_final : ConversationMemory := fold_left apply_op demo_ops demo_memory.

Lemma window_invariant_witness :
  Z.of_nat (length (messages demo_final)) <= 4 /\ Z.of_nat (length (summaries demo_final)) <= 2 /\
  message_tokens (token_counter demo_final) (messages demo_final) <= 30 /\ total_tokens demo_final <= 30 + 30 / 2.
Proof. apply (window_invariant 4 30 2 None (at_time "t") demo_ops); lia. Defined.

Definition demo_before : ConversationMemory :=
  fold_left apply_op [OAdd (demo_message "system" "be brief" "t0"); OAdd (demo_message "user" (repeat_text 20 "abcd") "t2")] demo_memory.

Lemma trim_accounts_witness :
  objects_ok demo_before /\
  let m' := (add (demo_message "user" (repeat_text 12 "efgh") "t3") demo_before).1 in
  first_system (messages m') = Some (mkCell 0 (demo_message "system" "be brief" "t0")) /\ length (messages m') = 2%nat.
Proof.
  assert (Hok : objects_ok demo_before).
  { split; simpl; [repeat constructor; set_solver | repeat constructor; simpl; lia]. }
  split; [exact Hok |]. intros m'.
  destruct (trim_accounts (demo_message "user" (repeat_text 12 "efgh") "t3") demo_before Hok) as
    (folded & extra & _ & _ & _ & _ & _ & Hsys).
  destruct (Hsys (mkCell 0 (demo_message "system" "be brief" "t0"))) as [He | Hs]; [vm_compute; reflexivity | | | split; [exact Hs | vm_compute; reflexivity]].
  - intros c Hc%list_elem_of_In Heq. vm_compute in Hc. destruct Hc as [<- | [<- | [<- | []]]]; [reflexivity | |]; vm_compute in Heq; discriminate.
  - vm_compute in He. discriminate.
Defined.

Lemma manifest_recovers_witness :
  keys_ok demo_final /\ reload (at_time "now") (at_time "later") demo_final None = Ok (reloaded None demo_final).
Proof.
  assert (Hk : keys_ok demo_final).
  { assert (E : (fun c => od_keys (cm_metadata (cell c))) <$> messages demo_final = replicate (length (messages demo_final)) ["tags"])
      by (vm_compute; reflexivity).
    split; [| split].
    - apply (Forall_fmap (fun c => od_keys (cm_metadata (cell c))) NoDup). rewrite E. apply Forall_replicate, NoDup_singleton.
    - replace (od_keys (key_numbers (case_facts demo_final))) with (@nil string) by (vm_compute; reflexivity). constructor.
    - replace (od_keys (key_dates (case_facts demo_final))) with (@nil string) by (vm_compute; reflexivity). constructor. }
  split; [exact Hk |]. apply (manifest_recovers (at_time "now") (at_time "later") demo_final None Hk).
Defined.

(** Folding the messages over the budget appends a summary, which takes the total over it again. *)
Example budget_overshoot :
  let m := fold_left apply_op [OAdd (demo_message "user" (repeat_text 5 "abcd") "t1"); OAdd (demo_message "user" (repeat_text 26 "efgh") "t2")]
             demo_memory in
  total_tokens m = 38 /\ max_tokens m = 30.
Proof. split; vm_compute; reflexivity. Qed.

(** A message larger than the budget is folded as soon as it is added: the window is empty. *)
Example oversized_message_vanishes :
  let m := (add (demo_message "user" (repeat_text 40 "abcd") "t1") demo_memory).1 in
  messages m = [] /\ length (summaries m) = 0%nat.
Proof. split; vm_compute; reflexivity. Qed.

(** A limit of no summaries is no limit: the slice from -0 is the whole list. *)
Example zero_summaries_unbounded :
  let m := fold_left apply_op [OAdd (demo_message "user" "a" "t1"); OCompact (Some 0); OAdd (demo_message "user" "b" "t2"); OCompact (Some 0)]
             (new_memory 4 1000 0 None (at_time "t")) in
  length (summaries m) = 2%nat.
Proof. vm_compute. reflexivity. Qed.
