(* ===== verification/Mcp.v ===== *)
(** * MCP protocol client (integrations/mcp/protocol/client.py)

    Requests and responses are matched by id.  The client is shared by the coroutines of its
    requests, the reader of the transport and the caller that closes it; each runs without
    interruption between two awaits, and such a stretch is one event.  Request ids are uuid4
    texts, never repeated; a request, its future and its coroutine are named by the id. *)

From stdpp Require Import countable.
From S2P Require Import Prelude PyStr PyVal Step.

(** ** Messages (integrations/mcp/types.py) *)

Inductive rpc_id := IdStr (s : string) | IdInt (z : Z).

#[export] Instance rpc_id_eq_dec : EqDecision rpc_id.
Proof. solve_decision. Defined.
#[export] Program Instance rpc_id_countable : Countable rpc_id :=
  inj_countable (fun i => match i with IdStr s => inl s | IdInt z => inr z end)
    (fun x => Some match x with inl s => IdStr s | inr z => IdInt z end) _.
Next Obligation. by intros []. Qed.

Inductive JsonRpcMessage :=
  | JsonRpcRequest (id : rpc_id) (method : string) (params : option (odict pyval))
  | JsonRpcResponse (id : rpc_id) (result : pyval) (error : option (odict pyval))
  | JsonRpcNotification (method : string) (params : option (odict pyval)).

Record McpCapabilities := mkCapabilities {
  mc_tools : bool;
  mc_resources : bool;
  mc_prompts : bool;
  mc_logging : bool;
  mc_experimental : odict pyval;
}.
Record McpServerInfo := mkServerInfo { si_name : string; si_version : string; si_instructions : option string }.

(** pydantic's validation of a field, [None] where it raises, and [repr]. *)
Class Fields := {
  bool_field : pyval -> option bool;
  str_field : pyval -> option string;
  dict_field : pyval -> option (odict pyval);
  repr : pyval -> string;
}.

(** ** The client *)

Inductive Fut := FPending | FResult (v : pyval) | FError (msg : string) | FCancelled.

(** How a request ends: [McpProtocolError], [TimeoutError], the transport's error, another error of
    [initialize], or the cancellation of the coroutine from outside. *)
Inductive Outcome :=
  | Returned (v : pyval)
  | ProtocolError (msg : string)
  | TimedOut
  | SendError (msg : string)
  | InitializeError (e : exn)
  | Cancelled.

Inductive Phase := Sending | Waiting | Finished (o : Outcome).

Record Request := mkRequest { rq_initialize : bool; rq_phase : Phase }.

Record McpProtocolClient := mkClient {
  pending_requests : gset rpc_id;
  futures : gmap rpc_id Fut;
  requests : gmap rpc_id Request;
  notification_handlers : gset string;
  (** The handler calls made, with their parameters. *)
  dispatched : list (string * odict pyval);
  initialized : bool;
  capabilities : option McpCapabilities;
  server_info : option McpServerInfo;
}.

Definition new_client : McpProtocolClient := mkClient ∅ ∅ ∅ ∅ [] false None None.

Definition set_pending (p : gset rpc_id) (c : McpProtocolClient) : McpProtocolClient :=
  mkClient p (futures c) (requests c) (notification_handlers c) (dispatched c) (initialized c) (capabilities c) (server_info c).
Definition set_future (id : rpc_id) (f : Fut) (c : McpProtocolClient) : McpProtocolClient :=
  mkClient (pending_requests c) (<[id := f]> (futures c)) (requests c) (notification_handlers c) (dispatched c) (initialized c)
    (capabilities c) (server_info c).
Definition set_request (id : rpc_id) (r : Request) (c : McpProtocolClient) : McpProtocolClient :=
  mkClient (pending_requests c) (futures c) (<[id := r]> (requests c)) (notification_handlers c) (dispatched c) (initialized c)
    (capabilities c) (server_info c).
Definition pop_pending (id : rpc_id) (c : McpProtocolClient) : McpProtocolClient := set_pending (pending_requests c ∖ {[id]}) c.

(** ** The reader of the transport *)

(** [future.set_exception] for every future of the table that is not done. *)
Definition reject (msg : string) (pending : gset rpc_id) (id : rpc_id) (f : Fut) : Fut :=
  match f with FPending => if decide (id ∈ pending) then FError msg else FPending | f => f end.
Definition reject_pending (msg : string) (c : McpProtocolClient) : McpProtocolClient :=
  mkClient (pending_requests c) (map_imap (fun id f => Some (reject msg (pending_requests c) id f)) (futures c)) (requests c)
    (notification_handlers c) (dispatched c) (initialized c) (capabilities c) (server_info c).

Definition drop_connection (c : McpProtocolClient) : McpProtocolClient :=
  mkClient ∅ (futures c) (requests c) (notification_handlers c) (dispatched c) false (capabilities c) (server_info c).

Definition handle_transport_error (error : string) : McpProtocolClient -> McpProtocolClient :=
  reject_pending ("Transport error: " +:+ error).
Definition handle_transport_close (c : McpProtocolClient) : McpProtocolClient :=
  drop_connection (reject_pending "Transport closed unexpectedly" c).

(** [close], up to the close of the transport, which calls [handle_transport_close] back. *)
Definition close (c : McpProtocolClient) : McpProtocolClient :=
  drop_connection (reject_pending "Connection closed while request pending" c).

Section client.
Context `{Fields}.

Definition error_text (error : odict pyval) : string :=
  "MCP error " +:+ str_of repr (default VNone (od_get "code" error)) +:+ ": " +:+ str_of repr (default VNone (od_get "message" error)).

(** An empty error object counts as none. *)
Definition answer_of (result : pyval) (error : option (odict pyval)) : Fut :=
  match error with Some (x :: e) => FError (error_text (x :: e)) | _ => FResult result end.

Definition handle_response (id : rpc_id) (result : pyval) (error : option (odict pyval)) (c : McpProtocolClient) : McpProtocolClient :=
  if decide (id ∈ pending_requests c) then
    let c := pop_pending id c in
    match futures c !! id with
    | Some FPending => set_future id (answer_of result error) c
    | _ => c
    end
  else c.

(** An exception of the handler is caught. *)
Definition handle_notification (method : string) (params : option (odict pyval)) (c : McpProtocolClient) : McpProtocolClient :=
  if decide (method ∈ notification_handlers c) then
    mkClient (pending_requests c) (futures c) (requests c) (notification_handlers c) (dispatched c ++ [(method, default [] params)])
      (initialized c) (capabilities c) (server_info c)
  else c.

Definition handle_message (message : JsonRpcMessage) (c : McpProtocolClient) : McpProtocolClient :=
  match message with
  | JsonRpcResponse id result error => handle_response id result error c
  | JsonRpcNotification method params => handle_notification method params c
  | JsonRpcRequest _ _ _ => c
  end.

Definition register_notification_handler (method : string) (c : McpProtocolClient) : McpProtocolClient :=
  mkClient (pending_requests c) (futures c) (requests c) (notification_handlers c ∪ {[method]}) (dispatched c) (initialized c)
    (capabilities c) (server_info c).

(** ** The coroutine of a request *)

(** [request] up to the send. *)
Definition begin_request (id : rpc_id) (initialize : bool) (c : McpProtocolClient) : McpProtocolClient :=
  set_request id (mkRequest initialize Sending) (set_future id FPending (set_pending (pending_requests c ∪ {[id]}) c)).

Definition finish (id : rpc_id) (r : Request) (o : Outcome) : McpProtocolClient -> McpProtocolClient :=
  set_request id (mkRequest (rq_initialize r) (Finished o)).

Definition get_field (v : pyval) (k : string) (d : pyval) : res pyval :=
  match v with VDict m => Ok (default d (od_get k m)) | _ => Raise (AttributeError "get") end.
Definition validated {A} (o : option A) : res A := match o with Some a => Ok a | None => Raise (ValueError "validation error") end.

Definition parse_capabilities (response : pyval) : res McpCapabilities :=
  server_caps ← get_field response "capabilities" (VDict []);
  tools ← get_field server_caps "tools" (VBool false);
  resources ← get_field server_caps "resources" (VBool false);
  prompts ← get_field server_caps "prompts" (VBool false);
  logging ← get_field server_caps "logging" (VBool false);
  experimental ← get_field server_caps "experimental" (VDict []);
  t ← validated (bool_field tools); r ← validated (bool_field resources); p ← validated (bool_field prompts);
  l ← validated (bool_field logging); e ← validated (dict_field experimental);
  Ok (mkCapabilities t r p l e).

Definition parse_server_info (response : pyval) : res McpServerInfo :=
  data ← get_field response "serverInfo" (VDict []);
  name ← get_field data "name" (VStr "unknown");
  version ← get_field data "version" (VStr "unknown");
  instructions ← get_field response "instructions" VNone;
  n ← validated (str_field name); v ← validated (str_field version);
  i ← (match instructions with VNone => Ok None | x => s ← validated (str_field x); Ok (Some s) end : res (option string));
  Ok (mkServerInfo n v i).

(** [initialize] after its request returned: the capabilities are set before the server information is parsed. *)
Definition finish_initialize (response : pyval) (c : McpProtocolClient) : McpProtocolClient * option exn :=
  match parse_capabilities response with
  | Raise e => (c, Some e)
  | Ok caps =>
      match parse_server_info response with
      | Raise e => (mkClient (pending_requests c) (futures c) (requests c) (notification_handlers c) (dispatched c) (initialized c)
                      (Some caps) (server_info c), Some e)
      | Ok info => (mkClient (pending_requests c) (futures c) (requests c) (notification_handlers c) (dispatched c) true
                      (Some caps) (Some info), None)
      end
  end.

(** The result arrives at the coroutine, which goes on to its end. *)
Definition deliver (id : rpc_id) (r : Request) (v : pyval) (c : McpProtocolClient) : McpProtocolClient :=
  if rq_initialize r then
    match finish_initialize v c with
    | (c, None) => finish id r (Returned v) c
    | (c, Some e) => finish id r (InitializeError e) c
    end
  else finish id r (Returned v) c.

(** [await future], when the future is done; the exception handler of [request] pops the entry. *)
Definition resume (id : rpc_id) (r : Request) (c : McpProtocolClient) : option McpProtocolClient :=
  match futures c !! id with
  | Some (FResult v) => Some (deliver id r v c)
  | Some (FError msg) => Some (finish id r (ProtocolError msg) (pop_pending id c))
  | _ => None
  end.

(** The cancellation of an awaited future. *)
Definition cancel_future (id : rpc_id) (c : McpProtocolClient) : McpProtocolClient :=
  match futures c !! id with Some FPending => set_future id FCancelled c | _ => c end.

(** ** Events *)

Inductive Event :=
  | EBegin (id : rpc_id) (initialize : bool)
  | ESent (id : rpc_id)
  | ESendFailed (id : rpc_id) (msg : string)
  | EResume (id : rpc_id)
  | ETimeout (id : rpc_id)                     (* the deadline of [asyncio.timeout] in [request] *)
  | ECancel (id : rpc_id)                      (* from outside, as by the deadline of [call_tool] *)
  | EMessage (message : JsonRpcMessage)
  | ETransportError (msg : string)
  | ETransportClose
  | EClose
  | ERegister (method : string).

(** [None] where the event cannot happen. *)
Definition step (c : McpProtocolClient) (e : Event) : option McpProtocolClient :=
  match e with
  | EBegin id initialize => match futures c !! id with None => Some (begin_request id initialize c) | Some _ => None end
  | ESent id =>
      match requests c !! id with
      | Some (mkRequest i Sending) => Some (set_request id (mkRequest i Waiting) c)
      | _ => None
      end
  | ESendFailed id msg =>
      match requests c !! id with
      | Some (mkRequest i Sending) => Some (finish id (mkRequest i Sending) (SendError msg) (pop_pending id c))
      | _ => None
      end
  | EResume id => match requests c !! id with Some (mkRequest i Waiting) => resume id (mkRequest i Waiting) c | _ => None end
  | ETimeout id =>
      match requests c !! id with
      | Some (mkRequest i Waiting) => Some (finish id (mkRequest i Waiting) TimedOut (pop_pending id (cancel_future id c)))
      | _ => None
      end
  | ECancel id =>
      match requests c !! id with
      | Some (mkRequest i Sending) => Some (finish id (mkRequest i Sending) Cancelled c)
      | Some (mkRequest i Waiting) => Some (finish id (mkRequest i Waiting) Cancelled (cancel_future id c))
      | _ => None
      end
  | EMessage message => Some (handle_message message c)
  | ETransportError msg => Some (handle_transport_error msg c)
  | ETransportClose => Some (handle_transport_close c)
  | EClose => Some (close c)
  | ERegister method => Some (register_notification_handler method c)
  end.

Fixpoint run (c : McpProtocolClient) (events : list Event) : option McpProtocolClient :=
  match events with
  | [] => Some c
  | e :: rest => match step c e with Some c' => run c' rest | None => None end
  end.

End client.

(** ** Deadlines *)

Definition DEFAULT_REQUEST_TIMEOUT : Z := 60.
Definition INITIALIZE_TIMEOUT : Z := 30.
Definition TOOL_CALL_TIMEOUT : Z := 120.

(** [timeout or default]: also 0 means the default. *)
Definition timeout_or (timeout : option Z) (d : Z) : Z :=
  match timeout with Some t => if decide (t = 0%Z) then d else t | None => d end.

(** Seconds a tool call may wait for its response once it is sent: the deadline of [call_tool], which
    started [elapsed] seconds ago, and the one of the [request] it makes without a timeout. *)
Definition tool_call_wait (timeout : option Z) (elapsed : Z) : Z :=
  Z.min (timeout_or timeout TOOL_CALL_TIMEOUT - elapsed) (timeout_or None DEFAULT_REQUEST_TIMEOUT).

(** ** Facts of the MCP protocol client: a request gets the response to its own id, once; a closed
      connection leaves no request waiting; what the table of pending requests holds. *)

Section facts.
Context `{Fields}.
Implicit Types (c : McpProtocolClient) (id : rpc_id) (e : Event) (i : bool).

(** ** What one request sees of the client *)

Definition live (ph : option Phase) : bool := match ph with Some Sending | Some Waiting => true | _ => false end.
Definition fut_done (f : Fut) : bool := match f with FPending => false | _ => true end.

(** Whether the id is in the table, its future, its phase. *)
Definition View : Type := bool * option Fut * option Phase.
Definition phase_of c id : option Phase := rq_phase <$> requests c !! id.
Definition view c id : View := (bool_decide (id ∈ pending_requests c), futures c !! id, phase_of c id).

Definition cancelled (f : Fut) : Fut := match f with FPending => FCancelled | f => f end.
Definition rejected (msg : string) (p : bool) (f : Fut) : Fut := match f with FPending => if p then FError msg else FPending | f => f end.

(** What an event does to the view of a request. *)
Inductive vstep id : Event -> View -> View -> Prop :=
  | vs_same e v : vstep id e v v
  | vs_begin i p ph : vstep id (EBegin id i) (p, None, ph) (true, Some FPending, Some Sending)
  | vs_sent p f : vstep id (ESent id) (p, f, Some Sending) (p, f, Some Waiting)
  | vs_send_failed p f msg : vstep id (ESendFailed id msg) (p, f, Some Sending) (false, f, Some (Finished (SendError msg)))
  | vs_result p v o : o = Returned v \/ (exists x, o = InitializeError x) ->
      vstep id (EResume id) (p, Some (FResult v), Some Waiting) (p, Some (FResult v), Some (Finished o))
  | vs_error p msg : vstep id (EResume id) (p, Some (FError msg), Some Waiting) (false, Some (FError msg), Some (Finished (ProtocolError msg)))
  | vs_timeout p f : vstep id (ETimeout id) (p, f, Some Waiting) (false, cancelled <$> f, Some (Finished TimedOut))
  | vs_cancel_sending p f : vstep id (ECancel id) (p, f, Some Sending) (p, f, Some (Finished Cancelled))
  | vs_cancel_waiting p f : vstep id (ECancel id) (p, f, Some Waiting) (p, cancelled <$> f, Some (Finished Cancelled))
  | vs_answer v err ph :
      vstep id (EMessage (JsonRpcResponse id v err)) (true, Some FPending, ph) (false, Some (answer_of v err), ph)
  | vs_late v err f ph : f <> Some FPending ->
      vstep id (EMessage (JsonRpcResponse id v err)) (true, f, ph) (false, f, ph)
  | vs_reject msg p f ph : vstep id (ETransportError msg) (p, f, ph) (p, rejected ("Transport error: " +:+ msg) p <$> f, ph)
  | vs_drop e msg p f ph : e = ETransportClose \/ e = EClose -> vstep id e (p, f, ph) (false, rejected msg p <$> f, ph).

Lemma union_here (P : gset rpc_id) id : bool_decide (id ∈ P ∪ {[id]}) = true.
Proof. apply bool_decide_eq_true_2. set_solver. Qed.
Lemma union_other (P : gset rpc_id) id id' : id <> id' -> bool_decide (id ∈ P ∪ {[id']}) = bool_decide (id ∈ P).
Proof. intros. apply bool_decide_ext. set_solver. Qed.
Lemma minus_here (P : gset rpc_id) id : bool_decide (id ∈ P ∖ {[id]}) = false.
Proof. apply bool_decide_eq_false_2. set_solver. Qed.
Lemma minus_other (P : gset rpc_id) id id' : id <> id' -> bool_decide (id ∈ P ∖ {[id']}) = bool_decide (id ∈ P).
Proof. intros. apply bool_decide_ext. set_solver. Qed.
(** The view of a request after an update of the one named [id']. *)
Ltac look id id' :=
  unfold view, phase_of in *; cbn [set_request set_future pop_pending set_pending finish begin_request pending_requests futures requests] in *;
  destruct (decide (id = id')) as [-> |];
  [rewrite ?lookup_insert_eq, ?union_here, ?minus_here | rewrite ?lookup_insert_ne, ?union_other, ?minus_other by congruence].

Lemma cancel_same id' c :
  pending_requests (cancel_future id' c) = pending_requests c /\ requests (cancel_future id' c) = requests c.
Proof. unfold cancel_future. by destruct (futures c !! id') as [[| | |] |]. Qed.

Lemma future_cancel c id' id :
  futures (cancel_future id' c) !! id = if decide (id = id') then cancelled <$> futures c !! id else futures c !! id.
Proof.
  unfold cancel_future. destruct (futures c !! id') as [[| | |] |] eqn:Hf; destruct (decide (id = id')) as [-> |]; simpl;
    rewrite ?lookup_insert_eq, ?lookup_insert_ne, ?Hf by done; done.
Qed.

Lemma view_finish c id' r o id :
  view (finish id' r o c) id =
  if decide (id = id') then (bool_decide (id ∈ pending_requests c), futures c !! id, Some (Finished o)) else view c id.
Proof. look id id'; reflexivity. Qed.

Lemma future_reject msg c id :
  futures (reject_pending msg c) !! id = rejected msg (bool_decide (id ∈ pending_requests c)) <$> futures c !! id.
Proof.
  simpl. rewrite map_lookup_imap. destruct (futures c !! id) as [[| | |] |]; simpl; try done. case_bool_decide; case_decide; done.
Qed.

Lemma view_reject msg c id :
  view (reject_pending msg c) id =
  (bool_decide (id ∈ pending_requests c), rejected msg (bool_decide (id ∈ pending_requests c)) <$> futures c !! id, phase_of c id).
Proof. unfold view. by rewrite future_reject. Qed.

Lemma view_drop msg c id :
  view (drop_connection (reject_pending msg c)) id =
  (false, rejected msg (bool_decide (id ∈ pending_requests c)) <$> futures c !! id, phase_of c id).
Proof.
  rewrite <- future_reject. unfold view. rewrite bool_decide_eq_false_2; [reflexivity |]. simpl. set_solver.
Qed.

Lemma view_finish_initialize v c id : view (finish_initialize v c).1 id = view c id.
Proof. unfold finish_initialize. destruct (parse_capabilities v); [destruct (parse_server_info v) |]; done. Qed.


Lemma view_deliver c id' r v id : exists o,
  view (deliver id' r v c) id =
    (if decide (id = id') then (bool_decide (id ∈ pending_requests c), futures c !! id, Some (Finished o)) else view c id) /\
  (o = Returned v \/ exists x, o = InitializeError x).
Proof.
  assert (Hf : forall c' o, view c' id = view c id ->
    view (finish id' r o c') id = if decide (id = id') then (bool_decide (id ∈ pending_requests c), futures c !! id, Some (Finished o)) else view c id).
  { intros c' o E. rewrite view_finish. case_decide; [| done]. unfold view in E. injection E as -> -> _. done. }
  unfold deliver. pose proof (view_finish_initialize v c id) as E.
  destruct (rq_initialize r); [destruct (finish_initialize v c) as [c' [x |]] |]; (eexists; split; [by apply Hf | eauto]).
Qed.

Lemma phase_eq c id i p : requests c !! id = Some (mkRequest i p) -> phase_of c id = Some p.
Proof. intros E. unfold phase_of. by rewrite E. Qed.

(** Case analysis on the request an event names. *)
Ltac on_request Hstep :=
  match type of Hstep with
  | match requests ?c !! ?id' with _ => _ end = _ =>
      let Hr := fresh "Hr" in destruct (requests c !! id') as [[? []] |] eqn:Hr; try discriminate Hstep; apply phase_eq in Hr
  end.

Lemma phase_other c id id' r : id <> id' -> rq_phase <$> <[id' := r]> (requests c) !! id = phase_of c id.
Proof. intros. by rewrite lookup_insert_ne. Qed.

Lemma step_view c e c' id : step c e = Some c' -> vstep id e (view c id) (view c' id).
Proof.
  intros Hstep. destruct e as [id' i | id' | id' msg | id' | id' | id' | m | msg | | | meth]; simpl in Hstep.
  - destruct (futures c !! id') eqn:Hf; [done |]. simplify_eq. look id id'; [rewrite Hf; apply vs_begin | apply vs_same].
  - on_request Hstep. simplify_eq. look id id'; [rewrite Hr; apply vs_sent | apply vs_same].
  - on_request Hstep. simplify_eq. look id id'; [rewrite Hr; apply vs_send_failed | apply vs_same].
  - on_request Hstep. unfold resume in Hstep. destruct (futures c !! id') as [[| v | msg |] |] eqn:Hf; try done; simplify_eq.
    + match goal with |- context [deliver id' ?r v c] => destruct (view_deliver c id' r v id) as (o & -> & Ho) end.
      look id id'; [rewrite Hr, Hf; by apply vs_result | apply vs_same].
    + look id id'; [rewrite Hr, Hf; apply vs_error | apply vs_same].
  - on_request Hstep. simplify_eq. destruct (cancel_same id' c) as [Ep Er]. 
    look id id'; rewrite future_cancel, ?Ep, ?Er; case_decide; try done; [rewrite Hr; apply vs_timeout | apply vs_same].
  - on_request Hstep; simplify_eq; [look id id'; [rewrite Hr; apply vs_cancel_sending | apply vs_same] |].
    destruct (cancel_same id' c) as [Ep Er].
    look id id'; rewrite future_cancel, ?Ep, ?Er; case_decide; try done; [rewrite Hr; apply vs_cancel_waiting | apply vs_same].
  - simplify_eq. destruct m as [id' meth ps | id' v err | meth ps]; simpl; [apply vs_same | | unfold handle_notification; case_decide; apply vs_same].
    unfold handle_response. destruct (decide (id' ∈ pending_requests c)) as [Hin |]; [| apply vs_same].
    cbn [pop_pending set_pending futures]. destruct (futures c !! id') as [[| | |] |] eqn:Hf;
      (look id id'; [rewrite Hf, (bool_decide_eq_true_2 _ Hin); by constructor | apply vs_same]).
  - simplify_eq. unfold handle_transport_error. rewrite view_reject. apply vs_reject.
  - simplify_eq. unfold handle_transport_close. rewrite view_drop. apply vs_drop. by left.
  - simplify_eq. unfold close. rewrite view_drop. apply vs_drop. by right.
  - simplify_eq. apply vs_same.
Qed.

(** ** The invariant *)

(** A request and its future come together; a live request is in the table until it is answered or
    rejected, and its future is not cancelled; a finished one is not, unless it was cancelled; what it
    returns is the result of its future. *)
Definition view_ok (v : View) : Prop :=
  match v with
  | (p, None, None) => p = false
  | (p, Some f, Some ph) =>
      match ph, f with
      | (Sending | Waiting), FPending => p = true
      | (Sending | Waiting), FResult _ => p = false
      | (Sending | Waiting), FError _ => True
      | (Sending | Waiting), FCancelled => False
      | Finished (Returned x), FResult y => p = false /\ x = y
      | Finished (Returned _), _ => False
      | Finished Cancelled, FResult _ => p = false
      | Finished Cancelled, _ => True
      | Finished _, _ => p = false
      end
  | _ => False
  end.

Lemma vstep_ok id e v v' : view_ok v -> vstep id e v v' -> view_ok v'.
Proof.
  intros Hok Hs. destruct Hs as [e v | i p ph | p f | p f msg | p v o [-> | [x ->]] | p msg | p f | p f | p f | v err ph | v err f ph Hne | msg p f ph | e msg p f ph _];
    try exact Hok; simpl in *; try (destruct f as [[| y | m |] |]); try (destruct ph as [[| | []] |]); simpl in *; try done;
    try (destruct err as [[| z err] |]; simpl in *; done); try (by destruct p); by intuition subst.
Qed.

(** ** Runs *)

Lemma run_snoc c events e : run c (events ++ [e]) = run c events ≫= fun c' => step c' e.
Proof. revert c. induction events as [| e' events IH]; intros c; simpl; [by destruct (step c e) |]. by destruct (step c e'). Qed.

Lemma run_app c events events' : run c (events ++ events') = run c events ≫= fun c' => run c' events'.
Proof. revert c. induction events as [| e' events IH]; intros c; simpl; [done |]. by destruct (step c e'). Qed.

Lemma new_view id : view new_client id = (false, None, None).
Proof. unfold view, phase_of. simpl. rewrite bool_decide_eq_false_2; [done | set_solver]. Qed.

Lemma reachable_ok events c id : run new_client events = Some c -> view_ok (view c id).
Proof.
  revert c. induction events as [| e events IH] using rev_ind; intros c.
  { intros [= <-]. by rewrite new_view. }
  rewrite run_snoc. intros (c1 & H1 & H2)%bind_Some. eapply vstep_ok; [by apply IH | by apply step_view].
Qed.

(** A request that ended stays as it ended, and an answer is never replaced. *)
Lemma vstep_final id e v v' o : view_ok v -> vstep id e v v' -> v.2 = Some (Finished o) -> v'.2 = Some (Finished o).
Proof.
  intros Hok Hs. destruct Hs; simpl in *; try done. intros ->. by destruct p.
Qed.

Lemma run_final events c events' c' id o :
  run new_client events = Some c -> run c events' = Some c' -> phase_of c id = Some (Finished o) -> phase_of c' id = Some (Finished o).
Proof.
  revert events c. induction events' as [| e events' IH]; intros events c Hc; simpl; [congruence |].
  destruct (step c e) as [c1 |] eqn:Hs; [| done]. intros Hr Ho. apply (IH (events ++ [e]) c1); [by rewrite run_snoc, Hc | done |].
  exact (vstep_final id e _ _ o (reachable_ok events c id Hc) (step_view c e c1 id Hs) Ho).
Qed.

Lemma vstep_answer id e v v' x :
  vstep id e v v' -> v'.1.2 = Some (FResult x) ->
  v.1.2 = Some (FResult x) \/ (exists err, e = EMessage (JsonRpcResponse id x err) /\ answer_of x err = FResult x /\ v.1.2 = Some FPending).
Proof.
  intros Hs Hv. destruct Hs as [| | | | | | p f | | p f | y err ph | y err f ph | msg p f ph | e msg p f ph]; simpl in *; try done; try (by left);
    try (destruct f as [[| | |] |]; simpl in *; try done; try (by left); try (by destruct p)).
  right. exists err. destruct err as [[| z err] |]; simpl in *; simplify_eq; done.
Qed.

Lemma cancelled_by events c id : run new_client events = Some c -> phase_of c id = Some (Finished Cancelled) -> ECancel id ∈ events.
Proof.
  revert c. induction events as [| e events IH] using rev_ind; intros c; [by intros [= <-] |].
  rewrite run_snoc. intros (c1 & H1 & H2)%bind_Some Hp. apply elem_of_app. pose proof (step_view c1 e c id H2) as Hs.
  unfold view in Hs. rewrite Hp in Hs.
  assert (phase_of c1 id = Some (Finished Cancelled) \/ e = ECancel id) as [Hc | ->]; [| left; by apply (IH c1) | right; by left].
  inversion Hs; subst; try (by left); try (by right). destruct_or?; naive_solver.
Qed.

(** An answer of a future is the answer of a response to that id, delivered while it was pending. *)
Lemma answered_by events c id x :
  run new_client events = Some c -> futures c !! id = Some (FResult x) ->
  exists before after c0 err, events = before ++ EMessage (JsonRpcResponse id x err) :: after /\ answer_of x err = FResult x /\
    run new_client before = Some c0 /\ futures c0 !! id = Some FPending.
Proof.
  revert c. induction events as [| e events IH] using rev_ind; intros c.
  { intros [= <-]. done. }
  rewrite run_snoc. intros (c1 & H1 & H2)%bind_Some Hf.
  destruct (vstep_answer id e _ _ x (step_view c1 e c id H2) Hf) as [Hf1 | (err & He & Ha & Hp)].
  - destruct (IH c1 H1 Hf1) as (before & after & c0 & err & -> & Ha & Hb & Hp).
    exists before, (after ++ [e]), c0, err. by rewrite <- app_assoc.
  - exists events, [], c1, err. subst e. done.
Qed.

(**  A request returns the result of a response to its own id that the reader delivered while the
    request was waiting for it, and that carried no error: never the answer to another
    request, a late one or one for a request that ended. *)
Theorem response_correlated events c id x :
  run new_client events = Some c -> phase_of c id = Some (Finished (Returned x)) ->
  exists before after c0 err, events = before ++ EMessage (JsonRpcResponse id x err) :: after /\
    (err = None \/ err = Some []) /\
    run new_client before = Some c0 /\ live (phase_of c0 id) = true /\ id ∈ pending_requests c0.
Proof.
  intros Hr Hp. pose proof (reachable_ok events c id Hr) as Hok. unfold view in Hok. rewrite Hp in Hok.
  destruct (futures c !! id) as [[| y | |] |] eqn:Hf; try done. destruct Hok as [_ <-].
  destruct (answered_by events c id x Hr Hf) as (before & after & c0 & err & -> & Ha & Hb & Hf0).
  exists before, after, c0, err. split; [done |]. split; [destruct err as [[|] |]; auto; done |]. split; [done |].
  pose proof (reachable_ok before c0 id Hb) as Hok0. unfold view in Hok0. rewrite Hf0 in Hok0.
  destruct (phase_of c0 id) as [[| | o] |] eqn:Hp0; try done; try (split; [done |]; by apply bool_decide_eq_true in Hok0).
  rewrite run_app, Hb in Hr. cbn [mbind option_bind] in Hr.
  pose proof (run_final before c0 (EMessage (JsonRpcResponse id x err) :: after) c id o Hb Hr Hp0) as Ho. rewrite Hp in Ho. by injection Ho as <-.
Qed.

(** C38.  Closing reaches every request: after [close], a closed transport or a transport error, the
    future of each live request is done, so that each waiting coroutine goes on, and each one
    that is still sending goes on as soon as it waits.  After the first two the table is empty
    and the client is no longer initialized. *)
Theorem closure_settles events c e c' :
  run new_client events = Some c -> (e = EClose \/ e = ETransportClose \/ exists msg, e = ETransportError msg) -> step c e = Some c' ->
  (forall id i, requests c' !! id = Some (mkRequest i Waiting) -> is_Some (step c' (EResume id))) /\
  (forall id i, requests c' !! id = Some (mkRequest i Sending) ->
     exists c1, step c' (ESent id) = Some c1 /\ is_Some (step c1 (EResume id))) /\
  ((exists msg, e = ETransportError msg) \/ (pending_requests c' = ∅ /\ initialized c' = false)).
Proof.
  intros Hr He Hs.
  assert (Hdone : forall id i p, requests c' !! id = Some (mkRequest i p) -> live (Some p) = true ->
            exists f, futures c' !! id = Some f /\ fut_done f = true /\ f <> FCancelled).
  { intros id i p Hq Hl. apply phase_eq in Hq. pose proof (reachable_ok events c id Hr) as Hok.
    assert (Hv : exists msg, futures c' !! id = rejected msg (bool_decide (id ∈ pending_requests c)) <$> futures c !! id /\
               phase_of c' id = phase_of c id).
    { destruct He as [-> | [-> | [msg ->]]]; simpl in Hs; simplify_eq; eexists; split; try apply future_reject; done. }
    destruct Hv as (msg & Hf & Hph). rewrite Hf. rewrite Hph in Hq. unfold view in Hok. rewrite Hq in Hok.
    destruct p; try done; destruct (futures c !! id) as [[| y | m |] |]; try done; simpl; rewrite ?Hok; eauto. }
  split_and!.
  - intros id i Hq. destruct (Hdone id i Waiting Hq eq_refl) as (f & Hf & Hd & Hc). simpl. rewrite Hq. unfold resume. rewrite Hf.
    destruct f; try done; eauto.
  - intros id i Hq. destruct (Hdone id i Sending Hq eq_refl) as (f & Hf & Hd & Hc). simpl. rewrite Hq. eexists. split; [done |].
    simpl. rewrite lookup_insert_eq. unfold resume. simpl. rewrite Hf. destruct f; try done; eauto.
  - destruct He as [-> | [-> | [msg ->]]]; [right | right | left; eauto]; simpl in Hs; by simplify_eq.
Qed.

(**  The table of pending requests is exact: a live request without an answer is in it, so a response
    or a closure reaches it, and what is in it is live, unless its coroutine was cancelled from
    outside; without such a cancellation the table holds live requests only. *)
Theorem pending_exact events c id :
  run new_client events = Some c ->
  (live (phase_of c id) = true -> futures c !! id = Some FPending -> id ∈ pending_requests c) /\
  (id ∈ pending_requests c -> live (phase_of c id) = true \/ (phase_of c id = Some (Finished Cancelled) /\ ECancel id ∈ events)).
Proof.
  intros Hr. pose proof (reachable_ok events c id Hr) as Hok. unfold view in Hok. split.
  - intros Hl Hf. rewrite Hf in Hok. destruct (phase_of c id) as [[] |]; try done; by apply bool_decide_eq_true in Hok.
  - intros Hin. rewrite (bool_decide_eq_true_2 _ Hin) in Hok.
    destruct (phase_of c id) as [[| | o] |] eqn:Hp; try (by left); destruct (futures c !! id) as [f |]; try done.
    right. assert (o = Cancelled) as -> by (destruct o, f; naive_solver). split; [done |]. by eapply cancelled_by.
Qed.

(** ** Initialization *)

(** A server that describes a capability by an object, as servers do, is not accepted: the fields are booleans. *)
Lemma capability_objects_rejected (tools : odict pyval) (rest : odict pyval) :
  (forall d, bool_field (VDict d) = None) ->
  exists x, parse_capabilities (VDict [("capabilities", VDict (("tools", VDict tools) :: rest))]) = Raise x.
Proof.
  intros Hb. eexists. unfold parse_capabilities. simpl. unfold validated at 1. rewrite Hb. reflexivity.
Qed.

(** A tool call never waits longer than a request without a timeout, whatever timeout it is given. *)
Lemma tool_timeout_capped (timeout : option Z) (elapsed : Z) : (tool_call_wait timeout elapsed <= DEFAULT_REQUEST_TIMEOUT)%Z.
Proof. unfold tool_call_wait, timeout_or at 2. lia. Qed.

End facts.

(** ** Witnesses *)

#[local] Instance demo_fields : Fields := {|
  bool_field v := match v with VBool b => Some b | _ => None end;
  str_field v := match v with VStr s => Some s | _ => None end;
  dict_field v := match v with VDict d => Some d | _ => None end;
  repr _ := "<value>";
|}.

Definition hello : pyval :=
  VDict [("capabilities", VDict [("tools", VBool true)]); ("serverInfo", VDict [("name", VStr "files"); ("version", VStr "2")])].
Definition init_id : rpc_id := IdStr "a".
Definition call_id : rpc_id := IdStr "b".
Definition handshake : list Event := [EBegin init_id true; ESent init_id; EMessage (JsonRpcResponse init_id hello None); EResume init_id].
Definition demo_events : list Event :=
  handshake ++ [EBegin call_id false; EMessage (JsonRpcResponse (IdInt 7) (VInt 1) None); ESent call_id;
                EMessage (JsonRpcResponse call_id (VInt 42) (Some [])); EResume call_id].
Definition demo_run (events : list Event) : McpProtocolClient := default new_client (run new_client events).

Lemma response_correlated_witness :
  phase_of (demo_run demo_events) call_id = Some (Finished (Returned (VInt 42))) /\
  exists before after c0 err, demo_events = before ++ EMessage (JsonRpcResponse call_id (VInt 42) err) :: after /\
    (err = None \/ err = Some []) /\
    run new_client before = Some c0 /\ live (phase_of c0 call_id) = true /\ call_id ∈ pending_requests c0.
Proof.
  assert (H : phase_of (demo_run demo_events) call_id = Some (Finished (Returned (VInt 42)))) by (vm_compute; reflexivity).
  split; [exact H |]. apply (response_correlated demo_events (demo_run demo_events)); [vm_compute; reflexivity | exact H].
Defined.

Definition before_close : list Event := handshake ++ [EBegin call_id false; ESent call_id].

Lemma closure_settles_witness :
  exists c', step (demo_run before_close) EClose = Some c' /\ is_Some (step c' (EResume call_id)) /\ initialized c' = false.
Proof.
  exists (close (demo_run before_close)). split; [reflexivity |].
  destruct (closure_settles before_close (demo_run before_close) EClose (close (demo_run before_close))) as (Hw & _ & Hi);
    [vm_compute; reflexivity | by left | reflexivity |].
  split; [apply (Hw call_id false); vm_compute; reflexivity |]. destruct Hi as [[msg E] | [_ E]]; [discriminate | exact E].
Defined.

Lemma pending_exact_witness :
  live (phase_of (demo_run before_close) call_id) = true /\ call_id ∈ pending_requests (demo_run before_close).
Proof.
  destruct (pending_exact before_close (demo_run before_close) call_id) as [Hreg _]; [vm_compute; reflexivity |].
  split; [vm_compute; reflexivity |]. apply Hreg; vm_compute; reflexivity.
Defined.

(** A request cancelled from outside, as by the deadline of [call_tool], stays in the table. *)
Example cancellation_leaks :
  let c := demo_run (handshake ++ [EBegin call_id false; ESent call_id; ECancel call_id]) in
  bool_decide (call_id ∈ pending_requests c) = true /\ phase_of c call_id = Some (Finished Cancelled).
Proof. split; vm_compute; reflexivity. Qed.

(** A client whose transport closes between the answer and the end of the handshake ends initialized. *)
Example initialized_after_close :
  let c := demo_run [EBegin init_id true; ESent init_id; EMessage (JsonRpcResponse init_id hello None); ETransportClose; EResume init_id] in
  initialized c = true.
Proof. vm_compute. reflexivity. Qed.
