(* ===== verification/McpManager.v ===== *)
(** * MCP connection manager (integrations/mcp/runtime/manager.py, transports/base.py)

    Connections by name, one connection attempt after the other with [ExponentialBackoff],
    suppression of servers that refused the credentials.  [connect], [disconnect] and
    [disconnect_all] run under the manager's lock, so each is one transition.  What a
    server does at an attempt is data ([Attempt]); the handshake itself is [Mcp.initialize]. *)

From Stdlib Require Import QArith.
From S2P Require Import Prelude PyStr Retry Mcp.
Local Open Scope Z_scope.

Inductive McpConnectionState := CONNECTING | CONNECTED | RECONNECTING | DISCONNECTED | NEEDS_AUTH | FAILED.
#[export] Instance McpConnectionState_eq_dec : EqDecision McpConnectionState.
Proof. solve_decision. Defined.

Inductive TransportType := STDIO | WEBSOCKET | SSE.

(** A server configuration: which transport sections it has; the URL of the WebSocket one. *)
Record McpServerConfig := mkServerConfig { cf_type : TransportType; cf_stdio : bool; cf_websocket : option string }.

(** ** Transports (transports/base.py, stdio.py, websocket.py) *)

Record Transport := mkTransport { started : bool; closed : bool }.
Definition new_transport : Transport := mkTransport false false.

(** The exceptions of an attempt, as the handlers of the manager tell them apart. *)
Inductive AttemptError :=
  | BuiltinTimeout (msg : string)
  | ProtocolFailure (msg : string)
  | OtherFailure (msg : string).

(** How the handshake ends.  [McpTimeoutError] is an [Exception], no [TimeoutError]. *)
Inductive Handshake :=
  | HandshakeOk (info : McpServerInfo)
  | HandshakeTimeout
  | HandshakeProtocol (msg : string)
  | HandshakeError (msg : string).

(** A server at one attempt: the failure of the spawn or of the dial if any, the handshake. *)
Record Attempt := mkAttempt { at_start : option string; at_handshake : Handshake }.

(** [start] of both transports: every failure of the dial is a [ConnectionError]. *)
Definition start (t : Transport) (a : Attempt) : Transport * option AttemptError :=
  if started t then (t, Some (OtherFailure "Transport already started"))
  else if closed t then (t, Some (OtherFailure "Transport is closed"))
  else match at_start a with
       | Some msg => (t, Some (OtherFailure msg))
       | None => (mkTransport true (closed t), None)
       end.

Definition handshake_error (h : Handshake) : McpServerInfo + AttemptError :=
  match h with
  | HandshakeOk info => inl info
  | HandshakeTimeout => inr (OtherFailure "Initialize handshake timed out after 30.0s")
  | HandshakeProtocol msg => inr (ProtocolFailure msg)
  | HandshakeError msg => inr (OtherFailure msg)
  end.

(** ** Connections *)

Record ConnectionMetadata := mkMetadata {
  md_client : nat;
  md_backoff : Backoff;
  md_state : McpConnectionState;
  md_server_info : option McpServerInfo;
  md_last_error : option string;
  md_auth_failure : option Q;
}.

Definition AUTH_FAILURE_CACHE_DURATION : Q := 900.

(** A timestamp of 0 counts as none. *)
Definition is_auth_suppressed (now : Q) (m : ConnectionMetadata) : bool :=
  match md_auth_failure m with
  | Some t => negb (Qeq_bool t 0) && negb (Qle_bool AUTH_FAILURE_CACHE_DURATION (now - t))
  | None => false
  end.

Definition set_md_state (s : McpConnectionState) (m : ConnectionMetadata) : ConnectionMetadata :=
  mkMetadata (md_client m) (md_backoff m) s (md_server_info m) (md_last_error m) (md_auth_failure m).
Definition set_last_error (e : option string) (m : ConnectionMetadata) : ConnectionMetadata :=
  mkMetadata (md_client m) (md_backoff m) (md_state m) (md_server_info m) e (md_auth_failure m).
Definition set_backoff (b : Backoff) (m : ConnectionMetadata) : ConnectionMetadata :=
  mkMetadata (md_client m) b (md_state m) (md_server_info m) (md_last_error m) (md_auth_failure m).
Definition record_auth_failure (now : Q) (m : ConnectionMetadata) : ConnectionMetadata :=
  mkMetadata (md_client m) (md_backoff m) NEEDS_AUTH (md_server_info m) (md_last_error m) (Some now).
Definition clear_auth_failure (m : ConnectionMetadata) : ConnectionMetadata :=
  mkMetadata (md_client m) (md_backoff m) (md_state m) (md_server_info m) (md_last_error m) None.
Definition record_success (info : McpServerInfo) (m : ConnectionMetadata) : ConnectionMetadata :=
  mkMetadata (md_client m) (reset (md_backoff m)) CONNECTED (Some info) None (md_auth_failure m).

Inductive ConnectError :=
  | ConnectionFailure (attempts : Z) (last_error : option AttemptError)
  | AuthFailure (msg : string)
  | AuthSuppressed
  | Misconfigured (msg : string)
  | NoConfig
  | LoopFuel.

Definition is_auth_error (msg : string) : bool := contains msg "401" || contains msg "Unauthorized".

Definition schedule_retry (u : Q) (m : ConnectionMetadata) : ConnectionMetadata * option Q :=
  let m := set_md_state RECONNECTING m in
  let '(b, delay) := next_delay (md_backoff m) u in
  (set_backoff b m, match delay with Some d => if Qeq_bool d 0 then None else Some d | None => None end).

(** [_attempt_connect]: the transport it leaves, and the metadata when it succeeds. *)
Definition attempt_connect (t : Transport) (a : Attempt) (m : ConnectionMetadata) : Transport * (ConnectionMetadata + AttemptError) :=
  match start t a with
  | (t', Some e) => (t', inr e)
  | (t', None) => (t', match handshake_error (at_handshake a) with inl info => inl (record_success info m) | inr e => inr e end)
  end.

(** The state of the loop of [_create_connection]: the transport, the metadata, the number of attempts
    made and the delays slept.  [attempt i] is what the server does at attempt [i]. *)
Record Loop := mkLoop { lp_transport : Transport; lp_metadata : ConnectionMetadata; lp_attempts : nat; lp_slept : list Q }.

Definition exhausted (last_error : option AttemptError) (l : Loop) : Loop * option ConnectError :=
  (mkLoop (lp_transport l) (set_md_state FAILED (lp_metadata l)) (lp_attempts l) (lp_slept l),
   Some (ConnectionFailure (current_attempt (md_backoff (lp_metadata l))) last_error)).

Section loop.
Context (attempt : nat -> Attempt) (draw : nat -> Q) (now : Q).

Fixpoint connect_loop (fuel : nat) (last_error : option AttemptError) (l : Loop) : Loop * option ConnectError :=
  match fuel with
  | O => (l, Some LoopFuel)
  | S fuel =>
      if is_exhausted (md_backoff (lp_metadata l)) then exhausted last_error l
      else
        let n := lp_attempts l in
        let '(t, result) := attempt_connect (lp_transport l) (attempt n) (lp_metadata l) in
        let retry (text : string) (e : AttemptError) :=
          let '(m, delay) := schedule_retry (draw n) (set_last_error (Some text) (lp_metadata l)) in
          match delay with
          | Some d => connect_loop fuel (Some e) (mkLoop t m (S n) (lp_slept l ++ [d]))
          | None => exhausted (Some e) (mkLoop t m (S n) (lp_slept l))
          end in
        match result with
        | inl m => (mkLoop t m (S n) (lp_slept l), None)
        | inr (BuiltinTimeout msg) => retry ("Timeout: " +:+ msg) (BuiltinTimeout msg)
        | inr (ProtocolFailure msg) =>
            if is_auth_error msg then
              (mkLoop t (record_auth_failure now (set_last_error (Some ("Protocol error: " +:+ msg)) (lp_metadata l))) (S n) (lp_slept l),
               Some (AuthFailure msg))
            else retry ("Protocol error: " +:+ msg) (ProtocolFailure msg)
        | inr (OtherFailure msg) =>
            exhausted (Some (OtherFailure msg))
              (mkLoop t (set_last_error (Some ("Unexpected error: " +:+ msg)) (lp_metadata l)) (S n) (lp_slept l))
        end
  end.
End loop.

(** [ExponentialBackoff(max_attempts=5)]. *)
Definition connection_backoff : Backoff := new_backoff 1 30 2 (1 # 5) (Some 5).

(** ** The manager *)

Record Manager := mkManager {
  connections : odict ConnectionMetadata;
  (** The transport of every client made so far. *)
  transports : gmap nat Transport;
  next_client : nat;
}.

(** [_build_transport]. *)
Definition build_transport (config : McpServerConfig) : option ConnectError :=
  match cf_type config, cf_stdio config, cf_websocket config with
  | STDIO, true, _ => None
  | WEBSOCKET, _, Some url =>
      if startswith url "ws://" || startswith url "wss://" then None else Some (Misconfigured "WebSocket URL must start with ws:// or wss://")
  | _, _, _ => Some (Misconfigured "Unsupported or misconfigured transport")
  end.

Definition create_connection (name : string) (config : McpServerConfig) (attempt : nat -> Attempt) (draw : nat -> Q) (now : Q) (mgr : Manager)
    : Manager * (nat + ConnectError) * nat * list Q :=
  match build_transport config with
  | Some e => (mgr, inr e, 0%nat, [])
  | None =>
      let id := next_client mgr in
      let m0 := mkMetadata id connection_backoff CONNECTING None None None in
      let '(l, error) := connect_loop attempt draw now 6 None (mkLoop new_transport m0 0 []) in
      let mgr' := mkManager (od_set name (lp_metadata l) (connections mgr)) (<[id := lp_transport l]> (transports mgr)) (S id) in
      (mgr', match error with None => inl id | Some e => inr e end, lp_attempts l, lp_slept l)
  end.

(** [connect]: the manager, the client or the exception, the attempts made and the delays slept. *)
Definition connect (name : string) (config : option McpServerConfig) (force_new : bool) (attempt : nat -> Attempt) (draw : nat -> Q) (now : Q)
    (mgr : Manager) : Manager * (nat + ConnectError) * nat * list Q :=
  match config with
  | None => (mgr, inr NoConfig, 0%nat, [])
  | Some config =>
      match od_get name (connections mgr) with
      | Some m =>
          if force_new then create_connection name config attempt draw now mgr
          else if is_auth_suppressed now m then (mgr, inr AuthSuppressed, 0%nat, [])
          else if decide (md_state m = CONNECTED) then (mgr, inl (md_client m), 0%nat, [])
          else create_connection name config attempt draw now mgr
      | None => create_connection name config attempt draw now mgr
      end
  end.

Definition close_transport (t : Transport) : Transport := mkTransport (started t) true.

(** A transport that closes by itself: nothing tells the manager. *)
Definition transport_dies (id : nat) (mgr : Manager) : Manager :=
  mkManager (connections mgr) (alter close_transport id (transports mgr)) (next_client mgr).

Definition disconnect (name : string) (mgr : Manager) : Manager :=
  match od_get name (connections mgr) with
  | Some m => mkManager (od_pop name (connections mgr)) (alter close_transport (md_client m) (transports mgr)) (next_client mgr)
  | None => mgr
  end.

Definition disconnect_all (mgr : Manager) : Manager :=
  mkManager [] (foldr (fun m ts => alter close_transport (md_client m) ts) (transports mgr) (connections mgr).*2) (next_client mgr).

Definition get_connection (name : string) (mgr : Manager) : option nat :=
  match od_get name (connections mgr) with
  | Some m => if decide (md_state m = CONNECTED) then Some (md_client m) else None
  | None => None
  end.
Definition get_connection_state (name : string) (mgr : Manager) : option McpConnectionState := md_state <$> od_get name (connections mgr).
Definition list_connections (mgr : Manager) : odict (McpConnectionState * option string) :=
  (fun kv => (kv.1, (md_state kv.2, md_last_error kv.2))) <$> connections mgr.

(** ** What the manager does *)

Inductive manager_op :=
  | MConnect (name : string) (config : option McpServerConfig) (force_new : bool) (attempt : nat -> Attempt) (draw : nat -> Q) (now : Q)
  | MDisconnect (name : string)
  | MDisconnectAll
  | MTransportDies (id : nat).

Definition manager_step (mgr : Manager) (o : manager_op) : Manager :=
  match o with
  | MConnect name config force_new attempt draw now => (connect name config force_new attempt draw now mgr).1.1.1
  | MDisconnect name => disconnect name mgr
  | MDisconnectAll => disconnect_all mgr
  | MTransportDies id => transport_dies id mgr
  end.

Definition new_manager : Manager := mkManager [] ∅ 0.

(** ** Attempts *)

Lemma delay_positive b u d : (next_delay b u).2 = Some d -> Qeq_bool d 0 = false.
Proof.
  unfold next_delay. destruct (attempts_used_up b); [done |]. simpl. intros [= <-].
  destruct (Qeq_bool _ 0) eqn:E; [| done]. apply Qeq_bool_iff in E.
  pose proof (Qminmax.Q.le_max_l (1 # 10) (Qminmax.Qmin (current_delay b) (max_delay b) + u * (Qminmax.Qmin (current_delay b) (max_delay b) * bo_jitter b))) as Hm.
  rewrite E in Hm. exfalso. by apply (Qle_not_lt _ _ Hm).
Qed.

(** The outcome of a new connection, with the state it is left in, the attempts and the sleeps. *)
Definition outcome_of (name : string) (r : Manager * (nat + ConnectError) * nat * list Q) : (nat + ConnectError) * option McpConnectionState * nat * nat :=
  let '(mgr, result, n, slept) := r in (result, get_connection_state name mgr, n, length slept).

Lemma first_retry u m : md_backoff m = connection_backoff ->
  exists b d, schedule_retry u m = (set_backoff b (set_md_state RECONNECTING m), Some d) /\ is_exhausted b = false /\ current_attempt b = 1.
Proof.
  intros Hm. unfold schedule_retry. simpl md_backoff. rewrite Hm.
  destruct (next_delay connection_backoff u) as [b [d |]] eqn:E; [| done].
  rewrite (delay_positive connection_backoff u d) by (by rewrite E).
  unfold next_delay in E. simpl in E. injection E as <- <-. by eexists _, _.
Qed.

(** A second attempt finds the transport started. *)
Lemma restart_fails attempt draw now fuel e l :
  started (lp_transport l) = true -> is_exhausted (md_backoff (lp_metadata l)) = false ->
  exists l', connect_loop attempt draw now (S fuel) e l = exhausted (Some (OtherFailure "Transport already started")) l' /\
    lp_attempts l' = S (lp_attempts l) /\ lp_slept l' = lp_slept l /\ md_backoff (lp_metadata l') = md_backoff (lp_metadata l).
Proof.
  intros Hs Hx. cbn [connect_loop]. rewrite Hx. unfold attempt_connect, start. rewrite Hs. by eexists.
Qed.

(**  The first attempt decides.  A spawn, a dial or a handshake that fails, also by a timeout, is never
    tried again; a protocol error is retried once, after one delay, and that attempt always fails,
    because the transport is already started; credentials that are refused are recorded.  So the
    five attempts of the backoff are never made. *)
Theorem first_attempt_decides name config attempt draw now mgr :
  build_transport config = None ->
  outcome_of name (create_connection name config attempt draw now mgr) =
  match at_start (attempt 0%nat), at_handshake (attempt 0%nat) with
  | Some msg, _ => (inr (ConnectionFailure 0 (Some (OtherFailure msg))), Some FAILED, 1%nat, 0%nat)
  | None, HandshakeOk _ => (inl (next_client mgr), Some CONNECTED, 1%nat, 0%nat)
  | None, HandshakeTimeout =>
      (inr (ConnectionFailure 0 (Some (OtherFailure "Initialize handshake timed out after 30.0s"))), Some FAILED, 1%nat, 0%nat)
  | None, HandshakeError msg => (inr (ConnectionFailure 0 (Some (OtherFailure msg))), Some FAILED, 1%nat, 0%nat)
  | None, HandshakeProtocol msg =>
      if is_auth_error msg then (inr (AuthFailure msg), Some NEEDS_AUTH, 1%nat, 0%nat)
      else (inr (ConnectionFailure 1 (Some (OtherFailure "Transport already started"))), Some FAILED, 2%nat, 1%nat)
  end.
Proof.
  intros Hb. unfold create_connection. rewrite Hb. unfold get_connection_state, outcome_of.
  destruct (attempt 0%nat) as [[msg |] h] eqn:Ha.
  - cbn. rewrite Ha. cbn. unfold get_connection_state. simpl. rewrite od_get_set_eq. reflexivity.
  - destruct h as [info | | msg | msg]; try (cbn; rewrite Ha; cbn; unfold get_connection_state; simpl; rewrite od_get_set_eq; reflexivity).
    remember 5%nat as fuel eqn:Hfuel. cbn [connect_loop lp_metadata lp_attempts md_backoff]. rewrite Ha. cbn -[schedule_retry connect_loop od_get od_set].
    destruct (is_auth_error msg); [unfold get_connection_state; simpl; by rewrite od_get_set_eq |].
    match goal with |- context [schedule_retry ?u ?m] => destruct (first_retry u m eq_refl) as (b & d & -> & Hx & Hc) end.
    subst fuel. match goal with |- context [connect_loop attempt draw now 5 ?e ?l] =>
      destruct (restart_fails attempt draw now 4 e l eq_refl Hx) as (l' & -> & Hn & Hs & Hb') end.
    unfold get_connection_state. simpl in *. rewrite od_get_set_eq, Hn, Hs, Hb', Hc. reflexivity.
Qed.

(** ** Suppression and reuse *)

Lemma auth_recorded attempt draw now fuel : forall e l msg l',
  connect_loop attempt draw now fuel e l = (l', Some (AuthFailure msg)) ->
  md_auth_failure (lp_metadata l') = Some now /\ md_state (lp_metadata l') = NEEDS_AUTH.
Proof.
  induction fuel as [| fuel IH]; intros e l msg l'; cbn -[attempt_connect schedule_retry exhausted]; [done |].
  destruct (is_exhausted _); [by intros |].
  destruct (attempt_connect _ _ _) as [t [m | [w | w | w]]]; [done | | | by intros].
  - destruct (schedule_retry _ _) as [m [d |]]; [apply IH | by intros].
  - destruct (is_auth_error w); [by intros [= <- _] |]. destruct (schedule_retry _ _) as [m [d |]]; [apply IH | by intros].
Qed.

(**  After the server refused the credentials, and until fifteen minutes later, connecting by that name
    without [force_new] raises at once: no attempt is made and nothing changes.  Afterwards the
    server is asked again. *)
Theorem auth_failure_suppressed name config attempt draw now mgr mgr1 msg n slept :
  create_connection name config attempt draw now mgr = (mgr1, inr (AuthFailure msg), n, slept) -> ~ (now == 0)%Q ->
  forall config' attempt' draw' now',
    connect name (Some config') false attempt' draw' now' mgr1 =
    if negb (Qle_bool AUTH_FAILURE_CACHE_DURATION (now' - now)) then (mgr1, inr AuthSuppressed, 0%nat, [])
    else create_connection name config' attempt' draw' now' mgr1.
Proof.
  intros Hc Hnow config' attempt' draw' now'.
  assert (Hm : exists m, od_get name (connections mgr1) = Some m /\ md_auth_failure m = Some now /\ md_state m = NEEDS_AUTH).
  { unfold create_connection in Hc. destruct (build_transport config) eqn:Hb; [simplify_eq; unfold build_transport in Hb; by repeat case_match |].
    match type of Hc with context [connect_loop ?a ?d ?t ?f ?e ?l] => destruct (connect_loop a d t f e l) as [l' [x |]] eqn:Hl end; [| simplify_eq].
    injection Hc as <- -> _ _. simpl. rewrite od_get_set_eq. exists (lp_metadata l'). split; [done |]. by eapply auth_recorded. }
  destruct Hm as (m & Hg & Ht & Hs). unfold connect. rewrite Hg. unfold is_auth_suppressed. rewrite Ht.
  destruct (Qeq_bool now 0) eqn:E; [by apply Qeq_bool_iff in E |]. simpl.
  destruct (Qle_bool _ _); simpl; [| done]. rewrite decide_False; [done | congruence].
Qed.

(** ** The invariant of the manager *)

Record manager_ok (mgr : Manager) : Prop := {
  mo_client k m : od_get k (connections mgr) = Some m ->
    exists t, transports mgr !! md_client m = Some t /\ (md_state m = CONNECTED -> started t = true);
  mo_distinct k k' m m' : od_get k (connections mgr) = Some m -> od_get k' (connections mgr) = Some m' ->
    md_client m = md_client m' -> k = k';
  mo_fresh id t : transports mgr !! id = Some t -> (id < next_client mgr)%nat;
}.

(** The loop keeps the client of the connection, which ends connected over a started transport only. *)
Lemma connect_loop_state attempt draw now fuel : forall e l l' error,
  connect_loop attempt draw now fuel e l = (l', error) -> md_state (lp_metadata l) <> CONNECTED ->
  md_client (lp_metadata l') = md_client (lp_metadata l) /\
  (md_state (lp_metadata l') = CONNECTED -> started (lp_transport l') = true).
Proof.
  assert (Hretry : forall u m m' d, schedule_retry u m = (m', d) -> md_client m' = md_client m /\ md_state m' = RECONNECTING).
  { intros u m m' d. unfold schedule_retry. destruct (next_delay _ _). intros [= <- _]. done. }
  induction fuel as [| fuel IH]; intros e l l' error; cbn -[attempt_connect schedule_retry]; [by intros [= <- <-] |].
  destruct (is_exhausted _); [intros [= <- _] _; done |].
  destruct (attempt_connect _ _ _) as [t [m | [w | w | w]]] eqn:Ha.
  - intros [= <- _] _. simpl. unfold attempt_connect, start in Ha.
    repeat case_match; simplify_eq; done.
  - destruct (schedule_retry _ _) as [m d] eqn:Hr. apply Hretry in Hr as [Hc Hs]. intros Hl Hne.
    destruct d as [d |]; [| injection Hl as <- _; done].
    destruct (IH _ _ _ _ Hl) as [Hc' Hs']; [simpl; congruence |]. split; [| done]. rewrite Hc'. simpl. by rewrite Hc.
  - destruct (is_auth_error w); [intros [= <- _] _; done |].
    destruct (schedule_retry _ _) as [m d] eqn:Hr. apply Hretry in Hr as [Hc Hs]. intros Hl Hne.
    destruct d as [d |]; [| injection Hl as <- _; done].
    destruct (IH _ _ _ _ Hl) as [Hc' Hs']; [simpl; congruence |]. split; [| done]. rewrite Hc'. simpl. by rewrite Hc.
  - intros [= <- _] _. done.
Qed.

Lemma create_ok name config attempt draw now mgr :
  manager_ok mgr -> manager_ok (create_connection name config attempt draw now mgr).1.1.1.
Proof.
  intros [Hc Hd Hf]. unfold create_connection. destruct (build_transport config); [by split |].
  destruct (connect_loop _ _ _ _ _ _) as [l error] eqn:Hl. apply connect_loop_state in Hl as [Hid Hst]; [| done].
  simpl in Hid. assert (Hnew : forall m k, od_get k (connections mgr) = Some m -> md_client m <> next_client mgr).
  { intros m k Hk. destruct (Hc k m Hk) as (t & Ht & _). apply Hf in Ht. lia. }
  split; simpl.
  - intros k m. rewrite od_get_set. case_decide as E; [intros [= <-] | intros Hk].
    + rewrite Hid, lookup_insert_eq. eauto.
    + rewrite lookup_insert_ne; [by apply (Hc k) |]. intros Eq. by apply (Hnew m k Hk).
  - intros k k' m m'. rewrite !od_get_set. do 2 case_decide; subst; try done; intros Hk Hk' E; simplify_eq.
    + exfalso. apply (Hnew m' k' Hk'). congruence.
    + exfalso. apply (Hnew m k Hk). congruence.
    + by eapply Hd.
  - intros id t [[<- _] | [_ Ht]]%lookup_insert_Some; [lia |]. apply Hf in Ht. lia.
Qed.

Lemma close_ok id mgr : manager_ok mgr -> manager_ok (transport_dies id mgr).
Proof.
  intros [Hc Hd Hf]. split; simpl; [| done |].
  - intros k m Hk. destruct (Hc k m Hk) as (t & Ht & Hs). destruct (decide (md_client m = id)) as [<- | Hne].
    + exists (close_transport t). by rewrite lookup_alter_eq, Ht.
    + exists t. by rewrite lookup_alter_ne by done.
  - intros j t Ht. destruct (decide (j = id)) as [-> | Hne]; [rewrite lookup_alter_eq in Ht | rewrite lookup_alter_ne in Ht by done].
    + apply fmap_Some in Ht as (t' & Ht & _). by eapply Hf.
    + by eapply Hf.
Qed.

Lemma disconnect_ok name mgr : manager_ok mgr -> manager_ok (disconnect name mgr).
Proof.
  intros Hok. unfold disconnect. destruct (od_get name (connections mgr)) as [m0 |] eqn:Hn; [| done].
  destruct (close_ok (md_client m0) mgr Hok) as [Hc Hd Hf]. split; simpl in *; [| | done].
  - intros k m. rewrite od_get_pop. case_decide; [done |]. by apply Hc.
  - intros k k' m m'. rewrite !od_get_pop. repeat case_decide; try done. by apply Hd.
Qed.

Lemma reachable_manager_ok (ops : list manager_op) : manager_ok (fold_left manager_step ops new_manager).
Proof.
  apply (fold_left_ind manager_ok); [by split |]. intros mgr [name config force_new attempt draw now | name | | id] Hok; simpl.
  - unfold connect. destruct config as [config |]; [| done].
    destruct (od_get name (connections mgr)); [| by apply create_ok]. destruct force_new; [by apply create_ok |].
    destruct (is_auth_suppressed _ _); [done |]. case_decide; [done | by apply create_ok].
  - by apply disconnect_ok.
  - destruct Hok as [_ _ Hf]. split; simpl; [done | done |]. induction (connections mgr).*2 as [| m ms IH]; simpl; [done |].
    intros j t Ht. destruct (decide (j = md_client m)) as [-> | Hne]; [rewrite lookup_alter_eq in Ht | rewrite lookup_alter_ne in Ht by done].
    + apply fmap_Some in Ht as (t' & Ht & _). by eapply IH.
    + by eapply IH.
  - by apply close_ok.
Qed.

(**  Whatever was done before, disconnecting one server closes its own transport and leaves every other
    connection, its state and its transport alone; a connection that reports CONNECTED has a
    transport that was started. *)
Theorem disconnect_isolated (ops : list manager_op) name name' :
  name <> name' ->
  let mgr := fold_left manager_step ops new_manager in
  let mgr' := disconnect name mgr in
  get_connection_state name' mgr' = get_connection_state name' mgr /\ get_connection name' mgr' = get_connection name' mgr /\
  (forall m, od_get name' (connections mgr) = Some m ->
     transports mgr' !! md_client m = transports mgr !! md_client m /\
     (md_state m = CONNECTED -> exists t, transports mgr !! md_client m = Some t /\ started t = true)) /\
  get_connection_state name mgr' = None.
Proof.
  intros Hne mgr mgr'. pose proof (reachable_manager_ok ops) as [Hc Hd Hf]. fold mgr in Hc, Hd, Hf.
  assert (Hget : od_get name' (connections mgr') = od_get name' (connections mgr)).
  { unfold mgr', disconnect. destruct (od_get name (connections mgr)); [| done]. simpl. by rewrite od_get_pop, decide_False. }
  unfold get_connection, get_connection_state. rewrite Hget. split_and!; try done.
  - intros m Hm. destruct (Hc name' m Hm) as (t & Ht & Hs). split; [| eauto].
    unfold mgr', disconnect. destruct (od_get name (connections mgr)) as [m0 |] eqn:Hn; [| done]. simpl.
    rewrite lookup_alter_ne; [done |]. intros E. apply Hne. by eapply Hd.
  - unfold mgr', disconnect. destruct (od_get name (connections mgr)) as [m0 |] eqn:Hn; simpl; [by rewrite od_get_pop, decide_True | by rewrite Hn].
Qed.

(** ** Witnesses *)

Definition stdio_config : McpServerConfig := mkServerConfig STDIO true None.
Definition good_server : Attempt := mkAttempt None (HandshakeOk (mkServerInfo "files" "2" None)).
Definition flaky (n : nat) : Attempt := match n with O => mkAttempt None (HandshakeProtocol "MCP error -1: busy") | _ => good_server end.
Definition refusing (n : nat) : Attempt := mkAttempt None (HandshakeProtocol "MCP error 401: Unauthorized").
Definition steady (n : nat) : Attempt := good_server.
Definition no_jitter (n : nat) : Q := 0.

Lemma first_attempt_decides_witness :
  build_transport stdio_config = None /\
  outcome_of "files" (create_connection "files" stdio_config flaky no_jitter 5 new_manager) =
    (inr (ConnectionFailure 1 (Some (OtherFailure "Transport already started"))), Some FAILED, 2%nat, 1%nat).
Proof. split; [reflexivity |]. exact (first_attempt_decides "files" stdio_config flaky no_jitter 5 new_manager eq_refl). Defined.

Definition refused : Manager * (nat + ConnectError) * nat * list Q := create_connection "files" stdio_config refusing no_jitter 5 new_manager.

Lemma auth_failure_suppressed_witness :
  connect "files" (Some stdio_config) false steady no_jitter 900 refused.1.1.1 = (refused.1.1.1, inr AuthSuppressed, 0%nat, []).
Proof.
  rewrite (auth_failure_suppressed "files" stdio_config refusing no_jitter 5 new_manager refused.1.1.1 "MCP error 401: Unauthorized" 1 []);
    [reflexivity | vm_compute; reflexivity | vm_compute; discriminate].
Defined.

Definition two_servers : list manager_op :=
  [MConnect "files" (Some stdio_config) false steady no_jitter 5; MConnect "web" (Some stdio_config) false steady no_jitter 6].

Lemma disconnect_isolated_witness :
  get_connection "web" (disconnect "files" (fold_left manager_step two_servers new_manager)) = Some 1%nat.
Proof. destruct (disconnect_isolated two_servers "files" "web") as (_ & -> & _); [discriminate | vm_compute; reflexivity]. Defined.

(** A connection whose transport died is still handed out. *)
Example dead_connection_reused :
  let mgr := fold_left manager_step [MConnect "files" (Some stdio_config) false steady no_jitter 5; MTransportDies 0] new_manager in
  (connect "files" (Some stdio_config) false steady no_jitter 7 mgr).1.1.2 = inl 0%nat /\ closed <$> transports mgr !! 0%nat = Some true.
Proof. split; vm_compute; reflexivity. Qed.

(** A replaced connection is never closed, not even by [disconnect_all]. *)
Example replaced_connection_leaks :
  let mgr := fold_left manager_step
    [MConnect "files" (Some stdio_config) false steady no_jitter 5; MConnect "files" (Some stdio_config) true steady no_jitter 6; MDisconnectAll]
    new_manager in
  (fun t => (started t, closed t)) <$> transports mgr !! 0%nat = Some (true, false).
Proof. vm_compute. reflexivity. Qed.
