(* ===== verification/Detectors.v ===== *)
(** * Detectors (middleware/detectors/)

    Secrets, personal data, prompt injection and invisible Unicode.  The regular
    expressions are matched by Python's [re]: [Regex] has the matches of a named
    pattern as pairs of offsets; what is done with the matches, the spans, their
    merging and masking, the overlap test, the entropy test and the findings, is
    modelled.  [log2] is [math.log2]; [normalize] and [category] are
    [unicodedata]'s. *)

From stdpp Require Import pretty.
From Stdlib Require Import QArith.
From S2P Require Import Prelude PyStr PyVal Sanitize.
Local Open Scope nat_scope.

(** [s[i:j]] for [0 <= i], [0 <= j]. *)
Definition slice (s : string) (i j : nat) : string := of_chars (take (j - i) (drop i (chars s))).

Definition build_preview (text : string) (start stop context : nat) (marker : string) : string :=
  slice text (start - context) start +:+ marker +:+
  slice text stop (Nat.min (String.length text) (stop + context)).

(** The [f"text[{start}:{end}]"] of a finding. *)
Definition span_location (start stop : nat) : string := "text[" +:+ pretty start +:+ ":" +:+ pretty stop +:+ "]".

Class Regex := {
  (** [pattern.finditer(text)]: start and end of each match, in order *)
  finditer : string -> string -> list (nat * nat);
  (** [pattern.fullmatch(text, start, end)] *)
  fullmatch : string -> string -> nat -> nat -> bool;
  (** [_UNESCAPED_QUOTE_RE.search(text, start, end)] *)
  search_quote : string -> nat -> nat -> option (nat * nat);
}.

(** Matches lie in the text, in the part that was searched. *)
Class RegexLaws `{Regex} := {
  finditer_bounds : forall p t i j, (i, j) ∈ finditer p t -> i <= j <= String.length t;
  search_quote_bounds : forall t i j a b, search_quote t i j = Some (a, b) -> i <= a < b /\ b <= j;
}.

(** A span of text to mask: start, end and category. *)
Abbreviation span := (nat * nat * string)%type.

Section detectors.
Context `{Regex}.

(** ** Secrets *)

Record SecretPattern := mkPattern {
  p_name : string;
  p_severity : Severity;
  p_category : FindingCategory;
}.

Definition SECRET_PATTERNS : list SecretPattern := [
  mkPattern "aws_access_key" CRITICAL API_KEY;
  mkPattern "aws_secret_key" CRITICAL API_KEY;
  mkPattern "github_token" CRITICAL API_KEY;
  mkPattern "bearer_token" HIGH BEARER_TOKEN;
  mkPattern "generic_api_key" HIGH API_KEY;
  mkPattern "private_key_header" CRITICAL PRIVATE_KEY;
  mkPattern "env_secret" MEDIUM ENV_VARIABLE;
  mkPattern "connection_string" HIGH PASSWORD].

Definition SECRET_PREVIEW_CONTEXT : nat := 20.
Definition MIN_ENTROPY_LENGTH : nat := 20.
Definition ENTROPY_THRESHOLD : Q := 9 # 2.

Definition span_end (pattern text : string) (start stop : nat) : nat :=
  match search_quote text start stop with
  | Some (_, quote_end) =>
      let cut := quote_end - 1 in
      if fullmatch pattern text start cut then cut else stop
  | None => stop
  end.

Definition overlaps_any (start stop : nat) (ranges : list (nat * nat)) : bool :=
  existsb (fun '(r_start, r_end) => negb ((stop <=? r_start) || (r_end <=? start))) ranges.

Definition counter (data : list ascii) : list (ascii * nat) :=
  fold_left (fun acc c =>
    if decide (c ∈ acc.*1) then (fun cn => if decide (cn.1 = c) then (c, S cn.2) else cn) <$> acc
    else acc ++ [(c, 1)]) data [].

Context (log2 : Q -> Q).

Definition shannon_entropy (data : list ascii) : Q :=
  match data with
  | [] => 0
  | _ =>
      let p count := inject_Z (Z.of_nat count) / inject_Z (Z.of_nat (length data)) in
      - fold_right Qplus 0 ((fun cn => p cn.2 * log2 (p cn.2)) <$> counter data)
  end%Q.

Definition secret_preview (text : string) (start stop : nat) : string :=
  build_preview text start stop SECRET_PREVIEW_CONTEXT "[REDACTED]".

(** Phase 1 of [_detect] for one pattern. *)
Definition pattern_detections (text : string) (p : SecretPattern) : list (nat * nat * Finding) :=
  (fun '(start, stop) =>
     let stop := span_end (p_name p) text start stop in
     (start, stop, mkFinding (p_category p) (p_severity p) (span_location start stop) (p_name p)
                     (secret_preview text start stop))) <$> finditer (p_name p) text.

Definition high_entropy (text : string) (matched_ranges : list (nat * nat)) (span : nat * nat) : bool :=
  let '(start, stop) := span in
  let token := chars (slice text start stop) in
  negb (overlaps_any start stop matched_ranges) && (MIN_ENTROPY_LENGTH <=? length token) &&
  Qle_bool ENTROPY_THRESHOLD (shannon_entropy token).

Definition entropy_detections (text : string) (matched_ranges : list (nat * nat)) : list (nat * nat * Finding) :=
  (fun '(start, stop) =>
     (start, stop, mkFinding HIGH_ENTROPY_STRING LOW (span_location start stop) "high_entropy"
                     (secret_preview text start stop)))
  <$> filter (fun span => high_entropy text matched_ranges span = true) (finditer "high_entropy" text).

Definition detect (text : string) : list (nat * nat * Finding) :=
  let detections := flat_map (pattern_detections text) SECRET_PATTERNS in
  detections ++ entropy_detections text detections.*1.

Definition secret_scan (text : string) : list Finding := (detect text).*2.

(** ** Masking *)

(** The key of the sort, [(span[0], -span[1])]. *)
Definition span_le (a b : span) : bool :=
  (a.1.1 <? b.1.1) || (a.1.1 =? b.1.1) && (b.1.2 <=? a.1.2).

(** [merged] is reversed: its head is [merged[-1]]. *)
Definition merge_span (merged : list span) (s : span) : list span :=
  match merged with
  | (prev_start, prev_end, prev_category) :: rest =>
      if s.1.1 <=? prev_end then (prev_start, Nat.max prev_end s.1.2, prev_category) :: rest
      else s :: merged
  | [] => [s]
  end.

Definition merge_spans (ordered : list span) : list span := reverse (fold_left merge_span ordered []).

Definition placeholder (category : string) : string := "[REDACTED:" +:+ category +:+ "]".

(** The loop over [merged] that fills [parts]. *)
Fixpoint mask_parts (text : string) (cursor : nat) (merged : list span) : list string :=
  match merged with
  | [] => [slice text cursor (String.length text)]
  | (start, stop, category) :: rest =>
      slice text cursor start :: placeholder category :: mask_parts text stop rest
  end.

Definition apply_masks (text : string) (spans : list span) : string :=
  match spans with
  | [] => text
  | _ => join "" (mask_parts text 0 (merge_spans (sorted span_le spans)))
  end.

Definition scan_and_mask (text : string) : string * list Finding :=
  let detections := detect text in
  (apply_masks text ((fun d => (d.1, category_value (f_category d.2))) <$> detections), detections.*2).

Definition SecretDetector : Detector :=
  mkDetector "secret_detector" "1.1.0" (fun text => Ok (secret_scan text)).
Definition SecretDetectorStage : SecretStage := mkSecret "secret_detector" "1.1.0" scan_and_mask.

(** ** Personal data and prompt injection *)

Definition PII_PATTERNS : list (string * FindingCategory) :=
  [("email_address", PII_EMAIL); ("phone_number", PII_PHONE); ("ssn", PII_SSN)].

Definition pii_scan (text : string) : list Finding :=
  flat_map (fun '(pattern_name, category) =>
    (fun '(start, stop) =>
       mkFinding category MEDIUM (span_location start stop) pattern_name
         (build_preview text start stop 20 "[REDACTED]")) <$> finditer pattern_name text) PII_PATTERNS.

Definition PIIDetector : Detector := mkDetector "pii_detector" "1.0.0" (fun text => Ok (pii_scan text)).

Definition INJECTION_PATTERNS : list (string * Severity) := [
  ("instruction_override", HIGH); ("role_hijack", MEDIUM); ("system_prompt_extract", HIGH);
  ("delimiter_escape", MEDIUM); ("xml_injection", HIGH); ("new_instructions", HIGH);
  ("jailbreak_attempt", HIGH)].

Definition injection_scan (text : string) : list Finding :=
  flat_map (fun '(name, severity) =>
    (fun '(start, stop) =>
       mkFinding PROMPT_INJECTION severity (span_location start stop) name
         (build_preview text start stop 40 "[MATCHED]")) <$> finditer name text) INJECTION_PATTERNS.

Definition PromptInjectionDetector : Detector :=
  mkDetector "prompt_injection_detector" "1.0.0" (fun text => Ok (injection_scan text)).

(** ** Unicode: over any type of characters with code points *)

Section unicode.
Context {C : Type} `{EqDecision C} (ord : C -> Z) (category : C -> string) (normalize : list C -> list C).

Definition DANGEROUS_CODEPOINTS : list Z := [
  0xFEFF; 0x200B; 0x200C; 0x200D; 0x2060; 0x2062; 0x2063; 0x2064; 0xFFF9; 0xFFFA; 0xFFFB;
  0x202A; 0x202B; 0x202C; 0x202D; 0x202E; 0x2066; 0x2067; 0x2068; 0x2069]%Z.
Definition DANGEROUS_CATEGORIES : list string := ["Cf"; "Co"; "Cn"].
Definition MAX_PASSES : nat := 10.

Definition harmless (ch : C) : bool :=
  bool_decide (ord ch ∉ DANGEROUS_CODEPOINTS) && bool_decide (category ch ∉ DANGEROUS_CATEGORIES).

Definition single_pass (text : list C) : list C := filter (fun ch => harmless ch = true) (normalize text).

(** The [for] loop: the text, [removed_count], and whether it ended by [break]. *)
Fixpoint passes (n : nat) (current : list C) (removed_count : Z) : list C * Z * bool :=
  match n with
  | O => (current, removed_count, false)
  | S n' =>
      let cleaned := single_pass current in
      let removed_count := (removed_count + (Z.of_nat (length current) - Z.of_nat (length cleaned)))%Z in
      if decide (cleaned = current) then (current, removed_count, true)
      else passes n' cleaned removed_count
  end.

Definition unicode_finding (severity : Severity) (pattern preview : string) : Finding :=
  mkFinding UNICODE_INJECTION severity "full_text" pattern preview.

Definition unicode_sanitize (text : list C) : list C * list Finding :=
  let '(current, removed_count, stable) := passes MAX_PASSES text 0 in
  (current,
   (if (stable : bool) then [] else
      [unicode_finding HIGH "max_passes_exceeded"
         ("Unicode sanitization hit " +:+ pretty MAX_PASSES +:+ " passes without stabilizing")]) ++
   (if (0 <? removed_count)%Z then
      [unicode_finding (if (5 <? removed_count)%Z then MEDIUM else LOW) "dangerous_unicode_removed"
         ("Removed " +:+ pretty removed_count +:+ " dangerous Unicode character(s)")]
    else [])).
End unicode.

(** On strings of the first 256 code points. *)
Definition latin1 (c : ascii) : Z := Z.of_nat (nat_of_ascii c).

Definition UnicodeSanitizer (category : ascii -> string) (normalize : list ascii -> list ascii) : UnicodeStage :=
  mkUnicode "unicode_sanitizer" "1.0.0" (fun text =>
    let '(cleaned, fs) := unicode_sanitize latin1 category normalize (chars text) in (of_chars cleaned, fs)).

(** [SanitizationMiddleware.default] and [with_policy]; the response sanitizer's default. *)
Definition build_default_chain (config : PolicyConfig) (u : UnicodeStage) : MiddlewareChain :=
  mkChain [SecretDetector; PIIDetector; PromptInjectionDetector] config (Some u).
Definition default_response_sanitizer (u : UnicodeStage) : ResponseSanitizer :=
  mkResponse (Some SecretDetectorStage) (Some u).
End detectors.
