(* ===== verification/ClientCache.v ===== *)
(** * Token budgets and the response cache (models/cache_budget.py, the cache of models/client.py)

    [LLMClient] is the state of an [LLMClientWrapper] that its methods change: the
    cache, an insertion-ordered dictionary, and the budget.  Times are seconds. *)

From stdpp Require Import sorting.
From Stdlib Require Import QArith Lqa.
From S2P Require Import Prelude.
Local Open Scope Z_scope.

(** [process_wide] tells a [ProcessWideTokenBudget] from a [TokenBudget]. *)
Record TokenBudget := mkBudget {
  max_tokens : Z;
  used_tokens : Z;
  process_wide : bool;
}.

Definition remaining (b : TokenBudget) : Z := Z.max 0 (max_tokens b - used_tokens b).

Definition percentage_used (b : TokenBudget) : Q :=
  if max_tokens b =? 0 then 100
  else (inject_Z (used_tokens b) / inject_Z (max_tokens b) * 100)%Q.

Definition spend (tokens : Z) (b : TokenBudget) : TokenBudget :=
  mkBudget (max_tokens b) (used_tokens b + tokens) (process_wide b).

Definition reserve_consume (tokens : Z) (b : TokenBudget) : TokenBudget * bool :=
  if max_tokens b <? used_tokens b + tokens then (b, false) else (spend tokens b, true).

Definition process_wide_consume (tokens : Z) (b : TokenBudget) : TokenBudget * bool :=
  (spend tokens b, used_tokens b + tokens <=? max_tokens b).

Definition consume (tokens : Z) (b : TokenBudget) : TokenBudget * bool :=
  if process_wide b then process_wide_consume tokens b else reserve_consume tokens b.

Definition can_afford (tokens : Z) (b : TokenBudget) : bool := used_tokens b + tokens <=? max_tokens b.

(** [model] may be [None] at run time, whatever its annotation says. *)
Record CachedResponse := mkCached {
  response : string;
  cached_model : option string;
  timestamp : Q;
  tokens_used : Z;
}.

Definition age_seconds (now : Q) (c : CachedResponse) : Q := now - timestamp c.

(** The mutable part of an [LLMClientWrapper]. *)
Record LLMClient := mkClient {
  cache : odict CachedResponse;
  cache_ttl_seconds : Z;
  enable_cache : bool;
  budget : option TokenBudget;
}.

Definition new_client : LLMClient := mkClient [] 300 true None.
Definition with_cache (d : odict CachedResponse) (c : LLMClient) : LLMClient :=
  mkClient d (cache_ttl_seconds c) (enable_cache c) (budget c).
Definition with_budget (b : option TokenBudget) (c : LLMClient) : LLMClient :=
  mkClient (cache c) (cache_ttl_seconds c) (enable_cache c) b.

Definition set_budget (max_tokens : Z) (c : LLMClient) : LLMClient :=
  with_budget (Some (mkBudget max_tokens 0 false)) c.

Definition consume_budget (tokens : Z) (c : LLMClient) : LLMClient * bool :=
  match budget c with
  | None => (c, true)
  | Some b => let '(b, ok) := consume tokens b in (with_budget (Some b) c, ok)
  end.

Definition get_cached (now : Q) (key : string) (c : LLMClient) : LLMClient * option CachedResponse :=
  if negb (enable_cache c) then (c, None)
  else match od_get key (cache c) with
       | None => (c, None)
       | Some cached =>
           if Qle_bool (age_seconds now cached) (inject_Z (cache_ttl_seconds c)) then (c, Some cached)
           else (with_cache (od_pop key (cache c)) c, None)
       end.

Definition CACHE_LIMIT : nat := 1000.
Definition PRUNED : nat := 100.

Definition older (a b : string * CachedResponse) : bool := Qle_bool (timestamp a.2) (timestamp b.2).

(** [sorted(self.cache.keys(), key=lambda k: self.cache[k].timestamp)] *)
Definition sorted_keys (d : odict CachedResponse) : list string := (sorted older d).*1.

Definition prune (d : odict CachedResponse) : odict CachedResponse :=
  if decide (CACHE_LIMIT < length d)%nat
  then fold_left (fun d k => od_pop k d) (take PRUNED (sorted_keys d)) d
  else d.

Definition set_cached (now : Q) (key response : string) (model : option string) (tokens : Z) (c : LLMClient)
  : LLMClient :=
  if negb (enable_cache c) then c
  else with_cache (prune (od_set key (mkCached response model now tokens) (cache c))) c.

Definition clear_cache (c : LLMClient) : LLMClient * nat := (with_cache [] c, length (cache c)).

(** The entries, whether caching is on, and the budget's maximum, use and remainder. *)
Definition get_stats (c : LLMClient) : nat * bool * option (Z * Z * Z) :=
  (length (cache c), enable_cache c,
   match budget c with Some b => Some (max_tokens b, used_tokens b, remaining b) | None => None end).

(** ** The shared client *)

Definition maybe_set_token_budget (no_llm : bool) (agentic_token_budget : option Z) (c : LLMClient) : LLMClient :=
  if no_llm then c
  else match budget c, agentic_token_budget with
       | Some _, _ | _, None => c
       | None, Some max_tokens => with_budget (Some (mkBudget max_tokens 0 true)) c
       end.

(** ** Correctness of the budget and the cache (ClientCache.v)

    What each kind of budget guarantees over any calls, and that the cache is a bounded
    map: it answers what was last stored under a key while that is fresh, and
    pruning drops only the oldest entries. *)

(** ** Budgets *)

Definition consume_all (charges : list Z) (b : TokenBudget) : TokenBudget :=
  fold_left (fun b tokens => (consume tokens b).1) charges b.

Definition sum (l : list Z) : Z := foldr Z.add 0 l.

Lemma consume_keeps tokens b :
  max_tokens (consume tokens b).1 = max_tokens b /\ process_wide (consume tokens b).1 = process_wide b.
Proof. unfold consume, reserve_consume, process_wide_consume, spend. by repeat case_match. Qed.

Lemma consume_all_keeps charges b :
  max_tokens (consume_all charges b) = max_tokens b /\ process_wide (consume_all charges b) = process_wide b.
Proof.
  unfold consume_all. apply (fold_left_ind (fun b' => max_tokens b' = max_tokens b /\ process_wide b' = process_wide b));
    [done|]. intros b' t [<- <-]. apply consume_keeps.
Qed.

Lemma process_wide_total charges b : process_wide b = true -> used_tokens (consume_all charges b) = used_tokens b + sum charges.
Proof.
  revert b. induction charges as [|t l IH]; intros b Hb; simpl; [lia|].
  fold (consume_all l (consume t b).1). rewrite IH by (rewrite (proj2 (consume_keeps t b)); done).
  unfold consume. rewrite Hb. simpl. unfold spend. simpl. lia.
Qed.

Lemma reservation_bounded charges b :
  process_wide b = false -> used_tokens b <= max_tokens b -> used_tokens (consume_all charges b) <= max_tokens b.
Proof.
  intros Hp Hb. unfold consume_all.
  enough (process_wide (consume_all charges b) = false /\ max_tokens (consume_all charges b) = max_tokens b /\
    used_tokens (consume_all charges b) <= max_tokens b) by tauto.
  apply (fold_left_ind (fun b' => process_wide b' = false /\ max_tokens b' = max_tokens b /\ used_tokens b' <= max_tokens b));
    [done|].
  intros b' t (Hp' & Hm & Hu). unfold consume, reserve_consume, spend. rewrite Hp'.
  case_match eqn:E; simpl; split_and!; try done; [lia..|]. apply Z.ltb_ge in E. lia.
Qed.

(** A per-run budget never records more than its maximum, whatever is charged; a
    process-wide one records every charge, so once the charges have exceeded the
    maximum no further call can be afforded. *)
Theorem budgets_account (charges : list Z) (b : TokenBudget) (more : Z) :
  0 <= used_tokens b <= max_tokens b -> Forall (Z.le 0) charges -> 0 <= more ->
  let b' := consume_all charges b in
  if process_wide b
  then used_tokens b' = used_tokens b + sum charges /\
       (max_tokens b < used_tokens b + sum charges -> can_afford more b' = false /\ remaining b' = 0)
  else used_tokens b <= used_tokens b' <= max_tokens b /\
       (consume more b').2 = can_afford more b' /\ (can_afford more b' = true <-> more <= remaining b').
Proof.
  intros Hb Hc Hm b'. destruct (consume_all_keeps charges b) as [Hmax Hp]. fold b' in Hmax, Hp.
  unfold can_afford, remaining. rewrite !Hmax. destruct (process_wide b) eqn:E.
  - subst b'. rewrite process_wide_total by done. split; [done|]. intros Hover.
    split; [apply Z.leb_gt; lia|lia].
  - pose proof (reservation_bounded charges b E ltac:(lia)) as Hu. fold b' in Hu. split; [split; [|done]|].
    + clear -Hc. subst b'. revert b. induction Hc as [|t l Ht Hc IH]; intros b; [done|]. simpl.
      etrans; [|apply IH]. unfold consume, reserve_consume, process_wide_consume, spend.
      repeat case_match; simpl; lia.
    + unfold consume, reserve_consume. rewrite Hp, Hmax, Z.leb_le. split; [|lia].
      case_match eqn:El; simpl; symmetry; [apply Z.leb_gt|apply Z.leb_le]; lia.
Qed.

Lemma budgets_account_witness :
  (0 <= 10 <= 100 /\ Forall (Z.le 0) [60; 50] /\ 0 <= 1) /\
  can_afford 1 (consume_all [60; 50] (mkBudget 100 10 true)) = false /\
  used_tokens (consume_all [60; 50] (mkBudget 100 10 false)) <= 100.
Proof.
  assert (Forall (Z.le 0) [60; 50]) as Hf by (repeat constructor; lia).
  split; [split_and!; try done; lia|]. split.
  - destruct (budgets_account [60; 50] (mkBudget 100 10 true) 1 ltac:(simpl; lia) Hf ltac:(lia)) as [_ H].
    apply H. simpl. lia.
  - destruct (budgets_account [60; 50] (mkBudget 100 10 false) 1 ltac:(simpl; lia) Hf ltac:(lia)) as [[_ H] _].
    exact H.
Defined.

(** ** The cache *)

Lemma older_total a b : older a b = true \/ older b a = true.
Proof. unfold older. rewrite !Qle_bool_iff. destruct (Qlt_le_dec (timestamp a.2) (timestamp b.2)); [left|right]; lra. Qed.

Lemma older_trans a b c : older a b = true -> older b c = true -> older a c = true.
Proof. unfold older. rewrite !Qle_bool_iff. lra. Qed.

Lemma od_pops_get {V} (keys : list string) (d : odict V) k :
  od_get k (fold_left (fun d k => od_pop k d) keys d) = if decide (k ∈ keys) then None else od_get k d.
Proof.
  revert d. induction keys as [|x keys IH]; intros d; cbn [fold_left].
  { by rewrite decide_False by apply not_elem_of_nil. }
  rewrite IH, od_get_pop. destruct (decide (k ∈ keys)), (decide (k = x)), (decide (k ∈ x :: keys)) as [Hx|Hx];
    try done; exfalso; rewrite elem_of_cons in Hx; tauto.
Qed.

Lemma od_pop_length {V} k (d : odict V) : NoDup (od_keys d) -> k ∈ od_keys d -> (S (length (od_pop k d)) = length d)%nat.
Proof.
  unfold od_pop, od_keys. induction d as [|[k' v] d IH]; csimpl; [by intros _ ?%elem_of_nil|].
  rewrite NoDup_cons, elem_of_cons. intros [Hk Hd] Hin. rewrite filter_cons. simpl.
  destruct (decide (k' ≠ k)) as [Hne|Heq].
  - simpl. rewrite IH; [done|done|]. destruct Hin; congruence.
  - apply dec_stable in Heq as ->. f_equal.
    assert (filter (fun kv : string * V => kv.1 ≠ k) d = d) as ->; [|done].
    clear -Hk. induction d as [|[x w] d IH]; [done|]. csimpl in Hk. rewrite not_elem_of_cons in Hk.
    rewrite filter_cons_True by (simpl; naive_solver). f_equal. tauto.
Qed.

Lemma od_pop_keys {V} k (d : odict V) x : x ∈ od_keys (od_pop k d) <-> x ≠ k /\ x ∈ od_keys d.
Proof. rewrite <- !od_get_is_Some, od_get_pop. case_decide; [|tauto]. subst. rewrite is_Some_alt. tauto. Qed.

Lemma od_pops_length {V} (keys : list string) (d : odict V) :
  NoDup (od_keys d) -> NoDup keys -> (forall k, k ∈ keys -> k ∈ od_keys d) ->
  NoDup (od_keys (fold_left (fun d k => od_pop k d) keys d)) /\
  (length (fold_left (fun d k => od_pop k d) keys d) + length keys = length d)%nat.
Proof.
  revert d. induction keys as [|k keys IH]; intros d Hd Hk Hin; simpl; [lia || (split; [done|lia])|].
  apply NoDup_cons in Hk as [Hk1 Hk2].
  destruct (IH (od_pop k d)) as [H1 H2].
  - by apply NoDup_od_filter.
  - done.
  - intros x Hx. apply od_pop_keys. split; [congruence|]. apply Hin. by right.
  - split; [done|]. pose proof (od_pop_length k d Hd (Hin k ltac:(left))). lia.
Qed.

(** The keys a pruning drops: the first hundred by age. *)
Definition dropped (d : odict CachedResponse) : list string := take PRUNED (sorted_keys d).

Lemma sorted_keys_perm d : sorted_keys d ≡ₚ od_keys d.
Proof. unfold sorted_keys, od_keys. by rewrite sorted_perm. Qed.

Lemma dropped_keys d : NoDup (od_keys d) -> NoDup (dropped d) /\ forall k, k ∈ dropped d -> k ∈ od_keys d.
Proof.
  intros Hd. unfold dropped. rewrite <- (sorted_keys_perm d) in Hd. split.
  - rewrite <- (take_drop PRUNED (sorted_keys d)) in Hd. by apply NoDup_app in Hd as [Hd _].
  - intros k Hk%elem_of_take. rewrite <- sorted_keys_perm. destruct Hk as (i & Hk & _). by eapply list_elem_of_lookup_2.
Qed.

Lemma length_dropped d : (CACHE_LIMIT < length d)%nat -> length (dropped d) = PRUNED.
Proof.
  intros Hd. unfold dropped. rewrite length_take.
  assert (length (sorted_keys d) = length d) as -> by (rewrite sorted_keys_perm; apply length_fmap).
  unfold CACHE_LIMIT, PRUNED in *. lia.
Qed.

Lemma prune_spec d : NoDup (od_keys d) ->
  NoDup (od_keys (prune d)) /\
  (length d <= S CACHE_LIMIT -> length (prune d) <= CACHE_LIMIT)%nat /\
  forall k, od_get k (prune d) =
    if decide ((CACHE_LIMIT < length d)%nat /\ k ∈ dropped d) then None else od_get k d.
Proof.
  intros Hd. unfold prune. case_decide as Hlen.
  - destruct (dropped_keys d Hd) as [Hnd Hin].
    destruct (od_pops_length (dropped d) d Hd Hnd Hin) as [H1 H2]. fold (dropped d).
    split_and!; [done| |].
    + rewrite length_dropped in H2 by done. unfold CACHE_LIMIT, PRUNED in *. lia.
    + intros k. rewrite od_pops_get. repeat case_decide; tauto.
  - split_and!; [done|lia|]. intros k. by rewrite decide_False by tauto.
Qed.

(** What is dropped is no newer than what is kept. *)
Lemma dropped_oldest d k k' c c' : NoDup (od_keys d) ->
  k ∈ dropped d -> k' ∉ dropped d -> od_get k d = Some c -> od_get k' d = Some c' -> (timestamp c <= timestamp c')%Q.
Proof.
  intros Hd Hk Hk' Hc Hc'. unfold dropped, sorted_keys in *. rewrite <- fmap_take in Hk, Hk'.
  apply list_elem_of_fmap in Hk as ([k1 c1] & -> & Hk1).
  assert ((k', c') ∈ drop PRUNED (sorted older d)) as Hdrop.
  { apply od_get_elem in Hc'. rewrite <- (elem_of_sorted older), <- (take_drop PRUNED) in Hc'.
    apply elem_of_app in Hc' as [Hc'|]; [|done]. destruct Hk'. by apply (list_elem_of_fmap_2 fst) in Hc'. }
  pose proof (sorted_take_drop older older_total older_trans PRUNED d _ _ Hk1 Hdrop) as Hle.
  assert (c1 = c) as ->.
  { apply elem_of_take in Hk1 as (i & Hi & _). apply list_elem_of_lookup_2 in Hi. rewrite elem_of_sorted in Hi.
    apply (od_get_of_elem _ _ _ Hd) in Hi. simpl in Hc. congruence. }
  by apply Qle_bool_iff in Hle.
Qed.

(** An entry appended with the latest time is the last to be dropped. *)
Lemma newest_kept d k c : NoDup (od_keys (d ++ [(k, c)])) -> (forall x, x ∈ d -> timestamp x.2 <= timestamp c)%Q ->
  (CACHE_LIMIT < length (d ++ [(k, c)]))%nat -> k ∉ dropped (d ++ [(k, c)]).
Proof.
  intros Hnd Hmax Hlen Hin. unfold dropped, sorted_keys in Hin.
  rewrite sorted_snoc_max in Hin; [|exact older_total|by intros x Hx; apply Qle_bool_iff, Hmax].
  rewrite fmap_app, take_app_le in Hin.
  - apply elem_of_take in Hin as (i & Hi & _). apply list_elem_of_lookup_2 in Hi.
    rewrite (sorted_perm older d) in Hi. unfold od_keys in Hnd. rewrite fmap_app in Hnd.
    apply NoDup_app in Hnd as (_ & Hno & _). apply (Hno k Hi). left.
  - rewrite length_app in Hlen. simpl in Hlen. rewrite length_fmap, length_sorted.
    unfold CACHE_LIMIT, PRUNED in *. lia.
Qed.

(** The cache at time [now]: unique keys, at most the limit, nothing from the future. *)
Record cache_ok (now : Q) (c : LLMClient) : Prop := {
  co_unique : NoDup (od_keys (cache c));
  co_bounded : (length (cache c) <= CACHE_LIMIT)%nat;
  co_past : forall k r, (k, r) ∈ cache c -> (timestamp r <= now)%Q;
}.

Lemma od_set_length {V} k (v : V) d :
  length (od_set k v d) = if od_mem k d then length d else S (length d).
Proof.
  rewrite <- !(length_fmap fst). fold (od_keys (od_set k v d)) (od_keys d). rewrite od_keys_set.
  case_match; [done|]. rewrite length_app. simpl. lia.
Qed.

Lemma stored_then_found (now now' : Q) (key text : string) (model : option string) (tokens : Z) (c : LLMClient) :
  cache_ok now c -> enable_cache c = true ->
  (now <= now' /\ now' - now <= inject_Z (cache_ttl_seconds c))%Q ->
  let c' := set_cached now key text model tokens c in
  cache_ok now' c' /\
  (get_cached now' key c').2 = Some (mkCached text model now tokens) /\
  (forall k, k ≠ key -> od_get k (cache c') = od_get k (cache c) \/
     od_get k (cache c') = None /\ exists r, od_get k (cache c) = Some r /\
       forall k' r', od_get k' (cache c') = Some r' -> (timestamp r <= timestamp r')%Q).
Proof.
  intros [Hnd Hlen Hpast] Hen [Hle Httl] c'. subst c'. unfold set_cached. rewrite Hen. cbn [negb].
  set (r0 := mkCached text model now tokens). set (d := od_set key r0 (cache c)).
  assert (NoDup (od_keys d)) as Hd by by apply NoDup_od_set.
  assert (length d <= S CACHE_LIMIT)%nat as Hdlen by (unfold d; rewrite od_set_length; case_match; lia).
  destruct (prune_spec d Hd) as (Hp1 & Hp2 & Hp3).
  assert (od_get key (prune d) = Some r0) as Hkey.
  { assert (od_get key d = Some r0) as Hk0 by apply od_get_set_eq. rewrite Hp3, Hk0.
    destruct (decide ((CACHE_LIMIT < length d)%nat /\ key ∈ dropped d)) as [[Hbig Hdrop]|]; [|done]. exfalso.
    unfold d in Hbig, Hdrop. rewrite od_set_length in Hbig.
    destruct (od_mem key (cache c)) eqn:Em; [lia|]. unfold od_mem in Em. apply bool_decide_eq_false in Em.
    unfold d in Hd. rewrite od_set_fresh in Hdrop, Hd by done. eapply newest_kept; [exact Hd| | |exact Hdrop].
    - intros [k r] Hkr. by apply (Hpast k r).
    - rewrite length_app. simpl. lia. }
  split_and!.
  - split; cbn [cache with_cache]; [done|by apply Hp2|]. intros k r Hkr.
    apply (od_get_of_elem _ _ _ Hp1) in Hkr. rewrite Hp3 in Hkr. destruct (decide _); [done|]. unfold d in Hkr.
    rewrite od_get_set in Hkr. destruct (decide (k = key)); [by injection Hkr as <-|].
    apply od_get_elem, Hpast in Hkr. lra.
  - unfold get_cached. cbn [enable_cache with_cache cache cache_ttl_seconds]. rewrite Hen. cbn [negb].
    rewrite Hkey. unfold age_seconds, r0. cbn [timestamp].
    rewrite (proj2 (Qle_bool_iff _ _)) by done. done.
  - intros k Hk. cbn [cache with_cache]. rewrite Hp3.
    assert (od_get k d = od_get k (cache c)) as Hsame by by apply od_get_set_ne.
    destruct (decide ((CACHE_LIMIT < length d)%nat /\ k ∈ dropped d)) as [[Hbig Hdrop]|];
      [right|by left; rewrite Hsame]. split; [done|].
    destruct (dropped_keys d Hd) as [_ Hin]. destruct (proj2 (od_get_is_Some k d) (Hin k Hdrop)) as [r Hr].
    exists r. split; [congruence|]. intros k' r' Hk'. rewrite Hp3 in Hk'.
    destruct (decide ((CACHE_LIMIT < length d)%nat /\ k' ∈ dropped d)) as [|Hno]; [done|].
    refine (dropped_oldest d k k' r r' Hd Hdrop _ Hr Hk'). tauto.
Qed.

(** Storing a response under a key keeps the cache within its thousand entries; the
    response is what the key answers while it is fresh, every other key answers
    what it did or was dropped, and what is dropped is no newer than any entry kept. *)
Theorem cache_correct (now now' : Q) (key text : string) (model : option string) (tokens : Z) (c : LLMClient) :
  cache_ok now c -> enable_cache c = true ->
  (now <= now' /\ now' - now <= inject_Z (cache_ttl_seconds c))%Q ->
  let c' := set_cached now key text model tokens c in
  cache_ok now' c' /\
  (get_cached now' key c').2 = Some (mkCached text model now tokens) /\
  (forall k, k ≠ key -> od_get k (cache c') = od_get k (cache c) \/
     od_get k (cache c') = None /\ exists r, od_get k (cache c) = Some r /\
       forall k' r', od_get k' (cache c') = Some r' -> (timestamp r <= timestamp r')%Q).
Proof. apply stored_then_found. Qed.

(** An expired entry is not answered, and is removed. *)
Lemma get_cached_expired now key c r :
  enable_cache c = true -> od_get key (cache c) = Some r -> (inject_Z (cache_ttl_seconds c) < now - timestamp r)%Q ->
  get_cached now key c = (with_cache (od_pop key (cache c)) c, None).
Proof.
  intros He Hr Hold. unfold get_cached. rewrite He, Hr. cbn [negb]. unfold age_seconds.
  rewrite (proj2 (Qle_bool_false _ _)) || (destruct (Qle_bool _ _) eqn:E; [apply Qle_bool_iff in E; lra|done]).
Qed.

Definition demo_client : LLMClient := mkClient [("a", mkCached "x" None 1%Q 3)] 300 true None.

Lemma cache_correct_witness :
  (cache_ok 2 demo_client /\ enable_cache demo_client = true /\ (2 <= 5 /\ 5 - 2 <= inject_Z 300)%Q) /\
  (get_cached 5 "b" (set_cached 2 "b" "hello" (Some "m") 7 demo_client)).2 = Some (mkCached "hello" (Some "m") 2%Q 7).
Proof.
  assert (cache_ok 2 demo_client) as Hok.
  { split; simpl; [apply NoDup_singleton|unfold CACHE_LIMIT; lia|].
    intros k r [= -> ->]%list_elem_of_singleton. simpl. lra. }
  assert (2 <= 5 /\ 5 - 2 <= inject_Z 300)%Q as Ht by (split; vm_compute; discriminate).
  split; [split_and!; [done|done|apply Ht|apply Ht]|].
  apply (cache_correct 2 5 "b" "hello" (Some "m") 7 demo_client Hok eq_refl Ht).
Defined.
