(* ===== verification/LlmClient.v ===== *)
(** * The LLM client (models/client.py, the completion of models/ek_provider.py)

    A completion is the composition of the parts: cache lookup, sanitization of the
    prompt, selection and fallback of the router ([SmartRouter]), the call, sanitization
    of the response, budget and cache.  The state is the router, the client's cache and
    budget, and the rest of the world; a provider call is an arbitrary computation on
    all of it, so that other callers of the shared client may act while it is awaited.
    [legacy] is the path of [run_with_fallback] under the retry decorator, [ek] the path
    of the ExecutionKit provider.  The caller's keyword arguments go to the provider as they
    are.  ExecutionKit's [checked_complete], the token counts of a backend and the JSON
    parser are parameters; streaming is not modelled. *)

From Stdlib Require Import QArith.
From stdpp Require Import sorting pretty.
From S2P Require Import Prelude PyStr PyVal Retry Registry Router RateLimit ModelStats SmartRouter Sanitize ClientCache Step.
Local Open Scope Z_scope.

#[global] Arguments Answer {A}.
#[global] Arguments Cancelled {A}.
#[global] Arguments CircuitResolved {A}.
#[global] Arguments Failed {A}.
#[global] Arguments Returned {A}.
#[global] Arguments RaisedCancelled {A}.
#[global] Arguments RaisedExn {A}.
#[global] Arguments RaisedError {A}.
#[global] Arguments AllFailed {A}.

(** ** The adapter of a backend's chat dictionary (models/ek_adapters.py) *)

(** [str(content)], [None] counting as empty. *)
Definition ek_content (repr : pyval -> string) (payload : odict pyval) : string :=
  match default (VStr "") (od_get "content" payload) with
  | VNone => ""
  | v => str_of repr v
  end.

Inductive EkError := RateLimitErr | PermanentErr | ProviderErr.
#[export] Instance EkError_eq_dec : EqDecision EkError.
Proof. solve_decision. Defined.

Definition map_http_error (status : Z) : EkError :=
  if decide (status = 429) then RateLimitErr
  else if decide (status ∈ [401; 403; 404]) then PermanentErr else ProviderErr.

(** ** Outcomes *)

Inductive Outcome (A : Type) :=
  | Done (a : A)
  | RaisedHere (x : exn)                  (* raised by the modelled code *)
  | RaisedByProvider (err : ProviderError)  (* the provider's exception, re-raised *)
  | RaisedEk (kind : EkError) (msg : string)
  | WasCancelled.
Arguments Done {A}. Arguments RaisedHere {A}. Arguments RaisedByProvider {A}.
Arguments RaisedEk {A}. Arguments WasCancelled {A}.

(** [str(e)] of what was raised. *)
Definition error_text {A} (o : Outcome A) : string :=
  match o with
  | RaisedHere x => ex_msg (exc_of x)
  | RaisedByProvider err => pe_text err
  | RaisedEk _ msg => msg
  | Done _ | WasCancelled => ""
  end.

(** An exception of the attempt's own code, as [on_error] sees it. *)
Definition local_error (x : exn) : ProviderError :=
  mkPError (ex_msg (exc_of x)) (ex_type (exc_of x)) None None.

Record Backend := mkBackend {
  count_tokens : string -> string -> Z;   (* text, model *)
  supports_chat : bool;
}.

Definition ERR_NO_LLM_BACKEND : string := "No LLM backend configured".

Definition budget_exceeded (b : TokenBudget) : exn :=
  ValueError ("Budget exceeded: " +:+ pretty (used_tokens b) +:+ "/" +:+ pretty (max_tokens b)).

Definition key_before (a b : string * pyval) : Prop := String.leb a.1 b.1 = true.
#[export] Instance key_before_dec a b : Decision (key_before a b) := decide (_ = true).

(** The name of a value's type. *)
Definition type_name (v : pyval) : string :=
  match v with
  | VNone => "NoneType" | VBool _ => "bool" | VInt _ => "int" | VFloat _ => "float" | VStr _ => "str"
  | VList _ => "list" | VTuple _ => "tuple" | VDict _ => "dict" | VObj ty _ => ty
  end.

(** The operands of [" ".join([m.get("content", "") for m in messages])], from index [i]. *)
Fixpoint message_contents (i : nat) (messages : list (odict pyval)) : res (list string) :=
  match messages with
  | [] => Ok []
  | m :: rest =>
      match default (VStr "") (od_get "content" m) with
      | VStr s => l ← message_contents (S i) rest; Ok (s :: l)
      | v => Raise (TypeError ("sequence item " +:+ pretty i +:+ ": expected str instance, " +:+ type_name v +:+ " found"))
      end
  end.

(** [json.dumps] without a [default]: any other object raises. *)
Fixpoint serializable (v : pyval) : bool :=
  match v with
  | VObj _ _ => false
  | VList l | VTuple l => (fix go l := match l with [] => true | x :: l' => serializable x && go l' end) l
  | VDict d => (fix go d := match d with [] => true | (_, x) :: d' => serializable x && go d' end) d
  | _ => true
  end.

(** [v or 0] as a token count; a fractional count is outside the model. *)
Definition count_or_zero (v : option pyval) : res Z :=
  match v with
  | None | Some VNone => Ok 0
  | Some (VInt z) => Ok z
  | Some (VBool b) => Ok (if b then 1 else 0)
  | Some v => if truthy v then Raise (TypeError "unsupported operand type(s) for +") else Ok 0
  end.

(** The usage a provider reports, prompt and completion. *)
Definition reported_tokens (rd : odict pyval) : res Z :=
  match od_get "usage" rd with
  | Some (VDict usage) =>
      prompt ← count_or_zero (od_get "prompt_tokens" usage);
      completion ← count_or_zero (od_get "completion_tokens" usage);
      Ok (prompt + completion)
  | Some v => if truthy v then Raise (AttributeError "get") else Ok 0
  | None => Ok 0
  end.

Section client.
(** The router's parameters. *)
Context (p : Policy) (cfg : CooldownConfig) (r : Registry) (e : Env) (quarantined : gset string)
  (health_checker : option (string -> bool)) (model_costs : string -> option Q)
  (parsedate fromiso : string -> option Q) (gone_status : string -> bool).
Context {W : Type}.

(** The router, and the client with the rest of the world. *)
Abbreviation SW := (SmartRouter * (LLMClient * W))%type.

Context (clock : LLMClient * W -> Clock) (latency : LLMClient * W -> LLMClient * W -> Q)
  (jitter : LLMClient * W -> Q) (draw : LLMClient * W -> nat)
  (ready : string -> SmartRouter * (LLMClient * W) -> bool).

(** [hashlib.sha256(...).hexdigest()], [repr] and [json.loads]. *)
Context (sha256 : string -> string) (repr : pyval -> string) (float_repr : Qcanon.Qc -> string)
  (json_loads : string -> option pyval).

(** The configuration of the client. *)
Context (backend : option Backend) (sanitization : option SanitizationMiddleware)
  (response_sanitizer : option ResponseSanitizer).

(** The bulkhead around the backend's [complete] (model, prompt, keyword arguments) and
    around its [complete_chat] (model, messages, keyword arguments, [tools] among them). *)
Context (execute_complete : string -> string -> odict pyval -> SW -> SW * CallResult string)
  (execute_chat : string -> list (odict pyval) -> odict pyval -> SW -> SW * CallResult (odict pyval)).

Definition client_of (sw : SW) : LLMClient := sw.2.1.
Definition on_client (f : LLMClient -> LLMClient) (sw : SW) : SW := (sw.1, (f sw.2.1, sw.2.2)).
Definition on_router (f : SmartRouter -> SmartRouter) (sw : SW) : SW := (f sw.1, sw.2).
Definition time_of (sw : SW) : Q := utc (clock sw.2).

Definition key_of (prompt : string) (t : ModelTier) (kwargs : odict pyval) : string :=
  let items := VList ((fun kv => VTuple [VStr kv.1; kv.2]) <$> merge_sort key_before kwargs) in
  String.substring 0 16 (sha256 (prompt +:+ ":" +:+ pretty (tier_value t) +:+ ":" +:+ str_of repr items)).

Definition lookup_cache (key : string) (sw : SW) : SW * option CachedResponse :=
  let '(c, cached) := get_cached (time_of sw) key (client_of sw) in (on_client (fun _ => c) sw, cached).

Definition check_prompt_budget (b : Backend) (effective_prompt selected_model : string) (sw : SW) : option exn :=
  let prompt_tokens := count_tokens b effective_prompt selected_model in
  match budget (client_of sw) with
  | Some bud => if can_afford (prompt_tokens * 2) bud then None else Some (budget_exceeded bud)
  | None => None
  end.

Definition record_success_of (model : string) (before : SW) (sw : SW) : SW :=
  on_router (router_record_success p (clock sw.2) (draw sw.2) model (latency before.2 sw.2)) sw.

(** [if use_cache and self.enable_cache and cache_key is not None: self._set_cached(...)] *)
Definition store_reply (use_cache : bool) (cache_key : option string) (text : string) (model : option string)
    (tokens : Z) (sw : SW) : SW :=
  match cache_key with
  | Some key => if use_cache && enable_cache (client_of sw)
                then on_client (set_cached (time_of sw) key text model tokens) sw else sw
  | None => sw
  end.

(** ** The legacy path *)

Definition run_complete_attempt (b : Backend) (effective_prompt : string) (kwargs : odict pyval) (use_cache : bool)
    (cache_key cache_model : option string) (selected_model : string) (sw : SW)
  : SW * CallResult (string * string * Z) :=
  match execute_complete selected_model effective_prompt kwargs sw with
  | (sw', Answer text) =>
      let tokens := count_tokens b (effective_prompt +:+ text) selected_model in
      let sw' := record_success_of selected_model sw sw' in
      let text := sanitize_response_text sha256 response_sanitizer text in
      let sw' := on_client (fun c => (consume_budget tokens c).1) sw' in
      (store_reply use_cache cache_key text cache_model tokens sw', Answer (text, selected_model, tokens))
  | (sw', Cancelled) => (sw', Cancelled)
  | (sw', CircuitResolved) => (sw', CircuitResolved)
  | (sw', Failed err) => (sw', Failed err)
  end.

Definition on_error (selected_model : string) (err : ProviderError) (sw : SW) : SW :=
  on_router (classify_and_record_error p cfg parsedate fromiso gone_status (clock sw.2) (jitter sw.2)
               selected_model err) sw.

Definition all_failed (tried : list string) : exn :=
  RuntimeError ("All models failed. Tried: " +:+ str_of repr (VList (VStr <$> tried)) +:+
                ". No further information available.").

Definition end_of {A} (tried : list string) (l : LoopEnd (A := A)) : Outcome A :=
  match l with
  | Returned _ a => Done a
  | RaisedCancelled => WasCancelled
  | RaisedExn x => RaisedHere x
  | RaisedError err => RaisedByProvider err
  | AllFailed _ _ => RaisedHere (all_failed tried)
  end.

Definition fallback {A} (attempt : string -> SW -> SW * CallResult A) (b : Backend) (prompt : string)
    (max_retries : nat) (model : option string) (t : ModelTier) (sw : SW) : SW * Outcome A :=
  let '(sw', tried, l) :=
    run_with_fallback p r e quarantined health_checker model_costs attempt clock
      (check_prompt_budget b prompt) on_error max_retries model t sw in
  (sw', end_of tried l).

(** The reply: text, the model it names, tokens. *)
Abbreviation Reply := (string * option string * Z)%type.

Definition named {A} (o : Outcome (A * string * Z)) : Outcome (A * option string * Z) :=
  match o with
  | Done (text, model, tokens) => Done (text, Some model, tokens)
  | RaisedHere x => RaisedHere x
  | RaisedByProvider err => RaisedByProvider err
  | RaisedEk k m => RaisedEk k m
  | WasCancelled => WasCancelled
  end.

Definition legacy_body (prompt : string) (t : ModelTier) (max_retries : nat) (use_cache : bool)
    (model : option string) (kwargs : odict pyval) (sw : SW) : SW * Outcome Reply :=
  match backend with
  | None => (sw, RaisedHere (RuntimeError ERR_NO_LLM_BACKEND))
  | Some b =>
      let cache_key := if use_cache && enable_cache (client_of sw)
                       then Some (key_of prompt t (kwargs ++ [("model", str_or_none model)])) else None in
      let '(sw, cached) := match cache_key with Some key => lookup_cache key sw | None => (sw, None) end in
      match cached with
      | Some hit => (sw, Done (response hit, cached_model hit, tokens_used hit))
      | None =>
          match sanitize_prompt sha256 sanitization prompt with
          | Raise x => (sw, RaisedHere x)
          | Ok effective_prompt =>
              let '(sw, o) := fallback (run_complete_attempt b effective_prompt kwargs use_cache cache_key model)
                                b effective_prompt max_retries model t sw in
              (sw, named o)
          end
      end
  end.

(** The decorator [retry_with_jitter]; [sleep] is the delay after an attempt, during
    which others act. *)
Context (sleep : nat -> SW -> SW).

Fixpoint with_retry {A} (body : SW -> SW * Outcome A) (attempt left : nat) (sw : SW) : SW * Outcome A :=
  match left with
  | O => (sw, RaisedHere (RuntimeError "Exhausted retries"))
  | S left' =>
      match body sw with
      | (sw, Done a) => (sw, Done a)
      | (sw, WasCancelled) => (sw, WasCancelled)
      | (sw, o) =>
          match left' with
          | O => (sw, o)
          | S _ => if (classify_error gone_status (error_text o)).2
                   then with_retry body (S attempt) left' (sleep attempt sw)
                   else (sw, o)
          end
      end
  end.

Definition CLIENT_RETRIES : nat := 3.

Definition complete_legacy (prompt : string) (t : ModelTier) (max_retries : nat) (use_cache : bool)
    (model : option string) (kwargs : odict pyval) : SW -> SW * Outcome Reply :=
  with_retry (legacy_body prompt t max_retries use_cache model kwargs) 0 CLIENT_RETRIES.

(** ** The ExecutionKit path *)

Definition MAX_FALLBACK_TRIES : nat := 6.

(** [checked_complete] calls the provider it is given; [is_http]: an
    [httpx.HTTPStatusError]; [total_tokens]: ExecutionKit's sum over the usage. *)
Context (is_http : ProviderError -> bool) (total_tokens : odict pyval -> Z).

(** [str(exc)] of the [CircuitResolvedError]: the state at the time it is raised. *)
Definition circuit_resolved_error (model : string) (sw : SW) : ProviderError :=
  mkPError ("Circuit for '" +:+ model +:+ "' resolved to " +:+
            circuit_value (circuit_state (stats_of (clock sw.2) model sw.1)) +:+ " before probe ran")
    "CircuitResolvedError" None None.

Definition translate_error (err : ProviderError) : option (EkError * string) :=
  match pe_status err with
  | Some status => if is_http err then Some (map_http_error status, "Provider request failed with HTTP " +:+ pretty status)
                   else None
  | None => None
  end.

Definition no_model_available (t : ModelTier) (tried : list string) (last_error : option ProviderError) : string :=
  "No model available for tier " +:+ tier_name t +:+ ". Tried: " +:+ str_of repr (VList (VStr <$> tried)) +:+
  ". Last error: " +:+ match last_error with Some err => pe_text err | None => "None" end.

(** [list(tools) if tools else None]; iterating over any other object raises. *)
Definition tool_list (tools : pyval) : res pyval :=
  if truthy tools then
    match tools with
    | VList l | VTuple l => Ok (VList l)
    | VDict d => Ok (VList (VStr <$> od_keys d))
    | VStr s => Ok (VList ((fun c => VStr (String c "")) <$> String.list_ascii_of_string s))
    | v => Raise (TypeError ("'" +:+ type_name v +:+ "' object is not iterable"))
    end
  else Ok VNone.

(** The keyword parameter [name] of a call, [None] by default. *)
Definition keyword (name : string) (kwargs : odict pyval) : pyval := default VNone (od_get name kwargs).

(** What [_call_backend] gives the backend besides the messages: the keyword arguments,
    with [temperature] and [max_tokens] only when they are not [None]. *)
Definition backend_kwargs (tools : pyval) (kwargs : odict pyval) : odict pyval :=
  let given name d := match keyword name kwargs with VNone => d | v => od_set name v d end in
  let call_kwargs := od_pop "tools" (od_pop "max_tokens" (od_pop "temperature" kwargs)) in
  ("tools", tools) :: given "max_tokens" (given "temperature" call_kwargs).

(** [SmartRouterProvider.complete]: unlike [run_with_fallback], it does not exclude the
    models it has tried, and a [CircuitResolvedError] is an error like any other. *)
Fixpoint provider_loop (n : nat) (messages : list (odict pyval)) (call_kwargs : odict pyval) (model : option string) (t : ModelTier)
    (tried : list string) (last_error : option ProviderError) (sw : SW) : SW * Outcome (odict pyval) :=
  let none_left sw := (sw, RaisedEk ProviderErr (no_model_available t tried last_error)) in
  match n with
  | O => none_left sw
  | S n' =>
      match select_model p r e quarantined health_checker model_costs clock model t [] sw with
      | (s, Raise x) => ((s, sw.2), RaisedHere x)
      | (s, Ok None) => none_left (s, sw.2)
      | (s, Ok (Some current_model)) =>
          let sw := (s, sw.2) in
          if decide (current_model ∈ tried) then none_left sw
          else
            let tried := tried ++ [current_model] in
            let sw := on_router (fun s => put_stats current_model (stats_of (clock sw.2) current_model s) s) sw in
            if negb (ready current_model sw) then provider_loop n' messages call_kwargs model t tried last_error sw
            else
              let failed err sw' :=
                let sw' := on_error current_model err sw' in
                match translate_error err with
                | Some (kind, msg) => (sw', RaisedEk kind msg)
                | None => provider_loop n' messages call_kwargs model t tried (Some err) sw'
                end in
              match execute_chat current_model messages call_kwargs sw with
              | (sw', Answer raw) => (record_success_of current_model sw sw', Done raw)
              | (sw', Cancelled) => (sw', WasCancelled)
              | (sw', CircuitResolved) => failed (circuit_resolved_error current_model sw') sw'
              | (sw', Failed err) => failed err sw'
              end
      end
  end.

Definition provider_complete (model : option string) (t : ModelTier) (messages : list (odict pyval))
    (kwargs : odict pyval) (sw : SW) : SW * Outcome (odict pyval) :=
  match tool_list (keyword "tools" kwargs) with
  | Raise x => (sw, RaisedHere x)
  | Ok tools =>
      let loop := provider_loop MAX_FALLBACK_TRIES messages (backend_kwargs tools kwargs) model t [] None sw in
      match model with
      | Some m => match enforce_cost_lane_ceiling r e m None with
                  | Raise x => (sw, RaisedHere x)
                  | Ok _ => loop
                  end
      | None => loop
      end
  end.

Definition nonempty (s : option string) : option string := match s with Some (String _ _) => s | _ => None end.

Definition resolve_ek_model_used (raw : odict pyval) (model : option string) (t : ModelTier) (sw : SW)
  : SW * res string :=
  let echoed := match od_get "model" raw with
                | Some v => if truthy v then str_of repr v else ""
                | None => "" end in
  match nonempty (Some echoed), nonempty model with
  | Some m, _ => (sw, Ok m)
  | None, Some m => (sw, Ok m)
  | None, None =>
      match get_model_for_tier p r e quarantined health_checker model_costs (clock sw.2) t true None true [] sw.1 with
      | (s, Ok m) => ((s, sw.2), Ok (default "" m))
      | (s, Raise x) => ((s, sw.2), Raise x)
      end
  end.

(** [checked_complete(provider, messages, ..., model=model, **kwargs)], from the provider's
    [complete], the messages and the keyword arguments. *)
Context (checked_complete : (list (odict pyval) -> odict pyval -> SW -> SW * Outcome (odict pyval)) ->
    list (odict pyval) -> odict pyval -> SW -> SW * Outcome (odict pyval))
  (ek_importable : bool).

Definition user_message (content : string) : odict pyval := [("role", VStr "user"); ("content", VStr content)].

(** What follows the provider's reply. *)
Definition finish_ek (cache_key : string) (t : ModelTier) (use_cache : bool) (model : option string)
    (raw : odict pyval) (sw : SW) : SW * Outcome Reply :=
  let tokens := total_tokens raw in
  let content := sanitize_response_text sha256 response_sanitizer (ek_content repr raw) in
  let '(c, ok) := consume_budget tokens (client_of sw) in
  let sw := on_client (fun _ => c) sw in
  match budget c, ok with
  | Some bud, false => (sw, RaisedHere (budget_exceeded bud))
  | _, _ =>
      match resolve_ek_model_used raw model t sw with
      | (sw, Raise x) => (sw, RaisedHere x)
      | (sw, Ok model_used) =>
          (if use_cache then on_client (set_cached (time_of sw) cache_key content (Some model_used) tokens) sw else sw,
           Done (content, Some model_used, tokens))
      end
  end.

Definition complete_via_ek (prompt : string) (t : ModelTier) (max_retries : nat) (use_cache : bool)
    (model : option string) (kwargs : odict pyval) (sw : SW) : SW * Outcome Reply :=
  match backend with
  | None => (sw, RaisedHere (RuntimeError ERR_NO_LLM_BACKEND))
  | Some _ =>
      if negb ek_importable then complete_legacy prompt t max_retries use_cache model kwargs sw
      else
        let cache_key := key_of prompt t (kwargs ++ [("model", str_or_none model)]) in
        let '(sw, cached) := if use_cache && enable_cache (client_of sw) then lookup_cache cache_key sw
                             else (sw, None) in
        match cached with
        | Some hit => (sw, Done (response hit, cached_model hit, tokens_used hit))
        | None =>
            match sanitize_prompt sha256 sanitization prompt with
            | Raise x => (sw, RaisedHere x)
            | Ok effective_prompt =>
                match checked_complete (provider_complete model t) [user_message effective_prompt] kwargs sw with
                | (sw, Done raw) => finish_ek cache_key t use_cache model raw sw
                | (sw, RaisedHere x) => (sw, RaisedHere x)
                | (sw, RaisedByProvider err) => (sw, RaisedByProvider err)
                | (sw, RaisedEk k m) => (sw, RaisedEk k m)
                | (sw, WasCancelled) => (sw, WasCancelled)
                end
            end
        end
  end.

(** ** Chat *)

Definition sanitize_reply (rd : odict pyval) : odict pyval :=
  match response_sanitizer with
  | None => rd
  | Some _ =>
      let rd := match od_get "content" rd with
                | Some (VStr content) => od_set "content" (VStr (sanitize_response_text sha256 response_sanitizer content)) rd
                | Some (VList blocks) => od_set "content" (VList (sanitize_response_blocks sha256 response_sanitizer blocks)) rd
                | _ => rd
                end in
      match od_get "thinking" rd with
      | Some (VStr (String _ _ as thinking)) =>
          od_set "thinking" (VStr (sanitize_response_text sha256 response_sanitizer thinking)) rd
      | _ => rd
      end
  end.

(** The usage when the provider reports some, otherwise the backend's estimate. *)
Definition chat_tokens (b : Backend) (prompt_str model : string) (rd : odict pyval) : res Z :=
  reported ← reported_tokens rd;
  if (0 <? reported : bool) then Ok reported
  else
    let content := default (VStr "") (od_get "content" rd) in
    let tool_calls := default VNone (od_get "tool_calls" rd) in
    match if truthy content then content else VStr "" with
    | VStr text =>
        Ok (count_tokens b (prompt_str +:+ text +:+ if truthy tool_calls then str_of repr tool_calls else "") model)
    | v => Raise (TypeError ("can only concatenate str (not " +:+ type_name v +:+ ") to str"))
    end.

Definition run_chat_attempt (b : Backend) (messages : list (odict pyval)) (call_kwargs : odict pyval) (prompt_str : string) (use_cache : bool)
    (cache_key : option string) (selected_model : string) (sw : SW) : SW * CallResult (odict pyval * string * Z) :=
  match execute_chat selected_model messages call_kwargs sw with
  | (sw', Answer rd) =>
      let rd := sanitize_reply rd in
      match chat_tokens b prompt_str selected_model rd with
      | Raise x => (sw', Failed (local_error x))
      | Ok tokens =>
          let sw' := record_success_of selected_model sw sw' in
          let sw' := on_client (fun c => (consume_budget tokens c).1) sw' in
          if use_cache && enable_cache (client_of sw') && bool_decide (is_Some cache_key) && negb (serializable (VDict rd))
          then (sw', Failed (local_error (TypeError "Object is not JSON serializable")))
          else (store_reply use_cache cache_key (json_dumps float_repr (VDict rd)) (Some selected_model) tokens sw',
                Answer (rd, selected_model, tokens))
      end
  | (sw', Cancelled) => (sw', Cancelled)
  | (sw', CircuitResolved) => (sw', CircuitResolved)
  | (sw', Failed err) => (sw', Failed err)
  end.

(** The reply of a chat: a dictionary, or what the cache decodes to. *)
Abbreviation ChatReply := (pyval * option string * Z)%type.

Definition get_cached_chat (cache_key : string) (sw : SW) : SW * option ChatReply :=
  let '(sw, cached) := lookup_cache cache_key sw in
  (sw, cached ≫= fun hit => (fun d => (d, cached_model hit, tokens_used hit)) <$> json_loads (response hit)).

Definition chat_body (b : Backend) (messages : list (odict pyval)) (t : ModelTier) (max_retries : nat)
    (use_cache : bool) (tools : pyval) (model : option string) (kwargs : odict pyval) (sw : SW)
  : SW * Outcome ChatReply :=
  let cache_key := if use_cache && enable_cache (client_of sw)
                   then Some (key_of (str_of repr (VList (VDict <$> messages))) t
                                (("tools", tools) :: ("model", str_or_none model) :: kwargs)) else None in
  let '(sw, cached) := match cache_key with Some key => get_cached_chat key sw | None => (sw, None) end in
  match cached with
  | Some reply => (sw, Done reply)
  | None =>
      match message_contents 0 messages with
      | Raise x => (sw, RaisedHere x)
      | Ok contents =>
          let prompt_str := join " " contents in
          match fallback (run_chat_attempt b messages (("tools", tools) :: kwargs) prompt_str use_cache cache_key) b prompt_str
                  max_retries model t sw with
          | (sw, Done (rd, m, tokens)) => (sw, Done (VDict rd, Some m, tokens))
          | (sw, RaisedHere x) => (sw, RaisedHere x)
          | (sw, RaisedByProvider err) => (sw, RaisedByProvider err)
          | (sw, RaisedEk k msg) => (sw, RaisedEk k msg)
          | (sw, WasCancelled) => (sw, WasCancelled)
          end
      end
  end.

Definition complete_chat (messages : list (odict pyval)) (t : ModelTier) (max_retries : nat) (use_cache : bool)
    (tools : pyval) (model : option string) (kwargs : odict pyval) (sw : SW) : SW * Outcome ChatReply :=
  match backend with
  | None => (sw, RaisedHere (RuntimeError ERR_NO_LLM_BACKEND))
  | Some b =>
      if negb (supports_chat b) then (sw, RaisedHere (RuntimeError "Backend does not support complete_chat"))
      else match sanitize_messages sha256 sanitization messages with
           | Raise x => (sw, RaisedHere x)
           | Ok messages =>
               with_retry (chat_body b messages t max_retries use_cache tools model kwargs) 0 CLIENT_RETRIES sw
           end
  end.

Definition complete (agentic_ek_provider : bool) (prompt : string) (t : ModelTier) (max_retries : nat)
    (use_cache : bool) (model : option string) (kwargs : odict pyval) (sw : SW) : SW * Outcome Reply :=
  match backend with
  | None => (sw, RaisedHere (RuntimeError ERR_NO_LLM_BACKEND))
  | Some _ =>
      if agentic_ek_provider then complete_via_ek prompt t max_retries use_cache model kwargs sw
      else complete_legacy prompt t max_retries use_cache model kwargs sw
  end.
End client.
