(* ===== verification/Executor.v ===== *)
(** * The workflow executor (engine/executor.py)

    [WorkflowExecutor] runs a step, a list of steps, a pipeline or a DAG: it validates the
    definition, seeds the context, runs the sub-executor under the global timeout,
    turns every error into a FAILED result and keeps the history.  The sub-executors
    are the interface [ExecutorEnv]; an [await] may change the world arbitrarily and
    other tasks may call [cancel] during it.  [Ex] is the executor with the result
    object that [execute] fills. *)

From stdpp Require Import pretty.
From Stdlib Require Import QArith.
From S2P Require Import Prelude PyStr PyVal Context Messages Step Dag Pipeline.
Local Open Scope nat_scope.

(** ** Workflow definitions, as a caller may pass them *)

(** An element of a pipeline, or an object of another type; a group's or a list's items
    that are not steps are given by their type's name, as is a branch's condition
    when it is not callable and a side when it is not a list. *)
Inductive RawElement (S W : Type) :=
| RStep (s : S)
| RGroup (name : string) (steps : list (S + string)) (fail_fast : bool) (max_concurrency : option Z)
| RBranch (name : string) (condition : option (M W bool)) (then_steps else_steps : option (list (RawElement S W)))
| RBad (type_name : string).
Arguments RStep {S W}. Arguments RGroup {S W}. Arguments RBranch {S W}. Arguments RBad {S W}.

Record RawPipeline (S W : Type) := mkRaw { rp_pipeline : Pipeline S W; rp_elements : list (RawElement S W) }.
Arguments mkRaw {S W}. Arguments rp_pipeline {S W}. Arguments rp_elements {S W}.

Inductive Workflow (S W : Type) `{!DagStep S} :=
| WDag (d : DAG S)
| WStep (s : S)
| WPipeline (p : RawPipeline S W)
| WList (l : list (S + string))
| WOther (type_name : string).
Arguments WDag {_ _ _}. Arguments WStep {_ _ _}. Arguments WPipeline {_ _ _}. Arguments WList {_ _ _}. Arguments WOther {_ _ _}.

Section validation.
Context {S W : Type} `{!DagStep S}.

Fixpoint first_bad (steps : list (S + string)) (i : nat) : option (nat * string) :=
  match steps with
  | [] => None
  | inl _ :: rest => first_bad rest (Datatypes.S i)
  | inr ty :: _ => Some (i, ty)
  end.

Definition validate_parallel_group (path : string) (steps : list (S + string)) : res unit :=
  match steps with
  | [] => Raise (ValueError (path +:+ " parallel group has no steps"))
  | _ => match first_bad steps 0 with
         | Some (i, ty) => Raise (TypeError (path +:+ " parallel step " +:+ pretty i +:+ " must be StepDefinition, got " +:+ ty))
         | None => Ok tt
         end
  end.

Fixpoint validate_pipeline_element (e : RawElement S W) (path : string) : res unit :=
  let children (prefix : string) := fix children (l : list (RawElement S W)) (i : nat) : res unit :=
    match l with
    | [] => Ok tt
    | child :: rest =>
        validate_pipeline_element child (path +:+ prefix +:+ "[" +:+ pretty i +:+ "]") ≫= fun _ =>
        children rest (Datatypes.S i)
    end in
  match e with
  | RStep _ => Ok tt
  | RGroup _ steps _ _ => validate_parallel_group path steps
  | RBranch _ condition then_steps else_steps =>
      match condition, then_steps, else_steps with
      | None, _, _ => Raise (TypeError (path +:+ " branch condition must be callable"))
      | Some _, None, _ => Raise (TypeError (path +:+ " then_steps must be a list"))
      | Some _, Some _, None => Raise (TypeError (path +:+ " else_steps must be a list"))
      | Some _, Some t, Some f => children ".then" t 0 ≫= fun _ => children ".else" f 0
      end
  | RBad ty => Raise (TypeError (path +:+ " must be a Pipeline element, got " +:+ ty))
  end.

(** The steps [Pipeline.total_steps] counts. *)
Fixpoint count_raw (e : RawElement S W) : nat :=
  let go := fix go (l : list (RawElement S W)) := match l with [] => 0 | x :: l' => count_raw x + go l' end in
  match e with
  | RStep _ => 1
  | RGroup _ steps _ _ => length steps
  | RBranch _ _ t f => (match t with Some l => go l | None => 0 end) + (match f with Some l => go l | None => 0 end)
  | RBad _ => 0
  end.
Definition count_raws (l : list (RawElement S W)) : nat := foldr (fun e n => count_raw e + n) 0 l.

Fixpoint validate_elements (l : list (RawElement S W)) (i : nat) : res unit :=
  match l with
  | [] => Ok tt
  | e :: rest => validate_pipeline_element e ("Pipeline element " +:+ pretty i) ≫= fun _ =>
                 validate_elements rest (Datatypes.S i)
  end.

Definition validate_pipeline_definition (p : RawPipeline S W) : res unit :=
  match rp_elements p with
  | [] => Raise (ValueError ("Pipeline '" +:+ pl_name (rp_pipeline p) +:+ "' has no elements"))
  | l => validate_elements l 0 ≫= fun _ =>
         if decide (count_raws l = 0)
         then Raise (ValueError ("Pipeline '" +:+ pl_name (rp_pipeline p) +:+ "' has no executable steps")) else Ok tt
  end.

Definition validate_workflow_definition (w : Workflow S W) : res unit :=
  match w with
  | WDag d => Dag.validate d
  | WStep _ => Ok tt
  | WPipeline p => validate_pipeline_definition p
  | WList l => match first_bad l 0 with
               | Some (i, ty) => Raise (TypeError ("workflow step list items must be StepDefinition instances; item " +:+
                                                   pretty i +:+ " is " +:+ ty))
               | None => Ok tt
               end
  | WOther ty => Raise (TypeError ("workflow must be a StepDefinition, Pipeline, DAG, or list of StepDefinition instances, got " +:+ ty))
  end.

(** A definition whose elements have their types. *)
Fixpoint steps_of (l : list (S + string)) : option (list S) :=
  match l with
  | [] => Some []
  | inl s :: rest => steps ← steps_of rest; Some (s :: steps)
  | inr _ :: _ => None
  end.

Fixpoint typed_element (e : RawElement S W) : option (Element S W) :=
  let all := fix all (l : list (RawElement S W)) : option (list (Element S W)) :=
    match l with
    | [] => Some []
    | x :: l' => x' ← typed_element x; l'' ← all l'; Some (x' :: l'')
    end in
  match e with
  | RStep s => Some (EStep s)
  | RGroup name steps ff mc =>
      match steps with
      | [] => None
      | _ => l ← steps_of steps; Some (EGroup (mkGroup name l ff mc))
      end
  | RBranch name (Some c) (Some t) (Some f) => t' ← all t; f' ← all f; Some (EBranch name c t' f')
  | RBranch _ _ _ _ | RBad _ => None
  end.

Fixpoint typed_elements (l : list (RawElement S W)) : option (list (Element S W)) :=
  match l with
  | [] => Some []
  | e :: rest => e' ← typed_element e; rest' ← typed_elements rest; Some (e' :: rest')
  end.

Definition typed_pipeline (p : RawPipeline S W) : option (Pipeline S W) :=
  l ← typed_elements (rp_elements p);
  let q := rp_pipeline p in
  Some (mkPipeline (pl_name q) (pl_description q) l (pl_checkpoint_interval q) (pl_fail_fast q) (pl_tags q) (pl_metadata q)).

Definition get_workflow_name (w : Workflow S W) : string :=
  match w with
  | WDag d => "dag:" +:+ dag_name d
  | WStep s => "step:" +:+ step_name s
  | WPipeline p => pl_name (rp_pipeline p)
  | WList l => "sequence:" +:+ pretty (length l) +:+ "_steps"
  | WOther _ => "unknown"
  end.
End validation.

(** ** The configuration and the history *)

Record ExecutionConfig := mkConfig {
  global_timeout_seconds : option Q;
  step_default_timeout_seconds : Q;
  max_context_variables : Z;
  cleanup_on_complete : bool;
}.
Definition default_config : ExecutionConfig := mkConfig None 300 1000 true.

(** [__post_init__] *)
Definition check_config (c : ExecutionConfig) : res ExecutionConfig :=
  if Qle_bool (step_default_timeout_seconds c) 0
  then Raise (ValueError "step_default_timeout_seconds must be > 0") else Ok c.

Record Entry := mkEntry {
  en_timestamp : Z;
  en_event : string;
  en_step : option string;
  en_data : odict pyval;
}.

Definition get_step_history (step : string) (l : list Entry) : list Entry :=
  filter (fun e => en_step e = Some step) l.
Definition get_errors (l : list Entry) : list Entry := filter (fun e => en_event e = "error") l.

Inductive ExecutorEvent := WORKFLOW_START | WORKFLOW_END | STEP_START | STEP_END | ERROR | CANCELLED | CHECKPOINT.
Definition event_value (e : ExecutorEvent) : string :=
  match e with
  | WORKFLOW_START => "workflow_start" | WORKFLOW_END => "workflow_end" | STEP_START => "step_start"
  | STEP_END => "step_end" | ERROR => "error" | CANCELLED => "cancelled" | CHECKPOINT => "checkpoint"
  end.

(** ** The interface

    [C] is the type of references to contexts.  [deadline_hit]: the cancellation that ended
    an await is that of [wait_for]'s own timeout.  [store_variable] is the write of
    [set_sync], once the key is accepted.  [cancel_called w w']: another task
    called [cancel] between [w] and [w']. *)
Class ExecutorEnv (S W C : Type) `{!DagStep S} := {
  step_timeout : S -> option Q;
  replace_timeout : Q -> S -> S;
  execute_step_def : S -> C -> M W StepResult;
  execute_dag : DAG S -> C -> Z -> M W WorkflowResult;
  execute_pipeline : RawPipeline S W -> C -> M W WorkflowResult;
  new_context : W -> W * C;
  store_variable : C -> string -> pyval -> W -> W;
  register_services : C -> W -> W;
  all_variables : C -> W -> odict pyval;
  context_workflow_id : C -> W -> string;
  now : W -> Z;
  ex_cancel_called : W -> W -> bool;
  deadline_hit : W -> bool;
  format_exc : PyExc -> string;
}.

Record Ex (W C : Type) := mkEx {
  ex_world : W;
  ex_history : list Entry;
  ex_cancelled : bool;
  ex_current_ctx : option C;
  ex_result : WorkflowResult;
}.
Arguments mkEx {W C}. Arguments ex_world {W C}. Arguments ex_history {W C}. Arguments ex_cancelled {W C}.
Arguments ex_current_ctx {W C}. Arguments ex_result {W C}.

Section executor.
Context {S W C : Type} `{!DagStep S} `{!ExecutorEnv S W C}.
Context (config : ExecutionConfig) (listeners : list (ExecutorEvent -> odict pyval -> M W unit))
  (float_repr : Qcanon.Qc -> string).
Abbreviation X := (Ex W C).
Implicit Types (ctx : C) (s : X).

Definition on_world (f : W -> W) s : X :=
  mkEx (f (ex_world s)) (ex_history s) (ex_cancelled s) (ex_current_ctx s) (ex_result s).
Definition set_history (l : list Entry) s : X :=
  mkEx (ex_world s) l (ex_cancelled s) (ex_current_ctx s) (ex_result s).
Definition set_cancelled (b : bool) s : X :=
  mkEx (ex_world s) (ex_history s) b (ex_current_ctx s) (ex_result s).
Definition set_current (c : option C) s : X :=
  mkEx (ex_world s) (ex_history s) (ex_cancelled s) c (ex_result s).
Definition set_result (r : WorkflowResult) s : X :=
  mkEx (ex_world s) (ex_history s) (ex_cancelled s) (ex_current_ctx s) r.
Definition on_result (f : WorkflowResult -> WorkflowResult) s : X := set_result (f (ex_result s)) s.

Definition record (event : string) (step : option string) (data : odict pyval) s : X :=
  set_history (ex_history s ++ [mkEntry (now (ex_world s)) event step data]) s.

(** An [await]: the world changes, and [cancel] may be called. *)
Definition await_ {A} (m : M W A) : M X A := fun s =>
  let '(w, o) := m (ex_world s) in
  (set_cancelled (ex_cancelled s || ex_cancel_called (ex_world s) w) (on_world (fun _ => w) s), o).

Definition emit (event : ExecutorEvent) (data : odict pyval) : M X unit :=
  for_each (fun listener => try_except (await_ (listener event data))
                              (fun x => if is_exception x then ret tt else raise x)) listeners.

Definition duration_value (r : WorkflowResult) : pyval :=
  match total_duration_ms r with Some q => VFloat q | None => VNone end.
Definition status_data (r : WorkflowResult) : odict pyval :=
  [("status", VStr (status_value (wr_overall_status r)))].

(** ** Steps *)

Definition execute_step (step_def : S) (ctx : C) : M X StepResult :=
  modify (record "step_start" (Some (step_name step_def)) []);;
  emit STEP_START [("step", VStr (step_name step_def))];;
  let step_def' := match step_timeout step_def with
                   | None => replace_timeout (step_default_timeout_seconds config) step_def
                   | Some _ => step_def
                   end in
  r <- await_ (execute_step_def step_def' ctx);
  modify (record "step_end" (Some (step_name step_def))
            [("status", VStr (status_value (sr_status r)));
             ("duration_ms", match Messages.duration_ms r with Some q => VFloat q | None => VNone end)]);;
  emit STEP_END [("step", VStr (step_name step_def)); ("status", VStr (status_value (sr_status r)))];;
  s <- get;
  let var_count := Z.of_nat (length (all_variables ctx (ex_world s))) in
  ret (if negb (max_context_variables config =? 0)%Z && (max_context_variables config <? var_count)%Z
       then Step.set_meta "warning" (VStr ("Context has " +:+ pretty var_count +:+ " variables (limit: " +:+
                                      pretty (max_context_variables config) +:+ ")")) r
       else r).

(** The loop over a list; [true] when it was not left by [break]. *)
Fixpoint run_list (steps : list S) (ctx : C) : M X bool :=
  match steps with
  | [] => ret true
  | step_def :: rest =>
      s <- get;
      if ex_cancelled s then ret false
      else
        r <- execute_step step_def ctx;
        modify (on_result (Messages.add_step r));;
        if is_failed r then modify (on_result (set_overall StFailed));; ret false
        else run_list rest ctx
  end.

(** [result.steps], [overall_status] and [final_output] from a sub-executor's result. *)
Definition adopt (sub : WorkflowResult) (r : WorkflowResult) : WorkflowResult :=
  set_final_output (wr_final_output sub) (set_overall (wr_overall_status sub) (set_wr_steps (wr_steps sub) r)).

Definition execute_workflow (max_concurrency : Z) (workflow : Workflow S W) (ctx : C) : M X unit :=
  match workflow with
  | WDag d => r <- await_ (execute_dag d ctx max_concurrency); modify (on_result (adopt r))
  | WStep step_def =>
      r <- execute_step step_def ctx;
      modify (on_result (fun w => set_overall (if is_success r then StSuccess else StFailed) (Messages.add_step r w)))
  | WPipeline p => r <- await_ (execute_pipeline p ctx); modify (on_result (adopt r))
  | WList l =>
      completed <- run_list (default [] (steps_of l)) ctx;
      if completed : bool then modify (on_result (set_overall StSuccess)) else ret tt
  | WOther _ => ret tt
  end;;
  modify (fun s => on_result (set_final_output (all_variables ctx (ex_world s))) s).

(** ** [execute] *)

Definition timeout_error : PyExc := mkExc KTimeout "TimeoutError" "".

(** [asyncio.wait_for]: its own cancellation becomes a [TimeoutError]. *)
Definition wait_for {A} (m : M X A) : M X A := fun s =>
  match m s with
  | (s', inr x) => (s', inr (if negb (is_exception x) && deadline_hit (ex_world s') then timeout_error else x))
  | o => o
  end.

Definition has_timeout : bool :=
  match global_timeout_seconds config with Some q => negb (Qeq_bool q 0) | None => false end.

Definition add_meta (k : string) (v : pyval) (w : WorkflowResult) : WorkflowResult :=
  set_wr_metadata (od_set k v (wr_metadata w)) w.

Definition mark_complete_now (success : bool) s : X := on_result (wf_mark_complete success (now (ex_world s))) s.
Definition count_entries s : X :=
  on_result (add_meta "history_entries" (VInt (Z.of_nat (length (ex_history s))))) s.
Definition record_end s : X := record "workflow_end" None (status_data (ex_result s)) s.
Definition cleanup s : X := if cleanup_on_complete config then set_current None s else s.

Definition end_event : M X unit :=
  s <- get; emit WORKFLOW_END (status_data (ex_result s) ++ [("duration_ms", duration_value (ex_result s))]).

Definition timeout_text : string :=
  "Global timeout after " +:+
  match global_timeout_seconds config with Some q => float_repr (Qcanon.Q2Qc q) | None => "None" end +:+ "s".

Definition on_timeout : M X unit :=
  modify (on_result (fun w => add_meta "error_type" (VStr "timeout")
                                (add_meta "error" (VStr timeout_text) (set_overall StFailed w))));;
  modify (record "error" None [("type", VStr "timeout")]).

Definition swallow_cancel (m : M X unit) : M X unit :=
  try_except m (fun x => if is_exception x then raise x else ret tt).

Definition on_cancelled (x : PyExc) : M X unit :=
  modify (on_result (fun w => add_meta "cancelled" (VBool true) (set_overall StFailed w)));;
  modify (mark_complete_now false);;
  modify count_entries;;
  modify (record "cancelled" None []);;
  modify record_end;;
  modify cleanup;;
  swallow_cancel (emit CANCELLED []);;
  swallow_cancel end_event;;
  raise x.

Definition on_exception (x : PyExc) : M X unit :=
  modify (on_result (fun w => add_meta "traceback" (VStr (format_exc (S := S) (W := W) (C := C) x))
                                (add_meta "error" (VStr (ex_msg x)) (set_overall StFailed w))));;
  modify (record "error" None [("type", VStr (ex_type x)); ("message", VStr (ex_msg x))]);;
  emit ERROR [("error", VStr (ex_msg x))].

(** The three [except] clauses. *)
Definition handle (x : PyExc) : M X unit :=
  match ex_kind x with
  | KTimeout => on_timeout
  | KCancelled => on_cancelled x
  | KContract _ | KException => on_exception x
  end.

(** The identifier and the name of a workflow must not be empty: pydantic refuses the result. *)
Definition invalid_result : PyExc := mkExc KException "ValidationError" "WorkflowResult".

(** [ctx.set_sync(key, value)] for each initial variable; a refused key raises, and the
    variables before it stay. *)
Definition seed (ctx : C) : list (pyval * pyval) -> M X unit :=
  for_each (fun kv => match validate_variable_key kv.1 false with
                      | Raise x => raise (exc_of x)
                      | Ok key => modify (on_world (store_variable ctx key kv.2))
                      end).

(** From the validated inputs to the result object; what it raises leaves [execute]. *)
Definition prepare (workflow : Workflow S W) (ctx0 : option C) (initial_vars : list (pyval * pyval)) : M X C :=
  ctx <- (fun s => match ctx0 with
                   | Some ctx => (s, inl ctx)
                   | None => let '(w, ctx) := new_context (ex_world s) in (on_world (fun _ => w) s, inl ctx)
                   end);
  modify (fun s => set_cancelled false (set_current (Some ctx) s));;
  seed ctx initial_vars;;
  modify (on_world (register_services ctx));;
  s <- get;
  let id := context_workflow_id ctx (ex_world s) in
  if decide (id = "" \/ get_workflow_name workflow = "") then raise invalid_result
  else
    modify (fun s => set_result (new_workflow_result id (get_workflow_name workflow) StRunning (now (ex_world s))) s);;
    ret ctx.

Definition execute (workflow : Workflow S W) (ctx0 : option C) (initial_vars : list (pyval * pyval)) (max_concurrency : Z)
  : M X WorkflowResult :=
  match validate_workflow_definition workflow with
  | Raise x => raise (exc_of x)
  | Ok _ =>
      ctx <- prepare workflow ctx0 initial_vars;
      let name := get_workflow_name workflow in
      modify (record "workflow_start" None [("name", VStr name)]);;
      emit WORKFLOW_START [("workflow", VStr name)];;
      try_except (if has_timeout then wait_for (execute_workflow max_concurrency workflow ctx)
                  else execute_workflow max_concurrency workflow ctx) handle;;
      modify (fun s => mark_complete_now (bool_decide (wr_overall_status (ex_result s) = StSuccess)) s);;
      modify count_entries;;
      modify record_end;;
      end_event;;
      modify cleanup;;
      s <- get; ret (ex_result s)
  end.

(** [cancel]; the sub-executors' own cancellation acts on the world. *)
Definition cancel (sub : W -> W) s : X := set_cancelled true (on_world sub s).

(** The convenience function [run]. *)
Definition run_result (step_def : S) (r : WorkflowResult) (t : Z) : StepResult :=
  match wr_steps r with
  | x :: _ => x
  | [] => set_sr_error (Some "No step result") None (new_step_result (step_name step_def) StFailed None t)
  end.
End executor.
