(* ===== verification/ExecutorFacts.v ===== *)
(** * Correctness of the workflow executor (Executor.v)

    Every run settles and only cancellations escape; the history brackets a run; a
    sequence is fail-fast; validation accepts exactly the well-typed definitions. *)

From stdpp Require Import pretty.
From Stdlib Require Import QArith.
From S2P Require Import Prelude PyStr PyVal Context Messages Step StepFacts Dag Pipeline PipelineFacts Executor.
Local Open Scope nat_scope.

(** A successful step first changes nothing. *)
Lemma stops_cons r rs : is_failed r = false -> stops_at_failure rs -> stops_at_failure (r :: rs).
Proof.
  intros Hr Hs [|x pre] y post Heq Hy; injection Heq as -> Heq; [congruence|by eapply Hs].
Qed.

(** ** Runs *)

Section executor.
Context {S W C : Type} `{!DagStep S} `{!ExecutorEnv S W C}.
Context (config : ExecutionConfig) (listeners : list (ExecutorEvent -> odict pyval -> M W unit))
  (float_repr : Qcanon.Qc -> string).
Abbreviation X := (Ex W C).
Abbreviation emit := (emit (S := S) listeners).
Abbreviation execute_step := (execute_step config listeners).
Abbreviation run_list := (run_list config listeners).
Abbreviation execute_workflow := (execute_workflow config listeners).
Abbreviation execute := (execute config listeners float_repr).
Implicit Types (s : X) (ctx : C).

(** What an [await] may not touch: everything but the world and the cancellation flag,
    which it can only raise. *)
Record quiet s s' : Prop := {
  q_history : ex_history s' = ex_history s;
  q_result : ex_result s' = ex_result s;
  q_current : ex_current_ctx s' = ex_current_ctx s;
  q_cancelled : ex_cancelled s = true -> ex_cancelled s' = true;
}.

#[global] Instance quiet_preorder : PreOrder quiet.
Proof.
  split; [by split|]. intros s1 s2 s3 [H1 H2 H3 H4] [H1' H2' H3' H4']. split; try congruence. auto.
Qed.

Lemma wp_await_ {A} (m : M W A) s (Q : A + PyExc -> X -> Prop) :
  (forall o s', quiet s s' -> Q o s') -> wp (await_ (S := S) m) Q s.
Proof.
  intros H. unfold wp, await_. destruct (m (ex_world s)) as [w o]. apply H.
  split; try done. simpl. by intros ->.
Qed.

(** A listener's failure is contained; its cancellation is not. *)
Lemma wp_emit ev data s (Q : unit + PyExc -> X -> Prop) :
  (forall s', quiet s s' -> Q (inl tt) s') ->
  (forall x s', quiet s s' -> is_exception x = false -> Q (inr x) s') -> wp (emit ev data) Q s.
Proof.
  intros Hok Hcancel. unfold Executor.emit. apply wp_for_each with (I := quiet s).
  - intros l s' _ Hs'. apply wp_try, wp_await_. intros [[]|x] s'' Hq; cbn beta iota.
    + by etrans.
    + destruct (is_exception x) eqn:E; [apply wp_ret; by etrans|]. apply wp_raise, Hcancel; [by etrans|done].
  - exact Hok.
  - reflexivity.
Qed.

(** What a part of a run may do: add to the history, and raise the cancellation flag. *)
Record extends s s' : Prop := {
  x_history : ex_history s `prefix_of` ex_history s';
  x_current : ex_current_ctx s' = ex_current_ctx s;
  x_cancelled : ex_cancelled s = true -> ex_cancelled s' = true;
}.

#[global] Instance extends_preorder : PreOrder extends.
Proof.
  split; [by split|]. intros s1 s2 s3 [H1 H2 H3] [H1' H2' H3']. split; [by etrans|congruence|auto].
Qed.

Lemma quiet_extends s s' : quiet s s' -> extends s s'.
Proof. intros [H1 H2 H3 H4]. split; [by rewrite H1|done|done]. Qed.

Lemma record_extends event step data s : extends s (record (S := S) event step data s).
Proof. split; [by apply prefix_app_r|done|done]. Qed.

Lemma on_result_extends f s : extends s (on_result f s).
Proof. by split. Qed.
#[local] Hint Resolve quiet_extends record_extends on_result_extends : core.

Lemma wp_execute_step step ctx s (Q : StepResult + PyExc -> X -> Prop) :
  (forall o s', extends s s' -> ex_result s' = ex_result s -> Q o s') -> wp (execute_step step ctx) Q s.
Proof.
  intros HQ. unfold Executor.execute_step.
  apply wp_bind, wp_modify, wp_bind. set (s0 := record _ _ _ s). assert (extends s s0) as H0 by apply record_extends.
  apply wp_emit; [|intros x s1 Hq _; apply HQ; [etrans; [exact H0|by apply quiet_extends]|by rewrite (q_result _ _ Hq)]].
  intros s1 Hq1. apply wp_bind, wp_await_. intros o s2 Hq2.
  assert (extends s s2) as H2 by (etrans; [exact H0|]; etrans; [by apply quiet_extends|by apply quiet_extends]).
  assert (ex_result s2 = ex_result s) as Hr2 by by rewrite (q_result _ _ Hq2), (q_result _ _ Hq1).
  destruct o as [r|x]; [|by apply HQ].
  apply wp_bind, wp_modify, wp_bind. set (s3 := record _ _ _ s2).
  assert (extends s s3) as H3 by (etrans; [exact H2|apply record_extends]).
  apply wp_emit; [|intros x s4 Hq _; apply HQ; [etrans; [exact H3|by apply quiet_extends]|by rewrite (q_result _ _ Hq)]].
  intros s4 Hq4. apply wp_bind, wp_get, wp_ret, HQ; [etrans; [exact H3|by apply quiet_extends]|by rewrite (q_result _ _ Hq4)].
Qed.

(** ** Sequences *)

(** How a sequence of [n] steps stands, from the result [base]: what it has recorded, and
    why it stopped if it did. *)
Definition sequence_state (base : WorkflowResult) (n : nat) (o : bool + PyExc) s : Prop :=
  exists rs, wr_steps (ex_result s) = wr_steps base ++ rs /\ length rs <= n /\ stops_at_failure rs /\
    match o with
    | inl true => none_failed rs /\ length rs = n
    | inl false => (exists pre r, rs = pre ++ [r] /\ is_failed r = true) /\ wr_overall_status (ex_result s) = StFailed \/
                   ex_cancelled s = true /\ wr_overall_status (ex_result s) = wr_overall_status base
    | inr _ => True
    end.

Lemma add_step_ok_status r w : is_failed r = false -> wr_overall_status (Messages.add_step r w) = wr_overall_status w.
Proof. unfold Messages.add_step. by intros ->. Qed.

Lemma wp_run_list steps ctx s (Q : bool + PyExc -> X -> Prop) :
  (forall o s', extends s s' -> sequence_state (ex_result s) (length steps) o s' -> Q o s') ->
  wp (run_list steps ctx) Q s.
Proof.
  revert s Q. induction steps as [|step rest IH]; intros s Q HQ; cbn [Executor.run_list].
  { apply wp_ret, HQ; [done|]. exists []. rewrite app_nil_r. split_and!; try done. by apply none_failed_stops. }
  apply wp_bind, wp_get. destruct (ex_cancelled s) eqn:Ec.
  { apply wp_ret, HQ; [done|]. exists []. rewrite app_nil_r.
    split_and!; try done; [simpl; lia|by apply none_failed_stops|by right]. }
  apply wp_bind, wp_execute_step. intros [r|x] s1 He Hr.
  2:{ apply HQ; [done|]. exists []. rewrite app_nil_r, Hr.
      split_and!; try done; [simpl; lia|by apply none_failed_stops]. }
  apply wp_bind, wp_modify. set (s2 := on_result (Messages.add_step r) s1).
  assert (extends s s2) as H2 by (etrans; [exact He|apply on_result_extends]).
  assert (wr_steps (ex_result s2) = wr_steps (ex_result s) ++ [r]) as Hs2.
  { unfold s2. cbn [on_result set_result ex_result]. by rewrite add_step_steps, Hr. }
  destruct (is_failed r) eqn:Ef.
  - apply wp_bind, wp_modify, wp_ret, HQ; [etrans; [exact H2|apply on_result_extends]|].
    exists [r]. split; [exact Hs2|]. split; [simpl; lia|]. split; [by apply (failure_last [])|].
    left. split; [by exists [], r|done].
  - apply IH. intros o s' He' (rs & Hrs & Hlen & Hstop & Hcase). apply HQ; [by etrans|].
    exists (r :: rs). rewrite Hrs, Hs2, <- app_assoc. split; [done|]. split; [simpl; lia|].
    split; [by apply stops_cons|].
    destruct o as [[]|x]; [|destruct Hcase as [[(pre & y & -> & Hy) Hf]|(Hc & Hl)]|done].
    + destruct Hcase as [Hn Hl]. split; [|simpl; lia]. change (r :: rs) with ([r] ++ rs).
      apply none_failed_app. by rewrite none_failed_one.
    + left. split; [by exists (r :: pre), y|done].
    + right. split; [done|]. rewrite Hl. unfold s2. cbn [on_result set_result ex_result].
      by rewrite add_step_ok_status, Hr.
Qed.

Lemma wp_execute_workflow mc workflow ctx s (Q : unit + PyExc -> X -> Prop) :
  (forall o s', extends s s' -> Q o s') -> wp (execute_workflow mc workflow ctx) Q s.
Proof.
  intros HQ. unfold Executor.execute_workflow. apply wp_bind.
  enough (forall Q', (forall o s', extends s s' -> Q' o s') -> wp
    match workflow with
    | WDag d => r <- await_ (execute_dag d ctx mc); modify (on_result (adopt r))
    | WStep step_def => r <- execute_step step_def ctx;
        modify (on_result (fun w => set_overall (if is_success r then StSuccess else StFailed) (Messages.add_step r w)))
    | WPipeline p => r <- await_ (execute_pipeline p ctx); modify (on_result (adopt r))
    | WList l => completed <- run_list (default [] (steps_of l)) ctx;
        if completed : bool then modify (on_result (set_overall StSuccess)) else ret tt
    | WOther _ => ret tt
    end Q' s) as H.
  { apply H. intros [[]|x] s' He; [|by apply HQ]. apply wp_modify, HQ. etrans; [exact He|]. by split. }
  intros Q' HQ'. destruct workflow as [d|step|p|l|ty].
  - apply wp_bind, wp_await_. intros [r|x] s' Hq%quiet_extends; [|by apply HQ'].
    apply wp_modify, HQ'. etrans; [exact Hq|apply on_result_extends].
  - apply wp_bind, wp_execute_step. intros [r|x] s' He _; [|by apply HQ'].
    apply wp_modify, HQ'. etrans; [exact He|apply on_result_extends].
  - apply wp_bind, wp_await_. intros [r|x] s' Hq%quiet_extends; [|by apply HQ'].
    apply wp_modify, HQ'. etrans; [exact Hq|apply on_result_extends].
  - apply wp_bind, wp_run_list. intros [[]|x] s' He _; [|by apply wp_ret, HQ'|by apply HQ'].
    apply wp_modify, HQ'. etrans; [exact He|apply on_result_extends].
  - by apply wp_ret, HQ'.
Qed.

(** ** Settling *)

Definition settled (r : WorkflowResult) : Prop :=
  (wr_overall_status r = StSuccess \/ wr_overall_status r = StFailed) /\ is_Some (wr_end_time r) /\
  is_Some (od_get "history_entries" (wr_metadata r)).

(** The history of a run: it begins with its start and, when [ended], ends with its end. *)
Definition started (h h' : list Entry) (name : string) : Prop :=
  exists t mid, h' = h ++ mkEntry t "workflow_start" None [("name", VStr name)] :: mid.
Definition bracketed (h h' : list Entry) (name : string) (r : WorkflowResult) : Prop :=
  exists t mid t', h' = h ++ mkEntry t "workflow_start" None [("name", VStr name)] :: mid ++
                          [mkEntry t' "workflow_end" None (status_data r)].

Lemma started_more h h1 h2 name : started h h1 name -> h1 `prefix_of` h2 -> started h h2 name.
Proof. intros (t & mid & ->) [more ->]. exists t, (mid ++ more). by rewrite <- app_assoc. Qed.

Lemma started_bracketed h h1 t' name r :
  started h h1 name -> bracketed h (h1 ++ [mkEntry t' "workflow_end" None (status_data r)]) name r.
Proof. intros (t & mid & ->). exists t, mid, t'. by rewrite <- app_assoc. Qed.

Lemma wp_end_event s (Q : unit + PyExc -> X -> Prop) :
  (forall s', quiet s s' -> Q (inl tt) s') ->
  (forall x s', quiet s s' -> is_exception x = false -> Q (inr x) s') -> wp (end_event (S := S) listeners) Q s.
Proof. intros H1 H2. apply wp_bind, wp_get. by apply wp_emit. Qed.

(** The bookkeeping that ends a run: the result is settled, the history has its end. *)
Definition finish (success : bool) s : X := record_end (S := S) (count_entries (mark_complete_now (S := S) success s)).

Lemma finish_spec success h name s :
  started h (ex_history s) name ->
  settled (ex_result (finish success s)) /\ bracketed h (ex_history (finish success s)) name (ex_result (finish success s)) /\
  wr_overall_status (ex_result (finish success s)) = (if success then StSuccess else StFailed) /\
  wr_steps (ex_result (finish success s)) = wr_steps (ex_result s) /\
  ex_current_ctx (finish success s) = ex_current_ctx s /\ ex_cancelled (finish success s) = ex_cancelled s.
Proof.
  intros Hst. unfold finish, record_end, count_entries, mark_complete_now, record, on_result, add_meta, wf_mark_complete. simpl.
  split_and!; try done.
  - split_and!; [destruct success; auto|by eexists|]. simpl. rewrite od_get_set_eq. by eexists.
  - by apply started_bracketed.
Qed.

Lemma wp_swallow ev data s (Q : unit + PyExc -> X -> Prop) :
  (forall s', quiet s s' -> Q (inl tt) s') -> wp (swallow_cancel (emit ev data)) Q s.
Proof.
  intros HQ. apply wp_try, wp_emit; [done|]. intros x s' Hq ->. by apply wp_ret, HQ.
Qed.

(** What the cancellation handler has done before its events. *)
Definition cancelled_state s : X :=
  cleanup config (record_end (S := S) (record (S := S) "cancelled" None [] (count_entries (mark_complete_now (S := S) false
    (on_result (fun w => add_meta "cancelled" (VBool true) (set_overall StFailed w)) s))))).

Lemma cancelled_done h name s s1 s2 :
  started h (ex_history s) name -> quiet (cancelled_state s) s1 -> quiet s1 s2 ->
  settled (ex_result s2) /\ wr_overall_status (ex_result s2) = StFailed /\
  bracketed h (ex_history s2) name (ex_result s2) /\
  (cleanup_on_complete config = true -> ex_current_ctx s2 = None).
Proof.
  intros Hst Hq1 Hq2. rewrite (q_result _ _ Hq2), (q_result _ _ Hq1), (q_history _ _ Hq2), (q_history _ _ Hq1),
    (q_current _ _ Hq2), (q_current _ _ Hq1).
  assert (ex_result (cancelled_state s) = ex_result (record_end (S := S) (record (S := S) "cancelled" None []
    (count_entries (mark_complete_now (S := S) false
      (on_result (fun w => add_meta "cancelled" (VBool true) (set_overall StFailed w)) s))))) /\
    ex_history (cancelled_state s) = ex_history (record_end (S := S) (record (S := S) "cancelled" None []
    (count_entries (mark_complete_now (S := S) false
      (on_result (fun w => add_meta "cancelled" (VBool true) (set_overall StFailed w)) s)))))) as [-> ->].
  { unfold cancelled_state, cleanup. by destruct (cleanup_on_complete config). }
  split_and!.
  - split_and!; [by right|by eexists|]. simpl. rewrite od_get_set_eq. by eexists.
  - done.
  - unfold record_end, record. cbn [set_history ex_history]. apply started_bracketed.
    eapply started_more; [exact Hst|by apply prefix_app_r].
  - unfold cancelled_state, cleanup. by intros ->.
Qed.

(** A handler that returns leaves a FAILED result; it raises only a cancellation, after
    the bookkeeping when that is what it handles, and otherwise right after recording
    the error. *)
Lemma wp_handle h name x s (Q : unit + PyExc -> X -> Prop) :
  started h (ex_history s) name ->
  (forall s', extends s s' -> wr_overall_status (ex_result s') = StFailed ->
     wr_steps (ex_result s') = wr_steps (ex_result s) -> is_Some (od_get "error" (wr_metadata (ex_result s'))) -> Q (inl tt) s') ->
  (forall y s', is_exception y = false ->
     (settled (ex_result s') /\ wr_overall_status (ex_result s') = StFailed /\
        bracketed h (ex_history s') name (ex_result s') /\
        (cleanup_on_complete config = true -> ex_current_ctx s' = None)) \/
     (exists e, last (ex_history s') = Some e /\ en_event e = "error" /\ started h (ex_history s') name) ->
     Q (inr y) s') ->
  wp (handle (S := S) config listeners float_repr x) Q s.
Proof.
  intros Hst Hok Hraise. unfold handle.
  assert (is_exception x = true -> wp (on_exception (S := S) listeners x) Q s) as Hexc.
  { intros _. apply wp_bind, wp_modify, wp_bind, wp_modify, wp_emit.
    - intros s' Hq. apply Hok; rewrite ?(q_result _ _ Hq); try done.
      + etrans; [|by apply quiet_extends]. split; [by apply prefix_app_r|done|done].
      + cbn [record set_history on_result set_result ex_result add_meta set_wr_metadata wr_metadata].
        rewrite od_get_set_ne by done. rewrite od_get_set_eq. by eexists.
    - intros y s' Hq Hy. apply Hraise; [done|]. right. rewrite (q_history _ _ Hq).
      cbn [record set_history ex_history]. eexists. split; [by rewrite last_snoc|]. split; [done|].
      eapply started_more; [exact Hst|by apply prefix_app_r]. }
  destruct (ex_kind x) eqn:Ek.
  - unfold on_cancelled. do 6 (apply wp_bind, wp_modify). apply wp_bind, wp_swallow. intros s1 Hq1.
    apply wp_bind. apply wp_try, wp_end_event.
    2:{ intros y s2 Hq2 ->. apply wp_ret. apply wp_raise. apply Hraise; [by unfold is_exception; rewrite Ek|].
        left. by eapply cancelled_done. }
    intros s2 Hq2. apply wp_raise. apply Hraise; [by unfold is_exception; rewrite Ek|]. left. by eapply cancelled_done.
  - apply wp_bind, wp_modify, wp_modify. apply Hok; try done.
    + split; [by apply prefix_app_r|done|done].
    + cbn [record set_history on_result set_result ex_result add_meta set_wr_metadata wr_metadata].
      rewrite od_get_set_ne by done. rewrite od_get_set_eq. by eexists.
  - apply Hexc. by unfold is_exception; rewrite Ek.
  - apply Hexc. by unfold is_exception; rewrite Ek.
Qed.

(** Initial variables whose keys [set_sync] accepts, and the error of the first one that it
    refuses. *)
Definition accepted (kv : pyval * pyval) : Prop := exists k, validate_variable_key kv.1 false = Ok k.
Definition refused_by (vars : list (pyval * pyval)) (x : PyExc) : Prop :=
  exists pre kv post e, vars = pre ++ kv :: post /\ Forall accepted pre /\
    validate_variable_key kv.1 false = Raise e /\ x = exc_of e.

Lemma refused_later kv vars x : accepted kv -> refused_by vars x -> refused_by (kv :: vars) x.
Proof. intros Hkv (pre & bad & post & e & -> & Hpre & He). exists (kv :: pre), bad, post, e. split_and!; try done; [by constructor|apply He..]. Qed.

Lemma wp_seed ctx vars s (Q : unit + PyExc -> X -> Prop) :
  (forall o w, match o with inl _ => Forall accepted vars | inr x => refused_by vars x end -> Q o (on_world (fun _ => w) s)) ->
  wp (seed (S := S) ctx vars) Q s.
Proof.
  revert s. induction vars as [|kv vars IH]; intros s HQ.
  { apply wp_ret. destruct s. by apply (HQ (inl tt)). }
  unfold seed. cbn [for_each]. apply wp_bind. destruct (validate_variable_key kv.1 false) as [k|e] eqn:E.
  - apply wp_modify, IH. intros o w Ho. apply HQ. assert (accepted kv) as Hkv by by exists k.
    destruct o as [[]|x]; [by constructor|by apply refused_later].
  - apply wp_raise. destruct s. apply (HQ (inr (exc_of e))). by exists [], kv, vars, e.
Qed.

(** What escapes before the start of a run: a refused key, or a result without identifier or
    name.  The context stays the current one of the executor. *)
Definition unstarted (given : option C) (vars : list (pyval * pyval)) (name : string) (x : PyExc) s s' : Prop :=
  ex_history s' = ex_history s /\
  exists ctx, ex_current_ctx s' = Some ctx /\ (given = None \/ given = Some ctx) /\
    (refused_by vars x \/
     Forall accepted vars /\ x = invalid_result /\ (context_workflow_id ctx (ex_world s') = "" \/ name = "")).

Lemma wp_prepare (workflow : Workflow S W) (given : option C) vars s (Q : C + PyExc -> X -> Prop) :
  (forall x s', unstarted given vars (get_workflow_name workflow) x s s' -> Q (inr x) s') ->
  (forall ctx s', Forall accepted vars -> ex_history s' = ex_history s -> ex_cancelled s' = false ->
     wr_steps (ex_result s') = [] -> wr_overall_status (ex_result s') = StRunning ->
     wr_metadata (ex_result s') = [] -> Q (inl ctx) s') ->
  wp (prepare workflow given vars) Q s.
Proof.
  intros Hbad Hok. unfold prepare. apply wp_bind.
  assert (exists s1 ctx, (match given with
     | Some ctx => (s, inl ctx)
     | None => let '(w, ctx) := new_context (ex_world s) in (on_world (fun _ => w) s, inl ctx)
     end) = (s1, inl ctx : C + PyExc) /\ ex_history s1 = ex_history s /\ (given = None \/ given = Some ctx)) as (s1 & ctx & Hc & Hh & Hg).
  { destruct given as [ctx|]; [exists s, ctx; auto|]. destruct (new_context (ex_world s)) as [w ctx]. eexists _, _. eauto. }
  unfold wp at 1. rewrite Hc. apply wp_bind, wp_modify, wp_bind, wp_seed. intros [[]|x] w Hv.
  2:{ apply Hbad. split; [done|]. exists ctx. auto. }
  apply wp_bind, wp_modify, wp_bind, wp_get. cbn zeta. case_decide as Hn.
  - apply wp_raise, Hbad. split; [done|]. exists ctx. auto 8.
  - by apply wp_bind, wp_modify, wp_ret, Hok.
Qed.

Lemma wp_wait_for {A} (m : M X A) (Q : A + PyExc -> X -> Prop) s :
  wp m (fun o s' => forall o', (o' = o \/ (exists x, o = inr x) /\ o' = inr timeout_error) -> Q o' s') s ->
  wp (wait_for (S := S) m) Q s.
Proof.
  unfold wp, wait_for. destruct (m s) as [s' [a|x]]; intros H; [apply H; by left|]. apply H.
  destruct (_ && _); [right; eauto|by left].
Qed.

(** The body of a run under its timeout. *)
Definition body (mc : Z) (workflow : Workflow S W) (ctx : C) : M X unit :=
  if has_timeout config then wait_for (S := S) (execute_workflow mc workflow ctx) else execute_workflow mc workflow ctx.

Lemma wp_body mc workflow ctx s (Q : unit + PyExc -> X -> Prop) :
  wp (execute_workflow mc workflow ctx)
    (fun o s' => forall o', (o' = o \/ (exists x, o = inr x) /\ o' = inr timeout_error) -> Q o' s') s ->
  wp (body mc workflow ctx) Q s.
Proof.
  intros H. unfold body. destruct (has_timeout config); [by apply wp_wait_for|].
  eapply wp_mono; [exact H|]. intros o s' Ho. apply Ho. by left.
Qed.

(** From the body on: [P] is what is known of the state a body that did not raise leaves. *)
Lemma wp_conclude h name x (s : X) (Q : WorkflowResult + PyExc -> X -> Prop) :
  started h (ex_history s) name ->
  (forall s', settled (ex_result s') -> bracketed h (ex_history s') name (ex_result s') ->
     (wr_overall_status (ex_result s') = StSuccess <-> wr_overall_status (ex_result s) = StSuccess) ->
     wr_steps (ex_result s') = wr_steps (ex_result s) ->
     (ex_cancelled s = true -> ex_cancelled s' = true) ->
     (forall k, k ≠ "history_entries" -> od_get k (wr_metadata (ex_result s')) = od_get k (wr_metadata (ex_result s))) ->
     (cleanup_on_complete config = true -> ex_current_ctx s' = None) -> Q (inl (ex_result s')) s') ->
  (forall y s', is_exception y = false -> settled (ex_result s') -> bracketed h (ex_history s') name (ex_result s') -> Q (inr y) s') ->
  x = bool_decide (wr_overall_status (ex_result s) = StSuccess) ->
  wp (modify (fun s => mark_complete_now (S := S) (bool_decide (wr_overall_status (ex_result s) = StSuccess)) s);;
      modify count_entries;; modify (record_end (S := S));; end_event (S := S) listeners;; modify (cleanup config);;
      s <- get; ret (ex_result s)) Q s.
Proof.
  intros Hst Hok Hraise ->. do 3 (apply wp_bind, wp_modify).
  set (s1 := record_end _). change s1 with (finish (bool_decide (wr_overall_status (ex_result s) = StSuccess)) s).
  destruct (finish_spec (bool_decide (wr_overall_status (ex_result s) = StSuccess)) h name s Hst)
    as (Hset & Hbr & Hstatus & Hsteps & Hcur & Hcan).
  apply wp_bind, wp_end_event.
  2:{ intros y s2 Hq Hy. apply Hraise; [done|by rewrite (q_result _ _ Hq)|].
      by rewrite (q_result _ _ Hq), (q_history _ _ Hq). }
  intros s2 Hq. apply wp_bind, wp_modify, wp_bind, wp_get, wp_ret.
  assert (ex_result (cleanup config s2) = ex_result s2 /\ ex_history (cleanup config s2) = ex_history s2 /\
          ex_cancelled (cleanup config s2) = ex_cancelled s2) as (Hr & Hh & Hc)
    by (unfold cleanup; by destruct (cleanup_on_complete config)).
  apply Hok; rewrite ?Hr, ?Hh, ?Hc, ?(q_result _ _ Hq), ?(q_history _ _ Hq); try done.
  - rewrite Hstatus. case_bool_decide; naive_solver.
  - intros H. apply (q_cancelled _ _ Hq). by rewrite Hcan.
  - intros k Hk. unfold finish, record_end, count_entries, mark_complete_now. simpl. by apply od_get_set_ne.
  - unfold cleanup. by intros ->.
Qed.

(** C36. [execute] settles.  A run that returns gives a SUCCESS or FAILED result with its end
    time, and its history goes from its start to an end with the status of the result;
    what escapes is a refused definition, before anything changed; before the run is
    started, the error of an initial variable whose name the context refuses or of a
    result without identifier or name, with nothing in the history and the context
    left as the current one; or a cancellation, which leaves the run ended in the history
    unless it struck during the start event or during the event of an error. *)
Theorem workflow_run_settles (workflow : Workflow S W) (given : option C) (vars : list (pyval * pyval)) (mc : Z) s :
  let name := get_workflow_name workflow in
  let '(s', o) := execute workflow given vars mc s in
  match o with
  | inl result => ex_result s' = result /\ settled result /\ bracketed (ex_history s) (ex_history s') name result /\
      Forall accepted vars /\
      (cleanup_on_complete config = true -> ex_current_ctx s' = None)
  | inr x =>
      (exists e, validate_workflow_definition workflow = Raise e /\ x = exc_of e /\ s' = s) \/
      unstarted given vars name x s s' \/
      is_exception x = false /\
        (settled (ex_result s') /\ bracketed (ex_history s) (ex_history s') name (ex_result s') \/
         started (ex_history s) (ex_history s') name /\
         exists e, last (ex_history s') = Some e /\ (en_event e = "workflow_start" \/ en_event e = "error"))
  end.
Proof.
  intros name.
  enough (wp (execute workflow given vars mc) (fun o s' => match o with
  | inl result => ex_result s' = result /\ settled result /\ bracketed (ex_history s) (ex_history s') name result /\
      Forall accepted vars /\
      (cleanup_on_complete config = true -> ex_current_ctx s' = None)
  | inr x =>
      (exists e, validate_workflow_definition workflow = Raise e /\ x = exc_of e /\ s' = s) \/
      unstarted given vars name x s s' \/
      is_exception x = false /\
        (settled (ex_result s') /\ bracketed (ex_history s) (ex_history s') name (ex_result s') \/
         started (ex_history s) (ex_history s') name /\
         exists e, last (ex_history s') = Some e /\ (en_event e = "workflow_start" \/ en_event e = "error"))
  end) s) as H by (unfold wp in H; by destruct (execute workflow given vars mc s)).
  unfold Executor.execute. destruct (validate_workflow_definition workflow) as [[]|e] eqn:Ev.
  2:{ apply wp_raise. left. eauto. }
  apply wp_bind, wp_prepare; [by right; left|]. intros ctx s1 Hvars Hh1 _ _ _ _.
  apply wp_bind, wp_modify. fold name. set (s2 := record _ _ _ s1).
  assert (started (ex_history s) (ex_history s2) name) as Hst2.
  { exists (now (ex_world s1)), []. unfold s2. cbn [record set_history ex_history]. by rewrite Hh1. }
  apply wp_bind, wp_emit.
  2:{ intros x s3 Hq Hx. right; right. split; [done|]. right. rewrite (q_history _ _ Hq). split; [done|].
      eexists. unfold s2. cbn [record set_history ex_history]. split; [by rewrite last_snoc|by left]. }
  intros s3 Hq3. assert (started (ex_history s) (ex_history s3) name) as Hst3 by by rewrite (q_history _ _ Hq3).
  apply wp_bind, wp_try. fold (body mc workflow ctx). apply wp_body, wp_execute_workflow. intros o s4 He4 o' _.
  assert (started (ex_history s) (ex_history s4) name) as Hst4 by by eapply started_more, x_history.
  destruct o' as [[]|x].
  - eapply wp_conclude; [exact Hst4| | |done]; [auto 8|]. intros y s5 Hy Hs Hb. right; right. auto.
  - apply wp_handle with (h := ex_history s) (name := name); [done| |].
    + intros s5 He5 _ _ _. assert (started (ex_history s) (ex_history s5) name) as Hst5 by by eapply started_more, x_history.
      eapply wp_conclude; [exact Hst5| | |done]; [auto 8|]. intros y s6 Hy Hs Hb. right; right. auto.
    + intros y s5 Hy [(Hs & _ & Hb & _)|(e & Hl & He & Hs)]; right; right; split; try done; [by left|right; eauto].
Qed.

Lemma steps_of_inl (l : list S) : steps_of (inl <$> l : list (S + string)) = Some l.
Proof. induction l as [|x l IH]; [done|]. csimpl. by rewrite IH. Qed.

Lemma first_bad_inl (l : list S) i : first_bad (inl <$> l : list (S + string)) i = None.
Proof. revert i. induction l; intros i; csimpl; auto. Qed.

(** What a run of a list of [n] steps that returned says of its result. *)
Definition sequence_result (n : nat) (cancelled : bool) (r : WorkflowResult) : Prop :=
  length (wr_steps r) <= n /\ stops_at_failure (wr_steps r) /\
  (wr_overall_status r = StSuccess -> none_failed (wr_steps r) /\ length (wr_steps r) = n) /\
  (wr_overall_status r = StFailed ->
     (exists pre x, wr_steps r = pre ++ [x] /\ is_failed x = true) \/ cancelled = true \/
     is_Some (od_get "error" (wr_metadata r))).

(** A list runs in order and stops at its first failure: only the last step reported may
    have failed, SUCCESS means that every step ran and none failed, and FAILED means
    that the last one failed, that the run was cancelled, or that an error is recorded. *)
Theorem sequence_fail_fast (l : list S) (given : option C) (vars : list (pyval * pyval)) (mc : Z) s :
  match execute (WList (inl <$> l)) given vars mc s with
  | (s', inl result) => sequence_result (length l) (ex_cancelled s') result
  | (_, inr _) => True
  end.
Proof.
  enough (wp (execute (WList (inl <$> l)) given vars mc) (fun o s' => match o with
    | inl result => sequence_result (length l) (ex_cancelled s') result | inr _ => True end) s) as H
    by (unfold wp in H; by destruct (execute _ given vars mc s) as [? []]).
  unfold Executor.execute. cbn [validate_workflow_definition]. rewrite first_bad_inl.
  apply wp_bind, wp_prepare; [done|]. intros ctx s1 _ _ _ Hsteps Hrun Hmeta.
  apply wp_bind, wp_modify, wp_bind. set (s2 := record _ _ _ s1).
  assert (started (ex_history s1) (ex_history s2) (get_workflow_name (WList (S := S) (W := W) (inl <$> l)))) as Hst2
    by (by exists (now (ex_world s1)), []).
  apply wp_emit; [|done]. intros s3 Hq3.
  assert (ex_result s3 = ex_result s1) as Hr3 by by rewrite (q_result _ _ Hq3).
  rewrite <- (q_history _ _ Hq3) in Hst2.
  apply wp_bind, wp_try. fold (body mc (WList (inl <$> l)) ctx). apply wp_body.
  unfold Executor.execute_workflow. rewrite steps_of_inl. cbn [default].
  apply wp_bind, wp_bind, wp_run_list. intros o s4 He4 (rs & Hrs & Hlen & Hstop & Hcase).
  rewrite Hr3, Hsteps in Hrs. cbn [app] in Hrs. rewrite Hr3, Hrun in Hcase.
  pose proof (started_more _ _ _ _ Hst2 (x_history _ _ He4)) as Hst4.
  destruct o as [[]|x].
  - (* every step ran *)
    apply wp_modify, wp_modify. intros o' [->|[(x & Hx) _]]; [|done].
    eapply wp_conclude; [exact Hst4| |done|done].
    intros s' Hset _ Hstatus Hsteps' _ _ _. destruct Hcase as [Hnf Hn].
    cbn [on_result set_result ex_result set_overall set_final_output wr_steps wr_overall_status] in *.
    rewrite <- Hrs in *. split; [by rewrite Hsteps'|]. rewrite Hsteps'. split; [done|]. split; [done|].
    intros Hf. rewrite (proj2 Hstatus eq_refl) in Hf. done.
  - (* it was left by break *)
    apply wp_ret, wp_modify. intros o' [->|[(x & Hx) _]]; [|done].
    eapply wp_conclude; [exact Hst4| |done|done].
    intros s' Hset _ Hstatus Hsteps' Hcan _ _.
    cbn [on_result set_result ex_result ex_cancelled set_overall set_final_output wr_steps wr_overall_status] in *.
    rewrite <- Hrs in *. unfold sequence_result. rewrite Hsteps'. split; [done|]. split; [done|].
    destruct Hcase as [[Hl Hf]|[Hc Hs]].
    + split; [intros Hsucc%Hstatus; congruence|by left].
    + split; [intros Hsucc%Hstatus; congruence|]. right; left. by apply Hcan.
  - (* an error *)
    intros o' Ho. assert (exists x', o' = inr x') as [x' ->] by (destruct Ho as [->|[_ ->]]; eauto). clear Ho.
    eapply wp_handle; [exact Hst4| |done].
    intros s5 He5 Hf Hsteps5 Herr. pose proof (started_more _ _ _ _ Hst4 (x_history _ _ He5)) as Hst5.
    eapply wp_conclude; [exact Hst5| |done|done].
    intros s' Hset _ Hstatus Hsteps' _ Hmeta' _. unfold sequence_result. rewrite Hsteps', Hsteps5, Hrs.
    split; [done|]. split; [done|]. split; [intros Hsucc%Hstatus; congruence|]. intros _. right; right.
    by rewrite Hmeta'.
Qed.

(** ** Validation *)

(** Induction over nested elements. *)
Section raw_ind.
  Variable P : RawElement S W -> Prop.
  Hypothesis Hstep : forall x, P (RStep x).
  Hypothesis Hgroup : forall n l ff mc, P (RGroup n l ff mc).
  Hypothesis Hbranch : forall n c t f, Forall P (default [] t) -> Forall P (default [] f) -> P (RBranch n c t f).
  Hypothesis Hbad : forall ty, P (RBad ty).

Fixpoint raw_ind (e : RawElement S W) : P e :=
    let all := fix all (l : list (RawElement S W)) : Forall P l :=
      match l with [] => Forall_nil_2 _ | x :: l' => Forall_cons_2 _ _ _ (raw_ind x) (all l') end in
    match e with
    | RStep x => Hstep x
    | RGroup n l ff mc => Hgroup n l ff mc
    | RBranch n c t f =>
        Hbranch n c t f
          (match t return Forall P (default [] t) with Some l => all l | None => Forall_nil_2 _ end)
          (match f return Forall P (default [] f) with Some l => all l | None => Forall_nil_2 _ end)
    | RBad ty => Hbad ty
    end.
End raw_ind.

Lemma first_bad_steps (l : list (S + string)) i : first_bad l i = None <-> is_Some (steps_of l).
Proof.
  revert i. induction l as [|[x|ty] l IH]; intros i; cbn [first_bad steps_of].
  - split; [by eexists|done].
  - rewrite (IH (Datatypes.S i)). destruct (steps_of l); simpl; [split; by eexists|done].
  - split; [done|by intros []].
Qed.

Lemma steps_of_length (l : list (S + string)) l' : steps_of l = Some l' -> length l' = length l.
Proof.
  revert l'. induction l as [|[x|ty] l IH]; intros l'; cbn [steps_of]; [by intros [= <-]| |done].
  destruct (steps_of l) as [r|]; simpl; [|done]. intros [= <-]. simpl. by rewrite (IH r).
Qed.

(** The typed children, and the validation of the children, as the elements of a list. *)
Lemma typed_branch n c (t f : list (RawElement S W)) :
  typed_element (RBranch n (Some c) (Some t) (Some f)) =
  (t' ← typed_elements t; f' ← typed_elements f; Some (EBranch n c t' f')).
Proof. reflexivity. Qed.

Definition validate_children (path prefix : string) :=
  fix children (l : list (RawElement S W)) (i : nat) : res unit :=
    match l with
    | [] => Ok tt
    | child :: rest =>
        validate_pipeline_element child (path +:+ prefix +:+ "[" +:+ pretty i +:+ "]") ≫= fun _ =>
        children rest (Datatypes.S i)
    end.

Lemma validate_children_cons path prefix (child : RawElement S W) rest i :
  validate_children path prefix (child :: rest) i =
  (validate_pipeline_element child (path +:+ prefix +:+ "[" +:+ pretty i +:+ "]") ≫= fun _ =>
   validate_children path prefix rest (Datatypes.S i)).
Proof. reflexivity. Qed.

Lemma validate_branch n c (t f : list (RawElement S W)) path :
  validate_pipeline_element (RBranch n (Some c) (Some t) (Some f)) path =
  (validate_children path ".then" t 0 ≫= fun _ => validate_children path ".else" f 0).
Proof. reflexivity. Qed.

Definition accepts (e : RawElement S W) : Prop :=
  forall path, validate_pipeline_element e path = Ok tt <-> is_Some (typed_element e).

Lemma bind_ok_unit (r1 r2 : res unit) : (r1 ≫= fun _ => r2) = Ok tt <-> r1 = Ok tt /\ r2 = Ok tt.
Proof. destruct r1 as [[]|]; simpl; [tauto|]. split; [done|by intros [? _]]. Qed.

Lemma typed_elements_cons (e : RawElement S W) l :
  is_Some (typed_elements (e :: l)) <-> is_Some (typed_element e) /\ is_Some (typed_elements l).
Proof.
  cbn [typed_elements]. destruct (typed_element e); simpl; [destruct (typed_elements l); simpl|];
    (split; [intros []; try done; by split; eexists|intros [[] []]; try done; by eexists]).
Qed.

Lemma children_accept path prefix (l : list (RawElement S W)) i : Forall accepts l ->
  validate_children path prefix l i = Ok tt <-> is_Some (typed_elements l).
Proof.
  intros Hl. revert i. induction Hl as [|e l He Hl IH]; intros i.
  { split; [by eexists|done]. }
  by rewrite typed_elements_cons, validate_children_cons, bind_ok_unit, (He _), (IH _).
Qed.

Lemma element_accepts e : accepts e.
Proof.
  induction e as [x|n l ff mc|n c t f Ht Hf|ty] using raw_ind; intros path.
  - split; [by eexists|done].
  - cbn [validate_pipeline_element typed_element]. destruct l as [|x l]; [by split; intros H; [|destruct H]|].
    unfold validate_parallel_group.
    pose proof (first_bad_steps (x :: l) 0) as Hb. destruct (first_bad (x :: l) 0) as [[i ty]|].
    + split; [done|]. intros H. assert (is_Some (steps_of (x :: l))) as Hs.
      { destruct (steps_of (x :: l)); [by eexists|by destruct H]. }
      by apply Hb in Hs.
    + destruct (proj1 Hb eq_refl) as [l' ->]. simpl. split; [by eexists|done].
  - destruct c as [c|], t as [t|], f as [f|]; try (split; [done|by intros []]).
    rewrite validate_branch, typed_branch, bind_ok_unit. cbn [default] in Ht, Hf.
    rewrite (children_accept path ".then" t 0 Ht), (children_accept path ".else" f 0 Hf).
    destruct (typed_elements t), (typed_elements f); simpl;
      (split; [intros [[] []]; try done; by eexists|intros []; try done; by split; eexists]).
  - split; [done|by intros []].
Qed.

Lemma validate_elements_ok (l : list (RawElement S W)) i : validate_elements l i = Ok tt <-> is_Some (typed_elements l).
Proof.
  revert i. induction l as [|e l IH]; intros i; [split; [by eexists|done]|].
  rewrite typed_elements_cons. cbn [validate_elements]. by rewrite bind_ok_unit, (element_accepts e _), (IH _).
Qed.

(** The count of the raw elements is that of the typed ones. *)
Fixpoint count_raw_list (l : list (RawElement S W)) : nat := match l with [] => 0 | x :: l' => count_raw x + count_raw_list l' end.
Fixpoint count_list (l : list (Element S W)) : nat := match l with [] => 0 | x :: l' => count_element x + count_list l' end.

Lemma count_raw_branch n c (t f : list (RawElement S W)) :
  count_raw (RBranch n c (Some t) (Some f)) = count_raw_list t + count_raw_list f.
Proof. reflexivity. Qed.
Lemma typed_count_branch n c (t f : list (Element S W)) : count_element (EBranch n c t f) = count_list t + count_list f.
Proof. reflexivity. Qed.

Lemma counts_agree (l : list (RawElement S W)) : Forall (fun e => forall e', typed_element e = Some e' -> count_raw e = count_element e') l ->
  forall l', typed_elements l = Some l' -> count_raw_list l = count_list l'.
Proof.
  induction 1 as [|e l He Hl IH]; intros l'; cbn [typed_elements]; [by intros [= <-]|].
  destruct (typed_element e) as [e'|]; simpl; [|done]. destruct (typed_elements l) as [r|]; simpl; [|done].
  intros [= <-]. simpl. by rewrite (He e'), (IH r).
Qed.

Lemma count_raw_typed (e : RawElement S W) e' : typed_element e = Some e' -> count_raw e = count_element e'.
Proof.
  revert e'. induction e as [x|n l ff mc|n c t f Ht Hf|ty] using raw_ind; intros e'.
  - by intros [= <-].
  - cbn [typed_element]. destruct l as [|x l]; [done|]. destruct (steps_of (x :: l)) as [l'|] eqn:E; cbn [mbind option_bind]; [|done].
    intros [= <-]. cbn [count_raw count_element pg_steps]. by rewrite (steps_of_length _ _ E).
  - destruct c as [c|], t as [t|], f as [f|]; try done. rewrite typed_branch. cbn [default] in Ht, Hf.
    destruct (typed_elements t) as [t'|] eqn:Et; cbn [mbind option_bind]; [|done].
    destruct (typed_elements f) as [f'|] eqn:Ef; cbn [mbind option_bind]; [|done]. intros [= <-].
    rewrite count_raw_branch, typed_count_branch. by rewrite (counts_agree t Ht t' Et), (counts_agree f Hf f' Ef).
  - done.
Qed.

(** A pipeline is accepted exactly when it has elements, every element at every depth has
    its type with no empty group, and it counts at least one step, by the count of
    the pipeline itself. *)
Theorem pipeline_validation_correct (p : RawPipeline S W) :
  validate_pipeline_definition p = Ok tt <->
  exists q, typed_pipeline p = Some q /\ pl_elements q ≠ [] /\ 0 < total_steps q.
Proof.
  unfold validate_pipeline_definition, typed_pipeline. pose proof (validate_elements_ok (rp_elements p) 0) as Hv.
  assert (forall (l : list (RawElement S W)) l', typed_elements l = Some l' -> count_raws l = count_elements l' /\ length l' = length l) as Hc.
  { intros l. induction l as [|e l IH]; intros l'; cbn [typed_elements]; [by intros [= <-]|].
    destruct (typed_element e) as [e'|] eqn:Ee; simpl; [|done]. destruct (typed_elements l) as [r|]; simpl; [|done].
    intros [= <-]. destruct (IH r eq_refl) as [H1 H2]. split; [|simpl; by rewrite H2].
    change (count_raws (e :: l)) with (count_raw e + count_raws l).
    change (count_elements (e' :: r)) with (count_element e' + count_elements r).
    by rewrite H1, (count_raw_typed e e' Ee). }
  destruct (rp_elements p) as [|e l]; [split; [done|intros (q & [= <-] & Hne & _); by destruct Hne]|].
  rewrite bind_ok_unit, Hv. destruct (typed_elements (e :: l)) as [l'|] eqn:Et; cbn [mbind option_bind].
  - destruct (Hc _ _ Et) as [Hcount Hlen]. split.
    + intros [_ Hz]. eexists. split; [done|]. cbn [pl_elements]. split; [by destruct l'|].
      unfold total_steps. cbn [pl_elements]. rewrite <- Hcount. revert Hz. destruct (decide (count_raws (e :: l) = 0)); [done|lia].
    + intros (q & [= <-] & _ & Hpos). split; [by eexists|]. unfold total_steps in Hpos. cbn [pl_elements] in Hpos.
      rewrite <- Hcount in Hpos. rewrite decide_False by lia. done.
  - split; [by intros [[] _]|]. by intros (q & ? & _).
Qed.
End executor.
