(* ===== verification/JsonExtract.v ===== *)
(** * JSON in model replies (agents/json_extraction.py)

    The text that is most likely JSON: a ```json fence, a fence around braces, or the
    first balanced object.  The two regular expressions are written as the searches
    they are; [json.loads] is a parameter.  The theorems say when the JSON that a
    model wrote comes back, wherever it stands in the reply. *)

From stdpp Require Import pretty.
From Stdlib Require Import Qcanon.
From S2P Require Import Prelude PyStr PyVal.

Definition MAX_INPUT_LEN : Z := 262144.
Definition fence : string := "```".
Definition lstrip (s : string) : string := of_chars (lstrip_chars (chars s)).

(** [_FENCED_JSON_RE.search], its group *)
Definition search_fenced_json (text : string) : option string :=
  '(_, rest) ← split_once "```json" text;
  '(body, _) ← split_once fence (lstrip rest);
  Some body.

(** The lazy rest of the group: up to the first closing brace that a fence follows. *)
Fixpoint lazy_close (s : string) : option string :=
  match s with
  | EmptyString => None
  | String c s' =>
      if bool_decide (c = "}"%char) && startswith (lstrip s') fence then Some "}"
      else String c <$> lazy_close s'
  end.

(** [_FENCED_ANY_RE] at the beginning of [s] *)
Definition match_fenced_any (s : string) : option string :=
  if startswith s fence
  then match lstrip (String.substring 3 (String.length s - 3) s) with
       | String c rest => if decide (c = "{"%char) then String c <$> lazy_close rest else None
       | EmptyString => None
       end
  else None.

Fixpoint search_fenced_any (s : string) : option string :=
  match match_fenced_any s with
  | Some group => Some group
  | None => match s with EmptyString => None | String _ s' => search_fenced_any s' end
  end.

(** ** The scanner *)

Record BraceScanState := mkScan { depth : Z; in_string : bool; escape_next : bool }.

Definition scan_brace_char (st : BraceScanState) (c : Ascii.ascii) : BraceScanState * bool :=
  if escape_next st then (mkScan (depth st) (in_string st) false, false)
  else if decide (c = "\"%char) then (mkScan (depth st) (in_string st) true, false)
  else if decide (c = quote_char) then (mkScan (depth st) (negb (in_string st)) (escape_next st), false)
  else if in_string st then (st, false)
  else if decide (c = "{"%char) then (mkScan (depth st + 1) (in_string st) (escape_next st), false)
  else if decide (c = "}"%char)
       then let d := (depth st - 1)%Z in (mkScan d (in_string st) (escape_next st), bool_decide (d = 0%Z))
  else (st, false).

(** The loop over [range(start, len(text))]: the text up to the closing character. *)
Fixpoint scan (st : BraceScanState) (s : string) : option string :=
  match s with
  | EmptyString => None
  | String c s' =>
      let '(st, closed) := scan_brace_char st c in
      if closed then Some (String c EmptyString) else String c <$> scan st s'
  end.

(** [text[text.find("{"):]], if there is one *)
Fixpoint from_brace (s : string) : option string :=
  match s with
  | EmptyString => None
  | String c s' => if decide (c = "{"%char) then Some s else from_brace s'
  end.

Definition extract_balanced_json (text : string) : res string :=
  match from_brace text with
  | None => Raise (ValueError "No JSON object found in response")
  | Some rest =>
      match scan (mkScan 0 false false) rest with
      | Some j => Ok j
      | None => Raise (ValueError "Unbalanced braces in JSON response")
      end
  end.

Definition clip_input (text : string) : string :=
  if (MAX_INPUT_LEN <? Z.of_nat (String.length text))%Z
  then String.substring 0 (Z.to_nat MAX_INPUT_LEN) text else text.

Definition find_json_string (text : string) : res string :=
  let text := clip_input text in
  match search_fenced_json text with
  | Some group => Ok (strip group)
  | None =>
      match search_fenced_any text with
      | Some group => Ok (strip group)
      | None => extract_balanced_json text
      end
  end.

(** [extract_json], without and with a model: [json.loads] and
    [model.model_validate_json] *)
Definition extract_json (loads : string -> res pyval) (text : string) : res pyval :=
  j ← find_json_string text; loads j.
Definition extract_model {A} (model_validate_json : string -> res A) (text : string) : res A :=
  j ← find_json_string text; model_validate_json j.

(** ** Texts that leave the scanner where it was *)

(** The state after a text, or nothing once an object is closed in it. *)
Fixpoint scanned (st : BraceScanState) (s : string) : option BraceScanState :=
  match s with
  | EmptyString => Some st
  | String c s' => let '(st, closed) := scan_brace_char st c in if closed then None else scanned st s'
  end.

Lemma append_cons c s t : String c s +:+ t = String c (s +:+ t).
Proof. done. Qed.

Lemma append_assoc s t u : (s +:+ t) +:+ u = s +:+ (t +:+ u).
Proof. induction s as [|c s IH]; [done|]. by rewrite !append_cons, IH. Qed.

Lemma of_chars_chars s : of_chars (chars s) = s.
Proof. apply String.string_of_list_ascii_of_string. Qed.

Lemma scanned_step st st' c s : scan_brace_char st c = (st', false) -> scanned st (String c s) = scanned st' s.
Proof. cbn [scanned]. by intros ->. Qed.

Lemma scanned_app st s t : scanned st (s +:+ t) = st' ← scanned st s; scanned st' t.
Proof.
  revert st. induction s as [|c s IH]; intros st; [done|]. rewrite append_cons. cbn [scanned].
  destruct (scan_brace_char st c) as [st' []]; [done|apply IH].
Qed.

Lemma scan_after st st' s t : scanned st s = Some st' -> scan st (s +:+ t) = (fun j => s +:+ j) <$> scan st' t.
Proof.
  revert st. induction s as [|c s IH]; intros st; cbn [scanned].
  - intros [= <-]. change ("" +:+ t) with t. by destruct (scan st t).
  - rewrite append_cons. cbn [scan]. destruct (scan_brace_char st c) as [st1 []]; [done|].
    intros H. rewrite (IH _ H). by destruct (scan st' t).
Qed.

(** Outside a string, at depth [d]. *)
Definition outside (d : Z) : BraceScanState := mkScan d false false.
Definition inside (d : Z) : BraceScanState := mkScan d true false.

Definition neutral (s : string) : Prop := forall d, (1 <= d)%Z -> scanned (outside d) s = Some (outside d).

Lemma neutral_app s t : neutral s -> neutral t -> neutral (s +:+ t).
Proof. intros Hs Ht d Hd. rewrite scanned_app, Hs by done. apply Ht, Hd. Qed.

Lemma neutral_join sep l : neutral sep -> Forall neutral l -> neutral (join sep l).
Proof.
  intros Hsep Hl. induction Hl as [|x l Hx Hl IH]; [by intros d|]. destruct l as [|y l]; [done|].
  apply neutral_app, neutral_app; done.
Qed.

(** Characters that mean nothing to the scanner outside strings. *)
Definition plain_char (c : Ascii.ascii) : Prop :=
  c ≠ "\"%char /\ c ≠ quote_char /\ c ≠ "{"%char /\ c ≠ "}"%char.
#[export] Instance plain_char_dec c : Decision (plain_char c).
Proof. unfold plain_char. apply _. Defined.
Definition plain_text (s : string) : Prop := Forall plain_char (chars s).
#[export] Instance plain_text_dec s : Decision (plain_text s).
Proof. unfold plain_text. apply _. Defined.

Lemma plain_neutral s : plain_text s -> neutral s.
Proof.
  unfold plain_text. induction s as [|c s IH]; [by intros _ d|].
  intros Hcs d Hd. apply Forall_cons in Hcs as [Hc Hs]. cbn [scanned].
  destruct Hc as (H1 & H2 & H3 & H4). unfold scan_brace_char. simpl. rewrite !decide_False by done. by apply IH.
Qed.

Lemma digit_plain x : plain_char (pretty_N_char x).
Proof. unfold pretty_N_char. repeat case_match; vm_compute; repeat split; discriminate. Qed.

Lemma pretty_Z_plain (z : Z) : plain_text (pretty z).
Proof. apply pretty_Z_forall; [apply digit_plain|]. vm_compute. repeat split; discriminate. Qed.

(** Escaped text stays inside its string. *)
Definition string_like (s : string) : Prop := forall d, scanned (inside d) s = Some (inside d).

Lemma escape_char_inside c : string_like (escape_char c).
Proof. intros d. destruct c as [[] [] [] [] [] [] [] []]; vm_compute; reflexivity. Qed.

Lemma escape_inside s : string_like (escape s).
Proof. intros d. induction s as [|c s IH]; [done|]. cbn [escape]. rewrite scanned_app, escape_char_inside. apply IH. Qed.

Lemma json_string_neutral s : neutral (json_string s).
Proof.
  intros d Hd. unfold json_string. rewrite (scanned_step _ (inside d)), scanned_app, escape_inside by done. done.
Qed.

(** A value whose floats are printed without quotes, braces or backslashes. *)
Section dumped.
Context (float_repr : Qc -> string) (float_plain : forall q, plain_text (float_repr q)).

Lemma plain_literal s : bool_decide (plain_text s) = true -> neutral s.
Proof. intros H. by eapply plain_neutral, bool_decide_eq_true_1. Qed.

Lemma bracket_neutral l r s : plain_char l -> plain_char r -> neutral s -> neutral (String l s +:+ String r "").
Proof.
  intros Hl Hr Hs. apply (neutral_app (String l "" +:+ s)); [apply neutral_app; [|done]|];
    apply plain_neutral, Forall_cons; (split; [done|constructor]).
Qed.

Lemma brace_neutral s : neutral s -> neutral ("{" +:+ s +:+ "}").
Proof.
  intros Hs d Hd. rewrite append_cons, (scanned_step _ (outside (d + 1))) by done.
  change ("" +:+ (s +:+ "}")) with (s +:+ "}"). rewrite scanned_app, Hs by lia. cbn [mbind option_bind scanned].
  unfold scan_brace_char. simpl. replace (d + 1 - 1)%Z with d by lia. by rewrite bool_decide_eq_false_2 by lia.
Qed.

Lemma dumps_neutral v : neutral (json_dumps float_repr v).
Proof.
  induction v as [|b|z|q|s|l IH|l IH|d IH|t s] using pyval_nested_ind; cbn [json_dumps].
  - by apply plain_literal.
  - destruct b; by apply plain_literal.
  - apply plain_neutral, pretty_Z_plain.
  - apply plain_neutral, float_plain.
  - apply json_string_neutral.
  - apply (bracket_neutral "[" "]"); [by vm_compute..|]. apply neutral_join; [by apply plain_literal|].
    induction IH; constructor; done.
  - apply (bracket_neutral "[" "]"); [by vm_compute..|]. apply neutral_join; [by apply plain_literal|].
    induction IH; constructor; done.
  - apply brace_neutral, neutral_join; [by apply plain_literal|].
    induction IH as [|[k x] d Hx Hd IHd]; constructor; [|done].
    apply neutral_app, neutral_app; [apply json_string_neutral|by apply plain_literal|done].
  - apply json_string_neutral.
Qed.

(** The members of an object. *)
Definition members (d : odict pyval) : string :=
  join ", " ((fix go d := match d with
              | [] => []
              | (k, x) :: d' => (json_string k +:+ ": " +:+ json_dumps float_repr x) :: go d'
              end) d).

Lemma members_neutral d : neutral (members d).
Proof.
  apply neutral_join; [by apply plain_literal|]. induction d as [|[k x] d IH]; constructor; [|done].
  apply neutral_app, neutral_app; [apply json_string_neutral|by apply plain_literal|apply dumps_neutral].
Qed.

Lemma from_brace_skip pre s : has_char "{" pre = false -> from_brace (pre +:+ String "{" s) = Some (String "{" s).
Proof.
  unfold has_char. rewrite bool_decide_eq_false. induction pre as [|c pre IH]; intros Hpre; [done|].
  rewrite append_cons. cbn [from_brace]. rewrite decide_False by (intros ->; apply Hpre; left).
  apply IH. intros Hin. apply Hpre. by right.
Qed.

Lemma scan_object d post :
  scan (outside 0) (json_dumps float_repr (VDict d) +:+ post) = Some (json_dumps float_repr (VDict d)).
Proof.
  change (json_dumps float_repr (VDict d)) with (String "{" (members d +:+ "}")).
  rewrite append_cons. cbn [scan]. change (scan_brace_char (outside 0) "{") with (outside 1, false). cbv iota beta.
  rewrite append_assoc.
  by rewrite (scan_after _ (outside 1)) by (apply members_neutral; lia).
Qed.

(** ** Finding the fences *)

Lemma startswith_head p s : startswith (p +:+ s) p = true.
Proof. induction p as [|c p IH]; [by destruct s|]. rewrite append_cons. simpl. by rewrite bool_decide_eq_true_2. Qed.

Lemma substring_all s : String.substring 0 (String.length s) s = s.
Proof. induction s as [|c s IH]; [done|]. simpl. by rewrite IH. Qed.

Lemma substring_rest p s : String.substring (String.length p) (String.length (p +:+ s) - String.length p) (p +:+ s) = s.
Proof.
  rewrite length_append. replace (String.length p + String.length s - String.length p) with (String.length s) by lia.
  induction p as [|c p IH]; [apply substring_all|]. rewrite append_cons. simpl. by destruct (String.length s).
Qed.

Lemma split_once_at c p pre rest : has_char c pre = false ->
  split_once (String c p) (pre +:+ String c p +:+ rest) = Some (pre, rest).
Proof.
  unfold has_char. rewrite bool_decide_eq_false. induction pre as [|a pre IH]; intros Hpre.
  - change ("" +:+ String c p +:+ rest) with (String c p +:+ rest). rewrite append_cons. cbn [split_once].
    rewrite <- append_cons, startswith_head. do 2 f_equal. apply (substring_rest (String c p)).
  - rewrite append_cons. cbn [split_once startswith]. rewrite bool_decide_eq_false_2 by (intros ->; apply Hpre; left).
    cbn [andb]. rewrite IH; [done|]. intros Hin. apply Hpre. by right.
Qed.

Lemma contains_cons c s needle : contains (String c s) needle = false ->
  startswith (String c s) needle = false /\ contains s needle = false.
Proof. cbn [contains]. by intros [-> ->]%orb_false_iff. Qed.

Lemma startswith_prefix s f g : startswith s (f +:+ g) = true -> startswith s f = true.
Proof.
  revert s. induction f as [|a f IH]; intros s; [by destruct s|]. rewrite append_cons. destruct s as [|b s]; [done|]. simpl.
  intros [-> H]%andb_prop. simpl. eauto.
Qed.

Lemma no_fence_json text : contains text fence = false -> search_fenced_json text = None.
Proof.
  intros H. unfold search_fenced_json. enough (split_once "```json" text = None) as -> by done.
  induction text as [|c s IH]; [done|]. apply contains_cons in H as [Hs Hc]. cbn [split_once].
  enough (startswith (String c s) "```json" = false) as -> by by rewrite (IH Hc).
  destruct (startswith (String c s) "```json") eqn:E; [|done].
  by rewrite (startswith_prefix (String c s) fence "json" E) in Hs.
Qed.

Lemma no_fence_any text : contains text fence = false -> search_fenced_any text = None.
Proof.
  induction text as [|c s IH]; intros H; [done|]. apply contains_cons in H as [Hs Hc]. cbn [search_fenced_any].
  unfold match_fenced_any. rewrite Hs. by apply IH.
Qed.

Lemma strip_object d : strip_chars (chars (json_dumps float_repr (VDict d))) = chars (json_dumps float_repr (VDict d)).
Proof.
  change (json_dumps float_repr (VDict d)) with (String "{" (members d +:+ "}")).
  replace (chars (String "{" (members d +:+ "}"))) with (("{"%char :: chars (members d)) ++ ["}"%char])
    by (cbn [chars String.list_ascii_of_string]; by rewrite chars_app).
  unfold strip_chars. change (lstrip_chars (("{"%char :: chars (members d)) ++ ["}"%char]))
    with (("{"%char :: chars (members d)) ++ ["}"%char]).
  rewrite reverse_app. change (lstrip_chars (reverse ["}"%char] ++ reverse ("{"%char :: chars (members d))))
    with ("}"%char :: reverse ("{"%char :: chars (members d))).
  by rewrite reverse_cons, reverse_involutive.
Qed.

Definition spaces (s : string) : Prop := Forall (fun c => is_space c = true) (chars s).

(** An object that a model writes comes back exactly, when the reply has no
    code fence and no brace before it, or when it stands in a json fence, has no
    backtick of its own and no backtick precedes it; whatever follows. *)
Theorem json_recovered d pre post ws ws' text :
  let j := json_dumps float_repr (VDict d) in
  (Z.of_nat (String.length text) <= MAX_INPUT_LEN)%Z -> spaces ws -> spaces ws' ->
  text = pre +:+ j +:+ post /\ contains text fence = false /\ has_char "{" pre = false \/
  text = pre +:+ "```json" +:+ ws +:+ j +:+ ws' +:+ "```" +:+ post /\ has_char "`" pre = false /\ has_char "`" (j +:+ ws') = false ->
  find_json_string text = Ok j.
Proof.
  intros j Hlen Hws Hws' Hcase. unfold find_json_string, clip_input.
  rewrite (proj2 (Z.ltb_ge _ _)) by done.
  destruct Hcase as [(-> & Hf & Hb)|(-> & Hpre & Hj)].
  - rewrite no_fence_json, no_fence_any by done. unfold extract_balanced_json.
    change j with (String "{" (members d +:+ "}")) at 1. rewrite append_cons, from_brace_skip, <- append_cons by done.
    change (String "{" (members d +:+ "}")) with (json_dumps float_repr (VDict d)).
    change (mkScan 0 false false) with (outside 0). by rewrite scan_object.
  - unfold search_fenced_json. rewrite split_once_at by done. cbn [mbind option_bind].
    enough (lstrip (ws +:+ j +:+ ws' +:+ "```" +:+ post) = (j +:+ ws') +:+ fence +:+ post) as ->.
    { unfold fence. rewrite split_once_at by done. cbn [mbind option_bind]. f_equal. unfold strip.
      rewrite chars_app, <- (app_nil_l (chars j ++ _)), strip_chars_pad by done. unfold j. by rewrite strip_object, of_chars_chars. }
    unfold lstrip. rewrite chars_app, lstrip_chars_app_space by done. rewrite append_assoc. subst j.
    change (json_dumps float_repr (VDict d)) with (String "{" (members d +:+ "}")).
    rewrite !append_cons. cbn [chars String.list_ascii_of_string lstrip_chars]. change (is_space "{") with false. cbv iota.
    by rewrite <- (of_chars_chars (String "{" _)).
Qed.
End dumped.

Definition no_floats (_ : Qc) : string := "0.0".

Lemma json_recovered_witness :
  find_json_string ("Plan: " +:+ json_dumps no_floats (VDict [("a", VStr "}")]) +:+ " {done}")
    = Ok (json_dumps no_floats (VDict [("a", VStr "}")])).
Proof.
  apply (json_recovered no_floats ltac:(intros q; repeat constructor; vm_compute; discriminate)
           [("a", VStr "}")] "Plan: " " {done}" "" "" _); [vm_compute; discriminate|constructor..|].
  left. by vm_compute.
Defined.

(** A fence inside a string of the object is found first: the reply is cut there. *)
Example fence_in_string :
  let j := json_dumps no_floats (VDict [("code", VStr "```json {}```"); ("ok", VBool true)]) in
  find_json_string j = Ok "{}".
Proof. by vm_compute. Qed.
