(* ===== verification/Capabilities.v ===== *)
(** * Agent capabilities (agents/capabilities.py)

    What an agent says it can do, and how well that matches what a subtask needs.
    [CapabilityType] is a [str] enum: a member equals its value, so dictionaries
    keyed by members are keyed by the values here.  The class hierarchy that
    [get_agent_capabilities] walks is a list, one entry per class of the MRO. *)

From Stdlib Require Import QArith Qminmax Lqa.
From S2P Require Import Prelude PyVal.
Local Open Scope Q_scope.

Inductive CapabilityType :=
| CODE_GENERATION | CODE_REVIEW | CODE_REFACTORING | CODE_EXPLANATION
| TEST_GENERATION | TEST_EXECUTION
| DOCUMENTATION | API_DOCS
| STATIC_ANALYSIS | SECURITY_ANALYSIS | PERFORMANCE_ANALYSIS
| TASK_DECOMPOSITION | ARCHITECTURE_DESIGN
| FILE_OPERATIONS | SHELL_EXECUTION | WEB_SEARCH
| ORCHESTRATION | SELF_REFLECTION.

#[export] Instance CapabilityType_eq_dec : EqDecision CapabilityType.
Proof. solve_decision. Defined.

Definition capability_value (t : CapabilityType) : string :=
  match t with
  | CODE_GENERATION => "code_generation" | CODE_REVIEW => "code_review"
  | CODE_REFACTORING => "code_refactoring" | CODE_EXPLANATION => "code_explanation"
  | TEST_GENERATION => "test_generation" | TEST_EXECUTION => "test_execution"
  | DOCUMENTATION => "documentation" | API_DOCS => "api_docs"
  | STATIC_ANALYSIS => "static_analysis" | SECURITY_ANALYSIS => "security_analysis"
  | PERFORMANCE_ANALYSIS => "performance_analysis"
  | TASK_DECOMPOSITION => "task_decomposition" | ARCHITECTURE_DESIGN => "architecture_design"
  | FILE_OPERATIONS => "file_operations" | SHELL_EXECUTION => "shell_execution" | WEB_SEARCH => "web_search"
  | ORCHESTRATION => "orchestration" | SELF_REFLECTION => "self_reflection"
  end.

Definition all_capabilities : list CapabilityType :=
  [CODE_GENERATION; CODE_REVIEW; CODE_REFACTORING; CODE_EXPLANATION; TEST_GENERATION; TEST_EXECUTION;
   DOCUMENTATION; API_DOCS; STATIC_ANALYSIS; SECURITY_ANALYSIS; PERFORMANCE_ANALYSIS; TASK_DECOMPOSITION;
   ARCHITECTURE_DESIGN; FILE_OPERATIONS; SHELL_EXECUTION; WEB_SEARCH; ORCHESTRATION; SELF_REFLECTION].

(** [CapabilityType(c)], or nothing where it raises [ValueError] *)
Definition capability_of (c : string) : option CapabilityType :=
  find (fun t => bool_decide (capability_value t = c)) all_capabilities.

Record Capability := mkCapability {
  cap_type : CapabilityType;
  proficiency : Q;
  cap_requirements : list CapabilityType;
  cap_metadata : odict pyval;
}.

(** The constructor, with [__post_init__] *)
Definition new_capability (t : CapabilityType) (p : Q) (requirements : list CapabilityType) (metadata : odict pyval) : Capability :=
  mkCapability t (Qmax 0 (Qmin 1 p)) requirements metadata.
Definition default_capability (t : CapabilityType) : Capability := new_capability t 1 [] [].

Definition meets_requirement (c required : Capability) : bool :=
  bool_decide (cap_type c = cap_type required) && Qle_bool (proficiency required) (proficiency c).

Abbreviation CapabilitySet := (odict Capability).

Definition add_capability (s : CapabilitySet) (c : Capability) : CapabilitySet := od_set (capability_value (cap_type c)) c s.

Definition remove_capability (s : CapabilitySet) (t : CapabilityType) : CapabilitySet * bool :=
  if od_mem (capability_value t) s then (od_pop (capability_value t) s, true) else (s, false).

Definition get_capability (s : CapabilitySet) (t : CapabilityType) : option Capability := od_get (capability_value t) s.

Definition has (s : CapabilitySet) (key : string) (min_proficiency : Q) : bool :=
  match od_get key s with Some c => Qle_bool min_proficiency (proficiency c) | None => false end.

Definition list_types (s : CapabilitySet) : list CapabilityType := omap capability_of (od_keys s).

Definition meets_requirements (s required : CapabilitySet) : bool :=
  forallb (fun kv => has s kv.1 (proficiency kv.2)) required.

Definition missing_capabilities (s required : CapabilitySet) : list CapabilityType :=
  omap (fun kv => if has s kv.1 (proficiency kv.2) then None else capability_of kv.1) required.

(** What one requirement contributes to the score. *)
Definition match_part (s : CapabilitySet) (kv : string * Capability) : Q :=
  match od_get kv.1 s with
  | Some ours => Qmin 1 (proficiency ours / Qmax (1 # 100) (proficiency kv.2))
  | None => 0
  end.

Definition sum_parts (s required : CapabilitySet) : Q := foldr (fun kv acc => match_part s kv + acc) 0 required.

Definition score_match (s required : CapabilitySet) : Q :=
  match required with
  | [] => 1
  | _ => sum_parts s required / inject_Z (Z.of_nat (length required))
  end.

Definition from_types (ts : list CapabilityType) : CapabilitySet :=
  fold_left (fun s t => add_capability s (default_capability t)) ts [].

(** The mixins' declarations *)
Definition CodeGenerationMixin : CapabilitySet := from_types [CODE_GENERATION; CODE_EXPLANATION].
Definition CodeReviewMixin : CapabilitySet := from_types [CODE_REVIEW; STATIC_ANALYSIS].
Definition TestGenerationMixin : CapabilitySet := from_types [TEST_GENERATION].
Definition OrchestrationMixin : CapabilitySet := from_types [ORCHESTRATION; TASK_DECOMPOSITION].
Definition SelfReflectionMixin : CapabilitySet := from_types [SELF_REFLECTION].

(** A class of an agent's MRO: whether it derives from [CapabilityMixin] (and is not
    it), and what its [get_capabilities] answers for the agent. *)
Record MroClass := mkClass { is_mixin : bool; class_capabilities : res CapabilitySet }.

Definition merge_class (acc : CapabilitySet) (base : MroClass) : CapabilitySet :=
  if is_mixin base
  then match class_capabilities base with
       | Ok caps => fold_left add_capability caps.*2 acc
       | Raise _ => acc
       end
  else acc.

Definition get_agent_capabilities (mro : list MroClass) : CapabilitySet := fold_left merge_class mro [].

(** ** The score *)

(** Every set the code builds: one entry per type, proficiencies in [0, 1]. *)
Definition capability_ok (kv : string * Capability) : Prop :=
  kv.1 = capability_value (cap_type kv.2) /\ 0 <= proficiency kv.2 /\ proficiency kv.2 <= 1.
Definition set_ok (s : CapabilitySet) : Prop := NoDup (od_keys s) /\ Forall capability_ok s.

Lemma capability_value_inj t t' : capability_value t = capability_value t' -> t = t'.
Proof. by destruct t, t'. Qed.

Lemma capability_of_value t : capability_of (capability_value t) = Some t.
Proof. by destruct t. Qed.

Lemma new_capability_range t p r m : 0 <= proficiency (new_capability t p r m) /\ proficiency (new_capability t p r m) <= 1.
Proof.
  cbn [new_capability proficiency]. split; [apply Q.le_max_l|].
  apply Q.max_lub; [by vm_compute|apply Q.le_min_l].
Qed.

Lemma add_capability_ok s c :
  set_ok s -> 0 <= proficiency c -> proficiency c <= 1 -> set_ok (add_capability s c).
Proof.
  intros [Hnd Hs] H0 H1. split; [by apply NoDup_od_set|].
  apply Forall_forall. intros [k v] Hkv. apply (od_get_of_elem _ _ _ (NoDup_od_set _ _ _ Hnd)) in Hkv.
  unfold add_capability in Hkv. rewrite od_get_set in Hkv. case_decide as Hk.
  - injection Hkv as <-. by subst k.
  - apply od_get_elem in Hkv. rewrite Forall_forall in Hs. by apply (Hs (k, v)).
Qed.

Lemma Qmax_pos r : 0 < Qmax (1 # 100) r.
Proof. apply Qlt_le_trans with (1 # 100); [by vm_compute|apply Q.le_max_l]. Qed.

Lemma match_part_range s kv : set_ok s -> 0 <= match_part s kv /\ match_part s kv <= 1.
Proof.
  intros [_ Hs]. unfold match_part. destruct (od_get kv.1 s) as [c|] eqn:E; [|by split].
  apply od_get_elem in E. rewrite Forall_forall in Hs. destruct (Hs _ E) as (_ & H0 & _).
  split; [|apply Q.le_min_l]. apply Q.min_glb; [by vm_compute|].
  apply Qle_shift_div_l; [apply Qmax_pos|]. by rewrite Qmult_0_l.
Qed.

Lemma sum_parts_range s required : set_ok s ->
  0 <= sum_parts s required /\ sum_parts s required <= inject_Z (Z.of_nat (length required)).
Proof.
  intros Hs. induction required as [|kv l IH]; [by split|]. cbn [sum_parts foldr length].
  fold (sum_parts s l). destruct (match_part_range s kv Hs) as [H0 H1].
  rewrite Nat2Z.inj_succ, <- Z.add_1_l, inject_Z_plus. change (inject_Z 1) with 1. lra.
Qed.

(** A requirement fulfilled in full: the floor of 0.01 counts too. *)
Definition fulfils (s : CapabilitySet) (kv : string * Capability) : Prop :=
  exists c, od_get kv.1 s = Some c /\ Qmax (1 # 100) (proficiency kv.2) <= proficiency c.
Definition contributes (s : CapabilitySet) (kv : string * Capability) : Prop :=
  exists c, od_get kv.1 s = Some c /\ 0 < proficiency c.

Lemma Qdiv_ge_one a b : 0 < b -> (1 <= a / b <-> b <= a).
Proof.
  intros Hb. rewrite <- (Qmult_le_l 1 (a / b) b Hb), Qmult_1_r, Qmult_div_r by (intros E; rewrite E in Hb; by apply Qlt_irrefl in Hb).
  done.
Qed.

Lemma Qdiv_pos a b : 0 < b -> (0 < a / b <-> 0 < a).
Proof.
  intros Hb. rewrite <- (Qmult_lt_l 0 (a / b) b Hb), Qmult_0_r, Qmult_div_r by (intros E; rewrite E in Hb; by apply Qlt_irrefl in Hb).
  done.
Qed.

Lemma match_part_full s kv : 1 <= match_part s kv <-> fulfils s kv.
Proof.
  unfold match_part, fulfils. pose proof (Qmax_pos (proficiency kv.2)) as Hr.
  destruct (od_get kv.1 s) as [c|]; [|split; [by vm_compute|by intros (? & ? & _)]].
  rewrite Q.min_glb_iff, Qdiv_ge_one by done. split; [naive_solver|].
  intros (? & [= <-] & H). split; [apply Qle_refl|done].
Qed.

Lemma match_part_pos s kv : 0 < match_part s kv <-> contributes s kv.
Proof.
  unfold match_part, contributes. pose proof (Qmax_pos (proficiency kv.2)) as Hr.
  destruct (od_get kv.1 s) as [c|]; [|split; [by vm_compute|by intros (? & ? & _)]].
  rewrite Q.min_glb_lt_iff, Qdiv_pos by done. split; [naive_solver|].
  intros (? & [= <-] & H). by split.
Qed.

Lemma sum_parts_full s required : set_ok s ->
  (sum_parts s required == inject_Z (Z.of_nat (length required)) <-> Forall (fulfils s) required).
Proof.
  intros Hs. induction required as [|kv l IH]; [done|]. cbn [sum_parts foldr length]. fold (sum_parts s l).
  rewrite Nat2Z.inj_succ, <- Z.add_1_l, inject_Z_plus, Forall_cons, <- IH, <- match_part_full. change (inject_Z 1) with 1.
  destruct (match_part_range s kv Hs) as [_ H1]. destruct (sum_parts_range s l Hs) as [_ H2].
  split; [intros; split|intros []]; lra.
Qed.

Lemma sum_parts_pos s required : set_ok s -> (0 < sum_parts s required <-> Exists (contributes s) required).
Proof.
  intros Hs. induction required as [|kv l IH]; [by rewrite Exists_nil; split; [vm_compute|]|]. cbn [sum_parts foldr].
  fold (sum_parts s l). rewrite Exists_cons, <- IH, <- match_part_pos.
  destruct (match_part_range s kv Hs) as [H0 _]. destruct (sum_parts_range s l Hs) as [H1 _].
  split; [|intros []; lra]. intros H. destruct (Qlt_le_dec 0 (match_part s kv)); [by left|right; lra].
Qed.

(** The score lies in [0, 1]; it is 1 exactly when every requirement is met in
    full, which implies [meets_requirements]; an agent becomes a candidate (a positive
    score) exactly when it has some required capability at a positive proficiency, or
    when nothing is required. *)
Theorem score_match_correct s required : set_ok s ->
  (0 <= score_match s required /\ score_match s required <= 1) /\
  (score_match s required == 1 <-> Forall (fulfils s) required) /\
  (score_match s required == 1 -> meets_requirements s required = true) /\
  (0 < score_match s required <-> required = [] \/ Exists (contributes s) required).
Proof.
  intros Hs. destruct (decide (required = [])) as [->|Hne].
  { split; [by split|]. split; [done|]. split; [done|]. split; [by left|by intros _]. }
  assert (score_match s required = sum_parts s required / inject_Z (Z.of_nat (length required))) as -> by by destruct required.
  destruct (sum_parts_range s required Hs) as [H0 H1].
  assert (0 < inject_Z (Z.of_nat (length required))) as Hn.
  { destruct required; [done|]. unfold Qlt. simpl. lia. }
  assert (sum_parts s required / inject_Z (Z.of_nat (length required)) == 1 <-> Forall (fulfils s) required) as Hfull.
  { rewrite <- sum_parts_full by done. pose proof (Qdiv_ge_one (sum_parts s required) _ Hn) as Hge.
    pose proof (Qle_shift_div_r (sum_parts s required) _ 1 Hn) as Hle. rewrite Qmult_1_l in Hle. split; intros H.
    - apply Qle_antisym; [done|]. apply Hge. rewrite H. apply Qle_refl.
    - apply Qle_antisym; [by apply Hle|]. apply Hge. rewrite H. apply Qle_refl. }
  split; [split|split; [|split]].
  - apply Qle_shift_div_l; [done|]. by rewrite Qmult_0_l.
  - apply Qle_shift_div_r; [done|]. by rewrite Qmult_1_l.
  - done.
  - rewrite Hfull. intros Hall. apply forallb_forall. intros kv Hkv%list_elem_of_In.
    rewrite Forall_forall in Hall. destruct (Hall _ Hkv) as (c & Hc & Hle). unfold has. rewrite Hc.
    apply Qle_bool_iff. eapply Qle_trans; [apply Q.le_max_r|exact Hle].
  - rewrite Qdiv_pos, sum_parts_pos by done. naive_solver.
Qed.

Lemma from_types_ok ts : set_ok (from_types ts).
Proof.
  unfold from_types. apply fold_left_ind; [split; constructor|].
  intros s t Hs. by apply add_capability_ok; [|apply new_capability_range..].
Qed.

Lemma score_match_correct_witness : set_ok CodeReviewMixin /\ score_match CodeReviewMixin (from_types [CODE_REVIEW; WEB_SEARCH]) <= 1.
Proof.
  split; [apply from_types_ok|]. apply (score_match_correct CodeReviewMixin _ (from_types_ok _)).
Defined.

(** Later classes of the MRO overwrite earlier ones: what a subclass declares for a
    capability is replaced by the default of the mixin it overrides. *)
Example override_lost :
  let own := add_capability [] (new_capability CODE_GENERATION (1 # 2) [] []) in
  get_agent_capabilities [mkClass true (Ok own); mkClass true (Ok CodeGenerationMixin)] = CodeGenerationMixin.
Proof. by vm_compute. Qed.
