(* ===== verification/Planning.v ===== *)
(** * Deterministic planning (agents/orchestrator_planning.py, orchestrator_models.py)

    The plan derived from the words of a task when no model answers, the file names
    found in a task, and the adaptive decomposition: one pass per file, then one pass
    over all of them.  Plans are JSON values; [plan_entries] reads them, at the types
    the prompt asks for (ids, descriptions and dependencies as strings). *)

From stdpp Require Import pretty.
From S2P Require Import Prelude PyStr PyVal JsonExtract Capabilities.

Definition per_file_task_id (index : nat) : string := "per_file_" +:+ pretty index.

(** ** The text of the last user message *)

Section planning.
(** [str] of other values *)
Context (str : pyval -> string).

Definition block_text (block : pyval) : list string :=
  match block with
  | VDict d =>
      match od_get "type" d with
      | Some (VStr "text") => [match od_get "text" d with Some v => str v | None => "" end]
      | _ => []
      end
  | VStr s => [s]
  | _ => []
  end.

Fixpoint latest_user_text_in (reversed : list (odict pyval)) : string :=
  match reversed with
  | [] => ""
  | message :: rest =>
      match od_get "role" message with
      | Some (VStr "user") =>
          match od_get "content" message with
          | Some (VStr s) => s
          | Some (VList blocks) => join "" (blocks ≫= block_text)
          | Some VNone | None => ""
          | Some v => str v
          end
      | _ => latest_user_text_in rest
      end
  end.
Definition latest_user_text (messages : list (odict pyval)) : string := latest_user_text_in (reverse messages).
End planning.

Definition has_extractable_json (loads : string -> res pyval) (content : string) : bool :=
  if decide (content = "") then false else is_ok (extract_json loads content).

(** ** File names *)

Definition is_letter (c : Ascii.ascii) : bool :=
  let n := Ascii.nat_of_ascii (lower_char c) in (97 <=? n) && (n <=? 122).
Definition is_alnum (c : Ascii.ascii) : bool :=
  let n := Ascii.nat_of_ascii c in is_letter c || ((48 <=? n) && (n <=? 57)).
(** [[A-Za-z0-9_./\\-]] *)
Definition is_path_char (c : Ascii.ascii) : bool :=
  is_alnum c || bool_decide (c ∈ ["_"%char; "."%char; "/"%char; "\"%char; "-"%char]).

(** The dot at [j] ends a stem with a letter and starts an extension. *)
Definition splits_at (run : list Ascii.ascii) (j : nat) : bool :=
  bool_decide (run !! j = Some "."%char) && match run !! S j with Some c => is_letter c | None => false end &&
  existsb is_letter (take j run).

Fixpoint take_while (p : Ascii.ascii -> bool) (l : list Ascii.ascii) : list Ascii.ascii :=
  match l with [] => [] | c :: l' => if p c then c :: take_while p l' else [] end.

(** [_FILE_TOKEN_RE] at the beginning of [l]: the length of its match.  The stem is
    greedy, so the last dot that can split the run of path characters does; the
    extension takes at most eight characters. *)
Definition match_file_token (l : list Ascii.ascii) : option nat :=
  let run := take_while is_path_char l in
  match find (splits_at run) (reverse (seq 0 (length run))) with
  | Some j => Some (S j + Nat.min 8 (length (take_while is_alnum (drop (S j) run))))
  | None => None
  end.

(** [finditer]; [skip] characters belong to the match before. *)
Fixpoint file_matches (skip : nat) (l : list Ascii.ascii) : list (list Ascii.ascii) :=
  match l with
  | [] => []
  | c :: l' =>
      match skip with
      | S k => file_matches k l'
      | 0 => match match_file_token l with
             | Some n => take n l :: file_matches (pred n) l'
             | None => file_matches 0 l'
             end
      end
  end.

Fixpoint lstrip_dots (l : list Ascii.ascii) : list Ascii.ascii :=
  match l with c :: l' => if decide (c = "."%char) then lstrip_dots l' else l | [] => [] end.
Definition strip_dots (l : list Ascii.ascii) : list Ascii.ascii := reverse (lstrip_dots (reverse (lstrip_dots l))).

Definition FILE_TOKEN_ABBREVIATIONS : list string := ["e.g"; "i.e"; "etc"; "vs"; "et.al"].

Definition add_token (ordered : list string) (m : list Ascii.ascii) : list string :=
  let token := of_chars (strip_dots m) in
  if bool_decide (token = "") || bool_decide (lower token ∈ FILE_TOKEN_ABBREVIATIONS) || bool_decide (token ∈ ordered)
  then ordered else ordered ++ [token].

Definition extract_file_tokens (task : string) : list string := fold_left add_token (file_matches 0 (chars task)) [].

(** ** Plans from intents *)

Definition INTENT_RULES : list (list string * string * CapabilityType) :=
  [(["generat"; "build"; "create"; "implement"; "write code"; "add"], "Generate the implementation", CODE_GENERATION);
   (["test"; "pytest"; "coverage"], "Generate tests for the implementation", TEST_GENERATION);
   (["review"; "audit"; "inspect"], "Review the implementation", CODE_REVIEW);
   (["analyz"; "analyse"; "investigate"; "examine"], "Statically analyze the implementation", STATIC_ANALYSIS)].

(** One entry of a plan; the absent fields are the ones [get] finds missing. *)
Record PlanEntry := mkEntry {
  pe_id : option string;
  pe_description : option string;
  pe_capabilities : list string;
  pe_dependencies : list string;
}.

Definition entry_value (e : PlanEntry) : pyval :=
  VDict (match pe_id e with Some i => [("id", VStr i)] | None => [] end ++
         match pe_description e with Some d => [("description", VStr d)] | None => [] end ++
         [("capabilities", VList (VStr <$> pe_capabilities e)); ("dependencies", VList (VStr <$> pe_dependencies e))]).

Fixpoint intent_subtasks (lowered : string) (rules : list (list string * string * CapabilityType))
    (previous_id : option string) : list PlanEntry :=
  match rules with
  | [] => []
  | (keywords, description, capability) :: rest =>
      if existsb (contains lowered) keywords
      then let task_id := capability_value capability in
           mkEntry (Some task_id) (Some description) [task_id] (match previous_id with Some p => [p] | None => [] end)
             :: intent_subtasks lowered rest (Some task_id)
      else intent_subtasks lowered rest previous_id
  end.

Definition fallback_subtask : PlanEntry :=
  mkEntry (Some (capability_value CODE_GENERATION)) (Some "Complete the requested task") [capability_value CODE_GENERATION] [].

Definition intent_entries (task_text : string) : list PlanEntry :=
  match intent_subtasks (lower task_text) INTENT_RULES None with [] => [fallback_subtask] | l => l end.

Definition intent_decomposition (task_text : string) : odict pyval :=
  let subtasks := intent_entries task_text in
  [("subtasks", VList (entry_value <$> subtasks)); ("execution_order", VList (VStr <$> omap pe_id subtasks))].

(** ** Reading a plan *)

Definition as_str (v : pyval) : option string := match v with VStr s => Some s | _ => None end.
(** [get] of a key that must be a string when it is there *)
Definition opt_str (k : string) (d : odict pyval) : option (option string) :=
  match od_get k d with Some v => Some <$> as_str v | None => Some None end.
Definition opt_list (k : string) (d : odict pyval) : option (list pyval) :=
  match od_get k d with Some (VList l) => Some l | Some _ => None | None => Some [] end.

(** Values that are no capability are passed over by the code, whatever their type. *)
Definition entry_of (v : pyval) : option PlanEntry :=
  match v with
  | VDict d =>
      i ← opt_str "id" d; t ← opt_str "description" d; caps ← opt_list "capabilities" d;
      deps ← opt_list "dependencies" d; ds ← mapM as_str deps;
      Some (mkEntry i t (omap as_str caps) ds)
  | _ => None
  end.

(** [plan.get("subtasks", [])]; nothing when the plan is not of the documented shape. *)
Definition plan_entries (plan : pyval) : option (list PlanEntry) :=
  match plan with VDict d => l ← opt_list "subtasks" d; mapM entry_of l | _ => None end.

(** ** Adaptive decomposition *)

Record InvestigationFindings := mkFindings { files : list string; observations : list string }.

Record AdaptiveDecomposition := mkDecomposition {
  ad_findings : InvestigationFindings;
  ad_per_file : list PlanEntry;
  ad_cross_file : option PlanEntry;
}.
Definition ad_subtasks (d : AdaptiveDecomposition) : list PlanEntry :=
  ad_per_file d ++ match ad_cross_file d with Some c => [c] | None => [] end.

Definition PER_FILE_CAPABILITY : CapabilityType := STATIC_ANALYSIS.
Definition CROSS_FILE_CAPABILITY : CapabilityType := STATIC_ANALYSIS.
Definition CROSS_FILE_TASK_ID : string := "cross_file_integration".

(** The [files] and [observations] of the investigation's JSON [data]. *)
Definition clean_items (str : pyval -> string) (l : list pyval) : list string :=
  filter (fun s => strip s ≠ "") (str <$> l).
Definition findings_of (str : pyval -> string) (task : string) (data : odict pyval) : InvestigationFindings :=
  mkFindings
    (clean_items str (match od_get "files" data with Some (VList l) => l | _ => VStr <$> extract_file_tokens task end))
    (clean_items str (match od_get "observations" data with Some (VList l) => l | _ => [] end)).

Definition per_file_entry (task : string) (index : nat) (file_path : string) : PlanEntry :=
  mkEntry (Some (per_file_task_id index))
    (Some ("Local analysis pass over '" +:+ file_path +:+ "': summarize its role, public surface, and anything relevant to: " +:+ task))
    [capability_value PER_FILE_CAPABILITY] [].

Definition subtasks_from_findings (task : string) (f : InvestigationFindings) : AdaptiveDecomposition :=
  let per_file := imap (per_file_entry task) (files f) in
  mkDecomposition f per_file
    (match per_file with
     | [] => None
     | _ => Some (mkEntry (Some CROSS_FILE_TASK_ID)
              (Some ("Cross-file integration pass: reconcile the per-file analyses into one coherent answer for: " +:+ task +:+
                     ". Resolve inconsistencies across files and surface interactions."))
              [capability_value CROSS_FILE_CAPABILITY] (omap pe_id per_file))
     end).

(** ** Examples *)

Example tokens_found :
  extract_file_tokens "Compare src/a.py (v2.0) with ../b/c.tar.gz, e.g. src/a.py." = ["src/a.py"; "/b/c.tar.gz"].
Proof. by vm_compute. Qed.

Example intents_chained : (fun e => (pe_id e, pe_dependencies e)) <$> intent_entries "Add a parser and TEST it"
  = [(Some "code_generation", []); (Some "test_generation", ["code_generation"])].
Proof. by vm_compute. Qed.

(** What [json.dumps] and [json.loads] leave of a plan is read back as written. *)
Lemma mapM_as_str (l : list string) : mapM as_str (VStr <$> l) = Some l.
Proof. induction l as [|s l IH]; [done|]. rewrite fmap_cons. cbn [mapM as_str mbind option_bind]. by rewrite IH. Qed.

Lemma omap_as_str (l : list string) : omap as_str (VStr <$> l) = l.
Proof. induction l as [|s l IH]; [done|]. rewrite fmap_cons. cbn [omap list_omap as_str]. by f_equal. Qed.

Lemma entry_of_value e : entry_of (entry_value e) = Some e.
Proof.
  destruct e as [i d caps deps]. unfold entry_value. cbn [pe_id pe_description pe_capabilities pe_dependencies].
  pose proof (mapM_as_str deps) as Hd. pose proof (omap_as_str caps) as Hc. revert Hd Hc.
  generalize (VStr <$> deps) as ds, (VStr <$> caps) as cs. intros ds cs Hd Hc.
  destruct i, d; simpl; by rewrite Hd, Hc.
Qed.

Lemma plan_entries_intents task : plan_entries (VDict (intent_decomposition task)) = Some (intent_entries task).
Proof.
  change (mapM entry_of (entry_value <$> intent_entries task) = Some (intent_entries task)).
  induction (intent_entries task) as [|e l IH]; [done|]. rewrite fmap_cons. cbn [mapM]. rewrite entry_of_value.
  cbn [mbind option_bind]. by rewrite IH.
Qed.
