(* ===== verification/Orchestrator.v ===== *)
(** * The orchestrator (agents/orchestrator.py, orchestrator_factories.py)

    An orchestrator turns a plan into subtasks, scores the registered agents for each,
    and runs the plan in batches; a subtask tries its agents in order of their score.
    [asyncio.gather] interleaves the subtasks of a batch: [ostep] is one action of a
    run, the choice of the next batch or one [await] of one subtask.  What agents do is
    the interface [AgentEnv]; an agent may change the world arbitrarily. *)

From stdpp Require Import pretty.
From Stdlib Require Import QArith.
From S2P Require Import Prelude PyStr PyVal Messages Step Dag Governance Capabilities Planning.

(** [TaskInput] of the built-in factories, or of a registered one *)
Inductive TaskInput :=
| CodeReviewInput (code language : string) (context : odict pyval)
| CodeGenerationInput (description language : string)
| OtherInput (v : pyval).

(** [run]: [agent.run]; [class_mro], [capability_mro]: the names of the classes of the
    agent's MRO, and their capabilities; [task_output]: [success] and [error] of a
    result that is a [TaskOutput], the error as printed; [as_exception]: the text of a
    result that is an exception object; [result_text]: [str] of a result. *)
Class AgentEnv (W : Type) := {
  Agent : Type;
  Result : Type;
  run : Agent -> TaskInput -> M W Result;
  class_mro : Agent -> list string;
  capability_mro : Agent -> list MroClass;
  agent_description : Agent -> string;
  task_output : Result -> option (bool * string);
  as_exception : Result -> option string;
  result_text : Result -> string;
  py_str : pyval -> string;
}.

(** ** Task inputs *)

Definition newline : string := String (Ascii.ascii_of_nat 10) EmptyString.

Definition reviewer_input_factory (description : string) : TaskInput :=
  CodeReviewInput ("# Task: " +:+ description +:+ newline +:+ "# (code to be reviewed)") "python"
    [("subtask_description", VStr description)].
Definition coder_input_factory (description : string) : TaskInput := CodeGenerationInput description "python".

(** The class attribute [_task_input_factories], keyed by the class; a factory may raise. *)
Abbreviation Factories := (odict (string -> res TaskInput)).

Definition register_task_input_factory (cls : string) (f : string -> res TaskInput) (fs : Factories) : Factories :=
  od_set cls f fs.
Definition register_default_factories (fs : Factories) : Factories :=
  register_task_input_factory "CoderAgent" (fun d => Ok (coder_input_factory d))
    (register_task_input_factory "ReviewerAgent" (fun d => Ok (reviewer_input_factory d)) fs).
(** The constructor registers the defaults when nothing is registered. *)
Definition ensure_factories (fs : Factories) : Factories :=
  match fs with [] => register_default_factories fs | _ => fs end.

Fixpoint resolve_class (fs : Factories) (mro : list string) (description : string) : res TaskInput :=
  match mro with
  | [] => Ok (CodeGenerationInput description "python")
  | cls :: rest => match od_get cls fs with Some factory => factory description | None => resolve_class fs rest description end
  end.

(** ** State *)
Section orchestrator.
Context {W : Type} `{!GovernanceEnv W, !AgentEnv W}.

Record SubTask := mkSubTask {
  st_id : string;
  st_description : string;
  st_required : list CapabilityType;
  st_dependencies : list string;
  st_assigned : option string;
  st_result : option Result;
  st_status : StepStatus;
}.

Definition set_assigned (a : string) (s : SubTask) : SubTask :=
  mkSubTask (st_id s) (st_description s) (st_required s) (st_dependencies s) (Some a) (st_result s) (st_status s).
Definition set_outcome (r : option Result) (status : StepStatus) (s : SubTask) : SubTask :=
  mkSubTask (st_id s) (st_description s) (st_required s) (st_dependencies s) (st_assigned s)
    (match r with Some _ => r | None => st_result s end) status.
Definition set_status (status : StepStatus) (s : SubTask) : SubTask := set_outcome None status s.

Record Orch := mkOrch {
  or_agents : odict Agent;
  or_capabilities : odict CapabilitySet;
  or_subtasks : odict SubTask;
  or_chains : odict (list string);
  or_trace : list (string * string);
}.

(** The constructor, given a dict of agents: their capabilities are not looked up. *)
Definition new_orchestrator (agents : odict Agent) : Orch := mkOrch agents [] [] [] [].

Definition register_agent (name : string) (agent : Agent) (o : Orch) : Orch :=
  mkOrch (od_set name agent (or_agents o)) (od_set name (get_agent_capabilities (capability_mro agent)) (or_capabilities o))
    (or_subtasks o) (or_chains o) (or_trace o).

Definition unregister_agent (name : string) (o : Orch) : Orch * res bool :=
  if od_mem name (or_agents o)
  then let agents := od_pop name (or_agents o) in
       if od_mem name (or_capabilities o)
       then (mkOrch agents (od_pop name (or_capabilities o)) (or_subtasks o) (or_chains o) (or_trace o), Ok true)
       else (mkOrch agents (or_capabilities o) (or_subtasks o) (or_chains o) (or_trace o), Raise (KeyError name))
  else (o, Ok false).

Definition with_subtasks (subtasks : odict SubTask) (o : Orch) : Orch :=
  mkOrch (or_agents o) (or_capabilities o) subtasks (or_chains o) (or_trace o).

(** ** Subtasks from a plan *)

(** A [SubTask] from an entry, the [n]-th of its plan. *)
Definition subtask_of (n : nat) (e : PlanEntry) : SubTask :=
  mkSubTask (default ("task_" +:+ pretty n) (pe_id e)) (default "" (pe_description e))
    (omap capability_of (pe_capabilities e)) (pe_dependencies e) None None StPending.

Definition put_subtask (subtasks : odict SubTask) (s : SubTask) : odict SubTask := od_set (st_id s) s subtasks.

(** The loop of [_parse_output], which adds to what is there. *)
Definition add_plan (entries : list PlanEntry) (subtasks : odict SubTask) : odict SubTask :=
  fold_left put_subtask (imap subtask_of entries) subtasks.

(** [_register_subtasks], which starts over; a missing id counts the subtasks so far. *)
Definition register_subtasks (entries : list PlanEntry) (o : Orch) : Orch :=
  mkOrch (or_agents o) (or_capabilities o)
    (fold_left (fun subtasks e => put_subtask subtasks (subtask_of (length subtasks) e)) entries [])
    [] (or_trace o).

Definition plain_step (s : SubTask) : PlainStep := plain (st_id s) (st_dependencies s).
Definition plan_dag (subtasks : odict SubTask) : DAG PlainStep * res unit :=
  add_many (mkDAG "orchestrator-plan" "" []) (plain_step <$> subtasks.*2).

Definition validate_plan (subtasks : odict SubTask) : res unit :=
  match subtasks with
  | [] => Ok tt
  | _ => let '(d, added) := plan_dag subtasks in _ ← added; validate d
  end.

(** ** Choosing agents *)

Definition required_set (caps : list CapabilityType) : CapabilitySet :=
  fold_left (fun s t => add_capability s (default_capability t)) caps [].

Definition score_ge (a b : string * Q) : bool := Qle_bool b.2 a.2.

Definition candidates_for (capabilities : odict CapabilitySet) (s : SubTask) : list (string * Q) :=
  let required := required_set (st_required s) in
  sorted score_ge
    (filter (fun c => negb (Qle_bool c.2 0) = true) ((fun kv => (kv.1, score_match kv.2 required)) <$> capabilities)).

(** One round of the loop of [_assign_agents] *)
Definition assign_one (capabilities : odict CapabilitySet) (acc : odict SubTask * odict (list string) * odict string)
    (kv : string * SubTask) : odict SubTask * odict (list string) * odict string :=
  let '(subtasks, chains, assignments) := acc in
  match candidates_for capabilities kv.2 with
  | [] => acc
  | (best_agent, _) :: rest =>
      (od_set kv.1 (set_assigned best_agent kv.2) subtasks, od_set kv.1 rest.*1 chains, od_set kv.1 best_agent assignments)
  end.

Definition assign_agents (o : Orch) : Orch * odict string :=
  let '(subtasks, chains, assignments) :=
    fold_left (assign_one (or_capabilities o)) (or_subtasks o) (or_subtasks o, or_chains o, []) in
  (mkOrch (or_agents o) (or_capabilities o) subtasks chains (or_trace o), assignments).

(** [select_agent], over the agents offered *)
Fixpoint best_of (required : CapabilitySet) (agents : list Agent) (best : option Agent) (best_score : Q) : option Agent :=
  match agents with
  | [] => best
  | agent :: rest =>
      let score := score_match (get_agent_capabilities (capability_mro agent)) required in
      if negb (Qle_bool score best_score) then best_of required rest (Some agent) score
      else best_of required rest best best_score
  end.
Definition select_agent (capabilities : list string) (available : list Agent) : option Agent :=
  best_of (required_set (omap capability_of capabilities)) available None 0.

(** ** One subtask *)

(** The values of the dict of results *)
Inductive PlanValue :=
| PvResult (r : Result)
| PvHandoff (h : odict pyval)
| PvError (error : string)
| PvSkipped (dependency : string).

Inductive CoOutcome := Returned (v : PlanValue) | Raised (e : PyExc).

(** A coroutine of [_execute_subtask_with_fallback]: the agents left, those attempted,
    what they answered, and its outcome once it ended. *)
Record Co := mkCo {
  co_task : string;
  co_description : string;
  co_todo : list string;
  co_attempted : list string;
  co_partial : odict pyval;
  co_outcome : option CoOutcome;
}.

Definition start_co (chains : odict (list string)) (s : SubTask) : Co :=
  mkCo (st_id s) (st_description s)
    (match st_assigned s with Some a => if decide (a = "") then [] else [a] | None => [] end ++ default [] (od_get (st_id s) chains))
    [] [] None.

(** The next candidate that is registered, and those after it. *)
Fixpoint next_agent (agents : odict Agent) (todo : list string) : option (string * Agent * list string) :=
  match todo with
  | [] => None
  | name :: rest =>
      match od_get name agents with Some agent => Some (name, agent, rest) | None => next_agent agents rest end
  end.

Definition co_try (name : string) (rest : list string) (c : Co) : Co :=
  mkCo (co_task c) (co_description c) rest (co_attempted c ++ [name]) (co_partial c) (co_outcome c).
Definition co_note (name text : string) (c : Co) : Co :=
  mkCo (co_task c) (co_description c) (co_todo c) (co_attempted c) (od_set name (VStr text) (co_partial c)) (co_outcome c).
Definition co_end (out : CoOutcome) (c : Co) : Co :=
  mkCo (co_task c) (co_description c) (co_todo c) (co_attempted c) (co_partial c) (Some out).

Definition failure_note (e : PyExc) : string := ex_type e +:+ ": " +:+ ex_msg e.

(** What an action of a coroutine does to its own subtask. *)
Abbreviation Update := (option (option Result * StepStatus)).

(** The iteration for an agent: [resolve_task_input] and [run] inside the [try]. *)
Definition attempt (fs : Factories) (name : string) (agent : Agent) (c : Co) (w : W) : W * Co * Update :=
  match resolve_class fs (class_mro agent) (co_description c) with
  | Raise x => (w, co_note name (failure_note (exc_of x)) c, None)
  | Ok task_input =>
      match run agent task_input w with
      | (w, inl r) =>
          match task_output r with
          | Some (false, error) => (w, co_note name ("unsuccessful result: " +:+ error) c, None)
          | _ => (w, co_end (Returned (PvResult r)) c, Some (Some r, StSuccess))
          end
      | (w, inr e) =>
          if is_exception e then (w, co_note name (failure_note e) c, None) else (w, co_end (Raised e) c, None)
      end
  end.

(** Up to and including the next [await]. *)
Definition co_step (fs : Factories) (agents : odict Agent) (c : Co) (w : W) : W * Co * Update :=
  match next_agent agents (co_todo c) with
  | Some (name, agent, rest) => attempt fs name agent (co_try name rest c) w
  | None =>
      match route_handoff (from_exhausted_chain py_str (co_task c) (co_attempted c) (Some (co_partial c))) w with
      | (w, inl h) => (w, co_end (Returned (PvHandoff (handoff_to_dict h))) c, Some (None, StFailed))
      | (w, inr e) => (w, co_end (Raised e) c, Some (None, StFailed))
      end
  end.

(** ** A run of the plan *)

Inductive Phase := Deciding | Gathering (batch : list string) (cos : list Co) | Finished | Crashed (e : exn).

Record Plan := mkPlan {
  pn_world : W;
  pn_subtasks : odict SubTask;
  pn_executed : gset string;
  pn_results : odict PlanValue;
  pn_trace : list (string * string);
  pn_phase : Phase;
}.

Definition on_task (k : string) (f : SubTask -> SubTask) (subtasks : odict SubTask) : odict SubTask :=
  match od_get k subtasks with Some s => od_set k (f s) subtasks | None => subtasks end.

Definition task_status (k : string) (subtasks : odict SubTask) : option StepStatus := st_status <$> od_get k subtasks.

(** *** [_skip_blocked_subtasks] *)

Definition blocking (s : StepStatus) : bool := bool_decide (s = StFailed \/ s = StSkipped).

Fixpoint blocked_by (subtasks : odict SubTask) (deps : list string) : res (option string) :=
  match deps with
  | [] => Ok None
  | dep :: rest =>
      match od_get dep subtasks with
      | Some s => if blocking (st_status s) then Ok (Some dep) else blocked_by subtasks rest
      | None => Raise (KeyError dep)
      end
  end.

(** Subtasks, executed, results and [changed] *)
Record Pass := mkPass { ps_subtasks : odict SubTask; ps_executed : gset string; ps_results : odict PlanValue; ps_changed : bool }.

Definition skip_one (acc : res Pass) (k : string) : res Pass :=
  p ← acc;
  if decide (k ∈ ps_executed p) then Ok p
  else
    match od_get k (ps_subtasks p) with
    | None => Ok p
    | Some s =>
        b ← blocked_by (ps_subtasks p) (st_dependencies s);
        match b with
        | None => Ok p
        | Some dep =>
            Ok (mkPass (on_task k (set_status StSkipped) (ps_subtasks p)) ({[k]} ∪ ps_executed p)
                  (od_set k (PvSkipped dep) (ps_results p)) true)
        end
    end.

Definition skip_pass (p : Pass) : res Pass :=
  fold_left skip_one (od_keys (ps_subtasks p)) (Ok (mkPass (ps_subtasks p) (ps_executed p) (ps_results p) false)).

Fixpoint skip_loop (fuel : nat) (p : Pass) : res Pass :=
  match fuel with
  | 0 => Raise OutOfFuel
  | S n => p ← skip_pass p; if ps_changed p then skip_loop n p else Ok p
  end%nat.

Definition skip_blocked (p : Plan) : res Pass :=
  skip_loop (S (length (pn_subtasks p))) (mkPass (pn_subtasks p) (pn_executed p) (pn_results p) true).

(** *** Batches *)

Definition find_ready (subtasks : odict SubTask) (executed : gset string) : list (string * SubTask) :=
  filter (fun kv => kv.1 ∉ executed /\ Forall (fun dep => dep ∈ executed) (st_dependencies kv.2)) subtasks.

(** The subtasks left over when nothing is ready. *)
Definition never_scheduled (p : Plan) : Plan :=
  let left := filter (fun k => k ∉ pn_executed p) (od_keys (pn_subtasks p)) in
  mkPlan (pn_world p) (fold_left (fun s k => on_task k (set_status StFailed) s) left (pn_subtasks p)) (pn_executed p)
    (fold_left (fun r k => od_set k (PvError "subtask was never scheduled") r) left (pn_results p))
    (pn_trace p) Finished.

Context (fs : Factories) (agents : odict Agent) (chains : odict (list string)) (max_parallel : Z).

(** From the head of the [while] to the [await] of [gather]. *)
Definition decide_batch (p : Plan) : Plan :=
  if decide (size (pn_executed p) < length (pn_subtasks p))%nat then
    match skip_blocked p with
    | Raise e => mkPlan (pn_world p) (pn_subtasks p) (pn_executed p) (pn_results p) (pn_trace p) (Crashed e)
    | Ok s =>
        let p := mkPlan (pn_world p) (ps_subtasks s) (ps_executed s) (ps_results s) (pn_trace p) Deciding in
        match find_ready (pn_subtasks p) (pn_executed p) with
        | [] => never_scheduled p
        | ready =>
            let batch := take (Z.to_nat max_parallel) ready in
            mkPlan (pn_world p) (pn_subtasks p) (pn_executed p) (pn_results p) (pn_trace p)
              (Gathering batch.*1 ((fun kv => start_co chains kv.2) <$> batch))
        end
    end
  else never_scheduled p.

(** The [i]-th coroutine of the batch goes on to its next [await]. *)
Definition advance (batch : list string) (cos : list Co) (i : nat) (c : Co) (p : Plan) : Plan :=
  let '(w, c', u) := co_step fs agents c (pn_world p) in
  mkPlan w (match u with Some (r, status) => on_task (co_task c) (set_outcome r status) (pn_subtasks p) | None => pn_subtasks p end)
    (pn_executed p) (pn_results p) (pn_trace p) (Gathering batch (<[i := c']> cos)).

(** [str(value)] *)
Definition value_text (v : PlanValue) : string :=
  match v with
  | PvResult r => result_text r
  | PvHandoff h => py_str (VDict h)
  | PvError error => py_str (VDict [("error", VStr error)])
  | PvSkipped dep => py_str (VDict [("skipped", VBool true); ("reason", VStr "dependency failed"); ("dependency", VStr dep)])
  end.
Definition clip200 (s : string) : string := String.substring 0 200 s.

(** An element of the gathered list: [inr] when [gather] caught an exception. *)
Definition record_item (positions : list string) (p : Plan) (index : nat) (item : string * PlanValue + PyExc) : Plan :=
  match item with
  | inr e =>
      let failed_id := match positions !! index with Some k => k | None => "unknown_" +:+ pretty index end in
      mkPlan (pn_world p)
        (match positions !! index with Some k => on_task k (set_status StFailed) (pn_subtasks p) | None => pn_subtasks p end)
        ({[failed_id]} ∪ pn_executed p) (od_set failed_id (PvError (ex_msg e)) (pn_results p))
        (pn_trace p ++ [(failed_id, clip200 (ex_msg e))]) (pn_phase p)
  | inl (task_id, v) =>
      let failed := match v with PvResult r => as_exception r | _ => None end in
      mkPlan (pn_world p)
        (match failed with Some _ => on_task task_id (set_status StFailed) (pn_subtasks p) | None => pn_subtasks p end)
        ({[task_id]} ∪ pn_executed p)
        (od_set task_id (match failed with Some text => PvError text | None => v end) (pn_results p))
        (pn_trace p ++ [(task_id, clip200 (value_text v))]) (pn_phase p)
  end.

Fixpoint record_items (positions : list string) (p : Plan) (index : nat) (items : list (string * PlanValue + PyExc)) : Plan :=
  match items with
  | [] => p
  | item :: rest => record_items positions (record_item positions p index item) (S index) rest
  end.

(** What [gather] returns once every coroutine has ended. *)
Definition gathered_item (c : Co) : option (string * PlanValue + PyExc) :=
  match co_outcome c with
  | Some (Returned v) => Some (inl (co_task c, v))
  | Some (Raised e) => Some (inr e)
  | None => None
  end.

Definition set_phase (f : Phase) (p : Plan) : Plan :=
  mkPlan (pn_world p) (pn_subtasks p) (pn_executed p) (pn_results p) (pn_trace p) f.

Definition record_batch (batch : list string) (items : list (string * PlanValue + PyExc)) (p : Plan) : Plan :=
  set_phase Deciding (record_items batch p 0 items).

(** From any plan; the theorems start from plans whose subtasks are all pending, which the first
    plan of an orchestrator is ([_parse_output] keeps the statuses of the one before). *)
Inductive ostep : Plan -> Plan -> Prop :=
| step_decide p : pn_phase p = Deciding -> ostep p (decide_batch p)
| step_advance p batch cos i c :
    pn_phase p = Gathering batch cos -> cos !! i = Some c -> co_outcome c = None -> ostep p (advance batch cos i c p)
| step_record p batch cos items :
    pn_phase p = Gathering batch cos -> mapM gathered_item cos = Some items -> ostep p (record_batch batch items p).

(** [_execute_plan] up to its loop *)
Definition start_plan (subtasks : odict SubTask) (trace : list (string * string)) (w : W) : res Plan :=
  if (max_parallel <? 1)%Z then Raise (ValueError ("max_parallel must be >= 1, got " +:+ pretty max_parallel))
  else
    match subtasks with
    | [] => Ok (mkPlan w [] ∅ [] trace Finished)
    | _ => _ ← validate_plan subtasks; Ok (mkPlan w subtasks ∅ [] trace Deciding)
    end.

(** A run that came to its end. *)
Definition ran (subtasks : odict SubTask) (trace : list (string * string)) (w : W) (p : Plan) : Prop :=
  exists p0, start_plan subtasks trace w = Ok p0 /\ rtc ostep p0 p /\ pn_phase p = Finished.

(** ** Outputs *)

(** The dicts of [subtasks]: they do not carry the dependencies. *)
Definition subtask_view (s : SubTask) : odict pyval :=
  [("id", VStr (st_id s)); ("description", VStr (st_description s));
   ("capabilities", VList ((fun t => VStr (capability_value t)) <$> st_required s))].

Record OrchestratorOutput := mkOutput {
  oo_success : bool;
  oo_error : option string;
  oo_subtasks : list (odict pyval);
  oo_assignments : odict string;
  oo_final_result : option (odict PlanValue);
  oo_trace : list (string * string);
  oo_confidence : Q;
}.

Definition unfinished (subtasks : odict SubTask) : list string :=
  (filter (fun kv => blocking (st_status kv.2) = true) subtasks).*1.

(** [output], from the subtasks, the assignments and the plan if it was run. *)
Definition output_of (views : list (odict pyval)) (assignments : odict string) (subtasks : odict SubTask)
    (final : option (odict PlanValue)) (trace : list (string * string)) : OrchestratorOutput :=
  mkOutput (bool_decide (unfinished subtasks = []))
    (match unfinished subtasks with [] => None | l => Some ("Subtasks did not complete: " +:+ join ", " l) end)
    views assignments final trace (85 # 100).

Definition failed_output (error : string) (views : list (odict pyval)) (assignments : odict string)
    (final : option (odict PlanValue)) (trace : list (string * string)) : OrchestratorOutput :=
  mkOutput false (Some error) views assignments final trace 0.

Definition exc_message (e : exn) : string :=
  match e with
  | MissingDependencyError step dep => "Step '" +:+ step +:+ "' depends on missing step '" +:+ dep +:+ "'"
  | CycleDetectedError path => "Cycle detected in DAG: " +:+ join " -> " path
  | _ => ex_msg (exc_of e)
  end.

(** [_parse_output] up to the run of the plan: an output, or what to run. *)
Definition prepare_plan (entries : list PlanEntry) (o : Orch) : res (Orch * (OrchestratorOutput + odict string)) :=
  let views := subtask_view <$> imap subtask_of entries in
  let o := with_subtasks (add_plan entries (or_subtasks o)) o in
  match validate_plan (or_subtasks o) with
  | Ok _ => let '(o, assignments) := assign_agents o in Ok (o, inr assignments)
  | Raise ((CycleDetectedError _ | MissingDependencyError _ _) as e) =>
      Ok (o, inl (failed_output ("Invalid execution plan: " +:+ exc_message e) views [] None (or_trace o)))
  | Raise e => Raise e
  end.

(** [_parse_output]: what it returns for a plan, and the state it leaves. *)
Inductive parse_output (entries : list PlanEntry) (o : Orch) (w : W) : OrchestratorOutput -> Orch -> W -> Prop :=
| parse_invalid o' out : prepare_plan entries o = Ok (o', inl out) -> parse_output entries o w out o' w
| parse_no_agents o' assignments :
    prepare_plan entries o = Ok (o', inr assignments) -> or_agents o' = [] ->
    parse_output entries o w
      (output_of (subtask_view <$> imap subtask_of entries) assignments (or_subtasks o') None (or_trace o')) o' w
| parse_run o' assignments p :
    prepare_plan entries o = Ok (o', inr assignments) -> or_agents o' ≠ [] -> agents = or_agents o' -> chains = or_chains o' ->
    ran (or_subtasks o') (or_trace o') w p ->
    parse_output entries o w
      (output_of (subtask_view <$> imap subtask_of entries) assignments (pn_subtasks p) (Some (pn_results p)) (pn_trace p))
      (mkOrch (or_agents o') (or_capabilities o') (pn_subtasks p) (or_chains o') (pn_trace p)) (pn_world p).

(** ** As a DAG *)

(** The loop of [execute_as_dag] that builds the steps, at their names and dependencies. *)
Definition dag_step_of (o : Orch) (assignments : odict string) (data : odict pyval) : option PlainStep :=
  match od_get "id" data with
  | Some (VStr id) =>
      match od_get (default "" (od_get id assignments)) (or_agents o) with
      | Some _ => Some (plain id (match od_get "dependencies" data with Some (VList l) => omap as_str l | _ => [] end))
      | None => None
      end
  | _ => None
  end.
Definition dag_of_output (task : string) (o : Orch) (out : OrchestratorOutput) : DAG PlainStep * res unit :=
  add_many (mkDAG ("orchestrated:" +:+ String.substring 0 30 task) ("DAG generated from task: " +:+ task) [])
    (omap (dag_step_of o (oo_assignments out)) (oo_subtasks out)).

(** ** Adaptive runs *)

(** [decompose_adaptive], from the JSON of the investigation *)
Definition decompose_adaptive (task : string) (data : odict pyval) (o : Orch) : Orch :=
  register_subtasks (ad_subtasks (subtasks_from_findings task (findings_of py_str task data))) o.

Definition findings_text (f : InvestigationFindings) : string :=
  py_str (VDict [("files", VList (VStr <$> files f)); ("observations", VList (VStr <$> observations f))]).

(** The output of [run_adaptive], given the run of the plan. *)
Definition adaptive_output (f : InvestigationFindings) (o : Orch) (assignments : odict string) (final : option Plan)
  : OrchestratorOutput :=
  let views := (fun kv => subtask_view kv.2) <$> or_subtasks o in
  let subtasks := match final with Some p => pn_subtasks p | None => or_subtasks o end in
  let trace := match final with Some p => pn_trace p | None => or_trace o end ++ [("investigation", findings_text f)] in
  let results := pn_results <$> final in
  match views with
  | [] => failed_output "adaptive decomposition produced no subtasks" views assignments results trace
  | _ => output_of views assignments subtasks results trace
  end.
End orchestrator.
