(* ===== verification/OrchestratorFacts.v ===== *)
(** * Correctness of the orchestrator

    Every interleaving of a batch: a subtask runs after its dependencies succeeded, at
    most [max_parallel] at once, a failure skips its dependents and nothing else, and
    the run ends with one result per subtask.  An accepted plan is never stuck. *)

From stdpp Require Import pretty.
From Stdlib Require Import QArith.
From S2P Require Import Prelude PyStr PyVal Messages Step Dag DagFacts Governance Capabilities Planning Orchestrator.
Local Open Scope nat_scope.

Section facts.
Context {W : Type} `{!GovernanceEnv W, !AgentEnv W}.
Implicit Types (subs : odict (SubTask (W := W))).

Definition task_deps (k : string) subs : list string :=
  match od_get k subs with Some s => st_dependencies s | None => [] end.

(** Subtasks are stored under their ids. *)
Definition keyed subs : Prop := NoDup (od_keys subs) /\ forall k s, od_get k subs = Some s -> st_id s = k.
Definition fresh subs : Prop := keyed subs /\ forall k s, od_get k subs = Some s -> st_status s = StPending.

(** ** Updates of one subtask *)

Lemma on_task_keys k f subs : od_keys (on_task k f subs) = od_keys subs.
Proof.
  unfold on_task. destruct (od_get k subs) eqn:E; [|done].
  rewrite od_keys_set, (proj2 (od_mem_spec k subs)); [done|by eexists].
Qed.

Lemma on_task_get k k' f subs :
  od_get k' (on_task k f subs) = if decide (k' = k) then f <$> od_get k subs else od_get k' subs.
Proof.
  unfold on_task. destruct (od_get k subs) as [s|] eqn:E.
  - rewrite od_get_set. by case_decide.
  - case_decide; [by subst|done].
Qed.

Lemma status_set k k' r status subs : k ∈ od_keys subs ->
  task_status k' (on_task k (set_outcome r status) subs) = if decide (k' = k) then Some status else task_status k' subs.
Proof.
  intros [s Hs]%od_get_is_Some. unfold task_status. rewrite on_task_get. case_decide; [|done]. by rewrite Hs.
Qed.

Lemma deps_set k k' r status subs : task_deps k' (on_task k (set_outcome r status) subs) = task_deps k' subs.
Proof.
  unfold task_deps. rewrite on_task_get. case_decide; [subst|done]. by destruct (od_get k subs).
Qed.

Lemma status_is_Some k subs : is_Some (task_status k subs) <-> k ∈ od_keys subs.
Proof. unfold task_status. by rewrite fmap_is_Some, od_get_is_Some. Qed.

(** ** The plan as a DAG *)

Lemma add_all (d : DAG PlainStep) (l : list PlainStep) :
  NoDup (names d ++ (step_name <$> l)) ->
  exists d', add_many d l = (d', Ok tt) /\ dag_steps d' = dag_steps d ++ ((fun s => (step_name s, s)) <$> l).
Proof.
  revert d. induction l as [|s l IH]; intros d Hnd; cbn [add_many].
  { exists d. split; [done|]. by rewrite app_nil_r. }
  assert (step_name s ∉ names d) as Hs.
  { intros Hin. rewrite fmap_cons in Hnd. apply NoDup_app in Hnd as (_ & H & _). apply (H _ Hin). left. }
  unfold add. rewrite (proj1 (not_true_iff_false (od_mem (step_name s) (dag_steps d)))).
  2:{ intros [x Hx]%od_mem_spec. apply Hs. by apply od_get_is_Some; eexists. }
  destruct (IH (mkDAG (dag_name d) (dag_description d) (od_set (step_name s) s (dag_steps d)))) as (d' & -> & Hd').
  { unfold names. cbn [dag_steps]. rewrite od_set_fresh by done. unfold od_keys. rewrite fmap_app, <- (assoc_L (++)). by rewrite fmap_cons in Hnd. }
  exists d'. split; [done|]. rewrite Hd'. cbn [dag_steps]. rewrite od_set_fresh by done. by rewrite <- (assoc_L (++)), fmap_cons.
Qed.

Lemma keyed_names subs : keyed subs -> (fun s => (step_name s, s)) <$> (plain_step <$> subs.*2) = (fun kv => (kv.1, plain_step kv.2)) <$> subs.
Proof.
  intros [Hnd Hid]. rewrite <- !list_fmap_compose. apply list_fmap_ext. intros i [k s] Hi. cbn. f_equal. apply Hid.
  apply od_get_of_elem; [done|]. by eapply list_elem_of_lookup_2.
Qed.

Lemma od_get_map {A B} (f : A -> B) k (d : odict A) : od_get k ((fun kv => (kv.1, f kv.2)) <$> d) = f <$> od_get k d.
Proof. induction d as [|[k' v] d IH]; csimpl; [done|]. by case_decide. Qed.

Lemma plan_dag_spec subs : keyed subs ->
  exists d, plan_dag subs = (d, Ok tt) /\ wf_dag d /\ names d = od_keys subs /\ forall k, deps d k = task_deps k subs.
Proof.
  intros Hk. pose proof (keyed_names subs Hk) as Hn. unfold plan_dag.
  assert (step_name <$> (plain_step <$> subs.*2) = od_keys subs) as Hkeys.
  { trans (((fun s => (step_name s, s)) <$> (plain_step <$> subs.*2)).*1).
    - rewrite <- !list_fmap_compose. by apply list_fmap_ext.
    - rewrite Hn. unfold od_keys. rewrite <- list_fmap_compose. by apply list_fmap_ext. }
  destruct (add_all (mkDAG "orchestrator-plan" "" []) (plain_step <$> subs.*2)) as (d & -> & Hd).
  { change (NoDup (step_name <$> (plain_step <$> subs.*2))). rewrite Hkeys. apply Hk. }
  cbn [dag_steps app] in Hd. rewrite Hn in Hd. exists d. split; [done|].
  assert (names d = od_keys subs) as Hnames.
  { unfold names, od_keys. rewrite Hd, <- list_fmap_compose. by apply list_fmap_ext. }
  split; [unfold wf_dag; rewrite Hnames; apply Hk|]. split; [done|].
  intros k. unfold deps, task_deps. rewrite Hd, od_get_map. by destruct (od_get k subs).
Qed.

(** What validation gives: the dependencies are subtasks, and can be ordered. *)
Record orderly subs : Prop := {
  ord_closed : forall x y, y ∈ task_deps x subs -> y ∈ od_keys subs;
  ord_rank : exists rank : string -> nat, forall x y, y ∈ task_deps x subs -> rank y < rank x;
}.

Lemma validated_orderly subs : keyed subs -> validate_plan subs = Ok tt -> orderly subs.
Proof.
  intros Hk Hv. destruct subs as [|kv l] eqn:E.
  { split; [by intros x y ?%elem_of_nil|]. exists (fun _ => 0). by intros x y ?%elem_of_nil. }
  rewrite <- E in *. destruct (plan_dag_spec subs Hk) as (d & Hd & Hwf & Hn & Hdeps).
  assert (validate d = Ok tt) as Hval.
  { revert Hv. unfold validate_plan. rewrite E. rewrite <- E, Hd. done. }
  destruct (validate_ok d Hwf Hval) as (Hcl & order & Ho). split.
  - intros x y. rewrite <- Hdeps, <- Hn. apply Hcl.
  - exists (fun x => pos x order). intros x y. rewrite <- Hdeps. by apply topological_rank.
Qed.

(** ** The invariant *)
Section run.
Context (fs : Factories) (agents : odict Agent) (chains : odict (list string)) (max_parallel : Z).
Context (subs0 : odict (SubTask (W := W))) (Hfresh : fresh subs0) (Hord : orderly subs0) (Hmax : (1 <= max_parallel)%Z).

Let K := od_keys subs0.
Let D k := task_deps k subs0.
Abbreviation ostep := (ostep fs agents chains max_parallel).

Definition settled (s : StepStatus) : Prop := s = StSuccess \/ s = StFailed \/ s = StSkipped.
Definition succeeded (st : string -> option StepStatus) (E : gset string) (k : string) : Prop :=
  k ∈ E /\ st k = Some StSuccess.

(** A result the fallback accepts: not a [TaskOutput] that says it failed.  And what a value of
    the results says of its subtask. *)
Definition accepted (r : Result) : Prop := forall error, task_output r <> Some (false, error).
Definition answers (st : option StepStatus) (v : PlanValue (W := W)) : Prop :=
  match v with
  | PvResult r => st = Some StSuccess /\ accepted r /\ as_exception r = None
  | PvHandoff _ | PvError _ => st = Some StFailed
  | PvSkipped _ => st = Some StSkipped
  end.

(** Statuses [st], executed [E] and results [R], while the subtasks [A] are in flight. *)
Record core (st : string -> option StepStatus) (E : gset string) (R : odict (PlanValue (W := W))) (A : list string) : Prop := {
  c_dom : forall k, is_Some (st k) <-> k ∈ K;
  c_exec : forall k, k ∈ E -> k ∈ K;
  c_res : forall k, is_Some (od_get k R) <-> k ∈ E;
  c_nodup : NoDup (od_keys R);
  c_settled : forall k, k ∈ E -> exists s, st k = Some s /\ settled s;
  c_pending : forall k, k ∈ K -> k ∉ E -> k ∉ A -> st k = Some StPending;
  c_ran : forall k s, st k = Some s -> s = StSuccess \/ s = StFailed -> forall d, d ∈ D k -> succeeded st E d;
  c_skip : forall k, st k = Some StSkipped -> k ∈ E /\ exists d s, d ∈ D k /\ d ∈ E /\ st d = Some s /\
             blocking s = true /\ od_get k R = Some (PvSkipped d);
  c_active : forall k, k ∈ A -> k ∈ K /\ k ∉ E /\ st k ≠ Some StSkipped /\ forall d, d ∈ D k -> succeeded st E d;
  c_vals : forall k v, od_get k R = Some v -> answers (st k) v;
}.

Record shape subs : Prop := {
  sh_keys : od_keys subs = K;
  sh_deps : forall k, task_deps k subs = D k;
  sh_keyed : keyed subs;
}.

Lemma shape_set k r status subs : shape subs -> shape (on_task k (set_outcome r status) subs).
Proof.
  intros [Hk Hd [Hnd Hid]]. split; [by rewrite on_task_keys|intros; by rewrite deps_set|]. split; [by rewrite on_task_keys|].
  intros k' s. rewrite on_task_get. case_decide; [subst|apply Hid]. intros (s' & Hs' & ->)%fmap_Some. by apply Hid in Hs'.
Qed.

Lemma shape_status k k' r status subs : shape subs -> k ∈ K ->
  task_status k' (on_task k (set_outcome r status) subs) = if decide (k' = k) then Some status else task_status k' subs.
Proof. intros Hs Hk. apply status_set. by rewrite (sh_keys _ Hs). Qed.

Lemma core_ext st st' E R A : (forall k, st' k = st k) -> core st E R A -> core st' E R A.
Proof.
  intros Heq Hc. destruct Hc. unfold succeeded in *. split; try done.
  - intros k. by rewrite Heq.
  - intros k Hk. rewrite Heq. eauto.
  - intros k Hk HE HA. rewrite Heq. eauto.
  - intros k s. rewrite Heq. intros Hst Hs d Hd. unfold succeeded. rewrite Heq. eauto.
  - intros k. rewrite Heq. intros Hst. destruct (c_skip0 _ Hst) as (? & d & s & ? & ? & ? & ? & ?). split; [done|].
    exists d, s. by rewrite Heq.
  - intros k HA. rewrite Heq. destruct (c_active0 _ HA) as (? & ? & ? & Hd). split_and!; [done..|]. intros d Hd'. unfold succeeded. rewrite Heq. eauto.
  - intros k v. rewrite Heq. eauto.
Qed.

(** A subtask in flight settles. *)
Lemma core_set st st' E R A k s : core st E R A -> k ∈ A -> s = StSuccess \/ s = StFailed ->
  (forall k', st' k' = if decide (k' = k) then Some s else st k') -> core st' E R A.
Proof.
  intros Hc Hk Hs Hst'. destruct (c_active _ _ _ _ Hc k Hk) as (HkK & HkE & _ & Hdeps).
  assert (forall x, x ∈ E -> st' x = st x) as HE by (intros x Hx; rewrite Hst', decide_False; [done|by intros ->]).
  assert (forall x, succeeded st E x -> succeeded st' E x) as Hsucc.
  { intros x [HxE Hx]. split; [done|]. by rewrite HE. }
  destruct Hc. split; try done.
  - intros x. rewrite Hst'. case_decide; [subst; split; [done|by eexists]|done].
  - intros x Hx. rewrite HE by done. eauto.
  - intros x HxK HxE HxA. rewrite Hst', decide_False by (by intros ->). eauto.
  - intros x s' Hx Hs' d Hd. apply Hsucc. rewrite Hst' in Hx. case_decide; [subst; eauto|eauto].
  - intros x Hx. rewrite Hst' in Hx. case_decide; [subst; destruct Hs; congruence|].
    destruct (c_skip0 x Hx) as (HxE & d & sd & ? & HdE & ? & ? & ?). split; [done|]. exists d, sd. by rewrite HE.
  - intros x HxA. destruct (c_active0 x HxA) as (? & ? & ? & ?). split_and!; [done|done| |by eauto].
    rewrite Hst'. case_decide; [destruct Hs; congruence|done].
  - intros x v Hx. rewrite HE; [eauto|]. apply c_res0. by eexists.
Qed.

(** A settled subtask is recorded. *)
Lemma core_record st E R A k v s : core st E R (k :: A) -> k ∉ A -> st k = Some s -> s = StSuccess \/ s = StFailed -> answers (Some s) v ->
  core st ({[k]} ∪ E) (od_set k v R) A.
Proof.
  intros Hc HkA Hk Hs Hv. destruct (c_active _ _ _ _ Hc k ltac:(left)) as (HkK & HkE & _ & Hdeps).
  destruct Hc. split; try done.
  - set_solver.
  - intros x. rewrite od_get_set, elem_of_union, elem_of_singleton, <- c_res0. case_decide; [|naive_solver].
    split; [by left|by eexists].
  - by apply NoDup_od_set.
  - intros x [->%elem_of_singleton|Hx]%elem_of_union; [|eauto]. exists s. unfold settled. naive_solver.
  - intros x HxK HxE HxA. apply c_pending0; set_solver.
  - intros x sx Hx Hsx d Hd. destruct (c_ran0 x sx Hx Hsx d Hd). split; [set_solver|done].
  - intros x Hx. destruct (c_skip0 x Hx) as (HxE & d & sd & ? & HdE & ? & ? & ?). split; [set_solver|]. exists d, sd.
    rewrite od_get_set_ne by (by intros ->). split_and!; try done. set_solver.
  - intros x HxA. destruct (c_active0 x ltac:(by right)) as (? & ? & ? & Hd). split_and!; [done| |done|].
    + apply not_elem_of_union. split; [|done]. apply not_elem_of_singleton. by intros ->.
    + intros d Hdx. destruct (Hd d Hdx). split; [set_solver|done].
  - intros x vx. rewrite od_get_set. case_decide; [intros [= <-]; subst; by rewrite Hk|eauto].
Qed.

(** A blocked subtask is skipped. *)
Lemma core_skip st st' E R k d s : core st E R [] -> k ∈ K -> k ∉ E -> d ∈ D k -> st d = Some s -> blocking s = true ->
  (forall k', st' k' = if decide (k' = k) then Some StSkipped else st k') ->
  core st' ({[k]} ∪ E) (od_set k (PvSkipped d) R) [].
Proof.
  intros Hc HkK HkE Hd Hs Hb Hst'.
  assert (d ∈ E) as HdE.
  { destruct (decide (d ∈ E)) as [|HdE]; [done|]. exfalso.
    rewrite (c_pending _ _ _ _ Hc d) in Hs; [by injection Hs as <-| |done|apply not_elem_of_nil].
    by apply (ord_closed _ Hord k). }
  assert (forall x, x ∈ E -> st' x = st x) as HE by (intros x Hx; rewrite Hst', decide_False; [done|by intros ->]).
  destruct Hc. split.
  - intros x. rewrite Hst'. case_decide; [subst; split; [done|by eexists]|done].
  - set_solver.
  - intros x. rewrite od_get_set, elem_of_union, elem_of_singleton, <- c_res0. case_decide; [|naive_solver].
    split; [by left|by eexists].
  - by apply NoDup_od_set.
  - intros x. rewrite Hst', elem_of_union, elem_of_singleton. case_decide.
    + intros _. exists StSkipped. split; [done|]. by right; right.
    + intros [?|?]; [done|eauto].
  - intros x HxK HxE _. rewrite Hst', decide_False by set_solver. apply c_pending0; [done|set_solver|apply not_elem_of_nil].
  - intros x sx Hx Hsx dx Hdx. rewrite Hst' in Hx. case_decide; [naive_solver|].
    destruct (c_ran0 x sx Hx Hsx dx Hdx) as [HxE' ?]. split; [set_solver|]. by rewrite HE.
  - intros x Hx. rewrite Hst' in Hx. case_decide as Hxk.
    + subst x. split; [set_solver|]. exists d, s. rewrite HE, od_get_set_eq by done. split_and!; try done. set_solver.
    + destruct (c_skip0 x Hx) as (HxE & dx & sd & ? & HdxE & ? & ? & ?). split; [set_solver|]. exists dx, sd.
      rewrite HE, od_get_set_ne by done. split_and!; try done. set_solver.
  - intros x ?%elem_of_nil. done.
  - intros x v. rewrite od_get_set. case_decide as Hx; [intros [= <-]; subst; by rewrite Hst', decide_True|].
    intros Hv. rewrite Hst', decide_False by done. eauto.
Qed.

Lemma core_init : core (fun k => task_status k subs0) ∅ [] [].
Proof.
  assert (forall k s, task_status k subs0 = Some s -> s = StPending) as Hp.
  { intros k s (t & Ht & ->)%fmap_Some. by apply (proj2 Hfresh) in Ht. }
  split.
  - intros k. apply status_is_Some.
  - set_solver.
  - intros k. split; [by intros [? ?]|set_solver].
  - constructor.
  - set_solver.
  - intros k Hk _ _. apply status_is_Some in Hk as [s Hs]. rewrite Hs. f_equal. eauto.
  - intros k s ->%Hp. naive_solver.
  - intros k ?%Hp. done.
  - by intros k ?%elem_of_nil.
  - done.
Qed.

(** ** The skip pass *)

Abbreviation status_in subs := (fun k => task_status k subs).
Definition pass_ok (p : Pass (W := W)) : Prop :=
  shape (ps_subtasks p) /\ core (status_in (ps_subtasks p)) (ps_executed p) (ps_results p) [].

Lemma executed_bound st E R A : core st E R A -> size E <= length K.
Proof.
  intros Hc. rewrite <- (size_list_to_set (C := gset string) K) by apply Hfresh. apply subseteq_size.
  intros k Hk. apply elem_of_list_to_set. by eapply c_exec.
Qed.

Lemma blocked_by_spec subs ds : (forall d, d ∈ ds -> d ∈ od_keys subs) ->
  exists b, blocked_by subs ds = Ok b /\
    match b with
    | Some d => d ∈ ds /\ exists s, task_status d subs = Some s /\ blocking s = true
    | None => forall d s, d ∈ ds -> task_status d subs = Some s -> blocking s = false
    end.
Proof.
  induction ds as [|d ds IH]; intros Hin; cbn [blocked_by].
  { exists None. split; [done|]. by intros d s ?%elem_of_nil. }
  destruct (od_get d subs) as [t|] eqn:Et.
  2:{ exfalso. apply od_get_None in Et. apply Et, Hin. left. }
  destruct (blocking (st_status t)) eqn:Eb.
  { exists (Some d). split; [done|]. split; [left|]. exists (st_status t). unfold task_status. by rewrite Et. }
  destruct IH as (b & Hb & Hspec); [intros; apply Hin; by right|]. exists b. split; [done|]. destruct b as [x|].
  - destruct Hspec. split; [by right|done].
  - intros x s [->|Hx]%elem_of_cons Hs; [|eauto]. unfold task_status in Hs. rewrite Et in Hs. by injection Hs as <-.
Qed.

Definition unblocked (p : Pass (W := W)) (k : string) : Prop :=
  k ∈ ps_executed p \/ forall d s, d ∈ D k -> task_status d (ps_subtasks p) = Some s -> blocking s = false.
Definition progressed (p p' : Pass (W := W)) : Prop :=
  ps_changed p' = true /\ size (ps_executed p) < size (ps_executed p').

Lemma skip_one_spec p k : pass_ok p -> k ∈ K ->
  exists p', skip_one (Ok p) k = Ok p' /\ pass_ok p' /\ ps_executed p ⊆ ps_executed p' /\ (p' = p /\ unblocked p k \/ progressed p p').
Proof.
  intros [Hsh Hc] Hk. cbn [skip_one mbind res_bind]. case_decide as HkE.
  { exists p. split_and!; [done..|]. left. split; [done|by left]. }
  pose proof (sh_deps _ Hsh k) as Hdeps. unfold task_deps in Hdeps.
  destruct (od_get k (ps_subtasks p)) as [s|] eqn:Es.
  2:{ exfalso. apply od_get_None in Es. by rewrite (sh_keys _ Hsh) in Es. }
  destruct (blocked_by_spec (ps_subtasks p) (st_dependencies s)) as (b & -> & Hb).
  { intros d Hd. rewrite (sh_keys _ Hsh). apply (ord_closed _ Hord k). by rewrite Hdeps in Hd. }
  cbn [mbind res_bind]. rewrite Hdeps in Hb. destruct b as [d|].
  - destruct Hb as (Hd & sd & Hsd & Hbl). eexists. split; [done|]. split; [split|].
    + by apply shape_set.
    + eapply core_skip; [done..|]. intros k'. by apply shape_status.
    + cbn. split; [set_solver|]. right. split; [done|]. cbn. rewrite size_union by set_solver. rewrite size_singleton. lia.
  - exists p. split_and!; [done..|]. left. split; [done|]. right. intros d sd. apply Hb.
Qed.

Lemma skip_fold_spec l p : pass_ok p -> l ⊆ K ->
  exists p', fold_left skip_one l (Ok p) = Ok p' /\ pass_ok p' /\ ps_executed p ⊆ ps_executed p' /\
    (p' = p /\ (forall k, k ∈ l -> unblocked p k) \/ progressed p p').
Proof.
  revert p. induction l as [|k l IH]; intros p Hp Hl; cbn [fold_left].
  { exists p. split_and!; [done..|]. left. split; [done|]. by intros k ?%elem_of_nil. }
  destruct (skip_one_spec p k Hp) as (p1 & -> & Hp1 & HE1 & Hcase); [apply Hl; left|].
  destruct (IH p1 Hp1) as (p2 & -> & Hp2 & HE2 & Hcase2); [set_solver|]. exists p2. split_and!; [done..|set_solver|].
  destruct Hcase as [[-> Hk]|[Hch Hsz]], Hcase2 as [[-> Hl2]|[Hch2 Hsz2]].
  - left. split; [done|]. by intros x [->|Hx]%elem_of_cons; [|apply Hl2].
  - by right.
  - by right.
  - right. split; [done|]. lia.
Qed.

Lemma skip_loop_spec fuel p : pass_ok p -> length K - size (ps_executed p) < fuel ->
  exists p', skip_loop fuel p = Ok p' /\ pass_ok p' /\ ps_executed p ⊆ ps_executed p' /\ forall k, k ∈ K -> unblocked p' k.
Proof.
  revert p. induction fuel as [|fuel IH]; intros p Hp Hfuel; [lia|]. cbn [skip_loop]. unfold skip_pass.
  destruct (skip_fold_spec (od_keys (ps_subtasks p)) (mkPass (ps_subtasks p) (ps_executed p) (ps_results p) false))
    as (p1 & -> & Hp1 & HE1 & Hcase); [done|by rewrite (sh_keys _ (proj1 Hp))|]. cbn [mbind res_bind].
  destruct Hcase as [[-> Hun]|[-> Hsz]]; cbn [ps_changed].
  - eexists. split_and!; [done..|]. intros k Hk. apply Hun. by rewrite (sh_keys _ (proj1 Hp)).
  - cbn [ps_executed] in *. destruct (IH p1 Hp1) as (p2 & -> & Hp2 & HE2 & Hun).
    { pose proof (executed_bound _ _ _ _ (proj2 Hp1)). lia. }
    exists p2. split_and!; [done..|set_solver|done].
Qed.

(** ** Coroutines *)

Definition co_ok subs (c : Co (W := W)) : Prop :=
  match co_outcome c with
  | None => task_status (co_task c) subs = Some StPending
  | Some (Returned (PvResult r)) => task_status (co_task c) subs = Some StSuccess /\ accepted r
  | Some (Returned (PvHandoff _)) => task_status (co_task c) subs = Some StFailed
  | Some (Returned _) => False
  | Some (Raised _) => task_status (co_task c) subs = Some StPending \/ task_status (co_task c) subs = Some StFailed
  end.

Definition co_cost (c : Co (W := W)) : nat := match co_outcome c with None => S (length (co_todo c)) | Some _ => 0 end.

Lemma next_agent_spec todo name agent rest : next_agent agents todo = Some (name, agent, rest) ->
  exists pre, todo = pre ++ name :: rest /\ Forall (fun n => od_get n agents = None) pre /\ od_get name agents = Some agent.
Proof.
  induction todo as [|n todo IH]; cbn [next_agent]; [done|]. destruct (od_get n agents) as [a|] eqn:Ea.
  - intros [= <- <- <-]. by exists [].
  - intros H. destruct (IH H) as (pre & -> & Hpre & Ha). exists (n :: pre). by split; [|split; [constructor|]].
Qed.

Lemma co_step_spec c w w' c' u : co_outcome c = None -> co_step fs agents c w = (w', c', u) ->
  co_task c' = co_task c /\ co_cost c' < co_cost c /\
  match u with
  | None => co_outcome c' = None \/ exists e, co_outcome c' = Some (Raised e)
  | Some (_, s) => s = StSuccess /\ (exists r, co_outcome c' = Some (Returned (PvResult r)) /\ accepted r) \/
                   s = StFailed /\ ((exists h, co_outcome c' = Some (Returned (PvHandoff h))) \/ exists e, co_outcome c' = Some (Raised e))
  end.
Proof.
  intros Ho. unfold co_step. destruct (next_agent agents (co_todo c)) as [[[name agent] rest]|] eqn:En.
  - apply next_agent_spec in En as (pre & Htodo & _). unfold attempt.
    assert (forall c1, co_outcome c1 = None -> co_todo c1 = rest -> co_cost c1 < co_cost c) as Hless.
    { intros c1 H1 H2. unfold co_cost. rewrite H1, H2, Ho, Htodo, length_app. cbn [length]. lia. }
    assert (forall c1 out, co_cost (co_end out c1) < co_cost c) as Hend by (intros; unfold co_cost; rewrite Ho; cbn; lia).
    destruct (resolve_class _ _ _) as [ti|x]; [destruct (run agent ti w) as [w1 [r|e]]|].
    + destruct (task_output r) as [[[] error]|] eqn:Et; intros [= <- <- <-]; (split; [done|]; split; [by apply Hend || by apply Hless|]); cbn; try (by left).
      all: left; split; [done|]; exists r; split; [done|]; intros error'; congruence.
    + destruct (is_exception e); intros [= <- <- <-]; (split; [done|]; split; [by apply Hend || by apply Hless|]); cbn; eauto.
    + intros [= <- <- <-]. split; [done|]. split; [by apply Hless|]. by left.
  - assert (forall c1 out, co_cost (co_end out c1) < co_cost c) as Hend by (intros; unfold co_cost; rewrite Ho; cbn; lia).
    destruct (route_handoff _ w) as [w1 [h|e]]; intros [= <- <- <-]; (split; [done|]; split; [apply Hend|]); cbn; eauto 6.
Qed.

Lemma co_ok_ext subs subs' c : task_status (co_task c) subs' = task_status (co_task c) subs -> co_ok subs c -> co_ok subs' c.
Proof. unfold co_ok. by intros ->. Qed.

(** ** The plan *)

Definition phase_ok (p : Plan) : Prop :=
  let Core := core (status_in (pn_subtasks p)) (pn_executed p) (pn_results p) in
  match pn_phase p with
  | Deciding => Core []
  | Gathering batch cos =>
      Core batch /\ batch = co_task <$> cos /\ NoDup batch /\ 0 < length cos <= Z.to_nat max_parallel /\
      Forall (co_ok (pn_subtasks p)) cos
  | Finished => Core [] /\ forall k, k ∈ K -> k ∈ pn_executed p
  | Crashed _ => False
  end.
Definition plan_ok (p : Plan) : Prop := shape (pn_subtasks p) /\ phase_ok p.

Lemma core_activate st E R A : core st E R [] ->
  (forall k, k ∈ A -> k ∈ K /\ k ∉ E /\ forall d, d ∈ D k -> succeeded st E d) -> core st E R A.
Proof.
  intros Hc HA. destruct Hc. split; try done.
  - intros k Hk HE _. apply c_pending0; [done..|apply not_elem_of_nil].
  - intros k Hk. destruct (HA k Hk) as (HkK & HkE & Hd). split_and!; [done..| |done].
    rewrite (c_pending0 k HkK HkE (not_elem_of_nil k)). done.
Qed.

Lemma never_scheduled_all p : shape (pn_subtasks p) -> (forall k, k ∈ K -> k ∈ pn_executed p) ->
  never_scheduled p = set_phase Finished p.
Proof.
  intros Hsh Hall. unfold never_scheduled, set_phase. rewrite (sh_keys _ Hsh).
  enough (filter (fun k => k ∉ pn_executed p) K = []) as -> by done.
  apply elem_of_nil_inv. intros k [? ?]%list_elem_of_filter. auto.
Qed.

(** *** Deciding *)

Lemma elem_of_find_ready subs E k s : shape subs -> (k, s) ∈ find_ready subs E ->
  k ∈ K /\ k ∉ E /\ st_id s = k /\ (forall d, d ∈ D k -> d ∈ E).
Proof.
  intros Hsh [[HkE Hdeps] Hin]%list_elem_of_filter. cbn in HkE, Hdeps.
  apply (od_get_of_elem _ _ _ (proj1 (sh_keyed _ Hsh))) in Hin. split_and!; [|done|by apply (sh_keyed _ Hsh)|].
  - rewrite <- (sh_keys _ Hsh). by apply od_get_is_Some; eexists.
  - intros d. rewrite <- (sh_deps _ Hsh k). unfold task_deps. rewrite Hin. rewrite Forall_forall in Hdeps. apply Hdeps.
Qed.

(** While something is left, something is ready. *)

Lemma ready_or_done subs E : shape subs -> find_ready subs E = [] -> forall k, k ∈ K -> k ∈ E.
Proof.
  intros Hsh Hnil. destruct (ord_rank _ Hord) as [rank Hrank].
  assert (forall n k, rank k < n -> k ∈ K -> k ∈ E) as Hall; [|intros k; by apply (Hall (S (rank k))); lia].
  induction n as [|n IH]; intros k Hn Hk; [lia|]. destruct (decide (k ∈ E)) as [|HkE]; [done|]. exfalso.
  assert (k ∈ od_keys subs) as [s Hs]%od_get_is_Some by by rewrite (sh_keys _ Hsh).
  apply (not_elem_of_nil (k, s)). rewrite <- Hnil. apply list_elem_of_filter. split; [|by apply od_get_elem]. split; [done|].
  cbn. apply Forall_forall. intros d Hd. assert (d ∈ D k) as HdD by (rewrite <- (sh_deps _ Hsh k); unfold task_deps; by rewrite Hs).
  apply IH; [|by apply (ord_closed _ Hord k)]. pose proof (Hrank k d HdD). lia.
Qed.

Lemma all_executed st E R A subs : core st E R A -> shape subs -> ¬ size E < length subs -> forall k, k ∈ K -> k ∈ E.
Proof.
  intros Hc Hsh Hsz k Hk. assert (E ≡ list_to_set (C := gset string) K) as HE.
  { apply set_subseteq_size_equiv.
    - intros x Hx. apply elem_of_list_to_set. by eapply c_exec.
    - rewrite size_list_to_set by apply Hfresh. rewrite <- (sh_keys _ Hsh). unfold od_keys. rewrite length_fmap. lia. }
  rewrite HE. by apply elem_of_list_to_set.
Qed.

Lemma start_co_task kv : st_id kv.2 = kv.1 -> co_task (start_co (W := W) chains kv.2) = kv.1.
Proof. done. Qed.

Lemma ready_nodup subs E : shape subs -> NoDup (find_ready subs E).*1.
Proof. intros Hsh. apply (NoDup_od_filter _ subs). apply Hsh. Qed.

Lemma decide_ok p : plan_ok p -> pn_phase p = Deciding ->
  plan_ok (decide_batch chains max_parallel p) /\ pn_executed p ⊆ pn_executed (decide_batch chains max_parallel p) /\
  pn_phase (decide_batch chains max_parallel p) ≠ Deciding.
Proof.
  intros [Hsh Hph] Hdec. unfold phase_ok in Hph. rewrite Hdec in Hph. unfold decide_batch. case_decide as Hsz.
  2:{ pose proof (all_executed _ _ _ _ _ Hph Hsh Hsz) as Hall. rewrite never_scheduled_all by done.
      split; [split; [done|by split]|done]. }
  destruct (skip_loop_spec (S (length (pn_subtasks p))) (mkPass (pn_subtasks p) (pn_executed p) (pn_results p) true))
    as (q & Hq & [Hsh' Hc'] & HE & Hun); [done|cbn; rewrite <- (sh_keys _ Hsh); unfold od_keys; rewrite length_fmap; lia|].
  unfold skip_blocked. rewrite Hq. cbn in HE. cbn [pn_subtasks pn_executed].
  destruct (find_ready (ps_subtasks q) (ps_executed q)) as [|kv ready] eqn:Er.
  - rewrite never_scheduled_all; [|done|by apply (ready_or_done _ _ Hsh')]. split; [split; [done|split; [done|]]|done].
    by apply (ready_or_done _ _ Hsh').
  - set (batch := take (Z.to_nat max_parallel) (kv :: ready)).
    assert (forall x, x ∈ batch -> x ∈ find_ready (ps_subtasks q) (ps_executed q)) as Hsub.
    { intros x (i & Hi & _)%elem_of_take. rewrite Er. by eapply list_elem_of_lookup_2. }
    assert (batch.*1 = co_task <$> ((fun kv => start_co chains kv.2) <$> batch)) as Htasks.
    { rewrite <- list_fmap_compose. apply list_fmap_ext. intros i x Hx. cbn.
      destruct x as [k s]. apply list_elem_of_lookup_2, Hsub in Hx. symmetry. by apply elem_of_find_ready in Hx as (_ & _ & ? & _). }
    split; [|done]. split; [done|]. unfold phase_ok. cbn [pn_phase pn_subtasks pn_executed pn_results]. split_and!.
    + apply core_activate; [done|]. intros k ([k' s] & -> & Hk)%list_elem_of_fmap. cbn.
      apply Hsub, elem_of_find_ready in Hk as (HkK & HkE & _ & Hd); [|done]. split_and!; [done..|]. intros d HdD.
      pose proof (Hd d HdD) as HdE. split; [done|]. destruct (c_settled _ _ _ _ Hc' d HdE) as (sd & Hsd & Hset).
      destruct (Hun k' HkK) as [|Hnb]; [done|]. pose proof (Hnb d sd HdD Hsd) as Hb. rewrite Hsd. f_equal.
      destruct Hset as [->|[->| ->]]; done.
    + done.
    + unfold batch. rewrite fmap_take. eapply sublist_NoDup; [|apply sublist_take]. rewrite <- Er. by apply ready_nodup.
    + unfold batch. rewrite length_fmap, length_take. cbn [length]. lia.
    + unfold batch. rewrite length_fmap, length_take. lia.
    + apply Forall_fmap, Forall_forall. intros [k s] Hk. apply Hsub, elem_of_find_ready in Hk as (HkK & HkE & Hid & _); [|done].
      unfold co_ok. cbn. rewrite Hid. apply (c_pending _ _ _ _ Hc'); [done..|apply not_elem_of_nil].
Qed.

(** *** Advancing one coroutine *)

Definition cost (cos : list (Co (W := W))) : nat := sum_list (co_cost <$> cos).

Lemma cost_insert cos i c c' : cos !! i = Some c -> co_cost c' < co_cost c -> cost (<[i:=c']> cos) < cost cos.
Proof.
  intros Hi Hlt. rewrite <- (take_drop_middle cos i c Hi) at 2. unfold cost.
  rewrite insert_take_drop by by eapply lookup_lt_Some.
  rewrite !fmap_app, !fmap_cons. generalize (co_cost <$> take i cos), (co_cost <$> drop (S i) cos). intros l1 l2.
  induction l1 as [|n l1 IH]; cbn [app sum_list_with] in *; unfold id in *; lia.
Qed.

Lemma advance_ok batch cos i c p :
  plan_ok p -> pn_phase p = Gathering batch cos -> cos !! i = Some c -> co_outcome c = None ->
  let p' := advance fs agents batch cos i c p in
  plan_ok p' /\ pn_executed p' = pn_executed p /\ exists cos', pn_phase p' = Gathering batch cos' /\ cost cos' < cost cos.
Proof.
  intros [Hsh Hph] Hg Hi Ho. unfold phase_ok in Hph. rewrite Hg in Hph. destruct Hph as (Hc & -> & Hnd & Hlen & Hcos).
  unfold advance. destruct (co_step fs agents c (pn_world p)) as [[w c'] u] eqn:Hstep.
  destruct (co_step_spec _ _ _ _ _ Ho Hstep) as (Htask & Hcost & Hu). cbn zeta.
  split; [|split; [done|eexists; split; [done|by eapply cost_insert]]].
  assert (co_task c ∈ co_task <$> cos) as Hin by (apply list_elem_of_fmap; exists c; split; [done|by eapply list_elem_of_lookup_2]).
  pose proof (proj1 (c_active _ _ _ _ Hc _ Hin)) as HcK.
  assert (co_task <$> <[i:=c']> cos = co_task <$> cos) as Hmap.
  { rewrite list_fmap_insert, Htask. apply list_insert_id. rewrite list_lookup_fmap, Hi. done. }
  assert (forall subs', (forall k, k ≠ co_task c -> task_status k subs' = task_status k (pn_subtasks p)) -> co_ok subs' c' ->
            Forall (co_ok subs') (<[i:=c']> cos)) as Hcos'.
  { intros subs' Hsame Hc'. rewrite Forall_lookup in Hcos |- *. intros j x.
    rewrite list_lookup_insert_Some. intros [(<- & <- & _)|[Hne Hj]]; [done|]. apply (co_ok_ext (pn_subtasks p)); [|by eapply Hcos].
    apply Hsame. intros Heq. apply Hne. eapply (NoDup_lookup _ _ _ (co_task c) Hnd); rewrite list_lookup_fmap; [by rewrite Hi|by rewrite Hj, <- Heq]. }
  rewrite Forall_lookup in Hcos. pose proof (Hcos _ _ Hi) as Hpend. unfold co_ok in Hpend. rewrite Ho in Hpend. cbn in Hpend.
  destruct u as [[r s]|].
  - assert (s = StSuccess \/ s = StFailed) as Hs by naive_solver.
    assert (forall k, task_status k (on_task (co_task c) (set_outcome r s) (pn_subtasks p)) =
              if decide (k = co_task c) then Some s else task_status k (pn_subtasks p)) as Hst by (intros; by apply shape_status).
    split; [by apply shape_set|]. unfold phase_ok. cbn [pn_phase pn_subtasks pn_executed pn_results]. rewrite Hmap, length_insert.
    split_and!; [by eapply core_set|done|done|apply Hlen..|]. apply Hcos'.
    + intros k Hk. by rewrite Hst, decide_False.
    + unfold co_ok. rewrite Htask, Hst, decide_True by done.
      destruct Hu as [[-> (r' & -> & Ha)]|[-> [[h ->]|[e ->]]]]; [done|done|by right].
  - split; [done|]. unfold phase_ok. cbn [pn_phase pn_subtasks pn_executed pn_results]. rewrite Hmap, length_insert.
    split_and!; [done..|apply Hlen|apply Hlen|]. apply Hcos'; [done|]. unfold co_ok. rewrite Htask.
    destruct Hu as [-> |[e ->]]; [done|by left].
Qed.

(** *** Recording a batch *)

(** Recording the head of a batch that ended. *)
Lemma record_item_ok positions p idx c cos item :
  shape (pn_subtasks p) -> core (status_in (pn_subtasks p)) (pn_executed p) (pn_results p) (co_task <$> (c :: cos)) ->
  NoDup (co_task <$> (c :: cos)) -> co_ok (pn_subtasks p) c -> Forall (co_ok (pn_subtasks p)) cos ->
  gathered_item c = Some item -> positions !! idx = Some (co_task c) ->
  let p' := record_item positions p idx item in
  shape (pn_subtasks p') /\ core (status_in (pn_subtasks p')) (pn_executed p') (pn_results p') (co_task <$> cos) /\
  Forall (co_ok (pn_subtasks p')) cos /\ pn_executed p' = {[co_task c]} ∪ pn_executed p /\ pn_world p' = pn_world p.
Proof.
  intros Hsh Hc Hnd Hok Hcos Hitem Hpos. rewrite fmap_cons in Hc, Hnd. apply NoDup_cons in Hnd as [Hnew Hnd].
  pose proof (proj1 (c_active _ _ _ _ Hc (co_task c) ltac:(left))) as HcK.
  assert (forall s, s = StSuccess \/ s = StFailed -> task_status (co_task c) (pn_subtasks p) = Some s -> forall v, answers (Some s) v ->
    core (status_in (pn_subtasks p)) ({[co_task c]} ∪ pn_executed p) (od_set (co_task c) v (pn_results p)) (co_task <$> cos)) as Hkeep.
  { intros s Hs Hst v Hv. by eapply core_record. }
  assert (shape (on_task (co_task c) (set_status StFailed) (pn_subtasks p)) /\
    (forall error, core (status_in (on_task (co_task c) (set_status StFailed) (pn_subtasks p)))
                 ({[co_task c]} ∪ pn_executed p) (od_set (co_task c) (PvError error) (pn_results p)) (co_task <$> cos)) /\
    Forall (co_ok (on_task (co_task c) (set_status StFailed) (pn_subtasks p))) cos) as (Hf1 & Hf2 & Hf3).
  { change (set_status StFailed) with (set_outcome (W := W) None StFailed). split; [by apply shape_set|]. split.
    - intros error. eapply core_record; [|done|by rewrite shape_status, decide_True|by right|done].
      eapply core_set; [exact Hc|left|by right|]. intros k'. by apply shape_status.
    - rewrite Forall_forall in Hcos |- *. intros x Hx. apply (co_ok_ext (pn_subtasks p)); [|by apply Hcos].
      rewrite shape_status, decide_False; [done| |done|done]. intros Heq. apply Hnew. rewrite <- Heq. by apply list_elem_of_fmap_2. }
  unfold gathered_item in Hitem. unfold co_ok in Hok. destruct (co_outcome c) as [[[r|h|e|d]|e]|]; try done.
  - injection Hitem as <-. cbn zeta. cbn [record_item]. destruct Hok as [Hok Ha]. destruct (as_exception r) as [text|] eqn:Ex; cbn [pn_subtasks pn_executed pn_results pn_world].
    + by split_and!.
    + split_and!; try done. apply (Hkeep StSuccess); [by left|done|by split_and!].
  - injection Hitem as <-. cbn [record_item pn_subtasks pn_executed pn_results pn_world]. split_and!; try done.
    apply (Hkeep StFailed); [by right|done|done].
  - injection Hitem as <-. cbn [record_item]. rewrite Hpos. cbn [pn_subtasks pn_executed pn_results pn_world]. by split_and!.
Qed.

Lemma record_items_ok positions items : forall cos p idx,
  Forall2 (fun c item => gathered_item c = Some item) cos items ->
  (forall j c, cos !! j = Some c -> positions !! (idx + j) = Some (co_task c)) ->
  shape (pn_subtasks p) -> core (status_in (pn_subtasks p)) (pn_executed p) (pn_results p) (co_task <$> cos) ->
  NoDup (co_task <$> cos) -> Forall (co_ok (pn_subtasks p)) cos ->
  let p' := record_items positions p idx items in
  shape (pn_subtasks p') /\ core (status_in (pn_subtasks p')) (pn_executed p') (pn_results p') [] /\
  pn_executed p' = list_to_set (co_task <$> cos) ∪ pn_executed p.
Proof.
  induction items as [|item items IH]; intros cos p idx Hall Hpos Hsh Hc Hnd Hcos.
  { apply Forall2_nil_inv_r in Hall as ->. cbn. split_and!; [done..|set_solver]. }
  apply Forall2_cons_inv_r in Hall as (c & cos' & Hitem & Hall & ->). apply Forall_cons in Hcos as [Hok Hcos].
  destruct (record_item_ok positions p idx c cos' item Hsh Hc Hnd Hok Hcos Hitem) as (Hsh1 & Hc1 & Hcos1 & HE1 & _).
  { rewrite <- (Nat.add_0_r idx). by apply (Hpos 0). }
  destruct (IH cos' (record_item positions p idx item) (S idx) Hall) as (Hsh2 & Hc2 & HE2); [|done..| |done|].
  - intros j x Hj. rewrite Nat.add_succ_l, <- Nat.add_succ_r. by apply (Hpos (S j)).
  - rewrite fmap_cons in Hnd. by apply NoDup_cons in Hnd as [_ ?].
  - cbn zeta. cbn [record_items]. split_and!; [done..|]. rewrite HE2, HE1, fmap_cons. cbn [list_to_set]. set_solver.
Qed.

Lemma record_ok batch cos items p :
  plan_ok p -> pn_phase p = Gathering batch cos -> mapM gathered_item cos = Some items ->
  let p' := record_batch batch items p in
  plan_ok p' /\ pn_phase p' = Deciding /\ pn_executed p' = list_to_set batch ∪ pn_executed p /\
  size (pn_executed p) < size (pn_executed p').
Proof.
  intros [Hsh Hph] Hg Hitems%mapM_Some. unfold phase_ok in Hph. rewrite Hg in Hph. destruct Hph as (Hc & -> & Hnd & Hlen & Hcos).
  destruct (record_items_ok (co_task <$> cos) items cos p 0 Hitems) as (Hsh' & Hc' & HE); try done.
  { intros j c Hj. by rewrite list_lookup_fmap, Nat.add_0_l, Hj. }
  cbn zeta. unfold record_batch, set_phase. cbn [pn_phase pn_executed]. split; [by split|]. split; [done|]. split; [done|].
  rewrite HE, size_union.
  - destruct cos as [|c cos]; [simpl in Hlen; lia|]. rewrite size_list_to_set by done. rewrite length_fmap. cbn [length]. lia.
  - intros k Hk%elem_of_list_to_set. by apply (c_active _ _ _ _ Hc).
Qed.

(** ** Every run *)

Lemma step_ok p p' : plan_ok p -> ostep p p' -> plan_ok p'.
Proof.
  intros Hp Hstep. destruct Hstep.
  - by apply decide_ok.
  - by eapply advance_ok.
  - by eapply record_ok.
Qed.

Lemma run_ok p p' : plan_ok p -> rtc ostep p p' -> plan_ok p'.
Proof. intros Hp Hr. induction Hr; eauto using step_ok. Qed.

(** Until it is finished, a run can go on. *)
Lemma can_step p : plan_ok p -> pn_phase p = Finished \/ exists p', ostep p p'.
Proof.
  intros [Hsh Hph]. unfold phase_ok in Hph. destruct (pn_phase p) as [|batch cos| |e] eqn:Hp; [|right|by left|done].
  { right. eexists. by apply step_decide. }
  destruct (mapM gathered_item cos) as [items|] eqn:Hm; [eexists; by eapply step_record|].
  apply mapM_None, Exists_exists in Hm as (c & Hin & Hc). apply list_elem_of_lookup in Hin as [i Hi].
  eexists. eapply step_advance; [done|done|]. unfold gathered_item in Hc. by destruct (co_outcome c) as [[]|].
Qed.

Abbreviation remaining p := (length K - size (pn_executed p)).

Lemma finished_acc p : pn_phase p = Finished -> Acc (fun q p => ostep p q) p.
Proof. intros Hf. constructor. intros q Hq. inversion Hq; congruence. Qed.

Lemma gathering_acc n : (forall p, plan_ok p -> remaining p < n -> Acc (fun q p => ostep p q) p) ->
  forall m batch cos p, plan_ok p -> remaining p <= n -> pn_phase p = Gathering batch cos -> cost cos < m ->
    Acc (fun q p => ostep p q) p.
Proof.
  intros IH. induction m as [|m IHm]; intros batch cos p Hp Hrem Hg Hm; [lia|]. constructor. intros q Hq.
  inversion Hq as [? Hd|? b cs i c Hg' Hi Ho|? b cs items Hg' Hitems]; subst; [congruence| |];
    rewrite Hg in Hg'; injection Hg' as <- <-.
  - destruct (advance_ok _ _ _ _ _ Hp Hg Hi Ho) as (Hq' & HE & cos' & Hg' & Hless). eapply IHm; [done| |done|lia]. by rewrite HE.
  - destruct (record_ok _ _ _ _ Hp Hg Hitems) as (Hq' & Hd & _ & Hsz). apply IH; [done|].
    destruct Hq' as [_ Hph]. unfold phase_ok in Hph. rewrite Hd in Hph. pose proof (executed_bound _ _ _ _ Hph). lia.
Qed.

Lemma plan_acc p : plan_ok p -> Acc (fun q p => ostep p q) p.
Proof.
  enough (forall n p, plan_ok p -> remaining p < n -> Acc (fun q p => ostep p q) p) as H by (intros Hp; by apply (H (S (remaining p))); [|lia]).
  clear p. induction n as [|n IH]; intros p Hp Hn; [lia|].
  destruct (pn_phase p) as [|batch cos| |e] eqn:Hph.
  - constructor. intros q Hq. inversion Hq as [? Hd| |]; subst; [|congruence..].
    destruct (decide_ok p Hp Hd) as (Hq' & HE & Hnd). apply subseteq_size in HE.
    destruct (pn_phase (decide_batch chains max_parallel p)) as [|batch cos| |e] eqn:Hph'; [done| | |].
    + eapply (gathering_acc n IH (S (cost cos))); [done|lia|done|lia].
    + by apply finished_acc.
    + destruct Hq' as [_ Hb]. unfold phase_ok in Hb. by rewrite Hph' in Hb.
  - eapply (gathering_acc n IH (S (cost cos))); [done|lia|done|lia].
  - by apply finished_acc.
  - destruct Hp as [_ Hb]. unfold phase_ok in Hb. by rewrite Hph in Hb.
Qed.
End run.

Lemma answers_iff st v : answers st v ->
  (st = Some StSuccess <-> exists r, v = PvResult r /\ accepted r /\ as_exception r = None) /\
  (st = Some StFailed <-> (exists h, v = PvHandoff h) \/ exists error, v = PvError error) /\
  (st = Some StSkipped <-> exists d, v = PvSkipped d).
Proof. destruct v; cbn; [intros (-> & ? & ?)|intros ->..]; split_and!; (split; [intros; try done; eauto|naive_solver]). Qed.

(** ** Fresh plans *)

Lemma put_fresh subs s : fresh subs -> st_status s = StPending -> fresh (put_subtask subs s).
Proof.
  intros [[Hnd Hid] Hp] Hs. unfold put_subtask. split; [split; [by apply NoDup_od_set|]|]; intros k t; rewrite od_get_set;
    case_decide; try (intros [= <-]; done); eauto.
Qed.

Lemma put_all_fresh l subs : fresh subs -> Forall (fun s => st_status s = StPending) l -> fresh (fold_left put_subtask l subs).
Proof. revert subs. induction l as [|s l IH]; intros subs Hf; [done|]. intros [Hs Hl]%Forall_cons. apply IH; [by apply put_fresh|done]. Qed.

Lemma empty_fresh : fresh [].
Proof. split; [split; [constructor|]|]; done. Qed.

(** The first plan of an orchestrator. *)
Lemma add_plan_fresh entries : fresh (add_plan entries []).
Proof.
  apply put_all_fresh; [apply empty_fresh|]. apply Forall_forall. intros s (i & e & -> & _)%elem_of_lookup_imap. done.
Qed.

(** ** Plans that validate *)

Lemma orderly_validates subs : keyed subs -> orderly subs -> validate_plan subs = Ok tt.
Proof.
  intros Hk [Hcl [rank Hrank]]. destruct subs as [|kv l] eqn:E; [done|]. rewrite <- E in *.
  destruct (plan_dag_spec subs Hk) as (d & Hd & Hwf & Hn & Hdeps).
  enough (validate d = Ok tt) as Hv by (unfold validate_plan; rewrite E; rewrite <- E, Hd; done).
  destruct (validate_cases d Hwf) as [(? & _)|[(Hnil & _)|[(n & y & _ & _ & Hy & Hny)|(_ & p & _ & Hc & x & mid & ->)]]]; [done|..].
  - by rewrite Hn, E in Hnil.
  - exfalso. apply Hny. rewrite Hn. apply (Hcl n). by rewrite <- Hdeps.
  - exfalso. enough (rank x < rank x) by lia. eapply chain_increasing; [|exact Hc]. intros u v. cbn. rewrite Hdeps. apply Hrank.
Qed.

(** ** The claims *)

Section claims.
Context (fs : Factories) (agents : odict Agent) (chains : odict (list string)) (max_parallel : Z).
Abbreviation ostep := (ostep fs agents chains max_parallel).

Lemma started_ok subs trace w p0 : fresh subs -> start_plan max_parallel subs trace w = Ok p0 ->
  (1 <= max_parallel)%Z /\ orderly subs /\ plan_ok max_parallel subs p0.
Proof.
  intros Hf. unfold start_plan. destruct (max_parallel <? 1)%Z eqn:Hm; [done|]. apply Z.ltb_ge in Hm. intros Hs.
  assert (shape subs subs) as Hsh by by split; [| |apply Hf].
  assert (validate_plan subs = Ok tt -> orderly subs) as Hord by (apply validated_orderly, Hf).
  destruct subs as [|kv l] eqn:E.
  { injection Hs as <-. specialize (Hord eq_refl). split; [done|]. split; [done|]. split; [done|].
    split; [by apply (core_init max_parallel)|]. by intros k ?%elem_of_nil. }
  rewrite <- E in *. destruct (validate_plan subs) as [[]|] eqn:Hv; [|done]. injection Hs as <-. specialize (Hord eq_refl).
  split; [done|]. split; [done|]. split; [done|]. by apply (core_init max_parallel).
Qed.

(** C32. A plan starts with every subtask pending.  However the subtasks of its batches
    interleave and whatever the agents do, a run that finishes leaves every subtask of the plan
    settled, with exactly one result each.  It succeeded exactly when its result is the answer of
    an agent, one that is no exception and does not say that it failed; it failed exactly when its
    result is a handoff or an error, and in both cases all its dependencies had succeeded; it was
    skipped exactly when its result says so, and that result names a dependency that failed or was
    skipped. *)
Theorem plan_settles subs trace w p0 p :
  fresh subs -> start_plan max_parallel subs trace w = Ok p0 -> rtc ostep p0 p -> pn_phase p = Finished ->
  NoDup (od_keys (pn_results p)) /\ (forall k, k ∈ od_keys (pn_results p) <-> k ∈ od_keys subs) /\
  forall k, k ∈ od_keys subs ->
    (task_status k (pn_subtasks p) = Some StSuccess <-> exists r, od_get k (pn_results p) = Some (PvResult r) /\ accepted r /\ as_exception r = None) /\
    (task_status k (pn_subtasks p) = Some StFailed <->
       (exists h, od_get k (pn_results p) = Some (PvHandoff h)) \/ exists error, od_get k (pn_results p) = Some (PvError error)) /\
    (task_status k (pn_subtasks p) = Some StSkipped <-> exists d, od_get k (pn_results p) = Some (PvSkipped d)) /\
    (((task_status k (pn_subtasks p) = Some StSuccess \/ task_status k (pn_subtasks p) = Some StFailed) /\
      forall d, d ∈ task_deps k subs -> task_status d (pn_subtasks p) = Some StSuccess) \/
     (task_status k (pn_subtasks p) = Some StSkipped /\
      exists d s, d ∈ task_deps k subs /\ task_status d (pn_subtasks p) = Some s /\ (s = StFailed \/ s = StSkipped) /\
        od_get k (pn_results p) = Some (PvSkipped d))).
Proof.
  intros Hf Hs Hr Hph. destruct (started_ok _ _ _ _ Hf Hs) as (Hm & Hord & Hp0).
  destruct (run_ok fs agents chains max_parallel subs Hf Hord Hm p0 p Hp0 Hr) as [Hsh Hok]. unfold phase_ok in Hok. rewrite Hph in Hok.
  destruct Hok as [Hc Hall]. split; [apply Hc|]. split.
  - intros k. rewrite <- od_get_is_Some, (c_res _ _ _ _ _ Hc). split; [apply (c_exec _ _ _ _ _ Hc)|apply Hall].
  - intros k Hk. destruct (proj2 (c_res _ _ _ _ _ Hc k) (Hall k Hk)) as [v Hv]. pose proof (c_vals _ _ _ _ _ Hc k v Hv) as Ha.
    destruct (answers_iff (task_status k (pn_subtasks p)) v Ha) as (H1 & H2 & H3). rewrite Hv.
    split_and!; [rewrite H1; naive_solver|rewrite H2; naive_solver|rewrite H3; naive_solver|].
    destruct (c_settled _ _ _ _ _ Hc k (Hall k Hk)) as (s & Hst & Hset). destruct Hset as [->|[->| ->]].
    + left. split; [by left|]. intros d Hd. by apply (c_ran _ _ _ _ _ Hc k StSuccess Hst ltac:(by left)).
    + left. split; [by right|]. intros d Hd. by apply (c_ran _ _ _ _ _ Hc k StFailed Hst ltac:(by right)).
    + right. split; [done|]. destruct (c_skip _ _ _ _ _ Hc k Hst) as (_ & d & s & Hd & _ & Hsd & Hb & HR).
      exists d, s. split_and!; [done..| |by rewrite <- Hv]. unfold blocking in Hb. by apply bool_decide_eq_true in Hb.
Qed.

(** No run goes on for ever, and none gets stuck or crashes: from every state
    that a started plan reaches some action is possible until it is finished. *)
Theorem plan_terminates subs trace w p0 :
  fresh subs -> start_plan max_parallel subs trace w = Ok p0 ->
  Acc (fun q p => ostep p q) p0 /\
  forall p, rtc ostep p0 p -> pn_phase p = Finished \/ exists p', ostep p p'.
Proof.
  intros Hf Hs. destruct (started_ok _ _ _ _ Hf Hs) as (Hm & Hord & Hp0). split.
  - by eapply plan_acc.
  - intros p Hr. eapply (can_step fs agents chains max_parallel subs). by eapply (run_ok fs agents chains max_parallel subs).
Qed.

(** C33. Subtasks in flight are distinct, at most [max_parallel], not yet recorded, and
    every dependency of each of them has succeeded and is recorded. *)
Theorem subtasks_in_order subs trace w p0 p batch cos :
  fresh subs -> start_plan max_parallel subs trace w = Ok p0 -> rtc ostep p0 p -> pn_phase p = Gathering batch cos ->
  (Z.of_nat (length cos) <= max_parallel)%Z /\ NoDup (co_task <$> cos) /\
  forall c, c ∈ cos -> co_task c ∈ od_keys subs /\ co_task c ∉ pn_executed p /\
    forall d, d ∈ task_deps (co_task c) subs -> d ∈ pn_executed p /\ task_status d (pn_subtasks p) = Some StSuccess.
Proof.
  intros Hf Hs Hr Hph. destruct (started_ok _ _ _ _ Hf Hs) as (Hm & Hord & Hp0).
  destruct (run_ok fs agents chains max_parallel subs Hf Hord Hm p0 p Hp0 Hr) as [Hsh Hok]. unfold phase_ok in Hok. rewrite Hph in Hok.
  destruct Hok as (Hc & -> & Hnd & Hlen & _). split; [lia|]. split; [done|]. intros c Hin.
  destruct (c_active _ _ _ _ _ Hc (co_task c)) as (? & ? & _ & Hd); [by apply list_elem_of_fmap_2|]. by split_and!.
Qed.

(** ** The fallback chain of a subtask *)

Definition registered (todo : list string) : list string := filter (fun n => is_Some (od_get n agents)) todo.

Definition co_goes (c c' : Co) : Prop :=
  co_outcome c = None /\ exists w w' u, co_step fs agents c w = (w', c', u).

Definition handed_off (c : Co (W := W)) : Prop := exists h, co_outcome c = Some (Returned (PvHandoff h)).
Definition noted (c : Co (W := W)) : Prop := forall n, n ∈ co_attempted c -> is_Some (od_get n (co_partial c)).

(** [c], begun with the candidates [all]. *)
Definition chain_ok (all : list string) (c : Co (W := W)) : Prop :=
  co_attempted c ++ registered (co_todo c) = registered all /\ (co_outcome c = None -> noted c) /\
  (handed_off c -> noted c /\ registered (co_todo c) = []).

Lemma registered_none pre : Forall (fun n => od_get n agents = None) pre -> registered pre = [].
Proof.
  intros Hpre. apply elem_of_nil_inv. intros n [[a Ha] Hn]%list_elem_of_filter. rewrite Forall_forall in Hpre.
  by rewrite (Hpre n Hn) in Ha.
Qed.

Lemma next_agent_registered todo name agent rest : next_agent agents todo = Some (name, agent, rest) ->
  registered todo = name :: registered rest.
Proof.
  intros (pre & -> & Hpre & Ha)%next_agent_spec. unfold registered. rewrite filter_app. fold (registered pre).
  rewrite registered_none by done. by rewrite filter_cons_True by by eexists.
Qed.

Lemma next_agent_none todo : next_agent agents todo = None -> registered todo = [].
Proof.
  intros Hn. apply registered_none. induction todo as [|n todo IH]; [constructor|]. cbn [next_agent] in Hn.
  destruct (od_get n agents) eqn:E; [done|]. constructor; auto.
Qed.

Lemma note_noted name rest text c : noted c -> noted (co_note name text (co_try name rest c)).
Proof.
  intros Hn n. cbn. rewrite od_get_set, elem_of_app, list_elem_of_singleton. case_decide; [by eexists|].
  intros [Hin|?]; [by apply Hn|done].
Qed.

Lemma co_step_chain all c w w' c' u : chain_ok all c -> co_outcome c = None -> co_step fs agents c w = (w', c', u) -> chain_ok all c'.
Proof.
  intros (Hch & Hnote & _) Ho. specialize (Hnote Ho). unfold co_step.
  destruct (next_agent agents (co_todo c)) as [[[name agent] rest]|] eqn:En.
  - rewrite (next_agent_registered _ _ _ _ En) in Hch.
    assert (forall text, chain_ok all (co_note name text (co_try name rest c))) as Hgo.
    { intros text. split; [cbn; by rewrite <- app_assoc|]. split; [by intros _; apply note_noted|]. intros [h Hh]. cbn in Hh. congruence. }
    assert (forall out, (forall h, out ≠ Returned (PvHandoff h)) -> chain_ok all (co_end out (co_try name rest c))) as Hend.
    { intros out Hout. split; [cbn; by rewrite <- app_assoc|]. split; [done|]. intros [h Hh]. cbn in Hh. injection Hh as ->. by destruct (Hout h). }
    unfold attempt. destruct (resolve_class _ _ _) as [ti|x]; [destruct (run agent ti w) as [w1 [r|e]]|].
    + destruct (task_output r) as [[[] error]|]; intros [= <- <- <-]; first [by apply Hend|by apply Hgo].
    + destruct (is_exception e); intros [= <- <- <-]; first [by apply Hend|by apply Hgo].
    + intros [= <- <- <-]. apply Hgo.
  - pose proof (next_agent_none _ En) as Hnil.
    destruct (route_handoff _ w) as [w1 [h|e]]; intros [= <- <- <-]; (split; [done|split; [done|]]); [by split|].
    intros [h Hh]. cbn in Hh. congruence.
Qed.

(** A subtask tries its registered candidates one after the other, in the order
    of its chain, each once; it goes on only after a candidate failed, and hands off
    only when every one of them was attempted and its failure noted. *)
Theorem fallback_in_order s c :
  rtc co_goes (start_co chains s) c ->
  exists rest, co_attempted c ++ rest = registered (co_todo (start_co (W := W) chains s)) /\
    (co_outcome c = None -> noted c) /\ (handed_off c -> noted c /\ rest = []).
Proof.
  intros Hr. enough (chain_ok (co_todo (start_co (W := W) chains s)) c) as (H1 & H2 & H3) by eauto.
  assert (chain_ok (co_todo (start_co (W := W) chains s)) (start_co chains s)) as H0.
  { split; [done|]. split; [|by intros [h Hh]]. by intros _ n ?%elem_of_nil. }
  revert H0. generalize (co_todo (start_co (W := W) chains s)). intros all. induction Hr as [|c1 c2 c3 (Ho & w & w' & u & Hstep) _ IH]; [done|].
  intros H1. apply IH. by eapply co_step_chain.
Qed.
End claims.

(** ** The plans the code makes itself *)

Definition named_subtask (e : PlanEntry) : string * SubTask := (default "" (pe_id e), subtask_of 0 e).

Lemma register_named es acc : Forall (fun e => is_Some (pe_id e)) es -> NoDup (od_keys acc ++ (default "" ∘ pe_id <$> es)) ->
  fold_left (fun subs e => put_subtask subs (subtask_of (length subs) e)) es acc = acc ++ (named_subtask <$> es).
Proof.
  revert acc. induction es as [|e es IH]; intros acc Hid Hnd; cbn [fold_left fmap list_fmap].
  { by rewrite app_nil_r. }
  apply Forall_cons in Hid as [[i Hi] Hid].
  assert (put_subtask acc (subtask_of (length acc) e) = acc ++ [named_subtask e]) as ->.
  { unfold put_subtask, named_subtask, subtask_of. rewrite Hi. cbn [default st_id]. apply od_set_fresh. intros Hin.
    rewrite fmap_cons in Hnd. apply NoDup_app in Hnd as (_ & H & _). apply (H _ Hin). cbn. rewrite Hi. left. }
  rewrite IH, <- app_assoc; [done|done|]. unfold od_keys. rewrite fmap_app, <- app_assoc. done.
Qed.

Lemma per_file_id_inj i j : per_file_task_id i = per_file_task_id j -> i = j.
Proof. unfold per_file_task_id. intros H. apply (inj (String.append "per_file_")) in H. by apply (inj pretty) in H. Qed.

Lemma per_file_ids task fs0 : default "" ∘ pe_id <$> imap (per_file_entry task) fs0 = imap (fun i _ => per_file_task_id i) fs0.
Proof. rewrite fmap_imap. done. Qed.

Lemma adaptive_ids task f :
  NoDup (default "" ∘ pe_id <$> ad_subtasks (subtasks_from_findings task f)) /\
  Forall (fun e => is_Some (pe_id e)) (ad_subtasks (subtasks_from_findings task f)).
Proof.
  assert (Forall (fun e => is_Some (pe_id e)) (imap (per_file_entry task) (files f))) as Hsome.
  { apply Forall_forall. intros e (i & x & -> & _)%elem_of_lookup_imap. by eexists. }
  assert (NoDup (default "" ∘ pe_id <$> imap (per_file_entry task) (files f))) as Hnd.
  { rewrite per_file_ids. apply NoDup_alt. intros i j x Hi Hj. rewrite list_lookup_imap in Hi, Hj.
    destruct (files f !! i), (files f !! j); simplify_eq/=. by apply per_file_id_inj. }
  unfold ad_subtasks, subtasks_from_findings. cbn [ad_per_file ad_cross_file].
  destruct (imap (per_file_entry task) (files f)) as [|e l] eqn:E; [by rewrite app_nil_r|]. rewrite <- E in *.
  split; [|apply Forall_app; split; [done|by repeat constructor]].
  rewrite fmap_app. apply NoDup_app. split; [done|]. split; [|apply NoDup_singleton].
  intros x (y & -> & (i & z & -> & _)%elem_of_lookup_imap)%list_elem_of_fmap. cbn. intros Hx%list_elem_of_singleton. discriminate Hx.
Qed.

Lemma od_keys_named es : od_keys (named_subtask <$> es) = default "" ∘ pe_id <$> es.
Proof. unfold od_keys. rewrite <- list_fmap_compose. by apply list_fmap_ext. Qed.

Lemma named_get es k s : od_get k (named_subtask <$> es) = Some s -> exists e, e ∈ es /\ k = default "" (pe_id e) /\ s = subtask_of 0 e.
Proof. intros (e & [= -> ->] & He)%od_get_elem%list_elem_of_fmap. by exists e. Qed.

Lemma named_fresh es : NoDup (default "" ∘ pe_id <$> es) -> Forall (fun e => is_Some (pe_id e)) es -> fresh (named_subtask <$> es).
Proof.
  intros Hnd Hid. split; [split; [by rewrite od_keys_named|]|]; intros k s (e & He & -> & ->)%named_get; [|done].
  rewrite Forall_forall in Hid. destruct (Hid e He) as [i Hi]. cbn. by rewrite Hi.
Qed.

Lemma omap_ids es : Forall (fun e => is_Some (pe_id e)) es -> omap pe_id es = default "" ∘ pe_id <$> es.
Proof. induction 1 as [|e es [i Hi] _ IH]; [done|]. cbn. by rewrite Hi, IH. Qed.

Lemma named_get_of es e : NoDup (default "" ∘ pe_id <$> es) -> e ∈ es ->
  od_get (default "" (pe_id e)) (named_subtask <$> es) = Some (subtask_of 0 e).
Proof. intros Hnd He. apply od_get_of_elem; [by rewrite od_keys_named|]. by apply (list_elem_of_fmap_2 named_subtask). Qed.

(** The subtasks of an adaptive plan. *)
Lemma adaptive_deps task f :
  let subs := named_subtask <$> ad_subtasks (subtasks_from_findings task f) in
  task_deps CROSS_FILE_TASK_ID subs = imap (fun i _ => per_file_task_id i) (files f) /\
  (forall k, k ≠ CROSS_FILE_TASK_ID -> task_deps k subs = []) /\
  (forall k, k ∈ imap (fun i _ => per_file_task_id i) (files f) -> k ∈ od_keys subs).
Proof.
  destruct (adaptive_ids task f) as [Hnd Hsome]. cbn zeta. split; [|split].
  - unfold task_deps. unfold ad_subtasks, subtasks_from_findings in *. cbn [ad_per_file ad_cross_file] in *.
    rewrite <- per_file_ids with (task := task). rewrite Forall_app in Hsome. rewrite <- omap_ids by apply Hsome.
    destruct (imap (per_file_entry task) (files f)) as [|e l]; [done|].
    match type of Hnd with NoDup (_ <$> (?l ++ [?c])) => pose proof (named_get_of (l ++ [c]) c Hnd) as Hget end.
    cbn [pe_id default] in Hget. unfold id in Hget. rewrite Hget; [done|]. apply elem_of_app. right. left.
  - intros k Hk. unfold task_deps. destruct (od_get k _) as [s|] eqn:E; [|done].
    apply named_get in E as (e & He & -> & ->). unfold ad_subtasks, subtasks_from_findings in He. cbn [ad_per_file ad_cross_file] in He.
    apply elem_of_app in He as [(i & x & -> & _)%elem_of_lookup_imap|He]; [done|].
    destruct (imap (per_file_entry task) (files f)); [by apply elem_of_nil in He|]. by apply list_elem_of_singleton in He as ->.
  - intros k Hk. rewrite od_keys_named. unfold ad_subtasks, subtasks_from_findings. cbn [ad_per_file].
    rewrite fmap_app, elem_of_app, per_file_ids. by left.
Qed.

(** The plans made without a model are accepted: the one derived from the words of
    a task, which is never empty, and the adaptive one, whose integration pass depends on
    the pass of every file, while those depend on nothing. *)
Theorem own_plans_valid :
  (forall task, let subs := add_plan (intent_entries task) [] in
     fresh subs /\ subs ≠ [] /\ validate_plan subs = Ok tt) /\
  (forall task data (o : Orch), let subs := or_subtasks (decompose_adaptive task data o) in
     fresh subs /\ validate_plan subs = Ok tt /\
     task_deps CROSS_FILE_TASK_ID subs = imap (fun i _ => per_file_task_id i) (files (findings_of py_str task data)) /\
     forall k, k ≠ CROSS_FILE_TASK_ID -> task_deps k subs = []).
Proof.
  split.
  - intros task. split; [apply add_plan_fresh|]. unfold intent_entries, INTENT_RULES. cbn [intent_subtasks].
    do 4 (destruct (existsb _ _)); (split; [done|by vm_compute]).
  - intros task data o. cbn zeta. unfold decompose_adaptive, register_subtasks. cbn [or_subtasks].
    set (f := findings_of py_str task data). destruct (adaptive_ids task f) as [Hnd Hsome].
    rewrite (register_named _ []) by done. cbn [app].
    pose proof (named_fresh _ Hnd Hsome) as Hf. destruct (adaptive_deps task f) as (Hcross & Hother & Hin).
    split; [done|]. split; [|done]. apply orderly_validates; [apply Hf|]. split.
    + intros x y. destruct (decide (x = CROSS_FILE_TASK_ID)) as [->|Hx]; [rewrite Hcross; apply Hin|].
      rewrite Hother by done. by intros ?%elem_of_nil.
    + exists (fun x => if decide (x = CROSS_FILE_TASK_ID) then 1 else 0). intros x y.
      destruct (decide (x = CROSS_FILE_TASK_ID)) as [->|Hx]; [|rewrite Hother by done; by intros ?%elem_of_nil].
      rewrite Hcross. intros (i & z & -> & _)%elem_of_lookup_imap. rewrite decide_False by done. lia.
Qed.

(** ** Behaviour worth knowing *)

(** The views of an output have no dependencies, so the DAG made of them has none. *)
Lemma dag_has_no_dependencies o assignments s :
  forall step, dag_step_of o assignments (subtask_view (W := W) s) = Some step -> ps_deps step = [].
Proof. intros step. unfold dag_step_of, subtask_view. simpl.
  destruct (od_get (default "" (od_get (st_id s) assignments)) (or_agents o)); [by intros [= <-]|done].
Qed.

(** ** What the output reports *)

Definition assigned_like subs subs' : Prop :=
  od_keys subs' = od_keys subs /\
  forall k s', od_get k subs' = Some s' -> exists s, od_get k subs = Some s /\
    st_id s' = st_id s /\ st_status s' = st_status s /\ st_dependencies s' = st_dependencies s.

Lemma assigned_put k a s subs subs' : od_get k subs = Some s -> assigned_like subs subs' ->
  assigned_like subs (od_set k (set_assigned a s) subs').
Proof.
  intros Hs [Hk Hget]. assert (k ∈ od_keys subs') as Hin by (rewrite Hk; by apply od_get_is_Some; eexists). split.
  - rewrite od_keys_set, (proj2 (od_mem_spec k subs')); [done|by apply od_get_is_Some].
  - intros k' s'. rewrite od_get_set. case_decide; [|apply Hget]. subst. intros [= <-]. by exists s.
Qed.

Lemma assign_like o : keyed (or_subtasks o) -> assigned_like (or_subtasks o) (or_subtasks (assign_agents o).1).
Proof.
  intros [Hnd _]. unfold assign_agents.
  enough (forall l acc, (forall kv, kv ∈ l -> od_get kv.1 (or_subtasks o) = Some kv.2) -> assigned_like (or_subtasks o) acc.1.1 ->
            assigned_like (or_subtasks o) (fold_left (assign_one (or_capabilities o)) l acc).1.1) as H.
  { specialize (H (or_subtasks o) (or_subtasks o, or_chains o, [])). destruct (fold_left _ _ _) as [[subs ch] asg]. apply H.
    - intros [k s] Hin. by apply od_get_of_elem.
    - split; [done|]. intros k s Hs. by exists s. }
  induction l as [|kv l IH]; intros [[subs ch] asg] Hl Hacc; [done|]. cbn [fold_left]. apply IH; [intros; apply Hl; by right|].
  unfold assign_one. destruct (candidates_for _ _) as [|[best sc] rest]; [done|]. apply assigned_put; [|done]. apply Hl. left.
Qed.

Lemma assigned_fresh subs subs' : assigned_like subs subs' -> fresh subs -> fresh subs'.
Proof.
  intros [Hk Hget] [[Hnd Hid] Hp]. split; [split; [by rewrite Hk|]|]; intros k s Hs;
    destruct (Hget k s Hs) as (s0 & H0 & Hi & Hst & _).
  - rewrite Hi. by apply Hid.
  - rewrite Hst. by eapply Hp.
Qed.

Lemma unfinished_nil subs : keyed subs ->
  unfinished subs = [] <-> forall k s, task_status k subs = Some s -> blocking s = false.
Proof.
  intros [Hnd _]. unfold unfinished. split.
  - intros Hnil k s (t & Ht & ->)%fmap_Some. destruct (blocking (st_status t)) eqn:Eb; [|done]. exfalso.
    apply (not_elem_of_nil k). rewrite <- Hnil. apply list_elem_of_fmap. exists (k, t). split; [done|].
    apply list_elem_of_filter. split; [done|]. by apply od_get_elem.
  - intros Hall. apply elem_of_nil_inv. intros k ([k' t] & -> & [Hb Hin]%list_elem_of_filter)%list_elem_of_fmap.
    apply (od_get_of_elem _ _ _ Hnd) in Hin. cbn in Hb. rewrite (Hall k' (st_status t)) in Hb; [done|]. unfold task_status. by rewrite Hin.
Qed.

(** The first plan of an orchestrator, run with agents: the output is a success
    exactly when every subtask succeeded; a plan that is not run, because it is invalid,
    is never a success and leaves the world alone.  Without agents nothing runs, and the
    output is a success all the same. *)
Theorem output_reports fs agents chains max_parallel entries o w out o' w' :
  or_subtasks o = [] -> parse_output fs agents chains max_parallel entries o w out o' w' ->
  (is_ok (validate_plan (add_plan entries [])) = false /\ oo_success out = false /\ w' = w) \/
  (or_agents o = [] /\ oo_success out = true /\ w' = w /\ forall k s, task_status k (or_subtasks o') = Some s -> s = StPending) \/
  (or_agents o ≠ [] /\ od_keys (or_subtasks o') = od_keys (add_plan entries []) /\
   (oo_success out = true <-> forall k, k ∈ od_keys (or_subtasks o') -> task_status k (or_subtasks o') = Some StSuccess)).
Proof.
  intros Hnone Hparse. unfold prepare_plan in *.
  assert (forall o1 assignments, prepare_plan entries o = Ok (o1, inr assignments) ->
            or_agents o1 = or_agents o /\ fresh (or_subtasks o1) /\ od_keys (or_subtasks o1) = od_keys (add_plan entries [])) as Hprep.
  { intros o1 assignments. unfold prepare_plan. rewrite Hnone. cbn [with_subtasks or_subtasks].
    destruct (validate_plan (add_plan entries [])) as [[]|[]]; try done.
    pose proof (assign_like (with_subtasks (add_plan entries []) o)) as Hlike. unfold with_subtasks in *.
    set (o0 := mkOrch _ _ (add_plan entries []) _ _) in *.
    assert (or_agents (assign_agents o0).1 = or_agents o) as Hag by (unfold assign_agents; by destruct (fold_left _ _ _) as [[? ?] ?]).
    destruct (assign_agents o0) as [o2 a2]. intros [= -> ->]. cbn [fst or_subtasks o0] in *. 
    pose proof (add_plan_fresh entries) as Hf. specialize (Hlike (proj1 Hf)). split; [done|]. split; [by eapply assigned_fresh|apply Hlike]. }
  destruct Hparse as [o1 out Hp|o1 assignments Hp Hag|o1 assignments p Hp Hag -> -> (p0 & Hstart & Hrun & Hfin)].
  - left. revert Hp. unfold prepare_plan. rewrite Hnone. cbn [with_subtasks or_subtasks].
    destruct (validate_plan (add_plan entries [])) as [[]|[]]; try done; [by destruct (assign_agents _)|..]; intros [= <- <-]; done.
  - right; left. destruct (Hprep _ _ Hp) as (Ha & Hf & _). rewrite <- Ha.
    assert (forall k s, task_status k (or_subtasks o1) = Some s -> s = StPending) as Hpend.
    { intros k s (t & Ht & ->)%fmap_Some. by eapply Hf. }
    split_and!; try done. unfold output_of. cbn [oo_success]. apply bool_decide_eq_true, unfinished_nil; [apply Hf|].
    by intros k s ->%Hpend.
  - right; right. destruct (Hprep _ _ Hp) as (Ha & Hf & Hk). rewrite <- Ha. split; [done|]. cbn [or_subtasks].
    destruct (started_ok _ _ _ _ _ Hf Hstart) as (Hm & Hord & Hp0).
    destruct (run_ok _ _ _ _ _ Hf Hord Hm p0 p Hp0 Hrun) as [Hsh Hok]. unfold phase_ok in Hok. rewrite Hfin in Hok. destruct Hok as [Hc Hall].
    split; [by rewrite (sh_keys _ _ Hsh)|]. unfold output_of. cbn [oo_success].
    rewrite bool_decide_eq_true, unfinished_nil by apply Hsh. rewrite (sh_keys _ _ Hsh). split.
    + intros Hb k Hin. destruct (c_settled _ _ _ _ _ Hc k (Hall k Hin)) as (s & Hs & Hset). rewrite Hs. f_equal.
      pose proof (Hb k s Hs) as Hbl. by destruct Hset as [->|[->| ->]].
    + intros Hs k s Hst. rewrite Hs in Hst; [by injection Hst as <-|]. rewrite <- (sh_keys _ _ Hsh). apply status_is_Some. by eexists.
Qed.

(** ** A fixed interleaving: the first coroutine that has not ended goes on *)

Fixpoint first_running (cos : list (Co (W := W))) (i : nat) : option (nat * Co) :=
  match cos with
  | [] => None
  | c :: rest => match co_outcome c with None => Some (i, c) | Some _ => first_running rest (S i) end
  end.

Definition next_plan fs agents chains mp (p : Plan) : Plan :=
  match pn_phase p with
  | Deciding => decide_batch chains mp p
  | Gathering batch cos =>
      match first_running cos 0 with
      | Some (i, c) => advance fs agents batch cos i c p
      | None => match mapM gathered_item cos with Some items => record_batch batch items p | None => p end
      end
  | _ => p
  end.

Definition drive fs agents chains mp (n : nat) (p : Plan) : Plan := Nat.iter n (next_plan fs agents chains mp) p.

Lemma first_running_spec cos i j c : first_running cos i = Some (j, c) -> exists k, j = i + k /\ cos !! k = Some c /\ co_outcome c = None.
Proof.
  revert i. induction cos as [|x cos IH]; intros i; cbn [first_running]; [done|]. destruct (co_outcome x) eqn:Ex.
  - intros (k & -> & ? & ?)%IH. exists (S k). split; [lia|done].
  - intros [= <- <-]. exists 0. split; [lia|done].
Qed.

Lemma next_runs fs agents chains mp p : rtc (Orchestrator.ostep fs agents chains mp) p (next_plan fs agents chains mp p).
Proof.
  unfold next_plan. destruct (pn_phase p) as [|batch cos| |] eqn:Hp; [apply rtc_once; by apply step_decide| |done..].
  destruct (first_running cos 0) as [[i c]|] eqn:Ef.
  - apply first_running_spec in Ef as (k & -> & ? & ?). apply rtc_once. by eapply step_advance.
  - destruct (mapM gathered_item cos) eqn:Em; [|done]. apply rtc_once. by eapply step_record.
Qed.

Lemma drive_runs fs agents chains mp n p : rtc (Orchestrator.ostep fs agents chains mp) p (drive fs agents chains mp n p).
Proof. induction n as [|n IH]; [done|]. etrans; [exact IH|]. apply next_runs. Qed.
End facts.

(** ** Witnesses: an agent that works and one that raises *)

#[local] Instance demo_governance : GovernanceEnv nat := {|
  get_approval_provider := fun _ => None;
  get_escalation_sink := fun _ => None;
  get_settings := fun _ => mkSettings false "" 0%Q;
  wait_for := fun _ m => m;
  seconds_text := fun _ => "";
|}.
#[local] Instance demo_agents : AgentEnv nat := {|
  Agent := bool;
  Result := string;
  run := fun works _ w => (S w, if works : bool then inl "done" else inr (mkExc KException "RuntimeError" "boom"));
  class_mro := fun _ => ["CoderAgent"];
  capability_mro := fun _ => [mkClass true (Ok CodeGenerationMixin)];
  agent_description := fun _ => "";
  task_output := fun _ => None;
  as_exception := fun _ => None;
  result_text := fun r => r;
  py_str := fun _ => "";
|}.

Definition good_agent : Agent (W := nat) := true.
Definition bad_agent : Agent (W := nat) := false.
Definition demo_pool : odict Agent := [("bad", bad_agent); ("good", good_agent)].

Definition demo_entries : list PlanEntry :=
  [mkEntry (Some "a") None ["code_generation"] []; mkEntry (Some "b") None ["web_search"] ["a"];
   mkEntry (Some "c") None ["code_generation"] ["b"]].
Definition demo_registered : Orch := register_agent "good" good_agent (register_agent "bad" bad_agent (new_orchestrator [])).
Definition demo_orch : Orch (W := nat) :=
  (assign_agents (with_subtasks (add_plan demo_entries [])
     demo_registered)).1.
Definition demo_start : Plan (W := nat) := mkPlan 0 (or_subtasks demo_orch) ∅ [] [] Deciding.
Definition demo_end : Plan := drive [] (or_agents demo_orch) (or_chains demo_orch) 2 20 demo_start.

Example plan_statuses : (fun kv => (kv.1, st_status kv.2)) <$> pn_subtasks demo_end
  = [("a", StSuccess); ("b", StFailed); ("c", StSkipped)].
Proof. by vm_compute. Qed.

Lemma demo_fresh : fresh (or_subtasks demo_orch).
Proof.
  eapply assigned_fresh; [apply assign_like|]; cbn [with_subtasks or_subtasks]; apply add_plan_fresh.
Qed.

Lemma demo_started : start_plan 2 (or_subtasks demo_orch) [] 0 = Ok demo_start.
Proof. by vm_compute. Qed.

Lemma demo_steps : rtc (ostep [] (or_agents demo_orch) (or_chains demo_orch) 2) demo_start demo_end.
Proof. apply drive_runs. Qed.

Lemma plan_settles_witness : pn_phase demo_end = Finished /\ NoDup (od_keys (pn_results demo_end)).
Proof.
  split; [by vm_compute|].
  apply (plan_settles [] (or_agents demo_orch) (or_chains demo_orch) 2 _ [] 0 demo_start demo_end demo_fresh demo_started demo_steps).
  by vm_compute.
Defined.

Lemma plan_terminates_witness : Acc (fun q p => ostep [] (or_agents demo_orch) (or_chains demo_orch) 2 p q) demo_start.
Proof. apply (plan_terminates [] (or_agents demo_orch) (or_chains demo_orch) 2 _ [] 0 demo_start demo_fresh demo_started). Defined.

Definition demo_gathering : Plan := drive [] (or_agents demo_orch) (or_chains demo_orch) 2 1 demo_start.

Lemma subtasks_in_order_witness : exists batch cos, pn_phase demo_gathering = Gathering batch cos /\ NoDup (co_task <$> cos).
Proof.
  eexists _, _. split; [by vm_compute|].
  eapply (subtasks_in_order [] (or_agents demo_orch) (or_chains demo_orch) 2 _ [] 0 demo_start demo_gathering
            _ _ demo_fresh demo_started (drive_runs _ _ _ _ 1 _)). by vm_compute.
Defined.

Definition demo_task : SubTask (W := nat) := set_assigned "bad" (subtask_of 0 (mkEntry (Some "a") None [] [])).
Definition demo_chains : odict (list string) := [("a", ["gone"; "good"])].

Lemma fallback_in_order_witness :
  exists c, rtc (co_goes [] demo_pool) (start_co demo_chains demo_task) c /\
    co_attempted c = ["bad"; "good"] /\ exists rest, co_attempted c ++ rest = ["bad"; "good"].
Proof.
  set (c1 := (co_step [] demo_pool (start_co demo_chains demo_task) 0).1.2).
  set (c2 := (co_step [] demo_pool c1 0).1.2).
  assert (rtc (co_goes [] demo_pool) (start_co demo_chains demo_task) c2) as Hr.
  { eapply rtc_l; [|apply rtc_once].
    - split; [done|]. exists 0, 1, None. by vm_compute.
    - split; [done|]. exists 0. eexists _, _. by vm_compute. }
  exists c2. split; [done|]. split; [by vm_compute|].
  destruct (fallback_in_order [] _ demo_chains demo_task c2 Hr) as (rest & Hrest & _). exists rest. rewrite Hrest. by vm_compute.
Defined.

Lemma output_reports_witness :
  exists out, parse_output [] (or_agents demo_orch) (or_chains demo_orch) 2 demo_entries
      demo_registered 0 out
      (mkOrch (or_agents demo_orch) (or_capabilities demo_orch) (pn_subtasks demo_end) (or_chains demo_orch) (pn_trace demo_end))
      (pn_world demo_end) /\ oo_success out = false.
Proof.
  assert (exists out, parse_output [] (or_agents demo_orch) (or_chains demo_orch) 2 demo_entries
      demo_registered 0 out
      (mkOrch (or_agents demo_orch) (or_capabilities demo_orch) (pn_subtasks demo_end) (or_chains demo_orch) (pn_trace demo_end))
      (pn_world demo_end)) as [out Hout].
  { eexists. eapply (parse_run _ _ _ _ _ _ _ demo_orch); [by vm_compute|done|done|done|].
    exists demo_start. split; [apply demo_started|]. split; [apply demo_steps|by vm_compute]. }
  exists out. split; [done|]. destruct (output_reports [] _ _ 2 demo_entries demo_registered 0 out _ _ eq_refl Hout) as [(_ & ? & _)|[(Hno & _)|(_ & _ & Hiff)]];
    [done|done|]. apply not_true_is_false. rewrite Hiff. intros H. specialize (H "b"). vm_compute in H.
  enough (Some StFailed = Some StSuccess) by done. apply H. right. left.
Defined.

(** A second plan on the same orchestrator: the subtasks of the first are still there,
    the dependents of one that failed are skipped at once, it is run again, and the
    output of the second plan is a failure although its only subtask succeeded. *)
Definition second_orch : Orch :=
  (assign_agents (with_subtasks (add_plan [mkEntry (Some "d") None ["code_generation"] []] (pn_subtasks demo_end)) demo_orch)).1.
Definition second_end : Plan :=
  drive [] (or_agents second_orch) (or_chains second_orch) 2 20 (mkPlan 0 (or_subtasks second_orch) ∅ [] [] Deciding).

Example stale_subtasks_fail_the_next_plan :
  task_status "d" (pn_subtasks second_end) = Some StSuccess /\ pn_phase second_end = Finished /\
  unfinished (pn_subtasks second_end) = ["b"; "c"].
Proof. by vm_compute. Qed.

(** Agents given to the constructor are not scored: no subtask is assigned, and
    [unregister_agent] raises. *)
Example constructor_agents_unused :
  let o := with_subtasks (add_plan demo_entries []) (new_orchestrator [("good", good_agent)]) in
  (assign_agents o).2 = [] /\ (unregister_agent "good" o).2 = Raise (KeyError "good").
Proof. by vm_compute. Qed.

(** A factory registered before the first orchestrator keeps the defaults out. *)
Example defaults_not_registered :
  let mine := register_task_input_factory "MyAgent" (fun d => Ok (OtherInput (VStr d))) [] in
  resolve_class (ensure_factories mine) ["ReviewerAgent"] "review" = Ok (CodeGenerationInput "review" "python").
Proof. by vm_compute. Qed.
