(* ===== verification/AgentLoop.v ===== *)
(** * The agent lifecycle (agents/base.py, agents/config.py)

    [run] initialises an agent once, then alternates model replies and tool calls until
    a reply is final or the iterations are used up.  The model, the task format and the
    parsing of a final reply are what a subclass defines: the interface [AgentModel].
    Tools run through the gate of [Governance]; the conversation is a [Memory].  The
    events of an agent are its log; handlers cannot change the agent. *)

From stdpp Require Import pretty.
From Stdlib Require Import QArith Qcanon.
From S2P Require Import Prelude PyStr PyVal Messages Step StepFacts Governance Tools ToolsFacts Memory.

Inductive AgentState := CREATED | INITIALIZING | READY | RUNNING | PAUSED | COMPLETED | FAILED | CANCELLED.
#[export] Instance AgentState_eq_dec : EqDecision AgentState.
Proof. solve_decision. Defined.

Definition agent_state_value (s : AgentState) : string :=
  match s with
  | CREATED => "created" | INITIALIZING => "initializing" | READY => "ready" | RUNNING => "running"
  | PAUSED => "paused" | COMPLETED => "completed" | FAILED => "failed" | CANCELLED => "cancelled"
  end.

(** The fields of [AgentConfig] that the lifecycle reads. *)
Record AgentConfig := mkAgentConfig {
  ac_name : string;
  ac_description : string;
  ac_system_prompt : string;
  ac_default_tier : Z;
  ac_max_iterations : Z;
  ac_max_tool_calls_per_turn : Z;
  ac_max_memory_messages : Z;
  ac_max_memory_tokens : Z;
  ac_enable_streaming : bool;
}.
Definition default_agent_config : AgentConfig := mkAgentConfig "agent" "" "" 2 10 5 50 8000 false.

(** The events the lifecycle emits, with the data the handlers get. *)
Inductive AgentEvent :=
| StateChange (old new : AgentState)
| Thinking (iteration : Z)
| ToolCalled (tool call_id : string) (args : odict pyval)
| ToolResultEvent (tool call_id result : string)
| Streaming (chunk : string).

(** A reply of the model: [content] and [tool_calls], absent ones empty. *)
Record ModelReply := mkReply { reply_content : string; reply_tool_calls : list pyval }.

Section agent.
Context {W : Type} `{!GovernanceEnv W, !ToolEnv W, !MemoryEnv}.

(** What a subclass provides: [_call_model] on the messages and the tool schemas,
    [_stream_response] with the chunks it yields, [_format_task_message], [_is_task_complete],
    [_parse_output], [_on_initialize], [_on_cleanup]; the tools of the registry; the clock. *)
Class AgentModel (Input Output : Type) := {
  call_model : list (odict pyval) -> list pyval -> M W ModelReply;
  stream_response : list (odict pyval) -> list pyval -> M W (list string);
  format_task_message : Input -> res string;
  is_task_complete : Input -> string -> M W bool;
  parse_output : Input -> string -> M W Output;
  on_initialize : M W unit;
  on_cleanup : M W unit;
  registry_tools : W -> list (Tool W);
  output_str : Output -> string;
  now : W -> Time;
}.

Context {Input Output : Type} `{!AgentModel Input Output}.

Record Agent := mkAgent {
  ag_world : W;
  ag_config : AgentConfig;
  ag_state : AgentState;
  ag_memory : ConversationMemory;
  ag_bound_tools : odict (Tool W);
  ag_iteration_count : Z;
  ag_tool_call_count : Z;
  ag_last_result : option Output;
  ag_error : option string;
  ag_log : list AgentEvent;
}.

(** [ConversationMemory(max_messages, max_tokens)], with its defaults *)
Definition new_memory (t : Time) (c : AgentConfig) : ConversationMemory :=
  mkMemory [] (ac_max_memory_messages c) (ac_max_memory_tokens c) [] 5 None (empty_facts t) 0.

Definition new_agent (c : AgentConfig) (w : W) : Agent :=
  mkAgent w c CREATED (new_memory (now w) c) [] 0 0 None None [].

(** ** Updates *)

Definition with_world (w : W) (a : Agent) : Agent :=
  mkAgent w (ag_config a) (ag_state a) (ag_memory a) (ag_bound_tools a) (ag_iteration_count a) (ag_tool_call_count a)
    (ag_last_result a) (ag_error a) (ag_log a).
Definition with_memory (m : ConversationMemory) (a : Agent) : Agent :=
  mkAgent (ag_world a) (ag_config a) (ag_state a) m (ag_bound_tools a) (ag_iteration_count a) (ag_tool_call_count a)
    (ag_last_result a) (ag_error a) (ag_log a).
Definition with_tools (t : odict (Tool W)) (a : Agent) : Agent :=
  mkAgent (ag_world a) (ag_config a) (ag_state a) (ag_memory a) t (ag_iteration_count a) (ag_tool_call_count a)
    (ag_last_result a) (ag_error a) (ag_log a).
Definition with_counts (i t : Z) (a : Agent) : Agent :=
  mkAgent (ag_world a) (ag_config a) (ag_state a) (ag_memory a) (ag_bound_tools a) i t (ag_last_result a) (ag_error a) (ag_log a).
Definition with_result (r : option Output) (a : Agent) : Agent :=
  mkAgent (ag_world a) (ag_config a) (ag_state a) (ag_memory a) (ag_bound_tools a) (ag_iteration_count a) (ag_tool_call_count a)
    r (ag_error a) (ag_log a).
Definition with_error (e : option string) (a : Agent) : Agent :=
  mkAgent (ag_world a) (ag_config a) (ag_state a) (ag_memory a) (ag_bound_tools a) (ag_iteration_count a) (ag_tool_call_count a)
    (ag_last_result a) e (ag_log a).
Definition emit (e : AgentEvent) (a : Agent) : Agent :=
  mkAgent (ag_world a) (ag_config a) (ag_state a) (ag_memory a) (ag_bound_tools a) (ag_iteration_count a) (ag_tool_call_count a)
    (ag_last_result a) (ag_error a) (ag_log a ++ [e]).

(** [_set_state] *)
Definition set_state (s : AgentState) (a : Agent) : Agent :=
  emit (StateChange (ag_state a) s)
    (mkAgent (ag_world a) (ag_config a) s (ag_memory a) (ag_bound_tools a) (ag_iteration_count a) (ag_tool_call_count a)
       (ag_last_result a) (ag_error a) (ag_log a)).

(** An [await] on the outside. *)
Definition await_ {A} (m : M W A) : M Agent A := fun a => let '(w, r) := m (ag_world a) in (with_world w a, r).
Definition of_res {A} (r : res A) : M Agent A := match r with Ok x => ret x | Raise e => raise (exc_of e) end.

Definition remember (f : Time -> ConversationMemory -> ConversationMemory * ConversationMessage) : M Agent unit :=
  modify (fun a => with_memory (f (now (ag_world a)) (ag_memory a)).1 a).

(** ** Tools *)

Definition bind_tool (t : Tool W) (a : Agent) : Agent := with_tools (od_set (tl_name t) t (ag_bound_tools a)) a.
Definition unbind_tool (name : string) (a : Agent) : Agent * bool :=
  if od_mem name (ag_bound_tools a) then (with_tools (od_pop name (ag_bound_tools a)) a, true) else (a, false).

Definition bind_tools (a : Agent) : Agent :=
  fold_left (fun a t => if (tl_tier t <=? ac_default_tier (ag_config a))%Z then bind_tool t a else a)
    (registry_tools (ag_world a)) a.

(** One schema; a tool of another class may have none. *)
Definition agent_tool_schema (t : Tool W) : pyval :=
  VDict [("type", VStr "function");
         ("function", VDict [("name", VStr (tl_name t)); ("description", VStr (tl_description t));
                             ("parameters", VDict (tl_parameters t))])].
Definition get_tool_schemas (a : Agent) : list pyval := agent_tool_schema <$> (ag_bound_tools a).*2.

(** [_dispatch_tool] *)
Definition dispatch_tool (agent_name : string) (tool : option (Tool W)) (tool_name : string) (args : odict pyval) : M W string :=
  match tool with
  | None => ret (failure_text (Some ("Unknown tool: " +:+ tool_name)) [])
  | Some t =>
      let go :=
        v <- validate_parameters t args;
        if negb v.1 then ret (failure_text (Some ("Invalid parameters for " +:+ tool_name +:+ ": " +:+ default "None" v.2)) [])
        else
          try_except (r <- Tools.execute t args; ret (serialize_tool_result r))
            (fun e => if is_exception e
                      then ret (truncate_tool_result
                             (failure_text (Some ("Tool execution error for " +:+ tool_name +:+ ": " +:+ ex_msg e)) []))
                      else raise e) in
      if is_base_tool t then go
      else
        o <- evaluate_tool_approval (tl_requires_approval t) tool_name args (call_id_for tool_name args) (Some agent_name);
        if negb (oc_allowed o) then ret (failure_text (oc_error_message o) [("metadata", VDict (denial_metadata o))]) else go
  end.

Definition handle_tool_call (call : pyval) : M Agent unit :=
  match call with
  | VDict c =>
      modify (fun a => with_counts (ag_iteration_count a) (ag_tool_call_count a + 1) a);;
      let '(call_id, tool_name, tool_args) := normalize_tool_call c in
      if bool_decide (tool_name = "") then ret tt
      else
        modify (emit (ToolCalled tool_name call_id tool_args));;
        a <- get;
        text <- await_ (dispatch_tool (ac_name (ag_config a)) (od_get tool_name (ag_bound_tools a)) tool_name tool_args);
        modify (emit (ToolResultEvent tool_name call_id text));;
        remember (fun t => add_tool_result t tool_name text call_id)
  | _ => ret tt
  end.

(** [tool_calls[:n]] *)
Definition slice_to {A} (n : Z) (l : list A) : list A :=
  if (n <? 0)%Z then take (length l - Z.to_nat (- n)) l else take (Z.to_nat n) l.

Definition handle_tool_calls (calls : list pyval) : M Agent unit :=
  a <- get; for_each handle_tool_call (slice_to (ac_max_tool_calls_per_turn (ag_config a)) calls).

(** ** The loop *)

Definition get_model_response : M Agent ModelReply :=
  a <- get; await_ (call_model (get_messages true (ag_memory a)) (get_tool_schemas a)).

Definition max_iterations_error (n : Z) : PyExc :=
  mkExc KException "RuntimeError" ("Agent reached max iterations (" +:+ pretty n +:+ ") without completing task").

Fixpoint execute_loop (fuel : nat) (task : Input) : M Agent Output :=
  match fuel with
  | 0 => raise (exc_of OutOfFuel)
  | S fuel =>
      a <- get;
      if (ag_iteration_count a <? ac_max_iterations (ag_config a))%Z then
        let i := (ag_iteration_count a + 1)%Z in
        modify (with_counts i (ag_tool_call_count a));;
        modify (emit (Thinking i));;
        response <- get_model_response;
        match reply_tool_calls response with
        | (_ :: _) as calls => handle_tool_calls calls;; execute_loop fuel task
        | [] =>
            remember (fun t => add_assistant t (reply_content response));;
            complete <- await_ (is_task_complete task (reply_content response));
            if complete : bool then await_ (parse_output task (reply_content response)) else execute_loop fuel task
        end
      else raise (max_iterations_error (ac_max_iterations (ag_config a)))
  end.

(** ** The lifecycle *)

Definition initialize : M Agent unit :=
  modify (set_state INITIALIZING);;
  a <- get;
  (if decide (ac_system_prompt (ag_config a) = "") then ret tt
   else remember (fun t => add_system t (ac_system_prompt (ag_config a))));;
  modify bind_tools;;
  await_ on_initialize;;
  modify (set_state READY).

Definition ensure_initialized : M Agent unit :=
  a <- get; if decide (ag_state a = CREATED) then initialize else ret tt.

Definition cleanup : M Agent unit :=
  await_ on_cleanup;;
  modify (fun a => with_tools [] (with_memory (clear (now (ag_world a)) (ag_memory a)) a)).

(** The fuel of the loop: one more than the iterations allowed. *)
Definition loop_fuel (a : Agent) : nat := S (Z.to_nat (ac_max_iterations (ag_config a))).

Definition on_failure (e : PyExc) (a : Agent) : Agent :=
  if is_exception e then set_state FAILED (with_error (Some (ex_msg e)) a) else set_state CANCELLED a.

(** One run at a time: an [await] leaves the agent itself alone, so runs of one instance that
    overlap, as a [gather] over subtasks of the same agent makes them, are outside the
    model. *)
Definition run (task : Input) : M Agent Output :=
  ensure_initialized;;
  modify (set_state RUNNING);;
  modify (with_counts 0 0);;
  try_except
    (message <- of_res (format_task_message task);
     remember (fun t => add_user t message);;
     a <- get;
     result <- execute_loop (loop_fuel a) task;
     modify (fun a => set_state COMPLETED (with_result (Some result) a));;
     ret result)
    (fun e => modify (on_failure e);; raise e).

(** [stream], consumed to its end: the chunks it yields. *)
Definition stream (task : Input) : M Agent (list string) :=
  a <- get;
  if negb (ac_enable_streaming (ag_config a)) then result <- run task; ret [output_str result]
  else
    ensure_initialized;;
    modify (set_state RUNNING);;
    try_except
      (message <- of_res (format_task_message task);
       remember (fun t => add_user t message);;
       a <- get;
       chunks <- await_ (stream_response (get_messages true (ag_memory a)) (get_tool_schemas a));
       for_each (fun c => modify (emit (Streaming c))) chunks;;
       modify (set_state COMPLETED);;
       ret chunks)
      (fun e => (if is_exception e then modify (fun a => set_state FAILED (with_error (Some (ex_msg e)) a)) else ret tt);; raise e).
End agent.

(** ** Correctness of the agent lifecycle

    A run ends in the state that its outcome calls for, within its iterations and its
    tool calls; the fuel of the loop never runs out.  An agent whose initialisation
    failed is never initialised again. *)
Local Open Scope Z_scope.

Section facts.
Context {W : Type} `{!GovernanceEnv W, !ToolEnv W, !MemoryEnv}.
Context {Input Output : Type} `{!AgentModel (W := W) Input Output}.
Implicit Types (a : Agent (W := W) (Output := Output)).

(** ** What the loop leaves alone *)

Definition is_thinking (e : AgentEvent) : bool := match e with Thinking _ => true | _ => false end.
Definition is_call (e : AgentEvent) : bool := match e with ToolCalled _ _ _ => true | _ => false end.
Definition thoughts (l : list AgentEvent) : Z := Z.of_nat (length (filter (fun e => is_thinking e = true) l)).
Definition calls (l : list AgentEvent) : Z := Z.of_nat (length (filter (fun e => is_call e = true) l)).
Definition state_changes (l : list AgentEvent) : list (AgentState * AgentState) :=
  omap (fun e => match e with StateChange s s' => Some (s, s') | _ => None end) l.

(** [a'] comes from [a] by [i] iterations and at most [c] tool calls. *)
Record goes (i c : Z) a a' : Prop := {
  g_config : ag_config a' = ag_config a;
  g_state : ag_state a' = ag_state a;
  g_tools : ag_bound_tools a' = ag_bound_tools a;
  g_result : ag_last_result a' = ag_last_result a;
  g_error : ag_error a' = ag_error a;
  g_count : ag_iteration_count a' = ag_iteration_count a + i;
  g_log : exists new, ag_log a' = ag_log a ++ new /\ thoughts new = i /\ calls new <= c /\ state_changes new = [];
}.

Lemma goes_trans i c i' c' a1 a2 a3 : goes i c a1 a2 -> goes i' c' a2 a3 -> goes (i + i') (c + c') a1 a3.
Proof.
  intros [? ? ? ? ? Hi (l & Hl & Ht & Hc & Hs)] [? ? ? ? ? Hi' (l' & Hl' & Ht' & Hc' & Hs')]. split; try congruence; [lia|].
  exists (l ++ l'). rewrite Hl', Hl, app_assoc. split; [done|]. unfold thoughts, calls, state_changes in *.
  rewrite !filter_app, !length_app, omap_app, Hs, Hs'. split; [lia|]. split; [lia|done].
Qed.

Lemma goes_weaken i c c' a a' : c <= c' -> goes i c a a' -> goes i c' a a'.
Proof.
  intros Hc [? ? ? ? ? Hi (l & Hl & Ht & Hcl & Hs)]. split; try done. exists l. repeat split; try done. lia.
Qed.

Lemma goes_silent a a' : ag_config a' = ag_config a -> ag_state a' = ag_state a -> ag_bound_tools a' = ag_bound_tools a ->
  ag_last_result a' = ag_last_result a -> ag_error a' = ag_error a -> ag_iteration_count a' = ag_iteration_count a ->
  ag_log a' = ag_log a -> goes 0 0 a a'.
Proof. intros ? ? ? ? ? ? ?. split; try done; [lia|]. exists []. by rewrite app_nil_r. Qed.

(** A computation that only goes so far, whatever it answers. *)
Definition limited {A} (c : Z) (m : M Agent A) : Prop := forall a, wp m (fun _ a' => goes 0 c a a') a.

Lemma limited_ret {A} (x : A) : limited 0 (ret x).
Proof. intros a. apply wp_ret. by apply goes_silent. Qed.
Lemma limited_raise {A} e : limited 0 (raise (A := A) e).
Proof. intros a. apply wp_raise. by apply goes_silent. Qed.
Lemma limited_await {A} (m : M W A) : limited 0 (await_ m).
Proof. intros a. unfold wp, await_. destruct (m (ag_world a)). by apply goes_silent. Qed.
Lemma limited_remember f : limited 0 (remember f).
Proof. intros a. apply wp_modify. by apply goes_silent. Qed.

Lemma limited_bind {A B} c c' (m : M Agent A) (f : A -> M Agent B) :
  0 <= c' -> limited c m -> (forall x, limited c' (f x)) -> limited (c + c') (bind m f).
Proof.
  intros Hc' Hm Hf a. apply wp_bind. eapply wp_mono; [apply Hm|]. intros [x|e] a1 H1.
  - eapply wp_mono; [apply Hf|]. intros r a2 H2. apply (goes_trans 0 c 0 c'  a a1 a2 H1 H2).
  - eapply goes_weaken; [|exact H1]. lia.
Qed.

Lemma limited_get : limited 0 get.
Proof. intros a. apply wp_get. by apply goes_silent. Qed.

Lemma limited_weaken {A} c c' (m : M Agent A) : c <= c' -> limited c m -> limited c' m.
Proof. intros Hc Hm a. eapply wp_mono; [apply Hm|]. intros r a'. by apply goes_weaken. Qed.

Lemma limited_emit e : is_thinking e = false -> (forall s s', e ≠ StateChange s s') -> limited (calls [e]) (modify (emit e)).
Proof.
  intros Ht Hs a. apply wp_modify. split; try done; [simpl; lia|]. exists [e]. split; [done|].
  destruct e as [o n|i|t c g|t c r|c]; [by destruct (Hs o n)|done|..]; by split_and!.
Qed.

Lemma limited_for_each {A} c (f : A -> M Agent unit) l : 0 <= c -> (forall x, limited c (f x)) ->
  limited (c * Z.of_nat (length l)) (for_each f l).
Proof.
  intros Hc Hf. induction l as [|x l IH]; cbn [for_each length].
  - rewrite Z.mul_0_r. apply limited_ret.
  - replace (c * Z.of_nat (S (length l))) with (c + c * Z.of_nat (length l)) by lia. apply limited_bind; [lia|apply Hf|]. by intros _.
Qed.

Lemma limited_handle call : limited 1 (handle_tool_call call).
Proof.
  assert (limited 1 (ret (S := Agent (W := W) (Output := Output)) tt)) as Hret by (eapply limited_weaken; [|apply limited_ret]; lia).
  unfold handle_tool_call. destruct call as [| | | | | | |d|]; try exact Hret.
  apply (limited_bind 0 1); [lia|intros a; apply wp_modify; by apply goes_silent|]. intros [].
  destruct (normalize_tool_call d) as [[call_id tool_name] tool_args]. case_match; [exact Hret|].
  apply (limited_bind 1 0); [lia|by apply limited_emit|]. intros _.
  apply (limited_bind 0 0); [lia|apply limited_get|]. intros a.
  apply (limited_bind 0 0); [lia|apply limited_await|]. intros text.
  apply (limited_bind 0 0); [lia|by apply limited_emit|]. intros _. apply limited_remember.
Qed.

Lemma slice_length {A} n (l : list A) : 0 <= n -> Z.of_nat (length (slice_to n l)) <= n.
Proof. intros Hn. unfold slice_to. rewrite (proj2 (Z.ltb_ge n 0)) by done. rewrite length_take. lia. Qed.

Lemma handle_calls_goes l a : 0 <= ac_max_tool_calls_per_turn (ag_config a) ->
  wp (handle_tool_calls l) (fun _ a' => goes 0 (ac_max_tool_calls_per_turn (ag_config a)) a a') a.
Proof.
  intros Hn. unfold handle_tool_calls. apply wp_bind, wp_get.
  eapply wp_mono; [apply (limited_for_each 1); [lia|apply limited_handle]|]. intros r a'. apply goes_weaken.
  pose proof (slice_length _ l Hn). lia.
Qed.

(** ** The loop *)

(** The beginning of an iteration. *)
Definition begun a : Agent := emit (Thinking (ag_iteration_count a + 1)) (with_counts (ag_iteration_count a + 1) (ag_tool_call_count a) a).

Lemma begun_goes a : goes 1 0 a (begun a).
Proof. split; try done. by exists [Thinking (ag_iteration_count a + 1)]. Qed.

Lemma execute_loop_goes fuel task : forall a, 0 <= ac_max_tool_calls_per_turn (ag_config a) ->
  wp (execute_loop fuel task) (fun _ a' => exists n, 0 <= n <= Z.max 0 (ac_max_iterations (ag_config a) - ag_iteration_count a) /\
    goes n (n * ac_max_tool_calls_per_turn (ag_config a)) a a') a.
Proof.
  induction fuel as [|fuel IH]; intros a Hn; cbn [execute_loop].
  { apply wp_raise. exists 0. split; [lia|]. by apply goes_silent. }
  apply wp_bind, wp_get. destruct (ag_iteration_count a <? ac_max_iterations (ag_config a)) eqn:Hlt.
  2:{ apply wp_raise. exists 0. split; [lia|]. by apply goes_silent. }
  apply Z.ltb_lt in Hlt. apply wp_bind, wp_modify, wp_bind, wp_modify. fold (begun a).
  set (k := ac_max_tool_calls_per_turn (ag_config a)) in *.
  assert (forall a1, goes 0 k (begun a) a1 -> goes 1 (1 * k) a a1) as Hone.
  { intros a1 H1. eapply goes_weaken; [|apply (goes_trans 1 0 0 k a (begun a) a1 (begun_goes a) H1)]. lia. }
  assert (forall a1, goes 0 k (begun a) a1 -> exists n, 0 <= n <= Z.max 0 (ac_max_iterations (ag_config a) - ag_iteration_count a) /\
            goes n (n * k) a a1) as Hstop.
  { intros a1 H1. exists 1. split; [lia|by apply Hone]. }
  assert (forall a1, goes 0 k (begun a) a1 -> wp (execute_loop fuel task)
            (fun _ a' => exists n, 0 <= n <= Z.max 0 (ac_max_iterations (ag_config a) - ag_iteration_count a) /\ goes n (n * k) a a') a1) as Hgo.
  { intros a1 H1. pose proof (Hone a1 H1) as Ha. pose proof (g_config _ _ _ _ Ha) as Hcfg. pose proof (g_count _ _ _ _ Ha) as Hcnt.
    eapply wp_mono; [apply IH; by rewrite Hcfg|]. intros r a' (n & Hn' & Hg). rewrite Hcfg in Hn', Hg. fold k in Hg.
    exists (1 + n). split; [lia|]. replace ((1 + n) * k) with (1 * k + n * k) by lia. by apply (goes_trans _ _ _ _ a a1 a'). }
  assert (0 <= k) as Hk by done.
  apply wp_bind. eapply wp_mono; [apply (limited_bind 0 0); [lia|apply limited_get|intros; apply limited_await]|].
  intros [response|e] a1 H1; [|apply Hstop; by apply (goes_weaken _ _ _ _ _ Hk H1)].
  pose proof (g_config _ _ _ _ H1) as Hcfg. change (ag_config (begun a)) with (ag_config a) in Hcfg.
  destruct (reply_tool_calls response) as [|c cs].
  - apply wp_bind. eapply wp_mono; [apply limited_remember|].
    intros r a2 H2. pose proof (goes_trans _ _ _ _ _ _ _ H1 H2) as H12. destruct r as [[]|e]; [|apply Hstop; by apply (goes_weaken _ _ _ _ _ Hk H12)].
    apply wp_bind. eapply wp_mono; [apply limited_await|]. intros r a3 H3. pose proof (goes_trans _ _ _ _ _ _ _ H12 H3) as H13.
    destruct r as [[]|e]; [|apply Hgo; by apply (goes_weaken _ _ _ _ _ Hk H13)|apply Hstop; by apply (goes_weaken _ _ _ _ _ Hk H13)].
    eapply wp_mono; [apply limited_await|]. intros r a4 H4. apply Hstop.
    pose proof (goes_trans _ _ _ _ _ _ _ H13 H4) as H14. by apply (goes_weaken _ _ _ _ _ Hk H14).
  - apply wp_bind. eapply wp_mono; [apply handle_calls_goes; by rewrite Hcfg|]. rewrite Hcfg. fold k.
    intros r a2 H2. pose proof (goes_trans _ _ _ _ _ _ _ H1 H2) as H12. destruct r as [[]|e]; [by apply Hgo|by apply Hstop].
Qed.

Lemma bind_ext {A B} (m : M Agent A) (f g : A -> M Agent B) a :
  wp m (fun r a' => forall x, r = inl x -> f x a' = g x a') a -> bind m f a = bind m g a.
Proof. unfold wp, bind. destruct (m a) as [a' [x|e]]; intros Hm; [by apply Hm|done]. Qed.

(** More fuel changes nothing. *)
Lemma loop_fuel_more fuel task : forall fuel' a, 0 <= ac_max_tool_calls_per_turn (ag_config a) ->
  (Z.to_nat (ac_max_iterations (ag_config a) - ag_iteration_count a) < fuel <= fuel')%nat ->
  execute_loop fuel' task a = execute_loop fuel task a.
Proof.
  induction fuel as [|fuel IH]; intros fuel' a Hn Hf; [lia|]. destruct fuel' as [|fuel']; [lia|]. cbn [execute_loop].
  apply bind_ext, wp_get. intros ? [= <-]. destruct (ag_iteration_count a <? ac_max_iterations (ag_config a)) eqn:Hlt; [|done].
  apply Z.ltb_lt in Hlt. apply bind_ext, wp_modify. intros [] _. apply bind_ext, wp_modify. intros [] _. fold (begun a).
  assert (forall c a1, goes 0 c (begun a) a1 -> execute_loop fuel' task a1 = execute_loop fuel task a1) as Hgo.
  { intros c a1 H1. pose proof (goes_trans _ _ _ _ _ _ _ (begun_goes a) H1) as Ha.
    pose proof (g_config _ _ _ _ Ha) as Hcfg. pose proof (g_count _ _ _ _ Ha) as Hcnt. apply IH; rewrite Hcfg; [done|]. lia. }
  apply bind_ext. eapply wp_mono; [apply (limited_bind 0 0); [lia|apply limited_get|intros; apply limited_await]|].
  intros ? a1 H1 response _.
  pose proof (g_config _ _ _ _ H1) as Hcfg. change (ag_config (begun a)) with (ag_config a) in Hcfg.
  destruct (reply_tool_calls response) as [|c cs].
  - apply bind_ext. eapply wp_mono; [apply limited_remember|]. intros ? a2 H2 [] _.
    apply bind_ext. eapply wp_mono; [apply limited_await|]. intros ? a3 H3 [] _; [done|].
    eapply Hgo. exact (goes_trans _ _ _ _ _ _ _ (goes_trans _ _ _ _ _ _ _ H1 H2) H3).
  - apply bind_ext. eapply wp_mono; [apply handle_calls_goes; by rewrite Hcfg|]. intros ? a2 H2 [] _.
    eapply Hgo. exact (goes_trans _ _ _ _ _ _ _ H1 H2).
Qed.

(** ** A run *)

(** [a'] comes from [a] by a run that changes state along [path]. *)
Record ran (path : list (AgentState * AgentState)) a a' : Prop := {
  r_config : ag_config a' = ag_config a;
  r_path : exists new, ag_log a' = ag_log a ++ new /\ state_changes new = path /\
    thoughts new <= Z.max 0 (ac_max_iterations (ag_config a)) /\
    calls new <= Z.max 0 (ac_max_iterations (ag_config a)) * ac_max_tool_calls_per_turn (ag_config a);
}.

(** How an agent that is never initialised before is made ready. *)
Definition opening (s : AgentState) : list (AgentState * AgentState) :=
  if decide (s = CREATED) then [(CREATED, INITIALIZING); (INITIALIZING, READY)] else [].
Definition opened (s : AgentState) : AgentState := if decide (s = CREATED) then READY else s.
(** An exception, or the cancellation of the task; a [KeyboardInterrupt] or [SystemExit],
    which leaves the agent RUNNING, is outside the model of exceptions. *)
Definition closing (r : Output + PyExc) : AgentState :=
  match r with inl _ => COMPLETED | inr e => if is_exception e then FAILED else CANCELLED end.

(** The state an agent is in after [ensure_initialized]. *)
Definition readied a a1 : Prop :=
  ag_config a1 = ag_config a /\ ag_state a1 = opened (ag_state a) /\
  exists new, ag_log a1 = ag_log a ++ new /\ state_changes new = opening (ag_state a) /\ thoughts new = 0 /\ calls new = 0.

Lemma bind_tools_silent a : let a' := bind_tools a in
  ag_config a' = ag_config a /\ ag_state a' = ag_state a /\ ag_log a' = ag_log a /\ ag_world a' = ag_world a.
Proof.
  unfold bind_tools. generalize (registry_tools (ag_world a)) as l. intros l. revert a. induction l as [|t l IH]; intros a; [done|]. cbn [fold_left].
  destruct (IH (if tl_tier t <=? ac_default_tier (ag_config a) then bind_tool t a else a)) as (Hc & Hs & Hl & Hw).
  cbn zeta. rewrite Hc, Hs, Hl, Hw. by case_match.
Qed.

Lemma ensure_initialized_spec a : wp ensure_initialized (fun r a1 =>
  match r with
  | inl _ => readied a a1
  | inr e => ag_state a = CREATED /\ ag_config a1 = ag_config a /\ ag_state a1 = INITIALIZING /\
      ag_log a1 = ag_log a ++ [StateChange CREATED INITIALIZING] /\ exists w w', on_initialize w = (w', inr e)
  end) a.
Proof.
  unfold ensure_initialized. apply wp_bind, wp_get. unfold readied, opened, opening. case_decide as Hs; cycle 1.
  { apply wp_ret. split_and!; try done. exists []. by rewrite app_nil_r. }
  unfold initialize. apply wp_bind, wp_modify, wp_bind, wp_get. apply wp_bind.
  eapply (wp_mono _ (fun r a1 => r = inl tt /\ ag_config a1 = ag_config a /\ ag_state a1 = INITIALIZING /\
                       ag_log a1 = ag_log a ++ [StateChange CREATED INITIALIZING])).
  { case_decide; [apply wp_ret|apply wp_modify]; (split; [done|]); cbn; by rewrite Hs. }
  intros r a1 (-> & Hc & Hst & Hl). apply wp_bind, wp_modify. destruct (bind_tools_silent a1) as (Hc1 & Hs1 & Hl1 & Hw1).
  apply wp_bind. unfold wp at 1, await_. destruct (on_initialize (ag_world (bind_tools a1))) as [w' [[]|e]] eqn:Hon.
  - apply wp_modify. cbn. rewrite Hc1, Hs1, Hl1, Hc, Hst, Hl, <- app_assoc. split_and!; [done..|]. by eexists.
  - cbn. rewrite Hc1, Hs1, Hl1, Hc, Hst, Hl. split_and!; [done..|]. by eexists _, _.
Qed.
(** The agent once it runs. *)
Definition started a : Agent := with_counts 0 0 (set_state RUNNING a).

(** The iterations of a run end.  From the counters that [run] sets, the loop gives
    the same agent and the same outcome with any more fuel than its limit on iterations
    calls for. *)
Theorem loop_terminates task a fuel : 0 <= ac_max_tool_calls_per_turn (ag_config a) -> (loop_fuel (started a) <= fuel)%nat ->
  execute_loop fuel task (started a) = execute_loop (loop_fuel (started a)) task (started a).
Proof.
  intros Hn Hf. apply loop_fuel_more; [done|]. unfold loop_fuel in *. cbn [ag_iteration_count started with_counts]. split; [|done].
  rewrite Z.sub_0_r. lia.
Qed.

(** What a run does once the agent is ready. *)
Lemma run_body_spec task a : 0 <= ac_max_tool_calls_per_turn (ag_config a) -> ag_iteration_count a = 0 ->
  wp (message <- of_res (format_task_message task);
      remember (fun t => add_user t message);;
      a <- get;
      execute_loop (loop_fuel a) task)
    (fun _ a' => exists n, 0 <= n <= Z.max 0 (ac_max_iterations (ag_config a)) /\
      goes n (n * ac_max_tool_calls_per_turn (ag_config a)) a a') a.
Proof.
  intros Hk Hi. set (k := ac_max_tool_calls_per_turn (ag_config a)) in *.
  assert (forall a1, goes 0 0 a a1 -> exists n, 0 <= n <= Z.max 0 (ac_max_iterations (ag_config a)) /\ goes n (n * k) a a1) as Hstop.
  { intros a1 H1. exists 0. split; [lia|done]. }
  apply wp_bind. destruct (format_task_message task) as [m|e]; cbn [of_res].
  2:{ apply wp_raise, Hstop. by apply goes_silent. }
  apply wp_ret, wp_bind. eapply wp_mono; [apply limited_remember|]. intros [[]|e] a1 H1; [|by apply Hstop].
  apply wp_bind, wp_get. pose proof (g_config _ _ _ _ H1) as Hc. pose proof (g_count _ _ _ _ H1) as Hc0.
  eapply wp_mono; [apply execute_loop_goes; by rewrite Hc|]. intros r a' (n & Hn & Hg). rewrite Hc in Hn, Hg. fold k in Hg.
  exists n. split; [lia|]. exact (goes_trans _ _ _ _ _ _ _ H1 Hg).
Qed.

(** The body of [run] is that, and the state its result calls for. *)
Lemma run_body_ends task a : 0 <= ac_max_tool_calls_per_turn (ag_config a) -> ag_iteration_count a = 0 ->
  wp (try_except
        (message <- of_res (format_task_message task);
         remember (fun t => add_user t message);;
         a <- get;
         result <- execute_loop (loop_fuel a) task;
         modify (fun a => set_state COMPLETED (with_result (Some result) a));;
         ret result)
        (fun e => modify (on_failure e);; raise e))
    (fun r a' => exists n a1, 0 <= n <= Z.max 0 (ac_max_iterations (ag_config a)) /\
      goes n (n * ac_max_tool_calls_per_turn (ag_config a)) a a1 /\
      a' = match r with inl out => set_state COMPLETED (with_result (Some out) a1) | inr e => on_failure e a1 end) a.
Proof.
  intros Hk Hi. pose proof (run_body_spec task a Hk Hi) as Hb. unfold wp, try_except, bind, modify, get, raise, ret in *.
  destruct (of_res (format_task_message task) a) as [a1 [m|e]]; [|destruct Hb as (n & ? & ?); by exists n, a1].
  destruct (remember _ a1) as [a2 [[]|e]]; [|destruct Hb as (n & ? & ?); by exists n, a2].
  destruct (execute_loop _ task a2) as [a3 [out|e]]; destruct Hb as (n & ? & ?); by exists n, a3.
Qed.

(** C34. A run ends in the state its outcome calls for.  Either the initialisation of a
    fresh agent raised: then the agent is left in INITIALIZING, and the exception is
    that one.  Or the agent went through RUNNING, initialised first exactly when it was
    CREATED: a result is stored and leaves it COMPLETED, an exception leaves it FAILED
    with its text as the error, a cancellation leaves it CANCELLED.  It
    begins at most [max_iterations] iterations, counts them, and dispatches at most
    [max_tool_calls_per_turn] tools in each. *)
Theorem run_settles task a : 0 <= ac_max_tool_calls_per_turn (ag_config a) ->
  let '(a', r) := run task a in
  (ag_state a = CREATED /\ ag_state a' = INITIALIZING /\
     ag_log a' = ag_log a ++ [StateChange CREATED INITIALIZING] /\ exists w w' e, r = inr e /\ on_initialize w = (w', inr e)) \/
  (ran (opening (ag_state a) ++ [(opened (ag_state a), RUNNING); (RUNNING, closing r)]) a a' /\
     ag_state a' = closing r /\ 0 <= ag_iteration_count a' <= Z.max 0 (ac_max_iterations (ag_config a)) /\
     match r with
     | inl out => ag_last_result a' = Some out
     | inr e => is_exception e = true -> ag_error a' = Some (ex_msg e)
     end).
Proof.
  intros Hk. change (wp (run task) (fun r a' => 
    (ag_state a = CREATED /\ ag_state a' = INITIALIZING /\
       ag_log a' = ag_log a ++ [StateChange CREATED INITIALIZING] /\ exists w w' e, r = inr e /\ on_initialize w = (w', inr e)) \/
    (ran (opening (ag_state a) ++ [(opened (ag_state a), RUNNING); (RUNNING, closing r)]) a a' /\
       ag_state a' = closing r /\ 0 <= ag_iteration_count a' <= Z.max 0 (ac_max_iterations (ag_config a)) /\
       match r with
       | inl out => ag_last_result a' = Some out
       | inr e => is_exception e = true -> ag_error a' = Some (ex_msg e)
       end)) a).
  unfold run. apply wp_bind. eapply wp_mono; [apply ensure_initialized_spec|]. intros [[]|e] a1 H1; cycle 1.
  { destruct H1 as (? & ? & ? & ? & w & w' & ?). left. split; [done|]. split; [done|]. split; [done|]. by exists w, w', e. }
  destruct H1 as (Hc & Hs & new & Hl & Hp & Ht & Hcl).
  apply wp_bind, wp_modify, wp_bind, wp_modify. fold (started a1).
  eapply wp_mono; [apply run_body_ends; [by rewrite <- Hc in Hk|done]|]. change (ag_config (started a1)) with (ag_config a1). rewrite Hc.
  intros r a' (n & a2 & Hn & [Hc2 Hs2 _ _ _ Hn2 (l & Hl2 & Ht2 & Hcl2 & Hp2)] & ->). right.
  assert (forall a', ag_config a' = ag_config a2 -> ag_log a' = ag_log a2 ++ [StateChange RUNNING (closing r)] ->
    ran (opening (ag_state a) ++ [(opened (ag_state a), RUNNING); (RUNNING, closing r)]) a a') as Hran.
  { intros a' Hc' Hl'. split; [by rewrite Hc', Hc2|].
    exists (new ++ [StateChange (opened (ag_state a)) RUNNING] ++ l ++ [StateChange RUNNING (closing r)]).
    rewrite Hl', Hl2. change (ag_log (started a1)) with (ag_log a1 ++ [StateChange (ag_state a1) RUNNING]). rewrite Hl, Hs, <- !app_assoc.
    split; [done|]. unfold state_changes, thoughts, calls in *. rewrite !omap_app, !filter_app, !length_app, Hp, Hp2. split; [done|].
    simpl. split; [lia|]. nia. }
  destruct r as [out|e]; [|unfold on_failure, closing in *; destruct (is_exception e) eqn:He].
  all: split; [apply Hran; [done|]; cbn; by rewrite Hs2|]; split; [done|]; split; [cbn in *; lia|done].
Qed.
End facts.

(** ** Witnesses

    A model that asks for one call of a tool, and then answers. *)

#[local] Instance demo_memory : MemoryEnv := {|
  Time := string; isoformat t := t; fromisoformat s := Some s; Memory.repr _ := "<value>"; Memory.float_repr _ := "0.5";
|}.

#[local] Instance demo_model : AgentModel (W := nat) string string := {|
  call_model messages _ w :=
    (S w, inl (if (2 <? length messages)%nat then mkReply "done" [] else mkReply "" [demo_call "grep"; demo_call "grep"; demo_call "grep"]));
  stream_response _ _ w := (w, inl ["done"]);
  format_task_message task := Ok task;
  is_task_complete _ _ w := (w, inl true);
  parse_output _ content w := (w, inl content);
  on_initialize w := if (w =? 7)%nat then (w, inr (exc_of (RuntimeError "down"))) else (w, inl tt);
  on_cleanup w := (w, inl tt);
  registry_tools _ := [demo_tool "shell" 3 true; demo_tool "grep" 0 false];
  output_str s := s;
  now _ := "t";
|}.

Definition demo_config (iterations : Z) : AgentConfig := mkAgentConfig "agent" "" "be brief" 2 iterations 2 50 8000 false.
Definition demo_agent (w : nat) (iterations : Z) : Agent := new_agent (Input := string) (demo_config iterations) w.

Lemma loop_terminates_witness :
  0 <= 2 /\ execute_loop 20 "hi" (started (demo_agent 1 5)) = execute_loop (loop_fuel (started (demo_agent 1 5))) "hi" (started (demo_agent 1 5)).
Proof. split; [lia|]. apply (loop_terminates "hi" (demo_agent 1 5) 20); [by vm_compute|]. apply Nat.leb_le. by vm_compute. Defined.

Lemma run_settles_witness :
  let '(a', r) := run "hi" (demo_agent 1 5) in r = inl "done" /\ ag_state a' = COMPLETED /\ ag_iteration_count a' = 2 /\ ag_tool_call_count a' = 2.
Proof.
  pose proof (run_settles "hi" (demo_agent 1 5) ltac:(by vm_compute)) as H.
  destruct (run "hi" (demo_agent 1 5)) as [a' r] eqn:E. vm_compute in E. injection E as <- <-.
  destruct H as [(_ & H & _)|(_ & H & _)]; [discriminate H|]. by split_and!.
Defined.

(** Too few iterations fail the run. *)
Example too_few_iterations : (run "hi" (demo_agent 1 1)).2 = inr (max_iterations_error 1) /\ ag_state (run "hi" (demo_agent 1 1)).1 = FAILED.
Proof. split; vm_compute; reflexivity. Qed.

(** An agent whose initialisation failed runs without it the next time: no tool is bound,
    and nothing is initialised again. *)
Example failed_initialize_not_retried :
  let a := (run "hi" (demo_agent 7 5)).1 in
  ag_state a = INITIALIZING /\
  let '(a', r) := run "hi" (with_world 1%nat a) in r = inl "done" /\ ag_state a' = COMPLETED /\
    state_changes (ag_log a') = [(CREATED, INITIALIZING); (INITIALIZING, RUNNING); (RUNNING, COMPLETED)].
Proof. by vm_compute. Qed.
