(* ===== verification/Auth.v ===== *)
(** * Authentication of requests (server/auth.py, server/websocket.py)

    The API key check of HTTP requests and of WebSocket handshakes, the lockout of
    addresses that fail it, and the origin check of browsers.  The middleware checks,
    compares and counts without an [await], so a request is one step; a handshake
    awaits between the check and the count, so it is two. *)

From stdpp Require Import pretty.
From Stdlib Require Import QArith Qround Lqa.
From S2P Require Import Prelude PyStr PyVal Governance.
Local Open Scope Q_scope.

(** ** The throttle *)

Record ThrottleState := mkThrottleState { failures : list Q; locked_until : option Q }.
Definition new_throttle_state : ThrottleState := mkThrottleState [] None.

Record AuthThrottle := mkThrottle {
  window : Q;
  threshold : Z;
  lockout : Q;
  states : gmap string ThrottleState;
}.
Definition new_throttle (w : Q) (n : Z) (l : Q) : AuthThrottle := mkThrottle w n l ∅.
Definition default_throttle : AuthThrottle := new_throttle 60 5 300.
Definition with_states (m : gmap string ThrottleState) (th : AuthThrottle) : AuthThrottle :=
  mkThrottle (window th) (threshold th) (lockout th) m.

(** [while failures and failures[0] <= cutoff: popleft()] *)
Fixpoint drop_until (cutoff : Q) (l : list Q) : list Q :=
  match l with
  | [] => []
  | t :: l' => if Qle_bool t cutoff then drop_until cutoff l' else l
  end.

Definition is_expired (w now : Q) (s : ThrottleState) : bool :=
  match locked_until s with None => true | Some t => Qle_bool t now end &&
  match last (failures s) with None => true | Some t => Qle_bool t (now - w) end.

Definition evict_expired (now : Q) (th : AuthThrottle) : AuthThrottle :=
  with_states (filter (fun kv => is_expired (window th) now kv.2 = false) (states th)) th.

(** Whether the address is locked out, and for how long still. *)
Definition is_locked (ip : string) (now : Q) (th : AuthThrottle) : AuthThrottle * (bool * Q) :=
  let th := evict_expired now th in
  match states th !! ip with
  | Some s =>
      match locked_until s with
      | Some until =>
          if negb (Qle_bool (until - now) 0) then (th, (true, until - now))
          else (with_states (<[ip := new_throttle_state]> (states th)) th, (false, 0))
      | None => (th, (false, 0))
      end
  | None => (th, (false, 0))
  end.

Definition record_failure (ip : string) (now : Q) (th : AuthThrottle) : AuthThrottle :=
  let s := default new_throttle_state (states th !! ip) in
  let recent := drop_until (now - window th) (failures s) ++ [now] in
  let s := if (threshold th <=? Z.of_nat (length recent))%Z
           then mkThrottleState [] (Some (now + lockout th))
           else mkThrottleState recent (locked_until s) in
  with_states (<[ip := s]> (states th)) th.

Definition record_success (ip : string) (th : AuthThrottle) : AuthThrottle := with_states (delete ip (states th)) th.

(** ** Tokens *)

Inductive TokenSource := authorization | x_api_key | query.
Definition source_value (s : TokenSource) : string :=
  match s with authorization => "authorization" | x_api_key => "x-api-key" | query => "query" end.
Record AuthToken := mkToken { token_value : string; token_source : TokenSource }.
Definition is_deprecated_transport (t : AuthToken) : bool := match token_source t with query => true | _ => false end.

(** The headers, keyed by their names in lower case *)
Definition api_key_header (headers : odict string) : option AuthToken :=
  match od_get "x-api-key" headers with
  | Some h => let token := strip h in if decide (token = "") then None else Some (mkToken token x_api_key)
  | None => None
  end.
Definition extract_token (headers : odict string) : option AuthToken :=
  let auth_header := default "" (od_get "authorization" headers) in
  if startswith (lower auth_header) "bearer "
  then let token := strip (String.substring 7 (String.length auth_header - 7) auth_header) in
       if decide (token = "") then api_key_header headers else Some (mkToken token authorization)
  else api_key_header headers.

Definition is_token_authorized (token api_key : option string) : bool :=
  match api_key with
  | None => true
  | Some key => match token with Some t => bool_decide (t = key) | None => false end
  end.

Definition PUBLIC_PREFIXES : list string := ["/api/health"; "/docs"; "/openapi.json"; "/redoc"].
Definition PUBLIC_EXACT_PATHS : list string := ["/metrics"].
Definition is_public_path (path : string) : bool :=
  if decide (path ∈ PUBLIC_EXACT_PATHS) then true
  else if negb (startswith path "/api/") then true
  else existsb (startswith path) PUBLIC_PREFIXES.

(** ** HTTP requests *)

Record HttpRequest := mkRequest {
  rq_path : string;
  rq_client : option string;
  rq_headers : odict string;
}.

Inductive Response := Forward | Unauthorized | TooMany (retry_after : Z).

(** The audit events of authentication: type, outcome, retry hint *)
Inductive AuthEvent := EvThrottled (retry_after : Z) | EvFailed (source : string) | EvSucceeded (source : string).

Definition retry_hint (retry_after : Q) : Z := Qfloor (if Qle_bool 1 retry_after then retry_after else 1).
(** [_build_throttle_response] *)
Definition throttle_response (retry_after : Q) : Response := TooMany (Z.max 1 (Qfloor retry_after)).
Definition source_or_missing (t : option AuthToken) : string := match t with Some t => source_value (token_source t) | None => "missing" end.
Definition client_of (r : HttpRequest) : string := default "unknown" (rq_client r).

(** [dispatch]; the clock is read at [t1] by the check, at [t2] by the count and at
    [t3] by the second check. *)
Definition dispatch (api_key : option string) (r : HttpRequest) (t1 t2 t3 : Q) (th : AuthThrottle)
    : AuthThrottle * Response * list AuthEvent :=
  match api_key with
  | None => (th, Forward, [])
  | Some _ =>
      if is_public_path (rq_path r) then (th, Forward, [])
      else
        let ip := client_of r in
        let '(th, (locked, retry_after)) := is_locked ip t1 th in
        if locked : bool then (th, throttle_response retry_after, [EvThrottled (retry_hint retry_after)])
        else
          let token := extract_token (rq_headers r) in
          match token with
          | Some t =>
              if is_token_authorized (Some (token_value t)) api_key
              then (record_success ip th, Forward, [EvSucceeded (source_value (token_source t))])
              else
                let '(th, (locked, retry_after)) := is_locked ip t3 (record_failure ip t2 th) in
                if locked : bool then (th, throttle_response retry_after, [EvThrottled (retry_hint retry_after)])
                else (th, Unauthorized, [EvFailed (source_or_missing token)])
          | None =>
              let '(th, (locked, retry_after)) := is_locked ip t3 (record_failure ip t2 th) in
              if locked : bool then (th, throttle_response retry_after, [EvThrottled (retry_hint retry_after)])
              else (th, Unauthorized, [EvFailed (source_or_missing token)])
          end
  end.

(** ** WebSocket handshakes *)

(** [urlparse]: the scheme, the hostname in lower case and the port; [Raise] where
    reading the port raises. *)
Class UrlParse := { url_scheme : string -> string; url_hostname : string -> option string; url_port : string -> res (option Z) }.

Section origins.
Context `{!UrlParse}.

Fixpoint rstrip_slash (l : list Ascii.ascii) : list Ascii.ascii :=
  match l with
  | [] => []
  | c :: l' => match rstrip_slash l' with [] => if decide (c = "/"%char) then [] else [c] | r => c :: r end
  end.
Definition normalize_origin (origin : option string) : option string :=
  o ← origin; let n := of_chars (rstrip_slash (chars (strip o))) in if decide (n = "") then None else Some n.

Definition default_port (scheme : string) : option Z :=
  if decide (scheme ∈ ["http"; "ws"]) then Some 80%Z
  else if decide (scheme ∈ ["https"; "wss"]) then Some 443%Z else None.

(** [port or default]: a port of 0 counts as absent *)
Definition port_or (port : option Z) (d : option Z) : option Z :=
  match port with Some p => if (p =? 0)%Z then d else Some p | None => d end.

Definition origin_matches_host (origin host : string) : res bool :=
  match url_hostname origin with
  | None => Ok false
  | Some origin_host =>
      let origin_scheme := if decide (url_scheme origin = "") then "http" else url_scheme origin in
      p ← url_port origin;
      match url_hostname ("//" +:+ host) with
      | None => Ok false
      | Some host_name =>
          q ← url_port ("//" +:+ host);
          Ok (bool_decide (lower origin_host = lower host_name) &&
              bool_decide (port_or p (default_port origin_scheme) = port_or q (default_port origin_scheme)))
      end
  end.

Definition is_localhost_origin (origin : string) : bool :=
  match url_hostname origin with Some h => bool_decide (h ∈ ["localhost"; "127.0.0.1"; "::1"]) | None => false end.

Definition DEFAULT_CORS_ORIGINS : list string :=
  ["http://localhost:5173"; "http://127.0.0.1:5173"; "http://localhost:8000"; "http://127.0.0.1:8000";
   "http://localhost:8010"; "http://127.0.0.1:8010"].

(** [get_allowed_origins], from the secret; an item of slashes alone becomes [None]. *)
Definition get_allowed_origins (raw : option string) : list (option string) :=
  match raw with
  | Some r => if decide (r = "") then Some <$> DEFAULT_CORS_ORIGINS
              else (fun item => normalize_origin (Some item)) <$> filter (fun item => strip item ≠ "") (split_comma r)
  | None => Some <$> DEFAULT_CORS_ORIGINS
  end.

Definition is_origin_allowed (headers : odict string) (raw : option string) : res bool :=
  match normalize_origin (od_get "origin" headers) with
  | None => Ok true
  | Some origin =>
      m ← origin_matches_host origin (default "" (od_get "host" headers));
      if m : bool then Ok true
      else if is_localhost_origin origin then Ok true
      else Ok (existsb (fun allowed => bool_decide (allowed = Some "*") || bool_decide (normalize_origin allowed = Some origin))
                 (get_allowed_origins raw))
  end.
End origins.

(** How a handshake goes on: accepted, refused for good, or refused after the close
    of the socket, with a failure still to be counted. *)
Inductive Handshake := Accepted | Refused (reason : string) | Counting (source : string).

(** What OIDC answers for a bearer token, when it is enabled *)
Inductive OidcAnswer := OidcActor | OidcInvalid | OidcUnavailable.

Definition ws_authenticate (api_key : option string) (oidc : option OidcAnswer) (token : option AuthToken) : Handshake :=
  let by_key := match api_key, token with Some _, Some t => is_token_authorized (Some (token_value t)) api_key | _, _ => false end in
  if by_key then Accepted
  else
    match oidc, token with
    | Some answer, Some (mkToken _ authorization) =>
        match answer with
        | OidcActor => Accepted
        | OidcUnavailable => Refused "Authentication unavailable"
        | OidcInvalid => Counting (source_or_missing token)
        end
    | _, _ => Counting (source_or_missing token)
    end.

(** [_reject_websocket_connection] up to the close of the socket: [allowed] is the origin
    check, [query_token] whether the query carries one.  The authenticator is awaited
    with [oidc] as its answer. *)
Definition ws_begin (allowed query_token : bool) (api_key : option string) (oidc : option OidcAnswer)
    (headers : odict string) (ip : string) (now : Q) (th : AuthThrottle) : AuthThrottle * Handshake :=
  if negb allowed then (th, Refused "Origin not allowed")
  else if query_token then (th, Refused "Query-string API keys are not supported for WebSocket auth")
  else
    match api_key, oidc with
    | None, None => (th, Accepted)
    | _, _ =>
        let '(th, (locked, _)) := is_locked ip now th in
        if locked : bool then (th, Refused "Too many failed authentication attempts")
        else
          match ws_authenticate api_key oidc (extract_token headers) with
          | Accepted => (record_success ip th, Accepted)
          | h => (th, h)
          end
    end.

(** The rest of a refused handshake. *)
Definition ws_count (ip : string) (source : string) (t2 t3 : Q) (th : AuthThrottle) : AuthThrottle * list AuthEvent :=
  let '(th, (locked, retry_after)) := is_locked ip t3 (record_failure ip t2 th) in
  (th, if locked : bool then [EvThrottled (retry_hint retry_after)] else [EvFailed source]).
