(* ===== verification/AuthFacts.v ===== *)
(** * Correctness of the lockout

    Whatever requests come in, the comparisons of one address with the key are spaced by
    the window or the lockout, a lockout has its cause, and addresses do not affect each
    other: dropping idle entries is invisible. *)

From Stdlib Require Import QArith Qround Qminmax Lqa Sorted.
From S2P Require Import Prelude PyStr PyVal Auth.
Local Open Scope Q_scope.

(** ** Histories of requests *)

(** A request and the three clock readings it may take. *)
Record Visit := mkVisit { vi_request : HttpRequest; vi_t1 : Q; vi_t2 : Q; vi_t3 : Q }.
Definition visitor (v : Visit) : string := client_of (vi_request v).

(** The clock never runs backwards. *)
Fixpoint ordered (c : Q) (l : list Visit) : Prop :=
  match l with
  | [] => True
  | v :: l' => c <= vi_t1 v /\ vi_t1 v <= vi_t2 v /\ vi_t2 v <= vi_t3 v /\ ordered (vi_t3 v) l'
  end.

Section history.
Context (key : string).

Definition serve_one (v : Visit) (th : AuthThrottle) : AuthThrottle * Response :=
  (dispatch (Some key) (vi_request v) (vi_t1 v) (vi_t2 v) (vi_t3 v) th).1.
Fixpoint serve (l : list Visit) (th : AuthThrottle) : list (Visit * Response) :=
  match l with
  | [] => []
  | v :: l' => let '(th, r) := serve_one v th in (v, r) :: serve l' th
  end.
Definition after (l : list Visit) (th : AuthThrottle) : AuthThrottle := foldl (fun th v => (serve_one v th).1) th l.

Definition guarded (v : Visit) : bool := negb (is_public_path (rq_path (vi_request v))).
Definition right_key (v : Visit) : bool :=
  match extract_token (rq_headers (vi_request v)) with
  | Some t => is_token_authorized (Some (token_value t)) (Some key)
  | None => false
  end.
(** The credentials of the request were compared with the key. *)
Definition compared (v : Visit) (th : AuthThrottle) : bool := guarded v && negb (is_locked (visitor v) (vi_t1 v) th).2.1.

(** The failed comparisons of an address since its last success. *)
Definition note (ip : string) (v : Visit) (th : AuthThrottle) (acc : list Q) : list Q :=
  if bool_decide (visitor v = ip) && compared v th then if right_key v then [] else acc ++ [vi_t2 v] else acc.
Fixpoint guesses_from (ip : string) (l : list Visit) (th : AuthThrottle) (acc : list Q) : list Q :=
  match l with
  | [] => acc
  | v :: l' => guesses_from ip l' (serve_one v th).1 (note ip v th acc)
  end.
Definition guesses (ip : string) (l : list Visit) (th : AuthThrottle) : list Q := guesses_from ip l th [].

(** What a guarded request does, in one line. *)
Lemma serve_one_guarded v th : guarded v = true ->
  serve_one v th =
    let ip := visitor v in
    let '(th1, (locked, retry)) := is_locked ip (vi_t1 v) th in
    if locked then (th1, throttle_response retry)
    else if right_key v then (record_success ip th1, Forward)
    else
      let '(th2, (locked, retry)) := is_locked ip (vi_t3 v) (record_failure ip (vi_t2 v) th1) in
      (th2, if locked then throttle_response retry else Unauthorized).
Proof.
  intros Hg. unfold serve_one, dispatch, right_key, visitor. apply negb_true_iff in Hg. rewrite Hg. cbn zeta.
  destruct (is_locked _ (vi_t1 v) th) as [th1 [[] retry]]; [done|].
  destruct (extract_token _) as [t|].
  - destruct (is_token_authorized _ _); [done|]. by destruct (is_locked _ (vi_t3 v) _) as [th2 [[] retry2]].
  - by destruct (is_locked _ (vi_t3 v) _) as [th2 [[] retry2]].
Qed.

Lemma serve_one_public v th : guarded v = false -> serve_one v th = (th, Forward).
Proof. intros Hg. unfold serve_one, dispatch. apply negb_false_iff in Hg. by rewrite Hg. Qed.
End history.

(** ** The throttle, one address at a time *)

Definition state_of (ip : string) (th : AuthThrottle) : ThrottleState := default new_throttle_state (states th !! ip).

Definition fail_state (w : Q) (n : Z) (l now : Q) (s : ThrottleState) : ThrottleState :=
  let recent := drop_until (now - w) (failures s) ++ [now] in
  if (n <=? Z.of_nat (length recent))%Z then mkThrottleState [] (Some (now + l)) else mkThrottleState recent (locked_until s).

Definition check_state (now : Q) (s : ThrottleState) : ThrottleState * (bool * Q) :=
  match locked_until s with
  | Some until => if negb (Qle_bool (until - now) 0) then (s, (true, until - now)) else (new_throttle_state, (false, 0))
  | None => (s, (false, 0))
  end.

Definition evict_state (w now : Q) (s : ThrottleState) : ThrottleState := if is_expired w now s then new_throttle_state else s.

Lemma evict_state_of ip now th : state_of ip (evict_expired now th) = evict_state (window th) now (state_of ip th).
Proof.
  unfold state_of, evict_expired, evict_state. cbn [states with_states]. set (m := filter _ (states th)).
  destruct (states th !! ip) as [s|] eqn:E; cbn [default]; unfold id.
  - destruct (is_expired (window th) now s) eqn:Ex.
    + assert (m !! ip = None) as ->; [|done]. apply map_lookup_filter_None. right. intros s'. rewrite E. intros [= <-]. cbn. by rewrite Ex.
    + assert (m !! ip = Some s) as ->; [|done]. by apply map_lookup_filter_Some.
  - assert (m !! ip = None) as ->; [|by destruct (is_expired _ _ _)]. apply map_lookup_filter_None. by left.
Qed.

(** A check evicts, and then treats its own address. *)
Lemma is_locked_spec ip now th : let '(th', r) := is_locked ip now th in
  check_state now (evict_state (window th) now (state_of ip th)) = (state_of ip th', r) /\
  (forall ip', ip' ≠ ip -> state_of ip' th' = evict_state (window th) now (state_of ip' th)) /\
  window th' = window th /\ threshold th' = threshold th /\ lockout th' = lockout th.
Proof.
  unfold is_locked. set (th1 := evict_expired now th).
  assert (forall ip', state_of ip' th1 = evict_state (window th) now (state_of ip' th)) as Hev by (intros; apply evict_state_of).
  rewrite <- (Hev ip). unfold state_of at 1, check_state.
  destruct (states th1 !! ip) as [s|] eqn:E; cbn [default]; unfold id.
  - destruct (locked_until s) as [u|] eqn:Hl.
    + destruct (negb (Qle_bool (u - now) 0)).
      * split; [by unfold state_of; rewrite E|done].
      * split; [unfold state_of; cbn; by rewrite lookup_insert_eq|]. split; [|done]. intros ip' Hne. rewrite <- Hev. unfold state_of. cbn. by rewrite lookup_insert_ne.
    + split; [by unfold state_of; rewrite E|done].
  - cbn. split; [by unfold state_of; rewrite E|done].
Qed.

Lemma record_failure_spec ip now th : let th' := record_failure ip now th in
  state_of ip th' = fail_state (window th) (threshold th) (lockout th) now (state_of ip th) /\
  (forall ip', ip' ≠ ip -> state_of ip' th' = state_of ip' th) /\
  window th' = window th /\ threshold th' = threshold th /\ lockout th' = lockout th.
Proof.
  cbn zeta. unfold record_failure, state_of. cbn. split; [by rewrite lookup_insert_eq|]. split; [|done].
  intros ip' Hne. by rewrite lookup_insert_ne.
Qed.

Lemma record_success_spec ip th : let th' := record_success ip th in
  state_of ip th' = new_throttle_state /\ (forall ip', ip' ≠ ip -> state_of ip' th' = state_of ip' th) /\
  window th' = window th /\ threshold th' = threshold th /\ lockout th' = lockout th.
Proof.
  cbn zeta. unfold record_success, state_of. cbn. split; [by rewrite lookup_delete_eq|]. split; [|done].
  intros ip' Hne. by rewrite lookup_delete_ne.
Qed.

(** ** Sorted histories *)

Lemma drop_until_split cutoff l : exists old, l = old ++ drop_until cutoff l /\ Forall (fun t => t <= cutoff) old /\
  forall t, head (drop_until cutoff l) = Some t -> cutoff < t.
Proof.
  induction l as [|t l (old & Hl & Hold & Hh)]; [by exists []|]. cbn [drop_until]. destruct (Qle_bool t cutoff) eqn:E.
  - exists (t :: old). rewrite Hl at 1. split; [done|]. split; [|done]. constructor; [by apply Qle_bool_iff|done].
  - exists []. split; [done|]. split; [constructor|]. intros ? [= <-]. apply Qnot_le_lt. intros H%Qle_bool_iff. congruence.
Qed.

Lemma sorted_last l t x : StronglySorted Qle l -> last l = Some t -> x ∈ l -> x <= t.
Proof.
  intros Hs. induction Hs as [|a l Hs IH Ha]; [done|]. destruct l as [|b l].
  - intros [= <-] ->%list_elem_of_singleton. apply Qle_refl.
  - intros Hl [->|Hx]%elem_of_cons; [|by apply IH]. rewrite Forall_forall in Ha. apply Ha. by apply last_Some_elem_of.
Qed.

Lemma sorted_app_tail (l k : list Q) : StronglySorted Qle (l ++ k) -> StronglySorted Qle k.
Proof. induction l as [|a l IH]; [done|]. inversion 1; subst. by apply IH. Qed.

Lemma sorted_head l t x : StronglySorted Qle l -> head l = Some t -> x ∈ l -> t <= x.
Proof.
  destruct 1 as [|a l Hs Ha]; [done|]. intros [= <-] [->|Hx]%elem_of_cons; [apply Qle_refl|]. rewrite Forall_forall in Ha. by apply Ha.
Qed.

Lemma sorted_snoc l c : StronglySorted Qle l -> Forall (fun x => x <= c) l -> StronglySorted Qle (l ++ [c]).
Proof.
  induction 1 as [|a l Hs IH Ha]; intros Hc; [repeat constructor|]. inversion Hc; subst. cbn. constructor; [by apply IH|].
  apply Forall_app. split; [done|by constructor].
Qed.

(** ** What the history of an address says about its state *)
Section lockout.
Context (w lo : Q) (n : Z) (Hw : 0 < w) (Hn : (1 <= n)%Z).
Notation N := (Z.to_nat n).
Notation m := (Qmin w lo).

(** [n] failures within the window. *)
Definition burst (acc : list Q) (t' : Q) : Prop :=
  exists i t, acc !! i = Some t /\ acc !! (i + (N - 1))%nat = Some t' /\ t' - t < w.

Record inv (c : Q) (acc : list Q) (s : ThrottleState) : Prop := {
  i_sorted : StronglySorted Qle acc;
  i_past : Forall (fun x => x <= c) acc;
  i_spaced : forall i t t', acc !! i = Some t -> acc !! (i + N)%nat = Some t' -> t + m <= t';
  i_state :
    match locked_until s with
    | Some u => failures s = [] /\ Forall (fun x => x + m <= u) acc /\ exists t', burst acc t' /\ u = t' + lo
    | None => exists older, acc = older ++ failures s /\ Forall (fun x => x + m <= c) older /\ (length (failures s) < N)%nat
    end;
}.

Lemma inv_new c : inv c [] new_throttle_state.
Proof. split; [constructor|constructor|by intros ? ? ?; rewrite lookup_nil|]. exists []. split; [done|]. split; [constructor|]. cbn. lia. Qed.

Lemma Forall_le_mono (P : Q -> Q) (l : list Q) c c' : c <= c' -> Forall (fun x => P x <= c) l -> Forall (fun x => P x <= c') l.
Proof. intros Hc Hl. eapply Forall_impl; [exact Hl|]. cbn. intros x Hx. lra. Qed.

Lemma inv_mono c c' acc s : c <= c' -> inv c acc s -> inv c' acc s.
Proof.
  intros Hc [Hs Hp Hsp Hst]. split; [done|by eapply (Forall_le_mono (fun x => x))|done|].
  destruct (locked_until s); [done|]. destruct Hst as (older & ? & ? & ?). exists older. split; [done|]. split; [|done]. by eapply (Forall_le_mono (fun x => x + m)).
Qed.

Lemma min_window x : x + m <= x + w.
Proof. pose proof (Q.le_min_l w lo). lra. Qed.
Lemma min_lockout x : x + m <= x + lo.
Proof. pose proof (Q.le_min_r w lo). lra. Qed.

Lemma inv_forget c acc s : inv c acc s -> Forall (fun x => x + m <= c) acc -> inv c acc new_throttle_state.
Proof. intros [Hs Hp Hsp _] Hall. split; try done. exists acc. cbn. rewrite app_nil_r. split; [done|]. split; [done|]. lia. Qed.

Lemma inv_evict c now acc s : c <= now -> inv c acc s -> inv now acc (evict_state w now s).
Proof.
  intros Hc Hinv%(inv_mono c now); [|done]. unfold evict_state. destruct (is_expired w now s) eqn:Ex; [|done].
  apply (inv_forget _ _ s Hinv). destruct Hinv as [Hs _ _ Hst]. unfold is_expired in Ex. apply andb_prop in Ex as [El Ef].
  destruct (locked_until s) as [u|].
  - destruct Hst as (_ & Hall & _). apply Qle_bool_iff in El. by eapply (Forall_le_mono (fun x => x + m)).
  - destruct Hst as (older & -> & Hold & _). apply Forall_app. split; [done|]. apply Forall_forall. intros x Hx.
    destruct (last (failures s)) as [t|] eqn:Hlast.
    + apply Qle_bool_iff in Ef. pose proof (sorted_last _ t x (sorted_app_tail _ _ Hs) Hlast Hx). pose proof (min_window x). lra.
    + apply last_None in Hlast. rewrite Hlast in Hx. by apply elem_of_nil in Hx.
Qed.

Lemma inv_check now acc s : inv now acc s ->
  let '(s', (b, _)) := check_state now s in
  inv now acc s' /\ (if b then exists u, locked_until s = Some u /\ now < u else locked_until s' = None).
Proof.
  intros Hinv. unfold check_state. destruct (locked_until s) as [u|] eqn:Hl; [|done].
  destruct (negb (Qle_bool (u - now) 0)) eqn:E.
  - split; [done|]. exists u. split; [done|]. apply negb_true_iff in E. apply Qnot_le_lt. intros Hle.
    assert (u - now <= 0) as H0%Qle_bool_iff by lra. congruence.
  - split; [|done]. apply (inv_forget _ _ s Hinv). apply negb_false_iff, Qle_bool_iff in E. destruct Hinv as [_ _ _ Hst]. rewrite Hl in Hst.
    destruct Hst as (_ & Hall & _). eapply (Forall_le_mono (fun x => x + m)); [|done]. lra.
Qed.

Lemma lookup_snoc_cases (l : list Q) x i t : (l ++ [x]) !! i = Some t -> l !! i = Some t \/ (i = length l /\ t = x).
Proof. intros [?|(Hi & Ht)]%lookup_app_Some; [by left|right]. apply list_lookup_singleton_Some in Ht as [? <-]. split; [lia|done]. Qed.

Lemma inv_fail c now acc s : c <= now -> inv c acc s -> locked_until s = None ->
  inv now (acc ++ [now]) (fail_state w n lo now s).
Proof.
  intros Hc Hinv%(inv_mono c now) Hl; [|done]. destruct Hinv as [Hs Hp Hsp Hst]. rewrite Hl in Hst. destruct Hst as (older & Hacc & Hold & Hlen).
  destruct (drop_until_split (now - w) (failures s)) as (dropped & Hf & Hdrop & Hhead). set (kept := drop_until (now - w) (failures s)) in *.
  assert (Forall (fun x => x + m <= now) (older ++ dropped)) as Hearly.
  { apply Forall_app. split; [done|]. eapply Forall_impl; [exact Hdrop|]. cbn. intros x Hx. pose proof (min_window x). lra. }
  assert (acc = (older ++ dropped) ++ kept) as Hsplit by by rewrite <- app_assoc, <- Hf.
  assert (length kept < N)%nat as Hkept. { apply (f_equal length) in Hf. rewrite length_app in Hf. lia. }
  assert (StronglySorted Qle (acc ++ [now])) as Hs' by by apply sorted_snoc.
  assert (Forall (fun x => x <= now) (acc ++ [now])) as Hp' by (apply Forall_app; split; [done|by repeat constructor; apply Qle_refl]).
  assert (forall i t t', (acc ++ [now]) !! i = Some t -> (acc ++ [now]) !! (i + N)%nat = Some t' -> t + m <= t') as Hsp'.
  { intros i t t' [Ht|[-> ->]]%lookup_snoc_cases [Ht'|[Hi ->]]%lookup_snoc_cases.
    - by eapply Hsp.
    - rewrite Hsplit in Ht. apply lookup_app_Some in Ht as [Ht|[Hge _]].
      + rewrite Forall_forall in Hearly. apply Hearly. by eapply list_elem_of_lookup_2.
      + rewrite Hsplit, length_app in Hi. lia.
    - apply lookup_lt_Some in Ht'. lia.
    - lia. }
  split; [done..|]. unfold fail_state. fold kept. rewrite length_app. cbn [length].
  destruct (n <=? Z.of_nat (length kept + 1))%Z eqn:E; cbn [locked_until failures].
  - apply Z.leb_le in E. split; [done|]. split.
    { eapply Forall_impl; [exact Hp'|]. cbn. intros x Hx. pose proof (min_lockout x). lra. }
    exists now. split; [|done]. assert (N = length kept + 1)%nat as HN by lia. rewrite Hsplit, <- app_assoc.
    destruct (head (kept ++ [now])) as [t|] eqn:Hh; [|by destruct kept].
    exists (length (older ++ dropped)), t. split_and!.
    + rewrite lookup_app_r, Nat.sub_diag by lia. by rewrite <- head_lookup.
    + rewrite lookup_app_r by lia. replace (_ - _)%nat with (length kept) by lia. by rewrite lookup_app_r, Nat.sub_diag by lia.
    + destruct kept as [|k ks]; cbn in Hh; injection Hh as <-; [lra|]. pose proof (Hhead k eq_refl). lra.
  - apply Z.leb_gt in E. rewrite Hl. exists (older ++ dropped). rewrite Hsplit, <- app_assoc. split; [done|]. split; [done|]. rewrite length_app. cbn. lia.
Qed.

Context (key : string).

Definition configured (th : AuthThrottle) : Prop := window th = w /\ threshold th = n /\ lockout th = lo.
Definition tracks (ip : string) (c : Q) (th : AuthThrottle) (acc : list Q) : Prop := configured th /\ inv c acc (state_of ip th).

(** An address that is refused has failed [n] times within the window. *)
Definition caused (v : Visit) (acc : list Q) : Prop := exists t', burst acc t' /\ vi_t1 v < t' + lo /\ t' <= vi_t3 v.

Lemma burst_past c acc s t' : inv c acc s -> burst acc t' -> t' <= c.
Proof. intros Hinv (i & t & _ & Ht' & _). pose proof (i_past _ _ _ Hinv) as Hp. rewrite Forall_forall in Hp. apply Hp. by eapply list_elem_of_lookup_2. Qed.

Lemma tracks_serve ip c v th acc : tracks ip c th acc -> c <= vi_t1 v -> vi_t1 v <= vi_t2 v -> vi_t2 v <= vi_t3 v ->
  tracks ip (vi_t3 v) (serve_one key v th).1 (note key ip v th acc) /\
  (visitor v = ip -> (exists k, (serve_one key v th).2 = TooMany k) -> caused v (note key ip v th acc)).
Proof.
  intros [(Ew & En & El) Hinv] H1 H2 H3. unfold note, compared. destruct (guarded v) eqn:Hg; cycle 1.
  { rewrite (serve_one_public key v th Hg), andb_false_r. cbn. split; [|by intros _ [k Hk]].
    split; [done|]. eapply inv_mono; [|exact Hinv]. lra. }
  rewrite (serve_one_guarded key v th Hg), andb_true_l. cbn zeta.
  pose proof (is_locked_spec (visitor v) (vi_t1 v) th) as Hspec. destruct (is_locked (visitor v) (vi_t1 v) th) as [th1 [b retry]].
  destruct Hspec as (Hself & Hothers & Ew1 & En1 & El1). cbn [fst snd].
  assert (configured th1) as Hcf1 by (unfold configured; by rewrite Ew1, En1, El1).
  destruct (decide (visitor v = ip)) as [Hip|Hip]; cycle 1.
  { rewrite bool_decide_eq_false_2 by done. cbn [andb]. split; [|done].
    assert (inv (vi_t1 v) acc (state_of ip th1)) as Hi1.
    { rewrite Hothers by done. rewrite Ew. by eapply inv_evict. }
    destruct b; [split; [done|]; eapply inv_mono; [|exact Hi1]; lra|]. destruct (right_key key v).
    - destruct (record_success_spec (visitor v) th1) as (_ & Ho & E1 & E2 & E3). split.
      + unfold configured. cbn [fst]. by rewrite E1, E2, E3.
      + rewrite Ho by done. eapply inv_mono; [|exact Hi1]. lra.
    - destruct (record_failure_spec (visitor v) (vi_t2 v) th1) as (_ & Ho & E1 & E2 & E3).
      pose proof (is_locked_spec (visitor v) (vi_t3 v) (record_failure (visitor v) (vi_t2 v) th1)) as Hspec2.
      destruct (is_locked (visitor v) (vi_t3 v) _) as [th3 [b3 r3]]. destruct Hspec2 as (_ & Ho3 & F1 & F2 & F3). split.
      + unfold configured in *. cbn [fst]. by rewrite F1, F2, F3, E1, E2, E3.
      + cbn [fst]. rewrite Ho3, Ho by done. rewrite E1, Ew1, Ew. eapply inv_evict; [|exact Hi1]. lra. }
  subst ip. rewrite bool_decide_eq_true_2 by done. cbn [andb].
  rewrite Ew in Hself. pose proof (inv_check _ _ _ (inv_evict _ _ _ _ H1 Hinv)) as Hc. rewrite Hself in Hc. destruct Hc as [Hi1 Hb].
  destruct b; cbn [negb].
  - split; [split; [done|]; eapply inv_mono; [|exact Hi1]; lra|]. intros _ _. destruct Hb as (u & Hu & Hlt).
    pose proof (inv_evict _ _ _ _ H1 Hinv) as Hie. pose proof (i_state _ _ _ Hie) as Hst. rewrite Hu in Hst.
    destruct Hst as (_ & _ & t' & Hburst & ->). exists t'. split; [done|]. pose proof (burst_past _ _ _ _ Hie Hburst). split; lra.
  - destruct (right_key key v).
    + destruct (record_success_spec (visitor v) th1) as (Hs & _ & E1 & E2 & E3). split; [|by intros _ [k Hk]]. split.
      * unfold configured in *. cbn [fst]. by rewrite E1, E2, E3.
      * cbn [fst]. rewrite Hs. apply inv_new.
    + destruct (record_failure_spec (visitor v) (vi_t2 v) th1) as (Hs & _ & E1 & E2 & E3). destruct Hcf1 as (C1 & C2 & C3).
      rewrite C1, C2, C3 in Hs. pose proof (inv_fail _ _ _ _ H2 Hi1 Hb) as Hi2. rewrite <- Hs in Hi2.
      pose proof (is_locked_spec (visitor v) (vi_t3 v) (record_failure (visitor v) (vi_t2 v) th1)) as Hspec2.
      destruct (is_locked (visitor v) (vi_t3 v) _) as [th3 [b3 r3]]. destruct Hspec2 as (Hself3 & _ & F1 & F2 & F3).
      rewrite E1, C1 in Hself3. pose proof (inv_check _ _ _ (inv_evict _ _ _ _ H3 Hi2)) as Hc. rewrite Hself3 in Hc. destruct Hc as [Hi3 Hb3].
      cbn [fst snd]. split; [split; [unfold configured; cbn [fst]; by rewrite F1, F2, F3, E1, E2, E3|done]|].
      intros _ [k Hk]. destruct b3; [|done]. destruct Hb3 as (u & Hu & Hlt).
      pose proof (inv_evict _ _ _ _ H3 Hi2) as Hie. pose proof (i_state _ _ _ Hie) as Hst. rewrite Hu in Hst.
      destruct Hst as (_ & _ & t' & Hburst & ->). exists t'. split; [done|]. pose proof (burst_past _ _ _ _ Hie Hburst). split; lra.
Qed.

Lemma tracks_all ip c' l : forall c th acc, tracks ip c th acc -> ordered c l -> c <= c' -> Forall (fun v => vi_t3 v <= c') l ->
  tracks ip c' (after key l th) (guesses_from key ip l th acc).
Proof.
  induction l as [|v l IH]; intros c th acc Ht; [intros _ Hc _; split; [apply Ht|by apply (inv_mono c), Ht]|].
  intros (H1 & H2 & H3 & Hl) Hc [Hv Hall]%Forall_cons. destruct (tracks_serve ip c v th acc Ht H1 H2 H3) as [Ht' _]. by apply (IH _ _ _ Ht').
Qed.

Lemma guesses_snoc ip l v th : forall acc, guesses_from key ip (l ++ [v]) th acc = note key ip v (after key l th) (guesses_from key ip l th acc).
Proof. revert th. induction l as [|x l IH]; intros th acc; [done|]. cbn. apply IH. Qed.

Lemma ordered_snoc c l v : ordered c (l ++ [v]) -> ordered c l /\ c <= vi_t1 v /\ vi_t1 v <= vi_t2 v /\ vi_t2 v <= vi_t3 v /\ Forall (fun x => vi_t3 x <= vi_t1 v) l.
Proof.
  revert c. induction l as [|x l IH]; intros c; cbn; [by intros (? & ? & ? & _)|].
  intros (H1 & H2 & H3 & (Ho & H4 & H5 & H6 & Hall)%IH). split; [done|]. split; [lra|]. split; [done|]. split; [done|]. by constructor.
Qed.

Lemma ordered_bound c l : ordered c l -> exists c', c <= c' /\ Forall (fun v => vi_t3 v <= c') l.
Proof.
  revert c. induction l as [|v l IH]; intros c; [by exists c; split; [apply Qle_refl|]|]. intros (H1 & H2 & H3 & (c' & Hc & Hl)%IH).
  exists c'. split; [lra|]. by constructor.
Qed.

Lemma tracks_new ip c : tracks ip c (new_throttle w n lo) [].
Proof. split; [done|]. apply inv_new. Qed.
End lockout.

(** C16. Over HTTP, guessing is bounded and nobody is locked out without cause.  Take the
    HTTP requests of a server that handles no WebSocket handshake meanwhile (these share
    the throttle, see [parallel_handshakes_unbounded]), and a threshold of n failures:
    n + 1 failed comparisons of an address with the key, no success of that address
    between them, span at least the window or the lockout, whichever is shorter, however
    the requests of all addresses interleave.  A guarded request is refused for its
    rate only if its address failed n times within one window, less than a lockout ago. *)
Theorem lockout_correct w lo n key ip l c :
  0 < w -> (1 <= n)%Z -> ordered c l ->
  let th := new_throttle w n lo in
  (forall i t t', guesses key ip l th !! i = Some t -> guesses key ip l th !! (i + Z.to_nat n)%nat = Some t' -> t + Qmin w lo <= t') /\
  forall l1 v k, l = l1 ++ [v] -> visitor v = ip -> (serve_one key v (after key l1 th)).2 = TooMany k ->
    caused w lo n v (guesses key ip l th).
Proof.
  intros Hw Hn Ho th. split.
  - destruct (ordered_bound c l Ho) as (c' & Hc & Hl).
    apply (i_spaced _ _ _ _ _ _ (proj2 (tracks_all w lo n Hw Hn key ip c' l c th [] (tracks_new w lo n Hn ip c) Ho Hc Hl))).
  - intros l1 v k -> Hv Hk. apply ordered_snoc in Ho as (Ho & Hc & H2 & H3 & Hall).
    pose proof (tracks_all w lo n Hw Hn key ip (vi_t1 v) l1 c th [] (tracks_new w lo n Hn ip c) Ho Hc Hall) as Ht.
    destruct (tracks_serve w lo n Hw Hn key ip _ v _ _ Ht (Qle_refl _) H2 H3) as [_ Hcause].
    unfold guesses. rewrite guesses_snoc. apply Hcause; [done|by exists k].
Qed.

(** ** Addresses do not affect each other *)

Section alone.
Context (w lo : Q) (n : Z) (key : string).

(** One address, with nothing ever dropped. *)
Definition alone_one (v : Visit) (s : ThrottleState) : ThrottleState * Response :=
  if guarded v then
    let '(s, (locked, retry)) := check_state (vi_t1 v) s in
    if locked : bool then (s, throttle_response retry)
    else if right_key key v then (new_throttle_state, Forward)
    else
      let '(s, (locked, retry)) := check_state (vi_t3 v) (fail_state w n lo (vi_t2 v) s) in
      (s, if locked : bool then throttle_response retry else Unauthorized)
  else (s, Forward).
Fixpoint alone (l : list Visit) (s : ThrottleState) : list (Visit * Response) :=
  match l with
  | [] => []
  | v :: l' => let '(s, r) := alone_one v s in (v, r) :: alone l' s
  end.

Record wf (c : Q) (r : ThrottleState) : Prop := {
  wf_sorted : StronglySorted Qle (failures r);
  wf_past : Forall (fun x => x <= c) (failures r);
  wf_locked : is_Some (locked_until r) -> failures r = [];
}.

(** The state of the address, or nothing where that has expired. *)
Definition same (c : Q) (s r : ThrottleState) : Prop := s = r \/ s = new_throttle_state /\ is_expired w c r = true.

Lemma wf_new c : wf c new_throttle_state.
Proof. split; [constructor|constructor|done]. Qed.
Lemma wf_mono c c' r : c <= c' -> wf c r -> wf c' r.
Proof. intros Hc [? Hp ?]. split; [done| |done]. eapply Forall_impl; [exact Hp|]. cbn. intros x Hx. lra. Qed.

Lemma Qle_bool_mono a b c : b <= c -> Qle_bool a b = true -> Qle_bool a c = true.
Proof. intros Hbc Hab%Qle_bool_iff. apply Qle_bool_iff. lra. Qed.

Lemma expired_mono c c' r : c <= c' -> is_expired w c r = true -> is_expired w c' r = true.
Proof.
  intros Hc. unfold is_expired. intros [Hl Hf]%andb_prop. apply andb_true_intro. split.
  - destruct (locked_until r); [|done]. by eapply Qle_bool_mono.
  - destruct (last (failures r)); [|done]. eapply Qle_bool_mono; [|exact Hf]. lra.
Qed.

Lemma same_evict c c' s r : c <= c' -> same c s r -> same c' (evict_state w c' s) r.
Proof.
  intros Hc. unfold evict_state. intros [->|[-> Hx]].
  - destruct (is_expired w c' r) eqn:E; [by right|by left].
  - right. split; [by destruct (is_expired _ _ _)|by eapply expired_mono].
Qed.

Lemma same_check c s r : wf c r -> same c s r ->
  let '(s', a) := check_state c s in let '(r', b) := check_state c r in
  a = b /\ same c s' r' /\ wf c r' /\ (a.1 = false -> locked_until r' = None /\ locked_until s' = None).
Proof.
  intros Hwf [->|[-> Hx]].
  - unfold check_state. destruct (locked_until r) as [u|] eqn:E.
    + destruct (negb _); [split_and!; [done|by left|done|done]|]. split_and!; [done|by left|apply wf_new|done].
    + split_and!; [done|by left|done|by intros _].
  - unfold check_state. cbn [locked_until new_throttle_state]. destruct (locked_until r) as [u|] eqn:E.
    + pose proof Hx as Hx'. unfold is_expired in Hx'. rewrite E in Hx'. apply andb_prop in Hx' as [Hu _]. apply Qle_bool_iff in Hu.
      assert (u - c <= 0) as ->%Qle_bool_iff by lra. cbn [negb]. split_and!; [done|by left|apply wf_new|done].
    + split_and!; [done|by right|done|done].
Qed.

Lemma drop_until_all cutoff l : Forall (fun x => x <= cutoff) l -> drop_until cutoff l = [].
Proof. induction 1 as [|x l Hx _ IH]; [done|]. cbn [drop_until]. apply Qle_bool_iff in Hx. by rewrite Hx. Qed.

Lemma same_fail c c' s r : c <= c' -> wf c r -> locked_until r = None -> same c s r -> 
  fail_state w n lo c' s = fail_state w n lo c' r /\ wf c' (fail_state w n lo c' r).
Proof.
  intros Hc Hwf Hl Hs. split.
  - destruct Hs as [->|[-> Hx]]; [done|]. unfold fail_state. cbn [failures new_throttle_state drop_until locked_until].
    rewrite (drop_until_all (c' - w) (failures r)); [by rewrite Hl|]. apply Forall_forall. intros x Hx'.
    unfold is_expired in Hx. apply andb_prop in Hx as [_ Hx]. destruct (last (failures r)) as [t|] eqn:E.
    + apply Qle_bool_iff in Hx. pose proof (sorted_last _ _ _ (wf_sorted _ _ Hwf) E Hx'). lra.
    + apply last_None in E. rewrite E in Hx'. by apply elem_of_nil in Hx'.
  - unfold fail_state. destruct (_ <=? _)%Z; [split; [constructor|constructor|done]|].
    destruct (drop_until_split (c' - w) (failures r)) as (old & Hsplit & _ & _). set (kept := drop_until _ _) in *.
    pose proof (wf_mono c c' r Hc Hwf) as [Hso Hp _]. rewrite Hsplit in Hso, Hp. apply sorted_app_tail in Hso. apply Forall_app in Hp as [_ Hp].
    split; cbn [failures locked_until]; [by apply sorted_snoc| |by rewrite Hl; intros [? ?]].
    apply Forall_app. split; [done|]. repeat constructor. apply Qle_refl.
Qed.

Lemma same_serve ip c v th r : configured w lo n th -> same c (state_of ip th) r -> wf c r ->
  c <= vi_t1 v -> vi_t1 v <= vi_t2 v -> vi_t2 v <= vi_t3 v ->
  let th' := (serve_one key v th).1 in
  let r' := if decide (visitor v = ip) then (alone_one v r).1 else r in
  configured w lo n th' /\ same (vi_t3 v) (state_of ip th') r' /\ wf (vi_t3 v) r' /\
  (visitor v = ip -> (serve_one key v th).2 = (alone_one v r).2).
Proof.
  intros (Ew & En & El) Hs Hwf H1 H2 H3. cbn zeta. destruct (guarded v) eqn:Hg; cycle 1.
  { rewrite (serve_one_public key v th Hg). unfold alone_one. rewrite Hg. cbn [fst snd].
    assert (same (vi_t3 v) (state_of ip th) r /\ wf (vi_t3 v) r) as [Ha Hb].
    { split; [destruct Hs as [->|[-> Hx]]; [by left|right; split; [done|]; eapply expired_mono; [|exact Hx]; lra]|]. eapply wf_mono; [|exact Hwf]. lra. }
    by destruct (decide _). }
  rewrite (serve_one_guarded key v th Hg). cbn zeta. unfold alone_one. rewrite Hg.
  pose proof (is_locked_spec (visitor v) (vi_t1 v) th) as Hspec. destruct (is_locked (visitor v) (vi_t1 v) th) as [th1 [b retry]].
  destruct Hspec as (Hself & Hothers & Ew1 & En1 & El1). rewrite Ew in Ew1, Hself, Hothers.
  pose proof (same_evict _ _ _ _ H1 Hs) as He. pose proof (wf_mono _ _ _ H1 Hwf) as Hw1.
  destruct (decide (visitor v = ip)) as [Hip|Hip]; cycle 1.
  { assert (forall th', configured w lo n th' -> state_of ip th' = state_of ip th1 \/ state_of ip th' = evict_state w (vi_t3 v) (state_of ip th1) ->
      configured w lo n th' /\ same (vi_t3 v) (state_of ip th') r /\ wf (vi_t3 v) r) as Hgoal.
    { intros th' Hcf Hst. split; [done|]. rewrite (Hothers ip) in Hst by done.
      assert (vi_t1 v <= vi_t3 v) as H13 by lra. split; [|by eapply wf_mono].
      destruct Hst as [->| ->]; [|by eapply same_evict]. destruct He as [->|[-> Hx]]; [by left|right; split; [done|by eapply expired_mono]]. }
    destruct b; [|destruct (right_key key v)].
    - destruct (Hgoal th1) as (? & ? & ?); [by split_and!; congruence|by left|]. by split_and!.
    - destruct (record_success_spec (visitor v) th1) as (_ & Ho & E1 & E2 & E3).
      destruct (Hgoal (record_success (visitor v) th1)) as (? & ? & ?); [unfold configured; split_and!; congruence|left; by rewrite Ho|]. by split_and!.
    - destruct (record_failure_spec (visitor v) (vi_t2 v) th1) as (_ & Ho & E1 & E2 & E3).
      pose proof (is_locked_spec (visitor v) (vi_t3 v) (record_failure (visitor v) (vi_t2 v) th1)) as Hspec2.
      destruct (is_locked (visitor v) (vi_t3 v) _) as [th3 [b3 r3]]. destruct Hspec2 as (_ & Ho3 & F1 & F2 & F3).
      destruct (Hgoal th3) as (? & ? & ?); [unfold configured; split_and!; congruence|right; rewrite Ho3, Ho by done; by rewrite E1, Ew1|]. by split_and!. }
  subst ip. pose proof (same_check _ _ _ Hw1 He) as Hc. rewrite Hself in Hc.
  destruct (check_state (vi_t1 v) r) as [r1 [b' retry']]. destruct Hc as ([= <- <-] & Hs1 & Hwf1 & Hfree).
  destruct b; [|destruct (right_key key v)].
  - split; [unfold configured; cbn [fst]; split_and!; congruence|]. assert (vi_t1 v <= vi_t3 v) as H13 by lra. cbn [fst snd].
    split; [destruct Hs1 as [->|[-> Hx]]; [by left|right; split; [done|by eapply expired_mono]]|]. split; [by eapply wf_mono|done].
  - destruct (record_success_spec (visitor v) th1) as (E0 & _ & E1 & E2 & E3). cbn [fst snd].
    split; [unfold configured; cbn [fst]; split_and!; congruence|]. split; [by left|]. split; [apply wf_new|done].
  - destruct (record_failure_spec (visitor v) (vi_t2 v) th1) as (E0 & _ & E1 & E2 & E3).
    pose proof (is_locked_spec (visitor v) (vi_t3 v) (record_failure (visitor v) (vi_t2 v) th1)) as Hspec2.
    destruct (is_locked (visitor v) (vi_t3 v) _) as [th3 [b3 r3]]. destruct Hspec2 as (Hself3 & _ & F1 & F2 & F3).
    destruct (same_fail _ _ _ _ H2 Hwf1 (proj1 (Hfree eq_refl)) Hs1) as [Hfail Hwf2].
    replace (state_of (visitor v) (record_failure (visitor v) (vi_t2 v) th1)) with (fail_state w n lo (vi_t2 v) r1) in Hself3 by
      (rewrite E0, <- Hfail; f_equal; congruence).
    replace (window (record_failure (visitor v) (vi_t2 v) th1)) with w in Hself3 by congruence.
    assert (same (vi_t2 v) (fail_state w n lo (vi_t2 v) r1) (fail_state w n lo (vi_t2 v) r1)) as Hs2 by by left.
    pose proof (same_check _ _ _ (wf_mono _ _ _ H3 Hwf2) (same_evict _ _ _ _ H3 Hs2)) as Hc3. rewrite Hself3 in Hc3.
    destruct (check_state (vi_t3 v) (fail_state w n lo (vi_t2 v) r1)) as [r4 [b4 retry4]]. destruct Hc3 as ([= <- <-] & Hs3 & Hwf3 & _).
    cbn [fst snd]. split; [unfold configured; cbn [fst]; split_and!; congruence|]. by split_and!.
Qed.

Lemma serve_alone ip l : forall c th r, configured w lo n th -> same c (state_of ip th) r -> wf c r -> ordered c l ->
  filter (fun vr => visitor vr.1 = ip) (serve key l th) = alone (filter (fun v => visitor v = ip) l) r.
Proof.
  induction l as [|v l IH]; intros c th r Hcf Hs Hwf; [done|]. intros (H1 & H2 & H3 & Hl).
  destruct (same_serve ip c v th r Hcf Hs Hwf H1 H2 H3) as (Hcf' & Hs' & Hwf' & Hr). cbn [serve].
  destruct (serve_one key v th) as [th' a] eqn:E. cbn [fst snd] in *. rewrite filter_cons. cbn [fst]. rewrite (filter_cons _ v l).
  destruct (decide (visitor v = ip)) as [Hip|Hip]; [|by apply (IH (vi_t3 v))].
  cbn [alone]. rewrite (Hr Hip). destruct (alone_one v r) as [r' b]. cbn [fst snd] in *. f_equal. by apply (IH (vi_t3 v)).
Qed.
End alone.

(** Addresses are independent, and forgetting idle ones is invisible: over any
    interleaving of requests with a clock that never runs backwards, the responses to
    one address are those of a throttle that sees only its requests and never drops
    anything. *)
Theorem addresses_independent w lo n key ip l c : ordered c l ->
  filter (fun vr => visitor vr.1 = ip) (serve key l (new_throttle w n lo)) =
  alone w lo n key (filter (fun v => visitor v = ip) l) new_throttle_state.
Proof. intros Ho. apply (serve_alone w lo n key ip l c); [done|by left|apply wf_new|done]. Qed.

(** ** Who gets in *)

Lemma is_token_authorized_true t key : is_token_authorized (Some t) (Some key) = true <-> t = key.
Proof. unfold is_token_authorized. by rewrite bool_decide_eq_true. Qed.

Lemma right_key_iff key v : right_key key v = true <-> exists src, extract_token (rq_headers (vi_request v)) = Some (mkToken key src).
Proof.
  unfold right_key. destruct (extract_token _) as [[t src]|]; cbn [token_value].
  - rewrite is_token_authorized_true. split; [intros ->; by eexists|by intros (? & [= -> _])].
  - split; [done|by intros (? & ?)].
Qed.

Lemma extract_source headers t : extract_token headers = Some t -> token_source t = authorization \/ token_source t = x_api_key.
Proof.
  unfold extract_token, api_key_header. intros H. repeat case_match; simplify_eq; first [by left|by right].
Qed.

(** Who gets in.  With a key configured, an HTTP request is forwarded exactly when
    its path is public, or its address is not locked out and it carries the key in one
    of the two headers.  A handshake whose origin is refused, or with a token in its
    query, is never accepted; when credentials are configured it is accepted exactly
    when its address is not locked out and it carries the key, or a bearer token that
    the authenticator accepts. *)
Theorem admission key oidc r t1 t2 t3 th allowed query_token headers ip :
  ((dispatch (Some key) r t1 t2 t3 th).1.2 = Forward <->
     is_public_path (rq_path r) = true \/
     (is_locked (client_of r) t1 th).2.1 = false /\ exists src, extract_token (rq_headers r) = Some (mkToken key src)) /\
  ((ws_begin allowed query_token (Some key) oidc headers ip t1 th).2 = Accepted <->
     allowed = true /\ query_token = false /\ (is_locked ip t1 th).2.1 = false /\
     exists t, extract_token headers = Some t /\ (token_value t = key \/ token_source t = authorization /\ oidc = Some OidcActor)).
Proof.
  split.
  - change (dispatch (Some key) r t1 t2 t3 th).1.2 with (serve_one key (mkVisit r t1 t2 t3) th).2.
    change (extract_token (rq_headers r)) with (extract_token (rq_headers (vi_request (mkVisit r t1 t2 t3)))). rewrite <- right_key_iff.
    set (v := mkVisit r t1 t2 t3). destruct (guarded v) eqn:Hg; pose proof Hg as Hp; [apply negb_true_iff in Hp|apply negb_false_iff in Hp];
      change (rq_path (vi_request v)) with (rq_path r) in Hp; rewrite Hp.
    + rewrite serve_one_guarded by done. cbn zeta. change (visitor v) with (client_of r). change (vi_t1 v) with t1.
      destruct (is_locked (client_of r) t1 th) as [th1 [[] retry]]; cbn [fst snd]; [split; [done|by intros [?|[? ?]]]|].
      destruct (right_key key v); [split; [by right|done]|].
      destruct (is_locked _ _ (record_failure _ _ _)) as [th2 [[] r2]]; (split; [done|by intros [?|[_ ?]]]).
    + rewrite serve_one_public by done. split; [by left|done].
  - unfold ws_begin. destruct allowed; cbn [negb]; [|split; [done|by intros (? & _)]].
    destruct query_token; [split; [done|by intros (_ & ? & _)]|].
    destruct (is_locked ip t1 th) as [th1 [[] retry]]; cbn [fst snd]; [split; [done|by intros (_ & _ & ? & _)]|].
    unfold ws_authenticate. destruct (extract_token headers) as [[t src]|] eqn:Et.
    + cbn [token_value]. destruct (is_token_authorized (Some t) (Some key)) eqn:Ha.
      * apply is_token_authorized_true in Ha as ->. split; [|done]. intros _. split_and!; [done..|]. eexists. split; [done|by left].
      * assert (t ≠ key) as Hne by (intros ->; by rewrite (proj2 (is_token_authorized_true key key)) in Ha).
        split.
        -- destruct oidc as [[]|], src; try done. intros _. split_and!; [done..|]. eexists. split; [done|]. by right.
        -- intros (_ & _ & _ & ? & [= <-] & [?|[? ->]]); [done|]. cbn in *. by subst src.
    + split; [by destruct oidc as [[]|]|]. by intros (_ & _ & _ & ? & ? & _).
Qed.

(** ** Witnesses *)

Definition demo_request (key : string) (client : string) : HttpRequest := mkRequest "/api/runs" (Some client) [("x-api-key", key)].
Definition demo_visit (key client : string) (t : Q) : Visit := mkVisit (demo_request key client) t t t.
Definition demo_visits : list Visit :=
  [demo_visit "a" "eve" 0; demo_visit "b" "eve" 1; demo_visit "secret" "bob" 1; demo_visit "c" "eve" 2; demo_visit "d" "eve" 3;
   demo_visit "e" "eve" 4; demo_visit "secret" "eve" 5].

Lemma demo_ordered : ordered 0 demo_visits.
Proof. cbn. repeat split; lra. Qed.

Lemma lockout_correct_witness :
  guesses "secret" "eve" demo_visits default_throttle = [0; 1; 2; 3; 4] /\
  caused 60 300 5 (demo_visit "secret" "eve" 5) (guesses "secret" "eve" demo_visits default_throttle).
Proof.
  split; [by vm_compute|].
  destruct (lockout_correct 60 300 5 "secret" "eve" demo_visits 0 ltac:(lra) ltac:(lia) demo_ordered) as [_ H].
  eapply (H (take 6 demo_visits) (demo_visit "secret" "eve" 5)); [reflexivity|reflexivity|]. vm_compute. reflexivity.
Defined.

Lemma addresses_independent_witness :
  snd <$> filter (fun vr => visitor vr.1 = "bob") (serve "secret" demo_visits default_throttle) = [Forward].
Proof. change default_throttle with (new_throttle 60 5 300). rewrite (addresses_independent 60 300 5 "secret" "bob" demo_visits 0 demo_ordered). vm_compute. reflexivity. Defined.

(** Handshakes that are open at the same time are all compared with the key, however
    many fail: the failures are counted only after the sockets are closed. *)
Example parallel_handshakes_unbounded :
  let begin th := ws_begin true false (Some "secret") None [("x-api-key", "guess")] "eve" 0 th in
  Forall (fun h => h = Counting "x-api-key")
    (foldl (fun acc _ => let '(th, hs) := acc in let '(th, h) := begin th in (th, h :: hs)) (default_throttle, []) (seq 0 20)).2.
Proof. vm_compute. repeat constructor. Qed.

(** Every path that begins like the health endpoint is public. *)
Example health_prefix_public : is_public_path "/api/healthcheck-admin" = true.
Proof. reflexivity. Qed.
