(* ===== verification/Replay.v ===== *)
(** * Replay buffers (server/replay_store.py)

    Events of a run kept for clients that connect late, in one of three stores: a dict
    of bounded deques, an SQLite table with a sequence number and a retention, or Redis
    lists.  [Log] is what all of them promise: the last [max_events] events of each
    run.  The statements of the SQLite store are the list operations they denote; the
    Redis server is the interface [RedisLists]. *)

From Stdlib Require Import QArith.
From S2P Require Import Prelude PyVal.

(** The last [n] elements. *)
Definition lastn {A} (n : nat) (l : list A) : list A := drop (length l - n) l.

(** [json.dumps] and [json.loads] of an event, a dict. *)
Class EventJson := { dumps : odict pyval -> res string; loads : string -> option (odict pyval) }.
(** The values JSON has: no tuples, which come back as lists, no objects, and no key twice. *)
Fixpoint json_like (v : pyval) : bool :=
  match v with
  | VTuple _ | VObj _ _ => false
  | VList l => (fix go l := match l with [] => true | x :: l' => json_like x && go l' end) l
  | VDict d =>
      bool_decide (NoDup (od_keys d)) &&
      (fix go (d : list (string * pyval)) := match d with [] => true | (_, x) :: d' => json_like x && go d' end) d
  | _ => true
  end.
Definition json_event (e : odict pyval) : Prop := json_like (VDict e) = true.
(** What is dumped of them is read back. *)
Class EventJsonLaws `{!EventJson} : Prop := { loads_dumps e t : json_event e -> dumps e = Ok t -> loads t = Some e }.

Section replay.
Context `{!EventJson}.

(** ** In memory *)

Record InMemoryReplayStore := mkMemoryStore { mem_max_events : Z; buffers : gmap string (list (odict pyval)) }.
Definition new_memory_store (max_events : Z) : InMemoryReplayStore := mkMemoryStore max_events ∅.

(** [deque(maxlen=...)] raises for a negative length. *)
Definition mem_append (run_id : string) (event : odict pyval) (s : InMemoryReplayStore) : res InMemoryReplayStore :=
  match buffers s !! run_id with
  | None =>
      if (mem_max_events s <? 0)%Z then Raise (ValueError "maxlen must be non-negative")
      else Ok (mkMemoryStore (mem_max_events s) (<[run_id := lastn (Z.to_nat (mem_max_events s)) [event]]> (buffers s)))
  | Some d => Ok (mkMemoryStore (mem_max_events s) (<[run_id := lastn (Z.to_nat (mem_max_events s)) (d ++ [event])]> (buffers s)))
  end.
Definition mem_get_events (run_id : string) (s : InMemoryReplayStore) : list (odict pyval) := default [] (buffers s !! run_id).
Definition mem_clear (run_id : string) (s : InMemoryReplayStore) : InMemoryReplayStore :=
  mkMemoryStore (mem_max_events s) (delete run_id (buffers s)).

(** ** SQLite *)

(** A row of [replay_events]; the table in the order of insertion. *)
Record Row := mkRow { row_run : string; row_seq : Z; row_event : string; row_created : Q }.

Record SqliteReplayStore := mkSqlite { sq_max_events : Z; sq_retention : Q; sq_rows : list Row; sq_open : bool }.
Definition with_rows (rows : list Row) (s : SqliteReplayStore) : SqliteReplayStore :=
  mkSqlite (sq_max_events s) (sq_retention s) rows (sq_open s).

Definition rows_of (run_id : string) (rows : list Row) : list Row := filter (fun r => row_run r = run_id) rows.
Definition seqs_of (run_id : string) (rows : list Row) : list Z := row_seq <$> rows_of run_id rows.

(** [SELECT COALESCE(MAX(seq), -1) + 1 ... WHERE run_id = ?] *)
Definition next_seq (run_id : string) (rows : list Row) : Z := (foldr Z.max (-1) (seqs_of run_id rows) + 1)%Z.

(** [INSERT]; the primary key is the run and the sequence number. *)
Definition insert_row (r : Row) (rows : list Row) : option (list Row) :=
  if decide (row_seq r ∈ seqs_of (row_run r) rows) then None else Some (rows ++ [r]).

(** [SELECT seq ... ORDER BY seq DESC LIMIT 1 OFFSET ?]; a negative offset is none. *)
Definition seq_at_offset (run_id : string) (offset : Z) (rows : list Row) : option Z :=
  sorted (fun a b => (b <=? a)%Z) (seqs_of run_id rows) !! Z.to_nat offset.

(** [DELETE ... AND seq < (...)]: no comparison holds with NULL. *)
Definition trim_rows (run_id : string) (max_events : Z) (rows : list Row) : list Row :=
  match seq_at_offset run_id (max_events - 1) rows with
  | None => rows
  | Some s => filter (fun r => ~ (row_run r = run_id /\ (row_seq r < s)%Z)) rows
  end.

Definition purge_rows (retention now : Q) (rows : list Row) : list Row :=
  if Qle_bool retention 0 then rows else filter (fun r => Qle_bool (now - retention) (row_created r) = true) rows.

(** How a statement and the commit after it end: both are done, the statement raises, or the
    commit does, and the connection, which is the only one, goes on seeing its effect. *)
Inductive Outcome := Done | StatementFails | CommitFails.
#[export] Instance Outcome_eq_dec : EqDecision Outcome.
Proof. solve_decision. Defined.

(** [_purge_expired]; what is raised is swallowed. *)
Definition purge_expired (o : Outcome) (now : Q) (s : SqliteReplayStore) : SqliteReplayStore :=
  if decide (o = StatementFails) then s else with_rows (purge_rows (sq_retention s) now (sq_rows s)) s.

Definition sq_connect (max_events : Z) (retention : Q) (rows : list Row) (now : Q) : SqliteReplayStore :=
  purge_expired Done now (mkSqlite max_events retention rows true).

(** What raises in an append, if anything does. *)
Inductive Fault := FSelect | FInsert | FTrim | FCommit | FPurge (o : Outcome).
#[export] Instance Fault_eq_dec : EqDecision Fault.
Proof. solve_decision. Defined.

(** [append], which holds the lock of the appends and swallows what is raised under it.  The
    row is stamped at [t]; the purge reads the clock at [t']. *)
Definition sq_append (fault : option Fault) (run_id : string) (event : odict pyval) (t t' : Q) (s : SqliteReplayStore) : SqliteReplayStore :=
  if negb (sq_open s) then s
  else
    match dumps event with
    | Raise _ => s
    | Ok serialized =>
        if decide (fault = Some FSelect \/ fault = Some FInsert) then s
        else
          match insert_row (mkRow run_id (next_seq run_id (sq_rows s)) serialized t) (sq_rows s) with
          | None => s
          | Some rows =>
              if decide (fault = Some FTrim) then with_rows rows s
              else
                let s := with_rows (trim_rows run_id (sq_max_events s) rows) s in
                if decide (fault = Some FCommit) then s
                else purge_expired (match fault with Some (FPurge o) => o | _ => Done end) t' s
          end
    end.

(** The same append between its awaits, where reads and clears, which do not take the lock, may
    come in: what is left to do. *)
Inductive Pending := ToInsert (run_id serialized : string) (seq : Z) | ToTrim (run_id : string) | ToCommit | ToPurge.

(** The lock is taken and the sequence number read. *)
Definition append_begins (fails : bool) (run_id : string) (event : odict pyval) (s : SqliteReplayStore) : option Pending :=
  if negb (sq_open s) then None
  else match dumps event with
       | Raise _ => None
       | Ok serialized => if fails then None else Some (ToInsert run_id serialized (next_seq run_id (sq_rows s)))
       end.

(** Its next statement, at [now]; a failure ends the append. *)
Definition append_goes_on (o : Outcome) (now : Q) (p : Pending) (s : SqliteReplayStore) : SqliteReplayStore * option Pending :=
  match p with
  | ToInsert run_id serialized seq =>
      if decide (o = Done) then
        match insert_row (mkRow run_id seq serialized now) (sq_rows s) with
        | Some rows => (with_rows rows s, Some (ToTrim run_id))
        | None => (s, None)
        end
      else (s, None)
  | ToTrim run_id =>
      if decide (o = Done) then (with_rows (trim_rows run_id (sq_max_events s) (sq_rows s)) s, Some ToCommit) else (s, None)
  | ToCommit => (s, if decide (o = Done) then Some ToPurge else None)
  | ToPurge => (purge_expired o now s, None)
  end.

(** [SELECT event ... ORDER BY seq ASC]; corrupt rows are passed over. *)
Definition read_rows (run_id : string) (s : SqliteReplayStore) : list (odict pyval) :=
  omap (fun r => loads (row_event r)) (sorted (fun a b => (row_seq a <=? row_seq b)%Z) (rows_of run_id (sq_rows s))).

(** [get_events]: a purge and a read; when the read raises ([read_fails]) the answer is empty. *)
Definition sq_get_events (purge : Outcome) (read_fails : bool) (run_id : string) (now : Q) (s : SqliteReplayStore) : SqliteReplayStore * list (odict pyval) :=
  if negb (sq_open s) then (s, [])
  else let s := purge_expired purge now s in (s, if read_fails then [] else read_rows run_id s).

(** [clear]; what is raised is swallowed. *)
Definition sq_clear (o : Outcome) (run_id : string) (s : SqliteReplayStore) : SqliteReplayStore :=
  if negb (sq_open s) || bool_decide (o = StatementFails) then s
  else with_rows (filter (fun r => row_run r ≠ run_id) (sq_rows s)) s.

(** ** Redis *)

(** A Redis server: the list under a key, and the commands the store sends. *)
Class RedisLists (R : Type) := {
  lrange_all : R -> string -> list string;
  rpush : string -> string -> R -> R;
  ltrim : string -> Z -> Z -> R -> R;
  expire : string -> Z -> R -> R;
  del : string -> R -> R;
}.

(** The documented behaviour of [LTRIM key start -1]. *)
Definition trim_from {A} (start : Z) (l : list A) : list A :=
  if (start <? 0)%Z then lastn (Z.to_nat (- start)) l else drop (Z.to_nat start) l.

(** A key keeps its list while its time to live lasts. *)
Class RedisListsLaws (R : Type) `{!RedisLists R} : Prop := {
  lrange_rpush k v r k' : lrange_all (rpush k v r) k' = if decide (k' = k) then lrange_all r k ++ [v] else lrange_all r k';
  lrange_ltrim k start r k' : lrange_all (ltrim k start (-1) r) k' = if decide (k' = k) then trim_from start (lrange_all r k) else lrange_all r k';
  lrange_expire k ttl r k' : (0 < ttl)%Z -> lrange_all (expire k ttl r) k' = lrange_all r k';
  lrange_del k r k' : lrange_all (del k r) k' = if decide (k' = k) then [] else lrange_all r k';
}.

Context {R : Type} `{!RedisLists R}.

Record RedisReplayStore := mkRedisStore { rd_max_events : Z; rd_ttl : Z; rd_connected : bool }.

Definition make_key (run_id : string) : string := "agentic:replay:" +:+ run_id.

(** What a request meets: no error, one that loses the connection, or another one; the
    commands that reached the server before it are [sent] of them. *)
Record Link := mkLink { sent : nat; failed : bool; lost : bool }.
Definition link_up : Link := mkLink 3 false false.

Definition note_error (l : Link) (s : RedisReplayStore) : RedisReplayStore :=
  if failed l && lost l then mkRedisStore (rd_max_events s) (rd_ttl s) false else s.

(** The pipeline of an append: its commands one after the other, not a transaction. *)
Definition append_commands (s : RedisReplayStore) (run_id text : string) : list (R -> R) :=
  let key := make_key run_id in
  [rpush key text; ltrim key (- rd_max_events s) (-1); expire key (rd_ttl s)].

(** A [TypeError] of [json.dumps] is not caught here. *)
Definition rd_append (l : Link) (run_id : string) (event : odict pyval) (s : RedisReplayStore) (r : R)
    : RedisReplayStore * R * res unit :=
  if negb (rd_connected s) then (s, r, Ok tt)
  else
    match dumps event with
    | Raise e => (s, r, Raise e)
    | Ok text =>
        let cmds := append_commands s run_id text in
        let r := foldl (fun r c => c r) r (if failed l then take (sent l) cmds else cmds) in
        (note_error l s, r, Ok tt)
    end.

Definition rd_get_events (l : Link) (run_id : string) (s : RedisReplayStore) (r : R) : RedisReplayStore * list (odict pyval) :=
  if negb (rd_connected s) then (s, [])
  else if failed l then (note_error l s, []) else (s, omap loads (lrange_all r (make_key run_id))).

Definition rd_clear (l : Link) (run_id : string) (s : RedisReplayStore) (r : R) : RedisReplayStore * R :=
  if negb (rd_connected s) then (s, r)
  else (note_error l s, if failed l && (sent l =? 0)%nat then r else del (make_key run_id) r).

(** ** Choosing a store *)

Inductive StoreKind := KRedis | KSqlite | KMemory.

(** What the environment has: a URL and a server that answers, [aiosqlite] and a
    database that opens. *)
Record Backends := mkBackends { has_redis_url : bool; redis_package : bool; redis_answers : bool; has_aiosqlite : bool; sqlite_opens : bool }.

Definition redis_connects (b : Backends) : bool := redis_package b && redis_answers b.

Definition build_explicit_redis_store (b : Backends) : StoreKind :=
  if negb (has_redis_url b) then KMemory else if redis_connects b then KRedis else KMemory.
Definition build_explicit_sqlite_store (b : Backends) : StoreKind :=
  if negb (has_aiosqlite b) then KMemory else if sqlite_opens b then KSqlite else KMemory.
Definition build_auto_store (b : Backends) : StoreKind :=
  if has_redis_url b && redis_package b && redis_connects b then KRedis
  else if has_aiosqlite b && sqlite_opens b then KSqlite else KMemory.
Definition build_replay_store (backend : string) (b : Backends) : StoreKind :=
  if decide (backend = "redis") then build_explicit_redis_store b
  else if decide (backend = "sqlite") then build_explicit_sqlite_store b
  else if decide (backend = "memory") then KMemory
  else build_auto_store b.
End replay.
