(* ===== verification/ReplayFacts.v ===== *)
(** * The three replay stores keep the same log

    Each store refines [Log]: the last [max_events] events of every run.  The sequence
    numbers of SQLite only order the rows, whatever is purged between; the commands of
    concurrent Redis appends converge in any order. *)

From Stdlib Require Import QArith Sorted.
From S2P Require Import Prelude PyVal Replay.
Local Open Scope Z_scope.

(** ** The last elements of a list *)

Lemma length_lastn {A} n (l : list A) : length (lastn n l) = Nat.min n (length l).
Proof. unfold lastn. rewrite length_drop. lia. Qed.

Lemma lastn_all {A} n (l : list A) : (length l <= n)%nat -> lastn n l = l.
Proof. intros Hn. unfold lastn. by replace (length l - n)%nat with 0%nat by lia. Qed.

(** Keeping [n], adding one and keeping [n] again. *)
Lemma lastn_snoc {A} n (l : list A) x : lastn n (lastn n l ++ [x]) = lastn n (l ++ [x]).
Proof.
  destruct (decide (length l <= n)%nat) as [Hl|Hl]; [by rewrite (lastn_all n l)|]. unfold lastn.
  rewrite length_app, length_drop. cbn [length]. rewrite length_app. cbn [length].
  rewrite !skipn_app, skipn_skipn, length_drop.
  do 2 f_equal; lia.
Qed.

Lemma lastn_suffix {A} n (l : list A) : exists l1, l = l1 ++ lastn n l.
Proof. exists (take (length l - n) l). symmetry. apply take_drop. Qed.

Lemma Forall2_lastn {A B} (P : A -> B -> Prop) n l k : Forall2 P l k -> Forall2 P (lastn n l) (lastn n k).
Proof. intros Hf. unfold lastn. rewrite (Forall2_length _ _ _ Hf). by apply Forall2_drop. Qed.

Lemma Forall2_filter {A B} (P : A -> B -> Prop) (p : A -> Prop) (q : B -> Prop) `{!forall x, Decision (p x), !forall y, Decision (q y)} l k :
  Forall2 P l k -> (forall x y, P x y -> p x <-> q y) -> Forall2 P (filter p l) (filter q k).
Proof.
  intros Hf Hpq. induction Hf as [|x y l k Hxy _ IH]; [constructor|]. rewrite !filter_cons.
  pose proof (Hpq x y Hxy) as Hxy'. destruct (decide (p x)), (decide (q y)); try tauto. by constructor.
Qed.

Lemma filter_keep {A} (p : A -> Prop) `{!forall x, Decision (p x)} (l : list A) : (forall x, x ∈ l -> p x) -> filter p l = l.
Proof.
  induction l as [|x l IH]; intros Hl; [done|]. rewrite filter_cons_True by (apply Hl; left). f_equal. apply IH. intros y Hy. apply Hl. by right.
Qed.

Lemma filter_ext_in {A} (p q : A -> Prop) `{!forall x, Decision (p x), !forall x, Decision (q x)} (l : list A) :
  (forall x, x ∈ l -> p x <-> q x) -> filter p l = filter q l.
Proof.
  induction l as [|x l IH]; intros Hl; [done|]. rewrite !filter_cons.
  assert (filter p l = filter q l) as -> by (apply IH; intros; apply Hl; by right).
  assert (p x <-> q x) by (apply Hl; left). destruct (decide (p x)), (decide (q x)); tauto.
Qed.

(** ** Strictly increasing keys *)

Section keys.
Context {A : Type} (key : A -> Z).
Definition increasing (l : list A) : Prop := StronglySorted (fun a b => key a < key b) l.

Lemma increasing_filter (p : A -> Prop) `{!forall x, Decision (p x)} l : increasing l -> increasing (filter p l).
Proof.
  induction 1 as [|x l Hs IH Hx]; [constructor|]. rewrite filter_cons. destruct (decide (p x)); [|done]. constructor; [done|].
  apply Forall_forall. intros y [_ Hy]%list_elem_of_filter. rewrite Forall_forall in Hx. by apply Hx.
Qed.

Lemma increasing_snoc l x : increasing l -> Forall (fun y => key y < key x) l -> increasing (l ++ [x]).
Proof.
  induction 1 as [|y l Hs IH Hy]; intros Hx; [repeat constructor|]. apply Forall_cons in Hx as [? ?]. cbn. constructor; [by apply IH|].
  apply Forall_app. split; [done|by constructor].
Qed.

Lemma sorted_asc l : increasing l -> sorted (fun a b => (key a <=? key b)%Z) l = l.
Proof.
  induction 1 as [|x l Hs IH Hx]; [done|]. change (sorted _ (x :: l)) with (insert_stable (fun a b => (key a <=? key b)%Z) x (sorted (fun a b => (key a <=? key b)%Z) l)).
  rewrite IH. destruct l as [|y l]; [done|]. cbn. apply Forall_cons in Hx as [Hy _]. by rewrite (proj2 (Z.leb_le _ _)) by lia.
Qed.

(** Keeping the keys from that of the [i]-th element on drops [i] elements. *)
Lemma filter_from l i x : increasing l -> l !! i = Some x -> filter (fun y => ~ key y < key x) l = drop i l.
Proof.
  intros Hl. revert i. induction Hl as [|y l Hs IH Hy]; intros i Hi; [done|]. rewrite filter_cons. destruct i as [|i].
  - injection Hi as <-. rewrite decide_True by lia. cbn [drop]. f_equal. apply filter_keep.
    intros z Hz. rewrite Forall_forall in Hy. specialize (Hy z Hz). lia.
  - cbn in Hi. rewrite Forall_forall in Hy. rewrite decide_False; [by apply IH|]. apply list_elem_of_lookup_2, Hy in Hi. lia.
Qed.
End keys.

Lemma insert_last (x : Z) l : Forall (fun y => x < y) l -> insert_stable (fun a b => (b <=? a)%Z) x l = l ++ [x].
Proof. induction 1 as [|y l Hy _ IH]; [done|]. cbn. rewrite (proj2 (Z.leb_gt y x)) by done. by rewrite IH. Qed.

Lemma sorted_desc l : StronglySorted Z.lt l -> sorted (fun a b => (b <=? a)%Z) l = reverse l.
Proof.
  induction 1 as [|x l Hs IH Hx]; [done|]. change (sorted _ (x :: l)) with (insert_stable (fun a b => (b <=? a)%Z) x (sorted (fun a b => (b <=? a)%Z) l)).
  rewrite IH, insert_last, reverse_cons; [done|]. apply Forall_forall. intros y Hy. rewrite elem_of_reverse in Hy. rewrite Forall_forall in Hx. by apply Hx.
Qed.

(** ** What the stores promise *)

Section refinement.
Context `{!EventJson}.

(** Each run has its events, each with its time. *)
Definition Log : Type := string -> list (odict pyval * Q).
Definition empty_log : Log := fun _ => [].

Definition fresh (retention now : Q) (l : list (odict pyval * Q)) : list (odict pyval * Q) :=
  if Qle_bool retention 0 then l else filter (fun et => Qle_bool (now - retention) et.2 = true) l.
Definition log_purge (retention now : Q) (L : Log) : Log := fun r => fresh retention now (L r).
Definition log_append (n : nat) (run : string) (event : odict pyval) (t : Q) (L : Log) : Log :=
  fun r => if decide (r = run) then lastn n (L r ++ [(event, t)]) else L r.
Definition log_clear (run : string) (L : Log) : Log := fun r => if decide (r = run) then [] else L r.

(** ** SQLite *)

(** The rows of each run are the entries of its log; they are in the order of their
    sequence numbers. *)
Record represents (rows : list Row) (L : Log) : Prop := {
  rep_log run : Forall2 (fun r et => loads (row_event r) = Some et.1 /\ row_created r = et.2) (rows_of run rows) (L run);
  rep_order run : increasing row_seq (rows_of run rows);
}.

Lemma rows_of_filter run (p : Row -> Prop) `{!forall x, Decision (p x)} rows : rows_of run (filter p rows) = filter p (rows_of run rows).
Proof.
  unfold rows_of. rewrite !list_filter_filter. apply list_filter_iff. intros r. tauto.
Qed.

Lemma represents_filter (p : Row -> Prop) (q : odict pyval * Q -> Prop) `{!forall x, Decision (p x), !forall y, Decision (q y)} rows L :
  (forall r et, row_created r = et.2 -> p r <-> q et) -> represents rows L -> represents (filter p rows) (fun run => filter q (L run)).
Proof.
  intros Hpq [Hl Ho]. split; intros run; rewrite rows_of_filter.
  - eapply Forall2_filter; [apply Hl|]. intros r et [_ ?]. by apply Hpq.
  - by apply increasing_filter.
Qed.

Lemma represents_purge retention now rows L : represents rows L -> represents (purge_rows retention now rows) (log_purge retention now L).
Proof.
  intros Hr. unfold purge_rows, log_purge, fresh. destruct (Qle_bool retention 0); [done|]. 
  apply (represents_filter (fun r => Qle_bool (now - retention) (row_created r) = true) (fun et : odict pyval * Q => Qle_bool (now - retention) et.2 = true)); [|done].
  by intros r et ->.
Qed.

Lemma rows_of_clear run run' rows :
  rows_of run' (filter (fun r => row_run r ≠ run) rows) = if decide (run' = run) then [] else rows_of run' rows.
Proof.
  rewrite rows_of_filter. destruct (decide (run' = run)) as [->|Hne].
  - apply elem_of_nil_inv. intros r [? [? _]%list_elem_of_filter]%list_elem_of_filter. congruence.
  - apply filter_keep. intros r [? _]%list_elem_of_filter. congruence.
Qed.

Lemma represents_clear run rows L : represents rows L -> represents (filter (fun r => row_run r ≠ run) rows) (log_clear run L).
Proof.
  intros [Hl Ho]. split; intros run'; rewrite rows_of_clear; unfold log_clear; destruct (decide (run' = run)); try done; constructor.
Qed.

Lemma next_seq_max run rows r : r ∈ rows_of run rows -> row_seq r < next_seq run rows.
Proof.
  unfold next_seq, seqs_of. generalize (rows_of run rows) as l. induction l as [|x l IH]; [by intros ?%elem_of_nil|].
  rewrite fmap_cons. cbn [foldr]. intros [->|Hr]%elem_of_cons; [lia|]. specialize (IH Hr). lia.
Qed.

(** The primary key never clashes with the number of an append. *)
Definition above (seq : Z) (run : string) (rows : list Row) : Prop := Forall (fun r => row_seq r < seq) (rows_of run rows).

Lemma above_next run rows : above (next_seq run rows) run rows.
Proof. apply Forall_forall. intros r. apply next_seq_max. Qed.

Lemma insert_row_above seq run text t rows : above seq run rows -> insert_row (mkRow run seq text t) rows = Some (rows ++ [mkRow run seq text t]).
Proof.
  intros Ha. unfold insert_row. cbn [row_seq row_run]. rewrite decide_False; [done|]. intros (r & Hs & Hr)%list_elem_of_fmap.
  unfold above in Ha. rewrite Forall_forall in Ha. specialize (Ha r Hr). lia.
Qed.

Lemma insert_row_ok run text t rows :
  insert_row (mkRow run (next_seq run rows) text t) rows = Some (rows ++ [mkRow run (next_seq run rows) text t]).
Proof. apply insert_row_above, above_next. Qed.

Lemma above_filter seq run (p : Row -> Prop) `{!forall x, Decision (p x)} rows : above seq run rows -> above seq run (filter p rows).
Proof. unfold above. rewrite rows_of_filter, !Forall_forall. intros Ha r [_ Hr]%list_elem_of_filter. by apply Ha. Qed.

(** An insertion, before the cap is enforced. *)
Definition log_insert (run : string) (event : odict pyval) (t : Q) (L : Log) : Log :=
  fun r => if decide (r = run) then L r ++ [(event, t)] else L r.

Lemma represents_insert seq run event text t rows L : loads text = Some event -> above seq run rows -> represents rows L ->
  represents (rows ++ [mkRow run seq text t]) (log_insert run event t L).
Proof.
  intros Ht Ha [Hl Ho]. split; intros run'; unfold log_insert; specialize (Hl run'); specialize (Ho run'); unfold rows_of in *;
    rewrite filter_app, filter_cons, filter_nil; cbn [row_run].
  - destruct (decide (run = run')) as [->|Hne]; [rewrite decide_True by done|rewrite decide_False, app_nil_r by congruence; done].
    apply Forall2_app; [done|]. by repeat constructor.
  - destruct (decide (run = run')) as [->|Hne]; [|by rewrite app_nil_r]. by apply increasing_snoc.
Qed.

Lemma increasing_seqs rows : increasing row_seq rows -> StronglySorted Z.lt (row_seq <$> rows).
Proof. induction 1 as [|r rows Hs IH Hr]; [constructor|]. rewrite fmap_cons. constructor; [done|]. by apply Forall_fmap. Qed.

(** How many events a run keeps: an offset below zero is none, so at least one. *)
Definition cap (max_events : Z) : nat := Z.to_nat (Z.max 1 max_events).

Lemma rows_of_trim run run' k rows : increasing row_seq (rows_of run rows) ->
  rows_of run' (trim_rows run k rows) = if decide (run' = run) then lastn (cap k) (rows_of run rows) else rows_of run' rows.
Proof.
  intros Ho. unfold trim_rows, seq_at_offset, seqs_of. rewrite (sorted_desc _ (increasing_seqs _ Ho)).
  set (l := rows_of run rows) in *. set (n := Z.to_nat (k - 1)). assert (cap k = S n) as -> by (unfold cap; lia).
  destruct (reverse (row_seq <$> l) !! n) as [s|] eqn:E.
  - pose proof (lookup_lt_Some _ _ _ E) as Hn. rewrite length_reverse, length_fmap in Hn.
    rewrite reverse_lookup in E by (by rewrite length_fmap). rewrite length_fmap in E. apply list_lookup_fmap_Some in E as (x & -> & Hx).
    rewrite rows_of_filter. destruct (decide (run' = run)) as [->|Hne].
    + fold l. unfold lastn. rewrite <- (filter_from row_seq l (length l - S n) x Ho Hx). apply filter_ext_in.
      intros r Hr. assert (row_run r = run) by by apply list_elem_of_filter in Hr as [? _]. tauto.
    + apply filter_keep. intros r [Hr _]%list_elem_of_filter [? _]. congruence.
  - apply lookup_ge_None in E. rewrite length_reverse, length_fmap in E. destruct (decide (run' = run)) as [->|Hne]; [|done].
    fold l. by rewrite lastn_all by lia.
Qed.

Lemma increasing_trim run k rows : (forall run', increasing row_seq (rows_of run' rows)) ->
  forall run', increasing row_seq (rows_of run' (trim_rows run k rows)).
Proof.
  intros Ho run'. rewrite rows_of_trim by done. destruct (decide (run' = run)); [|done].
  pose proof (Ho run) as Hi. unfold lastn. rewrite <- (take_drop (length (rows_of run rows) - cap k) (rows_of run rows)) in Hi.
  revert Hi. generalize (take (length (rows_of run rows) - cap k) (rows_of run rows)). intros l1. clear.
  induction l1 as [|x l1 IH]; [done|]. inversion 1; subst. by apply IH.
Qed.

(** The cap, enforced. *)
Definition log_trim (n : nat) (run : string) (L : Log) : Log := fun r => if decide (r = run) then lastn n (L r) else L r.

Lemma represents_trim run k rows L : represents rows L -> represents (trim_rows run k rows) (log_trim (cap k) run L).
Proof.
  intros [Hl Ho]. split; [|by apply increasing_trim]. intros run'. rewrite rows_of_trim by done. specialize (Hl run'). unfold log_trim.
  destruct (decide (run' = run)) as [->|]; [|done]. by apply Forall2_lastn.
Qed.

Lemma represents_append run event text t k rows L : loads text = Some event -> represents rows L ->
  represents (trim_rows run k (rows ++ [mkRow run (next_seq run rows) text t])) (log_append (cap k) run event t L).
Proof.
  intros Ht Hr. destruct (represents_trim run k _ _ (represents_insert _ run event text t rows L Ht (above_next run rows) Hr)) as [Hl Ho].
  split; [|done]. intros run'. specialize (Hl run'). unfold log_append, log_trim, log_insert in *. by destruct (decide (run' = run)).
Qed.

Lemma represents_nil : represents [] empty_log.
Proof. split; intros run; constructor. Qed.

Context `{!EventJsonLaws}.

Lemma represents_read run rows L : represents rows L ->
  omap (fun r => loads (row_event r)) (sorted (fun a b => (row_seq a <=? row_seq b)%Z) (rows_of run rows)) = (L run).*1.
Proof.
  intros [Hl Ho]. rewrite sorted_asc by apply Ho. specialize (Hl run). induction Hl as [|r [e t] l l' [Hd _] _ IH]; [done|].
  cbn in *. rewrite Hd. cbn. by f_equal.
Qed.

(** ** Operations *)

Inductive Op :=
| OAppend (fault : option Fault) (run : string) (event : odict pyval) (t t' : Q)
| OGet (purge : Outcome) (run : string) (now : Q)
| OClear (o : Outcome) (run : string).

Definition sq_apply (s : SqliteReplayStore) (o : Op) : SqliteReplayStore :=
  match o with
  | OAppend fault run e t t' => sq_append fault run e t t' s
  | OGet purge run now => (sq_get_events purge false run now s).1
  | OClear o run => sq_clear o run s
  end.

(** The specification: what cannot be serialised, or fails before it is inserted, is
    not kept; a failure after that leaves the cap or the purge to the next append; a purge or a
    clear that fails changes nothing. *)
Definition log_purge_if (o : Outcome) (retention now : Q) (L : Log) : Log := if decide (o = StatementFails) then L else log_purge retention now L.
Definition log_clear_if (o : Outcome) (run : string) (L : Log) : Log := if decide (o = StatementFails) then L else log_clear run L.
Definition log_apply (n : nat) (retention : Q) (L : Log) (o : Op) : Log :=
  match o with
  | OAppend fault run e t t' =>
      if is_ok (dumps e) then
        match fault with
        | Some FSelect | Some FInsert => L
        | Some FTrim => log_insert run e t L
        | Some FCommit => log_append n run e t L
        | Some (FPurge o) => log_purge_if o retention t' (log_append n run e t L)
        | None => log_purge retention t' (log_append n run e t L)
        end
      else L
  | OGet purge _ now => log_purge_if purge retention now L
  | OClear o run => log_clear_if o run L
  end.

Lemma represents_purge_if o retention now rows L : represents rows L ->
  represents (if decide (o = StatementFails) then rows else purge_rows retention now rows) (log_purge_if o retention now L).
Proof. intros Hr. unfold log_purge_if. destruct (decide (o = StatementFails)); [done|]. by apply represents_purge. Qed.

Lemma purge_expired_fields o now s : sq_open (purge_expired o now s) = sq_open s /\ sq_max_events (purge_expired o now s) = sq_max_events s /\
  sq_retention (purge_expired o now s) = sq_retention s /\
  sq_rows (purge_expired o now s) = if decide (o = StatementFails) then sq_rows s else purge_rows (sq_retention s) now (sq_rows s).
Proof. unfold purge_expired. by destruct (decide (o = StatementFails)). Qed.

Lemma sq_get_represents run now s L : sq_open s = true -> represents (sq_rows s) L ->
  forall purge, (sq_get_events purge false run now s).2 = (log_purge_if purge (sq_retention s) now L run).*1.
Proof.
  intros Hopen Hr purge. unfold sq_get_events. rewrite Hopen. cbn. unfold read_rows. destruct (purge_expired_fields purge now s) as (_ & _ & _ & ->).
  by apply represents_read, represents_purge_if.
Qed.

(** *** Statement by statement

    What may happen to the store, one statement at a time: an append begins (when no other
    holds the lock) or goes on; the purge of a read, or of another; a clear. *)
Inductive Move :=
| MBegin (fails : bool) (run : string) (event : odict pyval)
| MNext (o : Outcome) (now : Q)
| MPurge (o : Outcome) (now : Q)
| MClear (o : Outcome) (run : string).

Definition sq_move (sp : SqliteReplayStore * option Pending) (m : Move) : SqliteReplayStore * option Pending :=
  match m, sp with
  | MBegin fails run e, (s, None) => (s, append_begins fails run e s)
  | MBegin _ _ _, (s, Some p) => (s, Some p)
  | MNext o now, (s, Some p) => append_goes_on o now p s
  | MNext _ _, (s, None) => (s, None)
  | MPurge o now, (s, p) => (purge_expired o now s, p)
  | MClear o run, (s, p) => (sq_clear o run s, p)
  end.

(** An append alone is its statements in turn. *)
Definition outcome_of (fault : option Fault) (f : Fault) : Outcome := if decide (fault = Some f) then StatementFails else Done.
Definition append_moves (fault : option Fault) (run : string) (event : odict pyval) (t t' : Q) : list Move :=
  [MBegin (bool_decide (fault = Some FSelect)) run event; MNext (outcome_of fault FInsert) t; MNext (outcome_of fault FTrim) t; MNext (outcome_of fault FCommit) t;
   MNext (match fault with Some (FPurge o) => o | _ => Done end) t'].
Lemma append_is_moves fault run event t t' s : foldl sq_move (s, None) (append_moves fault run event t t') = (sq_append fault run event t t' s, None).
Proof.
  unfold append_moves, sq_append, outcome_of. cbn [foldl sq_move]. unfold append_begins. destruct (sq_open s); cbn [negb]; [|done].
  destruct (dumps event) as [text|x]; [|done]. destruct fault as [[| | | |[]]|];
    repeat (progress (cbn; rewrite ?insert_row_ok) || case_bool_decide || case_decide); try done; exfalso; intuition congruence.
Qed.

(** The specification of the moves: a log, and the append that is under way. *)
Inductive LogPending := LInsert (run : string) (event : odict pyval) | LTrim (run : string) | LCommit | LPurge.
Definition log_move (n : nat) (retention : Q) (Lp : Log * option LogPending) (m : Move) : Log * option LogPending :=
  match m, Lp with
  | MBegin fails run e, (L, None) => (L, if fails || negb (is_ok (dumps e)) then None else Some (LInsert run e))
  | MNext Done now, (L, Some (LInsert run e)) => (log_insert run e now L, Some (LTrim run))
  | MNext Done now, (L, Some (LTrim run)) => (log_trim n run L, Some LCommit)
  | MNext Done _, (L, Some LCommit) => (L, Some LPurge)
  | MNext o now, (L, Some LPurge) => (log_purge_if o retention now L, None)
  | MNext _ _, (L, _) => (L, None)
  | MPurge o now, (L, p) => (log_purge_if o retention now L, p)
  | MClear o run, (L, p) => (log_clear_if o run L, p)
  | MBegin _ _ _, (L, Some p) => (L, Some p)
  end.

(** The number of an append that is under way stays above those of its run. *)
Definition pending_represents (rows : list Row) (p : option Pending) (lp : option LogPending) : Prop :=
  match p, lp with
  | Some (ToInsert run text seq), Some (LInsert run' e) => run' = run /\ loads text = Some e /\ above seq run rows
  | Some (ToTrim run), Some (LTrim run') => run' = run
  | Some ToCommit, Some LCommit | Some ToPurge, Some LPurge | None, None => True
  | _, _ => False
  end.

Lemma pending_filter (p : Row -> Prop) `{!forall x, Decision (p x)} rows pd lp : pending_represents rows pd lp -> pending_represents (filter p rows) pd lp.
Proof. destruct pd as [[]|], lp as [[]|]; cbn; try done. intros (-> & ? & ?). split_and!; try done. by apply above_filter. Qed.

Lemma pending_purge o retention now rows pd lp : pending_represents rows pd lp ->
  pending_represents (if decide (o = StatementFails) then rows else purge_rows retention now rows) pd lp.
Proof. intros Hp. case_decide; [done|]. unfold purge_rows. destruct (Qle_bool retention 0); [done|]. by apply pending_filter. Qed.

Definition move_ok (m : Move) : Prop := match m with MBegin _ _ e => json_event e | _ => True end.
Record refines (k : Z) (retention : Q) (sp : SqliteReplayStore * option Pending) (Lp : Log * option LogPending) : Prop := {
  rf_open : sq_open sp.1 = true;
  rf_max : sq_max_events sp.1 = k;
  rf_retention : sq_retention sp.1 = retention;
  rf_rows : represents (sq_rows sp.1) Lp.1;
  rf_pending : pending_represents (sq_rows sp.1) sp.2 Lp.2;
}.

Lemma refines_purge o now k retention s L p lp : refines k retention (s, p) (L, lp) -> refines k retention (purge_expired o now s, p) (log_purge_if o retention now L, lp).
Proof.
  intros [Ho Hm Hr Hrep Hp]. cbn in *. destruct (purge_expired_fields o now s) as (E1 & E2 & E3 & E4). subst retention.
  split; cbn; [congruence..| |]; rewrite E4; [by apply represents_purge_if | by apply pending_purge].
Qed.

Lemma refines_next o now k retention s L p lp : refines k retention (s, Some p) (L, Some lp) ->
  refines k retention (append_goes_on o now p s) (log_move (cap k) retention (L, Some lp) (MNext o now)).
Proof.
  intros Hrf. pose proof Hrf as [Ho Hm Hr Hrep Hp]. cbn in *. assert (refines k retention (s, None) (L, None)) as Hend by done.
  destruct p as [run text seq|run| |], lp as [run' e|run'| |]; try done; cbn [append_goes_on log_move].
  - destruct Hp as (-> & Hl & Ha). rewrite insert_row_above by done. destruct o; cbn; try done. split; try done. by apply represents_insert.
  - subst run'. destruct o; cbn; try done. split; try done. cbn. rewrite Hm. by apply represents_trim.
  - by destruct o.
  - assert (refines k retention (purge_expired o now s, None) (log_purge_if o retention now L, None)) by by apply refines_purge. by destruct o.
Qed.

Lemma refines_move k retention sp Lp m : move_ok m -> refines k retention sp Lp -> refines k retention (sq_move sp m) (log_move (cap k) retention Lp m).
Proof.
  destruct sp as [s p], Lp as [L lp]. intros Hok Hrf. destruct m as [fails run e|o now|o now|o run].
  - pose proof Hrf as [Ho Hm Hr Hrep Hp]. cbn in *. destruct p as [p|], lp as [lp|]; try done; [by destruct p|].
    unfold append_begins. rewrite Ho. cbn [negb]. destruct (dumps e) as [text|x] eqn:Ed; cbn [is_ok negb]; rewrite ?orb_true_r, ?orb_false_r; [|done].
    destruct fails; [done|]. split; try done. cbn. split_and!; [done|by eapply loads_dumps|apply above_next].
  - destruct p as [p|], lp as [lp|]; [by apply refines_next|destruct Hrf as [_ _ _ _ Hp]; by destruct p|by destruct Hrf|]. cbn. by destruct o.
  - by apply refines_purge.
  - pose proof Hrf as [Ho Hm Hr Hrep Hp]. cbn in *. unfold sq_clear, log_clear_if. rewrite Ho. cbn [negb orb]. case_bool_decide as E; case_decide; try done.
    split; try done; cbn; [by apply represents_clear | by apply pending_filter].
Qed.

Lemma refines_start k retention now0 : refines k retention (sq_connect k retention [] now0, None) (empty_log, None).
Proof.
  unfold sq_connect, purge_expired. cbn. split; try done. cbn. unfold purge_rows. destruct (Qle_bool retention 0); apply represents_nil.
Qed.

Lemma refines_moves k retention ms : Forall move_ok ms -> forall sp Lp, refines k retention sp Lp ->
  refines k retention (foldl sq_move sp ms) (foldl (log_move (cap k) retention) Lp ms).
Proof. induction 1 as [|m ms Hm _ IH]; intros sp Lp Hrf; [done|]. apply IH. by apply refines_move. Qed.

(** C28. The SQLite store refines the log, statement by statement.  Over any appends of JSON
    events, clears and purges of any runs, whose statements interleave wherever the lock of the
    appends allows it, at any clock readings and with any statement or commit failing, a read
    that does not fail returns exactly the events of its run that the specification keeps,
    oldest first: the last [max_events] of them once their append has trimmed, at least one,
    less those that purges found older than the retention; a read that fails is empty.  Sequence
    numbers that are reused after a clear or a purge never clash and never disturb the order. *)
Theorem sqlite_refines max_events retention now0 moves purge read_fails run now : Forall move_ok moves ->
  let s := (foldl sq_move (sq_connect max_events retention [] now0, None) moves).1 in
  let L := (foldl (log_move (cap max_events) retention) (empty_log, None) moves).1 in
  (sq_get_events purge read_fails run now s).2 = if read_fails then [] else (log_purge_if purge retention now L run).*1.
Proof.
  intros Hok. cbv zeta. destruct (refines_moves max_events retention moves Hok _ _ (refines_start max_events retention now0)) as [Ho _ Hr Hrep _].
  destruct read_fails; [unfold sq_get_events; by rewrite Ho|]. rewrite (sq_get_represents run now _ _ Ho Hrep). by rewrite Hr.
Qed.

(** *** Operation by operation *)

Definition op_ok (o : Op) : Prop := match o with OAppend _ _ e _ _ => json_event e | _ => True end.

Lemma sq_apply_represents s L o : op_ok o -> sq_open s = true -> represents (sq_rows s) L ->
  sq_open (sq_apply s o) = true /\ sq_max_events (sq_apply s o) = sq_max_events s /\ sq_retention (sq_apply s o) = sq_retention s /\
  represents (sq_rows (sq_apply s o)) (log_apply (cap (sq_max_events s)) (sq_retention s) L o).
Proof.
  intros Hok Hopen Hr. destruct o as [fault run e t t'|purge run now|o run]; cbn [sq_apply log_apply].
  - unfold sq_append. rewrite Hopen. cbn [negb]. destruct (dumps e) as [text|x] eqn:Ht; cbn [is_ok]; [|by split_and!]. apply loads_dumps in Ht; [|done].
    pose proof (represents_insert _ run e text t _ _ Ht (above_next run (sq_rows s)) Hr) as Hins. pose proof (represents_append run e text t (sq_max_events s) _ _ Ht Hr) as Happ.
    rewrite insert_row_ok. destruct fault as [[| | | |o]|]; repeat (case_decide; try (exfalso; intuition congruence)); try by split_and!.
    + match goal with |- context [purge_expired o t' ?x] => destruct (purge_expired_fields o t' x) as (-> & -> & -> & ->) end.
      split_and!; [done..|]. by apply represents_purge_if.
    + split_and!; [done..|]. by apply represents_purge.
  - unfold sq_get_events. rewrite Hopen. cbn. destruct (purge_expired_fields purge now s) as (-> & -> & -> & ->). split_and!; [done..|]. by apply represents_purge_if.
  - unfold sq_clear, log_clear_if. rewrite Hopen. cbn. case_bool_decide; case_decide; try done. split_and!; [done..|]. by apply represents_clear.
Qed.

Lemma sq_run_represents ops : Forall op_ok ops -> forall s L, sq_open s = true -> represents (sq_rows s) L ->
  let s' := foldl sq_apply s ops in
  sq_open s' = true /\ sq_max_events s' = sq_max_events s /\ sq_retention s' = sq_retention s /\
  represents (sq_rows s') (foldl (log_apply (cap (sq_max_events s)) (sq_retention s)) L ops).
Proof.
  induction 1 as [|o ops Hok _ IH]; intros s L Hopen Hr; [by split_and!|]. cbn [foldl].
  destruct (sq_apply_represents s L o Hok Hopen Hr) as (Hopen' & Hm & Hret & Hr').
  destruct (IH _ _ Hopen' Hr') as (? & E1 & E2 & Hrep). rewrite Hm, Hret in *. by split_and!.
Qed.

(** What a store that starts empty gives back. *)
Lemma sq_read_back max_events retention now0 ops run now : Forall op_ok ops ->
  (sq_get_events Done false run now (foldl sq_apply (sq_connect max_events retention [] now0) ops)).2 =
  (log_purge retention now (foldl (log_apply (cap max_events) retention) empty_log ops) run).*1.
Proof.
  intros Hok. destruct (refines_start max_events retention now0) as [Ho Hm Hret Hrep _].
  destruct (sq_run_represents ops Hok _ _ Ho Hrep) as (Ho' & _ & Hret' & Hr). cbn in *.
  rewrite (sq_get_represents run now _ _ Ho' Hr). cbn. by rewrite Hret'.
Qed.

(** ** The other stores *)

Definition mem_apply (s : res InMemoryReplayStore) (o : Op) : res InMemoryReplayStore :=
  m ← s;
  match o with
  | OAppend _ run e _ _ => mem_append run e m
  | OGet _ _ _ => Ok m
  | OClear _ run => Ok (mem_clear run m)
  end.

(** Operations that nothing disturbs, on JSON events. *)
Definition calm (o : Op) : Prop :=
  match o with
  | OAppend f _ e _ _ => f = None /\ is_ok (dumps e) = true /\ json_event e
  | OGet purge _ _ => purge = Done
  | OClear o _ => o = Done
  end.
Lemma calm_ok ops : Forall calm ops -> Forall op_ok ops.
Proof. intros Hc. eapply Forall_impl; [exact Hc|]. by intros [] Ho; [destruct Ho as (_ & _ & ?)| |]. Qed.

Definition mem_represents (m : InMemoryReplayStore) (L : Log) : Prop := forall run, default [] (buffers m !! run) = (L run).*1.

Lemma fmap_lastn {A B} (f : A -> B) n l : f <$> lastn n l = lastn n (f <$> l).
Proof. unfold lastn. by rewrite fmap_drop, length_fmap. Qed.

Lemma log_purge_off retention now L run : (retention <= 0)%Q -> log_purge retention now L run = L run.
Proof. intros Hr%Qle_bool_iff. unfold log_purge, fresh. by rewrite Hr. Qed.

Lemma mem_run_represents k retention ops : (1 <= k)%Z -> (retention <= 0)%Q -> Forall calm ops -> forall m L,
  mem_max_events m = k -> mem_represents m L ->
  exists m', foldl mem_apply (Ok m) ops = Ok m' /\ mem_represents m' (foldl (log_apply (cap k) retention) L ops).
Proof.
  intros Hk Hret Hcalm. induction Hcalm as [|o ops Ho _ IH]; intros m L Hm Hr; [by eexists|]. cbn [foldl mem_apply mbind res_bind].
  assert (forall m1, mem_max_events m1 = k -> mem_represents m1 (log_apply (cap k) retention L o) ->
    exists m', foldl mem_apply (Ok m1) ops = Ok m' /\ mem_represents m' (foldl (log_apply (cap k) retention) (log_apply (cap k) retention L o) ops)) as Hgo by eauto.
  destruct o as [fault run e t t'|purge run now|o run]; [|cbn in Ho; subst..].
  - destruct Ho as (-> & Hd & _). unfold mem_append. assert (Z.to_nat (mem_max_events m) = cap k) as E by (rewrite Hm; unfold cap; lia).
    assert (mem_represents (mkMemoryStore (mem_max_events m) (<[run := lastn (cap k) (default [] (buffers m !! run) ++ [e])]> (buffers m)))
              (log_apply (cap k) retention L (OAppend None run e t t'))) as Hnew.
    { intros run'. cbn [log_apply buffers]. rewrite Hd, log_purge_off by done. unfold log_append. specialize (Hr run'). destruct (decide (run' = run)) as [->|Hne].
      - rewrite lookup_insert_eq. cbn. by rewrite fmap_lastn, fmap_app, Hr.
      - by rewrite lookup_insert_ne. }
    destruct (buffers m !! run) as [d|] eqn:Ed.
    + rewrite E. by apply Hgo.
    + rewrite (proj2 (Z.ltb_ge _ _)) by lia. rewrite E. by apply Hgo.
  - apply Hgo; [done|]. intros run'. cbn [log_apply]. by rewrite log_purge_off.
  - apply Hgo; [done|]. intros run'. cbn [log_apply buffers mem_clear]. unfold log_clear_if, log_clear. rewrite (decide_False (P := Done = StatementFails)) by done. specialize (Hr run'). destruct (decide (run' = run)) as [->|Hne].
    + by rewrite lookup_delete_eq.
    + by rewrite lookup_delete_ne.
Qed.

(** *** Redis *)

Context {R : Type} `{!RedisLists R, !RedisListsLaws R}.

Definition rd_apply (sr : RedisReplayStore * R) (o : Op) : RedisReplayStore * R :=
  match o with
  | OAppend _ run e _ _ => (rd_append link_up run e sr.1 sr.2).1
  | OGet _ run _ => ((rd_get_events link_up run sr.1 sr.2).1, sr.2)
  | OClear _ run => rd_clear link_up run sr.1 sr.2
  end.

Definition rd_represents (r : R) (L : Log) : Prop :=
  forall run, Forall2 (fun text e => loads text = Some e) (lrange_all r (make_key run)) (L run).*1.

Lemma make_key_inj run run' : make_key run = make_key run' -> run = run'.
Proof. unfold make_key. apply (inj (String.append _)). Qed.

Lemma trim_from_neg {A} n (l : list A) : (1 <= n)%Z -> trim_from (- n) l = lastn (Z.to_nat n) l.
Proof. intros Hn. unfold trim_from. rewrite (proj2 (Z.ltb_lt _ _)) by lia. by rewrite Z.opp_involutive. Qed.

Lemma rd_run_represents k retention ops : (1 <= k)%Z -> (retention <= 0)%Q -> Forall calm ops -> forall s r L,
  rd_connected s = true -> rd_max_events s = k -> (0 < rd_ttl s)%Z -> rd_represents r L ->
  exists r', foldl rd_apply (s, r) ops = (s, r') /\ rd_represents r' (foldl (log_apply (cap k) retention) L ops).
Proof.
  intros Hk Hret Hcalm. induction Hcalm as [|o ops Ho _ IH]; intros s r L Hs Hm Httl Hr; [by eexists|]. cbn [foldl].
  destruct o as [fault run e t t'|purge run now|o run]; [|cbn in Ho; subst..]; cbn [rd_apply fst snd].
  - destruct Ho as (-> & Hd & Hj). unfold rd_append. rewrite Hs. cbn [negb]. destruct (dumps e) as [text|x] eqn:Ht; [|done].
    cbn [append_commands failed link_up foldl]. unfold note_error. cbn [failed andb fst]. cbn [log_apply]. rewrite Ht. cbn [is_ok].
    apply IH; [done..|]. intros run'. rewrite log_purge_off by done. specialize (Hr run').
    rewrite lrange_expire by done. rewrite Hm, lrange_ltrim, !lrange_rpush. unfold log_append.
    destruct (decide (run' = run)) as [->|Hne].
    + rewrite !(decide_True _ _ eq_refl), trim_from_neg by done. rewrite fmap_lastn, fmap_app. replace (cap k) with (Z.to_nat k) by (unfold cap; lia).
      apply Forall2_lastn, Forall2_app; [done|]. repeat constructor. by apply (loads_dumps e).
    + rewrite !(decide_False _ _ (fun E => Hne (make_key_inj _ _ E))). done.
  - unfold rd_get_events. rewrite Hs. cbn [negb failed link_up fst]. apply IH; [done..|]. intros run'. cbn [log_apply]. by rewrite log_purge_off.
  - unfold rd_clear. rewrite Hs. cbn [negb failed link_up andb fst]. unfold note_error. cbn [failed andb]. apply IH; [done..|].
    intros run'. cbn [log_apply]. rewrite lrange_del. unfold log_clear_if, log_clear. rewrite (decide_False (P := Done = StatementFails)) by done. specialize (Hr run'). destruct (decide (run' = run)) as [->|Hne].
    + rewrite decide_True by done. constructor.
    + by rewrite decide_False by (by intros ?%make_key_inj).
Qed.

Lemma omap_loads (texts : list string) (events : list (odict pyval)) :
  Forall2 (fun text e => loads text = Some e) texts events -> omap loads texts = events.
Proof. induction 1 as [|text e texts events Ht _ IH]; [done|]. cbn. rewrite Ht. cbn. by f_equal. Qed.

(** The stores are interchangeable.  With a cap of at least one, no retention, a
    positive time to live, and events that can be serialised, the three stores give the
    same answers after any appends, reads and clears: the events that the log keeps. *)
Theorem stores_agree max_events ttl ops run now0 now r0 :
  (1 <= max_events)%Z -> (0 < ttl)%Z -> Forall calm ops -> (forall key, lrange_all r0 key = []) ->
  let log := (foldl (log_apply (cap max_events) 0) empty_log ops run).*1 in
  (exists m, foldl mem_apply (Ok (new_memory_store max_events)) ops = Ok m /\ mem_get_events run m = log) /\
  (sq_get_events Done false run now (foldl sq_apply (sq_connect max_events 0 [] now0) ops)).2 = log /\
  (let sr := foldl rd_apply (mkRedisStore max_events ttl true, r0) ops in (rd_get_events link_up run sr.1 sr.2).2 = log).
Proof.
  intros Hk Httl Hcalm Hr0. cbn zeta. split; [|split].
  - destruct (mem_run_represents max_events 0 ops Hk ltac:(done) Hcalm (new_memory_store max_events) empty_log eq_refl) as (m & Hm & Hrep).
    { intros run'. cbn. by rewrite lookup_empty. }
    exists m. split; [done|]. apply Hrep.
  - rewrite sq_read_back by by apply calm_ok. by rewrite log_purge_off.
  - destruct (rd_run_represents max_events 0 ops Hk ltac:(done) Hcalm (mkRedisStore max_events ttl true) r0 empty_log eq_refl eq_refl Httl) as (r' & -> & Hrep).
    { intros run'. rewrite Hr0. constructor. }
    cbn. by apply omap_loads.
Qed.

(** ** Appends of several workers *)

(** The commands of appends to one key, as the server receives them. *)
Inductive Cmd := CPush (text : string) | CTrim | CExpire.
Definition run_cmd (s : RedisReplayStore) (key : string) (r : R) (c : Cmd) : R :=
  match c with
  | CPush text => rpush key text r
  | CTrim => ltrim key (- rd_max_events s) (-1) r
  | CExpire => expire key (rd_ttl s) r
  end.
Definition pushed (cmds : list Cmd) : list string := omap (fun c => match c with CPush t => Some t | _ => None end) cmds.
(** The pushes that no trim follows yet. *)
Definition untrimmed (cmds : list Cmd) : nat :=
  foldl (fun n c => match c with CPush _ => S n | CTrim => 0%nat | CExpire => n end) 0%nat cmds.

Lemma lastn_lastn {A} n k (l : list A) : (n <= k)%nat -> lastn n (lastn k l) = lastn n l.
Proof. intros Hn. unfold lastn. rewrite length_drop, skipn_skipn. f_equal. lia. Qed.

Lemma lastn_push {A} n (l : list A) x : lastn n l ++ [x] = lastn (S n) (l ++ [x]).
Proof.
  unfold lastn. rewrite length_app. cbn [length]. rewrite skipn_app. f_equal; [f_equal; lia|].
  replace (length l + 1 - S n - length l)%nat with 0%nat by lia. done.
Qed.

(** The appends of several workers converge.  The commands of their pipelines may
    reach the server in any order: at every moment the list of a run is the last j
    events pushed, with j between the cap and the cap plus the pushes that no trim
    follows yet.  So no event is lost early, and it is exact once the appends are done. *)
Theorem interleaved_appends s key r cmds : (1 <= rd_max_events s)%Z -> (0 < rd_ttl s)%Z -> lrange_all r key = [] ->
  exists j, (Z.to_nat (rd_max_events s) <= j <= Z.to_nat (rd_max_events s) + untrimmed cmds)%nat /\
    lrange_all (foldl (run_cmd s key) r cmds) key = lastn j (pushed cmds).
Proof.
  intros Hk Httl Hr. induction cmds as [|c cmds IH] using rev_ind.
  { exists (Z.to_nat (rd_max_events s)). cbn. split; [lia|]. rewrite Hr. unfold lastn. by rewrite drop_nil. }
  destruct IH as (j & Hj & IH). unfold untrimmed in *. rewrite !foldl_app. cbn [foldl]. unfold pushed in *. rewrite omap_app. destruct c as [text| |]; cbn [run_cmd omap list_omap].
  - exists (S j). split; [lia|]. rewrite lrange_rpush, decide_True by done. rewrite IH. apply lastn_push.
  - exists (Z.to_nat (rd_max_events s)). split; [lia|]. rewrite lrange_ltrim, decide_True by done. rewrite trim_from_neg by done.
    rewrite IH, lastn_lastn by lia. by rewrite app_nil_r.
  - exists j. split; [lia|]. rewrite lrange_expire by done. by rewrite IH, app_nil_r.
Qed.
End refinement.

(** ** Witnesses *)

#[local] Instance demo_json : EventJson := {
  dumps e := match e with [(k, VStr s)] => if decide (k = "type") then Ok s else Raise (TypeError "not serializable")
             | _ => Raise (TypeError "not serializable") end;
  loads s := Some [("type", VStr s)];
}.
#[local] Instance demo_json_laws : EventJsonLaws.
Proof.
  split. intros e t _. cbn. intros H. repeat case_match; simplify_eq. done.
Defined.

#[local] Instance demo_redis : RedisLists (string -> list string) := {
  lrange_all r k := r k;
  rpush k v r := fun k' => if decide (k' = k) then r k ++ [v] else r k';
  ltrim k start _ r := fun k' => if decide (k' = k) then trim_from start (r k) else r k';
  expire k ttl r := fun k' => if decide (k' = k /\ ttl <= 0) then [] else r k';
  del k r := fun k' => if decide (k' = k) then [] else r k';
}.
#[local] Instance demo_redis_laws : RedisListsLaws (string -> list string).
Proof. split; cbn; intros; try done. rewrite decide_False; [done|]. intros [_ ?]. lia. Defined.

Definition demo_event (s : string) : odict pyval := [("type", VStr s)].
Definition put (run s : string) : Op := OAppend None run (demo_event s) 0 0.
Definition demo_log_ops : list Op := [put "r" "a"; put "q" "x"; put "r" "b"; put "r" "c"; OClear Done "q"].

(** With a retention of ten: an event of another run that expires; an append during which the
    run is cleared; one whose trim fails; and one that is still under way. *)
Definition aging_moves : list Move :=
  append_moves None "q" (demo_event "x") 0 0 ++ append_moves None "r" (demo_event "k") 2 2 ++
  [MBegin false "r" (demo_event "a"); MClear Done "r"; MNext Done 8; MPurge StatementFails 8; MNext Done 8; MNext Done 8; MNext Done 8] ++
  append_moves (Some FInsert) "r" (demo_event "l") 9 9 ++ append_moves (Some FTrim) "r" (demo_event "b") 12 12 ++ [MBegin false "r" (demo_event "c")].

Lemma aging_ok : Forall move_ok aging_moves.
Proof. repeat constructor. Qed.

Lemma sqlite_refines_witness :
  let s := (foldl sq_move (sq_connect 2 10 [] 0, None) aging_moves).1 in
  (sq_get_events Done false "r" 13 s).2 = [demo_event "a"; demo_event "b"] /\ (sq_get_events Done false "q" 13 s).2 = [].
Proof.
  split; [rewrite (sqlite_refines 2 10 0 aging_moves Done false "r" 13 aging_ok)|rewrite (sqlite_refines 2 10 0 aging_moves Done false "q" 13 aging_ok)]; vm_compute; reflexivity.
Defined.

Lemma stores_agree_witness :
  (sq_get_events Done false "r" 0 (foldl sq_apply (sq_connect 2 0 [] 0) demo_log_ops)).2 = [demo_event "b"; demo_event "c"] /\
  (let sr := foldl rd_apply (mkRedisStore 2 60 true, (fun _ => []) : string -> list string) demo_log_ops in
   (rd_get_events link_up "r" sr.1 sr.2).2 = [demo_event "b"; demo_event "c"]).
Proof.
  destruct (stores_agree 2 60 demo_log_ops "r" 0 0 (fun _ => [] : list string) ltac:(lia) ltac:(lia)) as (_ & H & H').
  { unfold demo_log_ops. by repeat (constructor; try done). }
  { done. }
  split; [rewrite H; vm_compute; reflexivity|]. etransitivity; [exact H'|vm_compute; reflexivity].
Defined.

Definition demo_cmds : list Cmd := [CPush "a"; CPush "b"; CTrim; CPush "c"; CExpire; CTrim].
Definition no_lists : string -> list string := fun _ => [].

Lemma interleaved_appends_witness :
  lrange_all (foldl (run_cmd (mkRedisStore 2 60 true) "k") no_lists demo_cmds) "k" = ["b"; "c"].
Proof.
  destruct (interleaved_appends (mkRedisStore 2 60 true) "k" no_lists demo_cmds) as (j & [Hj Hj'] & H); [cbn; lia|cbn; lia|reflexivity|].
  vm_compute in Hj, Hj'. assert (j = 2%nat) as -> by lia. etransitivity; [exact H|vm_compute; reflexivity].
Defined.

(** With a cap of zero the stores differ: none, one, or every event. *)
Example zero_cap_disagrees :
  let ops := [put "r" "a"; put "r" "b"] in
  (exists m, foldl mem_apply (Ok (new_memory_store 0)) ops = Ok m /\ mem_get_events "r" m = []) /\
  (sq_get_events Done false "r" 0 (foldl sq_apply (sq_connect 0 0 [] 0) ops)).2 = [demo_event "b"] /\
  (let sr := foldl rd_apply (mkRedisStore 0 60 true, no_lists) ops in
   (rd_get_events link_up "r" sr.1 sr.2).2 = [demo_event "a"; demo_event "b"]).
Proof. split; [eexists; split; [reflexivity|by vm_compute]|]. by vm_compute. Qed.

(** An event that cannot be serialised raises from the Redis store, which is documented
    never to raise; the other stores take it or drop it. *)
Example unserialisable_event_raises :
  (rd_append link_up "r" [("type", VNone)] (mkRedisStore 5 60 true) ((fun _ => []) : string -> list string)).2 =
    Raise (TypeError "not serializable") /\
  (sq_get_events Done false "r" 0 (sq_append None "r" [("type", VNone)] 0 0 (sq_connect 5 0 [] 0))).2 = [].
Proof. by vm_compute. Qed.
