(* ===== verification/CanonicalJson.v ===== *)
(** * Canonical JSON (server/audit_log.py)

    [json.dumps] with sorted keys and without spaces, the text that audit records are
    hashed over.  The text determines the value: what two values print alike, they are
    alike, up to the order of keys.  The text is written on the list of its characters. *)

From stdpp Require Import pretty sorting.
From Stdlib Require Import Qcanon.
From S2P Require Import Prelude PyStr PyVal.

Abbreviation text := (list Ascii.ascii).

(** One character of a string, with [ensure_ascii=False]. *)
Definition escape_raw (c : Ascii.ascii) : text :=
  if decide (c = quote_char) then ["\"%char; quote_char]
  else if decide (c = "\"%char) then ["\"%char; "\"%char]
  else
    match Ascii.nat_of_ascii c with
    | 8 => chars "\b" | 9 => chars "\t" | 10 => chars "\n" | 12 => chars "\f" | 13 => chars "\r"
    | n => if n <? 32 then chars "\u00" ++ chars (hex_digit (n / 16)) ++ chars (hex_digit (n mod 16)) else [c]
    end.
Definition quoted (s : string) : text := quote_char :: (chars s ≫= escape_raw) ++ [quote_char].

(** What [json.dumps] accepts. *)
Fixpoint serialisable (v : pyval) : bool :=
  match v with
  | VObj _ _ => false
  | VList l | VTuple l => (fix go l := match l with [] => true | x :: l' => serialisable x && go l' end) l
  | VDict d => (fix go (d : list (string * pyval)) := match d with [] => true | (_, x) :: d' => serialisable x && go d' end) d
  | _ => true
  end.

Fixpoint separated (sep : Ascii.ascii) (l : list text) : text :=
  match l with [] => [] | [x] => x | x :: l' => x ++ sep :: separated sep l' end.

Section canonical.
Context (float_repr : Qc -> string).

Fixpoint dump (v : pyval) : text :=
  match v with
  | VNone => chars "null"
  | VBool b => chars (if b then "true" else "false")
  | VInt z => chars (pretty z)
  | VFloat q => chars (float_repr q)
  | VStr s | VObj _ s => quoted s
  | VList l | VTuple l => "["%char :: separated "," ((fix go l := match l with [] => [] | x :: l' => dump x :: go l' end) l) ++ ["]"%char]
  | VDict d =>
      "{"%char :: separated "," ((fix go d := match d with
                            | [] => []
                            | (k, x) :: d' => (quoted k ++ ":"%char :: dump x) :: go d'
                            end) d) ++ ["}"%char]
  end.

Definition canonical_json (v : pyval) : res string :=
  if serialisable v then Ok (of_chars (dump (sort_keys v))) else Raise (TypeError "Object is not JSON serializable").

(** ** Reading back *)

(** The values that JSON text denotes, floats aside: no key occurs twice. *)
Fixpoint pure (v : pyval) : bool :=
  match v with
  | VNone | VBool _ | VInt _ | VStr _ => true
  | VList l => (fix go l := match l with [] => true | x :: l' => pure x && go l' end) l
  | VDict d =>
      bool_decide (NoDup (od_keys d)) &&
      (fix go (d : list (string * pyval)) := match d with [] => true | (_, x) :: d' => pure x && go d' end) d
  | VFloat _ | VTuple _ | VObj _ _ => false
  end.

Lemma pure_list l : pure (VList l) = true <-> Forall (fun x => pure x = true) l.
Proof. induction l as [|x l IH]; [done|]. change (pure x && pure (VList l) = true <-> Forall (fun x => pure x = true) (x :: l)). by rewrite andb_true_iff, IH, Forall_cons. Qed.
Lemma pure_dict d : pure (VDict d) = true <-> NoDup (od_keys d) /\ Forall (fun kv => pure kv.2 = true) d.
Proof.
  change (pure (VDict d)) with (bool_decide (NoDup (od_keys d)) &&
    (fix go (d : list (string * pyval)) := match d with [] => true | (_, x) :: d' => pure x && go d' end) d).
  rewrite andb_true_iff, bool_decide_eq_true. apply and_iff_compat_l. induction d as [|[k x] d IH]; [done|].
  by rewrite andb_true_iff, IH, Forall_cons.
Qed.

(** *** Strings *)

Definition hex_value (c : Ascii.ascii) : nat :=
  let n := Ascii.nat_of_ascii c in if n <? 58 then n - 48 else n - 87.

(** The next character of a string, and what follows it. *)
Definition unescape (l : text) : option (Ascii.ascii * text) :=
  match l with
  | c :: l' =>
      if decide (c = quote_char) then None
      else if decide (c = "\"%char) then
        match l' with
        | "b"%char :: r => Some (Ascii.ascii_of_nat 8, r) | "t"%char :: r => Some (Ascii.ascii_of_nat 9, r)
        | "n"%char :: r => Some (Ascii.ascii_of_nat 10, r) | "f"%char :: r => Some (Ascii.ascii_of_nat 12, r)
        | "r"%char :: r => Some (Ascii.ascii_of_nat 13, r)
        | "u"%char :: _ :: _ :: a :: b :: r => Some (Ascii.ascii_of_nat (hex_value a * 16 + hex_value b), r)
        | d :: r => Some (d, r)
        | [] => None
        end
      else Some (c, l')
  | [] => None
  end.

Lemma unescape_escape c r : unescape (escape_raw c ++ r) = Some (c, r).
Proof. destruct c as [[] [] [] [] [] [] [] []]; reflexivity. Qed.

Lemma escaped_inj (s s' : text) r r' :
  (s ≫= escape_raw) ++ quote_char :: r = (s' ≫= escape_raw) ++ quote_char :: r' -> s = s' /\ r = r'.
Proof.
  revert s'. induction s as [|c s IH]; intros [|c' s'].
  - intros H. by injection H as ->.
  - intros H. apply (f_equal unescape) in H. rewrite bind_cons, <- app_assoc, unescape_escape in H. discriminate H.
  - intros H. apply (f_equal unescape) in H. rewrite bind_cons, <- app_assoc, unescape_escape in H. discriminate H.
  - rewrite !bind_cons, <- !app_assoc. intros H. apply (f_equal unescape) in H. rewrite !unescape_escape in H.
    injection H as -> H. by destruct (IH _ H) as [-> ->].
Qed.

Lemma quoted_inj s s' r r' : quoted s ++ r = quoted s' ++ r' -> s = s' /\ r = r'.
Proof.
  unfold quoted. cbn [app]. rewrite <- !app_assoc. cbn [app]. intros [= H]. apply escaped_inj in H as [Hs ->].
  split; [|done]. rewrite <- (String.string_of_list_ascii_of_string s), Hs. apply String.string_of_list_ascii_of_string.
Qed.

(** *** Numbers *)

Definition number_char (c : Ascii.ascii) : Prop := 45 <= Ascii.nat_of_ascii c <= 57 /\ c ≠ "/"%char /\ c ≠ "."%char.
#[export] Instance number_char_dec c : Decision (number_char c).
Proof. unfold number_char. apply _. Defined.

Lemma pretty_number (z : Z) : Forall number_char (chars (pretty z)).
Proof.
  apply pretty_Z_forall; [|vm_compute; repeat split; try lia; discriminate].
  intros x. unfold pretty_N_char. repeat case_match; vm_compute; repeat split; (lia || discriminate).
Qed.

(** What may follow a value. *)
Definition delimited (r : text) : Prop := match r with [] => True | c :: _ => c ∈ [","; "]"; "}"]%char end.

Lemma delimited_not_number c r : delimited (c :: r) -> ~ number_char c.
Proof. cbn. intros Hc Hn. apply list_elem_of_In in Hc. destruct Hc as [<-|[<-|[<-|[]]]]; destruct Hn as [[H H'] _]; vm_compute in H, H'; lia. Qed.

Lemma number_inj (l l' r r' : text) : Forall number_char l -> Forall number_char l' -> delimited r -> delimited r' ->
  l ++ r = l' ++ r' -> l = l' /\ r = r'.
Proof.
  intros Hl. revert l'. induction Hl as [|c l Hc _ IH]; intros l' Hl' Hr Hr' H; destruct Hl' as [|c' l' Hc' Hl']; cbn in H.
  - done.
  - subst r. by apply delimited_not_number in Hr.
  - subst r'. by apply delimited_not_number in Hr'.
  - injection H as -> H. by destruct (IH l' Hl' Hr Hr' H) as [-> ->].
Qed.

Lemma pretty_nonempty (z : Z) : exists c t, chars (pretty z) = c :: t.
Proof.
  assert (forall x s, chars s ≠ [] -> chars (pretty_N_go x s) ≠ []) as Hgo.
  { intros x. induction (N.lt_wf_0 x) as [x _ IH]; intros s Hs. destruct (decide (x = 0)%N) as [->|Hx]; [done|].
    rewrite pretty_N_go_step by lia. apply IH; [apply N.div_lt; lia|done]. }
  assert (forall x : N, chars (pretty x) ≠ []) as HN.
  { intros x. unfold pretty, pretty_N. case_decide; [done|]. rewrite pretty_N_go_step by lia. by apply Hgo. }
  destruct z as [|p|p]; [by eexists _, _| |by eexists _, _].
  change (pretty (Z.pos p)) with (pretty (N.pos p)). pose proof (HN (N.pos p)). destruct (chars (pretty (N.pos p))); [done|by eexists _, _].
Qed.

(** *** The first character tells the kind of value *)

Definition lead (v : pyval) (c : Ascii.ascii) : Prop :=
  match v with
  | VNone => c = "n"%char
  | VBool b => c = if b then "t"%char else "f"%char
  | VInt _ => number_char c
  | VStr _ => c = quote_char
  | VList _ => c = "["%char
  | VDict _ => c = "{"%char
  | _ => False
  end.

Lemma dump_lead v : pure v = true -> exists c t, dump v = c :: t /\ lead v c.
Proof.
  destruct v as [|[]|z| | | | | |]; try done; intros _; try by eexists _, _.
  destruct (pretty_nonempty z) as (c & t & E). exists c, t. split; [done|].
  pose proof (pretty_number z) as Hn. rewrite E in Hn. by apply Forall_cons in Hn as [? _].
Qed.

Lemma lead_not_close v c : lead v c -> c ∉ [","; "]"; "}"]%char.
Proof.
  intros Hl Hc. apply list_elem_of_In in Hc. destruct Hc as [<-|[<-|[<-|[]]]]; destruct v as [|[]| | | | | | |]; cbn in Hl; try done;
    destruct Hl as [[H H'] _]; vm_compute in H, H'; lia.
Qed.

(** *** Lists and objects *)

Definition dumps (l : list pyval) : list text := dump <$> l.
Definition entry (kv : string * pyval) : text := quoted kv.1 ++ ":"%char :: dump kv.2.

Lemma dump_list l : dump (VList l) = "["%char :: separated "," (dump <$> l) ++ ["]"%char].
Proof. done. Qed.
Lemma dump_dict d : dump (VDict d) = "{"%char :: separated "," (entry <$> d) ++ ["}"%char].
Proof.
  cbn [dump]. do 3 f_equal. induction d as [|[k x] d IH]; [done|]. rewrite fmap_cons. by f_equal.
Qed.

(** What follows the first item of a sequence. *)
Definition rest {A} (f : A -> text) (close : Ascii.ascii) (l : list A) (r : text) : text :=
  match l with [] => close :: r | _ => ","%char :: separated "," (f <$> l) ++ close :: r end.

Lemma separated_cons {A} (f : A -> text) close x l r : separated "," (f <$> x :: l) ++ close :: r = f x ++ rest f close l r.
Proof. destruct l as [|y l]; [done|]. simpl. by rewrite <- app_assoc. Qed.

Lemma rest_delimited {A} (f : A -> text) close l r : close ∈ ["]"; "}"]%char -> delimited (rest f close l r).
Proof. intros Hc. destruct l; cbn; [by right|left]. Qed.

(** A sequence of items that are read unambiguously is. *)
Section sequence.
Context {A : Type} (f : A -> text) (close : Ascii.ascii) (P : A -> Prop).
Context (close_ok : close ∈ ["]"; "}"]%char) (f_lead : forall x, P x -> exists c t, f x = c :: t /\ c ∉ [","; "]"; "}"]%char).
Definition unambiguous (x : A) : Prop :=
  forall y r r', P y -> delimited r -> delimited r' -> f x ++ r = f y ++ r' -> x = y /\ r = r'.

Lemma close_not_lead x t r : P x -> f x ++ t ≠ close :: r.
Proof. intros (c & u & -> & Hc)%f_lead [= -> _]. apply Hc. by right. Qed.

Lemma separated_inj l : Forall (fun x => P x /\ unambiguous x) l -> forall l' r r', Forall P l' ->
  separated "," (f <$> l) ++ close :: r = separated "," (f <$> l') ++ close :: r' -> l = l' /\ r = r'.
Proof.
  induction 1 as [|x l [Hx Hu] _ IH]; intros l' r r' Hl' H; destruct Hl' as [|y l' Hy Hl'].
  - by injection H as ->.
  - rewrite separated_cons in H. symmetry in H. by apply close_not_lead in H.
  - rewrite separated_cons in H. by apply close_not_lead in H.
  - rewrite !separated_cons in H. apply Hu in H as [-> H]; [|done|by apply rest_delimited..].
    assert (close ≠ ","%char) as Hne by (intros ->; apply list_elem_of_In in close_ok; by destruct close_ok as [?|[?|[]]]).
    destruct l as [|a l], l' as [|b l']; cbn [rest] in H.
    + by injection H as ->.
    + injection H as ?. congruence.
    + injection H as ?. congruence.
    + injection H as H. by destruct (IH (b :: l') r r' Hl' H) as [-> ->].
Qed.
End sequence.

Lemma entry_lead kv : exists c t, entry kv = c :: t /\ c ∉ [","; "]"; "}"]%char.
Proof. unfold entry, quoted. eexists _, _. split; [done|]. by vm_compute; intros H; repeat (apply elem_of_cons in H as [H|H]; [discriminate H|]); apply elem_of_nil in H. Qed.

Lemma value_lead v : pure v = true -> exists c t, dump v = c :: t /\ c ∉ [","; "]"; "}"]%char.
Proof. intros (c & t & -> & Hc)%dump_lead. exists c, t. split; [done|]. by eapply lead_not_close. Qed.

(** Two values whose texts begin alike are of one kind. *)
Lemma lead_kind v v' c : lead v c -> lead v' c ->
  match v, v' with
  | VNone, VNone | VInt _, VInt _ | VStr _, VStr _ | VList _, VList _ | VDict _, VDict _ => True
  | VBool b, VBool b' => b = b'
  | _, _ => False
  end.
Proof.
  assert (forall k, number_char k -> k ∉ ["n"; "t"; "f"; quote_char; "["; "{"]%char) as Hnum.
  { intros k [[H H'] _] Hk. apply list_elem_of_In in Hk. repeat (destruct Hk as [<-|Hk]; [vm_compute in H, H'; lia|]). done. }
  destruct v as [|[]| | | | | | |], v' as [|[]| | | | | | |]; cbn; intros H H'; subst; try done;
    (exfalso; eapply Hnum; [eassumption|]; by vm_compute; repeat (first [left; reflexivity|right])).
Qed.

(** Canonical text determines the value: no JSON value is a proper prefix of
    another one, and values that print alike are equal. *)
Lemma dump_inj v : forall v' r r', pure v = true -> pure v' = true -> delimited r -> delimited r' ->
  dump v ++ r = dump v' ++ r' -> v = v' /\ r = r'.
Proof.
  induction v as [|b|z|q|s|l IH|l IH|d IH|t s] using pyval_nested_ind; intros v' r r' Hv Hv' Hr Hr' H; try done.
  all: destruct (dump_lead _ Hv) as (c & u & E & Hl); destruct (dump_lead _ Hv') as (c' & u' & E' & Hl').
  all: assert (c = c') as <- by (rewrite E, E' in H; by injection H).
  all: pose proof (lead_kind _ _ _ Hl Hl') as Hk; destruct v' as [|b'|z'| |s'|l'| |d'|]; try done; clear E E' Hl Hl' u u'.
  - by apply app_inv_head in H.
  - subst b'. by apply app_inv_head in H.
  - apply number_inj in H as [H ->]; [|apply pretty_number..|done|done]. split; [|done]. f_equal. apply (inj pretty).
    cbn [dump] in H. apply (f_equal of_chars) in H. by rewrite !String.string_of_list_ascii_of_string in H.
  - by apply quoted_inj in H as [-> ->].
  - rewrite !dump_list in H. cbn [app] in H. rewrite <- !app_assoc in H. injection H as H.
    apply pure_list in Hv, Hv'. apply (separated_inj dump "]" (fun x => pure x = true)) in H as [-> ->]; [done|by left|apply value_lead| |done].
    rewrite Forall_forall in *. intros x Hx. split; [by apply Hv|]. intros y k k' Hy Hk1 Hk2. apply IH; auto.
  - rewrite !dump_dict in H. cbn [app] in H. rewrite <- !app_assoc in H. injection H as H.
    apply pure_dict in Hv as [_ Hv], Hv' as [_ Hv']. apply (separated_inj entry "}" (fun kv => pure kv.2 = true)) in H as [-> ->]; [done|by right; left|intros; apply entry_lead| |done].
    rewrite Forall_forall in *. intros [k x] Hx. split; [by apply (Hv (k, x))|]. intros [k' y] a a' Hy Ha Ha' He. unfold entry in He. cbn [fst snd] in He.
    rewrite <- !app_assoc in He. apply quoted_inj in He as [-> He]. injection He as He. destruct (IH (k', x) Hx y a a' (Hv (k', x) Hx) Hy Ha Ha' He) as [E ->]. cbn [snd] in E. by rewrite E.
Qed.
End canonical.

(** ** Sorted keys *)

Definition sort_entries (d : list (string * pyval)) : list (string * pyval) := (fun kv => (kv.1, sort_keys kv.2)) <$> d.

#[export] Instance sort_entries_proper : Proper ((≡ₚ) ==> (≡ₚ)) sort_entries.
Proof. intros d d' Hp. unfold sort_entries. by rewrite Hp. Qed.

Lemma sort_keys_dict d : sort_keys (VDict d) = VDict (merge_sort key_le (sort_entries d)).
Proof. cbn [sort_keys]. do 2 f_equal. induction d as [|[k x] d IH]; [done|]. unfold sort_entries in *. rewrite fmap_cons. by f_equal. Qed.

Lemma sort_keys_list l : sort_keys (VList l) = VList (sort_keys <$> l).
Proof. done. Qed.

Lemma od_keys_sort_entries d : od_keys (sort_entries d) = od_keys d.
Proof. unfold od_keys, sort_entries. rewrite <- list_fmap_compose. by apply list_fmap_ext. Qed.

Lemma od_keys_sorted (d : odict pyval) : od_keys (merge_sort key_le d) ≡ₚ od_keys d.
Proof. unfold od_keys. by rewrite (merge_sort_Permutation key_le d). Qed.

Lemma pure_sort v : pure v = true -> pure (sort_keys v) = true.
Proof.
  induction v as [| | | | |l IH| |d IH|] using pyval_nested_ind; try done.
  - rewrite sort_keys_list. rewrite !pure_list, Forall_fmap. intros Hl. rewrite Forall_forall in *. intros x Hx. by apply IH, Hl.
  - rewrite sort_keys_dict, !pure_dict. intros [Hnd Hd]. rewrite od_keys_sorted, od_keys_sort_entries. split; [done|].
    rewrite (merge_sort_Permutation key_le). unfold sort_entries. rewrite Forall_fmap.
    rewrite Forall_forall in *. intros x Hx. by apply IH, Hd.
Qed.

Lemma pure_serialisable v : pure v = true -> serialisable v = true.
Proof.
  induction v as [| | | | |l IH| |d IH|] using pyval_nested_ind; try done.
  - intros Hl. apply pure_list in Hl. induction IH as [|x l Hx IH IHl]; [done|]. apply Forall_cons in Hl as [? Hl].
    change (serialisable x && serialisable (VList l) = true). by rewrite Hx, IHl.
  - intros Hd. apply pure_dict in Hd as [_ Hd]. induction IH as [|[k x] d Hx IH IHd]; [done|]. apply Forall_cons in Hd as [? Hd].
    change (serialisable x && serialisable (VDict d) = true). cbn [snd] in Hx. by rewrite Hx, IHd.
Qed.

Lemma of_chars_inj l l' : of_chars l = of_chars l' -> l = l'.
Proof. intros H. by rewrite <- (chars_of_chars l), H, chars_of_chars. Qed.

(** Values with the same canonical text are the same, up to the order of keys. *)
Lemma canonical_json_inj float_repr v v' : pure v = true -> pure v' = true ->
  canonical_json float_repr v = canonical_json float_repr v' -> sort_keys v = sort_keys v'.
Proof.
  intros Hv Hv'. unfold canonical_json. rewrite !pure_serialisable by done. intros [= H%of_chars_inj].
  destruct (dump_inj float_repr (sort_keys v) (sort_keys v') [] []) as [E _]; [by apply pure_sort..|done|done|by rewrite !app_nil_r|done].
Qed.

Lemma od_get_sort d k : NoDup (od_keys d) -> od_get k (merge_sort key_le (sort_entries d)) = sort_keys <$> od_get k d.
Proof.
  intros Hnd. assert (NoDup (od_keys (merge_sort key_le (sort_entries d)))) as Hnd' by by rewrite od_keys_sorted, od_keys_sort_entries.
  destruct (od_get k d) as [v|] eqn:E; cbn.
  - apply od_get_of_elem; [done|]. rewrite (merge_sort_Permutation key_le). apply list_elem_of_fmap. exists (k, v).
    split; [done|]. by apply od_get_elem.
  - destruct (od_get k (merge_sort _ _)) as [v|] eqn:E'; [|done]. apply od_get_elem in E'. rewrite (merge_sort_Permutation key_le) in E'.
    apply list_elem_of_fmap in E' as ([k' v'] & [= -> ->] & Hin). by rewrite (od_get_of_elem _ _ _ Hnd Hin) in E.
Qed.

Lemma od_get_sorted d d' k : NoDup (od_keys d) -> NoDup (od_keys d') -> sort_keys (VDict d) = sort_keys (VDict d') ->
  sort_keys <$> od_get k d = sort_keys <$> od_get k d'.
Proof. intros Hd Hd' H. rewrite <- !od_get_sort by done. rewrite !sort_keys_dict in H. by injection H as ->. Qed.

(** *** Sorting is canonical *)

Lemma compare_trans a b c : String.compare a b ≠ Gt -> String.compare b c ≠ Gt -> String.compare a c ≠ Gt.
Proof.
  revert b c. induction a as [|x a IH]; intros [|y b] [|z c]; cbn; try done. unfold Ascii.compare.
  destruct (N.compare_spec (Ascii.N_of_ascii x) (Ascii.N_of_ascii y)) as [Exy|Hxy|Hxy]; try done;
    destruct (N.compare_spec (Ascii.N_of_ascii y) (Ascii.N_of_ascii z)) as [Eyz|Hyz|Hyz]; try done; intros Hab Hbc;
    destruct (N.compare_spec (Ascii.N_of_ascii x) (Ascii.N_of_ascii z)) as [Exz|Hxz|Hxz]; try done; try lia.
  by apply (IH b).
Qed.

Lemma leb_compare a b : String.leb a b = true <-> String.compare a b ≠ Gt.
Proof. unfold String.leb. by destruct (String.compare a b). Qed.

#[export] Instance key_le_trans : Transitive key_le.
Proof. intros a b c. unfold key_le. rewrite !leb_compare. apply compare_trans. Qed.
#[export] Instance key_le_total : Total key_le.
Proof. intros a b. unfold key_le. destruct (String.leb_total a.1 b.1); auto. Qed.

Lemma sorted_object_unique (d d' : odict pyval) : NoDup (od_keys d) -> d ≡ₚ d' -> merge_sort key_le d = merge_sort key_le d'.
Proof.
  intros Hnd Hp. apply (StronglySorted_unique_strong key_le); [|by apply StronglySorted_merge_sort; apply _..|by rewrite !merge_sort_Permutation].
  intros [k v] [k' v']. rewrite !merge_sort_Permutation. intros Hx Hy H1 H2.
  pose proof (String.leb_antisym _ _ H1 H2) as E. cbn in E. subst k'. f_equal. rewrite <- Hp in Hy.
  apply (od_get_of_elem _ _ _ Hnd) in Hx, Hy. congruence.
Qed.

Lemma sort_entries_sorted e : Forall (fun kv => sort_keys kv.2 = kv.2) e -> sort_entries (merge_sort key_le e) ≡ₚ e.
Proof.
  intros He. unfold sort_entries. rewrite (merge_sort_Permutation key_le e).
  assert ((fun kv : string * pyval => (kv.1, sort_keys kv.2)) <$> e = e) as ->; [|done].
  induction He as [|[k v] e Hv _ IH]; [done|]. rewrite fmap_cons, IH. cbn in *. by rewrite Hv.
Qed.

Lemma sort_keys_idemp v : pure v = true -> sort_keys (sort_keys v) = sort_keys v.
Proof.
  induction v as [| | | | |l IH| |d IH|] using pyval_nested_ind; try done.
  - intros Hl. apply pure_list in Hl. rewrite !sort_keys_list, <- list_fmap_compose. f_equal. apply list_fmap_ext. intros i x Hx. 
    apply list_elem_of_lookup_2 in Hx. rewrite Forall_forall in *. by apply IH, Hl.
  - intros Hd. apply pure_dict in Hd as [Hnd Hd]. rewrite !sort_keys_dict. f_equal. symmetry. apply sorted_object_unique; [by rewrite od_keys_sort_entries|].
    symmetry. apply sort_entries_sorted. unfold sort_entries. apply Forall_fmap. rewrite Forall_forall in *. intros x Hx. by apply IH, Hd.
Qed.

(** ** Reading canonical JSON

    A reader of the texts that [CanonicalJson] writes: what [json.loads] does on them.
    It recovers every JSON value without floats, and so instantiates the parsers that
    the development takes as parameters. *)

(** ** Tokens *)

Definition is_number_char (c : Ascii.ascii) : bool :=
  let n := Ascii.nat_of_ascii c in ((48 <=? n) && (n <=? 57)) || (n =? 45).

Fixpoint span (p : Ascii.ascii -> bool) (l : text) : text * text :=
  match l with
  | [] => ([], [])
  | c :: l' => if p c then let '(a, b) := span p l' in (c :: a, b) else ([], l)
  end.

Definition read_int (l : text) : option Z :=
  match l with
  | "-"%char :: l' => Z.opp <$> digits l' 0 false
  | _ => digits l 0 false
  end.

(** The rest of a string, after its opening quote. *)
Fixpoint read_string (n : nat) (l : text) : option (text * text) :=
  match n with
  | 0 => None
  | S n =>
      match unescape l with
      | Some (c, r) => '(s, r) ← read_string n r; Some (c :: s, r)
      | None => match l with _ :: r => Some ([], r) | [] => None end
      end
  end.

Fixpoint expect (token l : text) : option text :=
  match token with
  | [] => Some l
  | c :: token' => match l with d :: l' => if decide (c = d) then expect token' l' else None | [] => None end
  end.

(** ** Values *)

Fixpoint parse (n : nat) (l : text) : option (pyval * text) :=
  match n with
  | 0 => None
  | S n =>
      match l with
      | [] => None
      | c :: r =>
          if decide (c = quote_char) then '(s, r) ← read_string n r; Some (VStr (of_chars s), r)
          else if decide (c = "["%char) then
            match expect ["]"%char] r with
            | Some r => Some (VList [], r)
            | None => '(x, r) ← parse n r; '(xs, r) ← parse_items n r; Some (VList (x :: xs), r)
            end
          else if decide (c = "{"%char) then
            match expect ["}"%char] r with
            | Some r => Some (VDict [], r)
            | None => '(kv, r) ← parse_entry n r; '(d, r) ← parse_entries n r; Some (VDict (kv :: d), r)
            end
          else if decide (c = "n"%char) then r ← expect (chars "null") l; Some (VNone, r)
          else if decide (c = "t"%char) then r ← expect (chars "true") l; Some (VBool true, r)
          else if decide (c = "f"%char) then r ← expect (chars "false") l; Some (VBool false, r)
          else let '(a, r) := span is_number_char l in z ← read_int a; Some (VInt z, r)
      end
  end
with parse_items (n : nat) (l : text) : option (list pyval * text) :=
  match n with
  | 0 => None
  | S n =>
      match expect ["]"%char] l with
      | Some r => Some ([], r)
      | None => r ← expect [","%char] l; '(x, r) ← parse n r; '(xs, r) ← parse_items n r; Some (x :: xs, r)
      end
  end
with parse_entry (n : nat) (l : text) : option ((string * pyval) * text) :=
  match n with
  | 0 => None
  | S n =>
      r ← expect [quote_char] l; '(k, r) ← read_string n r; r ← expect [":"%char] r; '(x, r) ← parse n r;
      Some ((of_chars k, x), r)
  end
with parse_entries (n : nat) (l : text) : option (list (string * pyval) * text) :=
  match n with
  | 0 => None
  | S n =>
      match expect ["}"%char] l with
      | Some r => Some ([], r)
      | None => r ← expect [","%char] l; '(kv, r) ← parse_entry n r; '(d, r) ← parse_entries n r; Some (kv :: d, r)
      end
  end.

(** The value of a whole text. *)
Definition json_value (s : string) : option pyval :=
  match parse (S (String.length s)) (chars s) with Some (v, []) => Some v | _ => None end.

(** ** Tokens come back *)

Lemma digits_pretty x : forall s b, digits (chars (pretty_N_go x s)) 0 b = digits (chars s) (Z.of_N x) (b || negb (x =? 0)%N).
Proof.
  induction (N.lt_wf_0 x) as [x _ IH]. intros s b. destruct (decide (x = 0)%N) as [->|Hx]; [cbn; by rewrite orb_false_r|].
  rewrite pretty_N_go_step by lia. rewrite IH by (apply N.div_lt; lia). cbn [chars].
  assert (digit (pretty_N_char (x mod 10)) = Some (Z.of_N (x mod 10))) as Hd.
  { assert (x mod 10 < 10)%N as Hlt by (apply N.mod_lt; lia). revert Hlt. generalize (x mod 10)%N as d. intros d Hd.
    assert (d ∈ [0; 1; 2; 3; 4; 5; 6; 7; 8; 9]%N) as Hin by (apply list_elem_of_In; cbn; lia).
    apply list_elem_of_In in Hin. cbn in Hin. repeat (destruct Hin as [<-|Hin]; [reflexivity|]). done. }
  change (digits (pretty_N_char (x mod 10) :: chars s) (Z.of_N (x / 10)) (b || negb (x / 10 =? 0)%N) = digits (chars s) (Z.of_N x) (b || negb (x =? 0)%N)).
  cbn [digits]. rewrite Hd. f_equal; [|rewrite (proj2 (N.eqb_neq x 0)) by done; by rewrite orb_true_r].
  rewrite (N.div_mod x 10) at 3 by lia. lia.
Qed.

Lemma digits_pretty_N (x : N) : digits (chars (pretty x)) 0 false = Some (Z.of_N x).
Proof.
  unfold pretty, pretty_N. case_decide as Hx; [by subst|]. rewrite digits_pretty. rewrite (proj2 (N.eqb_neq x 0)) by done. done.
Qed.

Lemma read_int_pretty (z : Z) : read_int (chars (pretty z)) = Some z.
Proof.
  destruct z as [|p|p]; [done| |].
  - change (pretty (Z.pos p)) with (pretty (N.pos p)). pose proof (digits_pretty_N (N.pos p)) as H.
    assert (head (chars (pretty (N.pos p))) ≠ Some "-"%char) as Hm.
    { intros Hh. destruct (chars (pretty (N.pos p))) as [|c l]; [done|]. injection Hh as ->. by cbn in H. }
    unfold read_int. destruct (chars (pretty (N.pos p))) as [|c l]; [done|]. destruct c as [[] [] [] [] [] [] [] []]; try exact H. by destruct Hm.
  - change (Z.opp <$> digits (chars (pretty (N.pos p))) 0 false = Some (Z.neg p)). by rewrite digits_pretty_N.
Qed.

Lemma expect_app t r : expect t (t ++ r) = Some r.
Proof. induction t as [|c t IH]; [done|]. cbn. by rewrite decide_True. Qed.

Lemma expect_other c d r : c ≠ d -> expect [c] (d :: r) = None.
Proof. intros Hc. cbn. by rewrite decide_False. Qed.

Lemma span_app (p : Ascii.ascii -> bool) l r : Forall (fun c => p c = true) l -> match r with [] => True | c :: _ => p c = false end -> span p (l ++ r) = (l, r).
Proof.
  intros Hl Hr. induction Hl as [|c l Hc _ IH]; cbn; [|by rewrite Hc, IH]. destruct r as [|c r]; [done|]. cbn. by rewrite Hr.
Qed.

Lemma is_number_char_iff c : number_char c <-> is_number_char c = true.
Proof.
  rewrite <- (bool_decide_spec (number_char c)). destruct c as [[] [] [] [] [] [] [] []]; vm_compute; (split; [done|]); by intros.
Qed.

Lemma read_string_escaped (s : text) : forall n r, length s < n -> read_string n ((s ≫= escape_raw) ++ quote_char :: r) = Some (s, r).
Proof.
  induction s as [|c s IH]; intros n r Hn; (destruct n as [|n]; [lia|]); cbn [read_string].
  - done.
  - rewrite bind_cons, <- app_assoc, unescape_escape. rewrite IH by (cbn in Hn; lia). done.
Qed.

Lemma escape_raw_length c : 1 <= length (escape_raw c).
Proof. unfold escape_raw. destruct c as [[] [] [] [] [] [] [] []]; vm_compute; lia. Qed.

Lemma escaped_length (s : text) : length s <= length (s ≫= escape_raw).
Proof. induction s as [|c s IH]; [done|]. rewrite bind_cons, length_app. pose proof (escape_raw_length c). cbn. lia. Qed.

Lemma length_quoted k : length (chars k) + 2 <= length (quoted k).
Proof. unfold quoted. cbn. rewrite length_app. cbn. pose proof (escaped_length (chars k)). lia. Qed.

(** ** Values come back *)

Section values.
Context (float_repr : Qc -> string).
Notation dump := (dump float_repr).
Notation entry := (entry float_repr).

Definition reads_back (v : pyval) : Prop := forall n r, delimited r -> length (dump v) < n -> parse n (dump v ++ r) = Some (v, r).

Lemma rest_length {A} (f : A -> text) close l r : S (length r) <= length (rest f close l r).
Proof. destruct l; cbn; [lia|]. rewrite length_app. cbn. lia. Qed.

Lemma no_fuel {A} (f : A -> text) close l r : ~ length (rest f close l r) < 0 + length r.
Proof. pose proof (rest_length f close l r). lia. Qed.

Lemma rest_cons {A} (f : A -> text) close x l r : rest f close (x :: l) r = ","%char :: f x ++ rest f close l r.
Proof. cbn [rest]. by rewrite separated_cons. Qed.

Lemma parse_items_back l : Forall reads_back l -> forall n r, length (rest dump "]" l r) < n + length r ->
  parse_items n (rest dump "]" l r) = Some (l, r).
Proof.
  induction 1 as [|x l Hx _ IH]; intros n r Hn; destruct n as [|n]; try by apply no_fuel in Hn.
  - done.
  - rewrite rest_cons in *. cbn [length] in Hn. rewrite length_app in Hn. pose proof (rest_length dump "]" l r).
    cbn [parse_items]. rewrite expect_other by done. change (","%char :: ?t) with ([","%char] ++ t). rewrite expect_app. cbn [mbind option_bind].
    rewrite Hx by (by apply rest_delimited; left) || lia. cbn [mbind option_bind]. rewrite IH by lia. done.
Qed.

Lemma parse_entry_back k v n r : reads_back v -> delimited r -> length (entry (k, v)) < n -> parse_entry n (entry (k, v) ++ r) = Some ((k, v), r).
Proof.
  intros Hv Hr Hn. destruct n as [|n]; [lia|]. unfold entry in *. cbn [fst snd] in *. rewrite length_app in Hn. cbn [length] in Hn.
  pose proof (length_quoted k). unfold quoted in *. cbn [app parse_entry].
  change (quote_char :: ?t) with ([quote_char] ++ t). rewrite expect_app. cbn [mbind option_bind].
  rewrite <- !app_assoc. cbn [app]. rewrite read_string_escaped by lia. cbn [mbind option_bind].
  change (":"%char :: ?t) with ([":"%char] ++ t). rewrite expect_app. cbn [mbind option_bind]. rewrite Hv by (done || lia). cbn.
  by rewrite String.string_of_list_ascii_of_string.
Qed.

Lemma parse_entries_back d : Forall (fun kv => reads_back kv.2) d -> forall n r, length (rest entry "}" d r) < n + length r ->
  parse_entries n (rest entry "}" d r) = Some (d, r).
Proof.
  induction 1 as [|[k x] d Hx _ IH]; intros n r Hn; destruct n as [|n]; try by apply no_fuel in Hn.
  - done.
  - rewrite rest_cons in *. cbn [length] in Hn. rewrite length_app in Hn. pose proof (rest_length entry "}" d r).
    cbn [parse_entries]. rewrite expect_other by done. change (","%char :: ?t) with ([","%char] ++ t). rewrite expect_app. cbn [mbind option_bind].
    rewrite parse_entry_back; [|done|by apply rest_delimited; right; left|lia]. cbn [mbind option_bind]. rewrite IH by lia. done.
Qed.

Lemma delimited_span r : delimited r -> match r with [] => True | c :: _ => is_number_char c = false end.
Proof.
  destruct r as [|c r]; [done|]. intros Hd. destruct (is_number_char c) eqn:E; [|done]. apply is_number_char_iff in E. by apply delimited_not_number in Hd.
Qed.

Lemma parse_number (z : Z) n r : delimited r -> parse (S n) (chars (pretty z) ++ r) = Some (VInt z, r).
Proof.
  intros Hr. destruct (pretty_nonempty z) as (c & t & E). pose proof (pretty_number z) as Hn.
  assert (span is_number_char (chars (pretty z) ++ r) = (chars (pretty z), r)) as Hspan.
  { apply span_app; [|by apply delimited_span]. eapply Forall_impl; [exact Hn|]. intros ?. apply is_number_char_iff. }
  pose proof (read_int_pretty z) as Hread. rewrite E in *. apply Forall_cons in Hn as [Hc _]. cbn [app parse].
  assert (forall d, ~ number_char d -> c ≠ d) as Hne by by intros d Hd ->.
  rewrite !decide_False by (apply Hne; apply (bool_decide_eq_false_1 (number_char _)); by vm_compute).
  change (c :: t ++ r) with ((c :: t) ++ r). rewrite Hspan. cbn [mbind option_bind]. by rewrite Hread.
Qed.

(** The text of a value, with fuel for its length, is read back as the value. *)
Lemma parse_dump v : pure v = true -> reads_back v.
Proof.
  induction v as [|b|z|q|s|l IH|l IH|d IH|t s] using pyval_nested_ind; intros Hv n r Hr Hn; try done; destruct n as [|n]; try lia.
  - done.
  - by destruct b.
  - by apply parse_number.
  - pose proof (length_quoted s). cbn [dump] in *. unfold quoted in *. cbn [app parse]. rewrite decide_True by done.
    rewrite <- app_assoc. cbn [app]. rewrite read_string_escaped by lia. cbn. by rewrite String.string_of_list_ascii_of_string.
  - apply pure_list in Hv. rewrite dump_list in *. cbn [length app] in *. rewrite length_app in Hn. rewrite <- app_assoc. cbn [app].
    assert (Forall reads_back l) as Hl. { rewrite Forall_forall in *. intros x Hx. by apply IH, Hv. }
    cbn [parse]. rewrite (decide_False (P := "["%char = quote_char)), (decide_True (P := "["%char = "["%char)) by done.
    destruct Hl as [|x l Hx Hl]; [done|]. rewrite separated_cons. apply Forall_cons in Hv as [Hpx _].
    assert (length (separated "," (dump <$> x :: l) ++ ["]"%char]) = length (dump x ++ rest dump "]" l [])) as Hlen by by rewrite separated_cons.
    rewrite !length_app in Hlen. cbn [length] in *. assert (length (rest dump "]" l r) = length (rest dump "]" l []) + length r) as Hrest.
    { destruct l as [|y l]; [cbn; lia|]. cbn [rest length]. rewrite !length_app. cbn. lia. }
    pose proof (rest_length dump "]" l []). cbn [length] in *.
    destruct (value_lead float_repr x Hpx) as (c & u & Eu & Hc). 
    assert (expect ["]"%char] (dump x ++ rest dump "]" l r) = None) as ->.
    { rewrite Eu. cbn [app]. apply expect_other. intros <-. apply Hc. right. by left. }
    rewrite Hx by (by apply rest_delimited; left) || lia. cbn [mbind option_bind]. rewrite parse_items_back by (done || lia). done.
  - apply pure_dict in Hv as [_ Hv]. rewrite dump_dict in *. cbn [length app] in *. rewrite length_app in Hn. rewrite <- app_assoc. cbn [app].
    assert (Forall (fun kv => reads_back kv.2) d) as Hd. { rewrite Forall_forall in *. intros x Hx. by apply IH, Hv. }
    cbn [parse]. rewrite (decide_False (P := "{"%char = quote_char)), (decide_False (P := "{"%char = "["%char)), (decide_True (P := "{"%char = "{"%char)) by done.
    destruct Hd as [|[k x] d Hx Hd]; [done|]. rewrite separated_cons.
    assert (length (separated "," (entry <$> (k, x) :: d) ++ ["}"%char]) = length (entry (k, x) ++ rest entry "}" d [])) as Hlen by by rewrite separated_cons.
    rewrite !length_app in Hlen. cbn [length] in *. assert (length (rest entry "}" d r) = length (rest entry "}" d []) + length r) as Hrest.
    { destruct d as [|y d]; [cbn; lia|]. cbn [rest length]. rewrite !length_app. cbn. lia. }
    pose proof (rest_length entry "}" d []). cbn [length] in *.
    assert (expect ["}"%char] (entry (k, x) ++ rest entry "}" d r) = None) as ->.
    { unfold entry, quoted. cbn [app fst]. by apply expect_other. }
    rewrite parse_entry_back; [|done|by apply rest_delimited; right; left|lia]. cbn [mbind option_bind]. rewrite parse_entries_back by (done || lia). done.
Qed.

Lemma json_value_dump v : pure v = true -> json_value (of_chars (dump v)) = Some v.
Proof.
  intros Hv. unfold json_value. rewrite chars_of_chars.
  pose proof (parse_dump v Hv (S (String.length (of_chars (dump v)))) [] I) as Hp.
  rewrite app_nil_r in Hp. rewrite Hp; [done|]. rewrite <- length_chars, chars_of_chars. lia.
Qed.

(** Canonical JSON round-trips.  Reading the canonical text of a JSON value gives
    the value with the keys of every object sorted, so the text determines it. *)
Theorem canonical_roundtrip v t : pure v = true -> canonical_json float_repr v = Ok t -> json_value t = Some (sort_keys v).
Proof.
  intros Hv. unfold canonical_json. rewrite pure_serialisable by done. intros [= <-]. by apply json_value_dump, pure_sort.
Qed.
End values.

(** Text with its quotes written as apostrophes. *)
Definition quotes (s : string) : string :=
  of_chars ((fun c => if decide (c = "'"%char) then quote_char else c) <$> chars s).

Definition demo_value : pyval :=
  VDict [("run", VStr (quotes "a 'b'")); ("n", VInt (-12)); ("ok", VBool true); ("l", VList [VNone; VDict []; VList []])].
Definition demo_text : string := quotes "{'l':[null,{},[]],'n':-12,'ok':true,'run':'a \'b\''}".

Lemma canonical_roundtrip_witness :
  canonical_json (fun _ => "") demo_value = Ok demo_text /\ json_value demo_text = Some (sort_keys demo_value).
Proof.
  assert (canonical_json (fun _ => "") demo_value = Ok demo_text) as E by (vm_compute; reflexivity).
  split; [exact E|]. apply (canonical_roundtrip (fun _ => "") demo_value); [vm_compute; reflexivity|exact E].
Defined.
