(* ===== verification/AuditLog.v ===== *)
(** * The audit log (server/audit_log.py)

    Records linked by a hash of their canonical text.  The hash and the parser of JSON
    lines are parameters; a store is the interface [AuditStore], the file store an
    implementation of it.  The lock of the logger makes an audit one step. *)

From stdpp Require Import sorting.
From Stdlib Require Import Qcanon.
From S2P Require Import Prelude PyStr PyVal Step StepFacts CanonicalJson.

Abbreviation record := (odict pyval).

(** [hashlib.sha256(...).hexdigest()] and [repr] of a float *)
Class Digest := { sha256 : string -> string; float_repr : Qc -> string }.

Definition GENESIS_HASH : string := "0000000000000000000000000000000000000000000000000000000000000000".

Section chain.
Context `{!Digest}.

Definition payload (r : record) : record := od_pop "hash" r.
Definition canonical_text (r : record) : res string := canonical_json float_repr (VDict (payload r)).
Definition compute_audit_hash (r : record) : res string := t ← canonical_text r; Ok (sha256 t).

Fixpoint verify_from (expected_prev : string) (records : list record) : res bool :=
  match records with
  | [] => Ok true
  | r :: rest =>
      if decide (od_get "prev_hash" r = Some (VStr expected_prev)) then
        h ← compute_audit_hash r;
        if decide (od_get "hash" r = Some (VStr h)) then verify_from h rest else Ok false
      else Ok false
  end.
Definition verify_audit_chain (records : list record) : res bool := verify_from GENESIS_HASH records.

(** ** Records *)

(** [_json_safe] *)
Fixpoint json_safe (v : pyval) : pyval :=
  if serialisable v then v
  else
    match v with
    | VDict d => VDict ((fix go (d : list (string * pyval)) := match d with [] => [] | (k, x) :: d' => (k, json_safe x) :: go d' end) d)
    | VList l | VTuple l => VList ((fix go l := match l with [] => [] | x :: l' => json_safe x :: go l' end) l)
    | VObj _ s => VStr s
    | v => v
    end.

(** What a caller of [audit] says, and the id and the timestamp it gets. *)
Record AuditEvent := mkAuditEvent {
  ae_type : string;
  ae_outcome : string;
  ae_actor : odict pyval;
  ae_target : odict pyval;
  ae_tenant_id : option string;
  ae_run_id : option string;
  ae_request_id : option string;
  ae_metadata : odict pyval;
  ae_id : string;
  ae_timestamp : string;
}.

Definition record_body (e : AuditEvent) (prev_hash : string) : record :=
  [("schema_version", VStr "audit.v1"); ("id", VStr (ae_id e)); ("timestamp", VStr (ae_timestamp e));
   ("event_type", VStr (ae_type e)); ("outcome", VStr (ae_outcome e));
   ("actor", json_safe (VDict (ae_actor e))); ("target", json_safe (VDict (ae_target e)));
   ("tenant_id", str_or_none (ae_tenant_id e)); ("run_id", str_or_none (ae_run_id e));
   ("request_id", str_or_none (ae_request_id e)); ("metadata", json_safe (VDict (ae_metadata e)));
   ("prev_hash", VStr prev_hash)].

(** [record["hash"] = compute_audit_hash(record)] *)
Definition build_record (e : AuditEvent) (prev_hash : string) : res record :=
  let body := record_body e prev_hash in
  h ← compute_audit_hash body; Ok (body ++ [("hash", VStr h)]).

(** ** The logger *)

(** A store: [append] and [get_last_hash], which are awaited. *)
Class AuditStore (W : Type) := { append : record -> M W string; get_last_hash : M W (option string) }.

Record AuditLogger := mkLogger { lg_enabled : bool; lg_last_hash : option string }.
Definition new_logger (enabled : bool) : AuditLogger := mkLogger enabled None.
Definition set_last_hash (h : string) (lg : AuditLogger) : AuditLogger := mkLogger (lg_enabled lg) (Some h).

Context {W : Type} `{!AuditStore W}.

Definition lift_world {A} (m : M W A) : M (W * AuditLogger) A := fun s => let '(w, r) := m s.1 in ((w, s.2), r).
Definition set_hash (h : string) : M (W * AuditLogger) unit := modify (fun s => (s.1, set_last_hash h s.2)).

(** [audit], inside the lock *)
Definition audit (e : AuditEvent) : M (W * AuditLogger) record :=
  s <- get;
  prev <- match lg_last_hash s.2 with
          | Some h => ret h
          | None =>
              h <- lift_world get_last_hash;
              let h := match h with Some h => if decide (h = "") then GENESIS_HASH else h | None => GENESIS_HASH end in
              set_hash h;; ret h
          end;
  match build_record e prev with
  | Raise x => raise (exc_of x)
  | Ok r =>
      let hash := match od_get "hash" r with Some (VStr h) => h | _ => "" end in
      if lg_enabled s.2 then lift_world (append r);; set_hash hash;; ret r
      else set_hash hash;; ret r
  end.

(** [audit_request_event]: the failure of an audit is logged; [logger] may be missing. *)
Definition audit_request_event (present : bool) (e : AuditEvent) : M (W * AuditLogger) unit :=
  if present then try_except (audit e;; ret tt) (fun x => if is_exception x then ret tt else raise x) else ret tt.
End chain.

(** ** Stores *)

Definition null_append (r : record) : string := match od_get "id" r with Some (VStr i) => i | _ => "noop" end.

(** How [_write_line] ends, and the wait for it: the line is written; the directory, the file or
    the write is refused; or the line is written and then [fsync] or [close] fails, or the
    caller is cancelled while the thread writes on.  (A write that stores part of a line is left out.) *)
Inductive Write := Written | Refused | Unsynced (x : PyExc).

(** [FileAuditStore]: the lines of the file, if it exists.  [writes] and [read_fails] say how
    the writes and reads to come end. *)
Record AuditFile := mkFile { fl_path : string; fl_lines : option (list string); writes : list Write; read_fails : bool }.

Section file.
Context `{!Digest} (json_loads : string -> option pyval).

Definition file_append (r : record) : M AuditFile string := fun f =>
  match canonical_json float_repr (VDict r) with
  | Raise x => (f, inr (exc_of x))
  | Ok line =>
      let left := mkFile (fl_path f) (fl_lines f) (tail (writes f)) (read_fails f) in
      let stored := mkFile (fl_path f) (Some (default [] (fl_lines f) ++ [line])) (tail (writes f)) (read_fails f) in
      match default Written (head (writes f)) with
      | Written => (stored, inl (fl_path f))
      | Refused => (left, inr (mkExc KException "OSError" "write failed"))
      | Unsynced x => (stored, inr x)
      end
  end.

(** The last line that is not blank; what cannot be read counts as no record.  A line
    that is no object raises [AttributeError], which is not caught. *)
Definition file_last_hash : M AuditFile (option string) := fun f =>
  match fl_lines f with
  | None => (f, inl None)
  | Some lines =>
      if read_fails f then (f, inl None)
      else
        match last (filter (fun l => strip l ≠ "") lines) with
        | None => (f, inl None)
        | Some line =>
            match json_loads line with
            | None => (f, inl None)
            | Some (VDict d) =>
                (f, inl (match od_get "hash" d with Some (VStr h) => if decide (h = "") then None else Some h | _ => None end))
            | Some _ => (f, inr (exc_of (AttributeError "get")))
            end
        end
  end.

Definition file_store : AuditStore AuditFile := {| append := file_append; get_last_hash := file_last_hash |}.
End file.

(** [RedisAuditStore]: whether it is connected, the records of the stream, and how the
    commands to come end: [None], or an error that may lose the connection. *)
Record AuditStream := mkStream { sm_connected : bool; sm_records : list record; sm_failures : list (option bool) }.

Section stream.
Context `{!Digest}.

Definition next_failure (s : AuditStream) : option bool := default None (head (sm_failures s)).
(** A command that failed, and lost the connection if [lost]. *)
Definition failed_command (lost : bool) (s : AuditStream) : AuditStream :=
  mkStream (sm_connected s && negb lost) (sm_records s) (tail (sm_failures s)).

(** [XADD], without the trimming to [MAXLEN] *)
Definition redis_append (r : record) : M AuditStream string := fun s =>
  if negb (sm_connected s) then (s, inl "")
  else
    match canonical_json float_repr (VDict r) with
    | Raise x => (s, inr (exc_of x))
    | Ok _ =>
        match next_failure s with
        | Some lost => (failed_command lost s, inl "")
        | None => (mkStream true (sm_records s ++ [r]) (tail (sm_failures s)), inl "entry")
        end
    end.

Definition redis_last_hash : M AuditStream (option string) := fun s =>
  if negb (sm_connected s) then (s, inl None)
  else
    match next_failure s with
    | Some lost => (failed_command lost s, inl None)
    | None =>
        (mkStream true (sm_records s) (tail (sm_failures s)),
         inl (r ← last (sm_records s); match od_get "hash" r with Some (VStr h) => Some h | _ => None end))
    end.

Definition redis_store : AuditStore AuditStream := {| append := redis_append; get_last_hash := redis_last_hash |}.
End stream.

(** ** Building a logger *)

Inductive AuditBackend := BNull | BFile | BRedis.
Definition build_audit_backend (enabled : bool) (backend : string) (redis_url redis_connects : bool) : AuditBackend :=
  if negb enabled then BNull
  else if decide (lower (strip backend) = "redis") then if redis_url && redis_connects then BRedis else BFile
  else BFile.

(** ** Correctness of the audit chain

    What one logger at a time writes to a faithful store verifies, across failures of
    the store and restarts; and a chain that verifies cannot be changed without a
    collision of the hash. *)

(** ** Chains *)

Section chain_facts.
Context `{!Digest}.

(** The hash that the record after [l] must name. *)
Definition hash_of (r : record) : string := match od_get "hash" r with Some (VStr h) => h | _ => "" end.
Definition chain_end (l : list record) : string := match last l with Some r => hash_of r | None => GENESIS_HASH end.

(** A record as JSON gives it, floats aside. *)
Definition proper (r : record) : Prop := pure (VDict r) = true.

Lemma payload_pure r : proper r -> proper (payload r).
Proof.
  unfold proper. rewrite !pure_dict. intros [Hnd Hr]. split; [by apply NoDup_od_filter|].
  rewrite Forall_forall in *. intros kv [_ Hin]%list_elem_of_filter. by apply Hr.
Qed.

Lemma proper_keys r : proper r -> NoDup (od_keys r).
Proof. intros Hr. by apply pure_dict in Hr as [? _]. Qed.

(** The text a proper record is hashed over. *)
Definition text_of (r : record) : string := of_chars (dump float_repr (sort_keys (VDict (payload r)))).

Lemma compute_proper r : proper r -> compute_audit_hash r = Ok (sha256 (text_of r)).
Proof.
  intros Hp. unfold compute_audit_hash, canonical_text, canonical_json. by rewrite pure_serialisable by by apply payload_pure.
Qed.

Lemma verify_from_snoc l r : forall p, verify_from p (l ++ [r]) = Ok true <->
  verify_from p l = Ok true /\ od_get "prev_hash" r = Some (VStr (match last l with Some x => hash_of x | None => p end)) /\
  exists h, compute_audit_hash r = Ok h /\ od_get "hash" r = Some (VStr h).
Proof.
  induction l as [|x l IH]; intros p.
  - cbn [app verify_from last]. destruct (decide (od_get "prev_hash" r = Some (VStr p))) as [Hp|Hp]; [|split; [done|by intros (_ & ? & _)]].
    destruct (compute_audit_hash r) as [h|err]; cbn [mbind res_bind]; [|split; [done|by intros (_ & _ & ? & ? & _)]].
    destruct (decide (od_get "hash" r = Some (VStr h))) as [Hh|Hh].
    + split; [intros _; split_and!; [done|done|by exists h]|done].
    + split; [done|]. intros (_ & _ & ? & [= <-] & ?). done.
  - cbn [app verify_from]. destruct (decide (od_get "prev_hash" x = Some (VStr p))); [|split; [done|by intros (? & _)]].
    destruct (compute_audit_hash x) as [h|err]; cbn [mbind res_bind]; [|split; [done|by intros (? & _)]].
    destruct (decide (od_get "hash" x = Some (VStr h))) as [Hh|Hh]; [|split; [done|by intros (? & _)]].
    rewrite IH. assert (hash_of x = h) as Hx by (unfold hash_of; by rewrite Hh). 
    replace (match last (x :: l) with Some x => hash_of x | None => p end) with (match last l with Some x => hash_of x | None => h end); [done|].
    destruct l as [|y l]; [by rewrite <- Hx|]. rewrite (last_cons x). destruct (last (y :: l)) eqn:E; [done|]. by apply last_None in E.
Qed.

Lemma verify_snoc l r : verify_audit_chain (l ++ [r]) = Ok true <->
  verify_audit_chain l = Ok true /\ od_get "prev_hash" r = Some (VStr (chain_end l)) /\
  exists h, compute_audit_hash r = Ok h /\ od_get "hash" r = Some (VStr h).
Proof. apply verify_from_snoc. Qed.

Lemma chain_end_snoc l r : chain_end (l ++ [r]) = hash_of r.
Proof. unfold chain_end. by rewrite last_snoc. Qed.

Lemma Forall_snoc {A} (P : A -> Prop) (l : list A) x : Forall P (l ++ [x]) -> Forall P l /\ P x.
Proof. intros Hf. apply Forall_app in Hf as [Hl Hx]. split; [done|by inversion Hx]. Qed.

(** ** Tampering *)

(** The same content, whatever the order of the keys, and the same hash. *)
Definition same_record (r r' : record) : Prop :=
  sort_keys (VDict (payload r)) = sort_keys (VDict (payload r')) /\ od_get "hash" r = od_get "hash" r'.

Lemma od_get_payload k r : k ≠ "hash" -> od_get k (payload r) = od_get k r.
Proof.
  intros Hk. unfold payload, od_pop. induction r as [|[k' v] r IH]; [done|]. rewrite filter_cons. cbn [fst]. cbn [od_get].
  destruct (decide (k' ≠ "hash")) as [Hn|Hn]; cbn [od_get]; destruct (decide (k = k')) as [->|]; try done.
Qed.

Lemma same_prev r r' p p' : proper r -> proper r' -> sort_keys (VDict (payload r)) = sort_keys (VDict (payload r')) ->
  od_get "prev_hash" r = Some (VStr p) -> od_get "prev_hash" r' = Some (VStr p') -> p = p'.
Proof.
  intros Hr Hr' Hs Hp Hp'. pose proof (od_get_sorted _ _ "prev_hash" (proper_keys _ (payload_pure _ Hr)) (proper_keys _ (payload_pure _ Hr')) Hs) as Hq.
  rewrite !od_get_payload, Hp, Hp' in Hq by done. by injection Hq.
Qed.

(** C17. A chain that verifies is tamper-evident.  Two chains that verify and end in the
    same hash hold the same records, one by one; otherwise two of their records are
    hashed over different texts to the same hash, or one of them to the genesis hash. *)
Theorem tamper_evident l l' : Forall proper l -> Forall proper l' ->
  verify_audit_chain l = Ok true -> verify_audit_chain l' = Ok true -> chain_end l = chain_end l' ->
  Forall2 same_record l l' \/
  (exists r r', r ∈ l /\ r' ∈ l' /\ text_of r ≠ text_of r' /\ sha256 (text_of r) = sha256 (text_of r')) \/
  (exists r, (r ∈ l \/ r ∈ l') /\ sha256 (text_of r) = GENESIS_HASH).
Proof.
  intros Hl. revert l'. induction l as [|r l IH] using rev_ind; intros l' Hl' Hv Hv' Hend; destruct l' as [|r' l' _] using rev_ind.
  - left. constructor.
  - right. right. apply verify_snoc in Hv' as (_ & _ & h & Hh & Hr). exists r'. split; [right; apply elem_of_app; by right; left|].
    apply Forall_snoc in Hl' as [_ Hl']. rewrite (compute_proper r' Hl') in Hh. injection Hh as Hh.
    rewrite chain_end_snoc in Hend. unfold hash_of in Hend. rewrite Hr in Hend. rewrite Hh, <- Hend. done.
  - right. right. apply verify_snoc in Hv as (_ & _ & h & Hh & Hr). exists r. split; [left; apply elem_of_app; by right; left|].
    apply Forall_snoc in Hl as [_ Hl]. rewrite (compute_proper r Hl) in Hh. injection Hh as Hh.
    rewrite chain_end_snoc in Hend. unfold hash_of in Hend. rewrite Hr in Hend. by rewrite Hh, Hend.
  - apply Forall_snoc in Hl as [Hl Hr], Hl' as [Hl' Hr'].
    apply verify_snoc in Hv as (Hv & Hp & h & Hh & Hhr), Hv' as (Hv' & Hp' & h' & Hh' & Hhr').
    rewrite compute_proper in Hh, Hh' by done. injection Hh as Hh. injection Hh' as Hh'.
    rewrite !chain_end_snoc in Hend. unfold hash_of in Hend. rewrite Hhr, Hhr' in Hend. subst h'.
    destruct (decide (text_of r = text_of r')) as [Ht|Ht]; cycle 1.
    { right. left. exists r, r'. split; [apply elem_of_app; by right; left|]. split; [apply elem_of_app; by right; left|]. split; [done|congruence]. }
    apply of_chars_inj in Ht. destruct (dump_inj float_repr (sort_keys (VDict (payload r))) (sort_keys (VDict (payload r'))) [] []) as [Hs _];
      [by apply pure_sort, payload_pure, Hr|by apply pure_sort, payload_pure, Hr'|done|done|by rewrite !app_nil_r|].
    pose proof (same_prev _ _ _ _ Hr Hr' Hs Hp Hp') as He.
    destruct (IH Hl l' Hl' Hv Hv' He) as [Hrest|[(x & y & Hx & Hy & Hxy)|(x & Hx & Hxy)]].
    + left. apply Forall2_app; [done|]. repeat constructor; [done|]. by rewrite Hhr, Hhr', Hend.
    + right. left. exists x, y. split; [apply elem_of_app; by left|]. split; [apply elem_of_app; by left|done].
    + right. right. exists x. split; [|done]. destruct Hx; [left|right]; apply elem_of_app; by left.
Qed.
End chain_facts.

(** ** What a logger writes *)

(** [hexdigest] is never empty. *)
Class DigestLaws `{!Digest} : Prop := { sha256_nonempty t : sha256 t ≠ "" }.

(** [r'] stands for [r] in a chain. *)
Definition alike `{!Digest} (r r' : record) : Prop :=
  od_get "prev_hash" r' = od_get "prev_hash" r /\ od_get "hash" r' = od_get "hash" r /\ compute_audit_hash r' = compute_audit_hash r.

(** A store that, from a good state, stores the record or raises and stores nothing:
    [stored] are its records. *)
Class FaithfulStore (W : Type) `{!Digest, !AuditStore W} := {
  stored : W -> list record;
  good : W -> Prop;
  append_law w r : good w -> proper r -> (exists h, od_get "hash" r = Some (VStr h) /\ h ≠ "") ->
    (exists p, od_get "prev_hash" r = Some (VStr p)) ->
    match append r w with
    | (w', inl _) => good w' /\ exists r', alike r r' /\ stored w' = stored w ++ [r']
    | (w', inr _) => good w' /\ stored w' = stored w
    end;
  last_law w : good w ->
    match get_last_hash w with
    | (w', a) => good w' /\ stored w' = stored w /\ forall h, a = inl h -> h = (fun r => hash_of r) <$> last (stored w)
    end;
}.

Section logger.
Context `{!Digest, !DigestLaws} {W : Type} `{!AuditStore W, !FaithfulStore W}.

(** An event whose record is a JSON value. *)
Definition plain_event (e : AuditEvent) : Prop := proper (record_body e GENESIS_HASH).

Lemma plain_body e p : plain_event e -> proper (record_body e p).
Proof. done. Qed.

Lemma build_record_spec e p : plain_event e -> exists h r, build_record e p = Ok r /\ proper r /\ h ≠ "" /\
  od_get "prev_hash" r = Some (VStr p) /\ od_get "hash" r = Some (VStr h) /\ compute_audit_hash r = Ok h.
Proof.
  intros He. unfold build_record. rewrite (compute_proper _ (plain_body e p He)). cbn [mbind res_bind].
  exists (sha256 (text_of (record_body e p))), (record_body e p ++ [("hash", VStr (sha256 (text_of (record_body e p))))]).
  assert (proper (record_body e p ++ [("hash", VStr (sha256 (text_of (record_body e p))))])) as Hproper.
  { pose proof (plain_body e p He) as Hbody. unfold proper in *. apply pure_dict in Hbody as [_ Hbody]. apply pure_dict. split.
    - change (NoDup ["schema_version"; "id"; "timestamp"; "event_type"; "outcome"; "actor"; "target"; "tenant_id"; "run_id"; "request_id";
                     "metadata"; "prev_hash"; "hash"]). apply (bool_decide_eq_true_1 _). by vm_compute.
    - apply Forall_app. split; [done|]. by repeat constructor. }
  split; [done|]. split; [done|]. split; [apply sha256_nonempty|]. split; [done|]. split; [done|].
  by rewrite compute_proper.
Qed.

(** The logger agrees with what is stored, and what is stored verifies. *)
Definition linked (s : W * AuditLogger) : Prop :=
  good s.1 /\ verify_audit_chain (stored s.1) = Ok true /\ (forall r, last (stored s.1) = Some r -> hash_of r ≠ "") /\
  forall h, lg_last_hash s.2 = Some h -> h = chain_end (stored s.1).

Lemma audit_linked e s : plain_event e -> lg_enabled s.2 = true -> linked s ->
  wp (audit e) (fun _ s' => linked s' /\ lg_enabled s'.2 = true) s.
Proof.
  intros He Hen Hlk. pose proof Hlk as (Hg & Hv & Hne & Hl). unfold audit. apply wp_bind, wp_get. apply wp_bind.
  apply (wp_mono _ (fun r s1 => lg_enabled s1.2 = true /\ linked s1 /\ forall h, r = inl h -> lg_last_hash s1.2 = Some h)).
  { destruct (lg_last_hash s.2) as [h|] eqn:E.
    - apply wp_ret. split; [done|]. split; [done|]. by intros ? [= <-].
    - apply wp_bind. unfold wp, lift_world. pose proof (last_law s.1 Hg) as Hlast. destruct (get_last_hash s.1) as [w' [h|x]]; destruct Hlast as (Hg' & Hs & Ha); cbn.
      + split; [done|]. split; [|by intros ? [= <-]]. unfold linked. cbn. rewrite Hs. split_and!; [done..|]. intros h' [= <-].
        rewrite (Ha h eq_refl). unfold chain_end. destruct (last (stored s.1)) as [r|] eqn:El; cbn; [|done]. rewrite decide_False; [done|by apply Hne].
      + split; [done|]. split; [|done]. unfold linked. cbn. rewrite Hs, E. by split_and!. }
  intros [p|x] s1 (Hen1 & Hs1 & Hp); [|by split]. destruct Hs1 as (Hg1 & Hv1 & Hne1 & Hl1). specialize (Hp p eq_refl). pose proof (Hl1 p Hp) as Hend.
  destruct (build_record_spec e p He) as (h & r & -> & Hr & Hh & Hprev & Hhash & Hcomp). rewrite Hhash, Hen.
  apply wp_bind. unfold wp, lift_world. pose proof (append_law s1.1 r Hg1 Hr ltac:(by exists h) ltac:(by exists p)) as Happ.
  destruct (append r s1.1) as [w' [i|x]]; cbn.
  - destruct Happ as (Hg' & r' & (Ep & Eh & Ec) & Hs). split; [|done]. unfold linked. cbn. rewrite Hs. split; [done|]. split.
    + apply verify_snoc. split; [done|]. rewrite Ep, Eh, Ec, Hprev, <- Hend. split; [done|by exists h].
    + assert (hash_of r' = h) as Hr' by (unfold hash_of; by rewrite Eh, Hhash). split.
      * intros x. rewrite last_snoc. intros [= <-]. by rewrite Hr'.
      * intros ? [= <-]. by rewrite chain_end_snoc, Hr'.
  - destruct Happ as (Hg' & Hs). split; [|done]. unfold linked. cbn. rewrite Hs. by split_and!.
Qed.

(** A process that audits events and is restarted now and then. *)
Inductive AuditOp := AAudit (e : AuditEvent) | ARestart.
Definition audit_apply (s : W * AuditLogger) (o : AuditOp) : W * AuditLogger :=
  match o with AAudit e => (audit e s).1 | ARestart => (s.1, new_logger true) end.
Definition plain_op (o : AuditOp) : Prop := match o with AAudit e => plain_event e | ARestart => True end.

End logger.

(** ** The file store is faithful

    As long as its file can be read and no write fails after the line is on disk. *)

Section file_facts.
Context `{!Digest} (json_loads : string -> option pyval).

(** Reading what [json.dumps] wrote. *)
Definition json_reads : Prop := forall v t, pure v = true -> canonical_json float_repr v = Ok t -> json_loads t = Some (sort_keys v).
Context (reads : json_reads).

Definition read_line (l : string) : option record := match json_loads l with Some (VDict d) => Some d | _ => None end.
Definition file_stored (f : AuditFile) : list record := omap read_line (default [] (fl_lines f)).
Definition line_ok (l : string) : Prop :=
  strip l ≠ "" /\ exists d h, json_loads l = Some (VDict d) /\ od_get "hash" d = Some (VStr h) /\ h ≠ "".
Definition clean_write (w : Write) : Prop := match w with Unsynced _ => False | _ => True end.
Definition file_good (f : AuditFile) : Prop :=
  (read_fails f = false /\ Forall clean_write (writes f)) /\ Forall line_ok (default [] (fl_lines f)).

Lemma lstrip_nil l : lstrip_chars l = [] -> Forall (fun c => is_space c = true) l.
Proof. induction l as [|c l IH]; [constructor|]. cbn. destruct (is_space c) eqn:E; [|done]. intros Hn. constructor; auto. Qed.

Lemma lstrip_not_space l : Forall (fun c => is_space c = true) (lstrip_chars l) -> lstrip_chars l = [].
Proof. induction l as [|c l IH]; [done|]. cbn. destruct (is_space c) eqn:E; [done|]. intros [Hc _]%Forall_cons. congruence. Qed.

Lemma not_blank c l : is_space c = false -> strip (of_chars (c :: l)) ≠ "".
Proof.
  intros Hc Hs. unfold strip in Hs. rewrite chars_of_chars in Hs. change "" with (of_chars []) in Hs. apply of_chars_inj in Hs.
  unfold strip_chars in Hs. apply (f_equal reverse) in Hs. rewrite reverse_involutive in Hs. cbn in Hs. change (reverse (@nil Ascii.ascii)) with (@nil Ascii.ascii) in Hs.
  apply lstrip_nil in Hs. rewrite Hc in Hs. apply Forall_reverse, Forall_cons in Hs as [Hs _]. congruence.
Qed.

Lemma sorted_payload r d : proper r -> sort_keys (VDict r) = VDict d -> sort_keys (VDict (payload d)) = sort_keys (VDict (payload r)).
Proof.
  intros Hr. rewrite sort_keys_dict. intros [= <-]. rewrite !sort_keys_dict. f_equal. symmetry.
  pose proof (payload_pure r Hr) as Hp. apply pure_dict in Hp as [Hnd Hp].
  apply sorted_object_unique; [by rewrite od_keys_sort_entries|].
  assert (payload (merge_sort key_le (sort_entries r)) ≡ₚ sort_entries (payload r)) as ->.
  { unfold payload, od_pop. rewrite (merge_sort_Permutation key_le). clear. unfold sort_entries. induction r as [|[k v] r IH]; [done|].
    rewrite fmap_cons, !filter_cons. cbn [fst]. destruct (decide (k ≠ "hash")); [|done]. rewrite fmap_cons. cbn [fst snd]. by rewrite IH. }
  unfold sort_entries. rewrite <- list_fmap_compose. apply Permutation_refl', list_fmap_ext. intros i kv Hkv. cbn. f_equal.
  apply list_elem_of_lookup_2 in Hkv. rewrite Forall_forall in Hp. symmetry. by apply sort_keys_idemp, Hp.
Qed.

Lemma sorted_alike r d h p : proper r -> sort_keys (VDict r) = VDict d -> od_get "hash" r = Some (VStr h) -> od_get "prev_hash" r = Some (VStr p) -> alike r d.
Proof.
  intros Hr Hd Hh Hp. pose proof Hd as Hd'. rewrite sort_keys_dict in Hd'. injection Hd' as Hd'.
  assert (proper d) as Hpd by (unfold proper; rewrite <- Hd; by apply pure_sort).
  split; [|split].
  - rewrite <- Hd', od_get_sort by by apply proper_keys. by rewrite Hp.
  - rewrite <- Hd', od_get_sort by by apply proper_keys. by rewrite Hh.
  - rewrite !compute_proper by done. unfold text_of. by rewrite (sorted_payload r d Hr Hd).
Qed.

#[local] Existing Instance file_store.

#[local] Program Instance file_faithful : @FaithfulStore AuditFile _ (file_store json_loads) := {| stored := file_stored; good := file_good |}.
Next Obligation.
  intros f r [[Hf Hw] Hl] Hr (h & Hh & Hne) (p & Hp). unfold append, file_store, file_append.
  destruct (canonical_json float_repr (VDict r)) as [line|x] eqn:E; [|done].
  assert (Forall clean_write (tail (writes f))) as Ht by by destruct Hw.
  destruct (default Written (head (writes f))) as [| |x] eqn:Ew; [| |destruct Hw; [done|cbn in Ew; by subst]]; [|done]. pose proof (reads _ _ Hr E) as Hread. 
  pose proof (sort_keys_dict r) as Hd. set (d := merge_sort key_le (sort_entries r)) in *. rewrite Hd in Hread.
  pose proof (sorted_alike r d h p Hr Hd Hh Hp) as Ha. split.
  - split; [by split|]. cbn. apply Forall_app. split; [done|]. constructor; [|constructor]. split.
    + unfold canonical_json in E. rewrite pure_serialisable in E by done. rewrite Hd, dump_dict in E. injection E as <-. by apply not_blank.
    + exists d, h. split; [done|]. split; [|done]. destruct Ha as (_ & -> & _). done.
  - exists d. split; [done|]. unfold file_stored. cbn. rewrite omap_app. f_equal. cbn. unfold read_line. by rewrite Hread.
Qed.
Next Obligation.
  intros f [[Hf Hw] Hl]. unfold get_last_hash, file_store, file_last_hash, file_stored. destruct (fl_lines f) as [lines|] eqn:E; cbn in *; rewrite ?E; cycle 1.
  { split; [split; [by split|rewrite E; constructor]|]. split; [done|]. by intros h [= <-]. }
  rewrite Hf. assert (filter (fun l => strip l ≠ "") lines = lines) as ->.
  { clear -Hl. induction Hl as [|l lines [Hs _] _ IH]; [done|]. rewrite filter_cons_True by done. f_equal. apply IH. }
  destruct lines as [|l lines _] using rev_ind.
  { change (last (@nil string)) with (@None string). split; [split; [by split|rewrite E; constructor]|]. rewrite E. split; [done|]. by intros h [= <-]. }
  apply Forall_snoc in Hl as [Hl Hl']. pose proof Hl' as (_ & d & h & Hread & Hh & Hne). rewrite last_snoc, Hread, Hh, decide_False by done.
  split; [split; [by split|]; rewrite E; cbn; apply Forall_app; split; [done|by constructor]|]. rewrite E. split; [done|]. intros ? [= <-].
  rewrite omap_app, last_app. cbn. unfold read_line at 1. rewrite Hread. cbn. unfold hash_of. by rewrite Hh.
Qed.
End file_facts.

(** ** Instances *)

Section demo.
Definition demo_digest : Digest := {| sha256 t := "h" +:+ t; float_repr _ := "" |}.
#[local] Existing Instance demo_digest.
#[local] Instance demo_digest_laws : DigestLaws.
Proof. split. done. Qed.

Lemma json_value_reads : json_reads json_value.
Proof.
  intros v t Hv. unfold canonical_json. rewrite pure_serialisable by done. intros [= <-]. by apply json_value_dump, pure_sort.
Qed.

Definition demo_event (i : string) : AuditEvent :=
  mkAuditEvent "auth" "success" [("ip", VStr "10.0.0.1")] [] None (Some "run-1") None [("n", VInt 3)] i "2026-01-01".
Definition empty_file : AuditFile := mkFile "audit.jsonl" None [Written; Refused; Written] false.
#[local] Existing Instance file_store.
#[local] Instance demo_store : AuditStore AuditFile := file_store json_value.

(** Two events, the second of which fails once, and a restart in between. *)
Definition demo_ops : list AuditOp := [AAudit (demo_event "a"); AAudit (demo_event "b"); ARestart; AAudit (demo_event "b")].


Definition demo_chain : list record :=
  file_stored json_value (foldl audit_apply (empty_file, new_logger true) demo_ops).1.

Lemma tamper_evident_witness :
  verify_audit_chain demo_chain = Ok true /\
  (Forall2 same_record demo_chain demo_chain \/
   (exists r r', r ∈ demo_chain /\ r' ∈ demo_chain /\ text_of r ≠ text_of r' /\ sha256 (text_of r) = sha256 (text_of r')) \/
   (exists r, (r ∈ demo_chain \/ r ∈ demo_chain) /\ sha256 (text_of r) = GENESIS_HASH)).
Proof.
  split; [vm_compute; reflexivity|].
  apply (tamper_evident demo_chain demo_chain); [| |vm_compute; reflexivity|vm_compute; reflexivity|reflexivity];
    apply Forall_forall; intros r Hr; vm_compute in Hr; apply list_elem_of_In in Hr; cbn in Hr;
    destruct Hr as [<-|[<-|[]]]; vm_compute; reflexivity.
Defined.

(** Two processes that log to one file fork the chain, and it no longer verifies. *)
Example two_loggers_fork :
  let '(f, a, _) := audit (demo_event "a") (empty_file, new_logger true) in
  let '(f, b, _) := audit (demo_event "b") (mkFile (fl_path f) (fl_lines f) [] false, new_logger true) in
  let '(f, _, _) := audit (demo_event "c") (f, a) in
  verify_audit_chain (file_stored json_value f) = Ok false.
Proof. vm_compute. reflexivity. Qed.

(** The line of a record is on disk when [fsync] fails or the caller is cancelled; the logger
    keeps the hash before it, and the next record no longer fits. *)
Example unsynced_append_breaks :
  let '(f, a, _) := audit (demo_event "a") (empty_file, new_logger true) in
  let '(f, a, r) := audit (demo_event "b") (mkFile (fl_path f) (fl_lines f) [Unsynced (mkExc KException "OSError" "fsync failed")] false, a) in
  let '(f, _, _) := audit (demo_event "b") (f, a) in
  match r with inl _ => False | inr _ => True end /\ length (file_stored json_value f) = 3 /\ verify_audit_chain (file_stored json_value f) = Ok false.
Proof. vm_compute. repeat split. Qed.

(** A stream that refuses a record says nothing, and the logger goes on from its hash. *)
Example lost_append_breaks :
  let audit := @audit _ AuditStream redis_store in
  let '(s, a, r) := audit (demo_event "a") (mkStream true [] [None; Some false], new_logger true) in
  let '(s, _, _) := audit (demo_event "b") (s, a) in
  is_Some (match r with inl r => Some r | inr _ => None end) /\ verify_audit_chain (sm_records s) = Ok false.
Proof. vm_compute. split; [by eexists|reflexivity]. Qed.

(** After a restart, a file that cannot be read starts a second chain. *)
Example unreadable_file_restarts :
  let '(f, _, _) := audit (demo_event "a") (empty_file, new_logger true) in
  let '(f, _, _) := audit (demo_event "b") (mkFile (fl_path f) (fl_lines f) [] true, new_logger true) in
  verify_audit_chain (file_stored json_value f) = Ok false.
Proof. vm_compute. reflexivity. Qed.

(** A chain without its first records does not verify. *)
Example trimmed_chain_fails : verify_audit_chain (tail demo_chain) = Ok false.
Proof. vm_compute. reflexivity. Qed.
End demo.
