(* ===== verification/JsonRepair.v ===== *)
(** * JSON candidates and their repair (engine/llm_output_parsing.py, first part)

    The texts of a model reply that may be JSON, and the scanner that mends an object
    whose strings a mask left open or that was cut off.  Regular expressions are written
    as the matchers they are: each alternative is decided by the next character, so no
    match needs backtracking.  The theorems: a repair is always a closed object, and an
    undamaged object is left as it is. *)

From stdpp Require Import pretty.
From Stdlib Require Import Qcanon.
From S2P Require Import Prelude PyStr PyVal CanonicalJson.

(** [json.loads] and [raw_decode], not strict: the value of a whole text, and of the
    value that a text starts with. *)
Class JsonDecoder := { loads : text -> option pyval; raw_decode : text -> option pyval }.

(** ** Python's text functions *)

Fixpoint is_prefix (p l : text) : bool :=
  match p, l with
  | [], _ => true
  | a :: p', b :: l' => bool_decide (a = b) && is_prefix p' l'
  | _ :: _, [] => false
  end.

(** [find] and [rfind] *)
Fixpoint find (p l : text) : option nat :=
  if is_prefix p l then Some 0
  else match l with [] => None | _ :: l' => S <$> find p l' end.
Fixpoint rfind (p l : text) : option nat :=
  match l with
  | [] => if is_prefix p l then Some 0 else None
  | _ :: l' => match rfind p l' with Some i => Some (S i) | None => if is_prefix p l then Some 0 else None end
  end.

Definition newline : Ascii.ascii := "010"%char.
Definition is_line_break (c : Ascii.ascii) : bool :=
  let n := Ascii.nat_of_ascii c in ((10 <=? n) && (n <=? 13)) || ((28 <=? n) && (n <=? 30)).

(** [splitlines]; a carriage return and a newline break once. *)
Fixpoint splitlines_from (current l : text) : list text :=
  match l with
  | [] => match current with [] => [] | _ => [current] end
  | c :: l' =>
      if is_line_break c then
        current :: match l' with
                   | d :: l'' => if bool_decide (c = "013"%char) && bool_decide (d = newline) then splitlines_from [] l''
                                 else splitlines_from [] l'
                   | [] => []
                   end
      else splitlines_from (current ++ [c]) l'
  end.
Definition splitlines : text -> list text := splitlines_from [].

Fixpoint join_lines (l : list text) : text :=
  match l with [] => [] | [x] => x | x :: l' => x ++ newline :: join_lines l' end.

(** [re.search]: the first position where a matcher succeeds. *)
Fixpoint search {A} (matcher : text -> option A) (l : text) : option A :=
  match matcher l with
  | Some x => Some x
  | None => match l with [] => None | _ :: l' => search matcher l' end
  end.

(** ** Candidates *)

Definition MAX_SENTINEL_INPUT_LEN : N := 262144.
Definition clip (l : text) : text := take (N.to_nat MAX_SENTINEL_INPUT_LEN) l.

Definition FENCE : text := chars "```".
Definition JSON_FENCE_TAG : text := chars "json".

(** The number of lines before the closing fence, if the last line with content is one;
    the lines come last first. *)
Fixpoint closing_fence (reversed : list text) : option nat :=
  match reversed with
  | [] => None
  | l :: before =>
      if decide (strip_chars l = []) then closing_fence before
      else if is_prefix FENCE (strip_chars l) then Some (length before) else None
  end.

Definition strip_outer_fence (raw : text) : option text :=
  if negb (is_prefix FENCE raw) then None
  else
    let lines := splitlines raw in
    let fence_end := default (length lines) (closing_fence (reverse lines)) in
    let fenced := strip_chars (join_lines (drop 1 (take fence_end lines))) in
    if decide (fenced = []) then None else Some fenced.

Definition bracket_span (raw : text) (open_ch close_ch : Ascii.ascii) : option text :=
  match find [open_ch] raw, rfind [close_ch] raw with
  | Some first, Some last =>
      if first <? last then
        let snippet := strip_chars (take (last + 1 - first) (drop first raw)) in
        if decide (snippet = []) then None else Some snippet
      else None
  | _, _ => None
  end.

(** Where the fences are; [skip] characters belong to the last one. *)
Fixpoint fence_bounds (skip index : nat) (l : text) : list nat :=
  match l with
  | [] => []
  | _ :: l' =>
      match skip with
      | S k => fence_bounds k (S index) l'
      | 0 => if is_prefix FENCE l then index :: fence_bounds 2 (S index) l' else fence_bounds 0 (S index) l'
      end
  end.

(** The body between two fences, if it is an object. *)
Definition fenced_object (l : text) (bounds : nat * nat) : option text :=
  let body := strip_chars (take (bounds.2 - (bounds.1 + 3)) (drop (bounds.1 + 3) l)) in
  let body := if decide (lower_char <$> take 4 body = JSON_FENCE_TAG) then lstrip_chars (drop 4 body) else body in
  if bool_decide (head body = Some "{"%char) && bool_decide (last body = Some "}"%char) then Some body else None.
Definition pairwise {A} (l : list A) : list (A * A) := zip l (drop 1 l).
Definition fenced_objects (l : text) : list text := omap (fenced_object l) (pairwise (fence_bounds 0 0 l)).

(** The duplicates removed, the first of each kept. *)
Fixpoint unique (seen l : list text) : list text :=
  match l with
  | [] => []
  | x :: l' => if decide (x ∈ seen) then unique seen l' else x :: unique (x :: seen) l'
  end.

Definition option_list {A} (o : option A) : list A := match o with Some x => [x] | None => [] end.

Definition extract_json_candidates (t : text) : list text :=
  let raw := strip_chars t in
  unique [] ((if decide (raw = []) then [] else [raw]) ++ option_list (strip_outer_fence raw) ++
             option_list (bracket_span raw "{" "}") ++ option_list (bracket_span raw "[" "]") ++
             fenced_objects (clip raw)).

(** ** The lines and quotes that end an open string *)

Definition is_blank (c : Ascii.ascii) : bool := bool_decide (c ∈ [" "; "009"]%char).
Fixpoint skip_while (p : Ascii.ascii -> bool) (l : text) : text :=
  match l with [] => [] | c :: l' => if p c then skip_while p l' else l end.

(** The rest of a JSON string, after its opening quote: what follows the closing one. *)
Fixpoint string_rest (l : text) : option text :=
  match l with
  | [] => None
  | c :: l' =>
      if decide (c = quote_char) then Some l'
      else if decide (c = "\"%char) then
        match l' with d :: l'' => if decide (d = newline) then None else string_rest l'' | [] => None end
      else if decide (c = newline) then None
      else string_rest l'
  end.

(** A string at the head of [l], after blanks: what follows it and more blanks. *)
Definition string_token (l : text) : option text :=
  match skip_while is_blank l with
  | c :: l' => if decide (c = quote_char) then skip_while is_blank <$> string_rest l' else None
  | [] => None
  end.

(** [(?=\r?\n|\Z)] *)
Definition at_line_end (l : text) : bool :=
  match l with
  | [] => true
  | c :: l' => bool_decide (c = newline) || (bool_decide (c = "013"%char) && bool_decide (head l' = Some newline))
  end.

Definition match_member_line (l : text) : bool :=
  match string_token l with Some r => bool_decide (head r = Some ":"%char) | None => false end.
Definition match_element_line (l : text) : bool :=
  match string_token l with
  | Some (c :: r) => if decide (c = ","%char) then at_line_end (skip_while is_blank r) else at_line_end (c :: r)
  | Some [] => true
  | None => false
  end.
(** The first closing bracket of a line of closing brackets *)
Definition match_close_line (l : text) : option Ascii.ascii :=
  match skip_while is_blank l with
  | c :: r => if bool_decide (c ∈ ["}"; "]"]%char) && at_line_end (skip_while (fun d => bool_decide (d ∈ ["}"; "]"; ","; "009"; " "]%char)) r)
              then Some c else None
  | [] => None
  end.
Definition match_open_line (l : text) : bool :=
  match skip_while is_blank l with c :: _ => bool_decide (c ∈ ["{"; "["]%char) | [] => false end.

Definition AFTER_STRING : list Ascii.ascii := [" "; "009"; "013"; "010"; ","; ":"; "}"; "]"]%char.
Definition rest_of_key (l : text) : bool :=
  match string_rest l with Some r => bool_decide (head (skip_while is_blank r) = Some ":"%char) | None => false end.
Definition rest_of_element (l : text) : bool :=
  match string_rest l with
  | Some r => match skip_while is_blank r with c :: _ => bool_decide (c ∈ [","; "]"]%char) | [] => false end
  | None => false
  end.

(** [after] is the text after the quote. *)
Definition quote_opens_next_value (after : text) (closer : Ascii.ascii) : bool :=
  match after with
  | [] => false
  | c :: _ => if decide (c ∈ AFTER_STRING) then false
              else if decide (closer = "}"%char) then rest_of_key after else rest_of_element after
  end.

(** What ends a string left open at a newline; [after] is the text after the newline. *)
Definition string_end_at_newline (after : text) (closer : Ascii.ascii) (at_brackets : bool) : option text :=
  if bool_decide (closer = "}"%char) && match_member_line after then Some [quote_char; ","%char]
  else if bool_decide (closer = "]"%char) && match_element_line after then Some [quote_char; ","%char]
  else if negb at_brackets then None
  else if decide (match_close_line after = Some closer) then Some [quote_char]
  else if bool_decide (closer = "]"%char) && match_open_line after then Some [quote_char; ","%char]
  else None.

(** ** The repair *)

Definition closer_for (c : Ascii.ascii) : option Ascii.ascii :=
  if decide (c = "{"%char) then Some "}"%char else if decide (c = "["%char) then Some "]"%char else None.

Record Repair := mkRepair { repaired : text; consumed : nat }.

(** The scanner: what it wrote, the closing brackets of the open containers, innermost
    first, and the last place to cut back to: how much was written, what was open, and
    how much was read. *)
Record Repairing := mkRepairing {
  out : text;
  frames : text;
  cut : option (nat * text * nat);
  in_string : bool;
  escaped : bool;
}.
Definition push (t : text) (s : Repairing) : Repairing := mkRepairing (out s ++ t) (frames s) (cut s) (in_string s) (escaped s).
Definition set_cut (index : nat) (s : Repairing) : Repairing :=
  mkRepairing (out s) (frames s) (Some (length (out s), frames s, index)) (in_string s) (escaped s).
Definition set_in_string (b : bool) (s : Repairing) : Repairing := mkRepairing (out s) (frames s) (cut s) b (escaped s).
Definition set_escaped (b : bool) (s : Repairing) : Repairing := mkRepairing (out s) (frames s) (cut s) (in_string s) b.
Definition set_frames (f : text) (s : Repairing) : Repairing := mkRepairing (out s) f (cut s) (in_string s) (escaped s).

(** A character inside a string *)
Definition string_char (at_brackets : bool) (index : nat) (ch : Ascii.ascii) (after : text) (s : Repairing) : Repairing :=
  if escaped s then set_escaped false s
  else if decide (ch = "\"%char) then set_escaped true s
  else if decide (ch = quote_char) then
    match frames s with
    | closer :: _ =>
        if quote_opens_next_value after closer then push [","%char] (set_cut index (push [quote_char] s))
        else set_in_string false s
    | [] => set_in_string false s
    end
  else if decide (ch = newline) then
    match frames s with
    | closer :: _ =>
        match string_end_at_newline after closer at_brackets with
        | Some ending => set_in_string false (push (drop 1 ending) (set_cut index (push [quote_char] s)))
        | None => s
        end
    | [] => s
    end
  else s.

(** A character outside strings; the result when the object closes, or its brackets do
    not match. *)
Definition plain_char (index : nat) (ch : Ascii.ascii) (s : Repairing) : Repairing + option Repair :=
  let s := push [ch] (if decide (ch = ","%char) then set_cut index s else s) in
  if decide (ch = quote_char) then inl (set_in_string true s)
  else
    match closer_for ch with
    | Some closer => inl (set_cut (index + 1) (set_frames (closer :: frames s) s))
    | None =>
        if decide (ch ∈ ["}"; "]"]%char) then
          match frames s with
          | closer :: rest =>
              if decide (closer = ch) then
                match rest with
                | [] => inr (Some (mkRepair (out s) (index + 1)))
                | _ => inl (set_cut (index + 1) (set_frames rest s))
                end
              else inr None
          | [] => inr None
          end
        else inl s
    end.

Definition repair_char (at_brackets : bool) (index : nat) (ch : Ascii.ascii) (after : text) (s : Repairing) : Repairing + option Repair :=
  if in_string s then inl (push [ch] (string_char at_brackets index ch after s)) else plain_char index ch s.

(** The loop over at most [count] characters of [l], the first at [index]. *)
Fixpoint repair_loop (at_brackets : bool) (count index : nat) (l : text) (s : Repairing) : Repairing + option Repair :=
  match count, l with
  | S count, ch :: after =>
      match repair_char at_brackets index ch after s with
      | inl s => repair_loop at_brackets count (S index) after s
      | inr r => inr r
      end
  | _, _ => inl s
  end.

Section repair.
Context `{!JsonDecoder}.

Definition loads_dict (candidate : text) : option (odict pyval) :=
  if decide (candidate = []) then None
  else match loads candidate with Some (VDict d) => Some d | _ => None end.

Definition rstrip_chars (l : text) : text := reverse (lstrip_chars (reverse l)).

Definition close_after_final_value (t closers : text) : option text :=
  let tail := rstrip_chars t in
  match last tail with
  | None => None
  | Some c =>
      if is_digit c then None
      else let closed := tail ++ closers in if loads_dict closed then Some closed else None
  end.

Definition repair_json_object (t : text) (start : nat) (at_brackets : bool) : option Repair :=
  let stop := length t `min` (start + N.to_nat MAX_SENTINEL_INPUT_LEN) in
  match repair_loop at_brackets (stop - start) start (drop start t) (mkRepairing [] [] None false false) with
  | inr r => r
  | inl s =>
      match cut s with
      | None => None
      | Some (kept, still_open, read) =>
          match (if in_string s then None else close_after_final_value (out s) (frames s)) with
          | Some closed => Some (mkRepair closed stop)
          | None => Some (mkRepair (take kept (out s) ++ still_open) read)
          end
      end
  end.

(** [_count_values]: the worklist, its last element first. *)
Definition children (v : pyval) : list pyval :=
  match v with VDict d => d.*2 | VList l => l | _ => [] end.
Fixpoint count_loop (fuel : nat) (pending : list pyval) (count : nat) : option nat :=
  match fuel with
  | 0 => None
  | S fuel => match pending with [] => Some count | item :: pending => count_loop fuel (reverse (children item) ++ pending) (S count) end
  end.
Fixpoint value_size (v : pyval) : nat :=
  match v with
  | VDict d => S ((fix go (d : list (string * pyval)) := match d with [] => 0 | (_, x) :: d' => value_size x + go d' end) d)
  | VList l => S ((fix go l := match l with [] => 0 | x :: l' => value_size x + go l' end) l)
  | _ => 1
  end.
Definition count_values (v : pyval) : option nat := count_loop (S (value_size v)) [v] 0.

(** The repair that keeps the most input, then the most values *)
Definition better (a b : nat * nat) : bool := (b.1 <? a.1) || ((a.1 =? b.1) && (b.2 <? a.2)).
Definition try_repair (t : text) (start : nat) (best : option (odict pyval * (nat * nat))) (at_brackets : bool) : option (odict pyval * (nat * nat)) :=
  match repair_json_object t start at_brackets with
  | None => best
  | Some r =>
      match loads_dict (repaired r) with
      | None => best
      | Some parsed =>
          let rank := (consumed r, default 0 (count_values (VDict parsed))) in
          match best with
          | Some (_, best_rank) => if better rank best_rank then Some (parsed, rank) else best
          | None => Some (parsed, rank)
          end
      end
  end.
Definition best_repair (t : text) (start : nat) : option (odict pyval) :=
  fst <$> foldl (try_repair t start) None [false; true].
End repair.

(** ** A repair is one closed object *)

(** Inside an object with the closers of the open containers, or after it. *)
Inductive LexState := Inside (fr : text) (ins esc : bool) | Done.

Definition lex_char (st : LexState) (c : Ascii.ascii) : option LexState :=
  match st with
  | Done => None
  | Inside fr true esc =>
      Some (if esc then Inside fr true false
            else if decide (c = "\"%char) then Inside fr true true
            else if decide (c = quote_char) then Inside fr false false
            else Inside fr true false)
  | Inside fr false _ =>
      if decide (c = quote_char) then Some (Inside fr true false)
      else
        match closer_for c with
        | Some k => Some (Inside (k :: fr) false false)
        | None =>
            if decide (c ∈ ["}"; "]"]%char) then
              match fr with
              | k :: fr' => if decide (k = c) then Some (match fr' with [] => Done | _ => Inside fr' false false end) else None
              | [] => None
              end
            else Some (Inside fr false false)
        end
  end.
Fixpoint lex (st : LexState) (l : text) : option LexState :=
  match l with [] => Some st | c :: l' => st ← lex_char st c; lex st l' end.

(** A text that is an object from its first character to its last. *)
Definition closed_object (t : text) : Prop :=
  exists body, t = "{"%char :: body /\ lex (Inside ["}"%char] false false) body = Some Done.

Lemma lex_app st l l' : lex st (l ++ l') = st ← lex st l; lex st l'.
Proof. revert st. induction l as [|c l IH]; intros st; [done|]. cbn. destruct (lex_char st c); [apply IH|done]. Qed.

Lemma lex_snoc st l c : lex st (l ++ [c]) = st ← lex st l; lex_char st c.
Proof. rewrite lex_app. destruct (lex st l) as [st'|]; [|done]. cbn. by destruct (lex_char st' c). Qed.

Definition closer (c : Ascii.ascii) : Prop := c ∈ ["}"; "]"]%char.

Lemma closer_for_closer c k : closer_for c = Some k -> closer k.
Proof. unfold closer_for, closer. repeat case_decide; intros [= <-]; [left|right; left]. Qed.

Lemma closer_plain k : closer k -> k ≠ quote_char /\ closer_for k = None.
Proof. unfold closer. rewrite !elem_of_cons, elem_of_nil. by intros [->|[->|[]]]. Qed.

(** Closing what is open ends the object. *)
Lemma lex_closers fr esc : fr ≠ [] -> Forall closer fr -> lex (Inside fr false esc) fr = Some Done.
Proof.
  intros Hne Hf. revert esc. induction Hf as [|k fr Hk Hf IH]; intros esc; [done|]. destruct (closer_plain k Hk) as [Hq Hc].
  cbn. rewrite decide_False, Hc, decide_True, decide_True by done. cbn. destruct fr as [|k' fr]; [done|]. by apply IH.
Qed.

Lemma lex_space fr c : is_space c = true -> lex_char (Inside fr false false) c = Some (Inside fr false false).
Proof. intros Hc. destruct c as [[] [] [] [] [] [] [] []]; by vm_compute in Hc |- *. Qed.

Lemma lex_space_string fr esc c : is_space c = true -> lex_char (Inside fr true esc) c = Some (Inside fr true false).
Proof. intros Hc. destruct esc; [done|]. by destruct c as [[] [] [] [] [] [] [] []]; vm_compute in Hc |- *. Qed.

(** Blanks after a value change nothing. *)
Lemma lex_strip ws : forall st fr, Forall (fun c => is_space c = true) ws -> lex st ws = Some (Inside fr false false) ->
  exists esc, st = Inside fr false esc.
Proof.
  induction ws as [|c ws IH]; intros st fr Hws; [intros [= ->]; by exists false|]. apply Forall_cons in Hws as [Hc Hws].
  destruct st as [fr' [] esc|]; cbn [lex]; [|destruct (lex_char _ _) as [st|] eqn:E; [|done]|done].
  - rewrite lex_space_string by done. intros Hl. destruct (IH _ _ Hws Hl) as [? [=]].
  - cbn. intros Hl. destruct (IH _ _ Hws Hl) as [esc' ->]. exists esc. 
    assert (lex_char (Inside fr' false esc) c = Some (Inside fr' false false)) as E' by (destruct c as [[] [] [] [] [] [] [] []]; by vm_compute in Hc |- *).
    rewrite E in E'. by injection E' as -> <-.
Qed.

Lemma lex_not_escaped fr0 b fr esc : lex (Inside fr0 false false) b = Some (Inside fr false esc) -> esc = false.
Proof.
  enough (forall st, lex st b = Some (Inside fr false esc) -> match st with Inside _ false e => e = false | _ => True end -> esc = false) as Hall
    by (intros Hb; by eapply Hall).
  induction b as [|c b IH]; intros st; cbn; [by intros [= ->]|]. intros Hl Hst. destruct (lex_char st c) as [st'|] eqn:E; [|done].
  apply (IH st' Hl). destruct st as [fr' [] e|]; cbn in E; repeat case_match; simplify_eq; done.
Qed.

Section sound.
Context (start : nat).

(** [t] holds [seen] and leaves the object it began open in this state. *)
Definition wrote (seen t fr : text) (ins esc : bool) : Prop :=
  (exists b, t = "{"%char :: b /\ lex (Inside ["}"%char] false false) b = Some (Inside fr ins esc)) /\
  (fr ≠ [] /\ Forall closer fr) /\ seen `sublist_of` t.

Lemma wrote_push seen t fr ins esc c fr' ins' esc' :
  wrote seen t fr ins esc -> lex_char (Inside fr ins esc) c = Some (Inside fr' ins' esc') -> fr' ≠ [] /\ Forall closer fr' ->
  wrote seen (t ++ [c]) fr' ins' esc' /\ wrote (seen ++ [c]) (t ++ [c]) fr' ins' esc'.
Proof.
  intros [(b & -> & Hb) [_ Hs]] Hc Hfr.
  assert (exists b', ("{"%char :: b) ++ [c] = "{"%char :: b' /\ lex (Inside ["}"%char] false false) b' = Some (Inside fr' ins' esc')) as Hl
    by (exists (b ++ [c]); split; [done|]; by rewrite lex_snoc, Hb).
  split; (split; [done|]); (split; [done|]); [by apply sublist_inserts_r|by apply sublist_app].
Qed.

Definition inv (seen : text) (s : Repairing) : Prop :=
  wrote seen (out s) (frames s) (in_string s) (escaped s) /\
  exists kept fr read, cut s = Some (kept, fr, read) /\ kept <= length (out s) /\ start < read <= start + length seen /\
    wrote (take (read - start) seen) (take kept (out s)) fr false false.

Lemma inv_set_cut seen s : inv seen s -> in_string s = false -> escaped s = false -> inv seen (set_cut (start + length seen) s).
Proof.
  intros [Hw (kept & fr & read & _ & _ & Hr & _)] Hi He. rewrite Hi, He in Hw. split; [by cbn; rewrite Hi, He|]. eexists _, _, _. split; [reflexivity|]. cbn. split; [done|]. split; [lia|].
  rewrite !take_ge by lia. done.
Qed.

(** A character written after the cut *)
Lemma inv_push seen s c fr ins esc :
  inv seen s -> lex_char (Inside (frames s) (in_string s) (escaped s)) c = Some (Inside fr ins esc) -> fr ≠ [] /\ Forall closer fr ->
  inv seen (mkRepairing (out s ++ [c]) fr (cut s) ins esc) /\ inv (seen ++ [c]) (mkRepairing (out s ++ [c]) fr (cut s) ins esc).
Proof.
  intros [Hw (kept & fr0 & read & Hcut & Hk & Hr & Hc)] Hl Hfr. destruct (wrote_push _ _ _ _ _ _ _ _ _ Hw Hl Hfr) as [Hw1 Hw2].
  split; (split; [done|]); exists kept, fr0, read; cbn; rewrite ?length_app; cbn; (split; [done|]); (split; [lia|]); (split; [lia|]);
    rewrite !take_app_le by lia; done.
Qed.

Lemma inv_frames seen s : inv seen s -> frames s ≠ [] /\ Forall closer (frames s).
Proof. by intros [[_ [? _]] _]. Qed.

Lemma push_eta c s : mkRepairing (out s ++ [c]) (frames s) (cut s) (in_string s) (escaped s) = push [c] s.
Proof. done. Qed.

(** One more character inside a string *)
Lemma inv_string seen s at_brackets ch after : inv seen s -> in_string s = true ->
  inv (seen ++ [ch]) (push [ch] (string_char at_brackets (start + length seen) ch after s)).
Proof.
  intros Hi Hs. pose proof (inv_frames _ _ Hi) as Hfr. destruct s as [o fr cu ins esc]. cbn in Hs, Hfr. subst ins.
  assert (forall ins' esc', lex_char (Inside fr true esc) ch = Some (Inside fr ins' esc') -> inv (seen ++ [ch]) (mkRepairing (o ++ [ch]) fr cu ins' esc')) as Hone
    by (intros ins' esc' Hl; exact (proj2 (inv_push seen _ ch _ _ _ Hi Hl Hfr))).
  unfold string_char. cbn. destruct esc; [by apply Hone|].
  destruct (decide (ch = "\"%char)) as [->|Hb]; [by apply Hone|].
  assert (inv seen (mkRepairing (o ++ [quote_char]) fr (Some (length (o ++ [quote_char]), fr, start + length seen)) false false)) as Hclose.
  { apply (inv_set_cut seen (mkRepairing (o ++ [quote_char]) fr cu false false)); [|done..].
    exact (proj1 (inv_push seen _ quote_char _ _ _ Hi eq_refl Hfr)). }
  assert (forall t c esc0 ins' esc', inv seen (mkRepairing t fr (Some (length (o ++ [quote_char]), fr, start + length seen)) false esc0) ->
    lex_char (Inside fr false esc0) c = Some (Inside fr ins' esc') ->
    inv seen (mkRepairing (t ++ [c]) fr (Some (length (o ++ [quote_char]), fr, start + length seen)) ins' esc') /\
    inv (seen ++ [c]) (mkRepairing (t ++ [c]) fr (Some (length (o ++ [quote_char]), fr, start + length seen)) ins' esc')) as Hnext
    by (intros t c esc0 ins' esc' Hi' Hl; exact (inv_push seen _ c _ _ _ Hi' Hl Hfr)).
  destruct (decide (ch = quote_char)) as [->|Hq].
  - destruct fr as [|closer fr]; [by destruct Hfr|]. destruct (quote_opens_next_value after closer); [|by apply Hone].
    destruct (Hnext _ ","%char _ false false Hclose eq_refl) as [Hcomma _]. by destruct (Hnext _ quote_char _ true false Hcomma eq_refl) as [_ Hopen].
  - assert (lex_char (Inside fr true false) ch = Some (Inside fr true false)) as Hsame by (cbn; by rewrite !decide_False).
    destruct (decide (ch = newline)) as [->|Hn]; [|by apply Hone]. destruct fr as [|closer fr]; [by destruct Hfr|].
    destruct (string_end_at_newline after closer at_brackets) as [ending|] eqn:Eend; [|by apply Hone].
    assert (drop 1 ending = [] \/ drop 1 ending = [","%char]) as [-> | ->].
    { unfold string_end_at_newline in Eend. repeat case_match; simplify_eq; auto. }
    + unfold push. cbn. rewrite app_nil_r. by destruct (Hnext _ newline _ false false Hclose eq_refl) as [_ Hnl].
    + destruct (Hnext _ ","%char _ false false Hclose eq_refl) as [Hcomma _]. by destruct (Hnext _ newline _ false false Hcomma eq_refl) as [_ Hnl].
Qed.

(** One more character outside strings *)
Lemma inv_plain seen s ch : inv seen s -> in_string s = false ->
  match plain_char (start + length seen) ch s with
  | inl s' => inv (seen ++ [ch]) s'
  | inr (Some r) => closed_object (repaired r) /\ consumed r = S (start + length seen) /\ (seen ++ [ch]) `sublist_of` repaired r
  | inr None => True
  end.
Proof.
  intros Hi Hs. pose proof (inv_frames _ _ Hi) as Hfr.
  assert (escaped s = false) as He.
  { destruct Hi as [[(b & _ & Hb) _] _]. rewrite Hs in Hb. by apply lex_not_escaped in Hb. }
  set (s0 := if decide (ch = ","%char) then set_cut (start + length seen) s else s).
  assert (inv seen s0 /\ frames s0 = frames s /\ in_string s0 = false /\ escaped s0 = false) as (Hi0 & Hf0 & Hs0 & He0)
    by (unfold s0; case_decide; [split; [by apply inv_set_cut|done]|done]).
  unfold plain_char. fold s0. clearbody s0. destruct s0 as [o fr cu ins esc]. cbn in Hf0, Hs0, He0. subst fr ins esc. clear Hi.
  assert (forall fr' ins', lex_char (Inside (frames s) false false) ch = Some (Inside fr' ins' false) -> fr' ≠ [] /\ Forall closer fr' ->
    inv (seen ++ [ch]) (mkRepairing (o ++ [ch]) fr' cu ins' false)) as Hone
    by (intros fr' ins' Hl Hfr'; exact (proj2 (inv_push seen _ ch _ _ _ Hi0 Hl Hfr'))).
  assert (forall fr', inv (seen ++ [ch]) (mkRepairing (o ++ [ch]) fr' cu false false) ->
    inv (seen ++ [ch]) (set_cut (start + length seen + 1) (mkRepairing (o ++ [ch]) fr' cu false false))) as Hcut.
  { intros fr' Hi'. replace (start + length seen + 1) with (start + length (seen ++ [ch])) by (rewrite length_app; cbn; lia). by apply inv_set_cut. }
  unfold push. cbn [out frames cut in_string escaped]. destruct (decide (ch = quote_char)) as [->|Hq]; [by apply Hone|].
  cbn in Hone. rewrite decide_False in Hone by done.
  destruct (closer_for ch) as [k|] eqn:Ek.
  { unfold set_frames. cbn. apply Hcut, Hone; [done|]. split; [done|]. constructor; [by eapply closer_for_closer|by apply Hfr]. }
  destruct (decide (ch ∈ ["}"; "]"]%char)) as [Hc|Hc]; [|by apply Hone].
  destruct (frames s) as [|k fr] eqn:Ef; [done|]. destruct (decide (k = ch)) as [->|]; [|done]. destruct fr as [|k' fr].
  - split; [|split; [cbn; lia|]].
    + destruct Hi0 as [[(b & Ho & Hb) _] _]. cbn in Ho, Hb. exists (b ++ [ch]). cbn. rewrite Ho. split; [done|]. rewrite lex_snoc, Hb. cbn.
      by rewrite decide_False, Ek, !decide_True by done.
    + destruct Hi0 as [[_ [_ Hsub]] _]. cbn. by apply sublist_app.
  - unfold set_frames. cbn. apply Hcut, Hone; [done|]. split; [done|]. destruct Hfr as [_ Hfr]. by inversion Hfr.
Qed.

(** The loop *)
Lemma inv_loop at_brackets count : forall l seen s, inv seen s ->
  match repair_loop at_brackets count (start + length seen) l s with
  | inl s' => inv (seen ++ take count l) s'
  | inr (Some r) => closed_object (repaired r) /\ exists n, n <= length l /\ consumed r = start + length seen + n /\ (seen ++ take n l) `sublist_of` repaired r
  | inr None => True
  end.
Proof.
  induction count as [|count IH]; intros l seen s Hi; [cbn; by rewrite app_nil_r|]. destruct l as [|ch after]; [cbn; by rewrite app_nil_r|].
  cbn [repair_loop]. unfold repair_char. destruct (in_string s) eqn:Es.
  - pose proof (inv_string seen s at_brackets ch after Hi Es) as Hi'. specialize (IH after _ _ Hi').
    rewrite length_app in IH. cbn [length] in IH. replace (start + (length seen + 1)) with (S (start + length seen)) in IH by lia.
    destruct (repair_loop _ _ _ _ _) as [s'|[r|]]; [|split; [apply IH|]|done].
    + by rewrite <- app_assoc in IH.
    + destruct IH as (_ & n & Hn & Hc & Hsub). rewrite <- app_assoc in Hsub. exists (S n). cbn. split; [lia|]. split; [lia|done].
  - pose proof (inv_plain seen s ch Hi Es) as Hp. destruct (plain_char _ _ _) as [s'|[r|]]; [|split; [apply Hp|]|done].
    + specialize (IH after _ _ Hp). rewrite length_app in IH. cbn [length] in IH. replace (start + (length seen + 1)) with (S (start + length seen)) in IH by lia.
      destruct (repair_loop _ _ _ _ _) as [s''|[r|]]; [|split; [apply IH|]|done].
      * by rewrite <- app_assoc in IH.
      * destruct IH as (_ & n & Hn & Hc & Hsub). rewrite <- app_assoc in Hsub. exists (S n). cbn. split; [lia|]. split; [lia|done].
    + destruct Hp as (_ & Hc & Hsub). exists 1. cbn. rewrite take_0. split; [lia|]. split; [lia|done].
Qed.

(** The opening brace *)
Lemma inv_start : inv ["{"%char] (mkRepairing ["{"%char] ["}"%char] (Some (1, ["}"%char], start + 1)) false false).
Proof.
  assert (wrote ["{"%char] ["{"%char] ["}"%char] false false) as Hw.
  { split; [by exists []|]. split; [|done]. split; [done|]. constructor; [by left|constructor]. }
  split; [done|]. eexists _, _, _. split; [reflexivity|]. cbn. split; [lia|]. split; [lia|]. by rewrite take_ge by (cbn; lia).
Qed.
End sound.

Lemma rstrip_split l : exists ws, l = rstrip_chars l ++ ws /\ Forall (fun c => is_space c = true) ws.
Proof.
  unfold rstrip_chars. assert (forall k, exists ws, k = ws ++ lstrip_chars k /\ Forall (fun c => is_space c = true) ws) as Hl.
  { induction k as [|c k IH]; [by exists []|]. cbn. destruct (is_space c) eqn:E; [|by exists []].
    destruct IH as (ws & Hk & Hws). exists (c :: ws). split; [cbn; by f_equal|by constructor]. }
  destruct (Hl (reverse l)) as (ws & Hk & Hws). exists (reverse ws). split; [|by apply Forall_reverse].
  rewrite <- reverse_app, <- Hk. by rewrite reverse_involutive.
Qed.

Lemma reverse_sublist (l k : text) : l `sublist_of` k -> reverse l `sublist_of` reverse k.
Proof.
  induction 1 as [|c l k _ IH|c l k _ IH]; [done| |]; rewrite !reverse_cons; [by apply sublist_app|by apply sublist_inserts_r].
Qed.

Lemma sublist_rstrip (l k : text) : l `sublist_of` k -> rstrip_chars l `sublist_of` rstrip_chars k.
Proof.
  assert (forall l k : text, l `sublist_of` k -> lstrip_chars l `sublist_of` lstrip_chars k) as Hl.
  { assert (forall l : text, lstrip_chars l `sublist_of` l) as Hle.
    { induction l0 as [|c l0 IH]; [done|]. cbn. destruct (is_space c); [by constructor|done]. }
    induction 1 as [|c l0 k0 Hs IH|c l0 k0 Hs IH]; [done| |].
    - cbn. destruct (is_space c); [done|]. by constructor.
    - cbn. destruct (is_space c); [done|]. constructor. by etrans. }
  intros Hs. unfold rstrip_chars. by apply reverse_sublist, Hl, reverse_sublist.
Qed.

Lemma rstrip_sublist (l : text) : rstrip_chars l `sublist_of` l.
Proof. destruct (rstrip_split l) as (ws & Hl & _). rewrite Hl at 2. by apply sublist_inserts_r. Qed.

(** Closing a text that ends outside strings *)
Lemma closed_after seen o fr esc : wrote seen o fr false esc -> closed_object (rstrip_chars o ++ fr).
Proof.
  intros [(b & -> & Hb) [[Hne Hfr] _]]. destruct (rstrip_split ("{"%char :: b)) as (ws & Ho & Hws).
  destruct (rstrip_chars ("{"%char :: b)) as [|c b1].
  { cbn in Ho. rewrite <- Ho in Hws. apply Forall_cons in Hws as [Hc _]. by vm_compute in Hc. }
  injection Ho as <- ->. exists (b1 ++ fr). split; [done|]. pose proof (lex_not_escaped _ _ _ _ Hb) as ->. rewrite lex_app in Hb |- *.
  destruct (lex (Inside ["}"%char] false false) b1) as [st|]; [|done]. cbn in Hb |- *.
  destruct (lex_strip ws st fr Hws Hb) as [e ->]. by apply lex_closers.
Qed.

(** C19. Repairs are sound.  What comes out of the repair of an object, damaged or cut off
    anywhere, is a single object that closes at its last character and nowhere before;
    and all of the input it accounts for, blanks at the end aside, is in it, in order. *)
Theorem repair_sound `{!JsonDecoder} t start at_brackets r :
  head (drop start t) = Some "{"%char -> repair_json_object t start at_brackets = Some r ->
  closed_object (repaired r) /\ start < consumed r <= length t /\
  rstrip_chars (take (consumed r - start) (drop start t)) `sublist_of` repaired r.
Proof.
  intros Hhead. unfold repair_json_object. set (stop := length t `min` _).
  destruct (drop start t) as [|c l] eqn:El; [done|]. injection Hhead as ->.
  assert (length t = start + S (length l)) as Ht by (pose proof (length_drop t start) as Hd; rewrite El in Hd; cbn in Hd; lia).
  assert (exists count, stop - start = S count /\ stop = start + S count /\ stop <= length t) as (count & Hcount & Hstop & Hle).
  { unfold stop. exists (stop - start - 1). unfold stop. set (M := N.to_nat MAX_SENTINEL_INPUT_LEN). assert (1 <= M) by (unfold M, MAX_SENTINEL_INPUT_LEN; lia). lia. }
  rewrite Hcount. cbn [repair_loop]. unfold repair_char at 1. cbn [in_string].
  assert (plain_char start "{" (mkRepairing [] [] None false false) =
          inl (mkRepairing ["{"%char] ["}"%char] (Some (1, ["}"%char], start + 1)) false false)) as -> by done.
  pose proof (inv_loop start at_brackets count l _ _ (inv_start start)) as Hloop. cbn [length] in Hloop.
  replace (start + 1) with (S start) in Hloop |- * by lia.
  destruct (repair_loop _ _ _ _ _) as [s|[r'|]]; [|intros [= <-]|done].
  - destruct Hloop as (Hw & kept & fr & read & -> & Hk & Hr & Hc).
    assert (start + length ("{"%char :: take count l) = stop) as Hseen by (cbn; rewrite length_take; lia). cbn [app] in *. rewrite Hseen in Hr.
    assert (take count l = take (stop - start - 1) l) as Htake by (f_equal; lia).
    destruct (if in_string s then None else _) as [closed|] eqn:Eclose; intros [= <-]; cbn [repaired consumed].
    + destruct (in_string s) eqn:Es; [done|]. unfold close_after_final_value in Eclose.
      repeat case_match; simplify_eq. split; [by eapply closed_after|]. split; [lia|]. destruct Hw as (_ & _ & Hsub).
      rewrite Hcount. cbn [take]. apply sublist_inserts_r, sublist_rstrip, Hsub.
    + destruct Hc as [(b & Hb & Hlex) [[Hne Hfr] Hsub]]. rewrite Hb. split.
      { exists (b ++ fr). split; [done|]. rewrite lex_app, Hlex. by apply lex_closers. }
      split; [lia|]. rewrite Hb in Hsub. change ("{"%char :: take count l) with (take (S count) ("{"%char :: l)) in Hsub.
      rewrite take_take, Nat.min_l in Hsub by lia. etrans; [apply rstrip_sublist|]. by apply sublist_inserts_r.
  - destruct Hloop as (Hclosed & n & Hn & -> & Hsub). split; [done|]. split; [lia|].
    replace (S start + n - start) with (S n) by lia. etrans; [apply rstrip_sublist|exact Hsub].
Qed.

(** ** An undamaged object is its own repair *)

Section undamaged.
Context (float_repr : Qc -> string) (at_brackets : bool).
Notation dump := (dump float_repr).
Notation entry := (entry float_repr).
Notation loop := (repair_loop at_brackets).

(** Before [r], the scanner copies [t] and is where it was, but for the cut. *)
Definition passes (t r : text) : Prop := forall count index o fr cu,
  fr ≠ [] -> length t <= count ->
  exists cu', loop count index (t ++ r) (mkRepairing o fr cu false false) =
    loop (count - length t) (index + length t) r (mkRepairing (o ++ t) fr cu' false false).

Lemma passes_nil r : passes [] r.
Proof. intros count index o fr cu _ _. exists cu. cbn. by rewrite Nat.sub_0_r, Nat.add_0_r, app_nil_r. Qed.

Lemma passes_app t u r : passes t (u ++ r) -> passes u r -> passes (t ++ u) r.
Proof.
  intros Ht Hu count index o fr cu Hfr Hc. rewrite length_app in *. rewrite <- app_assoc.
  destruct (Ht count index o fr cu Hfr ltac:(lia)) as [cu1 ->]. destruct (Hu (count - length t) (index + length t) (o ++ t) fr cu1 Hfr ltac:(lia)) as [cu2 ->].
  exists cu2. rewrite app_assoc. f_equal; lia.
Qed.

(** Characters that mean nothing outside a string *)
Definition inert (c : Ascii.ascii) : bool := bool_decide (c ∉ [quote_char; "{"; "["; "}"; "]"; ","]%char).

Lemma passes_char c r : (forall index o fr cu, fr ≠ [] -> exists cu', plain_char index c (mkRepairing o fr cu false false) = inl (mkRepairing (o ++ [c]) fr cu' false false)) ->
  passes [c] r.
Proof.
  intros Hc count index o fr cu Hfr Hn. destruct count as [|count]; [cbn in Hn; lia|]. destruct (Hc index o fr cu Hfr) as [cu' E].
  exists cu'. cbn [app repair_loop]. unfold repair_char. cbn [in_string]. rewrite E. cbn [length]. f_equal; lia.
Qed.

Lemma passes_inert c r : inert c = true -> passes [c] r.
Proof.
  unfold inert. rewrite bool_decide_eq_true. intros Hc. apply passes_char. intros index o fr cu Hfr. exists cu.
  unfold plain_char, closer_for. rewrite !not_elem_of_cons in Hc. destruct Hc as (Hq & Ho & Hb & Hc & Hd & Hm & _).
  rewrite !(decide_False (P := c = _)) by done. rewrite decide_False; [done|]. rewrite !elem_of_cons, elem_of_nil. naive_solver.
Qed.

Lemma passes_comma r : passes [","%char] r.
Proof. apply passes_char. intros index o fr cu Hfr. by eexists. Qed.

Lemma passes_text t r : Forall (fun c => inert c = true) t -> passes t r.
Proof.
  induction 1 as [|c t Hc _ IH]; [apply passes_nil|]. change (c :: t) with ([c] ++ t). apply passes_app; [by apply passes_inert|done].
Qed.

(** Characters inside a string, with their escapes; nothing on an end of the string. *)
Fixpoint escapes (esc : bool) (t : text) : option bool :=
  match t with
  | [] => Some esc
  | c :: t => if esc then escapes false t
              else if decide (c = "\"%char) then escapes true t
              else if decide (c = quote_char \/ c = newline) then None else escapes false t
  end.

Lemma escapes_app esc t u : escapes esc (t ++ u) = e ← escapes esc t; escapes e u.
Proof. revert esc. induction t as [|c t IH]; intros esc; [done|]. cbn. destruct esc; [apply IH|]. repeat case_decide; done. Qed.

Lemma escapes_raw (s : text) : escapes false (s ≫= escape_raw) = Some false.
Proof.
  induction s as [|c s IH]; [done|]. rewrite bind_cons, escapes_app.
  assert (escapes false (escape_raw c) = Some false) as -> by (by destruct c as [[] [] [] [] [] [] [] []]; vm_compute). exact IH.
Qed.

Lemma loop_escapes t : forall count index o fr cu esc e r, escapes esc t = Some e -> length t <= count ->
  loop count index (t ++ r) (mkRepairing o fr cu true esc) = loop (count - length t) (index + length t) r (mkRepairing (o ++ t) fr cu true e).
Proof.
  induction t as [|c t IH]; intros count index o fr cu esc e r He Hn.
  { injection He as ->. cbn. by rewrite Nat.sub_0_r, Nat.add_0_r, app_nil_r. }
  destruct count as [|count]; [cbn in Hn; lia|]. cbn [app repair_loop length] in *. unfold repair_char, string_char. cbn [in_string escaped]. cbn [escapes] in He.
  assert (forall e', escapes e' t = Some e -> loop count (S index) (t ++ r) (mkRepairing (o ++ [c]) fr cu true e') =
    loop (S count - S (length t)) (index + S (length t)) r (mkRepairing (o ++ c :: t) fr cu true e)) as Hgo.
  { intros e' E. rewrite (IH _ _ _ _ _ _ _ _ E) by lia. rewrite <- app_assoc. f_equal; lia. }
  destruct esc; [by apply Hgo|]. destruct (decide (c = "\"%char)); [by apply Hgo|].
  destruct (decide (c = quote_char \/ c = newline)) as [|Hc]; [done|]. rewrite !decide_False by tauto. by apply Hgo.
Qed.

(** What a closing quote is followed by. *)
Definition after_string (r : text) : Prop := match r with [] => True | c :: _ => c ∈ AFTER_STRING end.

Lemma delimited_after r : delimited r -> after_string r.
Proof. destruct r as [|c r]; [done|]. cbn. unfold AFTER_STRING. rewrite !elem_of_cons, elem_of_nil. tauto. Qed.

Lemma passes_quoted s r : after_string r -> passes (quoted s) r.
Proof.
  intros Hr count index o fr cu Hfr Hn. unfold quoted in *. cbn [length app] in *. rewrite length_app in *. cbn [length] in *.
  destruct count as [|count]; [lia|]. cbn [repair_loop]. unfold repair_char at 1. cbn [in_string].
  change (plain_char index quote_char (mkRepairing o fr cu false false)) with (@inl Repairing (option Repair) (mkRepairing (o ++ [quote_char]) fr cu true false)). cbv iota.
  rewrite <- app_assoc, (loop_escapes (chars s ≫= escape_raw) _ _ _ _ _ false false) by (apply escapes_raw || lia).
  set (n := length (chars s ≫= escape_raw)) in *. destruct (count - n) as [|m] eqn:Em; [lia|]. cbn [app repair_loop]. unfold repair_char, string_char. cbn [in_string escaped frames].
  destruct fr as [|closer fr]; [done|].
  assert (quote_opens_next_value r closer = false) as ->.
  { destruct r as [|c r]; [done|]. cbn in Hr |- *. by rewrite decide_True. }
  exists cu.
  change (if decide (quote_char = "\"%char) then _ else if decide (quote_char = quote_char) then ?x else _) with x. unfold push, set_in_string.
  cbn [out frames cut in_string escaped]. rewrite <- !app_assoc. f_equal; lia.
Qed.

(** A container around content that passes *)
Lemma passes_container open_ch close_ch t r : closer_for open_ch = Some close_ch -> passes t (close_ch :: r) -> passes (open_ch :: t ++ [close_ch]) r.
Proof.
  intros Hc Ht count index o fr cu Hfr Hn. cbn [length app] in *. rewrite length_app in *. cbn [length] in *.
  assert (open_ch ≠ quote_char /\ open_ch ≠ ","%char /\ close_ch ≠ quote_char /\ close_ch ≠ ","%char /\ closer_for close_ch = None /\ close_ch ∈ ["}"; "]"]%char) as (H1 & H2 & H3 & H4 & H5 & H6).
  { unfold closer_for in Hc. repeat case_decide; simplify_eq; (split_and!; [done..|]); [by left|by right; left]. }
  destruct count as [|count]; [lia|]. cbn [repair_loop]. unfold repair_char at 1, plain_char at 1. cbn [in_string]. rewrite !decide_False, Hc by done. cbv iota.
  rewrite <- app_assoc. destruct (Ht count (S index) (o ++ [open_ch]) (close_ch :: fr) (Some (length (o ++ [open_ch]), close_ch :: fr, index + 1)) ltac:(done) ltac:(lia)) as [cu1 E].
  unfold set_cut, set_frames, push. cbn [out frames cut in_string escaped app]. rewrite E. destruct (count - length t) as [|m] eqn:Em; [lia|].
  cbn [repair_loop]. unfold repair_char at 1, plain_char at 1. cbn [in_string frames push]. rewrite !decide_False, H5, decide_True by done.
  cbn [frames push]. rewrite decide_True by done. destruct fr as [|k fr]; [done|]. unfold set_cut, set_frames, push. cbn [out frames cut in_string escaped].
  rewrite <- !app_assoc. cbn [app]. eexists. f_equal; lia.
Qed.

(** Values, in front of what may follow a value *)
Definition passes_value (t : text) : Prop := forall r, delimited r -> passes t r.

Lemma passes_separated (l : list text) r : delimited r -> Forall passes_value l -> passes (separated "," l) r.
Proof.
  intros Hr Hl. induction Hl as [|t l Ht Hl IH]; [apply passes_nil|]. destruct l as [|u l]; [by apply Ht|].
  change (separated "," (t :: u :: l)) with (t ++ [","%char] ++ separated "," (u :: l)).
  apply passes_app; [apply Ht; by left|]. apply passes_app; [apply passes_comma|exact IH].
Qed.

Lemma passes_entry k v : passes_value (dump v) -> passes_value (entry (k, v)).
Proof.
  intros Hv r Hr. unfold entry. cbn [fst snd]. change (quoted k ++ ":"%char :: dump v) with (quoted k ++ [":"%char] ++ dump v).
  apply passes_app; [apply passes_quoted|apply passes_app; [by apply passes_inert|by apply Hv]].
  change (":"%char ∈ AFTER_STRING). unfold AFTER_STRING. rewrite !elem_of_cons. tauto.
Qed.

Lemma passes_dump v : pure v = true -> passes_value (dump v).
Proof.
  induction v as [|b|z|q|s|l IH|l IH|d IH|t s] using pyval_nested_ind; intros Hv r Hr; try done.
  - apply passes_text. by repeat constructor.
  - apply passes_text. destruct b; by repeat constructor.
  - apply passes_text. eapply Forall_impl; [apply pretty_number|]. intros c (Hc & _ & _). unfold inert. rewrite bool_decide_eq_true.
    intros Hin. apply list_elem_of_In in Hin. cbn in Hin. repeat (destruct Hin as [<-|Hin]; [vm_compute in Hc; lia|]). done.
  - apply passes_quoted. by apply delimited_after.
  - apply pure_list in Hv. rewrite dump_list. apply passes_container; [done|]. apply passes_separated; [by right; left|].
    rewrite Forall_fmap. rewrite Forall_forall in *. intros x Hx. by apply IH, Hv.
  - apply pure_dict in Hv as [_ Hv]. rewrite dump_dict. apply passes_container; [done|]. apply passes_separated; [by right; right; left|].
    rewrite Forall_fmap. rewrite Forall_forall in *. intros [k x] Hx. by apply passes_entry, (IH (k, x)), (Hv (k, x)).
Qed.

(** The whole object *)
Lemma loop_object d r count index : pure (VDict d) = true -> length (dump (VDict d)) <= count ->
  loop count index (dump (VDict d) ++ r) (mkRepairing [] [] None false false) =
    inr (Some (mkRepair (dump (VDict d)) (index + length (dump (VDict d))))).
Proof.
  intros Hv Hn. apply pure_dict in Hv as [_ Hv]. rewrite dump_dict in *. set (content := separated "," (entry <$> d)) in *.
  assert (passes content ("}"%char :: r)) as Hc.
  { apply passes_separated; [by right; right; left|]. rewrite Forall_fmap. rewrite Forall_forall in *. intros [k x] Hx. by apply passes_entry, passes_dump, (Hv (k, x)). }
  cbn [length app] in *. rewrite length_app in *. cbn [length] in *. destruct count as [|count]; [lia|]. cbn [repair_loop]. unfold repair_char at 1. cbn [in_string].
  change (plain_char index "{" (mkRepairing [] [] None false false)) with (@inl Repairing (option Repair) (mkRepairing ["{"%char] ["}"%char] (Some (1, ["}"%char], index + 1)) false false)).
  cbv iota. rewrite <- app_assoc. change (["}"%char] ++ r) with ("}"%char :: r). destruct (Hc count (S index) ["{"%char] ["}"%char] (Some (1, ["}"%char], index + 1)) ltac:(done) ltac:(lia)) as [cu ->].
  destruct (count - length content) as [|m] eqn:Em; [lia|]. cbn [app repair_loop]. unfold repair_char. cbn [in_string].
  match goal with |- match ?x with _ => _ end = _ => change x with (@inr Repairing (option Repair) (Some (mkRepair (("{"%char :: content) ++ ["}"%char]) (S index + length content + 1)))) end.
  cbv iota. do 2 f_equal. cbn [app]. f_equal. lia.
Qed.
End undamaged.

(** An undamaged object is its own repair, and is what comes back.  The JSON text of
    an object, in front of anything and after anything, is repaired to itself and read as
    the object, whichever of the two repairs is tried. *)
Theorem undamaged_kept `{!JsonDecoder} float_repr d pre post :
  pure (VDict d) = true -> loads (dump float_repr (VDict d)) = Some (VDict d) ->
  length (dump float_repr (VDict d)) <= N.to_nat MAX_SENTINEL_INPUT_LEN ->
  let t := pre ++ dump float_repr (VDict d) ++ post in
  (forall at_brackets, repair_json_object t (length pre) at_brackets =
    Some (mkRepair (dump float_repr (VDict d)) (length pre + length (dump float_repr (VDict d))))) /\
  best_repair t (length pre) = Some d.
Proof.
  intros Hv Hl Hn t.
  assert (forall b, repair_json_object t (length pre) b = Some (mkRepair (dump float_repr (VDict d)) (length pre + length (dump float_repr (VDict d))))) as Hr.
  { intros b. unfold repair_json_object. assert (drop (length pre) t = dump float_repr (VDict d) ++ post) as -> by (unfold t; by rewrite drop_app_length).
    rewrite loop_object; [done|done|]. unfold t. rewrite !length_app. lia. }
  split; [done|]. unfold best_repair, try_repair. cbn [foldl]. rewrite !Hr. cbn [repaired consumed].
  assert (loads_dict (dump float_repr (VDict d)) = Some d) as ->.
  { unfold loads_dict. rewrite decide_False, Hl; [done|]. by rewrite dump_dict. }
  by destruct (better _ _).
Qed.

(** The worklist counts every value, within its fuel. *)
Lemma count_loop_total fuel : forall pending count, list_sum (value_size <$> pending) < fuel ->
  count_loop fuel pending count = Some (count + list_sum (value_size <$> pending)).
Proof.
  assert (forall v, value_size v = S (list_sum (value_size <$> children v))) as Hsize.
  { intros [| | | | |l| |d|]; try done; cbn; f_equal.
    - induction l as [|x l IH]; [done|]. cbn. by rewrite IH.
    - induction d as [|[k x] d IH]; [done|]. cbn. by rewrite IH. }
  assert (forall l : list nat, list_sum (reverse l) = list_sum l) as Hrev.
  { intros l. induction l as [|x l IHl]; [done|]. rewrite reverse_cons, list_sum_app, IHl. change (list_sum [x]) with (x + 0). change (list_sum (x :: l)) with (x + list_sum l). lia. }
  induction fuel as [|fuel IH]; intros pending count Hn; [lia|]. destruct pending as [|v pending]; [cbn; f_equal; lia|]. cbn [count_loop].
  assert (list_sum (value_size <$> v :: pending) = S (list_sum (value_size <$> children v) + list_sum (value_size <$> pending))) as Hv
    by (rewrite <- plus_Sn_m, <- Hsize; done).
  rewrite Hv in Hn |- *. assert (list_sum (value_size <$> reverse (children v) ++ pending) =
    list_sum (value_size <$> children v) + list_sum (value_size <$> pending)) as Hp by by rewrite fmap_app, fmap_reverse, list_sum_app, Hrev.
  rewrite IH by lia. f_equal. lia.
Qed.

Lemma count_values_size v : count_values v = Some (value_size v).
Proof. unfold count_values. rewrite count_loop_total; cbn; [f_equal; lia|lia]. Qed.

(** ** Instances *)

(** A text without the blanks outside its strings *)
Fixpoint minify (ins esc : bool) (l : text) : text :=
  match l with
  | [] => []
  | c :: l' =>
      if ins then c :: minify (esc || negb (bool_decide (c = quote_char))) (negb esc && bool_decide (c = "\"%char)) l'
      else if is_space c then minify false false l'
      else c :: minify (bool_decide (c = quote_char)) false l'
  end.
Definition demo_decoder : JsonDecoder := {|
  loads t := json_value (of_chars (minify false false t));
  raw_decode t := fst <$> parse (S (length t)) (minify false false t);
|}.
#[local] Existing Instance demo_decoder.

Definition no_floats : Qc -> string := fun _ => "".
Definition demo_report : odict pyval := [("overall_status", VStr "APPROVED"); ("findings", VList [VStr (quotes "a 'b'"); VInt 7; VDict []])].

Lemma undamaged_kept_witness :
  best_repair (chars "The report: " ++ dump no_floats (VDict demo_report) ++ chars " Done. }") 12 = Some demo_report.
Proof. apply (undamaged_kept no_floats demo_report (chars "The report: ") (chars " Done. }")); [vm_compute; reflexivity..|]. apply Nat.leb_le. vm_compute. reflexivity. Defined.

(** A masked string that lost its quote and comma, and an object cut off in a string. *)
Definition masked_text : text := chars (quotes "{'summary': 'Password=***") ++ newline :: chars (quotes " 'status': 'ok'}").
Definition truncated_text : text := chars (quotes "{'a': true, 'b': [1, {'c': 'x").

Lemma repair_sound_witness :
  repair_json_object masked_text 0 false =
    Some (mkRepair (chars (quotes "{'summary': 'Password=***',") ++ newline :: chars (quotes " 'status': 'ok'}")) 42) /\
  closed_object (chars (quotes "{'summary': 'Password=***',") ++ newline :: chars (quotes " 'status': 'ok'}")).
Proof.
  assert (repair_json_object masked_text 0 false =
    Some (mkRepair (chars (quotes "{'summary': 'Password=***',") ++ newline :: chars (quotes " 'status': 'ok'}")) 42)) as E by (vm_compute; reflexivity).
  split; [exact E|]. apply (repair_sound masked_text 0 false _ eq_refl E).
Defined.

Example truncation_cut_back :
  repair_json_object truncated_text 0 false = Some (mkRepair (chars (quotes "{'a': true, 'b': [1, {}]}")) 22) /\
  best_repair truncated_text 0 = Some [("a", VBool true); ("b", VList [VInt 1; VDict []])].
Proof. by vm_compute. Qed.

(** A final number is not kept: more digits of it may be missing. *)
Example final_number_dropped :
  repair_json_object (chars (quotes "{'a': 1, 'score': 7")) 0 false = Some (mkRepair (chars (quotes "{'a': 1}")) 7).
Proof. by vm_compute. Qed.
