(* ===== verification/LlmOutput.v ===== *)
(** * Outputs of a step from the text of a model (engine/llm_output_parsing.py)

    The object in a reply that carries the outputs a step declares, the review report
    that gates the steps after it, and the sentinel format of artifacts.  [json.loads]
    and [raw_decode] are the interface [JsonDecoder].  Objects are values, except that
    the report of a reply under [review] is shared with its copy under
    [review_report], which the normalization of the report writes. *)

From stdpp Require Import pretty.
From Stdlib Require Import Qcanon.
From S2P Require Import Prelude PyStr PyVal Messages CanonicalJson JsonRepair.

(** ** Matchers *)

(** A character of a text, letter case aside. *)
Fixpoint is_prefix_nocase (p l : text) : bool :=
  match p, l with
  | [], _ => true
  | a :: p', b :: l' => bool_decide (lower_char a = lower_char b) && is_prefix_nocase p' l'
  | _ :: _, [] => false
  end.
Definition token (p l : text) : option text := if is_prefix p l then Some (drop (length p) l) else None.
Definition token_nocase (p l : text) : option text := if is_prefix_nocase p l then Some (drop (length p) l) else None.
Definition optional_quote (l : text) : text := match l with c :: l' => if decide (c = quote_char) then l' else l | [] => [] end.

Fixpoint span_while (p : Ascii.ascii -> bool) (l : text) : text * text :=
  match l with
  | [] => ([], [])
  | c :: l' => if p c then let '(a, b) := span_while p l' in (c :: a, b) else ([], l)
  end.

(** ["?name"?\s*[:=]\s*]: what follows *)
Definition assignment (name l : text) : option text :=
  r ← token_nocase name (optional_quote l);
  match lstrip_chars (optional_quote r) with
  | c :: r => if decide (c ∈ [":"; "="]%char) then Some (lstrip_chars r) else None
  | [] => None
  end.

Definition is_status_char (c : Ascii.ascii) : bool :=
  let n := Ascii.nat_of_ascii c in ((65 <=? n) && (n <=? 90)) || ((97 <=? n) && (n <=? 122)) || (n =? 95) || (n =? 45).
Definition match_status (l : text) : option text :=
  r ← assignment (chars "overall_status") l;
  match span_while is_status_char (optional_quote r) with ([], _) => None | (s, _) => Some s end.
Definition match_approved (l : text) : option bool :=
  r ← assignment (chars "approved") l;
  if is_prefix_nocase (chars "true") r then Some true else if is_prefix_nocase (chars "false") r then Some false else None.

(** [re.finditer]: what follows each match; [skip] characters belong to the last one. *)
Fixpoint find_all {A} (matcher : text -> option (A * text)) (skip : nat) (l : text) : list A :=
  match l with
  | [] => []
  | _ :: l' =>
      match skip with
      | S k => find_all matcher k l'
      | 0 =>
          match matcher l with
          | Some (x, r) => x :: find_all matcher (length l - length r - 1) l'
          | None => find_all matcher 0 l'
          end
      end
  end.

Section output.
Context `{!JsonDecoder} (repr : pyval -> string).

(** ** Review reports *)

Definition is_dict (v : option pyval) : option (odict pyval) := match v with Some (VDict d) => Some d | _ => None end.
Definition is_str (v : option pyval) : option string := match v with Some (VStr s) => Some s | _ => None end.

Definition report_from_mapping (mapping : odict pyval) : option (odict pyval) :=
  match is_dict (od_get "review_report" mapping) with
  | Some d => Some d
  | None =>
      match is_dict (od_get "review" mapping) with
      | Some d => Some d
      | None =>
          match is_str (od_get "overall_status" mapping) with
          | Some _ => Some (filter (fun kv => kv.1 ∉ ["raw_response"; "review_report"]) mapping)
          | None => None
          end
      end
  end.

Definition NO_REPORT : nat := 0.
Definition STATUS_ONLY : nat := 1.
Definition FULL_REPORT : nat := 2.
Definition WRAPPED_REPORT : nat := 3.
Definition REPORT_FIELDS : list string := ["quality_score"; "summary"; "findings"; "positive_observations"].

Definition has_report_fields (report : odict pyval) : bool := existsb (fun k => od_mem k report) REPORT_FIELDS.
Definition wrapped_rank (report : odict pyval) : nat := if has_report_fields report then WRAPPED_REPORT else STATUS_ONLY.
Definition report_rank (mapping : odict pyval) : nat :=
  match is_dict (od_get "review_report" mapping) with
  | Some d => wrapped_rank d
  | None =>
      match is_dict (od_get "review" mapping) with
      | Some d => wrapped_rank d
      | None => match is_str (od_get "overall_status" mapping) with
                | Some _ => if has_report_fields mapping then FULL_REPORT else STATUS_ONLY
                | None => NO_REPORT
                end
      end
  end.

(** [_ranked] *)
Definition ranked (mapping : option (odict pyval)) : list (nat * odict pyval) :=
  match mapping with
  | None => []
  | Some mapping =>
      match report_from_mapping mapping with
      | Some report => if decide (report_rank mapping = NO_REPORT) then [] else [(report_rank mapping, report)]
      | None => []
      end
  end.

Definition ARTIFACT_MARKER : text := chars "<<<ARTIFACT review_report>>>".

(** Where a report object may open *)
Definition report_starts (t : text) : list nat :=
  let markers := [Some 0; find FENCE t; rfind FENCE t; S <$> rfind (newline :: ["{"%char]) t; find ARTIFACT_MARKER t] in
  foldl (fun starts at_ => match (i ← at_; (fun n => i + n) <$> find ["{"%char] (drop i t)) with
                           | Some brace => if decide (brace ∈ starts) then starts else starts ++ [brace]
                           | None => starts
                           end) [] markers.

Definition REVIEW_REPORT_KEY : text := chars (quotes "'review_report'").
(** The value of the key at the head of [l], if it is an object: how far away. *)
Definition report_value (l : text) : option nat :=
  r ← token REVIEW_REPORT_KEY l;
  match lstrip_chars r with
  | c :: r => if decide (c = ":"%char)
              then let r := lstrip_chars r in if bool_decide (head r = Some "{"%char) then Some (length l - length r) else None
              else None
  | [] => None
  end.
(** The first position where a matcher succeeds, and its result. *)
Fixpoint search_at {A} (matcher : text -> option A) (index : nat) (l : text) : option (nat * A) :=
  match matcher l with
  | Some x => Some (index, x)
  | None => match l with [] => None | _ :: l' => search_at matcher (S index) l' end
  end.
Definition report_key_starts (t : text) : list nat :=
  let starts := match search_at report_value 0 t with Some (i, n) => [i + n] | None => [] end in
  let at_ := default 0 (rfind REVIEW_REPORT_KEY t) in
  match report_value (drop at_ t) with
  | Some n => if decide (at_ + n ∈ starts) then starts else starts ++ [at_ + n]
  | None => starts
  end.

(** [_ranked_reports] *)
Definition ranked_reports (t : text) : list (nat * odict pyval) :=
  let capped := clip t in
  (extract_json_candidates t ≫= fun c => ranked (loads_dict c)) ++
  (report_starts capped ≫= fun start => ranked (best_repair capped start)) ++
  (report_key_starts capped ≫= fun start => match best_repair capped start with Some r => [(wrapped_rank r, r)] | None => [] end).

(** The loop of [_recover_ranked_report], which leaves at a wrapped report *)
Fixpoint best_ranked {A} (stop : nat) (best : option (nat * A)) (l : list (nat * A)) : option (nat * A) :=
  match l with
  | [] => best
  | x :: l' =>
      if match best with None => true | Some b => b.1 <? x.1 end
      then if stop <=? x.1 then Some x else best_ranked stop (Some x) l'
      else best_ranked stop best l'
  end.
Definition recover_ranked_report (t : text) : option (nat * odict pyval) := best_ranked WRAPPED_REPORT None (ranked_reports t).
Definition recover_review_report (t : text) : option (odict pyval) := snd <$> recover_ranked_report t.

Definition review_report_from_raw_text (t : text) : odict pyval :=
  let raw_status := match search match_status t with
                    | Some s => Some (strip (of_chars s))
                    | None => match search match_approved t with
                              | Some b => Some (if b then "APPROVED" else "NEEDS_FIXES")
                              | None => None
                              end
                    end in
  [("overall_status", VStr (review_value (review_normalize raw_status)))].

(** [ReviewStatus.normalize] of a value: what is neither a string nor [None] has no [strip]. *)
Definition normalize_status (v : pyval) : res ReviewStatus :=
  match v with
  | VStr s => Ok (review_normalize (Some s))
  | VNone => Ok (review_normalize None)
  | _ => Raise (AttributeError "strip")
  end.

Definition finalize_review_report_status (parsed rr : odict pyval) : res (odict pyval) :=
  let rr := match is_str (od_get "overall_status" parsed) with
            | Some s => if od_mem "overall_status" rr then rr else od_set "overall_status" (VStr s) rr
            | None => rr
            end in
  match od_get "overall_status" rr with
  | None =>
      let raw_status := if decide (od_get "approved" rr = Some (VBool true)) then Some "APPROVED" else None in
      Ok (od_set "overall_status" (VStr (review_value (review_normalize raw_status))) rr)
  | Some v => st ← normalize_status v; Ok (od_set "overall_status" (VStr (review_value st)) rr)
  end.

(** [_normalize_review_report_key] *)
Definition normalize_review_report_key (parsed : odict pyval) : res (odict pyval) :=
  let shared := match is_dict (od_get "review_report" parsed), is_dict (od_get "review" parsed) with None, Some _ => true | _, _ => false end in
  let parsed := match shared, od_get "review" parsed with true, Some v => od_set "review_report" v parsed | _, _ => parsed end in
  let rr := od_get "review_report" parsed in
  let rr := match is_str rr with
            | Some s => match recover_review_report (chars s) with
                        | Some (kv :: d) => Some (VDict (kv :: d))
                        | _ => Some (VDict (review_report_from_raw_text (chars s)))
                        end
            | None => rr
            end in
  let rr := match is_dict rr, is_str (od_get "raw_response" parsed) with
            | None, Some s => VDict <$> recover_review_report (chars s)
            | _, _ => rr
            end in
  let rr := match is_dict rr with
            | Some d => d
            | None => match report_from_mapping parsed with
                      | Some d => d
                      | None => review_report_from_raw_text (chars (match od_get "raw_response" parsed with Some v => str_of repr v | None => "" end))
                      end
            end in
  rr ← finalize_review_report_status parsed rr;
  Ok (od_set "review_report" (VDict rr) (if shared then od_set "review" (VDict rr) parsed else parsed)).

Definition compute_missing_keys (parsed : odict pyval) (expected : list string) : list string :=
  filter (fun k => od_mem k parsed = false /\ k ≠ "raw_response") expected.

Definition promote_keys_from_candidate (parsed nested : odict pyval) (missing : list string) : odict pyval * bool :=
  foldl (fun acc key => match od_get key nested with
                        | Some v => if od_mem key acc.1 then acc else (od_set key v acc.1, true)
                        | None => acc
                        end) (parsed, false) missing.

Fixpoint promote_from (parsed : odict pyval) (missing : list string) (candidates : list text) : odict pyval :=
  match candidates with
  | [] => parsed
  | c :: rest =>
      match loads c with
      | Some (VDict nested) =>
          let '(parsed', promoted) := promote_keys_from_candidate parsed nested missing in
          if promoted : bool then parsed' else promote_from parsed missing rest
      | _ => promote_from parsed missing rest
      end
  end.

Definition promote_missing_keys_from_raw (parsed : odict pyval) (expected : list string) : odict pyval :=
  let missing := compute_missing_keys parsed expected in
  match missing, is_str (od_get "raw_response" parsed) with
  | _ :: _, Some raw => promote_from parsed missing (extract_json_candidates (chars raw))
  | _, _ => parsed
  end.

(** Declared keys; [None] is no declaration, and so is the empty list. *)
Definition expects_report (expected : list string) : bool := bool_decide ("review_report" ∈ expected).

Definition normalize_expected_structure (parsed : odict pyval) (expected : list string) : res (odict pyval) :=
  if decide (expected = []) then Ok parsed
  else
    parsed ← (if expects_report expected then normalize_review_report_key parsed else Ok parsed);
    Ok (promote_missing_keys_from_raw parsed expected).

(** ["key"\s*:\s*]: what follows *)
Definition match_key (key l : text) : option (text * text) :=
  r ← token (quote_char :: key ++ [quote_char]) l;
  match lstrip_chars r with
  | c :: r => if decide (c = ":"%char) then Some (lstrip_chars r, lstrip_chars r) else None
  | [] => None
  end.
Fixpoint first_decoded (values : list text) : option pyval :=
  match values with
  | [] => None
  | v :: rest => match raw_decode v with Some x => Some x | None => first_decoded rest end
  end.
Definition salvage_expected_keys_from_jsonish (response : text) (expected : list string) : odict pyval :=
  foldl (fun d key => match first_decoded (find_all (match_key (chars key)) 0 response) with
                      | Some v => od_set key v d
                      | None => d
                      end) [] expected.

(** ** Selection *)

Definition carries_declared_output (parsed : odict pyval) (expected : list string) : bool :=
  existsb (fun k => od_mem k parsed) expected ||
  (expects_report expected && match report_from_mapping parsed with Some _ => true | None => false end).

Definition DECLARED_OUTPUT : nat := STATUS_ONLY.

Definition candidate_rank (parsed : odict pyval) (expected : list string) : nat :=
  if expects_report expected && (FULL_REPORT <=? report_rank parsed) then report_rank parsed
  else if carries_declared_output parsed expected then DECLARED_OUTPUT else NO_REPORT.

(** With no declared keys any object will do. *)
Definition rank_for (expected : list string) (parsed : odict pyval) : nat :=
  if decide (expected = []) then DECLARED_OUTPUT else candidate_rank parsed expected.
Definition top_rank (expected : list string) : nat := if expects_report expected then WRAPPED_REPORT else DECLARED_OUTPUT.

Definition parsed_candidates (t : text) : list (odict pyval) := omap loads_dict (extract_json_candidates t).
Definition select_json_dict (t : text) (expected : list string) : option (odict pyval) :=
  snd <$> best_ranked (top_rank expected) None ((fun p => (rank_for expected p, p)) <$> parsed_candidates t).

Definition parse_json_step_output (t : text) (expected : list string) : res (option (odict pyval)) :=
  match select_json_dict t expected with
  | None => Ok None
  | Some parsed =>
      let parsed :=
        if expects_report expected && (candidate_rank parsed expected <? FULL_REPORT) then
          match recover_ranked_report t with
          | Some (rank, report) =>
              if (FULL_REPORT <=? rank) || negb (carries_declared_output parsed expected)
              then od_set "review_report" (VDict report) parsed else parsed
          | None => parsed
          end
        else parsed in
      d ← normalize_expected_structure parsed expected; Ok (Some d)
  end.

Definition fallback_report (salvaged : option pyval) (response : text) : nat * odict pyval :=
  let salvaged_rank := match is_dict salvaged with Some d => wrapped_rank d | None => NO_REPORT end in
  match is_dict salvaged with
  | Some d =>
      if decide (salvaged_rank = WRAPPED_REPORT) then (salvaged_rank, d)
      else match recover_ranked_report response with
           | Some (rank, report) => if salvaged_rank <? rank then (rank, report) else (salvaged_rank, d)
           | None => (salvaged_rank, d)
           end
  | None => default (NO_REPORT, []) (recover_ranked_report response)
  end.

(** [_salvage_review_report_from_text] *)
Definition salvage_review_report_from_text (response : text) : odict pyval :=
  [("overall_status",
    VStr (match search match_status response with
          | Some s => replace_all " "%char "_"%char (upper (strip (of_chars s)))
          | None => match search match_approved response with
                    | Some b => if b then "APPROVED" else "NEEDS_FIXES"
                    | None => "NEEDS_FIXES"
                    end
          end))].

Definition fallback_status (rank : nat) (report : odict pyval) (response : text) : odict pyval :=
  match is_str (od_get "overall_status" report) with
  | Some status =>
      if (FULL_REPORT <=? rank) && negb (bool_decide (strip status = ""))
      then [("overall_status", VStr (replace_all " "%char "_"%char (upper (strip status))))]
      else salvage_review_report_from_text response
  | None => salvage_review_report_from_text response
  end.

Definition parse_llm_json_output (response : text) (expected : list string) : res (odict pyval) :=
  p ← parse_json_step_output response expected;
  match p with
  | Some parsed => Ok parsed
  | None =>
      let fallback := od_update [("raw_response", VStr (of_chars response))] (salvage_expected_keys_from_jsonish response expected) in
      if expects_report expected then
        let '(rank, report) := fallback_report (od_get "review_report" fallback) response in
        Ok (od_set "review_report" (VDict (od_update report (fallback_status rank report response))) fallback)
      else Ok fallback
  end.

(** ** Sentinels *)

Definition is_word (c : Ascii.ascii) : bool :=
  let n := Ascii.nat_of_ascii c in
  ((48 <=? n) && (n <=? 57)) || ((65 <=? n) && (n <=? 90)) || ((97 <=? n) && (n <=? 122)) || (n =? 95).

Definition OPENING : text := chars "<<<ARTIFACT".
Definition CLOSING : text := chars "<<<ENDARTIFACT>>>".

(** The text up to the first [stop], and what follows it. *)
Fixpoint until (stop l : text) : option (text * text) :=
  if is_prefix stop l then Some ([], drop (length stop) l)
  else match l with [] => None | c :: l' => '(a, r) ← until stop l'; Some (c :: a, r) end.

(** [ARTIFACT_RE] at the head of [l]: the key and the content *)
Definition match_artifact (l : text) : option ((text * text) * text) :=
  r ← token OPENING l;
  let '(spaces, r) := span_while is_space r in
  let '(key, r) := span_while is_word r in
  if decide (spaces = [] \/ key = []) then None
  else
    r ← token (chars ">>>") r;
    '(content, r) ← until CLOSING r;
    Some ((key, content), r).

(** [^ENDFILE\s*$] at the head of [l]; [r] is what follows the word. *)
Definition line_of_blanks (r : text) : bool :=
  let '(spaces, rest) := span_while is_space r in bool_decide (rest = []) || bool_decide (newline ∈ spaces).
(** Where the match ends: at the end of the text, or before the last newline of the blanks. *)
Definition after_blanks (r : text) : text :=
  let '(spaces, rest) := span_while is_space r in
  if decide (rest = []) then [] else drop (default 0 (rfind [newline] spaces)) r.
Definition match_endfile (l : text) : option text :=
  r ← token (chars "ENDFILE") l; if line_of_blanks r then Some (after_blanks r) else None.

(** The lazy content, up to an [ENDFILE] that begins a line; [bol] says whether [l] does. *)
Fixpoint match_content (bol : bool) (l : text) : option (text * text) :=
  match (if bol then match_endfile l else None) with
  | Some r => Some ([], r)
  | None => match l with
            | [] => None
            | c :: l' => '(a, r) ← match_content (bool_decide (c = newline)) l'; Some (c :: a, r)
            end
  end.
(** The lazy path, of one character at least, up to a newline after which the rest matches. *)
Fixpoint match_path (path l : text) : option ((text * text) * text) :=
  match l with
  | [] => None
  | c :: l' =>
      match (if bool_decide (c = newline) && negb (bool_decide (path = [])) then match_content true l' else None) with
      | Some (content, r) => Some ((path, content), r)
      | None => match_path (path ++ [c]) l'
      end
  end.
(** [\s*] takes as many blanks as it can: the suffixes of [l] it may leave, longest match first. *)
Definition after_spaces (l : text) : list text :=
  let n := length (span_while is_space l).1 in (fun k => drop (n - k) l) <$> seq 0 (S n).
Fixpoint first_some {A B} (f : A -> option B) (l : list A) : option B :=
  match l with [] => None | x :: l' => match f x with Some y => Some y | None => first_some f l' end end.
(** [FILE_BLOCK_RE] at the head of a line *)
Definition match_file (l : text) : option ((text * text) * text) :=
  r ← token (chars "FILE:") l; first_some (match_path []) (after_spaces r).

(** [finditer] of a matcher that needs the beginning of a line *)
Fixpoint find_blocks {A} (matcher : text -> option (A * text)) (skip : nat) (bol : bool) (l : text) : list A :=
  match l with
  | [] => []
  | c :: l' =>
      let bol' := bool_decide (c = newline) in
      match skip with
      | S k => find_blocks matcher k bol' l'
      | 0 =>
          match (if bol then matcher l else None) with
          | Some (x, r) => x :: find_blocks matcher (length l - length r - 1) bol' l'
          | None => find_blocks matcher 0 bol' l'
          end
      end
  end.

Definition extract_files_from_artifact (content : text) : odict string :=
  foldl (fun d pc => od_set (of_chars (strip_chars pc.1)) (of_chars pc.2) d) [] (find_blocks match_file 0 true (clip content)).

(** One artifact, added to the result *)
Definition add_artifact (result : odict pyval) (match_ : text * text) : odict pyval :=
  let key := of_chars match_.1 in
  let content := strip_chars match_.2 in
  let as_text :=
    let result := od_set key (VStr (of_chars content)) result in
    match extract_files_from_artifact content with
    | [] => result
    | files => od_set (key +:+ "_files") (VDict ((fun kv => (kv.1, VStr kv.2)) <$> files)) result
    end in
  if bool_decide (head content = Some "{"%char) || bool_decide (head content = Some "["%char) then
    match loads content with Some v => od_set key v result | None => as_text end
  else as_text.

Definition parse_sentinel_output (t : text) (expected : list string) : res (option (odict pyval)) :=
  match find_all match_artifact 0 (clip t) with
  | [] => Ok None
  | matches =>
      let result := foldl add_artifact [] matches in
      if expects_report expected then d ← normalize_expected_structure result expected; Ok (Some d) else Ok (Some result)
  end.
End output.
