(* ===== verification/LlmOutputFacts.v ===== *)
(** * Correctness of the parsing of model output

    The best candidate is selected; an object written in a reply comes back; the review
    report has a status whatever the reply; artifacts and files written in the sentinel
    format come back verbatim. *)

From stdpp Require Import pretty.
From Stdlib Require Import Qcanon.
From S2P Require Import Prelude PyStr PyVal Messages CanonicalJson JsonRepair LlmOutput.

(** ** Selection *)

(** The loop that leaves at the highest rank finds the first of the best. *)
Lemma best_ranked_spec {A} (stop : nat) (l : list (nat * A)) : Forall (fun x => x.1 <= stop) l ->
  forall best, match best with Some b => b.1 < stop | None => True end ->
  match best_ranked stop best l with
  | Some x =>
      (exists pre post, l = pre ++ x :: post /\ Forall (fun y => y.1 < x.1) pre /\ Forall (fun y => y.1 <= x.1) post /\
         match best with Some b => b.1 < x.1 | None => True end) \/
      (best = Some x /\ Forall (fun y => y.1 <= x.1) l)
  | None => best = None /\ l = []
  end.
Proof.
  induction 1 as [|x l Hx Hl IH]; intros best Hb; cbn [best_ranked]; [destruct best; [by right|done]|].
  destruct (match best with None => true | Some b => b.1 <? x.1 end) eqn:E.
  - assert (match best with Some b => b.1 < x.1 | None => True end) as Hbx by (destruct best; [by apply Nat.ltb_lt|done]).
    destruct (Nat.leb_spec stop x.1) as [Hs|Hs].
    + left. exists [], l. split; [done|]. split; [done|]. split; [|done]. eapply Forall_impl; [exact Hl|]. cbn. intros y Hy. lia.
    + specialize (IH (Some x) Hs). destruct (best_ranked stop (Some x) l) as [y|]; [|by destruct IH].
      destruct IH as [(pre & post & -> & Hpre & Hpost & Hxy)|[[= ->] Hle]].
      * left. exists (x :: pre), post. split; [done|]. split; [by constructor|]. split; [done|]. destruct best; [lia|done].
      * left. exists [], l. done.
  - destruct best as [b|]; [|done]. apply Nat.ltb_ge in E. specialize (IH (Some b) Hb). destruct (best_ranked stop (Some b) l) as [y|]; [|by destruct IH].
    destruct IH as [(pre & post & -> & Hpre & Hpost & Hxy)|[[= ->] Hle]].
    + left. exists (x :: pre), post. split; [done|]. split; [constructor; [lia|done]|]. done.
    + right. split; [done|]. by constructor.
Qed.

Section output.
Context `{!JsonDecoder} (repr : pyval -> string).

Lemma wrapped_rank_le d : wrapped_rank d <= WRAPPED_REPORT.
Proof. unfold wrapped_rank, WRAPPED_REPORT, STATUS_ONLY. case_match; lia. Qed.

Lemma report_rank_le d : report_rank d <= WRAPPED_REPORT.
Proof.
  unfold report_rank. repeat case_match; try apply wrapped_rank_le; unfold WRAPPED_REPORT, FULL_REPORT, STATUS_ONLY, NO_REPORT; lia.
Qed.

Lemma rank_for_le expected p : rank_for expected p <= top_rank expected.
Proof.
  unfold rank_for, top_rank, candidate_rank. pose proof (report_rank_le p). unfold WRAPPED_REPORT, FULL_REPORT, DECLARED_OUTPUT, STATUS_ONLY, NO_REPORT in *.
  destruct (expects_report expected); cbn [andb]; repeat case_match; lia.
Qed.

Lemma select_best_spec expected (l : list (odict pyval)) :
  match best_ranked (top_rank expected) None ((fun p => (rank_for expected p, p)) <$> l) with
  | Some (n, p) => n = rank_for expected p /\ exists pre post, l = pre ++ p :: post /\
      Forall (fun q => rank_for expected q < rank_for expected p) pre /\ Forall (fun q => rank_for expected q <= rank_for expected p) post
  | None => l = []
  end.
Proof.
  pose proof (best_ranked_spec (top_rank expected) ((fun p => (rank_for expected p, p)) <$> l)) as Hbest.
  assert (Forall (fun x : nat * odict pyval => x.1 <= top_rank expected) ((fun p => (rank_for expected p, p)) <$> l)) as Hl
    by (apply Forall_fmap, Forall_true; intros p; apply rank_for_le).
  specialize (Hbest Hl None I). destruct (best_ranked _ _ _) as [[n p]|].
  - destruct Hbest as [(pre & post & Hfm & Hpre & Hpost & _)|[? _]]; [|done].
    apply fmap_app_inv in Hfm as (pre' & l2 & -> & Hl2 & ->). symmetry in Hl2. apply fmap_cons_inv in Hl2 as (q & post' & [= -> ->] & -> & ->).
    split; [done|]. exists pre', post'. split; [done|]. rewrite Forall_fmap in Hpre, Hpost. done.
  - destruct Hbest as [_ Hnil]. by apply fmap_nil_inv in Hnil.
Qed.

(** The best candidate is selected.  The object chosen from a reply is the first of
    those that rank highest for the outputs the step declares, among all objects that any
    candidate text of the reply parses to; none is chosen exactly when none parses. *)
Theorem select_best t expected :
  match select_json_dict t expected with
  | Some p => exists pre post, parsed_candidates t = pre ++ p :: post /\
      Forall (fun q => rank_for expected q < rank_for expected p) pre /\ Forall (fun q => rank_for expected q <= rank_for expected p) post
  | None => parsed_candidates t = []
  end.
Proof. unfold select_json_dict. pose proof (select_best_spec expected (parsed_candidates t)) as Hs. destruct (best_ranked _ _ _) as [[n p]|]; [apply Hs|exact Hs]. Qed.

Lemma select_none t expected : select_json_dict t expected = None <-> parsed_candidates t = [].
Proof.
  unfold select_json_dict. split; [|by intros ->]. pose proof (select_best_spec expected (parsed_candidates t)) as Hs. by destruct (best_ranked _ _ _) as [[n p]|].
Qed.

(** ** The review report *)

Lemma od_mem_lookup {V} k (d : odict V) v : od_get k d = Some v -> od_mem k d = true.
Proof. intros Hbest. apply od_mem_spec. by rewrite Hbest. Qed.

(** Promotion overwrites nothing. *)
Lemma promote_keeps k (v : pyval) (nested : odict pyval) missing : forall (parsed : odict pyval) b, od_get k parsed = Some v ->
  od_get k (foldl (fun acc key => match od_get key nested with
                                  | Some v => if od_mem key acc.1 then acc else (od_set key v acc.1, true)
                                  | None => acc
                                  end) (parsed, b) missing).1 = Some v.
Proof.
  induction missing as [|key missing IH]; intros parsed b Hk; [done|]. cbn [foldl]. destruct (od_get key nested) as [x|]; [|by apply IH].
  destruct (od_mem key parsed) eqn:E; cbn; rewrite E; [by apply IH|]. apply IH. rewrite od_get_set_ne; [done|]. intros ->. apply od_mem_lookup in Hk. congruence.
Qed.

Lemma promote_from_keeps k v missing parsed : od_get k parsed = Some v -> forall candidates, od_get k (promote_from parsed missing candidates) = Some v.
Proof.
  intros Hk candidates. induction candidates as [|c rest IH]; [done|]. cbn. repeat case_match; try done.
  pose proof (promote_keeps k v d missing parsed false Hk) as Hp. unfold promote_keys_from_candidate in *. by destruct (foldl _ _ _) as [parsed' []]; simplify_eq.
Qed.

Lemma promote_missing_keeps k v parsed expected : od_get k parsed = Some v -> od_get k (promote_missing_keys_from_raw parsed expected) = Some v.
Proof. intros Hk. unfold promote_missing_keys_from_raw. repeat case_match; try done. by apply promote_from_keeps. Qed.

(** A report whose status is one of the four. *)
Definition gated (d : odict pyval) : Prop :=
  exists rr st, od_get "review_report" d = Some (VDict rr) /\ od_get "overall_status" rr = Some (VStr (review_value st)).

Lemma finalize_status parsed rr : match finalize_review_report_status parsed rr with
  | Ok rr' => exists st, od_get "overall_status" rr' = Some (VStr (review_value st))
  | Raise e => e = AttributeError "strip"
  end.
Proof.
  unfold finalize_review_report_status. set (rr1 := match is_str _ with Some _ => _ | None => _ end). clearbody rr1.
  destruct (od_get "overall_status" rr1) as [v|]; [|eexists; apply od_get_set_eq].
  unfold normalize_status. destruct v; cbn [mbind res_bind]; try done; eexists; apply od_get_set_eq.
Qed.

Lemma od_get_filter_key {V} k (P : string * V -> Prop) `{forall x, Decision (P x)} (d : odict V) : (forall v, P (k, v)) -> od_get k (filter P d) = od_get k d.
Proof.
  intros HP. induction d as [|[k' v] d IH]; [done|]. rewrite filter_cons. cbn [od_get]. case_decide as Hx; cbn [od_get]; rewrite IH; [done|].
  rewrite decide_False; [done|]. intros <-. by apply Hx.
Qed.

Lemma is_dict_Some v d : is_dict v = Some d -> v = Some (VDict d).
Proof. by destruct v as [[]|]; intros [= ->]. Qed.

(** The report an object carries, and the text that decides its status: what the report states,
    else what the object states, else its approval; [None] is no evidence. *)
Definition report_in (p : odict pyval) : option (odict pyval) :=
  match is_dict (od_get "review_report" p) with Some d => Some d | None => is_dict (od_get "review" p) end.
Definition stated (p rr : odict pyval) : option string :=
  match od_get "overall_status" rr with
  | Some v => is_str (Some v)
  | None => match is_str (od_get "overall_status" p) with
            | Some s => Some s
            | None => if decide (od_get "approved" rr = Some (VBool true)) then Some "APPROVED" else None
            end
  end.

Lemma finalize_stated p rr rr' : finalize_review_report_status p rr = Ok rr' ->
  od_get "overall_status" rr' = Some (VStr (review_value (review_normalize (stated p rr)))).
Proof.
  unfold finalize_review_report_status, stated. destruct (od_get "overall_status" rr) as [v|] eqn:E.
  - assert (od_mem "overall_status" rr = true) as -> by (apply od_mem_spec; by rewrite E).
    destruct (is_str (od_get "overall_status" p)); rewrite E; destruct v; cbn; try done; intros [= <-]; apply od_get_set_eq.
  - assert (od_mem "overall_status" rr = false) as -> by (unfold od_mem; rewrite bool_decide_false; [done|]; intros Hin; apply od_get_is_Some in Hin; rewrite E in Hin; by inversion Hin).
    destruct (is_str (od_get "overall_status" p)) as [t|]; [rewrite od_get_set_eq; cbn; intros [= <-]; apply od_get_set_eq|].
    rewrite E. intros [= <-]. rewrite od_get_set_eq. by case_decide.
Qed.

(** The status of a report that is made from an object. *)
Definition decided (p : odict pyval) (st : ReviewStatus) : Prop :=
  (forall rr, report_in p = Some rr -> st = review_normalize (stated p rr)) /\
  (report_in p = None -> is_str (od_get "review_report" p) = None -> od_get "raw_response" p = None ->
   st = review_normalize (is_str (od_get "overall_status" p))).

Lemma normalize_key_decided p d : normalize_review_report_key repr p = Ok d -> exists rr st,
  od_get "review_report" d = Some (VDict rr) /\ od_get "overall_status" rr = Some (VStr (review_value st)) /\ decided p st.
Proof.
  unfold normalize_review_report_key, decided, report_in. cbv zeta.
  match goal with |- context [finalize_review_report_status ?p' ?r] => destruct (finalize_review_report_status p' r) as [rr|] eqn:Ef end; [|done].
  apply finalize_stated in Ef. cbn [mbind res_bind]. intros [= <-].
  eexists rr, _. split; [apply od_get_set_eq|]. split; [exact Ef|]. clear Ef.
  destruct (is_dict (od_get "review_report" p)) as [d|] eqn:E1; [|destruct (is_dict (od_get "review" p)) as [d|] eqn:E2].
  - apply is_dict_Some in E1. rewrite E1. split; [by intros rr0 [= <-] | done].
  - apply is_dict_Some in E2. rewrite E2, od_get_set_eq. split; [|done]. intros rr0 [= <-]. cbn. unfold stated. by rewrite od_get_set_ne.
  - split; [done|]. intros _ Hs Hraw. rewrite Hs, Hraw, E1. cbn [is_str]. rewrite E1. unfold report_from_mapping. rewrite E1, E2.
    destruct (is_str (od_get "overall_status" p)) as [t|] eqn:Et; [|done]. unfold stated. rewrite od_get_filter_key by (intros v; set_solver).
    destruct (od_get "overall_status" p) as [[]|]; try done. cbn in Et |- *. by injection Et as ->.
Qed.

Lemma normalize_gated parsed expected : expects_report expected = true ->
  match normalize_expected_structure repr parsed expected with Ok d => gated d | Raise e => e = AttributeError "strip" end.
Proof.
  intros He. unfold normalize_expected_structure. destruct (decide (expected = [])) as [->|_]; [done|]. rewrite He.
  unfold normalize_review_report_key. cbv zeta. match goal with |- context [finalize_review_report_status ?p ?r] => pose proof (finalize_status p r) as Hf; destruct (finalize_review_report_status p r) as [rr|e] end; [|done].
  destruct Hf as [st Hst]. cbn [mbind res_bind]. exists rr, st. split; [|done]. apply promote_missing_keeps. apply od_get_set_eq.
Qed.

Lemma od_get_update_eq k v (d : odict pyval) : od_get k (od_update d [(k, v)]) = Some v.
Proof. apply od_get_set_eq. Qed.

Lemma NoDup_salvage response expected : NoDup (od_keys (salvage_expected_keys_from_jsonish response expected)).
Proof.
  unfold salvage_expected_keys_from_jsonish. assert (NoDup (od_keys (@nil (string * pyval)))) as Hd by constructor. revert Hd. generalize (@nil (string * pyval)).
  induction expected as [|key expected IH]; intros d Hd; [done|]. cbn [foldl]. apply IH. case_match; [by apply NoDup_od_set|done].
Qed.

(** The last resort: no text of the reply states a status. *)
Lemma salvage_conservative response : search match_status response = None -> search match_approved response = None ->
  salvage_review_report_from_text response = [("overall_status", VStr "NEEDS_FIXES")].
Proof. intros Hs Ha. unfold salvage_review_report_from_text. by rewrite Hs, Ha. Qed.

Lemma parse_llm_states response expected : expects_report expected = true ->
  match parse_llm_json_output repr response expected with
  | Ok d => exists rr s, od_get "review_report" d = Some (VDict rr) /\ od_get "overall_status" rr = Some (VStr s)
  | Raise e => e = AttributeError "strip"
  end.
Proof.
  intros He. unfold parse_llm_json_output, parse_json_step_output. destruct (select_json_dict response expected) as [parsed|].
  - match goal with |- context [normalize_expected_structure repr ?p expected] => pose proof (normalize_gated p expected He) as Hg; destruct (normalize_expected_structure repr p expected) as [d|e] end; cbn; [|done].
    destruct Hg as (rr & st & ? & ?). by exists rr, (review_value st).
  - cbn [mbind res_bind]. rewrite He. destruct (fallback_report _ _) as [rank report].
    assert (exists s, fallback_status rank report response = [("overall_status", VStr s)]) as [s Es].
    { unfold fallback_status, salvage_review_report_from_text. repeat case_match; by eexists. }
    eexists _, s. split; [apply od_get_set_eq|]. rewrite Es. apply od_get_update_eq.
Qed.

Lemma normalize_decided p expected d : expects_report expected = true -> normalize_expected_structure repr p expected = Ok d ->
  exists rr st, od_get "review_report" d = Some (VDict rr) /\ od_get "overall_status" rr = Some (VStr (review_value st)) /\ decided p st.
Proof.
  intros He. unfold normalize_expected_structure. destruct (decide (expected = [])) as [->|_]; [done|]. rewrite He.
  destruct (normalize_review_report_key repr p) as [d'|e] eqn:Ek; [|done]. cbn [mbind res_bind]. intros [= <-].
  destruct (normalize_key_decided p d' Ek) as (rr & st & Hr & Hs & Hd). exists rr, st. split; [by apply promote_missing_keeps | done].
Qed.

(** The object a reply is read from: the selected one, with the report recovered from the
    whole text in place of its own where that ranks higher. *)
Definition read_from (response : text) (expected : list string) (p : odict pyval) : Prop :=
  exists selected, select_json_dict response expected = Some selected /\
    (p = selected \/ exists rank report, recover_ranked_report response = Some (rank, report) /\
       (FULL_REPORT <= rank \/ carries_declared_output selected expected = false) /\ p = od_set "review_report" (VDict report) selected).

Lemma parse_decided response expected : expects_report expected = true ->
  match parse_json_step_output repr response expected with
  | Ok (Some d) => exists p rr st, read_from response expected p /\ od_get "review_report" d = Some (VDict rr) /\
      od_get "overall_status" rr = Some (VStr (review_value st)) /\ decided p st
  | Ok None => parsed_candidates response = []
  | Raise e => e = AttributeError "strip" /\ parsed_candidates response ≠ []
  end.
Proof.
  intros He. unfold parse_json_step_output, read_from. pose proof (select_none response expected) as Hnone.
  destruct (select_json_dict response expected) as [selected|]; [|by apply Hnone].
  match goal with |- context [normalize_expected_structure repr ?q expected] => set (p := q) end. pose proof (normalize_gated p expected He) as Hg.
  destruct (normalize_expected_structure repr p expected) as [d|e] eqn:Ed; cbn; [|split; [done|]; intros Hc; by apply Hnone in Hc].
  destruct (normalize_decided p expected d He Ed) as (rr & st & Hr & Hs & Hd). exists p, rr, st. split; [|done]. exists selected. split; [done|]. subst p.
  destruct (expects_report expected && _); [|by left]. destruct (recover_ranked_report response) as [[rank report]|]; [|by left].
  destruct ((FULL_REPORT <=? rank) || negb (carries_declared_output selected expected)) eqn:Eo; [|by left]. right. exists rank, report.
  split; [done|]. split; [|done]. apply orb_true_iff in Eo as [Eo|Eo]; [left; by apply Nat.leb_le | right; by apply negb_true_iff].
Qed.


(** ** A reply that carries an object *)

Lemma is_prefix_spec p l : is_prefix p l = true <-> exists k, l = p ++ k.
Proof.
  revert l. induction p as [|a p IH]; intros l; [split; [by exists l|done]|]. destruct l as [|b l]; cbn; [split; [done|by intros [? ?]]|].
  rewrite andb_true_iff, bool_decide_eq_true, IH. split; [intros [-> [k ->]]; by exists k|intros [k [= -> ->]]; split; [done|by exists k]].
Qed.

Lemma find_char c pre l : c ∉ pre -> find [c] (pre ++ c :: l) = Some (length pre).
Proof.
  induction pre as [|d pre IH]; cbn; [by rewrite bool_decide_true|]. rewrite not_elem_of_cons. intros [Hd Hc]. rewrite bool_decide_false by done. cbn.
  by rewrite IH.
Qed.

Lemma rfind_none c l : c ∉ l -> rfind [c] l = None.
Proof. induction l as [|d l IH]; [done|]. rewrite not_elem_of_cons. intros [Hd Hc]. cbn. rewrite IH by done. by rewrite bool_decide_false. Qed.

Lemma rfind_char c pre l : c ∉ l -> rfind [c] (pre ++ c :: l) = Some (length pre).
Proof.
  intros Hc. induction pre as [|d pre IH]; cbn; [|by rewrite IH]. rewrite rfind_none by done. by rewrite bool_decide_true.
Qed.

Lemma lstrip_sub l c : c ∈ lstrip_chars l -> c ∈ l.
Proof. induction l as [|d l IH]; [done|]. cbn. destruct (is_space d); [by right; apply IH|done]. Qed.

(** Stripping around a text without blanks at its ends *)
Lemma strip_around pre l post : lstrip_chars l = l -> rstrip_chars l = l -> l ≠ [] ->
  exists pre' post', strip_chars (pre ++ l ++ post) = pre' ++ l ++ post' /\ (forall c, c ∈ pre' -> c ∈ pre) /\ (forall c, c ∈ post' -> c ∈ post).
Proof.
  intros Hl Hr Hne. unfold strip_chars.
  assert (exists pre', lstrip_chars (pre ++ l ++ post) = pre' ++ l ++ post /\ (forall c, c ∈ pre' -> c ∈ pre)) as (pre' & -> & Hpre).
  { destruct (lstrip_chars_app_cases pre (l ++ post)) as [[Hs ->]|[_ ->]]; [|exists (lstrip_chars pre); split; [done|apply lstrip_sub]].
    exists []. split; [|by intros c ?%elem_of_nil]. destruct l as [|c l]; [done|]. cbn in Hl |- *. destruct (is_space c) eqn:E; [|done].
    exfalso. assert (length (lstrip_chars l) <= length l) as Hlen by (clear; induction l as [|d l IH]; cbn; [lia|destruct (is_space d); cbn; lia]).
    rewrite Hl in Hlen. cbn in Hlen. lia. }
  exists pre'. rewrite !reverse_app, <- app_assoc.
  destruct (lstrip_chars_app_cases (reverse post) (reverse l ++ reverse pre')) as [[Hs ->]|[_ ->]].
  - exists []. assert (lstrip_chars (reverse l ++ reverse pre') = reverse l ++ reverse pre') as ->.
    { unfold rstrip_chars in Hr. apply (f_equal reverse) in Hr. rewrite reverse_involutive in Hr. destruct (lstrip_chars_app_cases (reverse l) (reverse pre')) as [[Hs' _]|[_ ->]]; [|by rewrite Hr].
      exfalso. rewrite (lstrip_chars_all_space (reverse l)) in Hr by done. apply Hne. apply (f_equal reverse) in Hr. by rewrite reverse_involutive in Hr. }
    rewrite reverse_app, !reverse_involutive, app_nil_r. split; [done|]. split; [done|]. by intros c ?%elem_of_nil.
  - exists (reverse (lstrip_chars (reverse post))). rewrite !reverse_app, !reverse_involutive, <- app_assoc. split; [done|]. split; [done|].
    intros c Hc. rewrite elem_of_reverse in Hc. apply lstrip_sub in Hc. by rewrite elem_of_reverse in Hc.
Qed.

Lemma unique_head seen x l : x ∉ seen -> unique seen (x :: l) = x :: unique (x :: seen) l.
Proof. intros Hx. cbn. by rewrite decide_False. Qed.

(** The candidates of an object in prose *)
Lemma candidates_object float_repr d pre post : "{"%char ∉ pre -> "}"%char ∉ post ->
  let T := dump float_repr (VDict d) in let raw := strip_chars (pre ++ T ++ post) in
  is_prefix FENCE raw = false -> exists more, extract_json_candidates (pre ++ T ++ post) = unique [] (raw :: T :: more).
Proof.
  intros Hpre Hpost T raw Hf.
  assert (lstrip_chars T = T) as Hl by (unfold T; by rewrite dump_dict).
  assert (rstrip_chars T = T) as Hr.
  { unfold T, rstrip_chars. rewrite dump_dict. change ("{"%char :: separated "," (entry float_repr <$> d) ++ ["}"%char]) with (("{"%char :: separated "," (entry float_repr <$> d)) ++ ["}"%char]).
    rewrite reverse_app. change (lstrip_chars (reverse ["}"%char] ++ ?l)) with ("}"%char :: l). by rewrite reverse_cons, reverse_involutive. }
  assert (T ≠ []) as Hne by (unfold T; by rewrite dump_dict).
  destruct (strip_around pre T post Hl Hr Hne) as (pre' & post' & Hraw & Hpre' & Hpost'). fold raw in Hraw.
  exists (option_list (bracket_span raw "[" "]") ++ fenced_objects (clip raw)). unfold extract_json_candidates. fold raw.
  assert (bracket_span raw "{" "}" = Some T) as ->.
  { unfold bracket_span. rewrite Hraw. unfold T at 1. rewrite dump_dict. cbn [app]. rewrite find_char by naive_solver.
    assert (rfind ["}"%char] (pre' ++ T ++ post') = Some (length pre' + length T - 1)) as Hrf.
    { unfold T. rewrite dump_dict. change ("{"%char :: separated "," (entry float_repr <$> d) ++ ["}"%char]) with (("{"%char :: separated "," (entry float_repr <$> d)) ++ ["}"%char]).
      set (X := "{"%char :: separated "," _). rewrite <- (app_assoc X), (app_assoc pre'). change (["}"%char] ++ post') with ("}"%char :: post').
      rewrite (rfind_char "}") by naive_solver. rewrite !length_app. change (length ["}"%char]) with 1. f_equal. lia. }
    rewrite Hrf. assert (2 <= length T) as HT by (unfold T; rewrite dump_dict; cbn; rewrite length_app; cbn; lia).
    destruct (Nat.ltb_spec (length pre') (length pre' + length T - 1)) as [_|?]; [|lia].
    rewrite drop_app_length. replace (length pre' + length T - 1 + 1 - length pre') with (length T) by lia. rewrite take_app_length.
    assert (strip_chars T = T) as -> by (unfold strip_chars; rewrite Hl; exact Hr). by rewrite decide_False. }
  unfold strip_outer_fence. rewrite Hf. cbn [negb option_list app]. destruct (decide (raw = [])) as [E|_]; [|done].
  rewrite E in Hraw. by destruct pre', T.
Qed.

Lemma omap_step {A B} (f : A -> option B) x l : omap f (x :: l) = match f x with Some y => y :: omap f l | None => omap f l end.
Proof. done. Qed.

(** An object in a reply is what the step gets.  When a reply is one JSON object that
    ranks highest for the declared outputs, with any prose without braces around it, it
    is the object that is parsed and normalised; and it comes back as it is unless it
    wraps a raw response or a report is declared. *)
Theorem object_recovered float_repr d pre post expected :
  "{"%char ∉ pre -> "}"%char ∉ post ->
  let T := dump float_repr (VDict d) in let t := pre ++ T ++ post in
  loads T = Some (VDict d) -> is_prefix FENCE (strip_chars t) = false -> strip_chars t = T \/ loads_dict (strip_chars t) = None ->
  rank_for expected d = top_rank expected ->
  parse_llm_json_output repr t expected = normalize_expected_structure repr d expected /\
  (expects_report expected = false -> od_get "raw_response" d = None -> parse_llm_json_output repr t expected = Ok d).
Proof.
  intros Hpre Hpost T t Hloads Hf Hwhole Hrank.
  assert (loads_dict T = Some d) as HT by (unfold loads_dict; rewrite decide_False, Hloads; [done|by unfold T; rewrite dump_dict]).
  assert (exists more, parsed_candidates t = d :: more) as [more Hmore].
  { destruct (candidates_object float_repr d pre post Hpre Hpost Hf) as [more Hc]. unfold parsed_candidates. fold T t in Hc. rewrite Hc. rewrite unique_head by apply not_elem_of_nil.
    destruct (decide (strip_chars t = T)) as [E|E]; [rewrite omap_step, E, HT; by eexists|]. destruct Hwhole as [?|Hn]; [done|].
    rewrite unique_head by (rewrite list_elem_of_singleton; congruence). rewrite !omap_step, Hn, HT. by eexists. }
  assert (select_json_dict t expected = Some d) as Hsel.
  { unfold select_json_dict. rewrite Hmore, fmap_cons. cbn [best_ranked fst]. rewrite Hrank, Nat.leb_refl. done. }
  assert (parse_llm_json_output repr t expected = normalize_expected_structure repr d expected) as Hparse.
  { unfold parse_llm_json_output, parse_json_step_output. rewrite Hsel.
    assert (expects_report expected && (candidate_rank d expected <? FULL_REPORT) = false) as ->.
    { destruct (expects_report expected) eqn:E; [|done]. unfold rank_for, top_rank in Hrank. rewrite E in Hrank.
      destruct (decide (expected = [])) as [->|]; [done|]. rewrite Hrank. done. }
    by destruct (normalize_expected_structure repr d expected). }
  split; [done|]. intros He Hraw. rewrite Hparse. unfold normalize_expected_structure. case_decide; [done|]. rewrite He. cbn [mbind res_bind].
  unfold promote_missing_keys_from_raw. rewrite Hraw. by destruct (compute_missing_keys d expected).
Qed.
End output.

(** ** Artifacts between sentinels *)

(** [p] stands somewhere in [l]. *)
Definition occurs (p l : text) : Prop := exists a b, l = a ++ p ++ b.

(** A word no proper end of which begins it again *)
Definition borderless (p : text) : Prop := forall i, 0 < i < length p -> is_prefix (drop i p) p = false.

Lemma occurs_cons p c l : occurs p l -> occurs p (c :: l).
Proof. intros (a & b & ->). by exists (c :: a), b. Qed.

(** Such a word does not begin before its place. *)
Lemma not_before p s r : borderless p -> s ≠ [] -> ~ occurs p s -> is_prefix p (s ++ p ++ r) = false.
Proof.
  intros Hp Hs Hocc. destruct (is_prefix p (s ++ p ++ r)) eqn:E; [exfalso|done]. apply is_prefix_spec in E as [k Hk].
  destruct (Nat.le_gt_cases (length p) (length s)) as [Hl|Hl].
  - apply (f_equal (take (length p))) in Hk. rewrite take_app_length, take_app_le in Hk by done.
    apply Hocc. exists [], (drop (length p) s). cbn. rewrite <- Hk at 1. by rewrite take_drop.
  - assert (0 < length s < length p) as Hi by (destruct s; [done|cbn in *; lia]). specialize (Hp (length s) Hi).
    apply (f_equal (drop (length s))) in Hk. rewrite drop_app_length, (drop_app_le p k) in Hk by lia.
    assert (is_prefix (drop (length s) p) p = true) as Hpre; [|congruence]. apply is_prefix_spec.
    exists (drop (length (drop (length s) p)) p). apply (f_equal (take (length (drop (length s) p)))) in Hk.
    rewrite (take_app_length (drop (length s) p)) in Hk. rewrite take_app_le in Hk by (rewrite length_drop; lia). rewrite <- Hk at 1. by rewrite take_drop.
Qed.

Lemma until_stop stop content r : borderless stop -> stop ≠ [] -> ~ occurs stop content -> until stop (content ++ stop ++ r) = Some (content, r).
Proof.
  intros Hb Hne Hocc. induction content as [|c content IH].
  - cbn [app]. destruct (stop ++ r) eqn:E; [by destruct stop|]. rewrite <- E. assert (is_prefix stop (stop ++ r) = true) as Hp by (apply is_prefix_spec; by eexists).
    rewrite E in *. cbn [until]. rewrite Hp, <- E. by rewrite drop_app_length.
  - cbn [app until]. change (c :: content ++ stop ++ r) with ((c :: content) ++ stop ++ r). rewrite not_before by done. cbn [app].
    rewrite IH; [done|]. intros Ho. by apply Hocc, occurs_cons.
Qed.

Lemma OPENING_borderless : borderless OPENING.
Proof. intros i Hi. assert (i < 11) by (cbn in Hi; lia). do 11 (destruct i as [|i]; [by vm_compute in Hi |- *; lia || reflexivity|]). lia. Qed.
Lemma CLOSING_borderless : borderless CLOSING.
Proof. intros i Hi. assert (i < 17) by (cbn in Hi; lia). do 17 (destruct i as [|i]; [by vm_compute in Hi |- *; lia || reflexivity|]). lia. Qed.

Lemma span_while_app p a b : Forall (fun c => p c = true) a -> match b with [] => True | c :: _ => p c = false end -> span_while p (a ++ b) = (a, b).
Proof.
  intros Ha Hb. induction Ha as [|c a Hc _ IH]; cbn; [|by rewrite Hc, IH]. destruct b as [|c b]; [done|]. cbn. by rewrite Hb.
Qed.

Lemma token_app p l : token p (p ++ l) = Some l.
Proof. unfold token. assert (is_prefix p (p ++ l) = true) as -> by (apply is_prefix_spec; by eexists). by rewrite drop_app_length. Qed.

Lemma find_all_skip {A} (m : text -> option (A * text)) u r : find_all m (length u) (u ++ r) = find_all m 0 r.
Proof. induction u as [|c u IH]; [done|exact IH]. Qed.

Lemma find_all_match {A} (m : text -> option (A * text)) u r x : u ≠ [] -> m (u ++ r) = Some (x, r) -> find_all m 0 (u ++ r) = x :: find_all m 0 r.
Proof.
  intros Hu Hm. destruct u as [|c u]; [done|]. cbn [app find_all] in *. rewrite Hm. f_equal. rewrite <- (find_all_skip m u r). f_equal.
  cbn [length]. rewrite length_app. lia.
Qed.

(** An artifact as a model writes it *)
Definition artifact_text (key content : text) : text := OPENING ++ " "%char :: key ++ chars ">>>" ++ content ++ CLOSING.
Record Block := mkBlock { prose : text; block_key : text; block_content : text }.
Definition render (blocks : list Block) (tail : text) : text :=
  foldr (fun b t => prose b ++ artifact_text (block_key b) (block_content b) ++ t) tail blocks.
Definition block_ok (b : Block) : Prop :=
  ~ occurs OPENING (prose b) /\ block_key b ≠ [] /\ Forall (fun c => is_word c = true) (block_key b) /\ ~ occurs CLOSING (block_content b).

Lemma word_not_space c : is_word c = true -> is_space c = false.
Proof. intros Hc. by destruct c as [[] [] [] [] [] [] [] []]; vm_compute in Hc |- *. Qed.

Lemma match_artifact_text key content r : key ≠ [] -> Forall (fun c => is_word c = true) key -> ~ occurs CLOSING content ->
  match_artifact (artifact_text key content ++ r) = Some ((key, content), r).
Proof.
  intros Hk Hw Hc. unfold match_artifact, artifact_text. rewrite <- app_assoc, token_app. cbn [mbind option_bind].
  change ((" "%char :: key ++ chars ">>>" ++ content ++ CLOSING) ++ r) with ([" "%char] ++ (key ++ chars ">>>" ++ content ++ CLOSING) ++ r).
  rewrite <- !app_assoc. rewrite (span_while_app is_space [" "%char]); [|by constructor|by destruct key; [|apply Forall_cons in Hw as [Hw _]; apply word_not_space]].
  rewrite (span_while_app is_word key); [|done|done]. rewrite decide_False by naive_solver. rewrite token_app. cbn [mbind option_bind].
  by rewrite until_stop by (done || apply CLOSING_borderless).
Qed.

Lemma token_no_prefix p l : is_prefix p l = false -> token p l = None.
Proof. unfold token. by intros ->. Qed.

Lemma match_artifact_none l : is_prefix OPENING l = false -> match_artifact l = None.
Proof. intros Hl. unfold match_artifact. by rewrite token_no_prefix. Qed.

Lemma find_artifacts_prose s l : ~ occurs OPENING s -> (exists r, l = OPENING ++ r) \/ l = [] ->
  find_all match_artifact 0 (s ++ l) = find_all match_artifact 0 l.
Proof.
  intros Hs Hl. induction s as [|c s IH]; [done|]. cbn [app find_all].
  assert (is_prefix OPENING (c :: s ++ l) = false) as Hp.
  { destruct Hl as [[r ->]| ->]; [apply (not_before OPENING (c :: s)); [apply OPENING_borderless|done|done]|].
    rewrite app_nil_r. destruct (is_prefix OPENING (c :: s)) eqn:E; [|done]. apply is_prefix_spec in E as [k Hk]. exfalso. apply Hs. by exists [], k. }
  rewrite match_artifact_none by done. apply IH. intros Ho. by apply Hs, occurs_cons.
Qed.

Lemma find_artifacts_render blocks tail : Forall block_ok blocks -> ~ occurs OPENING tail ->
  find_all match_artifact 0 (render blocks tail) = (fun b => (block_key b, block_content b)) <$> blocks.
Proof.
  intros Hb Ht. induction Hb as [|b blocks (Hp & Hk & Hw & Hc) _ IH]; cbn [render foldr].
  - rewrite <- (app_nil_r tail), find_artifacts_prose; [done|done|by right].
  - fold (render blocks tail). unfold artifact_text at 1. rewrite find_artifacts_prose; [|done|left; rewrite <- app_assoc; by eexists].
    rewrite (find_all_match _ (artifact_text (block_key b) (block_content b)) (render blocks tail) (block_key b, block_content b)); [|done|by apply match_artifact_text].
    by rewrite fmap_cons, <- IH.
Qed.

Section sentinel.
Context `{!JsonDecoder} (repr : pyval -> string).

(** What an artifact stands for: JSON if it looks and reads like it, else its text. *)
Definition artifact_value (content : text) : pyval :=
  let content := strip_chars content in
  if bool_decide (head content = Some "{"%char) || bool_decide (head content = Some "["%char)
  then default (VStr (of_chars content)) (loads content) else VStr (of_chars content).

Lemma files_key_ne (k : string) : k ≠ k +:+ "_files".
Proof. intros E. apply (f_equal String.length) in E. rewrite length_append in E. cbn in E. lia. Qed.

Lemma add_artifact_own result key content : od_get (of_chars key) (add_artifact result (key, content)) = Some (artifact_value content).
Proof.
  unfold add_artifact, artifact_value. cbn [fst snd].
  assert (od_get (of_chars key) (match extract_files_from_artifact (strip_chars content) with
    | [] => od_set (of_chars key) (VStr (of_chars (strip_chars content))) result
    | files => od_set (of_chars key +:+ "_files") (VDict ((fun kv => (kv.1, VStr kv.2)) <$> files)) (od_set (of_chars key) (VStr (of_chars (strip_chars content))) result)
    end) = Some (VStr (of_chars (strip_chars content)))) as Htext.
  { destruct (extract_files_from_artifact _); [apply od_get_set_eq|]. rewrite od_get_set_ne by apply files_key_ne. apply od_get_set_eq. }
  destruct (bool_decide _ || bool_decide _); [|exact Htext]. destruct (loads _); [apply od_get_set_eq|exact Htext].
Qed.

Lemma add_artifact_other result key content k : k ≠ of_chars key -> k ≠ of_chars key +:+ "_files" ->
  od_get k (add_artifact result (key, content)) = od_get k result.
Proof.
  intros Hk Hf. unfold add_artifact. cbn [fst snd]. repeat case_match; rewrite ?od_get_set_ne by done; done.
Qed.

(** No key is that of the files of an artifact. *)
Definition keys_apart (keys : list text) : Prop := NoDup keys /\ forall k k', k ∈ keys -> k' ∈ keys -> of_chars k' ≠ of_chars k +:+ "_files".

Lemma add_artifacts_get (l : list (text * text)) : keys_apart l.*1 -> forall result key content, (key, content) ∈ l ->
  od_get (of_chars key) (foldl add_artifact result l) = Some (artifact_value content).
Proof.
  intros [Hnd Hap]. induction l as [|[k c] l IH] using rev_ind; intros result key content; [by rewrite elem_of_nil|].
  rewrite foldl_app, elem_of_app, list_elem_of_singleton. cbn [foldl]. rewrite fmap_app in *. cbn in Hnd, Hap. apply NoDup_app in Hnd as (Hnd & Hne & _).
  intros [Hin|[= -> ->]]; [|apply add_artifact_own].
  assert (key ∈ l.*1) as Hkey by (apply list_elem_of_fmap; by exists (key, content)).
  rewrite add_artifact_other; [apply IH; [done| |done]|intros E; apply of_chars_inj in E as ->; by apply (Hne k Hkey); left|].
  - intros k1 k2 H1 H2. apply Hap; by apply elem_of_app; left.
  - apply Hap; apply elem_of_app; [right; by left|by left].
Qed.

(** C21. Artifacts come back.  Take a reply of at least one artifact between sentinels, of
    a length that the parser does not cut: the prose around them has no opening sentinel,
    no content has a closing one, the keys are words, distinct, and none is another's with
    [_files] appended; and the step expects no review report.  It is parsed to a value
    for every key: the JSON value of the content if it looks and reads like JSON, and else
    its text, verbatim up to the blanks around it. *)
Theorem artifacts_roundtrip blocks tail expected :
  Forall block_ok blocks -> blocks ≠ [] -> ~ occurs OPENING tail -> keys_apart (block_key <$> blocks) ->
  length (render blocks tail) <= N.to_nat MAX_SENTINEL_INPUT_LEN -> expects_report expected = false ->
  exists result, parse_sentinel_output repr (render blocks tail) expected = Ok (Some result) /\
    Forall (fun b => od_get (of_chars (block_key b)) result = Some (artifact_value (block_content b))) blocks.
Proof.
  intros Hb Hne Ht Hk Hn He. exists (foldl add_artifact [] ((fun b => (block_key b, block_content b)) <$> blocks)). split.
  - unfold parse_sentinel_output, clip. rewrite take_ge by done. rewrite find_artifacts_render by done. destruct blocks as [|b blocks]; [done|].
    rewrite fmap_cons. by rewrite He.
  - rewrite Forall_forall. intros b Hin. apply add_artifacts_get; [by rewrite <- list_fmap_compose|]. apply list_elem_of_fmap. by exists b.
Qed.
End sentinel.

(** ** Files inside an artifact *)

Definition ENDFILE : text := chars "ENDFILE".
Definition file_text (path content : text) : text := chars "FILE: " ++ path ++ newline :: content ++ ENDFILE ++ [newline].
Definition render_files (files : list (text * text)) : text := files ≫= fun pc => file_text pc.1 pc.2.

(** No line of [content] begins with the closing word; [bol] says whether its first line
    begins with [content]. *)
Definition clean (bol : bool) (content : text) : Prop :=
  forall a b, content = a ++ ENDFILE ++ b -> (a = [] -> bol = false) /\ (a ≠ [] -> last a ≠ Some newline).
Definition file_ok (pc : text * text) : Prop :=
  (pc.1 ≠ [] /\ newline ∉ pc.1 /\ strip_chars pc.1 = pc.1 /\ lstrip_chars pc.1 = pc.1) /\
  (pc.2 = [] \/ last pc.2 = Some newline) /\ clean true pc.2.

Lemma endfile_not_prefix c content r : clean true (c :: content) -> last (c :: content) = Some newline -> is_prefix ENDFILE ((c :: content) ++ r) = false.
Proof.
  intros Hc Hl. destruct (is_prefix ENDFILE ((c :: content) ++ r)) eqn:E; [exfalso|done]. apply is_prefix_spec in E as [k Hk]. set (l := c :: content) in *.
  destruct (Nat.le_gt_cases (length ENDFILE) (length l)) as [Hn|Hn].
  - apply (f_equal (take (length ENDFILE))) in Hk. rewrite take_app_length, take_app_le in Hk by done.
    destruct (Hc [] (drop (length ENDFILE) l)) as [H _]; [|by specialize (H eq_refl)]. cbn [app]. rewrite <- Hk at 1. by rewrite take_drop.
  - apply (f_equal (take (length l))) in Hk. rewrite take_app_length, take_app_le in Hk by lia.
    assert (newline ∈ ENDFILE) as Hin; [|by apply (bool_decide_eq_true_2 _) in Hin].
    rewrite <- (take_drop (length l) ENDFILE), <- Hk. apply elem_of_app. left. apply last_Some in Hl as [l' ->]. apply elem_of_app. right. by left.
Qed.

Lemma match_content_text r : forall content bol, clean bol content -> (content = [] -> bol = true) -> (content = [] \/ last content = Some newline) ->
  match_content bol (content ++ ENDFILE ++ newline :: r) = Some (content, after_blanks (newline :: r)).
Proof.
  induction content as [|c content IH]; intros bol Hc Hb Hl.
  - rewrite Hb by done. cbn [app]. destruct (ENDFILE ++ newline :: r) as [|d l] eqn:E; [done|]. cbn [match_content]. rewrite <- E. unfold match_endfile.
    change (chars "ENDFILE") with ENDFILE. rewrite token_app. cbn [mbind option_bind].
    assert (line_of_blanks (newline :: r) = true) as ->; [|done]. unfold line_of_blanks. cbn. destruct (span_while is_space r) as [a b].
    apply orb_true_iff. right. apply bool_decide_eq_true. by left.
  - destruct Hl as [|Hl]; [done|]. cbn [app match_content].
    assert ((if bol then match_endfile (c :: content ++ ENDFILE ++ newline :: r) else None) = None) as ->.
    { destruct bol; [|done]. unfold match_endfile. rewrite token_no_prefix; [done|]. by apply (endfile_not_prefix c content). }
    rewrite IH; [done| | |].
    + intros a b ->. destruct (Hc (c :: a) b eq_refl) as [_ H]. specialize (H ltac:(done)). split.
      * intros ->. cbn in H. apply bool_decide_eq_false. congruence.
      * intros Ha. destruct a; [done|]. by rewrite last_cons_cons in H.
    + intros ->. cbn in Hl. injection Hl as ->. by apply bool_decide_eq_true.
    + destruct content; [by left|right]. by rewrite last_cons_cons in Hl.
Qed.

Lemma match_path_text content r : clean true content -> (content = [] \/ last content = Some newline) -> forall path acc, newline ∉ path -> acc ++ path ≠ [] ->
  match_path acc (path ++ newline :: content ++ ENDFILE ++ newline :: r) = Some ((acc ++ path, content), after_blanks (newline :: r)).
Proof.
  intros Hc Hl path. induction path as [|c path IH]; intros acc Hp Hne.
  - rewrite app_nil_r in *. cbn [app match_path]. rewrite bool_decide_true, bool_decide_false by done. cbn [andb negb]. by rewrite match_content_text.
  - apply not_elem_of_cons in Hp as [Hcn Hp]. cbn [app match_path]. rewrite bool_decide_false by congruence. cbn [andb].
    rewrite IH; [by rewrite <- app_assoc|done|]. by destruct acc.
Qed.

(** What follows is nothing, or another file. *)
Definition next_file (r : text) : Prop := match r with [] => True | c :: _ => is_space c = false end.

Lemma after_blanks_next r : next_file r -> after_blanks (newline :: r) = match r with [] => [] | _ => newline :: r end.
Proof.
  intros Hr. unfold after_blanks. change (newline :: r) with ([newline] ++ r) at 1. rewrite (span_while_app is_space [newline] r); [|by constructor|by destruct r].
  by destruct r.
Qed.

Lemma match_file_text path content r : file_ok (path, content) -> next_file r ->
  match_file (file_text path content ++ r) = Some ((path, content), match r with [] => [] | _ => newline :: r end).
Proof.
  intros ((Hne & Hnl & _ & Hl) & Hend & Hc) Hr. cbn [fst snd] in *. unfold match_file, file_text.
  change (chars "FILE: ") with (chars "FILE:" ++ [" "%char]). rewrite <- !app_assoc, token_app. cbn [mbind option_bind].
  unfold after_spaces. rewrite (span_while_app is_space [" "%char]); [|by constructor|]; cycle 1.
  { destruct path as [|c path]; [done|]. cbn in Hl |- *. destruct (is_space c) eqn:E; [|done]. exfalso.
    assert (length (lstrip_chars path) <= length path) as Hlen by (clear; induction path as [|d l IH]; cbn; [lia|destruct (is_space d); cbn; lia]).
    rewrite Hl in Hlen. cbn in Hlen. lia. }
  assert ((newline :: content ++ ENDFILE ++ [newline]) ++ r = newline :: content ++ ENDFILE ++ newline :: r) as -> by (cbn [app]; by rewrite <- !app_assoc).
  cbn [fst length seq fmap list_fmap first_some Nat.sub].
  change (drop 1 ([" "%char] ++ ?l)) with l. rewrite match_path_text by done. by rewrite after_blanks_next.
Qed.

Lemma find_blocks_skip {A} (m : text -> option (A * text)) u r : forall bol,
  find_blocks m (length u) bol (u ++ r) = find_blocks m 0 (match last u with Some c => bool_decide (c = newline) | None => bol end) r.
Proof.
  induction u as [|c u IH]; intros bol; [done|]. cbn [length app find_blocks]. rewrite IH. destruct u as [|d u]; [done|]. rewrite last_cons_cons.
  destruct (last (d :: u)) eqn:E; [done|]. by apply last_None in E.
Qed.

Lemma find_blocks_match {A} (m : text -> option (A * text)) c l x r : m (c :: l) = Some (x, r) ->
  find_blocks m 0 true (c :: l) = x :: find_blocks m (length (c :: l) - length r - 1) (bool_decide (c = newline)) l.
Proof. intros Hm. cbn [find_blocks]. by rewrite Hm. Qed.

Lemma find_files files : Forall file_ok files -> find_blocks match_file 0 true (render_files files) = files.
Proof.
  induction 1 as [|[path content] files Hf _ IH]; [done|]. unfold render_files in *. rewrite bind_cons. cbn [fst snd]. set (r := files ≫= _) in *.
  assert (next_file r) as Hr by (unfold r; destruct files as [|[p c] files]; [done|]; done).
  pose proof (match_file_text path content r Hf Hr) as Hm.
  set (u := chars "ILE: " ++ path ++ newline :: content ++ ENDFILE).
  assert (forall k, file_text path content ++ k = "F"%char :: u ++ newline :: k) as Hu.
  { intros k. unfold file_text, u. change (chars "FILE: ") with ("F"%char :: chars "ILE: "). rewrite <- !app_assoc. cbn [app]. by rewrite <- !app_assoc. }
  rewrite Hu in *. rewrite (find_blocks_match _ _ _ _ _ Hm). f_equal. destruct r as [|d r'] eqn:Er.
  - rewrite <- IH. pose proof (find_blocks_skip match_file (u ++ [newline]) [] (bool_decide ("F"%char = newline))) as Hs. rewrite app_nil_r in Hs.
    replace (length ("F"%char :: u ++ [newline]) - length (@nil Ascii.ascii) - 1) with (length (u ++ [newline])) by (cbn [length]; lia). rewrite Hs. done.
  - replace (length ("F"%char :: u ++ newline :: d :: r') - length (newline :: d :: r') - 1) with (length u) by (cbn [length]; rewrite length_app; cbn [length]; lia).
    rewrite find_blocks_skip. set (b := match last u with Some _ => _ | None => _ end).
    assert (find_blocks match_file 0 b (newline :: d :: r') = find_blocks match_file 0 true (d :: r')) as ->; [|exact IH]. by destruct b.
Qed.

(** Files come back.  Files written between FILE and ENDFILE lines, with trimmed
    one-line paths and contents of whole lines none of which begins with ENDFILE, are
    extracted under their paths, in order and byte for byte. *)
Theorem files_roundtrip files : Forall file_ok files -> NoDup files.*1 ->
  length (render_files files) <= N.to_nat MAX_SENTINEL_INPUT_LEN ->
  extract_files_from_artifact (render_files files) = (fun pc => (of_chars pc.1, of_chars pc.2)) <$> files.
Proof.
  intros Hf Hnd Hn. unfold extract_files_from_artifact, clip. rewrite take_ge by done. rewrite find_files by done.
  enough (forall d : odict string, (forall pc, pc ∈ files -> of_chars pc.1 ∉ od_keys d) ->
    foldl (fun d pc => od_set (of_chars (strip_chars pc.1)) (of_chars pc.2) d) d files = d ++ ((fun pc => (of_chars pc.1, of_chars pc.2)) <$> files)) as H
    by (rewrite H; [done|]; intros pc _; apply not_elem_of_nil).
  clear Hn. induction Hf as [|[p c] files (Hok & _) Hf IH]; intros d Hd; [by rewrite app_nil_r|]. rewrite fmap_cons in Hnd. apply NoDup_cons in Hnd as [Hp Hnd].
  cbn [foldl fst snd] in *. destruct Hok as (_ & _ & -> & _).
  assert (od_set (of_chars p) (of_chars c) d = d ++ [(of_chars p, of_chars c)]) as ->.
  { specialize (Hd (p, c) ltac:(by left)). cbn in Hd. clear -Hd. unfold od_keys in Hd. induction d as [|[k v] d IH]; [done|]. rewrite fmap_cons, not_elem_of_cons in Hd.
    cbn in Hd |- *. rewrite decide_False by tauto. by rewrite IH by tauto. }
  rewrite IH; [by rewrite fmap_cons, <- app_assoc|done|]. intros [p' c'] Hin. unfold od_keys. rewrite fmap_app, elem_of_app. intros [Hin'|Hin'].
  - by apply (Hd (p', c')); [right|].
  - cbn in Hin'. apply list_elem_of_singleton, of_chars_inj in Hin' as ->. apply Hp. apply list_elem_of_fmap. by exists (p, c').
Qed.

(** ** Instances *)

Section demo.
#[local] Existing Instance demo_decoder.
Definition repr_demo (v : pyval) : string := "".
Definition wrapped_demo : odict pyval := [("review_report", VDict [("overall_status", VStr "approved with notes"); ("summary", VStr "fine")])].


Lemma object_recovered_witness :
  parse_llm_json_output repr_demo (chars "Here it is: " ++ dump no_floats (VDict demo_report) ++ chars ". Bye.") ["findings"] = Ok demo_report.
Proof.
  apply (object_recovered repr_demo no_floats demo_report (chars "Here it is: ") (chars ". Bye.") ["findings"]);
    [apply (bool_decide_eq_true_1 _); vm_compute; reflexivity..|vm_compute; reflexivity|vm_compute; reflexivity|right; vm_compute; reflexivity|vm_compute; reflexivity|vm_compute; reflexivity|vm_compute; reflexivity].
Defined.

Definition demo_files : list (text * text) :=
  [(chars "src/a.py", chars "x = 1" ++ [newline] ++ chars "  ENDFILE" ++ [newline]); (chars "b c.txt", [])].

Lemma clean_check content : forallb (fun i => negb (is_prefix ENDFILE (drop i content)) || (negb (i =? 0) && negb (bool_decide (content !! (i - 1) = Some newline)))) (seq 0 (S (length content))) = true ->
  clean true content.
Proof.
  intros H a b ->. rewrite forallb_forall in H. specialize (H (length a)). rewrite length_app in H. specialize (H ltac:(apply in_seq; lia)).
  rewrite drop_app_length in H. assert (is_prefix ENDFILE (ENDFILE ++ b) = true) as Hp by (apply is_prefix_spec; by eexists). rewrite Hp in H. cbn [negb orb] in H.
  apply andb_true_iff in H as [Ha Hl]. split; [by intros ->|]. intros Hne Hlast. apply last_Some in Hlast as [a' ->].
  rewrite length_app in Hl. cbn [length] in Hl. replace (length a' + 1 - 1) with (length a') in Hl by lia. rewrite <- app_assoc, lookup_app_r, Nat.sub_diag in Hl by lia. cbn in Hl.
  by rewrite bool_decide_true in Hl.
Qed.

Lemma file_ok_check path content :
  bool_decide (path ≠ [] /\ newline ∉ path /\ strip_chars path = path /\ lstrip_chars path = path /\ (content = [] \/ last content = Some newline)) = true ->
  forallb (fun i => negb (is_prefix ENDFILE (drop i content)) || (negb (i =? 0) && negb (bool_decide (content !! (i - 1) = Some newline)))) (seq 0 (S (length content))) = true ->
  file_ok (path, content).
Proof. intros H%bool_decide_eq_true_1 Hc%clean_check. by destruct H as (? & ? & ? & ? & ?). Qed.

Lemma files_roundtrip_witness :
  extract_files_from_artifact (render_files demo_files) = [("src/a.py", of_chars (chars "x = 1" ++ [newline] ++ chars "  ENDFILE" ++ [newline])); ("b c.txt", "")].
Proof.
  apply (files_roundtrip demo_files).
  - apply Forall_cons_2; [|apply Forall_cons_2; [|apply Forall_nil_2]]; apply file_ok_check; vm_compute; reflexivity.
  - apply (bool_decide_eq_true_1 _). vm_compute. reflexivity.
  - apply Nat.leb_le. vm_compute. reflexivity.
Defined.

Lemma occurs_check p l : forallb (fun i => negb (is_prefix p (drop i l))) (seq 0 (S (length l))) = true -> ~ occurs p l.
Proof.
  intros H (a & b & ->). rewrite forallb_forall in H. specialize (H (length a)). rewrite length_app in H. specialize (H ltac:(apply in_seq; lia)).
  rewrite drop_app_length in H. assert (is_prefix p (p ++ b) = true) as Hp by (apply is_prefix_spec; by eexists). by rewrite Hp in H.
Qed.

Lemma block_ok_check b :
  negb (bool_decide (block_key b = [])) && forallb is_word (block_key b) = true ->
  forallb (fun i => negb (is_prefix OPENING (drop i (prose b)))) (seq 0 (S (length (prose b)))) = true ->
  forallb (fun i => negb (is_prefix CLOSING (drop i (block_content b)))) (seq 0 (S (length (block_content b)))) = true ->
  block_ok b.
Proof.
  intros [Hk Hw]%andb_true_iff Hp%occurs_check Hc%occurs_check. rewrite negb_true_iff in Hk. apply bool_decide_eq_false_1 in Hk.
  split_and!; [done|done| |done]. rewrite Forall_forall. intros c Hin. rewrite forallb_forall in Hw. by apply Hw, list_elem_of_In.
Qed.

Definition demo_blocks : list Block :=
  [mkBlock (chars "First the plan. ") (chars "plan") (chars " step <<< one "); mkBlock [newline] (chars "data") (dump no_floats (VDict demo_report))].

Lemma artifacts_roundtrip_witness :
  exists result, parse_sentinel_output repr_demo (render demo_blocks (chars " done")) ["plan"] = Ok (Some result) /\
    od_get "plan" result = Some (VStr "step <<< one") /\ od_get "data" result = Some (VDict demo_report).
Proof.
  destruct (artifacts_roundtrip repr_demo demo_blocks (chars " done") ["plan"]) as (result & Hr & Hf).
  - apply Forall_cons_2; [|apply Forall_cons_2; [|apply Forall_nil_2]]; apply block_ok_check; vm_compute; reflexivity.
  - done.
  - apply occurs_check. vm_compute. reflexivity.
  - split; [apply (bool_decide_eq_true_1 _); vm_compute; reflexivity|]. intros k k' Hk Hk'. apply list_elem_of_In in Hk, Hk'. cbn in Hk, Hk'.
    destruct Hk as [<-|[<-|[]]], Hk' as [<-|[<-|[]]]; vm_compute; congruence.
  - apply Nat.leb_le. vm_compute. reflexivity.
  - reflexivity.
  - exists result. split; [exact Hr|]. apply Forall_cons in Hf as [H1 Hf]. apply Forall_cons in Hf as [H2 _].
    split; [etransitivity; [exact H1|vm_compute; reflexivity]|etransitivity; [exact H2|vm_compute; reflexivity]].
Defined.

(** A report whose status is a boolean makes the parser raise. *)
Example boolean_status_raises :
  parse_llm_json_output repr_demo (chars (quotes "{'review_report':{'overall_status':true}}")) ["review_report"] = Raise (AttributeError "strip").
Proof. by vm_compute. Qed.

(** A status salvaged from text that does not parse is not normalised as a parsed one is. *)
Example salvaged_status_kept :
  (d ← parse_llm_json_output repr_demo (chars "overall_status: pass") ["review_report"]; Ok (od_get "review_report" d)) =
    Ok (Some (VDict [("overall_status", VStr "PASS")])) /\
  (d ← parse_llm_json_output repr_demo (chars (quotes "{'overall_status':'pass'}")) ["review_report"]; Ok (od_get "review_report" d)) =
    Ok (Some (VDict [("overall_status", VStr "APPROVED")])).
Proof. by vm_compute. Qed.

(** The report of a reply is shared with its copy, whose status is normalised with it. *)
Example review_is_shared :
  normalize_expected_structure repr_demo [("review", VDict [("overall_status", VStr "lgtm")])] ["review_report"] =
    Ok [("review", VDict [("overall_status", VStr "APPROVED")]); ("review_report", VDict [("overall_status", VStr "APPROVED")])].
Proof. by vm_compute. Qed.
End demo.
