(* ===== verification/AgentStep.v ===== *)
(** * Agent steps (engine/agent_resolver.py, engine/prompt_assembly.py, artifact_overlay.py)

    What an agent name of a workflow definition runs: the deterministic tier-0 steps, the
    overlay of reworked artifacts among them, and the LLM step, which assembles a prompt,
    loops over a model and its tools, and parses the reply, with a placeholder where the
    model is unavailable.  The client, the optional package, the prompt files and the
    structure of parsed Python code are the interface [AgentEnv]. *)

From stdpp Require Import pretty sorting.
From Stdlib Require Import QArith Qcanon.
From S2P Require Import Prelude PyStr PyVal Messages Context ContextFacts Artifacts Step StepFacts StepThms Consensus Governance Tools ToolsFacts CanonicalJson JsonRepair LlmOutput LlmOutputFacts.

(** ** The overlay of artifacts (artifact_overlay.py) *)

Section overlay.
Context (placeholder_text : string -> bool) (file_blocks : string -> list FileBlock).

Definition all_str (d : odict pyval) : option (odict string) :=
  mapM (fun kv : string * pyval => (fun s => (kv.1, s)) <$> is_str (Some kv.2)) d.

(** [_as_file_map] *)
Definition as_file_map (value : pyval) : option (odict string) :=
  match value with
  | VDict d => if decide (d = []) then None else all_str d
  | VStr s => match extract_files_from_artifact (chars (strip s)) with [] => None | files => Some files end
  | _ => None
  end.

Definition file_map (files : odict string) : pyval := VDict ((fun kv => (kv.1, VStr kv.2)) <$> files).

Definition overlay_code_artifact (base override : pyval) : pyval * bool :=
  match override with
  | VNone => (base, false)
  | _ =>
      let override_files := match validate_code_artifact placeholder_text file_blocks "override" override with
                            | [] => as_file_map override
                            | _ => None
                            end in
      match override_files with
      | None => (base, false)
      | Some files =>
          match as_file_map base with
          | None => (file_map files, true)
          | Some base_files => (file_map (od_update base_files files), true)
          end
      end
  end.

Definition overlay_slot (base override : odict pyval) (acc : odict pyval * list string) (slot : string) : odict pyval * list string :=
  let '(artifact, applied) := overlay_code_artifact (default VNone (od_get slot base)) (default VNone (od_get slot override)) in
  (od_set slot artifact acc.1, if applied then acc.2 ++ [slot] else acc.2).

(** The slots in order, each once: [dict.fromkeys]. *)
Definition slots (base override : odict pyval) : list string :=
  od_keys (foldl (fun d k => od_set k tt d) [] (od_keys base ++ od_keys override)).

Definition overlay_code_artifacts (base override : odict pyval) : odict pyval * list string :=
  foldl (overlay_slot base override) ([], []) (slots base override).
End overlay.

(** ** Prompts (engine/prompt_assembly.py) *)

Definition eol : string := String newline EmptyString.
Fixpoint spaces (n : nat) : string := match n with O => "" | S n => String " " (spaces n) end.

(** [json.dumps(v, indent=2, default=str)] at an indentation of [level]. *)
Fixpoint json_indented (float_repr : Qc -> string) (level : nat) (v : pyval) : string :=
  let block (opening closing : string) (items : list string) :=
    match items with
    | [] => opening +:+ closing
    | _ => opening +:+ eol +:+ spaces (level + 2) +:+ join ("," +:+ eol +:+ spaces (level + 2)) items +:+ eol +:+ spaces level +:+ closing
    end in
  match v with
  | VList l | VTuple l => block "[" "]" ((fix go l := match l with [] => [] | x :: l' => json_indented float_repr (level + 2) x :: go l' end) l)
  | VDict d =>
      block "{" "}" ((fix go d := match d with
                     | [] => []
                     | (k, x) :: d' => (json_string k +:+ ": " +:+ json_indented float_repr (level + 2) x) :: go d'
                     end) d)
  | v => json_dumps float_repr v
  end.

Definition build_context_block (float_repr : Qc -> string) (all_vars : odict pyval) : string := json_indented float_repr 0 (VDict all_vars).

Definition str_le (a b : string) : Prop := String.leb a b = true.
#[export] Instance str_le_dec a b : Decision (str_le a b) := decide (_ = true).
Definition format_tool_descriptions (tool_names : list string) : string := join ", " (merge_sort str_le tool_names).

(** The text of [SENTINEL_OUTPUT_INSTRUCTIONS] is a parameter. *)
Definition build_system_prompt (instructions : string) (float_repr : Qc -> string) (agent_name description : string) (all_vars : odict pyval)
    (expected_output_keys bound_tool_names : list string) (persona_prompt : option string) : string :=
  join eol
    ((match persona_prompt with Some (String c p) => [String c p; ""; "---"; ""] | _ => [] end) ++
     ["You are acting as agent '" +:+ agent_name +:+ "'."; "Task: " +:+ description; ""; "Available context:";
      build_context_block float_repr all_vars; ""] ++
     (match expected_output_keys with
      | [] => []
      | keys => ["Your response MUST include <<<ARTIFACT key>>> blocks for: " +:+ join ", " keys +:+ "."; ""]
      end) ++
     (match bound_tool_names with
      | [] => []
      | names => ["Tooling access is enabled for this step."; "Use tools to fetch facts or inspect artifacts instead of guessing.";
                  "Available tools: " +:+ format_tool_descriptions names +:+ "."; ""]
      end) ++
     [instructions; ""]).

(** ** The interface *)

(** A reply of the chat: the response, the model and the tokens used. *)
Definition Reply : Type := odict pyval * string * Z.

(** [get_client] may raise, and its backend may be missing; [client_complete_chat] is the
    client's; [complete_turn_via_ek] and [run_tool_loop_via_ek] are the delegations to
    the optional package. *)
Class AgentEnv (E : Type) := {
  get_client : M (World E) unit;
  has_backend : World E -> bool;
  client_complete_chat : Z -> list (odict pyval) -> Z -> option (list pyval) -> option ToolChoice -> M (World E) Reply;
  agentic_ek_provider : World E -> bool;
  executionkit_available : bool;
  complete_turn_via_ek : Z -> list (odict pyval) -> Z -> option (list pyval) -> M (World E) Reply;
  run_tool_loop_via_ek : Z -> string -> list pyval -> odict (Tool (World E)) -> Z -> M (World E) (string * string * Z * Z);
  get_registry : World E -> odict (Tool (World E));
  registered_persona : string -> option string;
  prompt_file : string -> option string;
  sentinel_instructions : string;
  parse_code_step : loc -> M (World E) (odict pyval);
}.

Section agent.
Context {E : Type} `{!Collaborators E, !GovernanceEnv (World E), !ToolEnv (World E), !JsonDecoder, !AgentEnv E}.
Abbreviation W := (World E).

Definition lift_res {S A} (r : res A) : M S A := match r with Ok a => ret a | Raise e => raise (exc_of e) end.

(** [split("_", 1)[1]] *)
Definition role_of (agent_name : string) : option string := snd <$> split_once "_" agent_name.

Definition load_agent_system_prompt (agent_name : string) (override : option string) : option string :=
  let by_role :=
    match role_of agent_name with
    | Some role => match registered_persona role with Some p => Some p | None => prompt_file (role +:+ ".md") end
    | None => None
    end in
  let otherwise := match by_role with Some p => Some p | None => prompt_file "default.md" end in
  match override with
  | Some (String c f) => match prompt_file (String c f) with Some p => Some p | None => otherwise end
  | _ => otherwise
  end.

(** ** The deterministic steps *)

Definition coerce_text_input (value : pyval) : string := match value with VNone => "" | v => str v end.

(** [await ctx.get(key)] *)
Definition ctx_get (ctx : loc) (key : string) : M W pyval :=
  w <- get; ret (get_sync jmes (w_store w) ctx key VNone).

Definition process_text_step (ctx : loc) : M W (odict pyval) :=
  v <- ctx_get ctx "text"; ret [("result", VStr (coerce_text_input v))].
Definition count_text_step (ctx : loc) : M W (odict pyval) :=
  v <- ctx_get ctx "text"; ret [("count", VInt (Z.of_nat (String.length (coerce_text_input v))))].

(** [${...}] of the whole text, and what is between the braces. *)
Definition braced (expr : string) : option string :=
  match chars expr with
  | "$"%char :: "{"%char :: l =>
      match reverse l with "}"%char :: r => Some (strip (of_chars (reverse r))) | _ => None end
  | _ => None
  end.

(** [_resolve_sample_item] *)
Definition resolve_sample_item (ctx : loc) (item : pyval) : M W pyval :=
  match item with
  | VStr s => match braced (strip s) with Some expr => resolve_variable ctx expr | None => ret item end
  | _ => ret item
  end.

Definition gather_consensus_samples (ctx : loc) : M W (list pyval) :=
  raw <- ctx_get ctx "samples";
  match raw with
  | VNone => ret []
  | VList l | VTuple l => map_m (resolve_sample_item ctx) l
  | v => map_m (resolve_sample_item ctx) [v]
  end.

Definition consensus_key (v : pyval) : string := canonical_key (fun v => Some (json_dumps float_repr (sort_keys v))) repr v.

Definition consensus_outputs (r : ConsensusResult pyval) : odict pyval :=
  [("winner", default VNone (winner r)); ("agreement", VFloat (Q2Qc (agreement r)));
   ("votes", VDict ((fun kv => (kv.1, VInt (Z.of_nat kv.2))) <$> votes r)); ("tied", VBool (tied r));
   ("meets_threshold", VBool (meets_threshold r)); ("total_samples", VInt (Z.of_nat (total_samples r)))].

(** An unknown [mode] only logs. *)
Definition consensus_step (ctx : loc) : M W (odict pyval) :=
  samples <- gather_consensus_samples ctx;
  raw <- ctx_get ctx "min_agreement";
  min_agreement <- lift_res (coerce_min_agreement raw);
  r <- lift_res (majority_vote consensus_key id min_agreement samples);
  ret (consensus_outputs r).

Definition gather_artifact_slots (ctx : loc) (name : string) : M W (odict pyval) :=
  raw <- ctx_get ctx name;
  match raw with
  | VDict d => map_m (fun kv => v <- resolve_sample_item ctx kv.2; ret (kv.1, v)) d
  | _ => ret []
  end.

Definition overlay_step (ctx : loc) : M W (odict pyval) :=
  base <- gather_artifact_slots ctx "base";
  override <- gather_artifact_slots ctx "override";
  let '(merged, overridden) := overlay_code_artifacts placeholder_text file_blocks base override in
  ret (od_set "overridden" (VList (VStr <$> overridden)) merged).

Definition TIER0_REGISTRY : odict (loc -> M W (odict pyval)) :=
  [("tier0_parser", parse_code_step); ("tier0_process", process_text_step); ("tier0_counter", count_text_step);
   ("tier0_consensus", consensus_step); ("tier0_overlay", overlay_step)].

(** ** The LLM step *)

Definition review_placeholder : pyval := VDict [("overall_status", VStr "NEEDS_FIXES"); ("reason", VStr "llm_unavailable")].

Definition placeholder_for (d : odict pyval) (key : string) : odict pyval :=
  if od_mem key d then d
  else od_set key
    (if bool_decide (key ∈ ["review_report"; "code_review"]) then review_placeholder
     else if bool_decide (key = "overall_status") then VStr "NEEDS_FIXES"
     else VDict [("placeholder", VBool true); ("key", VStr key); ("reason", VStr "llm_unavailable")]) d.

(** [_build_placeholder_output] *)
Definition build_placeholder_output (agent_name description : string) (expected_output_keys : list string) (error : PyExc) : odict pyval :=
  foldl placeholder_for
    [("agent", VStr agent_name); ("status", VStr "llm_unavailable"); ("description", VStr description); ("note", VStr (ex_msg error))]
    expected_output_keys.

Definition attach_step_meta (parsed : odict pyval) (model_used : string) (tokens_used tool_call_count : Z) : odict pyval :=
  od_set "_meta" (VDict [("model_used", VStr model_used); ("tokens_used", VInt tokens_used); ("tool_calls", VInt tool_call_count)]) parsed.

Definition complete_chat_with_fallback (tier : Z) (messages : list (odict pyval)) (max_tokens : Z) (tools : option (list pyval))
    (tool_choice : ToolChoice) : M W Reply :=
  w <- get;
  let some_tools := match tools with Some (_ :: _) => true | _ => false end in
  if negb (has_backend w) then raise (exc_of (RuntimeError "No LLM backend configured"))
  else if agentic_ek_provider w && some_tools && is_forced_tool_choice (choice_value tool_choice) then
    raise (mkExc KException "NotImplementedError" "the EK completion path cannot honor a forced choice")
  else if agentic_ek_provider w && executionkit_available then complete_turn_via_ek tier messages max_tokens tools
  else client_complete_chat tier messages max_tokens tools (if some_tools then Some tool_choice else None).

(** The locals of the loop beside the thread of messages. *)
Record Turn := mkTurn { tn_response : string; tn_model_used : string; tn_tokens_used : Z; tn_tool_calls : nat }.

Definition MAX_TOOL_ROUNDS : nat := 8.

Definition assistant_message (response : string) (tool_calls : list pyval) : odict pyval :=
  [("role", VStr "assistant"); ("content", VStr response)] ++
  match tool_calls with [] => [] | _ => [("tool_calls", VList tool_calls)] end.

Definition add_message (m : odict pyval) : M (Round W) unit :=
  modify (fun s => mkRound (rd_world s) (rd_messages s ++ [m]) (rd_executed s)).

(** [str(v or "")]; [v or []] of a list. *)
Definition text_or_empty (v : option pyval) : string := match v with Some v => if truthy v then str v else "" | None => "" end.
Definition calls_of (v : option pyval) : res (list pyval) :=
  match v with
  | Some v => if truthy v then match v with VList l => Ok l | _ => Raise (TypeError "unhashable type: 'slice'") end else Ok []
  | None => Ok []
  end.

Section loop.
Context (tier : Z) (tool_schemas : list pyval) (bound_tools : odict (Tool W)) (max_tokens : Z) (tool_choice : ToolChoice).

(** One turn of the loop: go on, or leave it. *)
Definition native_turn (iteration : nat) (t : Turn) : M (Round W) (bool * Turn) :=
  s <- get;
  reply <- on_world (complete_chat_with_fallback tier (rd_messages s) max_tokens
             (if decide (bound_tools = []) then None else Some tool_schemas)
             (if decide (iteration = O) then tool_choice else CAuto));
  let '(chat_response, model_used, turn_tokens) := reply in
  let response := text_or_empty (od_get "content" chat_response) in
  let t := mkTurn response model_used (tn_tokens_used t + turn_tokens) (tn_tool_calls t) in
  tool_calls <- lift_res (calls_of (od_get "tool_calls" chat_response));
  add_message (assistant_message response tool_calls);;
  if decide (tool_calls = []) then ret (false, t)
  else if MAX_TOOL_ROUNDS <=? iteration then ret (false, t)
  else
    executed <- run_tool_calls tool_calls bound_tools;
    ret (negb (executed =? 0), mkTurn (tn_response t) (tn_model_used t) (tn_tokens_used t) (tn_tool_calls t + executed)).

Fixpoint native_loop (iterations : list nat) (t : Turn) : M (Round W) Turn :=
  match iterations with
  | [] => ret t
  | i :: rest => x <- native_turn i t; if (x.1 : bool) then native_loop rest x.2 else ret x.2
  end.

(** [_run_native_tool_loop], on the thread in the state. *)
Definition run_native_tool_loop : M (Round W) Turn := native_loop (seq 0 (MAX_TOOL_ROUNDS + 1)) (mkTurn "" "" 0 0).
End loop.

(** A computation on a thread of its own. *)
Definition with_thread {A} (messages : list (odict pyval)) (m : M (Round W) A) : M W A := fun w =>
  let '(s, r) := m (mkRound w messages 0) in (rd_world s, r).

Definition should_use_ek_tool_loop (bound_tools : odict (Tool W)) (tool_path : option string) (w : W) : bool :=
  negb (bool_decide (bound_tools = [])) && negb (bool_decide (tool_path = Some "native")) && agentic_ek_provider w && executionkit_available.

Definition TIER_MAX_TOKENS (tier : Z) : Z :=
  match tier with 0 => 0 | 1 => 4096 | 2 => 8192 | 3 | 4 => 16384 | 5 => 32768 | _ => 8192 end%Z.

(** [parse_sentinel_output(...) or parse_llm_json_output(...)] *)
Definition parse_reply (response : string) (expected_output_keys : list string) : res (odict pyval) :=
  sentinel ← parse_sentinel_output repr (chars response) expected_output_keys;
  match sentinel with
  | Some (kv :: d) => Ok (kv :: d)
  | _ => parse_llm_json_output repr (chars response) expected_output_keys
  end.

Record LlmStep := mkLlmStep {
  ls_agent_name : string;
  ls_description : string;
  ls_tier : Z;
  ls_expected_output_keys : list string;
  ls_enabled_tools : option (list string);
  ls_tool_path : option string;
  ls_persona_prompt : option string;
  ls_tool_choice : pyval;
}.

(** What the [try] of the step gives: the output of the delegated loop, or the reply of
    the native one. *)
Definition ask_model (d : LlmStep) (prompt : string) (tool_schemas : list pyval) (bound_tools : odict (Tool W)) (choice : ToolChoice)
    : M W (odict pyval + Turn) :=
  get_client;;
  let max_tokens := TIER_MAX_TOKENS (ls_tier d) in
  w <- get;
  if should_use_ek_tool_loop bound_tools (ls_tool_path d) w then
    out <- run_tool_loop_via_ek (ls_tier d) prompt tool_schemas bound_tools max_tokens;
    let '(response, model_used, tokens_used, calls) := out in
    parsed <- lift_res (parse_reply response (ls_expected_output_keys d));
    ret (inl (attach_step_meta parsed model_used tokens_used calls))
  else
    t <- with_thread [[("role", VStr "user"); ("content", VStr prompt)]]
           (run_native_tool_loop (ls_tier d) tool_schemas bound_tools max_tokens choice);
    ret (inr t).

Definition prompt_of (d : LlmStep) (bound_tools : odict (Tool W)) (all_vars : odict pyval) : string :=
  build_system_prompt sentinel_instructions float_repr (ls_agent_name d) (ls_description d) all_vars (ls_expected_output_keys d)
    (od_keys bound_tools) (ls_persona_prompt d).

(** [_execute_llm_step] *)
Definition execute_llm_step (d : LlmStep) (ctx : loc) : M W (odict pyval) :=
  w <- get;
  contracts <- lift_res (build_tool_contracts (get_registry w) (ls_tier d) (ls_enabled_tools d) (ls_tool_choice d));
  let '(tool_schemas, bound_tools, choice) := contracts in
  let prompt := prompt_of d bound_tools (all_variables (w_store w) ctx) in
  r <- try_except (ask_model d prompt tool_schemas bound_tools choice)
         (fun e => if is_exception e
                   then ret (inl (build_placeholder_output (ls_agent_name d) (ls_description d) (ls_expected_output_keys d) e))
                   else raise e);
  match r with
  | inl out => ret out
  | inr t =>
      parsed <- lift_res (parse_reply (tn_response t) (ls_expected_output_keys d));
      ret (attach_step_meta parsed (tn_model_used t) (tn_tokens_used t) (Z.of_nat (tn_tool_calls t)))
  end.

(** ** The resolver *)

Definition infer_tier (agent_name : string) : Z :=
  if startswith agent_name "tier0_" then 0
  else if startswith agent_name "tier1_" then 1
  else if startswith agent_name "tier2_" then 2
  else if startswith agent_name "tier3_" then 3
  else if startswith agent_name "tier4_" then 4
  else if startswith agent_name "tier5_" then 5
  else 2.

Definition set_func (tier : option Z) (func : loc -> M W (option (odict pyval))) (sd : StepDef E) : StepDef E :=
  mkStepDef E (sd_name sd) tier (Some func) (sd_timeout sd) (sd_retry sd) (sd_should_retry sd) (sd_when sd) (sd_unless sd)
    (sd_loop_until sd) (sd_loop_max sd) (sd_depends_on sd) (sd_input_mapping sd) (sd_output_mapping sd) (sd_input_contracts sd)
    (sd_output_contracts sd) (sd_pre_hooks sd) (sd_post_hooks sd) (sd_error_hooks sd) (sd_verify sd) (sd_metadata sd).

Definition returning (f : loc -> M W (odict pyval)) (ctx : loc) : M W (option (odict pyval)) := out <- f ctx; ret (Some out).

(** The names in a list that a definition gives. *)
Definition names_of (v : pyval) : option (list string) :=
  match v with VList l => Some (omap (fun x => is_str (Some x)) l) | _ => None end.

Definition llm_step_of (agent_name description : string) (tier : Z) (sd : StepDef E) : LlmStep :=
  let meta k := od_get k (sd_metadata sd) in
  mkLlmStep agent_name description tier (od_keys (sd_output_mapping sd)) (meta "tools" ≫= names_of) (is_str (meta "tool_path"))
    (load_agent_system_prompt agent_name (is_str (meta "prompt_file"))) (default (VStr "auto") (meta "tool_choice")).

(** [resolve_agent]; [description] is the step's. *)
Definition resolve_agent (description : string) (sd : StepDef E) : res (StepDef E) :=
  match sd_func sd with
  | Some _ => Ok sd
  | None =>
      match od_get "agent" (sd_metadata sd) with
      | Some (VStr agent_name) =>
          if decide (agent_name = "") then Raise (ValueError ("Step '" +:+ sd_name sd +:+ "' has no agent and no func"))
          else
            let tier := infer_tier agent_name in
            let pathless := match od_get "prompt_file" (sd_metadata sd) with Some v => truthy v && bool_decide (is_str (Some v) = None) | None => false end in
            match (if decide (tier = 0%Z) then od_get agent_name TIER0_REGISTRY else None) with
            | Some f => Ok (set_func (Some tier) (returning f) sd)
            | None =>
                if pathless then Raise (TypeError "unsupported operand type(s) for /")
                else Ok (set_func (Some tier) (returning (execute_llm_step (llm_step_of agent_name description tier sd))) sd)
            end
      | Some v => if truthy v then Raise (AttributeError "startswith") else Raise (ValueError ("Step '" +:+ sd_name sd +:+ "' has no agent and no func"))
      | None => Raise (ValueError ("Step '" +:+ sd_name sd +:+ "' has no agent and no func"))
      end
  end.
End agent.

(** ** Correctness *)

(** *** The overlay *)

Lemma file_map_get files k : od_get k ((fun kv : string * string => (kv.1, VStr kv.2)) <$> files) = VStr <$> od_get k files.
Proof. induction files as [|[k' v] files IH]; [done|]. rewrite fmap_cons. cbn. by case_decide. Qed.

Lemma all_str_keys d files : all_str d = Some files -> od_keys files = od_keys d.
Proof.
  unfold all_str. revert files. induction d as [|[k v] d IH]; intros files; cbn; [by intros [= <-]|].
  destruct v; cbn; try done. destruct (mapM _ d) as [l|]; cbn; [|done]. intros [= <-]. unfold od_keys in *. cbn. by rewrite (IH l).
Qed.

(** Mappings have each key once. *)
Definition mapping_wf (v : pyval) : Prop := match v with VDict d => NoDup (od_keys d) | _ => True end.

Lemma extract_NoDup content : NoDup (od_keys (extract_files_from_artifact content)).
Proof.
  unfold extract_files_from_artifact. generalize (find_blocks match_file 0 true (JsonRepair.clip content)). intros l.
  assert (NoDup (od_keys (@nil (string * string)))) as Hd by constructor. revert Hd. generalize (@nil (string * string)).
  induction l as [|x l IH]; intros d Hd; [done|]. apply IH. by apply NoDup_od_set.
Qed.

Lemma as_file_map_NoDup v files : mapping_wf v -> as_file_map v = Some files -> NoDup (od_keys files).
Proof.
  destruct v; try done; unfold as_file_map.
  - intros _ Hf. pose proof (extract_NoDup (chars (strip s))) as Hn. destruct (extract_files_from_artifact _); by simplify_eq.
  - intros Hn. case_decide; [done|]. intros Hf. by rewrite (all_str_keys _ _ Hf).
Qed.

(** Rework never loses a file.  A reworked artifact that is absent, that breaks the
    code contract or that is no map of files leaves the original as it is.  One that is
    accepted gives a map in which every path it has carries its source and every other
    path of the original keeps the original source. *)
Theorem overlay_keeps_files (placeholder_text : string -> bool) (file_blocks : string -> list FileBlock) base override :
  mapping_wf override ->
  match overlay_code_artifact placeholder_text file_blocks base override with
  | (artifact, false) =>
      artifact = base /\
      (override = VNone \/ validate_code_artifact placeholder_text file_blocks "override" override ≠ [] \/ as_file_map override = None)
  | (artifact, true) =>
      validate_code_artifact placeholder_text file_blocks "override" override = [] /\
      exists files m, as_file_map override = Some files /\ artifact = VDict m /\
        forall path, od_get path m = VStr <$> match od_get path files with
                                              | Some source => Some source
                                              | None => as_file_map base ≫= od_get path
                                              end
  end.
Proof.
  intros Hwf. destruct (decide (override = VNone)) as [->|Hn]; [by split; [|left]|].
  assert (overlay_code_artifact placeholder_text file_blocks base override =
    match (match validate_code_artifact placeholder_text file_blocks "override" override with [] => as_file_map override | _ => None end) with
    | None => (base, false)
    | Some files => match as_file_map base with None => (file_map files, true) | Some b => (file_map (od_update b files), true) end
    end) as -> by (by destruct override).
  destruct (validate_code_artifact placeholder_text file_blocks "override" override) as [|x l] eqn:Ev; [|split; [done|right; by left]].
  destruct (as_file_map override) as [files|] eqn:Ef; [|split; [done|by right; right]].
  pose proof (as_file_map_NoDup _ _ Hwf Ef) as Hnd. destruct (as_file_map base) as [b|]; (split; [done|]); eexists files, _; (split; [done|]); (split; [done|]); intros path; rewrite file_map_get.
  - by rewrite od_get_update.
  - cbn. by destruct (od_get path files).
Qed.

(** *** The loop *)
Section agent_facts.
Context {E : Type} `{!Collaborators E, !GovernanceEnv (World E), !ToolEnv (World E), !JsonDecoder, !AgentEnv E}.
Abbreviation W := (World E).

Definition role (m : odict pyval) : option pyval := od_get "role" m.
Definition asks (l : list (odict pyval)) : nat := length (filter (fun m => role m = Some (VStr "assistant")) l).
Definition answers (l : list (odict pyval)) : nat := length (filter (fun m => role m = Some (VStr "tool")) l).

Lemma asks_app l l' : asks (l ++ l') = asks l + asks l'.
Proof. unfold asks. by rewrite filter_app, length_app. Qed.
Lemma answers_app l l' : answers (l ++ l') = answers l + answers l'.
Proof. unfold answers. by rewrite filter_app, length_app. Qed.

Lemma replies_counted P l : Forall (tool_reply P) l -> asks l = 0 /\ answers l = length l.
Proof.
  induction 1 as [|m l (id & name & content & -> & _) _ [IH1 IH2]]; [done|]. unfold asks, answers in *.
  rewrite filter_cons_False by done. rewrite filter_cons_True by done. by rewrite IH1, length_cons, IH2.
Qed.

(** The thread has grown by at most [a] replies of the model and [n] of tools. *)
Definition grown (a n : nat) (s s' : Round W) (new : list (odict pyval)) : Prop :=
  rd_messages s' = rd_messages s ++ new /\ asks new <= a /\ answers new <= n.

Section turn.
Context (tier : Z) (tool_schemas : list pyval) (bound_tools : odict (Tool W)) (max_tokens : Z) (tool_choice : ToolChoice).

Lemma wp_on_world {A} (m : M W A) (Q : A + PyExc -> Round W -> Prop) (s : Round W) :
  (forall r w, Q r (mkRound w (rd_messages s) (rd_executed s))) -> wp (on_world m) Q s.
Proof. intros HQ. unfold wp, on_world. by destruct (m (rd_world s)) as [w r]. Qed.

Lemma wp_lift_res {S A} (r : res A) (Q : A + PyExc -> S -> Prop) (s : S) :
  match r with Ok a => Q (inl a) s | Raise e => Q (inr (exc_of e)) s end -> wp (lift_res r) Q s.
Proof. by destruct r. Qed.

Lemma native_turn_grows i t s : wp (native_turn tier tool_schemas bound_tools max_tokens tool_choice i t) (fun r s' =>
  exists new, grown 1 12 s s' new /\ (MAX_TOOL_ROUNDS <= i -> answers new = 0) /\
    forall b t', r = inl (b, t') -> asks new = 1 /\ tn_tool_calls t' = tn_tool_calls t + answers new) s.
Proof.
  assert (forall s' : Round W, rd_messages s' = rd_messages s -> exists new, grown 1 12 s s' new /\ (MAX_TOOL_ROUNDS <= i -> answers new = 0) /\ new = []) as Hnone.
  { intros s' Hs. exists []. unfold grown. rewrite app_nil_r, Hs. cbn. auto with lia. }
  unfold native_turn. apply wp_bind, wp_get, wp_bind, wp_on_world. intros [[[chat_response model_used] turn_tokens]|e] w; cycle 1.
  { destruct (Hnone (mkRound w (rd_messages s) (rd_executed s)) eq_refl) as (new & Hg & Hi & _). by exists new. }
  cbv zeta. apply wp_bind, wp_lift_res. destruct (calls_of _) as [tool_calls|e]; cycle 1.
  { destruct (Hnone (mkRound w (rd_messages s) (rd_executed s)) eq_refl) as (new & Hg & Hi & _). by exists new. }
  apply wp_bind, wp_modify. cbn [rd_world rd_messages rd_executed].
  set (m := assistant_message _ tool_calls). assert (asks [m] = 1 /\ answers [m] = 0) as [Ha Hr] by (by destruct tool_calls).
  set (s1 := mkRound _ (rd_messages s ++ [m]) _).
  assert (grown 1 12 s s1 [m]) as Hg by (unfold grown; rewrite Ha, Hr; cbn; auto with lia).
  case_decide; [apply wp_ret; exists [m]; split; [done|]; split; [done|]; intros ? ? [= _ <-]; cbn [tn_tool_calls]; split; [done|lia]|].
  destruct (Nat.leb_spec MAX_TOOL_ROUNDS i) as [Hi|Hi].
  { apply wp_ret. exists [m]. split; [done|]. split; [done|]. intros ? ? [= _ <-]. cbn [tn_tool_calls]. split; [done|lia]. }
  apply wp_bind. eapply wp_mono; [apply (run_tool_calls_spec bound_tools tool_calls s1 (fun _ => True) (fun _ => True)); [|done]|].
  { intros name args w' _. unfold wp. by destruct (dispatch_single_tool_call _ _ _ _). }
  intros r s2 [(_ & l & H1 & H2 & H3 & H4) Hn]. cbn [rd_messages rd_executed] in *. apply replies_counted in H4 as [H4 H5].
  assert (grown 1 12 s s2 ([m] ++ l)) as Hg2.
  { unfold grown. rewrite H1, asks_app, answers_app, Ha, Hr, H4, H5. cbn [rd_messages s1]. rewrite <- app_assoc. cbn. auto with lia. }
  destruct r as [n|e]; [apply wp_ret|]; (exists ([m] ++ l); split; [done|]; split; [lia|]); [|done].
  intros ? ? [= _ <-]. cbn [tn_tool_calls]. rewrite asks_app, answers_app, Ha, Hr, H4, H5. rewrite (Hn n eq_refl), H2. lia.
Qed.

Lemma native_loop_grows l : forall t s, wp (native_loop tier tool_schemas bound_tools max_tokens tool_choice l t) (fun r s' =>
  exists new, grown (length l) (12 * length (filter (fun i => i < MAX_TOOL_ROUNDS) l)) s s' new /\
    forall t', r = inl t' -> tn_tool_calls t' = tn_tool_calls t + answers new /\ (l ≠ [] -> 1 <= asks new)) s.
Proof.
  induction l as [|i l IH]; intros t s; cbn [native_loop].
  { apply wp_ret. exists []. unfold grown. rewrite app_nil_r. cbn. split; [auto with lia|]. intros t' [= <-]. split; [lia|done]. }
  apply wp_bind. eapply wp_mono; [apply native_turn_grows|]. intros r s1 (new & (H1 & H2 & H3) & Hi & Hr).
  set (k := length (filter (fun j => j < MAX_TOOL_ROUNDS) l)) in *.
  set (kk := length (filter (fun j => j < MAX_TOOL_ROUNDS) (i :: l))).
  assert (answers new + 12 * k <= 12 * kk) as Hk.
  { unfold kk. rewrite filter_cons. case_decide; [cbn [length]; fold k; lia|]. fold k. rewrite Hi by lia. lia. }
  destruct r as [[b t1]|e]; [|exists new; unfold grown; cbn [length]; split; [split; [done|lia]|done]].
  destruct (Hr b t1 eq_refl) as [Ha Ht]. cbn [fst snd]. destruct b.
  - eapply wp_mono; [apply IH|]. intros r s2 (new' & (H4 & H5 & H6) & Hr'). exists (new ++ new'). fold k in H6. unfold grown.
    rewrite H4, H1, app_assoc, asks_app, answers_app. cbn [length]. split; [split; [done|lia]|]. intros t' ->. destruct (Hr' t' eq_refl) as [-> _]. rewrite Ht. lia.
  - apply wp_ret. exists new. unfold grown. cbn [length]. split; [split; [done|lia]|]. intros t' [= <-]. rewrite Ht, Ha. lia.
Qed.

(** The tool loop of a step is bounded.  However the model and its tools behave, the
    loop asks the model at most nine times and dispatches at most 96 calls; the thread
    only grows, every dispatched call has its answer in it, and the count that is
    reported is the number of those answers. *)
Theorem tool_loop_bounded s : wp (run_native_tool_loop tier tool_schemas bound_tools max_tokens tool_choice) (fun r s' =>
  exists new, rd_messages s' = rd_messages s ++ new /\ asks new <= 9 /\ answers new <= 96 /\
    forall t, r = inl t -> 1 <= asks new /\ tn_tool_calls t = answers new) s.
Proof.
  eapply wp_mono; [apply native_loop_grows|]. intros r s' (new & (H1 & H2 & H3) & Hr). exists new. split; [done|]. split; [done|]. split; [done|].
  intros t ->. destruct (Hr t eq_refl) as [-> Ha]. split; [by apply Ha|done].
Qed.
End turn.

(** *** The outcome of a step *)

(** The report of an output has a status. *)
Definition states (out : odict pyval) : Prop :=
  exists rr s, od_get "review_report" out = Some (VDict rr) /\ od_get "overall_status" rr = Some (VStr s).

Lemma placeholder_keeps l : forall (d : odict pyval) k v, od_get k d = Some v -> od_get k (foldl placeholder_for d l) = Some v.
Proof.
  induction l as [|x l IH]; intros d k v Hk; [done|]. apply IH. unfold placeholder_for. destruct (od_mem x d) eqn:Hx; [done|].
  rewrite od_get_set_ne; [done|]. intros ->. apply od_mem_lookup in Hk. congruence.
Qed.

Lemma placeholder_report l : forall d : odict pyval, od_get "review_report" d = None -> "review_report" ∈ l ->
  od_get "review_report" (foldl placeholder_for d l) = Some review_placeholder.
Proof.
  induction l as [|x l IH]; intros d Hd; [by intros ?%elem_of_nil|]. rewrite elem_of_cons. cbn [foldl].
  assert (od_mem "review_report" d = false) as Hm by (apply bool_decide_eq_false_2; by apply od_get_None).
  destruct (decide (x = "review_report")) as [->|Hx].
  - intros _. apply placeholder_keeps. unfold placeholder_for. rewrite Hm. cbn. by rewrite od_get_set_eq.
  - intros [|Hin]; [done|]. apply IH; [|done]. unfold placeholder_for. destruct (od_mem x d); [done|]. by rewrite od_get_set_ne by done.
Qed.

Lemma gated_states d : LlmOutputFacts.gated d -> states d.
Proof. intros (rr & st & H1 & H2). by exists rr, (review_value st). Qed.

Lemma meta_states d m n c : states d -> states (attach_step_meta d m n c).
Proof. intros (rr & s & H1 & H2). exists rr, s. split; [|done]. unfold attach_step_meta. by rewrite od_get_set_ne. Qed.

Lemma parse_states response expected : expects_report expected = true ->
  match parse_reply response expected with Ok d => states d | Raise e => e = AttributeError "strip" end.
Proof.
  intros He. unfold parse_reply, parse_sentinel_output.
  assert (match parse_llm_json_output repr (chars response) expected with Ok d => states d | Raise e => e = AttributeError "strip" end) as Hllm
    by apply (parse_llm_states repr (chars response) expected He).
  destruct (find_all _ _ _) as [|x l]; [done|]. rewrite He.
  pose proof (normalize_gated repr (foldl add_artifact [] (x :: l)) expected He) as Hg.
  destruct (normalize_expected_structure _ _ _) as [d|e]; cbn; [|done]. destruct d as [|kv d]; [done|]. by apply gated_states.
Qed.

Lemma ask_model_states d prompt schemas bound choice w : expects_report (ls_expected_output_keys d) = true ->
  wp (ask_model d prompt schemas bound choice) (fun r _ => forall out, r = inl (inl out) -> states out) w.
Proof.
  intros He. unfold ask_model. apply wp_bind. eapply (wp_mono _ (fun _ _ => True)); [unfold wp; by destruct (get_client w)|]. intros [[]|e] w1 _; [|done].
  apply wp_bind, wp_get. destruct (should_use_ek_tool_loop _ _ _); apply wp_bind.
  - eapply (wp_mono _ (fun _ _ => True)); [unfold wp; by destruct (run_tool_loop_via_ek _ _ _ _ _ w1)|].
    intros [[[[response model_used] tokens_used] calls]|e] w2 _; [|done]. apply wp_bind, wp_lift_res. pose proof (parse_states response _ He) as Hp.
    destruct (parse_reply _ _) as [parsed|e]; [|done]. apply wp_ret. intros out [= <-]. by apply meta_states.
  - eapply (wp_mono _ (fun _ _ => True)); [unfold wp; by destruct (with_thread _ _ w1)|]. intros [t|e] w2 _; [|done]. by apply wp_ret.
Qed.

(** C25. A step that reviews fails closed.  Once its tool contracts are built (else the
    error of that is raised), whatever the client, the model and its tools do, a step
    that declares a review report gives a report with a status to gate on or raises: when
    it is cancelled, or an AttributeError where a reply has a status that is neither a
    string nor null.  When the model cannot be reached, in either loop, the report asks
    for rework, so that nothing passes a gate unreviewed. *)
Theorem llm_step_fails_closed d ctx w : expects_report (ls_expected_output_keys d) = true ->
  wp (execute_llm_step d ctx) (fun r _ =>
    match build_tool_contracts (get_registry w) (ls_tier d) (ls_enabled_tools d) (ls_tool_choice d) with
    | Raise x => r = inr (exc_of x)
    | Ok (schemas, bound, choice) =>
        match r with
        | inl out => states out
        | inr e => is_exception e = true -> e = exc_of (AttributeError "strip")
        end /\
        forall e, (ask_model d (prompt_of d bound (all_variables (w_store w) ctx)) schemas bound choice w).2 = inr e -> is_exception e = true ->
          exists out, r = inl out /\ od_get "status" out = Some (VStr "llm_unavailable") /\ od_get "review_report" out = Some review_placeholder
    end) w.
Proof.
  intros He. unfold execute_llm_step. apply wp_bind, wp_get, wp_bind.
  destruct (build_tool_contracts _ _ _ _) as [[[schemas bound] choice]|x]; [|by apply wp_raise]. apply wp_ret, wp_bind, wp_try.
  pose proof (ask_model_states d (prompt_of d bound (all_variables (w_store w) ctx)) schemas bound choice w He) as Ha. unfold wp in Ha |- * at 1.
  destruct (ask_model _ _ _ _ _ w) as [w1 [[out|t]|e]]; cbn [snd].
  - split; [by apply Ha|done].
  - apply wp_bind, wp_lift_res. pose proof (parse_states (tn_response t) _ He) as Hp.
    destruct (parse_reply _ _) as [parsed|e]; [|by rewrite Hp]. apply wp_ret. split; [by apply meta_states|done].
  - destruct (is_exception e) eqn:Hx; cycle 1.
    { apply wp_raise. split; [congruence|]. intros ? [= <-]. congruence. }
    assert ("review_report" ∈ ls_expected_output_keys d) as Hin by (unfold expects_report in He; by apply bool_decide_eq_true_1 in He).
    assert (od_get "review_report" (build_placeholder_output (ls_agent_name d) (ls_description d) (ls_expected_output_keys d) e) = Some review_placeholder) as Hr by by apply placeholder_report.
    apply wp_ret, wp_ret. split; [eexists _, _; by split; [exact Hr|]|]. intros ? [= <-] _. eexists. split; [done|]. split; [|done]. by apply placeholder_keeps.
Qed.
End agent_facts.

(** *** Instances *)
Section demo.
#[local] Existing Instance demo_decoder.
#[local] Existing Instance demo_collaborators.
#[local] Instance demo_governance_env : GovernanceEnv (World nat) := {
  get_approval_provider _ := None;
  get_escalation_sink _ := None;
  get_settings _ := mkSettings false "" 300;
  wait_for _ m := m;
  seconds_text _ := "300.0";
}.
#[local] Instance demo_tool_environment : ToolEnv (World nat) := {
  json_loads _ := None;
  digest16 _ := "0123456789abcdef";
  Tools.repr _ := "?";
  Tools.float_repr _ := "0.0";
  set_order l := l;
  perf_counter _ := Q2Qc 0;
}.

Definition chat_reply (text : string) : Reply := ([("content", VStr text)], "gpt", 7%Z).

(** The first chat asks for a tool, the second states an approval; a third fails. *)
#[local] Instance demo_agent_env : AgentEnv nat := {
  get_client w := (w, inl tt);
  has_backend _ := true;
  client_complete_chat _ _ _ _ _ w :=
    (mkWorld (w_store w) (S (w_env w)),
     match w_env w with
     | 0 => inl ([("content", VNone); ("tool_calls", VList [VDict [("name", VStr "nosuch")]])], "gpt", 5%Z)
     | 1 => inl (chat_reply (quotes "{'review_report':{'overall_status':'lgtm','summary':'fine'}}"))
     | _ => inr (mkExc KException "RuntimeError" "down")
     end);
  agentic_ek_provider _ := false;
  executionkit_available := false;
  complete_turn_via_ek _ _ _ _ w := (w, inr (mkExc KException "RuntimeError" "absent"));
  run_tool_loop_via_ek _ _ _ _ _ w := (w, inr (mkExc KException "RuntimeError" "absent"));
  get_registry _ := [];
  registered_persona _ := None;
  prompt_file _ := None;
  sentinel_instructions := "";
  parse_code_step _ := ret [];
}.

Definition demo_review : LlmStep := mkLlmStep "tier2_reviewer" "review" 2 ["review_report"] None None None (VStr "auto").
Definition chats (n : nat) : World nat := mkWorld demo_store n.

Lemma llm_step_fails_closed_witness :
  od_get "review_report" (match (execute_llm_step demo_review 0 (chats 2)).2 with inl out => out | inr _ => [] end) = Some review_placeholder /\
  exists out, (execute_llm_step demo_review 0 (chats 1)).2 = inl out /\ states out.
Proof.
  destruct (build_tool_contracts (W := World nat) (get_registry (chats 2)) 2 None (VStr "auto")) as [[[schemas bound] choice]|e] eqn:Hc; [|discriminate Hc].
  split.
  - pose proof (llm_step_fails_closed demo_review 0 (chats 2) eq_refl) as Hs. unfold wp in Hs.
    cbn [ls_tier ls_enabled_tools ls_tool_choice demo_review] in Hs. rewrite Hc in Hs.
    destruct (execute_llm_step demo_review 0 (chats 2)) as [w' r]. destruct Hs as [_ Hs]. cbn [snd].
    destruct (ask_model demo_review _ schemas bound choice (chats 2)) as [w1 x] eqn:Ha.
    assert (x = inr (mkExc KException "RuntimeError" "down")) as -> by (vm_compute in Hc; injection Hc as <- <- <-; vm_compute in Ha; by injection Ha as _ <-).
    destruct (Hs _ eq_refl eq_refl) as (out & -> & _ & Hr). exact Hr.
  - pose proof (llm_step_fails_closed demo_review 0 (chats 1) eq_refl) as Hs. unfold wp in Hs.
    change (get_registry (chats 1)) with (get_registry (chats 2)) in Hs. cbn [ls_tier ls_enabled_tools ls_tool_choice demo_review] in Hs. rewrite Hc in Hs.
    destruct (execute_llm_step demo_review 0 (chats 1)) as [w' r] eqn:Er. destruct Hs as [Hs _]. cbn [snd].
    assert (exists out, r = inl out) as [out ->] by (vm_compute in Er; injection Er as _ <-; by eexists). by exists out.
Defined.

(** A tool that does not exist is answered, and the second reply is normalised. *)
Example tool_round_then_review :
  let '(w, r) := execute_llm_step demo_review 0 (chats 0) in
  w_env w = 2 /\ (match r with inl out => od_get "review_report" out | inr _ => None end) =
    Some (VDict [("overall_status", VStr "APPROVED"); ("summary", VStr "fine")]).
Proof. by vm_compute. Qed.

Lemma overlay_keeps_files_witness :
  exists m, overlay_code_artifact (fun _ => false) (fun _ => []) (VDict [("a.py", VStr "old"); ("b.py", VStr "kept")]) (VDict [("a.py", VStr "new")]) = (VDict m, true) /\
    od_get "a.py" m = Some (VStr "new") /\ od_get "b.py" m = Some (VStr "kept").
Proof.
  pose proof (overlay_keeps_files (fun _ => false) (fun _ => []) (VDict [("a.py", VStr "old"); ("b.py", VStr "kept")]) (VDict [("a.py", VStr "new")])
    ltac:(apply NoDup_singleton)) as Ho.
  destruct (overlay_code_artifact _ _ _ _) as [artifact applied] eqn:E. assert (applied = true) as -> by (vm_compute in E; by injection E as _ <-).
  destruct Ho as (_ & files & m & Hf & -> & Hm). vm_compute in Hf. injection Hf as <-. exists m. split; [done|]. rewrite !Hm. by vm_compute.
Defined.
End demo.
