(* ===== verification/Loader.v ===== *)
(** * Workflow definitions (workflows/loader.py)

    The loader turns the mapping that a YAML file holds into a definition: inputs, outputs
    and capabilities, the evaluation block with its criteria and weights, and the DAG of
    executable steps, with the fallbacks of experimental definitions and the cache.  The
    files, read and parsed, are a function of the path.  Names of workflows and steps
    that are no strings are outside the model. *)

From Stdlib Require Import QArith Qabs Qcanon Lqa.
From S2P Require Import Prelude PyStr PyVal Messages Dag Context Artifacts Retry Step StepFacts StepThms Governance Tools Scoring JsonRepair AgentStep.

(** ** The data *)

Record WorkflowInput := mkInput {
  wi_name : string;
  wi_type : pyval;
  wi_description : pyval;
  wi_default : pyval;
  wi_required : pyval;
  wi_enum : pyval;
}.

Record WorkflowOutput := mkOutput { wo_name : string; wo_from_expr : pyval; wo_optional : pyval }.

Record WorkflowCapabilities := mkCapabilities { cap_inputs : list string; cap_outputs : list string }.

Record WorkflowCriterion := mkWfCriterion {
  wc_name : string;
  wc_definition : string;
  wc_evidence_required : list string;
  wc_scale : odict string;
  wc_weight : option Q;
  wc_critical_floor : option Q;
  wc_formula_id : string;
}.

Record WorkflowEvaluation := mkEvaluation {
  we_rubric_id : option string;
  we_weights : option (odict Q);
  we_scoring_profile : option string;
  we_criteria : list WorkflowCriterion;
}.

Record WorkflowDefinition (S : Type) := mkDefinition {
  wd_name : string;
  wd_description : pyval;
  wd_version : pyval;
  wd_inputs : odict WorkflowInput;
  wd_outputs : odict WorkflowOutput;
  wd_capabilities : WorkflowCapabilities;
  wd_evaluation : option WorkflowEvaluation;
  wd_experimental : bool;
  wd_dag : @DAG S;
}.
Arguments mkDefinition {S}. Arguments wd_name {S}. Arguments wd_description {S}. Arguments wd_version {S}.
Arguments wd_inputs {S}. Arguments wd_outputs {S}. Arguments wd_capabilities {S}. Arguments wd_evaluation {S}.
Arguments wd_experimental {S}. Arguments wd_dag {S}.

(** [FORMULA_REGISTRY] (evaluation/normalization.py) *)
Definition FORMULA_IDS : list string := ["binary"; "likert_1_5"; "likert_neg2_2"; "lower_is_better"; "zero_one"; "pairwise"].
Definition is_registered_formula (formula_id : string) : bool := bool_decide (formula_id ∈ FORMULA_IDS).

(** [v.items()] and [for x in v] *)
Definition items_of (v : pyval) : res (odict pyval) := match v with VDict d => Ok d | _ => Raise (AttributeError "items") end.
Definition iterate (v : pyval) : res (list pyval) :=
  match v with
  | VList l | VTuple l => Ok l
  | VDict d => Ok (VStr <$> od_keys d)
  | VStr s => Ok ((fun c => VStr (String c EmptyString)) <$> chars s)
  | _ => Raise (TypeError "object is not iterable")
  end.

Definition get_default (k : string) (d : pyval) (m : odict pyval) : pyval := default d (od_get k m).

Fixpoint map_res {A B} (f : A -> res B) (l : list A) : res (list B) :=
  match l with [] => Ok [] | x :: l => y ← f x; ys ← map_res f l; Ok (y :: ys) end.

Section parsing.
Context (repr : pyval -> string).
Abbreviation str := (str_of repr).

Definition parse_inputs (raw : pyval) : res (odict WorkflowInput) :=
  d ← items_of raw;
  Ok (foldl (fun inputs kv =>
        od_set kv.1 (match kv.2 with
                     | VDict m => mkInput kv.1 (get_default "type" (VStr "string") m) (get_default "description" (VStr "") m)
                                    (get_default "default" VNone m) (get_default "required" (VBool true) m) (get_default "enum" VNone m)
                     | v => mkInput kv.1 (VStr "string") (VStr "") v (VBool false) VNone
                     end) inputs) [] d).

Definition parse_outputs (raw : pyval) : res (odict WorkflowOutput) :=
  d ← items_of raw;
  Ok (foldl (fun outputs kv =>
        od_set kv.1 (match kv.2 with
                     | VDict m => mkOutput kv.1 (get_default "from" (VStr "") m) (get_default "optional" (VBool false) m)
                     | v => mkOutput kv.1 v (VBool false)
                     end) outputs) [] d).

Definition named_items (v : pyval) : list string :=
  match v with VList l => filter (fun s => strip s ≠ "") (str <$> l) | _ => [] end.
Definition parse_capabilities (raw : pyval) : WorkflowCapabilities :=
  match raw with
  | VDict d => mkCapabilities (named_items (get_default "inputs" (VList []) d)) (named_items (get_default "outputs" (VList []) d))
  | _ => mkCapabilities [] []
  end.

(** ** The evaluation block *)

Definition criterion_error (name criterion_name problem : string) : exn :=
  WorkflowLoadError ("Workflow '" +:+ name +:+ "' criterion '" +:+ criterion_name +:+ "' " +:+ problem).

Definition parse_evidence_required (v : pyval) (criterion_name name : string) : res (list string) :=
  match v with
  | VNone => Ok []
  | VList l => Ok (str <$> l)
  | _ => Raise (criterion_error name criterion_name "has invalid evidence_required.")
  end.

Definition parse_scale (v : pyval) (criterion_name name : string) : res (odict string) :=
  match v with
  | VDict (kv :: d) => Ok ((fun kv => (kv.1, str kv.2)) <$> kv :: d)
  | _ => Raise (criterion_error name criterion_name "must define anchored scale mapping.")
  end.

Definition parse_formula_id (v : pyval) (criterion_name name : string) : res string :=
  if is_registered_formula (str v) then Ok (str v)
  else Raise (criterion_error name criterion_name ("uses unknown formula_id '" +:+ str v +:+ "'.")).

Definition parse_criterion_weight (v : pyval) (criterion_name name : string) : res (option Q) :=
  match v with
  | VNone => Ok None
  | v => match py_float v with
         | None => Raise (criterion_error name criterion_name "has non-numeric weight.")
         | Some w => if Qle_bool w 0 then Raise (criterion_error name criterion_name "must have positive weight.") else Ok (Some w)
         end
  end.

Definition parse_critical_floor (v : pyval) (criterion_name name : string) : res (option Q) :=
  match v with
  | VNone => Ok None
  | v => match py_float v with
         | None => Raise (criterion_error name criterion_name "has non-numeric critical_floor.")
         | Some f => if Qle_bool 0 f && Qle_bool f 1 then Ok (Some f)
                     else Raise (criterion_error name criterion_name "critical_floor must be in [0,1].")
         end
  end.

Definition parse_criterion (raw : pyval) (name : string) : res WorkflowCriterion :=
  match raw with
  | VDict d =>
      let name_value := get_default "name" VNone d in
      if negb (truthy name_value) then Raise (WorkflowLoadError ("Workflow '" +:+ name +:+ "' criterion missing required 'name'."))
      else
        let criterion_name := str name_value in
        evidence_required ← parse_evidence_required (get_default "evidence_required" (VList []) d) criterion_name name;
        scale ← parse_scale (get_default "scale" (VDict []) d) criterion_name name;
        formula_id ← parse_formula_id (get_default "formula_id" (VStr "zero_one") d) criterion_name name;
        weight ← parse_criterion_weight (get_default "weight" VNone d) criterion_name name;
        floor ← parse_critical_floor (get_default "critical_floor" VNone d) criterion_name name;
        Ok (mkWfCriterion criterion_name (str (get_default "definition" (VStr "") d)) evidence_required scale weight floor formula_id)
  | _ => Raise (WorkflowLoadError ("Workflow '" +:+ name +:+ "' criterion is not a mapping."))
  end.

Definition parse_criteria (raw : pyval) (name : string) : res (list WorkflowCriterion) :=
  match raw with
  | VNone => Ok []
  | VList l => map_res (fun c => parse_criterion c name) l
  | _ => Raise (WorkflowLoadError ("Workflow '" +:+ name +:+ "' has invalid evaluation.criteria (expected list)."))
  end.

(** [abs(total - 1.0) > 0.01] *)
Definition off_one (total : Q) : bool := qlt (1 # 100) (Qabs (total - 1)).

Definition parse_weight (name : string) (kv : string * pyval) : res (string * Q) :=
  match py_float kv.2 with
  | None => Raise (WorkflowLoadError ("Workflow '" +:+ name +:+ "' has non-numeric weight for '" +:+ kv.1 +:+ "'."))
  | Some w => if Qle_bool w 0 then Raise (WorkflowLoadError ("Workflow '" +:+ name +:+ "' has non-positive weight for '" +:+ kv.1 +:+ "'."))
              else Ok (kv.1, w)
  end.

Definition parse_weights (raw : pyval) (name : string) : res (option (odict Q)) :=
  match raw with
  | VNone => Ok None
  | VDict d =>
      weights ← map_res (parse_weight name) d;
      if off_one (qsum weights.*2) then Raise (WorkflowLoadError ("Workflow '" +:+ name +:+ "' evaluation.weights must sum to 1.0 (+/-0.01)."))
      else Ok (Some weights)
  | _ => Raise (WorkflowLoadError ("Workflow '" +:+ name +:+ "' has invalid evaluation.weights (expected mapping)."))
  end.

Definition derived_weights (criteria : list WorkflowCriterion) : odict Q :=
  foldl (fun d c => match wc_weight c with Some w => od_set (wc_name c) w d | None => d end) [] criteria.

Definition derive_weights_from_criteria (criteria : list WorkflowCriterion) (name : string) : res (option (odict Q)) :=
  match derived_weights criteria with
  | [] => Ok None
  | weights =>
      if off_one (qsum weights.*2) then Raise (WorkflowLoadError ("Workflow '" +:+ name +:+ "' criterion weights must sum to 1.0 (+/-0.01)."))
      else Ok (Some weights)
  end.

Definition str_unless_none (v : pyval) : option string := match v with VNone => None | v => Some (str v) end.

Definition parse_evaluation (raw : pyval) (name : string) : res (option WorkflowEvaluation) :=
  match raw with
  | VNone => Ok None
  | VDict d =>
      criteria ← parse_criteria (get_default "criteria" VNone d) name;
      weights ← parse_weights (get_default "weights" VNone d) name;
      weights ← match weights, criteria with None, _ :: _ => derive_weights_from_criteria criteria name | w, _ => Ok w end;
      Ok (Some (mkEvaluation (str_unless_none (get_default "rubric_id" VNone d)) weights
                  (str_unless_none (get_default "scoring_profile" VNone d)) criteria))
  | _ => Raise (WorkflowLoadError ("Workflow '" +:+ name +:+ "' has invalid 'evaluation' block (expected mapping)."))
  end.
End parsing.

(** ** Steps *)

#[export] Instance StepDef_DagStep {E} : DagStep (StepDef E) := {| step_name := sd_name; depends_on := sd_depends_on |}.

Section loader.
Context {E : Type} `{!Collaborators E, !GovernanceEnv (World E), !ToolEnv (World E), !JsonDecoder, !AgentEnv E}.
Abbreviation W := (World E).

Definition parse_step_input_mapping (raw : pyval) : odict pyval := match raw with VDict d => d | _ => [] end.
Definition parse_step_output_mapping (raw : pyval) : odict string :=
  match raw with VDict d => omap (fun kv => match kv.2 with VStr s => Some (kv.1, s) | _ => None end) d | _ => [] end.

(** [evaluator.evaluate(expr)] of an expression that is no string is its truth. *)
Definition build_when_condition (expr : pyval) : option (loc -> M W bool) :=
  if truthy expr then Some (fun ctx => match expr with VStr s => evaluate ctx s | v => ret (truthy v) end) else None.

Definition parse_loop_max (raw : pyval) : Z * option string :=
  let literal := match py_int raw with Some n => (Z.max 1 n, None) | None => (3%Z, None) end in
  match raw with
  | VStr s => if startswith (strip s) "${" then (0%Z, Some (strip s)) else literal
  | _ => literal
  end.

(** [except ArtifactContractConfigError] *)
Definition as_load_error {A} (r : res A) : res A := match r with Raise (ConfigurationError m) => Raise (WorkflowLoadError m) | r => r end.

Definition or_none (v : pyval) : pyval := if truthy v then v else VNone.

(** A loop that is to go on until a true value that is no string stops at once. *)
Definition loop_until_of (v : pyval) : option string :=
  if truthy v then Some (match v with VStr s => s | _ => "True" end) else None.

Definition step_metadata (data : odict pyval) (loop_max_expr : option string) : odict pyval :=
  [("agent", get_default "agent" VNone data);
   ("when_expr", get_default "when" VNone data);
   ("loop_max_expr", str_or_none loop_max_expr);
   ("prompt_file", or_none (get_default "prompt_file" VNone data));
   ("tools", match get_default "tools" VNone data with VList l => VList l | _ => VNone end);
   ("model_override", match get_default "model_override" VNone data with VStr s => VStr s | _ => get_default "model" VNone data end)].

(** [_parse_step]: the definition, and its description.  Dependencies are iterated over;
    what cannot be is refused here. *)
Definition parse_step (raw : pyval) : res (StepDef E * string) :=
  match raw with
  | VDict data =>
      match get_default "name" VNone data with
      | VStr name =>
          if decide (name = "") then Raise (WorkflowLoadError "Step must have a 'name' field")
          else
            let input_mapping := parse_step_input_mapping (get_default "inputs" (VDict []) data) in
            let output_mapping := parse_step_output_mapping (get_default "outputs" (VDict []) data) in
            input_contracts ← as_load_error (parse_artifact_contracts (get_default "input_contracts" VNone data));
            output_contracts ← as_load_error (parse_artifact_contracts (get_default "output_contracts" VNone data));
            _ ← as_load_error (validate_contract_bindings input_contracts input_mapping);
            _ ← as_load_error (validate_contract_bindings output_contracts output_mapping);
            dependencies ← iterate (get_default "depends_on" (VList []) data);
            let '(loop_max, loop_max_expr) := parse_loop_max (get_default "loop_max" (VInt 3) data) in
            Ok (mkStepDef E name (Some 0%Z) None None default_retry is_exception
                  (build_when_condition (get_default "when" VNone data)) None (loop_until_of (get_default "loop_until" VNone data))
                  (Some loop_max) (str <$> dependencies) input_mapping output_mapping input_contracts output_contracts [] [] [] None
                  (step_metadata data loop_max_expr),
                str (get_default "description" (VStr "") data))
      | v => if truthy v then Raise (TypeError "step names are strings") else Raise (WorkflowLoadError "Step must have a 'name' field")
      end
  | _ => Raise (AttributeError "get")
  end.

(** Parse, bind the function, add. *)
Definition load_step (dag : @DAG (StepDef E)) (raw : pyval) : res (@DAG (StepDef E)) :=
  p ← parse_step raw;
  step ← resolve_agent p.2 p.1;
  add dag step.

Fixpoint load_steps (dag : @DAG (StepDef E)) (l : list pyval) : res (@DAG (StepDef E)) :=
  match l with [] => Ok dag | x :: l => dag ← load_step dag x; load_steps dag l end.

(** [_load_experimental_nested_steps]: what does not load is passed over. *)
Definition load_nested_step (dag : @DAG (StepDef E)) (raw : pyval) : @DAG (StepDef E) :=
  match raw with
  | VDict data =>
      if od_mem "name" data && od_mem "agent" data then match load_step dag raw with Ok dag => dag | Raise _ => dag end else dag
  | _ => dag
  end.

Definition placeholder_step : StepDef E :=
  mkStepDef E "experimental_placeholder" (Some 0%Z) None None default_retry is_exception None None None (Some 3%Z) [] [] [] [] [] [] [] [] None
    [("agent", VStr "tier0_parser")].

Definition add_experimental_placeholder (dag : @DAG (StepDef E)) : res (@DAG (StepDef E)) :=
  step ← resolve_agent "Placeholder step for experimental workflow" placeholder_step;
  add dag step.

Definition handle_empty_dag (dag : @DAG (StepDef E)) (data : odict pyval) (name : string) (experimental : bool) : res (@DAG (StepDef E)) :=
  let nested := match get_default "workflow" (VDict []) data with
                | VDict d => let steps := get_default "steps" VNone d in if truthy steps then Some steps else None
                | _ => None
                end in
  dag ← match nested with
        | Some steps =>
            if experimental then l ← iterate steps; Ok (foldl load_nested_step dag l)
            else Raise (WorkflowLoadError ("Workflow '" +:+ name +:+ "' has steps nested under 'workflow.steps' instead of top-level 'steps'."))
        | None => Ok dag
        end;
  if experimental then
    match dag_steps dag with [] => add_experimental_placeholder dag | _ => Ok dag end
  else Raise (WorkflowLoadError ("Workflow '" +:+ name +:+ "' has no executable steps.")).

Definition build_dag (data : odict pyval) (name : string) (description : pyval) (experimental : bool) : res (@DAG (StepDef E)) :=
  l ← iterate (get_default "steps" (VList []) data);
  dag ← load_steps (mkDAG name (str description) []) l;
  match dag_steps dag with [] => handle_empty_dag dag data name experimental | _ => Ok dag end.

Definition parse_definition (data : odict pyval) (default_name : string) : res (WorkflowDefinition (StepDef E)) :=
  match get_default "name" (VStr default_name) data with
  | VStr name =>
      let description := get_default "description" (VStr "") data in
      let experimental := truthy (get_default "experimental" (VBool false) data) in
      inputs ← parse_inputs (get_default "inputs" (VDict []) data);
      outputs ← parse_outputs (get_default "outputs" (VDict []) data);
      evaluation ← parse_evaluation Tools.repr (get_default "evaluation" VNone data) name;
      dag ← build_dag data name description experimental;
      Ok (mkDefinition name description (get_default "version" (VStr "1.0") data) inputs outputs
            (parse_capabilities Tools.repr (get_default "capabilities" VNone data)) evaluation experimental dag)
  | _ => Raise (TypeError "workflow names are strings")
  end.

(** ** Files and the cache *)

(** A file: the value its YAML holds, or the message of its error. *)
Definition Files : Type := string -> option (pyval + string).

(** [path.stem] of [name.yaml] *)
Definition stem (name : string) : string := default name (last (split_on "/"%char name)).

Definition parse_file (path default_name : string) (content : pyval + string) : res (WorkflowDefinition (StepDef E)) :=
  match content with
  | inr e => Raise (WorkflowLoadError ("Invalid YAML in " +:+ path +:+ ": " +:+ e))
  | inl (VDict data) => parse_definition data default_name
  | inl _ => Raise (WorkflowLoadError ("Workflow must be a YAML mapping: " +:+ path))
  end.

Definition find_file (files : Files) (name : string) : option (string * (pyval + string)) :=
  match files (name +:+ ".yaml") with
  | Some c => Some (name +:+ ".yaml", c)
  | None => (fun c => (name +:+ ".yml", c)) <$> files (name +:+ ".yml")
  end.

(** [WorkflowLoader.load] over its cache *)
Definition load (files : Files) (cache : odict (WorkflowDefinition (StepDef E))) (name : string) (use_cache : bool)
    : odict (WorkflowDefinition (StepDef E)) * res (WorkflowDefinition (StepDef E)) :=
  match (if use_cache then od_get name cache else None) with
  | Some workflow => (cache, Ok workflow)
  | None =>
      match find_file files name with
      | None => (cache, Raise (WorkflowLoadError ("Workflow '" +:+ name +:+ "' not found.")))
      | Some (path, content) =>
          match parse_file path (stem name) content with
          | Ok workflow => (if use_cache then od_set name workflow cache else cache, Ok workflow)
          | Raise e => (cache, Raise e)
          end
      end
  end.
End loader.

(** ** Correctness *)

Lemma map_res_ok {A B} (P : B -> Prop) (f : A -> res B) l l' : map_res f l = Ok l' -> (forall x y, f x = Ok y -> P y) -> Forall P l'.
Proof.
  intros Hl Hf. revert l' Hl. induction l as [|x l IH]; cbn; intros l' Hl; [by inv_ok|].
  apply res_bind_ok in Hl as (y & Hy & Hl). apply res_bind_ok in Hl as (ys & Hys & [= <-]). constructor; eauto.
Qed.

Lemma map_res_raise {A B} (f : A -> res B) l e : map_res f l = Raise e -> exists x, f x = Raise e.
Proof.
  induction l as [|x l IH]; cbn; [done|]. destruct (f x) as [y|e'] eqn:Ef; cbn; [|intros [= <-]; by exists x].
  destruct (map_res f l) as [ys|e']; cbn; [done|]. intros [= <-]. by apply IH.
Qed.

(** *** The evaluation block *)

Definition good_criterion (c : WorkflowCriterion) : Prop :=
  wc_formula_id c ∈ FORMULA_IDS /\ wc_scale c ≠ [] /\
  match wc_weight c with Some w => (0 < w)%Q | None => True end /\
  match wc_critical_floor c with Some f => (0 <= f <= 1)%Q | None => True end.

Definition good_weights (w : odict Q) : Prop := Forall (Qlt 0) w.*2 /\ (Qabs (qsum w.*2 - 1) <= 1 # 100)%Q.

Lemma not_off_one q : off_one q = false -> (Qabs (q - 1) <= 1 # 100)%Q.
Proof. unfold off_one. destruct (qlt_spec (1 # 100) (Qabs (q - 1))%Q); [done|]. intros _. by apply Qnot_lt_le. Qed.

Section evaluation.
Context (repr : pyval -> string).

Lemma parse_weight_ok v cn n w : parse_criterion_weight v cn n = Ok w -> match w with Some w => (0 < w)%Q | None => True end.
Proof. unfold parse_criterion_weight. destruct v; try (by intros [= <-]); cbn; repeat case_match; intros [= <-]; try done; by apply Qnot_le_lt; rewrite <- Qle_bool_iff; congruence. Qed.

Lemma parse_floor_ok v cn n f : parse_critical_floor v cn n = Ok f -> match f with Some f => (0 <= f <= 1)%Q | None => True end.
Proof.
  unfold parse_critical_floor. destruct v; try (by intros [= <-]); cbn; repeat case_match; intros [= <-]; try done;
    repeat match goal with H : _ && _ = true |- _ => apply andb_true_iff in H as [? ?] end; by rewrite <- !Qle_bool_iff.
Qed.

Lemma parse_criterion_good raw n c : parse_criterion repr raw n = Ok c -> good_criterion c.
Proof.
  unfold parse_criterion. destruct raw as [| | | | | | |d|]; try done. destruct (negb _); [done|]. intros Hc.
  apply res_bind_ok in Hc as (ev & _ & Hc). apply res_bind_ok in Hc as (sc & Hs & Hc). apply res_bind_ok in Hc as (fi & Hf & Hc).
  apply res_bind_ok in Hc as (w & Hw & Hc). apply res_bind_ok in Hc as (fl & Hfl & [= <-]). unfold good_criterion. cbn [wc_formula_id wc_scale wc_weight wc_critical_floor].
  split; [|split; [|split; [by eapply parse_weight_ok|by eapply parse_floor_ok]]].
  - unfold parse_formula_id, is_registered_formula in Hf. case_bool_decide; by simplify_eq.
  - unfold parse_scale in Hs. repeat case_match; by simplify_eq.
Qed.

(** Every error of the block is a load error. *)
Definition load_error (e : exn) : Prop := exists m, e = WorkflowLoadError m.

Lemma parse_criterion_error raw n e : parse_criterion repr raw n = Raise e -> load_error e.
Proof.
  unfold parse_criterion. destruct raw as [| | | | | | |d|]; try (intros [= <-]; by eexists). destruct (negb _); [intros [= <-]; by eexists|].
  assert (forall A (r : res A) B (f : A -> res B), (forall e, r = Raise e -> load_error e) -> (forall a, f a = Raise e -> load_error e) -> r ≫= f = Raise e -> load_error e) as Hb.
  { intros A r B f Hr Hf. destruct r as [a|e']; cbn; [apply Hf|intros [= <-]; by apply Hr]. }
  apply Hb; [|intros ev; apply Hb; [|intros sc; apply Hb; [|intros fi; apply Hb; [|intros w; apply Hb; [|done]]]]]; clear; intros e.
  - unfold parse_evidence_required. case_match; try done; intros [= <-]; by eexists.
  - unfold parse_scale. repeat case_match; try done; intros [= <-]; by eexists.
  - unfold parse_formula_id. case_match; try done; intros [= <-]; by eexists.
  - unfold parse_criterion_weight. repeat case_match; try done; intros [= <-]; by eexists.
  - unfold parse_critical_floor. repeat case_match; try done; intros [= <-]; by eexists.
Qed.

Lemma parse_criteria_spec raw n :
  match parse_criteria repr raw n with Ok l => Forall good_criterion l | Raise e => load_error e end.
Proof.
  unfold parse_criteria. destruct raw as [| | | | |l| | |]; try by eexists; try constructor. by constructor.
  destruct (map_res _ l) as [l'|e] eqn:E.
  - eapply map_res_ok; [exact E|]. cbn. intros x y. apply parse_criterion_good.
  - apply map_res_raise in E as [x Hx]. by eapply parse_criterion_error.
Qed.

Lemma parse_weights_spec raw n :
  match parse_weights raw n with Ok (Some w) => good_weights w | Ok None => raw = VNone | Raise e => load_error e end.
Proof.
  unfold parse_weights. destruct raw as [| | | | | | |d|]; try done; try by eexists.
  destruct (map_res (parse_weight n) d) as [w|e] eqn:E; cbn [mbind res_bind].
  - destruct (off_one _) eqn:Ho; [by eexists|]. split; [|by apply not_off_one]. apply Forall_fmap. eapply map_res_ok; [exact E|]. unfold parse_weight. intros x y.
    repeat case_match; intros [= <-]. cbn. apply Qnot_le_lt. rewrite <- Qle_bool_iff. congruence.
  - apply map_res_raise in E as [x Hx]. unfold parse_weight in Hx. repeat case_match; simplify_eq; by eexists.
Qed.

Lemma derived_positive criteria : Forall good_criterion criteria -> Forall (Qlt 0) (derived_weights criteria).*2.
Proof.
  intros Hc. unfold derived_weights. assert (Forall (Qlt 0) (@nil (string * Q)).*2) as Hd by constructor. revert Hd. generalize (@nil (string * Q)).
  induction Hc as [|c l (_ & _ & Hw & _) Hl IH]; intros d Hd; [done|]. cbn [foldl]. apply IH. destruct (wc_weight c) as [w|]; [|done].
  clear -Hd Hw. induction d as [|[k v] d IHd]; cbn; [by repeat constructor|]. apply Forall_cons in Hd as [Hv Hd]. case_decide; cbn; constructor; auto.
Qed.

Lemma derived_nil criteria : derived_weights criteria = [] -> Forall (fun c => wc_weight c = None) criteria.
Proof.
  unfold derived_weights. assert (forall l (d : odict Q), d ≠ [] -> foldl (fun d c => match wc_weight c with Some w => od_set (wc_name c) w d | None => d end) d l ≠ []) as Hne.
  { induction l as [|c l IH]; intros d Hd; [done|]. apply IH. destruct (wc_weight c); [|done]. destruct d as [|[k v] d]; cbn; [done|]. by case_decide. }
  induction criteria as [|c l IH]; [constructor|]. cbn [foldl]. destruct (wc_weight c) as [w|] eqn:Ew; [|by constructor; [|apply IH]].
  intros Hd. exfalso. by eapply Hne, Hd.
Qed.

(** An evaluation block that loads is well formed.  Every criterion uses a registered
    formula, has anchors for its scale, and its weight is positive and its floor within
    [0, 1] where it gives one; the weights are positive and sum to one within a
    hundredth, and there are none only if no criterion gives one.  A block that does not
    load raises a load error and nothing else. *)
Theorem evaluation_sound raw name :
  match parse_evaluation repr raw name with
  | Ok None => raw = VNone
  | Ok (Some e) =>
      Forall good_criterion (we_criteria e) /\
      match we_weights e with Some w => good_weights w | None => Forall (fun c => wc_weight c = None) (we_criteria e) end
  | Raise e => load_error e
  end.
Proof.
  unfold parse_evaluation. destruct raw as [| | | | | | |d|]; try done; try by eexists.
  pose proof (parse_criteria_spec (get_default "criteria" VNone d) name) as Hc. destruct (parse_criteria _ _ _) as [criteria|e]; cbn [mbind res_bind]; [|done].
  pose proof (parse_weights_spec (get_default "weights" VNone d) name) as Hw. destruct (parse_weights _ _) as [[w|]|e]; cbn [mbind res_bind]; [by split| |done].
  destruct criteria as [|c l]; [cbn; split; [done|constructor]|]. unfold derive_weights_from_criteria.
  destruct (derived_weights (c :: l)) as [|kv w] eqn:Ed; [split; [done|by apply derived_nil]|].
  destruct (off_one (qsum (kv :: w).*2)) eqn:Ho; [by eexists|]. split; [done|]. split; [|by apply not_off_one]. cbn [we_weights]. rewrite <- Ed. by apply derived_positive.
Qed.
End evaluation.

(** *** The steps *)
Section steps.
Context {E : Type} `{!Collaborators E, !GovernanceEnv (World E), !ToolEnv (World E), !JsonDecoder, !AgentEnv E}.
Implicit Types (sd : StepDef E) (dag : @DAG (StepDef E)).

(** What the executor needs of a step. *)
Definition executable (name : string) sd : Prop :=
  sd_name sd = name /\ name ≠ "" /\ is_Some (sd_func sd) /\ (exists t, sd_tier sd = Some t /\ (0 <= t <= 5)%Z) /\
  (exists n, sd_loop_max sd = Some n /\ (0 <= n)%Z /\ (n = 0%Z <-> exists e, od_get "loop_max_expr" (sd_metadata sd) = Some (VStr e))) /\
  od_keys (sd_input_contracts sd) ⊆ od_keys (sd_input_mapping sd) /\ od_keys (sd_output_contracts sd) ⊆ od_keys (sd_output_mapping sd).

Definition executable_steps (steps : odict (StepDef E)) : Prop :=
  NoDup (od_keys steps) /\ forall name sd, od_get name steps = Some sd -> executable name sd.

Lemma infer_tier_range a : (0 <= infer_tier a <= 5)%Z.
Proof. unfold infer_tier. repeat case_match; lia. Qed.

Lemma resolve_executable desc sd sd' : resolve_agent desc sd = Ok sd' -> sd_func sd = None ->
  sd_name sd' = sd_name sd /\ is_Some (sd_func sd') /\ (exists t, sd_tier sd' = Some t /\ (0 <= t <= 5)%Z) /\
  sd_loop_max sd' = sd_loop_max sd /\ sd_metadata sd' = sd_metadata sd /\
  sd_input_contracts sd' = sd_input_contracts sd /\ sd_input_mapping sd' = sd_input_mapping sd /\
  sd_output_contracts sd' = sd_output_contracts sd /\ sd_output_mapping sd' = sd_output_mapping sd.
Proof.
  intros Hr Hf. unfold resolve_agent in Hr. rewrite Hf in Hr. destruct (od_get "agent" _) as [v|]; [|done].
  destruct v; try (destruct (truthy _); discriminate Hr). case_decide; [done|]. pose proof (infer_tier_range s) as Ht. cbv zeta in Hr.
  assert (forall f, sd' = set_func (Some (infer_tier s)) f sd -> sd_name sd' = sd_name sd /\ is_Some (sd_func sd') /\
    (exists t, sd_tier sd' = Some t /\ (0 <= t <= 5)%Z) /\ sd_loop_max sd' = sd_loop_max sd /\ sd_metadata sd' = sd_metadata sd /\
    sd_input_contracts sd' = sd_input_contracts sd /\ sd_input_mapping sd' = sd_input_mapping sd /\
    sd_output_contracts sd' = sd_output_contracts sd /\ sd_output_mapping sd' = sd_output_mapping sd) as Hset.
  { intros f ->. cbn. split_and!; try done. by exists (infer_tier s). }
  destruct (if decide _ then _ else _) as [f|]; [|destruct (match od_get "prompt_file" _ with Some _ => _ | None => _ end); [done|]]; injection Hr as <-; by eapply Hset.
Qed.

Lemma validate_bound {A} contracts (declared : odict A) : validate_contract_bindings contracts declared = Ok tt -> od_keys contracts ⊆ od_keys declared.
Proof.
  unfold validate_contract_bindings. case_decide as Hk; [|done]. intros _ k Hin. destruct (decide (k ∈ od_keys declared)) as [|Hn]; [done|].
  assert (k ∈ filter (fun k => k ∉ od_keys declared) (od_keys contracts)) as Hf by by apply list_elem_of_filter. rewrite Hk in Hf. by apply elem_of_nil in Hf.
Qed.

Lemma as_load_ok {A} (r : res A) a : as_load_error r = Ok a -> r = Ok a.
Proof. by destruct r as [|[]]. Qed.

Lemma parse_step_spec raw sd desc : parse_step raw = Ok (sd, desc) ->
  sd_func sd = None /\ sd_name sd ≠ "" /\
  (exists n, sd_loop_max sd = Some n /\ (0 <= n)%Z /\ (n = 0%Z <-> exists e, od_get "loop_max_expr" (sd_metadata sd) = Some (VStr e))) /\
  od_keys (sd_input_contracts sd) ⊆ od_keys (sd_input_mapping sd) /\ od_keys (sd_output_contracts sd) ⊆ od_keys (sd_output_mapping sd) /\
  od_get "tool_path" (sd_metadata sd) = None /\ od_get "tool_choice" (sd_metadata sd) = None.
Proof.
  unfold parse_step. destruct raw as [| | | | | | |data|]; try done. destruct (get_default "name" VNone data) as [| | | |name| | | |]; try (cbn; by repeat case_match).
  case_decide as Hn; [done|]. intros Hp. apply res_bind_ok in Hp as (ic & _ & Hp). apply res_bind_ok in Hp as (oc & _ & Hp).
  apply res_bind_ok in Hp as ([] & Hi & Hp). apply res_bind_ok in Hp as ([] & Ho & Hp). apply res_bind_ok in Hp as (deps & _ & Hp).
  destruct (parse_loop_max _) as [n ex] eqn:El. injection Hp as <- _. apply as_load_ok, validate_bound in Hi. apply as_load_ok, validate_bound in Ho.
  cbn [sd_func sd_name sd_loop_max sd_metadata sd_input_contracts sd_input_mapping sd_output_contracts sd_output_mapping].
  split; [done|]. split; [done|]. split; [|done]. exists n. split; [done|]. unfold parse_loop_max in El.
  change (od_get "loop_max_expr" (step_metadata data ex)) with (Some (str_or_none ex)).
  assert (forall raw, match py_int raw with Some n => (Z.max 1 n, None) | None => (3%Z, None) end = (n, ex) ->
    (0 <= n)%Z /\ (n = 0%Z <-> exists e, Some (str_or_none ex) = Some (VStr e))) as Hlit.
  { intros r Hr. assert (ex = None /\ (0 < n)%Z) as [-> Hpos] by (destruct (py_int r); simplify_eq; split; [done|lia|done|lia]).
    split; [lia|]. split; [lia|]. intros [e He]. discriminate He. }
  destruct (get_default "loop_max" (VInt 3) data) as [| | | |s| | | |];
    try match type of El with match py_int ?v with _ => _ end = _ => exact (Hlit v El) end.
  destruct (startswith (strip s) "${"); [|exact (Hlit (VStr s) El)]. injection El as <- <-. split; [done|]. split; [intros _; by exists (strip s)|done].
Qed.

Lemma add_executable dag sd dag' : add dag sd = Ok dag' -> executable (sd_name sd) sd -> executable_steps (dag_steps dag) ->
  executable_steps (dag_steps dag') /\ dag_steps dag' ≠ [].
Proof.
  unfold add. destruct (od_mem _ _) eqn:Hm; [done|]. intros [= <-] Hsd [Hn Hx]. cbn. split.
  - split; [by apply NoDup_od_set|]. intros k x. rewrite od_get_set. case_decide; [by intros [= <-]; subst|apply Hx].
  - destruct (dag_steps dag) as [|[k v] d]; cbn; [done|]. by case_decide.
Qed.

Lemma load_step_executable dag raw dag' : load_step dag raw = Ok dag' -> executable_steps (dag_steps dag) ->
  executable_steps (dag_steps dag') /\ dag_steps dag' ≠ [].
Proof.
  intros Hl Hx. unfold load_step in Hl. apply res_bind_ok in Hl as ([sd desc] & Hp & Hl). apply res_bind_ok in Hl as (sd' & Hr & Ha).
  apply parse_step_spec in Hp as (Hf & Hn & Hm & Hi & Ho & _). cbn [fst snd] in Hr. apply resolve_executable in Hr as (H1 & H2 & H3 & H4 & H5 & H6 & H7 & H8 & H9); [|done].
  eapply add_executable; [exact Ha| |done]. split; [done|]. rewrite H1, H4, H5, H6, H7, H8, H9. done.
Qed.

Lemma load_steps_executable l : forall dag dag', load_steps dag l = Ok dag' -> executable_steps (dag_steps dag) -> executable_steps (dag_steps dag').
Proof.
  induction l as [|x l IH]; cbn; intros dag dag' Hl Hx; [by injection Hl as <-|]. apply res_bind_ok in Hl as (d & Hd & Hl). eapply IH; [exact Hl|]. by eapply load_step_executable.
Qed.

Lemma load_nested_executable l : forall dag, executable_steps (dag_steps dag) -> executable_steps (dag_steps (foldl load_nested_step dag l)).
Proof.
  induction l as [|x l IH]; intros dag Hx; [done|]. apply IH. unfold load_nested_step. destruct x; try done. case_match; [|done].
  destruct (load_step dag _) as [dag1|] eqn:Hd; [|done]. by eapply load_step_executable.
Qed.

Lemma executable_none : executable_steps [].
Proof. split; [constructor|done]. Qed.

Lemma build_dag_executable data name description experimental dag : build_dag data name description experimental = Ok dag ->
  executable_steps (dag_steps dag) /\ dag_steps dag ≠ [].
Proof.
  unfold build_dag. intros Hb. apply res_bind_ok in Hb as (l & _ & Hb). apply res_bind_ok in Hb as (d & Hd & Hb).
  apply load_steps_executable in Hd; [|apply executable_none]. destruct (dag_steps d) as [|kv steps] eqn:Es; [|injection Hb as <-; by rewrite Es].
  unfold handle_empty_dag in Hb. apply res_bind_ok in Hb as (d' & Hd' & Hb).
  assert (executable_steps (dag_steps d')) as Hx.
  { rewrite <- Es in Hd. destruct (match get_default "workflow" _ _ with VDict _ => _ | _ => _ end); [|by injection Hd' as <-]. destruct experimental; [|done].
    apply res_bind_ok in Hd' as (l' & _ & [= <-]). by apply load_nested_executable. }
  destruct experimental; [|done]. destruct (dag_steps d') as [|kv' steps'] eqn:Es'; [|injection Hb as <-; by rewrite Es'].
  apply res_bind_ok in Hb as (sd & Hr & Ha). apply resolve_executable in Hr as (H1 & H2 & H3 & H4 & H5 & H6 & H7 & H8 & H9); [|done].
  eapply add_executable; [exact Ha| |by rewrite Es']. rewrite H1. split; [done|]. rewrite H4, H5, H6, H7, H8, H9. cbn. split_and!; try done.
  exists 3%Z. split; [done|]. split; [done|]. split; [done|]. by intros [].
Qed.

(** C26. What loads can run.  A definition that loads has at least one step, its steps are
    registered under their own distinct names, and each has a function to call, a model
    tier from 0 to 5, a loop bound that is positive unless an expression stands for it, and
    contracts only for values that it maps. *)
Theorem loaded_executable data default_name wd : parse_definition data default_name = Ok wd ->
  dag_steps (wd_dag wd) ≠ [] /\ executable_steps (dag_steps (wd_dag wd)).
Proof.
  unfold parse_definition. destruct (get_default _ _ _); try done. intros Hp. apply res_bind_ok in Hp as (i & _ & Hp). apply res_bind_ok in Hp as (o & _ & Hp).
  apply res_bind_ok in Hp as (e & _ & Hp). apply res_bind_ok in Hp as (dag & Hd & [= <-]). apply build_dag_executable in Hd as [H1 H2]. by split.
Qed.

(** The cache answers without the file; a load that fails leaves it alone. *)
Lemma load_cached (files : Files) cache name cache' r : load files cache name true = (cache', r) ->
  match r with
  | Ok wd => forall files', load files' cache' name true = (cache', Ok wd)
  | Raise _ => cache' = cache
  end.
Proof.
  unfold load. destruct (od_get name cache) as [wd|] eqn:Hc; [intros [= <- <-]; intros files'; by rewrite Hc|].
  destruct (find_file files name) as [[path content]|]; [|by intros [= <- <-]].
  destruct (parse_file _ _ _) as [wd|e]; intros [= <- <-]; [|done]. intros files'. by rewrite od_get_set_eq.
Qed.
End steps.

(** *** Instances *)
Section demo.
#[local] Existing Instances demo_decoder demo_collaborators demo_governance_env demo_tool_environment demo_agent_env.

Definition step_data (name agent : string) (deps : list string) : pyval :=
  VDict [("name", VStr name); ("agent", VStr agent); ("depends_on", VList (VStr <$> deps)); ("tool_path", VStr "native")].
Definition demo_data : odict pyval :=
  [("name", VStr "review"); ("inputs", VDict [("path", VStr ".")]);
   ("steps", VList [step_data "parse" "tier0_parser" []; step_data "check" "tier2_reviewer" ["parse"]])].

Lemma loaded_executable_witness : exists wd check,
  parse_definition demo_data "x" = Ok wd /\ od_get "check" (dag_steps (wd_dag wd)) = Some check /\ is_Some (sd_func check) /\ sd_depends_on check = ["parse"].
Proof.
  assert (is_ok (parse_definition demo_data "x") = true) as Hok by (vm_compute; reflexivity).
  destruct (parse_definition demo_data "x") as [wd|e] eqn:E; [|discriminate Hok]. clear Hok.
  destruct (loaded_executable demo_data "x" wd E) as [_ [_ Hx]].
  assert (sd_depends_on <$> od_get "check" (dag_steps (wd_dag wd)) = Some ["parse"]) as Hd.
  { transitivity (match parse_definition demo_data "x" with Ok wd => sd_depends_on <$> od_get "check" (dag_steps (wd_dag wd)) | Raise _ => None end); [by rewrite E|vm_compute; reflexivity]. }
  destruct (od_get "check" (dag_steps (wd_dag wd))) as [check|] eqn:Hc; [|discriminate Hd].
  exists wd, check. split; [reflexivity|]. split; [exact Hc|]. split; [|by injection Hd]. destruct (Hx "check" check Hc) as (_ & _ & Hf & _). exact Hf.
Defined.

(** A definition whose steps wait for each other loads, and only the run refuses it. *)
Example cyclic_definition_loads :
  match parse_definition [("steps", VList [step_data "a" "tier0_parser" ["b"]; step_data "b" "tier0_parser" ["a"]])] "loop" with
  | Ok wd => match validate (wd_dag wd) with Raise (CycleDetectedError _) => true | _ => false end
  | Raise _ => false
  end = true.
Proof. vm_compute. reflexivity. Qed.

(** Weights that leave out a weighted criterion, and a formula that no score satisfies,
    load. *)
Definition partial_weights : pyval :=
  VDict [("weights", VDict [("correctness", VInt 1)]);
         ("criteria", VList [VDict [("name", VStr "correctness"); ("scale", VDict [("1", VStr "bad")])];
                             VDict [("name", VStr "style"); ("scale", VDict [("1", VStr "bad")]); ("weight", VFloat (Q2Qc (1 # 2)));
                                    ("formula_id", VStr "lower_is_better")]])].
Example partial_weights_load : is_ok (parse_evaluation (fun _ => "") partial_weights "w") = true.
Proof. by vm_compute. Qed.
End demo.
