(* ===== verification/Judge.v ===== *)
(** * The LLM judge (scoring/judge.py)

    The prompt of the judge, the extraction and the validation of its answer, the scores
    of the criteria, the check against the swapped order and the calibration.  The
    response provider and the client are the interface [JudgeBackend]; the shuffling by a
    seed and the hash that seeds it are functions, and so is [json.loads]. *)

From stdpp Require Import pretty sorting.
From Stdlib Require Import QArith Qabs Qminmax Qcanon Lqa.
From S2P Require Import Prelude PyStr PyVal Messages Step StepFacts Scoring CanonicalJson JsonRepair AgentStep.
Local Open Scope Q_scope.

Record JudgeCriterionDefinition := mkJudgeCriterion { jc_name : string; jc_definition : string; jc_scale : odict string }.
#[export] Instance judge_criterion_eq_dec : EqDecision JudgeCriterionDefinition.
Proof. solve_decision. Defined.
Record JudgeCriterionScore := mkJudgeScore { js_name : string; js_raw_score : Q; js_normalized_score : Q; js_evidence : string }.
Record JudgeEvaluationResult := mkJudgeResult {
  jr_criteria : list JudgeCriterionScore;
  jr_normalized_score : Q;
  jr_model : string;
  jr_model_version : string;
  jr_prompt_version : string;
  jr_temperature : Q;
  jr_pairwise_consistent : option bool;
  jr_inconsistency_reasons : list string;
}.

(** [round(q, n)] of the payloads *)
Definition round2 (q : Q) : Q := round4 (q / 100) * 100.

Definition judge_payload (r : JudgeEvaluationResult) : pyval :=
  VDict [("criteria", VList ((fun c => VDict [("name", VStr (js_name c)); ("raw_score", vfloat (round4 (js_raw_score c)));
             ("normalized_score", vfloat (round4 (js_normalized_score c))); ("evidence", VStr (js_evidence c))]) <$> jr_criteria r));
         ("normalized_score", vfloat (round4 (jr_normalized_score r)));
         ("score", vfloat (round2 (jr_normalized_score r * 100)));
         ("model", VStr (jr_model r)); ("model_version", VStr (jr_model_version r)); ("prompt_version", VStr (jr_prompt_version r));
         ("temperature", vfloat (jr_temperature r));
         ("pairwise_consistent", match jr_pairwise_consistent r with Some b => VBool b | None => VNone end);
         ("inconsistency_reasons", VList (VStr <$> jr_inconsistency_reasons r))].

(** ** Answers *)

Section answers.
Context (repr : pyval -> string) (json_loads : string -> pyval + PyExc).

(** [_canonical_criterion_name] *)
Definition canonical_name (v : pyval) : string := strip (str_of repr v).

(** [\{.*\}]: from the first brace to the last. *)
Definition extract_first_json_object (raw : string) : pyval + PyExc :=
  let raw := strip raw in
  if decide (raw = "") then inr (exc_of (ValueError "Judge returned empty output"))
  else if startswith raw "{" then json_loads raw
  else match bracket_span (chars raw) "{" "}" with
       | Some object => json_loads (of_chars object)
       | None => inr (exc_of (ValueError "Judge output did not contain a JSON object"))
       end.

Definition is_number (v : pyval) : bool := match v with VInt _ | VFloat _ | VBool _ => true | _ => false end.

(** [_validate_judge_criterion_item]: its errors, and the names seen. *)
Definition validate_judge_criterion_item (idx : nat) (item : pyval) (seen : list string) : list string * list string :=
  let at_idx := "criteria[" +:+ pretty idx +:+ "]" in
  match item with
  | VDict d =>
      let missing := filter (fun k => od_mem k d = false) ["name"; "score"; "evidence"] in
      let name_error := at_idx +:+ ".name must be non-empty string" in
      let '(name_errors, seen) :=
        match od_get "name" d with
        | Some (VStr s) => if decide (strip s = "") then ([name_error], seen) else ([], canonical_name (VStr s) :: seen)
        | _ => ([name_error], seen)
        end in
      let score_errors :=
        match od_get "score" d with
        | Some v =>
            if is_number v then
              match py_float v with
              | Some q => if qlt q 1 || qlt 5 q then [at_idx +:+ ".score must be in [1, 5]"] else []
              | None => []
              end
            else [at_idx +:+ ".score must be numeric"]
        | None => [at_idx +:+ ".score must be numeric"]
        end in
      let evidence_errors := match od_get "evidence" d with Some (VStr _) => [] | _ => [at_idx +:+ ".evidence must be string"] end in
      (((fun k => at_idx +:+ " missing key: " +:+ k) <$> missing) ++ name_errors ++ score_errors ++ evidence_errors, seen)
  | _ => ([at_idx +:+ " must be an object"], seen)
  end.

Fixpoint validate_items (idx : nat) (items : list pyval) (seen : list string) : list string * list string :=
  match items with
  | [] => ([], seen)
  | x :: rest =>
      let '(errors, seen) := validate_judge_criterion_item idx x seen in
      let '(more, seen) := validate_items (S idx) rest seen in
      (errors ++ more, seen)
  end.

(** [validate_judge_structured_output]: the errors. *)
Definition validate_judge_structured_output (payload : pyval) (expected_criteria : list string) : list string :=
  match payload with
  | VDict d =>
      match od_get "criteria" d with
      | Some (VList ((_ :: _) as items)) =>
          let '(errors, seen) := validate_items 0 items [] in
          let missing := filter (fun n => n ∉ seen) (remove_dups ((fun n => canonical_name (VStr n)) <$> expected_criteria)) in
          errors ++ match missing with [] => [] | _ => ["missing criteria: " +:+ join ", " (merge_sort str_le missing)] end
      | _ => ["criteria must be a non-empty list"]
      end
  | _ => ["payload must be a mapping"]
  end.

Definition criteria_of (payload : pyval) : res (list pyval) :=
  match payload with
  | VDict d => match default (VList []) (od_get "criteria" d) with VList l => Ok l | _ => Raise (TypeError "object is not iterable") end
  | _ => Raise (AttributeError "get")
  end.

(** The scores of a payload by name, for the comparison of two orders. *)
Definition add_score (scores : odict Q) (item : pyval) : res (odict Q) :=
  match item with
  | VDict d =>
      match default VNone (od_get "name" d) with
      | VNone => Ok scores
      | name => q ← to_float (default VNone (od_get "score" d)); Ok (od_set (canonical_name name) q scores)
      end
  | _ => Ok scores
  end.
Fixpoint fold_res {A B} (f : A -> B -> res A) (a : A) (l : list B) : res A :=
  match l with [] => Ok a | x :: l => a ← f a x; fold_res f a l end.
Definition scores_of (payload : pyval) : res (odict Q) := items ← criteria_of payload; fold_res add_score [] items.

(** [check_swapped_order_consistency]: the names whose scores differ too much. *)
Definition check_swapped_order_consistency (forward_payload swapped_payload : pyval) (max_delta : Q) : res (list string) :=
  forward ← scores_of forward_payload;
  swapped ← scores_of swapped_payload;
  Ok (merge_sort str_le (omap (fun kv => match od_get kv.1 swapped with
                                         | Some q => if qlt max_delta (Qabs (kv.2 - q)) then Some kv.1 else None
                                         | None => None
                                         end) forward)).

(** The scores and the evidence of a validated payload. *)
Definition add_evidence (scores : odict (Q * string)) (item : pyval) : res (odict (Q * string)) :=
  match item with
  | VDict d =>
      match od_get "name" d, od_get "score" d with
      | Some name, Some score =>
          q ← to_float score;
          Ok (od_set (canonical_name name) (q, str_of repr (default (VStr "") (od_get "evidence" d))) scores)
      | None, _ => Raise (KeyError "name")
      | _, None => Raise (KeyError "score")
      end
  | _ => Raise (TypeError "object is not subscriptable")
  end.

Definition criterion_score (scores : odict (Q * string)) (c : JudgeCriterionDefinition) : JudgeCriterionScore :=
  let '(raw, evidence) := default (3, "missing_from_response") (od_get (canonical_name (VStr (jc_name c))) scores) in
  mkJudgeScore (jc_name c) raw (likert_1_5 raw) evidence.

Definition mean (l : list Q) : Q := qsum l / inject_Z (Z.of_nat (length l)).
End answers.

(** ** Prompts *)

Definition pair_le {A} (a b : string * A) : Prop := String.leb a.1 b.1 = true.
#[export] Instance pair_le_dec {A} (a b : string * A) : Decision (pair_le a b) := decide (_ = true).

Definition or_else (s t : string) : string := if decide (s = "") then t else s.
Definition rubric_lines (c : JudgeCriterionDefinition) : string :=
  "- " +:+ jc_name c +:+ eol +:+ "  definition: " +:+ or_else (jc_definition c) "N/A" +:+ eol +:+
  "  anchors: " +:+ or_else (join ", " ((fun kv => kv.1 +:+ ":" +:+ kv.2) <$> merge_sort pair_le (jc_scale c))) "1..5".

Definition schema_line : string :=
  CanonicalJson.quotes "Schema: {'criteria':[{'name':'...','score':1-5,'evidence':'...'}]}".

Definition build_prompt (candidate_output expected_output : string) (criteria : list JudgeCriterionDefinition)
    (pairwise_reference_output : option string) (swapped : bool) : string :=
  let swapped_note := if swapped then " (SWAPPED_ORDER)" else "" in
  let reference_block := match pairwise_reference_output with
                         | Some r => eol +:+ "REFERENCE CANDIDATE" +:+ swapped_note +:+ ":" +:+ eol +:+ r +:+ eol
                         | None => ""
                         end in
  "You are a strict rubric judge. Return ONLY valid JSON." +:+ eol +:+ schema_line +:+ eol +:+
  "mode: " +:+ (match pairwise_reference_output with Some _ => "pairwise" | None => "single" end) +:+ eol +:+
  "rubric:" +:+ eol +:+ join eol (rubric_lines <$> criteria) +:+ eol +:+
  eol +:+ "EXPECTED OUTPUT:" +:+ eol +:+ expected_output +:+ eol +:+
  eol +:+ "CANDIDATE OUTPUT" +:+ swapped_note +:+ ":" +:+ eol +:+ candidate_output +:+ eol +:+
  reference_block +:+ eol +:+ "Score each criterion on anchored 1..5 scale.".

(** ** The judge *)

(** [response_provider], which may be absent; the backend and the chat of the client;
    the names of the exceptions' messages. *)
Class JudgeBackend (W : Type) := {
  response_provider : option (string -> M W (odict pyval + string));
  judge_backend : W -> bool;
  judge_chat : string -> M W (odict pyval);
  judge_loads : string -> pyval + PyExc;
  judge_repr : pyval -> string;
  shuffle : Z -> list JudgeCriterionDefinition -> list JudgeCriterionDefinition;
  stable_seed : string -> Z;
}.

Record LLMJudge (W : Type) := mkJudge {
  lj_model : string;
  lj_model_version : string;
  lj_prompt_version : string;
  lj_temperature : Q;
  lj_max_tokens : Z;
  lj_world : W;
}.
Arguments mkJudge {W}. Arguments lj_model {W}. Arguments lj_model_version {W}. Arguments lj_prompt_version {W}.
Arguments lj_temperature {W}. Arguments lj_max_tokens {W}. Arguments lj_world {W}.

(** The constructor, with a resolved model. *)
Definition new_judge {W} (model : string) (model_version prompt_version : option string) (default_prompt_version : string)
    (temperature : Q) (max_tokens : Z) (w : W) : LLMJudge W :=
  mkJudge model (match model_version with Some (String c v) => String c v | _ => model end) (default default_prompt_version prompt_version)
    (Qmin (Qmax temperature 0) (1 # 10)) max_tokens w.

Section judge.
Context {W : Type} `{!JudgeBackend W}.
Abbreviation J := (LLMJudge W).

Definition on_judge_world {A} (m : M W A) : M J A := fun j =>
  let '(w, r) := m (lj_world j) in
  (mkJudge (lj_model j) (lj_model_version j) (lj_prompt_version j) (lj_temperature j) (lj_max_tokens j) w, r).
Definition set_model_version (v : string) (j : J) : J := mkJudge (lj_model j) v (lj_prompt_version j) (lj_temperature j) (lj_max_tokens j) (lj_world j).

Definition no_answer (j : J) (response : odict pyval) : PyExc :=
  exc_of (ValueError ("Judge model " +:+ lj_model j +:+ " returned no answer (finish_reason=" +:+
    str_of judge_repr (default VNone (od_get "finish_reason" response)) +:+ ", max_tokens=" +:+ pretty (lj_max_tokens j) +:+ ")")).

(** The end of [_invoke_prompt]: the payload of a text; a value without keys raises. *)
Definition payload_of (raw : odict pyval + string) : M J pyval := fun j =>
  (j, match raw with
      | inl d => inl (VDict d)
      | inr text =>
          match extract_first_json_object judge_loads text with
          | inl (VDict d) => inl (VDict d)
          | inl _ => inr (mkExc KException "AttributeError" "keys")
          | inr e => inr e
          end
      end).

(** [_invoke_prompt] *)
Definition invoke_prompt (prompt : string) : M J pyval :=
  match response_provider with
  | Some provider => raw <- on_judge_world (provider prompt); payload_of raw
  | None =>
      j <- get;
      if negb (judge_backend (lj_world j)) then raise (exc_of (RuntimeError "No LLM backend configured for judge"))
      else
        response <- on_judge_world (judge_chat prompt);
        match od_get "content" response with
        | Some (VStr content) =>
            if decide (strip content = "") then raise (no_answer j response)
            else
              (match od_get "model" response with
               | Some (VStr v) => if decide (strip v = "") then ret tt else modify (set_model_version v)
               | _ => ret tt
               end);;
              payload_of (inr content)
        | _ => raise (no_answer j response)
        end
  end.

(** A criterion given as a dictionary. *)
Definition criterion_definition (item : JudgeCriterionDefinition + odict pyval) : res JudgeCriterionDefinition :=
  match item with
  | inl c => Ok c
  | inr d =>
      let scale := default VNone (od_get "scale" d) in
      anchors ← (if negb (truthy scale) then Ok [] else match scale with VDict m => Ok m | _ => Raise (AttributeError "items") end);
      Ok (mkJudgeCriterion (str_of judge_repr (default VNone (od_get "name" d))) (str_of judge_repr (default (VStr "") (od_get "definition" d)))
            ((fun kv => (kv.1, str_of judge_repr kv.2)) <$> anchors))
  end.

(** The first request, whose criteria are shuffled by the seed. *)
Definition shuffled_criteria (j : J) (candidate_output expected_output : string) (criteria : list JudgeCriterionDefinition) (seed : option Z)
    : list JudgeCriterionDefinition :=
  shuffle (default (stable_seed (candidate_output +:+ "||" +:+ expected_output +:+ "||" +:+ lj_prompt_version j)) seed) criteria.

(** The scores of a validated payload, in the order of the rubric. *)
Definition result_of (forward : pyval) (criteria : list JudgeCriterionDefinition) (pairwise : option bool * list string) : M J JudgeEvaluationResult :=
  items <- lift_res (criteria_of forward);
  scores <- lift_res (fold_res (add_evidence judge_repr) [] items);
  let criterion_scores := criterion_score judge_repr scores <$> criteria in
  j <- get;
  ret (mkJudgeResult criterion_scores (mean (js_normalized_score <$> criterion_scores)) (lj_model j) (lj_model_version j)
         (lj_prompt_version j) (lj_temperature j) pairwise.1 pairwise.2).

Definition schema_invalid (errors : list string) : PyExc := exc_of (ValueError ("Judge output schema invalid: " +:+ join ", " errors)).

(** [evaluate] *)
Definition judge_evaluate (candidate_output expected_output : string) (criteria : list (JudgeCriterionDefinition + odict pyval))
    (pairwise_reference_output : option string) (seed : option Z) : M J JudgeEvaluationResult :=
  criteria <- lift_res (mapM criterion_definition criteria);
  if bool_decide (criteria = []) then raise (exc_of (ValueError "Judge criteria cannot be empty"))
  else
    j <- get;
    let shuffled := shuffled_criteria j candidate_output expected_output criteria seed in
    forward <- invoke_prompt (build_prompt candidate_output expected_output shuffled pairwise_reference_output false);
    let errors := validate_judge_structured_output judge_repr forward (jc_name <$> criteria) in
    if negb (bool_decide (errors = [])) then raise (schema_invalid errors)
    else
      pairwise <- match pairwise_reference_output with
                  | None => ret (None, [])
                  | Some reference =>
                      swapped <- invoke_prompt (build_prompt reference expected_output shuffled (Some candidate_output) true);
                      inconsistent <- lift_res (check_swapped_order_consistency judge_repr forward swapped 1);
                      ret (Some (bool_decide (inconsistent = [])), (fun n => "inconsistent_swapped_order:" +:+ n) <$> inconsistent)
                  end;
      result_of forward criteria pairwise.

(** ** Calibration *)

Record Fixture := mkFixture { fx_candidate : string; fx_expected : string; fx_criteria : list (JudgeCriterionDefinition + odict pyval); fx_human : odict pyval }.

Definition add_delta (human : odict pyval) (deltas : list Q) (c : JudgeCriterionScore) : res (list Q) :=
  match od_get (canonical_name judge_repr (VStr (js_name c))) human with
  | Some v => q ← to_float v; Ok (deltas ++ [Qabs (js_raw_score c - q)])
  | None => Ok deltas
  end.

Definition calibrate_fixture (fixture : Fixture) : M J (list Q) :=
  r <- judge_evaluate (fx_candidate fixture) (fx_expected fixture) (fx_criteria fixture) None None;
  let human := foldl (fun d kv => od_set (canonical_name judge_repr (VStr kv.1)) kv.2 d) [] (fx_human fixture) in
  lift_res (fold_res (add_delta human) [] (jr_criteria r)).

(** [evaluate_calibration_set]: the number of samples, the mean error and whether it is tolerated. *)
Definition evaluate_calibration_set (fixtures : list Fixture) (tolerance : Q) : M J (nat * Q * bool) :=
  deltas <- map_m calibrate_fixture fixtures;
  let l := concat deltas in
  let mae := match l with [] => 0 | _ => mean l end in
  ret (length fixtures, round4 mae, Qle_bool mae tolerance).
End judge.

(** ** Correctness *)

(** An item of an answer that scores the criterion [n]. *)
Definition entry_of (item : pyval) (n : string) (q : Q) (e : string) : Prop :=
  exists d s v, item = VDict d /\ od_get "name" d = Some (VStr s) /\ strip s = n /\ n <> "" /\
    od_get "score" d = Some v /\ is_number v = true /\ py_float v = Some q /\ (1 <= q <= 5)%Q /\ od_get "evidence" d = Some (VStr e).
Definition scores_something (item : pyval) : Prop := exists n q e, entry_of item n q e.
Definition named_by (item : pyval) (n : string) : Prop := exists q e, entry_of item n q e.

(** What a judge has to answer: entries only, and one for every criterion. *)
Definition complete_answer (d : odict pyval) (names : list string) : Prop :=
  exists items, od_get "criteria" d = Some (VList items) /\ items <> [] /\ Forall scores_something items /\
    Forall (fun name => Exists (fun item => named_by item (strip name)) items) names.

Lemma qlt_false a b : qlt a b = false <-> (b <= a)%Q.
Proof. unfold qlt. rewrite negb_false_iff. apply Qle_bool_iff. Qed.

Lemma in_scale q (error : string) : (if qlt q 1 || qlt 5 q then [error] else []) = [] <-> (1 <= q <= 5)%Q.
Proof.
  rewrite <- !qlt_false. destruct (qlt q 1), (qlt 5 q); simpl; split; try done; intros [? ?]; done.
Qed.

Lemma number_float v : is_number v = true -> is_Some (py_float v).
Proof. destruct v; simpl; try done; eauto. Qed.

Section validation.
Context (repr : pyval -> string).

(** An item without errors scores a criterion, whose name is then seen. *)
Lemma valid_item idx item seen seen' :
  validate_judge_criterion_item repr idx item seen = ([], seen') <->
  exists n, named_by item n /\ seen' = n :: seen.
Proof.
  unfold validate_judge_criterion_item, named_by, entry_of. split.
  - destruct item as [| | | | | | |d|]; intros E; try discriminate E.
    destruct (od_get "name" d) as [[| | | |s| | | |]|] eqn:En; repeat case_decide; simplify_eq/=;
      repeat match goal with H : _ ++ _ = [] |- _ => apply app_eq_nil in H as [? ?]; try discriminate end.
    destruct (od_get "score" d) as [v|] eqn:Es; [|done].
    destruct (is_number v) eqn:Ev; [|done]. destruct (number_float v Ev) as [q Eq]. rewrite Eq in *.
    destruct (od_get "evidence" d) as [[| | | |e| | | |]|] eqn:Ee; try done.
    exists (strip s). split; [|done]. exists q, e, d, s, v. rewrite <- in_scale. repeat split; done.
  - intros (n & (q & e & d & s & v & -> & En & <- & Hs & Es & Ev & Eq & Hq & Ee) & ->).
    rewrite En, Es, Ev, Eq, Ee, decide_False by done. rewrite (proj2 (in_scale q _) Hq).
    do 3 rewrite filter_cons. by rewrite !(proj2 (od_mem_spec _ d)) by eauto.
Qed.

Lemma valid_items items : forall idx seen errors seen',
  validate_items repr idx items seen = (errors, seen') ->
  (errors = [] <-> Forall scores_something items) /\
  (errors = [] -> forall n, n ∈ seen' <-> n ∈ seen \/ Exists (fun item => named_by item n) items).
Proof.
  induction items as [|x items IH]; intros idx seen errors seen' E; simpl in E.
  - simplify_eq. split; [done|]. intros _ n. rewrite Exists_nil. tauto.
  - destruct (validate_judge_criterion_item repr idx x seen) as [es seen1] eqn:Ex.
    destruct (validate_items repr (S idx) items seen1) as [es' seen2] eqn:Ei. simplify_eq.
    destruct (IH _ _ _ _ Ei) as [IHe IHn].
    assert (es = [] -> exists n, named_by x n /\ seen1 = n :: seen) as Hx by (intros ->; by apply valid_item in Ex).
    split.
    + rewrite Forall_cons, <- IHe. split.
      * intros [-> ->]%app_eq_nil. destruct Hx as (n & (q & e & He) & _); [done|]. split; [by exists n, q, e | done].
      * intros [(n & q & e & He) ->]. enough (es = []) as -> by done.
        assert (validate_judge_criterion_item repr idx x seen = ([], n :: seen)) as E'
          by (apply valid_item; exists n; split; [by exists q, e | done]). congruence.
    + intros [-> ->]%app_eq_nil n. destruct Hx as (m & Hm & ->); [done|].
      rewrite (IHn eq_refl), elem_of_cons, Exists_cons.
      enough (n = m <-> named_by x n) by tauto. split; [by intros ->|].
      destruct Hm as (q & e & d & s & v & -> & En & Hn & _), 1 as (q' & e' & d' & s' & v' & Ed & En' & Hn' & _). congruence.
Qed.

Lemma validate_complete d names :
  validate_judge_structured_output repr (VDict d) names = [] <-> complete_answer d names.
Proof.
  unfold validate_judge_structured_output, complete_answer. split.
  - destruct (od_get "criteria" d) as [[| | | | |[|x items]| | |]|] eqn:Ec; try done.
    destruct (validate_items repr 0 (x :: items) []) as [es seen] eqn:Ei. intros [-> Hm]%app_eq_nil.
    destruct (valid_items _ _ _ _ _ Ei) as [[He _] Hn]. exists (x :: items). split_and!; try done; [by apply He|].
    apply Forall_forall. intros name Hin.
    destruct (filter (fun n => n ∉ seen) _) as [|m ms] eqn:Ef; [|done].
    assert (strip name ∈ seen) as Hs.
    { destruct (decide (strip name ∈ seen)) as [|Hne]; [done|].
      assert (strip name ∈ ([] : list string)) as []%not_elem_of_nil. rewrite <- Ef. apply list_elem_of_filter. split; [done|].
      apply elem_of_remove_dups, list_elem_of_fmap. by exists name. }
    apply (Hn eq_refl) in Hs as [[]%not_elem_of_nil|Hs]. done.
  - intros (items & -> & Hne & Hall & Hcov). destruct items as [|x items]; [done|].
    destruct (validate_items repr 0 (x :: items) []) as [es seen] eqn:Ei.
    destruct (valid_items _ _ _ _ _ Ei) as [[_ He] Hn]. rewrite (He Hall) in *. simpl.
    destruct (filter (fun n => n ∉ seen) _) as [|m ms] eqn:Ef; [done|].
    assert (m ∈ m :: ms) as Hm by left. rewrite <- Ef in Hm.
    apply list_elem_of_filter in Hm as [Hm (name & -> & Hin)%elem_of_remove_dups%list_elem_of_fmap].
    destruct Hm. apply (Hn eq_refl). right. rewrite Forall_forall in Hcov. by apply Hcov.
Qed.
End validation.

Section scores.
Context (repr : pyval -> string).

Lemma add_evidence_entry scores item n q e :
  entry_of item n q e -> exists q' e', entry_of item n q' e' /\ add_evidence repr scores item = Ok (od_set n (q', e') scores).
Proof.
  intros (d & s & v & -> & En & <- & Hs & Es & Ev & Eq & Hq & Ee). exists q, e. split; [by exists d, s, v|].
  unfold add_evidence. rewrite En, Es, Ee. unfold to_float. by rewrite Eq.
Qed.

(** The scores of entries: each comes from an entry, and every entry's criterion has one. *)
Lemma evidence_of_entries items : forall scores0,
  Forall scores_something items ->
  exists scores, fold_res (add_evidence repr) scores0 items = Ok scores /\
    (forall n q e, od_get n scores = Some (q, e) -> od_get n scores0 = Some (q, e) \/ Exists (fun item => entry_of item n q e) items) /\
    (forall n, is_Some (od_get n scores0) \/ Exists (fun item => named_by item n) items -> is_Some (od_get n scores)).
Proof.
  induction items as [|x items IH]; intros scores0 Hall.
  - exists scores0. split_and!; [done|by left|]. intros n [?|[]%Exists_nil]; done.
  - apply Forall_cons in Hall as [(m & q & e & Hx) Hall].
    destruct (add_evidence_entry scores0 x m q e Hx) as (q' & e' & Hx' & Ea). cbn [fold_res]. rewrite Ea. cbn [mbind res_bind].
    destruct (IH (od_set m (q', e') scores0) Hall) as (scores & Es & Hfrom & Hhas). exists scores. split_and!; [done| |].
    + intros n qn en Hn. rewrite Exists_cons. destruct (Hfrom n qn en Hn) as [Hs|?]; [|by right; right].
      rewrite od_get_set in Hs. case_decide; [|by left]. simplify_eq. by right; left.
    + intros n Hn. apply Hhas. rewrite Exists_cons in Hn. rewrite od_get_set. case_decide; [by left; eauto|].
      destruct Hn as [?|[Hn|?]]; [by left| |by right]. destruct Hn as (qn & en & d & s & v & -> & En & ? & _).
      destruct Hx' as (d' & s' & v' & ? & En' & ? & _). naive_solver.
Qed.
End scores.

Lemma qsum_shift l a : (fold_left Qplus l a == a + qsum l)%Q.
Proof.
  unfold qsum. revert a. induction l as [|x l IH]; intros a; simpl; [ring|]. rewrite IH, (IH (0 + x)). ring.
Qed.

Lemma mean_range l : l <> [] -> Forall (fun q => 0 <= q <= 1)%Q l -> (0 <= mean l <= 1)%Q.
Proof.
  intros Hne Hl. unfold mean.
  assert (0 <= qsum l <= inject_Z (Z.of_nat (length l)))%Q as [H0 H1].
  { clear Hne. induction Hl as [|x l Hx Hl IH]; [done|]. unfold qsum. cbn [fold_left length]. rewrite qsum_shift.
    rewrite Nat2Z.inj_succ, <- Z.add_1_l, inject_Z_plus. change (inject_Z 1) with 1. lra. }
  assert (0 < inject_Z (Z.of_nat (length l)))%Q as Hpos
    by (destruct l; [done|]; apply (Qle_lt_trans _ (inject_Z 0)); [done|]; rewrite <- Zlt_Qlt; simpl; lia).
  split; [by apply Qle_shift_div_l; [|lra] | by apply Qle_shift_div_r; [|lra]].
Qed.

(** What a result promises about the answer it comes from. *)
Definition faithful_score (d : odict pyval) (name : string) (c : JudgeCriterionScore) : Prop :=
  js_name c = name /\
  (exists items, od_get "criteria" d = Some (VList items) /\
     Exists (fun item => entry_of item (strip name) (js_raw_score c) (js_evidence c)) items) /\
  (1 <= js_raw_score c <= 5)%Q /\ js_normalized_score c = likert_1_5 (js_raw_score c) /\ (0 <= js_normalized_score c <= 1)%Q.

Section results.
Context {W : Type} `{!JudgeBackend W}.

Lemma result_of_complete d criteria pairwise (j : LLMJudge W) :
  complete_answer d (jc_name <$> criteria) -> criteria <> [] ->
  exists r, result_of (VDict d) criteria pairwise j = (j, inl r) /\
    Forall2 (fun c s => faithful_score d (jc_name c) s) criteria (jr_criteria r) /\
    (0 <= jr_normalized_score r <= 1)%Q /\ jr_pairwise_consistent r = pairwise.1 /\ jr_inconsistency_reasons r = pairwise.2.
Proof.
  intros (items & Ec & Hne & Hall & Hcov) Hcs.
  destruct (evidence_of_entries judge_repr items [] Hall) as (scores & Es & Hfrom & Hhas).
  assert (Forall2 (fun c s => faithful_score d (jc_name c) s) criteria (criterion_score judge_repr scores <$> criteria)) as Hf.
  { apply Forall2_fmap_r, Forall_Forall2_diag, Forall_forall. intros c Hc.
    rewrite Forall_fmap, Forall_forall in Hcov. specialize (Hcov c Hc). unfold faithful_score, criterion_score.
    unfold canonical_name, compose. cbn [str_of].
    destruct (Hhas (strip (jc_name c))) as [[q e] Eq]; [by right|]. rewrite Eq. cbn [default].
    destruct (Hfrom _ _ _ Eq) as [Hn|Hent]; [done|]. cbn [js_name js_raw_score js_evidence js_normalized_score].
    split_and!; try done; try apply clamp01_range; [by exists items| |];
      apply Exists_exists in Hent as (? & _ & d' & s & v & ? & ? & ? & ? & ? & ? & ? & Hq & _); apply Hq. }
  exists (mkJudgeResult (criterion_score judge_repr scores <$> criteria) (mean (js_normalized_score <$> (criterion_score judge_repr scores <$> criteria)))
       (lj_model j) (lj_model_version j) (lj_prompt_version j) (lj_temperature j) pairwise.1 pairwise.2).
  split; [|split; [exact Hf|split; [|done]]].
  - unfold result_of, criteria_of, bind, lift_res. rewrite Ec. cbn -[fold_res add_evidence]. by rewrite Es.
  - cbn [jr_normalized_score]. apply mean_range; [by destruct criteria|]. rewrite Forall_fmap.
    eapply Forall2_Forall_r; [exact Hf|]. apply Forall_true. intros c s (_ & _ & _ & _ & ?). done.
Qed.

Lemma definitions_kept criteria : mapM criterion_definition (inl <$> criteria) = Ok criteria.
Proof. induction criteria as [|c l IH]; [done|]. change (mapM criterion_definition (inl <$> l) ≫= (fun k => Ok (c :: k)) = Ok (c :: l)). by rewrite IH. Qed.

(** A result is the result of a complete answer. *)
Lemma evaluate_ok candidate expected criteria seed (j j' : LLMJudge W) r :
  judge_evaluate candidate expected (inl <$> criteria) None seed j = (j', inl r) -> (0 <= jr_normalized_score r <= 1)%Q.
Proof.
  unfold judge_evaluate, bind, lift_res, ret, get, raise. rewrite definitions_kept. cbv beta iota zeta.
  case_bool_decide as Hne; [done|]. destruct (invoke_prompt _ j) as [j1 [forward|e]]; [|done].
  case_bool_decide as Hv; cbn [negb]; [|done].
  destruct forward as [| | | | | | |d|]; try done. apply validate_complete in Hv.
  destruct (result_of_complete d criteria (None, []) j1 Hv Hne) as (r' & -> & _ & Hr & _). by intros [= <- <-].
Qed.

(** An answer that is read is an object. *)
Lemma invoke_object prompt (j j' : LLMJudge W) v : invoke_prompt prompt j = (j', inl v) -> exists d, v = VDict d.
Proof.
  assert (forall raw (j : LLMJudge W), payload_of raw j = (j', inl v) -> exists d, v = VDict d) as Hp.
  { intros [d|t] j0; unfold payload_of; [intros [= _ Hd]; by exists d|]. destruct (extract_first_json_object judge_loads t) as [[| | | | | | |d|]|]; intros [= _ Hd]; by exists d. }
  assert (forall A (m : M (LLMJudge W) A) (f : A -> M (LLMJudge W) pyval) j0, (forall a j1, f a j1 = (j', inl v) -> exists d, v = VDict d) ->
    bind m f j0 = (j', inl v) -> exists d, v = VDict d) as Hb.
  { intros A m f j0 Hf. unfold bind. destruct (m j0) as [j1 [a|e]]; [apply Hf | done]. }
  unfold invoke_prompt. destruct response_provider as [provider|]; apply Hb; [intros raw j1; apply Hp|].
  intros j0 j1. destruct (negb _); [done|]. apply Hb. intros response j2.
  destruct (od_get "content" response) as [[| | | |content| | | |]|]; try done. destruct (decide _); [done|]. apply Hb. intros [] j3. apply Hp.
Qed.

(** The comparison with the answer in the swapped order, which is not validated: whether the
    scores of the criteria both name agree, and where they do not. *)
Definition compared (candidate expected : string) (shuffled : list JudgeCriterionDefinition) (reference : option string) (d : odict pyval)
    : M (LLMJudge W) (option bool * list string) :=
  match reference with
  | None => ret (None, [])
  | Some r =>
      swapped <- invoke_prompt (build_prompt r expected shuffled (Some candidate) true);
      apart <- lift_res (check_swapped_order_consistency judge_repr (VDict d) swapped 1);
      ret (Some (bool_decide (apart = [])), (fun n => "inconsistent_swapped_order:" +:+ n) <$> apart)
  end.

Lemma evaluate_read candidate expected criteria reference seed (j j' : LLMJudge W) d : criteria <> [] ->
  let shuffled := shuffled_criteria j candidate expected criteria seed in
  invoke_prompt (build_prompt candidate expected shuffled reference false) j = (j', inl (VDict d)) ->
  judge_evaluate candidate expected (inl <$> criteria) reference seed j =
    let errors := validate_judge_structured_output judge_repr (VDict d) (jc_name <$> criteria) in
    if negb (bool_decide (errors = [])) then (j', inr (schema_invalid errors))
    else bind (compared candidate expected shuffled reference d) (result_of (VDict d) criteria) j'.
Proof.
  intros Hne shuffled Hi. unfold judge_evaluate. unfold bind at 1, lift_res at 1. unfold ret at 1. rewrite definitions_kept. cbv beta iota zeta. rewrite (bool_decide_false (criteria = [])) by done.
  unfold bind at 1, get. cbv beta iota. unfold bind at 1. fold shuffled. rewrite Hi. by destruct (negb _).
Qed.

(** C24. Fail-closed judging, with or without a pairwise reference.  An answer that cannot be
    read as an object ends the evaluation with its error.  An object is accepted exactly when
    it is complete (nothing but entries with a score from 1 to 5 and evidence, and one for every
    criterion of the rubric, up to surrounding blanks), and any other object is the schema
    error.  A complete answer gives a result, unless the request in the swapped order or its
    comparison raises, whose error it then is: the scores are the answer's, one per criterion in
    the order and under the names of the rubric, never the [missing_from_response] fallback, and
    the overall score is in [0, 1].  (The swapped answer is compared, not validated.) *)
Theorem judge_fails_closed candidate expected criteria reference seed (j : LLMJudge W) :
  criteria <> [] ->
  let shuffled := shuffled_criteria j candidate expected criteria seed in
  let evaluation := judge_evaluate candidate expected (inl <$> criteria) reference seed j in
  match invoke_prompt (build_prompt candidate expected shuffled reference false) j with
  | (j', inr e) => evaluation = (j', inr e)
  | (j', inl answer) => exists d, answer = VDict d /\
      (~ complete_answer d (jc_name <$> criteria) -> exists errors, errors <> [] /\ evaluation = (j', inr (schema_invalid errors))) /\
      (complete_answer d (jc_name <$> criteria) ->
       match compared candidate expected shuffled reference d j' with
       | (j'', inl (consistent, reasons)) => exists r, evaluation = (j'', inl r) /\
           Forall2 (fun c s => faithful_score d (jc_name c) s) criteria (jr_criteria r) /\ (0 <= jr_normalized_score r <= 1)%Q /\
           jr_pairwise_consistent r = consistent /\ jr_inconsistency_reasons r = reasons
       | (j'', inr e) => evaluation = (j'', inr e)
       end)
  end.
Proof.
  intros Hne. cbv zeta. destruct (invoke_prompt _ j) as [j' [answer|e]] eqn:Hi.
  2:{ unfold judge_evaluate, bind, lift_res, get, ret. rewrite definitions_kept. cbv beta iota zeta. by rewrite bool_decide_false, Hi. }
  destruct (invoke_object _ _ _ _ Hi) as [d ->]. exists d. split; [done|]. rewrite (evaluate_read _ _ _ _ _ _ _ _ Hne Hi). cbv zeta.
  rewrite <- (validate_complete judge_repr). split; intros Hv.
  - rewrite bool_decide_false by done. by eexists.
  - rewrite bool_decide_true by done. cbn [negb]. apply validate_complete in Hv. unfold bind.
    destruct (compared _ _ _ _ _ j') as [j'' [[consistent reasons]|e]]; [|done].
    destruct (result_of_complete d criteria (consistent, reasons) j'' Hv Hne) as (r & Er & Hf & Hr & Hc & Hre). by exists r.
Qed.
End results.

(** ** Examples *)

Definition demo_answer : odict pyval :=
  [("criteria", VList [VDict [("name", VStr " clarity "); ("score", VInt 4); ("evidence", VStr "clear")];
                       VDict [("name", VStr "correctness"); ("score", vfloat (5 # 2)); ("evidence", VStr "")]])].
Definition demo_rubric : list JudgeCriterionDefinition := [mkJudgeCriterion "correctness" "" []; mkJudgeCriterion "clarity" "" []].

(** A provider that answers in the first order only: to the swapped request it gives an empty object. *)
Definition demo_judge : JudgeBackend unit := {|
  response_provider := Some (fun prompt w => (w, inl (inl (if contains prompt "SWAPPED_ORDER" then [] else demo_answer))));
  judge_backend _ := true;
  judge_chat _ w := (w, inl []);
  judge_loads _ := inr (mkExc KException "JSONDecodeError" "");
  judge_repr _ := "";
  shuffle _ l := reverse l;
  stable_seed _ := 0%Z;
|}.
#[local] Existing Instance demo_judge.
Definition the_judge : LLMJudge unit := new_judge "gh:openai/gpt-4o" None None "judge-v1" 1 1200 tt.

Example demo_scores :
  match judge_evaluate "out" "" (inl <$> demo_rubric) None None the_judge with
  | (_, inl r) => (fun c => (js_name c, js_raw_score c, Qred (js_normalized_score c))) <$> jr_criteria r
  | _ => []
  end = [("correctness", 5 # 2, 3 # 8); ("clarity", 4, 3 # 4)]%Q.
Proof. vm_compute. reflexivity. Qed.

(** With a reference, the scores of the answer and a verdict on the swapped order. *)
Lemma judge_fails_closed_witness : exists r, judge_evaluate "out" "" (inl <$> demo_rubric) (Some "reference") None the_judge = (the_judge, inl r) /\
  Forall2 (fun c s => faithful_score demo_answer (jc_name c) s) demo_rubric (jr_criteria r) /\ jr_pairwise_consistent r = Some true.
Proof.
  pose proof (judge_fails_closed "out" "" demo_rubric (Some "reference") None the_judge ltac:(done)) as H. cbv zeta in H.
  destruct H as (d & [= <-] & _ & H).
  destruct H as (r & Er & Hf & _ & Hp & _); [|exists r; split; [exact Er | split; [exact Hf | exact Hp]]].
  apply (validate_complete judge_repr). vm_compute. reflexivity.
Defined.

(** The answer to the swapped request is not validated: an empty object has no criterion in
    common with the first answer, and the pair counts as consistent. *)
Example empty_swap_consistent :
  match judge_evaluate "out" "" (inl <$> demo_rubric) (Some "reference") None the_judge with
  | (_, inl r) => jr_pairwise_consistent r
  | _ => None
  end = Some true.
Proof. vm_compute. reflexivity. Qed.
