(* ===== verification/ScoringCriteria.v ===== *)
(** * Criterion scores (scoring/scoring_criteria.py, scoring/scoring_profiles.py,
      scoring/eval_config.py, normalize_score of evaluation/normalization.py)

    The text measures, the four families of criterion scores, the letter grade, the
    criteria given to the judge, the advisory scores and the hybrid score.  The loaded
    configuration is an argument; floats are exact rationals and the text is ASCII. *)

From stdpp Require Import pretty gmap.
From Stdlib Require Import QArith Qminmax Qcanon Lqa.
From S2P Require Import Prelude PyStr PyVal Messages Step Scoring CanonicalJson JsonRepair LlmOutput AgentStep Loader Judge.
Local Open Scope Q_scope.

(** ** Configuration and profiles *)

Definition or_empty (v : pyval) : pyval := if truthy v then v else VDict [].

(** [scoring_section]: what is no mapping has no [get]. *)
Definition scoring_section (config : odict pyval) : res pyval :=
  scoring ← get_of (or_empty (default VNone (od_get "evaluation" config))) "scoring" VNone;
  Ok (or_empty scoring).
Definition scoring_setting (config : odict pyval) (k : string) (d : pyval) : res pyval :=
  section ← scoring_section config; get_of section k d.

Record ScoringProfile := mkProfile { profile_id : string; profile_weights : odict Q; extra_gates : list string }.
Definition SCORING_PROFILES : list ScoringProfile :=
  [mkProfile "A" [("objective_tests", 60 # 100); ("code_quality", 20 # 100); ("efficiency", 10 # 100); ("documentation", 10 # 100)] ["fail_to_pass"];
   mkProfile "B" [("correctness_rubric", 35 # 100); ("code_quality", 30 # 100); ("efficiency", 20 # 100); ("documentation", 15 # 100)]
     ["required_outputs_parseable"];
   mkProfile "C" [("faithfulness", 35 # 100); ("relevance", 30 # 100); ("citation_quality", 20 # 100); ("coherence", 15 # 100)] ["answer_grounded"];
   mkProfile "D" [("tool_selection_accuracy", 25 # 100); ("task_completion", 30 # 100); ("efficiency", 25 # 100); ("coherence", 20 # 100)]
     ["tool_call_schema_valid"];
   mkProfile "E" [("coverage", 25 # 100); ("source_quality", 20 # 100); ("agreement", 20 # 100); ("verification", 20 # 100); ("recency", 15 # 100)]
     ["all_dimensions_high"; "no_critical_contradictions"; "sources_floor"]].
Definition DEFAULT_PROFILE : ScoringProfile := nth 1 SCORING_PROFILES (mkProfile "B" [] []).
Definition get_profile (id : option string) : ScoringProfile :=
  match id with
  | Some s => default DEFAULT_PROFILE (List.find (fun p => bool_decide (profile_id p = s)) SCORING_PROFILES)
  | None => DEFAULT_PROFILE
  end.

(** ** Text *)

Definition clamp (value lo hi : Q) : Q := Qmax lo (Qmin hi value).
Definition clamp100 (value : Q) : Q := clamp value 0 100.

(** [\w+]: the maximal runs of word characters. *)
Fixpoint word_runs (run l : text) : list text :=
  match l with
  | [] => match run with [] => [] | _ => [run] end
  | c :: l => if is_word c then word_runs (run ++ [c]) l else match run with [] => word_runs [] l | _ => run :: word_runs [] l end
  end.
Definition tokenize (s : string) : gset string :=
  list_to_set (of_chars <$> filter (fun t => (2 < length t)%nat) (word_runs [] (chars (lower s)))).
Definition has_scoring_tokens (s : string) : bool := negb (bool_decide (tokenize s = ∅)).

Fixpoint has_content_leaves (v : pyval) : bool :=
  match v with
  | VDict d => (fix go d := match d with [] => false | (_, x) :: d => has_content_leaves x || go d end) d
  | VList l => (fix go l := match l with [] => false | x :: l => has_content_leaves x || go l end) l
  | VStr s => negb (bool_decide (strip s = ""))
  | VNone => false
  | _ => true
  end.

Definition str_at (k : string) (d : odict pyval) : option string := match od_get k d with Some (VStr s) => Some s | _ => None end.
Definition dict_at (k : string) (d : odict pyval) : option (odict pyval) := match od_get k d with Some (VDict m) => Some m | _ => None end.
Definition first_some {A} (l : list (option A)) : option A := foldr (fun o r => match o with Some _ => o | None => r end) None l.

(** The first text of the sample that may be the expected one. *)
Definition extract_expected_text (sample : pyval) : string :=
  match sample with
  | VDict d =>
      default "" (first_some [str_at "expected_output" d; str_at "golden_output_text" d; str_at "golden_patch" d;
                              dict_at "answer" d ≫= str_at "body"; str_at "solution" d])
  | _ => ""
  end.

Fixpoint has_code_content (v : pyval) : bool :=
  match v with
  | VStr s => (20 <=? String.length (strip s))%nat
  | VDict d => (fix go d := match d with [] => false | (_, x) :: d => has_code_content x || go d end) d
  | VList l => (fix go l := match l with [] => false | x :: l => has_code_content x || go l end) l
  | _ => false
  end.

(** [v in (None, "", {}, [])] *)
Definition empty_leaf (v : pyval) : bool := match v with VNone | VStr EmptyString | VDict [] | VList [] => true | _ => false end.
Fixpoint strip_null_leaves (v : pyval) : pyval :=
  match v with
  | VDict d => VDict ((fix go d := match d with [] => [] | (k, x) :: d => if empty_leaf x then go d else (k, strip_null_leaves x) :: go d end) d)
  | VList l => VList ((fix go l := match l with [] => [] | x :: l => if empty_leaf x then go l else strip_null_leaves x :: go l end) l)
  | v => v
  end.

(** With [default=str] every value of the model has a JSON text. *)
Definition serialize_output_text (float_repr : Qc -> string) (v : pyval) : string :=
  match v with VStr s => s | v => json_dumps float_repr (strip_null_leaves v) end.
Definition output_text (float_repr : Qc -> string) (result : WorkflowResult) : string :=
  serialize_output_text float_repr (VDict (wr_final_output result)).

Definition text_overlap_score (expected generated : string) : Q :=
  let expected_tokens := tokenize expected in
  if decide (expected_tokens = ∅) then 0
  else inject_Z (Z.of_nat (size (expected_tokens ∩ tokenize generated))) / inject_Z (Z.of_nat (size expected_tokens)) * 100.

(** ** Normalisation by formula *)

(** [normalize_score] of a number; [slo] are the keyword arguments.  Keyword arguments make
    [pairwise] count wins, of which there are none. *)
Definition normalize_score (raw : Q) (formula_id : string) (slo : option (Q * Q)) : res Q :=
  if decide (formula_id = "binary") then binary raw
  else if decide (formula_id = "likert_1_5") then Ok (likert_1_5 raw)
  else if decide (formula_id = "likert_neg2_2") then Ok (likert_neg2_2 raw)
  else if decide (formula_id = "lower_is_better") then lower_is_better raw (fst <$> slo) (snd <$> slo)
  else if decide (formula_id = "zero_one") then Ok (zero_one raw)
  else if decide (formula_id = "pairwise") then Ok (match slo with Some _ => Scoring.pairwise 0 0 0 | None => clamp01 raw end)
  else Raise (KeyError ("Unknown normalization formula '" +:+ formula_id +:+ "'")).

(** ** Criterion scores *)

Definition CORRECTNESS_CRITERIA : list string :=
  ["correctness"; "objective_tests"; "task_completion"; "correctness_rubric"; "faithfulness"; "relevance"].
Definition QUALITY_CRITERIA : list string := ["code_quality"; "safety_validation"; "validation"; "safety"; "tool_selection_accuracy"].
Definition EFFICIENCY_CRITERIA : list string := ["efficiency"; "performance"].
Definition DOCUMENTATION_CRITERIA : list string := ["documentation"; "citation_quality"; "coherence"].

(** The band [(good, bad)]: both bounds of the configuration, or both defaults. *)
Definition efficiency_slo_seconds (config : odict pyval) : res (Q * Q) :=
  slo ← scoring_setting config "efficiency_slo" VNone;
  Ok (match slo with
      | VDict d =>
          match py_float (get_default "good_seconds" (vfloat 2) d), py_float (get_default "bad_seconds" (vfloat 60) d) with
          | Some good, Some bad => if Qle_bool bad good then (2, 60) else (good, bad)
          | _, _ => (2, 60)
          end
      | _ => (2, 60)
      end).

Record ScoringSignals := mkSignals {
  sg_success_rate : Q;
  sg_total_steps : Z;
  sg_failed_steps : Z;
  sg_retries : Z;
  sg_duration_ms : Q;
  sg_output_text : string;
  sg_is_failed : bool;
  sg_is_success : bool;
  sg_has_code : bool;
}.

Section criteria.
Context (float_repr : Qc -> string) (config : odict pyval).

Definition duration_of (result : WorkflowResult) : Q := match total_duration_ms result with Some q => this q | None => 0 end.

(** Of a contract result. *)
Definition extract_scoring_signals (result : WorkflowResult) : ScoringSignals :=
  mkSignals (this (success_rate result)) (Z.max (Z.of_nat (length (wr_steps result))) 1) (Z.of_nat (length (failed_steps result)))
    (total_retries result) (duration_of result) (output_text float_repr result)
    (bool_decide (wr_overall_status result = StFailed)) (bool_decide (wr_overall_status result = StSuccess))
    (has_code_content (VDict (wr_final_output result))).

Definition score_correctness (s : ScoringSignals) (expected_text : string) : Q :=
  let overlap := if negb (bool_decide (expected_text = "")) then text_overlap_score expected_text (sg_output_text s)
                 else if sg_has_code s then sg_success_rate s else 0 in
  let blended := sg_success_rate s * (7 # 10) + overlap * (3 # 10) in
  let blended := if sg_is_failed s then blended * (75 # 100) else blended in
  clamp100 (if sg_has_code s then blended else Qmin blended 30).

Definition score_quality (s : ScoringSignals) : Q :=
  let failure_penalty := inject_Z (sg_failed_steps s) / inject_Z (sg_total_steps s) * 45 in
  let retry_penalty := Qmin (inject_Z (sg_retries s) * 4) 20 in
  let status_bonus := if sg_is_success s then 8 else -(12) in
  let score := 78 - failure_penalty - retry_penalty + status_bonus in
  clamp100 (if sg_has_code s then score else Qmin score 5).

Definition efficiency_blend (seconds : Q) (retries : Z) : res Q :=
  slo ← efficiency_slo_seconds config;
  duration_norm ← normalize_score seconds "lower_is_better" (Some slo);
  retry_norm ← normalize_score (inject_Z retries) "lower_is_better" (Some (0, 8));
  Ok (duration_norm * (7 # 10) + retry_norm * (3 # 10)).

Definition score_efficiency (s : ScoringSignals) : res Q :=
  blended ← efficiency_blend (sg_duration_ms s / 1000) (sg_retries s); Ok (clamp100 (blended * 100)).

Definition score_documentation (s : ScoringSignals) (result : WorkflowResult) : Q :=
  if decide (sg_output_text s = "") then 20
  else
    let n := inject_Z (Z.of_nat (String.length (sg_output_text s))) in
    let key_count := inject_Z (Z.of_nat (length (wr_final_output result))) in
    let richness := Qmin (n / 120) 45 + Qmin (key_count * 6) 30 in
    clamp100 (30 + richness - (if sg_is_failed s then 15 else 0)).

Definition compute_criterion_score (criterion : string) (result : WorkflowResult) (expected_text : string) : res Q :=
  let signals := extract_scoring_signals result in
  if decide (criterion ∈ CORRECTNESS_CRITERIA) then Ok (score_correctness signals expected_text)
  else if decide (criterion ∈ QUALITY_CRITERIA) then Ok (score_quality signals)
  else if decide (criterion ∈ EFFICIENCY_CRITERIA) then score_efficiency signals
  else if decide (criterion ∈ DOCUMENTATION_CRITERIA) then Ok (score_documentation signals result)
  else Ok (clamp100 (50 - (if sg_is_failed signals then 20 else 0))).

Definition grade (score : Q) : string :=
  if Qle_bool 90 score then "A" else if Qle_bool 80 score then "B" else if Qle_bool 70 score then "C" else if Qle_bool 60 score then "D" else "F".

(** ** The judge's criteria *)

Definition default_judge_scale : odict string :=
  [("1", "Major requirement failures"); ("2", "Multiple significant errors"); ("3", "Minimum acceptable quality");
   ("4", "Strong quality with minor gaps"); ("5", "Excellent quality and completeness")].
(** A criterion of the loader has no [scale_anchors]. *)
Definition resolve_judge_scale (c : WorkflowCriterion) : odict string := match wc_scale c with [] => default_judge_scale | scale => scale end.
Definition generic_judge_criterion (name : string) : JudgeCriterionDefinition :=
  mkJudgeCriterion name ("Quality of the '" +:+ name +:+ "' aspect.") default_judge_scale.
Definition judge_criterion (criteria_by_name : odict WorkflowCriterion) (name : string) : JudgeCriterionDefinition :=
  match od_get name criteria_by_name with
  | None => generic_judge_criterion name
  | Some c => mkJudgeCriterion name (or_else (wc_definition c) ("Quality of '" +:+ name +:+ "' aspect.")) (resolve_judge_scale c)
  end.
Definition build_judge_criteria (weights : odict Q) (criteria_by_name : odict WorkflowCriterion) : list JudgeCriterionDefinition :=
  match criteria_by_name with
  | [] => generic_judge_criterion <$> od_keys weights
  | _ => judge_criterion criteria_by_name <$> od_keys weights
  end.

(** ** Advisory and hybrid scores *)

Definition advisory_similarity_score (expected_text generated_text : string) (objective_score : Q) : res Q :=
  normalize_score (if decide (expected_text = "") then objective_score else text_overlap_score expected_text generated_text / 100) "zero_one" None.

Definition advisory_efficiency_score (result : WorkflowResult) (normalized_scores : odict Q) : res Q :=
  match od_get "efficiency" normalized_scores with
  | Some q => normalize_score q "zero_one" None
  | None => efficiency_blend (duration_of result / 1000) (total_retries result)
  end.

Definition DEFAULT_HYBRID : odict Q := [("objective", 35 # 100); ("judge", 50 # 100); ("advisory", 15 # 100)].

(** The loop's state: weighted sum, sum of the weights, active weights. *)
Definition add_component (weights : odict Q) (acc : Q * Q * odict Q) (component : string * Q) : Q * Q * odict Q :=
  let '(weighted, weight_sum, active) := acc in
  let weight := Qmax (default 0 (od_get component.1 weights)) 0 in
  if Qle_bool weight 0 then acc else (weighted + component.2 * weight, weight_sum + weight, od_set component.1 weight active).

Definition compose_hybrid_score (objective advisory : Q) (judge : option Q) (component_weights : option (odict Q)) : Q * odict Q :=
  let weights := od_update DEFAULT_HYBRID (default [] component_weights) in
  let components := [("objective", objective); ("advisory", advisory)] ++ (match judge with Some q => [("judge", q)] | None => [] end) in
  let '(weighted, weight_sum, active) := foldl (add_component weights) (0, 0, []) components in
  if Qle_bool weight_sum 0 then (objective, [("objective", 1)]) else (weighted / weight_sum, active).
End criteria.

(** ** Ranges *)

Lemma clamp100_range q : 0 <= clamp100 q <= 100.
Proof.
  unfold clamp100, clamp. split; [apply Q.le_max_l|].
  apply Q.max_lub; [done | apply Q.le_min_l].
Qed.

Lemma clamp100_bound q b : 0 <= b -> q <= b -> clamp100 q <= b.
Proof. intros. unfold clamp100, clamp. apply Q.max_lub; [done|]. apply (Qle_trans _ q); [apply Q.le_min_r | done]. Qed.

Lemma criterion_score_range float_repr config criterion result expected q :
  compute_criterion_score float_repr config criterion result expected = Ok q -> 0 <= q <= 100.
Proof.
  unfold compute_criterion_score, score_correctness, score_quality, score_efficiency, score_documentation.
  repeat case_decide; intros E; try (apply res_bind_ok in E as (? & _ & E)); injection E as <-; try apply clamp100_range.
  split; lra.
Qed.

(** Without content the correctness scores stay below 30 and the quality scores below 5. *)
Lemma hollow_scores float_repr config criterion result expected q :
  has_code_content (VDict (wr_final_output result)) = false ->
  compute_criterion_score float_repr config criterion result expected = Ok q ->
  (criterion ∈ CORRECTNESS_CRITERIA -> q <= 30) /\ (criterion ∈ QUALITY_CRITERIA -> q <= 5).
Proof.
  intros Hh E. unfold compute_criterion_score in E. split; intros Hin.
  - rewrite decide_True in E by done. injection E as <-. unfold score_correctness.
    change (sg_has_code _) with (has_code_content (VDict (wr_final_output result))). rewrite Hh.
    apply clamp100_bound; [lra | apply Q.le_min_r].
  - assert (criterion ∉ CORRECTNESS_CRITERIA) as Hn by (clear -Hin; revert Hin; unfold QUALITY_CRITERIA, CORRECTNESS_CRITERIA; set_solver).
    rewrite decide_False, decide_True in E by done. injection E as <-. unfold score_quality.
    change (sg_has_code _) with (has_code_content (VDict (wr_final_output result))). rewrite Hh.
    apply clamp100_bound; [lra | apply Q.le_min_r].
Qed.

Lemma normalize_range raw formula slo q : normalize_score raw formula slo = Ok q -> 0 <= q <= 1.
Proof.
  unfold normalize_score, binary, likert_1_5, likert_neg2_2, lower_is_better, zero_one, Scoring.pairwise.
  repeat case_decide; intros E; try (injection E as <-; apply clamp01_range); try done.
  - destruct (Qeq_bool raw 0) eqn:E0; [apply Qeq_bool_iff in E0|destruct (Qeq_bool raw 1) eqn:E1; [apply Qeq_bool_iff in E1|done]];
      injection E as <-; lra.
  - repeat case_match; simplify_eq. apply clamp01_range.
  - destruct slo; injection E as <-; [cbn; lra | apply clamp01_range].
Qed.

(** No formula lifts a score of at most 30% to 70%. *)
Lemma normalize_low raw formula q : raw <= 3 # 10 -> normalize_score raw formula None = Ok q -> q < 7 # 10.
Proof.
  intros Hr. assert (forall x, x < 7 # 10 -> clamp01 x < 7 # 10) as Hc
    by (intros x Hx; apply Qnot_le_lt; rewrite (clamp01_floor (7 # 10) x) by lra; lra).
  unfold normalize_score, binary, likert_1_5, likert_neg2_2, lower_is_better, zero_one.
  repeat case_decide; cbn [fmap option_fmap option_map fst snd]; intros E; try done; try (injection E as <-; apply Hc).
  - destruct (Qeq_bool raw 0) eqn:E0; [apply Qeq_bool_iff in E0|destruct (Qeq_bool raw 1) eqn:E1; [apply Qeq_bool_iff in E1|done]];
      injection E as <-; lra.
  - apply Qlt_shift_div_r; lra.
  - apply Qlt_shift_div_r; lra.
  - lra.
  - lra.
Qed.

Lemma text_overlap_range expected generated : 0 <= text_overlap_score expected generated <= 100.
Proof.
  unfold text_overlap_score. case_decide as Hd; [lra|].
  set (E := tokenize expected) in *. set (G := tokenize generated).
  assert (0 < size E)%nat as Hs by (destruct (decide (size E = 0)%nat) as [E0|]; [by apply size_empty_inv in E0; apply leibniz_equiv in E0 | lia]).
  assert (size (E ∩ G) <= size E)%nat by (apply subseteq_size; set_solver).
  assert (0 < inject_Z (Z.of_nat (size E)))%Q by (change 0%Q with (inject_Z 0); rewrite <- Zlt_Qlt; lia).
  assert (0 <= inject_Z (Z.of_nat (size (E ∩ G))) / inject_Z (Z.of_nat (size E)) <= 1) as [? ?]
    by (apply Qdiv_range; [done|]; split; [change 0 with (inject_Z 0)|]; rewrite <- Zle_Qle; lia).
  lra.
Qed.

(** A weighted mean of components between 0 and 1. *)
Definition mean_state (acc : Q * Q * odict Q) : Prop := 0 <= acc.1.1 <= acc.1.2.

Lemma add_component_mean weights acc component :
  mean_state acc -> 0 <= component.2 <= 1 -> mean_state (add_component weights acc component).
Proof.
  destruct acc as [[weighted sum] active]. unfold mean_state, add_component. cbn [fst snd]. intros [Ha Hb] [Hc Hd].
  set (w := Qmax _ 0). assert (0 <= w) as Hw by apply Q.le_max_r. destruct (Qle_bool w 0); cbn [fst snd]; [done|].
  pose proof (Qmult_le_0_compat _ _ Hc Hw). pose proof (Qmult_le_compat_r _ _ w Hd Hw). lra.
Qed.

Lemma hybrid_range objective advisory judge component_weights :
  0 <= objective <= 1 -> 0 <= advisory <= 1 -> (forall q, judge = Some q -> 0 <= q <= 1) ->
  0 <= (compose_hybrid_score objective advisory judge component_weights).1 <= 1.
Proof.
  intros Ho Ha Hj. unfold compose_hybrid_score. set (weights := od_update _ _). set (components := _ ++ _).
  assert (mean_state (foldl (add_component weights) (0, 0, []) components)) as Hm.
  { assert (Forall (fun c => 0 <= c.2 <= 1) components) as Hc
      by (unfold components; destruct judge as [q|]; repeat constructor; cbn; auto; try apply Ho; try apply Ha; by apply (Hj q)).
    assert (mean_state (0, 0, [])) as H0 by (split; cbn; lra). revert H0. generalize (0, 0, @nil (string * Q)).
    induction Hc as [|c l H Hl IH]; intros acc Hacc; [done|]. cbn [foldl]. by apply IH, add_component_mean. }
  destruct (foldl _ _ _) as [[weighted sum] active]. unfold mean_state in Hm. cbn [fst snd] in Hm.
  destruct (qle_spec sum 0); cbn [fst]; [done|]. apply Qdiv_range; [lra | done].
Qed.
