(* ===== verification/EvalScoring.v ===== *)
(** * Evaluation of a run (scoring/evaluation_scoring.py)

    The rubric and its weights, the hard gates, the layers of the score, the optional
    judge, the floors, and the verdict.  The configuration, the clock's text and the
    matcher of datasets are arguments.  Scores are exact rationals; a run is a contract
    result, and the judge is the one of [Judge]. *)

From stdpp Require Import sorting.
From Stdlib Require Import QArith Qabs Qminmax Qcanon Lqa.
From S2P Require Import Prelude PyStr PyVal Messages Step Scoring AgentStep Loader Judge ScoringCriteria.
Local Open Scope Q_scope.

(** ** Data *)

Record HardGateResult := mkGates {
  required_outputs_present : bool;
  overall_status_success : bool;
  no_critical_step_failures : bool;
  release_build_verified : bool;
  schema_contract_valid : bool;
  dataset_workflow_compatible : bool;
}.

(** The gates in the order of the report. *)
Definition gates (g : HardGateResult) : list (string * bool) :=
  [("required_outputs_present", required_outputs_present g); ("overall_status_success", overall_status_success g);
   ("no_critical_step_failures", no_critical_step_failures g); ("release_build_verified", release_build_verified g);
   ("schema_contract_valid", schema_contract_valid g); ("dataset_workflow_compatible", dataset_workflow_compatible g)].
Definition all_passed (g : HardGateResult) : bool :=
  required_outputs_present g && overall_status_success g && no_critical_step_failures g && release_build_verified g &&
  schema_contract_valid g && dataset_workflow_compatible g.
Definition failures (g : HardGateResult) : list string := (filter (fun kv => kv.2 = false) (gates g)).*1.

Record CriterionFloorResult := mkFloor { fl_criterion : string; fl_floor : Q; fl_normalized_score : Q }.

(** ** Settings *)

Definition DEFAULT_WEIGHTS : odict Q := [("correctness", 50 # 100); ("code_quality", 25 # 100); ("efficiency", 15 # 100); ("documentation", 10 # 100)].

Definition scoring_weights (config : odict pyval) : res (odict Q) :=
  raw ← scoring_setting config "weights" (VDict []);
  Ok (match raw with
      | VDict d =>
          match foldl (fun weights kv => match py_float kv.2 with Some q => od_set kv.1 q weights | None => weights end) [] d with
          | [] => DEFAULT_WEIGHTS
          | weights => weights
          end
      | _ => DEFAULT_WEIGHTS
      end).

Definition pass_threshold (config : odict pyval) : res Q :=
  raw ← scoring_setting config "pass_threshold" (vfloat 70); Ok (default 70 (py_float raw)).

Definition is_true_like (v : pyval) : bool :=
  match v with
  | VBool b => b
  | VStr s => bool_decide (lower (strip s) ∈ ["true"; "1"; "yes"; "y"])
  | VInt z => negb (z =? 0)%Z
  | VFloat q => negb (Qeq_bool (this q) 0)
  | _ => false
  end.
Definition judge_required (config : odict pyval) : res bool := raw ← scoring_setting config "judge_required" (VBool false); Ok (is_true_like raw).

(** ** The rubric *)

Definition validate_rubric_weights (weights : odict Q) (known_criteria : list string) : res unit :=
  if decide (weights = []) then Raise (ValueError "Rubric weights cannot be empty.")
  else
    let unknown := match known_criteria with [] => [] | _ => merge_sort str_le (filter (fun k => k ∉ known_criteria) (od_keys weights)) end in
    match unknown with
    | _ :: _ => Raise (ValueError ("Rubric references unknown criteria: " +:+ join ", " unknown +:+ ". Known criteria: " +:+
                                    join ", " (merge_sort str_le known_criteria) +:+ "."))
    | [] =>
        if existsb (fun q => Qle_bool q 0) weights.*2 then Raise (ValueError "Rubric weights must all be positive.")
        else if off_one (qsum weights.*2) then Raise (ValueError "Rubric weights must sum to 1.0 (+/-0.01).")
        else Ok tt
    end.

Definition merge_rubric_weights (weights : odict Q) (criteria_by_name : odict WorkflowCriterion) (workflow_weights : option (odict Q))
    (workflow_scoring_profile : option string) : res (odict Q) :=
  let weights := if truthy_str workflow_scoring_profile then profile_weights (get_profile workflow_scoring_profile) else weights in
  let weights := match criteria_by_name with
                 | [] => weights
                 | _ => omap (fun name => (fun q => (name, q)) <$> od_get name weights) (od_keys criteria_by_name)
                 end in
  let weights := foldl (fun weights kc => match wc_weight kc.2 with Some q => od_set kc.1 q weights | None => weights end) weights criteria_by_name in
  match workflow_weights with
  | Some ((_ :: _) as w) => _ ← validate_rubric_weights w []; Ok (od_update weights w)
  | _ => Ok weights
  end.

Record Rubric := mkRubric { rb_id : string; rb_version : string; rb_weights : odict Q; rb_criteria : odict WorkflowCriterion }.

Definition resolve_rubric (repr : pyval -> string) (config : odict pyval) (evaluation : option WorkflowEvaluation) (rubric_override : option string)
    : res Rubric :=
  weights ← scoring_weights config;
  let criteria_by_name := match evaluation with Some e => foldl (fun d c => od_set (wc_name c) c d) [] (we_criteria e) | None => [] end in
  weights ← merge_rubric_weights weights criteria_by_name (evaluation ≫= we_weights) (evaluation ≫= we_scoring_profile);
  _ ← validate_rubric_weights weights (od_keys criteria_by_name);
  let named s := match s with Some (String a b) => Some (String a b) | _ => None end in
  let version := default VNone (od_get "version" config) in
  Ok (mkRubric (default "workflow_default" (first_some [named rubric_override; named (evaluation ≫= we_rubric_id)]))
        (str_of repr (if truthy version then version else VStr "1.0")) weights criteria_by_name).

(** ** The payload's schema *)

Inductive field_type := TStr | TList | TNumber | TBool.
Definition has_type (t : field_type) (v : pyval) : bool :=
  match t, v with
  | TStr, VStr _ | TList, VList _ | TBool, VBool _ | TNumber, (VInt _ | VFloat _ | VBool _) => true
  | _, _ => false
  end.
Definition type_names (t : field_type) : string := match t with TStr => "str" | TList => "list" | TNumber => "int, float" | TBool => "bool" end.

Definition REQUIRED_PAYLOAD_FIELDS : list (string * field_type) :=
  [("rubric_id", TStr); ("rubric_version", TStr); ("criteria", TList); ("overall_score", TNumber); ("weighted_score", TNumber);
   ("grade", TStr); ("passed", TBool); ("pass_threshold", TNumber); ("step_scores", TList)].
Definition REQUIRED_CRITERION_KEYS : list string := ["criterion"; "raw_score"; "normalized_score"; "weight"; "formula_id"; "score"].

Definition payload_field_error (payload : odict pyval) (field : string * field_type) : option string :=
  match od_get field.1 payload with
  | None | Some VNone => Some ("missing field: " +:+ field.1)
  | Some v => if has_type field.2 v then None else Some ("field '" +:+ field.1 +:+ "' must be " +:+ type_names field.2)
  end.
Definition payload_criterion_errors (idx : nat) (criterion : pyval) : list string :=
  let at_idx := "criteria[" +:+ pretty.pretty idx +:+ "]" in
  match criterion with
  | VDict d => (fun k => at_idx +:+ " missing key: " +:+ k) <$> filter (fun k => od_mem k d = false) REQUIRED_CRITERION_KEYS
  | _ => [at_idx +:+ " must be an object"]
  end.
(** The errors, none for a valid payload. *)
Definition validate_evaluation_payload_schema (payload : pyval) : list string :=
  match payload with
  | VDict d =>
      omap (payload_field_error d) REQUIRED_PAYLOAD_FIELDS ++
      match od_get "criteria" d with Some (VList l) => concat (imap payload_criterion_errors l) | _ => [] end
  | _ => ["payload must be a mapping"]
  end.

(** ** Hard gates *)

Definition is_hollow_dict (v : pyval) : bool :=
  match v with VDict [] => false | VDict d => forallb (fun kv => empty_leaf kv.2) d | _ => false end.

(** [set(list)] raises on lists and dictionaries. *)
Fixpoint hashable (v : pyval) : bool :=
  match v with
  | VList _ | VDict _ => false
  | VTuple l => (fix go l := match l with [] => true | x :: l => hashable x && go l end) l
  | _ => true
  end.

Definition output_resolved (unresolved : list pyval) (values : odict pyval) (name : string) : bool :=
  negb (bool_decide (VStr name ∈ unresolved)) &&
  match default VNone (od_get name values) with VNone => false | v => negb (is_hollow_dict v) end.

Definition required_names (workflow_outputs : odict WorkflowOutput) : list string :=
  od_keys (filter (fun ko => truthy (wo_optional ko.2) = false) workflow_outputs).

Definition check_required_outputs (result : WorkflowResult) (workflow_outputs : odict WorkflowOutput) : res bool :=
  let unresolved := match default (VList []) (od_get "unresolved_required_outputs" (wr_metadata result)) with VList l => l | _ => [] end in
  if forallb hashable unresolved
  then Ok (forallb (output_resolved unresolved (wr_final_output result)) (required_names workflow_outputs))
  else Raise (TypeError "unhashable type").

Definition is_release_step (s : StepResult) : bool :=
  existsb (startswith (sr_step_name s)) ["build_verify_release"; "release_build_verify"].
Definition release_step_ok (s : StepResult) : bool :=
  negb (is_failed s) && match default VNone (od_get "ready_for_release" (sr_output_data s)) with VNone => true | v => is_true_like v end.
Definition check_release_build (result : WorkflowResult) : bool := forallb release_step_ok (filter (fun s => is_release_step s = true) (wr_steps result)).

Definition compute_hard_gates (result : WorkflowResult) (workflow_outputs : odict WorkflowOutput) (eval_payload : option pyval)
    (dataset_compatible : bool) : res HardGateResult :=
  present ← check_required_outputs result workflow_outputs;
  Ok (mkGates present (bool_decide (wr_overall_status result = StSuccess)) (forallb (fun s => negb (is_failed s)) (wr_steps result))
        (check_release_build result)
        (match eval_payload with Some p => bool_decide (validate_evaluation_payload_schema p = []) | None => true end) dataset_compatible).

Definition step_scores (result : WorkflowResult) : list pyval :=
  (fun s => VDict [("step_name", VStr (sr_step_name s)); ("status", VStr (status_value (sr_status s)));
                   ("score", vfloat (if is_success s then 100 else 0))]) <$> wr_steps result.

(** ** Criterion scores *)

(** The loop's state: the payloads, the normalized scores, the weighted and the raw sums. *)
Record Scored := mkScored { sc_criteria : list (odict pyval); sc_normalized : odict Q; sc_weighted_sum : Q; sc_raw_sum : Q }.

Definition criterion_payload (criterion : string) (raw normalized adjusted weight : Q) (formula_id : string) (critical_floor : option Q) : odict pyval :=
  [("criterion", VStr criterion); ("raw_score", vfloat (round4 raw)); ("normalized_score", vfloat (round4 normalized));
   ("adjusted_normalized_score", vfloat (round4 adjusted)); ("score", vfloat (round2 (normalized * 100))); ("weight", vfloat weight);
   ("formula_id", VStr formula_id); ("critical_floor", match critical_floor with Some q => vfloat q | None => VNone end);
   ("floor_passed", VBool (match critical_floor with Some q => Qle_bool q normalized | None => true end)); ("max_score", vfloat 100)].

Section scoring.
Context (repr : pyval -> string) (float_repr : Qc -> string) (config : odict pyval) (no_llm : bool) (generated_at : string).
(** [compute_criterion_score_fn], by default [compute_criterion_score]. *)
Context (score_fn : string -> WorkflowResult -> string -> res Q).

Definition score_criterion (criteria_by_name : odict WorkflowCriterion) (result : WorkflowResult) (expected_text : string)
    (acc : Scored) (kw : string * Q) : res Scored :=
  let '(criterion, weight) := kw in
  raw ← score_fn criterion result expected_text;
  let cfg := od_get criterion criteria_by_name in
  let formula_id := match cfg with Some c => wc_formula_id c | None => "zero_one" end in
  normalized ← normalize_score (raw / 100) formula_id None;
  adjusted ← adjust_for_sample_size normalized (Z.max (Z.of_nat (length (wr_steps result))) 1) (1 # 2) 20;
  Ok (mkScored (sc_criteria acc ++ [criterion_payload criterion raw normalized adjusted weight formula_id (cfg ≫= wc_critical_floor)])
        (od_set criterion normalized (sc_normalized acc)) (sc_weighted_sum acc + normalized * weight) (sc_raw_sum acc + raw)).

Definition compute_criteria_scores (weights : odict Q) (criteria_by_name : odict WorkflowCriterion) (result : WorkflowResult) (expected_text : string)
    : res Scored := fold_res (score_criterion criteria_by_name result expected_text) (mkScored [] [] 0 0) weights.

(** ** The judge *)

Definition JUDGE_KEYS : list string := ["judge_raw_score"; "judge_normalized_score"; "judge_evidence"].
Definition annotate (judge_by_name : odict JudgeCriterionScore) (payload : odict pyval) : odict pyval :=
  match od_get (str_of repr (default VNone (od_get "criterion" payload))) judge_by_name with
  | None => payload
  | Some c => od_set "judge_evidence" (VStr (js_evidence c))
                (od_set "judge_normalized_score" (vfloat (round4 (js_normalized_score c)))
                   (od_set "judge_raw_score" (vfloat (round4 (js_raw_score c))) payload))
  end.
Definition strip_annotations (payload : odict pyval) : odict pyval := foldl (fun p k => od_pop k p) payload JUDGE_KEYS.

Definition classify_judge_failure (e : PyExc) : string :=
  if contains (ex_msg e) "No LLM backend configured" then "not_configured" else if no_llm then "not_configured" else "judge_error".

Record JudgeOutcome := mkOutcome {
  jo_result : option JudgeEvaluationResult;
  jo_score : option Q;
  jo_skip_reason : option string;
  jo_skip_code : option string;
}.

Context {W : Type} `{!JudgeBackend W}.
Abbreviation State := (option (LLMJudge W)).

(** [_handle_judge_skip] *)
Definition handle_judge_skip (reason code : string) : M State JudgeOutcome :=
  required <- lift_res (judge_required config);
  if required : bool
  then raise (mkExc KException "JudgeRequiredError"
                ("LLM judge is required (evaluation.scoring.judge_required=true) but unavailable: " +:+ reason))
  else ret (mkOutcome None None (Some reason) (Some code)).

Definition run_judge (j : LLMJudge W) (m : M (LLMJudge W) JudgeEvaluationResult) : M State (JudgeEvaluationResult + PyExc) := fun _ =>
  let '(j, r) := m j in (Some j, inl r).

Definition annotations_of (r : JudgeEvaluationResult) : odict JudgeCriterionScore :=
  foldl (fun d c => od_set (js_name c) c d) [] (jr_criteria r).

(** [_apply_judge_scores]: the payloads of the criteria and the outcome. *)
Definition apply_judge_scores (criteria : list (odict pyval)) (weights : odict Q) (criteria_by_name : odict WorkflowCriterion)
    (generated_text expected_text : string) : M State (list (odict pyval) * JudgeOutcome) :=
  judge <- get;
  match judge with
  | None => o <- handle_judge_skip "no judge configured" "not_configured"; ret (criteria, o)
  | Some j =>
      r <- run_judge j (judge_evaluate generated_text expected_text (inl <$> build_judge_criteria weights criteria_by_name) None None);
      match r with
      | inl r => ret (annotate (annotations_of r) <$> criteria, mkOutcome (Some r) (Some (jr_normalized_score r)) None None)
      | inr e =>
          if is_exception e
          then o <- handle_judge_skip (ex_type e +:+ ": " +:+ ex_msg e) (classify_judge_failure e); ret (strip_annotations <$> criteria, o)
          else raise e
      end
  end.

(** ** Floors *)

Definition record_floor_failure (violations : list CriterionFloorResult) (name : string) (floor value : Q) : list CriterionFloorResult :=
  if decide (name ∈ fl_criterion <$> violations) then violations
  else if qlt value floor then violations ++ [mkFloor name floor value] else violations.

Definition number_at (k : string) (payload : odict pyval) : option Q := od_get k payload ≫= py_float.
Definition explicit_floor (violations : list CriterionFloorResult) (payload : odict pyval) : list CriterionFloorResult :=
  match number_at "critical_floor" payload with
  | Some floor => record_floor_failure violations (str_of repr (default VNone (od_get "criterion" payload))) floor (default 0 (number_at "normalized_score" payload))
  | None => violations
  end.

(** The first of the keys that was scored has the floor. *)
Fixpoint backstop (violations : list CriterionFloorResult) (normalized : odict Q) (floor : Q) (keys : list string) : list CriterionFloorResult :=
  match keys with
  | [] => violations
  | k :: keys => match od_get k normalized with Some q => record_floor_failure violations k floor q | None => backstop violations normalized floor keys end
  end.

Definition collect_floor_violations (criteria : list (odict pyval)) (normalized : odict Q) : list CriterionFloorResult :=
  let violations := foldl explicit_floor [] criteria in
  let violations := backstop violations normalized (70 # 100) ["correctness"; "correctness_rubric"] in
  backstop violations normalized (80 # 100) ["safety_validation"; "validation"; "safety"; "code_quality"].

(** ** The verdict *)

Record Verdict := mkVerdict { vd_grade : string; vd_grade_capped : bool; vd_passed : bool }.

Definition finalize_grade_and_pass (letter : string) (weighted threshold : Q) (violations : list CriterionFloorResult) (hard_gates : HardGateResult)
    (enforce : bool) : Verdict :=
  let no_violations := match violations with [] => true | _ => false end in
  let capped := negb no_violations && bool_decide (letter ∈ ["A"; "B"; "C"]) in
  let letter := if capped then "D" else letter in
  let blocked := negb (all_passed hard_gates) && enforce in
  mkVerdict (if blocked then "F" else letter) (if blocked then false else capped)
    (Qle_bool threshold weighted && no_violations && (if enforce then all_passed hard_gates else true)).

Record ScoreLayers := mkLayers {
  sl_criteria : list (odict pyval);
  sl_normalized : odict Q;
  sl_objective : Q;
  sl_similarity : Q;
  sl_efficiency : Q;
  sl_advisory : Q;
  sl_judge : JudgeOutcome;
  sl_weighted_score : Q;
  sl_overall_score : Q;
  sl_hybrid_weights : odict Q;
}.

Definition compute_score_layers (result : WorkflowResult) (rubric : Rubric) (expected_text : string) (hybrid_weights : option (odict Q))
    : M State ScoreLayers :=
  let weights := rb_weights rubric in
  let total := qsum weights.*2 in
  let total := if Qeq_bool total 0 then 1 else total in
  scored <- lift_res (compute_criteria_scores weights (rb_criteria rubric) result expected_text);
  let objective := sc_weighted_sum scored / total in
  let generated_text := output_text float_repr result in
  similarity <- lift_res (advisory_similarity_score expected_text generated_text objective);
  efficiency <- lift_res (advisory_efficiency_score config result (sc_normalized scored));
  let advisory := similarity * (67 # 100) + efficiency * (33 # 100) in
  judged <- apply_judge_scores (sc_criteria scored) weights (rb_criteria rubric) generated_text expected_text;
  let '(criteria, outcome) := judged in
  let '(hybrid, active) := compose_hybrid_score objective advisory (jo_score outcome) hybrid_weights in
  ret (mkLayers criteria (sc_normalized scored) objective similarity efficiency advisory outcome (hybrid * 100)
         (match criteria with [] => 0 | _ => sc_raw_sum scored / inject_Z (Z.of_nat (length criteria)) end) active).

Definition meta_value (dataset_meta : option (odict pyval)) : pyval := match dataset_meta with Some m => VDict m | None => VNone end.

Definition build_base_payload (layers : ScoreLayers) (result : WorkflowResult) (rubric : Rubric) (letter : string) (threshold : Q)
    (dataset_meta : option (odict pyval)) (expected_text_present : bool) : odict pyval :=
  let judge := sl_judge layers in
  [("enabled", VBool true); ("rubric", VStr (rb_id rubric)); ("rubric_id", VStr (rb_id rubric)); ("rubric_version", VStr (rb_version rubric));
   ("criteria", VList (VDict <$> sl_criteria layers)); ("overall_score", vfloat (round2 (sl_overall_score layers)));
   ("weighted_score", vfloat (round2 (sl_weighted_score layers))); ("objective_weighted_score", vfloat (round2 (sl_objective layers * 100)));
   ("grade", VStr letter); ("passed", VBool false); ("pass_threshold", vfloat threshold); ("step_scores", VList (step_scores result));
   ("dataset", meta_value dataset_meta);
   ("score_layers", VDict [("layer1_objective", vfloat (round2 (sl_objective layers * 100)));
                           ("layer2_judge", match jo_score judge with Some q => vfloat (round2 (q * 100)) | None => VNone end);
                           ("layer3_similarity", vfloat (round2 (sl_similarity layers * 100)));
                           ("layer3_efficiency", vfloat (round2 (sl_efficiency layers * 100)));
                           ("layer3_advisory", vfloat (round2 (sl_advisory layers * 100)))]);
   ("hybrid_weights", VDict ((fun kv => (kv.1, vfloat kv.2)) <$> sl_hybrid_weights layers));
   ("judge", match jo_result judge with Some r => judge_payload r | None => VNone end);
   ("judge_skipped", VBool (match jo_score judge with Some _ => false | None => true end));
   ("judge_skip_reason", str_or_none (jo_skip_reason judge)); ("judge_skip_code", str_or_none (jo_skip_code judge));
   ("expected_text_present", VBool expected_text_present); ("generated_at", VStr generated_at)].

Definition floor_payload (f : CriterionFloorResult) : pyval :=
  VDict [("criterion", VStr (fl_criterion f)); ("floor", vfloat (round4 (fl_floor f))); ("normalized_score", vfloat (round4 (fl_normalized_score f)))].
Definition attach_gate_results (payload : odict pyval) (hard_gates : HardGateResult) (violations : list CriterionFloorResult) (v : Verdict)
    : odict pyval :=
  od_update payload
    [("hard_gates", VDict ((fun kb => (kb.1, VBool kb.2)) <$> gates hard_gates)); ("hard_gate_failures", VList (VStr <$> failures hard_gates));
     ("floor_violations", VList (floor_payload <$> violations));
     ("grade_capped", VBool (vd_grade_capped v)); ("grade", VStr (vd_grade v)); ("passed", VBool (vd_passed v))].

(** [_resolve_dataset_compatible]; [matches] is [match_workflow_dataset] on the definition, when there is one. *)
Definition resolve_dataset_compatible (dataset_meta : option (odict pyval)) (dataset_sample : pyval) (matches : option (odict pyval -> bool)) : bool :=
  match dataset_meta ≫= od_get "dataset_workflow_compatible" with
  | Some v => truthy v
  | None => match matches, dataset_sample with Some f, VDict d => f d | _, _ => true end
  end.

Definition apply_gates_and_finalize (payload : odict pyval) (result : WorkflowResult) (layers : ScoreLayers) (letter : string) (threshold : Q)
    (violations : list CriterionFloorResult) (outputs : odict WorkflowOutput) (dataset_compatible enforce : bool) : res (odict pyval) :=
  hard_gates ← compute_hard_gates result outputs (Some (VDict payload)) dataset_compatible;
  Ok (attach_gate_results payload hard_gates violations
        (finalize_grade_and_pass letter (sl_weighted_score layers) threshold violations hard_gates enforce)).

(** The part of a workflow's definition that the evaluation reads, when there is one. *)
Record Evaluated := mkEvaluated { ev_outputs : odict WorkflowOutput; ev_evaluation : option WorkflowEvaluation; ev_matches : odict pyval -> bool }.

(** [score_workflow_result_impl] *)
Definition score_workflow_result (result : WorkflowResult) (dataset_meta : option (odict pyval)) (dataset_sample : pyval) (rubric : option string)
    (definition : option Evaluated) (enforce : bool) (hybrid_weights : option (odict Q)) : M State (odict pyval) :=
  rb <- lift_res (resolve_rubric repr config (definition ≫= ev_evaluation) rubric);
  let expected_text := extract_expected_text dataset_sample in
  layers <- compute_score_layers result rb expected_text hybrid_weights;
  threshold <- lift_res (pass_threshold config);
  let letter := grade (sl_weighted_score layers) in
  let violations := collect_floor_violations (sl_criteria layers) (sl_normalized layers) in
  let payload := build_base_payload layers result rb letter threshold dataset_meta (negb (bool_decide (expected_text = ""))) in
  lift_res (apply_gates_and_finalize payload result layers letter threshold violations
              (match definition with Some d => ev_outputs d | None => [] end)
              (resolve_dataset_compatible dataset_meta dataset_sample (ev_matches <$> definition)) enforce).
End scoring.

(** ** Correctness *)

Lemma bind_returns {S A B} (m : M S A) (f : A -> M S B) s s' b :
  bind m f s = (s', inl b) -> exists s1 a, m s = (s1, inl a) /\ f a s1 = (s', inl b).
Proof. unfold bind. destruct (m s) as [s1 [a|e]]; [eauto | done]. Qed.

Lemma lift_res_inl {S A} (r : res A) (s s' : S) a : lift_res r s = (s', inl a) -> s' = s /\ r = Ok a.
Proof. destruct r; [|done]. by intros [= <- <-]. Qed.

(** The verdict on an unrounded score. *)
Definition verdict_ok (weighted threshold : Q) (violations : list CriterionFloorResult) (hard_gates : HardGateResult) (enforce passed : bool)
    (letter : string) : Prop :=
  (passed = true <-> (threshold <= weighted)%Q /\ violations = [] /\ (enforce = true -> all_passed hard_gates = true)) /\
  (enforce = true -> all_passed hard_gates = false -> letter = "F") /\
  (violations <> [] -> letter ∈ ["D"; "F"]) /\
  (passed = true -> (60 <= threshold)%Q -> letter = grade weighted /\ letter <> "F").

Lemma finalize_ok weighted threshold violations hard_gates enforce :
  let v := finalize_grade_and_pass (grade weighted) weighted threshold violations hard_gates enforce in
  verdict_ok weighted threshold violations hard_gates enforce (vd_passed v) (vd_grade v).
Proof.
  unfold verdict_ok, finalize_grade_and_pass. cbn [vd_passed vd_grade]. rewrite !andb_true_iff, Qle_bool_iff. split_and!.
  - destruct violations, enforce; naive_solver.
  - intros -> ->. done.
  - intros Hv. destruct violations as [|v vs]; [done|]. destruct (negb (all_passed hard_gates) && enforce); [set_solver|].
    unfold grade. repeat case_match; set_solver.
  - intros [[Hle Hv] Ha] H60. destruct violations as [|v vs]; [|done].
    assert (negb (all_passed hard_gates) && enforce = false) as -> by (destruct enforce; [by rewrite Ha | by destruct (all_passed _)]).
    split; [done|]. cbn [negb andb]. unfold grade. repeat (qcase; [done|]). exfalso. lra.
Qed.

Section pipeline.
Context (repr : pyval -> string) (float_repr : Qc -> string) (config : odict pyval) (no_llm : bool) (generated_at : string).
Context (score_fn : string -> WorkflowResult -> string -> res Q) {W : Type} `{!JudgeBackend W}.

(** Where the normalized scores come from. *)
Definition scored_by (result : WorkflowResult) (expected k : string) (q : Q) : Prop :=
  exists raw formula, score_fn k result expected = Ok raw /\ normalize_score (raw / 100) formula None = Ok q.

Definition required_keys (payload : odict pyval) : Prop := Forall (fun k => is_Some (od_get k payload)) REQUIRED_CRITERION_KEYS.

Lemma criterion_payload_keys c raw n a w f fl : required_keys (criterion_payload c raw n a w f fl).
Proof. repeat (apply Forall_cons; split; [by eexists|]). constructor. Qed.

(** What holds of the state of the loop over criteria. *)
Definition scored_inv (result : WorkflowResult) (expected : string) (done : odict Q) (acc : Scored) : Prop :=
  Forall required_keys (sc_criteria acc) /\
  (forall k q, od_get k (sc_normalized acc) = Some q -> scored_by result expected k q) /\
  (forall k, k ∈ done.*1 -> is_Some (od_get k (sc_normalized acc))) /\
  (0 <= sc_weighted_sum acc <= qsum done.*2)%Q.

Lemma qsum_snoc l x : (qsum (l ++ [x]) == qsum l + x)%Q.
Proof. unfold qsum. by rewrite fold_left_app. Qed.

Lemma score_criterion_inv criteria result expected dones acc kw acc' :
  scored_inv result expected dones acc -> (0 < kw.2)%Q -> score_criterion score_fn criteria result expected acc kw = Ok acc' ->
  scored_inv result expected (dones ++ [kw]) acc'.
Proof.
  destruct kw as [k w]. intros (Hk & Hn & Hd & Hs) Hw E. unfold score_criterion in E.
  apply res_bind_ok in E as (raw & Er & E). apply res_bind_ok in E as (q & Eq & E). apply res_bind_ok in E as (adj & _ & E).
  injection E as <-. unfold scored_inv. cbn [sc_criteria sc_normalized sc_weighted_sum]. split_and!.
  - apply Forall_app. split; [done|]. constructor; [apply criterion_payload_keys | constructor].
  - intros k' q' Hq. rewrite od_get_set in Hq. case_decide as Hk'; [|by apply Hn]. simplify_eq. by eexists _, _.
  - intros k' Hin. rewrite od_get_set. case_decide; [by eexists|]. apply Hd. rewrite fmap_app, elem_of_app in Hin.
    destruct Hin as [?|Hin]; [done|]. apply list_elem_of_singleton in Hin. cbn in Hin. congruence.
  - pose proof (normalize_range _ _ _ _ Eq) as [H0 _]. pose proof (Qmult_le_0_compat q w H0 (Qlt_le_weak _ _ Hw)). lra.
  - rewrite fmap_app. change ([(k, w)].*2) with [w]. rewrite qsum_snoc. pose proof (normalize_range _ _ _ _ Eq) as [_ H1].
    pose proof (Qmult_le_compat_r _ _ w H1 (Qlt_le_weak _ _ Hw)). lra.
Qed.

Lemma fold_criteria_inv criteria result expected todo : forall dones acc acc',
  scored_inv result expected dones acc -> Forall (Qlt 0) todo.*2 ->
  fold_res (score_criterion score_fn criteria result expected) acc todo = Ok acc' ->
  scored_inv result expected (dones ++ todo) acc'.
Proof.
  induction todo as [|kw todo IH]; intros dones acc acc' Hi Hp E; cbn [fold_res] in E.
  - injection E as <-. by rewrite app_nil_r.
  - apply Forall_cons in Hp as [Hw Hp]. apply res_bind_ok in E as (acc1 & E1 & E).
    rewrite cons_middle, app_assoc. eapply IH; [|done|done]. by eapply score_criterion_inv.
Qed.

Lemma criteria_scores_inv weights criteria result expected acc :
  Forall (Qlt 0) weights.*2 -> compute_criteria_scores score_fn weights criteria result expected = Ok acc ->
  scored_inv result expected weights acc.
Proof.
  intros Hp E. apply (fold_criteria_inv criteria result expected weights [] (mkScored [] [] 0 0)); try done.
  split_and!; try done; cbn; try lra. by intros k ?%elem_of_nil.
Qed.
(** *** The judge's part *)

Lemma required_set k v p : required_keys p -> required_keys (od_set k v p).
Proof. intros Hp. eapply Forall_impl; [exact Hp|]. intros k' Hk'. cbv beta. rewrite od_get_set. case_decide; [by eexists | done]. Qed.

Lemma required_pop k p : k ∉ REQUIRED_CRITERION_KEYS -> required_keys p -> required_keys (od_pop k p).
Proof.
  intros Hk Hp. apply Forall_forall. intros k' Hin. rewrite od_get_pop, decide_False by (intros ->; done).
  unfold required_keys in Hp. rewrite Forall_forall in Hp. by apply Hp.
Qed.

Lemma annotate_keys scores p : required_keys p -> required_keys (annotate repr scores p).
Proof. intros Hp. unfold annotate. case_match; [|done]. by repeat apply required_set. Qed.

Lemma strip_keys p : required_keys p -> required_keys (strip_annotations p).
Proof. intros Hp. unfold strip_annotations. cbn [foldl JUDGE_KEYS]. repeat (apply required_pop; [by apply (bool_decide_unpack _)|]). done. Qed.

Lemma skip_inl reason code (j j' : option (LLMJudge W)) o :
  handle_judge_skip config reason code j = (j', inl o) -> o = mkOutcome None None (Some reason) (Some code).
Proof.
  intros (s1 & required & Hr & E)%bind_returns. apply lift_res_inl in Hr as [-> _]. destruct required; [done|]. by injection E as _ <-.
Qed.

Lemma apply_judge_inv criteria weights by_name generated expected (j j' : option (LLMJudge W)) criteria' o :
  Forall required_keys criteria ->
  apply_judge_scores repr config no_llm criteria weights by_name generated expected j = (j', inl (criteria', o)) ->
  Forall required_keys criteria' /\ (forall q, jo_score o = Some q -> (0 <= q <= 1)%Q).
Proof.
  intros Hc (s1 & judge & Hj & E)%bind_returns. injection Hj as <- <-. destruct j as [j|].
  - apply bind_returns in E as (s2 & r & Hr & E). unfold run_judge in Hr.
    destruct (judge_evaluate _ _ _ _ _ _) as [j1 r1] eqn:Ej. injection Hr as <- <-. destruct r1 as [r1|e].
    + injection E as _ <- <-. cbn. split.
      * apply Forall_fmap. eapply Forall_impl; [exact Hc|]. intros p. apply annotate_keys.
      * intros q [= <-]. by eapply evaluate_ok.
    + destruct (is_exception e); [|done]. apply bind_returns in E as (s3 & o' & Ho & E). apply skip_inl in Ho as ->.
      injection E as _ <- <-. split; [|done]. apply Forall_fmap. eapply Forall_impl; [exact Hc|]. intros p. apply strip_keys.
  - apply bind_returns in E as (s3 & o' & Ho & E). apply skip_inl in Ho as ->. injection E as _ <- <-. done.
Qed.

Lemma efficiency_blend_range seconds retries q : efficiency_blend config seconds retries = Ok q -> (0 <= q <= 1)%Q.
Proof.
  unfold efficiency_blend. intros (slo & _ & E)%res_bind_ok. apply res_bind_ok in E as (d & Hd & E). apply res_bind_ok in E as (r & Hr & E).
  injection E as <-. apply normalize_range in Hd as [? ?]. apply normalize_range in Hr as [? ?]. lra.
Qed.

Lemma mean_bounds a t : (0 <= a <= t)%Q -> (0 <= a / (if Qeq_bool t 0 then 1 else t) <= 1)%Q.
Proof.
  intros [H0 H1]. apply Qdiv_range; destruct (qeq_spec t 0); try lra.
Qed.

(** *** The layers *)

Record sound_layers (result : WorkflowResult) (rubric : Rubric) (expected : string) (layers : ScoreLayers) : Prop := {
  layer_keys : Forall required_keys (sl_criteria layers);
  layer_scored : forall k q, od_get k (sl_normalized layers) = Some q -> scored_by result expected k q;
  layer_all : forall k, k ∈ od_keys (rb_weights rubric) -> is_Some (od_get k (sl_normalized layers));
  layer_range : (0 <= sl_weighted_score layers <= 100)%Q;
}.

Lemma layers_sound result rubric expected hybrid (j j' : option (LLMJudge W)) layers :
  Forall (Qlt 0) (rb_weights rubric).*2 ->
  compute_score_layers repr float_repr config no_llm score_fn result rubric expected hybrid j = (j', inl layers) ->
  sound_layers result rubric expected layers.
Proof.
  intros Hp (s1 & acc & Hacc & E)%bind_returns. apply lift_res_inl in Hacc as [-> Hacc].
  apply criteria_scores_inv in Hacc as (Hk & Hn & Hd & Hs); [|done].
  apply bind_returns in E as (s1 & sim & Hsim & E). apply lift_res_inl in Hsim as [-> Hsim].
  apply bind_returns in E as (s1 & eff & Heff & E). apply lift_res_inl in Heff as [-> Heff].
  apply bind_returns in E as (s1 & [criteria o] & Hj & E). apply apply_judge_inv in Hj as [Hk' Ho]; [|done].
  destruct (compose_hybrid_score _ _ _ _) as [hybrid_score active] eqn:Eh. injection E as _ <-.
  assert (0 <= sim <= 1)%Q as Hsim' by (unfold advisory_similarity_score in Hsim; by eapply normalize_range).
  assert (0 <= eff <= 1)%Q as Heff'
    by (unfold advisory_efficiency_score in Heff; destruct (od_get _ _); [by eapply normalize_range | by eapply efficiency_blend_range]).
  split; cbn; try done.
  assert (0 <= hybrid_score <= 1)%Q; [|lra].
  change hybrid_score with (hybrid_score, active).1. rewrite <- Eh. apply hybrid_range; [by apply mean_bounds | lra | done].
Qed.

Lemma validated_weights w known : validate_rubric_weights w known = Ok tt -> good_weights w /\ w <> [].
Proof.
  unfold validate_rubric_weights. case_decide as Hne; [done|]. cbv zeta. destruct (match known with [] => _ | _ => _ end); [|done].
  destruct (existsb _ _) eqn:Hp; [done|]. destruct (off_one _) eqn:Ho; [done|]. intros _.
  split; [|done]. split; [|by apply not_off_one]. apply Forall_forall. intros q Hq. apply Qnot_le_lt. intros Hle%Qle_bool_iff.
  enough (existsb (fun q => Qle_bool q 0) w.*2 = true) by congruence. apply existsb_exists. exists q. split; [by apply list_elem_of_In | done].
Qed.

Lemma resolved_weights evaluation override rb : resolve_rubric repr config evaluation override = Ok rb -> good_weights (rb_weights rb) /\ rb_weights rb <> [].
Proof.
  unfold resolve_rubric. intros (w & _ & E)%res_bind_ok. apply res_bind_ok in E as (w' & _ & E). apply res_bind_ok in E as ([] & Hv & E).
  injection E as <-. by eapply validated_weights.
Qed.
(** *** The payload *)

Lemma criterion_valid idx p : required_keys p -> payload_criterion_errors idx (VDict p) = [].
Proof.
  intros Hp. unfold payload_criterion_errors. destruct (filter _ _) as [|k ks] eqn:Ef; [done|].
  assert (k ∈ k :: ks) as Hk by left. rewrite <- Ef in Hk. apply list_elem_of_filter in Hk as [Hk Hin].
  unfold required_keys in Hp. rewrite Forall_forall in Hp. apply Hp, od_mem_spec in Hin. congruence.
Qed.

Lemma criteria_valid l : Forall required_keys l -> forall n, concat (imap (fun i => payload_criterion_errors (n + i)) (VDict <$> l)) = [].
Proof.
  intros Hl. induction Hl as [|p l Hp Hl IH]; intros n; [done|]. rewrite fmap_cons, imap_cons. cbn [concat]. rewrite criterion_valid by done.
  etransitivity; [|apply (IH (S n))]. cbn [app]. f_equal. apply imap_ext. intros i x _. unfold compose. f_equal. lia.
Qed.

Lemma payload_valid payload layers :
  Forall (fun f => payload_field_error payload f = None) REQUIRED_PAYLOAD_FIELDS ->
  od_get "criteria" payload = Some (VList (VDict <$> sl_criteria layers)) -> Forall required_keys (sl_criteria layers) ->
  validate_evaluation_payload_schema (VDict payload) = [].
Proof.
  intros Hf Hc Hk. unfold validate_evaluation_payload_schema. rewrite Hc. 
  assert (concat (imap payload_criterion_errors (VDict <$> sl_criteria layers)) = []) as -> by exact (criteria_valid _ Hk 0). rewrite app_nil_r.
  clear -Hf. induction Hf as [|f l H Hl IH]; [done|]. cbn [omap list_omap]. by rewrite H.
Qed.

(** What a returned payload is. *)
Lemma score_inl result meta sample override definition enforce hybrid (j j' : option (LLMJudge W)) payload :
  score_workflow_result repr float_repr config no_llm generated_at score_fn result meta sample override definition enforce hybrid j = (j', inl payload) ->
  exists rb layers threshold hard_gates letter base,
    resolve_rubric repr config (definition ≫= ev_evaluation) override = Ok rb /\
    sound_layers result rb (extract_expected_text sample) layers /\
    pass_threshold config = Ok threshold /\
    letter = grade (sl_weighted_score layers) /\
    base = build_base_payload generated_at layers result rb letter threshold meta (negb (bool_decide (extract_expected_text sample = ""))) /\
    compute_hard_gates result (match definition with Some d => ev_outputs d | None => [] end) (Some (VDict base))
      (resolve_dataset_compatible meta sample (ev_matches <$> definition)) = Ok hard_gates /\
    let violations := collect_floor_violations repr (sl_criteria layers) (sl_normalized layers) in
    payload = attach_gate_results base hard_gates violations
                (finalize_grade_and_pass letter (sl_weighted_score layers) threshold violations hard_gates enforce).
Proof.
  intros (s1 & rb & Hrb & E)%bind_returns. apply lift_res_inl in Hrb as [-> Hrb].
  apply bind_returns in E as (s1 & layers & Hl & E). apply layers_sound in Hl; [|by apply resolved_weights in Hrb as [[? _] _]].
  apply bind_returns in E as (s2 & threshold & Ht & E). apply lift_res_inl in Ht as [-> Ht].
  apply lift_res_inl in E as [_ E]. apply res_bind_ok in E as (hard_gates & Hg & E). injection E as <-.
  eexists rb, layers, threshold, hard_gates, _, _. split_and!; try done.
Qed.

(** The fields of a payload with its verdict. *)
Lemma attached_fields layers result rubric letter threshold meta present hard_gates violations v :
  let base := build_base_payload generated_at layers result rubric letter threshold meta present in
  let payload := attach_gate_results base hard_gates violations v in
  Forall (fun f => payload_field_error base f = None) REQUIRED_PAYLOAD_FIELDS /\
  Forall (fun f => payload_field_error payload f = None) REQUIRED_PAYLOAD_FIELDS /\
  od_get "criteria" base = Some (VList (VDict <$> sl_criteria layers)) /\
  od_get "criteria" payload = Some (VList (VDict <$> sl_criteria layers)) /\
  od_get "weighted_score" payload = Some (vfloat (round2 (sl_weighted_score layers))) /\
  od_get "hard_gate_failures" payload = Some (VList (VStr <$> failures hard_gates)) /\
  od_get "floor_violations" payload = Some (VList (floor_payload <$> violations)) /\
  od_get "passed" payload = Some (VBool (vd_passed v)) /\ od_get "grade" payload = Some (VStr (vd_grade v)).
Proof.
  cbv zeta. split_and!; try reflexivity; repeat (apply Forall_cons; split; [reflexivity|]); constructor.
Qed.

(** C23. Every payload of an evaluation is a payload of the schema, so that its own schema gate
    always holds; its weighted score lies between 0 and 100; it says [passed] exactly when
    the unrounded score reaches the threshold, no floor is violated and, where gates are
    enforced, all six hold; a broken gate that is enforced gives the grade F, a violated
    floor at most a D, and a passed run whose threshold is at least 60 keeps the grade of its
    score.  This for any rubric, judge, scoring function and configuration.  (A comment
    in the code says that a floor does not by itself fail the run; it does.) *)
Theorem verdict_sound result meta sample override definition enforce hybrid (j j' : option (LLMJudge W)) payload :
  score_workflow_result repr float_repr config no_llm generated_at score_fn result meta sample override definition enforce hybrid j = (j', inl payload) ->
  validate_evaluation_payload_schema (VDict payload) = [] /\
  exists weighted threshold (violations : list CriterionFloorResult) hard_gates passed letter,
    (0 <= weighted <= 100)%Q /\ pass_threshold config = Ok threshold /\ schema_contract_valid hard_gates = true /\
    od_get "weighted_score" payload = Some (vfloat (round2 weighted)) /\
    od_get "hard_gate_failures" payload = Some (VList (VStr <$> failures hard_gates)) /\
    od_get "floor_violations" payload = Some (VList (floor_payload <$> violations)) /\
    od_get "passed" payload = Some (VBool passed) /\ od_get "grade" payload = Some (VStr letter) /\
    verdict_ok weighted threshold violations hard_gates enforce passed letter.
Proof.
  intros (rb & layers & threshold & hard_gates & letter & base & _ & [Hk _ _ Hw] & Ht & Hl & Hb & Hg & Hp)%score_inl. cbv zeta in Hp.
  set (violations := collect_floor_violations _ _ _) in *. set (v := finalize_grade_and_pass _ _ _ _ _ _) in *.
  destruct (attached_fields layers result rb letter threshold meta (negb (bool_decide (extract_expected_text sample = ""))) hard_gates violations v)
    as (Hfb & Hf & Hcb & Hc & Hfields). rewrite <- Hb in Hfb, Hcb. rewrite <- Hb, <- Hp in Hf, Hc, Hfields.
  split; [by eapply payload_valid|]. exists (sl_weighted_score layers), threshold, violations, hard_gates, (vd_passed v), (vd_grade v).
  destruct Hfields as (? & ? & ? & ? & ?). split_and!; try done; try apply Hw; [|subst v letter; apply finalize_ok].
  apply res_bind_ok in Hg as (present & _ & Hg). injection Hg as <-. by apply bool_decide_true, (payload_valid base layers).
Qed.
End pipeline.

(** *** Floors *)

Lemma record_nonempty violations name floor value :
  violations <> [] \/ (value < floor)%Q -> record_floor_failure violations name floor value <> [].
Proof.
  intros H. unfold record_floor_failure. case_decide as Hn; [destruct violations; [by apply elem_of_nil in Hn | done]|].
  destruct (qlt_spec value floor); [by destruct violations|]. by destruct H.
Qed.

Lemma backstop_keeps violations normalized floor keys : violations <> [] -> backstop violations normalized floor keys <> [].
Proof.
  intros Hv. induction keys as [|k keys IH]; [done|]. cbn [backstop]. destruct (od_get k normalized); [|done]. apply record_nonempty. by left.
Qed.

(** A floor below which all the keys' scores lie is violated as soon as one of them is scored. *)
Lemma backstop_violated violations normalized floor keys k :
  k ∈ keys -> is_Some (od_get k normalized) -> (forall k q, k ∈ keys -> od_get k normalized = Some q -> (q < floor)%Q) ->
  backstop violations normalized floor keys <> [].
Proof.
  intros Hk Hs Hlow. induction keys as [|k' keys IH]; [by apply elem_of_nil in Hk|]. cbn [backstop].
  destruct (od_get k' normalized) as [q|] eqn:Eq.
  - apply record_nonempty. right. apply (Hlow k'); [left | done].
  - apply IH; [|intros k1 q1 Hk1; apply Hlow; by right]. apply elem_of_cons in Hk as [->|?]; [|done]. rewrite Eq in Hs. by destruct Hs.
Qed.

Definition CORRECTNESS_KEYS : list string := ["correctness"; "correctness_rubric"].

(** C22. A hollow run never passes: when no string of the output has twenty characters and the
    rubric weighs correctness, the evaluation either raises or returns a payload with a
    violated floor, a grade of D or F, and [passed] false; whatever the formulas of the
    criteria, the floors they declare, the judge's marks, the weights of the hybrid score,
    and whether or not the hard gates are enforced. *)
Theorem hollow_never_passes repr float_repr config no_llm generated_at {W : Type} `{!JudgeBackend W}
    result meta sample override definition enforce hybrid (j : option (LLMJudge W)) rb k :
  has_code_content (VDict (wr_final_output result)) = false ->
  resolve_rubric repr config (definition ≫= ev_evaluation) override = Ok rb -> k ∈ CORRECTNESS_KEYS -> k ∈ od_keys (rb_weights rb) ->
  match score_workflow_result repr float_repr config no_llm generated_at (compute_criterion_score float_repr config)
          result meta sample override definition enforce hybrid j with
  | (_, inl payload) =>
      od_get "passed" payload = Some (VBool false) /\
      (exists v violations, od_get "floor_violations" payload = Some (VList (floor_payload <$> v :: violations))) /\
      (od_get "grade" payload = Some (VStr "D") \/ od_get "grade" payload = Some (VStr "F"))
  | (_, inr _) => True
  end.
Proof.
  intros Hh Hrb Hk Hin. destruct (score_workflow_result _ _ _ _ _ _ _ _ _ _ _ _ _ _) as [j' [payload|e]] eqn:E; [|done].
  apply score_inl in E as (rb' & layers & threshold & hard_gates & letter & base & Hrb' & [_ Hs Ha _] & _ & -> & -> & _ & Hp).
  assert (rb' = rb) as -> by congruence. cbv zeta in Hp. subst payload.
  set (violations := collect_floor_violations _ _ _).
  assert (violations <> []) as Hv.
  { unfold violations, collect_floor_violations. apply backstop_keeps, (backstop_violated _ _ _ _ k); [done | by apply Ha|].
    intros k' q Hk' Hq. destruct (Hs k' q Hq) as (raw & formula & Hraw & Hn). enough (q < 7 # 10)%Q by lra. apply (normalize_low (raw / 100) formula q); [|done].
    apply (hollow_scores _ _ _ _ _ _ Hh) in Hraw as [Hraw _]. assert (raw <= 30)%Q by (apply Hraw; clear -Hk'; unfold CORRECTNESS_CRITERIA; set_solver).
    apply Qle_shift_div_r; lra. }
  destruct (attached_fields generated_at layers result rb (grade (sl_weighted_score layers)) threshold meta
              (negb (bool_decide (extract_expected_text sample = ""))) hard_gates violations
              (finalize_grade_and_pass (grade (sl_weighted_score layers)) (sl_weighted_score layers) threshold violations hard_gates enforce))
    as (_ & _ & _ & _ & _ & _ & -> & -> & ->).
  destruct (finalize_ok (sl_weighted_score layers) threshold violations hard_gates enforce) as (Hpass & _ & Hg & _).
  split_and!.
  - destruct (vd_passed _); [|done]. destruct Hpass as [(_ & ? & _) _]; done.
  - destruct violations as [|v vs]; [done|]. by exists v, vs.
  - specialize (Hg Hv). apply elem_of_cons in Hg as [->|Hg]; [by left|]. right. apply list_elem_of_singleton in Hg as ->. done.
Qed.

(** ** Examples *)

Definition demo_run (final_output : odict pyval) : WorkflowResult :=
  set_final_output final_output
    (wf_mark_complete true 1000000 (add_step (step_mark_complete true None 1000000 (new_step_result "build" StRunning None 0))
       (new_workflow_result "wf-1" "demo" StRunning 0))).
Definition full_output : odict pyval := [("review", VStr "The change is correct and well tested.")].
Definition hollow_output : odict pyval := [("review", VDict [("body", VNone)])].

(** A judge that gives every criterion of the default rubric the best mark. *)
Definition generous_judge : JudgeBackend unit := {|
  response_provider :=
    Some (fun _ w => (w, inl (inl [("criteria", VList ((fun k => VDict [("name", VStr k); ("score", VInt 5); ("evidence", VStr "")]) <$> od_keys DEFAULT_WEIGHTS))])));
  judge_backend _ := true;
  judge_chat _ w := (w, inl []);
  judge_loads _ := inr (mkExc KException "JSONDecodeError" "");
  judge_repr _ := "";
  shuffle _ l := l;
  stable_seed _ := 0%Z;
|}.
#[local] Existing Instance generous_judge.

#[local] Abbreviation demo_score final_output judge :=
  (score_workflow_result (fun _ => "") (fun _ => "") [] false "" (compute_criterion_score (fun _ => "") [])
    (demo_run final_output) None VNone None None true None judge).
Definition verdict_of (r : option (LLMJudge unit) * (odict pyval + PyExc)) : option Q * list (option pyval) :=
  match r with (_, inl p) => (number_at "weighted_score" p, (fun k => od_get k p) <$> ["grade"; "passed"; "judge_skip_code"]) | _ => (None, []) end.
Definition default_rubric : Rubric := mkRubric "workflow_default" "1.0" DEFAULT_WEIGHTS [].

Example full_run_passes : verdict_of (demo_score full_output None) = (Some (2278 # 25), [Some (VStr "A"); Some (VBool true); Some (VStr "not_configured")]).
Proof. vm_compute. reflexivity. Qed.

(** The best marks lift a hollow run over the threshold, but not past the floors. *)
Example hollow_run_fails : verdict_of (demo_score hollow_output (Some the_judge)) = (Some (3533 # 50), [Some (VStr "D"); Some (VBool false); Some VNone]).
Proof. vm_compute. reflexivity. Qed.

Definition returns {S A} (r : S * (A + PyExc)) : bool := match r with (_, inl _) => true | _ => false end.
Lemma returns_value {S A} (r : S * (A + PyExc)) : returns r = true -> exists s a, r = (s, inl a).
Proof. destruct r as [s [a|e]]; [by eauto | done]. Qed.
Lemma full_run_returns : exists j payload, demo_score full_output None = (j, inl payload).
Proof. apply returns_value. vm_compute. reflexivity. Qed.

Lemma verdict_sound_witness :
  exists j payload, demo_score full_output None = (j, inl payload) /\ validate_evaluation_payload_schema (VDict payload) = [].
Proof.
  destruct full_run_returns as (j & payload & E). exists j, payload. split; [exact E|].
  apply verdict_sound in E as [Hv _]. exact Hv.
Defined.

Lemma hollow_never_passes_witness :
  match demo_score hollow_output (Some the_judge) with
  | (_, inl payload) =>
      od_get "passed" payload = Some (VBool false) /\
      (exists v violations, od_get "floor_violations" payload = Some (VList (floor_payload <$> v :: violations))) /\
      (od_get "grade" payload = Some (VStr "D") \/ od_get "grade" payload = Some (VStr "F"))
  | (_, inr _) => True
  end.
Proof.
  apply (hollow_never_passes (fun _ => "") (fun _ => "") [] false "" (demo_run hollow_output) None VNone None None true None (Some the_judge)
           default_rubric "correctness"); [reflexivity | reflexivity | left | left].
Defined.
