(* ===== verification/DatasetMatching.v ===== *)
(** * Datasets and workflows (scoring/dataset_matching.py)

    Which sample may feed which workflow, and how its fields become the workflow's inputs.
    The files of the artifacts directory are a function from values to the paths of
    existing files; the files the adaptation writes are returned.  [json.loads] is a function. *)

From stdpp Require Import sorting.
From S2P Require Import Prelude PyStr PyVal Messages Step Scoring AgentStep Loader Judge ScoringCriteria EvalScoring.

(** ** Values *)

(** [v in (None, "")] *)
Definition blank (v : pyval) : bool := match v with VNone | VStr EmptyString => true | _ => false end.
Definition is_empty_value (v : pyval) : bool :=
  match v with
  | VNone => true
  | VStr s => bool_decide (strip s = "")
  | VList [] | VTuple [] | VDict [] => true
  | _ => false
  end.

Section matching.
Context (repr : pyval -> string).

(** The role and the text of a message that has one. *)
Definition message_text (message : pyval) : option (string * string) :=
  match message with
  | VDict m =>
      match od_get "content" m with
      | Some (VStr content) => if decide (strip content = "") then None
                               else Some (lower (str_of repr (default (VStr "") (od_get "role" m))), strip content)
      | _ => None
      end
  | _ => None
  end.

Definition PREFERRED_ROLES : list string := ["user"; "system"; "assistant"].
Definition extract_message_text (sample : odict pyval) : pyval :=
  match od_get "messages" sample with
  | Some (VList messages) =>
      match omap message_text messages with
      | [] => VNone
      | (first :: _) as candidates =>
          VStr (default first.2 (first_some ((fun role => snd <$> List.find (fun c => bool_decide (c.1 = role)) candidates) <$> PREFERRED_ROLES)))
      end
  | _ => VNone
  end.

Definition usable (o : option pyval) : option pyval := v ← o; if blank v then None else Some v.

(** The value of a key: at the top, in [inputs], in [input], or [input] itself. *)
Definition pick (sample : odict pyval) (key : string) : option pyval :=
  first_some [usable (od_get key sample); usable (dict_at "inputs" sample ≫= od_get key); usable (dict_at "input" sample ≫= od_get key);
              match str_at "input" sample with
              | Some s => if bool_decide (key = "input") && negb (bool_decide (strip s = "")) then Some (VStr s) else None
              | None => None
              end].
Definition pick_first (sample : odict pyval) (keys : list string) : pyval := default VNone (first_some (pick sample <$> keys)).
Definition pick_first_or_message (sample : odict pyval) (keys : list string) : pyval :=
  let v := pick_first sample keys in if blank v then extract_message_text sample else v.

(** ** Matching *)

Definition FILE_FIELD_KEYS : list string :=
  ["code_file"; "file_path"; "path"; "source_path"; "patch"; "code"; "body"; "prompt"; "task_description"; "instruction"; "input"].
Definition BUG_FIELD_KEYS : list string :=
  ["bug_report"; "problem_statement"; "issue_text"; "issue_body"; "description"; "prompt"; "task_description"; "body"; "instruction"; "input";
   "question"; "query"; "request"].
Definition SPEC_FIELD_KEYS : list string :=
  ["feature_spec"; "task_description"; "prompt"; "description"; "instruction"; "input"; "question"; "query"; "request"; "body"].
Definition GENERIC_FIELD_KEYS : list string :=
  ["prompt"; "task_description"; "problem_statement"; "description"; "body"; "instruction"; "input"; "question"; "query"; "request"; "issue_text";
   "content"; "text"; "code"].

Definition mentions (lowered : string) (words : list string) : bool := existsb (contains lowered) words.

Definition explicit_sample_value (input_name : string) (sample : odict pyval) : pyval :=
  default VNone (first_some [usable (od_get input_name sample); usable (dict_at "inputs" sample ≫= od_get input_name)]).

(** [None]: no category of the name applies. *)
Definition semantic_dataset_value (lowered : string) (input_def : WorkflowInput) (sample : odict pyval) : option pyval :=
  if mentions lowered ["file"; "patch"] then Some (pick_first sample FILE_FIELD_KEYS)
  else if mentions lowered ["bug"; "report"; "issue"] then Some (pick_first_or_message sample BUG_FIELD_KEYS)
  else if mentions lowered ["spec"; "requirement"] then Some (pick_first_or_message sample SPEC_FIELD_KEYS)
  else if contains lowered "tech_stack" && bool_decide (wi_type input_def = VStr "object")
  then first_some [usable (od_get "tech_stack" sample); usable (Some (wi_default input_def))]
  else None.

Definition dataset_value_for_input (input_name : string) (input_def : WorkflowInput) (sample : odict pyval) : pyval :=
  match explicit_sample_value input_name sample with
  | VNone =>
      match semantic_dataset_value (lower input_name) input_def sample with
      | Some v => v
      | None => if truthy (wi_enum input_def) || negb (blank (wi_default input_def)) then wi_default input_def
                else pick_first_or_message sample GENERIC_FIELD_KEYS
      end
  | v => v
  end.

(** Required, and without a default. *)
Definition needs_value (input_def : WorkflowInput) : bool := truthy (wi_required input_def) && blank (wi_default input_def).
Definition required_inputs (inputs : odict WorkflowInput) : odict WorkflowInput := filter (fun kd => needs_value kd.2 = true) inputs.

Definition capability_input_missing (inputs : odict WorkflowInput) (sample : odict pyval) (capability_input : string) : bool :=
  match od_get capability_input inputs with
  | Some input_def => blank (wi_default input_def) && is_empty_value (dataset_value_for_input capability_input input_def sample)
  | None => is_empty_value (default VNone (od_get capability_input sample))
  end.

Definition missing_inputs (inputs : odict WorkflowInput) (capabilities : WorkflowCapabilities) (sample : odict pyval) : list string :=
  (filter (fun kd => is_empty_value (dataset_value_for_input kd.1 kd.2 sample) = true) (required_inputs inputs)).*1 ++
  filter (fun c => capability_input_missing inputs sample c = true) (cap_inputs capabilities).

Definition match_workflow_dataset (inputs : odict WorkflowInput) (capabilities : WorkflowCapabilities) (sample : pyval) : bool * list string :=
  match sample with
  | VDict d =>
      let missing := (fun n => "missing: " +:+ n) <$> missing_inputs inputs capabilities d in
      (bool_decide (missing = []), merge_sort str_le (remove_dups missing))
  | _ => (false, ["invalid_dataset_sample"])
  end.

Definition validate_required_inputs_present (inputs : odict WorkflowInput) (provided : odict pyval) : list string :=
  od_keys (filter (fun kd => is_empty_value (default VNone (od_get kd.1 provided)) = true) (required_inputs inputs)).

(** What the evaluation reads of a loaded definition. *)
Definition evaluated {S} (definition : WorkflowDefinition S) : Evaluated :=
  mkEvaluated (wd_outputs definition) (wd_evaluation definition)
    (fun sample => (match_workflow_dataset (wd_inputs definition) (wd_capabilities definition) (VDict sample)).1).

(** ** Adaptation *)

Section adaptation.
Context (json_loads : string -> option pyval) (float_repr : Qcanon.Qc -> string) (run_id artifacts_root : string).
(** The path of the file inside the artifacts directory that a value names. *)
Context (existing_file : string -> option string).

Definition endswith (s suffix : string) : bool := startswith (of_chars (reverse (chars s))) (of_chars (reverse (chars suffix))).

(** The input's value, and the file that is written. *)
Definition materialize_file_input (v : pyval) (input_name : string) : pyval * list (string * string) :=
  match v with
  | VStr s =>
      let looks_python := mentions s ["def "; "class "; "import "] in
      let looks_path := mentions s ["/"; "\"] || endswith s ".py" || endswith s ".txt" in
      match (if negb looks_python && looks_path then existing_file s else None) with
      | Some path => (VStr path, [])
      | None =>
          let path := artifacts_root +:+ "/" +:+ run_id +:+ "_" +:+ input_name +:+ (if looks_python then ".py" else ".txt") in
          (VStr path, [(path, s)])
      end
  | v => (v, [])
  end.

Definition ADAPT_GENERIC_FIELD_KEYS : list string := GENERIC_FIELD_KEYS ++ ["expected_output"].
Definition ADAPT_FILE_FIELD_KEYS : list string :=
  ["code_file"; "file_path"; "path"; "source_path"; "patch"; "code"; "body"; "prompt"; "task_description"].
Definition DEFAULT_TECH_STACK : pyval := VDict [("frontend", VStr "react"); ("backend", VStr "fastapi"); ("database", VStr "postgresql")].

(** [enum[0]] *)
Definition first_of (v : pyval) : res pyval :=
  match v with
  | VList (x :: _) | VTuple (x :: _) => Ok x
  | VStr (String c _) => Ok (VStr (String c EmptyString))
  | VDict _ => Raise (KeyError "0")
  | _ => Raise (TypeError "object is not subscriptable")
  end.

Definition resolve_adapted_value (lowered : string) (definition : WorkflowInput) (sample : odict pyval) (generic_text : pyval) : res pyval :=
  if mentions lowered ["file"; "patch"] then Ok (pick_first sample ADAPT_FILE_FIELD_KEYS)
  else if mentions lowered ["bug"; "report"; "issue"] then Ok (pick_first_or_message sample BUG_FIELD_KEYS)
  else if mentions lowered ["spec"; "requirement"] then Ok (pick_first_or_message sample SPEC_FIELD_KEYS)
  else if contains lowered "tech_stack" && bool_decide (wi_type definition = VStr "object")
  then let stack := default VNone (od_get "tech_stack" sample) in Ok (if truthy stack then stack else DEFAULT_TECH_STACK)
  else if negb (blank (wi_default definition)) then Ok (wi_default definition)
  else if truthy (wi_enum definition) then first_of (wi_enum definition)
  else Ok generic_text.

(** A value that [json.dumps] does not take raises. *)
Fixpoint serializable (v : pyval) : bool :=
  match v with
  | VObj _ _ => false
  | VList l | VTuple l => (fix go l := match l with [] => true | x :: l => serializable x && go l end) l
  | VDict d => (fix go d := match d with [] => true | (_, x) :: d => serializable x && go d end) d
  | _ => true
  end.

Definition coerce_adapted_value (v : pyval) (name : string) (definition : WorkflowInput) : res (pyval * list (string * string)) :=
  if decide (wi_type definition = VStr "string") then
    v ← match v with
        | VDict _ | VList _ => if serializable v then Ok (VStr (json_dumps float_repr v)) else Raise (TypeError "object is not JSON serializable")
        | v => Ok v
        end;
    Ok (if contains (lower name) "file" then materialize_file_input v name else (v, []))
  else if negb (hashable (wi_type definition)) then Raise (TypeError "unhashable type")
  else Ok (match v with
           | VStr s => if decide (wi_type definition ∈ [VStr "object"; VStr "array"]) then (default (VDict [("value", v)]) (json_loads s), []) else (v, [])
           | v => (v, [])
           end).

Definition adapt_input (sample : odict pyval) (generic_text : pyval) (acc : odict pyval * list (string * string)) (kd : string * WorkflowInput)
    : res (odict pyval * list (string * string)) :=
  let '(name, definition) := kd in
  let direct := default VNone (od_get name sample) in
  v ← (if blank direct then resolve_adapted_value (lower name) definition sample generic_text else Ok direct);
  if blank v then Ok acc
  else
    coerced ← coerce_adapted_value v name definition;
    Ok (od_set name coerced.1 acc.1, acc.2 ++ coerced.2).

Definition adapt_sample_to_workflow_inputs (inputs : odict WorkflowInput) (sample : pyval) : res (odict pyval * list (string * string)) :=
  match sample with
  | VDict d =>
      let generic_text := pick_first d ADAPT_GENERIC_FIELD_KEYS in
      let generic_text := if blank generic_text then extract_message_text d else generic_text in
      fold_res (adapt_input d generic_text) ([], []) inputs
  | _ => Ok ([], [])
  end.
End adaptation.
End matching.

(** ** Correctness *)

Section facts.
Context (repr : pyval -> string).

Lemma filter_nil {A} (p : A -> bool) (l : list A) : filter (fun x => p x = true) l = [] <-> Forall (fun x => p x = false) l.
Proof.
  induction l as [|x l IH]; [by split|]. rewrite filter_cons, Forall_cons, <- IH. case_decide as Hp; destruct (p x); naive_solver.
Qed.

(** A sample is compatible when every input that needs a value, and every input of the capabilities, has one. *)
Lemma match_compatible inputs capabilities d :
  (match_workflow_dataset repr inputs capabilities (VDict d)).1 = true <->
  Forall (fun kd => is_empty_value (dataset_value_for_input repr kd.1 kd.2 d) = false) (required_inputs inputs) /\
  Forall (fun c => capability_input_missing repr inputs d c = false) (cap_inputs capabilities).
Proof.
  unfold match_workflow_dataset, missing_inputs. cbn [fst]. rewrite bool_decide_eq_true, <- !filter_nil.
  set (l := filter _ (required_inputs inputs)). set (c := filter _ (cap_inputs capabilities)).
  destruct l as [|kd l], c; split; try done; by intros [? ?].
Qed.

(** A text of its own for an input that is no file. *)
Definition direct (d : odict pyval) (kd : string * WorkflowInput) : Prop :=
  exists s, od_get kd.1 d = Some (VStr s) /\ strip s <> "" /\ wi_type kd.2 = VStr "string" /\ contains (lower kd.1) "file" = false.

Lemma nonblank s : strip s <> "" -> blank (VStr s) = false.
Proof. destruct s; [by intros [] | done]. Qed.

Lemma direct_step json_loads float_repr run_id root existing d generic acc name def s :
  od_get name d = Some (VStr s) -> strip s <> "" -> wi_type def = VStr "string" -> contains (lower name) "file" = false ->
  adapt_input repr json_loads float_repr run_id root existing d generic (acc, []) (name, def) = Ok (od_set name (VStr s) acc, []).
Proof.
  intros Hs Hne Ht Hf. unfold adapt_input. cbv zeta. rewrite Hs. change (default VNone (Some (VStr s))) with (VStr s). rewrite (nonblank s Hne).
  cbn [mbind res_bind]. rewrite (nonblank s Hne). unfold coerce_adapted_value. rewrite decide_True by done. cbn [mbind res_bind]. by rewrite Hf.
Qed.

Lemma direct_fold json_loads float_repr run_id root existing d generic inputs : forall acc,
  Forall (direct d) inputs ->
  exists adapted, fold_res (adapt_input repr json_loads float_repr run_id root existing d generic) (acc, []) inputs = Ok (adapted, []) /\
    (forall k, od_get k adapted = if decide (k ∈ inputs.*1) then od_get k d else od_get k acc).
Proof.
  induction inputs as [|[name def] inputs IH]; intros acc Hd.
  - exists acc. split; [done|]. intros k. by rewrite decide_False by apply not_elem_of_nil.
  - apply Forall_cons in Hd as [(s & Hs & Hne & Ht & Hf) Hd]. cbn [fst snd] in Hs, Ht, Hf.
    destruct (IH (od_set name (VStr s) acc) Hd) as (adapted & E & Ha). exists adapted. split.
    + cbn [fold_res]. rewrite (direct_step _ _ _ _ _ _ _ _ _ _ s) by done. exact E.
    + intros k. rewrite Ha, od_get_set. cbn [fmap list_fmap fst]. destruct (decide (k = name)) as [->|Hn].
      * rewrite (decide_True (P := name ∈ name :: _)) by left. case_decide; by rewrite ?Hs.
      * destruct (decide (k ∈ inputs.*1)); [rewrite decide_True by (by right) | rewrite decide_False by (rewrite elem_of_cons; tauto)]; done.
Qed.

(** A sample with a text for each input is compatible, and its adaptation leaves no required input missing. *)
Lemma direct_sample_fits json_loads float_repr run_id root existing inputs outputs d :
  Forall (direct d) inputs ->
  match_workflow_dataset repr inputs (mkCapabilities [] outputs) (VDict d) = (true, []) /\
  exists adapted, adapt_sample_to_workflow_inputs repr json_loads float_repr run_id root existing inputs (VDict d) = Ok (adapted, []) /\
    validate_required_inputs_present inputs adapted = [].
Proof.
  intros Hd.
  assert (Forall (direct d) (required_inputs inputs)) as Hr
    by (rewrite Forall_forall in Hd |- *; intros kd [_ Hin]%list_elem_of_filter; by apply Hd). split.
  - assert (missing_inputs repr inputs (mkCapabilities [] outputs) d = []) as E; [|unfold match_workflow_dataset; by rewrite E].
    unfold missing_inputs. rewrite (proj2 (filter_nil _ _)); [done|]. eapply Forall_impl; [exact Hr|].
    intros kd (s & Hs & Hne & _). 
    assert (usable (od_get kd.1 d) = Some (VStr s)) as Hu by (unfold usable; rewrite Hs; cbn [mbind option_bind]; by rewrite (nonblank s Hne)).
    unfold dataset_value_for_input, explicit_sample_value. rewrite Hu. by apply bool_decide_false.
  - destruct (direct_fold json_loads float_repr run_id root existing d
                (let g := pick_first d ADAPT_GENERIC_FIELD_KEYS in if blank g then extract_message_text repr d else g) inputs [] Hd) as (adapted & E & Ha).
    exists adapted. split; [exact E|]. unfold validate_required_inputs_present. rewrite (proj2 (filter_nil _ _)); [done|].
    apply Forall_forall. intros kd Hin. rewrite Forall_forall in Hr. destruct (Hr kd Hin) as (s & Hs & Hne & _).
    unfold required_inputs in Hin. apply list_elem_of_filter in Hin as [_ Hin].
    rewrite Ha, decide_True, Hs by (apply list_elem_of_fmap; by exists kd). by apply bool_decide_false.
Qed.
End facts.

(** A value in the sample's [inputs] makes the sample compatible, but is not adapted: the
    required input is then missing. *)
Example compatible_not_adapted :
  let topic := [("topic", mkInput "topic" (VStr "string") (VStr "") VNone (VBool true) VNone)] in
  let sample := VDict [("inputs", VDict [("topic", VStr "tides")])] in
  match_workflow_dataset (fun _ => "") topic (mkCapabilities [] []) sample = (true, []) /\
  adapt_sample_to_workflow_inputs (fun _ => "") (fun _ => None) (fun _ => "") "r" "a" (fun _ => None) topic sample = Ok ([], []) /\
  validate_required_inputs_present topic [] = ["topic"].
Proof. split_and!; vm_compute; reflexivity. Qed.
