(* ===== verification/RunResults.v ===== *)
(** * Results of other runners (contracts/result_conversion.py, server/result_normalization.py)

    The conversion of raw step mappings and of runner results into the contract of
    [Messages], and the inputs of an evaluated run.  A runner's result is the dictionary of
    its attributes, a status member is its value; the reading of dates is a function and
    the clock's reading an argument.  The loading of a sample is an argument.  The detail of
    a refusal, a mapping in the code, is its text here; a duration is a rational number, so
    that [nan] and the infinities, which [timedelta] refuses, do not arise. *)

From Stdlib Require Import QArith Qround Qcanon Lqa.
From S2P Require Import Prelude PyStr PyVal Messages Step Scoring Loader Judge ScoringCriteria DatasetMatching.

(** ** Statuses and counts *)

Definition status_aliases : odict StepStatus :=
  [("succeeded", StSuccess); ("completed", StSuccess); ("skip", StSkipped); ("queued", StPending); ("in_progress", StRunning)].
(** [StepStatus(s)] *)
Definition status_of_value (s : string) : option StepStatus :=
  List.find (fun t => bool_decide (status_value t = s)) [StPending; StRunning; StSuccess; StFailed; StSkipped; StRetrying].

Definition coerce_step_status (v : pyval) : StepStatus :=
  match v with
  | VStr s =>
      let normalized := lower (strip s) in
      match od_get normalized status_aliases with Some t => t | None => default StFailed (status_of_value normalized) end
  | _ => StFailed
  end.

Definition workflow_status (steps : list StepResult) (status : StepStatus) (has_errors : bool) : StepStatus :=
  let statuses := sr_status <$> steps in
  if has_errors || bool_decide (StFailed ∈ statuses) then StFailed
  else if negb (bool_decide (status = StSuccess)) then status
  else default StSuccess (List.find (fun t => bool_decide (t ∈ statuses)) [StRunning; StRetrying; StPending]).

Definition as_dict (v : pyval) : odict pyval := match v with VDict d => d | VNone => [] | v => [("value", v)] end.

Definition is_decimal (s : string) : bool :=
  negb (bool_decide (s = "")) && forallb (fun c => match digit c with Some _ => true | None => false end) (chars s).
Definition count (v : pyval) : option Z :=
  match v with
  | VStr s => if is_decimal s then int_of_string s else None
  | VInt z => if (0 <=? z)%Z then Some z else None
  | _ => None
  end.

Definition extract_tokens (metadata : pyval) : option Z :=
  match metadata with
  | VDict d =>
      match od_get "tokens_used" d, od_get "total_tokens" d with
      | Some v, _ | None, Some v => count v
      | None, None =>
          match omap (fun k => od_get k d) ["input_tokens"; "output_tokens"] with
          | [] => None
          | components => foldr Z.add 0%Z <$> mapM count components
          end
      end
  | _ => None
  end.

Definition add_count (supplemental metadata : odict pyval) (key_alias : string * string) : odict pyval :=
  if od_mem key_alias.1 metadata then metadata
  else match od_get key_alias.2 supplemental ≫= count with Some n => od_set key_alias.1 (VInt n) metadata | None => metadata end.
Definition COUNT_KEYS : list (string * string) := [("input_tokens", "input"); ("output_tokens", "output")].

(** [_metadata] *)
Definition step_metadata_of (recorded supplemental : pyval) : odict pyval :=
  let metadata := match recorded with VDict d => d | _ => [] end in
  let metadata := match supplemental with VDict s => foldl (add_count s) metadata COUNT_KEYS | _ => metadata end in
  match extract_tokens (VDict metadata) with
  | Some total => if od_mem "tokens_used" metadata then metadata else od_set "tokens_used" (VInt total) metadata
  | None => metadata
  end.

(** The first text that is not empty. *)
Definition first_text (values : list (option pyval)) : option string :=
  first_some ((fun v => match v with Some (VStr (String c s)) => Some (String c s) | _ => None end) <$> values).

Section conversion.
Context (repr : pyval -> string) (timestamp : pyval -> option Z) (now : Z).

Definition step_result_of (token_counts models_used : odict pyval) (name : string) (step : odict pyval) : StepResult :=
  let field k := od_get k step in
  let metadata := step_metadata_of (default VNone (field "metadata")) (default VNone (od_get name token_counts)) in
  {| sr_step_name := name;
     sr_status := coerce_step_status (default VNone (field "status"));
     sr_agent_role := first_text [field "agent_role"; field "agent"];
     sr_tier := match field "tier" with Some (VInt t) => if (0 <=? t)%Z && (t <=? 5)%Z then Some t else None | _ => None end;
     sr_model_used := first_text [field "model_used"; field "model"; od_get "model_used" metadata; od_get "model" metadata; od_get name models_used];
     sr_input_data := as_dict (match field "inputs" with Some v => v | None => default VNone (field "input_data") end);
     sr_output_data := as_dict (match field "outputs" with Some v => v | None => default VNone (field "output_data") end);
     sr_error := match default VNone (field "error") with VNone => None | v => Some (str_of repr v) end;
     sr_error_type := first_text [field "error_type"];
     sr_start_time := default now (timestamp (default VNone (field "start_time")));
     sr_end_time := timestamp (default VNone (field "end_time"));
     sr_retry_count := match field "retry_count" with Some (VInt n) => if (0 <=? n)%Z then n else 0%Z | _ => 0%Z end;
     sr_metadata := metadata |}.

(** What is no mapping, or has no name, gives no result. *)
Definition build_step_results (steps_map : pyval) (token_counts models_used : odict pyval) : list StepResult :=
  match steps_map with
  | VDict d => omap (fun kv => match kv.2 with
                               | VDict step => if bool_decide (kv.1 = "") then None else Some (step_result_of token_counts models_used kv.1 step)
                               | _ => None
                               end) d
  | _ => []
  end.

(** The token counts and the models of a final state. *)
Definition component_counts (metadata : odict pyval) : odict pyval :=
  omap (fun ka => (fun n => (ka.2, VInt n)) <$> (od_get ka.1 metadata ≫= count)) COUNT_KEYS.
Definition step_models (step metadata : odict pyval) : option string :=
  first_text [od_get "model_used" step; od_get "model" step; od_get "model_used" metadata; od_get "model" metadata].
Definition extract_metadata_step (acc : odict pyval * odict string) (kv : string * pyval) : odict pyval * odict string :=
  match kv.2 with
  | VDict step =>
      let metadata := step_metadata_of (default VNone (od_get "metadata" step)) VNone in
      let tokens := match component_counts metadata with
                    | [] => acc.1
                    | counts => od_set kv.1 (VDict (od_update [("input", VInt 0); ("output", VInt 0)] counts)) acc.1
                    end in
      (tokens, match step_models step metadata with Some m => od_set kv.1 m acc.2 | None => acc.2 end)
  | _ => acc
  end.
Definition extract_metadata (final_state : pyval) : odict pyval * odict string :=
  match final_state with
  | VDict s => match od_get "steps" s with Some (VDict steps) => foldl extract_metadata_step ([], []) steps | _ => ([], []) end
  | _ => ([], [])
  end.

(** ** Runner results *)

Definition attribute (attrs : odict pyval) (k : string) : pyval := default VNone (od_get k attrs).
Definition mapping_or_empty (v : pyval) : odict pyval := match v with VDict d => d | _ => [] end.

Definition result_errors (attrs : odict pyval) : list string :=
  match default (VList []) (od_get "errors" attrs) with
  | VList l => str_of repr <$> filter (fun v => truthy v = true) l
  | v => if truthy v then [str_of repr v] else []
  end.

Definition resolve_overall_status (attrs : odict pyval) (errors : list string) : StepStatus :=
  match attribute attrs "overall_status" with
  | VNone =>
      let status_text := lower (str_of repr (default (VStr "") (od_get "status" attrs))) in
      if bool_decide (status_text = "success") && bool_decide (errors = []) then StSuccess else StFailed
  | v => coerce_step_status v
  end.

Definition coerce_elapsed_seconds (attrs : odict pyval) : Q := default 0%Q (py_float (default (vfloat 0) (od_get "elapsed_seconds" attrs))).

(** [timedelta(seconds=q)] in microseconds, half to even. *)
Definition micros (q : Q) : Z :=
  let n := Qfloor (q * 1000000) in
  let frac := (q * 1000000 - inject_Z n)%Q in
  if qlt frac (1 # 2) then n else if qlt (1 # 2) frac then (n + 1)%Z else if Z.even n then n else (n + 1)%Z.

Definition or_value (v w : pyval) : pyval := if truthy v then v else w.

(** A result of the contract as it is; the attributes of another one. *)
Definition normalize_workflow_result (result : WorkflowResult + odict pyval) (workflow_name run_id : string) : WorkflowResult :=
  match result with
  | inl r => r
  | inr attrs =>
      let steps := build_step_results (VDict (mapping_or_empty (attribute attrs "steps"))) (mapping_or_empty (attribute attrs "token_counts"))
                     (mapping_or_empty (attribute attrs "models_used")) in
      let errors := result_errors attrs in
      let elapsed := coerce_elapsed_seconds attrs in
      {| wr_workflow_id := run_id; wr_workflow_name := workflow_name; wr_steps := steps;
         wr_overall_status := workflow_status steps (resolve_overall_status attrs errors) (negb (bool_decide (errors = [])));
         wr_start_time := (now - micros (if qlt 0 elapsed then elapsed else 0))%Z; wr_end_time := Some now;
         wr_final_output := as_dict (or_value (attribute attrs "final_output") (attribute attrs "outputs"));
         wr_metadata := (match attribute attrs "run_id" with VStr (String c s) => [("langgraph_run_id", VStr (String c s))] | _ => [] end) ++
                        (match errors with [] => [] | _ => [("errors", VList (VStr <$> errors))] end) |}
  end.

(** ** The inputs of an evaluated run *)

Definition merge_input (merged : odict pyval) (kv : string * pyval) : odict pyval :=
  if is_empty_value kv.2 && od_mem kv.1 merged then merged else od_set kv.1 kv.2 merged.
Definition merge_dataset_and_request_inputs (adapted request : odict pyval) : odict pyval := foldl merge_input adapted request.

(** [HTTPException] with status 422. *)
Definition unprocessable (detail : string) : PyExc := mkExc KException "HTTPException" ("422: " +:+ detail).

(** [_load_dataset_sample]; the loaders of the two sources are arguments. *)
Record EvaluationRequest := mkEvalRequest { er_source : string; er_dataset_id : string; er_local_path : string; er_sample_index : Z }.
Definition load_dataset_sample (repository local : string -> Z -> (odict pyval * odict pyval) + PyExc) (e : EvaluationRequest)
    : option (odict pyval * odict pyval) + PyExc :=
  let some r := match r with inl p => inl (Some p) | inr x => inr x end in
  if decide (er_source e = "repository") then
    if decide (er_dataset_id e = "") then inr (unprocessable "evaluation.dataset_id is required for repository datasets")
    else some (repository (er_dataset_id e) (er_sample_index e))
  else if decide (er_source e = "local") then
    let reference := or_else (er_local_path e) (er_dataset_id e) in
    if decide (reference = "") then inr (unprocessable "evaluation.dataset_id or evaluation.local_dataset_path is required for local datasets")
    else some (local reference (er_sample_index e))
  else inl None.

Definition raised {A B} (r : res A) (k : A -> B + PyExc) : B + PyExc := match r with Ok a => k a | Raise e => inr (exc_of e) end.

(** [_resolve_evaluation_inputs]: the inputs, the sample and its metadata; [adapt] is the adaptation of the sample,
    [is_value_error] tells the subclasses of [ValueError]. *)
Definition resolve_evaluation_inputs (is_value_error : PyExc -> bool) (inputs : odict WorkflowInput) (capabilities : WorkflowCapabilities)
    (loaded : option (odict pyval * odict pyval) + PyExc) (adapt : odict pyval -> res (odict pyval)) (workflow_inputs : odict pyval)
    : (odict pyval * option (odict pyval) * option (odict pyval)) + PyExc :=
  match loaded with
  | inr e => inr (if is_value_error e then unprocessable (ex_msg e) else e)
  | inl None => inl (workflow_inputs, None, None)
  | inl (Some (sample, meta)) =>
      if decide (sample = []) then inl (workflow_inputs, Some sample, Some meta)
      else
        let '(compatible, reasons) := match_workflow_dataset repr inputs capabilities (VDict sample) in
        if negb compatible then inr (unprocessable ("Dataset sample is incompatible with workflow inputs: " +:+ join ", " reasons))
        else
          raised (adapt sample) (fun adapted =>
            let merged := merge_dataset_and_request_inputs adapted workflow_inputs in
            match validate_required_inputs_present inputs merged with
            | [] => inl (merged, Some sample,
                         Some (od_update meta [("dataset_workflow_compatible", VBool true); ("dataset_mismatch_reasons", VList [])]))
            | missing => inr (unprocessable ("Missing required workflow inputs after dataset adaptation: " +:+ join ", " missing))
            end)
  end.
End conversion.

(** ** Correctness *)

(** The recorded status of a raw step says that it succeeded or was skipped. *)
Definition recorded_as (step : odict pyval) (words : list string) : Prop :=
  exists s, od_get "status" step = Some (VStr s) /\ lower (strip s) ∈ words.
Definition SUCCESS_WORDS : list string := ["success"; "succeeded"; "completed"].
Definition SKIP_WORDS : list string := ["skipped"; "skip"].

Lemma status_of_value_value s t : status_of_value s = Some t -> status_value t = s.
Proof. unfold status_of_value. intros [_ H]%find_some. by apply bool_decide_eq_true in H. Qed.

Lemma coerce_cases v : match coerce_step_status v with
  | StSuccess => exists s, v = VStr s /\ lower (strip s) ∈ SUCCESS_WORDS
  | StSkipped => exists s, v = VStr s /\ lower (strip s) ∈ SKIP_WORDS
  | _ => True
  end.
Proof.
  destruct v as [| | | |s| | | |]; try exact I. unfold coerce_step_status. cbv zeta.
  destruct (od_get (lower (strip s)) status_aliases) as [t|] eqn:Ha.
  - apply od_get_elem in Ha. unfold status_aliases in Ha. rewrite !elem_of_cons in Ha.
    destruct t; try exact I; exists s; (split; [done|]); destruct Ha as [Ha|[Ha|[Ha|[Ha|[Ha|Ha]]]]]; try discriminate Ha; try (by apply elem_of_nil in Ha);
      injection Ha as ->; unfold SUCCESS_WORDS, SKIP_WORDS; set_solver.
  - destruct (status_of_value (lower (strip s))) as [t|] eqn:Hv; [|exact I]. apply status_of_value_value in Hv. cbn [default].
    destruct t; try exact I; exists s; (split; [done|]); rewrite <- Hv; unfold SUCCESS_WORDS, SKIP_WORDS; set_solver.
Qed.

Lemma workflow_success steps status has_errors :
  workflow_status steps status has_errors = StSuccess ->
  has_errors = false /\ status = StSuccess /\ Forall (fun r => sr_status r = StSuccess \/ sr_status r = StSkipped) steps.
Proof.
  unfold workflow_status. destruct has_errors; [done|]. cbn [orb]. case_bool_decide as Hf; [done|].
  case_bool_decide as Hs; cbn [negb]; [|by intros ->]. intros Hu. split; [done|]. split; [done|]. apply Forall_forall. intros r Hr.
  assert (sr_status r ∈ sr_status <$> steps) as Hin by (apply list_elem_of_fmap; by exists r).
  cbn [List.find] in Hu. repeat case_bool_decide; try done. destruct (sr_status r) eqn:E; try tauto; exfalso; by rewrite ?E in *.
Qed.

Section conversion_facts.
Context (repr : pyval -> string) (timestamp : pyval -> option Z) (now : Z).

(** What the contract's validation asks of a step result. *)
Definition contract_step (r : StepResult) : Prop :=
  sr_step_name r <> "" /\ (forall t, sr_tier r = Some t -> 0 <= t <= 5)%Z /\ (0 <= sr_retry_count r)%Z.

Lemma step_results_valid steps_map tokens models : Forall contract_step (build_step_results repr timestamp now steps_map tokens models).
Proof.
  unfold build_step_results. destruct steps_map as [| | | | | | |d|]; try constructor. apply Forall_forall. intros r Hr.
  apply list_elem_of_omap in Hr as ([k v] & _ & E). cbn in E. destruct v as [| | | | | | |step|]; try discriminate E. case_bool_decide as Hk; [done|].
  injection E as <-. split; [done|]. split; cbn.
  - intros t. repeat case_match; intros [= <-]. lia.
  - repeat case_match; lia.
Qed.

(** C27. A converted run is successful only on recorded evidence: when the result of another
    runner is normalised to SUCCESS, it reports no error, its own status says so, and every
    step of it is recorded, in so many words, as succeeded or skipped; outputs, tokens and
    models play no part, and a status that is missing or unknown is a failure.  Whatever the
    result, the step results satisfy the contract, and the end is the clock's reading, not
    before the start. *)
Theorem success_needs_evidence attrs workflow_name run_id :
  let w := normalize_workflow_result repr timestamp now (inr attrs) workflow_name run_id in
  Forall contract_step (wr_steps w) /\ wr_end_time w = Some now /\ (wr_start_time w <= now)%Z /\
  (wr_overall_status w = StSuccess ->
    result_errors repr attrs = [] /\
    (match attribute attrs "overall_status" with
     | VNone => lower (str_of repr (default (VStr "") (od_get "status" attrs))) = "success"
     | v => exists s, v = VStr s /\ lower (strip s) ∈ SUCCESS_WORDS
     end) /\
    forall steps k step, attribute attrs "steps" = VDict steps -> (k, VDict step) ∈ steps -> k <> "" ->
      recorded_as step (SUCCESS_WORDS ++ SKIP_WORDS)).
Proof.
  cbv zeta. split_and!; [apply step_results_valid | done | |].
  - cbn [normalize_workflow_result wr_start_time]. enough (0 <= micros (if qlt 0 (coerce_elapsed_seconds attrs) then coerce_elapsed_seconds attrs else 0))%Z by lia.
    assert (forall q, (0 <= q)%Q -> (0 <= micros q)%Z) as Hm.
    { intros q Hq. unfold micros. assert (0 <= Qfloor (q * 1000000))%Z as Hf by (change 0%Z with (Qfloor 0%Q); apply Qfloor_resp_le; lra).
      cbv zeta. repeat case_match; lia. }
    apply Hm. destruct (qlt_spec 0 (coerce_elapsed_seconds attrs)); lra.
  - cbn [normalize_workflow_result wr_overall_status]. intros (He & Hs & Hall)%workflow_success.
    apply negb_false_iff, bool_decide_eq_true in He. split; [done|]. split.
    + unfold resolve_overall_status in Hs. destruct (attribute attrs "overall_status") as [| | | |s| | | |] eqn:Ha; try discriminate Hs.
      * destruct (bool_decide (_ = "success")) eqn:Hb; [by apply bool_decide_eq_true in Hb | discriminate Hs].
      * pose proof (coerce_cases (VStr s)) as Hc. by rewrite Hs in Hc.
    + intros steps k step Ea Hin Hk. rewrite Ea in Hall. rewrite Forall_forall in Hall.
      pose proof (coerce_cases (default VNone (od_get "status" step))) as Hc.
      destruct (Hall (step_result_of repr timestamp now (mapping_or_empty (attribute attrs "token_counts")) (mapping_or_empty (attribute attrs "models_used")) k step)) as [E|E].
      { apply list_elem_of_omap. exists (k, VDict step). split; [done|]. cbn. by rewrite bool_decide_false. }
      all: cbn in E; rewrite E in Hc; destruct Hc as (s & Hv & Hw); exists s;
        (split; [destruct (od_get "status" step); [by cbn in Hv; subst | discriminate Hv] | apply elem_of_app; tauto]).
Qed.

End conversion_facts.

(** A run whose steps completed and were skipped is successful; the same run with a step of
    which only the outputs are recorded is not. *)
Lemma success_needs_evidence_witness :
  let repr := fun _ : pyval => "" in
  let done := ("plan", VDict [("status", VStr " Completed "); ("tokens_used", VStr "12")]) in
  let run step := normalize_workflow_result repr (fun _ => None) 7%Z (inr [("status", VStr "success"); ("steps", VDict [done; ("review", VDict step)])]) "wf" "r1" in
  wr_overall_status (run [("status", VStr "skip")]) = StSuccess /\
  wr_overall_status (run [("outputs", VDict [("report", VStr "fine")])]) = StFailed /\
  recorded_as [("status", VStr "skip")] (SUCCESS_WORDS ++ SKIP_WORDS).
Proof.
  cbv zeta. split; [vm_compute; reflexivity|]. split; [vm_compute; reflexivity|].
  refine (proj2 (proj2 (proj2 (proj2 (proj2 (success_needs_evidence (fun _ => "") (fun _ => None) 7%Z
    [("status", VStr "success"); ("steps", VDict [("plan", VDict [("status", VStr " Completed "); ("tokens_used", VStr "12")]); ("review", VDict [("status", VStr "skip")])])] "wf" "r1"))) _))
    _ "review" _ eq_refl _ _); [vm_compute; reflexivity | right; left | discriminate].
Defined.
