(* ===== verification/LangGraph.v ===== *)
(** * The graph of a workflow (langchain/state.py, expressions.py, graph_wiring.py)

    The state of a run with the reducers of its channels, the expressions over it, and the
    wiring of a workflow's steps into a graph: edges, joins, loops with their exit nodes.
    The nodes are those of [LangNodes].  The graph library is not modelled: a [Graph] is the
    record of the calls made to it.  Attributes of objects are a function. *)

From stdpp Require Import pretty.
From S2P Require Import Prelude PyStr PyVal Artifacts Step Expressions.

(** ** The state of a run (langchain/state.py) *)

(** An entry of [steps]; what [record_step_result] leaves out is [None]. *)
Record StepEntry := mkEntry {
  se_status : string;
  se_outputs : odict pyval;
  se_loop_iteration : Z;
  se_inputs : option (odict pyval);
  se_error : option string;
  se_metadata : option (odict pyval);
  se_start_time : option string;
  se_end_time : option string;
  se_duration_ms : option Qcanon.Qc;
}.

Definition opt_item (k : string) (v : option pyval) : odict pyval := match v with Some v => [(k, v)] | None => [] end.
Definition entry_dict (e : StepEntry) : odict pyval :=
  [("status", VStr (se_status e)); ("outputs", VDict (se_outputs e)); ("loop_iteration", VInt (se_loop_iteration e))] ++
  opt_item "inputs" (VDict <$> se_inputs e) ++ opt_item "error" (VStr <$> se_error e) ++ opt_item "metadata" (VDict <$> se_metadata e) ++
  opt_item "start_time" (VStr <$> se_start_time e) ++ opt_item "end_time" (VStr <$> se_end_time e) ++
  opt_item "duration_ms" (VFloat <$> se_duration_ms e).

Record WorkflowState := mkState {
  st_messages : list pyval;
  st_context : odict pyval;
  st_inputs : odict pyval;
  st_outputs : odict pyval;
  st_steps : odict StepEntry;
  st_current_step : string;
  st_errors : list string;
}.

Definition state_dict (s : WorkflowState) : odict pyval :=
  [("messages", VList (st_messages s)); ("context", VDict (st_context s)); ("inputs", VDict (st_inputs s));
   ("outputs", VDict (st_outputs s)); ("steps", VDict ((fun kv => (kv.1, VDict (entry_dict kv.2))) <$> st_steps s));
   ("current_step", VStr (st_current_step s)); ("errors", VList (VStr <$> st_errors s))].

(** [_merge_dicts], [_last_wins] *)
Definition merge_dicts {V} (a b : odict V) : odict V := od_update a b.
Definition last_wins (a b : string) : string := if decide (b = "") then a else b.

Definition initial_state (workflow_inputs : odict pyval) : WorkflowState := mkState [] [] workflow_inputs [] [] "" [].

(** What a node returns; the keys it leaves out are empty.  ([metadata] is no channel.) *)
Record Update := mkUpdate {
  up_messages : list pyval;
  up_context : odict pyval;
  up_steps : odict StepEntry;
  up_current_step : string;
  up_errors : list string;
}.

(** The reducers, applied to the updates of the nodes of a superstep in turn. *)
Definition apply_update (s : WorkflowState) (u : Update) : WorkflowState :=
  mkState (st_messages s ++ up_messages u) (merge_dicts (st_context s) (up_context u)) (st_inputs s) (st_outputs s)
    (merge_dicts (st_steps s) (up_steps u)) (last_wins (st_current_step s) (up_current_step u)) (st_errors s ++ up_errors u).
Definition apply_updates (s : WorkflowState) (us : list Update) : WorkflowState := foldl apply_update s us.

(** ** Steps of a definition (langchain/config.py) *)

Record StepConfig := mkStepConfig {
  sc_name : string;
  sc_agent : string;
  sc_description : string;
  sc_depends_on : list string;
  sc_inputs : odict pyval;
  sc_outputs : odict string;
  sc_input_contracts : odict ArtifactContract;
  sc_output_contracts : odict ArtifactContract;
  sc_when : option string;
  sc_loop_until : option string;
  sc_loop_max : Z;
  sc_loop_max_expr : option string;
  sc_tools : option (list string);
  sc_prompt_file : option string;
  sc_model_override : option string;
  sc_persona : option string;
  sc_observers : option (list string);
  sc_model_params : option pyval;
}.

(** A text that is there and not empty. *)
Definition given (s : option string) : option string := match s with Some (String c t) => Some (String c t) | _ => None end.
Definition loops (step : StepConfig) : bool := match given (sc_loop_until step) with Some _ => true | None => false end.

(** ** Expressions (langchain/expressions.py) *)

Section expressions.
Context (h : Host) (parse : string -> res expr) (getattr : pyval -> string -> option pyval) (repr : pyval -> string).

Fixpoint walk_path (parts : list string) (current : pyval) : pyval :=
  match parts with
  | [] => current
  | part :: rest =>
      match (match current with VDict d => od_get part d | v => getattr v part end) with
      | None | Some VNone => VNone
      | Some v => walk_path rest v
      end
  end.
(** [_resolve_path] *)
Definition resolve_dotted (path : string) (state : odict pyval) : pyval := walk_path (split_on "."%char path) (VDict state).

(** [_COALESCE_PATTERN.match] *)
Definition coalesce_args (inner : string) : option string :=
  if startswith inner "coalesce(" then
    match reverse (drop 9 (chars inner)) with
    | ")"%char :: (_ :: _ as r) => Some (of_chars (reverse r))
    | _ => None
    end
  else None.

Definition resolve_coalesce_or_path (inner : string) (state : odict pyval) : pyval :=
  match coalesce_args inner with
  | Some args =>
      default VNone (List.find (fun v => negb (bool_decide (v = VNone))) ((fun a => resolve_dotted (strip a) state) <$> split_on ","%char args))
  | None => resolve_dotted inner state
  end.

Fixpoint resolve_expression (state : odict pyval) (e : pyval) : pyval :=
  match e with
  | VDict d => VDict ((fix go d := match d with [] => [] | (k, v) :: d' => (k, resolve_expression state v) :: go d' end) d)
  | VList l => VList ((fix go l := match l with [] => [] | v :: l' => resolve_expression state v :: go l' end) l)
  | VStr s =>
      match fullmatch_variable (strip s) with
      | Some inner => resolve_coalesce_or_path (strip inner) state
      | None => VStr (strip s)
      end
  | v => v
  end.

(** [_VAR_PATTERN.sub]; [skip] characters belong to the reference before. *)
Fixpoint substitute_refs (f : string -> string) (skip : nat) (l : list Ascii.ascii) : list Ascii.ascii :=
  match l with
  | [] => []
  | c :: l' =>
      match skip with
      | S k => substitute_refs f k l'
      | O => match match_variable l with
             | Some (group, _) => chars (f (of_chars group)) ++ substitute_refs f (length group + 2) l'
             | None => c :: substitute_refs f 0 l'
             end
      end
  end.

Definition condition_error : exn := RuntimeError "workflow condition could not be evaluated (expression redacted)".

(** [ConditionEvaluationError] is a [RuntimeError]. *)
Definition evaluate_condition (expr : option string) (state : odict pyval) : res bool :=
  match given expr with
  | None => Ok true
  | Some e =>
      let resolved := substitute_refs (fun g => repr (resolve_coalesce_or_path (strip g) state)) 0 (chars (strip e)) in
      match evaluate_safe_expression h parse (of_chars resolved) with
      | Ok v => Ok (Expressions.truthy v)
      | Raise (ValueError _ | NameError _ | TypeError _ | ZeroDivisionError) => Raise condition_error
      | Raise x => Raise x
      end
  end.

(** ** Loops *)

Definition next_iteration (s : WorkflowState) (step_name : string) : Z :=
  (match od_get step_name (st_steps s) with Some e => se_loop_iteration e | None => 0%Z end + 1)%Z.

Definition loop_default (step : StepConfig) : Z := Z.max 1 (if decide (sc_loop_max step = 0%Z) then 3%Z else sc_loop_max step).
Definition resolve_loop_max (step : StepConfig) (s : WorkflowState) : Z :=
  match given (sc_loop_max_expr step) with
  | Some e => match py_int (resolve_expression (state_dict s) (VStr e)) with Some n => Z.max 1 n | None => loop_default step end
  | None => loop_default step
  end.

(** The ends of edges. *)
Inductive point := START | END_ | Node (name : string).
#[export] Instance point_eq_dec : EqDecision point.
Proof. solve_decision. Defined.

(** [_loop_route] *)
Definition loop_route (step : StepConfig) (exit_target : point) (s : WorkflowState) : res point :=
  match od_get (sc_name step) (st_steps s) with
  | Some e =>
      if decide (se_status e = "skipped") then Ok exit_target
      else if (resolve_loop_max step s <=? se_loop_iteration e)%Z then Ok exit_target
      else met ← evaluate_condition (sc_loop_until step) (state_dict s); Ok (if (met : bool) then exit_target else Node (sc_name step))
  | None =>
      if (resolve_loop_max step s <=? 0)%Z then Ok exit_target
      else met ← evaluate_condition (sc_loop_until step) (state_dict s); Ok (if (met : bool) then exit_target else Node (sc_name step))
  end.

(** ** Wiring (langchain/graph_wiring.py) *)

Context {W : Type}.
Definition NodeFn : Type := WorkflowState -> M W Update.

(** The calls of [add_node], [add_edge] with one source and with several, and
    [add_conditional_edges]. *)
Record Graph := mkGraph {
  g_nodes : list (string * NodeFn);
  g_edges : list (point * point);
  g_joins : list (list string * string);
  g_branches : list (string * (WorkflowState -> res point) * list point);
}.
Definition empty_graph : Graph := mkGraph [] [] [] [].
Definition add_node (name : string) (f : NodeFn) (g : Graph) : Graph := mkGraph (g_nodes g ++ [(name, f)]) (g_edges g) (g_joins g) (g_branches g).
Definition add_edge (source target : point) (g : Graph) : Graph := mkGraph (g_nodes g) (g_edges g ++ [(source, target)]) (g_joins g) (g_branches g).
Definition add_join (sources : list string) (target : string) (g : Graph) : Graph :=
  mkGraph (g_nodes g) (g_edges g) (g_joins g ++ [(sources, target)]) (g_branches g).
Definition add_branch (source : string) (route : WorkflowState -> res point) (targets : list point) (g : Graph) : Graph :=
  mkGraph (g_nodes g) (g_edges g) (g_joins g) (g_branches g ++ [(source, route, targets)]).

Definition skipped_entry : StepEntry := mkEntry "skipped" [] 0%Z None None None None None None.

(** [_self_skip_node] *)
Definition wrap_with_skip_check (step : StepConfig) (node_fn : NodeFn) : NodeFn := fun s =>
  match evaluate_condition (sc_when step) (state_dict s) with
  | Raise e => raise (exc_of e)
  | Ok true => node_fn s
  | Ok false => ret (mkUpdate [] (st_context s) (od_set (sc_name step) skipped_entry (st_steps s)) (sc_name step) [])
  end.

Definition guarded_node (make_step_node : StepConfig -> NodeFn) (step : StepConfig) : NodeFn :=
  match given (sc_when step) with Some _ => wrap_with_skip_check step (make_step_node step) | None => make_step_node step end.
Definition add_step_nodes (make_step_node : StepConfig -> NodeFn) (steps : list StepConfig) (g : Graph) : Graph :=
  foldl (fun g step => add_node (sc_name step) (guarded_node make_step_node step) g) g steps.

Definition add_start_edges (roots : list string) (g : Graph) : Graph := foldl (fun g root => add_edge START (Node root) g) g roots.

Definition unknown_dependency (steps : list StepConfig) : option (string * string) :=
  let names := sc_name <$> steps in
  head (steps ≫= fun step => (fun dep => (sc_name step, dep)) <$> filter (fun dep => dep ∉ names) (sc_depends_on step)).
Definition validate_dependencies (steps : list StepConfig) : res unit :=
  match unknown_dependency steps with
  | Some (name, dep) => Raise (ValueError ("Step '" +:+ name +:+ "' depends on unknown step '" +:+ dep +:+ "'"))
  | None => Ok tt
  end.

Definition LOOP_EXIT_NODE_PREFIX : string := "__loop_exit__".
Definition loop_exit_node_name (step_name : string) : string := LOOP_EXIT_NODE_PREFIX +:+ step_name.
Definition is_loop_exit_node (node_name : string) : bool := startswith node_name LOOP_EXIT_NODE_PREFIX.

Definition has_dependents (steps : list StepConfig) : list string := steps ≫= sc_depends_on.
Definition loop_exit (steps : list StepConfig) (exits : odict string) (step : StepConfig) : odict string :=
  if loops step && bool_decide (sc_name step ∈ has_dependents steps) then od_set (sc_name step) (loop_exit_node_name (sc_name step)) exits else exits.
Definition build_loop_exit_map (steps : list StepConfig) : odict string := foldl (loop_exit steps) [] steps.

Definition loop_exit_node : NodeFn := fun _ => ret (mkUpdate [] [] [] "" []).
Definition add_loop_exit_nodes (loop_exits : odict string) (g : Graph) : Graph :=
  foldl (fun g kv => add_node kv.2 loop_exit_node g) g loop_exits.

(** What the dependents of a step wait on; [list(dict.fromkeys(...))] is [dedup]. *)
Definition waits_on (loop_exits : odict string) (dep : string) : string := default dep (od_get dep loop_exits).
Definition wire_step (loop_exits : odict string) (g : Graph) (step : StepConfig) : Graph :=
  match dedup (waits_on loop_exits <$> sc_depends_on step) with
  | [] => g
  | [source] => add_edge (Node source) (Node (sc_name step)) g
  | sources => add_join sources (sc_name step) g
  end.
Definition wire_dependency_edges (steps : list StepConfig) (loop_exits : odict string) (g : Graph) : Graph := foldl (wire_step loop_exits) g steps.

(** The configuration of a name is that of its last step. *)
Definition step_by_name (steps : list StepConfig) (name : string) : option StepConfig := od_get name (reverse ((fun s => (sc_name s, s)) <$> steps)).
Definition add_terminal_edge (steps : list StepConfig) (g : Graph) (name : string) : Graph :=
  match step_by_name steps name with Some c => if loops c then g else add_edge (Node name) END_ g | None => g end.
Definition add_terminal_edges (steps : list StepConfig) (g : Graph) : Graph :=
  foldl (add_terminal_edge steps) g (filter (fun n => n ∉ has_dependents steps) (sc_name <$> steps)).

Definition exit_point (loop_exits : odict string) (name : string) : point := match given (od_get name loop_exits) with Some e => Node e | None => END_ end.
Definition add_loop_edge (g : Graph) (step : StepConfig) (exit_target : point) : Graph :=
  add_branch (sc_name step) (loop_route step exit_target) [Node (sc_name step); exit_target] g.
Definition add_loop_edges (steps : list StepConfig) (loop_exits : odict string) (g : Graph) : Graph :=
  foldl (fun g step => if loops step then add_loop_edge g step (exit_point loop_exits (sc_name step)) else g) g steps.

Definition wire_graph_edges (steps : list StepConfig) (g : Graph) : res Graph :=
  _ ← validate_dependencies steps;
  let g := add_start_edges (sc_name <$> filter (fun s => sc_depends_on s = []) steps) g in
  let loop_exits := build_loop_exit_map steps in
  Ok (add_loop_edges steps loop_exits (add_terminal_edges steps (wire_dependency_edges steps loop_exits (add_loop_exit_nodes loop_exits g)))).

Definition build_graph (make_step_node : StepConfig -> NodeFn) (steps : list StepConfig) : res Graph :=
  wire_graph_edges steps (add_step_nodes make_step_node steps empty_graph).

(** [compile_workflow] *)
Definition compile_workflow (name : string) (make_step_node : StepConfig -> NodeFn) (steps : list StepConfig) : res Graph :=
  match steps with
  | [] => Raise (ValueError ("Workflow '" +:+ name +:+ "' has no steps."))
  | _ => build_graph make_step_node steps
  end.
End expressions.
Arguments Graph W : clear implicits.
Arguments NodeFn W : clear implicits.

(** ** Runs of a graph

    A run is the list of its events, the last one first; supersteps are forgotten.  An event
    is a run of a point (a node, or the end) together with what brought it about: an edge, with
    all of its sources, or the router of a node. *)

Inductive via := ByEdge (sources : list point) | ByBranch (source : string).
#[export] Instance via_eq_dec : EqDecision via.
Proof. solve_decision. Defined.
Definition event : Type := point * via.

Definition cnt (P : event -> bool) (l : list event) : nat := length (List.filter P l).
Definition is_at (p : point) (e : event) : bool := bool_decide (e.1 = p).
Definition is_entry (e : event) : bool := match e.2 with ByEdge _ => true | ByBranch _ => false end.
Definition is_event (e e' : event) : bool := bool_decide (e' = e).
Definition is_routed (m : string) (e : event) : bool := bool_decide (e.2 = ByBranch m).
(** How often a point ran. *)
Definition ran (p : point) (l : list event) : nat := if decide (p = START) then 1 else cnt (is_at p) l.
Definition entered (p : point) (l : list event) : nat := cnt (fun e => is_at p e && is_entry e) l.

Section runs.
Context {W : Type} (g : Graph W).

Definition triggers : list (list point * point) :=
  ((fun e : point * point => ([e.1], e.2)) <$> g_edges g) ++ ((fun j : list string * string => (Node <$> j.1, Node j.2)) <$> g_joins g).

(** A point to run: a node that was added, or an end of the graph. *)
Definition known (p : point) : Prop := match p with Node n => n ∈ (g_nodes g).*1 | _ => True end.

(** An edge whose every source ran since it fired last. *)
Definition due (sources : list point) (p : point) (l : list event) : Prop :=
  Forall (fun q => cnt (is_event (p, ByEdge sources)) l < ran q l) sources.
(** A router whose node ran since it answered last. *)
Definition to_route (m : string) (l : list event) : Prop := cnt (is_routed m) l < ran (Node m) l.

(** Nothing is left to do: no edge to a node is due, and every run of a node with a router was routed. *)
Definition quiet (l : list event) : Prop :=
  (forall sources p, (sources, p) ∈ triggers -> known p -> ~ due sources p l) /\
  (forall m route targets, (m, route, targets) ∈ g_branches g -> ~ to_route m l).
End runs.

(** What the wiring relies on of the graph library (ADR-062 states it for LangGraph): only
    nodes that were added run; an edge fires once each time all of its sources ran; a router is
    asked once for each run of its node and its answer runs next; and a run that ends without an
    error has nothing left to do. *)
Class Runtime (W : Type) := mkRuntime {
  runs : Graph W -> list event -> Prop;
  run_ends : Graph W -> list event -> Prop;
  runs_before : forall g e l, runs g (e :: l) -> runs g l;
  runs_known : forall g p v l, runs g ((p, v) :: l) -> known g p;
  runs_edge : forall g p sources l, runs g ((p, ByEdge sources) :: l) -> (sources, p) ∈ triggers g /\ due sources p l;
  runs_router : forall g p m l, runs g ((p, ByBranch m) :: l) ->
    to_route m l /\ exists route targets s, (m, route, targets) ∈ g_branches g /\ route s = Ok p;
  run_ends_runs : forall g l, run_ends g l -> runs g l;
  run_ends_quiet : forall g l, run_ends g l -> quiet g l;
}.

(** The runs with these laws and no others: every list of events that respects them. *)
Inductive run_of {W} (g : Graph W) : list event -> Prop :=
  | run_start : run_of g []
  | run_edge l sources p : run_of g l -> (sources, p) ∈ triggers g -> due sources p l -> known g p -> run_of g ((p, ByEdge sources) :: l)
  | run_branch l m route targets s p : run_of g l -> (m, route, targets) ∈ g_branches g -> route s = Ok p -> to_route m l -> known g p ->
      run_of g ((p, ByBranch m) :: l).

Lemma runs_run_of {W} (R : Runtime W) g l : runs g l -> run_of g l.
Proof.
  induction l as [|[p [sources|m]] l IH]; intros Hr; [constructor| |]; pose proof (IH (runs_before _ _ _ Hr)) as Hl; pose proof (runs_known _ _ _ _ Hr).
  - apply runs_edge in Hr as [Ht Hd]. by apply run_edge.
  - apply runs_router in Hr as (Hd & route & targets & s & Hb & Hs). by eapply run_branch.
Qed.

#[program] Definition free_runtime (W : Type) : Runtime W := {| runs := run_of; run_ends := fun g l => run_of g l /\ quiet g l |}.
Next Obligation. by inversion 1. Qed.
Next Obligation. by inversion 1. Qed.
Next Obligation. by inversion 1. Qed.
Next Obligation. inversion 1; subst; split; eauto 10. Qed.
Next Obligation. by intros W g l [? _]. Qed.
Next Obligation. by intros W g l [_ ?]. Qed.

Lemma cnt_cons P e l : cnt P (e :: l) = (if P e then 1 else 0) + cnt P l.
Proof. unfold cnt. cbn [List.filter]. by destruct (P e). Qed.

Lemma cnt_pos P l : 0 < cnt P l <-> exists e, e ∈ l /\ P e = true.
Proof.
  induction l as [|e l IH]; [split; [intros H; by inversion H | intros (? & H & _); by apply elem_of_nil in H]|].
  rewrite cnt_cons. split.
  - destruct (P e) eqn:E; [intros _; exists e; split; [left | done]|]. intros (e' & ? & ?)%IH. exists e'. split; [by right | done].
  - intros (e' & [->|Hin]%elem_of_cons & He); [rewrite He; lia|]. enough (0 < cnt P l) by lia. apply IH. eauto.
Qed.

(** Counts of two or three predicates, compared event by event. *)
Lemma cnt_split (P Q R : event -> bool) l :
  (forall e, e ∈ l -> (if P e then 1 else 0) + (if R e then 1 else 0) <= (if Q e then 1 else 0)) -> cnt P l + cnt R l <= cnt Q l.
Proof.
  induction l as [|e l IH]; intros H; [done|]. rewrite !cnt_cons. specialize (IH (fun e' Hin => H e' (list_elem_of_further _ _ _ Hin))).
  specialize (H e (list_elem_of_here _ _)). lia.
Qed.
Lemma cnt_cover (P Q R : event -> bool) l : (forall e, e ∈ l -> Q e = true -> P e = true \/ R e = true) -> cnt Q l <= cnt P l + cnt R l.
Proof.
  induction l as [|e l IH]; intros H; [done|]. rewrite !cnt_cons. specialize (IH (fun e' Hin => H e' (list_elem_of_further _ _ _ Hin))).
  specialize (H e (list_elem_of_here _ _)). destruct (Q e); [destruct (H eq_refl) as [E|E]; rewrite E|]; destruct (P e), (R e); try discriminate; lia.
Qed.

Lemma cnt_le (P Q : event -> bool) l : (forall e, e ∈ l -> P e = true -> Q e = true) -> cnt P l <= cnt Q l.
Proof.
  intros H. enough (cnt P l + cnt (fun _ => false) l <= cnt Q l) by lia. apply cnt_split. intros e He. specialize (H e He).
  destruct (P e); [rewrite H by done; lia | lia].
Qed.

(** ** What the wiring records *)

Definition well_named (steps : list StepConfig) : Prop :=
  NoDup (sc_name <$> steps) /\ Forall (fun s => is_loop_exit_node (sc_name s) = false) steps.
Definition closed_deps (steps : list StepConfig) : Prop := forall s d, s ∈ steps -> d ∈ sc_depends_on s -> d ∈ sc_name <$> steps.

Lemma validate_dependencies_spec steps :
  match validate_dependencies steps with
  | Ok _ => closed_deps steps
  | Raise e => exists s d, s ∈ steps /\ d ∈ sc_depends_on s /\ d ∉ sc_name <$> steps /\
                 e = ValueError ("Step '" +:+ sc_name s +:+ "' depends on unknown step '" +:+ d +:+ "'")
  end.
Proof.
  unfold validate_dependencies, unknown_dependency.
  set (l := steps ≫= _). assert (forall n d, (n, d) ∈ l <-> exists s, s ∈ steps /\ n = sc_name s /\ d ∈ sc_depends_on s /\ d ∉ sc_name <$> steps) as Hl.
  { intros n d. unfold l. rewrite list_elem_of_bind. split.
    - intros (s & Hin & Hs). apply list_elem_of_fmap in Hin as (d' & [= -> ->] & Hd). apply list_elem_of_filter in Hd. exists s. tauto.
    - intros (s & Hs & -> & Hd & Hn). exists s. split; [|done]. apply list_elem_of_fmap. exists d. split; [done|]. by apply list_elem_of_filter. }
  destruct l as [|[n d] l'].
  - intros s d Hs Hd. destruct (decide (d ∈ sc_name <$> steps)) as [|Hn]; [done|]. exfalso.
    apply (not_elem_of_nil (sc_name s, d)), Hl. eauto.
  - destruct (Hl n d) as [(s & Hs & -> & Hd & Hn) _]; [left|]. cbn. eauto 10.
Qed.

Lemma loop_exit_get steps n :
  od_get n (build_loop_exit_map steps) =
  if bool_decide (Exists (fun s => sc_name s = n /\ loops s = true) steps /\ n ∈ has_dependents steps) then Some (loop_exit_node_name n) else None.
Proof.
  unfold build_loop_exit_map. set (all := steps) at 1 3.
  enough (forall l acc, od_get n (foldl (loop_exit all) acc l) =
    if bool_decide (Exists (fun s => sc_name s = n /\ loops s = true) l /\ n ∈ has_dependents all) then Some (loop_exit_node_name n) else od_get n acc) as H.
  { apply (H steps []). }
  induction l as [|s l IH]; intros acc; cbn [foldl].
  - rewrite bool_decide_false; [done|]. intros [H _]. by apply Exists_nil in H.
  - rewrite IH. unfold loop_exit. repeat case_bool_decide; rewrite ?Exists_cons in *; try tauto.
    all: destruct (loops s) eqn:E; cbn [andb]; repeat case_bool_decide; rewrite ?od_get_set; try case_decide; subst; try done; try tauto.
  all: exfalso; intuition congruence.
Qed.

Lemma dedup_elem l x : x ∈ dedup l <-> x ∈ l.
Proof.
  unfold dedup. enough (forall acc : odict unit, x ∈ od_keys (foldl (fun d a => od_set a tt d) acc l) <-> x ∈ od_keys acc \/ x ∈ l) as H.
  { rewrite H. set_solver. }
  induction l as [|a l IH]; intros acc; cbn [foldl]; [set_solver|]. rewrite IH, od_keys_set. unfold od_mem. case_bool_decide; set_solver.
Qed.

Lemma fold_grows {A G T} (obs : G -> list T) (P : A -> T -> Prop) (f : G -> A -> G) :
  (forall g x t, t ∈ obs (f g x) <-> t ∈ obs g \/ P x t) ->
  forall l g t, t ∈ obs (foldl f g l) <-> t ∈ obs g \/ exists x, x ∈ l /\ P x t.
Proof.
  intros Hf. induction l as [|x l IH]; intros g t; cbn [foldl]; [set_solver|]. rewrite IH, Hf. setoid_rewrite elem_of_cons. naive_solver.
Qed.

Lemma fold_same {A G T} (obs : G -> T) (f : G -> A -> G) : (forall g x, obs (f g x) = obs g) -> forall l g, obs (foldl f g l) = obs g.
Proof. intros Hf. induction l as [|x l IH]; intros g; cbn [foldl]; [done|]. by rewrite IH. Qed.

(** A router answers with one of its targets, and leaves the loop at the bound. *)
Lemma loop_route_targets h parse getattr repr step exit_target s p :
  loop_route h parse getattr repr step exit_target s = Ok p -> p = exit_target \/
  (p = Node (sc_name step) /\ forall e, od_get (sc_name step) (st_steps s) = Some e ->
     se_status e <> "skipped" /\ (se_loop_iteration e < resolve_loop_max getattr step s)%Z).
Proof.
  unfold loop_route. destruct (od_get (sc_name step) (st_steps s)) as [e|]; repeat case_match; try (intros [= <-]; by left).
  all: try (destruct (evaluate_condition _ _ _ _ _ _) as [[]|]; [| |done]; cbn; intros [= <-]; [by left | right]; split; [done|]).
  all: intros e' [= <-]. split; [done | lia].
Qed.

Lemma fold_appends {A G T} (obs : G -> list T) (x : A -> T) (f : G -> A -> G) :
  (forall g a, obs (f g a) = obs g ++ [x a]) -> forall l g, obs (foldl f g l) = obs g ++ (x <$> l).
Proof. intros Hf. induction l as [|a l IH]; intros g; cbn [foldl]; [by rewrite app_nil_r|]. by rewrite IH, Hf, <- (assoc (++)). Qed.

Lemma loop_exits_nodup steps : NoDup (od_keys (build_loop_exit_map steps)).
Proof.
  unfold build_loop_exit_map. generalize steps at 1 as all. intros all.
  enough (forall acc, NoDup (od_keys acc) -> NoDup (od_keys (foldl (loop_exit all) acc steps))) as H by (apply H; constructor).
  induction steps as [|s l IH]; intros acc Ha; [done|]. apply IH. unfold loop_exit. case_match; auto with arp.
Qed.

(** The exits of the loops, one for each loop something depends on. *)
Lemma loop_exits_elem steps n x :
  (n, x) ∈ build_loop_exit_map steps <-> x = loop_exit_node_name n /\ n ∈ has_dependents steps /\ exists s, s ∈ steps /\ sc_name s = n /\ loops s = true.
Proof.
  split.
  - intros Hin%od_get_of_elem; [|apply loop_exits_nodup]. rewrite loop_exit_get in Hin. case_bool_decide as H; [|done].
    injection Hin as <-. rewrite Exists_exists in H. naive_solver.
  - intros (-> & Hd & s & Hs & Hn & Hl). apply od_get_elem. rewrite loop_exit_get, bool_decide_true; [done|]. rewrite Exists_exists. eauto.
Qed.

Section wired.
Context {W : Type} (h : Host) (parse : string -> res expr) (getattr : pyval -> string -> option pyval) (repr : pyval -> string).
Implicit Types (g : Graph W) (steps : list StepConfig).
Local Abbreviation exits steps := (build_loop_exit_map steps).

(** What a step waits on. *)
Definition sources_of steps (s : StepConfig) : list point :=
  match sc_depends_on s with [] => [START] | deps => Node <$> dedup (waits_on (exits steps) <$> deps) end.

Lemma triggers_edge a b g t : t ∈ triggers (add_edge a b g) <-> t ∈ triggers g \/ t = ([a], b).
Proof. unfold triggers. cbn. rewrite fmap_app. set_solver. Qed.
Lemma triggers_join l n g t : t ∈ triggers (add_join l n g) <-> t ∈ triggers g \/ t = (Node <$> l, Node n).
Proof. unfold triggers. cbn. rewrite fmap_app. set_solver. Qed.

Lemma triggers_wire_step steps g s t :
  t ∈ triggers (wire_step (exits steps) g s) <-> t ∈ triggers g \/ (sc_depends_on s <> [] /\ t = (sources_of steps s, Node (sc_name s))).
Proof.
  unfold wire_step, sources_of. destruct (sc_depends_on s) as [|d deps]; [cbn; naive_solver|].
  destruct (dedup _) as [|a [|b l]] eqn:E.
  - exfalso. apply (not_elem_of_nil (waits_on (exits steps) d)). rewrite <- E. apply dedup_elem. left.
  - rewrite triggers_edge. naive_solver.
  - rewrite triggers_join. naive_solver.
Qed.


(** The steps that end the run. *)
Definition ends steps (n : string) : Prop :=
  n ∈ sc_name <$> steps /\ n ∉ has_dependents steps /\ exists c, step_by_name steps n = Some c /\ loops c = false.

Lemma triggers_terminal steps g t :
  t ∈ triggers (add_terminal_edges steps g) <-> t ∈ triggers g \/ exists n, ends steps n /\ t = ([Node n], END_).
Proof.
  unfold add_terminal_edges.
  rewrite (fold_grows triggers (fun n t => (exists c, step_by_name steps n = Some c /\ loops c = false) /\ t = ([Node n], END_))).
  - unfold ends. setoid_rewrite list_elem_of_filter. split; (intros [Ht|(n & Hn & Hc)]; [by left | right; exists n; tauto]).
  - intros g' n t'. unfold add_terminal_edge. destruct (step_by_name steps n) as [c|]; [destruct (loops c) eqn:E|]; rewrite ?triggers_edge.
    + split; [tauto|]. intros [|((c' & [= <-] & Hc) & _)]; [done | congruence].
    + split; [intros [| ->]; [by left | right; eauto] | tauto].
    + split; [tauto|]. intros [|((c' & ? & _) & _)]; done.
Qed.

Lemma triggers_start roots g t :
  t ∈ triggers (add_start_edges roots g) <-> t ∈ triggers g \/ exists r, r ∈ roots /\ t = ([START], Node r).
Proof. unfold add_start_edges. apply (fold_grows triggers (fun r t => t = ([START], Node r))). intros. apply triggers_edge. Qed.

Lemma triggers_same (P : StepConfig -> Graph W -> Graph W) steps g :
  (forall s g, triggers (P s g) = triggers g) -> triggers (foldl (fun g s => P s g) g steps) = triggers g.
Proof. intros H. apply (fold_same triggers). intros g' s. apply H. Qed.

Abbreviation build := (build_graph h parse getattr repr).
Abbreviation Make := (StepConfig -> NodeFn W).

(** The triggers of a wired graph: one for each step, and the ends. *)
Lemma wired_triggers (make : Make) steps g :
  build make steps = Ok g ->
  closed_deps steps /\
  forall t, t ∈ triggers g <->
    (exists s, s ∈ steps /\ t = (sources_of steps s, Node (sc_name s))) \/ (exists n, ends steps n /\ t = ([Node n], END_)).
Proof.
  unfold build_graph, wire_graph_edges. pose proof (validate_dependencies_spec steps) as Hv. destruct (validate_dependencies steps); [|done].
  cbn [mbind res_bind]. intros [= <-]. split; [done|]. intros t. unfold add_loop_edges.
  rewrite (fold_same triggers); [|intros g x; by destruct (loops x)].
  rewrite triggers_terminal. unfold wire_dependency_edges. rewrite (fold_grows triggers _ _ (triggers_wire_step steps)).
  unfold add_loop_exit_nodes. rewrite (fold_same triggers) by done. rewrite triggers_start.
  unfold add_step_nodes. rewrite (fold_same triggers) by done.
  assert (t ∈ triggers (@empty_graph W) <-> False) as -> by (split; [intros Hn; by apply elem_of_nil in Hn | done]).
  enough ((exists s, s ∈ steps /\ t = (sources_of steps s, Node (sc_name s))) <->
    (exists r, r ∈ sc_name <$> filter (fun s => sc_depends_on s = []) steps /\ t = ([START], Node r)) \/
    (exists s, s ∈ steps /\ sc_depends_on s <> [] /\ t = (sources_of steps s, Node (sc_name s)))) as ->.
  { tauto. }
  setoid_rewrite list_elem_of_fmap. setoid_rewrite list_elem_of_filter.
  unfold sources_of. split.
  - intros (s & Hs & ->). destruct (sc_depends_on s) as [|d l] eqn:E; [left; exists (sc_name s); split; [by exists s | done] | right; exists s; rewrite E; done].
  - intros [(r & (s & -> & E & Hs) & ->)|(s & Hs & _ & ->)]; exists s; rewrite ?E; done.
Qed.

(** Its branches: one for each loop, to the step itself and to its exit. *)
Lemma wired_branches (make : Make) steps g m route targets :
  build make steps = Ok g ->
  (m, route, targets) ∈ g_branches g <->
  exists s, s ∈ steps /\ loops s = true /\ m = sc_name s /\ route = loop_route h parse getattr repr s (exit_point (exits steps) m) /\
    targets = [Node m; exit_point (exits steps) m].
Proof.
  unfold build_graph, wire_graph_edges. destruct (validate_dependencies steps); [|done]. cbn [mbind res_bind]. intros [= <-]. unfold add_loop_edges.
  rewrite (fold_grows g_branches (fun s b => loops s = true /\ b = (sc_name s, loop_route h parse getattr repr s (exit_point (exits steps) (sc_name s)), [Node (sc_name s); exit_point (exits steps) (sc_name s)]))).
  2:{ intros g s b. destruct (loops s); [unfold add_loop_edge, add_branch; cbn; set_solver | naive_solver]. }
  unfold add_terminal_edges. rewrite (fold_same g_branches).
  2:{ intros g n. unfold add_terminal_edge. destruct (step_by_name steps n) as [c|]; [by destruct (loops c)|done]. }
  unfold wire_dependency_edges. rewrite (fold_same g_branches).
  2:{ intros g s. unfold wire_step. by destruct (dedup _) as [|? [|]]. }
  unfold add_loop_exit_nodes, add_start_edges, add_step_nodes. rewrite !(fold_same g_branches) by done. cbn [g_branches empty_graph].
  rewrite elem_of_nil. naive_solver.
Qed.

(** Its nodes: the steps in their order, then the exits of the loops. *)
Lemma wired_nodes (make : Make) steps g :
  build make steps = Ok g ->
  g_nodes g = ((fun s => (sc_name s, guarded_node h parse getattr repr make s)) <$> steps) ++ ((fun kv => (kv.2, loop_exit_node)) <$> exits steps).
Proof.
  unfold build_graph, wire_graph_edges. destruct (validate_dependencies steps); [|done]. cbn [mbind res_bind]. intros [= <-].
  unfold add_loop_edges. rewrite (fold_same g_nodes); [|intros g x; by destruct (loops x)].
  unfold add_terminal_edges. rewrite (fold_same g_nodes).
  2:{ intros g n. unfold add_terminal_edge. destruct (step_by_name steps n) as [c|]; [by destruct (loops c)|done]. }
  unfold wire_dependency_edges. rewrite (fold_same g_nodes).
  2:{ intros g s. unfold wire_step. by destruct (dedup _) as [|? [|]]. }
  unfold add_loop_exit_nodes. rewrite (fold_appends g_nodes (fun kv => (kv.2, loop_exit_node))) by done.
  unfold add_start_edges. rewrite (fold_same g_nodes) by done.
  unfold add_step_nodes. by rewrite (fold_appends g_nodes (fun s => (sc_name s, guarded_node h parse getattr repr make s))) by done.
Qed.

(** *** The runs of a wired graph *)

Context (make : Make) (steps : list StepConfig) (g : Graph W).
Context (Hbuild : build make steps = Ok g) (Hnames : well_named steps).
Local Abbreviation exit_of n := (exit_point (exits steps) n).

Lemma unreserved s : s ∈ steps -> is_loop_exit_node (sc_name s) = false.
Proof. destruct Hnames as [_ H]. rewrite Forall_forall in H. apply H. Qed.

Lemma reserved n : is_loop_exit_node (loop_exit_node_name n) = true.
Proof. by destruct n. Qed.

Lemma same_step s s' : s ∈ steps -> s' ∈ steps -> sc_name s = sc_name s' -> s = s'.
Proof.
  destruct Hnames as [H _]. clear Hbuild Hnames. revert H. induction steps as [|a l IH]; [intros _ Hn; by apply elem_of_nil in Hn|].
  cbn [fmap list_fmap]. rewrite NoDup_cons, !elem_of_cons. intros [Hn Hd] [->|Hs] [->|Hs'] E; try done; try (by apply IH).
  - exfalso. apply Hn. rewrite E. by apply list_elem_of_fmap_2.
  - exfalso. apply Hn. rewrite <- E. by apply list_elem_of_fmap_2.
Qed.

Lemma exit_of_cases n : exit_of n = END_ \/ exit_of n = Node (loop_exit_node_name n).
Proof. unfold exit_point. rewrite loop_exit_get. case_bool_decide; cbn; auto. Qed.

Lemma exit_not_step s n : s ∈ steps -> exit_of n <> Node (sc_name s).
Proof. intros Hs E. destruct (exit_of_cases n) as [E'|E']; rewrite E' in E; [done|]. injection E as E. pose proof (unreserved s Hs) as Hu. by rewrite <- E, reserved in Hu. Qed.

Lemma exit_name_inj n n' : loop_exit_node_name n = loop_exit_node_name n' -> n = n'.
Proof. unfold loop_exit_node_name, LOOP_EXIT_NODE_PREFIX. intros E. injection E as E. exact E. Qed.

(** Where the events of a run come from. *)
Definition explained (e : event) : Prop :=
  match e.2 with
  | ByEdge sources => (sources, e.1) ∈ triggers g
  | ByBranch m => exists s, s ∈ steps /\ loops s = true /\ m = sc_name s /\ (e.1 = Node m \/ e.1 = exit_of m)
  end.

Lemma run_explained l : run_of g l -> Forall explained l /\ forall m, cnt (is_routed m) l <= ran (Node m) l.
Proof.
  induction 1 as [|l sources p _ [IH IHm] Ht _ _|l m route targets st p _ [IH IHm] Hb Hp Hlt _].
  - split; [constructor|]. intros m. unfold cnt. cbn. lia.
  - split; [by constructor|]. intros m. unfold ran in *. rewrite decide_False by done. rewrite !cnt_cons. specialize (IHm m).
    rewrite decide_False in IHm by done. unfold is_routed at 1. rewrite bool_decide_false by done. destruct (is_at _ _); lia.
  - apply (wired_branches make steps g) in Hb as (s & Hs & Hl & -> & -> & ->); [|done]. split.
    + constructor; [|done]. exists s. split_and!; try done. apply loop_route_targets in Hp. cbn. tauto.
    + intros m. unfold to_route, ran in *. rewrite decide_False by done. rewrite !cnt_cons. unfold is_routed at 1. cbn [snd].
      rewrite decide_False in Hlt by done. specialize (IHm m). rewrite decide_False in IHm by done. destruct (is_at (Node m) (p, _)) eqn:Ea.
      all: case_bool_decide as E; [injection E as <- | ]; lia.
Qed.

Lemma explained_at l e p : run_of g l -> e ∈ l -> e.1 = p -> explained (p, e.2).
Proof. intros [H _]%run_explained He <-. rewrite Forall_forall in H. specialize (H e He). by destruct e. Qed.

Lemma step_event l e s : run_of g l -> e ∈ l -> e.1 = Node (sc_name s) -> s ∈ steps ->
  e.2 = ByEdge (sources_of steps s) \/ (loops s = true /\ e.2 = ByBranch (sc_name s)).
Proof.
  intros Hr He Ep Hs. pose proof (explained_at l e _ Hr He Ep) as Hx. unfold explained in Hx. cbn in Hx. destruct e.2 as [sources|m].
  - left. destruct (wired_triggers make steps g Hbuild) as [_ Ht]. apply Ht in Hx as [(s' & Hs' & [= -> En])|(? & _ & [=])].
    by rewrite (same_step s s').
  - right. destruct Hx as (s' & Hs' & Hl & -> & [[= E]|E]); [|by apply eq_sym, (exit_not_step s) in E].
    by rewrite (same_step s s').
Qed.

Lemma exit_event l e n : run_of g l -> e ∈ l -> e.1 = Node (loop_exit_node_name n) -> e.2 = ByBranch n.
Proof.
  intros Hr He Ep. pose proof (explained_at l e _ Hr He Ep) as Hx. unfold explained in Hx. cbn in Hx. destruct e.2 as [sources|m].
  - destruct (wired_triggers make steps g Hbuild) as [_ Ht]. apply Ht in Hx as [(s & Hs & [= _ En])|(? & _ & [=])].
    pose proof (unreserved s Hs) as Hu. by rewrite <- En, reserved in Hu.
  - destruct Hx as (s & Hs & _ & -> & [[= E]|E]).
    + pose proof (unreserved s Hs) as Hu. by rewrite <- E, reserved in Hu.
    + destruct (exit_of_cases (sc_name s)) as [E'|E']; rewrite E' in E; [done|]. injection E as E. change (n = sc_name s) in E. by rewrite E.
Qed.

Lemma ran_node n l : ran (Node n) l = cnt (is_at (Node n)) l.
Proof. done. Qed.

Lemma step_runs l s : run_of g l -> s ∈ steps -> loops s = false -> ran (Node (sc_name s)) l <= entered (Node (sc_name s)) l.
Proof.
  intros Hr Hs Hl. rewrite ran_node. apply cnt_le. intros e He Ha. rewrite Ha. unfold is_at in Ha. apply bool_decide_eq_true in Ha.
  destruct (step_event l e s Hr He Ha Hs) as [E|[E _]]; [by unfold is_entry; rewrite E | congruence].
Qed.

(** A loop leaves at most as often as it is entered, and once it left it is over. *)
Lemma loop_runs l s : run_of g l -> s ∈ steps -> loops s = true ->
  let n := sc_name s in
  ran (Node n) l <= entered (Node n) l + cnt (is_event (Node n, ByBranch n)) l /\
  ran (Node (loop_exit_node_name n)) l + cnt (is_event (Node n, ByBranch n)) l <= cnt (is_routed n) l /\
  cnt (is_routed n) l <= ran (Node n) l.
Proof.
  intros Hr Hs Hl n. split_and!; [| |by apply run_explained].
  - rewrite ran_node. apply cnt_cover. intros e He Ha. pose proof Ha as Ea. unfold is_at in Ea. apply bool_decide_eq_true in Ea. rewrite Ha.
    destruct (step_event l e s Hr He Ea Hs) as [E|[_ E]]; [left; unfold is_entry; by rewrite E|].
    right. unfold is_event. apply bool_decide_eq_true. destruct e as [p v]. cbn in *. by subst.
  - rewrite ran_node. apply cnt_split. intros [p v] He. unfold is_at, is_event, is_routed. cbn [fst snd]. case_bool_decide as E1.
    + subst p. pose proof (exit_event l _ n Hr He eq_refl) as Ev. cbn [snd] in Ev. subst v. rewrite (bool_decide_true (ByBranch n = ByBranch n)) by done.
      rewrite bool_decide_false; [lia|]. intros [= E]. pose proof (unreserved s Hs) as Hu. fold n in Hu. by rewrite <- E, reserved in Hu.
    + case_bool_decide as E2; [injection E2 as -> ->; rewrite bool_decide_true by done; lia | lia].
Qed.

Lemma waits_on_cases s d : s ∈ steps -> d ∈ sc_depends_on s ->
  exists s', s' ∈ steps /\ sc_name s' = d /\ waits_on (exits steps) d = if loops s' then loop_exit_node_name d else d.
Proof.
  intros Hs Hd. destruct (wired_triggers make steps g Hbuild) as [Hc _].
  pose proof (Hc s d Hs Hd) as Hin. apply list_elem_of_fmap in Hin as (s' & -> & Hs'). exists s'. split_and!; [done..|].
  unfold waits_on. rewrite loop_exit_get. case_bool_decide as Hx; cbn.
  - destruct Hx as [Hx _]. rewrite Exists_exists in Hx. destruct Hx as (s'' & Hs'' & E & Hl). rewrite (same_step s'' s') in Hl by done. by rewrite Hl.
  - destruct (loops s') eqn:Hl; [|done]. exfalso. apply Hx. split; [apply Exists_exists; by exists s'|].
    apply list_elem_of_bind. by exists s.
Qed.

Lemma sources_of_spec s q : s ∈ steps -> q ∈ sources_of steps s <->
  (sc_depends_on s = [] /\ q = START) \/ exists d, d ∈ sc_depends_on s /\ q = Node (waits_on (exits steps) d).
Proof.
  intros Hs. unfold sources_of. destruct (sc_depends_on s) as [|d l].
  - rewrite list_elem_of_singleton. split; [tauto|]. intros [[_ ?]|(? & Hn & _)]; [done | by apply elem_of_nil in Hn].
  - rewrite list_elem_of_fmap. split.
    + intros (x & -> & Hx). rewrite dedup_elem in Hx. apply list_elem_of_fmap in Hx as (d' & -> & Hd'). right. eauto.
    + intros [[? _]|(d' & Hd' & ->)]; [done|]. exists (waits_on (exits steps) d'). split; [done|]. rewrite dedup_elem. by apply list_elem_of_fmap_2.
Qed.

Lemma sources_nonempty s : s ∈ steps -> exists q, q ∈ sources_of steps s.
Proof.
  intros Hs. destruct (sc_depends_on s) as [|d l] eqn:E.
  - exists START. apply sources_of_spec; [done|]. by left.
  - exists (Node (waits_on (exits steps) d)). apply sources_of_spec; [done|]. right. exists d. rewrite E. split; [left | done].
Qed.

Lemma source_once l s q : run_of g l -> (forall n, entered (Node n) l <= 1) -> s ∈ steps -> q ∈ sources_of steps s -> ran q l <= 1.
Proof.
  intros Hr He Hs [[_ ->]|(d & Hd & ->)]%sources_of_spec; [done| |done].
  destruct (waits_on_cases s d Hs Hd) as (s' & Hs' & <- & ->). destruct (loops s') eqn:Hl.
  - destruct (loop_runs l s' Hr Hs' Hl) as (H1 & H2 & H3). specialize (He (sc_name s')). lia.
  - pose proof (step_runs l s' Hr Hs' Hl). specialize (He (sc_name s')). lia.
Qed.

Lemma entered_event l s : run_of g l -> s ∈ steps ->
  entered (Node (sc_name s)) l <= cnt (is_event (Node (sc_name s), ByEdge (sources_of steps s))) l.
Proof.
  intros Hr Hs. apply cnt_le. intros [p v] He [Ha Hen]%andb_true_iff. unfold is_at in Ha. apply bool_decide_eq_true in Ha. cbn in Ha. subst p.
  destruct (step_event l _ s Hr He eq_refl Hs) as [E|[_ E]]; cbn in E; subst v; [|done]. unfold is_event. by apply bool_decide_eq_true.
Qed.

(** Every step is entered once. *)
Lemma entered_once l : run_of g l -> forall n, entered (Node n) l <= 1.
Proof.
  intros Hr. induction Hr as [|l sources p Hr IH Ht Hsrc _|l m route targets st p Hr IH Hb Hp Hlt _]; intros n; [unfold entered, cnt; cbn; lia| |].
  - unfold entered in *. rewrite cnt_cons. specialize (IH n) as IHn. destruct (is_at (Node n) _ && _) eqn:Ea; [|lia].
    apply andb_true_iff in Ea as [Ea _]. unfold is_at in Ea. apply bool_decide_eq_true in Ea. cbn in Ea. subst p.
    destruct (wired_triggers make steps g Hbuild) as [_ Htr]. apply Htr in Ht as [(s & Hs & [= -> ->])|(? & _ & [=])].
    destruct (sources_nonempty s Hs) as [q Hq]. unfold due in Hsrc. rewrite Forall_forall in Hsrc. specialize (Hsrc q Hq).
    pose proof (source_once l s q Hr IH Hs Hq). pose proof (entered_event l s Hr Hs). unfold entered in *. lia.
  - unfold entered in *. rewrite cnt_cons. cbn [is_entry snd]. rewrite andb_false_r. apply IH.
Qed.

Lemma ran_cons p e l : ran p l <= ran p (e :: l).
Proof. unfold ran. case_decide; [done|]. rewrite cnt_cons. lia. Qed.

Lemma waited_ran l s d : run_of g l -> s ∈ steps -> d ∈ sc_depends_on s -> 0 < ran (Node (waits_on (exits steps) d)) l -> 0 < ran (Node d) l.
Proof.
  intros Hr Hs Hd. destruct (waits_on_cases s d Hs Hd) as (s' & Hs' & <- & ->). destruct (loops s') eqn:Hl; [|done].
  destruct (loop_runs l s' Hr Hs' Hl) as (_ & H2 & H3). lia.
Qed.


(** The event of a step is enabled by all it waits on, or by a run of itself. *)
Lemma step_enabled e l s : run_of g (e :: l) -> s ∈ steps -> e.1 = Node (sc_name s) ->
  (forall d, d ∈ sc_depends_on s -> 0 < ran (Node (waits_on (exits steps) d)) l) \/
  (loops s = true /\ e.2 = ByBranch (sc_name s) /\ cnt (is_routed (sc_name s)) l < ran (Node (sc_name s)) l).
Proof.
  intros Hr Hs Ep. inversion Hr as [|l' sources p Hr' Ht Hsrc _|l' m route targets st p Hr' Hb Hp Hlt _]; subst; cbn in Ep; subst p.
  - left. intros d Hd. destruct (wired_triggers make steps g Hbuild) as [_ Htr]. apply Htr in Ht as [(s' & Hs' & [= -> En])|(? & _ & [=])].
    apply (same_step s s') in En as <-; [|done..]. unfold due in Hsrc. rewrite Forall_forall in Hsrc.
    enough (cnt (is_event (Node (sc_name s), ByEdge (sources_of steps s))) l < ran (Node (waits_on (exits steps) d)) l) by lia.
    apply Hsrc, sources_of_spec; [done|]. right. eauto.
  - right. destruct (step_event _ _ s Hr (list_elem_of_here _ _) eq_refl Hs) as [?|[? [= ->]]]; done.
Qed.

Lemma run_tail e l : run_of g (e :: l) -> run_of g l.
Proof. by inversion 1. Qed.

(** What ran, ran after what it waits on. *)
Lemma ran_waits l : run_of g l -> forall s d, s ∈ steps -> d ∈ sc_depends_on s -> 0 < ran (Node (sc_name s)) l -> 0 < ran (Node (waits_on (exits steps) d)) l.
Proof.
  induction l as [|e l IH]; intros Hr s d Hs Hd; [rewrite ran_node; unfold cnt; cbn; lia|]. intros Hran.
  pose proof (ran_cons (Node (waits_on (exits steps) d)) e l). pose proof (run_tail _ _ Hr) as Hr'.
  enough (0 < ran (Node (waits_on (exits steps) d)) l) by lia.
  unfold ran in Hran. rewrite decide_False, cnt_cons in Hran by done. destruct (is_at (Node (sc_name s)) e) eqn:Ea; [|by apply (IH Hr' s)].
  unfold is_at in Ea. apply bool_decide_eq_true in Ea.
  destruct (step_enabled e l s Hr Hs Ea) as [Hen|(_ & _ & Hlt)]; [by apply Hen|]. apply (IH Hr' s); [done..|lia].
Qed.

Lemma step_waits e l s d : run_of g (e :: l) -> s ∈ steps -> e.1 = Node (sc_name s) -> d ∈ sc_depends_on s ->
  0 < ran (Node (waits_on (exits steps) d)) l.
Proof.
  intros Hr Hs Ep Hd. pose proof (run_tail _ _ Hr) as Hr'.
  destruct (step_enabled e l s Hr Hs Ep) as [Hen|(_ & _ & Hlt)]; [by apply Hen|]. apply (ran_waits l Hr' s); [done..|lia].
Qed.

(** A loop that left does not run again. *)
Lemma left_for_good e l s : run_of g (e :: l) -> s ∈ steps -> loops s = true -> 0 < ran (Node (loop_exit_node_name (sc_name s))) l ->
  e.1 <> Node (sc_name s).
Proof.
  intros Hr Hs Hl Hx Ep. pose proof (run_tail _ _ Hr) as Hr'.
  destruct (loop_runs l s Hr' Hs Hl) as (H1 & H2 & H3). pose proof (entered_once _ Hr (sc_name s)) as He.
  destruct (step_event _ e s Hr (list_elem_of_here _ _) Ep Hs) as [E|[_ E]].
  - unfold entered in He. rewrite cnt_cons in He. unfold is_at, is_entry in He. rewrite Ep, E, bool_decide_true in He by done. cbn in He.
    change (cnt _ l) with (entered (Node (sc_name s)) l) in He. lia.
  - pose proof (entered_once _ Hr' (sc_name s)). inversion Hr as [|l' sources p Hr2 Ht Hsrc _|l' m route targets st p Hr2 Hb Hp Hlt _]; subst; cbn in E; [done|].
    injection E as ->. unfold to_route in Hlt. lia.
Qed.

(** *** Runs with nothing left to do *)

Lemma step_known s : s ∈ steps -> known g (Node (sc_name s)).
Proof.
  intros Hs. cbn. rewrite (wired_nodes make steps g Hbuild), fmap_app, elem_of_app. left. rewrite <- list_fmap_compose. by apply (list_elem_of_fmap_2 _ steps).
Qed.

Lemma entered_ran n l : entered (Node n) l <= ran (Node n) l.
Proof. rewrite ran_node. apply cnt_le. by intros e _ [? _]%andb_true_iff. Qed.

Lemma left_count l s : run_of g l -> exit_of (sc_name s) = Node (loop_exit_node_name (sc_name s)) ->
  cnt (is_routed (sc_name s)) l <= ran (Node (loop_exit_node_name (sc_name s))) l + cnt (is_event (Node (sc_name s), ByBranch (sc_name s))) l.
Proof.
  intros Hr Hx. rewrite ran_node. apply cnt_cover. intros [p v] He Hro. unfold is_routed in Hro. apply bool_decide_eq_true in Hro. cbn in Hro. subst v.
  pose proof (explained_at l _ _ Hr He eq_refl) as (s' & _ & _ & En & Hp). cbn in Hp. rewrite Hx in Hp.
  unfold is_at, is_event. cbn [fst]. rewrite !bool_decide_eq_true. destruct Hp as [->| ->]; tauto.
Qed.

Lemma loop_count l s :
  entered (Node (sc_name s)) l + cnt (is_event (Node (sc_name s), ByBranch (sc_name s))) l <= ran (Node (sc_name s)) l.
Proof.
  rewrite ran_node. apply cnt_split. intros [p v] He. unfold is_at, is_entry, is_event. cbn [fst snd].
  case_bool_decide as E1; cbn [andb]; [subst p; destruct v; [rewrite bool_decide_false by done; lia | case_match; lia] |].
  rewrite bool_decide_false; [lia|]. intros [= ? ?]. done.
Qed.

(** A loop something depends on is left once for each time it was entered. *)
Lemma quiet_left l s : run_of g l -> quiet g l -> s ∈ steps -> loops s = true -> sc_name s ∈ has_dependents steps ->
  ran (Node (loop_exit_node_name (sc_name s))) l = entered (Node (sc_name s)) l.
Proof.
  intros Hr [_ Hq] Hs Hl Hd. assert (exit_of (sc_name s) = Node (loop_exit_node_name (sc_name s))) as Hx.
  { unfold exit_point. rewrite loop_exit_get, bool_decide_true; [done|]. split; [apply Exists_exists; by exists s | done]. }
  specialize (Hq (sc_name s) _ _ (proj2 (wired_branches make steps g _ _ _ Hbuild) (ex_intro _ s (conj Hs (conj Hl (conj eq_refl (conj eq_refl eq_refl))))))).
  unfold to_route in Hq. destruct (loop_runs l s Hr Hs Hl) as (H1 & H2 & H3). pose proof (left_count l s Hr Hx). pose proof (loop_count l s). lia.
Qed.

Lemma quiet_waits l s d : run_of g l -> quiet g l -> s ∈ steps -> d ∈ sc_depends_on s -> 0 < entered (Node d) l -> 0 < ran (Node (waits_on (exits steps) d)) l.
Proof.
  intros Hr Hq Hs Hd He. destruct (waits_on_cases s d Hs Hd) as (s' & Hs' & <- & ->). destruct (loops s') eqn:Hl.
  - rewrite (quiet_left l s' Hr Hq Hs' Hl); [done|]. apply list_elem_of_bind. eauto.
  - pose proof (entered_ran (sc_name s') l). lia.
Qed.

Lemma quiet_entered l s : quiet g l -> s ∈ steps -> (forall d, d ∈ sc_depends_on s -> 0 < ran (Node (waits_on (exits steps) d)) l) ->
  0 < entered (Node (sc_name s)) l.
Proof.
  intros [Hq _] Hs Hd. specialize (Hq (sources_of steps s) (Node (sc_name s))). unfold due in Hq.
  apply not_Forall_Exists in Hq; [|intros q; apply _| |by apply step_known].
  2:{ apply (wired_triggers make steps g Hbuild). left. eauto. }
  apply Exists_exists in Hq as (q & Hin & Hq). assert (0 < ran q l) as Hran.
  { apply sources_of_spec in Hin as [[_ ->]|(d & Hin & ->)]; [unfold ran; rewrite decide_True by done; lia|auto|done]. }
  assert (cnt (is_event (Node (sc_name s), ByEdge (sources_of steps s))) l <= entered (Node (sc_name s)) l); [|cbn in Hq; lia].
  apply cnt_le. intros e _ He. unfold is_event in He. apply bool_decide_eq_true in He as ->. unfold is_at. by rewrite bool_decide_true.
Qed.

(** Dependencies before dependents. *)
Definition dependency_order (order : list string) : Prop :=
  forall before s after, s ∈ steps -> order = before ++ sc_name s :: after -> forall d, d ∈ sc_depends_on s -> d ∈ before.

Lemma quiet_all l order : run_of g l -> quiet g l -> dependency_order order -> Forall (fun n => n ∈ sc_name <$> steps) order ->
  Forall (fun n => 0 < entered (Node n) l) order.
Proof.
  intros Hr Hq. induction order as [|n order IH] using rev_ind; intros Ho Hn; [constructor|]. apply Forall_app in Hn as [Hn [Hx _]%Forall_cons].
  assert (Forall (fun n => 0 < entered (Node n) l) order) as Hall.
  { apply IH; [|done]. intros before s after Hs -> d Hd. eapply (Ho before s (after ++ [n])); [done| |done]. by rewrite <- (assoc (++)). }
  apply Forall_app. split; [done|]. constructor; [|constructor]. apply list_elem_of_fmap in Hx as (s & -> & Hs).
  apply quiet_entered; [done..|]. intros d Hd. apply (quiet_waits l s d); [done..|]. rewrite Forall_forall in Hall. apply Hall. by apply (Ho order s []).
Qed.
End wired.

Section theorems.
Context {W : Type} (h : Host) (parse : string -> res expr) (getattr : pyval -> string -> option pyval) (repr : pyval -> string).

(** What the dependents of a step wait on. *)
Definition waited (s : StepConfig) : point := Node (if loops s then loop_exit_node_name (sc_name s) else sc_name s).
Definition depended_on steps (s : StepConfig) : Prop := sc_name s ∈ has_dependents steps.
#[local] Instance depended_on_dec steps s : Decision (depended_on steps s).
Proof. unfold depended_on. apply _. Defined.

(** A graph that is wired as the steps declare. *)
Record wired_as (make : StepConfig -> NodeFn W) (steps : list StepConfig) (g : Graph W) : Prop := {
  (* each name is added once: that of each step, with its guarded function, and that of the exit
     of each loop something depends on, with the function that changes nothing *)
  as_names : NoDup (g_nodes g).*1;
  as_nodes : forall n f, (n, f) ∈ g_nodes g <->
    (exists s, s ∈ steps /\ n = sc_name s /\ f = guarded_node h parse getattr repr make s) \/
    (exists s, s ∈ steps /\ loops s = true /\ depended_on steps s /\ n = loop_exit_node_name (sc_name s) /\ f = loop_exit_node);
  (* nothing dangles *)
  as_edges_known : forall sources p, (sources, p) ∈ triggers g -> Forall (known g) (p :: sources);
  as_routers_known : forall m route targets, (m, route, targets) ∈ g_branches g -> Forall (known g) (Node m :: targets);
  (* one edge leads into each step, from all it depends on at once; the other edges end the run *)
  as_edge : forall s, s ∈ steps -> exists sources, (forall sources', (sources', Node (sc_name s)) ∈ triggers g <-> sources' = sources) /\
    forall q, q ∈ sources <-> (sc_depends_on s = [] /\ q = START) \/ exists s', s' ∈ steps /\ sc_name s' ∈ sc_depends_on s /\ q = waited s';
  as_edges : forall sources p, (sources, p) ∈ triggers g -> (exists s, s ∈ steps /\ p = Node (sc_name s)) \/
    (p = END_ /\ exists s, s ∈ steps /\ loops s = false /\ ~ depended_on steps s /\ sources = [Node (sc_name s)]);
  as_ends : forall s, s ∈ steps -> loops s = false -> ~ depended_on steps s -> ([Node (sc_name s)], END_) ∈ triggers g;
  (* a loop has one router; it answers the loop itself, below its bound, or the exit *)
  as_router : forall s, s ∈ steps -> loops s = true -> exists route targets, forall route' targets',
    (sc_name s, route', targets') ∈ g_branches g <-> route' = route /\ targets' = targets;
  as_routes : forall m route targets st p, (m, route, targets) ∈ g_branches g -> route st = Ok p -> p ∈ targets /\
    exists s, s ∈ steps /\ sc_name s = m /\ loops s = true /\
      ((depended_on steps s /\ p = waited s) \/ (~ depended_on steps s /\ p = END_) \/
       (p = Node m /\ forall e, od_get m (st_steps st) = Some e -> se_status e <> "skipped" /\ (se_loop_iteration e < resolve_loop_max getattr s st)%Z));
}.

Lemma exit_point_cases steps s : s ∈ steps -> loops s = true ->
  (depended_on steps s /\ exit_point (build_loop_exit_map steps) (sc_name s) = waited s) \/
  (~ depended_on steps s /\ exit_point (build_loop_exit_map steps) (sc_name s) = END_).
Proof.
  intros Hs Hl. unfold exit_point, waited, depended_on. rewrite loop_exit_get, Hl. case_bool_decide as Hx; rewrite Exists_exists in Hx; [left; tauto|].
  right. split; [|done]. intros Hd. apply Hx. split; [by exists s | done].
Qed.

Section as_declared.
Context (make : StepConfig -> NodeFn W) (steps : list StepConfig) (g : Graph W).
Context (Hb : build_graph h parse getattr repr make steps = Ok g) (Hn : well_named steps).

Lemma node_elem n f : (n, f) ∈ g_nodes g <->
  (exists s, s ∈ steps /\ n = sc_name s /\ f = guarded_node h parse getattr repr make s) \/
  (exists s, s ∈ steps /\ loops s = true /\ depended_on steps s /\ n = loop_exit_node_name (sc_name s) /\ f = loop_exit_node).
Proof.
  rewrite (wired_nodes _ _ _ _ make steps g Hb), elem_of_app, !list_elem_of_fmap. split.
  - intros [(s & [= -> ->] & Hs)|([k x] & [= -> ->] & (-> & Hd & s & Hs & <- & Hl)%loop_exits_elem)]; [left|right]; eauto 10.
  - intros [(s & Hs & -> & ->)|(s & Hs & Hl & Hd & -> & ->)]; [left; eauto|]. right.
    exists (sc_name s, loop_exit_node_name (sc_name s)). split; [done|]. apply loop_exits_elem. eauto 10.
Qed.

Lemma nodes_distinct : NoDup (g_nodes g).*1.
Proof.
  rewrite (wired_nodes _ _ _ _ make steps g Hb), fmap_app, <- !list_fmap_compose. apply NoDup_app. split_and!.
  - apply Hn.
  - intros x Hx Hy. apply list_elem_of_fmap in Hx as (s & -> & Hs). apply list_elem_of_fmap in Hy as ([k v] & E & (-> & _)%loop_exits_elem).
    pose proof (unreserved steps Hn s Hs) as Hu. cbn in E. by rewrite E, reserved in Hu.
  - rewrite (Forall_fmap_ext_1 _ (loop_exit_node_name ∘ fst)).
    + rewrite list_fmap_compose. apply NoDup_fmap_2; [intros ? ?; apply exit_name_inj | apply loop_exits_nodup].
    + apply Forall_forall. by intros [k x] (-> & _)%loop_exits_elem.
Qed.

Lemma known_step s : s ∈ steps -> known g (Node (sc_name s)).
Proof. intros Hs. apply list_elem_of_fmap. eexists (_, _). split; [done|]. apply node_elem. left. eauto. Qed.

Lemma known_waited s : s ∈ steps -> depended_on steps s -> known g (waited s).
Proof.
  intros Hs Hd. unfold waited. destruct (loops s) eqn:Hl; [|by apply known_step].
  apply list_elem_of_fmap. eexists (_, _). split; [done|]. apply node_elem. right. eauto 10.
Qed.

Lemma source_cases s q : s ∈ steps -> q ∈ sources_of steps s <->
  (sc_depends_on s = [] /\ q = START) \/ exists s', s' ∈ steps /\ sc_name s' ∈ sc_depends_on s /\ q = waited s'.
Proof.
  intros Hs. rewrite sources_of_spec by done. unfold waited. split; (intros [?|Hd]; [by left|right]).
  - destruct Hd as (d & Hd & ->). destruct (waits_on_cases _ _ _ _ make steps g Hb Hn s d Hs Hd) as (s' & Hs' & <- & ->).
    exists s'. split_and!; [done..|]. by destruct (loops s').
  - destruct Hd as (s' & Hs' & Hd & ->). exists (sc_name s'). split; [done|].
    destruct (waits_on_cases _ _ _ _ make steps g Hb Hn s _ Hs Hd) as (s2 & Hs2 & E & ->). by rewrite (same_step steps Hn s2 s') by done.
Qed.

Lemma ends_step n : ends steps n <-> exists s, s ∈ steps /\ n = sc_name s /\ loops s = false /\ ~ depended_on steps s.
Proof.
  assert (forall c, c ∈ steps -> step_by_name steps (sc_name c) = Some c) as Hby.
  { intros c Hc. unfold step_by_name. apply od_get_of_elem.
    - unfold od_keys. rewrite reverse_Permutation, <- list_fmap_compose. apply Hn.
    - rewrite elem_of_reverse. by apply (list_elem_of_fmap_2 (fun s => (sc_name s, s)) steps). }
  unfold ends, depended_on. split.
  - intros (Hin & Hd & c & Hc & Hl). apply list_elem_of_fmap in Hin as (s & -> & Hs). rewrite (Hby s Hs) in Hc. injection Hc as <-. eauto.
  - intros (s & Hs & -> & Hl & Hd). split; [by apply list_elem_of_fmap_2|]. split; [done|]. exists s. by rewrite Hby.
Qed.

Lemma trigger_cases sources p : (sources, p) ∈ triggers g <->
  (exists s, s ∈ steps /\ sources = sources_of steps s /\ p = Node (sc_name s)) \/
  (exists s, s ∈ steps /\ loops s = false /\ ~ depended_on steps s /\ sources = [Node (sc_name s)] /\ p = END_).
Proof.
  rewrite (proj2 (wired_triggers h parse getattr repr make steps g Hb)). setoid_rewrite ends_step. split.
  - intros [(s & Hs & [= -> ->])|(? & (s & Hs & -> & Hl & Hd) & [= -> ->])]; eauto 10.
  - intros [(s & Hs & -> & ->)|(s & Hs & Hl & Hd & -> & ->)]; [left|right]; eauto 10.
Qed.

Lemma router_cases m route targets : (m, route, targets) ∈ g_branches g <-> exists s, s ∈ steps /\ loops s = true /\ m = sc_name s /\
  let exit_target := if bool_decide (depended_on steps s) then waited s else END_ in
  route = loop_route h parse getattr repr s exit_target /\ targets = [Node m; exit_target].
Proof.
  assert (forall s, s ∈ steps -> loops s = true ->
    exit_point (build_loop_exit_map steps) (sc_name s) = if bool_decide (depended_on steps s) then waited s else END_) as Hx.
  { intros s Hs Hl. destruct (exit_point_cases steps s Hs Hl) as [[Hd E]|[Hd E]]; [by rewrite bool_decide_true | by rewrite bool_decide_false]. }
  rewrite (wired_branches _ _ _ _ make steps g m route targets Hb). cbv zeta.
  split; intros (s & Hs & Hl & -> & -> & ->); exists s; rewrite ?Hx by done; tauto.
Qed.

Lemma build_wired_as : wired_as make steps g.
Proof.
  split.
  - apply nodes_distinct.
  - apply node_elem.
  - intros sources p [(s & Hs & -> & ->)|(s & Hs & _ & _ & -> & ->)]%trigger_cases; (constructor; [try done; by apply known_step|]).
    + apply Forall_forall. intros q [[_ ->]|(s' & Hs' & Hd & ->)]%source_cases; [done| |done]. apply known_waited; [done|]. apply list_elem_of_bind. eauto.
    + constructor; [by apply known_step | constructor].
  - intros m route targets (s & Hs & _ & -> & _ & ->)%router_cases. repeat constructor; try by apply known_step.
    case_bool_decide; [by apply known_waited | done].
  - intros s Hs. exists (sources_of steps s). split; [|intros q; by apply source_cases]. intros sources. rewrite trigger_cases. split; [|intros ->; left; eauto].
    intros [(s' & Hs' & -> & [= E])|(? & _ & _ & _ & _ & [=])]. by rewrite (same_step steps Hn s s').
  - intros sources p [(s & Hs & -> & ->)|(s & Hs & Hl & Hd & -> & ->)]%trigger_cases; [left|right]; eauto 10.
  - intros s Hs Hl Hd. apply trigger_cases. right. eauto 10.
  - intros s Hs Hl. eexists _, _. intros route' targets'. rewrite router_cases. split.
    + intros (s' & Hs' & _ & E & H). rewrite (same_step steps Hn s' s) in H by done. exact H.
    + intros [-> ->]. exists s. done.
  - intros m route targets st p (s & Hs & Hl & -> & -> & ->)%router_cases Hr. apply loop_route_targets in Hr.
    case_bool_decide; (destruct Hr as [->|[-> Hb']]; (split; [set_solver|]); exists s; split_and!; eauto).
Qed.
End as_declared.

Lemma build_refused (make : StepConfig -> NodeFn W) steps e : build_graph h parse getattr repr make steps = Raise e ->
  exists s d, s ∈ steps /\ d ∈ sc_depends_on s /\ d ∉ sc_name <$> steps /\
    e = ValueError ("Step '" +:+ sc_name s +:+ "' depends on unknown step '" +:+ d +:+ "'").
Proof.
  unfold build_graph, wire_graph_edges. pose proof (validate_dependencies_spec steps) as Hv.
  destruct (validate_dependencies steps); [done|]. by intros [= <-].
Qed.

Lemma runs_at_most_once (make : StepConfig -> NodeFn W) steps g : build_graph h parse getattr repr make steps = Ok g -> well_named steps ->
  forall l s, run_of g l -> s ∈ steps -> loops s = false -> ran (Node (sc_name s)) l <= 1.
Proof.
  intros Hb Hn l s Hr Hs Hl. pose proof (step_runs _ _ _ _ make steps g Hb Hn l s Hr Hs Hl).
  pose proof (entered_once _ _ _ _ make steps g Hb Hn l Hr (sc_name s)). lia.
Qed.

Lemma runs_after (make : StepConfig -> NodeFn W) steps g : build_graph h parse getattr repr make steps = Ok g -> well_named steps ->
  forall e l s d, run_of g (e :: l) -> s ∈ steps -> e.1 = Node (sc_name s) -> d ∈ sc_depends_on s ->
  0 < ran (Node d) l /\ forall s', s' ∈ steps -> sc_name s' = d -> loops s' = true -> 0 < ran (Node (loop_exit_node_name d)) l.
Proof.
  intros Hb Hn e l s d Hr Hs Ep Hd. pose proof (step_waits _ _ _ _ make steps g Hb Hn e l s d Hr Hs Ep Hd) as Hw. pose proof (run_tail g e l Hr) as Hr'. split.
  - by apply (waited_ran _ _ _ _ make steps g Hb Hn l s).
  - intros s' Hs' E Hl. destruct (waits_on_cases _ _ _ _ make steps g Hb Hn s d Hs Hd) as (s2 & Hs2 & E2 & Ew).
    rewrite (same_step steps Hn s2 s') in Ew by congruence. by rewrite Ew, Hl in Hw.
Qed.

(** C9. The graph of a workflow whose names are distinct and not reserved is wired as its steps
    declare: each step is one node under its own name, guarded by its condition; one edge
    leads into it, from all of its dependencies at once and, where one is a loop, from the exit
    of that loop; every edge and every route ends at a node that was added; a loop has one router,
    which answers the loop itself only below its bound and its exit otherwise.  The wiring is
    refused exactly for a dependency on a step that does not exist. *)
Theorem wired_as_declared (make : StepConfig -> NodeFn W) steps : well_named steps ->
  match build_graph h parse getattr repr make steps with
  | Raise e => exists s d, s ∈ steps /\ d ∈ sc_depends_on s /\ d ∉ sc_name <$> steps /\
                 e = ValueError ("Step '" +:+ sc_name s +:+ "' depends on unknown step '" +:+ d +:+ "'")
  | Ok g => closed_deps steps /\ wired_as make steps g
  end.
Proof.
  intros Hn. destruct (build_graph h parse getattr repr make steps) as [g|e] eqn:Hb.
  - split; [by apply (wired_triggers h parse getattr repr make steps g)|]. by apply build_wired_as.
  - by apply build_refused in Hb.
Qed.

(** C10. Let the graph of such a workflow be run by a library that keeps to its documented
    behaviour.  In every run, a step runs only when each of its dependencies ran and, where one
    is a loop, when that loop was left; a step that is no loop runs at most once, and a loop that
    was left does not run again.  In a run that ends without an error, and when the dependencies
    have no cycle, every step ran, exactly once unless it is a loop, and every loop something
    depends on was left exactly once. *)
Theorem runs_follow_dependencies (R : Runtime W) (make : StepConfig -> NodeFn W) steps g :
  well_named steps -> build_graph h parse getattr repr make steps = Ok g ->
  (forall e l, runs g (e :: l) -> forall s, s ∈ steps ->
    (e.1 = Node (sc_name s) -> forall d, d ∈ sc_depends_on s ->
       0 < ran (Node d) l /\
       forall s', s' ∈ steps -> sc_name s' = d -> loops s' = true -> 0 < ran (Node (loop_exit_node_name d)) l) /\
    (loops s = false -> ran (Node (sc_name s)) (e :: l) <= 1) /\
    (loops s = true -> 0 < ran (Node (loop_exit_node_name (sc_name s))) l -> e.1 <> Node (sc_name s))) /\
  (forall l order, run_ends g l -> dependency_order steps order -> (forall n, n ∈ order <-> n ∈ sc_name <$> steps) -> forall s, s ∈ steps ->
    0 < ran (Node (sc_name s)) l /\
    (loops s = false -> ran (Node (sc_name s)) l = 1) /\
    (loops s = true -> depended_on steps s -> ran (Node (loop_exit_node_name (sc_name s))) l = 1)).
Proof.
  intros Hn Hb. split.
  - intros e l Hr%runs_run_of s Hs. split_and!; [|by apply (runs_at_most_once make steps g Hb Hn)|by apply (left_for_good _ _ _ _ make steps g Hb Hn)].
    intros Ep d Hd. by apply (runs_after make steps g Hb Hn e l s d).
  - intros l order He Ho Hin s Hs. pose proof (runs_run_of R _ _ (run_ends_runs _ _ He)) as Hr. pose proof (run_ends_quiet _ _ He) as Hq.
    assert (0 < entered (Node (sc_name s)) l) as Hent.
    { assert (Forall (fun n => n ∈ sc_name <$> steps) order) as Hnames by (apply Forall_forall; intros n; apply Hin).
      pose proof (quiet_all _ _ _ _ make steps g Hb Hn l order Hr Hq Ho Hnames) as Hall. rewrite Forall_forall in Hall.
      by apply Hall, Hin, list_elem_of_fmap_2. }
    pose proof (entered_once _ _ _ _ make steps g Hb Hn l Hr (sc_name s)). pose proof (entered_ran (sc_name s) l). split_and!; [lia| |].
    + intros Hl. pose proof (step_runs _ _ _ _ make steps g Hb Hn l s Hr Hs Hl). lia.
    + intros Hl Hd. rewrite (quiet_left _ _ _ _ make steps g Hb Hn l s Hr Hq Hs Hl Hd). lia.
Qed.
End theorems.

(** ** Updates of one superstep *)

(** The update of a node carries the steps it saw: what another node of the superstep
    recorded for a step that had an entry before is overwritten with that entry. *)
Lemma parallel_update_lost s u1 u2 n1 n2 e2 old :
  NoDup (od_keys (st_steps s)) -> n1 <> n2 -> od_get n1 (st_steps s) = Some old -> up_steps u2 = od_set n2 e2 (st_steps s) ->
  od_get n1 (st_steps (apply_updates s [u1; u2])) = Some old.
Proof.
  intros Hd Hn Ho Hu. cbn. unfold merge_dicts. rewrite Hu, od_get_update by (by apply NoDup_od_set). by rewrite od_get_set_ne, Ho.
Qed.

(** ** A workflow with a loop *)

Definition demo_step (name : string) (deps : list string) (until : option string) : StepConfig :=
  mkStepConfig name "tier0_process" "" deps [] [] [] [] None until 2 None None None None None None None.
Definition demo_steps : list StepConfig :=
  [demo_step "plan" [] None; demo_step "draft" ["plan"] (Some "${context.done}"); demo_step "review" ["plan"; "draft"] None].
Definition demo_host : Host :=
  mkHost (fun _ _ => None) (fun _ _ _ => Raise (TypeError "")) (fun _ _ => Raise (TypeError "")) (fun _ _ _ => Raise (TypeError "")) (fun _ _ => false).
Definition demo_node : NodeFn unit := fun _ => ret (mkUpdate [] [] [] "" []).
Definition demo_graph : res (Graph unit) :=
  build_graph demo_host (fun _ => Ok (Constant (EBool false))) (fun _ _ => None) (fun _ => "") (fun _ => demo_node) demo_steps.

Lemma demo_named : well_named demo_steps.
Proof. split; [apply (bool_decide_unpack _); vm_compute; exact I | repeat constructor]. Qed.

Lemma wired_as_declared_witness : exists g, demo_graph = Ok g /\ (g_nodes g).*1 = ["plan"; "draft"; "review"; "__loop_exit__draft"] /\
  exists sources, forall sources', (sources', Node "review") ∈ triggers g <-> sources' = sources.
Proof.
  pose proof (wired_as_declared demo_host (fun _ => Ok (Constant (EBool false))) (fun _ _ => None) (fun _ => "") (fun _ => demo_node) demo_steps demo_named) as H.
  change (build_graph _ _ _ _ _ _) with demo_graph in H. destruct demo_graph as [g|e] eqn:E; [|discriminate E].
  exists g. split; [reflexivity|]. split; [injection E as <-; reflexivity|].
  destruct (as_edge _ _ _ _ _ _ _ (proj2 H) (demo_step "review" ["plan"; "draft"] None)) as (sources & Hs & _); [right; right; left|]. by exists sources.
Defined.

(** The draft runs twice, then the review, and the run is over. *)
Definition demo_run : list event :=
  [(END_, ByEdge [Node "review"]); (Node "review", ByEdge [Node "plan"; Node "__loop_exit__draft"]); (Node "__loop_exit__draft", ByBranch "draft");
   (Node "draft", ByBranch "draft"); (Node "draft", ByEdge [Node "plan"]); (Node "plan", ByEdge [START])].
Definition drafted (n : Z) : WorkflowState := mkState [] [] [] [] [("draft", mkEntry "success" [] n None None None None None None)] "" [].

Lemma demo_wiring g : demo_graph = Ok g ->
  triggers g = [([START], Node "plan"); ([Node "plan"], Node "draft"); ([Node "review"], END_); ([Node "plan"; Node "__loop_exit__draft"], Node "review")] /\
  (g_branches g).*1.*1 = ["draft"].
Proof. intros [= <-]. split; reflexivity. Qed.

Lemma demo_run_ends g : demo_graph = Ok g -> run_ends (Runtime := free_runtime unit) g demo_run.
Proof.
  intros E. destruct (demo_wiring g E) as [Et Eb]. split.
  - injection E as <-. repeat (apply run_edge; [|vm_compute; set_solver|repeat constructor|vm_compute; set_solver]).
    eapply run_branch with (s := drafted 2); [|vm_compute; left|vm_compute; reflexivity|vm_compute; lia|vm_compute; set_solver].
    eapply run_branch with (s := drafted 1); [|vm_compute; left|vm_compute; reflexivity|vm_compute; lia|vm_compute; set_solver].
    repeat (apply run_edge; [|vm_compute; set_solver|repeat constructor|vm_compute; set_solver]). constructor.
  - split.
    + intros sources p Hin _. rewrite Et, !elem_of_cons, elem_of_nil in Hin. unfold due.
      destruct Hin as [[= -> ->]|[[= -> ->]|[[= -> ->]|[[= -> ->]|[]]]]]; intros [H _]%Forall_cons; vm_compute in H; lia.
    + intros m route targets Hin. apply (list_elem_of_fmap_2 fst), (list_elem_of_fmap_2 fst) in Hin. rewrite Eb, list_elem_of_singleton in Hin.
      cbn in Hin. subst m. vm_compute. lia.
Qed.

(** The review ran once, after the loop was left. *)
Lemma runs_follow_dependencies_witness : exists g, demo_graph = Ok g /\ run_ends (Runtime := free_runtime unit) g demo_run /\
  ran (Node "review") demo_run = 1 /\
  forall v l, run_of g ((Node "review", v) :: l) -> 0 < ran (Node "__loop_exit__draft") l.
Proof.
  destruct demo_graph as [g|e] eqn:E; [|discriminate E]. exists g. split; [reflexivity|]. pose proof (demo_run_ends g E) as Hend. split; [exact Hend|].
  destruct (runs_follow_dependencies demo_host (fun _ => Ok (Constant (EBool false))) (fun _ _ => None) (fun _ => "") (free_runtime unit)
    (fun _ => demo_node) demo_steps g demo_named E) as [Hrun Hfin]. split.
  - refine (proj1 (proj2 (Hfin _ ["plan"; "draft"; "review"] Hend _ _ (demo_step "review" ["plan"; "draft"] None) _)) eq_refl).
    + intros before s after Hs Ho d Hd. unfold demo_steps in Hs. rewrite !elem_of_cons, elem_of_nil in Hs.
      destruct Hs as [->|[->|[->|[]]]]; destruct before as [|a [|b [|c before]]]; try discriminate Ho; injection Ho as; subst; cbn in Hd; set_solver.
    + intros n. reflexivity.
    + right; right; left.
  - intros v l Hr. refine (proj2 (proj1 (Hrun _ _ Hr (demo_step "review" ["plan"; "draft"] None) _) eq_refl "draft" _) (demo_step "draft" ["plan"] (Some "${context.done}")) _ eq_refl eq_refl);
      [right; right; left | right; left | right; left].
Defined.
