(* ===== verification/LangNodes.v ===== *)
(** * The nodes of a graph (langchain/graph_wiring.py, langchain/response_sanitization.py, langchain/result_builder.py)

    What the steps of a workflow do as nodes of the graph of [LangGraph]: the deterministic
    steps, the agents with their fallback over models, the parsing of replies and the records
    of a step's result.  Agents, candidates, traces, settings and the clock are the interface
    [LangEnv]; a node keeps the agents it made in the session. *)

From Stdlib Require Import QArith Qcanon.
From S2P Require Import Prelude PyStr PyVal Messages Artifacts Expressions Step Consensus Registry Sanitize CanonicalJson JsonRepair LlmOutput AgentStep RunResults LangGraph.
Local Open Scope nat_scope.

(** ** Messages *)

Inductive Message :=
  | AIMessage (content : pyval) (additional_kwargs usage_metadata response_metadata : odict pyval)
  | OtherMessage.

(** Python code as the parser sees it: functions, classes and lines, or the error. *)
Inductive ParsedCode := CodeShape (functions classes : list string) (lines : nat) | CodeError (message : string).

Class LangEnv (W Agent : Type) := {
  clock : M W Z;                                    (* microseconds *)
  isoformat : Z -> string;
  no_llm : W -> bool;                               (* AGENTIC_NO_LLM *)
  sanitize_agent_loop : W -> bool;                  (* AGENTIC_SANITIZE_AGENT_LOOP *)
  response_sanitizer : ResponseSanitizer;
  sha256 : string -> string;
  emit_step_start : string -> string -> odict pyval -> M W unit;
  emit_step_complete : string -> string -> string -> odict pyval -> M W unit;
  create_agent : StepConfig -> string -> M W Agent;
  agent_invoke : Agent -> string -> M W (list Message);
  model_candidates : Z -> option string -> list string;
  has_transient_status : PyExc -> bool;             (* by its status code *)
  parse_code : string -> option ParsedCode;         (* an existing .py file *)
}.

(** ** Retryable errors (langchain/model_utils.py) *)

Definition CLASS_TOKENS : list string := ["ratelimit"; "timeout"; "apiconnection"; "serviceunavailable"; "temporar"].
Definition MESSAGE_TOKENS : list string :=
  ["429"; "too many requests"; "rate limit"; "quota exceeded"; "resource exhausted"; "temporarily unavailable"; "service unavailable";
   "overloaded"; "timeout"; "timed out"; "connection reset"; "connection error"; "upstream error"; "try again later"].
Definition is_retryable_model_error (transient : PyExc -> bool) (e : PyExc) : bool :=
  transient e || existsb (contains (lower (ex_type e))) CLASS_TOKENS || existsb (contains (lower (ex_msg e))) MESSAGE_TOKENS.

Section nodes.
Context {W Agent : Type} `{!LangEnv W Agent, !JsonDecoder}.
Context (h : Host) (parse : string -> res expr) (getattr : pyval -> string -> option pyval) (repr : pyval -> string) (float_repr : Qc -> string).
Context (placeholder_text : string -> bool) (file_blocks : string -> list FileBlock) (registry : Registry) (env : Env).

(** ** Text of messages *)

Definition first_nonempty (texts : odict string) (keys : list string) : option string :=
  head (omap (fun k => given (od_get k texts)) keys).
Definition TEXT_KEYS : list string := ["text"; "output_text"; "content"; "message"].

Fixpoint coerce_message_content_to_text (content : pyval) : string :=
  match content with
  | VNone => ""
  | VStr s => s
  | VList l =>
      let parts := (fix go l := match l with [] => [] | v :: l' => coerce_message_content_to_text v :: go l' end) l in
      join eol (filter (fun part => strip part <> "") parts)
  | VDict d =>
      let texts := (fix go d := match d with [] => [] | (k, v) :: d' => (k, coerce_message_content_to_text v) :: go d' end) d in
      match first_nonempty texts TEXT_KEYS with Some t => t | None => json_dumps float_repr content end
  | v => str_of repr v
  end.

Definition REASONING_FALLBACK_KEYS : list string := ["reasoning_content"; "thinking"].
Definition reasoning_fallback_text (extras : odict pyval) : string :=
  default "" (List.find (fun t => negb (bool_decide (strip t = "")))
    ((fun k => coerce_message_content_to_text (default VNone (od_get k extras))) <$> REASONING_FALLBACK_KEYS)).

Definition is_ai (m : Message) : bool := match m with AIMessage _ _ _ _ => true | OtherMessage => false end.
(** [_find_last_ai_message] *)
Definition last_ai_message (messages : list Message) : option Message := last (filter (fun m => is_ai m = true) messages).

Definition extract_agent_response_text (messages : list Message) : string :=
  match last_ai_message messages with
  | Some (AIMessage content extras _ _) =>
      let text := coerce_message_content_to_text content in
      if decide (strip text = "") then match reasoning_fallback_text extras with "" => text | t => t end else text
  | _ => ""
  end.

(** [_extract_usage_from_response_metadata]; what is no mapping has no [get]. *)
Definition usage_of (usage : pyval) (keys : odict string) : res (odict pyval) :=
  match usage with
  | VDict d => Ok ((fun kv => (kv.1, default VNone (od_get kv.2 d))) <$> keys)
  | _ => Raise (AttributeError "get")
  end.
Definition usage_from_response_metadata (rm : odict pyval) : res (odict pyval) :=
  usage ← match od_get "token_usage" rm, od_get "usage" rm with
          | Some u, _ => usage_of u [("input_tokens", "prompt_tokens"); ("output_tokens", "completion_tokens"); ("total_tokens", "total_tokens")]
          | None, Some u => usage_of u [("input_tokens", "input_tokens"); ("output_tokens", "output_tokens")]
          | None, None => Ok []
          end;
  Ok (usage ++ match od_get "model_name" rm, od_get "model" rm with
               | Some m, _ | None, Some m => [("model", m)]
               | None, None => []
               end).

Definition extract_agent_metadata (messages : list Message) : res (odict pyval) :=
  match last_ai_message messages with
  | Some (AIMessage _ _ usage rm) =>
      if decide (usage = []) then usage_from_response_metadata rm
      else usage_of (VDict usage) [("input_tokens", "input_tokens"); ("output_tokens", "output_tokens"); ("total_tokens", "total_tokens")]
  | _ => Ok []
  end.

(** ** Step outputs *)

Definition parse_step_outputs (response_text : string) (expected : list string) : res (odict pyval) :=
  sentinel ← parse_sentinel_output repr (chars response_text) expected;
  parsed ← match sentinel with
           | Some d => Ok d
           | None =>
               json ← parse_json_step_output repr (chars response_text) expected;
               match json with
               | Some d => Ok d
               | None => d ← parse_llm_json_output repr (chars response_text) expected; Ok (od_pop "raw_response" d)
               end
           end;
  Ok (od_update [("raw_response", VStr response_text)] parsed).

(** ** Deterministic steps *)

(** [str(value)], the empty text for [None]. *)
Definition text_input (value : pyval) : string := match value with VNone => "" | v => str_of repr v end.
Definition ctx_text (s : WorkflowState) : string :=
  text_input (or_value (attribute (st_context s) "text") (attribute (st_inputs s) "input_text")).

(** What a deterministic step gives: the context and the outputs. *)
Definition Tier0 : Type := WorkflowState -> res (odict pyval * odict pyval).
Definition tier0_process_text : Tier0 := fun s =>
  let result := [("result", VStr (ctx_text s))] in Ok (od_update (st_context s) result, result).
Definition tier0_count_text : Tier0 := fun s =>
  let result := [("count", VInt (Z.of_nat (String.length (ctx_text s))))] in Ok (od_update (st_context s) result, result).

Definition vote_key (v : pyval) : string := canonical_key (fun v => Some (json_dumps float_repr (sort_keys v))) repr v.
(** An unknown [mode] only logs. *)
Definition tier0_consensus : Tier0 := fun s =>
  let samples := match attribute (st_context s) "samples" with VList l | VTuple l => l | VNone => [] | v => [v] end in
  min_agreement ← coerce_min_agreement (attribute (st_context s) "min_agreement");
  r ← majority_vote vote_key id min_agreement samples;
  Ok (od_update (st_context s) (consensus_outputs r), consensus_outputs r).

Definition tier0_overlay : Tier0 := fun s =>
  let '(merged, overridden) := overlay_code_artifacts placeholder_text file_blocks
    (mapping_or_empty (attribute (st_context s) "base")) (mapping_or_empty (attribute (st_context s) "override")) in
  Ok (st_context s, od_set "overridden" (VList (VStr <$> overridden)) merged).

Definition strings (l : list string) : pyval := VList (VStr <$> l).
Definition dumps (v : pyval) : pyval := VStr (json_dumps float_repr v).
Definition code_result (c : option ParsedCode) : odict pyval :=
  match c with
  | None => [("parsed_ast", VStr "{}"); ("code_metrics", VStr "{}")]
  | Some (CodeError e) => [("parsed_ast", dumps (VDict [("error", VStr e)])); ("code_metrics", VStr "{}")]
  | Some (CodeShape functions classes lines) =>
      [("parsed_ast", dumps (VDict [("functions", strings functions); ("classes", strings classes)]));
       ("code_metrics", dumps (VDict [("lines", VInt (Z.of_nat lines)); ("functions", VInt (Z.of_nat (length functions)))]))]
  end.
Definition tier0_parse_code : Tier0 := fun s =>
  let file_path := or_value (attribute (st_context s) "file_path") (default (VStr "") (od_get "code_file" (st_inputs s))) in
  result ← (if truthy file_path then match file_path with VStr p => Ok (code_result (parse_code p)) | _ => Raise (TypeError "expected str, bytes or os.PathLike object") end
            else Ok (code_result None));
  Ok (od_update (st_context s) result, result).

Definition TIER0_REGISTRY : odict Tier0 :=
  [("tier0_parser", tier0_parse_code); ("tier0_process", tier0_process_text); ("tier0_counter", tier0_count_text);
   ("tier0_consensus", tier0_consensus); ("tier0_overlay", tier0_overlay)].

(** ** The records of a step *)

Definition resolve_all (s : WorkflowState) (inputs : odict pyval) : odict pyval := (fun kv => (kv.1, resolve_expression getattr (state_dict s) kv.2)) <$> inputs.

(** [inr]: the [ArtifactContractError]. *)
Definition resolve_inputs_into_context (step : StepConfig) (s : WorkflowState) : res ((odict pyval * odict pyval) + list ContractDiagnostic) :=
  let resolved := resolve_all s (sc_inputs step) in
  r ← validate_and_normalize_artifacts placeholder_text file_blocks resolved (sc_input_contracts step);
  Ok (match r with
      | inl normalized => inl (od_update (od_update (st_context s) resolved) normalized, normalized)
      | inr ds => inr ds
      end).

Definition nonempty_dict (d : odict pyval) : option (odict pyval) := match d with [] => None | d => Some d end.
Definition record_step_result (s : WorkflowState) (step_name status : string) (outputs : odict pyval) (error : option string)
    (inputs metadata : odict pyval) (start_time end_time : Z) : odict StepEntry :=
  od_set step_name
    (mkEntry status outputs (next_iteration s step_name) (Some inputs) (given error) (nonempty_dict metadata)
       (Some (isoformat start_time)) (Some (isoformat end_time)) (Some (Q2Qc (inject_Z (end_time - start_time) / 1000)))) (st_steps s).

Definition map_output (step_outputs : odict pyval) (ctx : odict pyval) (kv : string * string) : odict pyval :=
  match od_get kv.1 step_outputs with Some v => od_set kv.2 v ctx | None => ctx end.
Definition map_step_outputs_to_context (step : StepConfig) (step_outputs ctx : odict pyval) : odict pyval :=
  foldl (map_output step_outputs) ctx (sc_outputs step).


(** ** The task of an agent *)

(** [_DATA_URL_PATTERN.match]: the media type, which may be missing. *)
Definition is_mime_char (c : Ascii.ascii) : bool := is_word c || bool_decide (c ∈ ["."; "+"; "-"]%char).
Definition data_follows (l : text) : bool := is_prefix [","%char] (match token (chars ";base64") l with Some r => r | None => l end).
Definition data_url (l : text) : option (option text) :=
  match token (chars "data:") l with
  | None => None
  | Some l =>
      let '(a, r) := span_while is_mime_char l in
      let typed := match a, r with
                   | _ :: _, "/"%char :: r =>
                       let '(b, r) := span_while is_mime_char r in
                       if decide (b = []) then None else if data_follows r then Some (a ++ "/"%char :: b) else None
                   | _, _ => None
                   end in
      match typed with Some mime => Some (Some mime) | None => if data_follows l then Some None else None end
  end.

Fixpoint summarize_media_value (v : pyval) : pyval :=
  match v with
  | VStr s =>
      match data_url (chars s) with
      | Some mime =>
          let n := Z.of_nat (String.length s) in
          if (256 <? n)%Z then
            VStr ("<media " +:+ match mime with Some m => of_chars m | None => "application/octet-stream" end +:+ " ~" +:+
                  pretty.pretty (Z.max 1 (n * 3 / 4 / 1024)) +:+ " KB attached>")
          else v
      | None => v
      end
  | VDict d => VDict ((fix go d := match d with [] => [] | (k, x) :: d' => (k, summarize_media_value x) :: go d' end) d)
  | VList l => VList ((fix go l := match l with [] => [] | x :: l' => summarize_media_value x :: go l' end) l)
  | v => v
  end.

Definition build_task_description (step : StepConfig) (resolved_inputs : odict pyval) : string :=
  "Step: " +:+ sc_name step +:+ eol +:+ "Description: " +:+ sc_description step +:+ eol +:+ "Inputs:" +:+ eol +:+
  json_indented float_repr 0 (summarize_media_value (VDict resolved_inputs)) +:+ eol +:+ eol +:+
  "Please complete this task and return your result. Produce the deliverable directly in this response; if none of your tools apply, " +:+
  "answer without tools rather than declining for lack of a suitable tool." +:+
  match sc_outputs step with
  | [] => ""
  | outputs => eol +:+ eol +:+ "Return your result as JSON with these keys: " +:+ str_of repr (strings (od_keys outputs))
  end.

(** ** The session: the world and the agents each node made *)

(** [ss_diagnostics]: what the last check of a reply in this run of the node left. *)
Record Session := mkSession { ss_world : W; ss_agents : odict (odict Agent); ss_diagnostics : list ContractDiagnostic }.
Definition set_diagnostics (ds : list ContractDiagnostic) : M Session unit := modify (fun s => mkSession (ss_world s) (ss_agents s) ds).
Definition on_world {A} (m : M W A) : M Session A := fun s => let '(w, r) := m (ss_world s) in (mkSession w (ss_agents s) (ss_diagnostics s), r).

(** [sanitize_agent_response_text] *)
Definition sanitize_agent_response_text (response : string) : M Session string :=
  s <- get;
  ret (if bool_decide (response = "") || no_llm (ss_world s) || negb (sanitize_agent_loop (ss_world s)) then response
       else sanitize_response_text sha256 (Some response_sanitizer) response).

Definition agents_of (name : string) (s : Session) : odict Agent := default [] (od_get name (ss_agents s)).
(** [_get_agent_for_model] *)
Definition get_agent_for_model (step : StepConfig) (model_id : string) : M Session Agent :=
  s <- get;
  match od_get model_id (agents_of (sc_name step) s) with
  | Some agent => ret agent
  | None =>
      agent <- on_world (create_agent step model_id);
      modify (fun s => mkSession (ss_world s) (od_set (sc_name step) (od_set model_id agent (agents_of (sc_name step) s)) (ss_agents s)) (ss_diagnostics s));;
      ret agent
  end.

(** ** Fallback over models *)

Record AttemptError := mkAttemptError {
  ae_model : option string;
  ae_error : string;
  ae_retryable : bool;
  ae_semantic_invalid : bool;
  ae_diagnostics : option (list ContractDiagnostic);
}.
Definition attempt_dict (a : AttemptError) : pyval :=
  VDict ([("model", str_or_none (ae_model a)); ("error", VStr (ae_error a)); ("retryable", VBool (ae_retryable a))] ++
         (if ae_semantic_invalid a then [("semantic_invalid", VBool true)] else []) ++
         opt_item "contract_diagnostics" (diagnostics_value <$> ae_diagnostics a)).

Record LaneCrossing := mkCrossing { lc_from_model : string; lc_from_lane : CostLane; lc_to_model : string; lc_to_lane : CostLane }.
Definition lane_name (l : CostLane) : string := match l with Local => "local" | Free => "free" | Paid => "paid" end.
Definition crossing_dict (c : LaneCrossing) : pyval :=
  VDict [("from_model", VStr (lc_from_model c)); ("from_lane", VStr (lane_name (lc_from_lane c)));
         ("to_model", VStr (lc_to_model c)); ("to_lane", VStr (lane_name (lc_to_lane c)))].

Definition crossing (previous : option string) (model_id : string) : list LaneCrossing :=
  match previous with
  | Some p =>
      let from_lane := cost_lane_for registry env p in
      let to_lane := cost_lane_for registry env model_id in
      if lane_rank from_lane <? lane_rank to_lane then [mkCrossing p from_lane model_id to_lane] else []
  | None => []
  end.

Record Outcome := mkOutcome {
  oc_reply : option (string * odict pyval);
  oc_errors : list AttemptError;
  oc_models : list string;
  oc_crossings : list LaneCrossing;
}.

(** The keys a reply should have, and the check of a reply ([response_ok]). *)
Definition declared_keys (step : StepConfig) : list string :=
  filter (fun k => k <> "raw_response") (expected_output_keys (od_keys (sc_outputs step)) (sc_output_contracts step)).
Definition response_ok (step : StepConfig) (response : string) : M Session bool :=
  parsed <- lift_res (parse_step_outputs response (declared_keys step));
  if decide (sc_output_contracts step = []) then ret (existsb (fun k => od_mem k parsed) (declared_keys step))
  else
    set_diagnostics [];;
    r <- lift_res (validate_and_normalize_artifacts placeholder_text file_blocks parsed (sc_output_contracts step));
    match r with inl _ => ret true | inr ds => set_diagnostics ds;; ret false end.

(** One model: its reply with the metadata, or why it will not do. *)
Definition attempt (step : StepConfig) (task : string) (check : option (string -> M Session bool)) (reject_last_invalid more : bool) (model_id : string)
    : M Session ((string * odict pyval) + AttemptError) :=
  try_except
    (agent <- get_agent_for_model step model_id;
     messages <- on_world (agent_invoke agent task);
     response <- sanitize_agent_response_text (extract_agent_response_text messages);
     ok <- match check with Some c => c response | None => ret true end;
     if negb ok && (more || reject_last_invalid)
     then ret (inr (mkAttemptError (Some model_id) "response failed the step's declared output requirements" more true None))
     else
       metadata <- lift_res (extract_agent_metadata messages);
       ret (inl (response, if od_mem "model" metadata then metadata else od_set "model" (VStr model_id) metadata)))
    (fun e => match ex_kind e with
              | KCancelled => raise e
              | _ => ret (inr (mkAttemptError (Some model_id) (ex_msg e) (is_retryable_model_error has_transient_status e) false None))
              end).

Fixpoint failover (step : StepConfig) (task : string) (check : option (string -> M Session bool)) (reject_last_invalid : bool)
    (previous : option string) (o : Outcome) (candidates : list string) : M Session Outcome :=
  match candidates with
  | [] => ret o
  | model_id :: rest =>
      let models := oc_models o ++ [model_id] in
      let crossings := oc_crossings o ++ crossing previous model_id in
      r <- attempt step task check reject_last_invalid (negb (bool_decide (rest = []))) model_id;
      match r with
      | inl reply => ret (mkOutcome (Some reply) (oc_errors o) models crossings)
      | inr a => failover step task check reject_last_invalid (Some model_id) (mkOutcome None (oc_errors o ++ [a]) models crossings) rest
      end
  end.
Definition invoke_with_failover (step : StepConfig) (task : string) (candidates : list string) (check : option (string -> M Session bool))
    (reject_last_invalid : bool) : M Session Outcome :=
  failover step task check reject_last_invalid None (mkOutcome None [] [] []) candidates.

(** ** The updates of a node *)

(** An [observers] list without [trace] silences the step. *)
Definition traced (step : StepConfig) : bool := match sc_observers step with Some l => bool_decide ("trace" ∈ l) | None => true end.
Definition trace_start (step : StepConfig) (run_id : string) (inputs : odict pyval) : M Session unit :=
  if traced step then on_world (emit_step_start (sc_name step) run_id inputs) else ret tt.
Definition trace_complete (step : StepConfig) (run_id status : string) (payload : odict pyval) : M Session unit :=
  if traced step then on_world (emit_step_complete (sc_name step) run_id status payload) else ret tt.

(** What the node has when it ends: the run, the start, the inputs, the attempts. *)
Record NodeRun := mkNodeRun {
  nr_run_id : string;
  nr_start : Z;
  nr_context : odict pyval;
  nr_inputs : odict pyval;
  nr_errors : list AttemptError;
  nr_models : list string;
  nr_crossings : list LaneCrossing;
}.
Definition crossings_item (cs : list LaneCrossing) : odict pyval := match cs with [] => [] | _ => [("lane_crossings", VList (crossing_dict <$> cs))] end.

Definition failure_text (errors : list AttemptError) (failure_message : option string) : string :=
  let text := default "All model attempts failed" (given failure_message) in
  match last errors, failure_message with
  | Some a, None => text +:+ " (last model=" +:+ default "None" (ae_model a) +:+ ": " +:+ ae_error a +:+ ")"
  | _, _ => text
  end.

Definition build_failure_update (step : StepConfig) (s : WorkflowState) (n : NodeRun) (failure_message : option string) (failure_metadata : odict pyval)
    : M Session Update :=
  let err_text := failure_text (nr_errors n) failure_message in
  end_time <- on_world clock;
  let steps := record_step_result s (sc_name step) "failed" [] (Some err_text) (nr_inputs n)
                 (od_update failure_metadata (crossings_item (nr_crossings n))) (nr_start n) end_time in
  trace_complete step (nr_run_id n) "failed"
    ([("error", VStr err_text); ("attempted_models", strings (nr_models n)); ("attempt_errors", VList (attempt_dict <$> nr_errors n))] ++
     crossings_item (nr_crossings n));;
  ret (mkUpdate [] (nr_context n) steps (sc_name step) ["Step " +:+ sc_name step +:+ " failed: " +:+ err_text]).

(** A violated contract. *)
Definition contract_failure (step : StepConfig) (s : WorkflowState) (n : NodeRun) (ds : list ContractDiagnostic) : M Session Update :=
  let message := ex_msg (contract_error ds) in
  build_failure_update step s
    (mkNodeRun (nr_run_id n) (nr_start n) (nr_context n) (nr_inputs n) (nr_errors n ++ [mkAttemptError None message false false (Some ds)])
       (nr_models n) (nr_crossings n))
    (Some message) [("contract_diagnostics", diagnostics_value ds)].

Definition reply_metadata (n : NodeRun) (metadata : odict pyval) : odict pyval :=
  let metadata := match nr_errors n with
                  | [] => metadata
                  | errors => od_set "attempt_errors" (VList (attempt_dict <$> errors)) (od_set "attempted_models" (strings (nr_models n)) metadata)
                  end in
  od_update metadata (crossings_item (nr_crossings n)).

Definition build_success_update (step : StepConfig) (s : WorkflowState) (n : NodeRun) (response : string) (metadata : odict pyval) : M Session Update :=
  let metadata := reply_metadata n metadata in
  parsed <- lift_res (parse_step_outputs response (expected_output_keys (od_keys (sc_outputs step)) (sc_output_contracts step)));
  r <- lift_res (validate_and_normalize_artifacts placeholder_text file_blocks parsed (sc_output_contracts step));
  match r with
  | inr ds => contract_failure step s n ds
  | inl step_outputs =>
      let ctx := map_step_outputs_to_context step step_outputs (nr_context n) in
      end_time <- on_world clock;
      let steps := record_step_result s (sc_name step) "success" step_outputs None (nr_inputs n) metadata (nr_start n) end_time in
      trace_complete step (nr_run_id n) "success" step_outputs;;
      ret (mkUpdate [VObj "AIMessage" response] ctx steps (sc_name step) [])
  end.

(** ** Nodes *)

Definition set_context (ctx : odict pyval) (s : WorkflowState) : WorkflowState :=
  mkState (st_messages s) ctx (st_inputs s) (st_outputs s) (st_steps s) (st_current_step s) (st_errors s).
(** The run's id in the context is a text. *)
Definition run_id_of (s : WorkflowState) : string := match attribute (st_context s) "workflow_run_id" with VStr r => r | _ => "" end.

Definition tier0_result (agent : string) (s : WorkflowState) : res (odict pyval * odict pyval) :=
  match od_get agent TIER0_REGISTRY with Some f => f s | None => Ok (st_context s, []) end.

Definition tier0_node (step : StepConfig) : NodeFn Session := fun s =>
  let run_id := run_id_of s in
  start <- on_world clock;
  r <- lift_res (resolve_inputs_into_context step s);
  match r with
  | inr ds => trace_start step run_id [];; contract_failure step s (mkNodeRun run_id start (st_context s) [] [] [] []) ds
  | inl (ctx, inputs) =>
      trace_start step run_id inputs;;
      result <- lift_res (tier0_result (sc_agent step) (set_context ctx s));
      r <- lift_res (validate_and_normalize_artifacts placeholder_text file_blocks result.2 (sc_output_contracts step));
      match r with
      | inr ds => contract_failure step s (mkNodeRun run_id start ctx inputs [] [] []) ds
      | inl step_outputs =>
          end_time <- on_world clock;
          let steps := record_step_result s (sc_name step) "success" step_outputs None inputs [] start end_time in
          trace_complete step run_id "success" step_outputs;;
          ret (mkUpdate [] (map_step_outputs_to_context step step_outputs result.1) steps (sc_name step) [])
      end
  end.

Definition validation_node (step : StepConfig) : NodeFn Session := fun s =>
  ret (mkUpdate [] (st_context s)
         (od_set (sc_name step) (mkEntry "validation" [] (next_iteration s (sc_name step)) None None None None None None) (st_steps s)) (sc_name step) []).

Definition diagnostics_item (ds : list ContractDiagnostic) : odict pyval := match ds with [] => [] | _ => [("contract_diagnostics", diagnostics_value ds)] end.

Definition llm_node (step : StepConfig) (candidates : list string) : NodeFn Session := fun s =>
  let run_id := run_id_of s in
  start <- on_world clock;
  r <- lift_res (resolve_inputs_into_context step s);
  match r with
  | inr ds => trace_start step run_id [];; contract_failure step s (mkNodeRun run_id start (st_context s) [] [] [] []) ds
  | inl (ctx, inputs) =>
      trace_start step run_id inputs;;
      set_diagnostics [];;
      ss <- get;
      let contracted := negb (bool_decide (sc_output_contracts step = [])) in
      let check := if negb (bool_decide (declared_keys step = [])) && (contracted || negb (no_llm (ss_world ss))) then Some (response_ok step) else None in
      o <- invoke_with_failover step (build_task_description step inputs) candidates check contracted;
      ss <- get;
      let n := mkNodeRun run_id start ctx inputs (oc_errors o) (oc_models o) (oc_crossings o) in
      match oc_reply o with
      | None =>
          let terminal_semantic := match last (oc_errors o) with Some a => ae_semantic_invalid a | None => false end in
          build_failure_update step s n None (if terminal_semantic then diagnostics_item (ss_diagnostics ss) else [])
      | Some (response, metadata) => build_success_update step s n response metadata
      end
  end.

(** [parse_agent_tier]: the digits of [tier<digits>_<name>], else 2. *)
Definition agent_digit (c : Ascii.ascii) : bool := match digit c with Some _ => true | None => false end.
Definition parse_agent_tier (agent_name : string) : Z :=
  match token (chars "tier") (chars agent_name) with
  | Some l =>
      match span_while agent_digit l with
      | ((_ :: _) as ds, "_"%char :: c :: _) =>
          if decide (c = newline) then 2%Z else match int_of_string (of_chars ds) with Some n => n | None => 2%Z end
      | _ => 2%Z
      end
  | None => 2%Z
  end.

Definition make_step_node (validate_only : bool) (step : StepConfig) : NodeFn Session :=
  let tier := parse_agent_tier (sc_agent step) in
  if decide (tier = 0%Z) then tier0_node step
  else if validate_only then validation_node step
  else llm_node step (model_candidates tier (sc_model_override step)).

(** ** Results of a run (langchain/result_builder.py, langchain/runner.py, langchain/config.py) *)

Definition build_workflow_result (workflow_name run_id : string) (started_at : Z) (elapsed_seconds : Q) (final_state : option (odict pyval))
    (outputs : odict pyval) (steps : list StepResult) (errors : list string) (token_counts models_used : odict pyval) (failed : bool) : WorkflowResult :=
  {| wr_workflow_id := run_id; wr_workflow_name := workflow_name; wr_steps := steps;
     wr_overall_status := workflow_status steps StSuccess (failed || negb (bool_decide (errors = [])));
     wr_start_time := started_at; wr_end_time := Some (started_at + micros elapsed_seconds)%Z; wr_final_output := outputs;
     wr_metadata := [("elapsed_seconds", VFloat (Q2Qc elapsed_seconds))] ++
                    opt_item "token_counts" (VDict <$> nonempty_dict token_counts) ++ opt_item "models_used" (VDict <$> nonempty_dict models_used) ++
                    opt_item "final_state" (VDict <$> final_state) ++ match errors with [] => [] | _ => [("errors", strings errors)] end |}.

Record InputConfig := mkInputConfig { ic_type : string; ic_description : string; ic_default : pyval; ic_required : bool; ic_enum : list pyval }.
Record OutputConfig := mkOutputConfig { oc_from_expr : pyval; oc_optional : bool }.

Definition blank_value (v : pyval) : bool := match v with VNone => true | VStr s => bool_decide (strip s = "") | _ => false end.
(** One declared input: its value, if it has one, and what is wrong with it. *)
Definition validate_input (supplied : odict pyval) (name : string) (c : InputConfig) : option pyval * list string :=
  match od_get name supplied with
  | Some value =>
      if ic_required c && blank_value value then (None, ["Required input '" +:+ name +:+ "' must not be empty"])
      else
        (Some value,
         if bool_decide (ic_enum c = []) || existsb (fun e => py_eq (embed value) (embed e)) (ic_enum c) then []
         else ["Input '" +:+ name +:+ "' must be one of " +:+ str_of repr (VList (ic_enum c)) +:+ ", got '" +:+ str_of repr value +:+ "'"])
  | None =>
      match ic_default c with
      | VNone => (None, if ic_required c then ["Missing required input: '" +:+ name +:+ "'"] else [])
      | v => (Some v, [])
      end
  end.
Definition validate_workflow_inputs (workflow_name : string) (inputs : odict InputConfig) (supplied : odict pyval) : res (odict pyval) :=
  let validated := (fun kv => (kv.1, validate_input supplied kv.1 kv.2)) <$> inputs in
  match mjoin ((fun kv => kv.2.2) <$> validated) with
  | [] => Ok (omap (fun kv => (fun v => (kv.1, v)) <$> kv.2.1) validated)
  | errors => Raise (ValueError ("Input validation failed for '" +:+ workflow_name +:+ "': " +:+ join "; " errors))
  end.

(** [resolve_outputs]; an output that does not resolve is left out. *)
Definition resolve_output (s : WorkflowState) (kv : string * OutputConfig) : option (string * pyval) :=
  match resolve_expression getattr (state_dict s) (oc_from_expr kv.2) with VNone => None | v => Some (kv.1, v) end.
Definition resolve_outputs (outputs : odict OutputConfig) (s : WorkflowState) : odict pyval := omap (resolve_output s) outputs.

(** The state a run starts in; the variables of the caller's context come first. *)
Definition seed_state (validated : odict pyval) (run_id : string) (ctx_vars : odict pyval) : WorkflowState :=
  set_context (od_update ctx_vars [("inputs", VDict validated); ("workflow_run_id", VStr run_id)]) (initial_state validated).

(** What [invoke] and [run] answer when the graph returned a state or raised. *)
Definition run_result (timestamp : pyval -> option Z) (now : Z) (outputs : odict OutputConfig) (workflow_name run_id : string) (started_at : Z) (elapsed : Q)
    (r : WorkflowState + PyExc) : WorkflowResult :=
  match r with
  | inr e => build_workflow_result workflow_name run_id started_at elapsed None [] [] [ex_msg e] [] [] true
  | inl final =>
      let '(token_counts, models_used) := extract_metadata (VDict (state_dict final)) in
      let models := (fun kv : string * string => (kv.1, VStr kv.2)) <$> models_used in
      let steps := build_step_results repr timestamp now (VDict ((fun kv => (kv.1, VDict (entry_dict kv.2))) <$> st_steps final)) token_counts models in
      build_workflow_result workflow_name run_id started_at elapsed (Some (state_dict final)) (resolve_outputs outputs final) steps
        (filter (fun e => e <> "") (st_errors final)) token_counts models false
  end.

(** ** Correctness *)

(** Whatever a computation returns satisfies [P]. *)
Definition yields {S A} (m : M S A) (P : A -> Prop) : Prop := forall s s' a, m s = (s', inl a) -> P a.

Lemma yields_ret {S A} (a : A) (P : A -> Prop) : P a -> yields (ret (S := S) a) P.
Proof. by intros Ha s s' a' [= _ <-]. Qed.
Lemma yields_bind {S A B} (m : M S A) (f : A -> M S B) (R : A -> Prop) (P : B -> Prop) :
  yields m R -> (forall a, R a -> yields (f a) P) -> yields (bind m f) P.
Proof. intros Hm Hf s s' b. unfold bind. destruct (m s) as [s1 [a|e]] eqn:E; [|done]. apply (Hf a). by eapply Hm. Qed.
Lemma yields_any {S A} (m : M S A) : yields m (fun _ => True).
Proof. done. Qed.
Lemma yields_then {S A B} (m : M S A) (f : A -> M S B) (P : B -> Prop) : (forall a, yields (f a) P) -> yields (bind m f) P.
Proof. intros Hf. eapply yields_bind; [apply yields_any|]. auto. Qed.
Lemma yields_lift {S A} (r : res A) : yields (lift_res (S := S) r) (fun a => r = Ok a).
Proof. intros s s' a. destruct r; cbn; [by intros [= _ ->] | done]. Qed.

Lemma failure_text_nonempty (errors : list AttemptError) message : failure_text errors message <> "".
Proof. unfold failure_text. destruct (last errors), message as [[|]|]; done. Qed.

(** The outcome of a node is on record: one entry, of this iteration, which is a success
    whose outputs satisfy the contracts or a failure the errors of the run tell. *)
Definition succeeded (step : StepConfig) (u : Update) (e : StepEntry) : Prop :=
  se_status e = "success" /\ up_errors u = [] /\
  (exists raw, validate_and_normalize_artifacts placeholder_text file_blocks raw (sc_output_contracts step) = Ok (inl (se_outputs e))) /\
  exists ctx, up_context u = map_step_outputs_to_context step (se_outputs e) ctx.
Definition failed_with (step : StepConfig) (u : Update) (e : StepEntry) : Prop :=
  se_status e = "failed" /\ se_outputs e = [] /\
  exists err, se_error e = Some err /\ up_errors u = ["Step " +:+ sc_name step +:+ " failed: " +:+ err].
Definition recorded (step : StepConfig) (s : WorkflowState) (u : Update) : Prop :=
  up_current_step u = sc_name step /\
  exists e, up_steps u = od_set (sc_name step) e (st_steps s) /\ se_loop_iteration e = next_iteration s (sc_name step) /\
    (succeeded step u e \/ failed_with step u e).

Lemma failure_recorded step s n message metadata : yields (build_failure_update step s n message metadata) (recorded step s).
Proof.
  unfold build_failure_update. apply yields_then. intros end_time. apply yields_then. intros _. apply yields_ret. split; [done|]. eexists. split; [done|].
  split; [done|]. right. split; [done|]. split; [done|]. exists (failure_text (nr_errors n) message). split; [|done].
  cbn. pose proof (failure_text_nonempty (nr_errors n) message) as Hne. by destruct (failure_text _ _).
Qed.

Lemma contract_failure_recorded step s n ds : yields (contract_failure step s n ds) (recorded step s).
Proof. apply failure_recorded. Qed.

Lemma success_recorded step s n response metadata : yields (build_success_update step s n response metadata) (recorded step s).
Proof.
  unfold build_success_update. apply yields_then. intros parsed. eapply yields_bind; [apply yields_lift|]. intros [outputs|ds] Hv; [|apply contract_failure_recorded].
  apply yields_then. intros end_time. apply yields_then. intros _. apply yields_ret. split; [done|]. eexists. split; [done|]. split; [done|].
  left. split; [done|]. split; [done|]. split; [by exists parsed|]. by exists (nr_context n).
Qed.

Lemma tier0_recorded step s : yields (tier0_node step s) (recorded step s).
Proof.
  unfold tier0_node. apply yields_then. intros start. apply yields_then. intros [[ctx inputs]|ds]; apply yields_then; intros _; [|apply contract_failure_recorded].
  apply yields_then. intros result. eapply yields_bind; [apply yields_lift|]. intros [outputs|ds] Hv; [|apply contract_failure_recorded].
  apply yields_then. intros end_time. apply yields_then. intros _. apply yields_ret. split; [done|]. eexists. split; [done|]. split; [done|].
  left. split; [done|]. split; [done|]. split; [by exists result.2|]. by exists result.1.
Qed.

Lemma llm_recorded step candidates s : yields (llm_node step candidates s) (recorded step s).
Proof.
  unfold llm_node. apply yields_then. intros start. apply yields_then. intros [[ctx inputs]|ds]; apply yields_then; intros _; [|apply contract_failure_recorded].
  do 3 (apply yields_then; intros ?). apply yields_then. intros ss. destruct (oc_reply _) as [[response metadata]|]; [apply success_recorded | apply failure_recorded].
Qed.

(** The models are tried in order, each once, until one gives a reply that will do. *)
Lemma failover_in_order step task check reject_last candidates : forall previous o, oc_reply o = None ->
  yields (failover step task check reject_last previous o candidates) (fun o' =>
    exists used rest, candidates = used ++ rest /\ oc_models o' = oc_models o ++ used /\
      match oc_reply o' with
      | None => rest = [] /\ length (oc_errors o') = length (oc_errors o) + length used
      | Some _ => length (oc_errors o') + 1 = length (oc_errors o) + length used
      end).
Proof.
  induction candidates as [|m rest IH]; intros previous o Ho; cbn [failover].
  - apply yields_ret. exists [], []. rewrite Ho. cbn. split_and!; [done | by rewrite app_nil_r | done | lia].
  - apply yields_then. intros [reply|a].
    + apply yields_ret. exists [m], rest. cbn. split_and!; [done..|lia].
    + intros ss ss' o' Hr. apply IH in Hr as (used & rest' & -> & Hm & He); [|done]. exists (m :: used), rest'. cbn in Hm, He.
      rewrite <- app_assoc in Hm. split; [done|]. split; [exact Hm|]. rewrite length_app in He. cbn in He |- *. destruct (oc_reply o'); [lia|]. split; [tauto | lia].
Qed.

(** A failing model or an unreadable reply stays in the attempt; only a cancellation leaves it. *)
Lemma attempt_contained step task check reject_last more m s s' e :
  attempt step task check reject_last more m s = (s', inr e) -> ex_kind e = KCancelled.
Proof.
  unfold attempt, try_except. destruct (bind _ _ s) as [s1 [r|e1]]; [done|]. destruct (ex_kind e1) eqn:Ek; try done. by intros [= _ <-].
Qed.

Lemma node_recorded step s : yields (make_step_node false step s) (recorded step s).
Proof. unfold make_step_node. case_decide; [apply tier0_recorded | apply llm_recorded]. Qed.

(** ** Loops *)

Definition skipped_update (step : StepConfig) (s : WorkflowState) (u : Update) : Prop :=
  u = mkUpdate [] (st_context s) (od_set (sc_name step) skipped_entry (st_steps s)) (sc_name step) [].

Abbreviation node step := (guarded_node h parse getattr repr (make_step_node false) step).

Lemma guarded_recorded step s : yields (node step s) (fun u => recorded step s u \/ skipped_update step s u).
Proof.
  unfold guarded_node. destruct (given (sc_when step)).
  - unfold wrap_with_skip_check. destruct (evaluate_condition _ _ _ _ _ _) as [[]|e]; [| |done].
    + intros ss ss' u Hu. left. by eapply node_recorded.
    + apply yields_ret. by right.
  - intros ss ss' u Hu. left. by eapply node_recorded.
Qed.

(** Runs of a loop step after which only its own update is applied and its router sends it back. *)
Inductive looped (step : StepConfig) (exit_target : point) : nat -> WorkflowState -> Prop :=
  | looped_start s : NoDup (od_keys (st_steps s)) -> od_get (sc_name step) (st_steps s) = None -> looped step exit_target 0 s
  | looped_again n s ss ss' u :
      looped step exit_target n s -> (0 < n -> loop_route h parse getattr repr step exit_target s = Ok (Node (sc_name step))) ->
      node step s ss = (ss', inl u) -> looped step exit_target (S n) (apply_update s u).

Lemma steps_after step s u : NoDup (od_keys (st_steps s)) -> forall e, up_steps u = od_set (sc_name step) e (st_steps s) ->
  NoDup (od_keys (st_steps (apply_update s u))) /\ od_get (sc_name step) (st_steps (apply_update s u)) = Some e.
Proof.
  intros Hd e Hu. cbn. unfold merge_dicts. rewrite Hu. split.
  - unfold od_update. apply (fold_left_ind (fun d => NoDup (od_keys d))); [done|]. intros. by apply NoDup_od_set.
  - rewrite od_get_update by (by apply NoDup_od_set). by rewrite od_get_set_eq.
Qed.

Lemma looped_entry step exit_target n s : exit_target <> Node (sc_name step) -> looped step exit_target n s ->
  NoDup (od_keys (st_steps s)) /\
  match n with
  | O => od_get (sc_name step) (st_steps s) = None
  | S _ => exists e, od_get (sc_name step) (st_steps s) = Some e /\ (se_status e = "skipped" \/ se_loop_iteration e = Z.of_nat n)
  end.
Proof.
  intros Hexit. induction 1 as [s Hd Hn|n s ss ss' u Hl [Hd IH] Hroute Hu]; [done|].
  apply guarded_recorded in Hu as [(_ & e & He & Hi & _)|Hsk].
  - destruct (steps_after step s u Hd e He) as [Hd' Hg]. split; [done|]. exists e. split; [done|]. right. rewrite Hi. unfold next_iteration.
    destruct n as [|n]; [by rewrite IH|]. destruct IH as (e0 & Hg0 & Hcase). rewrite Hg0.
    apply loop_route_targets in Hroute as [Hx|[_ Hx]]; [by rewrite Hx in Hexit| |lia]. destruct (Hx e0 Hg0). destruct Hcase; [done|lia].
  - unfold skipped_update in Hsk. destruct (steps_after step s u Hd skipped_entry) as [Hd' Hg]; [by rewrite Hsk|].
    split; [done|]. exists skipped_entry. split; [exact Hg|]. by left.
Qed.


(** ** Supersteps *)

(** The nodes of a superstep run from the same state and their updates are applied in turn. *)
Definition returned (s : WorkflowState) (p : StepConfig * Update) : Prop := exists ss ss', node p.1 s ss = (ss', inl p.2).
Abbreviation names l := ((sc_name ∘ fst) <$> l).

Lemma superstep_last s (l : list (StepConfig * Update)) step u e k :
  NoDup (od_keys (st_steps s)) -> up_steps u = od_set (sc_name step) e (st_steps s) ->
  od_get k (st_steps (apply_updates s (l ++ [(step, u)]).*2)) =
  if decide (k = sc_name step) then Some e
  else match od_get k (st_steps s) with Some v => Some v | None => od_get k (st_steps (apply_updates s l.*2)) end.
Proof.
  intros Hd Hu. unfold apply_updates. rewrite fmap_app, foldl_app. cbn. unfold merge_dicts. rewrite Hu, od_get_update by (by apply NoDup_od_set).
  rewrite od_get_set. by case_decide.
Qed.

Definition carries (s : WorkflowState) (p : StepConfig * Update) : Prop := exists e, up_steps p.2 = od_set (sc_name p.1) e (st_steps s).

Lemma superstep_other s l k : NoDup (od_keys (st_steps s)) -> Forall (carries s) l -> k ∉ names l ->
  od_get k (st_steps (apply_updates s l.*2)) = od_get k (st_steps s).
Proof.
  intros Hd. induction l as [|[step u] l IH] using rev_ind; intros Hl Hk; [done|]. apply Forall_app in Hl as [Hl [[e Hu] _]%Forall_cons].
  rewrite fmap_app, elem_of_app in Hk. cbn in Hk. rewrite (superstep_last s l step u e k Hd Hu), decide_False, IH by set_solver. by destruct (od_get k (st_steps s)).
Qed.

(** The record of a step: kept when its update is the last or it had none before. *)
Lemma superstep_record s l i step u e :
  NoDup (od_keys (st_steps s)) -> Forall (carries s) l -> NoDup (names l) -> l !! i = Some (step, u) -> up_steps u = od_set (sc_name step) e (st_steps s) ->
  od_get (sc_name step) (st_steps (apply_updates s l.*2)) =
  match od_get (sc_name step) (st_steps s) with Some old => if decide (S i = length l) then Some e else Some old | None => Some e end.
Proof.
  intros Hd. revert i. induction l as [|[step' u'] l IH] using rev_ind; intros i Hl Hn Hi Hu; [done|]. apply Forall_app in Hl as [Hl [[e' Hu'] _]%Forall_cons].
  rewrite (superstep_last s l step' u' e' _ Hd Hu'), length_app. cbn [length]. rewrite fmap_app in Hn. apply NoDup_app in Hn as (Hn & Hx & _).
  apply lookup_snoc_Some in Hi as [[Hlt Hi]|[-> [= -> ->]]].
  - rewrite decide_False.
    + rewrite (IH i) by done. destruct (od_get _ (st_steps s)); [|done]. by rewrite decide_False by lia.
    + intros E. apply (Hx (sc_name step)); [|rewrite E; left]. apply list_elem_of_fmap. exists (step, u). split; [done|]. by eapply list_elem_of_lookup_2.
  - rewrite decide_True by done. assert (e = e') as <-.
    { cbn in Hu'. rewrite Hu' in Hu. apply (f_equal (od_get (sc_name step))) in Hu. rewrite !od_get_set_eq in Hu. congruence. }
    destruct (od_get _ (st_steps s)); [|done]. by rewrite decide_True by lia.
Qed.

Lemma superstep_errors s us : st_errors (apply_updates s us) = st_errors s ++ (us ≫= up_errors).
Proof. unfold apply_updates. revert s. induction us as [|u us IH]; intros s; cbn; [by rewrite app_nil_r|]. rewrite IH; cbn; by rewrite app_assoc. Qed.

(** How a node leaves its step: a success, a failure the errors tell, or skipped. *)
Definition settled (step : StepConfig) (s : WorkflowState) (u : Update) (e : StepEntry) : Prop :=
  (succeeded step u e /\ se_loop_iteration e = next_iteration s (sc_name step)) \/
  (failed_with step u e /\ se_loop_iteration e = next_iteration s (sc_name step)) \/
  (e = skipped_entry /\ up_errors u = [] /\ up_context u = st_context s /\ evaluate_condition h parse getattr repr (sc_when step) (state_dict s) = Ok false).

Lemma returned_settled s p : returned s p -> exists e, up_steps p.2 = od_set (sc_name p.1) e (st_steps s) /\ settled p.1 s p.2 e.
Proof.
  intros (ss & ss' & Hr). destruct p as [step u]. cbn [fst snd] in *. unfold guarded_node in Hr. destruct (given (sc_when step)) eqn:Hw; [unfold wrap_with_skip_check in Hr|].
  - destruct (evaluate_condition _ _ _ _ _ _) as [[]|x] eqn:Hc; [| |done].
    + apply node_recorded in Hr as (_ & e & Hu & Hi & Hcase). exists e. split; [done|]. unfold settled. tauto.
    + injection Hr as _ <-. exists skipped_entry. split; [done|]. right; right. by rewrite Hc.
  - apply node_recorded in Hr as (_ & e & Hu & Hi & Hcase). exists e. split; [done|]. unfold settled. tauto.
Qed.

(** C11. Every step of a superstep whose nodes return leaves one record: each node settles its
    step as a success of the next iteration, whose outputs satisfy the contracts of the step
    and are mapped into the context, as a failure of the next iteration without outputs, whose
    message is added to the errors, or as skipped, when its condition is false.  After the
    superstep that record stands for the step, unless the step had one before and its update is
    not the last, when the old one is back; all other records are kept, and the errors of the
    nodes, and no others, are added in order. *)
Theorem node_records s l :
  NoDup (od_keys (st_steps s)) -> NoDup (names l) -> Forall (returned s) l ->
  let s' := apply_updates s l.*2 in
  (forall i step u, l !! i = Some (step, u) -> exists e, settled step s u e /\
     od_get (sc_name step) (st_steps s') =
       match od_get (sc_name step) (st_steps s) with Some old => if decide (S i = length l) then Some e else Some old | None => Some e end) /\
  (forall other, other ∉ names l -> od_get other (st_steps s') = od_get other (st_steps s)) /\
  st_errors s' = st_errors s ++ (l.*2 ≫= up_errors).
Proof.
  intros Hd Hn Hl. assert (Forall (carries s) l) as Hc.
  { eapply Forall_impl; [exact Hl|]. intros p (e & Hu & _)%returned_settled. by exists e. }
  cbv zeta. split; [|split; [intros; by apply superstep_other | apply superstep_errors]].
  intros i step u Hi. rewrite Forall_forall in Hl. destruct (returned_settled s (step, u)) as (e & Hu & He); [by eapply Hl, list_elem_of_lookup_2|].
  exists e. split; [exact He|]. by apply (superstep_record s l i step u e).
Qed.


(** A run is a success only if the graph returned, no step added an error and every record
    says that its step succeeded or was skipped. *)
Lemma run_success_sound timestamp now outputs workflow_name run_id started_at elapsed r :
  wr_overall_status (run_result timestamp now outputs workflow_name run_id started_at elapsed r) = StSuccess ->
  exists final, r = inl final /\ (forall err, err ∈ st_errors final -> err = "") /\
    forall name e, (name, e) ∈ st_steps final -> name <> "" -> lower (strip (se_status e)) ∈ SUCCESS_WORDS ++ SKIP_WORDS.
Proof.
  destruct r as [final|e]; [|done]. intros Hs. exists final. split; [done|]. unfold run_result in Hs.
  destruct (extract_metadata _) as [tokens models]. cbn [build_workflow_result wr_overall_status orb] in Hs.
  apply workflow_success in Hs as (He & _ & Hall). apply negb_false_iff, bool_decide_eq_true in He. split.
  - intros err Hin. destruct (decide (err = "")) as [|Hne]; [done|]. exfalso. apply (not_elem_of_nil err). rewrite <- He. by apply list_elem_of_filter.
  - intros name e Hin Hne. rewrite Forall_forall in Hall. unfold build_step_results in Hall.
    set (models' := _ <$> models) in Hall. set (r := step_result_of repr timestamp now tokens models' name (entry_dict e)).
    assert (sr_status r = StSuccess \/ sr_status r = StSkipped) as Hst.
    { apply Hall. apply list_elem_of_omap. exists (name, VDict (entry_dict e)). split; [apply list_elem_of_fmap; by exists (name, e)|]. cbn. by rewrite bool_decide_false. }
    pose proof (coerce_cases (VStr (se_status e))) as Hc. change (sr_status r) with (coerce_step_status (VStr (se_status e))) in Hst.
    rewrite elem_of_app. destruct Hst as [E|E]; rewrite E in Hc; destruct Hc as (w & [= <-] & Hw); tauto.
Qed.
End nodes.

(** ** Examples *)

Module Demo.

(** A world in which no model can be reached. *)
#[local] Instance offline : LangEnv unit unit := {
  clock := ret 0%Z; isoformat := fun _ => "t"; no_llm := fun _ => false; sanitize_agent_loop := fun _ => false;
  response_sanitizer := mkResponse None None; sha256 := fun s => s;
  emit_step_start := fun _ _ _ => ret tt; emit_step_complete := fun _ _ _ _ => ret tt;
  create_agent := fun _ _ => ret tt;
  agent_invoke := fun _ _ => raise (mkExc KException "ConnectionError" "connection reset");
  model_candidates := fun _ _ => ["ollama:a"; "gh:b"];
  has_transient_status := fun _ => false; parse_code := fun _ => None;
}.
#[local] Instance no_json : JsonDecoder := { loads := fun _ => None; raw_decode := fun _ => None }.

Definition step (name agent : string) (until : option string) : StepConfig :=
  mkStepConfig name agent "" [] [("text", VStr "${inputs.input_text}")] [("result", "answer")] [] [] None until 2 None None None None None None None.
(** Conditions are false. *)
Definition never (_ : string) : res expr := Ok (Constant (EBool false)).
Definition nodes_of : bool -> StepConfig -> NodeFn (Session (W := unit) (Agent := unit)) :=
  make_step_node (fun _ _ => None) (fun _ => "") (fun _ => "0") (fun _ => false) (fun _ => []) (mkRegistry [] [] "" "" "")
    (mkEnv true "" (fun _ => false) "" (fun _ => "") "").
Definition session : Session (W := unit) (Agent := unit) := mkSession tt [] [].
Definition start : WorkflowState := initial_state [("input_text", VStr "hi")].
Definition update_of (r : Session (W := unit) (Agent := unit) * (Update + PyExc)) : Update :=
  match r.2 with inl u => u | inr _ => mkUpdate [] [] [] "" [] end.
Definition echo : StepConfig := step "echo" "tier0_process" None.
Definition writer : StepConfig := step "write" "tier2_writer" None.

(** An echo succeeds and hands its text on; a writer without a model fails the run. *)
Lemma node_examples :
  let u := update_of (nodes_of false echo start session) in
  let v := update_of (nodes_of false writer start session) in
  od_get "answer" (up_context u) = Some (VStr "hi") /\ up_errors u = [] /\
  up_errors v = ["Step write failed: All model attempts failed (last model=gh:b: connection reset)"].
Proof. vm_compute. repeat split. Qed.

(** Two loops with a bound of two in the same supersteps: the record of the second run of [a]
    is lost, so that its router sends it back for a third one. *)
Definition superstep (steps : list StepConfig) (s : WorkflowState) : WorkflowState :=
  apply_updates s ((fun st => update_of (nodes_of false st s session)) <$> steps).
Definition a : StepConfig := step "a" "tier0_process" (Some "${context.done}").
Definition b : StepConfig := step "b" "tier0_process" (Some "${context.done}").
Lemma parallel_loops_overrun :
  let s := superstep [a; b] (superstep [a; b] start) in
  loop_default a = 2%Z /\
  loop_route demo_host never (fun _ _ => None) (fun _ => "") a END_ s = Ok (Node "a") /\
  loop_route demo_host never (fun _ _ => None) (fun _ => "") b END_ s = Ok END_.
Proof. vm_compute. repeat split. Qed.
End Demo.
#[local] Existing Instances Demo.offline Demo.no_json.

(** An echo and a writer without a model in one superstep: both records, and one error. *)
Lemma node_records_witness :
  let l := [(Demo.echo, Demo.update_of (Demo.nodes_of false Demo.echo Demo.start Demo.session));
            (Demo.writer, Demo.update_of (Demo.nodes_of false Demo.writer Demo.start Demo.session))] in
  let s' := apply_updates Demo.start l.*2 in
  (exists e, od_get "echo" (st_steps s') = Some e) /\ (exists e, od_get "write" (st_steps s') = Some e) /\ length (st_errors s') = 1.
Proof.
  intros l s'. destruct (node_records demo_host Demo.never (fun _ _ => None) (fun _ => "") (fun _ => "0") (fun _ => false) (fun _ => []) (mkRegistry [] [] "" "" "")
    (mkEnv true "" (fun _ => false) "" (fun _ => "") "") Demo.start l) as (H & _ & He).
  - apply NoDup_nil_2.
  - apply (bool_decide_unpack _); vm_compute; exact I.
  - repeat apply Forall_cons_2; [| |apply Forall_nil_2]; exists Demo.session; eexists; vm_compute; reflexivity.
  - split; [|split].
    + destruct (H 0 _ _ eq_refl) as (e & _ & E). exists e. exact E.
    + destruct (H 1 _ _ eq_refl) as (e & _ & E). exists e. exact E.
    + subst s'. rewrite He. vm_compute. reflexivity.
Defined.

